(* ===== verification/_CoqProject ===== *)
-Q . S2P
Prelude.v
RustStr.v
Json.v
CompactionItem.v
Select.v
F64.v
TokenEstimation.v
IntraConfig.v
Fit.v
Summary.v
Filter.v
Reminder.v
Sample.v
Intra.v
FullReplacePass.v
Inter.v
BreakerWindow.v
Breaker.v
BreakerRace.v
Delivery.v
DeliveryIds.v
Interjection.v
PromptQueue.v
Conversation.v
Usage.v
ConversationRepair.v
ImageBudget.v
RequestBuilder.v
ChatCompaction.v
ChatTypes.v
ChatState.v
ChatStateSpec.v
HunkTypes.v
HunkDiff.v
HunkTracker.v
HunkTrackerSpec.v
HunkTrackerViews.v
LocSink.v
LhcKeys.v
LhcTime.v
LhcMapping.v
LhcSession.v
LhcCapture.v
LhcCaptureSpec.v
LhcServing.v
LhcServingSpec.v
LhcTee.v
ShellWords.v
PermissionRules.v
PermissionPolicy.v
ExecRisk.v
ShellAccess.v
ShellAccessSpec.v
AutoMode.v
GrantState.v
Grants.v
GrantsSpec.v
PatchParser.v
PatchApply.v
PatchTool.v
