(* ===== verification/Prelude.v ===== *)
(** * Grok Build: the conversation, flow-control, delivery, change-tracking, capture, permission and patch core

    A verification library for the parts of Grok Build (a coding agent: a
    terminal interface, an agent shell, tools and a sampling client, in Rust)
    that decide what a model is sent and when: the actor that owns a session's
    conversation and builds each request from it, the compaction of a
    conversation that outgrew its window, the circuit breaker and retry policies around
    remote calls, the rules that admit, own, merge and frame the messages
    a user or another agent sends to a running turn, the actor that tracks what
    the agent changed in the user's files, the capture of a conversation into
    an event archive, the permission rules that decide whether a tool call
    may run, and the tool that applies a patch to the user's files. Paths below are under [src/].

    ** The program

    - [crates/common/xai-grok-compaction]: three compaction strategies over a
      generic conversation item. Intra-compaction runs inside a turn: a trigger
      compares the last prompt with the window ([trigger.rs]), a cut is chosen
      that separates no tool result from its request ([select.rs]), the input is
      fitted to the summarizer's budget ([fit.rs]), a model is asked for a
      summary, and a guarded commit replaces the old items ([compact.rs]).
      Full replacement rebuilds a fresh history around a cleaned summary
      ([code_compaction/]). Inter-compaction filters a finished conversation,
      keeps the user's queries verbatim and summarizes it in chunks
      ([inter_compaction/], [history/]). [reminder.rs] appends what is still
      running.
    - [crates/codegen/xai-token-estimation]: the bytes/4 estimate and the gates
      over a context window, which the hosts of the strategies use.
    - [crates/codegen/xai-grok-sampling-types] and
      [crates/codegen/xai-chat-state]: the items of a conversation and the
      answers of a model; the actor that owns the conversation of a session, the
      only writer of its persisted history, which takes commands one at a time.
      It repairs tool calls left without a result, prunes and strips what is too
      old or too large, keeps token estimates and billing ledgers, captures what
      a turn added, cuts the history for a rewind, and builds the request sent to
      the provider; [compaction_utils.rs] prepares the input of a full
      compaction and assembles the compacted history.
    - [crates/common/xai-circuit-breaker]: a lock-free breaker with a sliding
      window, a keyed registry, and the retry classification of HTTP and gRPC
      answers.
    - [crates/common/xai-message-delivery-core]: ownership of messages bound to
      a turn, operation grants, child addresses and restart-stable identities.
    - [crates/common/xai-interjection-core] and
      [crates/codegen/xai-prompt-queue]: the queue of mid-turn messages and
      their framing, and the merging of queued prompts into one turn.
    - [crates/codegen/xai-hunk-tracker]: an actor that holds, for each changed
      file, a baseline and the content last seen, and shows their difference as
      hunks with stable identifiers, attributed to the agent's turns or to others
      ([actor/hunks.rs], [diff.rs]). It takes the agent's writes, file events
      (coalesced), git refreshes, remounts and snapshots ([actor/mutations.rs],
      [git.rs], [mod.rs]); a user accepts hunks into the baseline or rejects them
      on disk ([actor/actions.rs]), by hunk, file, turn or all at once.
    - [crates/lhc/grok-lhc-host]: every item of a conversation becomes events of
      an archive ([mapping.rs]) under keys that name the item's content and its
      occurrence ([idempotency.rs]), so that the archive can drop what it has; a
      session ([session.rs]) finds its thread and submits batches, and a worker
      behind a bounded queue ([capture.rs]) captures live items, re-maps whole
      histories, skips bodies the archive generated ([generated_prefix.rs]) and
      holds back the end of a turn for the facts of the shell. The archive's view
      of a thread is translated back, aligned with the host's own items and served
      in a request, or written back after a compaction ([serving.rs], [lib.rs],
      [compact.rs]). [tee.rs] puts the capture beside the history on disk.
    - [crates/codegen/xai-grok-workspace/src/permission]: a shell script is
      split into its plain commands, each is peeled of wrappers to the command
      that runs ([bash_command_splitting.rs]); rules are parsed ([rules.rs]) and
      matched against tool calls ([policy.rs]), and a pre-flight gate decides
      what needs no prompt ([gate_preflight.rs]). The files a script reads and
      writes are found in its tree and put to the same rules ([shell_access.rs]);
      commands whose environment or options make another program run are
      flagged ([exec_risk.rs]); the automatic mode allows what it knows to be
      routine and leaves the rest to a model ([auto_mode/]). What a user granted or
      denied before is kept ([state.rs]) and decides without a prompt; an answer to the
      prompt adds to it ([grants.rs], [grants/bash_grants.rs]).
    - [crates/codegen/xai-grok-tools/src/implementations/codex/apply_patch]: a
      patch text is parsed into hunks ([parser.rs]); the blocks a hunk replaces
      are found, exactly or fuzzily ([seek_sequence.rs]), and the new contents of
      the file computed ([apply.rs]); the tool computes and checks all changes and
      then writes them ([tool.rs]).

    ** The files

    - [Prelude] (this file): conventions, machine-width arithmetic, [result],
      the state-and-error monad [eff], tactics, the [grok] hint database.
    - [RustStr]: [str] as UTF-8 bytes with the string operations the code calls.
      [F64]: [f64] as the Standard Library's IEEE 754 binary64.
    - [CompactionItem]: the data seam, [item.rs] and [token.rs]. The traits are
      type classes ([CompactionItemBuilder], [ItemTokenCounter], ...) with
      their documented laws in separate classes ([CompactionItemBuilderLaws],
      ...); everything below is proved against them, for any host item.
    - [Select]: [select.rs]. [Fit]: [fit.rs]. [IntraConfig]: [config.rs] and
      [trigger.rs] of [intra_compaction/]. [TokenEstimation]: its crate.
    - [Summary]: [summary.rs], [assemble.rs], [failure.rs], [config.rs] and
      [prompt.rs] of [code_compaction/]. [Sample]: [sampler.rs] and [sample.rs].
      [FullReplacePass]: [code_compaction/compact.rs].
    - [Filter]: [history/]. [Inter]: [inter_compaction/]. [Reminder]:
      [reminder.rs].
    - [Intra]: [intra_compaction/compact.rs] with the stream-processor trait as
      the class [CompactionStreamProc] and its contract.
    - [BreakerWindow]: window, configuration, states, retry policies. [Breaker]:
      the state machine and the registry, each method a program ([prog]) over
      the shared cells. [BreakerRace]: pools of such programs interleaved.
    - [Delivery]: [lifecycle.rs] and [envelope.rs]. [DeliveryIds]: [address.rs]
      and [identity.rs]. [Interjection] and [PromptQueue]: their crates.
    - [Conversation]: the items, responses, image stripping and rewind cut of
      [conversation.rs]. [ConversationRepair]: its passes over tool calls and
      results, and the host's validation of compacted histories.
    - [Usage]: [usage.rs]. [ImageBudget]: [image_budget.rs] over the class
      [JsonSizes]. [RequestBuilder]: [actor/request_builder.rs] and the system
      head. [ChatCompaction]: [compaction_utils.rs] of the chat state.
    - [ChatTypes]: the actor's state, commands, replies and persistence calls;
      [ChatState]: every operation of [actor/] and [handle_command], in the
      actor's state with the calls it has sent; [ChatStateSpec]: the disk that
      obeys those calls and the theorems about all runs of the actor.
    - [HunkTypes]: the data of [types.rs], [state.rs] and [file_utils.rs], the
      commands and events. [HunkDiff]: [diff.rs] over the class [LineDiff], and
      the patch loops. [HunkTracker]: every operation of [actor/], over the
      classes [FileSystem], [Git] and [DiffTimer]. [HunkTrackerSpec]: the states
      of a session and the invariant; [HunkTrackerViews]: actions on a file,
      queries, summary, coalescing and the loop. [LocSink]: the attribution
      records of [loc/mod.rs].
    - [Json]: JSON values, objects in insertion order, and the class [JsonText].
      [LhcKeys]: [idempotency.rs] over the class [ItemDigest]. [LhcTime]: the
      clock of [mapping.rs] and the calendar it computes. [LhcMapping]: the rest
      of [mapping.rs]. [LhcSession]: [session.rs] over the class [Archive] with
      its contract [ArchiveLaws]. [LhcCapture]: [capture.rs] and
      [generated_prefix.rs]; [LhcCaptureSpec]: the lives of a capture, with
      restarts, crashes and failing calls, and the theorems about them.
      [LhcServing]: [serving.rs], [compact.rs] and the entries of [lib.rs];
      [LhcServingSpec]: its theorems. [LhcTee]: [tee.rs], and actor, queue,
      worker and archive together.
    - [ShellWords]: [bash_command_splitting.rs] over an abstract syntax tree.
      [PermissionRules]: the data of [types.rs] and [rules.rs].
      [PermissionPolicy]: [policy.rs] and [gate_preflight.rs]. [ExecRisk]:
      [exec_risk.rs] over the class [GitConfig]. [ShellAccess]: [shell_access.rs],
      the targets of edits over the class [EditWorld]; [ShellAccessSpec]: its
      theorems. [AutoMode]: the security findings, [routine_git.rs] and the
      heuristic of [auto_mode/mod.rs]. [GrantState]: the stored state and the keys
      of grants, with the class [Urls]; [Grants]: [grants.rs] and [bash_grants.rs];
      [GrantsSpec]: their theorems.
    - [PatchParser]: [parser.rs] and the grammar it documents. [PatchApply]:
      [seek_sequence.rs] and [apply.rs], and the specification of an edit.
      [PatchTool]: [tool.rs] over the class [ToolWorld] (file system, memory
      policy) with its laws [ToolWorldLaws]; the file system of [mock_fs.rs] is an
      instance.

    Each definition that models code is preceded by a comment that names the
    lines it models.

    ** What is shown

    - The cut ([Select]): the backward walk and the snap compute the newest
      suffix within the target at the first boundary that orphans no tool
      result; no kept tool result has lost its request.
    - Committing ([Intra], [FullReplacePass], [Inter]): a failed pass changes
      nothing, but for the two-pass mode, which can fail after its first pass
      was committed (shown on a run); a successful pass replaces the stated
      prefix by one carrier within the reduction ratio and reports exact
      counts; chunks concatenate to the filtered conversation.
    - Sampling ([Sample]): the retry loop is total, makes at most the configured
      number of calls and returns the first decisive answer.
    - The budget ([Fit]): the fitted input is within the budget, equals a
      reference definition without the dead branches, keeps the newest items
      and is not empty, but for one input where everything is dropped (shown).
    - Text ([Summary], [Filter], [Reminder], [Interjection]): a cleaned summary
      holds none of the control tokens, cleaning is idempotent and its loops
      terminate; user queries survive any number of compactions; truncation is
      at character boundaries.
    - The breaker: used by one caller, [check] and [record] refine a reference
      state machine, keep the invariant and never get stuck; interleaved, the
      window stays exact and the state byte valid, while three schedules show
      where the comments of the source are wrong.
    - Delivery: in every reachable state each admitted message is owned exactly
      once and a message whose delivery has begun is never requeued; two-phase
      delivery commits a batch once; identities round-trip; the merged rows are
      the longest mergeable prefix.
    - The conversation ([Conversation], [ConversationRepair]): the rewind cut is at
      the prompt's marker; stripping removes exactly the images named; repair
      answers every call once, equals its reference definitions on the shape of
      the history, and leaves a sound history alone (it is not idempotent: shown).
    - The actor ([ChatStateSpec]): after every command the disk holds the
      conversation; a turn capture holds all that the turn added, across
      rewrites that a turn makes (a repair of the history is shown to lose it); a built
      request has every call answered, and is paired as a provider demands if no result of the
      conversation is displaced; the counters keep their width; restoring a snapshot restores what it holds; a rewrite never raises
      the token count; traces are conserved. A ledger adds up to its calls
      ([Usage]); the image budget reaches its target or has no image left
      ([ImageBudget]); a compacted history holds the user's last query and the
      fitted one is within the budget ([ChatCompaction]).
    - The hunk tracker: the hunks of texts of whole lines, without carriage returns and with a
      line in common that is not blank, can be accepted and
      rejected in any selection, all of them giving the other text back
      ([HunkDiff]); in every state of a session, after failed actions too, the
      hunks of a file are the difference of its contents (none, if the diff of its texts takes too long
      or a refresh found an agent's file clean), carry unique
      identifiers and sit under their path; accepting a file makes its content
      the baseline, rejecting one puts the baseline on disk or is an error; the
      turn index and the session summary are exact; coalescing keeps the last
      event of a path and the order of all other commands; the attribution
      records of a hunk add up to its ledger ([LocSink]). Runs show where
      patching loses text and where records stop adding up to the hunks shown.
    - The capture: keys that a seeding finds are never minted again ([LhcKeys]),
      re-mapping a history after a restart gives the keys stored before and an
      image block its parts ([LhcMapping]), the clock is the Gregorian calendar
      ([LhcTime]); in every life of a capture the keys of a live item are new (whether the archive answers or not) and
      no key is stored twice; while no call fails a captured history is all in
      the archive and replacing the history by it records nothing, and a body the
      archive generated is not recorded as source ([LhcCaptureSpec]). Two runs
      show where the comments on a poisoned baseline and on the frozen baseline
      are wrong. The conversation actor, the tee, the queue and the worker together
      have all of the actor's conversation in the archive while no call fails and the queue is never full ([LhcTee]).
    - Serving ([LhcServingSpec]): a served body is the host's prefix and the view,
      entry by entry, with the last markers; recorded contents come back as they
      were; a signature goes only to the identity it came from; writing back is a
      fixpoint when notes stand apart, and runs show where it is not; a compaction
      has one writer.
    - Permissions: decomposing a script hides none of its commands, peeling a
      command settles, rule text round-trips, the verdict over a script is the
      most restrictive one over its commands, a script is allowed only when
      each of its commands is, and the gate judges every command as the code peels it and asks
      about what it cannot see into; two spellings that slip past the peeling are shown. A file that a script is seen to
      read or write is gated as strictly as the direct read or edit of it, at any
      depth of inline scripts; the walk visits every command
      ([ShellAccessSpec]). What passes as a read-only query of [git] is
      characterized, the two unwrapping loops settle and agree ([ExecRisk]); the
      heuristic of the automatic mode lets a script run only known programs, at any depth of
      launchers, none of them fetching what it runs, with a harmless environment and
      harmless writes ([AutoMode]). Runs show where these look past a change of directory, a
      write, or an option. What a stored state lets a shell command do before anyone
      is asked is characterized; a denial rejects whatever is granted beside it (but for setup commands, which it does not
      reach), and nothing else does; an answer stores only keys derived from the call it was asked
      about, and an accepted row replays in every state; the static allowlist of domains
      and the names of tools meet their specifications ([GrantsSpec]). Runs show
      prefixes that hide a denied command, and answers stored or reported otherwise
      than documented.
    - The patch tool: a patch in the part of the documented grammar that the parser accepts parses to its meaning;
      the search finds the first block of the strictest pass; derived contents are
      the specified edit, and undone by the reverse patch; the tool always answers,
      writes nothing before every change is computed and checked, announces the
      changes it applied, and a patch that succeeds did what it says. Runs show
      forms of the grammar that are refused and edits that are lost.

    ** Fuel

    Loops without a structural measure carry fuel, and a lemma of the file
    shows that what the callers pass is enough: [Select.snap_loop],
    [Filter.split_prior_loop] and [BreakerWindow.evict_loop] take at least the
    length of what they consume, as do the loops of [Summary]
    ([Summary.format_compact_summary_terminates]); the retry loop of [Sample]
    takes the number of attempts. [ConversationRepair.dedup_loop], [repair_scan]
    and [dangling_scan] take one more than the length of the history, and
    [ChatCompaction.strip_tag] and [chat_peel] one more than that of the text;
    their specifications are stated of what the callers run. In [ShellWords] the walk takes the number
    of nodes of the tree ([walk_spec]) and the peeling loops the number of
    words; the rounds of [normalize_command_words] are the source's own bound.
    The loops of [PatchParser] take the number of lines
    ([PatchParser.parse_patch_text_total]). In [ExecRisk], [ShellAccess] and
    [AutoMode] the loops that peel words take at least the number of words
    ([AutoMode.routine_fuel]), the walk over a tree its nodes
    ([ShellAccessSpec.visited_complete]); the rounds of unwrapping and the depth
    of inline scripts are the source's own bounds. [GrantState.strip_escapes] takes
    the length of the text, of which each round removes two bytes
    ([GrantsSpec.strip_escapes_settles]).

    ** What is not modelled

    Logs, spans and metrics; durations and the values of clock readings where
    they are only reported; memory orderings weaker than sequential
    consistency (the breaker's relaxed accesses); the derived serde codecs;
    the text of the prompt templates, which are arguments; the models'
    answers, which are a parameter that may differ at every call; the sizes of
    serialized items (the class [JsonSizes], with its laws in [JsonLaws]); the
    acknowledgements of the persistence task, which are arguments of the
    commands that wait for one; the bash
    parser, glob and URL matching, the answers of the file system about
    symbolic links and git's configuration, which are parameters. In the hunk
    tracker the file system ([FileSystem]), the git library ([Git]), the line
    diff ([LineDiff], whose law is stated of texts without carriage returns, at
    which the library splits lines as well), the timer of a diff ([DiffTimer]), the order
    of hash maps ([HashOrder]) and fresh identifiers ([Uuids]) are parameters;
    failed blocking tasks and the creation times of hunks are left out; snapshots
    are restored into the session that took them. In the capture the archive
    ([Archive]), the digest of an item ([ItemDigest]), JSON text ([JsonText]) and
    the serialization of a search ([SearchActionJson]) are parameters; the
    registry of workers, threads, runtimes and the commands of test builds are
    left out, and when a cancellation arrives is an argument. Of the
    permission engine the manager that puts the parts in order, the files a state is
    kept in, the managed policy, the gate of the hub and the messages to the classifier
    model are left; URLs ([Urls]), the home directory and the file system behind the
    protected targets ([EditWorld]) are parameters. The hosts of these crates (the shell, the terminal
    interface, the workspace), the other tools, the workflow engine, the sandbox
    and the text area are not part of this library. The patch tool runs over any file system and memory policy;
    that their reads change nothing is in the types of [ToolWorld]. *)

From stdpp Require Export prelude strings list gmap.
From Stdlib Require Export Ascii NArith ZArith Lia.
From Stdlib Require Sorting.Sorted.

(** ** Conventions

    A Rust [usize] that is a [Vec] length or index is a [nat]; a [u8], [u16],
    [u32], [u64] or [u128] is an [N] whose wrap-around, saturation or clamping
    is written out where the source has it; [&str] and [String] are their UTF-8
    bytes, a [list ascii]; a [Result] is [result]. *)

Declare Scope grok_scope.
Delimit Scope grok_scope with grok.

Abbreviation str := (list ascii).

(** ** Machine-width unsigned integers *)

Abbreviation u8_max := 255%N.
Abbreviation u16_max := 65535%N.
Abbreviation u32_max := 4294967295%N.
Abbreviation u64_max := 18446744073709551615%N.

(** [u32::saturating_add], [u64::saturating_add], [u64::saturating_mul];
    [saturating_sub] of any width is [N.sub], which truncates at zero. *)
Definition sat_add32 (a b : N) : N := N.min (a + b) u32_max.
Definition sat_add64 (a b : N) : N := N.min (a + b) u64_max.
Definition sat_mul64 (a b : N) : N := N.min (a * b) u64_max.

(** [x as u32], [x as u8] for an integer [x], and the wrapping [+] of the
    release profile, which has no overflow checks. *)
Definition wrap8 (n : N) : N := (n `mod` 256)%N.
Definition wrap32 (n : N) : N := (n `mod` 4294967296)%N.
Definition wrap64 (n : N) : N := (n `mod` 18446744073709551616)%N.
Definition wrap_add32 (a b : N) : N := wrap32 (a + b).

(** [l.len() as u32]. *)
Definition len32 {A} (l : list A) : N := wrap32 (N.of_nat (length l)).

(** [iter.fold(0u32, u32::saturating_add)] and [iter.sum::<u32>()]. *)
Definition sat_sum (l : list N) : N := foldl sat_add32 0%N l.
Definition wrap_sum (l : list N) : N := foldl wrap_add32 0%N l.

(** The exact sum, the specification of both. *)
Fixpoint nsum (l : list N) : N :=
  match l with
  | [] => 0
  | x :: l' => x + nsum l'
  end%N.

(** ** Results *)

Inductive result (T E : Type) :=
  | Ok (t : T)
  | Err (e : E).
Arguments Ok {_ _} _.
Arguments Err {_ _} _.

Definition is_ok {T E} (r : result T E) : bool :=
  match r with Ok _ => true | Err _ => false end.

#[export] Instance result_eq_dec {T E} `{EqDecision T, EqDecision E} :
  EqDecision (result T E).
Proof. solve_decision. Defined.

(** ** Iteration of hash maps and sets

    [HashMap::iter], [drain], [keys] and [values], and [HashSet::iter], visit
    the entries in an order the library does not specify. *)
Class HashOrder := {
  hash_iter : ∀ {K} `{Countable K} {A}, gmap K A -> list (K * A);
  set_iter : ∀ {K} `{Countable K}, gset K -> list K;
}.

Class HashOrderLaws `{HashOrder} := {
  hash_iter_perm : ∀ {K} `{Countable K} {A} (m : gmap K A), hash_iter m ≡ₚ map_to_list m;
  set_iter_perm : ∀ {K} `{Countable K} (s : gset K), set_iter s ≡ₚ elements s;
}.

(** ** Stateful, fallible code

    [async fn] bodies that read and change shared state and exit early with [?]:
    a computation takes the state and returns a [result] and the new state,
    which an error keeps. The notations [x ← m; k], [m ;; k] and [mret] are
    stdpp's. *)

Definition eff (St E A : Type) := St -> result A E * St.

#[export] Instance eff_ret St E : MRet (eff St E) := fun A x s => (Ok x, s).
#[export] Instance eff_bind St E : MBind (eff St E) := fun A B k m s =>
  match m s with
  | (Ok x, s') => k x s'
  | (Err e, s') => (Err e, s')
  end.

Definition eff_fail {St E A} (e : E) : eff St E A := fun s => (Err e, s).
Definition eff_gets {St E A} (f : St -> A) : eff St E A := fun s => (Ok (f s), s).
Definition eff_modify {St E} (f : St -> St) : eff St E unit := fun s => (Ok tt, f s).
Definition eff_lift {St E A} (r : result A E) : eff St E A := fun s => (r, s).
(** Run [m] and look at its result instead of propagating its error. *)
Definition eff_try {St E A} (m : eff St E A) : eff St E (result A E) :=
  fun s => let '(r, s') := m s in (Ok r, s').

(** ** Tactics *)

(** ** Sorting

    [sort_by_key]: a stable ascending sort. *)
Fixpoint insert_asc {A} (key : A -> nat) (x : A) (l : list A) : list A :=
  match l with
  | [] => [x]
  | y :: rest => if Nat.leb (key x) (key y) then x :: l else y :: insert_asc key x rest
  end.

Definition sort_asc {A} (key : A -> nat) (l : list A) : list A := foldr (insert_asc key) [] l.

Definition key_le {A} (key : A -> nat) (x y : A) : Prop := key x ≤ key y.

(** Case analysis on every [match] and [if] of the goal or a hypothesis. *)
Ltac break_match_goal :=
  match goal with
  | |- context [match ?x with _ => _ end] => destruct x eqn:?
  end.
Ltac break_match_hyp :=
  match goal with
  | H : context [match ?x with _ => _ end] |- _ => destruct x eqn:?
  end.
Ltac break_matches := repeat (break_match_goal || break_match_hyp); simplify_eq/=.

(** Boolean comparisons on [N] and [nat] to propositions. *)
Ltac nbool :=
  repeat match goal with
  | H : N.leb _ _ = true |- _ => apply N.leb_le in H
  | H : N.leb _ _ = false |- _ => apply N.leb_gt in H
  | H : N.ltb _ _ = true |- _ => apply N.ltb_lt in H
  | H : N.ltb _ _ = false |- _ => apply N.ltb_ge in H
  | H : N.eqb _ _ = true |- _ => apply N.eqb_eq in H
  | H : N.eqb _ _ = false |- _ => apply N.eqb_neq in H
  | H : Nat.leb _ _ = true |- _ => apply Nat.leb_le in H
  | H : Nat.leb _ _ = false |- _ => apply Nat.leb_gt in H
  | H : Nat.ltb _ _ = true |- _ => apply Nat.ltb_lt in H
  | H : Nat.ltb _ _ = false |- _ => apply Nat.ltb_ge in H
  | H : Nat.eqb _ _ = true |- _ => apply Nat.eqb_eq in H
  | H : Nat.eqb _ _ = false |- _ => apply Nat.eqb_neq in H
  | H : andb _ _ = true |- _ => apply andb_true_iff in H; destruct H
  | H : orb _ _ = false |- _ => apply orb_false_iff in H; destruct H
  | H : negb _ = true |- _ => apply negb_true_iff in H
  | H : negb _ = false |- _ => apply negb_false_iff in H
  end.

(** A decidable statement about literals. *)
Ltac by_decide := refine (bool_decide_eq_true_1 _ _); vm_compute; reflexivity.

(** [lia] after the width definitions are unfolded. *)
Ltac sat_lia := unfold sat_add32, sat_add64, sat_mul64, wrap_add32, wrap32 in *; lia.

(** ** Integer lemmas *)

Create HintDb grok discriminated.

Lemma wrap64_small n : (n <= u64_max)%N -> wrap64 n = n.
Proof. intros. unfold wrap64. apply N.mod_small. lia. Qed.

Lemma wrap32_small n : (n <= u32_max)%N -> wrap32 n = n.
Proof. intros. unfold wrap32. apply N.mod_small. lia. Qed.

Lemma wrap_add32_small a b : (a + b <= u32_max)%N -> wrap_add32 a b = (a + b)%N.
Proof. apply wrap32_small. Qed.

Lemma wrap32_bound n : (wrap32 n <= u32_max)%N.
Proof. unfold wrap32. pose proof (N.mod_lt n 4294967296). lia. Qed.

Lemma wrap8_small n : (n <= u8_max)%N -> wrap8 n = n.
Proof. intros. unfold wrap8. apply N.mod_small. lia. Qed.

Lemma sat_add32_bound a b : (sat_add32 a b <= u32_max)%N.
Proof. sat_lia. Qed.

Lemma sat_add32_0_l a : (a <= u32_max)%N -> sat_add32 0 a = a.
Proof. sat_lia. Qed.

Lemma sat_add32_assoc a b c : sat_add32 (sat_add32 a b) c = sat_add32 a (sat_add32 b c).
Proof. sat_lia. Qed.

Lemma sat_add32_comm a b : sat_add32 a b = sat_add32 b a.
Proof. sat_lia. Qed.

#[export] Hint Resolve wrap32_bound sat_add32_bound : grok.

(** ** Saturating sums

    The saturating fold is the exact sum clamped once at the end, so it
    commutes with append and is monotone. *)

Lemma foldl_sat_add32 l a : (a <= u32_max)%N -> foldl sat_add32 a l = N.min (a + nsum l) u32_max.
Proof.
  revert a. induction l as [|x l IH]; intros a Ha; simpl; [lia|].
  rewrite IH by auto with grok. sat_lia.
Qed.

Lemma sat_sum_nsum l : sat_sum l = N.min (nsum l) u32_max.
Proof. unfold sat_sum. rewrite foldl_sat_add32; [f_equal|]; lia. Qed.

Lemma nsum_app l1 l2 : nsum (l1 ++ l2) = (nsum l1 + nsum l2)%N.
Proof. induction l1; simpl; lia. Qed.

Lemma sat_sum_bound l : (sat_sum l <= u32_max)%N.
Proof. rewrite sat_sum_nsum. lia. Qed.

Lemma sat_sum_app l1 l2 : sat_sum (l1 ++ l2) = sat_add32 (sat_sum l1) (sat_sum l2).
Proof. rewrite !sat_sum_nsum, nsum_app. sat_lia. Qed.

Lemma sat_sum_nil : sat_sum [] = 0%N.
Proof. reflexivity. Qed.

Lemma sat_sum_cons x l : (x <= u32_max)%N -> sat_sum (x :: l) = sat_add32 x (sat_sum l).
Proof. intros. rewrite !sat_sum_nsum. simpl. sat_lia. Qed.

Lemma sat_sum_exact l : (nsum l <= u32_max)%N -> sat_sum l = nsum l.
Proof. intros. rewrite sat_sum_nsum. lia. Qed.

Lemma nsum_drop_le n l : (nsum (drop n l) <= nsum l)%N.
Proof. rewrite <- (take_drop n l) at 2. rewrite nsum_app. lia. Qed.

Lemma nsum_drop_anti m n l : m ≤ n -> (nsum (drop n l) <= nsum (drop m l))%N.
Proof.
  intros. replace (drop n l) with (drop (n - m) (drop m l)).
  - apply nsum_drop_le.
  - rewrite drop_drop. f_equal. lia.
Qed.

Lemma sat_sum_drop_anti m n l : m ≤ n -> (sat_sum (drop n l) <= sat_sum (drop m l))%N.
Proof. intros. rewrite !sat_sum_nsum. pose proof (nsum_drop_anti m n l). lia. Qed.

Lemma foldl_wrap_add32 l a : foldl wrap_add32 a l = match l with [] => a | _ => wrap32 (a + nsum l) end.
Proof.
  revert a. induction l as [|x l IH]; intros a; simpl; [done|].
  rewrite IH. unfold wrap_add32, wrap32. destruct l as [|y l].
  - simpl. by rewrite N.add_0_r.
  - rewrite N.Div0.add_mod_idemp_l. f_equal. lia.
Qed.

(** [iter.sum::<u32>()] in the release profile: the exact sum modulo 2^32. *)
Lemma wrap_sum_nsum l : wrap_sum l = wrap32 (nsum l).
Proof. unfold wrap_sum. rewrite foldl_wrap_add32. by destruct l. Qed.

Lemma wrap_sum_sat_sum l : (nsum l <= u32_max)%N -> wrap_sum l = sat_sum l.
Proof. intros. rewrite wrap_sum_nsum, wrap32_small, sat_sum_exact by lia. done. Qed.

#[export] Hint Resolve sat_sum_bound : grok.
Create Rewrite HintDb grok_rw.
#[export] Hint Rewrite @sat_sum_nil sat_sum_app : grok_rw.

(** ** List lemmas shared by the components *)

Lemma len32_small {A} (l : list A) : (N.of_nat (length l) <= u32_max)%N -> len32 l = N.of_nat (length l).
Proof. apply wrap32_small. Qed.

(** A successful sequence splits into its two halves. *)
Lemma eff_bind_ok {St E A B} (m : eff St E A) (k : A -> eff St E B) s y s' :
  (m ≫= k) s = (Ok y, s') <-> ∃ x s1, m s = (Ok x, s1) ∧ k x s1 = (Ok y, s').
Proof.
  unfold mbind, eff_bind. destruct (m s) as [[x|e] s1]; split.
  - eauto.
  - intros (x' & s2 & Hm & Hk). by simplify_eq.
  - done.
  - intros (x' & s2 & Hm & _). done.
Qed.

Lemma eff_bind_err {St E A B} (m : eff St E A) (k : A -> eff St E B) s e s' :
  (m ≫= k) s = (Err e, s') <->
  m s = (Err e, s') ∨ ∃ x s1, m s = (Ok x, s1) ∧ k x s1 = (Err e, s').
Proof.
  unfold mbind, eff_bind. destruct (m s) as [[x|e'] s1]; split.
  - eauto.
  - intros [?|(x' & s2 & Hm & Hk)]; by simplify_eq.
  - intros Hm. simplify_eq. auto.
  - intros [Hm|(x' & s2 & Hm & _)]; by simplify_eq.
Qed.

Lemma drop_lookup_cons {A} (l : list A) i x : l !! i = Some x -> drop i l = x :: drop (S i) l.
Proof. apply drop_S. Qed.

(** * Sorting *)

Lemma insert_asc_perm {A} (key : A -> nat) x l : insert_asc key x l ≡ₚ x :: l.
Proof.
  induction l as [|y l IH]; cbn [insert_asc]; [done|]. destruct (Nat.leb _ _); [done|]. rewrite IH. constructor.
Qed.

Lemma sort_asc_perm {A} (key : A -> nat) l : sort_asc key l ≡ₚ l.
Proof. induction l as [|x l IH]; cbn; [done|]. by rewrite insert_asc_perm, IH. Qed.

Lemma insert_asc_sorted {A} (key : A -> nat) x l :
  Sorting.Sorted.StronglySorted (key_le key) l -> Sorting.Sorted.StronglySorted (key_le key) (insert_asc key x l).
Proof.
  induction 1 as [|y l Hs IH Hy]; cbn [insert_asc]; [by repeat constructor|].
  destruct (Nat.leb_spec (key x) (key y)) as [Hle|Hlt].
  - constructor; [by constructor|]. constructor; [done|]. eapply Forall_impl; [exact Hy|]. unfold key_le. lia.
  - constructor; [done|]. rewrite insert_asc_perm. constructor; [unfold key_le; lia|done].
Qed.

Lemma sort_asc_sorted {A} (key : A -> nat) l : Sorting.Sorted.StronglySorted (key_le key) (sort_asc key l).
Proof. induction l as [|x l IH]; [constructor|]. by apply insert_asc_sorted. Qed.
