(* ===== verification/RustStr.v ===== *)
(** * Rust strings

    [&str] and [String] as their UTF-8 bytes, and the standard-library string
    operations the modelled code calls, on bytes: [find], [rfind], [contains],
    [starts_with], [replace], [split], [matches], [trim], [chars],
    [is_char_boundary], [split_whitespace], [to_ascii_lowercase], [join] and
    the decimal and hexadecimal [Display] of unsigned integers. A pattern is
    never empty in the modelled code. *)

From S2P Require Export Prelude.
From Stdlib Require Import DecimalString HexadecimalString DecimalN HexadecimalN.

(** ** Bytes and literals *)

Definition lit (s : string) : str := String.list_ascii_of_string s.
Arguments lit _%_string_scope.

Definition byte (n : N) : ascii := ascii_of_N n.
Definition nl : str := [byte 10].
Definition dq : str := [byte 34].
(** U+200B, the zero-width space. *)
Definition zwsp : str := [byte 226; byte 128; byte 139].

Definition ch_eqb (a b : ascii) : bool := Ascii.eqb a b.
Definition ch_between (lo hi : N) (c : ascii) : bool :=
  N.leb lo (N_of_ascii c) && N.leb (N_of_ascii c) hi.

(** [char::is_ascii_digit] and [u8::to_ascii_lowercase]. *)
Definition is_ascii_digit : ascii -> bool := ch_between 48 57.
Definition to_ascii_lowercase_byte (c : ascii) : ascii :=
  if ch_between 65 90 c then ascii_of_N (N_of_ascii c + 32) else c.
Definition to_ascii_lowercase (s : str) : str := map to_ascii_lowercase_byte s.

Fixpoint str_eqb (a b : str) : bool :=
  match a, b with
  | [], [] => true
  | x :: a', y :: b' => ch_eqb x y && str_eqb a' b'
  | _, _ => false
  end.

Definition eq_ignore_ascii_case (a b : str) : bool :=
  str_eqb (to_ascii_lowercase a) (to_ascii_lowercase b).

(** ** Searching *)

Fixpoint starts_with (p s : str) : bool :=
  match p, s with
  | [], _ => true
  | x :: p', y :: s' => ch_eqb x y && starts_with p' s'
  | _ :: _, [] => false
  end.

Definition strip_prefix (p s : str) : option str :=
  if starts_with p s then Some (drop (length p) s) else None.

Definition ends_with (p s : str) : bool := starts_with (rev p) (rev s).

Definition strip_suffix (p s : str) : option str :=
  if ends_with p s then Some (take (length s - length p) s) else None.

Fixpoint find (p s : str) : option nat :=
  if starts_with p s then Some 0
  else match s with
       | [] => None
       | _ :: s' => S <$> find p s'
       end.

Fixpoint rfind (p s : str) : option nat :=
  match s with
  | [] => if starts_with p [] then Some 0 else None
  | _ :: s' =>
      match rfind p s' with
      | Some i => Some (S i)
      | None => if starts_with p s then Some 0 else None
      end
  end.

Definition contains (p s : str) : bool :=
  match find p s with Some _ => true | None => false end.

(** Non-overlapping matches from the left: [skip] bytes of a match remain. *)
Fixpoint replace_from (p r : str) (skip : nat) (s : str) : str :=
  match s with
  | [] => []
  | c :: s' =>
      match skip with
      | S k => replace_from p r k s'
      | 0 =>
          if starts_with p s then r ++ replace_from p r (pred (length p)) s'
          else c :: replace_from p r 0 s'
      end
  end.

Definition replace (p r s : str) : str := replace_from p r 0 s.

Fixpoint matches_from (p : str) (skip : nat) (s : str) : nat :=
  match s with
  | [] => 0
  | _ :: s' =>
      match skip with
      | S k => matches_from p k s'
      | 0 =>
          if starts_with p s then S (matches_from p (pred (length p)) s')
          else matches_from p 0 s'
      end
  end.

(** [s.matches(p).count()]. *)
Definition matches_count (p s : str) : nat := matches_from p 0 s.

(** [s.split(p)]; [cur] is the current segment, reversed. *)
Fixpoint split_from (p : str) (skip : nat) (cur s : str) : list str :=
  match s with
  | [] => [rev cur]
  | c :: s' =>
      match skip with
      | S k => split_from p k cur s'
      | 0 =>
          if starts_with p s then rev cur :: split_from p (pred (length p)) [] s'
          else split_from p 0 (c :: cur) s'
      end
  end.

Definition split (p s : str) : list str := split_from p 0 [] s.

Fixpoint join (sep : str) (l : list str) : str :=
  match l with
  | [] => []
  | [x] => x
  | x :: l' => x ++ sep ++ join sep l'
  end.

(** [s.split_inclusive] on line feeds: the lines with their line feed; [cur] is the
    current line, reversed. *)
Fixpoint split_inclusive_from (cur s : str) : list str :=
  match s with
  | [] => match cur with [] => [] | _ => [rev cur] end
  | c :: s' =>
      if ch_eqb c (byte 10) then rev (c :: cur) :: split_inclusive_from [] s'
      else split_inclusive_from (c :: cur) s'
  end.

Definition split_inclusive (s : str) : list str := split_inclusive_from [] s.

(** [s.lines()]: a line loses its line feed and a carriage return before it. *)
Definition strip_line_ending (line : str) : str :=
  match strip_suffix nl line with
  | None => line
  | Some l => default l (strip_suffix [byte 13] l)
  end.

Definition lines (s : str) : list str := map strip_line_ending (split_inclusive s).

(** ** Characters *)

(** A UTF-8 continuation byte, [0x80..=0xBF]. *)
Definition is_continuation : ascii -> bool := ch_between 128 191.

Definition head_is_continuation (s : str) : bool :=
  match s with c :: _ => is_continuation c | [] => false end.

(** [s.chars()], each character as its UTF-8 bytes. *)
Fixpoint chars (s : str) : list str :=
  match s with
  | [] => []
  | c :: s' =>
      if head_is_continuation s' then
        match chars s' with
        | ch :: rest => (c :: ch) :: rest
        | [] => [[c]]
        end
      else [c] :: chars s'
  end.

Definition chars_count (s : str) : nat := length (chars s).

(** [str::is_char_boundary]. *)
Definition is_char_boundary (s : str) (i : nat) : bool :=
  Nat.eqb i 0 ||
  match s !! i with
  | Some c => negb (is_continuation c)
  | None => Nat.eqb i (length s)
  end.

(** [while end > 0 && !text.is_char_boundary(end) { end -= 1 }]. *)
Fixpoint floor_char_boundary (text : str) (i : nat) : nat :=
  match i with
  | 0 => 0
  | S j => if is_char_boundary text i then i else floor_char_boundary text j
  end.

(** [std::str::from_utf8] succeeds. *)
Fixpoint valid_utf8 (s : str) : bool :=
  match s with
  | [] => true
  | c1 :: s1 =>
      if ch_between 0 127 c1 then valid_utf8 s1
      else
        match s1 with
        | [] => false
        | c2 :: s2 =>
            if ch_between 194 223 c1 then is_continuation c2 && valid_utf8 s2
            else
              match s2 with
              | [] => false
              | c3 :: s3 =>
                  if ch_between 224 239 c1 then
                    (if ch_between 224 224 c1 then ch_between 160 191 c2
                     else if ch_between 237 237 c1 then ch_between 128 159 c2
                     else is_continuation c2)
                    && is_continuation c3 && valid_utf8 s3
                  else
                    match s3 with
                    | [] => false
                    | c4 :: s4 =>
                        (if ch_between 240 240 c1 then ch_between 144 191 c2
                         else if ch_between 244 244 c1 then ch_between 128 143 c2
                         else ch_between 241 243 c1 && is_continuation c2)
                        && is_continuation c3 && is_continuation c4 && valid_utf8 s4
                    end
              end
        end
  end.

(** [String::from_utf8_lossy]: U+FFFD for each longest prefix of a character that
    cannot go on, or for a byte that starts none. *)
Definition replacement_char : str := [byte 239; byte 191; byte 189].

Definition second_byte_ok (c1 c2 : ascii) : bool :=
  if ch_between 224 224 c1 then ch_between 160 191 c2
  else if ch_between 237 237 c1 then ch_between 128 159 c2
  else if ch_between 240 240 c1 then ch_between 144 191 c2
  else if ch_between 244 244 c1 then ch_between 128 143 c2
  else is_continuation c2.

Fixpoint from_utf8_lossy (s : str) : str :=
  match s with
  | [] => []
  | c1 :: s1 =>
      if ch_between 0 127 c1 then c1 :: from_utf8_lossy s1
      else if negb (ch_between 194 244 c1) then replacement_char ++ from_utf8_lossy s1
      else
        match s1 with
        | [] => replacement_char
        | c2 :: s2 =>
            if negb (second_byte_ok c1 c2) then replacement_char ++ from_utf8_lossy s1
            else if ch_between 194 223 c1 then c1 :: c2 :: from_utf8_lossy s2
            else
              match s2 with
              | [] => replacement_char
              | c3 :: s3 =>
                  if negb (is_continuation c3) then replacement_char ++ from_utf8_lossy s2
                  else if ch_between 224 239 c1 then c1 :: c2 :: c3 :: from_utf8_lossy s3
                  else
                    match s3 with
                    | [] => replacement_char
                    | c4 :: s4 =>
                        if negb (is_continuation c4) then replacement_char ++ from_utf8_lossy s3
                        else c1 :: c2 :: c3 :: c4 :: from_utf8_lossy s4
                    end
              end
        end
  end.

(** [char::is_whitespace], the Unicode White_Space property, on the UTF-8 bytes
    of one character. *)
Definition is_whitespace (ch : str) : bool :=
  match map N_of_ascii ch with
  | [b] => (N.leb 9 b && N.leb b 13) || N.eqb b 32
  | [b1; b2] => N.eqb b1 194 && (N.eqb b2 133 || N.eqb b2 160)
  | [b1; b2; b3] =>
      (N.eqb b1 225 && N.eqb b2 154 && N.eqb b3 128)
      || (N.eqb b1 226 && N.eqb b2 128 && N.leb 128 b3 && N.leb b3 138)
      || (N.eqb b1 226 && N.eqb b2 128 && (N.eqb b3 168 || N.eqb b3 169 || N.eqb b3 175))
      || (N.eqb b1 226 && N.eqb b2 129 && N.eqb b3 159)
      || (N.eqb b1 227 && N.eqb b2 128 && N.eqb b3 128)
  | _ => false
  end.

Fixpoint drop_while {A} (f : A -> bool) (l : list A) : list A :=
  match l with
  | [] => []
  | x :: l' => if f x then drop_while f l' else l
  end.

Definition drop_while_end {A} (f : A -> bool) (l : list A) : list A :=
  rev (drop_while f (rev l)).

Definition trim_start (s : str) : str := concat (drop_while is_whitespace (chars s)).
Definition trim_end (s : str) : str := concat (drop_while_end is_whitespace (chars s)).
Definition trim (s : str) : str :=
  concat (drop_while_end is_whitespace (drop_while is_whitespace (chars s))).

(** [s.trim_start_matches(cs)] for a set of ASCII characters. *)
Definition trim_start_matches (cs : list ascii) (s : str) : str :=
  drop_while (fun c => existsb (ch_eqb c) cs) s.

(** [s.split_whitespace()]. *)
Fixpoint split_ws_chars (cur : list str) (l : list str) : list str :=
  match l with
  | [] => match cur with [] => [] | _ => [concat (rev cur)] end
  | ch :: l' =>
      if is_whitespace ch then
        match cur with
        | [] => split_ws_chars [] l'
        | _ => concat (rev cur) :: split_ws_chars [] l'
        end
      else split_ws_chars (ch :: cur) l'
  end.

Definition split_whitespace (s : str) : list str := split_ws_chars [] (chars s).

(** [s.split_once(c)]. *)
Fixpoint split_once (c : ascii) (s : str) : option (str * str) :=
  match s with
  | [] => None
  | x :: s' => if ch_eqb x c then Some ([], s') else prod_map (cons x) id <$> split_once c s'
  end.

(** [s.trim_matches(cs)] for ASCII characters. *)
Definition trim_matches (cs : list ascii) (s : str) : str :=
  let f c := existsb (ch_eqb c) cs in drop_while_end f (drop_while f s).

Definition is_ascii_alphabetic (c : ascii) : bool := ch_between 65 90 c || ch_between 97 122 c.
Definition is_ascii_alphanumeric (c : ascii) : bool := is_ascii_alphabetic c || is_ascii_digit c.

(** ** Integers *)

(** [format!("{n}")] and [format!("{n:x}")]. *)
Definition show_N (n : N) : str := lit (DecimalString.NilEmpty.string_of_uint (N.to_uint n)).
Definition show_hex (n : N) : str := lit (HexadecimalString.NilEmpty.string_of_uint (N.to_hex_uint n)).
Definition show_nat (n : nat) : str := show_N (N.of_nat n).

(** [s.is_empty()]. *)
Definition is_empty {A} (l : list A) : bool := match l with [] => true | _ => false end.

(** * Lemmas *)

(** ** Equality and prefixes *)

Lemma ch_eqb_eq a b : ch_eqb a b = true <-> a = b.
Proof. apply Ascii.eqb_eq. Qed.

Lemma ch_eqb_refl a : ch_eqb a a = true.
Proof. by apply ch_eqb_eq. Qed.

Lemma str_eqb_eq a b : str_eqb a b = true <-> a = b.
Proof.
  revert b. induction a as [|x a IH]; intros [|y b]; simpl; try done.
  rewrite andb_true_iff, ch_eqb_eq, IH. naive_solver.
Qed.

Lemma str_eqb_refl a : str_eqb a a = true.
Proof. by apply str_eqb_eq. Qed.

Lemma starts_with_spec p s : starts_with p s = true <-> ∃ r, s = p ++ r.
Proof.
  revert s. induction p as [|x p IH]; intros s; simpl.
  - split; [eauto|done].
  - destruct s as [|y s].
    + split; [done|]. intros [r Hr]. done.
    + rewrite andb_true_iff, ch_eqb_eq, IH. split.
      * intros [-> [r ->]]. eauto.
      * intros [r [= -> ->]]. eauto.
Qed.

Lemma starts_with_app p r : starts_with p (p ++ r) = true.
Proof. apply starts_with_spec. eauto. Qed.

Lemma starts_with_false_app p s r : starts_with p (s ++ r) = false -> starts_with p s = false.
Proof.
  intros Hf. destruct (starts_with p s) eqn:E; [|done].
  apply starts_with_spec in E as [q ->].
  by rewrite <- app_assoc, starts_with_app in Hf.
Qed.

Lemma strip_prefix_spec p s r : strip_prefix p s = Some r <-> s = p ++ r.
Proof.
  unfold strip_prefix. destruct (starts_with p s) eqn:E.
  - apply starts_with_spec in E as [q ->]. rewrite drop_app_length. split; [by intros [= ->]|].
    intros ?%app_inv_head. by subst.
  - split; [done|]. intros ->. by rewrite starts_with_app in E.
Qed.

(** ** Occurrences *)

Lemma strip_prefix_app p s : strip_prefix p (p ++ s) = Some s.
Proof. by apply strip_prefix_spec. Qed.

Lemma ends_with_spec p s : ends_with p s = true <-> ∃ t, s = t ++ p.
Proof.
  unfold ends_with. rewrite starts_with_spec. split.
  - intros [t Ht]. exists (rev t). rewrite <- (rev_involutive s), Ht, rev_app_distr. by rewrite rev_involutive.
  - intros [t ->]. exists (rev t). by rewrite rev_app_distr.
Qed.

Lemma strip_suffix_app p s : strip_suffix p (s ++ p) = Some s.
Proof.
  unfold strip_suffix. replace (ends_with p (s ++ p)) with true by (symmetry; apply ends_with_spec; eauto).
  f_equal. rewrite length_app. replace (length s + length p - length p) with (length s) by lia. apply take_app_length.
Qed.

Lemma strip_suffix_spec p s r : strip_suffix p s = Some r -> s = r ++ p.
Proof.
  unfold strip_suffix. destruct (ends_with p s) eqn:He; [|done]. intros [= <-].
  apply ends_with_spec in He as [t ->]. rewrite length_app, Nat.add_sub, take_app_length. done.
Qed.

(** [p] occurs in [s]. *)
Definition occurs (p s : str) : Prop := ∃ a b, s = a ++ p ++ b.

Lemma occurs_cons p c s : occurs p (c :: s) <-> starts_with p (c :: s) = true ∨ occurs p s.
Proof.
  rewrite starts_with_spec. split.
  - intros ([|x a] & b & Heq); simplify_eq/=; [left|right; exists a]; eauto.
  - intros [[r ->]|(a & b & ->)]; [by exists [], r|by exists (c :: a), b].
Qed.

Lemma occurs_trans p s t : occurs p s -> occurs s t -> occurs p t.
Proof.
  intros (a & b & ->) (a' & b' & ->). exists (a' ++ a), (b ++ b').
  by rewrite <- !app_assoc.
Qed.

Lemma occurs_app_l p a s : occurs p s -> occurs p (a ++ s).
Proof. intros (x & b & ->). exists (a ++ x), b. by rewrite app_assoc. Qed.

Lemma occurs_app_r p s b : occurs p s -> occurs p (s ++ b).
Proof. intros (a & y & ->). exists a, (y ++ b). by rewrite <- !app_assoc. Qed.

Lemma occurs_length p s : occurs p s -> length p ≤ length s.
Proof. intros (a & b & ->). rewrite !length_app. lia. Qed.

Lemma find_split p s i : find p s = Some i -> s = take i s ++ p ++ drop (i + length p) s.
Proof.
  revert i. induction s as [|c s IH]; intros i; simpl.
  - destruct p; simpl; [|done]. by intros [= <-].
  - destruct (starts_with p (c :: s)) eqn:E.
    + intros [= <-]. apply starts_with_spec in E as [r Hr]. simpl.
      rewrite Hr at 2. rewrite drop_app_length. done.
    + destruct (find p s) as [j|] eqn:Hj; [|done]. intros [= <-]. simpl.
      f_equal. by apply IH.
Qed.

Lemma find_lt p s i : p ≠ [] -> find p s = Some i -> i + length p ≤ length s.
Proof.
  intros Hp Hf. pose proof (find_split p s i Hf) as Hs.
  apply (f_equal length) in Hs. rewrite !length_app, length_take, length_drop in Hs.
  destruct p; [done|]. simpl in *. lia.
Qed.

(** The reported position is the first. *)
Lemma find_first p s i : find p s = Some i -> ∀ j, j < i -> starts_with p (drop j s) = false.
Proof.
  revert i. induction s as [|c s IH]; intros i; simpl.
  - destruct (starts_with p []) eqn:E; [|done]. intros [= <-]. lia.
  - destruct (starts_with p (c :: s)) eqn:E.
    + intros [= <-]. lia.
    + destruct (find p s) as [k|] eqn:Hk; [|done]. intros [= <-] [|j] Hj; [done|].
      apply (IH k); [done|lia].
Qed.

Lemma find_None p s : find p s = None <-> ¬ occurs p s.
Proof.
  induction s as [|c s IH]; simpl.
  - destruct (starts_with p []) eqn:E.
    + split; [done|]. intros []. exists [], []. apply starts_with_spec in E as [r Hr].
      by destruct p.
    + split; [|done]. intros _ (a & b & Heq). destruct a, p; simpl in *; done.
  - rewrite occurs_cons. simpl. destruct (starts_with p (c :: s)) eqn:E.
    + naive_solver.
    + destruct (find p s) as [k|] eqn:Hk; simpl; naive_solver.
Qed.

Lemma contains_spec p s : contains p s = true <-> occurs p s.
Proof.
  unfold contains. destruct (find p s) as [i|] eqn:E.
  - split; [|done]. intros _. rewrite (find_split _ _ _ E). eexists _, _. done.
  - split; [done|]. by intros ?%find_None.
Qed.

Lemma contains_false p s : contains p s = false <-> ¬ occurs p s.
Proof. rewrite <- contains_spec. by destruct (contains p s). Qed.

Lemma not_occurs_find p s : ¬ occurs p s -> find p s = None.
Proof. apply find_None. Qed.

(** ** Characters *)

Definition chunk_ok (ch : str) : Prop :=
  match ch with
  | [] => False
  | _ :: t => Forall (fun c => is_continuation c = true) t
  end.

(** The shape of a list of characters: each has one leading byte, and only the
    first may lack a proper one (in text that is not UTF-8). *)
Definition chunked (l : list str) : Prop :=
  Forall chunk_ok l ∧ Forall (fun ch => head_is_continuation ch = false) (tail l).

Lemma concat_chars s : concat (chars s) = s.
Proof.
  induction s as [|c s IH]; simpl; [done|].
  destruct (head_is_continuation s); [|simpl; by rewrite IH].
  destruct (chars s) as [|ch rest]; simpl in *; by rewrite IH.
Qed.

Lemma chars_head s : match chars s with
                     | [] => s = []
                     | ch :: _ => ∃ c t, ch = c :: t ∧ head s = Some c
                     end.
Proof.
  destruct s as [|c s]; simpl; [done|].
  destruct (head_is_continuation s); [destruct (chars s)|]; eauto.
Qed.

Lemma chars_chunked s : chunked (chars s).
Proof.
  induction s as [|c s [IH1 IH2]]; [by repeat constructor|]. simpl.
  pose proof (chars_head s) as Hh.
  destruct (head_is_continuation s) eqn:E; destruct (chars s) as [|ch rest]; simpl in *.
  - by repeat constructor.
  - destruct Hh as (d & t & -> & Hd). apply Forall_cons in IH1 as [Hch Hrest].
    destruct s as [|d' s]; simpl in *; [done|]. simplify_eq.
    split; simpl; [|done]. constructor; [|done]. by constructor.
  - repeat constructor.
  - destruct Hh as (d & t & -> & Hd). split; simpl; [constructor; [by constructor|done]|].
    constructor; [|done]. destruct s as [|d' s]; simpl in *; by simplify_eq.
Qed.

Lemma chars_cons_continuation c u :
  head_is_continuation u = true ->
  chars (c :: u) = match chars u with ch :: rest => (c :: ch) :: rest | [] => [[c]] end.
Proof. intros Hu. simpl. by rewrite Hu. Qed.

Lemma chars_concat l : chunked l -> chars (concat l) = l.
Proof.
  induction l as [|ch l IH]; [done|]. intros [[Hch Hok]%Forall_cons Hheads]. simpl in *.
  assert (Hl : chars (concat l) = l).
  { apply IH. split; [done|]. destruct Hheads; [done|]. done. }
  assert (Hhead : head_is_continuation (concat l) = false).
  { destruct l as [|[|d t] l]; simpl in *; [done| |].
    - apply Forall_cons in Hok as [[] _].
    - by apply Forall_cons in Hheads as [? _]. }
  clear IH Hok Hheads. destruct ch as [|c t]; [done|]. simpl in Hch.
  revert c. induction t as [|d t IHt]; intros c.
  - simpl. by rewrite Hhead, Hl.
  - apply Forall_cons in Hch as [Hd Ht]. specialize (IHt Ht d).
    change ((c :: d :: t) ++ concat l) with (c :: ((d :: t) ++ concat l)).
    rewrite chars_cons_continuation by done.
    change ((d :: t) ++ concat l) with (concat ((d :: t) :: l)) in *. simpl in IHt |- *. by rewrite IHt.
Qed.

Lemma chunked_app l1 l2 : chunked (l1 ++ l2) -> chunked l1 ∧ chunked l2.
Proof.
  intros [[H1 H2]%Forall_app Ht]. destruct l1 as [|ch l1]; simpl in *.
  - split; [by repeat constructor|by split].
  - apply Forall_app in Ht as [Ht1 Ht2]. split; split; try done.
    destruct l2; simpl in *; [done|by apply Forall_cons in Ht2 as [_ ?]].
Qed.

(** ** Trimming *)

Lemma drop_while_suffix {A} f (l : list A) : ∃ k, l = k ++ drop_while f l.
Proof.
  induction l as [|x l [k IH]]; simpl; [by exists []|].
  destruct (f x); [exists (x :: k); simpl; by f_equal|by exists []].
Qed.

Lemma drop_while_head {A} f (l : list A) :
  match drop_while f l with [] => True | x :: _ => f x = false end.
Proof. induction l as [|x l IH]; simpl; [done|]. destruct (f x) eqn:E; done. Qed.

Lemma drop_while_id {A} f (l : list A) :
  match l with [] => True | x :: _ => f x = false end -> drop_while f l = l.
Proof. destruct l as [|x l]; simpl; [done|]. by intros ->. Qed.

Lemma drop_while_idem {A} f (l : list A) : drop_while f (drop_while f l) = drop_while f l.
Proof. apply drop_while_id, drop_while_head. Qed.

Lemma drop_while_nil {A} f (l : list A) : drop_while f l = [] <-> forallb f l = true.
Proof. induction l as [|x l IH]; simpl; [done|]. destruct (f x); simpl; [done|split; done]. Qed.

Lemma drop_while_end_prefix {A} f (l : list A) : ∃ k, l = drop_while_end f l ++ k.
Proof.
  destruct (drop_while_suffix f (rev l)) as [k Hk]. exists (rev k).
  unfold drop_while_end. by rewrite <- rev_app_distr, <- Hk, rev_involutive.
Qed.

Lemma drop_while_end_idem {A} f (l : list A) :
  drop_while_end f (drop_while_end f l) = drop_while_end f l.
Proof. unfold drop_while_end. by rewrite rev_involutive, drop_while_idem. Qed.

Lemma trim_chars s :
  chars (trim s) = drop_while_end is_whitespace (drop_while is_whitespace (chars s)).
Proof.
  unfold trim. apply chars_concat.
  destruct (drop_while_suffix is_whitespace (chars s)) as [k Hk].
  destruct (drop_while_end_prefix is_whitespace (drop_while is_whitespace (chars s))) as [k' Hk'].
  pose proof (chars_chunked s) as Hc. rewrite Hk in Hc. apply chunked_app in Hc as [_ Hc].
  rewrite Hk' in Hc. by apply chunked_app in Hc as [? _].
Qed.

Lemma trim_end_prefix s : ∃ b, s = trim_end s ++ b.
Proof.
  destruct (drop_while_end_prefix is_whitespace (chars s)) as [k Hk]. exists (concat k). unfold trim_end.
  rewrite <- concat_app, <- Hk. symmetry. apply concat_chars.
Qed.

Lemma trim_infix s : ∃ a b, s = a ++ trim s ++ b.
Proof.
  destruct (drop_while_suffix is_whitespace (chars s)) as [k Hk].
  destruct (drop_while_end_prefix is_whitespace (drop_while is_whitespace (chars s))) as [k' Hk'].
  exists (concat k), (concat k'). unfold trim.
  rewrite <- (concat_chars s) at 1. rewrite Hk at 1. rewrite Hk' at 1.
  by rewrite !concat_app.
Qed.

Lemma trim_occurs p s : occurs p (trim s) -> occurs p s.
Proof. intros Ho. apply (occurs_trans _ (trim s)); [done|]. destruct (trim_infix s) as (a & b & ?). by exists a, b. Qed.

Lemma trim_idem s : trim (trim s) = trim s.
Proof.
  unfold trim at 1. rewrite trim_chars. set (d := drop_while is_whitespace (chars s)).
  rewrite (drop_while_id _ (drop_while_end is_whitespace d)).
  - by rewrite drop_while_end_idem.
  - pose proof (drop_while_head is_whitespace (chars s)) as Hh. fold d in Hh.
    destruct (drop_while_end_prefix is_whitespace d) as [k Hk].
    destruct (drop_while_end is_whitespace d) as [|x m]; [done|]. by rewrite Hk in Hh.
Qed.

Lemma trim_length s : length (trim s) ≤ length s.
Proof. destruct (trim_infix s) as (a & b & Hs). rewrite Hs at 2. rewrite !length_app. lia. Qed.

Lemma trim_nil : trim [] = [].
Proof. reflexivity. Qed.

(** ** Joining *)

Lemma join_cons sep x l : l ≠ [] -> join sep (x :: l) = x ++ sep ++ join sep l.
Proof. by destruct l. Qed.

Lemma is_empty_spec {A} (l : list A) : is_empty l = true <-> l = [].
Proof. by destruct l. Qed.

Lemma is_empty_false {A} (l : list A) : is_empty l = false <-> l ≠ [].
Proof. by destruct l. Qed.

(** ** Decimal printing *)

Fixpoint uint_digits (d : Decimal.uint) : nat :=
  match d with
  | Decimal.Nil => 0
  | Decimal.D0 d | Decimal.D1 d | Decimal.D2 d | Decimal.D3 d | Decimal.D4 d
  | Decimal.D5 d | Decimal.D6 d | Decimal.D7 d | Decimal.D8 d | Decimal.D9 d => S (uint_digits d)
  end.

Lemma show_uint_length d :
  length (lit (DecimalString.NilEmpty.string_of_uint d)) = uint_digits d.
Proof. unfold lit. induction d; simpl; try rewrite IHd; done. Qed.

Lemma of_uint_acc_ge d acc :
  (Npos acc * 10 ^ N.of_nat (uint_digits d) <= Npos (Pos.of_uint_acc d acc))%N.
Proof.
  revert acc. induction d; intros acc; cbn [uint_digits Pos.of_uint_acc];
    [change (N.of_nat 0) with 0%N; rewrite N.pow_0_r; lia|..];
    rewrite Nat2N.inj_succ, N.pow_succ_r' ;
    (etrans; [|apply IHd]); nia.
Qed.

(** A number below [10^k] prints with at most [k] digits (one for zero). *)
Lemma show_N_length n k : 0 < k -> (n < 10 ^ N.of_nat k)%N -> length (show_N n) ≤ k.
Proof.
  intros Hk Hn. unfold show_N. rewrite show_uint_length.
  pose proof (DecimalN.Unsigned.of_to n) as Hof.
  pose proof (DecimalN.Unsigned.to_of (N.to_uint n)) as Hnorm. rewrite Hof in Hnorm.
  remember (N.to_uint n) as d eqn:Hd. clear Hd.
  assert (Hz : ∀ d', Decimal.unorm (Decimal.D0 d') = Decimal.D0 d' -> d' = Decimal.Nil).
  { intros d' Hd'. unfold Decimal.unorm in Hd'. simpl in Hd'.
    pose proof (DecimalFacts.nzhead_nonzero d') as Hnz.
    destruct (Decimal.nzhead d') eqn:E; simplify_eq/=; [done|]. exfalso. by eapply Hnz. }
  destruct d; simpl in *; try lia;
    try (destruct (decide (uint_digits d < k)) as [|Hge]; [lia|]; exfalso;
         unfold N.of_uint in Hof; simpl in Hof; subst n;
         eapply N.lt_irrefl, N.lt_le_trans; [exact Hn|];
         etrans; [|apply of_uint_acc_ge]; etrans; [apply (N.pow_le_mono_r 10 (N.of_nat k) (N.of_nat (uint_digits d))); lia|lia]).
  symmetry in Hnorm. apply Hz in Hnorm as ->. simpl. lia.
Qed.

(** ** Replacement *)

Lemma replace_from_skip p r k s : replace_from p r k s = replace p r (drop k s).
Proof.
  revert k. induction s as [|c s IH]; intros [|k]; try done. simpl. apply IH.
Qed.

Lemma replace_nil p r : replace p r [] = [].
Proof. reflexivity. Qed.

Lemma replace_match p r s : p ≠ [] -> replace p r (p ++ s) = r ++ replace p r s.
Proof.
  intros Hp. destruct p as [|x p]; [done|]. unfold replace at 1.
  cbn [replace_from app]. change (x :: p ++ s) with ((x :: p) ++ s).
  rewrite starts_with_app, replace_from_skip. simpl. by rewrite drop_app_length.
Qed.

Lemma replace_skip p r c s :
  starts_with p (c :: s) = false -> replace p r (c :: s) = c :: replace p r s.
Proof. intros Hf. unfold replace at 1. cbn [replace_from]. by rewrite Hf. Qed.

(** Reasoning about [replace] along its run: a match or one copied byte. *)
Lemma replace_ind p r (P : str -> str -> Prop) :
  p ≠ [] ->
  P [] [] ->
  (∀ s, P s (replace p r s) -> P (p ++ s) (r ++ replace p r s)) ->
  (∀ c s, starts_with p (c :: s) = false -> P s (replace p r s) -> P (c :: s) (c :: replace p r s)) ->
  ∀ s, P s (replace p r s).
Proof.
  intros Hp Hnil Hmatch Hskip s.
  induction s as [s IH] using (induction_ltof1 _ (@length ascii)). unfold ltof in IH.
  destruct s as [|c s]; [done|]. destruct (starts_with p (c :: s)) eqn:E.
  - apply starts_with_spec in E as [u Hu]. rewrite Hu. rewrite replace_match by done.
    apply Hmatch, IH. rewrite Hu, length_app. destruct p; [done|]. simpl. lia.
  - rewrite replace_skip by done. apply Hskip; [done|]. apply IH. simpl. lia.
Qed.

Lemma replace_id p r s : p ≠ [] -> ¬ occurs p s -> replace p r s = s.
Proof.
  intros Hp. revert s. apply (replace_ind p r (fun s o => ¬ occurs p s -> o = s)); [done|done| |].
  - intros s _ Hn. destruct Hn. by exists [], s.
  - intros c s Hc IH Hn. f_equal. apply IH. intros Ho. apply Hn, occurs_cons. auto.
Qed.

Lemma replace_length_le p r s : p ≠ [] -> length r ≤ length p -> length (replace p r s) ≤ length s.
Proof.
  intros Hp Hr. revert s. apply (replace_ind p r (fun s o => length o ≤ length s)); [done|done| |].
  - intros s IH. rewrite !length_app. lia.
  - intros c s _ IH. simpl. lia.
Qed.

Lemma replace_length_lt p r s :
  p ≠ [] -> length r < length p -> occurs p s -> length (replace p r s) < length s.
Proof.
  intros Hp Hr. revert s. apply (replace_ind p r (fun s o => occurs p s -> length o < length s)); [done| | |].
  - intros Ho%occurs_length. destruct p; [done|simpl in *; lia].
  - intros s _ _. pose proof (replace_length_le p r s Hp). rewrite !length_app. lia.
  - intros c s Hc IH [Hs|Ho]%occurs_cons; [congruence|]. simpl. specialize (IH Ho). lia.
Qed.

Lemma starts_with_nil_r p : starts_with p [] = true -> p = [].
Proof. by destruct p. Qed.

Lemma occurs_app_no_head c q w s : c ∉ w -> occurs (c :: q) (w ++ s) -> occurs (c :: q) s.
Proof.
  induction w as [|x w IH]; [done|]. intros Hc. apply not_elem_of_cons in Hc as [Hx Hw].
  simpl. rewrite occurs_cons. intros [Hs|Ho]; [|by apply IH].
  apply starts_with_spec in Hs as [u Hu]. simpl in Hu. congruence.
Qed.

(** A replacement text that starts with [c] cannot begin inside a word without
    [c]. *)
Lemma replace_prefix_no_char p r c r' s w :
  p ≠ [] -> r = c :: r' -> c ∉ w ->
  starts_with w (replace p r s) = true -> starts_with w s = true.
Proof.
  intros Hp -> . revert w. revert s.
  apply (replace_ind p (c :: r') (fun s o => ∀ w, c ∉ w -> starts_with w o = true -> starts_with w s = true));
    [done|done| |].
  - intros s _ [|x w] Hw Hs; [done|]. apply not_elem_of_cons in Hw as [Hx _].
    apply starts_with_spec in Hs as [u Hu]. simpl in Hu. congruence.
  - intros d s _ IH [|x w] Hw Hs; [done|]. apply not_elem_of_cons in Hw as [_ Hw].
    simpl in *. apply andb_true_iff in Hs as [-> Hs]. simpl. by apply IH.
Qed.

(** Replacing a run of [c] by one of [c] creates no word without [c]. *)
Lemma replace_no_new_word p r c r' q s :
  p ≠ [] -> r = c :: r' -> Forall (eq c) r' -> q ≠ [] -> c ∉ q ->
  occurs q (replace p r s) -> occurs q s.
Proof.
  intros Hp Hr Hrun Hq Hc. revert s.
  apply (replace_ind p r (fun s o => occurs q o -> occurs q s)); [done|done| |].
  - intros s IH Ho. apply occurs_app_l, IH. destruct q as [|x q]; [done|].
    apply (occurs_app_no_head _ _ r); [|done]. apply not_elem_of_cons in Hc as [Hx _].
    rewrite Hr. intros [->|Hin]%elem_of_cons; [done|].
    rewrite Forall_forall in Hrun. by apply Hrun in Hin.
  - intros d s Hd IH. rewrite occurs_cons. intros [Hs|Ho]; apply occurs_cons; [left|right; auto].
    rewrite <- replace_skip with (r := r) in Hs by done. by apply (replace_prefix_no_char p r c r').
Qed.

(** [q] is a tag opened by [c]: [c], then a byte [d], and no further [c]. *)
Definition tag (c d : ascii) (q : str) : Prop := ∃ q', q = c :: d :: q' ∧ c ∉ d :: q'.

(** Replacing a tag by a text that opens with [c] but differs in its second
    byte removes the tag and creates no other. *)
Lemma replace_tag c d z p r d' q s :
  tag c d p -> tag c z r -> tag c d' q -> d' ≠ z ->
  occurs q (replace p r s) -> occurs q s ∧ q ≠ p.
Proof.
  intros (p' & -> & Hp) (r' & -> & Hr) (q' & -> & Hq) Hz. revert s.
  set (p := c :: d :: p') in *. set (r := c :: z :: r') in *.
  apply (replace_ind p r (fun s o => occurs (c :: d' :: q') o -> occurs (c :: d' :: q') s ∧ c :: d' :: q' ≠ p)).
  - done.
  - intros Ho%occurs_length; simpl in Ho; lia.
  - intros s IH Ho. unfold r in Ho. simpl in Ho. apply occurs_cons in Ho as [Hs|Ho].
    + apply starts_with_spec in Hs as [u Hu]. simpl in Hu. congruence.
    + apply (occurs_app_no_head _ _ (z :: r')) in Ho; [|done]. apply IH in Ho as [Ho Hne]. split; [by apply occurs_app_l|done].
  - intros x s Hx IH. rewrite (occurs_cons _ x). intros [Hs|Ho].
    + assert (Hin : starts_with (c :: d' :: q') (x :: s) = true).
      { cbn [starts_with] in Hs |- *. apply andb_true_iff in Hs as [-> Hs]. simpl.
        by apply (replace_prefix_no_char p r c (z :: r') s (d' :: q')). }
      split; [apply occurs_cons; by left|]. intros Heq. rewrite Heq in Hin. congruence.
    + apply IH in Ho as [Ho Hne]. split; [apply occurs_cons; by right|done].
Qed.

(** ** Searching around a known occurrence *)

Lemma occurs_elem p s c : occurs p s -> c ∈ p -> c ∈ s.
Proof. intros (a & b & ->) Hc. rewrite !elem_of_app. auto. Qed.

Lemma find_cons p c s : starts_with p (c :: s) = false -> find p (c :: s) = S <$> find p s.
Proof. intros Hf. simpl. by rewrite Hf. Qed.

Lemma find_after c p u v : c ∉ u -> find (c :: p) (u ++ c :: p ++ v) = Some (length u).
Proof.
  induction u as [|x u IH]; intros Hc.
  - cbn [app]. change (c :: p ++ v) with ((c :: p) ++ v). cbn [find app].
    change (c :: p ++ v) with ((c :: p) ++ v). by rewrite starts_with_app.
  - apply not_elem_of_cons in Hc as [Hx Hu]. cbn [app]. rewrite find_cons.
    + by rewrite IH.
    + simpl. destruct (ch_eqb c x) eqn:E; [|done]. by apply ch_eqb_eq in E.
Qed.

Lemma rfind_short p s : length s < length p -> rfind p s = None.
Proof.
  induction s as [|c s IH]; intros Hl; simpl in *; [by destruct p; simpl in *; [lia|]|].
  rewrite IH by lia. destruct (starts_with p (c :: s)) eqn:E; [|done].
  apply starts_with_spec in E as [r Hr]. apply (f_equal length) in Hr.
  rewrite length_app in Hr. simpl in Hr. lia.
Qed.

Lemma rfind_end p u : p ≠ [] -> rfind p (u ++ p) = Some (length u).
Proof.
  intros Hp. induction u as [|x u IH]; simpl; [|by rewrite IH].
  destruct p as [|y p]; [done|]. cbn [rfind]. rewrite rfind_short by (simpl; lia).
  rewrite <- (app_nil_r (y :: p)) at 2. by rewrite starts_with_app.
Qed.

Lemma rfind_None p s : rfind p s = None <-> ¬ occurs p s.
Proof.
  rewrite <- find_None. induction s as [|c s IH]; simpl; [by destruct (starts_with p [])|].
  destruct (rfind p s), (find p s), (starts_with p (c :: s)); simpl in *; naive_solver.
Qed.

(** ** Trimming known surroundings *)

Lemma chars_app s t : head_is_continuation t = false -> chars (s ++ t) = chars s ++ chars t.
Proof.
  intros Ht. rewrite <- (concat_chars s) at 1. rewrite <- (concat_chars t) at 1.
  rewrite <- concat_app. apply chars_concat.
  destruct (chars_chunked s) as [H1 H2], (chars_chunked t) as [H3 H4].
  split; [by apply Forall_app|].
  assert (Hh : Forall (fun ch => head_is_continuation ch = false) (chars t)).
  { pose proof (chars_head t) as Hh. destruct (chars t) as [|ch rest]; [done|].
    destruct Hh as (c & u & -> & Hc). constructor; [|done]. destruct t; simplify_eq/=. done. }
  destruct (chars s); simpl in *; [|by apply Forall_app].
  destruct (chars t); simpl in *; [done|by apply Forall_cons in Hh as [_ ?]].
Qed.

(** Neither end of the list satisfies [f]. *)
Definition edges {A} (f : A -> bool) (l : list A) : Prop :=
  match l with [] => True | x :: _ => f x = false end ∧
  match rev l with [] => True | x :: _ => f x = false end.

Lemma drop_while_length {A} f (l : list A) : length (drop_while f l) ≤ length l.
Proof. destruct (drop_while_suffix f l) as [k Hk]. rewrite Hk at 2. rewrite length_app. lia. Qed.

Lemma drop_while_length_eq {A} f (l : list A) :
  length l ≤ length (drop_while f l) -> match l with [] => True | x :: _ => f x = false end.
Proof.
  destruct l as [|x l]; [done|]. simpl. destruct (f x); [|done].
  pose proof (drop_while_length f l). lia.
Qed.

Lemma drop_while_end_length {A} f (l : list A) : length (drop_while_end f l) ≤ length l.
Proof. unfold drop_while_end. rewrite length_rev, <- (length_rev l). apply drop_while_length. Qed.

Lemma edges_id {A} f (l : list A) : edges f l <-> drop_while_end f (drop_while f l) = l.
Proof.
  split.
  - intros [Hh Ht]. rewrite (drop_while_id f l) by done. unfold drop_while_end.
    rewrite (drop_while_id f (rev l)) by done. apply rev_involutive.
  - intros Hl.
    assert (Hdw : length l ≤ length (drop_while f l)).
    { rewrite <- Hl at 1. apply drop_while_end_length. }
    pose proof (drop_while_length_eq _ _ Hdw) as Hh. split; [done|].
    rewrite (drop_while_id f l Hh) in Hl. apply drop_while_length_eq.
    apply (f_equal length) in Hl. unfold drop_while_end in Hl.
    rewrite length_rev in Hl. rewrite length_rev. lia.
Qed.

Lemma trim_fixed x : trim x = x <-> edges is_whitespace (chars x).
Proof.
  rewrite edges_id. split.
  - intros Hx. by rewrite <- trim_chars, Hx.
  - intros Hx. unfold trim. by rewrite Hx, concat_chars.
Qed.

Lemma drop_while_app {A} f (l m : list A) :
  forallb f l = true -> drop_while f (l ++ m) = drop_while f m.
Proof. induction l as [|x l IH]; simpl; [done|]. by destruct (f x). Qed.

Lemma forallb_rev {A} f (l : list A) : forallb f (rev l) = forallb f l.
Proof.
  induction l as [|x l IH]; [done|]. simpl. rewrite forallb_app. simpl.
  rewrite IH. destruct (f x), (forallb f l); done.
Qed.

Lemma trim_strip a x b :
  forallb is_whitespace (chars a) = true -> forallb is_whitespace (chars b) = true ->
  head_is_continuation x = false -> head_is_continuation b = false ->
  x ≠ [] -> trim x = x -> trim (a ++ x ++ b) = x.
Proof.
  intros Ha Hb Hx Hcb Hne Hx'. apply trim_fixed in Hx' as [Hh Ht]. unfold trim.
  rewrite chars_app by (by destruct x). rewrite chars_app by done.
  rewrite drop_while_app by done.
  rewrite (drop_while_id _ (chars x ++ chars b)).
  - unfold drop_while_end. rewrite rev_app_distr, drop_while_app by (by rewrite forallb_rev).
    rewrite drop_while_id by done. by rewrite rev_involutive, concat_chars.
  - pose proof (concat_chars x) as Hc. destruct (chars x); [by subst|done].
Qed.

(** ** Occurrences across a boundary *)

Lemma starts_with_app_inv q a x b : x ∉ q -> starts_with q (a ++ x :: b) = true -> starts_with q a = true.
Proof.
  revert a. induction q as [|y q IH]; intros a Hx; [done|]. apply not_elem_of_cons in Hx as [Hxy Hx].
  destruct a as [|z a]; simpl.
  - intros [?%ch_eqb_eq _]%andb_true_iff. congruence.
  - intros [-> Hs]%andb_true_iff. simpl. by apply IH.
Qed.

(** A byte that can only open [t] separates its occurrences; so does one that
    can only close it. *)
Lemma occurs_app_head t a x b :
  x ∉ tail t -> occurs t (a ++ x :: b) -> occurs t a ∨ occurs t (x :: b).
Proof.
  intros Hx. induction a as [|y a IH]; [by right|]. cbn [app].
  rewrite occurs_cons. intros [Hs|Ho].
  - left. apply occurs_cons. left. destruct t as [|c q]; [done|].
    cbn [starts_with] in *. apply andb_true_iff in Hs as [-> Hs]. simpl.
    by eapply starts_with_app_inv.
  - destruct (IH Ho); [left|by right]. apply occurs_cons. auto.
Qed.

Lemma occurs_rev t s : occurs t s <-> occurs (rev t) (rev s).
Proof.
  assert (Himp : ∀ t s, occurs t s -> occurs (rev t) (rev s)).
  { intros t' s' (a & b & ->). exists (rev b), (rev a). by rewrite !rev_app_distr, <- app_assoc. }
  split; [apply Himp|]. intros Ho%Himp. by rewrite !rev_involutive in Ho.
Qed.

Lemma occurs_app_last t a x b :
  x ∉ tail (rev t) -> occurs t ((a ++ [x]) ++ b) -> occurs t (a ++ [x]) ∨ occurs t b.
Proof.
  intros Hx. rewrite (occurs_rev t), (occurs_rev t (a ++ [x])), (occurs_rev t b).
  rewrite !rev_app_distr. simpl. intros Ho%occurs_app_head; [|done]. naive_solver.
Qed.

(** The first occurrence of a tag that nothing before it contains. *)
Lemma find_tag_after c q u v :
  c ∉ q -> ¬ occurs (c :: q) u -> find (c :: q) (u ++ (c :: q) ++ v) = Some (length u).
Proof.
  intros Hc. induction u as [|y u IH]; intros Hn.
  - cbn [app]. change (c :: q ++ v) with ((c :: q) ++ v). cbn [find app].
    change (c :: q ++ v) with ((c :: q) ++ v). by rewrite starts_with_app.
  - cbn [app] in *. rewrite find_cons.
    + rewrite IH; [done|]. intros Ho. apply Hn, occurs_cons. auto.
    + destruct (starts_with (c :: q) (y :: u ++ c :: q ++ v)) eqn:E; [|done].
      destruct Hn. apply occurs_cons. left. cbn [starts_with] in *.
      apply andb_true_iff in E as [-> E]. simpl. by eapply starts_with_app_inv.
Qed.

Lemma find_occurs_le p a b : ∃ i, find p (a ++ p ++ b) = Some i ∧ i ≤ length a.
Proof.
  induction a as [|x a (i & Hi & Hle)]; simpl.
  - exists 0. split; [|done]. destruct (p ++ b) eqn:E; simpl.
    + destruct p; [done|discriminate].
    + by rewrite <- E, starts_with_app.
  - destruct (starts_with p (x :: a ++ p ++ b)); [exists 0; auto with lia|].
    exists (S i). rewrite Hi. auto with lia.
Qed.

(** Leading white space does not matter to [trim]. *)
Lemma trim_lead a s :
  forallb is_whitespace (chars a) = true -> head_is_continuation s = false -> trim (a ++ s) = trim s.
Proof. intros Ha Hs. unfold trim. by rewrite chars_app, drop_while_app. Qed.

Lemma find_take p s i : p ≠ [] -> find p s = Some i -> ¬ occurs p (take i s).
Proof.
  intros Hp Hf (a & b & Hab). pose proof (find_lt _ _ _ Hp Hf) as Hlt.
  assert (Hl : length a + (length p + length b) = i).
  { apply (f_equal length) in Hab. rewrite length_take, !length_app in Hab. lia. }
  assert (Hpos : 0 < length p) by (destruct p; [done|simpl; lia]).
  assert (Hj : starts_with p (drop (length a) s) = false) by (apply (find_first _ _ _ Hf); lia).
  rewrite <- (take_drop i s), Hab, <- !app_assoc, drop_app_length in Hj.
  by rewrite starts_with_app in Hj.
Qed.

(** ** ASCII text *)

Definition ascii_only (s : str) : Prop := Forall (fun c => N.ltb (N_of_ascii c) 128 = true) s.

Lemma ascii_not_continuation c : N.ltb (N_of_ascii c) 128 = true -> is_continuation c = false.
Proof. intros Hc. nbool. unfold is_continuation, ch_between. destruct (N.leb_spec 128 (N_of_ascii c)); [lia|done]. Qed.

Lemma chars_ascii s : ascii_only s -> chars s = map (fun c => [c]) s.
Proof.
  induction 1 as [|c s Hc Hs IH]; [done|]. simpl. rewrite IH.
  destruct Hs as [|d s Hd Hs]; [done|]. simpl. by rewrite ascii_not_continuation.
Qed.

(** ASCII text without white space at its ends is left alone by [trim]. *)
Lemma trim_ascii s :
  ascii_only s -> Forall (fun c => is_whitespace [c] = false) s -> trim s = s.
Proof.
  intros Ha Hw. apply trim_fixed. rewrite chars_ascii by done. split.
  - by destruct Hw.
  - destruct (decide (s = [])) as [->|Hne]; [done|].
    destruct (exists_last Hne) as (t & c & ->). rewrite map_app, rev_app_distr. simpl.
    apply Forall_app in Hw as [_ Hw]. by apply Forall_inv in Hw.
Qed.

(** [0-9a-f]. *)
Definition is_lower_hex (c : ascii) : bool := ch_between 48 57 c || ch_between 97 102 c.

Lemma show_hex_digits n : Forall (fun c => is_lower_hex c = true) (show_hex n) ∧ show_hex n ≠ [].
Proof.
  unfold show_hex, lit. split.
  - generalize (N.to_hex_uint n). intros d. induction d; simpl; constructor; done.
  - pose proof (HexadecimalN.Unsigned.of_to n) as Hof.
    pose proof (HexadecimalN.Unsigned.to_of (N.to_hex_uint n)) as Hnorm. rewrite Hof in Hnorm.
    destruct (N.to_hex_uint n) eqn:E; try done.
Qed.

(** ** Concatenation *)

Lemma concat_elem {A} (l : list (list A)) x : x ∈ concat l <-> ∃ k, k ∈ l ∧ x ∈ k.
Proof. rewrite list_elem_of_In, in_concat. by setoid_rewrite list_elem_of_In. Qed.

(** ** Numbers *)

Lemma show_N_inj : Inj (=) (=) show_N.
Proof.
  intros a b Hab. unfold show_N, lit in Hab.
  apply (f_equal String.string_of_list_ascii) in Hab. rewrite !String.string_of_list_ascii_of_string in Hab.
  apply (f_equal DecimalString.NilEmpty.uint_of_string) in Hab. rewrite !DecimalString.NilEmpty.usu in Hab.
  injection Hab as Hab. by apply DecimalN.Unsigned.to_uint_inj in Hab.
Qed.

(** [0-9]. *)
Lemma show_N_digits n : Forall (fun c => is_ascii_digit c = true) (show_N n) ∧ show_N n ≠ [].
Proof.
  unfold show_N, lit. split.
  - generalize (N.to_uint n). intros d. induction d; simpl; constructor; done.
  - pose proof (DecimalN.Unsigned.of_to n) as Hof.
    pose proof (DecimalN.Unsigned.to_of (N.to_uint n)) as Hnorm. rewrite Hof in Hnorm.
    destruct (N.to_uint n) eqn:E; try done.
Qed.
(** The value of a digit string. *)
Definition digits_value (acc : N) (s : str) : N := foldl (fun n c => (10 * n + (N_of_ascii c - 48))%N) acc s.

Lemma digits_value_acc d acc :
  digits_value (Npos acc) (lit (DecimalString.NilEmpty.string_of_uint d)) = Npos (Pos.of_uint_acc d acc).
Proof.
  unfold digits_value, lit. revert acc. induction d as [|d IH|d IH|d IH|d IH|d IH|d IH|d IH|d IH|d IH|d IH]; intros acc; [done|..];
    cbn [DecimalString.NilEmpty.string_of_uint String.list_ascii_of_string foldl Pos.of_uint_acc]; rewrite <- IH; f_equal;
    cbn -[Pos.mul Pos.add]; lia.
Qed.

Lemma digits_value_show n : digits_value 0 (show_N n) = n.
Proof.
  unfold show_N. rewrite <- (DecimalN.Unsigned.of_to n) at 2. generalize (N.to_uint n). intros d.
  unfold N.of_uint. induction d as [|d IH|d IH|d IH|d IH|d IH|d IH|d IH|d IH|d IH|d IH]; [done|exact IH|..];
    cbn [Pos.of_uint]; rewrite <- digits_value_acc; done.
Qed.

(** ** Character boundaries *)

Lemma floor_char_boundary_spec s i :
  floor_char_boundary s i ≤ i ∧
  (floor_char_boundary s i ≠ 0 -> is_char_boundary s (floor_char_boundary s i) = true).
Proof.
  induction i as [|i IH]; cbn [floor_char_boundary]; [done|].
  destruct (is_char_boundary s (S i)) eqn:E; [done|]. destruct IH. auto with lia.
Qed.

Lemma is_char_boundary_length s : is_char_boundary s (length s) = true.
Proof. unfold is_char_boundary. rewrite lookup_ge_None_2 by done. by rewrite Nat.eqb_refl, orb_true_r. Qed.

(** ** Lines of a text *)

Lemma split_inclusive_line cur l s :
  byte 10 ∉ l -> split_inclusive_from cur (l ++ nl ++ s) = (rev cur ++ l ++ nl) :: split_inclusive_from [] s.
Proof.
  revert cur. induction l as [|c l IH]; intros cur Hl; cbn [app split_inclusive_from nl].
  - by rewrite ch_eqb_refl.
  - apply not_elem_of_cons in Hl as [Hc Hl].
    destruct (ch_eqb c (byte 10)) eqn:He; [apply ch_eqb_eq in He; congruence|].
    change (l ++ byte 10 :: s) with (l ++ nl ++ s). rewrite IH by done. cbn [rev]. by rewrite <- !app_assoc.
Qed.

(** A line as [lines] yields it: no line feed, no carriage return at its end. *)
Definition plain_line (l : str) : Prop := byte 10 ∉ l ∧ last l ≠ Some (byte 13).
Lemma split_inclusive_last cur l : byte 10 ∉ l -> rev cur ++ l ≠ [] -> split_inclusive_from cur l = [rev cur ++ l].
Proof.
  revert cur. induction l as [|c l IH]; intros cur Hl Hne; cbn [split_inclusive_from].
  - rewrite app_nil_r in *. by destruct cur.
  - apply not_elem_of_cons in Hl as [Hc Hl].
    destruct (ch_eqb c (byte 10)) eqn:He; [apply ch_eqb_eq in He; congruence|].
    rewrite IH; [|done|]; cbn [rev]; rewrite <- app_assoc; [done|]. by destruct (rev cur).
Qed.

Lemma strip_line_ending_id l : byte 10 ∉ l -> strip_line_ending l = l.
Proof.
  intros Hl. unfold strip_line_ending. destruct (strip_suffix nl l) eqn:E; [|done].
  apply strip_suffix_spec in E as ->. destruct Hl. apply elem_of_app. right. apply list_elem_of_here.
Qed.

Lemma strip_plain_line l : plain_line l -> strip_line_ending (l ++ nl) = l.
Proof.
  intros [_ Hl]. unfold strip_line_ending. rewrite strip_suffix_app.
  destruct (strip_suffix [byte 13] l) eqn:E; [|done].
  apply strip_suffix_spec in E as ->. by rewrite last_snoc in Hl.
Qed.

Lemma join_snoc sep L z : join sep (L ++ [z]) = concat (map (fun l => l ++ sep) L) ++ z.
Proof.
  induction L as [|x L IH]; [done|]. cbn [app map concat].
  rewrite join_cons by (by destruct L). by rewrite IH, <- !app_assoc.
Qed.

(** Lines joined by line feeds are the lines of the text, when the last is not empty. *)
Lemma lines_join L z : Forall plain_line L -> byte 10 ∉ z -> z ≠ [] -> lines (join nl (L ++ [z])) = L ++ [z].
Proof.
  intros HL Hz Hne. rewrite join_snoc. unfold lines, split_inclusive.
  induction HL as [|l L Hl HL IH]; cbn [map concat app].
  - rewrite split_inclusive_last by done. cbn [map rev app]. by rewrite strip_line_ending_id.
  - rewrite <- !app_assoc, split_inclusive_line by apply Hl. cbn [map rev app].
    by rewrite strip_plain_line, IH.
Qed.

(** ** Splitting at a byte *)

Lemma starts_with_byte x c s : x ≠ c -> starts_with [x] (c :: s) = false.
Proof.
  intros Hc. destruct (starts_with [x] (c :: s)) eqn:E; [|done].
  apply starts_with_spec in E as [r [= -> _]]. done.
Qed.

Lemma split_byte_last x cur l : x ∉ l -> split_from [x] 0 cur l = [rev cur ++ l].
Proof.
  revert cur. induction l as [|c l IH]; intros cur Hl; cbn [split_from]; [by rewrite app_nil_r|].
  apply not_elem_of_cons in Hl as [Hc Hl]. rewrite starts_with_byte, IH by done. cbn [rev]. by rewrite <- app_assoc.
Qed.

Lemma split_byte_app_from x cur a b :
  split_from [x] 0 cur (a ++ x :: b) = split_from [x] 0 cur a ++ split_from [x] 0 [] b.
Proof.
  revert cur. induction a as [|c a IH]; intros cur; cbn [app split_from].
  - by rewrite (starts_with_app [x] b : starts_with [x] (x :: b) = true).
  - destruct (decide (x = c)) as [<-|Hc].
    + rewrite !(starts_with_app [x] _ : starts_with [x] (x :: _) = true). cbn [pred length]. by rewrite IH.
    + rewrite !starts_with_byte by done. apply IH.
Qed.

Lemma split_byte_app x a b : split [x] (a ++ x :: b) = split [x] a ++ split [x] b.
Proof. apply split_byte_app_from. Qed.

Lemma split_byte_one x l : x ∉ l -> split [x] l = [l].
Proof. apply split_byte_last. Qed.

Lemma split_join_byte x ls z :
  Forall (fun l => x ∉ l) ls -> x ∉ z -> split [x] (join [x] (ls ++ [z])) = ls ++ [z].
Proof.
  intros Hls Hz. rewrite join_snoc. induction Hls as [|l ls Hl Hls IH]; cbn [map concat app].
  - by apply split_byte_one.
  - rewrite <- app_assoc, <- app_assoc. cbn [app]. by rewrite split_byte_app, (split_byte_one _ l), IH.
Qed.

(** Every string is the join of its segments, and no segment has the byte. *)
Lemma split_byte_spec x s : ∃ ls z, s = join [x] (ls ++ [z]) ∧ Forall (fun l => x ∉ l) (ls ++ [z]).
Proof.
  induction s as [|c s (ls & z & -> & Hf)].
  - exists [], []. split; [done|]. constructor; [apply not_elem_of_nil|constructor].
  - destruct (decide (c = x)) as [->|Hc].
    + exists ([] :: ls), z. split; [by rewrite !join_snoc|]. constructor; [apply not_elem_of_nil|done].
    + destruct ls as [|l ls].
      * exists [], (c :: z). split; [done|]. apply Forall_cons in Hf as [Hz _].
        constructor; [|constructor]. apply not_elem_of_cons. auto.
      * exists ((c :: l) :: ls), z. split; [by rewrite !join_snoc|]. apply Forall_cons in Hf as [Hl Hf].
        constructor; [|done]. apply not_elem_of_cons. auto.
Qed.

Lemma split_byte_free x s : Forall (fun l => x ∉ l) (split [x] s).
Proof.
  destruct (split_byte_spec x s) as (ls & z & -> & Hf). pose proof Hf as [Hls Hz]%Forall_app.
  rewrite split_join_byte; [done|done|]. by apply Forall_cons in Hz as [Hz _].
Qed.

Lemma join_split_byte x s : join [x] (split [x] s) = s.
Proof.
  destruct (split_byte_spec x s) as (ls & z & -> & Hf). pose proof Hf as [Hls Hz]%Forall_app.
  rewrite split_join_byte; [done|done|]. by apply Forall_cons in Hz as [Hz _].
Qed.

Lemma edges_ends {A} f (a m z : list A) : a ≠ [] -> z ≠ [] -> edges f a -> edges f z -> edges f (a ++ m ++ z).
Proof.
  intros Ha Hz [Hh _] [_ Ht]. split; [by destruct a|].
  rewrite !rev_app_distr. destruct (rev z) eqn:E; [|done].
  by rewrite <- (rev_involutive z), E in Hz.
Qed.

Lemma chars_nonempty s : s ≠ [] -> chars s ≠ [].
Proof. intros Hs Hc. apply Hs. by rewrite <- (concat_chars s), Hc. Qed.

(** A text between two trimmed ends is trimmed. *)
Lemma trim_ends a m z :
  a ≠ [] -> z ≠ [] -> trim a = a -> trim z = z -> head_is_continuation m = false -> head_is_continuation z = false ->
  trim (a ++ m ++ z) = a ++ m ++ z.
Proof.
  intros Ha Hz Hta Htz Hm Hcz. apply trim_fixed. rewrite chars_app by (by destruct m). rewrite chars_app by done.
  apply edges_ends; [by apply chars_nonempty..|by apply trim_fixed|by apply trim_fixed].
Qed.

(** ** Lossy conversion *)

Lemma ch_between_true lo hi c : ch_between lo hi c = true <-> (lo <= N_of_ascii c <= hi)%N.
Proof. unfold ch_between. rewrite andb_true_iff, !N.leb_le. done. Qed.

Lemma ch_between_false lo hi c : ch_between lo hi c = false <-> (N_of_ascii c < lo \/ hi < N_of_ascii c)%N.
Proof. unfold ch_between. rewrite andb_false_iff, !N.leb_gt. done. Qed.

(** The tests on the lead byte of a character, settled by its range. *)
Ltac lead :=
  repeat match goal with
  | H : ch_between _ _ _ = true |- _ => apply ch_between_true in H
  | H : ch_between _ _ _ = false |- _ => apply ch_between_false in H
  end;
  first [apply ch_between_true | apply ch_between_false]; lia.

Lemma from_utf8_lossy_valid s : valid_utf8 s = true -> from_utf8_lossy s = s.
Proof.
  induction s as [s IH] using (induction_ltof1 _ (@length ascii)). unfold ltof in IH.
  destruct s as [|c1 s1]; [done|]. cbn [valid_utf8 from_utf8_lossy].
  destruct (ch_between 0 127 c1) eqn:H1; [intros Hv; by rewrite IH by (cbn; lia || done)|].
  destruct s1 as [|c2 s2]; [done|]. unfold second_byte_ok.
  destruct (ch_between 194 223 c1) eqn:H2.
  { intros [Hc Hv]%andb_true_iff. assert (ch_between 194 244 c1 = true) as -> by lead.
    assert (ch_between 224 224 c1 = false) as -> by lead. assert (ch_between 237 237 c1 = false) as -> by lead.
    assert (ch_between 240 240 c1 = false) as -> by lead. assert (ch_between 244 244 c1 = false) as -> by lead.
    rewrite Hc. cbn [negb]. by rewrite IH by (cbn; lia || done). }
  destruct s2 as [|c3 s3]; [done|].
  destruct (ch_between 224 239 c1) eqn:H4.
  { intros [[Hs Hc]%andb_true_iff Hv]%andb_true_iff.
    assert (ch_between 194 244 c1 = true) as -> by lead.
    assert (ch_between 240 240 c1 = false) as -> by lead. assert (ch_between 244 244 c1 = false) as -> by lead.
    destruct (ch_between 224 224 c1); [|destruct (ch_between 237 237 c1)];
      rewrite Hs, Hc; cbn [negb]; by rewrite IH by (cbn; lia || done). }
  destruct s3 as [|c4 s4]; [done|].
  intros [[[Hs Hc]%andb_true_iff Hc4]%andb_true_iff Hv]%andb_true_iff.
  assert (ch_between 194 244 c1 = true) as ->.
  { destruct (ch_between 240 240 c1) eqn:H5; [lead|]. destruct (ch_between 244 244 c1) eqn:H6; [lead|].
    apply andb_true_iff in Hs as [Hs _]. lead. }
  assert (ch_between 224 224 c1 = false) as -> by lead. assert (ch_between 237 237 c1 = false) as -> by lead.
  destruct (ch_between 240 240 c1); [|destruct (ch_between 244 244 c1)].
  3: apply andb_true_iff in Hs as [_ Hs].
  all: rewrite Hs, Hc, Hc4; cbn [negb]; by rewrite IH by (cbn; lia || done).
Qed.
