(* ===== verification/Json.v ===== *)
(** * JSON values

    The values of the serde_json crate as the source builds and reads them. A map
    keeps the order of its keys (the [preserve_order] feature is on), and inserting
    a key it holds replaces the value in place. Parsing and printing are the
    crate's, so they are the class [JsonText]. *)

From S2P Require Import Prelude RustStr.

(** A number is the text it is printed as. *)
Inductive json :=
  | JNull
  | JBool (b : bool)
  | JNumber (text : str)
  | JString (s : str)
  | JArray (l : list json)
  | JObject (m : list (str * json)).

Abbreviation JMap := (list (str * json)).

(** [map.insert(k, v)] and [map.get(k)]. *)
Fixpoint map_insert (k : str) (v : json) (m : JMap) : JMap :=
  match m with
  | [] => [(k, v)]
  | (k', v') :: m' => if str_eqb k k' then (k, v) :: m' else (k', v') :: map_insert k v m'
  end.
Fixpoint map_get (k : str) (m : JMap) : option json :=
  match m with
  | [] => None
  | (k', v') :: m' => if str_eqb k k' then Some v' else map_get k m'
  end.

(** [json!({ ... })]. *)
Definition json_map (entries : list (str * json)) : JMap :=
  foldl (fun m '(k, v) => map_insert k v m) [] entries.

(** [v.as_str()] and [v.as_object()]. *)
Definition as_str (v : json) : option str := match v with JString s => Some s | _ => None end.
Definition as_object (v : json) : option JMap := match v with JObject m => Some m | _ => None end.

(** [serde_json::from_str] and [serde_json::to_string]. *)
Class JsonText := {
  json_from_str : str -> option json;
  json_to_string : json -> str;
}.

Lemma json_eq_dec (a b : json) : {a = b} + {a ≠ b}.
Proof.
  revert a b. fix IH 1. intros [|x|x|x|l|m] [|y|y|y|l'|m']; try (right; discriminate).
  - by left.
  - destruct (decide (x = y)) as [->|]; [by left|right; congruence].
  - destruct (decide (x = y)) as [->|]; [by left|right; congruence].
  - destruct (decide (x = y)) as [->|]; [by left|right; congruence].
  - destruct (list_eq_dec (dec := IH) l l') as [->|]; [by left|right; congruence].
  - assert (Hp : ∀ p q : str * json, {p = q} + {p ≠ q}).
    { intros [k v] [k' v']. destruct (decide (k = k')) as [->|]; [|right; congruence].
      destruct (IH v v') as [->|]; [by left|right; congruence]. }
    destruct (list_eq_dec (dec := Hp) m m') as [->|]; [by left|right; congruence].
Defined.

#[export] Instance json_eq_decision : EqDecision json := json_eq_dec.

Lemma map_get_insert k v m : map_get k (map_insert k v m) = Some v.
Proof.
  induction m as [|[k' v'] m IH]; cbn; [by rewrite str_eqb_refl|].
  destruct (str_eqb k k') eqn:He; cbn; [by rewrite str_eqb_refl|by rewrite He].
Qed.

Lemma map_get_insert_ne k k' v m : k ≠ k' -> map_get k (map_insert k' v m) = map_get k m.
Proof.
  intros Hne. induction m as [|[k0 v0] m IH]; cbn.
  - destruct (str_eqb k k') eqn:He; [by apply str_eqb_eq in He|done].
  - destruct (str_eqb k' k0) eqn:H1; cbn.
    + apply str_eqb_eq in H1 as <-. destruct (str_eqb k k') eqn:He; [by apply str_eqb_eq in He|done].
    + by rewrite IH.
Qed.
