(* ===== verification/CompactionItem.v ===== *)
(** * The compaction data seam

    The [CompactionItem] trait family of
    [crates/common/xai-grok-compaction/src/item.rs] and the
    [ItemTokenCounter] trait of [token.rs], as type classes: the shared
    compaction algorithms are generic over a harness's conversation item, and
    every theorem of the compaction files is proved against these classes. *)

From S2P Require Export Prelude.

(** Source: crates/common/xai-grok-compaction/src/item.rs:24-37, [CompactionRole]. *)
Inductive CompactionRole :=
  | System
  | Developer
  | User
  | Assistant
  | Tool.

#[export] Instance CompactionRole_eq_dec : EqDecision CompactionRole.
Proof. solve_decision. Defined.

(** Source: crates/common/xai-grok-compaction/src/item.rs:42-48, [CompactionFileRef]. *)
Record CompactionFileRef := mkFileRef {
  file_id : str;
  file_name : str;
}.

#[export] Instance CompactionFileRef_eq_dec : EqDecision CompactionFileRef.
Proof. solve_decision. Defined.

(** The trait's methods. [is_tool_result] has a default body in the source,
    [role_is_tool] below; implementors may override it, so it is a method.

    Source: crates/common/xai-grok-compaction/src/item.rs:56-97, [CompactionItem]. *)
Class CompactionItem (T : Type) := {
  role : T -> CompactionRole;
  text : T -> option str;
  is_tool_result : T -> bool;
  has_tool_requests : T -> bool;
  is_compaction_summary : T -> bool;
  attachment_refs : T -> list CompactionFileRef;
}.

(** The default of [CompactionItem::is_tool_result].

    Source: crates/common/xai-grok-compaction/src/item.rs:70-72, [CompactionItem::is_tool_result]. *)
Definition role_is_tool (r : CompactionRole) : bool :=
  match r with Tool => true | _ => false end.

(** Source: crates/common/xai-grok-compaction/src/item.rs:104-131, [CompactionItemBuilder]. *)
Class CompactionItemBuilder (T : Type) `{CompactionItem T} := {
  compaction_summary_item : str -> T;
  strip_tool_content : T -> option T;
  truncate_payload_for_compaction : T -> N -> T;
}.

(** The contract the trait's documentation states: a summary carrier is
    recognised as one, and its text is the text it was built from (the carrier
    "carries a compaction summary back into the conversation"). *)
Class CompactionItemBuilderLaws (T : Type) `{CompactionItemBuilder T} := {
  summary_item_is_summary s : is_compaction_summary (compaction_summary_item s) = true;
  summary_item_text s : text (compaction_summary_item s) = Some s;
}.

(** Source: crates/common/xai-grok-compaction/src/item.rs:149-160, [CompactionItemFactory]. *)
Class CompactionItemFactory (T : Type) := {
  new_user : str -> T;
  new_user_meta : str -> T;
  new_project_instructions : str -> T;
  new_system_reminder : str -> T;
}.

(** The counter's [u32] result type is the law.

    Source: crates/common/xai-grok-compaction/src/token.rs:21-24, [ItemTokenCounter]. *)
Class ItemTokenCounter (T : Type) := {
  count_item_tokens : T -> N;
  count_item_tokens_u32 t : (count_item_tokens t <= u32_max)%N;
}.

#[export] Hint Resolve count_item_tokens_u32 : grok.

(** ** A concrete item

    The mock items of the crate's test modules (a role, a text and the two
    flags), the instance the witnesses run on. *)

Record MockItem := mkMock {
  mock_role : CompactionRole;
  mock_text : str;
  mock_requests : bool;
  mock_summary : bool;
}.

#[export] Instance MockItem_eq_dec : EqDecision MockItem.
Proof. solve_decision. Defined.

#[export] Instance mock_item : CompactionItem MockItem := {|
  role := mock_role;
  text m := Some (mock_text m);
  is_tool_result m := role_is_tool (mock_role m);
  has_tool_requests := mock_requests;
  is_compaction_summary := mock_summary;
  attachment_refs _ := [];
|}.

#[export] Instance mock_builder : CompactionItemBuilder MockItem := {|
  compaction_summary_item s := mkMock Developer s false true;
  strip_tool_content m := Some (mkMock (mock_role m) (mock_text m) false (mock_summary m));
  truncate_payload_for_compaction m n :=
    mkMock (mock_role m) (take (N.to_nat (4 * n)) (mock_text m)) (mock_requests m) (mock_summary m);
|}.

#[export] Instance mock_builder_laws : CompactionItemBuilderLaws MockItem.
Proof. by split. Qed.

#[export] Instance mock_factory : CompactionItemFactory MockItem := {|
  new_user s := mkMock User s false false;
  new_user_meta s := mkMock User s false false;
  new_project_instructions s := mkMock User s false false;
  new_system_reminder s := mkMock User s false false;
|}.

(** Bytes of the text, at least one: the shape of the tests' [CharCounter]. *)
Definition mock_count (m : MockItem) : N :=
  N.min (N.max 1 (N.of_nat (length (mock_text m)))) u32_max.

Lemma mock_count_u32 m : (mock_count m <= u32_max)%N.
Proof. unfold mock_count. lia. Qed.

#[export] Instance mock_counter : ItemTokenCounter MockItem := {|
  count_item_tokens := mock_count;
  count_item_tokens_u32 := mock_count_u32;
|}.
