(* ===== verification/Select.v ===== *)
(** * Turn selection

    [crates/common/xai-grok-compaction/src/select.rs]: where to cut a
    conversation so that the newest items fit a token budget and no tool result
    is separated from the assistant item that requested it. *)

From S2P Require Export CompactionItem.

(** Source: crates/common/xai-grok-compaction/src/select.rs:19-25, [SplitPlan]. *)
Record SplitPlan := mkSplitPlan {
  split_idx : nat;
  tokens_to_compact : N;
}.

#[export] Instance SplitPlan_eq_dec : EqDecision SplitPlan.
Proof. solve_decision. Defined.

Section select.
  Context {T : Type} `{CompactionItem T}.
  Implicit Types items : list T.

(** The backward loop of step 1, entered with [i] iterations left. The source
      indexes [item_token_counts] and panics when it is shorter than [items];
    it debug-asserts equal lengths, which every caller establishes by mapping
      the counter over the items, and which the theorems assume.

    Source: crates/common/xai-grok-compaction/src/select.rs:79-91, [select_turns_to_compact]. *)
Fixpoint select_walk (counts : list N) (target kept : N) (split i : nat) : nat :=
    match i with
    | 0 => split
    | S j =>
        let count := nth j counts 0%N in
        if N.ltb target (sat_add32 kept count) then S j
        else select_walk counts target (sat_add32 kept count) j j
    end.

(** The [while] loop of [snap_to_safe_boundary]; [fuel] bounds its iterations
      and the number of items is enough.

    Source: crates/common/xai-grok-compaction/src/select.rs:142-146, [snap_to_safe_boundary]. *)
Fixpoint snap_loop items (fuel idx : nat) : nat :=
    match fuel with
    | 0 => idx
    | S fuel' =>
        match items !! idx with
        | Some t => if is_tool_result t then snap_loop items fuel' (S idx) else idx
        | None => idx
        end
    end.

(** Source: crates/common/xai-grok-compaction/src/select.rs:128-147, [snap_to_safe_boundary]. *)
Definition snap_to_safe_boundary items (candidate : nat) : nat :=
    match items !! candidate with
    | None => length items
    | Some t =>
        if negb (is_tool_result t) then candidate
        else snap_loop items (length items) candidate
    end.

(** Source: crates/common/xai-grok-compaction/src/select.rs:60-119, [select_turns_to_compact]. *)
Definition select_turns_to_compact (counts : list N) items (target min_compactable : N) :
      option SplitPlan :=
    let total := length items in
    if Nat.eqb total 0 then None
    else
      let split := select_walk counts target 0%N total total in
      if Nat.eqb split 0 then None
      else
        let safe := snap_to_safe_boundary items split in
        if Nat.leb total safe then None
        else
          let tokens := sat_sum (take safe counts) in
          if N.ltb tokens min_compactable then None
          else Some (mkSplitPlan safe tokens).

(** ** Specification *)

(** A conversation whose tool results all follow, with nothing but tool results
    in between, an assistant item that carries tool requests; [is_open] says
    whether such an item precedes the list. *)
Fixpoint paired_from (is_open : bool) items : bool :=
  match items with
  | [] => true
  | t :: rest =>
      if is_tool_result t then is_open && paired_from is_open rest
      else paired_from (has_tool_requests t) rest
  end.

Definition paired items : bool := paired_from false items.

Definition tool_at items (i : nat) : bool :=
  match items !! i with Some t => is_tool_result t | None => false end.

(** The items from [s] on fit the budget. *)
Definition fits (counts : list N) (target : N) (s : nat) : Prop :=
  (sat_sum (drop s counts) <= target)%N.

(** A cut that fits the budget and does not start with a tool result. *)
Definition safe_cut counts items target (s : nat) : Prop :=
  s < length items ∧ fits counts target s ∧ tool_at items s = false.

Definition least_safe_cut counts items target (s : nat) : Prop :=
  safe_cut counts items target s ∧ ∀ j, j < s -> ¬ safe_cut counts items target j.

(** ** The backward walk *)

Lemma sat_sum_drop_step counts j :
  j < length counts ->
  sat_add32 (sat_sum (drop (S j) counts)) (nth j counts 0%N) = sat_sum (drop j counts).
Proof.
  intros Hj. destruct (lookup_lt_is_Some_2 counts j Hj) as [x Hx].
  rewrite (nth_lookup_Some _ _ _ _ Hx), (drop_lookup_cons _ _ _ Hx).
  rewrite !sat_sum_nsum. simpl. sat_lia.
Qed.

Lemma fits_mono counts target i j : i ≤ j -> fits counts target i -> fits counts target j.
Proof. unfold fits. intros Hij Hi. pose proof (sat_sum_drop_anti i j counts Hij). lia. Qed.

(** The walk stops at the least index from which the items fit. *)
Lemma select_walk_spec counts target i :
  i ≤ length counts ->
  fits counts target i ->
  let s := select_walk counts target (sat_sum (drop i counts)) i i in
  s ≤ i ∧ fits counts target s ∧ ∀ j, j < s -> ¬ fits counts target j.
Proof.
  induction i as [|i IH]; intros Hi Hfit; simpl; [auto with lia|].
  rewrite (sat_sum_drop_step counts i Hi).
  destruct (N.ltb_spec target (sat_sum (drop i counts))) as [Hlt|Hge].
  - split_and!; [done..|]. intros j Hj Hfj.
    apply (fits_mono _ _ j i) in Hfj; [|lia]. unfold fits in Hfj. lia.
  - destruct (IH ltac:(lia) Hge) as (? & ? & ?). auto with lia.
Qed.

Lemma select_walk_start counts target :
  let s := select_walk counts target 0%N (length counts) (length counts) in
  fits counts target s ∧ ∀ j, j < s -> ¬ fits counts target j.
Proof.
  assert (Hd : drop (length counts) counts = []) by (by apply drop_ge).
  pose proof (select_walk_spec counts target (length counts)) as H'.
  unfold fits in H' at 1. rewrite Hd in H'. simpl in H'.
  destruct H' as (_ & ? & ?); [lia|rewrite sat_sum_nil; lia|auto].
Qed.

(** ** The snap *)

Lemma snap_loop_spec items fuel idx :
  length items ≤ fuel + idx ->
  let s := snap_loop items fuel idx in
  idx ≤ s ∧ tool_at items s = false ∧ ∀ k, idx ≤ k < s -> tool_at items k = true.
Proof.
  revert idx. induction fuel as [|fuel IH]; intros idx Hf; simpl.
  - unfold tool_at. rewrite lookup_ge_None_2 by lia. auto with lia.
  - destruct (items !! idx) as [t|] eqn:Ht; [|unfold tool_at; rewrite Ht; auto with lia].
    destruct (is_tool_result t) eqn:Htool; [|unfold tool_at; rewrite Ht; auto with lia].
    destruct (IH (S idx) ltac:(lia)) as (? & ? & Hk). split_and!; [lia|done|].
    intros k ?. destruct (decide (k = idx)) as [->|]; [by unfold tool_at; rewrite Ht|apply Hk; lia].
Qed.

Lemma snap_spec items c :
  c ≤ length items ->
  let s := snap_to_safe_boundary items c in
  c ≤ s ∧ tool_at items s = false ∧ ∀ k, c ≤ k < s -> tool_at items k = true.
Proof.
  intros Hc. unfold snap_to_safe_boundary.
  destruct (items !! c) as [t|] eqn:Ht.
  - destruct (is_tool_result t) eqn:Htool; simpl.
    + apply snap_loop_spec. lia.
    + unfold tool_at. rewrite Ht. auto with lia.
  - apply lookup_ge_None in Ht. assert (c = length items) as -> by lia.
    unfold tool_at. rewrite lookup_ge_None_2 by lia. auto with lia.
Qed.

Lemma tool_at_lt items k : tool_at items k = true -> k < length items.
Proof. unfold tool_at. destruct (items !! k) eqn:E; [|done]. intros _. by eapply lookup_lt_Some. Qed.

(** ** Correctness of the selection *)

(** When the whole list does not fit, walking back and snapping forward reaches
    the least safe cut, or the end of the list when there is none. *)
Lemma snap_walk_least counts items target :
  length counts = length items ->
  ¬ fits counts target 0 ->
  let s := snap_to_safe_boundary items
             (select_walk counts target 0%N (length items) (length items)) in
  0 < s ∧ (s < length items -> least_safe_cut counts items target s) ∧
  (length items ≤ s -> ∀ j, ¬ safe_cut counts items target j).
Proof.
  intros Hlen Hall. rewrite <- Hlen.
  destruct (select_walk_start counts target) as [Hfit Hleast].
  set (c := select_walk _ _ _ _ _) in *.
  assert (Hc : c ≤ length items).
  { destruct (decide (c ≤ length items)) as [|Hgt]; [done|]. exfalso.
    apply (Hleast (length items)); [lia|]. unfold fits. rewrite drop_ge by lia. rewrite sat_sum_nil. lia. }
  destruct (snap_spec items c Hc) as (Hcs & Hnt & Hrun).
  set (s := snap_to_safe_boundary items c) in *.
  assert (Hbelow : ∀ j, j < s -> ¬ safe_cut counts items target j).
  { intros j Hj (? & Hfj & Htj). destruct (decide (j < c)) as [Hjc|]; [by apply (Hleast j)|].
    rewrite Hrun in Htj by lia. done. }
  assert (0 < c) by (destruct c; [done|lia]).
  split_and!; [lia| |].
  - intros Hs. split; [|done]. split; [lia|split; [|done]]. by apply (fits_mono _ _ c).
  - intros Hs j Hj. apply (Hbelow j); [|done]. destruct Hj. lia.
Qed.

Lemma least_safe_cut_unique counts items target s1 s2 :
  least_safe_cut counts items target s1 -> least_safe_cut counts items target s2 -> s1 = s2.
Proof.
  intros [H1 L1] [H2 L2]. destruct (Nat.lt_trichotomy s1 s2) as [?|[?|?]]; [|done|].
  - by destruct (L2 s1).
  - by destruct (L1 s2).
Qed.

Lemma select_turns_to_compact_iff counts items target min_compactable p :
  length counts = length items ->
  select_turns_to_compact counts items target min_compactable = Some p <->
  ¬ fits counts target 0 ∧
  least_safe_cut counts items target (split_idx p) ∧
  tokens_to_compact p = sat_sum (take (split_idx p) counts) ∧
  (min_compactable <= tokens_to_compact p)%N.
Proof.
  intros Hlen. destruct p as [sp tk]. unfold select_turns_to_compact. simpl.
  destruct (Nat.eqb_spec (length items) 0) as [H0|H0].
  { split; [done|]. intros (_ & [[Hlt _] _] & _). lia. }
  destruct (select_walk_start counts target) as [Hfit Hleast]. rewrite Hlen in Hfit, Hleast.
  destruct (Nat.eqb_spec (select_walk counts target 0%N (length items) (length items)) 0) as [Hz|Hz].
  { split; [done|]. intros [Hn _]. rewrite Hz in Hfit. done. }
  assert (Hall : ¬ fits counts target 0) by (apply Hleast; lia).
  destruct (snap_walk_least counts items target Hlen Hall) as (_ & Hs & Hnone).
  set (s := snap_to_safe_boundary _ _) in *.
  destruct (Nat.leb_spec (length items) s) as [Hle|Hlt].
  { split; [done|]. intros (_ & [Hsafe _] & _). by destruct (Hnone Hle sp). }
  specialize (Hs Hlt).
  destruct (N.ltb_spec (sat_sum (take s counts)) min_compactable) as [Hm|Hm].
  - split; [done|]. intros (_ & Hl & -> & Hmin).
    rewrite (least_safe_cut_unique _ _ _ _ _ Hl Hs) in Hmin. lia.
  - split.
    + intros [= <- <-]. done.
    + intros (_ & Hl & -> & _). by rewrite (least_safe_cut_unique _ _ _ _ _ Hl Hs).
Qed.

(** C1 Turn selection is exactly its specification: it returns a plan if and
    only if the conversation as a whole does not fit the budget, the plan's cut
    is the least index at which the kept suffix fits and does not start with a
    tool result, the reported size is the saturating token sum of the part
    before the cut, and that sum reaches the minimum. *)
Theorem select_turns_to_compact_spec counts items target min_compactable p :
  length counts = length items ->
  select_turns_to_compact counts items target min_compactable = Some p <->
  ¬ fits counts target 0 ∧
  least_safe_cut counts items target (split_idx p) ∧
  tokens_to_compact p = sat_sum (take (split_idx p) counts) ∧
  (min_compactable <= tokens_to_compact p)%N.
Proof. apply select_turns_to_compact_iff. Qed.

(** What every caller uses of a returned plan. *)
Lemma select_some counts items target min_compactable p :
  length counts = length items ->
  select_turns_to_compact counts items target min_compactable = Some p ->
  0 < split_idx p < length items ∧
  fits counts target (split_idx p) ∧
  tool_at items (split_idx p) = false ∧
  tokens_to_compact p = sat_sum (take (split_idx p) counts) ∧
  (min_compactable <= tokens_to_compact p)%N.
Proof.
  intros Hlen Hp. apply select_turns_to_compact_iff in Hp as (H0 & [(? & Hfit & ?) _] & ? & ?); [|done].
  split_and!; try done. destruct (split_idx p); [done|lia].
Qed.

(** ** Tool pairs stay together *)

Lemma paired_from_app o items1 items2 :
  tool_at items2 0 = false ->
  paired_from o (items1 ++ items2) = paired_from o items1 && paired_from false items2.
Proof.
  intros Hh. revert o. induction items1 as [|t l IH]; intros o; simpl.
  - destruct items2 as [|u l]; [done|]. unfold tool_at in Hh. simpl in *. by rewrite Hh.
  - destruct (is_tool_result t); rewrite IH; [by rewrite andb_assoc|done].
Qed.

Lemma tool_at_drop items s : tool_at (drop s items) 0 = tool_at items s.
Proof. unfold tool_at. by rewrite lookup_drop, Nat.add_0_r. Qed.

(** C2 A selected cut never separates a tool result from its request: if every
    tool result of the conversation follows, with only tool results in between,
    an assistant item with tool requests, then the same holds of the compacted
    prefix and of the kept suffix taken on their own. *)
Theorem select_keeps_tool_pairs counts items target min_compactable p :
  length counts = length items ->
  paired items = true ->
  select_turns_to_compact counts items target min_compactable = Some p ->
  paired (take (split_idx p) items) = true ∧ paired (drop (split_idx p) items) = true.
Proof.
  intros Hlen Hpair Hp. apply select_some in Hp as (_ & _ & Hnt & _); [|done].
  unfold paired in *. rewrite <- (take_drop (split_idx p) items) in Hpair.
  rewrite paired_from_app in Hpair by by rewrite tool_at_drop.
  by apply andb_true_iff in Hpair.
Qed.
End select.

(** ** Witnesses *)

Definition demo_items : list MockItem :=
  let u := mkMock User [] false false in
  let a := mkMock Assistant [] true false in
  let r := mkMock Tool [] false false in
  [u; a; r; r; u; a; r].

Lemma select_turns_to_compact_spec_witness :
  select_turns_to_compact [10; 20; 30; 40; 5; 5; 5]%N demo_items 50%N 10%N = Some (mkSplitPlan 4 100%N).
Proof.
  apply (select_turns_to_compact_spec (T := MockItem)); [reflexivity|].
  split; [by vm_compute; intros []|].
  split; [|by split; [reflexivity|vm_compute]].
  split; [split; [simpl; lia|by split; [vm_compute|reflexivity]]|].
  intros j Hj (_ & Hf & Ht). simpl in Hj.
  do 4 (destruct j as [|j]; [vm_compute in Hf, Ht; congruence|]). lia.
Defined.

Lemma select_keeps_tool_pairs_witness :
  paired (take 4 demo_items) = true ∧ paired (drop 4 demo_items) = true.
Proof.
  apply (select_keeps_tool_pairs [10; 20; 30; 40; 5; 5; 5]%N demo_items 50%N 10%N (mkSplitPlan 4 100%N));
    vm_compute; reflexivity.
Defined.
