(* ===== verification/F64.v ===== *)
(** * Double-precision arithmetic

    Rust's [f64] as the Standard Library's executable IEEE 754 binary64
    ([SpecFloat] with 53 bits of precision, round to nearest even), with the
    conversions from and to unsigned integers the modelled code uses. *)

From S2P Require Export Prelude.
From Stdlib Require Import SpecFloat.

Abbreviation f64 := spec_float.

(** [n as f64]: correctly rounded. *)
Definition f64_of_N (n : N) : f64 := binary_normalize 53 1024 (Z.of_N n) 0 false.
Definition f64_mul : f64 -> f64 -> f64 := SFmul 53 1024.
Definition f64_div : f64 -> f64 -> f64 := SFdiv 53 1024.
Definition f64_le : f64 -> f64 -> bool := SFleb.
Definition f64_lt : f64 -> f64 -> bool := SFltb.

(** A decimal literal [n/d]: the nearest double, since [n] and [d] are exact. *)
Definition f64_lit (n d : N) : f64 := f64_div (f64_of_N n) (f64_of_N d).

(** [f64::min]: the other operand when one is NaN. *)
Definition f64_min (x y : f64) : f64 :=
  match x, y with
  | S754_nan, _ => y
  | _, S754_nan => x
  | _, _ => if f64_lt y x then y else x
  end.

Definition is_nan (x : f64) : bool := match x with S754_nan => true | _ => false end.

(** [x as uN]: truncation toward zero, saturating, NaN to zero. *)
Definition f64_to_uint (max : N) (x : f64) : N :=
  match x with
  | S754_finite false m e => N.min (Z.to_N (Z.shiftl (Zpos m) e)) max
  | S754_infinity false => max
  | _ => 0%N
  end.

(** [x.ceil() as uN]: rounding up is exact, and a negative or zero result
    converts to zero. *)
Definition f64_ceil_to_uint (max : N) (x : f64) : N :=
  match x with
  | S754_finite false m e => N.min (Z.to_N (- Z.shiftl (- Zpos m) e)) max
  | S754_infinity false => max
  | _ => 0%N
  end.

(** [x.round() as uN]: halfway cases away from zero. *)
Definition f64_round_to_uint (max : N) (x : f64) : N :=
  match x with
  | S754_finite false m e =>
      N.min (Z.to_N (if Z.leb 0 e then Z.shiftl (Zpos m) e
                     else Z.shiftl (Zpos m + Z.shiftl 1 (- e - 1)) e)) max
  | S754_infinity false => max
  | _ => 0%N
  end.

(** [x.floor() as i64]: toward minus infinity, saturating, NaN to zero. *)
Definition f64_floor_to_i64 (x : f64) : Z :=
  match x with
  | S754_nan | S754_zero _ => 0
  | S754_infinity true => - 2 ^ 63
  | S754_infinity false => 2 ^ 63 - 1
  | S754_finite s m e =>
      let v := if s then Z.neg m else Z.pos m in
      let z := if Z.leb 0 e then v * 2 ^ e else v / 2 ^ (- e) in
      Z.max (- 2 ^ 63) (Z.min z (2 ^ 63 - 1))
  end%Z.

Lemma f64_to_uint_bound max x : (f64_to_uint max x <= max)%N.
Proof. destruct x as [[]|[]| |[] m e]; simpl; lia. Qed.

Lemma f64_ceil_to_uint_bound max x : (f64_ceil_to_uint max x <= max)%N.
Proof. destruct x as [[]|[]| |[] m e]; simpl; lia. Qed.

Lemma f64_round_to_uint_bound max x : (f64_round_to_uint max x <= max)%N.
Proof. destruct x as [[]|[]| |[] m e]; simpl; lia. Qed.

#[export] Hint Resolve f64_to_uint_bound f64_ceil_to_uint_bound f64_round_to_uint_bound : grok.

Example f64_lit_ex : f64_to_uint u32_max (f64_mul (f64_of_N 5000) (f64_lit 8 10)) = 4000%N.
Proof. vm_compute. reflexivity. Qed.

Example f64_ceil_ex : f64_ceil_to_uint u64_max (f64_mul (f64_of_N 7) (f64_lit 3 10)) = 3%N.
Proof. vm_compute. reflexivity. Qed.

Example f64_round_ex : f64_round_to_uint u8_max (f64_div (f64_of_N 1) (f64_of_N 2)) = 1%N.
Proof. vm_compute. reflexivity. Qed.
