(* ===== verification/TokenEstimation.v ===== *)
(** * Token estimation

    [crates/codegen/xai-token-estimation/src/lib.rs]: the bytes/4 heuristic and
    the context-window arithmetic, in [u64] with the source's saturation. *)

From S2P Require Export F64 RustStr.

(** Source: crates/codegen/xai-token-estimation/src/lib.rs:11-11, [BYTES_PER_TOKEN]. *)
Definition BYTES_PER_TOKEN : N := 4.

(** Source: crates/codegen/xai-token-estimation/src/lib.rs:15-15, [IMAGE_TOKEN_ESTIMATE]. *)
Definition IMAGE_TOKEN_ESTIMATE : N := 765.

(** Source: crates/codegen/xai-token-estimation/src/lib.rs:18-21, [estimate_tokens]. *)
Definition estimate_tokens (s : str) : N := (N.of_nat (length s) / BYTES_PER_TOKEN)%N.

(** Source: crates/codegen/xai-token-estimation/src/lib.rs:26-29, [estimate_chars]. *)
Definition estimate_chars (tokens : N) : N := sat_mul64 tokens BYTES_PER_TOKEN.

(** Source: crates/codegen/xai-token-estimation/src/lib.rs:32-35, [estimate_image_tokens]. *)
Definition estimate_image_tokens (image_count : N) : N := sat_mul64 image_count IMAGE_TOKEN_ESTIMATE.

(** Source: crates/codegen/xai-token-estimation/src/lib.rs:39-46, [usage_percentage]. *)
Definition usage_percentage (used total : N) : f64 :=
  if N.eqb total 0 then f64_of_N 0
  else f64_min (f64_mul (f64_div (f64_of_N used) (f64_of_N total)) (f64_of_N 100)) (f64_of_N 100).

(** Source: crates/codegen/xai-token-estimation/src/lib.rs:49-52, [usage_percentage_u8]. *)
Definition usage_percentage_u8 (used total : N) : N :=
  f64_round_to_uint u8_max (usage_percentage used total).

(** Source: crates/codegen/xai-token-estimation/src/lib.rs:57-62, [usage_percentage_truncated_u8]. *)
Definition usage_percentage_truncated_u8 (used total : N) : N :=
  if N.eqb total 0 then 0%N else wrap8 (N.min (sat_mul64 used 100 / total) 100).

(** Source: crates/codegen/xai-token-estimation/src/lib.rs:66-69, [free_tokens]. *)
Definition free_tokens (total used : N) : N := (total - used)%N.

(** Source: crates/codegen/xai-token-estimation/src/lib.rs:74-80, [exceeds_threshold]. *)
Definition exceeds_threshold (used context_window threshold_percent : N) : bool :=
  if N.eqb context_window 0 then false
  else N.leb (sat_mul64 context_window threshold_percent) (sat_mul64 used 100).

(** Source: crates/codegen/xai-token-estimation/src/lib.rs:85-99, [exceeds_threshold_with_headroom]. *)
Definition exceeds_threshold_with_headroom (used context_window threshold_percent headroom : N) : bool :=
  if N.eqb context_window 0 then false
  else N.leb (sat_mul64 context_window threshold_percent - sat_mul64 headroom 100) (sat_mul64 used 100).

(** ** Properties *)

(** Where no product saturates, the headroom gate is the real-number
    comparison [(used + headroom) / window >= percent / 100], cleared of
    denominators: it fires exactly when adding the headroom to the usage would
    reach the threshold, and never on an unknown (zero) window. *)
Theorem headroom_gate_exact used w p h :
  (w * p <= u64_max)%N -> (used * 100 <= u64_max)%N -> (h * 100 <= u64_max)%N ->
  exceeds_threshold_with_headroom used w p h = true <-> (0 < w)%N ∧ (w * p <= (used + h) * 100)%N.
Proof.
  intros. unfold exceeds_threshold_with_headroom. destruct (N.eqb_spec w 0); [split; [done|lia]|].
  rewrite N.leb_le. sat_lia.
Qed.

(** A headroom only ever widens the gate: the larger it is, the earlier the
    gate fires. *)
Lemma headroom_mono used w p h h' :
  (h <= h')%N ->
  exceeds_threshold_with_headroom used w p h = true ->
  exceeds_threshold_with_headroom used w p h' = true.
Proof.
  unfold exceeds_threshold_with_headroom. destruct (N.eqb w 0); [done|].
  rewrite !N.leb_le. sat_lia.
Qed.

Lemma headroom_zero used w p :
  exceeds_threshold_with_headroom used w p 0 = exceeds_threshold used w p.
Proof.
  unfold exceeds_threshold_with_headroom, exceeds_threshold. unfold sat_mul64.
  by rewrite N.mul_0_l, N.min_0_l, N.sub_0_r.
Qed.

Lemma truncated_u8_bound used total : (usage_percentage_truncated_u8 used total <= 100)%N.
Proof.
  unfold usage_percentage_truncated_u8. destruct (N.eqb total 0); [lia|].
  rewrite wrap8_small; lia.
Qed.

Lemma headroom_gate_exact_witness :
  exceeds_threshold_with_headroom 80000 100000 85 5000 = true.
Proof. apply headroom_gate_exact; vm_compute; [congruence..|split; [reflexivity|congruence]]. Defined.
