(* ===== verification/IntraConfig.v ===== *)
(** * Intra-compaction: configuration, trigger and result types

    [crates/common/xai-grok-compaction/src/intra_compaction/config.rs] and
    [trigger.rs]. The serde derives are not modelled. *)

From S2P Require Export F64 RustStr.

(** Source: crates/common/xai-grok-compaction/src/intra_compaction/config.rs:19-27, [IntraCompactionMode]. *)
Inductive IntraCompactionMode :=
  | FullReplace
  | StepsOnly
  | HistoryOnly
  | HistoryThenSteps.

#[export] Instance IntraCompactionMode_eq_dec : EqDecision IntraCompactionMode.
Proof. solve_decision. Defined.

(** Source: crates/common/xai-grok-compaction/src/intra_compaction/config.rs:32-42, [IntraSummarizer]. *)
Inductive IntraSummarizer :=
  | Shared
  | Legacy.

(** Source: crates/common/xai-grok-compaction/src/intra_compaction/config.rs:82-201, [IntraCompactionConfig]. *)
Record IntraCompactionConfig := mkIntraConfig {
  enabled : bool;
  mode : IntraCompactionMode;
  trigger_threshold_percent : N;
  min_steps_before_compact : N;
  min_compactable_tokens : N;
  max_reduction_ratio : f64;
  compaction_model_name : option str;
  sampling_timeout_secs : N;
  max_attempts : N;
  retry_delay_secs : N;
  compaction_version : str;
  summarizer : IntraSummarizer;
  target_threshold_percent : N;
  steps_trigger_ratio : f64;
  user_message_truncate_chars : N;
}.

(** Source: crates/common/xai-grok-compaction/src/intra_compaction/config.rs:208-208, [DEFAULT_COMPACTION_MODEL_NAME]. *)
Definition DEFAULT_COMPACTION_MODEL_NAME : str := lit "grok-4.20".

(** Source: crates/common/xai-grok-compaction/src/intra_compaction/config.rs:212-218, [effective_compaction_model_name]. *)
Definition effective_compaction_model_name (self : IntraCompactionConfig) : str :=
  match compaction_model_name self with
  | Some s => let s := trim s in if is_empty s then DEFAULT_COMPACTION_MODEL_NAME else s
  | None => DEFAULT_COMPACTION_MODEL_NAME
  end.

(** Source: crates/common/xai-grok-compaction/src/intra_compaction/config.rs:221-245, [impl Default for IntraCompactionConfig]. *)
Definition default_intra_config : IntraCompactionConfig := {|
  enabled := false;
  mode := FullReplace;
  trigger_threshold_percent := 85;
  min_steps_before_compact := 3;
  min_compactable_tokens := 5000;
  max_reduction_ratio := f64_lit 8 10;
  compaction_model_name := Some DEFAULT_COMPACTION_MODEL_NAME;
  sampling_timeout_secs := 120;
  max_attempts := 2;
  retry_delay_secs := 3;
  compaction_version := lit "intra-v1";
  summarizer := Shared;
  target_threshold_percent := 50;
  steps_trigger_ratio := f64_lit 3 10;
  user_message_truncate_chars := 3000;
|}.

(** Source: crates/common/xai-grok-compaction/src/intra_compaction/trigger.rs:14-25, [IntraCompactionTrigger]. *)
Record IntraCompactionTrigger := mkTrigger {
  last_prompt_tokens : N;
  context_window : N;
  percent : N;
  step : N;
}.

(** [elapsed] is a [Duration], in milliseconds.

    Source: crates/common/xai-grok-compaction/src/intra_compaction/trigger.rs:28-44, [IntraCompactionResult]. *)
Record IntraCompactionResult := mkIntraResult {
  tokens_before : N;
  tokens_after : N;
  turns_compacted : N;
  elapsed : N;
  summary : str;
}.

(** Source: crates/common/xai-grok-compaction/src/intra_compaction/trigger.rs:51-108, [IntraCompactionError]. *)
Inductive IntraCompactionError :=
  | NothingToCompact
  | Timeout
  | EmptyResponse
  | InsufficientReduction (tokens_before tokens_after : N)
  | InvalidSplit (requested available : nat)
  | Unsupported
  | SamplerBuild (msg : str)
  | SamplerStart (msg : str)
  | SamplerStream (msg : str)
  | ContextOverflow (msg : str)
  | Apply (msg : str).

(** The products are [u64] of factors below 2^32 and 2^8, so they do not wrap;
    the casts back to [u32] and [u8] are written out.

    Source: crates/common/xai-grok-compaction/src/intra_compaction/trigger.rs:122-154, [should_compact]. *)
Definition should_compact (policy : IntraCompactionConfig)
    (last_prompt_tokens context_window current_step : N) : option IntraCompactionTrigger :=
  if negb (enabled policy) then None
  else if N.eqb context_window 0 then None
  else if negb (bool_decide (mode policy = FullReplace))
          && N.ltb current_step (min_steps_before_compact policy) then None
  else
    let threshold := wrap32 (context_window * trigger_threshold_percent policy / 100) in
    if N.leb last_prompt_tokens threshold then None
    else
      let percent := wrap8 (N.min (last_prompt_tokens * 100 / context_window) 100) in
      Some (mkTrigger last_prompt_tokens context_window percent current_step).

(** ** Properties *)

(** The trigger decision: with a configured percentage of at most 100, a
    pass fires exactly when the policy is enabled, the window is known, the
    last prompt is strictly above [percent]% of the window rounded down, and -
    for every mode but full replacement - the minimum number of steps has run;
    the reported percentage is the true one, capped at 100. *)
Theorem should_compact_spec policy tokens window cur t :
  (window <= u32_max)%N ->
  (trigger_threshold_percent policy <= 100)%N ->
  should_compact policy tokens window cur = Some t <->
  enabled policy = true ∧ (0 < window)%N ∧
  (mode policy = FullReplace ∨ (min_steps_before_compact policy <= cur)%N) ∧
  (window * trigger_threshold_percent policy / 100 < tokens)%N ∧
  t = mkTrigger tokens window (N.min (tokens * 100 / window) 100) cur.
Proof.
  intros Hw Hp. unfold should_compact.
  assert (window * trigger_threshold_percent policy / 100 <= u32_max)%N.
  { apply N.Div0.div_le_upper_bound. nia. }
  rewrite wrap32_small by done. rewrite wrap8_small by lia.
  destruct (enabled policy); simpl; [|naive_solver].
  destruct (N.eqb_spec window 0) as [->|]; [split; [done|lia]|].
  destruct (bool_decide_reflect (mode policy = FullReplace)) as [Hm|Hm]; simpl;
    [|destruct (N.ltb_spec cur (min_steps_before_compact policy)); [split; [done|intuition lia]|]];
    (destruct (N.leb_spec tokens (window * trigger_threshold_percent policy / 100)%N);
      [split; [done|intuition lia]|]).
  - split; [intros [= <-]; split_and!; auto; lia|]. by intros (_ & _ & _ & _ & ->).
  - split; [intros [= <-]; split_and!; auto; lia|]. by intros (_ & _ & _ & _ & ->).
Qed.

Lemma effective_model_name_nonempty c : effective_compaction_model_name c ≠ [].
Proof.
  unfold effective_compaction_model_name. destruct (compaction_model_name c) as [s|]; [|done].
  simpl. destruct (is_empty (trim s)) eqn:E; [done|]. by apply is_empty_false.
Qed.

Definition demo_policy : IntraCompactionConfig :=
  mkIntraConfig true StepsOnly 85 3 5000 (f64_lit 8 10) None 120 2 3 [] Shared 50 (f64_lit 3 10) 3000.

Lemma should_compact_spec_witness :
  should_compact demo_policy 90000 100000 3 = Some (mkTrigger 90000 100000 90 3).
Proof.
  apply should_compact_spec; [vm_compute; congruence..|].
  split_and!; [reflexivity|reflexivity|by right; vm_compute|reflexivity|reflexivity].
Defined.
