(* ===== verification/Fit.v ===== *)
(** * Fitting the summarizer's input to a token budget

    [crates/common/xai-grok-compaction/src/intra_compaction/fit.rs]: the ordered
    ladder that drops history, clips tool results, drops steps and finally
    keeps one hard-clipped item. Log statements are not modelled. *)

From S2P Require Export Select RustStr.

(** Source: crates/common/xai-grok-compaction/src/intra_compaction/fit.rs:37-49, [FitRung]. *)
Inductive FitRung :=
  | Verbatim
  | HistoryTurnSelected
  | ToolTruncated
  | StepTurnsSelected
  | Emergency.

#[export] Instance FitRung_eq_dec : EqDecision FitRung.
Proof. solve_decision. Defined.

(** Source: crates/common/xai-grok-compaction/src/intra_compaction/fit.rs:52-60, [FitRung::as_str]. *)
Definition rung_as_str (r : FitRung) : str :=
  match r with
  | Verbatim => lit "verbatim"
  | HistoryTurnSelected => lit "history_turn_selected"
  | ToolTruncated => lit "tool_truncated"
  | StepTurnsSelected => lit "step_turns_selected"
  | Emergency => lit "emergency"
  end.

(** Source: crates/common/xai-grok-compaction/src/intra_compaction/fit.rs:64-75, [FitPlan]. *)
Record FitPlan (T : Type) := mkFitPlan {
  llm_turns : list T;
  tokens_raw : N;
  tokens_fit : N;
  rung : FitRung;
  items_truncated : N;
  history_turns_omitted : N;
  step_turns_omitted : N;
}.
Arguments mkFitPlan {_}.
Arguments llm_turns {_}.
Arguments tokens_raw {_}.
Arguments tokens_fit {_}.
Arguments rung {_}.
Arguments items_truncated {_}.
Arguments history_turns_omitted {_}.
Arguments step_turns_omitted {_}.

(** Source: crates/common/xai-grok-compaction/src/intra_compaction/fit.rs:425-442, [truncate_text_to_token_budget]. *)
Definition truncate_text_to_token_budget (text : str) (max_tokens : N) : str :=
  let max_bytes := N.to_nat (sat_mul64 max_tokens 4) in
  if Nat.leb (length text) max_bytes then text
  else
    let MARKER_RESERVE := 64 in
    let keep := max_bytes - MARKER_RESERVE in
    let e := floor_char_boundary text (Nat.min keep (length text)) in
    let dropped := length text - e in
    take e text ++ nl ++ lit "[... truncated " ++ show_nat dropped
      ++ lit " bytes to fit the compaction window ...]".

(** Source: crates/common/xai-grok-compaction/src/intra_compaction/fit.rs:445-448, [truncate_text_for_compaction]. *)
Definition truncate_text_for_compaction (text : str) (max_tokens : N) : str :=
  truncate_text_to_token_budget text max_tokens.

(** Source: crates/common/xai-grok-compaction/src/intra_compaction/fit.rs:88-90, [sum_counts]. *)
Definition sum_counts (counts : list N) : N := sat_sum counts.

(** Source: crates/common/xai-grok-compaction/src/intra_compaction/fit.rs:92-96, [concat_turns]. *)
Definition concat_turns {T} (history steps : list T) : list T := history ++ steps.

Section fit.
Context {T : Type} `{CompactionItemBuilder T} `{!ItemTokenCounter T}.
Implicit Types history steps turns : list T.

(** Source: crates/common/xai-grok-compaction/src/intra_compaction/fit.rs:77-82, [sum_tokens]. *)
Definition sum_tokens turns : N := sat_sum (map count_item_tokens turns).

(** Source: crates/common/xai-grok-compaction/src/intra_compaction/fit.rs:84-86, [token_counts]. *)
Definition token_counts turns : list N := map count_item_tokens turns.

(** Source: crates/common/xai-grok-compaction/src/intra_compaction/fit.rs:102-104, [shrink_item_to_token_budget]. *)
Definition shrink_item_to_token_budget (item : T) (max_tokens : N) : T :=
  truncate_payload_for_compaction item max_tokens.

(** The test of the closure in [shrink_oversized_tool_results]. *)
Definition oversized_tool_result (max_tokens : N) (t : T) : bool :=
  is_tool_result t && N.ltb max_tokens (count_item_tokens t).

(** The map and the [u32] counter [n] it increments.

    Source: crates/common/xai-grok-compaction/src/intra_compaction/fit.rs:110-128, [shrink_oversized_tool_results]. *)
Fixpoint shrink_oversized_tool_results turns (max_tokens n : N) : list T * N :=
  match turns with
  | [] => ([], n)
  | t :: rest =>
      if oversized_tool_result max_tokens t then
        let '(out, n') := shrink_oversized_tool_results rest max_tokens (wrap_add32 n 1) in
        (shrink_item_to_token_budget t max_tokens :: out, n')
      else
        let '(out, n') := shrink_oversized_tool_results rest max_tokens n in
        (t :: out, n')
  end.

(** Source: crates/common/xai-grok-compaction/src/intra_compaction/fit.rs:133-152, [keep_recent_under_budget]. *)
Definition keep_recent_under_budget turns (counts : list N) (budget : N) : option (list T * N) :=
  if is_empty turns then Some ([], 0%N)
  else if N.eqb budget 0 then Some ([], len32 turns)
  else if N.leb (sum_counts counts) budget then Some (turns, 0%N)
  else
    match select_turns_to_compact counts turns budget 0 with
    | None => None
    | Some plan => Some (drop (split_idx plan) turns, wrap32 (N.of_nat (split_idx plan)))
    end.

(** Source: crates/common/xai-grok-compaction/src/intra_compaction/fit.rs:154-186, [plan_ok]. *)
Definition plan_ok history steps (tokens_raw : N) (rung : FitRung)
    (items_truncated history_turns_omitted step_turns_omitted : N) : FitPlan T :=
  let llm_turns := concat_turns history steps in
  mkFitPlan llm_turns tokens_raw (sum_tokens llm_turns) rung items_truncated
    history_turns_omitted step_turns_omitted.

(** Stage 1, on [hist] and [hist_counts]: the new values and [hist_omitted].

    Source: crates/common/xai-grok-compaction/src/intra_compaction/fit.rs:242-265, [fit_turns_for_summarizer]. *)
Definition select_history (hist : list T) (hist_counts step_counts : list N) (budget : N) :
    list T * list N * N :=
  let steps_tokens := sum_counts step_counts in
  if N.ltb steps_tokens budget then
    let hist_budget := (budget - steps_tokens)%N in
    if N.ltb hist_budget (sum_counts hist_counts) then
      match keep_recent_under_budget hist hist_counts hist_budget with
      | Some (keep, omitted) => (keep, drop (N.to_nat omitted) hist_counts, omitted)
      | None => ([], [], len32 hist)
      end
    else (hist, hist_counts, 0%N)
  else ([], [], len32 hist).

(** Stage 3, on [step] and [step_counts]: the new values and [step_omitted].

    Source: crates/common/xai-grok-compaction/src/intra_compaction/fit.rs:305-328, [fit_turns_for_summarizer]. *)
Definition select_steps (step : list T) (hist_counts step_counts : list N) (budget : N) :
    list T * list N * N :=
  let hist_tokens := sum_counts hist_counts in
  if N.ltb hist_tokens budget then
    let step_budget := (budget - hist_tokens)%N in
    if N.ltb step_budget (sum_counts step_counts) then
      match keep_recent_under_budget step step_counts step_budget with
      | Some (keep, omitted) => (keep, drop (N.to_nat omitted) step_counts, omitted)
      | None => ([], [], len32 step)
      end
    else (step, step_counts, 0%N)
  else ([], [], len32 step).

(** Stage 4: the source list whose newest item is kept, and the omission
    counts; then the plan built from it.

    Source: crates/common/xai-grok-compaction/src/intra_compaction/fit.rs:346-419, [fit_turns_for_summarizer]. *)
Definition emergency_plan history steps hist (step : list T)
    (budget tokens_raw items_truncated hist_omitted step_omitted : N) : FitPlan T :=
  let combined := concat_turns hist step in
  let '(source, ho, so) :=
    if is_empty combined then
      let all := concat_turns history steps in
      if is_empty steps then (all, wrap32 (N.of_nat (length history - 1)), 0%N)
      else (all, len32 history, wrap32 (N.of_nat (length steps - 1)))
    else if is_empty step then
      (combined, sat_add32 hist_omitted (wrap32 (N.of_nat (length hist - 1))), step_omitted)
    else
      (combined, sat_add32 hist_omitted (len32 hist),
       sat_add32 step_omitted (wrap32 (N.of_nat (length step - 1)))) in
  match last source with
  | None => mkFitPlan [] tokens_raw 0 Emergency items_truncated ho so
  | Some newest =>
      let last_turns := [shrink_item_to_token_budget newest budget] in
      mkFitPlan last_turns tokens_raw (sum_tokens last_turns) Emergency
        (sat_add32 items_truncated 1) ho so
  end.

(** Source: crates/common/xai-grok-compaction/src/intra_compaction/fit.rs:198-419, [fit_turns_for_summarizer]. *)
Definition fit_turns_for_summarizer history steps (budget : N) : FitPlan T :=
  let hist_counts := token_counts history in
  let step_counts := token_counts steps in
  let tokens_raw := sat_add32 (sum_counts hist_counts) (sum_counts step_counts) in
  if N.eqb budget 0 then
    mkFitPlan [] tokens_raw 0 Emergency 0 (len32 history) (len32 steps)
  else if N.leb tokens_raw budget then
    plan_ok history steps tokens_raw Verbatim 0 0 0
  else
    let '(hist, hist_counts, hist_omitted) := select_history history hist_counts step_counts budget in
    if N.leb (sat_add32 (sum_counts hist_counts) (sum_counts step_counts)) budget then
      plan_ok hist steps tokens_raw HistoryTurnSelected 0 hist_omitted 0
    else
      let '(hist, n1) := shrink_oversized_tool_results hist budget 0 in
      let '(step, n2) := shrink_oversized_tool_results steps budget 0 in
      let items_truncated := sat_add32 n1 n2 in
      let hist_counts := token_counts hist in
      let step_counts := token_counts step in
      if N.leb (sat_add32 (sum_counts hist_counts) (sum_counts step_counts)) budget then
        plan_ok hist step tokens_raw ToolTruncated items_truncated hist_omitted 0
      else
        let '(step, step_counts, step_omitted) := select_steps step hist_counts step_counts budget in
        let after_step_tokens := sat_add32 (sum_counts hist_counts) (sum_counts step_counts) in
        if N.leb after_step_tokens budget && (negb (is_empty hist) || negb (is_empty step)) then
          plan_ok hist step tokens_raw StepTurnsSelected items_truncated hist_omitted step_omitted
        else
          emergency_plan history steps hist step budget tokens_raw items_truncated
            hist_omitted step_omitted.

(** ** The reference ladder

    What the ladder computes, without the branches it can never reach: history
    survives only when all the steps fit beside it, so from [ToolTruncated] on
    there is no history left, and [Emergency] always keeps the newest original
    step. *)
Definition fit_reference history steps (budget : N) : FitPlan T :=
  let raw := sat_add32 (sum_tokens history) (sum_tokens steps) in
  if N.eqb budget 0 then mkFitPlan [] raw 0 Emergency 0 (len32 history) (len32 steps)
  else if N.leb raw budget then plan_ok history steps raw Verbatim 0 0 0
  else if N.ltb (sum_tokens steps) budget then
    match keep_recent_under_budget history (token_counts history) (budget - sum_tokens steps) with
    | Some (keep, omitted) => plan_ok keep steps raw HistoryTurnSelected 0 omitted 0
    | None => plan_ok [] steps raw HistoryTurnSelected 0 (len32 history) 0
    end
  else if N.eqb (sum_tokens steps) budget then
    plan_ok [] steps raw HistoryTurnSelected 0 (len32 history) 0
  else
    let '(step, n) := shrink_oversized_tool_results steps budget 0 in
    if N.leb (sum_tokens step) budget then
      plan_ok [] step raw ToolTruncated n (len32 history) 0
    else
      match keep_recent_under_budget step (token_counts step) budget with
      | Some (keep, omitted) => plan_ok [] keep raw StepTurnsSelected n (len32 history) omitted
      | None =>
          match last steps with
          | Some newest =>
              let turns := [shrink_item_to_token_budget newest budget] in
              mkFitPlan turns raw (sum_tokens turns) Emergency (sat_add32 n 1)
                (len32 history) (wrap32 (N.of_nat (length steps - 1)))
          | None => mkFitPlan [] raw 0 Emergency n (len32 history) 0
          end
      end.

(** The conversation has fewer than 2^32 items, so that item counts survive the
    casts to [u32]. *)
Definition small_list turns : Prop := (N.of_nat (length turns) <= u32_max)%N.

(** ** Lemmas *)

Lemma sum_tokens_counts turns : sum_counts (token_counts turns) = sum_tokens turns.
Proof. reflexivity. Qed.

Lemma token_counts_drop k turns : token_counts (drop k turns) = drop k (token_counts turns).
Proof. apply fmap_drop. Qed.

Lemma sum_tokens_app turns1 turns2 :
  sum_tokens (turns1 ++ turns2) = sat_add32 (sum_tokens turns1) (sum_tokens turns2).
Proof. unfold sum_tokens. by rewrite map_app, sat_sum_app. Qed.

Lemma sum_tokens_bound turns : (sum_tokens turns <= u32_max)%N.
Proof. apply sat_sum_bound. Qed.

Lemma sat_add32_sum_0_l turns : sat_add32 0 (sum_tokens turns) = sum_tokens turns.
Proof. apply sat_add32_0_l, sum_tokens_bound. Qed.

Lemma length_token_counts turns : length (token_counts turns) = length turns.
Proof. apply length_map. Qed.

Lemma shrink_spec turns max_tokens n :
  shrink_oversized_tool_results turns max_tokens n =
  (map (fun t => if oversized_tool_result max_tokens t then shrink_item_to_token_budget t max_tokens else t) turns,
   foldl (fun n t => if oversized_tool_result max_tokens t then wrap_add32 n 1 else n) n turns).
Proof.
  revert n. induction turns as [|t rest IH]; intros n; simpl; [done|].
  destruct (oversized_tool_result max_tokens t); by rewrite IH.
Qed.

Lemma shrink_length turns max_tokens n out m :
  shrink_oversized_tool_results turns max_tokens n = (out, m) -> length out = length turns.
Proof. rewrite shrink_spec. intros [= <- _]. apply length_map. Qed.

Lemma shrink_count_bound turns max_tokens n :
  (n <= u32_max)%N -> ((shrink_oversized_tool_results turns max_tokens n).2 <= u32_max)%N.
Proof.
  rewrite shrink_spec. simpl. revert n. induction turns as [|t rest IH]; intros n Hn; simpl; [done|].
  apply IH. destruct (oversized_tool_result max_tokens t); [apply wrap32_bound|done].
Qed.

(** What [keep_recent_under_budget] keeps: a suffix within the budget that does
    not start with a tool result unless it is everything. *)
Lemma keep_recent_some turns budget keep omitted :
  small_list turns ->
  (0 < budget)%N ->
  keep_recent_under_budget turns (token_counts turns) budget = Some (keep, omitted) ->
  ∃ k, keep = drop k turns ∧ omitted = N.of_nat k ∧ (k ≤ length turns) ∧
       (sum_tokens keep <= budget)%N ∧
       (k ≠ 0 -> k < length turns ∧ tool_at keep 0 = false).
Proof.
  intros Hs Hb. unfold keep_recent_under_budget.
  destruct (is_empty turns) eqn:He.
  { apply is_empty_spec in He as ->. intros [= <- <-]. exists 0. split_and!; try done. by apply N.lt_le_incl. }
  destruct (N.eqb_spec budget 0) as [|_]; [lia|].
  destruct (N.leb_spec (sum_counts (token_counts turns)) budget) as [Hle|Hgt].
  { intros [= <- <-]. exists 0. split_and!; [done|done|lia|done|done]. }
  destruct (select_turns_to_compact _ _ _ _) as [p|] eqn:Hp; [|done].
  apply select_some in Hp as (Hk & Hfit & Htool & _ & _); [|apply length_token_counts].
  intros [= <- <-]. exists (split_idx p). unfold small_list in Hs.
  rewrite wrap32_small by lia. split_and!; try done; [lia| |].
  - unfold sum_tokens.
    unfold fits in Hfit. unfold token_counts in Hfit. by rewrite skipn_map in Hfit.
  - intros _. split; [lia|]. by rewrite tool_at_drop.
Qed.

(** Stage 1 when the steps leave room: the history part of the reference. *)
Lemma select_history_room history steps budget :
  small_list history ->
  (sum_tokens steps < budget)%N ->
  (budget < sat_add32 (sum_tokens history) (sum_tokens steps))%N ->
  let '(hist, counts, omitted) := select_history history (token_counts history) (token_counts steps) budget in
  counts = token_counts hist ∧
  (sat_add32 (sum_tokens hist) (sum_tokens steps) <= budget)%N ∧
  match keep_recent_under_budget history (token_counts history) (budget - sum_tokens steps) with
  | Some (keep, om) => hist = keep ∧ omitted = om
  | None => hist = [] ∧ omitted = len32 history
  end.
Proof.
  intros Hs Hlt Hover. unfold select_history. rewrite !sum_tokens_counts.
  destruct (N.ltb_spec (sum_tokens steps) budget) as [_|]; [|lia].
  destruct (N.ltb_spec (budget - sum_tokens steps) (sum_tokens history)) as [_|]; [|sat_lia].
  destruct (keep_recent_under_budget _ _ _) as [[keep om]|] eqn:Hk.
  - apply keep_recent_some in Hk as (k & -> & -> & Hk & Hfit & _); [|done|lia].
    rewrite Nat2N.id, token_counts_drop. split_and!; [done|sat_lia|done|done].
  - split_and!; [done| |done|done]. unfold sum_tokens at 1. simpl. rewrite sat_sum_nil. sat_lia.
Qed.

(** Stage 1 when the steps alone fill the budget: all history is dropped. *)
Lemma select_history_full history steps budget :
  (budget <= sum_tokens steps)%N ->
  select_history history (token_counts history) (token_counts steps) budget = ([], [], len32 history).
Proof.
  intros. unfold select_history. rewrite sum_tokens_counts.
  by destruct (N.ltb_spec (sum_tokens steps) budget); [lia|].
Qed.

Lemma select_steps_over step budget :
  (0 < budget)%N -> (budget < sum_tokens step)%N ->
  small_list step ->
  select_steps step [] (token_counts step) budget =
  match keep_recent_under_budget step (token_counts step) budget with
  | Some (keep, om) => (keep, token_counts keep, om)
  | None => ([], [], len32 step)
  end.
Proof.
  intros Hb Hover Hs. unfold select_steps, sum_counts at 1. rewrite sat_sum_nil.
  destruct (N.ltb_spec 0 budget) as [_|]; [|lia]. rewrite N.sub_0_r, sum_tokens_counts.
  destruct (N.ltb_spec budget (sum_tokens step)) as [_|]; [|lia].
  destruct (keep_recent_under_budget _ _ _) as [[keep om]|] eqn:Hk; [|done].
  apply keep_recent_some in Hk as (k & -> & -> & _); [|done|done].
  by rewrite Nat2N.id, token_counts_drop.
Qed.

Lemma keep_recent_over_nonempty step budget keep om :
  small_list step ->
  (0 < budget)%N -> (budget < sum_tokens step)%N ->
  keep_recent_under_budget step (token_counts step) budget = Some (keep, om) ->
  keep ≠ [].
Proof.
  intros Hs Hb Hover Hk. apply keep_recent_some in Hk as (k & -> & _ & Hk & Hfit & Hpos); [|done|done].
  intros Hnil. destruct (decide (k = 0)) as [->|Hk0].
  - rewrite drop_0 in *. subst. unfold sum_tokens in Hover. simpl in Hover. rewrite sat_sum_nil in Hover. lia.
  - destruct (Hpos Hk0) as [Hlt _]. apply (f_equal length) in Hnil. rewrite length_drop in Hnil. simpl in Hnil. lia.
Qed.

Lemma sum_tokens_nil : sum_tokens [] = 0%N.
Proof. reflexivity. Qed.

Lemma sum_tokens_pos_nonempty turns : (0 < sum_tokens turns)%N -> turns ≠ [].
Proof. intros Hpos ->. rewrite sum_tokens_nil in Hpos. lia. Qed.

(** Stages 2 to 4 once history is gone. *)
Lemma ladder_after_history history steps budget raw step n :
  small_list steps ->
  (0 < budget)%N ->
  (budget < sum_tokens steps)%N ->
  shrink_oversized_tool_results steps budget 0 = (step, n) ->
  (budget < sum_tokens step)%N ->
  (let '(step', step_counts, so) := select_steps step [] (token_counts step) budget in
   if N.leb (sat_add32 0 (sum_counts step_counts)) budget && (negb (is_empty (A := T) []) || negb (is_empty step'))
   then plan_ok [] step' raw StepTurnsSelected n (len32 history) so
   else emergency_plan history steps [] step' budget raw n (len32 history) so) =
  match keep_recent_under_budget step (token_counts step) budget with
  | Some (keep, omitted) => plan_ok [] keep raw StepTurnsSelected n (len32 history) omitted
  | None =>
      match last steps with
      | Some newest =>
          let turns := [shrink_item_to_token_budget newest budget] in
          mkFitPlan turns raw (sum_tokens turns) Emergency (sat_add32 n 1)
            (len32 history) (wrap32 (N.of_nat (length steps - 1)))
      | None => mkFitPlan [] raw 0 Emergency n (len32 history) 0
      end
  end.
Proof.
  intros Hs Hb Hover Hshrink Hover'. pose proof (shrink_length _ _ _ _ _ Hshrink) as Hlen.
  assert (Hs' : small_list step) by (unfold small_list in *; by rewrite Hlen).
  rewrite select_steps_over by done.
  destruct (keep_recent_under_budget _ _ _) as [[keep om]|] eqn:Hk.
  - pose proof (keep_recent_over_nonempty _ _ _ _ Hs' Hb Hover' Hk) as Hne.
    apply keep_recent_some in Hk as (k & Hkeep & -> & _ & Hfit & _); [|done|done].
    rewrite sum_tokens_counts, sat_add32_sum_0_l.
    apply N.leb_le in Hfit as ->. simpl. by destruct keep.
  - unfold sum_counts. rewrite sat_sum_nil. rewrite andb_false_r.
    unfold emergency_plan, concat_turns. simpl.
    assert (Hne : steps ≠ []) by (apply sum_tokens_pos_nonempty; lia).
    apply is_empty_false in Hne as He. rewrite He.
    rewrite last_app. destruct (last steps) as [newest|] eqn:Hl; [done|].
    by apply last_None in Hl.
Qed.

Lemma fit_eq_reference history steps budget :
  small_list history -> small_list steps ->
  fit_turns_for_summarizer history steps budget = fit_reference history steps budget.
Proof.
  intros Hh Hs. unfold fit_turns_for_summarizer, fit_reference. rewrite !sum_tokens_counts.
  destruct (N.eqb_spec budget 0) as [|Hb]; [done|].
  destruct (N.leb_spec (sat_add32 (sum_tokens history) (sum_tokens steps)) budget) as [|Hraw]; [done|].
  destruct (N.ltb_spec (sum_tokens steps) budget) as [Hroom|Hfull].
  { pose proof (select_history_room history steps budget Hh Hroom Hraw) as Hsel.
    destruct (select_history _ _ _ _) as [[hist counts] om]. destruct Hsel as (-> & Hfit & Hk).
    rewrite sum_tokens_counts. apply N.leb_le in Hfit as ->.
    destruct (keep_recent_under_budget _ _ _) as [[keep om']|]; by destruct Hk as [-> ->]. }
  rewrite select_history_full by done. unfold sum_counts at 1. rewrite sat_sum_nil, sat_add32_sum_0_l.
  destruct (N.eqb_spec (sum_tokens steps) budget) as [->|Hneq].
  { by rewrite N.leb_refl. }
  destruct (N.leb_spec (sum_tokens steps) budget) as [|Hover]; [lia|]. simpl.
  pose proof (shrink_count_bound steps budget 0 ltac:(lia)) as Hn.
  destruct (shrink_oversized_tool_results steps budget 0) as [step n] eqn:Hshrink. simpl in Hn.
  rewrite (sat_add32_0_l n) by done. unfold sum_counts at 1. simpl. rewrite sat_sum_nil.
  rewrite sum_tokens_counts, sat_add32_sum_0_l.
  destruct (N.leb_spec (sum_tokens step) budget) as [|Hover']; [done|].
  rewrite <- (ladder_after_history history steps budget) by (done || lia). done.
Qed.

(** The fit ladder computes exactly the reference ladder: the branches of
    the source that keep history next to clipped or dropped steps, and the
    emergency branches over a partially reduced list, are never taken. *)
Theorem fit_turns_for_summarizer_reference history steps budget :
  small_list history -> small_list steps ->
  fit_turns_for_summarizer history steps budget = fit_reference history steps budget.
Proof. apply fit_eq_reference. Qed.

(** ** What the ladder guarantees *)

Lemma plan_ok_fit history steps raw r i ho so :
  tokens_fit (plan_ok history steps raw r i ho so) =
  sum_tokens (llm_turns (plan_ok history steps raw r i ho so)).
Proof. reflexivity. Qed.

(** C24 Every plan the ladder settles on before its emergency rung feeds the
    summarizer turns whose token count, as reported, is within the budget. *)
Theorem fit_within_budget history steps budget :
  small_list history -> small_list steps ->
  let plan := fit_turns_for_summarizer history steps budget in
  rung plan ≠ Emergency ->
  tokens_fit plan = sum_tokens (llm_turns plan) ∧ (tokens_fit plan <= budget)%N.
Proof.
  intros Hh Hs. simpl. rewrite fit_eq_reference by done. unfold fit_reference.
  destruct (N.eqb_spec budget 0); [done|].
  destruct (N.leb_spec (sat_add32 (sum_tokens history) (sum_tokens steps)) budget).
  { intros _. split; [done|]. simpl. unfold concat_turns. by rewrite sum_tokens_app. }
  destruct (N.ltb_spec (sum_tokens steps) budget) as [Hroom|].
  { destruct (keep_recent_under_budget _ _ _) as [[keep om]|] eqn:Hk; intros _; (split; [done|]); simpl.
    - apply keep_recent_some in Hk as (? & _ & _ & _ & Hfit & _); [|done|lia].
      unfold concat_turns. rewrite sum_tokens_app. sat_lia.
    - unfold concat_turns. simpl. lia. }
  destruct (N.eqb_spec (sum_tokens steps) budget) as [Heq|].
  { intros _. split; [done|]. simpl. unfold concat_turns. simpl. lia. }
  destruct (shrink_oversized_tool_results steps budget 0) as [step cnt] eqn:Hshrink.
  destruct (N.leb_spec (sum_tokens step) budget).
  { intros _. split; [done|]. simpl. by unfold concat_turns. }
  destruct (keep_recent_under_budget _ _ _) as [[keep om]|] eqn:Hk; [|by destruct (last steps)].
  intros _. split; [done|]. simpl. unfold concat_turns. simpl.
  apply keep_recent_some in Hk as (? & _ & _ & _ & Hfit & _); [done| |lia].
  unfold small_list in *. by rewrite (shrink_length _ _ _ _ _ Hshrink).
Qed.

(** The steps as the plan's rung leaves them before any is dropped. *)
Definition clipped_steps (r : FitRung) steps (budget : N) : list T :=
  match r with
  | ToolTruncated | StepTurnsSelected => (shrink_oversized_tool_results steps budget 0).1
  | _ => steps
  end.

(** [kept] is what remains of [turns] after [k] oldest items were dropped, and
    does not start with a tool result whose request was dropped. *)
Definition recent_part turns (k : nat) kept : Prop :=
  k ≤ length turns ∧ kept = drop k turns ∧ (k ≠ 0 -> tool_at kept 0 = false).

Lemma recent_part_all turns : recent_part turns 0 turns.
Proof. split_and!; [lia|done|done]. Qed.

Lemma recent_part_none turns : recent_part turns (length turns) [].
Proof. split; [lia|]. split; [|done]. symmetry. by apply drop_ge. Qed.

Lemma keep_recent_part turns budget keep om :
  small_list turns -> (0 < budget)%N ->
  keep_recent_under_budget turns (token_counts turns) budget = Some (keep, om) ->
  ∃ k, om = N.of_nat k ∧ recent_part turns k keep.
Proof.
  intros Hs Hb Hk. apply keep_recent_some in Hk as (k & -> & -> & Hk & _ & Hpos); [|done|done].
  exists k. split; [done|]. split_and!; [done|done|]. intros. by apply Hpos.
Qed.

(** Before the emergency rung the plan is chronological and contiguous: the
    newest part of the history followed by the newest part of the steps (with
    oversized tool results clipped on the later rungs), neither part starting
    with an orphaned tool result, and the omission counts are exact. *)
Theorem fit_keeps_recent history steps budget :
  small_list history -> small_list steps ->
  let plan := fit_turns_for_summarizer history steps budget in
  rung plan ≠ Emergency ->
  ∃ k j hist step,
    history_turns_omitted plan = N.of_nat k ∧ step_turns_omitted plan = N.of_nat j ∧
    recent_part history k hist ∧
    recent_part (clipped_steps (rung plan) steps budget) j step ∧
    llm_turns plan = hist ++ step.
Proof.
  intros Hh Hs. simpl. rewrite fit_eq_reference by done. unfold fit_reference.
  pose proof (recent_part_all steps). pose proof (recent_part_all history).
  pose proof (recent_part_none history).
  destruct (N.eqb_spec budget 0); [done|].
  destruct (N.leb_spec (sat_add32 (sum_tokens history) (sum_tokens steps)) budget).
  { intros _. by exists 0, 0, history, steps. }
  destruct (N.ltb_spec (sum_tokens steps) budget) as [Hroom|].
  { destruct (keep_recent_under_budget _ _ _) as [[keep om]|] eqn:Hk; intros _; simpl.
    - apply keep_recent_part in Hk as (k & -> & Hk); [|done|lia]. by exists k, 0, keep, steps.
    - exists (length history), 0, [], steps. by rewrite (len32_small history). }
  destruct (N.eqb_spec (sum_tokens steps) budget) as [->|].
  { intros _. exists (length history), 0, [], steps. simpl. by rewrite (len32_small history). }
  destruct (shrink_oversized_tool_results steps budget 0) as [step cnt] eqn:Hshrink.
  pose proof (recent_part_all step).
  destruct (N.leb_spec (sum_tokens step) budget).
  { intros _. exists (length history), 0, [], step. simpl.
    rewrite (len32_small history), Hshrink by done. done. }
  destruct (keep_recent_under_budget _ _ _) as [[keep om]|] eqn:Hk; [|by destruct (last steps)].
  intros _. simpl. rewrite (len32_small history), Hshrink by done. simpl.
  apply keep_recent_part in Hk as (j & -> & Hj); [| |lia].
  - by exists (length history), j, [], keep.
  - unfold small_list in *. by rewrite (shrink_length _ _ _ _ _ Hshrink).
Qed.

(** With steps to keep and a non-zero budget the summarizer never gets an
    empty input, whatever the ladder had to drop. *)
Theorem fit_nonempty history steps budget :
  small_list history -> small_list steps ->
  (0 < budget)%N -> steps ≠ [] ->
  llm_turns (fit_turns_for_summarizer history steps budget) ≠ [].
Proof.
  intros Hh Hs Hb Hne. rewrite fit_eq_reference by done. unfold fit_reference.
  assert (Hcat : ∀ turns : list T, turns ++ steps ≠ []) by (intros []; [done|done]).
  destruct (N.eqb_spec budget 0); [lia|].
  destruct (N.leb_spec (sat_add32 (sum_tokens history) (sum_tokens steps)) budget); [apply Hcat|].
  destruct (N.ltb_spec (sum_tokens steps) budget).
  { destruct (keep_recent_under_budget _ _ _) as [[keep om]|]; apply Hcat. }
  destruct (N.eqb_spec (sum_tokens steps) budget); [apply Hcat|].
  destruct (shrink_oversized_tool_results steps budget 0) as [step cnt] eqn:Hshrink.
  pose proof (shrink_length _ _ _ _ _ Hshrink) as Hlen.
  destruct (N.leb_spec (sum_tokens step) budget).
  { simpl. by destruct step, steps. }
  destruct (keep_recent_under_budget _ _ _) as [[keep om]|] eqn:Hk.
  - apply keep_recent_over_nonempty in Hk; [done| |done|done].
    unfold small_list in *. by rewrite Hlen.
  - destruct (last steps) eqn:Hl; [done|]. by apply last_None in Hl.
Qed.

Lemma sum_tokens_last turns t k :
  last turns = Some t -> k < length turns ->
  (N.min (count_item_tokens t) u32_max <= sum_tokens (drop k turns))%N.
Proof.
  intros [l ->]%last_Some Hk. rewrite length_app in Hk. simpl in Hk.
  rewrite drop_app_le by lia. rewrite sum_tokens_app.
  unfold sum_tokens at 2. simpl. rewrite (sat_sum_nsum [_]). simpl. sat_lia.
Qed.

(** Without steps the ladder can drop everything: when the newest history
    item alone exceeds the budget, the plan is empty and is reported as a
    history selection, although the emergency rung exists to keep the newest
    item, clipped, in that situation. *)
Theorem fit_drops_everything_without_steps history t budget :
  small_list history ->
  last history = Some t ->
  (0 < budget < count_item_tokens t)%N ->
  let plan := fit_turns_for_summarizer history [] budget in
  llm_turns plan = [] ∧ rung plan = HistoryTurnSelected ∧
  history_turns_omitted plan = len32 history ∧ tokens_fit plan = 0%N.
Proof.
  intros Hh Hlast [Hb Ht]. simpl. pose proof (count_item_tokens_u32 t) as Hu.
  assert (Hover : ∀ k, k < length history -> (budget < sum_tokens (drop k history))%N).
  { intros k Hk. pose proof (sum_tokens_last _ _ _ Hlast Hk). lia. }
  assert (Hlen : 0 < length history) by (destruct history; [done|simpl; lia]).
  pose proof (Hover 0 Hlen) as Hzero. rewrite drop_0 in Hzero.
  rewrite fit_eq_reference by (try done; vm_compute; congruence). unfold fit_reference.
  rewrite sum_tokens_nil, sat_add32_comm, sat_add32_sum_0_l, N.sub_0_r.
  destruct (N.eqb_spec budget 0); [lia|].
  destruct (N.leb_spec (sum_tokens history) budget); [lia|].
  destruct (N.ltb_spec 0 budget); [|lia].
  destruct (keep_recent_under_budget _ _ _) as [[keep om]|] eqn:Hk; [|done].
  exfalso. apply keep_recent_some in Hk as (k & -> & _ & Hk & Hfit & Hpos); [|done|done].
  destruct (decide (k = 0)) as [->|Hk0].
  - rewrite drop_0 in Hfit. lia.
  - destruct (Hpos Hk0) as [Hlt _]. specialize (Hover k Hlt). lia.
Qed.
End fit.

(** ** Clipping one text *)

(** Clipping a text to a token budget leaves a text that fits untouched, and
    otherwise keeps a prefix cut at a character boundary and appends the
    truncation notice; for budgets of at least 16 tokens (the room reserved
    for the notice) and texts under 10^8 bytes (the notice prints the dropped
    byte count) the result is at most four bytes per token. *)
Theorem truncate_text_bound s max_tokens :
  (16 <= max_tokens)%N -> (N.of_nat (length s) < 10 ^ 8)%N ->
  let r := truncate_text_for_compaction s max_tokens in
  (N.of_nat (length r) <= 4 * max_tokens)%N ∧
  ((N.of_nat (length s) <= 4 * max_tokens)%N -> r = s) ∧
  ∃ e notice, r = take e s ++ notice ∧ (e ≠ 0 -> is_char_boundary s e = true).
Proof.
  intros Hmin Hlen r. subst r. unfold truncate_text_for_compaction, truncate_text_to_token_budget.
  destruct (Nat.leb_spec (length s) (N.to_nat (sat_mul64 max_tokens 4))) as [Hle|Hgt].
  { split_and!; [sat_lia|done|].
    exists (length s), []. rewrite firstn_all, app_nil_r. split; [done|]. intros _. apply is_char_boundary_length. }
  assert (Hmul : sat_mul64 max_tokens 4 = (4 * max_tokens)%N) by sat_lia.
  rewrite Hmul in *.
  destruct (floor_char_boundary_spec s (Nat.min (N.to_nat (4 * max_tokens) - 64) (length s))) as [He Hb].
  set (e := floor_char_boundary _ _) in *.
  split_and!; [|lia|eexists e, _; split; [done|exact Hb]].
  pose proof (show_N_length (N.of_nat (length s - e)) 8 ltac:(lia) ltac:(lia)) as Hshow.
  fold (show_nat (length s - e)) in Hshow. set (d := show_nat (length s - e)) in *.
  assert (length (nl ++ lit "[... truncated ") = 16) by reflexivity.
  assert (length (lit " bytes to fit the compaction window ...]") = 40) by reflexivity.
  rewrite app_assoc in *. rewrite !length_app in *. rewrite length_take. lia.
Qed.

(** ** Witnesses *)

Lemma truncate_text_bound_witness :
  let s := repeat "a"%char 100 in
  let r := truncate_text_for_compaction s 20 in
  (N.of_nat (length r) <= 4 * 20)%N ∧
  ((N.of_nat (length s) <= 4 * 20)%N -> r = s) ∧
  ∃ e notice, r = take e s ++ notice ∧ (e ≠ 0 -> is_char_boundary s e = true).
Proof. apply truncate_text_bound; [lia|by vm_compute]. Defined.

Definition demo_history : list MockItem :=
  [mkMock User (lit "an old question") false false; mkMock Assistant (lit "an answer") false false].

Definition demo_steps : list MockItem :=
  [mkMock Assistant (lit "call") true false; mkMock Tool (lit "a result of some length") false false].

Lemma demo_small : small_list demo_history ∧ small_list demo_steps.
Proof. by split; vm_compute. Qed.

Lemma fit_turns_for_summarizer_reference_witness :
  fit_turns_for_summarizer demo_history demo_steps 20 = fit_reference demo_history demo_steps 20.
Proof. apply fit_turns_for_summarizer_reference; vm_compute; congruence. Defined.

(** 36 tokens keep the newest history item; 27 tokens keep only the steps. *)
Lemma fit_within_budget_witness :
  let plan := fit_turns_for_summarizer demo_history demo_steps 36 in
  rung plan = HistoryTurnSelected ∧
  tokens_fit plan = sum_tokens (llm_turns plan) ∧ (tokens_fit plan <= 36)%N.
Proof. split; [reflexivity|]. apply fit_within_budget; vm_compute; congruence. Defined.

Lemma fit_keeps_recent_witness :
  let plan := fit_turns_for_summarizer demo_history demo_steps 36 in
  ∃ k j hist step,
    history_turns_omitted plan = N.of_nat k ∧ step_turns_omitted plan = N.of_nat j ∧
    recent_part demo_history k hist ∧
    recent_part (clipped_steps (rung plan) demo_steps 36) j step ∧
    llm_turns plan = hist ++ step.
Proof. apply fit_keeps_recent; vm_compute; congruence. Defined.

Lemma fit_nonempty_witness :
  llm_turns (fit_turns_for_summarizer demo_history demo_steps 3) ≠ [].
Proof. apply fit_nonempty; vm_compute; congruence. Defined.

Lemma fit_drops_everything_without_steps_witness :
  let plan := fit_turns_for_summarizer demo_history [] 5 in
  llm_turns plan = [] ∧ rung plan = HistoryTurnSelected ∧
  history_turns_omitted plan = len32 demo_history ∧ tokens_fit plan = 0%N.
Proof.
  apply (fit_drops_everything_without_steps _ (mkMock Assistant (lit "an answer") false false));
    [vm_compute; congruence|reflexivity|by split; vm_compute].
Defined.
