(* ===== verification/Summary.v ===== *)
(** * Summary cleaning and compacted-history assembly

    [crates/common/xai-grok-compaction/src/code_compaction/]: [summary.rs],
    [assemble.rs], [failure.rs], [config.rs] and [prompt.rs]. A slice [&s[a..b]]
    is [take (b - a) (drop a s)]; the loops of [format_compact_summary] carry
    fuel, and their termination theorem shows the length of the text is enough. *)

From S2P Require Export CompactionItem RustStr.

(** ** Configuration *)

(** Source: crates/common/xai-grok-compaction/src/code_compaction/config.rs:13-13, [DEFAULT_AUTO_COMPACT_THRESHOLD_PERCENT]. *)
Definition DEFAULT_AUTO_COMPACT_THRESHOLD_PERCENT : N := 85.

(** Source: crates/common/xai-grok-compaction/src/code_compaction/config.rs:20-20, [MIN_SUMMARY_SEED_CHARS]. *)
Definition MIN_SUMMARY_SEED_CHARS : nat := 500.

(** Source: crates/common/xai-grok-compaction/src/code_compaction/config.rs:23-31, [FullReplaceConfig]. *)
Record FullReplaceConfig := mkFullReplaceConfig {
  fr_max_attempts : N;
  fr_retry_delay_secs : N;
  fr_sampling_timeout_secs : N;
}.

(** Source: crates/common/xai-grok-compaction/src/code_compaction/config.rs:33-41, [impl Default for FullReplaceConfig]. *)
Definition FullReplaceConfig_default : FullReplaceConfig := mkFullReplaceConfig 3 3 120.

(** ** Cleaning *)

Definition analysis_open : str := lit "<analysis>".
Definition analysis_close : str := lit "</analysis>".
Definition summary_open : str := lit "<summary>".
Definition summary_close : str := lit "</summary>".
Definition request_open : str := lit "<summary_request>".
Definition request_close : str := lit "</summary_request>".

(** The [is_leading] test on the positions of the two tags.

    Source: crates/common/xai-grok-compaction/src/code_compaction/summary.rs:32-35, [format_compact_summary]. *)
Definition is_leading_analysis (result : str) (start : nat) : bool :=
  match find summary_open result with
  | Some sp =>
      Nat.ltb start sp
      || is_empty (trim (take (start - (sp + length summary_open)) (drop (sp + length summary_open) result)))
  | None => is_empty (trim (take start result))
  end.

(** One iteration of step 1: [None] when the loop ends, else the new text and
    whether the loop goes on.

    Source: crates/common/xai-grok-compaction/src/code_compaction/summary.rs:31-54, [format_compact_summary]. *)
Definition peel_step (result : str) : option (str * bool) :=
  match find analysis_open result with
  | None => None
  | Some start =>
      if negb (is_leading_analysis result start) then None
      else
        match find analysis_close (drop start result) with
        | Some rel =>
            let e := start + rel + length analysis_close in
            Some (take start result ++ drop e result, true)
        | None =>
            let drop_to :=
              match find summary_open (drop start result) with
              | Some rel => start + rel
              | None => length result
              end in
            Some (take start result ++ drop drop_to result, false)
        end
  end.

(** Step 1, the [while let] loop. *)
Fixpoint peel_analysis (fuel : nat) (result : str) : str :=
  match fuel with
  | 0 => result
  | S fuel' =>
      match peel_step result with
      | None => result
      | Some (result', true) => peel_analysis fuel' result'
      | Some (result', false) => result'
      end
  end.

(** Source: crates/common/xai-grok-compaction/src/code_compaction/summary.rs:94-106, [strip_leading_scratchpad]. *)
Definition strip_leading_scratchpad (inner : str) : str :=
  let s := trim inner in
  let lead := trim_start_matches (lit "#*-> " ++ [byte 9]) s in
  let digit := match lead with c :: _ => is_ascii_digit c | [] => false end in
  let s :=
    if negb digit then
      match rfind analysis_close s with
      | Some pos => trim_start (drop (pos + length analysis_close) s)
      | None => s
      end
    else s in
  match strip_prefix summary_open s with
  | Some rest => trim_start rest
  | None => s
  end.

(** Step 2.

    Source: crates/common/xai-grok-compaction/src/code_compaction/summary.rs:62-70, [format_compact_summary]. *)
Definition unwrap_summary (result : str) : str :=
  match find summary_open result, rfind summary_close result with
  | Some start, Some e =>
      if Nat.ltb start e then
        let before := take start result in
        let after := drop (e + length summary_close) result in
        let from := start + length summary_open in
        let inner := strip_leading_scratchpad (trim (take (e - from) (drop from result))) in
        before ++ lit "Summary:" ++ nl ++ inner ++ after
      else result
  | _, _ => result
  end.

(** [<] followed by a zero-width space and the rest of the tag. *)
Definition defused (t : str) : str := take 1 t ++ zwsp ++ drop 1 t.

(** Source: crates/common/xai-grok-compaction/src/code_compaction/summary.rs:111-118, [neutralize_compaction_control_tokens]. *)
Definition neutralize_compaction_control_tokens (text : str) : str :=
  let text := replace summary_close (defused summary_close) text in
  let text := replace summary_open (defused summary_open) text in
  let text := replace analysis_close (defused analysis_close) text in
  let text := replace analysis_open (defused analysis_open) text in
  let text := replace request_close (defused request_close) text in
  replace request_open (defused request_open) text.

Definition nl2 : str := nl ++ nl.
Definition nl3 : str := nl ++ nl ++ nl.

(** The last loop.

    Source: crates/common/xai-grok-compaction/src/code_compaction/summary.rs:77-79, [format_compact_summary]. *)
Fixpoint collapse_newlines (fuel : nat) (result : str) : str :=
  match fuel with
  | 0 => result
  | S fuel' =>
      if contains nl3 result then collapse_newlines fuel' (replace nl3 nl2 result) else result
  end.

(** Source: crates/common/xai-grok-compaction/src/code_compaction/summary.rs:19-82, [format_compact_summary]. *)
Definition format_compact_summary (summary : str) : str :=
  let result := peel_analysis (S (length summary)) summary in
  let result := unwrap_summary result in
  let result := neutralize_compaction_control_tokens result in
  let result := collapse_newlines (S (length result)) result in
  trim result.

(** Source: crates/common/xai-grok-compaction/src/code_compaction/summary.rs:123-125, [is_degenerate_summary]. *)
Definition is_degenerate_summary (raw_summary : str) : bool :=
  Nat.ltb (chars_count (format_compact_summary raw_summary)) MIN_SUMMARY_SEED_CHARS.

Definition continuation_preamble : str :=
  lit "This session is being continued from a previous conversation that ran out of context. " ++
  lit "The summary below covers the earlier portion of the conversation.".

(** Source: crates/common/xai-grok-compaction/src/code_compaction/summary.rs:130-136, [format_compact_summary_content]. *)
Definition format_compact_summary_content (raw_summary : str) : str :=
  continuation_preamble ++ nl ++ nl ++ format_compact_summary raw_summary.

(** Source: crates/common/xai-grok-compaction/src/code_compaction/summary.rs:143-146, [wrap_user_query]. *)
Definition wrap_user_query (text : str) : str :=
  lit "<user_query>" ++ nl ++ text ++ nl ++ lit "</user_query>".

(** ** Assembly *)

(** Source: crates/common/xai-grok-compaction/src/code_compaction/assemble.rs:27-46, [CompactedHistoryParts]. *)
Record CompactedHistoryParts (T : Type) := mkParts {
  system_message : T;
  user_message_prefix : str;
  agents_md_reminder : option str;
  last_user_query : option str;
  recent_messages : list T;
  compaction_summary : str;
  system_reminder : option str;
  transcript_hint : option str;
}.
Arguments mkParts {_}.
Arguments system_message {_}.
Arguments user_message_prefix {_}.
Arguments agents_md_reminder {_}.
Arguments last_user_query {_}.
Arguments recent_messages {_}.
Arguments compaction_summary {_}.
Arguments system_reminder {_}.
Arguments transcript_hint {_}.

(** [if let Some(x) = o { v.push(f(x)) }]. *)
Definition push_some {A B} (o : option A) (f : A -> B) (v : list B) : list B :=
  match o with Some x => v ++ [f x] | None => v end.

(** Source: crates/common/xai-grok-compaction/src/code_compaction/assemble.rs:62-102, [assemble_compacted_history]. *)
Definition assemble_compacted_history {T} `{CompactionItemFactory T} (parts : CompactedHistoryParts T) : list T :=
  let compacted := [system_message parts; new_user_meta (user_message_prefix parts)] in
  let compacted := push_some (agents_md_reminder parts) new_project_instructions compacted in
  let compacted := push_some (last_user_query parts) (fun q => new_user (wrap_user_query q)) compacted in
  let formatted_summary := format_compact_summary_content (compaction_summary parts) in
  let formatted_summary :=
    match transcript_hint parts with
    | Some hint => formatted_summary ++ hint
    | None => formatted_summary
    end in
  let summary_item := new_user_meta formatted_summary in
  let compacted := compacted ++ recent_messages parts in
  let compacted := compacted ++ [summary_item] in
  push_some (system_reminder parts) new_system_reminder compacted.

(** ** Size-overflow detection *)

(** Source: crates/common/xai-grok-compaction/src/code_compaction/failure.rs:28-30, [is_anchored]. *)
Definition is_anchored (m needle : str) : bool :=
  existsb (starts_with needle) (split (lit ": ") m).

(** Source: crates/common/xai-grok-compaction/src/code_compaction/failure.rs:33-42, [has_size_slug]. *)
Definition has_size_slug (m : str) : bool :=
  existsb (is_anchored m)
    [lit "context_length_exceeded"; lit "exceed_context_size_error";
     lit "payload_too_large"; lit "request_too_large"].

(** Source: crates/common/xai-grok-compaction/src/code_compaction/failure.rs:48-52, [has_rendered_413_phrase]. *)
Definition has_rendered_413_phrase (m : str) : bool :=
  contains (lit "413 payload too large") m
  || contains (lit "413 content too large") m
  || contains (lit "413 request entity too large") m.

(** Source: crates/common/xai-grok-compaction/src/code_compaction/failure.rs:57-59, [has_input_length_pair]. *)
Definition has_input_length_pair (m : str) : bool :=
  contains (lit "input length") m && contains (lit "exceeds the maximum allowed length") m.

(** Source: crates/common/xai-grok-compaction/src/code_compaction/failure.rs:9-23, [is_context_length_error]. *)
Definition is_context_length_error (message : str) : bool :=
  let m := to_ascii_lowercase message in
  contains (lit "too long for this model") m
  || contains (lit "prompt is too long") m
  || contains (lit "maximum prompt length") m
  || contains (lit "maximum context length") m
  || contains (lit "maximum allowed number of bytes") m
  || (contains (lit "current message") m && contains (lit "exceeds budget") m)
  || is_anchored m (lit "request too large")
  || has_size_slug m
  || has_rendered_413_phrase m
  || has_input_length_pair m.

(** ** The summarization prompt

    [template] is the text of [templates/full_replace_summary_prompt.txt]. *)

Definition user_context_placeholder : str := lit "{user_context_section}".

(** Source: crates/common/xai-grok-compaction/src/code_compaction/prompt.rs:15-26, [build_summary_prompt]. *)
Definition build_summary_prompt (template : str) (user_context : option str) : str :=
  let user_context_section :=
    match user_context with
    | Some context =>
        nl ++ nl ++ lit "**User-provided context for this compaction:**" ++ nl ++ context ++ nl ++ nl ++
        lit "Please incorporate this context into your summary, ensuring it is prominently addressed in the relevant sections."
        ++ nl ++ nl
    | None => []
    end in
  replace user_context_placeholder user_context_section template.

(** Source: crates/common/xai-grok-compaction/src/code_compaction/prompt.rs:34-45, [SELF_SUMMARIZATION_PROMPT]. *)
Definition SELF_SUMMARIZATION_PROMPT : str := lit
"<summary_request>
Please summarize the conversation so far. This summary (everything after your
thinking) will be provided to another AI assistant to continue working on the
task. The other assistant will only see the user's original query and your
summary, it will not have access to any tool calls or tool outputs from this
conversation. The purpose of the summary is to compress the conversation
context while preserving the essential information needed to seamlessly
continue. Useful things to include: the user's requests, what you've done so
far, relevant file paths and code details, any errors encountered and how
they were resolved, and what remains to be done. DO NOT call any tools in
your response.
</summary_request>".

(** Source: crates/common/xai-grok-compaction/src/code_compaction/prompt.rs:54-61, [SummaryPromptKind]. *)
Inductive SummaryPromptKind :=
  | Structured
  | SelfSummary.

(** Source: crates/common/xai-grok-compaction/src/code_compaction/prompt.rs:70-82, [build_summary_prompt_kind]. *)
Definition build_summary_prompt_kind (template : str) (kind : SummaryPromptKind) (user_context : option str) : str :=
  match kind with
  | Structured => build_summary_prompt template user_context
  | SelfSummary =>
      match user_context with
      | Some ctx =>
          SELF_SUMMARIZATION_PROMPT ++ nl ++ nl ++ lit "<user_provided_context>" ++ nl ++ ctx ++ nl ++
          lit "</user_provided_context>" ++ nl ++ nl ++
          lit "Incorporate the user-provided context above into your summary."
      | None => SELF_SUMMARIZATION_PROMPT
      end
  end.

(** ** Lemmas *)

Definition control_tokens : list str :=
  [summary_close; summary_open; analysis_close; analysis_open; request_close; request_open].

(** The loops *)

Lemma peel_step_shorter s s' : peel_step s = Some (s', true) -> length s' < length s.
Proof.
  unfold peel_step. destruct (find analysis_open s) as [start|] eqn:Hf; [|done].
  destruct (negb _); [done|].
  destruct (find analysis_close (drop start s)) as [rel|] eqn:Hc; [|done]. intros [= <-].
  apply find_lt in Hf; [|done]. apply find_lt in Hc; [|done]. rewrite length_drop in Hc.
  rewrite length_app, length_take, length_drop. simpl in *. lia.
Qed.

Lemma peel_fuel f1 f2 s : length s < f1 -> length s < f2 -> peel_analysis f1 s = peel_analysis f2 s.
Proof.
  revert f2 s. induction f1 as [|f1 IH]; intros [|f2] s H1 H2; [lia..|]. simpl.
  destruct (peel_step s) as [[s' []]|] eqn:E; [|done..].
  apply peel_step_shorter in E. apply IH; lia.
Qed.

Lemma collapse_shorter s : contains nl3 s = true -> length (replace nl3 nl2 s) < length s.
Proof. intros Hc%contains_spec. apply replace_length_lt; [done|simpl; lia|done]. Qed.

Lemma collapse_fuel f1 f2 s :
  length s < f1 -> length s < f2 -> collapse_newlines f1 s = collapse_newlines f2 s.
Proof.
  revert f2 s. induction f1 as [|f1 IH]; intros [|f2] s H1 H2; [lia..|]. simpl.
  destruct (contains nl3 s) eqn:E; [|done]. apply collapse_shorter in E. apply IH; lia.
Qed.

Lemma collapse_done f s : length s < f -> ¬ occurs nl3 (collapse_newlines f s).
Proof.
  revert s. induction f as [|f IH]; intros s Hf; [lia|]. simpl.
  destruct (contains nl3 s) eqn:E; [|by apply contains_false].
  apply collapse_shorter in E. apply IH. lia.
Qed.

Lemma collapse_no_new f q s :
  q ≠ [] -> byte 10 ∉ q -> occurs q (collapse_newlines f s) -> occurs q s.
Proof.
  intros Hq Hc. revert s. induction f as [|f IH]; intros s; simpl; [done|].
  destruct (contains nl3 s); [|done]. intros Ho%IH.
  apply (replace_no_new_word nl3 nl2 (byte 10) nl) in Ho; try done. by repeat constructor.
Qed.

Lemma collapse_id f s : ¬ occurs nl3 s -> collapse_newlines f s = s.
Proof. intros Hn. destruct f; simpl; [done|]. apply contains_false in Hn. by rewrite Hn. Qed.

(** The control tokens *)

Ltac by_decision := refine (bool_decide_eq_true_1 _ _); vm_compute; reflexivity.
Ltac prove_tag := eexists; split; [reflexivity|by_decision].

Lemma control_token_tag tok :
  tok ∈ control_tokens ->
  ∃ d, (d = byte 47 ∨ d = byte 115 ∨ d = byte 97) ∧ tag (byte 60) d tok ∧ tag (byte 60) (byte 226) (defused tok).
Proof.
  unfold control_tokens. rewrite !elem_of_cons, elem_of_nil.
  intros [->|[->|[->|[->|[->|[->|[]]]]]]];
    [exists (byte 47)|exists (byte 115)|exists (byte 47)|exists (byte 97)|exists (byte 47)|exists (byte 115)];
    (split; [by auto|split; prove_tag]).
Qed.

(** One replacement removes its token and brings back none. *)
Lemma defuse_token tok q s :
  tok ∈ control_tokens -> q ∈ control_tokens ->
  occurs q (replace tok (defused tok) s) -> occurs q s ∧ q ≠ tok.
Proof.
  intros Ht Hq Ho. apply control_token_tag in Ht as (d & _ & Ht & Hr).
  apply control_token_tag in Hq as (d' & Hd & Hq & _).
  apply (replace_tag _ _ _ _ _ _ _ _ Ht Hr Hq) in Ho; [done|].
  by destruct Hd as [->|[->| ->]].
Qed.

Lemma neutralize_clean tok s :
  tok ∈ control_tokens -> ¬ occurs tok (neutralize_compaction_control_tokens s).
Proof.
  intros Ht Ho. unfold neutralize_compaction_control_tokens in Ho. cbv zeta in Ho.
  repeat match type of Ho with
  | occurs _ (replace ?p _ _) =>
      let Hne := fresh "Hne" in
      apply (defuse_token p) in Ho as [Ho Hne]; [|by_decision|done]
  end.
  unfold control_tokens in Ht. rewrite !elem_of_cons, elem_of_nil in Ht. naive_solver.
Qed.

Lemma neutralize_id s :
  (∀ tok, tok ∈ control_tokens -> ¬ occurs tok s) -> neutralize_compaction_control_tokens s = s.
Proof.
  intros Hn. unfold neutralize_compaction_control_tokens. cbv zeta.
  repeat (rewrite (replace_id _ _ s); [|done|apply Hn; by_decision]). done.
Qed.

Lemma control_token_no_newline tok : tok ∈ control_tokens -> tok ≠ [] ∧ byte 10 ∉ tok.
Proof.
  unfold control_tokens. rewrite !elem_of_cons, elem_of_nil.
  intros [->|[->|[->|[->|[->|[->|[]]]]]]]; (split; [done|by_decision]).
Qed.

(** A clean text: no control token, no run of three newlines, no outer
    whitespace. *)
Definition clean (s : str) : Prop :=
  (∀ tok, tok ∈ control_tokens -> ¬ occurs tok s) ∧ ¬ occurs nl3 s ∧ trim s = s.

Lemma format_clean s : clean (format_compact_summary s).
Proof.
  unfold format_compact_summary. cbv zeta. split_and!.
  - intros tok Ht Ho%trim_occurs. apply control_token_no_newline in Ht as Hn. destruct Hn.
    apply collapse_no_new in Ho; [|done..]. by apply neutralize_clean in Ho.
  - intros Ho%trim_occurs. apply collapse_done in Ho; [done|lia].
  - apply trim_idem.
Qed.

Lemma format_of_clean s : clean s -> format_compact_summary s = s.
Proof.
  intros (Htok & Hnl & Htrim). unfold format_compact_summary. cbv zeta. cbn [peel_analysis].
  assert (Hao : find analysis_open s = None) by (apply find_None, Htok; by_decision).
  assert (Hso : find summary_open s = None) by (apply find_None, Htok; by_decision).
  unfold peel_step. rewrite Hao. unfold unwrap_summary. rewrite Hso.
  by rewrite neutralize_id, collapse_id.
Qed.

(** ** A well-formed response *)

Lemma not_occurs_char p s c : c ∈ p -> c ∉ s -> ¬ occurs p s.
Proof. intros Hp Hs Ho. apply Hs. by eapply occurs_elem. Qed.

Lemma clean_no_lt s : byte 60 ∉ s -> ∀ tok, tok ∈ control_tokens -> ¬ occurs tok s.
Proof.
  intros Hs tok Ht. apply control_token_tag in Ht as (d & _ & (q & -> & _) & _).
  apply (not_occurs_char _ _ (byte 60)); [by left|done].
Qed.

(** The step the first loop takes on a leading, closed [analysis] block. *)
Lemma peel_step_block draft rest :
  byte 60 ∉ draft ->
  peel_step (analysis_open ++ draft ++ analysis_close ++ rest) = Some (rest, true).
Proof.
  intros Hd. set (s := analysis_open ++ draft ++ analysis_close ++ rest). unfold peel_step.
  assert (Hfind : find analysis_open s = Some 0) by reflexivity.
  rewrite Hfind.
  assert (Hlead : is_leading_analysis s 0 = true).
  { unfold is_leading_analysis. destruct (find summary_open s) as [[|sp]|] eqn:Hs; [|done..].
    apply find_split in Hs. discriminate Hs. }
  rewrite Hlead. cbn [negb]. rewrite drop_0.
  assert (Hclose : find analysis_close s = Some (10 + length draft)).
  { unfold s. change (analysis_open ++ draft ++ analysis_close ++ rest)
      with (byte 60 :: (lit "analysis>" ++ draft ++ analysis_close ++ rest)).
    rewrite find_cons by reflexivity.
    rewrite app_assoc. change analysis_close with (byte 60 :: lit "/analysis>").
    change ((byte 60 :: lit "/analysis>") ++ rest) with (byte 60 :: lit "/analysis>" ++ rest).
    rewrite find_after; [by rewrite length_app|].
    rewrite elem_of_app. intros [Hin|]; [|done]. revert Hin. by_decision. }
  rewrite Hclose, take_0. cbn [app]. do 2 f_equal.
  unfold s. rewrite 2!app_assoc. apply drop_app_length'.
  rewrite !length_app. simpl. lia.
Qed.

(** Step 2 on a wrapper around a body that has no tag of its own. *)
Lemma unwrap_summary_block before body :
  byte 60 ∉ before -> byte 60 ∉ body -> head_is_continuation body = false ->
  trim body = body -> body ≠ [] ->
  unwrap_summary (before ++ summary_open ++ nl ++ body ++ nl ++ summary_close) =
  before ++ lit "Summary:" ++ nl ++ body.
Proof.
  intros Hb Hbody Hhead Htrim Hne. unfold unwrap_summary.
  change (summary_open ++ nl ++ body ++ nl ++ summary_close)
    with (byte 60 :: lit "summary>" ++ (nl ++ body ++ nl ++ summary_close)).
  change summary_open with (byte 60 :: lit "summary>") at 1. rewrite find_after by done.
  set (pre := before ++ summary_open ++ nl ++ body ++ nl).
  assert (Heq : before ++ byte 60 :: lit "summary>" ++ nl ++ body ++ nl ++ summary_close = pre ++ summary_close).
  { unfold pre. by rewrite <- !app_assoc. }
  rewrite Heq, rfind_end by done.
  assert (Hlen : length pre = length before + 9 + (length body + 2)).
  { unfold pre. rewrite !length_app. simpl. lia. }
  destruct (Nat.ltb_spec (length before) (length pre)) as [_|]; [|lia].
  assert (Hinner : take (length pre - (length before + length summary_open))
            (drop (length before + length summary_open) (pre ++ summary_close)) = nl ++ body ++ nl).
  { rewrite <- Heq. change (byte 60 :: lit "summary>" ++ nl ++ body ++ nl ++ summary_close)
      with (summary_open ++ nl ++ body ++ nl ++ summary_close).
    rewrite (app_assoc before), drop_app_length' by (by rewrite length_app).
    replace (nl ++ body ++ nl ++ summary_close) with ((nl ++ body ++ nl) ++ summary_close) by (by rewrite <- !app_assoc).
    rewrite take_app_length'; [done|]. rewrite Hlen, !length_app. simpl. lia. }
  rewrite Hinner, trim_strip by done.
  rewrite drop_ge by (rewrite length_app; lia).
  rewrite <- Heq at 1. rewrite take_app_length, app_nil_r.
  do 3 f_equal. unfold strip_leading_scratchpad. rewrite Htrim.
  assert (Hr : rfind analysis_close body = None).
  { apply rfind_None, (clean_no_lt _ Hbody). by_decision. }
  rewrite Hr.
  assert (Hp : strip_prefix summary_open body = None).
  { unfold strip_prefix. destruct (starts_with summary_open body) eqn:E; [|done].
    apply starts_with_spec in E as [r ->]. destruct Hbody. by left. }
  match goal with |- context [if ?b then body else body] => destruct b end; by rewrite Hp.
Qed.

Lemma occurs_nl3_app body u :
  byte 10 ∉ u -> ¬ occurs nl3 (nl ++ body) -> ¬ occurs nl3 (u ++ nl ++ body).
Proof. intros Hu Hn Ho. apply Hn. by apply (occurs_app_no_head (byte 10) (nl ++ nl) u). Qed.

(** ** Properties *)

(** Whatever the model answered, the cleaned summary is safe to put back in
    the conversation: it contains none of the six compaction control tags, no
    run of three newlines, and no outer whitespace. *)
Theorem format_compact_summary_clean raw :
  (∀ tok, tok ∈ control_tokens -> contains tok (format_compact_summary raw) = false) ∧
  contains nl3 (format_compact_summary raw) = false ∧
  trim (format_compact_summary raw) = format_compact_summary raw.
Proof.
  destruct (format_clean raw) as (Htok & Hnl & Htrim). split_and!; [|by apply contains_false|done].
  intros tok Ht. by apply contains_false, Htok.
Qed.

(** Cleaning is idempotent: a summary that is carried through several
    compactions is cleaned once. *)
Theorem format_compact_summary_idempotent raw :
  format_compact_summary (format_compact_summary raw) = format_compact_summary raw.
Proof. apply format_of_clean, format_clean. Qed.

(** Both loops of the cleaning terminate within as many iterations as the
    text has bytes: more fuel than the length of their input changes nothing,
    and the loops stop because their condition is false. *)
Theorem format_compact_summary_terminates s extra :
  peel_analysis (S (length s) + extra) s = peel_analysis (S (length s)) s ∧
  collapse_newlines (S (length s) + extra) s = collapse_newlines (S (length s)) s ∧
  contains nl3 (collapse_newlines (S (length s)) s) = false.
Proof.
  split_and!; [apply peel_fuel; lia|apply collapse_fuel; lia|].
  apply contains_false, collapse_done. lia.
Qed.

(** A response in the shape the prompt asks for (a drafting block, then the
    summary in its wrapper) is turned into the heading and the body, verbatim,
    and the draft is gone. *)
Theorem format_compact_summary_response draft body :
  byte 60 ∉ draft -> byte 60 ∉ body -> body ≠ [] ->
  head_is_continuation body = false -> trim body = body ->
  contains nl3 (nl ++ body) = false ->
  format_compact_summary
    (analysis_open ++ draft ++ analysis_close ++ nl ++ summary_open ++ nl ++ body ++ nl ++ summary_close) =
  lit "Summary:" ++ nl ++ body.
Proof.
  intros Hd Hb Hne Hhead Htrim Hnl. unfold format_compact_summary. cbv zeta.
  cbn [peel_analysis]. rewrite peel_step_block by done.
  set (rest := nl ++ summary_open ++ nl ++ body ++ nl ++ summary_close).
  assert (Hpeel : ∀ f, peel_analysis f rest = rest).
  { intros [|f]; [done|]. simpl. unfold peel_step.
    assert (Hf : find analysis_open rest = None); [|by rewrite Hf].
    apply find_None. unfold rest. intros Ho.
    apply (occurs_app_no_head (byte 60) _ nl) in Ho; [|by_decision].
    apply occurs_cons in Ho as [Ho|Ho]; [done|].
    change (lit "summary>" ++ nl ++ body ++ nl ++ summary_close)
      with ((lit "summary>" ++ nl) ++ body ++ nl ++ summary_close) in Ho.
    apply (occurs_app_no_head (byte 60) _ (lit "summary>" ++ nl)) in Ho; [|by_decision].
    apply (occurs_app_no_head (byte 60) _ body) in Ho; [|done].
    apply (occurs_app_no_head (byte 60) _ nl) in Ho; [|by_decision].
    apply contains_spec in Ho. by vm_compute in Ho. }
  rewrite Hpeel. unfold rest. rewrite unwrap_summary_block by (done || by_decision).
  set (out := lit "Summary:" ++ nl ++ body).
  assert (Hout : byte 60 ∉ nl ++ out).
  { unfold out. rewrite !elem_of_app. intros [H|[H|[H|H]]]; [..|done]; revert H; by_decision. }
  rewrite neutralize_id by (by apply clean_no_lt).
  rewrite collapse_id.
  2: { change (nl ++ out) with ([] ++ nl ++ out). intros [a [b Hab]].
       apply contains_false in Hnl. apply (occurs_nl3_app body (lit "Summary:")) in Hnl; [|by_decision].
       apply Hnl. fold out. destruct a as [|x a]; [discriminate Hab|]. simplify_eq/=. by exists a, b. }
  rewrite <- (app_nil_r out) at 1. apply trim_strip; try done.
  apply trim_fixed. unfold out. rewrite (chars_app _ (nl ++ body)), (chars_app nl) by done.
  apply trim_fixed in Htrim as [_ Hlast]. split; [done|].
  rewrite !rev_app_distr. destruct (rev (chars body)) eqn:E; [|done].
  pose proof (concat_chars body) as Hc. apply (f_equal (@rev str)) in E. rewrite rev_involutive in E.
  rewrite E in Hc. by subst.
Qed.

(** ** Witnesses *)

Lemma format_compact_summary_response_witness :
  format_compact_summary
    (analysis_open ++ lit "thinking" ++ analysis_close ++ nl ++ summary_open ++ nl ++ lit "1. Fix it." ++ nl ++ summary_close) =
  lit "Summary:" ++ nl ++ lit "1. Fix it.".
Proof.
  apply format_compact_summary_response;
    [by_decision|by_decision|discriminate|vm_compute; reflexivity..].
Defined.
