(* ===== verification/Filter.v ===== *)
(** * Item filtering and user-query extraction

    [crates/common/xai-grok-compaction/src/history/]: [filter.rs],
    [validate.rs] and [types.rs]. The prompt getters of [history/prompt.rs]
    return template files verbatim and are not modelled. *)

From S2P Require Export CompactionItem RustStr.

(** ** Filters *)

Section filters.
Context {T : Type} `{CompactionItemBuilder T}.
Implicit Types turns : list T.

(** Source: crates/common/xai-grok-compaction/src/history/filter.rs:28-34, [keep_turn_for_basic_compaction]. *)
Definition keep_turn_for_basic_compaction (turn : T) : bool :=
  match role turn with
  | System => false
  | Developer => is_compaction_summary turn
  | _ => true
  end.

(** Source: crates/common/xai-grok-compaction/src/history/filter.rs:18-24, [filter_turns_for_basic]. *)
Definition filter_turns_for_basic turns : list T := List.filter keep_turn_for_basic_compaction turns.

(** The closure of [filter_turns_for_inter_compaction]. *)
Definition inter_keep (turn : T) : option T :=
  match role turn with
  | Tool | System => None
  | Developer => if is_compaction_summary turn then Some turn else None
  | User => Some turn
  | Assistant => strip_tool_content turn
  end.

(** Source: crates/common/xai-grok-compaction/src/history/filter.rs:47-70, [filter_turns_for_inter_compaction]. *)
Definition filter_turns_for_inter_compaction turns : list T := omap inter_keep turns.
End filters.

(** ** Splitting a prior summary *)

Definition start_tag : str := lit "<grok_user_queries>".
Definition end_tag : str := lit "</grok_user_queries>".

(** [if !s.is_empty() { if !rest.is_empty() { rest.push('\n') } rest.push_str(s) }]. *)
Definition push_line (rest s : str) : str :=
  if is_empty s then rest
  else if is_empty rest then s
  else rest ++ nl ++ s.

(** The loop; [s] is [text[cursor..]].

    Source: crates/common/xai-grok-compaction/src/history/filter.rs:98-138, [split_prior_compaction_text]. *)
Fixpoint split_prior_loop (fuel : nat) (s : str) (user_sections : list str) (rest : str) : list str * str :=
  match fuel with
  | 0 => (user_sections, rest)
  | S fuel' =>
      match find start_tag s with
      | None => (user_sections, push_line rest (trim s))
      | Some start =>
          match find end_tag (drop start s) with
          | None => (user_sections, push_line rest (trim s))
          | Some e =>
              let abs_end := start + e + length end_tag in
              split_prior_loop fuel' (drop abs_end s)
                (user_sections ++ [take (abs_end - start) (drop start s)])
                (push_line rest (trim (take start s)))
          end
      end
  end.

(** Source: crates/common/xai-grok-compaction/src/history/filter.rs:90-145, [split_prior_compaction_text]. *)
Definition split_prior_compaction_text (text : str) : option str * str :=
  let '(user_sections, rest) := split_prior_loop (S (length text)) text [] [] in
  if is_empty user_sections then (None, text)
  else (Some (join nl user_sections), rest).

(** ** User queries *)

(** Source: crates/common/xai-grok-compaction/src/history/filter.rs:149-159, [truncate_middle]. *)
Definition truncate_middle (msg : str) (max_chars : nat) : option str :=
  let char_count := chars_count msg in
  if Nat.leb char_count max_chars then None
  else
    let front_len := max_chars / 2 in
    let back_len := max_chars - front_len in
    let front := concat (take front_len (chars msg)) in
    let back := concat (drop (char_count - back_len) (chars msg)) in
    Some (front ++ lit "...[truncated]..." ++ back).

(** [turn.text().unwrap_or_default()]. *)
Definition text_or_default {T} `{CompactionItem T} (turn : T) : str :=
  match text turn with Some s => s | None => [] end.

(** One attachment line of [extract_user_queries_from_turns]. *)
Definition attachment_line (att : CompactionFileRef) : str :=
  lit "<grok_file id=" ++ dq ++ file_id att ++ dq ++ lit " name=" ++ dq ++ file_name att ++ dq ++ lit " />" ++ nl.

(** What one user item with content appends.

    Source: crates/common/xai-grok-compaction/src/history/filter.rs:191-212, [extract_user_queries_from_turns]. *)
Definition grok_query (text : str) (attachments : list CompactionFileRef) (threshold : nat) : str :=
  lit "<grok_query>"
  ++ match truncate_middle text threshold with Some truncated => truncated | None => text end
  ++ (if is_empty attachments then [] else nl ++ concat (map attachment_line attachments))
  ++ lit "</grok_query>" ++ nl.

(** The loop: [result] and [emitted_any].

    Source: crates/common/xai-grok-compaction/src/history/filter.rs:177-213, [extract_user_queries_from_turns]. *)
Fixpoint extract_queries_loop {T} `{CompactionItem T} (turns : list T) (threshold : nat)
    (result : str) (emitted_any : bool) : str * bool :=
  match turns with
  | [] => (result, emitted_any)
  | turn :: rest =>
      if negb (bool_decide (role turn = User)) then extract_queries_loop rest threshold result emitted_any
      else
        let txt := text_or_default turn in
        let attachments := attachment_refs turn in
        if is_empty txt && is_empty attachments then extract_queries_loop rest threshold result emitted_any
        else extract_queries_loop rest threshold (result ++ grok_query txt attachments threshold) true
  end.

(** Source: crates/common/xai-grok-compaction/src/history/filter.rs:169-220, [extract_user_queries_from_turns]. *)
Definition extract_user_queries_from_turns {T} `{CompactionItem T} (turns : list T) (user_truncate_chars : N) : option str :=
  let threshold := N.to_nat user_truncate_chars in
  let '(result, emitted_any) := extract_queries_loop turns threshold (start_tag ++ nl) false in
  if negb emitted_any then None else Some (result ++ end_tag).

(** ** Separating prior queries *)

(** Source: crates/common/xai-grok-compaction/src/history/filter.rs:238-256, [SeparatedHistoryTurns]. *)
Record SeparatedHistoryTurns (T : Type) := mkSeparated {
  turns_for_llm : list T;
  prior_user_queries : option str;
  has_prior_compaction : bool;
}.
Arguments mkSeparated {_}.
Arguments turns_for_llm {_}.
Arguments prior_user_queries {_}.
Arguments has_prior_compaction {_}.

Section separate.
Context {T : Type} `{CompactionItemBuilder T}.
Implicit Types turns : list T.

Definition append_queries (existing : option str) (user_section : option str) : option str :=
  match user_section with
  | None => existing
  | Some user_sec =>
      match existing with
      | Some e => Some (e ++ nl ++ user_sec)
      | None => Some user_sec
      end
  end.

(** The loop body on the three accumulators.

    Source: crates/common/xai-grok-compaction/src/history/filter.rs:280-304, [separate_prior_user_queries]. *)
Definition separate_step (acc : SeparatedHistoryTurns T) (turn : T) : SeparatedHistoryTurns T :=
  if is_compaction_summary turn then
    let '(user_section, rest) := split_prior_compaction_text (text_or_default turn) in
    mkSeparated
      (if is_empty rest then turns_for_llm acc else turns_for_llm acc ++ [compaction_summary_item rest])
      (append_queries (prior_user_queries acc) user_section)
      true
  else mkSeparated (turns_for_llm acc ++ [turn]) (prior_user_queries acc) (has_prior_compaction acc).

(** Source: crates/common/xai-grok-compaction/src/history/filter.rs:273-311, [separate_prior_user_queries]. *)
Definition separate_prior_user_queries turns : SeparatedHistoryTurns T :=
  foldl separate_step (mkSeparated [] None false) turns.

(** Source: crates/common/xai-grok-compaction/src/history/filter.rs:233-235, [extract_prior_user_queries]. *)
Definition extract_prior_user_queries turns : option str :=
  prior_user_queries (separate_prior_user_queries turns).

(** Source: crates/common/xai-grok-compaction/src/history/filter.rs:322-333, [assemble_user_queries_preamble]. *)
Definition assemble_user_queries_preamble (prior current : option str) : str :=
  let preamble := match prior with Some p => p ++ nl ++ nl | None => [] end in
  match current with Some c => preamble ++ c ++ nl ++ nl | None => preamble end.

(** Source: crates/common/xai-grok-compaction/src/history/filter.rs:343-348, [build_user_queries_preamble]. *)
Definition build_user_queries_preamble turns (current_user_queries : option str) : str :=
  assemble_user_queries_preamble (extract_prior_user_queries turns) current_user_queries.
End separate.

(** Source: crates/common/xai-grok-compaction/src/history/filter.rs:354-363, [wrap_chunk_analysis]. *)
Definition wrap_chunk_analysis (index : nat) (thinking : str) : str :=
  let trimmed := trim thinking in
  if is_empty trimmed then []
  else lit "<chunk_analysis index=" ++ dq ++ show_nat index ++ dq ++ lit ">" ++ nl ++ trimmed ++ nl
       ++ lit "</chunk_analysis>" ++ nl ++ nl.

(** ** Validation *)

(** Source: crates/common/xai-grok-compaction/src/history/types.rs:6-19, [CompactionStrategy]. *)
Inductive CompactionStrategy :=
  | Basic
  | DivideAndConquer
  | FullReplaceStrategy.

#[export] Instance CompactionStrategy_eq_dec : EqDecision CompactionStrategy.
Proof. solve_decision. Defined.

(** Source: crates/common/xai-grok-compaction/src/history/types.rs:23-29, [CompactionStrategy::label]. *)
Definition strategy_label (s : CompactionStrategy) : str :=
  match s with
  | Basic => lit "basic"
  | DivideAndConquer => lit "divide_and_conquer"
  | FullReplaceStrategy => lit "full_replace"
  end.

(** Source: crates/common/xai-grok-compaction/src/history/validate.rs:9-19, [CompactionValidationError]. *)
Inductive CompactionValidationError :=
  | EmptyContent
  | UnbalancedChunkTags (tags_open tags_close : nat).

(** Source: crates/common/xai-grok-compaction/src/history/validate.rs:21-34, [impl std::fmt::Display for CompactionValidationError]. *)
Definition validation_error_display (e : CompactionValidationError) : str :=
  match e with
  | EmptyContent => lit "compaction message has empty text content"
  | UnbalancedChunkTags o c =>
      lit "unbalanced chunk_summary tags: " ++ show_nat o ++ lit " open, " ++ show_nat c ++ lit " close"
  end.

(** Source: crates/common/xai-grok-compaction/src/history/validate.rs:43-65, [validate_compaction_text]. *)
Definition validate_compaction_text (text_content : str) (strategy : CompactionStrategy) :
    result unit CompactionValidationError :=
  if is_empty (trim text_content) then Err EmptyContent
  else
    match strategy with
    | DivideAndConquer =>
        let open_count := matches_count (lit "<chunk_summary") text_content in
        let close_count := matches_count (lit "</chunk_summary>") text_content in
        if negb (Nat.eqb open_count close_count) then Err (UnbalancedChunkTags open_count close_count)
        else Ok tt
    | _ => Ok tt
    end.

(** ** Lemmas *)

Definition no_end (s : str) : Prop := ¬ occurs end_tag s.


Lemma no_end_head a x b : x ∉ tail end_tag -> no_end a -> no_end (x :: b) -> no_end (a ++ x :: b).
Proof. intros Hx Ha Hb [Ho|Ho]%occurs_app_head; [by apply Ha|by apply Hb|done]. Qed.

Lemma no_end_last a x b : x ∉ tail (rev end_tag) -> no_end (a ++ [x]) -> no_end b -> no_end ((a ++ [x]) ++ b).
Proof. intros Hx Ha Hb [Ho|Ho]%occurs_app_last; [by apply Ha|by apply Hb|done]. Qed.

(** A literal piece between two texts: it holds no end tag, and its first and
    last bytes cannot be inside one. *)
Definition separator (l : str) : Prop :=
  no_end l ∧
  (∃ x b, l = x :: b ∧ x ∉ tail end_tag) ∧ (∃ a x, l = a ++ [x] ∧ x ∉ tail (rev end_tag)).

Lemma no_end_separator a l b : separator l -> no_end a -> no_end b -> no_end (a ++ l ++ b).
Proof.
  intros (Hl & (x & l1 & Hx & Hx') & (l2 & y & Hy & Hy')) Ha Hb.
  assert (Hlb : no_end (l ++ b)).
  { rewrite Hy in *. by apply no_end_last. }
  rewrite Hx in *. cbn [app] in *. by apply no_end_head.
Qed.

(** Decides [no_end] and [separator] of a literal. *)
Ltac no_end_lit := apply find_None; vm_compute; reflexivity.
Ltac separator_lit :=
  split_and!; [no_end_lit|eexists _, _; split; [reflexivity|by_decide]|];
  match goal with
  | |- context [?l = _ ++ [_]] =>
      exists (rev (tail (rev l))); eexists; split; [vm_compute; reflexivity|by_decide]
  end.

Lemma no_end_nil : no_end [].
Proof. no_end_lit. Qed.

Lemma no_end_infix a s b : no_end (a ++ s ++ b) -> no_end s.
Proof. intros Hn Ho. apply Hn. by apply occurs_app_l, occurs_app_r. Qed.

Lemma truncate_middle_no_end msg m r : no_end msg -> truncate_middle msg m = Some r -> no_end r.
Proof.
  unfold truncate_middle. intros Hn. destruct (Nat.leb _ _); [done|]. intros Hr%(inj Some). rewrite <- Hr. clear Hr.
  apply no_end_separator; [separator_lit|..].
  - rewrite <- (concat_chars msg) in Hn.
    rewrite <- (take_drop (m / 2) (chars msg)) in Hn. rewrite concat_app in Hn.
    by apply (no_end_infix [] _ (concat (drop (m / 2) (chars msg)))).
  - rewrite <- (concat_chars msg) in Hn.
    rewrite <- (take_drop (chars_count msg - (m - m / 2)) (chars msg)) in Hn. rewrite concat_app in Hn.
    rewrite <- (app_nil_r (concat (drop _ _))) in Hn. by apply no_end_infix in Hn.
Qed.

Definition attachment_no_end (att : CompactionFileRef) : Prop := no_end (file_id att) ∧ no_end (file_name att).

Lemma attachment_line_no_end att rest :
  attachment_no_end att -> no_end rest -> no_end (attachment_line att ++ rest).
Proof.
  intros [Hi Hn] Hr. unfold attachment_line.
  replace ((lit "<grok_file id=" ++ dq ++ file_id att ++ dq ++ lit " name=" ++ dq ++ file_name att ++ dq ++ lit " />" ++ nl) ++ rest)
    with ([] ++ (lit "<grok_file id=" ++ dq) ++ file_id att ++ (dq ++ lit " name=" ++ dq) ++ file_name att
          ++ (dq ++ lit " />" ++ nl) ++ rest) by (by rewrite <- !app_assoc).
  repeat (apply no_end_separator; [separator_lit|done || apply no_end_nil|]). done.
Qed.

Lemma grok_query_no_end text atts m rest :
  no_end text -> Forall attachment_no_end atts -> no_end rest -> no_end (grok_query text atts m ++ rest).
Proof.
  intros Ht Ha Hr. unfold grok_query.
  set (shown := match truncate_middle text m with Some truncated => truncated | None => text end).
  assert (Hs : no_end shown).
  { unfold shown. destruct (truncate_middle text m) eqn:E; [eapply truncate_middle_no_end; [exact Ht|exact E]|done]. }
  assert (Hclose : ∀ a, no_end a -> no_end (a ++ lit "</grok_query>" ++ nl ++ rest)).
  { intros a Hna. rewrite (app_assoc (lit "</grok_query>")). apply no_end_separator; [separator_lit|done..]. }
  replace ((lit "<grok_query>" ++ shown ++ (if is_empty atts then [] else nl ++ concat (map attachment_line atts)) ++ lit "</grok_query>" ++ nl) ++ rest)
    with ([] ++ lit "<grok_query>" ++ shown ++ (if is_empty atts then [] else nl ++ concat (map attachment_line atts)) ++ lit "</grok_query>" ++ nl ++ rest)
    by (by rewrite <- !app_assoc).
  apply no_end_separator; [separator_lit|apply no_end_nil|].
  destruct (is_empty atts); [by apply Hclose|].
  rewrite <- !app_assoc. apply no_end_separator; [separator_lit|done|].
  induction Ha as [|att atts Hatt _ IH]; simpl; [by apply (Hclose []), no_end_nil|].
  rewrite <- app_assoc. by apply attachment_line_no_end.
Qed.

(** Every list of queries is a text the end tag cannot reach into. *)
Lemma extract_queries_loop_spec {T} `{CompactionItem T} (turns : list T) m result emitted :
  Forall (fun t => role t = User -> no_end (text_or_default t) ∧ Forall attachment_no_end (attachment_refs t)) turns ->
  ∃ body, (extract_queries_loop turns m result emitted).1 = result ++ body ∧
          ∀ rest, no_end rest -> no_end (body ++ rest).
Proof.
  intros Hall. revert result emitted. induction Hall as [|t turns Ht _ IH]; intros result emitted; simpl.
  - exists []. by rewrite app_nil_r.
  - destruct (negb (bool_decide (role t = User))) eqn:Hr; [apply IH|].
    apply negb_false_iff, bool_decide_eq_true_1 in Hr. destruct (Ht Hr) as [Htext Hatt].
    destruct (_ && _); [apply IH|].
    destruct (IH (result ++ grok_query (text_or_default t) (attachment_refs t) m) true) as (body & -> & Hb).
    exists (grok_query (text_or_default t) (attachment_refs t) m ++ body). split; [by rewrite app_assoc|].
    intros rest Hrest. rewrite <- app_assoc. by apply grok_query_no_end, Hb.
Qed.

(** One block at the head of the text. *)
Lemma split_prior_loop_block fuel body rest sections acc :
  (∀ r, no_end r -> no_end (body ++ r)) ->
  let q := (start_tag ++ nl ++ body) ++ end_tag in
  split_prior_loop (S fuel) (q ++ rest) sections acc = split_prior_loop fuel rest (sections ++ [q]) acc.
Proof.
  intros Hb q. set (u := start_tag ++ nl ++ body) in *. cbn [split_prior_loop].
  assert (Hs : find start_tag (q ++ rest) = Some 0) by reflexivity.
  rewrite Hs, drop_0.
  assert (He : find end_tag (q ++ rest) = Some (length u)).
  { unfold q. rewrite <- app_assoc. apply find_tag_after; [by_decide|].
    unfold u. rewrite app_assoc. apply (no_end_separator []); [separator_lit|apply no_end_nil|].
    rewrite <- (app_nil_r body). by apply Hb, no_end_nil. }
  rewrite He.
  assert (Hlen : 0 + length u + length end_tag = length q) by (unfold q; rewrite length_app; lia).
  rewrite Hlen, Nat.sub_0_r, drop_app_length, take_app_length. by rewrite take_0.
Qed.

(** No closed block of queries. *)
Definition no_block (s : str) : Prop := ∀ a b, s = a ++ start_tag ++ b -> ¬ occurs end_tag (start_tag ++ b).

Lemma no_block_no_start s : ¬ occurs start_tag s -> no_block s.
Proof. intros Hn a b ->. destruct Hn. by exists a, b. Qed.

Lemma no_block_unclosed s i :
  find start_tag s = Some i -> find end_tag (drop i s) = None -> no_block s.
Proof.
  intros Hi He%find_None a b ->. destruct (find_occurs_le start_tag a b) as (j & Hj & Hle).
  rewrite Hi in Hj. simplify_eq. intros Ho. apply He. rewrite drop_app_le by done. by apply occurs_app_l.
Qed.

Lemma no_block_trim s : no_block s -> no_block (trim s).
Proof.
  intros Hn a b Hab Ho. destruct (trim_infix s) as (x & y & Hs). rewrite Hab in Hs.
  apply (Hn (x ++ a) (b ++ y)); [by rewrite Hs, <- !app_assoc|].
  rewrite app_assoc. by apply occurs_app_r.
Qed.

Lemma no_start_across a t : ¬ occurs start_tag a -> ¬ occurs start_tag t -> ¬ occurs start_tag (a ++ nl ++ t).
Proof.
  intros Ha Ht [Ho|Ho]%occurs_app_head; [done| |by_decide].
  apply occurs_cons in Ho as [Ho|Ho]; done.
Qed.

Lemma no_block_push rest t : ¬ occurs start_tag rest -> no_block t -> no_block (push_line rest t).
Proof.
  intros Hr Ht. unfold push_line. destruct (is_empty t); [by apply no_block_no_start|].
  destruct (is_empty rest); [done|]. intros a b Hab. rewrite app_assoc in Hab.
  apply app_eq_inv in Hab as [(k & Hk & Hb)|(k & Hk & Hb)]; [|by apply (Ht k)].
  destruct k as [|x k _] using rev_ind; [by apply (Ht [] b)|].
  rewrite app_assoc in Hk. apply app_inj_tail in Hk as [-> <-]. destruct Hr.
  apply occurs_app_l. exists [], (drop (length start_tag) k). cbn [app].
  assert (Hs : starts_with start_tag (k ++ byte 10 :: t) = true).
  { apply starts_with_spec. exists b. by rewrite Hb, <- app_assoc. }
  apply starts_with_app_inv in Hs; [|by_decide].
  apply starts_with_spec in Hs as [r ->]. by rewrite drop_app_length.
Qed.

Lemma no_start_push rest t : ¬ occurs start_tag rest -> ¬ occurs start_tag t -> ¬ occurs start_tag (push_line rest t).
Proof.
  intros Hr Ht. unfold push_line. destruct (is_empty t); [done|]. destruct (is_empty rest); [done|].
  by apply no_start_across.
Qed.

Lemma split_prior_loop_no_block fuel s sections rest :
  length s < fuel -> ¬ occurs start_tag rest -> no_block (split_prior_loop fuel s sections rest).2.
Proof.
  revert s sections rest. induction fuel as [|fuel IH]; intros s sections rest Hf Hr; [lia|]. simpl.
  destruct (find start_tag s) as [i|] eqn:Hi.
  - destruct (find end_tag (drop i s)) as [e|] eqn:He.
    + apply find_lt in Hi as Hlt; [|done]. simpl in Hlt. apply IH.
      * rewrite length_drop. simpl. lia.
      * apply no_start_push; [done|]. intros Ho%trim_occurs. by apply find_take in Ho.
    + by apply no_block_push, no_block_trim, (no_block_unclosed _ i).
  - by apply no_block_push, no_block_trim, no_block_no_start, find_None.
Qed.

Lemma split_prior_no_block s : no_block s -> split_prior_compaction_text s = (None, s).
Proof.
  intros Hn. unfold split_prior_compaction_text. simpl.
  destruct (find start_tag s) as [i|] eqn:Hi; [|done].
  destruct (find end_tag (drop i s)) as [e|] eqn:He; [|done]. exfalso.
  apply find_split in Hi as Hs. apply (Hn _ _ Hs).
  apply find_lt in Hi; [|done]. rewrite Hs, drop_app_length' in He by (rewrite length_take; simpl in *; lia).
  apply contains_spec. unfold contains. by rewrite He.
Qed.

Lemma split_prior_fixed s :
  split_prior_compaction_text (split_prior_compaction_text s).2 = (None, (split_prior_compaction_text s).2).
Proof.
  unfold split_prior_compaction_text at 2 3.
  pose proof (split_prior_loop_no_block (S (length s)) s [] [] ltac:(lia)) as Hn.
  destruct (split_prior_loop _ _ _ _) as [sections rest] eqn:Hl. simpl in Hn.
  destruct (is_empty sections) eqn:He; [|apply split_prior_no_block, Hn; intros Ho%occurs_length; simpl in Ho; lia].
  simpl. apply is_empty_spec in He as ->.
  unfold split_prior_compaction_text. by rewrite Hl.
Qed.

(** ** Properties *)

(** The user queries one compaction records are recovered verbatim by the
    next one: splitting a summary made of the queries' preamble and a body
    gives back exactly the recorded block and the trimmed body, provided no
    user text or attachment name smuggles in the closing tag and the body does
    not open a block of its own. *)
Theorem prior_queries_roundtrip {T} `{CompactionItem T} (turns : list T) truncate q body :
  Forall (fun t => role t = User -> no_end (text_or_default t) ∧ Forall attachment_no_end (attachment_refs t)) turns ->
  extract_user_queries_from_turns turns truncate = Some q ->
  contains start_tag body = false -> head_is_continuation body = false ->
  split_prior_compaction_text (assemble_user_queries_preamble None (Some q) ++ body) = (Some q, trim body).
Proof.
  intros Hall Hq Hbody Hhead. unfold extract_user_queries_from_turns in Hq.
  destruct (extract_queries_loop_spec turns (N.to_nat truncate) (start_tag ++ nl) false Hall) as (queries & Hres & Hb).
  destruct (extract_queries_loop _ _ _ _) as [result []]; [|done]. cbn [fst] in Hres. subst result.
  cbn [negb] in Hq.
  assert (Hq' : (start_tag ++ nl ++ queries) ++ end_tag = q) by (rewrite (app_assoc start_tag); congruence).
  unfold split_prior_compaction_text, assemble_user_queries_preamble. cbn [app].
  set (tail := nl ++ nl ++ body). replace ((q ++ nl ++ nl) ++ body) with (q ++ tail) by (by rewrite <- !app_assoc).
  rewrite <- Hq'. rewrite split_prior_loop_block by done.
  assert (Hnone : find start_tag tail = None).
  { apply find_None. apply contains_false in Hbody. intros Ho. apply Hbody.
    by apply (occurs_app_no_head _ _ (nl ++ nl)) in Ho; [|by_decide]. }
  destruct (length _) as [|n] eqn:Hl; [done|]. cbn [split_prior_loop]. rewrite Hnone. simpl.
  unfold tail. rewrite (app_assoc nl nl), trim_lead by done.
  unfold push_line. simpl. by destruct (is_empty (trim body)) eqn:E; [apply is_empty_spec in E as ->|].
Qed.

(** Splitting leaves nothing behind: whatever text the model produced, what
    is handed back to the summarizer holds no closed block of queries, so
    splitting it again is the identity. *)
Theorem split_prior_idempotent s :
  let rest := (split_prior_compaction_text s).2 in
  split_prior_compaction_text rest = (None, rest).
Proof. apply split_prior_fixed. Qed.

(** Truncating a long query keeps exactly the requested number of
    characters, half of them (rounded down) from the front and the rest from
    the back, around the 17-character marker; a query that fits is left alone. *)
Theorem truncate_middle_spec msg m :
  match truncate_middle msg m with
  | None => chars_count msg ≤ m
  | Some r =>
      m < chars_count msg ∧
      chars r = take (m / 2) (chars msg) ++ chars (lit "...[truncated]...")
                ++ drop (chars_count msg - (m - m / 2)) (chars msg) ∧
      chars_count r = m + 17
  end.
Proof.
  unfold truncate_middle. destruct (Nat.leb_spec (chars_count msg) m) as [|Hm]; [done|].
  pose proof (chars_chunked msg) as Hc.
  assert (Hhalf : m / 2 ≤ m) by (apply Nat.Div0.div_le_upper_bound; lia).
  set (f := take (m / 2) (chars msg)). set (b := drop (chars_count msg - (m - m / 2)) (chars msg)).
  assert (Hf : chars (concat f) = f).
  { apply chars_concat. unfold f. rewrite <- (take_drop (m / 2) (chars msg)) in Hc. by apply chunked_app in Hc as [? ?]. }
  assert (Hb : chars (concat b) = b).
  { apply chars_concat. unfold b.
    rewrite <- (take_drop (chars_count msg - (m - m / 2)) (chars msg)) in Hc. by apply chunked_app in Hc as [? ?]. }
  assert (Hhead : head_is_continuation (concat b) = false).
  { unfold b. destruct (chars_count msg - (m - m / 2)) as [|k] eqn:Hk; [lia|].
    destruct (chars msg) as [|ch rest]; [done|]. simpl.
    destruct Hc as [Hok Hh]. simpl in Hh. apply Forall_cons in Hok as [_ Hok].
    rewrite <- (take_drop k rest) in Hok, Hh. apply Forall_app in Hok as [_ Hok], Hh as [_ Hh].
    destruct (drop k rest) as [|[|c t] rest']; [done|by apply Forall_cons in Hok as [[] _]|].
    by apply Forall_cons in Hh as [? _]. }
  assert (Hr : chars (concat f ++ lit "...[truncated]..." ++ concat b) =
               f ++ chars (lit "...[truncated]...") ++ b).
  { rewrite chars_app by done. rewrite (chars_app (lit _)) by done. by rewrite Hf, Hb. }
  split_and!; [done|exact Hr|]. unfold chars_count at 1. rewrite Hr, !length_app.
  change (length (chars (lit "...[truncated]..."))) with 17.
  unfold f, b. rewrite length_take, length_drop. fold (chars_count msg). lia.
Qed.

Section separate_laws.
Context {T : Type} `{CompactionItemBuilderLaws T}.
Implicit Types turns : list T.

(** A summary carrier with no block left, as [separate_step] pushes it. *)
Definition bare_carrier (t : T) : Prop :=
  ∃ s, t = compaction_summary_item s ∧ s ≠ [] ∧ split_prior_compaction_text s = (None, s).

Definition not_summary (t : T) : bool := negb (is_compaction_summary t).

Definition separated_ok (seen : list T) (acc : SeparatedHistoryTurns T) : Prop :=
  has_prior_compaction acc = existsb is_compaction_summary seen ∧
  List.filter not_summary (turns_for_llm acc) = List.filter not_summary seen ∧
  Forall (fun t => is_compaction_summary t = true -> bare_carrier t) (turns_for_llm acc).

Lemma separate_step_ok seen acc t :
  separated_ok seen acc -> separated_ok (seen ++ [t]) (separate_step acc t).
Proof.
  intros (Hh & Hf & Hall). unfold separate_step, separated_ok.
  rewrite existsb_app, List.filter_app. simpl. rewrite orb_false_r.
  assert (Hns : not_summary t = negb (is_compaction_summary t)) by done. rewrite Hns.
  destruct (is_compaction_summary t) eqn:Ht; simpl.
  - pose proof (split_prior_fixed (text_or_default t)) as Hfix.
    destruct (split_prior_compaction_text (text_or_default t)) as [user rest]. simpl in *.
    rewrite orb_true_r, app_nil_r. destruct (is_empty rest) eqn:He; [done|]. split_and!; [done| |].
    + rewrite List.filter_app. simpl.
      assert (Hc : not_summary (compaction_summary_item rest : T) = false).
      { unfold not_summary. by rewrite summary_item_is_summary. }
      by rewrite Hc, app_nil_r.
    + apply Forall_app. split; [done|]. constructor; [|done]. intros _. exists rest.
      by apply is_empty_false in He.
  - rewrite orb_false_r. split_and!; [done| |].
    + rewrite List.filter_app. simpl. by rewrite Hns, Hf.
    + apply Forall_app. split; [done|]. constructor; [congruence|done].
Qed.

Lemma separate_ok turns : separated_ok turns (separate_prior_user_queries turns).
Proof.
  unfold separate_prior_user_queries.
  induction turns as [|t turns IH] using rev_ind; [by repeat constructor|].
  rewrite foldl_app. simpl. by apply separate_step_ok.
Qed.

Lemma separate_step_bare acc t :
  (is_compaction_summary t = true -> bare_carrier t) ->
  separate_step acc t =
  mkSeparated (turns_for_llm acc ++ [t]) (prior_user_queries acc)
    (has_prior_compaction acc || is_compaction_summary t).
Proof.
  intros Hb. unfold separate_step. destruct (is_compaction_summary t) eqn:Ht; [|by rewrite orb_false_r].
  destruct (Hb eq_refl) as (s & -> & Hs & Hsplit).
  unfold text_or_default. rewrite summary_item_text, Hsplit, orb_true_r.
  apply is_empty_false in Hs. by rewrite Hs.
Qed.

(** Separating the recorded queries of earlier compactions keeps every other
    item, in order; reports whether there was an earlier compaction; leaves
    only summary carriers without a closed block of queries; and, done again on
    what is left, changes nothing and finds no more queries. *)
Theorem separate_prior_user_queries_spec turns :
  let r := separate_prior_user_queries turns in
  has_prior_compaction r = existsb is_compaction_summary turns ∧
  List.filter not_summary (turns_for_llm r) = List.filter not_summary turns ∧
  let again := separate_prior_user_queries (turns_for_llm r) in
  turns_for_llm again = turns_for_llm r ∧ prior_user_queries again = None.
Proof.
  destruct (separate_ok turns) as (Hh & Hf & Hall). cbv zeta. split_and!; [done..| |];
    clear Hh Hf; revert Hall; generalize (turns_for_llm (separate_prior_user_queries turns)); intros l Hl;
    unfold separate_prior_user_queries;
    induction l as [|t l IH] using rev_ind; try done;
    apply Forall_app in Hl as [Hl Ht]; apply Forall_cons in Ht as [Ht _];
    rewrite foldl_app; simpl; rewrite separate_step_bare by done; simpl; [f_equal|]; by apply IH.
Qed.
End separate_laws.

(** ** Witnesses *)

Definition demo_queries : list MockItem :=
  [mkMock User (lit "fix the build") false false; mkMock Assistant (lit "done") false false;
   mkMock User (lit "thanks") false false].

Lemma prior_queries_roundtrip_witness :
  ∃ q, split_prior_compaction_text (assemble_user_queries_preamble None (Some q) ++ lit "The summary.") =
       (Some q, lit "The summary.").
Proof.
  destruct (extract_user_queries_from_turns demo_queries 100) as [q|] eqn:Hq; [|discriminate].
  exists q. change (lit "The summary.") with (trim (lit "The summary.")) at 2.
  apply (prior_queries_roundtrip demo_queries 100); [|exact Hq|reflexivity..].
  repeat constructor; try discriminate; simpl; apply find_None; reflexivity.
Defined.

Lemma separate_prior_user_queries_spec_witness :
  let turns := [mkMock Developer (start_tag ++ lit "q" ++ end_tag ++ lit " old") false true;
                mkMock User (lit "go on") false false] in
  let r := separate_prior_user_queries turns in
  has_prior_compaction r = true ∧
  List.filter not_summary (turns_for_llm r) = [mkMock User (lit "go on") false false] ∧
  let again := separate_prior_user_queries (turns_for_llm r) in
  turns_for_llm again = turns_for_llm r ∧ prior_user_queries again = None.
Proof.
  intros turns r. destruct (separate_prior_user_queries_spec turns) as (Hh & Hf & Hagain).
  split_and!; [exact Hh|exact Hf|apply Hagain..].
Defined.
