(* ===== verification/Reminder.v ===== *)
(** * The post-compaction reminder

    [crates/common/xai-grok-compaction/src/reminder.rs]: the sections on running
    tasks, workflows, todos and subagents that are appended to a summary. *)

From S2P Require Export RustStr.

(** Source: crates/common/xai-grok-compaction/src/reminder.rs:33-37, [SubagentToolNames]. *)
Record SubagentToolNames := mkToolNames { tool_poll : str; tool_cancel : str }.

(** Source: crates/common/xai-grok-compaction/src/reminder.rs:40-46, [TodoStatus]. *)
Inductive TodoStatus := Pending | InProgress | Completed | Cancelled.

#[export] Instance TodoStatus_eq_dec : EqDecision TodoStatus.
Proof. solve_decision. Defined.

(** Source: crates/common/xai-grok-compaction/src/reminder.rs:49-51, [TodoStatus::is_actionable]. *)
Definition is_actionable (s : TodoStatus) : bool :=
  match s with Pending | InProgress => true | _ => false end.

(** Source: crates/common/xai-grok-compaction/src/reminder.rs:53-60, [TodoStatus::tag]. *)
Definition todo_tag (s : TodoStatus) : str :=
  match s with
  | Pending => lit "[pending]"
  | InProgress => lit "[in_progress]"
  | Completed => lit "[completed]"
  | Cancelled => lit "[cancelled]"
  end.

(** Source: crates/common/xai-grok-compaction/src/reminder.rs:63-68, [TodoItem]. *)
Record TodoItem := mkTodo { todo_id : str; todo_content : str; todo_status : TodoStatus }.

(** Source: crates/common/xai-grok-compaction/src/reminder.rs:71-78, [BackgroundTask]. *)
Record BackgroundTask := mkTask {
  task_id : str; task_command : str; task_status : str; task_tool_name : option str;
}.

(** Source: crates/common/xai-grok-compaction/src/reminder.rs:84-90, [RunningSubagent]. *)
Record RunningSubagent := mkSubagent {
  subagent_id : str; subagent_type : option str; subagent_description : option str;
  subagent_elapsed_secs : N;
}.

(** Source: crates/common/xai-grok-compaction/src/reminder.rs:94-102, [ScheduledLoop]. *)
Record ScheduledLoop := mkLoop {
  loop_task_id : str; loop_interval : str; loop_next_fire_at : str; loop_prompt : str;
  loop_recurring : bool; loop_durable : bool;
}.

(** Source: crates/common/xai-grok-compaction/src/reminder.rs:105-115, [WorkflowRun]. *)
Record WorkflowRun := mkRun {
  run_name : str; run_id : str; run_status : str; run_objective : option str;
  run_current_phase : option str; run_agents_used : N; run_agent_budget : option N;
  run_elapsed_secs : N;
}.

(** Source: crates/common/xai-grok-compaction/src/reminder.rs:118-126, [ActiveAgentReminderState]. *)
Record ActiveAgentReminderState := mkReminderState {
  running_commands : list BackgroundTask;
  todos : list TodoItem;
  running_subagents : list RunningSubagent;
  scheduled_loops : list ScheduledLoop;
  workflows : list WorkflowRun;
  workflow_tool : option str;
}.

(** Source: crates/common/xai-grok-compaction/src/reminder.rs:137-139, [ActiveAgentReminderState::has_actionable_todos]. *)
Definition has_actionable_todos (state : ActiveAgentReminderState) : bool :=
  existsb (fun t => is_actionable (todo_status t)) (todos state).

(** Source: crates/common/xai-grok-compaction/src/reminder.rs:129-135, [ActiveAgentReminderState::is_empty]. *)
Definition reminder_is_empty (state : ActiveAgentReminderState) : bool :=
  is_empty (running_commands state)
  && is_empty (running_subagents state)
  && is_empty (scheduled_loops state)
  && is_empty (workflows state)
  && negb (has_actionable_todos state).

Definition tick : str := [byte 96].

(** Source: crates/common/xai-grok-compaction/src/reminder.rs:339-341, [collapsed_ws]. *)
Definition collapsed_ws (s : str) : str := join (lit " ") (split_whitespace s).

(** Source: crates/common/xai-grok-compaction/src/reminder.rs:159-167, [format_background_task_line]. *)
Definition format_background_task_line (t : BackgroundTask) : str :=
  lit "- " ++ dq ++ task_id t ++ dq ++ lit ": " ++ tick ++ task_command t ++ tick ++ lit " (" ++ task_status t
  ++ match task_tool_name t with
     | Some tool => lit ", " ++ tool ++ lit ")"
     | None => lit ")"
     end.

(** Source: crates/common/xai-grok-compaction/src/reminder.rs:274-286, [format_scheduled_loop_line]. *)
Definition format_scheduled_loop_line (l : ScheduledLoop) : str :=
  let prompt := collapsed_ws (loop_prompt l) in
  let status :=
    if loop_recurring l then lit "scheduler runs " ++ loop_interval l else lit "scheduler one-shot" in
  lit "- " ++ dq ++ loop_task_id l ++ dq ++ lit ": " ++ tick ++ prompt ++ tick ++ lit " (" ++ status
  ++ lit ", next " ++ loop_next_fire_at l ++ lit ")".

(** Source: crates/common/xai-grok-compaction/src/reminder.rs:171-189, [section_running_background]. *)
Definition section_running_background (state : ActiveAgentReminderState) : option str :=
  let lines := map format_background_task_line (running_commands state)
               ++ map format_scheduled_loop_line (scheduled_loops state) in
  if is_empty lines then None
  else Some (lit "## Running Background Tasks" ++ nl ++ lit "These tasks are still running:" ++ nl ++ join nl lines).

(** Source: crates/common/xai-grok-compaction/src/reminder.rs:149-157, [section_background_tasks]. *)
Definition section_background_tasks (tasks : list BackgroundTask) : option str :=
  section_running_background (mkReminderState tasks [] [] [] [] None).

(** Source: crates/common/xai-grok-compaction/src/reminder.rs:264-272, [section_scheduled_loops]. *)
Definition section_scheduled_loops (loops : list ScheduledLoop) : option str :=
  section_running_background (mkReminderState [] [] [] loops [] None).

Definition count_status (s : TodoStatus) (l : list TodoItem) : nat :=
  length (List.filter (fun t => bool_decide (todo_status t = s)) l).

Definition todo_line (t : TodoItem) : str :=
  lit "- " ++ todo_tag (todo_status t) ++ lit " " ++ todo_id t ++ lit ": " ++ todo_content t.

(** Source: crates/common/xai-grok-compaction/src/reminder.rs:193-223, [section_todo_list]. *)
Definition section_todo_list (todos : list TodoItem) : option str :=
  let active := map todo_line (List.filter (fun t => is_actionable (todo_status t)) todos) in
  if is_empty active then None
  else
    let completed := count_status Completed todos in
    let cancelled := count_status Cancelled todos in
    let trailer :=
      match completed, cancelled with
      | 0, 0 => []
      | c, 0 => nl ++ lit "(" ++ show_nat c ++ lit " completed)"
      | 0, k => nl ++ lit "(" ++ show_nat k ++ lit " cancelled)"
      | c, k => nl ++ lit "(" ++ show_nat c ++ lit " completed, " ++ show_nat k ++ lit " cancelled)"
      end in
    Some (lit "## TODO List" ++ nl
          ++ lit "This is your task list from before the conversation was compacted — it is still active. Keep working through the items below and update their status as you make progress:"
          ++ nl ++ join nl active ++ trailer).

Definition or_default (o : option str) (d : str) : str := match o with Some s => s | None => d end.

(** Source: crates/common/xai-grok-compaction/src/reminder.rs:248-259, [format_subagent_line]. *)
Definition format_subagent_line (s : RunningSubagent) : str :=
  let command := collapsed_ws (or_default (subagent_description s) (or_default (subagent_type s) (lit "subagent"))) in
  let kind := or_default (subagent_type s) (lit "subagent") in
  lit "- " ++ dq ++ subagent_id s ++ dq ++ lit ": " ++ tick ++ command ++ tick ++ lit " (running for "
  ++ show_N (subagent_elapsed_secs s) ++ lit "s, " ++ kind ++ lit ")".

(** Source: crates/common/xai-grok-compaction/src/reminder.rs:227-246, [section_running_subagents]. *)
Definition section_running_subagents (subagents : list RunningSubagent) (tools : SubagentToolNames) : option str :=
  if is_empty subagents then None
  else
    let lines := join nl (map format_subagent_line subagents) in
    Some (lit "## Running Subagents" ++ nl
          ++ lit "These subagents were launched before this compaction and are still running. Use " ++ tick
          ++ tool_poll tools ++ tick
          ++ lit " with the subagent_id to check their status or retrieve results. Use " ++ tick
          ++ tool_cancel tools ++ tick ++ lit " with the subagent_id to cancel a subagent." ++ nl ++ lines).

(** Source: crates/common/xai-grok-compaction/src/reminder.rs:312-337, [format_workflow_line]. *)
Definition format_workflow_line (run : WorkflowRun) : str :=
  let head := lit "- Workflow '" ++ run_name run ++ lit "' (run id " ++ tick ++ run_id run ++ tick
              ++ lit ") — status: " ++ run_status run in
  let head := match run_current_phase run with Some phase => head ++ lit ", phase: " ++ phase | None => head end in
  let head := head ++ lit " (running for " ++ show_N (run_elapsed_secs run) ++ lit "s)" in
  let lines := [head] in
  let lines :=
    match run_objective run with
    | Some objective =>
        if is_empty objective then lines else lines ++ [lit "  Objective: " ++ collapsed_ws objective]
    | None => lines
    end in
  let lines :=
    match run_agent_budget run with
    | Some budget =>
        lines ++ [lit "  Agents: " ++ show_N (run_agents_used run) ++ lit " of " ++ show_N budget ++ lit " budget"]
    | None =>
        if N.ltb 0 (run_agents_used run) then lines ++ [lit "  Agents: " ++ show_N (run_agents_used run)]
        else lines
    end in
  join nl lines.

(** Source: crates/common/xai-grok-compaction/src/reminder.rs:289-310, [section_workflows]. *)
Definition section_workflows (workflows : list WorkflowRun) (workflow_tool : option str) : option str :=
  if is_empty workflows then None
  else
    let lines := map format_workflow_line workflows in
    let hint :=
      match workflow_tool with
      | Some tool => lit "  Use " ++ tick ++ tool ++ tick ++ lit " to inspect or resume a paused run. Keep run ids internal."
      | None => lit "  Keep workflow run ids internal — the user knows runs by display name."
      end in
    Some (lit "## Running Workflows" ++ nl ++ lit "These workflows are currently running:" ++ nl
          ++ join nl (lines ++ [hint])).

(** [if let Some(s) = o { sections.push(s) }]. *)
Definition push_section (sections : list str) (o : option str) : list str :=
  match o with Some s => sections ++ [s] | None => sections end.

(** Source: crates/common/xai-grok-compaction/src/reminder.rs:346-366, [format_active_agent_sections]. *)
Definition format_active_agent_sections (state : ActiveAgentReminderState)
    (subagent_tools : option SubagentToolNames) : list str :=
  let sections := push_section [] (section_running_background state) in
  let sections := push_section sections (section_workflows (workflows state) (workflow_tool state)) in
  let sections := push_section sections (section_todo_list (todos state)) in
  match subagent_tools with
  | Some tools => push_section sections (section_running_subagents (running_subagents state) tools)
  | None => sections
  end.

(** The loop of [wrap_system_reminder] on [body]. *)
Definition wrap_step (body s : str) : str :=
  if is_empty (trim s) then body
  else (if is_empty body then body else body ++ nl ++ nl) ++ s.

(** Source: crates/common/xai-grok-compaction/src/reminder.rs:369-386, [wrap_system_reminder]. *)
Definition wrap_system_reminder (sections : list str) : option str :=
  let body := foldl wrap_step [] sections in
  if is_empty body then None
  else Some (lit "<system-reminder>" ++ nl ++ body ++ nl ++ lit "</system-reminder>").

(** Source: crates/common/xai-grok-compaction/src/reminder.rs:389-394, [format_active_agent_reminder]. *)
Definition format_active_agent_reminder (state : ActiveAgentReminderState)
    (subagent_tools : option SubagentToolNames) : option str :=
  wrap_system_reminder (format_active_agent_sections state subagent_tools).

(** Source: crates/common/xai-grok-compaction/src/reminder.rs:402-407, [append_reminder_block]. *)
Definition append_reminder_block (summary : str) (reminder : option str) : str :=
  match reminder with
  | Some r => if negb (is_empty (trim r)) then summary ++ nl ++ nl ++ r else summary
  | None => summary
  end.

(** ** Lemmas *)

(** A text that does not start with white space is not blank. *)
Lemma trim_nonblank c s :
  is_whitespace [c] = false -> is_continuation c = false -> head_is_continuation s = false ->
  is_empty (trim (c :: s)) = false.
Proof.
  intros Hw Hc Hs. apply is_empty_false. intros Ht.
  assert (Hch : chars (c :: s) = [c] :: chars s) by (simpl; by rewrite Hs).
  pose proof (trim_chars (c :: s)) as Htc. rewrite Ht, Hch in Htc.
  rewrite (drop_while_id _ ([c] :: _)) in Htc by done. unfold drop_while_end in Htc. simpl in Htc.
  symmetry in Htc. apply (f_equal (@rev str)) in Htc. rewrite rev_involutive in Htc.
  apply drop_while_nil in Htc. rewrite forallb_app in Htc. simpl in Htc. rewrite Hw, andb_false_r in Htc. done.
Qed.

Definition nonblank (s : str) : Prop := is_empty (trim s) = false.

Lemma wrap_fold_spec sections body :
  Forall nonblank sections ->
  foldl wrap_step body sections = join (nl ++ nl) ((if is_empty body then [] else [body]) ++ sections).
Proof.
  intros Hall. revert body. induction Hall as [|s sections Hs Hall IH]; intros body; simpl.
  - destruct body; [done|]. by rewrite app_nil_r.
  - rewrite IH. unfold wrap_step. unfold nonblank in Hs. rewrite Hs.
    assert (Hne : s ≠ []) by (intros ->; discriminate Hs).
    destruct body as [|b body]; simpl.
    + apply is_empty_false in Hne. by rewrite Hne.
    + destruct sections; [by rewrite <- !app_assoc|by rewrite <- !app_assoc].
Qed.

Lemma wrap_system_reminder_nonblank sections :
  Forall nonblank sections ->
  wrap_system_reminder sections =
  if is_empty sections then None
  else Some (lit "<system-reminder>" ++ nl ++ join (nl ++ nl) sections ++ nl ++ lit "</system-reminder>").
Proof.
  intros Hall. unfold wrap_system_reminder. rewrite wrap_fold_spec by done. simpl.
  destruct Hall as [|s l Hs Hall]; [done|]. simpl.
  assert (Hne : s ≠ []) by (intros ->; discriminate Hs).
  destruct s; [done|]. by destruct l.
Qed.

Lemma map_is_empty {A B} (f : A -> B) l : is_empty (map f l) = is_empty l.
Proof. by destruct l. Qed.

Lemma is_empty_app {A} (l k : list A) : is_empty (l ++ k) = is_empty l && is_empty k.
Proof. by destruct l. Qed.

Lemma filter_is_empty {A} (f : A -> bool) l : is_empty (List.filter f l) = negb (existsb f l).
Proof. induction l as [|x l IH]; [done|]. simpl. by destruct (f x). Qed.

(** Which sections there are. *)
Lemma sections_shape state tools :
  ∃ bg wf td sa,
    format_active_agent_sections state tools = bg ++ wf ++ td ++ sa ∧
    Forall nonblank (bg ++ wf ++ td ++ sa) ∧
    is_empty bg = is_empty (running_commands state) && is_empty (scheduled_loops state) ∧
    is_empty wf = is_empty (workflows state) ∧
    is_empty td = negb (has_actionable_todos state) ∧
    is_empty sa = match tools with Some _ => is_empty (running_subagents state) | None => true end.
Proof.
  exists (push_section [] (section_running_background state)),
    (push_section [] (section_workflows (workflows state) (workflow_tool state))),
    (push_section [] (section_todo_list (todos state))),
    (match tools with Some t => push_section [] (section_running_subagents (running_subagents state) t) | None => [] end).
  split_and!.
  - unfold format_active_agent_sections.
    destruct (section_running_background state), (section_workflows _ _), (section_todo_list _), tools as [t|];
      simpl; try destruct (section_running_subagents _ t); done.
  - repeat apply Forall_app_2.
    + unfold section_running_background. destruct (is_empty _); repeat constructor; by apply trim_nonblank.
    + unfold section_workflows. destruct (is_empty _); repeat constructor; by apply trim_nonblank.
    + unfold section_todo_list. destruct (is_empty _); repeat constructor; by apply trim_nonblank.
    + destruct tools; [|constructor]. unfold section_running_subagents.
      destruct (is_empty _); repeat constructor; by apply trim_nonblank.
  - unfold section_running_background. rewrite is_empty_app, !map_is_empty. by destruct (_ && _).
  - unfold section_workflows. by destruct (is_empty (workflows state)).
  - unfold section_todo_list. rewrite map_is_empty, filter_is_empty. unfold has_actionable_todos.
    by destruct (negb _).
  - destruct tools; [|done]. unfold section_running_subagents. by destruct (is_empty (running_subagents state)).
Qed.

(** ** Properties *)

(** When the subagent tools are known, a reminder is produced exactly when
    the state is not empty; without them, running subagents alone produce none.
    A produced reminder is the non-blank sections, in order, separated by blank
    lines inside one wrapper. *)
Theorem format_active_agent_reminder_spec state tools :
  format_active_agent_reminder state tools =
  let shown :=
    match tools with
    | Some _ => state
    | None => mkReminderState (running_commands state) (todos state) [] (scheduled_loops state)
                (workflows state) (workflow_tool state)
    end in
  if reminder_is_empty shown then None
  else Some (lit "<system-reminder>" ++ nl ++ join (nl ++ nl) (format_active_agent_sections state tools)
             ++ nl ++ lit "</system-reminder>").
Proof.
  destruct (sections_shape state tools) as (bg & wf & td & sa & Heq & Hall & Hbg & Hwf & Htd & Hsa).
  unfold format_active_agent_reminder. rewrite Heq, wrap_system_reminder_nonblank by done.
  rewrite !is_empty_app, Hbg, Hwf, Htd, Hsa. unfold reminder_is_empty.
  destruct tools; simpl; unfold has_actionable_todos; simpl;
    destruct (is_empty (running_commands state)), (is_empty (scheduled_loops state)), (is_empty (workflows state)),
      (existsb _ (todos state)); simpl; try done; by destruct (is_empty (running_subagents state)).
Qed.
