(* ===== verification/Sample.v ===== *)
(** * Summary sampling with bounded retries

    [crates/common/xai-grok-compaction/src/sampler.rs],
    [code_compaction/sample.rs] and [code_compaction/observer.rs]. The sampler
    is a trait: a parameter that may answer differently on every call, so it
    threads a world [W]. What the loop does to the outside (calls, observer
    notifications, sleeps) is a trace of events, in order. *)

From S2P Require Export Summary.

(** Source: crates/common/xai-grok-compaction/src/prompt.rs:12-16, [CompactionPrompt]. *)
Record CompactionPrompt := mkPrompt { prompt_system : str; prompt_user : str }.

(** Source: crates/common/xai-grok-compaction/src/sampler.rs:18-25, [LlmCompactionOutput]. *)
Record LlmCompactionOutput := mkOutput { response : str; thinking : str }.

(** [Other] carries an [anyhow::Error], of which the code only uses the
    [Display] text.

    Source: crates/common/xai-grok-compaction/src/sampler.rs:37-63, [CompactionSampleError]. *)
Inductive CompactionSampleError :=
  | SampleTimeout (timeout_secs : N) (collected_bytes : nat)
  | SampleBuild (msg : str)
  | SampleStart (msg : str)
  | SampleEmptyResponse
  | SampleContextOverflow (msg : str)
  | SampleOther (display : str).

(** Source: crates/common/xai-grok-compaction/src/sampler.rs:67-67, [SAMPLER_BUILD_FAILED_PREFIX]. *)
Definition SAMPLER_BUILD_FAILED_PREFIX : str := lit "Compaction sampler build failed: ".

(** Source: crates/common/xai-grok-compaction/src/sampler.rs:69-69, [SAMPLER_START_FAILED_PREFIX]. *)
Definition SAMPLER_START_FAILED_PREFIX : str := lit "Compaction sampler start failed: ".

(** Source: crates/common/xai-grok-compaction/src/sampler.rs:71-94, [impl std::fmt::Display for CompactionSampleError]. *)
Definition sample_error_display (e : CompactionSampleError) : str :=
  match e with
  | SampleTimeout timeout_secs collected_bytes =>
      lit "Compaction sampling timed out after " ++ show_N timeout_secs ++ lit "s (collected "
      ++ show_nat collected_bytes ++ lit " bytes so far)"
  | SampleBuild msg => SAMPLER_BUILD_FAILED_PREFIX ++ msg
  | SampleStart msg => SAMPLER_START_FAILED_PREFIX ++ msg
  | SampleEmptyResponse => lit "Compaction sampler returned no response channel content"
  | SampleContextOverflow msg => msg
  | SampleOther display => display
  end.

(** Source: crates/common/xai-grok-compaction/src/sampler.rs:105-115, [CompactionSampleError::is_deterministic]. *)
Definition is_deterministic (e : CompactionSampleError) : bool :=
  match e with
  | SampleTimeout _ _ | SampleEmptyResponse => false
  | SampleBuild _ | SampleStart _ | SampleContextOverflow _ => true
  | SampleOther msg =>
      contains (lit "Failed to build AgenticScheduler") msg
      || contains (lit "Failed to start compaction sample") msg
  end.

(** Source: crates/common/xai-grok-compaction/src/sampler.rs:118-120, [CompactionSampleError::is_context_overflow]. *)
Definition is_context_overflow (e : CompactionSampleError) : bool :=
  match e with SampleContextOverflow _ => true | _ => false end.

(** Source: crates/common/xai-grok-compaction/src/sampler.rs:136-153, [CompactionSampler]. *)
Class CompactionSampler (T W : Type) := {
  sample_compaction : list T -> CompactionPrompt -> N -> W -> result LlmCompactionOutput CompactionSampleError * W;
}.

(** ** The retry loop *)

(** Source: crates/common/xai-grok-compaction/src/code_compaction/observer.rs:22-56, [FullReplaceAttemptOutcome]. *)
Inductive FullReplaceAttemptOutcome :=
  | OutSuccess (summary : str)
  | OutEmptyResponse (will_retry : bool)
  | OutDegenerate (summary : str) (will_retry : bool)
  | OutFailure (message : str) (deterministic context_overflow will_retry : bool).

(** Source: crates/common/xai-grok-compaction/src/code_compaction/sample.rs:42-48, [SampledSummary]. *)
Record SampledSummary := mkSampled { sampled_summary : str; sampled_attempts : N }.

(** Source: crates/common/xai-grok-compaction/src/code_compaction/sample.rs:53-74, [SampleRetryError]. *)
Inductive SampleRetryError :=
  | RetryEmpty (attempts : N)
  | RetryFailure (message : str) (deterministic context_overflow : bool) (attempts : N).

(** The trait's two other callbacks are events of the full-replace pass; the
    duration [on_success] reports is a clock reading and is left out.

    Source: crates/common/xai-grok-compaction/src/code_compaction/observer.rs:60-70, [FullReplaceObserver]. *)
Inductive SampleEvent :=
  | Called
  | OnAttempt (attempt : N) (outcome : FullReplaceAttemptOutcome)
  | Slept (delay : N)
  | OnSuccess (attempts : N) (summary_chars : nat)
  | OnError (attempts : N).

(** Source: crates/common/xai-grok-compaction/src/code_compaction/sample.rs:76-79, [is_rendered_http_429]. *)
Definition is_rendered_http_429 (message : str) : bool :=
  let m := to_ascii_lowercase message in
  contains (lit "status 429") m || contains (lit "429 too many requests") m.

(** The classification of an error: [(message, deterministic, context_overflow)].

    Source: crates/common/xai-grok-compaction/src/code_compaction/sample.rs:149-157, [sample_summary_with_retries]. *)
Definition classify_error (e : CompactionSampleError) : str * bool * bool :=
  let message := sample_error_display e in
  let context_overflow :=
    is_context_overflow e || (is_context_length_error message && negb (is_rendered_http_429 message)) in
  let deterministic := is_deterministic e || context_overflow in
  (message, deterministic, context_overflow).

(** One iteration: the outcome reported to the observer, and the value the
    function returns, if it does.

    Source: crates/common/xai-grok-compaction/src/code_compaction/sample.rs:104-188, [sample_summary_with_retries]. *)
Definition attempt_step (attempt max_attempts : N)
    (answer : result LlmCompactionOutput CompactionSampleError) :
    FullReplaceAttemptOutcome * option (result SampledSummary SampleRetryError) :=
  let will_retry := N.ltb attempt max_attempts in
  match answer with
  | Ok output =>
      if negb (is_empty (trim (response output))) then
        if is_degenerate_summary (response output) then
          (OutDegenerate (response output) will_retry,
           if negb will_retry then Some (Err (RetryEmpty attempt)) else None)
        else (OutSuccess (response output), Some (Ok (mkSampled (response output) attempt)))
      else
        (OutEmptyResponse will_retry, if negb will_retry then Some (Err (RetryEmpty attempt)) else None)
  | Err e =>
      let '(message, deterministic, context_overflow) := classify_error e in
      let retrying := will_retry && negb deterministic in
      (OutFailure message deterministic context_overflow retrying,
       if deterministic then Some (Err (RetryFailure message true context_overflow attempt))
       else if negb will_retry then Some (Err (RetryFailure message false false attempt))
       else None)
  end.

Section sample.
Context {T W : Type} `{CompactionSampler T W}.

(** The [for] loop, entered at [attempt] with [remaining] iterations left. *)
Fixpoint sample_loop (remaining : nat) (attempt : N) (turns : list T) (prompt : CompactionPrompt)
    (max_attempts retry_delay timeout : N) (w : W) :
    result SampledSummary SampleRetryError * W * list SampleEvent :=
  match remaining with
  | 0 => (Err (RetryEmpty max_attempts), w, [])
  | S remaining' =>
      let '(answer, w) := sample_compaction turns prompt timeout w in
      let '(outcome, returned) := attempt_step attempt max_attempts answer in
      match returned with
      | Some r => (r, w, [Called; OnAttempt attempt outcome])
      | None =>
          let '(r, w, events) := sample_loop remaining' (attempt + 1) turns prompt max_attempts retry_delay timeout w in
          (r, w, [Called; OnAttempt attempt outcome; Slept retry_delay] ++ events)
      end
  end.

(** Source: crates/common/xai-grok-compaction/src/code_compaction/sample.rs:88-194, [sample_summary_with_retries]. *)
Definition sample_summary_with_retries (turns : list T) (prompt : CompactionPrompt)
    (max_attempts retry_delay timeout : N) (w : W) :
    result SampledSummary SampleRetryError * W * list SampleEvent :=
  let max_attempts := N.max max_attempts 1 in
  sample_loop (N.to_nat max_attempts) 1 turns prompt max_attempts retry_delay timeout w.

(** ** Specification *)

(** The world before call [k] (counted from zero) and the answer of that call. *)
Fixpoint world_before (turns : list T) prompt timeout (w : W) (k : nat) : W :=
  match k with
  | 0 => w
  | S k' => world_before turns prompt timeout (sample_compaction turns prompt timeout w).2 k'
  end.

Definition answer_of (turns : list T) prompt timeout (w : W) (k : nat) : result LlmCompactionOutput CompactionSampleError :=
  (sample_compaction turns prompt timeout (world_before turns prompt timeout w k)).1.

(** An answer worth another try. *)
Definition usable (s : str) : bool := negb (is_empty (trim s)) && negb (is_degenerate_summary s).

Definition transient (answer : result LlmCompactionOutput CompactionSampleError) : bool :=
  match answer with
  | Ok output => negb (usable (response output))
  | Err e => negb (classify_error e).1.2
  end.

(** The value returned when attempt [a] is the last one made. *)
Definition final_result (a : N) (answer : result LlmCompactionOutput CompactionSampleError) :
    result SampledSummary SampleRetryError :=
  match answer with
  | Ok output => if usable (response output) then Ok (mkSampled (response output) a) else Err (RetryEmpty a)
  | Err e => let '(message, deterministic, overflow) := classify_error e in Err (RetryFailure message deterministic overflow a)
  end.

(** Whether the outcome announces another attempt. *)
Definition announces_retry (o : FullReplaceAttemptOutcome) : bool :=
  match o with
  | OutSuccess _ => false
  | OutEmptyResponse r | OutDegenerate _ r | OutFailure _ _ _ r => r
  end.

(** The events of attempts [a .. a + n], of which only the last announces no
    further attempt. *)
Fixpoint attempt_trace (delay a : N) (n : nat) (events : list SampleEvent) : Prop :=
  match n with
  | 0 => ∃ o, announces_retry o = false ∧ events = [Called; OnAttempt a o]
  | S n' => ∃ o rest, announces_retry o = true ∧ attempt_trace delay (a + 1) n' rest ∧
                      events = [Called; OnAttempt a o; Slept delay] ++ rest
  end.

(** ** Lemmas *)

Lemma overflow_is_deterministic e : (classify_error e).2 = true -> (classify_error e).1.2 = true.
Proof. unfold classify_error. simpl. intros ->. apply orb_true_r. Qed.

Lemma attempt_step_spec a max answer :
  let '(o, returned) := attempt_step a max answer in
  if transient answer && N.ltb a max
  then returned = None ∧ announces_retry o = true
  else returned = Some (final_result a answer) ∧ announces_retry o = false.
Proof.
  unfold attempt_step, transient, final_result, usable. destruct answer as [out|e].
  - destruct (is_empty (trim (response out))), (is_degenerate_summary (response out)), (N.ltb a max); done.
  - pose proof (overflow_is_deterministic e) as Ho.
    destruct (classify_error e) as [[message d] o]. simpl in *.
    destruct d, (N.ltb a max); simpl; try done. by destruct o; [specialize (Ho eq_refl)|].
Qed.

Lemma sample_loop_S n a turns prompt max delay timeout w :
  sample_loop (S n) a turns prompt max delay timeout w =
  let '(answer, w) := sample_compaction turns prompt timeout w in
  let '(outcome, returned) := attempt_step a max answer in
  match returned with
  | Some r => (r, w, [Called; OnAttempt a outcome])
  | None =>
      let '(r, w, events) := sample_loop n (a + 1) turns prompt max delay timeout w in
      (r, w, [Called; OnAttempt a outcome; Slept delay] ++ events)
  end.
Proof. reflexivity. Qed.

Lemma sample_loop_spec n a turns prompt max delay timeout w :
  max = (a + N.of_nat n)%N ->
  let '(r, w', events) := sample_loop (S n) a turns prompt max delay timeout w in
  ∃ k, k ≤ n ∧
    (∀ j, j < k -> transient (answer_of turns prompt timeout w j) = true) ∧
    (k < n -> transient (answer_of turns prompt timeout w k) = false) ∧
    r = final_result (a + N.of_nat k) (answer_of turns prompt timeout w k) ∧
    w' = world_before turns prompt timeout w (S k) ∧
    attempt_trace delay a k events.
Proof.
  revert a w. induction n as [|n IH]; intros a w Hmax; rewrite sample_loop_S;
    destruct (sample_compaction turns prompt timeout w) as [answer w1] eqn:Hs;
    pose proof (attempt_step_spec a max answer) as Hstep;
    destruct (attempt_step a max answer) as [o returned];
    assert (H0 : answer_of turns prompt timeout w 0 = answer) by (unfold answer_of; simpl; by rewrite Hs).
  - replace (N.ltb a max) with false in Hstep by (symmetry; apply N.ltb_ge; lia).
    rewrite andb_false_r in Hstep. destruct Hstep as [-> Ho].
    exists 0. rewrite H0, N.add_0_r. simpl. rewrite Hs. split_and!; try lia; try done. by exists o.
  - replace (N.ltb a max) with true in Hstep by (symmetry; apply N.ltb_lt; lia).
    rewrite andb_true_r in Hstep. destruct (transient answer) eqn:Ht; destruct Hstep as [-> Ho].
    + specialize (IH (a + 1)%N w1 ltac:(lia)).
      destruct (sample_loop (S n) _ _ _ _ _ _ w1) as [[r w'] events]. destruct IH as (k & Hk & Hbefore & Hat & -> & -> & Htrace).
      assert (Hshift : ∀ j, answer_of turns prompt timeout w (S j) = answer_of turns prompt timeout w1 j).
      { intros j. unfold answer_of. simpl. by rewrite Hs. }
      exists (S k). rewrite Hshift. split_and!.
      * lia.
      * intros [|j] Hj; [by rewrite H0|]. rewrite Hshift. apply Hbefore. lia.
      * intros. apply Hat. lia.
      * f_equal. lia.
      * simpl. by rewrite Hs.
      * by exists o, events.
    + exists 0. rewrite H0, N.add_0_r. simpl. rewrite Hs. split_and!; try lia; try done. by exists o.
Qed.

Lemma sample_with_retries_run turns prompt max_attempts delay timeout w :
  let '(r, w', events) := sample_summary_with_retries turns prompt max_attempts delay timeout w in
  ∃ k,
    (N.of_nat (S k) <= N.max max_attempts 1)%N ∧
    (∀ j, j < k -> transient (answer_of turns prompt timeout w j) = true) ∧
    ((N.of_nat (S k) < N.max max_attempts 1)%N -> transient (answer_of turns prompt timeout w k) = false) ∧
    r = final_result (N.of_nat (S k)) (answer_of turns prompt timeout w k) ∧
    w' = world_before turns prompt timeout w (S k) ∧
    attempt_trace delay 1 k events.
Proof.
  unfold sample_summary_with_retries. set (m := N.max max_attempts 1).
  assert (Hm : N.to_nat m = S (N.to_nat (m - 1))) by lia. rewrite Hm.
  pose proof (sample_loop_spec (N.to_nat (m - 1)) 1 turns prompt m delay timeout w ltac:(lia)) as Hl.
  destruct (sample_loop _ _ _ _ _ _ _ _) as [[r w'] events].
  destruct Hl as (k & Hk & Hb & Ha & -> & -> & Ht). exists k.
  split_and!; [lia|done| | |done|done].
  - intros. apply Ha. lia.
  - f_equal. lia.
Qed.
(** ** Properties *)

(** The retry loop is total and returns the first decisive answer: it makes
    [k + 1] calls, at most the configured maximum (at least one); every answer
    before the last was transient, and the loop only settles for a transient
    last answer when its attempts are spent. Its result is the winning summary
    or the classified error of that last answer, and the observer sees attempts
    numbered from one of which exactly the last announces no retry, with one
    sleep between consecutive attempts. *)
Theorem sample_summary_with_retries_spec turns prompt max_attempts delay timeout w :
  let '(r, w', events) := sample_summary_with_retries turns prompt max_attempts delay timeout w in
  ∃ k,
    (N.of_nat (S k) <= N.max max_attempts 1)%N ∧
    (∀ j, j < k -> transient (answer_of turns prompt timeout w j) = true) ∧
    ((N.of_nat (S k) < N.max max_attempts 1)%N -> transient (answer_of turns prompt timeout w k) = false) ∧
    r = final_result (N.of_nat (S k)) (answer_of turns prompt timeout w k) ∧
    w' = world_before turns prompt timeout w (S k) ∧
    attempt_trace delay 1 k events.
Proof. apply sample_with_retries_run. Qed.
End sample.

(** Overflow classification: a rendered HTTP 429 never counts as a context
    overflow on the strength of its wording, a structured overflow always does,
    and whatever counts as one is never retried. *)
Theorem classify_error_overflow e :
  let '(message, deterministic, overflow) := classify_error e in
  message = sample_error_display e ∧
  (overflow = true -> deterministic = true) ∧
  (is_context_overflow e = true -> overflow = true) ∧
  (is_rendered_http_429 message = true -> overflow = is_context_overflow e).
Proof.
  pose proof (overflow_is_deterministic e) as Ho. unfold classify_error in *. simpl in *.
  split_and!; [done|exact Ho|by intros ->|]. intros ->. by rewrite andb_false_r, orb_false_r.
Qed.

(** A sampler that plays a script of answers, for the witnesses. *)

Definition Script : Type := list (result LlmCompactionOutput CompactionSampleError).

#[export] Instance script_sampler : CompactionSampler MockItem Script := {|
  sample_compaction _ _ _ w :=
    match w with
    | [] => (Err SampleEmptyResponse, [])
    | a :: w' => (a, w')
    end;
|}.

