(* ===== verification/Intra.v ===== *)
(** * The intra-compaction pass

    [crates/common/xai-grok-compaction/src/intra_compaction/]: [compact.rs],
    [traits.rs] and [observer.rs] - select, sample, guard, commit. The stream
    processor is an interface ([CompactionStreamProc]) with the contract its
    documentation states ([CompactionStreamProcLaws]); the pass runs with the
    processor to itself. [Instant::now] reads a clock of the world, in
    milliseconds; the prompt templates are an argument. *)

From S2P Require Export Fit Filter Sample IntraConfig Reminder.

(** ** The interfaces *)

(** Source: crates/common/xai-grok-compaction/src/intra_compaction/traits.rs:13-26, [CompactionTarget]. *)
Inductive CompactionTarget := TargetSteps | TargetHistory | TargetFullReplace.

(** Source: crates/common/xai-grok-compaction/src/intra_compaction/traits.rs:30-36, [CompactionTarget::label]. *)
Definition target_label (t : CompactionTarget) : str :=
  match t with
  | TargetSteps => lit "steps"
  | TargetHistory => lit "history"
  | TargetFullReplace => lit "full_replace"
  end.

(** The mutator returns the state it leaves, on errors too.

    Source: crates/common/xai-grok-compaction/src/intra_compaction/traits.rs:63-116, [CompactionStreamProc]. *)
Class CompactionStreamProc (T P : Type) := {
  get_accumulated_turns_for_compaction : P -> list T;
  get_history_turns_for_compaction : P -> list T;
  replace_with_compaction : CompactionTarget -> nat -> T -> P -> result unit IntraCompactionError * P;
}.

(** Source: crates/common/xai-grok-compaction/src/intra_compaction/traits.rs:93-100, [CompactionStreamProc::get_all_turns_for_compaction]. *)
Definition get_all_turns_for_compaction {T P} `{CompactionStreamProc T P} (p : P) : list T :=
  get_history_turns_for_compaction p ++ get_accumulated_turns_for_compaction p.

(** The read-view a target selects. *)
Definition view {T P} `{CompactionStreamProc T P} (target : CompactionTarget) (p : P) : list T :=
  match target with
  | TargetSteps => get_accumulated_turns_for_compaction p
  | TargetHistory => get_history_turns_for_compaction p
  | TargetFullReplace => get_all_turns_for_compaction p
  end.

(** The documented contract of the mutator: it replaces the first [n] items of
    the target's view by the given item, leaves the other partial view alone,
    and an error leaves the state untouched. *)
Class CompactionStreamProcLaws (T P : Type) `{CompactionStreamProc T P} := {
  replace_ok target n c (p p' : P) :
    replace_with_compaction target n c p = (Ok tt, p') ->
    n ≤ length (view target p) ∧ view target p' = c :: drop n (view target p) ∧
    match target with
    | TargetSteps => view TargetHistory p' = view TargetHistory p
    | TargetHistory => view TargetSteps p' = view TargetSteps p
    | TargetFullReplace => True
    end;
  replace_err target n c e (p p' : P) :
    replace_with_compaction target n c p = (Err e, p') -> p' = p;
}.

(** Source: crates/common/xai-grok-compaction/src/intra_compaction/observer.rs:15-31, [IntraCompactionObserver]. *)
Inductive IntraEvent :=
  | OnIntraError (status : str)
  | OnIntraSuccess (target : CompactionTarget) (ev_before ev_after ev_compacted ev_elapsed : N)
  | Sampling (e : SampleEvent).

(** The template files the prompts are made of. *)
Record Templates := mkTemplates {
  full_replace_summary_prompt : str;
  compaction_developer_prompt : str;
  compaction_user_prompt : str;
  intra_compaction_system : str;
  intra_compaction_user : str;
}.

(** ** Error classification *)

(** Source: crates/common/xai-grok-compaction/src/intra_compaction/compact.rs:744-758, [error_status_label]. *)
Definition error_status_label (err : IntraCompactionError) : str :=
  match err with
  | NothingToCompact => lit "nothing_to_compact"
  | Timeout => lit "timeout"
  | EmptyResponse => lit "empty_response"
  | InsufficientReduction _ _ => lit "insufficient_reduction"
  | InvalidSplit _ _ => lit "invalid_split"
  | Unsupported => lit "unsupported"
  | SamplerBuild _ => lit "sampler_build"
  | SamplerStart _ => lit "sampler_start"
  | SamplerStream _ => lit "sampler_stream"
  | ContextOverflow _ => lit "context_overflow"
  | Apply _ => lit "apply"
  end.

(** Source: crates/common/xai-grok-compaction/src/intra_compaction/compact.rs:805-825, [compaction_sample_error_to_intra]. *)
Definition compaction_sample_error_to_intra (err : CompactionSampleError) : IntraCompactionError :=
  match err with
  | SampleTimeout _ _ => Timeout
  | SampleBuild msg => SamplerBuild msg
  | SampleStart msg => SamplerStart msg
  | SampleContextOverflow msg => ContextOverflow msg
  | SampleEmptyResponse => EmptyResponse
  | SampleOther msg =>
      if contains (lit "Failed to build") msg then SamplerBuild msg
      else if contains (lit "Failed to start") msg then SamplerStart msg
      else if contains (lit "no response channel content") msg then EmptyResponse
      else SamplerStream msg
  end.

(** Source: crates/common/xai-grok-compaction/src/intra_compaction/compact.rs:828-836, [is_transient]. *)
Definition is_transient (err : IntraCompactionError) : bool :=
  match err with
  | Timeout | EmptyResponse | SamplerStream _ | SamplerStart _ => true
  | _ => false
  end.

(** ** The pass *)

Create HintDb intra.

Section intra.
Context {T W P : Type} `{CompactionItemBuilder T} `{!ItemTokenCounter T} `{!CompactionSampler T W}
  `{!CompactionStreamProc T P}.
Variable (now : W -> N) (templates : Templates).
Implicit Types turns : list T.

(** What a pass reads and changes. *)
Record IntraState := mkIntraState { proc : P; world : W; trace : list IntraEvent }.

Abbreviation M := (eff IntraState IntraCompactionError).

Definition emit (e : IntraEvent) : M unit :=
  eff_modify (fun s => mkIntraState (proc s) (world s) (trace s ++ [e])).

Definition read_view (target : CompactionTarget) : M (list T) := eff_gets (fun s => view target (proc s)).

Definition clock : M N := eff_gets (fun s => now (world s)).

Definition commit (target : CompactionTarget) (n : nat) (c : T) : M unit := fun s =>
  let '(r, p) := replace_with_compaction target n c (proc s) in (r, mkIntraState p (world s) (trace s)).

(** Source: crates/common/xai-grok-compaction/src/steps/prompt.rs:14-19, [format_compaction_prompt]. *)
Definition format_compaction_prompt : CompactionPrompt :=
  mkPrompt (intra_compaction_system templates) (intra_compaction_user templates).

(** The two targets of a partial pass: the source's functions take a
    [CompactionTarget] and mark the third [unreachable!]. *)
Inductive PassTarget := PassSteps | PassHistory.

Definition target_of (t : PassTarget) : CompactionTarget :=
  match t with PassSteps => TargetSteps | PassHistory => TargetHistory end.

(** The getters of the history prompts return [Ok] of their template.

    Source: crates/common/xai-grok-compaction/src/intra_compaction/compact.rs:654-670, [build_prompt_for_target]. *)
Definition build_prompt_for_target (target : PassTarget) : CompactionPrompt :=
  match target with
  | PassSteps => format_compaction_prompt
  | PassHistory => mkPrompt (compaction_developer_prompt templates) (compaction_user_prompt templates)
  end.

(** Source: crates/common/xai-grok-compaction/src/intra_compaction/compact.rs:692-739, [sample_shared_summary_with_retries]. *)
Definition sample_shared_summary_with_retries turns (policy : IntraCompactionConfig) : M str := fun s =>
  let prompt := mkPrompt [] (build_summary_prompt (full_replace_summary_prompt templates) None) in
  let '(r, w, events) :=
    sample_summary_with_retries turns prompt (max_attempts policy) (retry_delay_secs policy)
      (sampling_timeout_secs policy) (world s) in
  (match r with
   | Ok sampled => Ok (format_compact_summary (sampled_summary sampled))
   | Err (RetryEmpty _) => Err EmptyResponse
   | Err (RetryFailure message deterministic context_overflow _) =>
       if context_overflow then Err (ContextOverflow message)
       else if deterministic then Err (SamplerBuild message)
       else Err (SamplerStream message)
   end,
   mkIntraState (proc s) w
     (trace s ++ map Sampling (List.filter (fun e => match e with OnAttempt _ _ => false | _ => true end) events))).

(** The loop of the legacy summarizer, with [remaining] iterations left.

    Source: crates/common/xai-grok-compaction/src/intra_compaction/compact.rs:774-795, [sample_compaction_with_retries]. *)
Fixpoint legacy_loop (remaining : nat) (attempt max_attempts : N) turns (prompt : CompactionPrompt) (timeout : N)
    (policy : IntraCompactionConfig) (last_err : option IntraCompactionError) : M str := fun s =>
  match remaining with
  | 0 => (Err (match last_err with Some e => e | None => EmptyResponse end), s)
  | S remaining' =>
      let '(answer, w) := sample_compaction turns prompt timeout (world s) in
      let s := mkIntraState (proc s) w (trace s ++ [Sampling Called]) in
      match answer with
      | Ok output => (Ok (response output), s)
      | Err e =>
          let intra_err := compaction_sample_error_to_intra e in
          if is_transient intra_err && N.ltb attempt max_attempts then
            legacy_loop remaining' (attempt + 1) max_attempts turns prompt timeout policy (Some intra_err)
              (mkIntraState (proc s) (world s) (trace s ++ [Sampling (Slept (retry_delay_secs policy))]))
          else (Err intra_err, s)
      end
  end.

(** Source: crates/common/xai-grok-compaction/src/intra_compaction/compact.rs:763-796, [sample_compaction_with_retries]. *)
Definition sample_compaction_with_retries turns (prompt : CompactionPrompt) (timeout : N)
    (policy : IntraCompactionConfig) : M str :=
  let attempts := N.max (max_attempts policy) 1 in
  legacy_loop (N.to_nat attempts) 1 attempts turns prompt timeout policy None.

(** The reduction guard of both passes.

    Source: crates/common/xai-grok-compaction/src/intra_compaction/compact.rs:602-616, [compact_one_pass]. *)
Definition insufficient (policy : IntraCompactionConfig) (before after : N) : bool :=
  N.ltb 0 before
  && N.ltb (f64_to_uint u32_max (f64_mul (f64_of_N before) (max_reduction_ratio policy))) after.

(** Source: crates/common/xai-grok-compaction/src/intra_compaction/compact.rs:504-504, [compact_one_pass]. *)
Definition pass_target_tokens (policy : IntraCompactionConfig) (trigger : IntraCompactionTrigger) : N :=
  wrap32 (context_window trigger * target_threshold_percent policy / 100).

(** Source: crates/common/xai-grok-compaction/src/intra_compaction/compact.rs:571-590, [compact_one_pass]. *)
Definition final_summary_text (target : PassTarget) (policy : IntraCompactionConfig) (turns_to_compact : list T)
    (prior_user_queries : option str) (summary_text : str) : str :=
  match target with
  | PassHistory =>
      let current_user_queries :=
        extract_user_queries_from_turns turns_to_compact (user_message_truncate_chars policy) in
      let preamble := assemble_user_queries_preamble prior_user_queries current_user_queries in
      if is_empty preamble then summary_text else preamble ++ summary_text
  | PassSteps => summary_text
  end.

(** Source: crates/common/xai-grok-compaction/src/intra_compaction/compact.rs:468-651, [compact_one_pass]. *)
Definition compact_one_pass (policy : IntraCompactionConfig) (trigger : IntraCompactionTrigger)
    (target : PassTarget) : M IntraCompactionResult :=
  start ← clock;
  source_turns ← read_view (target_of target);
  if is_empty source_turns then eff_fail NothingToCompact
  else
    match select_turns_to_compact (map count_item_tokens source_turns) source_turns
            (pass_target_tokens policy trigger) (min_compactable_tokens policy) with
    | None => eff_fail NothingToCompact
    | Some plan =>
        let turns_to_compact := take (split_idx plan) source_turns in
        let '(llm, prior) :=
          match target with
          | PassHistory =>
              let separated := separate_prior_user_queries turns_to_compact in
              (turns_for_llm separated, prior_user_queries separated)
          | PassSteps => (turns_to_compact, None)
          end in
        summary_text ←
          match summarizer policy with
          | Legacy =>
              sample_compaction_with_retries llm (build_prompt_for_target target) (sampling_timeout_secs policy) policy
          | Shared => sample_shared_summary_with_retries llm policy
          end;
        let final := final_summary_text target policy turns_to_compact prior summary_text in
        let compaction_turn := compaction_summary_item final in
        let tokens_after := count_item_tokens compaction_turn in
        if insufficient policy (tokens_to_compact plan) tokens_after then
          eff_fail (InsufficientReduction (tokens_to_compact plan) tokens_after)
        else
          _ ← commit (target_of target) (split_idx plan) compaction_turn;
          finish ← clock;
          let elapsed := (finish - start)%N in
          let compacted := wrap32 (N.of_nat (split_idx plan)) in
          _ ← emit (OnIntraSuccess (target_of target) (tokens_to_compact plan) tokens_after compacted elapsed);
          mret (mkIntraResult (tokens_to_compact plan) tokens_after compacted elapsed final)
    end.

(** Source: crates/common/xai-grok-compaction/src/intra_compaction/compact.rs:153-176, [apply_steps_compaction]. *)
Definition apply_steps_compaction policy trigger : M IntraCompactionResult :=
  compact_one_pass policy trigger PassSteps.

(** Source: crates/common/xai-grok-compaction/src/intra_compaction/compact.rs:182-205, [apply_history_compaction]. *)
Definition apply_history_compaction policy trigger : M IntraCompactionResult :=
  compact_one_pass policy trigger PassHistory.

(** The raw count is the wrapping [sum::<u32>()].

    Source: crates/common/xai-grok-compaction/src/intra_compaction/compact.rs:237-359, [apply_full_replace_compaction]. *)
Definition apply_full_replace_compaction (policy : IntraCompactionConfig) (active_reminder : option str)
    (summarizer_input_budget : option N) : M IntraCompactionResult :=
  start ← clock;
  history_turns ← read_view TargetHistory;
  step_turns ← read_view TargetSteps;
  let total_turns := length history_turns + length step_turns in
  if Nat.eqb total_turns 0 then eff_fail NothingToCompact
  else
    let before := wrap_sum (map count_item_tokens (history_turns ++ step_turns)) in
    if N.ltb before (min_compactable_tokens policy) then eff_fail NothingToCompact
    else
      llm ←
        match summarizer_input_budget with
        | Some budget =>
            let plan := fit_turns_for_summarizer history_turns step_turns budget in
            if is_empty (llm_turns plan) || N.eqb (tokens_fit plan) 0 then eff_fail NothingToCompact
            else mret (llm_turns plan)
        | None => mret (history_turns ++ step_turns)
        end;
      summary_text ← sample_shared_summary_with_retries llm policy;
      let summary_text := append_reminder_block summary_text active_reminder in
      let compaction_turn := compaction_summary_item summary_text in
      let after := count_item_tokens compaction_turn in
      if insufficient policy before after then eff_fail (InsufficientReduction before after)
      else
        _ ← commit TargetFullReplace total_turns compaction_turn;
        finish ← clock;
        let elapsed := (finish - start)%N in
        let compacted := wrap32 (N.of_nat total_turns) in
        _ ← emit (OnIntraSuccess TargetFullReplace before after compacted elapsed);
        mret (mkIntraResult before after compacted elapsed summary_text).

(** Source: crates/common/xai-grok-compaction/src/intra_compaction/compact.rs:449-453, [apply_history_then_steps]. *)
Definition join_summaries (h s : str) : str :=
  if is_empty h then s else if is_empty s then h else h ++ nl ++ nl ++ s.

(** Source: crates/common/xai-grok-compaction/src/intra_compaction/compact.rs:405-414, [apply_history_then_steps]. *)
Definition should_compact_steps (policy : IntraCompactionConfig) (accumulated history : list T) : bool :=
  let steps_tokens := wrap64 (nsum (map count_item_tokens accumulated)) in
  let history_tokens := wrap64 (nsum (map count_item_tokens history)) in
  N.ltb (f64_ceil_to_uint u64_max (f64_mul (f64_of_N history_tokens) (steps_trigger_ratio policy))) steps_tokens.

(** The second half: the ratio test, the steps pass and the merge.

    Source: crates/common/xai-grok-compaction/src/intra_compaction/compact.rs:400-461, [apply_history_then_steps]. *)
Definition steps_after_history (policy : IntraCompactionConfig) (trigger : IntraCompactionTrigger)
    (history_result : option IntraCompactionResult) : M IntraCompactionResult :=
  accumulated ← read_view TargetSteps;
  history ← read_view TargetHistory;
  if negb (should_compact_steps policy accumulated history) then
    match history_result with Some r => mret r | None => eff_fail NothingToCompact end
  else
    steps_result ← eff_try (apply_steps_compaction policy trigger);
    match history_result, steps_result with
    | Some h, Ok s =>
        mret (mkIntraResult
          (sat_add32 (tokens_before h) (tokens_before s))
          (sat_add32 (tokens_after h) (tokens_after s))
          (sat_add32 (turns_compacted h) (turns_compacted s))
          (elapsed h + elapsed s)%N
          (join_summaries (summary h) (summary s)))
    | Some h, Err NothingToCompact => mret h
    | None, Ok s => mret s
    | _, Err e => eff_fail e
    end.

(** Source: crates/common/xai-grok-compaction/src/intra_compaction/compact.rs:368-462, [apply_history_then_steps]. *)
Definition apply_history_then_steps policy trigger : M IntraCompactionResult :=
  history_result ← eff_try (apply_history_compaction policy trigger);
  match history_result with
  | Ok r => steps_after_history policy trigger (Some r)
  | Err NothingToCompact => steps_after_history policy trigger None
  | Err e => eff_fail e
  end.

(** The mode's pass.

    Source: crates/common/xai-grok-compaction/src/intra_compaction/compact.rs:95-142, [apply_intra_compaction]. *)
Definition mode_pass (policy : IntraCompactionConfig) (trigger : IntraCompactionTrigger)
    (active_reminder : option str) (summarizer_input_budget : option N) : M IntraCompactionResult :=
  match mode policy with
  | FullReplace => apply_full_replace_compaction policy active_reminder summarizer_input_budget
  | StepsOnly => apply_steps_compaction policy trigger
  | HistoryOnly => apply_history_compaction policy trigger
  | HistoryThenSteps => apply_history_then_steps policy trigger
  end.

(** Source: crates/common/xai-grok-compaction/src/intra_compaction/compact.rs:80-147, [apply_intra_compaction]. *)
Definition apply_intra_compaction (policy : IntraCompactionConfig) (trigger : IntraCompactionTrigger)
    (active_reminder : option str) (summarizer_input_budget : option N) : M IntraCompactionResult :=
  result ← eff_try (mode_pass policy trigger active_reminder summarizer_input_budget);
  match result with
  | Ok r => mret r
  | Err e => _ ← emit (OnIntraError (error_status_label e)); eff_fail e
  end.

(** ** Lemmas *)

Context `{!CompactionStreamProcLaws T P}.

(** [m] never touches the processor; [m] leaves it alone when it fails; [m]
    cannot fail. *)
Definition pure_proc {A} (m : M A) : Prop := ∀ s, proc (m s).2 = proc s.
Definition safe {A} (m : M A) : Prop := ∀ s e s', m s = (Err e, s') -> proc s' = proc s.
Definition total {A} (m : M A) : Prop := ∀ s, ∃ x s', m s = (Ok x, s').

Lemma pure_safe {A} (m : M A) : pure_proc m -> safe m.
Proof. intros Hm s e s' Hs. specialize (Hm s). by rewrite Hs in Hm. Qed.

Lemma safe_bind {A B} (m : M A) (k : A -> M B) :
  pure_proc m -> (∀ x, safe (k x)) -> safe (m ≫= k).
Proof.
  intros Hm Hk s e s' [He|(x & s1 & He & Hx)]%eff_bind_err.
  - by apply (pure_safe _ Hm) in He.
  - apply Hk in Hx. specialize (Hm s). rewrite He in Hm. simpl in *. congruence.
Qed.

Lemma safe_bind_total {A B} (m : M A) (k : A -> M B) :
  safe m -> (∀ x, total (k x)) -> safe (m ≫= k).
Proof.
  intros Hm Hk s e s' [He|(x & s1 & He & Hx)]%eff_bind_err; [by apply Hm in He|].
  destruct (Hk x s1) as (y & s2 & Hy). congruence.
Qed.

Lemma total_bind {A B} (m : M A) (k : A -> M B) : total m -> (∀ x, total (k x)) -> total (m ≫= k).
Proof.
  intros Hm Hk s. destruct (Hm s) as (x & s1 & Hx), (Hk x s1) as (y & s2 & Hy).
  exists y, s2. apply eff_bind_ok. eauto.
Qed.

Lemma fail_safe {A} e : safe (eff_fail e : M A).
Proof. intros s e' s' [= _ <-]. done. Qed.

Lemma gets_pure {A} (f : IntraState -> A) : pure_proc (eff_gets f).
Proof. done. Qed.

Lemma clock_total : total clock.
Proof. intros s. unfold clock, eff_gets. eauto. Qed.

Lemma ret_total {A} (x : A) : total (mret x).
Proof. intros s. exists x, s. done. Qed.

Lemma emit_total e : total (emit e).
Proof. intros s. unfold emit, eff_modify. eauto. Qed.

Lemma shared_pure turns policy : pure_proc (sample_shared_summary_with_retries turns policy).
Proof.
  intros s. unfold sample_shared_summary_with_retries.
  by destruct (sample_summary_with_retries _ _ _ _ _ _) as [[r w] events].
Qed.

Lemma legacy_loop_pure n a max turns prompt timeout policy last_err :
  pure_proc (legacy_loop n a max turns prompt timeout policy last_err).
Proof.
  revert a last_err. induction n as [|n IH]; intros a last_err s; simpl; [done|].
  destruct (sample_compaction turns prompt timeout (world s)) as [[out|e] w]; simpl; [done|].
  destruct (_ && _); [|done]. by rewrite IH.
Qed.

Lemma legacy_pure turns prompt timeout policy : pure_proc (sample_compaction_with_retries turns prompt timeout policy).
Proof. apply legacy_loop_pure. Qed.

Lemma commit_safe target n c : safe (commit target n c).
Proof.
  intros s e s'. unfold commit. destruct (replace_with_compaction target n c (proc s)) as [r p] eqn:Hr.
  intros [= -> <-]. by apply replace_err in Hr.
Qed.

Hint Resolve fail_safe gets_pure clock_total ret_total emit_total shared_pure legacy_pure commit_safe pure_safe : intra.

Ltac safe_step :=
  repeat first
    [ solve [auto with intra]
    | apply safe_bind; [by auto with intra|intros ?]
    | apply safe_bind_total; [by auto with intra|intros ?]
    | apply total_bind; [by auto with intra|intros ?] ].

Lemma summarize_pure target llm policy :
  pure_proc
    match summarizer policy with
    | Legacy => sample_compaction_with_retries llm (build_prompt_for_target target) (sampling_timeout_secs policy) policy
    | Shared => sample_shared_summary_with_retries llm policy
    end.
Proof. destruct (summarizer policy); auto with intra. Qed.

Hint Resolve summarize_pure : intra.

Lemma one_pass_safe policy trigger target : safe (compact_one_pass policy trigger target).
Proof.
  unfold compact_one_pass. do 2 (apply safe_bind; [by auto with intra|intros ?]).
  destruct (is_empty _); [by auto with intra|].
  destruct (select_turns_to_compact _ _ _ _) as [plan|]; [|by auto with intra].
  destruct (match target with PassSteps => _ | PassHistory => _ end) as [llm prior].
  apply safe_bind; [by auto with intra|intros text].
  destruct (insufficient _ _ _); safe_step.
Qed.

Lemma fit_choice_pure (budget : option N) (history steps : list T) :
  pure_proc
    (match budget with
     | Some b =>
         let plan := fit_turns_for_summarizer history steps b in
         if is_empty (llm_turns plan) || N.eqb (tokens_fit plan) 0 then eff_fail NothingToCompact
         else mret (llm_turns plan)
     | None => mret (history ++ steps)
     end : M (list T)).
Proof. intros s. destruct budget as [b|]; [simpl; by destruct (_ || _)|done]. Qed.

Hint Resolve fit_choice_pure : intra.

Lemma full_replace_safe policy reminder budget : safe (apply_full_replace_compaction policy reminder budget).
Proof.
  unfold apply_full_replace_compaction. do 3 (apply safe_bind; [by auto with intra|intros ?]).
  destruct (Nat.eqb _ _); [by auto with intra|]. destruct (N.ltb _ _); [by auto with intra|].
  do 2 (apply safe_bind; [by auto with intra|intros ?]).
  destruct (insufficient _ _ _); safe_step.
Qed.

(** ** What a successful pass commits *)

Lemma commit_ok target n c s s' :
  commit target n c s = (Ok tt, s') ->
  n ≤ length (view target (proc s)) ∧ view target (proc s') = c :: drop n (view target (proc s)) ∧
  match target with
  | TargetSteps => view TargetHistory (proc s') = view TargetHistory (proc s)
  | TargetHistory => view TargetSteps (proc s') = view TargetSteps (proc s)
  | TargetFullReplace => True
  end.
Proof.
  unfold commit. destruct (replace_with_compaction target n c (proc s)) as [r p] eqn:Hr.
  intros [= -> <-]. by apply replace_ok in Hr.
Qed.

(** The guard's meaning: when there was something to reduce, the replacement is
    within the configured ratio of it. *)
Definition within_ratio (policy : IntraCompactionConfig) (before after : N) : Prop :=
  before = 0%N ∨ (after <= f64_to_uint u32_max (f64_mul (f64_of_N before) (max_reduction_ratio policy)))%N.

Lemma insufficient_false policy before after :
  insufficient policy before after = false -> within_ratio policy before after.
Proof.
  unfold insufficient, within_ratio. intros [Hb|Ha]%andb_false_iff; nbool; [left; lia|by right].
Qed.

(** The end of both passes: commit, then report. *)
Lemma commit_tail target n c before after compacted text start s r s' :
  (_ ← commit target n c;
   finish ← clock;
   let elapsed := (finish - start)%N in
   _ ← emit (OnIntraSuccess target before after compacted elapsed);
   mret (mkIntraResult before after compacted elapsed text)) s = (Ok r, s') ->
  ∃ s1, commit target n c s = (Ok tt, s1) ∧ proc s' = proc s1 ∧
    tokens_before r = before ∧ tokens_after r = after ∧ turns_compacted r = compacted ∧ summary r = text.
Proof.
  intros ([] & s1 & Hc & Hrest)%eff_bind_ok. exists s1.
  unfold mbind, eff_bind, clock, eff_gets, emit, eff_modify, mret, eff_ret in Hrest. by simplify_eq/=.
Qed.

(** What a partial pass does when it succeeds: the oldest [k] items of its view
    become one summary carrier, at a tool-safe cut whose kept part fits the
    target, and the other view is untouched. *)
Definition pass_committed (policy : IntraCompactionConfig) (trigger : IntraCompactionTrigger)
    (target : PassTarget) (r : IntraCompactionResult) (s s' : IntraState) : Prop :=
  let before := view (target_of target) (proc s) in
  let other := match target with PassSteps => TargetHistory | PassHistory => TargetSteps end in
  ∃ k, 0 < k < length before ∧
    view (target_of target) (proc s') = compaction_summary_item (summary r) :: drop k before ∧
    view other (proc s') = view other (proc s) ∧
    tool_at (drop k before) 0 = false ∧
    (sat_sum (map count_item_tokens (drop k before)) <= pass_target_tokens policy trigger)%N ∧
    turns_compacted r = wrap32 (N.of_nat k) ∧
    tokens_before r = sat_sum (map count_item_tokens (take k before)) ∧
    (min_compactable_tokens policy <= tokens_before r)%N ∧
    tokens_after r = count_item_tokens (compaction_summary_item (summary r)) ∧
    within_ratio policy (tokens_before r) (tokens_after r).

Lemma one_pass_ok policy trigger target s r s' :
  compact_one_pass policy trigger target s = (Ok r, s') -> pass_committed policy trigger target r s s'.
Proof.
  unfold compact_one_pass, pass_committed.
  intros (start & s0 & [= <- <-] & (turns & s1 & [= <- <-] & Hrun)%eff_bind_ok)%eff_bind_ok.
  destruct (is_empty _); [done|].
  destruct (select_turns_to_compact _ _ _ _) as [plan|] eqn:Hplan; [|done].
  apply select_some in Hplan as (Hk & Hfit & Htool & Htok & Hmin); [|apply length_map].
  destruct (match target with PassSteps => _ | PassHistory => _ end) as [llm prior].
  apply eff_bind_ok in Hrun as (text & s2 & Hsum & Hrun).
  pose proof (summarize_pure target llm policy s) as Hpure. rewrite Hsum in Hpure. simpl in Hpure.
  destruct (insufficient _ _ _) eqn:Hins; [done|]. apply insufficient_false in Hins.
  apply commit_tail in Hrun as (s3 & (_ & Hview & Hother)%commit_ok & Hproc & Hb & Ha & Hc & Htext).
  rewrite Hpure in Hview, Hother. rewrite <- Hproc in Hview, Hother.
  exists (split_idx plan). rewrite Hb, Ha, Hc, Htext, Htok in *.
  split_and!; try done; [lia|lia|by destruct target|by rewrite tool_at_drop| |by rewrite firstn_map].
  unfold fits in Hfit. by rewrite skipn_map in Hfit.
Qed.

Lemma full_replace_ok policy reminder budget s r s' :
  apply_full_replace_compaction policy reminder budget s = (Ok r, s') ->
  let before := get_all_turns_for_compaction (proc s) in
  before ≠ [] ∧
  get_all_turns_for_compaction (proc s') = [compaction_summary_item (summary r)] ∧
  turns_compacted r = len32 before ∧
  tokens_before r = wrap_sum (map count_item_tokens before) ∧
  (min_compactable_tokens policy <= tokens_before r)%N ∧
  tokens_after r = count_item_tokens (compaction_summary_item (summary r) : T) ∧
  within_ratio policy (tokens_before r) (tokens_after r).
Proof.
  unfold apply_full_replace_compaction.
  intros (start & s0 & [= <- <-] & (hist & s1 & [= <- <-] & (steps & s2 & [= <- <-] & Hrun)%eff_bind_ok)%eff_bind_ok)%eff_bind_ok.
  simpl in Hrun. rewrite <- length_app in Hrun. fold (get_all_turns_for_compaction (proc s)) in Hrun.
  set (before := get_all_turns_for_compaction (proc s)) in *.
  destruct (Nat.eqb_spec (length before) 0) as [|Hne]; [done|].
  destruct (N.ltb_spec (wrap_sum (map count_item_tokens before)) (min_compactable_tokens policy)) as [|Hmin]; [done|].
  apply eff_bind_ok in Hrun as (llm & s1 & Hllm & Hrun).
  assert (Hp1 : proc s1 = proc s).
  { match type of Hllm with ?m s = _ => pose proof (fit_choice_pure budget _ _ : pure_proc m) as Hp1 end.
    specialize (Hp1 s). by rewrite Hllm in Hp1. }
  apply eff_bind_ok in Hrun as (text & s2 & Hsum & Hrun).
  pose proof (shared_pure llm policy s1) as Hp2. rewrite Hsum in Hp2. simpl in Hp2.
  destruct (insufficient _ _ _) eqn:Hins; [done|]. apply insufficient_false in Hins.
  apply commit_tail in Hrun as (s3 & (_ & Hview & _)%commit_ok & Hproc & Hb & Ha & Hc & Htext).
  unfold view in Hview. rewrite Hp2, Hp1, <- Hproc in Hview. fold before in Hview.
  rewrite drop_all in Hview. rewrite Hb, Ha, Hc, Htext. split_and!; try done. by intros ->.
Qed.

Lemma ret_safe {A} (x : A) : safe (mret x).
Proof. intros s e s' Hs. done. Qed.

Hint Resolve ret_safe : intra.

Lemma steps_after_history_safe policy trigger o : safe (steps_after_history policy trigger o).
Proof.
  unfold steps_after_history. do 2 (apply safe_bind; [by auto with intra|intros ?]).
  destruct (negb _); [destruct o; auto with intra|].
  intros s e s'. unfold mbind, eff_bind, eff_try.
  destruct (apply_steps_compaction policy trigger s) as [[r|e1] s1] eqn:Hr; [by destruct o|].
  apply one_pass_safe in Hr. destruct o as [h|], e1; intros [= _ <-]; done.
Qed.

(** The sequence: a failure is either clean or comes after a committed history
    pass. *)
Lemma history_then_steps_err policy trigger s e s' :
  apply_history_then_steps policy trigger s = (Err e, s') ->
  proc s' = proc s ∨
  ∃ r sh, apply_history_compaction policy trigger s = (Ok r, sh) ∧ proc s' = proc sh.
Proof.
  unfold apply_history_then_steps, mbind, eff_bind, eff_try.
  destruct (apply_history_compaction policy trigger s) as [[r|e1] sh] eqn:Hh.
  - intros Hs%steps_after_history_safe. right. by exists r, sh.
  - intros Hs. left. apply one_pass_safe in Hh.
    destruct e1; try (injection Hs as _ <-; done). apply steps_after_history_safe in Hs. congruence.
Qed.

(** The top level adds one notification to a failure. *)
Lemma apply_intra_err policy trigger reminder budget s e s' :
  apply_intra_compaction policy trigger reminder budget s = (Err e, s') ->
  ∃ s1,
    mode_pass policy trigger reminder budget s = (Err e, s1) ∧ proc s' = proc s1 ∧ trace s' = trace s1 ++ [OnIntraError (error_status_label e)].
Proof.
  unfold apply_intra_compaction, mbind, eff_bind, eff_try.
  destruct (mode_pass policy trigger reminder budget s) as [[r|e1] s1]; [done|].
  intros [= <- <-]. by exists s1.
Qed.

Lemma apply_intra_ok policy trigger reminder budget s r s' :
  apply_intra_compaction policy trigger reminder budget s = (Ok r, s') ->
  mode_pass policy trigger reminder budget s = (Ok r, s').
Proof.
  unfold apply_intra_compaction, mbind, eff_bind, eff_try.
  destruct (mode_pass policy trigger reminder budget s) as [[r1|e1] s1]; [|done].
  by intros [= <- <-].
Qed.

(** ** Properties *)

(** C14 A failed pass leaves the stream processor as it was, and its failure is
    the last thing the observer is told; only the two-pass mode can fail after
    a change, and then exactly the history pass has been committed. *)
Theorem intra_error_atomic policy trigger reminder budget s e s' :
  apply_intra_compaction policy trigger reminder budget s = (Err e, s') ->
  (∃ events, trace s' = events ++ [OnIntraError (error_status_label e)]) ∧
  (proc s' = proc s ∨
   mode policy = HistoryThenSteps ∧
   ∃ r sh, apply_history_compaction policy trigger s = (Ok r, sh) ∧ proc s' = proc sh).
Proof.
  intros (s1 & Hrun & -> & ->)%apply_intra_err. split; [eauto|]. unfold mode_pass in Hrun.
  destruct (mode policy); [left..|].
  - by apply full_replace_safe in Hrun.
  - by apply one_pass_safe in Hrun.
  - by apply one_pass_safe in Hrun.
  - apply history_then_steps_err in Hrun as [?|?]; auto.
Qed.

(** A successful partial pass replaces the oldest items of its view, cut so
    that no tool result is orphaned and the kept part fits the target, by one
    summary carrier; it leaves the other view alone, reports exact counts, and
    is only committed when the carrier is within the configured reduction
    ratio of what it replaces. *)
Theorem partial_pass_commits policy trigger reminder budget target s r s' :
  mode policy = match target with PassSteps => StepsOnly | PassHistory => HistoryOnly end ->
  apply_intra_compaction policy trigger reminder budget s = (Ok r, s') ->
  pass_committed policy trigger target r s s'.
Proof.
  intros Hm Hrun%apply_intra_ok. unfold mode_pass in Hrun. rewrite Hm in Hrun. by destruct target; apply one_pass_ok in Hrun.
Qed.

(** A successful full replacement leaves a conversation of one item, the
    carrier of the reported summary, and was only committed when there was
    enough to compact and the carrier is within the reduction ratio of the raw
    size of everything it replaces. *)
Theorem full_replace_commits policy trigger reminder budget s r s' :
  mode policy = FullReplace ->
  apply_intra_compaction policy trigger reminder budget s = (Ok r, s') ->
  let before := get_all_turns_for_compaction (proc s) in
  before ≠ [] ∧
  get_all_turns_for_compaction (proc s') = [compaction_summary_item (summary r)] ∧
  turns_compacted r = len32 before ∧
  tokens_before r = wrap_sum (map count_item_tokens before) ∧
  (min_compactable_tokens policy <= tokens_before r)%N ∧
  tokens_after r = count_item_tokens (compaction_summary_item (summary r) : T) ∧
  within_ratio policy (tokens_before r) (tokens_after r).
Proof. intros Hm Hrun%apply_intra_ok. unfold mode_pass in Hrun. rewrite Hm in Hrun. by apply full_replace_ok in Hrun. Qed.
End intra.

(** ** A concrete processor and sampler

    The two views as lists; the sampler plays a script of answers. *)

Record MockProc := mkMockProc { mock_history : list MockItem; mock_steps : list MockItem }.

Definition mock_replace (target : CompactionTarget) (n : nat) (c : MockItem) (p : MockProc) :
    result unit IntraCompactionError * MockProc :=
  let replace_first (l : list MockItem) (k : list MockItem -> MockProc) :=
    if Nat.ltb (length l) n then (Err (InvalidSplit n (length l)), p) else (Ok tt, k (c :: drop n l)) in
  match target with
  | TargetSteps => replace_first (mock_steps p) (fun l => mkMockProc (mock_history p) l)
  | TargetHistory => replace_first (mock_history p) (fun l => mkMockProc l (mock_steps p))
  | TargetFullReplace => replace_first (mock_history p ++ mock_steps p) (fun l => mkMockProc l [])
  end.

#[export] Instance mock_proc : CompactionStreamProc MockItem MockProc := {|
  get_accumulated_turns_for_compaction := mock_steps;
  get_history_turns_for_compaction := mock_history;
  replace_with_compaction := mock_replace;
|}.

#[export] Instance mock_proc_laws : CompactionStreamProcLaws MockItem MockProc.
Proof.
  split.
  - intros [] n c p p'; simpl; unfold mock_replace; case_match; intros [= <-]; simpl; nbool;
      (split_and!; [done| |done]); try done. unfold get_all_turns_for_compaction. simpl. by rewrite app_nil_r.
  - intros [] n c e p p'; simpl; unfold mock_replace; case_match; intros [= _ <-]; done.
Qed.

Definition demo_templates : Templates := mkTemplates [] [] [] [] [].

Definition long (n : nat) : str := repeat "a"%char n.

Definition demo_intra (m : IntraCompactionMode) : IntraCompactionConfig :=
  mkIntraConfig true m 85 3 20 (f64_lit 8 10) None 120 2 3 [] Legacy 50 (f64_lit 3 10) 3000.

Definition demo_state (script : Script) : IntraState :=
  mkIntraState (mkMockProc [mkMock Assistant (long 100) false false; mkMock Assistant (long 30) false false]
                  [mkMock Assistant (long 90) false false; mkMock Assistant (long 40) false false])
    script [].

Definition demo_apply (m : IntraCompactionMode) (script : Script) :=
  apply_intra_compaction (fun _ => 0%N) demo_templates (demo_intra m) (mkTrigger 90 100 90 3) None None (demo_state script).

(** The documented guarantee that any error leaves the parser state
    unchanged does not hold of the two-pass mode: a steps pass that fails after
    a successful history pass returns its error with the history already
    replaced. *)
Theorem history_then_steps_error_commits :
  let script := [Ok (mkOutput (long 10) []); Err (SampleBuild [])] in
  let '(r, s') := demo_apply HistoryThenSteps script in
  r = Err (SamplerBuild []) ∧ proc s' ≠ proc (demo_state script) ∧
  mock_history (proc s') =
    [mkMock Developer (long 10) false true; mkMock Assistant (long 30) false false].
Proof. vm_compute. split; [done|]. split; [|done]. intros Heq. discriminate Heq. Qed.

(** ** Witnesses *)

Lemma intra_error_atomic_witness :
  let s' := (demo_apply StepsOnly [Err (SampleBuild [])]).2 in
  (∃ events, trace s' = events ++ [OnIntraError (error_status_label (SamplerBuild []))]) ∧
  (proc s' = proc (demo_state [Err (SampleBuild [])]) ∨
   mode (demo_intra StepsOnly) = HistoryThenSteps ∧
   ∃ r sh, apply_history_compaction (fun _ => 0%N) demo_templates (demo_intra StepsOnly) (mkTrigger 90 100 90 3)
             (demo_state [Err (SampleBuild [])]) = (Ok r, sh) ∧ proc s' = proc sh).
Proof.
  apply (intra_error_atomic (fun _ => 0%N) demo_templates (demo_intra StepsOnly) (mkTrigger 90 100 90 3) None None).
  vm_compute. reflexivity.
Defined.

Lemma partial_pass_commits_witness :
  let '(r, s') := demo_apply StepsOnly [Ok (mkOutput (long 10) [])] in
  match r with
  | Ok r => pass_committed (demo_intra StepsOnly) (mkTrigger 90 100 90 3) PassSteps r (demo_state [Ok (mkOutput (long 10) [])]) s'
  | Err _ => False
  end.
Proof.
  destruct (demo_apply StepsOnly [Ok (mkOutput (long 10) [])]) as [[r|e] s'] eqn:Hrun.
  - apply (partial_pass_commits (fun _ => 0%N) demo_templates (demo_intra StepsOnly) (mkTrigger 90 100 90 3) None None
             PassSteps); [reflexivity|exact Hrun].
  - vm_compute in Hrun. discriminate Hrun.
Defined.

Definition big_state : IntraState :=
  mkIntraState (mkMockProc [mkMock Assistant (long 900) false false] [mkMock Tool (long 60) false false])
    ([Ok (mkOutput (long 600) [])] : Script) [].

Lemma full_replace_commits_witness :
  let '(r, s') := apply_intra_compaction (fun _ => 0%N) demo_templates (demo_intra FullReplace)
                    (mkTrigger 90 100 90 3) None (Some 950%N) big_state in
  match r with
  | Ok r => get_all_turns_for_compaction (proc s') = [compaction_summary_item (summary r)] ∧ turns_compacted r = 2%N
  | Err _ => False
  end.
Proof.
  destruct (apply_intra_compaction (fun _ => 0%N) demo_templates (demo_intra FullReplace)
              (mkTrigger 90 100 90 3) None (Some 950%N) big_state) as [[r|e] s'] eqn:Hrun.
  - destruct (full_replace_commits _ _ (demo_intra FullReplace) _ _ _ _ _ _ eq_refl Hrun) as (_ & Hview & Hcount & _).
    split; [exact Hview|exact Hcount].
  - vm_compute in Hrun. discriminate Hrun.
Defined.
