(* ===== verification/FullReplacePass.v ===== *)
(** * The full-replace pass

    [crates/common/xai-grok-compaction/src/code_compaction/compact.rs]: sample a
    summary of the whole conversation and rebuild a fresh history around it. The
    durations given to the observer are clock readings and are left out. *)

From S2P Require Export Sample.

(** Source: crates/common/xai-grok-compaction/src/code_compaction/compact.rs:34-51, [FullReplaceContext]. *)
Record FullReplaceContext (T : Type) := mkContext {
  ctx_system_message : T;
  ctx_user_message_prefix : str;
  ctx_agents_md_reminder : option str;
  ctx_last_user_query : option str;
  ctx_recent_messages : list T;
  ctx_system_reminder : option str;
  ctx_transcript_hint : option str;
}.
Arguments mkContext {_}.
Arguments ctx_system_message {_}.
Arguments ctx_user_message_prefix {_}.
Arguments ctx_agents_md_reminder {_}.
Arguments ctx_last_user_query {_}.
Arguments ctx_recent_messages {_}.
Arguments ctx_system_reminder {_}.
Arguments ctx_transcript_hint {_}.

(** Source: crates/common/xai-grok-compaction/src/code_compaction/compact.rs:54-73, [FullReplaceError]. *)
Inductive FullReplaceError :=
  | FrNothingToCompact
  | FrEmptyResponse
  | FrSampler (message : str) (deterministic context_overflow : bool).

(** Source: crates/common/xai-grok-compaction/src/code_compaction/compact.rs:75-83, [impl std::fmt::Display for FullReplaceError]. *)
Definition full_replace_error_display (e : FullReplaceError) : str :=
  match e with
  | FrNothingToCompact => lit "nothing to compact"
  | FrEmptyResponse => lit "compaction model returned an empty summary"
  | FrSampler message _ _ => lit "compaction sampling failed: " ++ message
  end.

(** Source: crates/common/xai-grok-compaction/src/code_compaction/compact.rs:107-112, [FullReplaceSummary]. *)
Record FullReplaceSummary := mkFrSummary { fr_summary : str; fr_attempts : N }.

(** Source: crates/common/xai-grok-compaction/src/code_compaction/compact.rs:88-98, [FullReplaceOutput]. *)
Record FullReplaceOutput (T : Type) := mkFrOutput {
  out_history : list T;
  out_summary : str;
  out_attempts : N;
}.
Arguments mkFrOutput {_}.
Arguments out_history {_}.
Arguments out_summary {_}.
Arguments out_attempts {_}.

Section full_replace.
Context {T W : Type} `{!CompactionItemFactory T} `{!CompactionSampler T W}.
Variable (template : str).
Implicit Types llm : list T.

(** Source: crates/common/xai-grok-compaction/src/code_compaction/compact.rs:179-237, [sample_full_replace_summary]. *)
Definition sample_full_replace_summary llm (user_context : option str) (config : FullReplaceConfig) (w : W) :
    result FullReplaceSummary FullReplaceError * W * list SampleEvent :=
  if is_empty llm then (Err FrNothingToCompact, w, [])
  else
    let prompt := mkPrompt [] (build_summary_prompt template user_context) in
    let '(r, w, events) :=
      sample_summary_with_retries llm prompt (fr_max_attempts config) (fr_retry_delay_secs config)
        (fr_sampling_timeout_secs config) w in
    match r with
    | Ok s =>
        (Ok (mkFrSummary (sampled_summary s) (sampled_attempts s)), w,
         events ++ [OnSuccess (sampled_attempts s) (chars_count (sampled_summary s))])
    | Err (RetryEmpty attempts) => (Err FrEmptyResponse, w, events ++ [OnError attempts])
    | Err (RetryFailure message deterministic context_overflow attempts) =>
        (Err (FrSampler message deterministic context_overflow), w, events ++ [OnError attempts])
    end.

(** Source: crates/common/xai-grok-compaction/src/code_compaction/compact.rs:127-168, [apply_full_replace_compaction]. *)
Definition apply_code_full_replace llm (user_context : option str) (ctx : FullReplaceContext T)
    (config : FullReplaceConfig) (w : W) : result (FullReplaceOutput T) FullReplaceError * W * list SampleEvent :=
  let '(r, w, events) := sample_full_replace_summary llm user_context config w in
  match r with
  | Err e => (Err e, w, events)
  | Ok s =>
      let parts := mkParts (ctx_system_message ctx) (ctx_user_message_prefix ctx) (ctx_agents_md_reminder ctx)
                     (ctx_last_user_query ctx) (ctx_recent_messages ctx) (fr_summary s)
                     (ctx_system_reminder ctx) (ctx_transcript_hint ctx) in
      (Ok (mkFrOutput (assemble_compacted_history parts) (fr_summary s) (fr_attempts s)), w, events)
  end.

(** ** Specification *)

Definition opt_item (o : option str) (f : str -> T) : list T := match o with Some s => [f s] | None => [] end.

(** The canonical compacted history, read off its documentation:
    [[SP, UP', AGENTS_MD?, UQ_last?, recent.., summary, reminder?]]. *)
Definition canonical_history (ctx : FullReplaceContext T) (summary_text : str) : list T :=
  [ctx_system_message ctx; new_user_meta (ctx_user_message_prefix ctx)]
  ++ opt_item (ctx_agents_md_reminder ctx) new_project_instructions
  ++ opt_item (ctx_last_user_query ctx) (fun q => new_user (wrap_user_query q))
  ++ ctx_recent_messages ctx
  ++ [new_user_meta (continuation_preamble ++ nl ++ nl ++ summary_text
        ++ match ctx_transcript_hint ctx with Some h => h | None => [] end)]
  ++ opt_item (ctx_system_reminder ctx) new_system_reminder.

Lemma assemble_canonical ctx s :
  assemble_compacted_history
    (mkParts (ctx_system_message ctx) (ctx_user_message_prefix ctx) (ctx_agents_md_reminder ctx)
       (ctx_last_user_query ctx) (ctx_recent_messages ctx) s (ctx_system_reminder ctx) (ctx_transcript_hint ctx)) =
  canonical_history ctx (format_compact_summary s).
Proof.
  unfold assemble_compacted_history, canonical_history, opt_item, format_compact_summary_content.
  cbn [system_message user_message_prefix agents_md_reminder last_user_query recent_messages
       compaction_summary system_reminder transcript_hint].
  generalize continuation_preamble (format_compact_summary s) nl. intros pre clean newline.
  destruct (ctx_agents_md_reminder ctx), (ctx_last_user_query ctx), (ctx_transcript_hint ctx), (ctx_system_reminder ctx);
    simpl; rewrite <- ?app_assoc, ?app_nil_r; done.
Qed.

(** The full-replace pass, case by case. An empty conversation is refused
    without a call. Otherwise the attempts follow the retry discipline and one
    terminal event closes the trace; on success the winning answer is the last
    one, long enough after cleaning, and the rebuilt history is the canonical
    one around the cleaned summary; on failure the error is that of the last
    answer. *)
Theorem full_replace_pass_spec llm user_context ctx config w :
  let prompt := mkPrompt [] (build_summary_prompt template user_context) in
  let answer := answer_of llm prompt (fr_sampling_timeout_secs config) w in
  let '(r, w', events) := apply_code_full_replace llm user_context ctx config w in
  (llm = [] ∧ r = Err FrNothingToCompact ∧ w' = w ∧ events = []) ∨
  (llm ≠ [] ∧ ∃ k attempts last,
    events = attempts ++ [last] ∧ attempt_trace (fr_retry_delay_secs config) 1 k attempts ∧
    (N.of_nat (S k) <= N.max (fr_max_attempts config) 1)%N ∧
    (∀ j, j < k -> transient (answer j) = true) ∧
    match r with
    | Ok out =>
        last = OnSuccess (N.of_nat (S k)) (chars_count (out_summary out)) ∧
        out_attempts out = N.of_nat (S k) ∧
        (∃ think, answer k = Ok (mkOutput (out_summary out) think)) ∧
        MIN_SUMMARY_SEED_CHARS ≤ chars_count (format_compact_summary (out_summary out)) ∧
        out_history out = canonical_history ctx (format_compact_summary (out_summary out))
    | Err e =>
        last = OnError (N.of_nat (S k)) ∧
        match e with
        | FrNothingToCompact => False
        | FrEmptyResponse => ∃ out, answer k = Ok out ∧ usable (response out) = false
        | FrSampler message deterministic overflow =>
            ∃ err, answer k = Err err ∧ classify_error err = (message, deterministic, overflow)
        end
    end).
Proof.
  cbv zeta. unfold apply_code_full_replace, sample_full_replace_summary.
  destruct llm as [|t llm]; [by left|]. cbn [is_empty].
  set (prompt := mkPrompt [] _).
  pose proof (sample_with_retries_run (t :: llm) prompt (fr_max_attempts config) (fr_retry_delay_secs config)
                (fr_sampling_timeout_secs config) w) as Hrun.
  destruct (sample_summary_with_retries _ _ _ _ _ _) as [[r w1] events].
  destruct Hrun as (k & Hk & Hbefore & _ & -> & _ & Htrace).
  unfold final_result. destruct (answer_of (t :: llm) prompt _ w k) as [[resp think]|err] eqn:Ha; simpl.
  - destruct (usable resp) eqn:Hu; right; (split; [done|]).
    + exists k, events. eexists. split_and!; try done; simpl.
      * by exists think.
      * unfold usable, is_degenerate_summary in Hu. nbool. done.
      * apply assemble_canonical.
    + exists k, events. eexists. split_and!; try done. eexists. split; [exact Ha|done].
  - right. split; [done|]. destruct (classify_error err) as [[message d] o] eqn:Hc.
    exists k, events. eexists. split_and!; try done. eexists. split; [exact Ha|done].
Qed.
End full_replace.
