(* ===== verification/Inter.v ===== *)
(** * Inter-compaction

    [crates/common/xai-grok-compaction/src/inter_compaction/]: the chunked
    pipeline shared by the Basic and the DivideAndConquer strategies. Ids that
    are only logged and durations are left out. *)

From S2P Require Export Filter Sample.

(** Source: crates/common/xai-grok-compaction/src/inter_compaction/config.rs:15-34, [InterCompactionConfig]. *)
Record InterCompactionConfig := mkInterConfig {
  inter_model_name : str;
  inter_sampling_timeout_secs : N;
  compaction_strategy : CompactionStrategy;
  dnc_chunk_token_limit : N;
  user_message_compact_threshold : N;
}.

(** Source: crates/common/xai-grok-compaction/src/inter_compaction/compact.rs:37-37, [UNBOUNDED_CHUNK_LIMIT]. *)
Definition UNBOUNDED_CHUNK_LIMIT : N := u32_max.

(** Source: crates/common/xai-grok-compaction/src/inter_compaction/compact.rs:41-49, [ChunkedCompactionOutput]. *)
Record ChunkedCompactionOutput := mkChunked { combined_text : str; analysis_text : str }.

Section inter.
Context {T W : Type} `{CompactionItemBuilder T} `{!ItemTokenCounter T} `{!CompactionSampler T W}.
Variable (developer_prompt user_prompt : str).
Implicit Types turns chunk : list T.

(** [ChunkSampled] records the turns of the call beside what the observer is
    told of it.

    Source: crates/common/xai-grok-compaction/src/inter_compaction/observer.rs:10-20, [InterCompactionObserver]. *)
Inductive InterEvent :=
  | OnRecompaction (strategy : str)
  | ChunkSampled (chunk_turns : list T) (success : bool)
  | OnChunkCount (num_chunks : nat).

Abbreviation IM := (eff (W * list InterEvent) CompactionSampleError).

Definition inter_emit (e : InterEvent) : IM unit := eff_modify (fun s => (s.1, s.2 ++ [e])).

(** Source: crates/common/xai-grok-compaction/src/inter_compaction/compact.rs:233-272, [flush_chunk]. *)
Definition flush_chunk (config : InterCompactionConfig) (turns : list T) : IM LlmCompactionOutput := fun s =>
  let '(r, w) := sample_compaction turns (mkPrompt developer_prompt user_prompt)
                   (inter_sampling_timeout_secs config) s.1 in
  (r, (w, s.2 ++ [ChunkSampled turns (is_ok r)])).

(** Steps 3: [compactable], [chunk_tokens] and [chunk_outputs] are the loop's
    variables; [+=] on [u32] wraps.

    Source: crates/common/xai-grok-compaction/src/inter_compaction/compact.rs:138-185, [sample_compaction_chunked]. *)
Fixpoint chunk_loop (config : InterCompactionConfig) (chunk_token_limit : N) (turns compactable : list T)
    (chunk_tokens : N) (chunk_outputs : list LlmCompactionOutput) : IM (list LlmCompactionOutput) :=
  match turns with
  | [] =>
      if is_empty compactable then mret chunk_outputs
      else output ← flush_chunk config compactable; mret (chunk_outputs ++ [output])
  | turn :: rest =>
      let turn_tokens := count_item_tokens turn in
      if negb (is_empty compactable) && negb (N.eqb chunk_token_limit UNBOUNDED_CHUNK_LIMIT)
         && N.ltb chunk_token_limit (sat_add32 chunk_tokens turn_tokens)
      then
        output ← flush_chunk config compactable;
        chunk_loop config chunk_token_limit rest [turn] (wrap_add32 0 turn_tokens) (chunk_outputs ++ [output])
      else
        chunk_loop config chunk_token_limit rest (compactable ++ [turn]) (wrap_add32 chunk_tokens turn_tokens) chunk_outputs
  end.

(** Source: crates/common/xai-grok-compaction/src/inter_compaction/compact.rs:200-204, [sample_compaction_chunked]. *)
Definition chunk_summary (i : nat) (output : LlmCompactionOutput) : str :=
  lit "<chunk_summary index=" ++ dq ++ show_nat i ++ dq ++ lit ">" ++ nl ++ response output ++ nl
  ++ lit "</chunk_summary>" ++ nl ++ nl.

(** The chunk limit of a strategy, or the routing error.

    Source: crates/common/xai-grok-compaction/src/inter_compaction/compact.rs:92-101, [sample_compaction_chunked]. *)
Definition chunk_limit (config : InterCompactionConfig) : result N CompactionSampleError :=
  match compaction_strategy config with
  | Basic => Ok UNBOUNDED_CHUNK_LIMIT
  | DivideAndConquer => Ok (dnc_chunk_token_limit config)
  | FullReplaceStrategy =>
      Err (SampleBuild (lit "full_replace must be routed through the event-proc compact_conversation helper"))
  end.

(** Source: crates/common/xai-grok-compaction/src/inter_compaction/compact.rs:80-230, [sample_compaction_chunked]. *)
Definition sample_compaction_chunked (config : InterCompactionConfig) (turns : list T)
    (current_user_queries : option str) : IM ChunkedCompactionOutput :=
  chunk_token_limit ← eff_lift (chunk_limit config);
  let filtered := filter_turns_for_inter_compaction turns in
  if is_empty filtered then eff_fail (SampleOther (lit "No turns remaining after filtering"))
  else
    let separated := separate_prior_user_queries filtered in
    chunk_outputs ← chunk_loop config chunk_token_limit (turns_for_llm separated) [] 0 [];
    _ ← (if has_prior_compaction separated
         then inter_emit (OnRecompaction (strategy_label (compaction_strategy config)))
         else mret tt);
    let preamble := assemble_user_queries_preamble (prior_user_queries separated) current_user_queries in
    let combined := preamble ++ concat (imap chunk_summary chunk_outputs) in
    let combined_analysis := concat (imap (fun i output => wrap_chunk_analysis i (thinking output)) chunk_outputs) in
    _ ← inter_emit (OnChunkCount (length chunk_outputs));
    mret (mkChunked combined combined_analysis).

(** ** The reference: chunk first, then sample every chunk *)

Definition chunk_tokens_of chunk : N := nsum (map count_item_tokens chunk).

(** Greedy chunks, with exact sums: [cur] is the chunk being filled. *)
Fixpoint chunks_from (limit : N) (cur turns : list T) : list (list T) :=
  match turns with
  | [] => if is_empty cur then [] else [cur]
  | t :: rest =>
      if negb (is_empty cur) && negb (N.eqb limit UNBOUNDED_CHUNK_LIMIT)
         && N.ltb limit (chunk_tokens_of cur + count_item_tokens t)
      then cur :: chunks_from limit [t] rest
      else chunks_from limit (cur ++ [t]) rest
  end.

Fixpoint flush_all (config : InterCompactionConfig) (chunks : list (list T)) : IM (list LlmCompactionOutput) :=
  match chunks with
  | [] => mret []
  | c :: rest => output ← flush_chunk config c; outputs ← flush_all config rest; mret (output :: outputs)
  end.

(** The running sum is exact while it matters: when flushing is enabled and the
    chunk holds more than one item, it is within the limit. *)
Definition chunk_inv (limit : N) (cur : list T) (tokens : N) : Prop :=
  limit = UNBOUNDED_CHUNK_LIMIT ∨
  (tokens = chunk_tokens_of cur ∧ (chunk_tokens_of cur <= u32_max)%N).

(** ** Lemmas *)

Lemma chunk_tokens_snoc chunk t :
  chunk_tokens_of (chunk ++ [t]) = (chunk_tokens_of chunk + count_item_tokens t)%N.
Proof. unfold chunk_tokens_of. rewrite map_app, nsum_app. simpl. lia. Qed.

(** The incremental loop is: chunk, then flush in order. *)
Lemma chunk_loop_flush config limit turns cur tokens outs s :
  (limit <= u32_max)%N ->
  chunk_inv limit cur tokens -> (cur = [] -> tokens = 0%N) ->
  chunk_loop config limit turns cur tokens outs s =
  (outputs ← flush_all config (chunks_from limit cur turns); mret (outs ++ outputs)) s.
Proof.
  intros Hlim. revert cur tokens outs s. induction turns as [|t turns IH]; intros cur tokens outs s Hinv Hnil; simpl.
  - destruct (is_empty cur); simpl; unfold mbind, eff_bind, mret, eff_ret; simpl; [by rewrite app_nil_r|].
    by destruct (flush_chunk config cur s) as [[o|e] s1].
  - pose proof (count_item_tokens_u32 t) as Ht.
    assert (Hcond : negb (N.eqb limit UNBOUNDED_CHUNK_LIMIT) && N.ltb limit (sat_add32 tokens (count_item_tokens t)) =
                    negb (N.eqb limit UNBOUNDED_CHUNK_LIMIT) && N.ltb limit (chunk_tokens_of cur + count_item_tokens t)).
    { destruct Hinv as [->|[-> Hb]]; [by rewrite N.eqb_refl|].
      destruct (N.eqb_spec limit UNBOUNDED_CHUNK_LIMIT) as [|Hne]; [done|]. simpl. unfold UNBOUNDED_CHUNK_LIMIT in Hne.
      apply eq_iff_eq_true. rewrite !N.ltb_lt. sat_lia. }
    rewrite <- !andb_assoc, Hcond.
    destruct (negb (is_empty cur) && _) eqn:Hflush.
    + unfold mbind, eff_bind. simpl. unfold mbind, eff_bind. destruct (flush_chunk config cur s) as [[o|e] s1]; [|done].
      rewrite IH; [|right; rewrite wrap_add32_small by lia; unfold chunk_tokens_of; simpl; lia|done].
      unfold mbind, eff_bind, mret, eff_ret.
      destruct (flush_all config (chunks_from limit [t] turns) s1) as [[os|e] s2]; [|done].
      by rewrite <- app_assoc.
    + apply IH; [|by destruct cur].
      destruct Hinv as [->|[-> Hb]]; [by left|].
      destruct (decide (limit = UNBOUNDED_CHUNK_LIMIT)) as [|Hne]; [by left|]. right. rewrite chunk_tokens_snoc.
      apply andb_false_iff in Hflush as [Hf|Hf].
      * nbool. apply is_empty_spec in Hf as ->. unfold chunk_tokens_of in *. simpl in *. rewrite wrap_add32_small; lia.
      * apply andb_false_iff in Hf as [Hf|Hf]; nbool; [congruence|]. rewrite wrap_add32_small; lia.
Qed.

(** A chunk within the budget, unless it is one oversized item. *)
Definition chunk_ok (limit : N) chunk : Prop :=
  chunk ≠ [] ∧ (limit = UNBOUNDED_CHUNK_LIMIT ∨ length chunk = 1 ∨ (chunk_tokens_of chunk <= limit)%N).

Lemma chunks_from_spec limit turns cur :
  (cur = [] ∨ chunk_ok limit cur) ->
  concat (chunks_from limit cur turns) = cur ++ turns ∧ Forall (chunk_ok limit) (chunks_from limit cur turns).
Proof.
  revert cur. induction turns as [|t turns IH]; intros cur Hcur; simpl.
  - destruct Hcur as [->|Hok]; [done|]. rewrite (proj2 (is_empty_false cur)) by apply Hok. simpl.
    split; [done|]. by constructor.
  - destruct (_ && _) eqn:Hf.
    + destruct Hcur as [->|Hok]; [done|].
      destruct (IH [t]) as [Hc Hall]; [right; split; [done|by right; left]|].
      simpl. rewrite Hc. split; [done|by constructor].
    + destruct (IH (cur ++ [t])) as [Hc Hall]; [right|by rewrite <- app_assoc in Hc].
      split; [by destruct cur|]. rewrite chunk_tokens_snoc.
      apply andb_false_iff in Hf as [Hf|Hf]; nbool; [|by right; right].
      apply andb_false_iff in Hf as [Hf|Hf]; nbool; [|by left].
      apply is_empty_spec in Hf as ->. by right; left.
Qed.

Lemma chunks_unbounded turns cur :
  chunks_from UNBOUNDED_CHUNK_LIMIT cur turns = if is_empty (cur ++ turns) then [] else [cur ++ turns].
Proof.
  revert cur. induction turns as [|t turns IH]; intros cur; cbn [chunks_from]; [by rewrite app_nil_r|].
  rewrite N.eqb_refl, andb_false_r. cbn [andb]. rewrite IH. rewrite <- app_assoc. by destruct cur.
Qed.

Lemma flush_chunk_events config chunk s r s' :
  flush_chunk config chunk s = (r, s') -> s'.2 = s.2 ++ [ChunkSampled chunk (is_ok r)].
Proof.
  unfold flush_chunk. destruct (sample_compaction _ _ _ _) as [r1 w]. by intros [= <- <-].
Qed.

(** The calls made: every chunk when all succeed, else up to the first failure. *)
Lemma flush_all_events config chunks s r s' :
  flush_all config chunks s = (r, s') ->
  match r with
  | Ok outputs => length outputs = length chunks ∧ s'.2 = s.2 ++ map (fun c => ChunkSampled c true) chunks
  | Err _ => ∃ done failed rest, chunks = done ++ failed :: rest ∧
               s'.2 = s.2 ++ map (fun c => ChunkSampled c true) done ++ [ChunkSampled failed false]
  end.
Proof.
  revert s r s'. induction chunks as [|c chunks IH]; intros s r s'; simpl.
  { intros [= <- <-]. by rewrite app_nil_r. }
  unfold mbind, eff_bind. destruct (flush_chunk config c s) as [[o|e] s1] eqn:Hc; apply flush_chunk_events in Hc; simpl in Hc.
  - destruct (flush_all config chunks s1) as [[os|e] s2] eqn:Hall; apply IH in Hall.
    + intros [= <- <-]. destruct Hall as [Hlen ->]. rewrite Hc. split; [simpl; by f_equal|].
      by rewrite <- app_assoc.
    + intros [= <- <-]. destruct Hall as (d & f & rest & -> & ->). exists (c :: d), f, rest.
      rewrite Hc. split; [done|]. by rewrite <- app_assoc.
  - intros [= <- <-]. by exists [], c, chunks.
Qed.

(** ** Properties *)

(** The chunked pipeline sends the model exactly the filtered, separated
    items: cut into consecutive non-empty chunks that concatenate to them, each
    within the token limit unless it is a single oversized item, in order, one
    call per chunk. On success the combined text is the queries' preamble and
    one summary block per chunk; the first failing call ends the pass with no
    further call. *)
Theorem sample_compaction_chunked_spec config limit turns queries s :
  chunk_limit config = Ok limit -> (limit <= u32_max)%N ->
  filter_turns_for_inter_compaction turns ≠ [] ->
  let separated := separate_prior_user_queries (filter_turns_for_inter_compaction turns) in
  let '(r, s') := sample_compaction_chunked config turns queries s in
  ∃ chunks, concat chunks = turns_for_llm separated ∧ Forall (chunk_ok limit) chunks ∧
    match r with
    | Ok out => ∃ outputs, length outputs = length chunks ∧
        s'.2 = s.2 ++ map (fun c => ChunkSampled c true) chunks
               ++ (if has_prior_compaction separated
                   then [OnRecompaction (strategy_label (compaction_strategy config))] else [])
               ++ [OnChunkCount (length chunks)] ∧
        combined_text out =
          assemble_user_queries_preamble (prior_user_queries separated) queries ++ concat (imap chunk_summary outputs)
    | Err _ => ∃ done failed rest, chunks = done ++ failed :: rest ∧
        s'.2 = s.2 ++ map (fun c => ChunkSampled c true) done ++ [ChunkSampled failed false]
    end.
Proof.
  intros Hlimit Hle Hne separated. unfold sample_compaction_chunked. rewrite Hlimit.
  unfold eff_lift, mbind at 1, eff_bind at 1. apply is_empty_false in Hne. rewrite Hne. fold separated.
  unfold mbind at 1, eff_bind at 1. rewrite chunk_loop_flush by (done || by right).
  destruct (chunks_from_spec limit (turns_for_llm separated) [] ltac:(by left)) as [Hconcat Hall].
  set (chunks := chunks_from limit [] (turns_for_llm separated)) in *.
  unfold mbind at 1, eff_bind at 1. destruct (flush_all config chunks s) as [[outs|e] s1] eqn:Hf;
    apply flush_all_events in Hf.
  - destruct Hf as [Hlen Hev]. unfold mret at 1, eff_ret at 1. cbn [app].
    destruct (has_prior_compaction separated);
      unfold mbind, eff_bind, inter_emit, eff_modify, mret, eff_ret; simpl; exists chunks;
      (split_and!; [done|done|]); exists outs; rewrite Hev, Hlen; split_and!; try done; by rewrite <- !app_assoc.
  - exists chunks. split_and!; done.
Qed.

(** The Basic strategy makes one call with everything, or none at all when
    the filtered items held nothing but recorded queries. *)
Theorem basic_single_chunk config turns queries s :
  compaction_strategy config = Basic ->
  filter_turns_for_inter_compaction turns ≠ [] ->
  let llm := turns_for_llm (separate_prior_user_queries (filter_turns_for_inter_compaction turns)) in
  let '(r, s') := sample_compaction_chunked config turns queries s in
  ∃ rest, s'.2 = s.2 ++ rest ∧
    List.filter (fun e => match e with ChunkSampled _ _ => true | _ => false end) rest =
    if is_empty llm then [] else [ChunkSampled llm (is_ok r)].
Proof.
  intros Hb Hne llm. unfold sample_compaction_chunked, chunk_limit. rewrite Hb.
  unfold eff_lift, mbind at 1, eff_bind at 1. apply is_empty_false in Hne. rewrite Hne. fold llm.
  unfold mbind at 1, eff_bind at 1. rewrite chunk_loop_flush by (done || by left || by right).
  rewrite chunks_unbounded. cbn [app].
  set (prior := has_prior_compaction _).
  unfold mbind at 1, eff_bind at 1.
  destruct (flush_all config (if is_empty llm then [] else [llm]) s) as [[outs|e] s1] eqn:Hf;
    apply flush_all_events in Hf; unfold mbind, eff_bind, inter_emit, eff_modify, mret, eff_ret.
  - destruct Hf as [Hlen Hev]. destruct prior; simpl; rewrite Hev;
      (eexists; split; [by rewrite <- ?app_assoc|]); by destruct (is_empty llm).
  - destruct Hf as (d & f & rest & Hch & Hev). rewrite Hev. eexists. split; [done|].
    destruct (is_empty llm); [by destruct d|]. destruct d as [|? []]; simplify_eq/=. done.
Qed.
End inter.

(** ** Witnesses *)

Definition demo_inter (strategy : CompactionStrategy) : InterCompactionConfig := mkInterConfig [] 120 strategy 12 3000.

Definition demo_turns : list MockItem :=
  [mkMock User (lit "first") false false; mkMock Tool (lit "dropped") false false;
   mkMock Assistant (lit "second") false false; mkMock User (lit "third, long") false false].

Definition demo_script : Script := [Ok (mkOutput (lit "A") []); Ok (mkOutput (lit "B") [])].

Lemma sample_compaction_chunked_spec_witness :
  let '(r, s') := sample_compaction_chunked [] [] (demo_inter DivideAndConquer) demo_turns None (demo_script, []) in
  ∃ chunks : list (list MockItem), concat chunks = turns_for_llm (separate_prior_user_queries (filter_turns_for_inter_compaction demo_turns)) ∧
    Forall (chunk_ok 12) chunks ∧ is_ok r = true.
Proof.
  pose proof (sample_compaction_chunked_spec (T := MockItem) (W := Script) [] [] (demo_inter DivideAndConquer) 12 demo_turns None
    (demo_script, []) eq_refl ltac:(vm_compute; discriminate) ltac:(vm_compute; discriminate)) as Hspec.
  destruct (sample_compaction_chunked [] [] (demo_inter DivideAndConquer) demo_turns None (demo_script, [])) as [r s'] eqn:Hrun.
  destruct Hspec as (chunks & Hc & Hall & _). exists chunks. split; [exact Hc|]. split; [exact Hall|].
  vm_compute in Hrun. injection Hrun as <- _. reflexivity.
Defined.

Lemma basic_single_chunk_witness :
  let llm := turns_for_llm (separate_prior_user_queries (filter_turns_for_inter_compaction demo_turns)) in
  let '(r, s') := sample_compaction_chunked [] [] (demo_inter Basic) demo_turns None (demo_script, []) in
  ∃ rest, s'.2 = [] ++ rest ∧
    List.filter (fun e => match e with ChunkSampled _ _ => true | _ => false end) rest =
    if is_empty llm then [] else [ChunkSampled llm (is_ok r)].
Proof.
  apply (basic_single_chunk (T := MockItem) (W := Script) [] [] (demo_inter Basic) demo_turns None (demo_script, []));
    [reflexivity|vm_compute; discriminate].
Defined.
