(* ===== verification/BreakerWindow.v ===== *)
(** * Circuit breaker: window, configuration and classification

    [crates/common/xai-circuit-breaker/src/]: [window.rs], [config.rs],
    [state.rs], [retry_policy.rs] and [grpc.rs]. An [Instant] and a [Duration]
    are nanosecond counts. *)

From S2P Require Export F64 RustStr.
From Stdlib Require Import Sorting.Sorted.

(** ** States and outcomes *)

(** Source: crates/common/xai-circuit-breaker/src/state.rs:8-14, [BreakerState]. *)
Inductive BreakerState := Closed | Open | HalfOpen.

#[export] Instance BreakerState_eq_dec : EqDecision BreakerState.
Proof. solve_decision. Defined.

(** [state as u8]. *)
Definition state_as_u8 (s : BreakerState) : N :=
  match s with Closed => 0 | Open => 1 | HalfOpen => 2 end.

(** Source: crates/common/xai-circuit-breaker/src/state.rs:17-27, [BreakerState::from_u8]. *)
Definition state_from_u8 (v : N) : BreakerState :=
  match v with 0 => Closed | 1 => Open | 2 => HalfOpen | _ => Closed end%N.

(** Source: crates/common/xai-circuit-breaker/src/state.rs:32-36, [Outcome]. *)
Inductive Outcome := Success | Failure.

(** Source: crates/common/xai-circuit-breaker/src/state.rs:40-43, [BreakerOpen]. *)
Record BreakerOpen := mkBreakerOpen { retry_after : N }.

(** ** Configuration *)

Definition from_secs (n : N) : N := n * 1000000000.
Definition from_millis (n : N) : N := n * 1000000.
(** [d.as_millis() as u64]. *)
Definition as_millis (d : N) : N := wrap64 (d / 1000000).

(** Source: crates/common/xai-circuit-breaker/src/config.rs:16-25, [BreakerConfig]. *)
Record BreakerConfig := mkBreakerConfig {
  window_duration : N;
  min_samples : N;
  error_rate_threshold : f64;
  open_duration : N;
  half_open_max_probes : N;
  failure_codes : gset N;
  cb_enabled : bool;
}.

(** Source: crates/common/xai-circuit-breaker/src/config.rs:14-14, [DEFAULT_FAILURE_CODES]. *)
Definition DEFAULT_FAILURE_CODES : list N := [429; 500; 502; 503; 504]%N.

(** Source: crates/common/xai-circuit-breaker/src/config.rs:128-130, [default_failure_codes]. *)
Definition default_failure_codes : gset N := list_to_set DEFAULT_FAILURE_CODES.

(** Source: crates/common/xai-circuit-breaker/src/config.rs:36-46, [BreakerConfig::server]. *)
Definition server : BreakerConfig :=
  mkBreakerConfig (from_secs 60) 10 (f64_lit 1 2) (from_secs 10) 1 default_failure_codes true.

(** Source: crates/common/xai-circuit-breaker/src/config.rs:50-60, [BreakerConfig::client]. *)
Definition client : BreakerConfig :=
  mkBreakerConfig (from_secs 60) 5 (f64_lit 1 2) (from_secs 60) 1 {[401%N]} true.

(** [uN::from_str]: an optional [+], then decimal digits only, in range. *)
Fixpoint parse_digits (max acc : N) (s : str) : option N :=
  match s with
  | [] => Some acc
  | c :: s' =>
      if is_ascii_digit c then
        let acc := (acc * 10 + (N_of_ascii c - 48))%N in
        if N.leb acc max then parse_digits max acc s' else None
      else None
  end.

Definition parse_uint (max : N) (s : str) : option N :=
  let digits := match s with c :: s' => if ch_eqb c (byte 43) then s' else s | [] => [] end in
  if is_empty digits then None else parse_digits max 0 digits.

(** [bool::from_str]. *)
Definition parse_bool (s : str) : option bool :=
  if str_eqb s (lit "true") then Some true else if str_eqb s (lit "false") then Some false else None.

(** Source: crates/common/xai-circuit-breaker/src/config.rs:134-136, [parse_failure_codes]. *)
Definition parse_failure_codes (s : str) : gset N :=
  list_to_set (omap (fun c => parse_uint u16_max (trim c)) (split (lit ",") s)).

(** Source: crates/common/xai-circuit-breaker/src/config.rs:110-125, [lookup_or]. *)
Definition lookup_or {A} (parse : str -> option A) (get : str -> option str) (key : str) (default : A) : A :=
  match get key with
  | Some v => match parse v with Some parsed => parsed | None => default end
  | None => default
  end.

(** [parse_f64] is [f64::from_str].

    Source: crates/common/xai-circuit-breaker/src/config.rs:72-102, [BreakerConfig::from_lookup_with_prefix]. *)
Definition from_lookup_with_prefix (parse_f64 : str -> option f64) (prefix : str) (get : str -> option str) : BreakerConfig :=
  let key k := prefix ++ lit k in
  let codes :=
    match get (key "FAILURE_CODES") with
    | Some raw =>
        let codes := parse_failure_codes raw in
        if bool_decide (codes = ∅) then default_failure_codes else codes
    | None => default_failure_codes
    end in
  mkBreakerConfig
    (from_secs (lookup_or (parse_uint u64_max) get (key "WINDOW_SECS") 60%N))
    (lookup_or (parse_uint u64_max) get (key "MIN_SAMPLES") 10%N)
    (lookup_or parse_f64 get (key "ERROR_RATE_THRESHOLD") (f64_lit 1 2))
    (from_secs (lookup_or (parse_uint u64_max) get (key "OPEN_DURATION_SECS") 10%N))
    (N.max (lookup_or (parse_uint u64_max) get (key "HALF_OPEN_MAX_PROBES") 1%N) 1)
    codes
    (lookup_or parse_bool get (key "ENABLED") true).

(** Source: crates/common/xai-circuit-breaker/src/config.rs:105-107, [BreakerConfig::is_failure_status]. *)
Definition is_failure_status (config : BreakerConfig) (status : N) : bool :=
  bool_decide (status ∈ failure_codes config).

(** ** The sliding window *)

(** Source: crates/common/xai-circuit-breaker/src/window.rs:9-9, [MAX_WINDOW_ENTRIES]. *)
Definition MAX_WINDOW_ENTRIES : nat := N.to_nat 10000.

(** Source: crates/common/xai-circuit-breaker/src/window.rs:11-18, [SlidingWindow]. *)
Record SlidingWindow := mkWindow { entries : list (N * bool); failures : N }.

(** Source: crates/common/xai-circuit-breaker/src/window.rs:21-26, [SlidingWindow::new]. *)
Definition window_new : SlidingWindow := mkWindow [] 0.

(** [self.failures -= 1] on a [usize], wrapping. *)
Definition usize_pred (n : N) : N := wrap64 (n + u64_max).

(** [pop_front], with the decrement both callers make. *)
Definition pop_front (w : SlidingWindow) : SlidingWindow :=
  match entries w with
  | [] => w
  | (_, was_failure) :: rest => mkWindow rest (if was_failure then usize_pred (failures w) else failures w)
  end.

(** Make room at the cap.

    Source: crates/common/xai-circuit-breaker/src/window.rs:29-34, [SlidingWindow::push]. *)
Definition make_room (w : SlidingWindow) : SlidingWindow :=
  if Nat.leb MAX_WINDOW_ENTRIES (length (entries w)) then pop_front w else w.

(** Source: crates/common/xai-circuit-breaker/src/window.rs:28-39, [SlidingWindow::push]. *)
Definition window_push (w : SlidingWindow) (is_failure : bool) (at_ : N) : SlidingWindow :=
  let w := make_room w in
  mkWindow (entries w ++ [(at_, is_failure)]) (if is_failure then wrap64 (failures w + 1) else failures w).

(** The [while let] loop; [fuel] bounds it and the number of entries is enough.

    Source: crates/common/xai-circuit-breaker/src/window.rs:45-54, [SlidingWindow::evict]. *)
Fixpoint evict_loop (fuel : nat) (cutoff : N) (w : SlidingWindow) : SlidingWindow :=
  match fuel with
  | 0 => w
  | S fuel' =>
      match entries w with
      | (ts, _) :: _ => if N.ltb ts cutoff then evict_loop fuel' cutoff (pop_front w) else w
      | [] => w
      end
  end.

(** [now.checked_sub(window)] is [None] below the clock's origin.

    Source: crates/common/xai-circuit-breaker/src/window.rs:41-55, [SlidingWindow::evict]. *)
Definition window_evict (w : SlidingWindow) (window now : N) : SlidingWindow :=
  if N.ltb now window then w
  else evict_loop (S (length (entries w))) (now - window) w.

(** Source: crates/common/xai-circuit-breaker/src/window.rs:57-62, [SlidingWindow::error_rate]. *)
Definition window_error_rate (w : SlidingWindow) : f64 :=
  if is_empty (entries w) then f64_of_N 0
  else f64_div (f64_of_N (failures w)) (f64_of_N (N.of_nat (length (entries w)))).

(** Source: crates/common/xai-circuit-breaker/src/window.rs:64-66, [SlidingWindow::sample_count]. *)
Definition window_sample_count (w : SlidingWindow) : N := N.of_nat (length (entries w)).

(** Source: crates/common/xai-circuit-breaker/src/window.rs:68-71, [SlidingWindow::clear]. *)
Definition window_clear (w : SlidingWindow) : SlidingWindow := mkWindow [] 0.

(** ** Classification of responses *)

(** Source: crates/common/xai-circuit-breaker/src/retry_policy.rs:13-21, [Disposition]. *)
Inductive Disposition := Retryable | AuthRefresh | Terminal.

#[export] Instance Disposition_eq_dec : EqDecision Disposition.
Proof. solve_decision. Defined.

(** Source: crates/common/xai-circuit-breaker/src/retry_policy.rs:24-29, [RetryPolicy]. *)
Record RetryPolicy := mkRetryPolicy {
  retryable : list N; auth_refresh : list N; terminal : list N; default_disposition : Disposition;
}.

Definition mem (x : N) (l : list N) : bool := existsb (N.eqb x) l.

(** Source: crates/common/xai-circuit-breaker/src/retry_policy.rs:35-49, [RetryPolicy::classify]. *)
Definition classify (self : RetryPolicy) (status : N) : option Disposition :=
  if N.leb 200 status && N.ltb status 300 then None
  else if mem status (auth_refresh self) then Some AuthRefresh
  else if mem status (terminal self) then Some Terminal
  else if mem status (retryable self) || (N.leb 500 status && N.ltb status 600) then Some Retryable
  else Some (default_disposition self).

(** Source: crates/common/xai-circuit-breaker/src/retry_policy.rs:52-54, [RetryPolicy::should_retry]. *)
Definition should_retry (self : RetryPolicy) (status : N) : bool :=
  match classify self status with Some Retryable => true | _ => false end.

(** Source: crates/common/xai-circuit-breaker/src/retry_policy.rs:58-65, [RetryPolicy::server]. *)
Definition policy_server : RetryPolicy := mkRetryPolicy [429%N] [] [] Terminal.

(** Source: crates/common/xai-circuit-breaker/src/retry_policy.rs:71-78, [RetryPolicy::edge_client]. *)
Definition policy_edge_client : RetryPolicy := mkRetryPolicy [429%N] [] [525; 526]%N Terminal.

(** Source: crates/common/xai-circuit-breaker/src/retry_policy.rs:84-91, [RetryPolicy::client_storage]. *)
Definition policy_client_storage : RetryPolicy :=
  mkRetryPolicy [] [401%N] [400; 403; 404; 525; 526]%N Retryable.

(** [tonic::Code] by number: [Ok] is 0, [Unknown] 2, [DeadlineExceeded] 4,
    [Internal] 13, [Unavailable] 14.

    Source: crates/common/xai-circuit-breaker/src/grpc.rs:8-10, [GrpcRetryPolicy]. *)
Record GrpcRetryPolicy := mkGrpcPolicy { grpc_retryable : list N }.

(** Source: crates/common/xai-circuit-breaker/src/grpc.rs:40-42, [GrpcRetryPolicy::is_retryable]. *)
Definition grpc_is_retryable (self : GrpcRetryPolicy) (code : N) : bool := mem code (grpc_retryable self).

(** Source: crates/common/xai-circuit-breaker/src/grpc.rs:31-37, [GrpcRetryPolicy::classify]. *)
Definition grpc_classify (self : GrpcRetryPolicy) (code : N) : option Disposition :=
  if N.eqb code 0 then None
  else if grpc_is_retryable self code then Some Retryable
  else Some Terminal.

(** Source: crates/common/xai-circuit-breaker/src/grpc.rs:15-15, [GrpcRetryPolicy::DEFAULT]. *)
Definition grpc_default : GrpcRetryPolicy := mkGrpcPolicy [14; 2]%N.

(** Source: crates/common/xai-circuit-breaker/src/grpc.rs:18-28, [GrpcRetryPolicy::PERMISSIVE]. *)
Definition grpc_permissive : GrpcRetryPolicy := mkGrpcPolicy [14; 2; 13; 4]%N.

(** ** Window lemmas *)

Definition failure_count (l : list (N * bool)) : N := N.of_nat (length (List.filter snd l)).

(** The window is well formed when the cached counter is the number of failed
    entries and the cap holds. *)
Definition window_ok (w : SlidingWindow) : Prop :=
  failures w = failure_count (entries w) ∧ length (entries w) ≤ MAX_WINDOW_ENTRIES.

Lemma MAX_WINDOW_ENTRIES_N : N.of_nat MAX_WINDOW_ENTRIES = 10000%N.
Proof. apply N2Nat.id. Qed.

Lemma usize_pred_pos n : (0 < n <= u64_max)%N -> usize_pred n = (n - 1)%N.
Proof.
  intros. unfold usize_pred, wrap64.
  replace (n + u64_max)%N with ((n - 1) + 1 * 18446744073709551616)%N by lia.
  rewrite N.Div0.mod_add. apply N.mod_small. lia.
Qed.

Lemma failure_count_cons e l : failure_count (e :: l) = ((if e.2 then 1 else 0) + failure_count l)%N.
Proof. unfold failure_count. simpl. destruct e.2; simpl; lia. Qed.

Lemma failure_count_snoc e l : failure_count (l ++ [e]) = (failure_count l + (if e.2 then 1 else 0))%N.
Proof. unfold failure_count. rewrite List.filter_app, length_app. simpl. destruct e.2; simpl; lia. Qed.

Lemma failure_count_le l : (failure_count l <= N.of_nat (length l))%N.
Proof. unfold failure_count. pose proof (List.filter_length_le snd l). lia. Qed.

Lemma pop_front_ok w : window_ok w -> window_ok (pop_front w).
Proof.
  intros [Hf Hl]. pose proof MAX_WINDOW_ENTRIES_N as Hmax. unfold pop_front. destruct w as [[|[ts b] rest] f]; [done|].
  simpl in *. rewrite failure_count_cons in Hf. pose proof (failure_count_le rest). simpl in Hf.
  split; simpl; [|lia]. destruct b; [|lia]. rewrite usize_pred_pos; lia.
Qed.

Lemma pop_front_length w : length (entries (pop_front w)) = pred (length (entries w)).
Proof. unfold pop_front. by destruct (entries w) as [|[ts b] rest] eqn:E; simpl; rewrite ?E. Qed.

Lemma window_push_ok w b t : window_ok w -> window_ok (window_push w b t).
Proof.
  intros Hw. pose proof MAX_WINDOW_ENTRIES_N as Hmax. unfold window_push.
  assert (Hok : window_ok (make_room w) ∧ length (entries (make_room w)) < MAX_WINDOW_ENTRIES).
  { unfold make_room. destruct (Nat.leb_spec MAX_WINDOW_ENTRIES (length (entries w))) as [Hge|Hlt]; [|done].
    split; [by apply pop_front_ok|]. rewrite pop_front_length. destruct Hw as [_ Hl]. lia. }
  destruct Hok as [[Hf Hl] Hlt]. set (w' := make_room w) in *.
  pose proof (failure_count_le (entries w')). split; simpl.
  - rewrite failure_count_snoc. simpl. destruct b; [rewrite wrap64_small; lia|lia].
  - rewrite length_app. simpl. lia.
Qed.

Lemma evict_loop_ok fuel cutoff w : window_ok w -> window_ok (evict_loop fuel cutoff w).
Proof.
  revert w. induction fuel as [|fuel IH]; intros w Hw; simpl; [done|].
  destruct (entries w) as [|[ts b] rest]; [done|]. destruct (N.ltb ts cutoff); [|done].
  by apply IH, pop_front_ok.
Qed.

Lemma window_evict_ok w d now : window_ok w -> window_ok (window_evict w d now).
Proof. intros Hw. unfold window_evict. destruct (N.ltb now d); [done|]. by apply evict_loop_ok. Qed.

Lemma window_clear_ok w : window_ok (window_clear w).
Proof. split; simpl; [done|lia]. Qed.

Lemma window_new_ok : window_ok window_new.
Proof. split; simpl; [done|lia]. Qed.

(** The loop drops exactly the leading stale entries. *)
Lemma evict_loop_entries fuel cutoff w :
  length (entries w) < fuel ->
  entries (evict_loop fuel cutoff w) = drop_while (fun e => N.ltb e.1 cutoff) (entries w).
Proof.
  revert w. induction fuel as [|fuel IH]; intros w Hf; [lia|]. simpl.
  destruct (entries w) as [|[ts b] rest] eqn:E; [by rewrite E|]. simpl.
  destruct (N.ltb ts cutoff); [|by rewrite E].
  assert (Hpop : entries (pop_front w) = rest) by (unfold pop_front; by rewrite E).
  rewrite IH; rewrite Hpop; [done|simpl in Hf; lia].
Qed.

(** Time-ordered samples: pushing at the current time keeps them so. *)
Definition window_sorted (w : SlidingWindow) (now : N) : Prop :=
  StronglySorted (fun a b => (a.1 <= b.1)%N) (entries w) ∧ Forall (fun e => (e.1 <= now)%N) (entries w).

(** The sliding window keeps its cached failure counter exact and its size
    within the cap through every operation, without underflow, and eviction
    keeps exactly the samples younger than the window when samples arrive in
    time order. *)
Theorem sliding_window_correct w is_failure now d :
  window_ok w -> window_sorted w now -> (d <= now)%N ->
  let w' := window_evict (window_push w is_failure now) d now in
  window_ok w' ∧ window_sorted w' now ∧
  entries w' = List.filter (fun e => N.leb (now - d) e.1) (entries (window_push w is_failure now)).
Proof.
  intros Hok [Hsorted Hle] Hd w'.
  assert (Hpush : window_sorted (window_push w is_failure now) now).
  { unfold window_push. set (w0 := make_room w).
    assert (Hw0 : window_sorted w0 now).
    { unfold w0, make_room, window_sorted. destruct (Nat.leb _ _); [|done]. unfold pop_front.
      destruct (entries w) as [|[ts b] rest] eqn:E; [by rewrite E|]. simpl.
      by apply StronglySorted_inv in Hsorted as [? _]; apply Forall_cons in Hle as [_ ?]. }
    destruct Hw0 as [Hs0 Hl0]. unfold window_sorted. simpl. split.
    - clear -Hs0 Hl0. induction (entries w0) as [|e l IH]; simpl; [by repeat constructor|].
      apply StronglySorted_inv in Hs0 as [Hs He]. apply Forall_cons in Hl0 as [Hnow Hl].
      constructor; [by apply IH|]. apply Forall_app. split; [done|by repeat constructor].
    - apply Forall_app. split; [done|]. repeat constructor. simpl. lia. }
  pose proof (window_evict_ok (window_push w is_failure now) d now (window_push_ok _ _ _ Hok)) as Hok'.
  unfold w', window_evict in *. destruct (N.ltb_spec now d) as [|_]; [lia|].
  destruct Hpush as [Hs Hl]. unfold window_sorted. rewrite evict_loop_entries in * by lia.
  set (l := entries (window_push w is_failure now)) in *.
  assert (Hfilter : drop_while (fun e => N.ltb e.1 (now - d)) l = List.filter (fun e => N.leb (now - d) e.1) l).
  { clear -Hs. induction l as [|e l IH]; simpl; [done|]. apply StronglySorted_inv in Hs as [Hs He].
    destruct (N.ltb_spec e.1 (now - d)) as [Hlt|Hge], (N.leb_spec (now - d) e.1) as [Hle'|Hgt]; try lia; [by apply IH|].
    f_equal. symmetry. clear IH Hs. induction He as [|x l Hx _ IH]; simpl; [done|].
    destruct (N.leb_spec (now - d) x.1); [by f_equal|lia]. }
  split_and!; [done| | |done].
  - clear -Hs. induction l as [|e l IH]; simpl; [done|].
    destruct (N.ltb e.1 (now - d)); [|done]. apply StronglySorted_inv in Hs as [? _]. by apply IH.
  - clear -Hl. induction Hl as [|e l He Hl IH]; simpl; [done|].
    destruct (N.ltb e.1 (now - d)); [done|by constructor].
Qed.

Lemma sliding_window_correct_witness :
  let w := mkWindow [(5, true); (10, false)]%N 1 in
  let w' := window_evict (window_push w true 100) 50 100 in
  window_ok w' ∧ window_sorted w' 100 ∧
  entries w' = List.filter (fun e => N.leb (100 - 50) e.1) (entries (window_push w true 100)).
Proof.
  apply sliding_window_correct; [|split; repeat constructor; simpl; lia|lia].
  split; [reflexivity|]. simpl. apply Nat.leb_le. vm_compute. reflexivity.
Defined.
