(* ===== verification/Breaker.v ===== *)
(** * Circuit breaker: the state machine

    [crates/common/xai-circuit-breaker/src/breaker.rs] and [registry.rs]. Every
    method is a program over the breaker's shared cells: one [Atom] per atomic
    access, per critical section of the window's mutex, per clock reading and
    per observer call. [run] executes a program alone (this file's theorems);
    [BreakerRace] interleaves several. Memory orderings are not modelled: the
    atoms are sequentially consistent. *)

From S2P Require Export BreakerWindow.

(** ** Programs *)

(** An atom changes the state and continues with what it saw before. *)
Inductive prog (S A : Type) :=
  | Ret (a : A)
  | Atom (f : S -> S) (k : S -> prog S A).
Arguments Ret {_ _} _.
Arguments Atom {_ _} _ _.

Fixpoint prog_bind {S A B} (k : A -> prog S B) (m : prog S A) : prog S B :=
  match m with
  | Ret a => k a
  | Atom f c => Atom f (fun s => prog_bind k (c s))
  end.

#[export] Instance prog_ret S : MRet (prog S) := fun A x => Ret x.
#[export] Instance prog_mbind S : MBind (prog S) := fun A B k m => prog_bind k m.

Fixpoint run {S A} (m : prog S A) (s : S) : A * S :=
  match m with
  | Ret a => (a, s)
  | Atom f k => run (k s) (f s)
  end.

Definition load {S A} (g : S -> A) : prog S A := Atom (fun s => s) (fun s => Ret (g s)).
Definition update {S} (f : S -> S) : prog S unit := Atom f (fun _ => Ret tt).

(** ** The shared cells *)

(** The observer's calls.

    Source: crates/common/xai-circuit-breaker/src/observer.rs:14-29, [Observer]. *)
Inductive BreakerEvent :=
  | OnStateChange (old new : BreakerState) (reason : str)
  | OnProbeAdmission (allowed : bool)
  | OnOutcome (outcome : Outcome) (status : BreakerState).

(** [clock_ns] is the reading of the [Clock]; [events] what the observer saw.

    Source: crates/common/xai-circuit-breaker/src/breaker.rs:23-50, [CircuitBreakerInner]. *)
Record Shared := mkShared {
  state : N;
  opened_at_millis : N;
  half_open_probes : N;
  probe_claimed_at_millis : N;
  is_open_fast : bool;
  window : SlidingWindow;
  clock_ns : N;
  events : list BreakerEvent;
}.

Definition set_state v s := mkShared v (opened_at_millis s) (half_open_probes s) (probe_claimed_at_millis s) (is_open_fast s) (window s) (clock_ns s) (events s).
Definition set_opened v s := mkShared (state s) v (half_open_probes s) (probe_claimed_at_millis s) (is_open_fast s) (window s) (clock_ns s) (events s).
Definition set_probes v s := mkShared (state s) (opened_at_millis s) v (probe_claimed_at_millis s) (is_open_fast s) (window s) (clock_ns s) (events s).
Definition set_claimed v s := mkShared (state s) (opened_at_millis s) (half_open_probes s) v (is_open_fast s) (window s) (clock_ns s) (events s).
Definition set_fast v s := mkShared (state s) (opened_at_millis s) (half_open_probes s) (probe_claimed_at_millis s) v (window s) (clock_ns s) (events s).
Definition set_window v s := mkShared (state s) (opened_at_millis s) (half_open_probes s) (probe_claimed_at_millis s) (is_open_fast s) v (clock_ns s) (events s).
Definition set_clock v s := mkShared (state s) (opened_at_millis s) (half_open_probes s) (probe_claimed_at_millis s) (is_open_fast s) (window s) v (events s).
Definition add_event e s := mkShared (state s) (opened_at_millis s) (half_open_probes s) (probe_claimed_at_millis s) (is_open_fast s) (window s) (clock_ns s) (events s ++ [e]).

(** The clamp of the configuration.

    Source: crates/common/xai-circuit-breaker/src/breaker.rs:61-61, [CircuitBreaker::with_clock]. *)
Definition effective_config (config : BreakerConfig) : BreakerConfig :=
  mkBreakerConfig (window_duration config) (min_samples config) (error_rate_threshold config)
    (open_duration config) (N.max (half_open_max_probes config) 1) (failure_codes config) (cb_enabled config).

(** A breaker made when the clock shows [now]: its cells, with [now] as the
    baseline.

    Source: crates/common/xai-circuit-breaker/src/breaker.rs:60-77, [CircuitBreaker::with_clock]. *)
Definition breaker_new (now : N) : Shared :=
  mkShared (state_as_u8 Closed) 0 0 0 false window_new now [].

(** ** The methods *)

Section breaker.
Variable (config : BreakerConfig) (baseline : N).

Abbreviation P := (prog Shared).

Definition observe (e : BreakerEvent) : P unit := update (add_event e).

Definition clock_now : P N := load clock_ns.

(** Source: crates/common/xai-circuit-breaker/src/breaker.rs:195-201, [CircuitBreaker::elapsed_millis]. *)
Definition elapsed_millis : P N := now ← clock_now; mret (as_millis (now - baseline)).

(** Source: crates/common/xai-circuit-breaker/src/breaker.rs:149-151, [CircuitBreaker::state]. *)
Definition load_state : P BreakerState := v ← load state; mret (state_from_u8 v).

(** Source: crates/common/xai-circuit-breaker/src/breaker.rs:155-157, [CircuitBreaker::is_open]. *)
Definition is_open : P bool := load is_open_fast.

(** [compare_exchange] on the state byte.

    Source: crates/common/xai-circuit-breaker/src/breaker.rs:322-327, [CircuitBreaker::cas_state]. *)
Definition cas_state (from to : BreakerState) : P bool :=
  Atom (fun s => if N.eqb (state s) (state_as_u8 from) then set_state (state_as_u8 to) s else s)
       (fun s => Ret (N.eqb (state s) (state_as_u8 from))).

(** [fetch_add(1)] and [fetch_sub(1)] on a [usize] wrap. *)
Definition fetch_add_probes : P N :=
  Atom (fun s => set_probes (wrap64 (half_open_probes s + 1)) s) (fun s => Ret (half_open_probes s)).
Definition fetch_sub_probes : P N :=
  Atom (fun s => set_probes (usize_pred (half_open_probes s)) s) (fun s => Ret (half_open_probes s)).

Definition cas_claimed (claimed now : N) : P bool :=
  Atom (fun s => if N.eqb (probe_claimed_at_millis s) claimed then set_claimed now s else s)
       (fun s => Ret (N.eqb (probe_claimed_at_millis s) claimed)).

Definition HALF_OPEN_PROBE_BACKOFF : N := from_millis 50.

(** Source: crates/common/xai-circuit-breaker/src/breaker.rs:277-320, [CircuitBreaker::try_half_open_probe]. *)
Definition try_half_open_probe : P (result unit BreakerOpen) :=
  now ← elapsed_millis;
  prev ← fetch_add_probes;
  if N.ltb prev (half_open_max_probes config) then
    _ ← update (set_claimed now);
    _ ← observe (OnProbeAdmission true);
    mret (Ok tt)
  else
    _ ← fetch_sub_probes;
    let lease_millis := as_millis (open_duration config) in
    claimed ← load probe_claimed_at_millis;
    taken ← (if N.leb lease_millis (now - claimed) then cas_claimed claimed now else mret false);
    if (taken : bool) then
      _ ← observe (OnProbeAdmission true);
      mret (Ok tt)
    else
      _ ← observe (OnProbeAdmission false);
      mret (Err (mkBreakerOpen (N.min HALF_OPEN_PROBE_BACKOFF (open_duration config)))).

(** Source: crates/common/xai-circuit-breaker/src/breaker.rs:203-246, [CircuitBreaker::check_open]. *)
Definition check_open : P (result unit BreakerOpen) :=
  opened ← load opened_at_millis;
  now ← elapsed_millis;
  let elapsed := from_millis (now - opened) in
  if N.leb (open_duration config) elapsed then
    won ← cas_state Open HalfOpen;
    if (won : bool) then
      _ ← update (set_fast false);
      _ ← observe (OnStateChange Open HalfOpen (lit "open_elapsed"));
      try_half_open_probe
    else
      st ← load_state;
      match st with
      | Closed => mret (Ok tt)
      | HalfOpen => try_half_open_probe
      | Open =>
          opened ← load opened_at_millis;
          now ← elapsed_millis;
          let elapsed := from_millis (now - opened) in
          mret (Err (mkBreakerOpen (open_duration config - elapsed)))
      end
  else mret (Err (mkBreakerOpen (open_duration config - elapsed))).

(** Source: crates/common/xai-circuit-breaker/src/breaker.rs:97-106, [CircuitBreaker::check]. *)
Definition check : P (result unit BreakerOpen) :=
  if negb (cb_enabled config) then mret (Ok tt)
  else
    st ← load_state;
    match st with
    | Closed => mret (Ok tt)
    | Open => check_open
    | HalfOpen => try_half_open_probe
    end.

(** Source: crates/common/xai-circuit-breaker/src/breaker.rs:248-262, [CircuitBreaker::trip]. *)
Definition trip (prev : BreakerState) (reason : str) : P unit :=
  _ ← update (set_state (state_as_u8 Open));
  now ← elapsed_millis;
  _ ← update (set_opened now);
  _ ← update (set_probes 0);
  _ ← update (set_fast true);
  if bool_decide (prev ≠ Open) then observe (OnStateChange prev Open reason) else mret tt.

(** Source: crates/common/xai-circuit-breaker/src/breaker.rs:264-275, [CircuitBreaker::close]. *)
Definition close (prev : BreakerState) (reason : str) : P unit :=
  _ ← update (set_state (state_as_u8 Closed));
  _ ← update (fun s => set_window (window_clear (window s)) s);
  _ ← update (set_probes 0);
  _ ← update (set_fast false);
  if bool_decide (prev ≠ Closed) then observe (OnStateChange prev Closed reason) else mret tt.

Definition pushed (w : SlidingWindow) (is_failure : bool) (now : N) : SlidingWindow :=
  window_evict (window_push w is_failure now) (window_duration config) now.

(** Source: crates/common/xai-circuit-breaker/src/breaker.rs:123-124, [CircuitBreaker::record]. *)
Definition trips (w : SlidingWindow) : bool :=
  N.leb (min_samples config) (window_sample_count w) && f64_le (error_rate_threshold config) (window_error_rate w).

(** The critical section: push, evict and, when closed, the trip decision. *)
Definition record_sample (is_failure : bool) (now : N) : P bool :=
  Atom (fun s => set_window (pushed (window s) is_failure now) s)
       (fun s => Ret (trips (pushed (window s) is_failure now))).

(** Source: crates/common/xai-circuit-breaker/src/breaker.rs:109-146, [CircuitBreaker::record]. *)
Definition record (outcome : Outcome) : P unit :=
  if negb (cb_enabled config) then mret tt
  else
    let is_failure := match outcome with Failure => true | Success => false end in
    now ← clock_now;
    prev_state ← load_state;
    _ ← match prev_state with
        | Closed =>
            should_trip ← record_sample is_failure now;
            if (should_trip : bool) then trip prev_state (lit "trip") else mret tt
        | HalfOpen =>
            if is_failure then trip prev_state (lit "probe_failure")
            else close prev_state (lit "probe_success")
        | Open => _ ← record_sample is_failure now; mret tt
        end;
    new_state ← load_state;
    observe (OnOutcome outcome new_state).

(** Source: crates/common/xai-circuit-breaker/src/breaker.rs:163-168, [CircuitBreaker::error_rate]. *)
Definition error_rate : P f64 :=
  now ← clock_now;
  Atom (fun s => set_window (window_evict (window s) (window_duration config) now) s)
       (fun s => Ret (window_error_rate (window_evict (window s) (window_duration config) now))).

(** The test hook.

    Source: crates/common/xai-circuit-breaker/src/breaker.rs:177-189, [CircuitBreaker::force_half_open]. *)
Definition force_half_open : P unit :=
  prev ← load_state;
  _ ← update (set_state (state_as_u8 HalfOpen));
  _ ← update (set_fast false);
  _ ← update (set_probes 0);
  if bool_decide (prev ≠ HalfOpen) then observe (OnStateChange prev HalfOpen (lit "force_half_open")) else mret tt.
End breaker.

(** Source: crates/common/xai-circuit-breaker/src/breaker.rs:171-173, [CircuitBreaker::is_failure_status]. *)
Definition breaker_is_failure_status (config : BreakerConfig) (status : N) : bool := is_failure_status config status.

(** ** The registry *)

(** [Arc]s are addresses of a heap of breakers, each with its baseline; the
    clock is the system's.

    Source: crates/common/xai-circuit-breaker/src/registry.rs:10-13, [CircuitBreakerRegistry]. *)
Record CircuitBreakerRegistry := mkRegistry {
  reg_config : BreakerConfig;
  breakers : gmap str nat;
  heap : list (N * Shared);
}.

(** Source: crates/common/xai-circuit-breaker/src/registry.rs:16-21, [CircuitBreakerRegistry::new]. *)
Definition registry_new (config : BreakerConfig) : CircuitBreakerRegistry := mkRegistry config ∅ [].

(** Source: crates/common/xai-circuit-breaker/src/registry.rs:25-37, [CircuitBreakerRegistry::get]. *)
Definition registry_get (r : CircuitBreakerRegistry) (key : str) (now : N) : option nat * CircuitBreakerRegistry :=
  if negb (cb_enabled (reg_config r)) then (None, r)
  else
    match breakers r !! key with
    | Some cb => (Some cb, r)
    | None =>
        let cb := length (heap r) in
        (Some cb, mkRegistry (reg_config r) (<[key := cb]> (breakers r)) (heap r ++ [(now, breaker_new now)]))
    end.

(** ** Programs run alone: the reference machine *)

Section alone.
Variable (config : BreakerConfig) (baseline : N).

(** The millisecond reading the breaker compares. *)
Definition ms (s : Shared) : N := as_millis (clock_ns s - baseline).

(** What [try_half_open_probe] decides. *)
Definition probe_ref (s : Shared) : result unit BreakerOpen * Shared :=
  if N.ltb (half_open_probes s) (half_open_max_probes config) then
    (Ok tt, add_event (OnProbeAdmission true) (set_claimed (ms s) (set_probes (half_open_probes s + 1) s)))
  else if N.leb (as_millis (open_duration config)) (ms s - probe_claimed_at_millis s) then
    (Ok tt, add_event (OnProbeAdmission true) (set_claimed (ms s) s))
  else
    (Err (mkBreakerOpen (N.min HALF_OPEN_PROBE_BACKOFF (open_duration config))),
     add_event (OnProbeAdmission false) s).

Definition check_ref (s : Shared) : result unit BreakerOpen * Shared :=
  match state_from_u8 (state s) with
  | Closed => (Ok tt, s)
  | HalfOpen => probe_ref s
  | Open =>
      let elapsed := from_millis (ms s - opened_at_millis s) in
      if N.leb (open_duration config) elapsed then
        probe_ref (add_event (OnStateChange Open HalfOpen (lit "open_elapsed"))
                     (set_fast false (set_state (state_as_u8 HalfOpen) s)))
      else (Err (mkBreakerOpen (open_duration config - elapsed)), s)
  end.

Definition trip_ref (prev : BreakerState) (reason : str) (s : Shared) : Shared :=
  add_event (OnStateChange prev Open reason)
    (set_fast true (set_probes 0 (set_opened (ms s) (set_state (state_as_u8 Open) s)))).

Definition close_ref (prev : BreakerState) (reason : str) (s : Shared) : Shared :=
  add_event (OnStateChange prev Closed reason)
    (set_fast false (set_probes 0 (set_window window_new (set_state (state_as_u8 Closed) s)))).

Definition record_ref (outcome : Outcome) (s : Shared) : Shared :=
  let is_failure := match outcome with Failure => true | Success => false end in
  let s' :=
    match state_from_u8 (state s) with
    | Closed =>
        let w := pushed config (window s) is_failure (clock_ns s) in
        if trips config w then trip_ref Closed (lit "trip") (set_window w s) else set_window w s
    | HalfOpen =>
        if is_failure then trip_ref HalfOpen (lit "probe_failure") s
        else close_ref HalfOpen (lit "probe_success") s
    | Open => set_window (pushed config (window s) is_failure (clock_ns s)) s
    end in
  add_event (OnOutcome outcome (state_from_u8 (state s'))) s'.

(** The invariant of a breaker nobody else is using. *)
Record breaker_ok (s : Shared) : Prop := {
  ok_state : ∃ st, state s = state_as_u8 st;
  ok_fast : is_open_fast s = N.eqb (state s) (state_as_u8 Open);
  ok_window : window_ok (window s);
  ok_probes : (half_open_probes s <= half_open_max_probes config)%N;
  ok_open_probes : state s = state_as_u8 Open -> half_open_probes s = 0%N;
  ok_clock : (baseline <= clock_ns s)%N ∧ ((clock_ns s - baseline) / 1000000 <= u64_max)%N;
  ok_opened : (opened_at_millis s <= ms s)%N;
  ok_claimed : (probe_claimed_at_millis s <= ms s)%N;
}.

(** The configuration as [with_clock] leaves it. *)
Definition config_ok : Prop :=
  cb_enabled config = true ∧ (1 <= half_open_max_probes config < u64_max)%N.

Lemma run_bind {S A B} (m : prog S A) (k : A -> prog S B) s :
  run (m ≫= k) s = let '(a, s') := run m s in run (k a) s'.
Proof. revert s. induction m as [a|f c IH]; intros s; [done|]. simpl. apply IH. Qed.

Lemma state_from_as st : state_from_u8 (state_as_u8 st) = st.
Proof. by destruct st. Qed.

Lemma usize_pred_succ n : (n < u64_max)%N -> usize_pred (wrap64 (n + 1)) = n.
Proof. intros. rewrite wrap64_small by lia. rewrite usize_pred_pos; lia. Qed.

Lemma set_probes_twice a b s : set_probes a (set_probes b s) = set_probes a s.
Proof. done. Qed.

Lemma set_probes_same s : set_probes (half_open_probes s) s = s.
Proof. by destruct s. Qed.

Lemma probe_alone s :
  config_ok -> (half_open_probes s <= half_open_max_probes config)%N ->
  run (try_half_open_probe config baseline) s = probe_ref s.
Proof.
  intros [_ Hmax] Hp. unfold probe_ref. unfold try_half_open_probe, elapsed_millis, fetch_add_probes. simpl. fold (ms s).
  destruct (N.ltb_spec (half_open_probes s) (half_open_max_probes config)) as [Hlt|Hge]; simpl.
  - by rewrite wrap64_small by lia.
  - rewrite usize_pred_succ by lia. rewrite set_probes_twice, set_probes_same.
    destruct (N.leb _ _); simpl; [by rewrite N.eqb_refl|done].
Qed.

Lemma check_open_alone s :
  config_ok -> state s = state_as_u8 Open -> half_open_probes s = 0%N ->
  run (check_open config baseline) s = check_ref s.
Proof.
  intros Hc Hs Hp. unfold check_ref. rewrite Hs, state_from_as.
  unfold check_open, elapsed_millis.
  remember (try_half_open_probe config baseline) as probe eqn:Hprobe. simpl. fold (ms s).
  destruct (N.leb _ _); [|done]. simpl. rewrite Hs. simpl. subst probe.
  apply probe_alone; [done|simpl; destruct Hc; lia].
Qed.

Lemma check_eq_ref s : config_ok -> breaker_ok s -> run (check config baseline) s = check_ref s.
Proof.
  intros Hc Hok. destruct (ok_state _ Hok) as [st Hst]. unfold check. rewrite (proj1 Hc). simpl.
  rewrite Hst, state_from_as. destruct st.
  - unfold check_ref. by rewrite Hst.
  - apply check_open_alone; [done|done|by apply ok_open_probes].
  - unfold check_ref. rewrite Hst, state_from_as. apply probe_alone; [done|]. apply Hok.
Qed.

Lemma trip_alone prev reason s : prev ≠ Open -> run (trip baseline prev reason) s = (tt, trip_ref prev reason s).
Proof. intros Hp. unfold trip, elapsed_millis. simpl. by destruct prev. Qed.

Lemma close_alone prev reason s : prev ≠ Closed -> run (close prev reason) s = (tt, close_ref prev reason s).
Proof. intros Hp. unfold close. simpl. by destruct prev. Qed.

Lemma record_eq_ref outcome s : config_ok -> breaker_ok s -> run (record config baseline outcome) s = (tt, record_ref outcome s).
Proof.
  intros [He _] Hok. destruct (ok_state _ Hok) as [st Hst]. unfold record, record_ref. rewrite He. cbn [negb].
  rewrite !run_bind. cbn [run clock_now load]. rewrite !run_bind. cbn [run load_state load prog_mbind mbind prog_bind mret prog_ret].
  rewrite Hst, state_from_as, run_bind. destruct st.
  - rewrite run_bind. cbn [run record_sample].
    destruct (trips config _); [rewrite trip_alone by done|]; done.
  - rewrite run_bind. done.
  - destruct outcome; [rewrite close_alone by done|rewrite trip_alone by done]; done.
Qed.

(** ** The invariant *)

Lemma breaker_new_ok now : (now / 1000000 <= u64_max)%N -> baseline = now -> breaker_ok (breaker_new now).
Proof.
  intros Hn Hb. split; simpl; try done; try lia.
  - by exists Closed.
  - apply window_new_ok.
  - rewrite Hb, N.sub_diag. split; [lia|vm_compute; discriminate].
Qed.

Lemma ok_add_event e s : breaker_ok s -> breaker_ok (add_event e s).
Proof. by intros []; split. Qed.

Lemma ok_set_window w s : window_ok w -> breaker_ok s -> breaker_ok (set_window w s).
Proof. by intros Hw []; split. Qed.

Lemma pushed_ok w b now : window_ok w -> window_ok (pushed config w b now).
Proof. intros. by apply window_evict_ok, window_push_ok. Qed.

Lemma ok_probe s :
  config_ok -> breaker_ok s -> state s = state_as_u8 HalfOpen -> breaker_ok (probe_ref s).2.
Proof.
  intros [_ Hc] [] Hs. unfold probe_ref.
  destruct (N.ltb_spec (half_open_probes s) (half_open_max_probes config));
    [|destruct (N.leb _ _)]; apply ok_add_event; split; simpl; try done; try lia; rewrite Hs; done.
Qed.

Lemma ok_to_half_open e s :
  breaker_ok s -> breaker_ok (add_event e (set_fast false (set_state (state_as_u8 HalfOpen) s))).
Proof. intros Hok. apply ok_add_event. destruct Hok. split; simpl; try done. by exists HalfOpen. Qed.

Lemma ok_trip prev reason s : breaker_ok s -> breaker_ok (trip_ref prev reason s).
Proof.
  intros []. apply ok_add_event. split; simpl; try done; try lia. by exists Open.
Qed.

Lemma ok_close prev reason s : breaker_ok s -> breaker_ok (close_ref prev reason s).
Proof.
  intros []. apply ok_add_event. split; simpl; try done; try lia; [by exists Closed|apply window_new_ok].
Qed.

Lemma check_ok_step s : config_ok -> breaker_ok s -> breaker_ok (check_ref s).2.
Proof.
  intros Hc Hok. unfold check_ref. destruct (ok_state _ Hok) as [st Hst]. rewrite Hst, state_from_as.
  destruct st; [done| |by apply ok_probe].
  destruct (N.leb _ _); [|done]. by apply ok_probe, eq_refl; [|apply ok_to_half_open].
Qed.

Lemma record_ok_step outcome s : breaker_ok s -> breaker_ok (record_ref outcome s).
Proof.
  intros Hok. unfold record_ref. apply ok_add_event.
  assert (Hw : ∀ b, breaker_ok (set_window (pushed config (window s) b (clock_ns s)) s)).
  { intros b. apply ok_set_window; [|done]. by apply pushed_ok, Hok. }
  destruct (state_from_u8 (state s)); [destruct (trips config _); [by apply ok_trip|done]|done|].
  destruct outcome; [by apply ok_close|by apply ok_trip].
Qed.

(** The clock moves forward, within the range of a [u64] of milliseconds. *)
Lemma tick_ok t s :
  breaker_ok s -> (clock_ns s <= t)%N -> ((t - baseline) / 1000000 <= u64_max)%N ->
  breaker_ok (set_clock t s).
Proof.
  intros [] Ht Hmax.
  assert (Hms : (ms s <= ms (set_clock t s))%N).
  { unfold ms, as_millis. simpl. rewrite !wrap64_small; [|done|apply ok_clock0].
    apply N.Div0.div_le_mono. lia. }
  split; simpl; try done; try lia.
Qed.

(** One use of the breaker at a time. *)
Inductive alone_step : Shared -> Shared -> Prop :=
  | step_check s : alone_step s (run (check config baseline) s).2
  | step_record o s : alone_step s (run (record config baseline o) s).2
  | step_error_rate s : alone_step s (run (error_rate config) s).2
  | step_tick t s :
      (clock_ns s <= t)%N -> ((t - baseline) / 1000000 <= u64_max)%N -> alone_step s (set_clock t s).

Lemma alone_step_ok s s' : config_ok -> breaker_ok s -> alone_step s s' -> breaker_ok s'.
Proof.
  intros Hc Hok Hstep. destruct Hstep as [s|o s|s|t s Ht Hm].
  - rewrite check_eq_ref by done. by apply check_ok_step.
  - rewrite record_eq_ref by done. by apply record_ok_step.
  - apply ok_set_window; [|done]. by apply window_evict_ok, Hok.
  - by apply tick_ok.
Qed.

Lemma alone_ok s s' : config_ok -> breaker_ok s -> rtc alone_step s s' -> breaker_ok s'.
Proof. intros Hc Hok Hr. induction Hr as [|s s1 s2 Hs _ IH]; [done|]. by apply IH, (alone_step_ok s). Qed.

(** Whole milliseconds: a span of [d] ns and one more millisecond covers at
    least [d / 10^6 + 1] of them. *)
Lemma div_gap a d x :
  (a + d + 1000000 <= x)%N -> (d / 1000000 + 1 <= x / 1000000 - a / 1000000)%N.
Proof.
  intros Hx. assert (a / 1000000 + d / 1000000 + 1 <= x / 1000000)%N; [|lia].
  apply N.div_le_lower_bound; [done|].
  pose proof (N.Div0.mul_div_le a 1000000). pose proof (N.Div0.mul_div_le d 1000000). lia.
Qed.

(** ** Properties *)

(** Used by one caller at a time, [check] computes the reference decision on
    every branch: closed admits; open refuses with the remaining cool-down, or
    moves to half-open and admits one probe once it has elapsed; half-open
    admits while slots are free or the last claim's lease has expired, and else
    refuses with the fixed backoff, leaving the counter as it was. *)
Theorem check_alone s :
  config_ok -> breaker_ok s -> run (check config baseline) s = check_ref s.
Proof. apply check_eq_ref. Qed.

(** Used by one caller at a time, [record] computes the reference
    transition: a closed breaker samples and trips exactly when the window has
    the minimum of samples and reaches the error rate; a half-open one closes
    with an empty window on success and re-opens on failure; an open one only
    samples. *)
Theorem record_alone outcome s :
  config_ok -> breaker_ok s -> run (record config baseline outcome) s = (tt, record_ref outcome s).
Proof. apply record_eq_ref. Qed.

(** Every state reachable by uses that do not overlap is well formed: a
    valid state byte mirrored by the fast flag, an exact bounded window, no
    more claimed probes than slots and none while open, and no time stamp in
    the future. *)
Theorem breaker_invariant now s :
  config_ok -> baseline = now -> (now / 1000000 <= u64_max)%N ->
  rtc alone_step (breaker_new now) s -> breaker_ok s.
Proof. intros Hc Hb Hn. apply alone_ok; [done|]. by apply breaker_new_ok. Qed.

(** C21 The breaker never gets stuck: from any well-formed state, once the clock
    has advanced by the open duration (and a millisecond, the breaker's
    resolution), a check is admitted, even if every claimed probe was lost. *)
Theorem breaker_recovers s t :
  config_ok -> breaker_ok s ->
  (clock_ns s + open_duration config + 1000000 <= t)%N -> ((t - baseline) / 1000000 <= u64_max)%N ->
  (run (check config baseline) (set_clock t s)).1 = Ok tt.
Proof.
  intros Hc Hok Ht Hmax. rewrite check_eq_ref; [|done|by apply tick_ok; [|lia|]].
  destruct (ok_clock _ Hok) as [Hb Hclk].
  assert (Hms : ms (set_clock t s) = ((t - baseline) / 1000000)%N) by (unfold ms, as_millis; simpl; by rewrite wrap64_small).
  assert (Hms0 : ms s = ((clock_ns s - baseline) / 1000000)%N) by (unfold ms, as_millis; by rewrite wrap64_small).
  pose proof (ok_opened _ Hok) as Ho. pose proof (ok_claimed _ Hok) as Hcl.
  assert (Hgap : (open_duration config / 1000000 + 1 <= ms (set_clock t s) - ms s)%N).
  { rewrite Hms, Hms0. apply div_gap. lia. }
  assert (Hlease : (as_millis (open_duration config) <= open_duration config / 1000000)%N).
  { unfold as_millis, wrap64. apply N.Div0.mod_le. }
  assert (Hprobe : ∀ s0, ms s0 = ms (set_clock t s) -> probe_claimed_at_millis s0 = probe_claimed_at_millis s -> (probe_ref s0).1 = Ok tt).
  { intros s0 H1 H2. unfold probe_ref. destruct (N.ltb _ _); [done|].
    destruct (N.leb_spec (as_millis (open_duration config)) (ms s0 - probe_claimed_at_millis s0)); [done|]. rewrite H1, H2 in *. lia. }
  unfold check_ref. simpl. destruct (state_from_u8 (state s)); [done| |by apply Hprobe].
  destruct (N.leb_spec (open_duration config) (from_millis (ms (set_clock t s) - opened_at_millis s))) as [|Hlt];
    [by apply Hprobe|].
  exfalso. unfold from_millis in Hlt.
  pose proof (N.div_mod (open_duration config) 1000000 ltac:(done)). pose proof (N.mod_lt (open_duration config) 1000000 ltac:(done)). lia.
Qed.
End alone.

(** ** The registry *)

(** Addresses are valid and no two keys share one. *)
Definition registry_ok (r : CircuitBreakerRegistry) : Prop :=
  (∀ k i, breakers r !! k = Some i -> i < length (heap r)) ∧
  (∀ k1 k2 i, breakers r !! k1 = Some i -> breakers r !! k2 = Some i -> k1 = k2).

(** The registry hands out one breaker per key: a key keeps its breaker, a
    new key gets a fresh closed one that no other key has, and breakers handed
    out earlier are untouched; a disabled registry hands out none. *)
Theorem registry_get_spec r key now :
  registry_ok r ->
  let '(o, r') := registry_get r key now in
  registry_ok r' ∧ heap r `prefix_of` heap r' ∧
  (∀ k, k ≠ key -> breakers r' !! k = breakers r !! k) ∧
  match o with
  | None => cb_enabled (reg_config r) = false ∧ r' = r
  | Some i =>
      cb_enabled (reg_config r) = true ∧ breakers r' !! key = Some i ∧
      (registry_get r' key now).1 = Some i ∧
      (∀ k, k ≠ key -> breakers r' !! k ≠ Some i) ∧
      (breakers r !! key = None -> heap r' = heap r ++ [(now, breaker_new now)] ∧ i = length (heap r))
  end.
Proof.
  intros [Hdom Hinj]. unfold registry_get. destruct (cb_enabled (reg_config r)) eqn:He; simpl; [|done].
  destruct (breakers r !! key) as [i|] eqn:Hk.
  - rewrite He, Hk. simpl. split_and!; try done. intros k Hne Hk'. by apply Hne, (Hinj k key i).
  - simpl. rewrite He, lookup_insert_eq. simpl. split_and!; try done; [|by eexists| |].
    + split; simpl.
      * intros k i. rewrite length_app. simpl. destruct (decide (k = key)) as [->|Hne].
        -- rewrite lookup_insert_eq. intros [= <-]. lia.
        -- rewrite lookup_insert_ne by done. intros Hi%Hdom. lia.
      * intros k1 k2 i.
        destruct (decide (k1 = key)) as [->|H1], (decide (k2 = key)) as [->|H2];
          rewrite ?lookup_insert_eq, ?lookup_insert_ne by done; try done.
        -- intros [= <-] Hi%Hdom. lia.
        -- intros Hi%Hdom [= <-]. lia.
        -- apply Hinj.
    + intros k Hne. by rewrite lookup_insert_ne.
    + intros k Hne. rewrite lookup_insert_ne by done. intros Hi%Hdom. lia.
Qed.

(** ** Witnesses *)

Lemma server_ok : config_ok server.
Proof. split; [reflexivity|]. vm_compute. split; [discriminate|reflexivity]. Qed.

Lemma new_ok : breaker_ok server 0 (breaker_new 0).
Proof. by apply breaker_new_ok; vm_compute. Qed.

(** Tripped at 5 s, by a window of one failure out of one. *)
Definition tripped : Shared := trip_ref 0 Closed (lit "trip") (set_clock (from_secs 5) (breaker_new 0)).

Lemma tripped_ok : breaker_ok server 0 tripped.
Proof. apply ok_trip, tick_ok; [apply new_ok|vm_compute; discriminate..]. Qed.

Lemma check_alone_witness :
  run (check server 0) (set_clock (from_secs 20) tripped) = check_ref server 0 (set_clock (from_secs 20) tripped).
Proof. apply check_alone; [apply server_ok|]. apply tick_ok; [apply tripped_ok|vm_compute; discriminate..]. Defined.

Lemma record_alone_witness :
  run (record server 0 Failure) tripped = (tt, record_ref server 0 Failure tripped).
Proof. apply record_alone; [apply server_ok|apply tripped_ok]. Defined.

Lemma breaker_invariant_witness :
  breaker_ok server 0 (run (record server 0 Failure) (breaker_new 0)).2.
Proof.
  apply (breaker_invariant server 0 0 _ server_ok eq_refl); [vm_compute; discriminate|].
  eapply rtc_once, step_record.
Defined.

Lemma breaker_recovers_witness :
  (run (check server 0) (set_clock (from_secs 16) tripped)).1 = Ok tt.
Proof. apply breaker_recovers; [apply server_ok|apply tripped_ok|vm_compute; discriminate..]. Defined.

Lemma registry_get_spec_witness :
  let '(o, r') := registry_get (registry_new client) (lit "endpoint") 7 in
  o = Some 0 ∧ registry_ok r'.
Proof.
  pose proof (registry_get_spec (registry_new client) (lit "endpoint") 7) as Hspec.
  destruct (registry_get (registry_new client) (lit "endpoint") 7) as [o r'] eqn:Hg.
  destruct Hspec as [Hok _]; [by split; intros; rewrite ?lookup_empty in *|].
  split; [|exact Hok]. unfold registry_get in Hg. injection Hg as <- _. reflexivity.
Defined.
