(* ===== verification/BreakerRace.v ===== *)
(** * Circuit breaker: interleavings

    Several callers of one breaker ([check] and [record] of [breaker.rs] as the
    programs of [Breaker]) interleaved atom by atom, with the clock moving in
    between: what holds of every interleaving, and the schedules on which the
    comments of the source are wrong. *)

From S2P Require Export Breaker.

(** ** Pools of callers *)

Create HintDb race.

Inductive answer := Checked (r : result unit BreakerOpen) | Recorded.

Definition caller := prog Shared answer.

Definition pool : Type := list caller * Shared.

Section pool.
Variable (config : BreakerConfig) (baseline : N).

Definition checker : caller := r ← check config baseline; mret (Checked r).
Definition recorder (o : Outcome) : caller := _ ← record config baseline o; mret Recorded.

(** One atom of one caller, or the clock moving forward. *)
Inductive pool_step : pool -> pool -> Prop :=
  | pool_run i f k callers s :
      callers !! i = Some (Atom f k) -> pool_step (callers, s) (<[i := k s]> callers, f s)
  | pool_tick t callers s : (clock_ns s <= t)%N -> pool_step (callers, s) (callers, set_clock t s).

(** A schedule, to run a pool on: caller [i] makes one atom, or the clock shows
    [t] if that is not in its past. *)
Inductive turn := Go (i : nat) | At (t : N).

Definition play_turn (p : pool) (t : turn) : pool :=
  match t with
  | Go i => match p.1 !! i with Some (Atom f k) => (<[i := k p.2]> p.1, f p.2) | _ => p end
  | At t => if N.leb (clock_ns p.2) t then (p.1, set_clock t p.2) else p
  end.

Definition play (schedule : list turn) (p : pool) : pool := foldl play_turn p schedule.

Lemma play_turn_reachable p t : rtc pool_step p (play_turn p t).
Proof.
  destruct p as [callers s], t as [i|t]; simpl.
  - destruct (callers !! i) as [[a|f k]|] eqn:Hi; [done| |done]. by apply rtc_once, pool_run.
  - destruct (N.leb_spec (clock_ns s) t); [|done]. by apply rtc_once, pool_tick.
Qed.

Lemma play_reachable schedule p : rtc pool_step p (play schedule p).
Proof.
  revert p. induction schedule as [|t schedule IH]; intros p; [done|]. simpl.
  etrans; [apply play_turn_reachable|apply IH].
Qed.

(** ** What every interleaving keeps *)

(** Every atom of the program preserves [I]. *)
Fixpoint atoms_keep {A} (I : Shared -> Prop) (m : prog Shared A) : Prop :=
  match m with
  | Ret _ => True
  | Atom f k => (∀ s, I s -> I (f s)) ∧ ∀ s, I s -> atoms_keep I (k s)
  end.

Lemma atoms_keep_bind {A B} I (m : prog Shared A) (k : A -> prog Shared B) :
  atoms_keep I m -> (∀ a, atoms_keep I (k a)) -> atoms_keep I (m ≫= k).
Proof.
  intros Hm Hk. induction m as [a|f c IH]; [apply Hk|]. destruct Hm as [Hf Hc].
  split; [done|]. intros s Hs. by apply IH, Hc.
Qed.

Lemma pool_invariant I callers s callers' s' :
  (∀ t s, I s -> I (set_clock t s)) ->
  I s -> Forall (atoms_keep I) callers ->
  rtc pool_step (callers, s) (callers', s') ->
  I s' ∧ Forall (atoms_keep I) callers'.
Proof.
  intros Htick Hs Hall Hr. remember (callers, s) as p eqn:Hp. remember (callers', s') as p' eqn:Hp'.
  revert callers s Hs Hall Hp. induction Hr as [p|p q r Hstep _ IH]; intros callers s Hs Hall ->.
  - by injection Hp' as <- <-.
  - inversion Hstep as [i f k cs s0 Hi|t cs s0 Ht]; subst.
    + rewrite Forall_lookup in Hall. destruct (Hall _ _ Hi) as [Hf Hk].
      eapply IH; [done|by apply Hf| |done].
      apply Forall_insert; [by apply Forall_lookup|by apply Hk].
    + eapply IH; [done|by apply Htick|done|done].
Qed.

(** The invariant that survives interleaving: the mutex protects the window,
    and only valid bytes are stored in the state. *)
Definition cells_ok (s : Shared) : Prop := window_ok (window s) ∧ ∃ st, state s = state_as_u8 st.

Lemma keep_ret {A} I (a : A) : atoms_keep I (Ret a).
Proof. done. Qed.

Lemma keep_mret {A} I (a : A) : atoms_keep I (mret a : prog Shared A).
Proof. done. Qed.

Lemma keep_load {A} I (g : Shared -> A) : atoms_keep I (load g).
Proof. done. Qed.

Lemma keep_update (I : Shared -> Prop) f : (∀ s, I s -> I (f s)) -> atoms_keep I (update f).
Proof. done. Qed.

Lemma cells_set_state st s : cells_ok s -> cells_ok (set_state (state_as_u8 st) s).
Proof. intros [Hw _]. split; [done|by exists st]. Qed.

Lemma cells_set_window w s : window_ok w -> cells_ok s -> cells_ok (set_window w s).
Proof. by intros Hw [_ Hs]. Qed.

(** Each operation on the cells. *)

Lemma keep_elapsed : atoms_keep cells_ok (elapsed_millis baseline).
Proof. done. Qed.

Lemma keep_load_state : atoms_keep cells_ok load_state.
Proof. done. Qed.

Lemma keep_cas from to : atoms_keep cells_ok (cas_state from to).
Proof. split; [|done]. intros s Hs. destruct (N.eqb _ _); [by apply cells_set_state|done]. Qed.

Lemma keep_cas_claimed claimed now : atoms_keep cells_ok (cas_claimed claimed now).
Proof. split; [|done]. intros s [Hw Hs]. by destruct (N.eqb _ _). Qed.

Lemma keep_fetch_add : atoms_keep cells_ok fetch_add_probes.
Proof. split; [|done]. by intros s [Hw Hs]. Qed.

Lemma keep_fetch_sub : atoms_keep cells_ok fetch_sub_probes.
Proof. split; [|done]. by intros s [Hw Hs]. Qed.

Lemma keep_observe e : atoms_keep cells_ok (observe e).
Proof. split; [|done]. by intros s [Hw Hs]. Qed.

Lemma keep_record_sample b now : atoms_keep cells_ok (record_sample config b now).
Proof. split; [|done]. intros s Hs. apply cells_set_window; [by apply pushed_ok, Hs|done]. Qed.

Lemma keep_set_claimed v : atoms_keep cells_ok (update (set_claimed v)).
Proof. split; [|done]. by intros s [Hw Hs]. Qed.

Lemma keep_set_fast v : atoms_keep cells_ok (update (set_fast v)).
Proof. split; [|done]. by intros s [Hw Hs]. Qed.

Lemma keep_set_probes v : atoms_keep cells_ok (update (set_probes v)).
Proof. split; [|done]. by intros s [Hw Hs]. Qed.

Lemma keep_set_opened v : atoms_keep cells_ok (update (set_opened v)).
Proof. split; [|done]. by intros s [Hw Hs]. Qed.

Lemma keep_set_state st : atoms_keep cells_ok (update (set_state (state_as_u8 st))).
Proof. split; [|done]. intros s. apply cells_set_state. Qed.

Lemma keep_clear : atoms_keep cells_ok (update (fun s => set_window (window_clear (window s)) s)).
Proof. split; [|done]. intros s. apply cells_set_window, window_clear_ok. Qed.

Hint Resolve keep_ret keep_mret keep_load keep_elapsed keep_load_state keep_cas keep_cas_claimed keep_fetch_add keep_fetch_sub
  keep_observe keep_record_sample keep_set_claimed keep_set_fast keep_set_probes keep_set_opened keep_set_state keep_clear : race.

Ltac keep :=
  repeat (case_match || (apply atoms_keep_bind; [|intros ?]) || solve [auto with race]).

Lemma keep_probe : atoms_keep cells_ok (try_half_open_probe config baseline).
Proof. unfold try_half_open_probe. keep. Qed.

Hint Resolve keep_probe : race.

Lemma keep_check : atoms_keep cells_ok (check config baseline).
Proof. unfold check, check_open. keep. Qed.

Lemma keep_trip prev reason : atoms_keep cells_ok (trip baseline prev reason).
Proof. unfold trip. keep. Qed.

Lemma keep_close prev reason : atoms_keep cells_ok (close prev reason).
Proof. unfold close. keep. Qed.

Hint Resolve keep_check keep_trip keep_close : race.

Lemma keep_record o : atoms_keep cells_ok (record config baseline o).
Proof. unfold record. keep. Qed.

Hint Resolve keep_record : race.

Lemma keep_caller c : c = checker ∨ (∃ o, c = recorder o) -> atoms_keep cells_ok c.
Proof. unfold checker, recorder. intros [->|[o ->]]; keep. Qed.

(** ** Properties *)

(** Whatever the interleaving of any number of checks and records and
    however the clock moves, the window's cached failure counter stays exact
    and bounded, and the state byte is always a valid state, so the fallback of
    its decoding is dead code. *)
Theorem interleaving_invariant callers s callers' s' :
  Forall (fun c => c = checker ∨ ∃ o, c = recorder o) callers ->
  cells_ok s ->
  rtc pool_step (callers, s) (callers', s') ->
  window_ok (window s') ∧ state_as_u8 (state_from_u8 (state s')) = state s'.
Proof.
  intros Hall Hs Hr.
  destruct (pool_invariant cells_ok callers s callers' s') as [[Hw [st Hst]] _]; [|done| |done|].
  - by intros t s0 [Hw Hst].
  - eapply Forall_impl; [exact Hall|]. apply keep_caller.
  - split; [done|]. by rewrite Hst, state_from_as.
Qed.
End pool.

(** ** Races

    Concrete schedules of a breaker that trips on one failure and is otherwise
    the server preset: a ten second cool-down and one probe slot. *)

Definition racy : BreakerConfig :=
  mkBreakerConfig (from_secs 60) 1 (f64_lit 1 2) (from_secs 10) 1 default_failure_codes true.

Definition gos (i n : nat) : list turn := repeat (Go i) n.

(** One probe slot can admit two probes at the same instant. The slot is
    claimed by the increment, and only then is the claim's time stored; a
    second caller in between finds the slot taken and the previous, expired
    claim time, and takes over the claim just made as if it were abandoned. *)
Theorem race_double_probe :
  ∃ callers1 s1 callers2 s2,
    rtc pool_step ([recorder racy 0 Failure; checker racy 0; checker racy 0], breaker_new 0) (callers1, s1) ∧
    half_open_probes s1 = half_open_max_probes racy ∧ state s1 = state_as_u8 HalfOpen ∧
    rtc pool_step (callers1, s1) (callers2, s2) ∧
    clock_ns s2 = clock_ns s1 ∧
    callers2 !! 1 = Some (Ret (Checked (Ok tt))) ∧ callers2 !! 2 = Some (Ret (Checked (Ok tt))).
Proof.
  set (start := ([recorder racy 0 Failure; checker racy 0; checker racy 0], breaker_new 0)).
  set (p1 := play ([At (from_secs 5)] ++ gos 0 11 ++ [At (from_secs 20)] ++ gos 1 8) start).
  set (p2 := play (gos 2 7 ++ gos 1 2) p1).
  exists p1.1, p1.2, p2.1, p2.2. rewrite <- !surjective_pairing.
  split_and!; try apply play_reachable; vm_compute; reflexivity.
Qed.

(** A check that races a trip can skip the whole cool-down and leave the
    fast flag wrong. [trip] publishes [Open] before the time of opening; a
    check in between measures the cool-down from the previous opening, moves to
    half-open and is admitted at the instant of the trip; the rest of [trip]
    then sets the fast flag, which keeps reporting an open breaker while the
    state is half-open. *)
Theorem race_skips_cooldown :
  ∃ callers s,
    rtc pool_step ([recorder racy 0 Failure; checker racy 0], set_clock (from_secs 20) (breaker_new 0)) (callers, s) ∧
    callers = [Ret Recorded; Ret (Checked (Ok tt))] ∧
    clock_ns s = from_secs 20 ∧ opened_at_millis s = 20000%N ∧
    state s = state_as_u8 HalfOpen ∧ is_open_fast s = true.
Proof.
  set (start := ([recorder racy 0 Failure; checker racy 0], set_clock (from_secs 20) (breaker_new 0))).
  set (p := play (gos 0 4 ++ gos 1 10 ++ gos 0 7) start).
  exists p.1, p.2. rewrite <- surjective_pairing. split_and!; [apply play_reachable|vm_compute; reflexivity..].
Qed.

(** The probe counter is not zero whenever the breaker is open: a check that
    was refused its slot gives it back after a failed probe's [trip] has reset
    the counter, which wraps below zero. *)
Theorem race_probe_counter_underflow :
  ∃ callers s,
    rtc pool_step ([recorder racy 0 Failure; checker racy 0; checker racy 0; recorder racy 0 Failure], breaker_new 0)
      (callers, s) ∧
    callers = [Ret Recorded; Ret (Checked (Ok tt)); Ret (Checked (Err (mkBreakerOpen (from_millis 50)))); Ret Recorded] ∧
    state s = state_as_u8 Open ∧ half_open_probes s = u64_max.
Proof.
  set (start := ([recorder racy 0 Failure; checker racy 0; checker racy 0; recorder racy 0 Failure], breaker_new 0)).
  set (p := play ([At (from_secs 5)] ++ gos 0 11 ++ [At (from_secs 20)] ++ gos 1 10 ++ gos 2 3 ++ gos 3 10 ++ gos 2 3) start).
  exists p.1, p.2. rewrite <- surjective_pairing. split_and!; [apply play_reachable|vm_compute; reflexivity..].
Qed.

(** ** Witnesses *)

Lemma interleaving_invariant_witness :
  let '(callers, s) := play (gos 1 3 ++ gos 0 5 ++ gos 1 9) ([checker racy 0; recorder racy 0 Failure], breaker_new 0) in
  window_ok (window s) ∧ state_as_u8 (state_from_u8 (state s)) = state s.
Proof.
  destruct (play (gos 1 3 ++ gos 0 5 ++ gos 1 9) ([checker racy 0; recorder racy 0 Failure], breaker_new 0)) as [callers s] eqn:Hp.
  apply (interleaving_invariant racy 0 [checker racy 0; recorder racy 0 Failure] (breaker_new 0) callers s).
  - constructor; [by left|]. constructor; [right; by eexists|]. constructor.
  - split; [apply window_new_ok|by exists Closed].
  - rewrite <- Hp. apply play_reachable.
Defined.
