(* ===== verification/Delivery.v ===== *)
(** * Message delivery: turn-bound ownership and operation grants

    [crates/common/xai-message-delivery-core/src/lifecycle.rs] and
    [envelope.rs]. A message admitted for a turn is owned by the lifecycle in
    one slot until a terminal transition hands it back: [Pending] until the
    turn's safe point begins its delivery, [Projecting] until the commit
    callback accepts the batch, then [Delivered]. [reaches] are the states any
    sequence of calls can produce, with a ledger of what was admitted, begun,
    committed and handed back. *)

From S2P Require Export RustStr.

(** ** Operation grants *)

Module Envelope.

(** Source: crates/common/xai-message-delivery-core/src/envelope.rs:3-8, [Principal]. *)
Inductive Principal := Human | Agent | Runtime.

(** Source: crates/common/xai-message-delivery-core/src/envelope.rs:10-16, [Operation]. *)
Inductive Operation := Queue | Steer | Interject | InterruptAndSend.

(** Source: crates/common/xai-message-delivery-core/src/envelope.rs:22-33, [DeliveryIdentity]. *)
Record DeliveryIdentity (MessageId PromptId : Type) :=
  mkDeliveryIdentity { message_id : MessageId; identity_prompt_id : PromptId }.

(** The marker types of the two constructors.

    Source: crates/common/xai-message-delivery-core/src/envelope.rs:18-20, [HumanSource, AgentSource]. *)
Inductive SourceMarker := HumanSource | AgentSource.

(** The fields are private: only [from_human] and [from_agent] build one.

    Source: crates/common/xai-message-delivery-core/src/envelope.rs:35-42, [DeliveryEnvelope]. *)
Record DeliveryEnvelope (S : SourceMarker) (G C I : Type) := mkEnvelope {
  env_principal : Principal;
  env_operation : Operation;
  env_content : C;
  env_identity : I;
  env_grant : G
}.
Arguments mkEnvelope {_ _ _ _} _ _ _ _ _.
Arguments env_principal {_ _ _ _} _.
Arguments env_operation {_ _ _ _} _.
Arguments env_content {_ _ _ _} _.
Arguments env_identity {_ _ _ _} _.
Arguments env_grant {_ _ _ _} _.

(** Source: crates/common/xai-message-delivery-core/src/envelope.rs:45-55, [DeliveryEnvelope::from_human]. *)
Definition from_human {G C I} (operation : Operation) (content : C) (identity : I) (grant : G) :
    DeliveryEnvelope HumanSource G C I :=
  mkEnvelope Human operation content identity grant.

(** Source: crates/common/xai-message-delivery-core/src/envelope.rs:63-73, [DeliveryEnvelope::from_agent]. *)
Definition from_agent {G C I} (operation : Operation) (content : C) (identity : I) (grant : G) :
    DeliveryEnvelope AgentSource G C I :=
  mkEnvelope Agent operation content identity grant.

(** Source: crates/common/xai-message-delivery-core/src/envelope.rs:75-77, [DeliveryEnvelope::into_parts]. *)
Definition into_parts {S G C I} (e : DeliveryEnvelope S G C I) : Operation * C * I * G :=
  (env_operation e, env_content e, env_identity e, env_grant e).

(** The bits, a [u8].

    Source: crates/common/xai-message-delivery-core/src/envelope.rs:86-87, [OperationSet]. *)
Definition OperationSet := N.

(** Source: crates/common/xai-message-delivery-core/src/envelope.rs:90-90, [OperationSet::QUEUE]. *)
Definition QUEUE : OperationSet := N.shiftl 1 0.
(** Source: crates/common/xai-message-delivery-core/src/envelope.rs:91-91, [OperationSet::QUEUE_AND_STEER]. *)
Definition QUEUE_AND_STEER : OperationSet := N.lor (N.shiftl 1 0) (N.shiftl 1 1).
(** Source: crates/common/xai-message-delivery-core/src/envelope.rs:92-92, [OperationSet::QUEUE_STEER_AND_INTERJECT]. *)
Definition QUEUE_STEER_AND_INTERJECT : OperationSet :=
  N.lor (N.lor (N.shiftl 1 0) (N.shiftl 1 1)) (N.shiftl 1 2).

(** Source: crates/common/xai-message-delivery-core/src/envelope.rs:94-102, [OperationSet::contains]. *)
Definition set_contains (s : OperationSet) (operation : Operation) : bool :=
  let flag := match operation with
              | Queue => N.shiftl 1 0
              | Steer => N.shiftl 1 1
              | Interject => N.shiftl 1 2
              | InterruptAndSend => N.shiftl 1 3
              end in
  negb (N.eqb (N.land s flag) 0).

(** [Ok op] is [AuthorizedOperation(op)], [Err op] is [UnsupportedOperation(op)].

    Source: crates/common/xai-message-delivery-core/src/envelope.rs:105-120, [authorize_operation]. *)
Definition authorize_operation (allowed : OperationSet) (requested : Operation) :
    result Operation Operation :=
  if set_contains allowed requested then Ok requested else Err requested.

(** The position of an operation's bit. *)
Definition bit_index (operation : Operation) : N :=
  match operation with Queue => 0 | Steer => 1 | Interject => 2 | InterruptAndSend => 3 end.

(** Membership is the operation's bit, whatever the other bits are. *)
Lemma set_contains_testbit s operation : set_contains s operation = N.testbit s (bit_index operation).
Proof.
  destruct (N.testbit s (bit_index operation)) eqn:E.
  - unfold set_contains. rewrite negb_true_iff, N.eqb_neq. intros H0.
    apply (f_equal (fun n => N.testbit n (bit_index operation))) in H0.
    rewrite N.land_spec, E, N.bits_0 in H0. by destruct operation.
  - unfold set_contains. rewrite negb_false_iff, N.eqb_eq. apply N.bits_inj. intros i.
    rewrite N.land_spec, N.bits_0.
    destruct (decide (i = bit_index operation)) as [->|Hi]; [by rewrite E|].
    apply andb_false_iff. right.
    destruct operation; cbn -[N.shiftl N.testbit] in *; rewrite N.shiftl_1_l;
      apply N.pow2_bits_false; congruence.
Qed.

(** What the three published sets allow. *)
Lemma authorize_published operation :
  (is_ok (authorize_operation QUEUE operation) = true <-> operation = Queue)
  ∧ (is_ok (authorize_operation QUEUE_AND_STEER operation) = true
     <-> operation = Queue ∨ operation = Steer)
  ∧ (is_ok (authorize_operation QUEUE_STEER_AND_INTERJECT operation) = true
     <-> operation ≠ InterruptAndSend).
Proof. destruct operation; vm_compute; naive_solver. Qed.

End Envelope.

(** ** The lifecycle *)

(** Source: crates/common/xai-message-delivery-core/src/lifecycle.rs:90-97, [TerminalCause]. *)
Inductive TerminalCause := Completion | SoftCancel | Rewind | HardTeardown | ActorDrop.

(** Source: crates/common/xai-message-delivery-core/src/lifecycle.rs:100-102, [TerminalCause::falls_back]. *)
Definition falls_back (c : TerminalCause) : bool :=
  match c with Completion | SoftCancel | Rewind => true | HardTeardown | ActorDrop => false end.

Section Lifecycle.
Context {Identity Source Content Handle PromptId Epoch : Type}.
Context `{EqDecision Identity, EqDecision PromptId, EqDecision Epoch}.

(** Source: crates/common/xai-message-delivery-core/src/lifecycle.rs:5-15, [TurnBinding]. *)
Record TurnBinding := mkBinding { prompt_id : PromptId; epoch : Epoch }.

#[export] Instance TurnBinding_eq_dec : EqDecision TurnBinding.
Proof. solve_decision. Defined.

(** Source: crates/common/xai-message-delivery-core/src/lifecycle.rs:17-48, [DeliveryMessage]. *)
Record DeliveryMessage := mkMessage { identity : Identity; source : Source; content : Content }.

(** Source: crates/common/xai-message-delivery-core/src/lifecycle.rs:50-72, [OwnedDelivery]. *)
Record OwnedDelivery := mkOwned {
  binding : TurnBinding;
  message : DeliveryMessage;
  completion : Handle
}.

(** Source: crates/common/xai-message-delivery-core/src/lifecycle.rs:74-78, [DeliverySlot]. *)
Inductive DeliverySlot :=
  | Pending (o : OwnedDelivery)
  | Projecting (o : OwnedDelivery)
  | Delivered (o : OwnedDelivery).

(** Source: crates/common/xai-message-delivery-core/src/lifecycle.rs:83-87, [DeliverySlot::owned]. *)
Definition owned (s : DeliverySlot) : OwnedDelivery :=
  match s with Pending o | Projecting o | Delivered o => o end.

(** Source: crates/common/xai-message-delivery-core/src/lifecycle.rs:105-108, [TerminalTarget]. *)
Inductive TerminalTarget := Turn (b : TurnBinding) | All.

(** Source: crates/common/xai-message-delivery-core/src/lifecycle.rs:110-113, [TerminalTransition]. *)
Record TerminalTransition := mkTransition {
  fallbacks : list OwnedDelivery;
  completions : list OwnedDelivery
}.

(** [MessageDeliveryLifecycle.slots].

    Source: crates/common/xai-message-delivery-core/src/lifecycle.rs:115-117, [MessageDeliveryLifecycle]. *)
Definition Slots := list DeliverySlot.

(** Source: crates/common/xai-message-delivery-core/src/lifecycle.rs:122-126, [MessageDeliveryLifecycle::default]. *)
Definition empty_lifecycle : Slots := [].

(** Source: crates/common/xai-message-delivery-core/src/lifecycle.rs:148-152, [MessageDeliveryLifecycle::contains_identity]. *)
Definition contains_identity (i : Identity) (slots : Slots) : bool :=
  existsb (fun s => bool_decide (identity (message (owned s)) = i)) slots.

(** Source: crates/common/xai-message-delivery-core/src/lifecycle.rs:154-173, [MessageDeliveryLifecycle::admit_pending]. *)
Definition admit_pending (b : TurnBinding) (m : DeliveryMessage) (c : Handle) (slots : Slots) :
    result unit DeliveryMessage * Slots :=
  if existsb (fun s => bool_decide (identity (message (owned s)) = identity m)) slots
  then (Err m, slots)
  else (Ok tt, slots ++ [Pending (mkOwned b m c)]).

(** Source: crates/common/xai-message-delivery-core/src/lifecycle.rs:175-193, [MessageDeliveryLifecycle::pending_messages]. *)
Definition pending_messages (b : TurnBinding) (slots : Slots) : list DeliveryMessage :=
  omap (fun s => match s with
                 | Pending o => if decide (binding o = b) then Some (message o) else None
                 | _ => None
                 end) slots.

(** Source: crates/common/xai-message-delivery-core/src/lifecycle.rs:195-218, [MessageDeliveryLifecycle::begin_delivery]. *)
Definition begin_delivery (b : TurnBinding) (slots : Slots) : list DeliveryMessage * Slots :=
  let messages := pending_messages b slots in
  if is_empty messages then (messages, slots)
  else (messages,
        map (fun s => match s with
                      | Pending o => if decide (binding o = b) then Projecting o else Pending o
                      | s => s
                      end) slots).

(** Source: crates/common/xai-message-delivery-core/src/lifecycle.rs:230-239, [MessageDeliveryLifecycle::finish_delivery]. *)
Definition projecting_messages (b : TurnBinding) (slots : Slots) : list DeliveryMessage :=
  omap (fun s => match s with
                 | Projecting o => if decide (binding o = b) then Some (message o) else None
                 | _ => None
                 end) slots.

(** Source: crates/common/xai-message-delivery-core/src/lifecycle.rs:220-254, [MessageDeliveryLifecycle::finish_delivery]. *)
Definition finish_delivery {Error} (b : TurnBinding)
    (commit : list DeliveryMessage -> result unit Error) (slots : Slots) :
    result (list DeliveryMessage) Error * Slots :=
  let messages := projecting_messages b slots in
  if is_empty messages then (Ok messages, slots)
  else match commit messages with
       | Err e => (Err e, slots)
       | Ok _ =>
           (Ok messages,
            map (fun s => match s with
                          | Projecting o => if decide (binding o = b) then Delivered o else Projecting o
                          | s => s
                          end) slots)
       end.

(** Source: crates/common/xai-message-delivery-core/src/lifecycle.rs:268-271, [MessageDeliveryLifecycle::transition]. *)
Definition target_matches (target : TerminalTarget) (s : DeliverySlot) : bool :=
  match target with
  | Turn b => bool_decide (binding (owned s) = b)
  | All => true
  end.

(** One slot of [transition]: kept, or moved to one of the two vectors.

    Source: crates/common/xai-message-delivery-core/src/lifecycle.rs:267-284, [MessageDeliveryLifecycle::transition]. *)
Definition transition_slot (target : TerminalTarget) (cause : TerminalCause)
    (acc : TerminalTransition * Slots) (s : DeliverySlot) : TerminalTransition * Slots :=
  let '(t, kept) := acc in
  if negb (target_matches target s) then (t, kept ++ [s])
  else match s with
       | Pending o =>
           if falls_back cause then (mkTransition (fallbacks t ++ [o]) (completions t), kept)
           else (mkTransition (fallbacks t) (completions t ++ [o]), kept)
       | Projecting o | Delivered o =>
           (mkTransition (fallbacks t) (completions t ++ [o]), kept)
       end.

(** Source: crates/common/xai-message-delivery-core/src/lifecycle.rs:256-287, [MessageDeliveryLifecycle::transition]. *)
Definition transition (target : TerminalTarget) (cause : TerminalCause) (slots : Slots) :
    TerminalTransition * Slots :=
  fold_left (transition_slot target cause) slots (mkTransition [] [], []).

(** ** Reachable states, with a ledger *)

(** The ownerships of the slots of each kind, in slot order. *)
Definition pend (slots : Slots) : list OwnedDelivery :=
  omap (fun s => match s with Pending o => Some o | _ => None end) slots.
Definition proj (slots : Slots) : list OwnedDelivery :=
  omap (fun s => match s with Projecting o => Some o | _ => None end) slots.
Definition deliv (slots : Slots) : list OwnedDelivery :=
  omap (fun s => match s with Delivered o => Some o | _ => None end) slots.

(** What the calls took and gave so far: the ownerships admitted, the messages
    [begin_delivery] returned, those a successful [finish_delivery] committed,
    the two vectors of the transitions, and whether one had a cause that does
    not fall back. *)
Record Ledger := mkLedger {
  admitted : list OwnedDelivery;
  begun : list DeliveryMessage;
  committed : list DeliveryMessage;
  requeued : list OwnedDelivery;
  completed : list OwnedDelivery;
  torn_down : bool
}.

(** Every state a host can produce, with what it was told on the way. *)
Inductive reaches : Ledger -> Slots -> Prop :=
  | reach_default : reaches (mkLedger [] [] [] [] [] false) empty_lifecycle
  | reach_admit l slots slots' b m c :
      reaches l slots ->
      admit_pending b m c slots = (Ok tt, slots') ->
      reaches (mkLedger (admitted l ++ [mkOwned b m c]) (begun l) (committed l)
                 (requeued l) (completed l) (torn_down l)) slots'
  | reach_refuse l slots slots' b m c m' :
      reaches l slots ->
      admit_pending b m c slots = (Err m', slots') ->
      reaches l slots'
  | reach_begin l slots slots' b messages :
      reaches l slots ->
      begin_delivery b slots = (messages, slots') ->
      reaches (mkLedger (admitted l) (begun l ++ messages) (committed l)
                 (requeued l) (completed l) (torn_down l)) slots'
  | reach_finish l slots slots' b (commit : _ -> result unit unit) messages :
      reaches l slots ->
      finish_delivery b commit slots = (Ok messages, slots') ->
      reaches (mkLedger (admitted l) (begun l) (committed l ++ messages)
                 (requeued l) (completed l) (torn_down l)) slots'
  | reach_commit_failed l slots slots' b (commit : _ -> result unit unit) e :
      reaches l slots ->
      finish_delivery b commit slots = (Err e, slots') ->
      reaches l slots'
  | reach_terminal l slots slots' target cause t :
      reaches l slots ->
      transition target cause slots = (t, slots') ->
      reaches (mkLedger (admitted l) (begun l) (committed l)
                 (requeued l ++ fallbacks t) (completed l ++ completions t)
                 (torn_down l || negb (falls_back cause))) slots'.

(** Where every admitted ownership is, with the witnesses of the split of the
    completed ones: [dropped] before their delivery began, [cut] while they
    were projecting, [done] after their commit. *)
Definition accounted (l : Ledger) (slots : Slots) (dropped cut done : list OwnedDelivery) : Prop :=
  admitted l ≡ₚ map owned slots ++ requeued l ++ completed l
  ∧ completed l ≡ₚ dropped ++ cut ++ done
  ∧ begun l ≡ₚ map message (proj slots ++ deliv slots ++ cut ++ done)
  ∧ committed l ≡ₚ map message (deliv slots ++ done)
  ∧ (torn_down l = false -> dropped = []).

(** ** One call at a time *)

Lemma owned_split slots : map owned slots ≡ₚ pend slots ++ proj slots ++ deliv slots.
Proof.
  induction slots as [|[o|o|o] slots IH]; simpl; rewrite ?IH; solve_Permutation.
Qed.

Lemma begin_moves b slots messages slots' :
  begin_delivery b slots = (messages, slots') ->
  map owned slots' = map owned slots ∧ deliv slots' = deliv slots ∧
  ∃ moved, messages = map message moved ∧ proj slots' ≡ₚ proj slots ++ moved.
Proof.
  unfold begin_delivery. intros Hb.
  destruct (is_empty (pending_messages b slots)) eqn:E; injection Hb as <- <-.
  - split; [done|]. split; [done|]. exists []. rewrite app_nil_r.
    by destruct (pending_messages b slots).
  - clear E. induction slots as [|[o|o|o] slots (IHo & IHd & moved & IHm & IHp)]; simpl.
    + by repeat split; exists [].
    + destruct (decide (binding o = b)); simpl; rewrite IHo, IHd.
      * repeat split. exists (o :: moved). simpl. rewrite IHm. split; [done|].
        rewrite IHp. solve_Permutation.
      * repeat split. by exists moved.
    + rewrite IHo, IHd. repeat split. exists moved. split; [done|]. by rewrite IHp.
    + rewrite IHo, IHd. repeat split. by exists moved.
Qed.

Lemma finish_moves {Error} b (commit : _ -> result unit Error) slots messages slots' :
  finish_delivery b commit slots = (Ok messages, slots') ->
  map owned slots' = map owned slots ∧
  ∃ moved, messages = map message moved ∧ proj slots ≡ₚ proj slots' ++ moved
           ∧ deliv slots' ≡ₚ deliv slots ++ moved.
Proof.
  unfold finish_delivery. intros Hb.
  destruct (is_empty (projecting_messages b slots)) eqn:E.
  { injection Hb as <- <-. split; [done|]. exists []. rewrite !app_nil_r.
    by destruct (projecting_messages b slots). }
  destruct (commit _); [|done]. injection Hb as <- <-.
  clear E. induction slots as [|[o|o|o] slots (IHo & moved & IHm & IHp & IHd)]; simpl.
  - by split; [|exists []].
  - rewrite IHo. split; [done|]. by exists moved.
  - destruct (decide (binding o = b)); simpl; rewrite IHo; (split; [done|]).
    + exists (o :: moved). simpl. rewrite IHm, IHp, IHd. repeat split; solve_Permutation.
    + exists moved. rewrite IHm, IHp, IHd. repeat split; solve_Permutation.
  - rewrite IHo. split; [done|]. exists moved. rewrite IHm, IHp, IHd. repeat split; solve_Permutation.
Qed.

(** What [transition] keeps and hands back, each in slot order. *)
Definition kept_slots (target : TerminalTarget) (slots : Slots) : Slots :=
  List.filter (fun s => negb (target_matches target s)) slots.
Definition matched_slots (target : TerminalTarget) (slots : Slots) : Slots :=
  List.filter (target_matches target) slots.

Lemma transition_acc target cause slots f c k :
  fold_left (transition_slot target cause) slots (mkTransition f c, k)
  = (mkTransition (f ++ (if falls_back cause then pend (matched_slots target slots) else []))
       (c ++ (if falls_back cause
              then omap (fun s => match s with Pending _ => None | _ => Some (owned s) end)
                     (matched_slots target slots)
              else map owned (matched_slots target slots))),
     k ++ kept_slots target slots).
Proof.
  revert f c k. induction slots as [|s slots IH]; intros f c k; simpl.
  - destruct (falls_back cause); by rewrite !app_nil_r.
  - unfold kept_slots, matched_slots. simpl. unfold kept_slots, matched_slots in IH.
    destruct (target_matches target s); simpl.
    + destruct s as [o|o|o]; simpl; destruct (falls_back cause); rewrite IH;
        by rewrite <- ?app_assoc.
    + rewrite IH. by rewrite <- app_assoc.
Qed.

Lemma transition_eq target cause slots :
  transition target cause slots
  = (if falls_back cause
     then mkTransition (pend (matched_slots target slots))
            (omap (fun s => match s with Pending _ => None | _ => Some (owned s) end)
               (matched_slots target slots))
     else mkTransition [] (map owned (matched_slots target slots)),
     kept_slots target slots).
Proof. unfold transition. rewrite transition_acc. by destruct (falls_back cause). Qed.

Lemma matched_split {B} (f : DeliverySlot -> option B) target slots :
  omap f slots ≡ₚ omap f (kept_slots target slots) ++ omap f (matched_slots target slots).
Proof.
  unfold kept_slots, matched_slots. induction slots as [|s slots IH]; simpl; [done|].
  destruct (target_matches target s); simpl; destruct (f s); rewrite IH; solve_Permutation.
Qed.

Lemma begun_split slots :
  omap (fun s => match s with Pending _ => None | _ => Some (owned s) end) slots
  ≡ₚ proj slots ++ deliv slots.
Proof. induction slots as [|[o|o|o] slots IH]; simpl; rewrite ?IH; solve_Permutation. Qed.

Lemma transition_moves target cause slots t slots' :
  transition target cause slots = (t, slots') ->
  ∃ dropped cut done,
    completions t ≡ₚ dropped ++ cut ++ done
    ∧ pend slots ≡ₚ pend slots' ++ fallbacks t ++ dropped
    ∧ proj slots ≡ₚ proj slots' ++ cut
    ∧ deliv slots ≡ₚ deliv slots' ++ done
    ∧ (falls_back cause = true -> dropped = []).
Proof.
  rewrite transition_eq. intros [= <- <-].
  exists (if falls_back cause then [] else pend (matched_slots target slots)),
    (proj (matched_slots target slots)), (deliv (matched_slots target slots)).
  split; [|split; [|split; [apply matched_split|split; [apply matched_split|by intros ->]]]].
  - destruct (falls_back cause); simpl; [apply begun_split|apply owned_split].
  - etrans; [apply (matched_split _ target)|].
    destruct (falls_back cause); simpl; by rewrite ?app_nil_r.
Qed.

(** ** The ledger of a reachable state *)

Lemma reaches_accounted l slots :
  reaches l slots -> ∃ dropped cut done, accounted l slots dropped cut done.
Proof.
  unfold accounted.
  induction 1 as [|l slots slots' b m c _ (dr & cu & dn & Ha & Hc & Hb & Hm & Ht) Hop
    |l slots slots' b m c m' _ IH Hop
    |l slots slots' b ms _ (dr & cu & dn & Ha & Hc & Hb & Hm & Ht) Hop
    |l slots slots' b commit ms _ (dr & cu & dn & Ha & Hc & Hb & Hm & Ht) Hop
    |l slots slots' b commit e _ IH Hop
    |l slots slots' target cause t _ (dr & cu & dn & Ha & Hc & Hb & Hm & Ht) Hop]; cbn.
  - exists [], [], []. cbn. repeat split; done.
  - unfold admit_pending in Hop. destruct (existsb _ slots); [done|]. injection Hop as <-.
    exists dr, cu, dn. unfold proj, deliv. rewrite map_app, !omap_app. cbn.
    rewrite !app_nil_r. repeat split; [|done..]. rewrite Ha. solve_Permutation.
  - unfold admit_pending in Hop. destruct (existsb _ slots); [|done]. by injection Hop as _ <-.
  - apply begin_moves in Hop as (Ho & Hd & moved & -> & Hp). exists dr, cu, dn.
    rewrite Ho, Hd. repeat split; [done|done| |done|done].
    rewrite Hb, Hp, !map_app. solve_Permutation.
  - apply finish_moves in Hop as (Ho & moved & -> & Hp & Hd). exists dr, cu, dn.
    rewrite Ho. repeat split; [done|done| | |done].
    + rewrite Hb, Hp, Hd, !map_app. solve_Permutation.
    + rewrite Hm, Hd, !map_app. solve_Permutation.
  - unfold finish_delivery in Hop. destruct (is_empty _); [done|].
    destruct (commit _); [done|]. by injection Hop as _ <-.
  - apply transition_moves in Hop as (dr' & cu' & dn' & Hc' & Hp & Hpr & Hd & Hdr).
    exists (dr ++ dr'), (cu ++ cu'), (dn ++ dn'). repeat split.
    + rewrite Ha, !owned_split, Hp, Hpr, Hd, Hc'. solve_Permutation.
    + rewrite Hc, Hc'. solve_Permutation.
    + rewrite Hb, Hpr, Hd, !map_app. solve_Permutation.
    + rewrite Hm, Hd, !map_app. solve_Permutation.
    + rewrite orb_false_iff, negb_false_iff. intros [Ht1 Ht2].
      by rewrite Ht, Hdr.
Qed.

(** ** The slots of a reachable state *)

Lemma kept_sublist {B} (g : DeliverySlot -> B) target slots :
  map g (kept_slots target slots) `sublist_of` map g slots.
Proof.
  unfold kept_slots. induction slots as [|s slots IH]; simpl; [done|].
  destruct (target_matches target s); simpl; by constructor.
Qed.

Lemma contains_identity_spec i slots :
  contains_identity i slots = true <-> i ∈ map (fun o => identity (message o)) (map owned slots).
Proof.
  unfold contains_identity. rewrite existsb_exists, map_map, list_elem_of_In, in_map_iff.
  split; intros (s & H1 & H2); exists s; rewrite ?bool_decide_eq_true in *; done.
Qed.

(** The owned messages have distinct identities and stand in admission order. *)
Lemma reaches_slots l slots :
  reaches l slots ->
  NoDup (map (fun o => identity (message o)) (map owned slots))
  ∧ map owned slots `sublist_of` admitted l.
Proof.
  induction 1 as [|l slots slots' b m c _ [Hn Hs] Hop |l slots slots' b m c m' _ IH Hop
    |l slots slots' b ms _ [Hn Hs] Hop |l slots slots' b commit ms _ [Hn Hs] Hop
    |l slots slots' b commit e _ IH Hop |l slots slots' target cause t _ [Hn Hs] Hop]; cbn.
  - split; constructor.
  - unfold admit_pending in Hop. destruct (existsb _ slots) eqn:E; [done|].
    injection Hop as <-. rewrite !map_app. split; [|by apply sublist_app].
    apply NoDup_app. split; [done|]. split; [|apply NoDup_singleton].
    intros i Hi ->%list_elem_of_singleton. apply contains_identity_spec in Hi.
    unfold contains_identity in Hi. cbn in Hi. congruence.
  - unfold admit_pending in Hop. destruct (existsb _ slots); [|done]. by injection Hop as _ <-.
  - apply begin_moves in Hop as (Ho & _). by rewrite Ho.
  - apply finish_moves in Hop as (Ho & _). by rewrite Ho.
  - unfold finish_delivery in Hop. destruct (is_empty _); [done|].
    destruct (commit _); [done|]. by injection Hop as _ <-.
  - rewrite transition_eq in Hop. injection Hop as _ <-.
    split; [|etrans; [apply kept_sublist|done]]. rewrite map_map in *.
    eapply sublist_NoDup; [exact Hn|]. apply kept_sublist.
Qed.

(** ** Delivery in two phases *)

(** A slot that is not [Projecting] for [b] is not in the batch of [b]. *)
Lemma projecting_messages_map b slots (f : DeliverySlot -> DeliverySlot) :
  (∀ s, match f s with Projecting o => binding o ≠ b | _ => True end) ->
  projecting_messages b (map f slots) = [].
Proof.
  intros Hf. induction slots as [|s slots IH]; simpl; [done|].
  specialize (Hf s). destruct (f s) as [o|o|o]; [done| |done].
  destruct (decide (binding o = b)); done.
Qed.

(** The commit sees the projecting batch of the turn; after it the batch is
    empty, so that no later call commits again; when it fails nothing changed. *)
Lemma finish_delivery_cases {Error} b (commit : _ -> result unit Error) slots :
  let batch := projecting_messages b slots in
  let slots' := snd (finish_delivery b commit slots) in
  match fst (finish_delivery b commit slots) with
  | Ok messages =>
      messages = batch ∧ (batch ≠ [] -> commit batch = Ok tt)
      ∧ ∀ commit', finish_delivery (Error := Error) b commit' slots' = (Ok [], slots')
  | Err e => batch ≠ [] ∧ commit batch = Err e ∧ slots' = slots
  end.
Proof.
  unfold finish_delivery. cbn zeta.
  destruct (projecting_messages b slots) as [|m ms] eqn:E; cbn [is_empty].
  - cbn -[projecting_messages]. split; [done|]. split; [done|]. intros commit'. by rewrite E.
  - destruct (commit (m :: ms)) as [[]|e] eqn:Ec; cbn -[projecting_messages]; [|done].
    split; [done|]. split; [done|]. intros commit'.
    rewrite projecting_messages_map; [done|].
    intros [o|o|o]; [done| |done]. by destruct (decide (binding o = b)).
Qed.

(** C26 Exactly-once accounting of message ownership. In every state reachable
    by any sequence of admissions, deliveries (committed or failed) and
    terminal transitions, the admitted ownerships are exactly those still in
    slots, those handed back to requeue and those handed back to complete: none
    is lost or duplicated. The completed ones split into [dropped] (delivery
    never begun), [cut] (begun, not committed) and [done] (committed) such that
    the messages [begin_delivery] ever returned are those of the slots past
    [Pending], of [cut] and of [done], and the messages ever committed are
    those of the [Delivered] slots and of [done]: a message that was begun is
    never requeued, each is begun and committed at most once per ownership,
    and only a hard teardown or actor drop completes one undelivered. The owned
    identities are distinct and stand in admission order. *)
Theorem delivery_exactly_once l slots :
  reaches l slots ->
  (∃ dropped cut done, accounted l slots dropped cut done)
  ∧ NoDup (map (fun o => identity (message o)) (map owned slots))
  ∧ map owned slots `sublist_of` admitted l.
Proof. intros Hr. split; [by apply reaches_accounted|by apply reaches_slots]. Qed.

(** Two-phase delivery. [finish_delivery] offers the commit callback exactly
    the batch of the turn's projecting messages, in slot order, and nothing
    when there is none. If the commit fails its error is returned and the slots
    are unchanged, so a retry offers the same batch; if it succeeds the batch
    is returned and any later call for the turn returns an empty batch without
    changing the slots, whatever its callback: the batch is committed once. *)
Theorem finish_delivery_two_phase {Error} b (commit : _ -> result unit Error) slots :
  let batch := projecting_messages b slots in
  let slots' := snd (finish_delivery b commit slots) in
  match fst (finish_delivery b commit slots) with
  | Ok messages =>
      messages = batch ∧ (batch ≠ [] -> commit batch = Ok tt)
      ∧ ∀ commit', finish_delivery (Error := Error) b commit' slots' = (Ok [], slots')
  | Err e => batch ≠ [] ∧ commit batch = Err e ∧ slots' = slots
  end.
Proof. apply finish_delivery_cases. Qed.

End Lifecycle.

(** ** A concrete run *)

Definition ex_binding : @TurnBinding nat nat := mkBinding 1 0.
Definition ex_message (i : nat) : @DeliveryMessage nat unit nat := mkMessage i tt (10 * i).
Definition ex_begun : @Slots nat unit nat unit nat nat :=
  snd (begin_delivery ex_binding
    (snd (admit_pending ex_binding (ex_message 1) tt empty_lifecycle))).
(** Message 1 is projecting, message 2 arrived after the safe point. *)
Definition ex_slots : @Slots nat unit nat unit nat nat :=
  snd (admit_pending ex_binding (ex_message 2) tt ex_begun).

(** A soft cancel requeues the message that had not begun only. *)
Example ex_soft_cancel :
  transition (Turn ex_binding) SoftCancel ex_slots
  = (mkTransition [mkOwned ex_binding (ex_message 2) tt] [mkOwned ex_binding (ex_message 1) tt], []).
Proof. reflexivity. Qed.

(** Message 1 was begun and then cut by the soft cancel that requeued message 2. *)
Definition ex_ledger : @Ledger nat unit nat unit nat nat :=
  mkLedger [mkOwned ex_binding (ex_message 1) tt; mkOwned ex_binding (ex_message 2) tt]
    [ex_message 1] [] [mkOwned ex_binding (ex_message 2) tt]
    [mkOwned ex_binding (ex_message 1) tt] false.

Lemma delivery_exactly_once_witness :
  (∃ dropped cut done, accounted ex_ledger [] dropped cut done)
  ∧ NoDup (map (fun o => identity (message o)) (map owned ([] : @Slots nat unit nat unit nat nat)))
  ∧ map owned [] `sublist_of` admitted ex_ledger.
Proof.
  apply (delivery_exactly_once ex_ledger []).
  assert (H1 : reaches _ (snd (admit_pending ex_binding (ex_message 1) tt empty_lifecycle)))
    by (eapply reach_admit; [apply reach_default|reflexivity]).
  assert (H2 : reaches _ ex_begun)
    by (eapply (reach_begin _ _ _ ex_binding); [exact H1|reflexivity]).
  assert (H3 : reaches _ ex_slots)
    by (eapply (reach_admit _ _ _ ex_binding (ex_message 2) tt); [exact H2|reflexivity]).
  exact (reach_terminal _ _ [] (Turn ex_binding) SoftCancel _ H3 eq_refl).
Defined.
