(* ===== verification/DeliveryIds.v ===== *)
(** * Delivery addresses and agent identities

    [crates/common/xai-message-delivery-core/src/address.rs] and [identity.rs]:
    the opaque tokens a child agent is addressed by, the restart-stable agent
    and attempt ids, their minting from host entropy and their parsing, and the
    decision whether a presented token reaches a child. The tokens' newtypes
    are their strings. *)

From S2P Require Export RustStr.

(** ** Addresses *)

(** Source: crates/common/xai-message-delivery-core/src/address.rs:5-5, [ADDRESS_PREFIX]. *)
Definition ADDRESS_PREFIX : str := lit "aa1.".

(** Source: crates/common/xai-message-delivery-core/src/address.rs:7-9, [AgentAddress]. *)
Definition AgentAddress := str.

(** Source: crates/common/xai-message-delivery-core/src/address.rs:12-16, [AgentAddress::mint]. *)
Definition address_mint (entropy : N) : AgentAddress := ADDRESS_PREFIX ++ show_hex entropy.

(** Source: crates/common/xai-message-delivery-core/src/address.rs:129-134, [is_presentable]. *)
Definition is_presentable (token : str) : bool :=
  negb (is_empty token)
  && negb (eq_ignore_ascii_case token (lit "null"))
  && negb (eq_ignore_ascii_case token (lit "none"))
  && negb (eq_ignore_ascii_case token (lit "undefined")).

(** Source: crates/common/xai-message-delivery-core/src/address.rs:19-26, [AgentAddress::parse]. *)
Definition address_parse (token : str) : option AgentAddress :=
  let token := trim token in
  if negb (is_presentable token) then None else Some token.

(** Source: crates/common/xai-message-delivery-core/src/address.rs:47-54, [mint_child_address]. *)
Definition mint_child_address (workflow : bool) (entropy : N) : option AgentAddress :=
  if workflow then None else Some (address_mint entropy).

(** Source: crates/common/xai-message-delivery-core/src/address.rs:57-64, [advertised_address]. *)
Definition advertised_address (stored : option str) (workflow : bool) : option str :=
  if workflow then None
  else match stored with
       | Some token => match address_parse token with Some _ => Some token | None => None end
       | None => None
       end.

(** Source: crates/common/xai-message-delivery-core/src/address.rs:66-72, [AddressPresence]. *)
Inductive AddressPresence := Active | PresencePending | Gone.

#[export] Instance AddressPresence_eq_dec : EqDecision AddressPresence.
Proof. solve_decision. Defined.

(** Source: crates/common/xai-message-delivery-core/src/address.rs:74-83, [AddressCandidate]. *)
Record AddressCandidate := mkCandidate {
  stored_address : option str;
  session_id : str;
  owner_match : bool;
  generation_current : bool;
  workflow : bool;
  presence : AddressPresence
}.

(** Source: crates/common/xai-message-delivery-core/src/address.rs:85-94, [AddressDecision]. *)
Inductive AddressDecision :=
  | Owned (p : AddressPresence)
  | RawSessionId
  | Foreign
  | Stale
  | WorkflowNotAddressable
  | Unresolved.

(** Source: crates/common/xai-message-delivery-core/src/address.rs:97-127, [resolve_address]. *)
Definition resolve_address (presented : str) (candidate : option AddressCandidate) : AddressDecision :=
  match candidate with
  | None => Unresolved
  | Some c =>
      let presented := trim presented in
      let address_match := match stored_address c with
                           | Some stored => str_eqb stored presented
                           | None => false
                           end in
      if str_eqb (session_id c) presented && negb address_match then RawSessionId
      else if negb address_match then Unresolved
      else if workflow c then WorkflowNotAddressable
      else if negb (owner_match c) then Foreign
      else if negb (generation_current c) || bool_decide (presence c = Gone) then Stale
      else Owned (presence c)
  end.

(** ** Agent and attempt ids *)

(** Source: crates/common/xai-message-delivery-core/src/identity.rs:5-5, [AGENT_PREFIX]. *)
Definition AGENT_PREFIX : str := lit "ag1.".
(** Source: crates/common/xai-message-delivery-core/src/identity.rs:6-6, [ATTEMPT_PREFIX]. *)
Definition ATTEMPT_PREFIX : str := lit "at1.".
(** Source: crates/common/xai-message-delivery-core/src/identity.rs:7-7, [UUID_TOKEN_LEN]. *)
Definition UUID_TOKEN_LEN : nat := 36.
(** Source: crates/common/xai-message-delivery-core/src/identity.rs:8-8, [UUID_HYPHENS]. *)
Definition UUID_HYPHENS : list nat := [8; 13; 18; 23].
(** Source: crates/common/xai-message-delivery-core/src/identity.rs:9-9, [UUID_V7_INDEX]. *)
Definition UUID_V7_INDEX : nat := 14.
(** Source: crates/common/xai-message-delivery-core/src/identity.rs:10-10, [UUID_VARIANT_INDEX]. *)
Definition UUID_VARIANT_INDEX : nat := 19.

(** [bytes().enumerate().all(f)], from index [i]. *)
Fixpoint all_indexed (f : nat -> ascii -> bool) (i : nat) (s : str) : bool :=
  match s with
  | [] => true
  | c :: s' => f i c && all_indexed f (S i) s'
  end.

(** The two indexed bytes exist once the length was checked.

    Source: crates/common/xai-message-delivery-core/src/identity.rs:129-143, [is_uuid_v7]. *)
Definition is_uuid_v7 (token : str) : bool :=
  Nat.eqb (length token) UUID_TOKEN_LEN
  && all_indexed (fun i c =>
       if existsb (Nat.eqb i) UUID_HYPHENS then ch_eqb c (byte 45) else is_lower_hex c) 0 token
  && match token !! UUID_V7_INDEX with Some c => ch_eqb c (byte 55) | None => false end
  && match token !! UUID_VARIANT_INDEX with
     | Some c => ch_eqb c (byte 56) || ch_eqb c (byte 57) || ch_eqb c (byte 97) || ch_eqb c (byte 98)
     | None => false
     end.

(** Source: crates/common/xai-message-delivery-core/src/identity.rs:145-156, [parse_prefixed]. *)
Definition parse_prefixed (token prefix : str) : option str :=
  let token := trim token in
  match strip_prefix prefix token with
  | None => None
  | Some rest =>
      if is_empty rest || negb (forallb is_lower_hex rest) then None else Some token
  end.

(** Source: crates/common/xai-message-delivery-core/src/identity.rs:12-14, [AgentId]. *)
Definition AgentId := str.
(** Source: crates/common/xai-message-delivery-core/src/identity.rs:58-60, [AttemptId]. *)
Definition AttemptId := str.

(** Source: crates/common/xai-message-delivery-core/src/identity.rs:17-21, [AgentId::mint]. *)
Definition agent_mint (entropy : N) : AgentId := AGENT_PREFIX ++ show_hex entropy.

(** Source: crates/common/xai-message-delivery-core/src/identity.rs:23-31, [AgentId::parse]. *)
Definition agent_parse (token : str) : option AgentId :=
  let token := trim token in
  if is_uuid_v7 token then Some token else parse_prefixed token AGENT_PREFIX.

(** Source: crates/common/xai-message-delivery-core/src/identity.rs:33-38, [AgentId::from_uuid_v7]. *)
Definition agent_from_uuid_v7 (token : str) : option AgentId :=
  if is_uuid_v7 token then Some token else None.

(** Source: crates/common/xai-message-delivery-core/src/identity.rs:63-67, [AttemptId::mint]. *)
Definition attempt_mint (entropy : N) : AttemptId := ATTEMPT_PREFIX ++ show_hex entropy.

(** Source: crates/common/xai-message-delivery-core/src/identity.rs:69-73, [AttemptId::parse]. *)
Definition attempt_parse (token : str) : option AttemptId := parse_prefixed token ATTEMPT_PREFIX.

(** Source: crates/common/xai-message-delivery-core/src/identity.rs:93-102, [IdentityAction]. *)
Inductive IdentityAction :=
  | Start (agent : AgentId) (attempt : AttemptId)
  | Resume (agent : AgentId) (attempt : AttemptId)
  | Fork (agent : AgentId) (attempt : AttemptId).

(** Source: crates/common/xai-message-delivery-core/src/identity.rs:104-127, [next_identity]. *)
Definition next_identity (previous : option AgentId) (fork : bool)
    (agent_entropy attempt_entropy : N) : IdentityAction :=
  let attempt := attempt_mint attempt_entropy in
  match previous with
  | None => Start (agent_mint agent_entropy) attempt
  | Some agent =>
      if fork then Fork (agent_mint agent_entropy) attempt else Resume agent attempt
  end.

(** ** Hexadecimal tokens *)

Definition token_char (c : ascii) : Prop :=
  N.ltb (N_of_ascii c) 128 = true ∧ is_whitespace [c] = false.

Lemma is_lower_hex_token c : is_lower_hex c = true -> token_char c.
Proof.
  unfold is_lower_hex, ch_between, token_char, is_whitespace. intros Hc. cbn [map].
  rewrite orb_true_iff, !andb_true_iff, !N.leb_le in Hc.
  rewrite N.ltb_lt. rewrite orb_false_iff, andb_false_iff, !N.leb_gt, N.eqb_neq. lia.
Qed.

Lemma token_trim s : Forall token_char s -> trim s = s.
Proof. intros Hs. apply trim_ascii; eapply Forall_impl; try done; by intros ? []. Qed.

Lemma hex_token prefix entropy : Forall token_char prefix -> Forall token_char (prefix ++ show_hex entropy).
Proof.
  intros Hp. apply Forall_app. split; [done|].
  eapply Forall_impl; [apply show_hex_digits|]. apply is_lower_hex_token.
Qed.

Lemma show_hex_inj a b : show_hex a = show_hex b -> a = b.
Proof.
  unfold show_hex, lit. intros Heq.
  apply (f_equal String.string_of_list_ascii) in Heq.
  rewrite !String.string_of_list_ascii_of_string in Heq.
  apply (f_equal HexadecimalString.NilEmpty.uint_of_string) in Heq.
  rewrite !HexadecimalString.NilEmpty.usu in Heq. injection Heq as Heq.
  by apply HexadecimalN.Unsigned.to_uint_inj.
Qed.

Ltac token_prefix := repeat constructor; vm_compute; reflexivity.

Lemma forallb_Forall {A} (f : A -> bool) l : forallb f l = true <-> Forall (fun x => f x = true) l.
Proof. by rewrite forallb_forall, List.Forall_forall. Qed.

Lemma parse_prefixed_mint prefix entropy :
  Forall token_char prefix ->
  parse_prefixed (prefix ++ show_hex entropy) prefix = Some (prefix ++ show_hex entropy).
Proof.
  intros Hp. unfold parse_prefixed. rewrite token_trim by by apply hex_token.
  rewrite (proj2 (strip_prefix_spec _ _ _) eq_refl).
  destruct (show_hex_digits entropy) as [Hd Hne].
  rewrite (proj2 (forallb_Forall _ _)) by done. by destruct (show_hex entropy).
Qed.

Lemma starts_with_cons_ne x y p s : x ≠ y -> starts_with (x :: p) (y :: s) = false.
Proof. intros Hne. simpl. destruct (ch_eqb x y) eqn:E; [|done]. by apply ch_eqb_eq in E. Qed.

(** The two kinds of id are told apart by their second byte. *)
Lemma parse_prefixed_other a b prefix entropy :
  Forall token_char (a :: b :: prefix) ->
  ∀ a' b' prefix', b ≠ b' ->
  parse_prefixed ((a :: b :: prefix) ++ show_hex entropy) (a' :: b' :: prefix') = None.
Proof.
  intros Hp a' b' prefix' Hne. unfold parse_prefixed. rewrite token_trim by by apply hex_token.
  unfold strip_prefix. cbn [starts_with app].
  destruct (ch_eqb b' b) eqn:E; [by apply ch_eqb_eq in E|]. by rewrite andb_false_r.
Qed.

Lemma attempt_not_uuid entropy : is_uuid_v7 (attempt_mint entropy) = false.
Proof.
  unfold is_uuid_v7, attempt_mint.
  destruct (Nat.eqb _ _); [|done]. reflexivity.
Qed.

(** Whatever an id parser returns is the trimmed token, and parses to itself. *)
Lemma parse_prefixed_sound token prefix a :
  parse_prefixed token prefix = Some a -> a = trim token ∧ parse_prefixed a prefix = Some a.
Proof.
  unfold parse_prefixed. destruct (strip_prefix prefix (trim token)) as [rest|] eqn:E; [|done].
  destruct (is_empty rest || _) eqn:Er; [done|]. intros [= <-]. split; [done|].
  by rewrite trim_idem, E, Er.
Qed.

Lemma agent_parse_sound token a :
  agent_parse token = Some a -> a = trim token ∧ agent_parse a = Some a.
Proof.
  unfold agent_parse. destruct (is_uuid_v7 (trim token)) eqn:E.
  - intros [= <-]. by rewrite trim_idem, E.
  - intros [-> Hp]%parse_prefixed_sound. rewrite ?trim_idem in *. split; [done|]. by rewrite E.
Qed.

Lemma agent_prefix_token : Forall token_char AGENT_PREFIX.
Proof. token_prefix. Qed.
Lemma attempt_prefix_token : Forall token_char ATTEMPT_PREFIX.
Proof. token_prefix. Qed.
Lemma address_prefix_token : Forall token_char ADDRESS_PREFIX.
Proof. token_prefix. Qed.

#[export] Hint Resolve agent_prefix_token attempt_prefix_token address_prefix_token hex_token : grok.

(** A UUIDv7 handle is adopted as it is: it holds no white space to trim. *)
Lemma all_indexed_token f i s :
  (∀ j c, f j c = true -> token_char c) -> all_indexed f i s = true -> Forall token_char s.
Proof.
  intros Hf. revert i. induction s as [|c s IH]; intros i Hs; simpl in Hs; [done|].
  apply andb_true_iff in Hs as [Hc Hs]. constructor; eauto.
Qed.

Lemma uuid_trim token : is_uuid_v7 token = true -> trim token = token.
Proof.
  unfold is_uuid_v7. intros Hu. nbool. apply token_trim. eapply all_indexed_token; [|done].
  intros j c. cbn beta. destruct (existsb _ _); [|apply is_lower_hex_token].
  intros ->%ch_eqb_eq. split; reflexivity.
Qed.

Lemma from_uuid_v7_parse token a :
  agent_from_uuid_v7 token = Some a -> a = token ∧ agent_parse token = Some a.
Proof.
  unfold agent_from_uuid_v7, agent_parse. destruct (is_uuid_v7 token) eqn:E; [|done].
  intros [= <-]. by rewrite uuid_trim, E.
Qed.

Lemma address_parse_mint entropy : address_parse (address_mint entropy) = Some (address_mint entropy).
Proof.
  unfold address_parse, address_mint. by rewrite token_trim by auto with grok.
Qed.

(** A minted address is advertised for every child but a workflow's. *)
Lemma advertised_mint wf entropy :
  advertised_address (mint_child_address wf entropy) wf = mint_child_address wf entropy.
Proof.
  destruct wf; [done|]. unfold mint_child_address, advertised_address.
  by rewrite address_parse_mint.
Qed.

(** A resume keeps the agent; a start or a fork mints one; every activation
    mints its attempt. *)
Lemma next_identity_cases previous fork ae te :
  next_identity previous fork ae te
  = match previous, fork with
    | Some agent, false => Resume agent (attempt_mint te)
    | Some _, true => Fork (agent_mint ae) (attempt_mint te)
    | None, _ => Start (agent_mint ae) (attempt_mint te)
    end.
Proof. by destruct previous, fork. Qed.

(** ** Theorems *)

(** Identity round trips. An agent or attempt id minted from any entropy
    parses to itself; distinct entropies mint distinct ids; and neither parser
    accepts an id of the other kind. *)
Theorem identity_roundtrip a b :
  agent_parse (agent_mint a) = Some (agent_mint a)
  ∧ attempt_parse (attempt_mint a) = Some (attempt_mint a)
  ∧ (agent_mint a = agent_mint b <-> a = b)
  ∧ (attempt_mint a = attempt_mint b <-> a = b)
  ∧ agent_parse (attempt_mint b) = None
  ∧ attempt_parse (agent_mint b) = None.
Proof.
  split_and!.
  - unfold agent_parse, agent_mint. rewrite token_trim by auto with grok.
    rewrite parse_prefixed_mint by auto with grok. by destruct (is_uuid_v7 _).
  - apply parse_prefixed_mint. auto with grok.
  - split; [|by intros ->]. intros ?%app_inv_head. by apply show_hex_inj.
  - split; [|by intros ->]. intros ?%app_inv_head. by apply show_hex_inj.
  - unfold agent_parse.
    assert (trim (attempt_mint b) = attempt_mint b) as ->
      by (apply token_trim, hex_token, attempt_prefix_token).
    rewrite attempt_not_uuid. by apply (parse_prefixed_other _ _ _ b attempt_prefix_token).
  - by apply (parse_prefixed_other _ _ _ b agent_prefix_token).
Qed.

(** A presented token reaches a child exactly when, trimmed, it is the
    address stored for it, the child is not a workflow's, belongs to the
    presenter, is of the current generation and is not gone; in particular a
    session id is never an address. *)
Theorem resolve_address_owned presented c p :
  resolve_address presented (Some c) = Owned p
  <-> stored_address c = Some (trim presented) ∧ workflow c = false ∧ owner_match c = true
      ∧ generation_current c = true ∧ presence c = p ∧ p ≠ Gone.
Proof.
  unfold resolve_address. cbn zeta.
  destruct (stored_address c) as [stored|]; cbn [negb andb].
  - destruct (str_eqb stored (trim presented)) eqn:E; cbn [negb].
    + apply str_eqb_eq in E as ->. rewrite andb_false_r.
      destruct (workflow c), (owner_match c), (generation_current c), (presence c); simpl; naive_solver.
    + split.
      * destruct (str_eqb (session_id c) _); done.
      * intros ([= ->] & _). by rewrite str_eqb_refl in E.
  - split; [destruct (str_eqb (session_id c) _); done|by intros [? _]].
Qed.
