(* ===== verification/Interjection.v ===== *)
(** * Mid-turn interjections

    [crates/common/xai-interjection-core/src]: the event queue producers push to
    and readers drain at hook points ([events.rs]), the framing of a user's
    mid-turn message ([format.rs]) and the drain that frames each entry
    ([buffer.rs]). The clones of a queue share one [Mutex<Vec<E>>] and every
    method is one critical section of it: a method is a function from the
    shared vector to its answer and the new vector, and an interleaving of
    threads is a sequence of methods. *)

From S2P Require Export RustStr.

(** ** The event queue *)

Section Events.
Context {E : Type}.

(** Source: crates/common/xai-interjection-core/src/events.rs:8-11, [EventQueue]. *)
Definition EventQueue := list E.

(** Source: crates/common/xai-interjection-core/src/events.rs:28-32, [EventQueue::new]. *)
Definition queue_new : EventQueue := [].

(** Source: crates/common/xai-interjection-core/src/events.rs:34-37, [EventQueue::push]. *)
Definition queue_push (event : E) (q : EventQueue) : EventQueue := q ++ [event].

(** Source: crates/common/xai-interjection-core/src/events.rs:39-47, [EventQueue::push_capped]. *)
Definition queue_push_capped (event : E) (max : nat) (q : EventQueue) : EventQueue :=
  let q := q ++ [event] in
  if Nat.ltb max (length q) then
    let excess := length q - max in drop excess q
  else q.

(** Source: crates/common/xai-interjection-core/src/events.rs:49-51, [EventQueue::len]. *)
Definition queue_len (q : EventQueue) : nat := length q.

(** Source: crates/common/xai-interjection-core/src/events.rs:57-65, [EventQueue::drain_matching]. *)
Definition queue_drain_matching (f : E -> bool) (q : EventQueue) : list E * EventQueue :=
  List.partition f q.

(** Source: crates/common/xai-interjection-core/src/events.rs:67-70, [EventQueue::drain_all]. *)
Definition queue_drain_all (q : EventQueue) : list E * EventQueue := (q, []).

(** Source: crates/common/xai-interjection-core/src/events.rs:72-82, [EventQueue::restore_front]. *)
Definition queue_restore_front (events : list E) (q : EventQueue) : EventQueue :=
  if is_empty events then q else events ++ q.

(** Source: crates/common/xai-interjection-core/src/events.rs:84-87, [EventQueue::clear]. *)
Definition queue_clear (q : EventQueue) : EventQueue := [].

(** Source: crates/common/xai-interjection-core/src/events.rs:94-98, [EventQueue::snapshot]. *)
Definition queue_snapshot (q : EventQueue) : list E := q.

(** ** Order and conservation *)

(** What is drained and what is retained, each in queue order. *)
Lemma drain_matching_eq f q :
  queue_drain_matching f q = (List.filter f q, List.filter (fun e => negb (f e)) q).
Proof.
  unfold queue_drain_matching. induction q as [|e q IH]; simpl; [done|].
  rewrite IH. by destruct (f e).
Qed.

Lemma drain_matching_conserves f q :
  q ≡ₚ fst (queue_drain_matching f q) ++ snd (queue_drain_matching f q).
Proof.
  rewrite drain_matching_eq. induction q as [|e q IH]; simpl; [done|].
  destruct (f e); simpl; rewrite IH at 1; solve_Permutation.
Qed.

(** A drain with a predicate leaves nothing for a second one. *)
Lemma drain_matching_twice f q :
  fst (queue_drain_matching f (snd (queue_drain_matching f q))) = [].
Proof.
  rewrite !drain_matching_eq. simpl. induction q as [|e q IH]; simpl; [done|].
  destruct (f e) eqn:Ef; simpl; by rewrite ?Ef.
Qed.

(** The cap keeps the newest [max] events, and forgets one at most when the
    queue respected the cap before. *)
Lemma push_capped_eq event max q :
  queue_push_capped event max q = drop (S (length q) - max) (q ++ [event]).
Proof.
  unfold queue_push_capped. cbn zeta. rewrite length_app. cbn [length].
  destruct (Nat.ltb_spec max (length q + 1)).
  - f_equal. lia.
  - replace (S (length q) - max) with 0 by lia. done.
Qed.

Lemma push_capped_length event max q : length (queue_push_capped event max q) ≤ max.
Proof. rewrite push_capped_eq, length_drop, length_app. simpl. lia. Qed.

(** Cancel safety: a reader that drained everything and gives back what it did
    not process leaves the queue as if it had drained the processed part
    only, whatever was pushed in between. *)
Lemma restore_after_drain (processed remainder pushed : list E) q :
  q = processed ++ remainder ->
  let '(drained, q1) := queue_drain_all q in
  let q2 := foldl (fun q e => queue_push e q) q1 pushed in
  queue_restore_front (drop (length processed) drained) q2 = remainder ++ pushed.
Proof.
  intros ->. cbn. rewrite drop_app_length.
  assert (∀ acc, foldl (fun q e => queue_push e q) acc pushed = acc ++ pushed) as ->.
  { induction pushed as [|e l IH]; intros acc; simpl; [by rewrite app_nil_r|].
    rewrite IH. unfold queue_push. by rewrite <- app_assoc. }
  unfold queue_restore_front. by destruct remainder.
Qed.

End Events.

(** ** Framing *)

(** Source: crates/common/xai-interjection-core/src/format.rs:2-2, [LARGE_PROMPT_THRESHOLD]. *)
Definition LARGE_PROMPT_THRESHOLD : N := 25000.
(** Source: crates/common/xai-interjection-core/src/format.rs:4-4, [INTERJECTION_NOTE]. *)
Definition INTERJECTION_NOTE : str := lit "The user sent a message while you were working:".
(** Source: crates/common/xai-interjection-core/src/format.rs:5-5, [INTERRUPT_NOTE]. *)
Definition INTERRUPT_NOTE : str := lit "The user interrupted the previous turn:".
(** Source: crates/common/xai-interjection-core/src/format.rs:8-9, [UNFINISHED_TASKS_REMINDER]. *)
Definition UNFINISHED_TASKS_REMINDER : str :=
  lit "Make sure to complete any unfinished tasks from previous turns.".

(** Source: crates/common/xai-interjection-core/src/format.rs:11-18, [user_query]. *)
Definition user_query (user_message : str) : str :=
  lit "<user_query>" ++ nl ++ user_message ++ nl ++ lit "</user_query>".

(** Source: crates/common/xai-interjection-core/src/format.rs:20-24, [frame_user_turn]. *)
Definition frame_user_turn (note assembled : str) : str :=
  note ++ nl ++ assembled ++ nl ++ UNFINISHED_TASKS_REMINDER.

(** [char_indices()], from byte offset [i]. *)
Fixpoint char_indices (i : nat) (l : list str) : list (nat * str) :=
  match l with
  | [] => []
  | ch :: l' => (i, ch) :: char_indices (i + length ch) l'
  end.

Fixpoint take_while {A} (f : A -> bool) (l : list A) : list A :=
  match l with
  | [] => []
  | x :: l' => if f x then x :: take_while f l' else []
  end.

(** The cut position.

    Source: crates/common/xai-interjection-core/src/format.rs:30-35, [format_steered_query]. *)
Definition steered_end (text : str) : nat :=
  match last (take_while (fun '(i, _) => N.ltb (N.of_nat i) LARGE_PROMPT_THRESHOLD)
                (char_indices 0 (chars text))) with
  | Some (i, c) => i + length c
  | None => length text
  end.

(** Source: crates/common/xai-interjection-core/src/format.rs:26-39, [format_steered_query]. *)
Definition format_steered_query (note text : str) : str :=
  let truncated :=
    if N.leb (N.of_nat (length text)) LARGE_PROMPT_THRESHOLD then text
    else take (steered_end text) text ++ lit "... [truncated]" in
  frame_user_turn note (user_query truncated).

(** Source: crates/common/xai-interjection-core/src/format.rs:41-45, [format_interjection]. *)
Definition format_interjection (text : str) : str := format_steered_query INTERJECTION_NOTE text.
(** Source: crates/common/xai-interjection-core/src/format.rs:47-51, [format_interrupt]. *)
Definition format_interrupt (text : str) : str := format_steered_query INTERRUPT_NOTE text.

(** ** The buffer *)

(** Source: crates/common/xai-interjection-core/src/buffer.rs:6-12, [PendingInterjection]. *)
Record PendingInterjection (Attachment : Type) := mkPending {
  pi_text : str;
  pi_attachments : list Attachment
}.
Arguments mkPending {_} _ _.
Arguments pi_text {_} _.
Arguments pi_attachments {_} _.

(** Source: crates/common/xai-interjection-core/src/buffer.rs:14-19, [FormattedInterjection]. *)
Record FormattedInterjection (Attachment : Type) := mkFormatted {
  fi_text : str;
  fi_attachments : list Attachment
}.
Arguments mkFormatted {_} _ _.
Arguments fi_text {_} _.
Arguments fi_attachments {_} _.

(** Source: crates/common/xai-interjection-core/src/buffer.rs:24-24, [InterjectionBuffer]. *)
Definition InterjectionBuffer (Attachment : Type) := @EventQueue (PendingInterjection Attachment).

(** Source: crates/common/xai-interjection-core/src/buffer.rs:26-42, [drain_formatted]. *)
Definition drain_formatted {Attachment} (sanitize_text : str -> str)
    (buffer : InterjectionBuffer Attachment) :
    list (FormattedInterjection Attachment) * InterjectionBuffer Attachment :=
  let '(entries, buffer) := queue_drain_all buffer in
  (map (fun e => mkFormatted (format_interjection (sanitize_text (pi_text e))) (pi_attachments e))
     entries,
   buffer).

(** ** The cut *)

(** The kept part is whole characters, all those that start below the limit. *)
Lemma steered_cut limit i l :
  match last (take_while (fun '(i, _) => N.ltb (N.of_nat i) limit) (char_indices i l)) with
  | Some (j, c) =>
      ∃ n, j + length c = i + length (concat (take n l)) ∧ n ≤ length l
           ∧ (n = length l ∨ limit <= N.of_nat (j + length c))%N ∧ (N.of_nat j < limit)%N
           ∧ In c l
  | None => l = [] ∨ (limit <= N.of_nat i)%N
  end.
Proof.
  revert i. induction l as [|ch l IH]; intros i; [by left|]. cbn [char_indices take_while].
  destruct (N.ltb_spec (N.of_nat i) limit) as [Hi|Hi]; [|by right].
  specialize (IH (i + length ch)). rewrite last_cons.
  destruct (last _) as [[j c]|].
  - destruct IH as (n & Hj & Hn & Hl & Hlt & Hin). exists (S n). cbn [take concat firstn length].
    rewrite length_app. split_and!; [lia|lia| |done|by right].
    destruct Hl; [left; lia|by right].
  - exists 1. cbn. rewrite app_nil_r. split_and!; [done|lia| |done|by left].
    destruct IH as [->|]; [by left|by right].
Qed.

Lemma concat_take_prefix n (l : list str) : concat (take n l) `prefix_of` concat l.
Proof. exists (concat (drop n l)). by rewrite <- concat_app, take_drop. Qed.

(** Taking as many bytes as [n] characters have takes these characters. *)
Lemma take_chars n text :
  take (length (concat (take n (chars text)))) text = concat (take n (chars text)).
Proof.
  destruct (concat_take_prefix n (chars text)) as [r Hr]. rewrite concat_chars in Hr.
  rewrite Hr at 2. by rewrite take_app_length.
Qed.

Lemma steered_end_spec text :
  Forall (fun ch => length ch ≤ 4) (chars text) ->
  (LARGE_PROMPT_THRESHOLD < N.of_nat (length text))%N ->
  ∃ n, take (steered_end text) text = concat (take n (chars text))
       ∧ (LARGE_PROMPT_THRESHOLD <= N.of_nat (steered_end text) <= LARGE_PROMPT_THRESHOLD + 3)%N
       ∧ steered_end text ≤ length text.
Proof.
  intros H4 Hlong. unfold steered_end.
  pose proof (steered_cut LARGE_PROMPT_THRESHOLD 0 (chars text)) as Hc.
  destruct (last _) as [[j c]|].
  - destruct Hc as (n & Hj & Hn & Hl & Hlt & Hin). exists n.
    cbn [Nat.add] in Hj. rewrite Hj. split; [by apply take_chars|].
    pose proof (prefix_length _ _ (concat_take_prefix n (chars text))) as Hp.
    rewrite concat_chars in Hp. split; [|done]. rewrite <- Hj.
    assert (Hc4 : length c ≤ 4) by (by apply (proj1 (List.Forall_forall _ _) H4)).
    split; [|lia]. destruct Hl as [Hall|Hge]; [|done].
    rewrite Hj, Hall, firstn_all, concat_chars. lia.
  - destruct Hc as [Hnil|Hge]; [|unfold LARGE_PROMPT_THRESHOLD in Hge; lia].
    rewrite <- (concat_chars text), Hnil in Hlong. cbn in Hlong.
    unfold LARGE_PROMPT_THRESHOLD in Hlong. lia.
Qed.

(** The framing of a mid-turn message, with either note. A text of at most
    25,000 bytes is framed whole. A longer one, whose characters are at most
    four bytes as UTF-8's are, is cut at a character boundary into a prefix of
    25,000 to 25,003 bytes followed by the mark. *)
Theorem format_steered_query_spec note text :
  Forall (fun ch => length ch ≤ 4) (chars text) ->
  ∃ body, format_steered_query note text = frame_user_turn note (user_query body)
    ∧ ((N.of_nat (length text) <= LARGE_PROMPT_THRESHOLD)%N -> body = text)
    ∧ ((LARGE_PROMPT_THRESHOLD < N.of_nat (length text))%N ->
       ∃ n, body = concat (take n (chars text)) ++ lit "... [truncated]"
            ∧ (LARGE_PROMPT_THRESHOLD <= N.of_nat (length (concat (take n (chars text))))
               <= LARGE_PROMPT_THRESHOLD + 3)%N).
Proof.
  intros H4. eexists. split; [done|].
  destruct (N.leb_spec (N.of_nat (length text)) LARGE_PROMPT_THRESHOLD) as [Hle|Hlt].
  - split; [done|lia].
  - split; [lia|]. intros _. destruct (steered_end_spec text H4 Hlt) as (n & Ht & Hb & Hlen).
    exists n. rewrite <- Ht. split; [done|]. by rewrite length_take_le.
Qed.

Lemma format_steered_query_spec_witness :
  Forall (fun ch => length ch ≤ 4) (chars (lit "stop" ++ zwsp))
  ∧ ∃ body, format_steered_query INTERRUPT_NOTE (lit "stop" ++ zwsp)
            = frame_user_turn INTERRUPT_NOTE (user_query body).
Proof.
  assert (H4 : Forall (fun ch => length ch ≤ 4) (chars (lit "stop" ++ zwsp)))
    by (repeat constructor; vm_compute; lia).
  split; [exact H4|].
  destruct (format_steered_query_spec INTERRUPT_NOTE _ H4) as (body & Hb & _). by exists body.
Defined.

(** The buffer's drain: one framed message per entry, in order, and an empty
    buffer. *)
Lemma drain_formatted_eq {Attachment} sanitize_text (buffer : InterjectionBuffer Attachment) :
  drain_formatted sanitize_text buffer
  = (map (fun e => mkFormatted (format_interjection (sanitize_text (pi_text e))) (pi_attachments e))
       buffer, []).
Proof. reflexivity. Qed.
