(* ===== verification/PromptQueue.v ===== *)
(** * The prompt queue: combining queued follow-ups

    [crates/codegen/xai-prompt-queue/src]: which queued prompts are merged into
    one turn and how their texts are joined ([combine.rs]), with the queue's row
    and broadcast types ([types.rs], whose serde codecs are derived). *)

From S2P Require Export RustStr.

(** ** Rows *)

(** Source: crates/codegen/xai-prompt-queue/src/types.rs:7-26, [QueueEntryMeta]. *)
Record QueueEntryMeta := mkEntryMeta {
  qm_id : str;
  qm_version : N;
  qm_owner : option str;
  qm_last_editor : option str;
  qm_kind : str;
  qm_text : str;
  qm_combined_texts : option (list str)
}.

(** Source: crates/codegen/xai-prompt-queue/src/types.rs:28-51, [QueueEntryWire]. *)
Record QueueEntryWire := mkEntryWire {
  qw_id : str;
  qw_version : N;
  qw_owner : option str;
  qw_last_editor : option str;
  qw_kind : str;
  qw_text : str;
  qw_combined_texts : option (list str);
  qw_position : nat
}.

(** Source: crates/codegen/xai-prompt-queue/src/types.rs:53-76, [QueueChanged]. *)
Record QueueChanged := mkQueueChanged {
  qc_session_id : str;
  qc_entries : list QueueEntryWire;
  qc_running_prompt_id : option str;
  qc_running_text : option str;
  qc_running_kind : option str;
  qc_running_combined_texts : option (list str)
}.

(** Source: crates/codegen/xai-prompt-queue/src/types.rs:3-5, [COMBINED_DISPLAY_TEXTS_META]. *)
Definition COMBINED_DISPLAY_TEXTS_META : str := lit "combinedDisplayTexts".

(** ** Merge rules *)

(** Source: crates/codegen/xai-prompt-queue/src/combine.rs:8-9, [TEXT_SEPARATOR]. *)
Definition TEXT_SEPARATOR : str := nl ++ nl.

(** Source: crates/codegen/xai-prompt-queue/src/combine.rs:11-27, [CombineGate]. *)
Record CombineGate := mkGate {
  id : str;
  is_plain_prompt : bool;
  is_synthetic : bool;
  is_expanded_skill : bool;
  is_bash : bool;
  has_images : bool;
  text : str
}.

(** Source: crates/codegen/xai-prompt-queue/src/combine.rs:29-32, [can_merge_front]. *)
Definition can_merge_front (g : CombineGate) : bool :=
  is_plain_prompt g && negb (is_synthetic g) && negb (is_expanded_skill g)
  && negb (is_bash g) && negb (is_empty (text g)).

(** Source: crates/codegen/xai-prompt-queue/src/combine.rs:34-37, [can_merge_follower]. *)
Definition can_merge_follower (g : CombineGate) (skip_ids : list str) : bool :=
  can_merge_front g && negb (has_images g) && negb (existsb (str_eqb (id g)) skip_ids).

(** The loop over the followers, with [n] rows taken.

    Source: crates/codegen/xai-prompt-queue/src/combine.rs:52-59, [combine_prefix_len]. *)
Fixpoint combine_loop (skip_ids : list str) (n : nat) (iter : list CombineGate) : nat :=
  match iter with
  | [] => n
  | next :: iter' =>
      if negb (can_merge_follower next skip_ids) then n else combine_loop skip_ids (n + 1) iter'
  end.

(** Source: crates/codegen/xai-prompt-queue/src/combine.rs:39-60, [combine_prefix_len]. *)
Definition combine_prefix_len (items : list CombineGate) (skip_ids : list str) : nat :=
  match items with
  | [] => 0
  | front :: iter => if negb (can_merge_front front) then 1 else combine_loop skip_ids 1 iter
  end.

(** Source: crates/codegen/xai-prompt-queue/src/combine.rs:62-68, [join_texts]. *)
Definition join_texts (texts : list str) : str :=
  join TEXT_SEPARATOR (List.filter (fun t => negb (is_empty t)) texts).

(** Source: crates/codegen/xai-prompt-queue/src/combine.rs:70-74, [is_combined]. *)
Definition is_combined (segs : list str) : bool := Nat.leb 2 (length segs).

(** The metadata map and its values are [serde_json]'s: [insert], [Array] and
    [String] are arguments.

    Source: crates/codegen/xai-prompt-queue/src/combine.rs:76-93, [stamp_combined_display_texts]. *)
Definition stamp_combined_display_texts {Map Value : Type} (insert : Map -> str -> Value -> Map)
    (Array : list Value -> Value) (String : str -> Value) (meta : Map) (segs : list str) : Map :=
  if negb (is_combined segs) then meta
  else insert meta COMBINED_DISPLAY_TEXTS_META (Array (map String segs)).

(** ** Correctness *)

Lemma combine_loop_spec skip_ids n iter :
  ∃ k, combine_loop skip_ids n iter = n + k ∧ k ≤ length iter
    ∧ Forall (fun g => can_merge_follower g skip_ids = true) (take k iter)
    ∧ match iter !! k with Some g => can_merge_follower g skip_ids = false | None => True end.
Proof.
  revert n. induction iter as [|g iter IH]; intros n; simpl.
  - exists 0. split_and!; [lia|lia|constructor|done].
  - destruct (can_merge_follower g skip_ids) eqn:E; simpl.
    + destruct (IH (n + 1)) as (k & Hk & Hlen & Hall & Hnext). exists (S k).
      split_and!; [lia|lia|by constructor|done].
    + exists 0. split_and!; [lia|lia|constructor|done].
Qed.

(** Joining is determined by the non-empty texts, and a single one is itself. *)
Lemma join_texts_single t u : is_empty u = true -> join_texts [u; t; u] = t.
Proof. unfold join_texts. destruct u; [|done]. intros _. simpl. by destruct t. Qed.

(** The rows merged into one turn: never more than are queued and at least
    the front; when more than the front is taken, the front is mergeable and
    every other taken row is a plain prompt with text, without images and not
    held for editing; and the run is the longest such, the next row being one
    that cannot follow. A front that cannot be merged is taken alone. *)
Theorem combine_prefix_len_longest front rest skip_ids :
  ∃ k, combine_prefix_len (front :: rest) skip_ids = S k
    ∧ k ≤ length rest
    ∧ (0 < k -> can_merge_front front = true)
    ∧ Forall (fun g => can_merge_front g = true ∧ has_images g = false
                       ∧ id g ∉ skip_ids) (take k rest)
    ∧ (can_merge_front front = true ->
       match rest !! k with Some g => can_merge_follower g skip_ids = false | None => True end).
Proof.
  unfold combine_prefix_len. destruct (can_merge_front front) eqn:E; cbn [negb].
  - destruct (combine_loop_spec skip_ids 1 rest) as (k & Hk & Hlen & Hall & Hnext). exists k.
    split_and!; [done|done|done| |done]. eapply Forall_impl; [exact Hall|].
    unfold can_merge_follower. intros g Hg. cbn beta in Hg. nbool. split_and!; [done|done|].
    intros Hin. apply list_elem_of_In in Hin.
    assert (existsb (str_eqb (id g)) skip_ids = true); [|congruence].
    apply existsb_exists. exists (id g). split; [done|apply str_eqb_refl].
  - exists 0. split_and!; [done|lia|lia|constructor|done].
Qed.
