(* ===== verification/Conversation.v ===== *)
(** * The conversation

    [crates/codegen/xai-grok-sampling-types/src/conversation.rs]: the item every
    part of the agent shares, its constructors and accessors, the decision about
    a truncated answer, the removal of images, the cut of a conversation at a
    prompt, and the rewriting of paths for a forked session. The items of the
    responses API, declared in a crate outside the repository, are records of
    the fields the source reads. Repair is in [ConversationRepair]. *)

From S2P Require Export CompactionItem RustStr TokenEstimation Json.

(** ** Items *)

(** Source: crates/codegen/xai-grok-sampling-types/src/conversation.rs:105-173, [SyntheticReason]. *)
Inductive SyntheticReason :=
  | Human | Primary | CompactionMeta | SystemReminder | LengthContinue
  | ProjectInstructions | AutoContinue | AutoRecovery | Interjection
  | AgentMessage | TaskCompleted | SubagentCompleted | NotificationDrain
  | GoalSummary | GoalClassifierNudge | SchedulerFired | StopHookFeedback
  | WorkingDirectorySwitch | ParentHumanMessage | SessionPrefix | DirectBash
  | GoalSetup | UnknownReason.

#[export] Instance SyntheticReason_eq_dec : EqDecision SyntheticReason.
Proof. solve_decision. Defined.

(** Source: crates/codegen/xai-grok-sampling-types/src/conversation.rs:181-183, [SyntheticReason::is_human]. *)
Definition is_human (r : SyntheticReason) : bool := bool_decide (r = Human).

(** Source: crates/codegen/xai-grok-sampling-types/src/conversation.rs:185-187, [SyntheticReason::is_primary]. *)
Definition is_primary (r : SyntheticReason) : bool := bool_decide (r = Primary).

(** Source: crates/codegen/xai-grok-sampling-types/src/conversation.rs:192-218, [SyntheticReason::starts_prompt_turn]. *)
Definition starts_prompt_turn (r : SyntheticReason) : bool :=
  match r with
  | Human | AgentMessage | ParentHumanMessage | DirectBash | GoalSetup | UnknownReason
  | TaskCompleted | SubagentCompleted | NotificationDrain | GoalClassifierNudge
  | SchedulerFired => true
  | Primary | SessionPrefix | CompactionMeta | SystemReminder | LengthContinue
  | ProjectInstructions | AutoContinue | AutoRecovery | Interjection | GoalSummary
  | StopHookFeedback | WorkingDirectorySwitch => false
  end.

(** Source: crates/codegen/xai-grok-sampling-types/src/conversation.rs:224-236, [PriorTurnInterrupt]. *)
Inductive PriorTurnInterrupt :=
  | MidTurnAbort | PermissionRejected | PermissionCancelled | UnknownInterrupt.

(** Source: crates/codegen/xai-grok-sampling-types/src/conversation.rs:377-384, [ContentPart]. *)
Inductive ContentPart :=
  | TextPart (text : str)
  | ImagePart (url : str).

(** Source: crates/codegen/xai-grok-sampling-types/src/conversation.rs:90-99, [SystemItem]. *)
Record SystemItem := mkSystem {
  sys_content : str;
  sys_reason : SyntheticReason;
}.

(** Source: crates/codegen/xai-grok-sampling-types/src/conversation.rs:239-259, [UserItem]. *)
Record UserItem := mkUser {
  u_content : list ContentPart;
  u_reason : SyntheticReason;
  u_cwd_generation : option N;
  u_prior_turn_interrupt : option PriorTurnInterrupt;
  u_prompt_index : option nat;
}.

(** Source: crates/codegen/xai-grok-sampling-types/src/conversation.rs:473-481, [ToolCall]. *)
Record ToolCall := mkToolCall {
  tc_id : str;
  tc_name : str;
  tc_arguments : str;
}.

(** Source: crates/codegen/xai-grok-sampling-types/src/conversation.rs:264-286, [AssistantItem]. *)
Record AssistantItem := mkAssistant {
  a_content : str;
  a_tool_calls : list ToolCall;
  a_model_id : option str;
  a_model_fingerprint : option str;
  a_reasoning_effort : option str;
}.

(** Source: crates/codegen/xai-grok-sampling-types/src/conversation.rs:289-299, [ToolResultItem]. *)
Record ToolResultItem := mkToolResult {
  tr_tool_call_id : str;
  tr_content : str;
  tr_images : list ContentPart;
}.

(** The actions of [rs::WebSearchToolCall], with the fields the summary reads. *)
Inductive WebSearchAction :=
  | WsSearch (query : str)
  | WsOpenPage (url : option str)
  | WsFind (pattern url : str)
  | WsFindInPage (pattern url : str).

(** The backend calls of the responses API, with the fields the source reads; a
    status is the name of its variant, outputs are their JSON value.

    Source: crates/codegen/xai-grok-sampling-types/src/conversation.rs:361-370, [BackendToolKind]. *)
Inductive BackendToolKind :=
  | WebSearch (id : str) (action : WebSearchAction) (status : str)
  | XSearch (id call_id name input : str)
  | CodeInterpreter (id : str) (code : option str) (container_id status : str) (outputs : option json).

(** [rs::ReasoningItem]; every [rs::SummaryPart] is a summary text. The status
    is written once, as absent, and never read. *)
Record ReasoningItem := mkReasoning {
  r_id : str;
  r_summary : list str;
  r_content : option (list str);
  r_encrypted_content : option str;
}.

(** Source: crates/codegen/xai-grok-sampling-types/src/conversation.rs:69-87, [ConversationItem]. *)
Inductive ConversationItem :=
  | CSystem (s : SystemItem)
  | CUser (u : UserItem)
  | CAssistant (a : AssistantItem)
  | CToolResult (t : ToolResultItem)
  | CBackendToolCall (b : BackendToolKind)
  | CReasoning (r : ReasoningItem).

#[export] Instance PriorTurnInterrupt_eq_dec : EqDecision PriorTurnInterrupt.
Proof. solve_decision. Defined.
#[export] Instance ContentPart_eq_dec : EqDecision ContentPart.
Proof. solve_decision. Defined.
#[export] Instance ToolCall_eq_dec : EqDecision ToolCall.
Proof. solve_decision. Defined.
#[export] Instance WebSearchAction_eq_dec : EqDecision WebSearchAction.
Proof. solve_decision. Defined.
#[export] Instance BackendToolKind_eq_dec : EqDecision BackendToolKind.
Proof. solve_decision. Defined.
#[export] Instance SystemItem_eq_dec : EqDecision SystemItem.
Proof. solve_decision. Defined.
#[export] Instance UserItem_eq_dec : EqDecision UserItem.
Proof. solve_decision. Defined.
#[export] Instance AssistantItem_eq_dec : EqDecision AssistantItem.
Proof. solve_decision. Defined.
#[export] Instance ToolResultItem_eq_dec : EqDecision ToolResultItem.
Proof. solve_decision. Defined.
#[export] Instance ReasoningItem_eq_dec : EqDecision ReasoningItem.
Proof. solve_decision. Defined.
#[export] Instance ConversationItem_eq_dec : EqDecision ConversationItem.
Proof. solve_decision. Defined.

(** ** Text *)

(** Source: crates/codegen/xai-grok-sampling-types/src/conversation.rs:23-35, [truncate_bytes]. *)
Definition truncate_bytes (s : str) (max_bytes : nat) : str :=
  if Nat.leb (length s) max_bytes then s else take (floor_char_boundary s max_bytes) s.

(** Source: crates/codegen/xai-grok-sampling-types/src/conversation.rs:39-52, [sanitize_tool_arguments]. *)
Definition sanitize_tool_arguments (json_ok : str -> bool) (arguments : str) : str :=
  if json_ok arguments then arguments else lit "{}".

(** Source: crates/codegen/xai-grok-sampling-types/src/conversation.rs:313-319, [BackendToolCallItem::id]. *)
Definition backend_id (b : BackendToolKind) : str :=
  match b with
  | WebSearch id _ _ => id
  | XSearch id _ _ _ => id
  | CodeInterpreter id _ _ _ _ => id
  end.

(** Source: crates/codegen/xai-grok-sampling-types/src/conversation.rs:322-355, [BackendToolCallItem::text_summary]. *)
Definition text_summary (b : BackendToolKind) : str :=
  match b with
  | WebSearch _ action _ =>
      let action_desc :=
        match action with
        | WsSearch query => lit "search: " ++ query
        | WsOpenPage url => lit "open: " ++ default (lit "?") url
        | WsFind pattern url | WsFindInPage pattern url =>
            lit "find " ++ dq ++ pattern ++ dq ++ lit " in " ++ url
        end in
      lit "[backend web_search] " ++ action_desc
  | XSearch _ _ name input => lit "[backend x_search] " ++ name ++ lit "(" ++ input ++ lit ")"
  | CodeInterpreter _ code _ _ _ =>
      let code_preview :=
        match code with
        | Some c => if Nat.ltb 100 (length c) then truncate_bytes c 100 ++ lit "..." else c
        | None => []
        end in
      lit "[backend code_interpreter] " ++ code_preview
  end.

(** Source: crates/codegen/xai-grok-sampling-types/src/conversation.rs:1414-1427, [reasoning_item_text]. *)
Definition reasoning_item_text (r : ReasoningItem) : str :=
  join nl (r_summary r ++ default [] (r_content r)).

(** Source: crates/codegen/xai-grok-sampling-types/src/conversation.rs:392-405, [ReasoningContent]. *)
Record ReasoningContent := mkReasoningContent {
  rc_text : option str;
  rc_encrypted : option str;
  rc_id : option str;
}.

(** Source: crates/codegen/xai-grok-sampling-types/src/conversation.rs:445-453, [ReasoningContent::join_content]. *)
Definition join_content (content : option (list str)) : option str :=
  parts ← content;
  let joined := join nl parts in
  if is_empty joined then None else Some joined.

(** Source: crates/codegen/xai-grok-sampling-types/src/conversation.rs:455-465, [ReasoningContent::join_summary]. *)
Definition join_summary (summary : list str) : option str :=
  let joined := join nl summary in
  if is_empty joined then None else Some joined.

(** Source: crates/codegen/xai-grok-sampling-types/src/conversation.rs:409-415, [ReasoningContent::from_text]. *)
Definition rc_from_text (text : str) : ReasoningContent := mkReasoningContent (Some text) None None.

(** Source: crates/codegen/xai-grok-sampling-types/src/conversation.rs:418-424, [ReasoningContent::from_encrypted]. *)
Definition rc_from_encrypted (encrypted : str) : ReasoningContent :=
  mkReasoningContent None (Some encrypted) None.

(** Source: crates/codegen/xai-grok-sampling-types/src/conversation.rs:428-438, [ReasoningContent::from_reasoning_item]. *)
Definition rc_from_reasoning_item (r : ReasoningItem) : option ReasoningContent :=
  let text := match join_content (r_content r) with
              | Some t => Some t
              | None => join_summary (r_summary r)
              end in
  match text, r_encrypted_content r with
  | None, None => None
  | _, _ => Some (mkReasoningContent text (r_encrypted_content r) (Some (r_id r)))
  end.

(** Source: crates/codegen/xai-grok-sampling-types/src/conversation.rs:441-443, [ReasoningContent::is_empty]. *)
Definition rc_is_empty (c : ReasoningContent) : bool :=
  match rc_text c, rc_encrypted c with None, None => true | _, _ => false end.

(** ** Constructors *)

(** Source: crates/codegen/xai-grok-sampling-types/src/conversation.rs:965-970, [ConversationItem::system]. *)
Definition item_system (content : str) : ConversationItem := CSystem (mkSystem content Primary).

(** Source: crates/codegen/xai-grok-sampling-types/src/conversation.rs:974-984, [ConversationItem::user]. *)
Definition item_user (content : str) : ConversationItem :=
  CUser (mkUser [TextPart content] Human None None None).

(** Source: crates/codegen/xai-grok-sampling-types/src/conversation.rs:987-995, [ConversationItem::user_with_parts]. *)
Definition item_user_with_parts (parts : list ContentPart) : ConversationItem :=
  CUser (mkUser parts Human None None None).

(** Source: crates/codegen/xai-grok-sampling-types/src/conversation.rs:1000-1010, [ConversationItem::user_meta]. *)
Definition item_user_meta (content : str) : ConversationItem :=
  CUser (mkUser [TextPart content] CompactionMeta None None None).

(** Source: crates/codegen/xai-grok-sampling-types/src/conversation.rs:1015-1025, [ConversationItem::system_reminder]. *)
Definition item_system_reminder (content : str) : ConversationItem :=
  CUser (mkUser [TextPart content] SystemReminder None None None).

(** Source: crates/codegen/xai-grok-sampling-types/src/conversation.rs:1028-1038, [ConversationItem::length_continue_reminder]. *)
Definition item_length_continue_reminder (content : str) : ConversationItem :=
  CUser (mkUser [TextPart content] LengthContinue None None None).

(** Source: crates/codegen/xai-grok-sampling-types/src/conversation.rs:1041-1050, [ConversationItem::working_directory_switch_generation]. *)
Definition working_directory_switch_generation (i : ConversationItem) : option N :=
  match i with
  | CUser u => if bool_decide (u_reason u = WorkingDirectorySwitch) then u_cwd_generation u else None
  | _ => None
  end.

(** Source: crates/codegen/xai-grok-sampling-types/src/conversation.rs:1055-1065, [ConversationItem::project_instructions]. *)
Definition item_project_instructions (content : str) : ConversationItem :=
  CUser (mkUser [TextPart content] ProjectInstructions None None None).

(** Source: crates/codegen/xai-grok-sampling-types/src/conversation.rs:1068-1078, [ConversationItem::working_directory_switch]. *)
Definition item_working_directory_switch (content : str) (cwd_generation : N) : ConversationItem :=
  CUser (mkUser [TextPart content] WorkingDirectorySwitch (Some cwd_generation) None None).

(** Source: crates/codegen/xai-grok-sampling-types/src/conversation.rs:1081-1091, [ConversationItem::agent_message]. *)
Definition item_agent_message (content : str) : ConversationItem :=
  CUser (mkUser [TextPart content] AgentMessage None None None).

(** Source: crates/codegen/xai-grok-sampling-types/src/conversation.rs:1096-1106, [ConversationItem::auto_continue]. *)
Definition item_auto_continue (content : str) : ConversationItem :=
  CUser (mkUser [TextPart content] AutoContinue None None None).

(** Source: crates/codegen/xai-grok-sampling-types/src/conversation.rs:1111-1121, [ConversationItem::auto_recovery]. *)
Definition item_auto_recovery (content : str) : ConversationItem :=
  CUser (mkUser [TextPart content] AutoRecovery None None None).

(** Source: crates/codegen/xai-grok-sampling-types/src/conversation.rs:1125-1135, [ConversationItem::interjection]. *)
Definition item_interjection (content : str) : ConversationItem :=
  CUser (mkUser [TextPart content] Interjection None None None).

(** Source: crates/codegen/xai-grok-sampling-types/src/conversation.rs:1138-1148, [ConversationItem::task_completed]. *)
Definition item_task_completed (content : str) : ConversationItem :=
  CUser (mkUser [TextPart content] TaskCompleted None None None).

(** Source: crates/codegen/xai-grok-sampling-types/src/conversation.rs:1151-1161, [ConversationItem::subagent_completed]. *)
Definition item_subagent_completed (content : str) : ConversationItem :=
  CUser (mkUser [TextPart content] SubagentCompleted None None None).

(** Source: crates/codegen/xai-grok-sampling-types/src/conversation.rs:1164-1174, [ConversationItem::notification_drain]. *)
Definition item_notification_drain (content : str) : ConversationItem :=
  CUser (mkUser [TextPart content] NotificationDrain None None None).

(** Source: crates/codegen/xai-grok-sampling-types/src/conversation.rs:1177-1187, [ConversationItem::goal_summary]. *)
Definition item_goal_summary (content : str) : ConversationItem :=
  CUser (mkUser [TextPart content] GoalSummary None None None).

(** Source: crates/codegen/xai-grok-sampling-types/src/conversation.rs:1192-1202, [ConversationItem::goal_classifier_nudge]. *)
Definition item_goal_classifier_nudge (content : str) : ConversationItem :=
  CUser (mkUser [TextPart content] GoalClassifierNudge None None None).

(** Source: crates/codegen/xai-grok-sampling-types/src/conversation.rs:1205-1215, [ConversationItem::scheduler_fired]. *)
Definition item_scheduler_fired (content : str) : ConversationItem :=
  CUser (mkUser [TextPart content] SchedulerFired None None None).

(** Source: crates/codegen/xai-grok-sampling-types/src/conversation.rs:1218-1228, [ConversationItem::stop_hook_feedback]. *)
Definition item_stop_hook_feedback (content : str) : ConversationItem :=
  CUser (mkUser [TextPart content] StopHookFeedback None None None).

(** Source: crates/codegen/xai-grok-sampling-types/src/conversation.rs:1231-1239, [ConversationItem::assistant]. *)
Definition item_assistant (content : str) : ConversationItem :=
  CAssistant (mkAssistant content [] None None None).

(** Source: crates/codegen/xai-grok-sampling-types/src/conversation.rs:1244-1252, [ConversationItem::assistant_with_model]. *)
Definition item_assistant_with_model (content model_id : str) : ConversationItem :=
  CAssistant (mkAssistant content [] (Some model_id) None None).

(** Source: crates/codegen/xai-grok-sampling-types/src/conversation.rs:1255-1263, [ConversationItem::assistant_tool_calls]. *)
Definition item_assistant_tool_calls (tool_calls : list ToolCall) : ConversationItem :=
  CAssistant (mkAssistant [] tool_calls None None None).

(** Source: crates/codegen/xai-grok-sampling-types/src/conversation.rs:1266-1272, [ConversationItem::tool_result]. *)
Definition item_tool_result (tool_call_id content : str) : ConversationItem :=
  CToolResult (mkToolResult tool_call_id content []).

(** Source: crates/codegen/xai-grok-sampling-types/src/conversation.rs:1277-1287, [ConversationItem::tool_result_with_images]. *)
Definition item_tool_result_with_images (tool_call_id content : str) (images : list ContentPart) : ConversationItem :=
  CToolResult (mkToolResult tool_call_id content images).

(** Which items are which. *)
Definition is_user_item (i : ConversationItem) : bool := match i with CUser _ => true | _ => false end.
Definition is_result_item (i : ConversationItem) : bool := match i with CToolResult _ => true | _ => false end.
Definition is_system_item (i : ConversationItem) : bool := match i with CSystem _ => true | _ => false end.
Definition is_assistant_item (i : ConversationItem) : bool := match i with CAssistant _ => true | _ => false end.

(** Source: crates/codegen/xai-grok-sampling-types/src/conversation.rs:1290-1300, [ConversationItem::role]. *)
Definition item_role (i : ConversationItem) : CompactionRole :=
  match i with
  | CSystem _ => System
  | CUser _ => User
  | CAssistant _ => Assistant
  | CToolResult _ => Tool
  | CBackendToolCall _ => Assistant
  | CReasoning _ => Assistant
  end.

(** Source: crates/codegen/xai-grok-sampling-types/src/conversation.rs:1303-1312, [ConversationItem::synthetic_reason]. *)
Definition synthetic_reason (i : ConversationItem) : option SyntheticReason :=
  match i with
  | CUser u => Some (u_reason u)
  | CSystem s => Some (sys_reason s)
  | _ => None
  end.

(** Source: crates/codegen/xai-grok-sampling-types/src/conversation.rs:1315-1317, [ConversationItem::is_human_user_turn]. *)
Definition is_human_user_turn (i : ConversationItem) : bool :=
  match i with CUser u => is_human (u_reason u) | _ => false end.

(** Source: crates/codegen/xai-grok-sampling-types/src/conversation.rs:1320-1322, [ConversationItem::is_primary_system_turn]. *)
Definition is_primary_system_turn (i : ConversationItem) : bool :=
  match i with CSystem s => is_primary (sys_reason s) | _ => false end.

(** A user item with other content, a result with other content or images. *)
Definition with_u_content (u : UserItem) (content : list ContentPart) : UserItem :=
  mkUser content (u_reason u) (u_cwd_generation u) (u_prior_turn_interrupt u) (u_prompt_index u).
Definition with_tr (t : ToolResultItem) (content : str) (images : list ContentPart) : ToolResultItem :=
  mkToolResult (tr_tool_call_id t) content images.
Definition with_a (a : AssistantItem) (content : str) (calls : list ToolCall) : AssistantItem :=
  mkAssistant content calls (a_model_id a) (a_model_fingerprint a) (a_reasoning_effort a).

(** Source: crates/codegen/xai-grok-sampling-types/src/conversation.rs:1325-1331, [ConversationItem::add_image]. *)
Definition add_image (i : ConversationItem) (url : str) : ConversationItem :=
  match i with
  | CUser u => CUser (with_u_content u (u_content u ++ [ImagePart url]))
  | _ => i
  end.

(** Source: crates/codegen/xai-grok-sampling-types/src/conversation.rs:1617-1622, [ConversationItem::with_model_id]. *)
Definition with_model_id (i : ConversationItem) (model_id : str) : ConversationItem :=
  match i with
  | CAssistant a => CAssistant (mkAssistant (a_content a) (a_tool_calls a) (Some model_id)
                                  (a_model_fingerprint a) (a_reasoning_effort a))
  | _ => i
  end.

(** Source: crates/codegen/xai-grok-sampling-types/src/conversation.rs:1626-1630, [ConversationItem::set_prior_turn_interrupt]. *)
Definition set_prior_turn_interrupt (i : ConversationItem) (interrupt : PriorTurnInterrupt) : ConversationItem :=
  match i with
  | CUser u => CUser (mkUser (u_content u) (u_reason u) (u_cwd_generation u) (Some interrupt) (u_prompt_index u))
  | _ => i
  end.

(** Source: crates/codegen/xai-grok-sampling-types/src/conversation.rs:1634-1638, [ConversationItem::set_prompt_index]. *)
Definition set_prompt_index (i : ConversationItem) (prompt_index : nat) : ConversationItem :=
  match i with
  | CUser u => CUser (mkUser (u_content u) (u_reason u) (u_cwd_generation u) (u_prior_turn_interrupt u) (Some prompt_index))
  | _ => i
  end.

Definition part_text (p : ContentPart) : option str :=
  match p with TextPart t => Some t | ImagePart _ => None end.
Definition is_image (p : ContentPart) : bool :=
  match p with ImagePart _ => true | TextPart _ => false end.

(** Source: crates/codegen/xai-grok-sampling-types/src/conversation.rs:1334-1351, [ConversationItem::text_content]. *)
Definition text_content (i : ConversationItem) : str :=
  match i with
  | CSystem s => sys_content s
  | CUser u => join nl (omap part_text (u_content u))
  | CAssistant a => a_content a
  | CToolResult t => tr_content t
  | CBackendToolCall b => text_summary b
  | CReasoning r => reasoning_item_text r
  end.

(** ** The item of the shared compaction algorithms *)

Definition calls_of (i : ConversationItem) : list ToolCall :=
  match i with CAssistant a => a_tool_calls a | _ => [] end.

(** Source: crates/codegen/xai-grok-sampling-types/src/conversation.rs:1357-1392, [impl xai_grok_compaction::CompactionItem for ConversationItem]. *)
#[export] Instance conversation_compaction_item : CompactionItem ConversationItem := {|
  role := item_role;
  text i := if is_empty (text_content i) then None else Some (text_content i);
  is_tool_result i := role_is_tool (item_role i);
  has_tool_requests i := negb (is_empty (calls_of i));
  is_compaction_summary _ := false;
  attachment_refs _ := [];
|}.

(** Source: crates/codegen/xai-grok-sampling-types/src/conversation.rs:1394-1410, [impl xai_grok_compaction::CompactionItemFactory for ConversationItem]. *)
#[export] Instance conversation_item_factory : CompactionItemFactory ConversationItem := {|
  new_user := item_user;
  new_user_meta := item_user_meta;
  new_project_instructions := item_project_instructions;
  new_system_reminder := item_system_reminder;
|}.

(** ** Reasoning siblings *)

(** Source: crates/codegen/xai-grok-sampling-types/src/conversation.rs:1432-1442, [synthesized_reasoning_item]. *)
Definition synthesized_reasoning_item (text : str) : ReasoningItem := mkReasoning [] [text] None None.

Definition has_summary_text (i : ConversationItem) : bool :=
  match i with CReasoning r => existsb (fun t => negb (is_empty t)) (r_summary r) | _ => false end.

(** The first reasoning item, with one more summary part. *)
Fixpoint push_summary (text : str) (items : list ConversationItem) : option (list ConversationItem) :=
  match items with
  | [] => None
  | CReasoning r :: rest =>
      Some (CReasoning (mkReasoning (r_id r) (r_summary r ++ [text]) (r_content r) (r_encrypted_content r)) :: rest)
  | i :: rest => cons i <$> push_summary text rest
  end.

(** [iter().rposition(f)]. *)
Fixpoint rposition {A} (f : A -> bool) (l : list A) : option nat :=
  match l with
  | [] => None
  | x :: l' =>
      match rposition f l' with
      | Some i => Some (S i)
      | None => if f x then Some 0 else None
      end
  end.

(** [vec.splice(at..at, new)], and [vec.insert(at, x)] of one element. *)
Definition splice_at {A} (at_ : nat) (new : list A) (l : list A) : list A := take at_ l ++ new ++ drop at_ l.

(** Source: crates/codegen/xai-grok-sampling-types/src/conversation.rs:1446-1477, [inject_streaming_reasoning_fallback]. *)
Definition inject_streaming_reasoning_fallback (items : list ConversationItem) (text : str) : list ConversationItem :=
  if is_empty text then items
  else if existsb has_summary_text items then items
  else match push_summary text items with
       | Some items' => items'
       | None =>
           let pos := default (length items) (rposition is_assistant_item items) in
           splice_at pos [CReasoning (synthesized_reasoning_item text)] items
       end.

(** Source: crates/codegen/xai-grok-sampling-types/src/conversation.rs:1568-1591, [build_synthetic_reasoning]. *)
Definition build_synthetic_reasoning (id : str) (text encrypted : option str) : option ReasoningItem :=
  let nonempty o := t ← o; if is_empty t then None else Some t in
  let text := nonempty text in
  let encrypted := nonempty encrypted in
  match text, encrypted with
  | None, None => None
  | _, _ => Some (mkReasoning id (option_list text) None encrypted)
  end.

(** ** Responses *)

(** Source: crates/codegen/xai-grok-sampling-types/src/conversation.rs:748-759, [StopReason]. *)
Inductive StopReason := StopStop | StopLength | StopToolCalls | StopContentFilter.

#[export] Instance StopReason_eq_dec : EqDecision StopReason.
Proof. solve_decision. Defined.

(** Source: crates/codegen/xai-grok-sampling-types/src/conversation.rs:774-788, [TokenUsage]. *)
Record TokenUsage := mkTokenUsage {
  prompt_tokens : N;
  completion_tokens : N;
  total_tokens_reported : N;
  reasoning_tokens : N;
  cached_prompt_tokens : N;
  cache_creation_prompt_tokens : N;
}.

(** The fields the helpers below read.

    Source: crates/codegen/xai-grok-sampling-types/src/conversation.rs:821-856, [ConversationResponse]. *)
Record ConversationResponse := mkResponse {
  resp_items : list ConversationItem;
  resp_stop_reason : option StopReason;
  resp_usage : option TokenUsage;
  resp_cost_usd_ticks : option Z;
  message_chunks_emitted : N;
}.

(** Source: crates/codegen/xai-grok-sampling-types/src/conversation.rs:861-863, [reported_cost_ticks]. *)
Definition reported_cost_ticks (raw : option Z) : option Z :=
  t ← raw; if Z.ltb 0 t then Some t else None.

Fixpoint last_assistant (items : list ConversationItem) : option AssistantItem :=
  match items with
  | [] => None
  | i :: rest =>
      match last_assistant rest with
      | Some a => Some a
      | None => match i with CAssistant a => Some a | _ => None end
      end
  end.

(** Source: crates/codegen/xai-grok-sampling-types/src/conversation.rs:869-874, [ConversationResponse::assistant]. *)
Definition response_assistant (r : ConversationResponse) : option AssistantItem :=
  last_assistant (resp_items r).

(** Source: crates/codegen/xai-grok-sampling-types/src/conversation.rs:886-890, [ConversationResponse::assistant_text]. *)
Definition response_assistant_text (r : ConversationResponse) : str :=
  default [] (a_content <$> response_assistant r).

Definition as_reasoning (i : ConversationItem) : option ReasoningItem :=
  match i with CReasoning r => Some r | _ => None end.

(** Source: crates/codegen/xai-grok-sampling-types/src/conversation.rs:894-899, [ConversationResponse::reasoning_items]. *)
Definition reasoning_items (r : ConversationResponse) : list ReasoningItem := omap as_reasoning (resp_items r).

(** Source: crates/codegen/xai-grok-sampling-types/src/conversation.rs:903-907, [ConversationResponse::backend_tool_items]. *)
Definition backend_tool_items (r : ConversationResponse) : list ConversationItem :=
  List.filter (fun i => match i with CBackendToolCall _ => true | _ => false end) (resp_items r).

(** Source: crates/codegen/xai-grok-sampling-types/src/error.rs:18-26, [EmptyReason]. *)
Inductive EmptyReason := ReasoningOnly | NoVisibleContent.

(** Source: crates/codegen/xai-grok-sampling-types/src/conversation.rs:912-928, [ConversationResponse::empty_reason]. *)
Definition empty_reason (r : ConversationResponse) : option EmptyReason :=
  match response_assistant r with
  | None => Some NoVisibleContent
  | Some a =>
      if negb (is_empty (a_content a)) || negb (is_empty (a_tool_calls a)) then None
      else
        let has_reasoning :=
          existsb (fun x => negb (is_empty (r_summary x)) || bool_decide (is_Some (r_content x))
                            || bool_decide (is_Some (r_encrypted_content x))) (reasoning_items r) in
        Some (if has_reasoning then ReasoningOnly else NoVisibleContent)
  end.

(** Source: crates/codegen/xai-grok-sampling-types/src/conversation.rs:933-935, [ConversationResponse::is_empty]. *)
Definition response_is_empty (r : ConversationResponse) : bool := bool_decide (is_Some (empty_reason r)).

(** Source: crates/codegen/xai-grok-sampling-types/src/conversation.rs:938-942, [ConversationResponse::tool_calls]. *)
Definition response_tool_calls (r : ConversationResponse) : list ToolCall :=
  default [] (a_tool_calls <$> response_assistant r).

(** Source: crates/codegen/xai-grok-sampling-types/src/conversation.rs:947-956, [ConversationResponse::fallback_text]. *)
Definition fallback_text (r : ConversationResponse) : option str :=
  if N.ltb 0 (message_chunks_emitted r) then None
  else let text := response_assistant_text r in if is_empty text then None else Some text.

(** Source: crates/codegen/xai-grok-sampling-types/src/conversation.rs:560-571, [LengthPolicy]. *)
Inductive LengthPolicy := LpFail | CompleteToolCalls | CompletePartial.

(** Source: crates/codegen/xai-grok-sampling-types/src/conversation.rs:574-584, [LengthVerdict]. *)
Inductive LengthVerdict := Pass | Salvage | SalvageToolCalls | VFail.

(** [json_ok] is whether [serde_json] parses the text.

    Source: crates/codegen/xai-grok-sampling-types/src/conversation.rs:590-618, [LengthPolicy::verdict]. *)
Definition length_verdict (json_ok : str -> bool) (policy : LengthPolicy) (r : ConversationResponse) : LengthVerdict :=
  if negb (bool_decide (resp_stop_reason r = Some StopLength)) then Pass
  else
    let tool_calls := response_tool_calls r in
    if negb (is_empty tool_calls) then
      let all_arguments_complete :=
        forallb (fun tc => is_empty (trim (tc_arguments tc)) || json_ok (tc_arguments tc)) tool_calls in
      match policy, all_arguments_complete with
      | LpFail, _ | CompleteToolCalls, false | CompletePartial, false => VFail
      | CompleteToolCalls, true | CompletePartial, true => SalvageToolCalls
      end
    else match policy, empty_reason r with
         | CompletePartial, None => Salvage
         | _, _ => VFail
         end.

(** ** Stripping images *)

(** Source: crates/codegen/xai-grok-sampling-types/src/conversation.rs:682-724, [IMAGE_STRIP_PLACEHOLDER]. *)
Definition IMAGE_STRIP_PLACEHOLDER : str := lit
  "[image removed — the server could not process it; its contents are unavailable. Ask the user to re-attach the image if it is still needed.]".

Section strip.
Context (should_strip : str -> bool).

Fixpoint strip_user_parts (parts : list ContentPart) : list ContentPart * list str :=
  match parts with
  | [] => ([], [])
  | p :: rest =>
      let '(rest', stripped) := strip_user_parts rest in
      match p with
      | ImagePart url =>
          if should_strip url then (TextPart IMAGE_STRIP_PLACEHOLDER :: rest', url :: stripped)
          else (p :: rest', stripped)
      | TextPart _ => (p :: rest', stripped)
      end
  end.

Fixpoint retain_result_images (parts : list ContentPart) : list ContentPart * list str :=
  match parts with
  | [] => ([], [])
  | p :: rest =>
      let '(rest', stripped) := retain_result_images rest in
      match p with
      | ImagePart url => if should_strip url then (rest', url :: stripped) else (p :: rest', stripped)
      | TextPart _ => (p :: rest', stripped)
      end
  end.

Definition strip_item (i : ConversationItem) : ConversationItem * list str :=
  match i with
  | CUser u => let '(parts, stripped) := strip_user_parts (u_content u) in (CUser (with_u_content u parts), stripped)
  | CToolResult t =>
      let '(images, stripped) := retain_result_images (tr_images t) in
      (CToolResult (with_tr t (tr_content t) images), stripped)
  | _ => (i, [])
  end.

(** Source: crates/codegen/xai-grok-sampling-types/src/conversation.rs:686-724, [strip_images_where]. *)
Definition strip_images_where (items : list ConversationItem) : list ConversationItem * list str :=
  (map (fun i => fst (strip_item i)) items, concat (map (fun i => snd (strip_item i)) items)).
End strip.

(** Source: crates/codegen/xai-grok-sampling-types/src/conversation.rs:676-678, [strip_images_by_url]. *)
Definition strip_images_by_url (items : list ConversationItem) (urls : list str) : list ConversationItem * nat :=
  let '(items', stripped) := strip_images_where (fun url => existsb (fun u => str_eqb u url) urls) items in
  (items', length stripped).

(** Source: crates/codegen/xai-grok-sampling-types/src/conversation.rs:669-671, [ConversationRequest::strip_images]. *)
Definition request_strip_images (items : list ConversationItem) : list ConversationItem * list str :=
  strip_images_where (fun _ => true) items.

(** ** The cut of a conversation at a prompt *)

Fixpoint first_marker (conversation : list ConversationItem) : option nat :=
  match conversation with
  | [] => None
  | CUser u :: rest => match u_prompt_index u with Some idx => Some idx | None => first_marker rest end
  | _ :: rest => first_marker rest
  end.

(** [i] is the index of the head, in all four walks.

    Source: crates/codegen/xai-grok-sampling-types/src/conversation.rs:1742-1757, [conversation_truncate_markers_only]. *)
Fixpoint truncate_markers_only (target i : nat) (conversation : list ConversationItem) : nat :=
  match conversation with
  | [] => i
  | CUser user :: rest =>
      match u_prompt_index user with
      | Some idx => if Nat.leb target idx then i else truncate_markers_only target (S i) rest
      | None => truncate_markers_only target (S i) rest
      end
  | _ :: rest => truncate_markers_only target (S i) rest
  end.

(** The preamble rule shared by the walks over unmarked items: the index an
    unmarked user item opens, and whether the preamble has been seen after it. *)
Definition unmarked_index (user : UserItem) (next : nat) (seen_preamble : bool) : option nat * bool :=
  if is_human (u_reason user) then
    if seen_preamble then (Some next, true) else (None, true)
  else if starts_prompt_turn (u_reason user) then (Some next, seen_preamble)
  else (None, seen_preamble).

(** Source: crates/codegen/xai-grok-sampling-types/src/conversation.rs:1759-1790, [conversation_truncate_legacy]. *)
Fixpoint truncate_legacy (target next : nat) (seen_preamble : bool) (i : nat) (conversation : list ConversationItem) : nat :=
  match conversation with
  | [] => i
  | CUser user :: rest =>
      let '(effective_index, seen_preamble) := unmarked_index user next seen_preamble in
      match effective_index with
      | Some idx => if Nat.leb target idx then i else truncate_legacy target (S idx) seen_preamble (S i) rest
      | None => truncate_legacy target next seen_preamble (S i) rest
      end
  | _ :: rest => truncate_legacy target next seen_preamble (S i) rest
  end.

(** Source: crates/codegen/xai-grok-sampling-types/src/conversation.rs:1793-1814, [count_legacy_turns_until_marker]. *)
Fixpoint count_until_marker (seen_preamble : bool) (conversation : list ConversationItem) : nat :=
  match conversation with
  | [] => 0
  | CUser user :: rest =>
      match u_prompt_index user with
      | Some _ => 0
      | None =>
          let '(opened, seen_preamble) := unmarked_index user 0 seen_preamble in
          match opened with Some _ => 1 | None => 0 end + count_until_marker seen_preamble rest
      end
  | _ :: rest => count_until_marker seen_preamble rest
  end.

(** Source: crates/codegen/xai-grok-sampling-types/src/conversation.rs:1816-1857, [conversation_truncate_progressive]. *)
Fixpoint truncate_progressive (target next : nat) (seen_preamble seen_marker : bool) (i : nat)
    (conversation : list ConversationItem) : nat :=
  match conversation with
  | [] => i
  | CUser user :: rest =>
      let '(effective_index, seen_preamble, seen_marker) :=
        match u_prompt_index user with
        | Some idx => (Some idx, seen_preamble, true)
        | None =>
            if seen_marker then (None, seen_preamble, seen_marker)
            else let '(e, s) := unmarked_index user next seen_preamble in (e, s, seen_marker)
        end in
      match effective_index with
      | Some idx =>
          if Nat.leb target idx then i
          else truncate_progressive target
                 (match u_prompt_index user with None => S idx | Some _ => next end)
                 seen_preamble seen_marker (S i) rest
      | None => truncate_progressive target next seen_preamble seen_marker (S i) rest
      end
  | _ :: rest => truncate_progressive target next seen_preamble seen_marker (S i) rest
  end.

(** Source: crates/codegen/xai-grok-sampling-types/src/conversation.rs:1721-1740, [conversation_truncate_for_prompt]. *)
Definition conversation_truncate_for_prompt (conversation : list ConversationItem) (target_prompt_index : nat) : nat :=
  match first_marker conversation with
  | None => truncate_legacy target_prompt_index 0 false 0 conversation
  | Some first_marker_idx =>
      if negb (Nat.eqb (count_until_marker false conversation) first_marker_idx)
      then truncate_markers_only target_prompt_index 0 conversation
      else truncate_progressive target_prompt_index 0 false false 0 conversation
  end.

(** ** Paths of a forked session *)

Definition replace_if_contains (source target s : str) : str :=
  if contains source s then replace source target s else s.

(** Source: crates/codegen/xai-grok-sampling-types/src/conversation.rs:1861-1924, [transform_conversation_cwd]. *)
Definition transform_conversation_cwd (items : list ConversationItem) (source_cwd target_cwd : str) : list ConversationItem :=
  let sub := replace_if_contains source_cwd target_cwd in
  map (fun item =>
    match item with
    | CSystem s => CSystem (mkSystem (sub (sys_content s)) (sys_reason s))
    | CUser u =>
        CUser (with_u_content u
          (map (fun part => match part with TextPart text => TextPart (sub text) | ImagePart _ => part end) (u_content u)))
    | CAssistant a =>
        CAssistant (with_a a (sub (a_content a))
          (map (fun tc => mkToolCall (tc_id tc) (tc_name tc) (sub (tc_arguments tc))) (a_tool_calls a)))
    | CToolResult t => CToolResult (with_tr t (sub (tr_content t)) (tr_images t))
    | CBackendToolCall _ => item
    | CReasoning r =>
        CReasoning (mkReasoning (r_id r) (map sub (r_summary r)) (map sub <$> r_content r) (r_encrypted_content r))
    end) items.

(** ** Lemmas: the cut *)

Definition item_marker (i : ConversationItem) : option nat :=
  match i with CUser u => u_prompt_index u | _ => None end.

(** Every marker of the items is below the target. *)
Definition markers_below (target : nat) (items : list ConversationItem) : Prop :=
  Forall (fun i => ∀ idx, item_marker i = Some idx -> idx < target) items.

Lemma unmarked_index_next u n s :
  unmarked_index u n s = ((fun _ => n) <$> fst (unmarked_index u 0 s), snd (unmarked_index u 0 s)).
Proof. unfold unmarked_index. by break_matches. Qed.

Lemma markers_only_at target pre u post i :
  u_prompt_index u = Some target -> markers_below target pre ->
  truncate_markers_only target i (pre ++ CUser u :: post) = i + length pre.
Proof.
  intros Hu Hpre. revert i. induction Hpre as [|x pre Hx Hpre IH]; intros i; simpl.
  - rewrite Hu, Nat.leb_refl. lia.
  - destruct x as [|user| | | |]; try (rewrite IH; lia).
    destruct (u_prompt_index user) as [idx|] eqn:E; [|rewrite IH; lia].
    specialize (Hx idx E). destruct (Nat.leb_spec target idx); [lia|]. rewrite IH; lia.
Qed.

Lemma progressive_after_marker target next s i l :
  truncate_progressive target next s true i l = truncate_markers_only target i l.
Proof.
  revert next s i. induction l as [|x l IH]; intros next s i; simpl; [done|].
  destruct x as [|user| | | |]; auto. destruct (u_prompt_index user) as [idx|]; [|done].
  destruct (Nat.leb target idx); auto.
Qed.

(** As long as the unmarked turns are all before the target, the progressive
    walk is the walk over markers. *)
Lemma progressive_markers_only target next s i l :
  next + count_until_marker s l ≤ target ->
  truncate_progressive target next s false i l = truncate_markers_only target i l.
Proof.
  revert next s i. induction l as [|x l IH]; intros next s i; [done|].
  destruct x as [|user| | | |]; try (intros; apply IH; done).
  cbn [truncate_progressive truncate_markers_only count_until_marker].
  destruct (u_prompt_index user) as [idx|].
  - intros _. destruct (Nat.leb target idx); [done|]. apply progressive_after_marker.
  - rewrite (unmarked_index_next user next).
    destruct (unmarked_index user 0 s) as [[o|] s']; simpl; intros Hle.
    + destruct (Nat.leb_spec target next); [lia|]. apply IH. lia.
    + apply IH. lia.
Qed.

Lemma first_marker_below target pre u post :
  u_prompt_index u = Some target -> markers_below target pre ->
  ∃ idx, first_marker (pre ++ CUser u :: post) = Some idx ∧ idx ≤ target.
Proof.
  intros Hu Hpre. induction Hpre as [|x pre Hx Hpre IH]; simpl.
  - rewrite Hu. eauto.
  - destruct x as [|user| | | |]; auto. destruct (u_prompt_index user) as [idx|] eqn:E; [|done].
    exists idx. split; [done|]. specialize (Hx idx E). lia.
Qed.

(** All three walks return an index within the conversation, and what is kept
    for an earlier prompt is a prefix of what is kept for a later one. *)
Lemma truncate_markers_only_bound target i l :
  i ≤ truncate_markers_only target i l ≤ i + length l.
Proof.
  revert i. induction l as [|x l IH]; intros i; simpl; [lia|].
  specialize (IH (S i)). break_matches; lia.
Qed.

Lemma truncate_legacy_bound target next s i l :
  i ≤ truncate_legacy target next s i l ≤ i + length l.
Proof.
  revert next s i. induction l as [|x l IH]; intros next s i; simpl; [lia|].
  destruct x as [|user| | | |]; try (specialize (IH next s (S i)); lia).
  destruct (unmarked_index user next s) as [[o|] s'].
  - specialize (IH (S o) s' (S i)). destruct (Nat.leb target o); lia.
  - specialize (IH next s' (S i)). lia.
Qed.

Lemma truncate_progressive_bound target next s m i l :
  i ≤ truncate_progressive target next s m i l ≤ i + length l.
Proof.
  revert next s m i. induction l as [|x l IH]; intros next s m i; simpl; [lia|].
  destruct x as [|user| | | |]; try (specialize (IH next s m (S i)); lia).
  destruct (match u_prompt_index user with Some idx => _ | None => _ end) as [[[o|] s'] m'].
  - destruct (Nat.leb target o); [lia|].
    match goal with |- context [truncate_progressive _ ?n _ _ _ _] => specialize (IH n s' m' (S i)) end. lia.
  - specialize (IH next s' m' (S i)). lia.
Qed.

Lemma truncate_markers_only_mono t t' i l :
  t ≤ t' -> truncate_markers_only t i l ≤ truncate_markers_only t' i l.
Proof.
  intros Ht. revert i. induction l as [|x l IH]; intros i; simpl; [done|].
  destruct x as [|user| | | |]; auto. destruct (u_prompt_index user) as [idx|]; [|done].
  pose proof (truncate_markers_only_bound t' (S i) l).
  destruct (Nat.leb_spec t idx), (Nat.leb_spec t' idx); solve [lia | apply IH].
Qed.

Lemma truncate_legacy_mono t t' next s i l :
  t ≤ t' -> truncate_legacy t next s i l ≤ truncate_legacy t' next s i l.
Proof.
  intros Ht. revert next s i. induction l as [|x l IH]; intros next s i; simpl; [done|].
  destruct x as [|user| | | |]; auto. destruct (unmarked_index user next s) as [[o|] s']; [|done].
  pose proof (truncate_legacy_bound t' (S o) s' (S i) l).
  destruct (Nat.leb_spec t o), (Nat.leb_spec t' o); solve [lia | apply IH].
Qed.

Lemma truncate_progressive_mono t t' next s m i l :
  t ≤ t' -> truncate_progressive t next s m i l ≤ truncate_progressive t' next s m i l.
Proof.
  intros Ht. revert next s m i. induction l as [|x l IH]; intros next s m i; simpl; [done|].
  destruct x as [|user| | | |]; auto.
  destruct (match u_prompt_index user with Some idx => _ | None => _ end) as [[[o|] s'] m']; [|done].
  match goal with |- context [truncate_progressive t ?n s' m' _ _] =>
    pose proof (truncate_progressive_bound t' n s' m' (S i) l) end.
  destruct (Nat.leb_spec t o), (Nat.leb_spec t' o); solve [lia | apply IH].
Qed.

(** ** Lemmas: images *)

Definition parts_of (i : ConversationItem) : list ContentPart :=
  match i with CUser u => u_content u | CToolResult t => tr_images t | _ => [] end.

Definition urls_of (parts : list ContentPart) : list str :=
  omap (fun p => match p with ImagePart url => Some url | TextPart _ => None end) parts.

(** The images of a conversation, in order. *)
Definition image_urls (items : list ConversationItem) : list str :=
  concat (map (fun i => urls_of (parts_of i)) items).

Lemma strip_user_parts_spec f parts :
  urls_of (fst (strip_user_parts f parts)) = List.filter (fun u => negb (f u)) (urls_of parts)
  ∧ snd (strip_user_parts f parts) = List.filter f (urls_of parts)
  ∧ length (fst (strip_user_parts f parts)) = length parts
  ∧ (snd (strip_user_parts f parts) = [] -> fst (strip_user_parts f parts) = parts).
Proof.
  induction parts as [|p parts (IH1 & IH2 & IH3 & IH4)]; [done|]. simpl.
  destruct (strip_user_parts f parts) as [ps us]. simpl in *.
  destruct p as [t|url]; simpl; [|destruct (f url) eqn:E; simpl]; split_and!; try (by f_equal).
  all: intros; f_equal; auto.
Qed.

Lemma retain_result_images_spec f parts :
  urls_of (fst (retain_result_images f parts)) = List.filter (fun u => negb (f u)) (urls_of parts)
  ∧ snd (retain_result_images f parts) = List.filter f (urls_of parts)
  ∧ (snd (retain_result_images f parts) = [] -> fst (retain_result_images f parts) = parts).
Proof.
  induction parts as [|p parts (IH1 & IH2 & IH3)]; [done|]. simpl.
  destruct (retain_result_images f parts) as [ps us]. simpl in *.
  destruct p as [t|url]; simpl; [|destruct (f url) eqn:E; simpl]; split_and!; try (by f_equal).
  all: intros; f_equal; auto.
Qed.

Lemma strip_item_spec f i :
  urls_of (parts_of (fst (strip_item f i))) = List.filter (fun u => negb (f u)) (urls_of (parts_of i))
  ∧ snd (strip_item f i) = List.filter f (urls_of (parts_of i))
  ∧ (snd (strip_item f i) = [] -> fst (strip_item f i) = i).
Proof.
  destruct i as [|u| |t| |]; simpl; try done.
  - pose proof (strip_user_parts_spec f (u_content u)) as (H1 & H2 & _ & H4).
    destruct (strip_user_parts f (u_content u)) as [ps us]. simpl in *. split_and!; [done|done|].
    intros Hus. rewrite (H4 Hus). by destruct u.
  - pose proof (retain_result_images_spec f (tr_images t)) as (H1 & H2 & H3).
    destruct (retain_result_images f (tr_images t)) as [ps us]. simpl in *. split_and!; [done|done|].
    intros Hus. rewrite (H3 Hus). by destruct t.
Qed.

Lemma filter_concat_map {A B} (f : B -> bool) (g : A -> list B) l :
  List.filter f (concat (map g l)) = concat (map (fun x => List.filter f (g x)) l).
Proof. induction l; simpl; [done|]. by rewrite List.filter_app, IHl. Qed.

Lemma strip_images_where_urls f items :
  snd (strip_images_where f items) = List.filter f (image_urls items)
  ∧ image_urls (fst (strip_images_where f items)) = List.filter (fun u => negb (f u)) (image_urls items).
Proof.
  unfold strip_images_where, image_urls. simpl. rewrite !filter_concat_map, map_map.
  split; f_equal; apply map_ext; intros i; apply strip_item_spec.
Qed.

Lemma strip_images_where_id f items :
  snd (strip_images_where f items) = [] -> fst (strip_images_where f items) = items.
Proof.
  unfold strip_images_where. simpl. induction items as [|i items IH]; simpl; [done|].
  intros [H1 H2]%app_eq_nil. f_equal; [by apply strip_item_spec|by apply IH].
Qed.

(** ** Properties *)

(** Rewinding to a marked prompt cuts exactly at it: when the item carries
    the target as its prompt index and every earlier index is smaller, what is
    kept is what preceded the item, whatever unmarked turns precede it and
    whichever of the three walks the function chooses. *)
Theorem truncate_cuts_at_marker pre u post target :
  u_prompt_index u = Some target -> markers_below target pre ->
  conversation_truncate_for_prompt (pre ++ CUser u :: post) target = length pre.
Proof.
  intros Hu Hpre. unfold conversation_truncate_for_prompt.
  destruct (first_marker_below target pre u post Hu Hpre) as (idx & -> & Hidx).
  destruct (Nat.eqb_spec (count_until_marker false (pre ++ CUser u :: post)) idx) as [Heq|]; simpl.
  - rewrite progressive_markers_only by lia. by rewrite (markers_only_at target pre u post 0).
  - by rewrite (markers_only_at target pre u post 0).
Qed.

(** Rewinding further back keeps a prefix of what rewinding less far keeps. *)
Lemma truncate_for_prompt_mono items t t' :
  t ≤ t' ->
  take (conversation_truncate_for_prompt items t) items
  `prefix_of` take (conversation_truncate_for_prompt items t') items.
Proof.
  intros Ht.
  assert (conversation_truncate_for_prompt items t ≤ conversation_truncate_for_prompt items t').
  { unfold conversation_truncate_for_prompt.
    destruct (first_marker items); [destruct (negb _)|];
      auto using truncate_markers_only_mono, truncate_legacy_mono, truncate_progressive_mono. }
  set (a := conversation_truncate_for_prompt items t) in *.
  set (b := conversation_truncate_for_prompt items t') in *.
  replace (take a items) with (take a (take b items)) by (rewrite take_take; f_equal; lia).
  apply prefix_take.
Qed.

(** Stripping rejected images removes exactly them: the conversation keeps
    its length, its remaining images are the others in order, the count is the
    number removed, nothing changes when it is zero, and a second call finds
    nothing. *)
Theorem strip_images_by_url_spec items urls :
  let '(items', n) := strip_images_by_url items urls in
  length items' = length items
  ∧ image_urls items' = List.filter (fun url => negb (existsb (fun u => str_eqb u url) urls)) (image_urls items)
  ∧ n + length (image_urls items') = length (image_urls items)
  ∧ (n = 0 -> items' = items)
  ∧ strip_images_by_url items' urls = (items', 0).
Proof.
  set (f := fun url => existsb (fun u => str_eqb u url) urls).
  unfold strip_images_by_url. fold f.
  destruct (strip_images_where f items) as [items' us] eqn:E.
  pose proof (strip_images_where_urls f items) as [Hus Hkept]. rewrite E in Hus, Hkept. simpl in *.
  pose proof (strip_images_where_id f items) as Hid. rewrite E in Hid. simpl in Hid.
  split_and!.
  - transitivity (length (fst (strip_images_where f items))); [by rewrite E|]. simpl. apply length_map.
  - done.
  - rewrite Hus, Hkept. clear. induction (image_urls items) as [|u l IH]; simpl; [done|].
    destruct (f u); simpl; lia.
  - intros Hn%length_zero_iff_nil. auto.
  - destruct (strip_images_where f items') as [items'' us'] eqn:E'.
    pose proof (strip_images_where_urls f items') as [Hus' _]. rewrite E' in Hus'. simpl in Hus'.
    pose proof (strip_images_where_id f items') as Hid'. rewrite E' in Hid'. simpl in Hid'.
    assert (us' = []) as ->.
    { rewrite Hus', Hkept. clear. induction (image_urls items) as [|u l IH]; simpl; [done|].
      destruct (f u) eqn:Ef; simpl; [done|]. by rewrite Ef. }
    unfold strip_images_where in E'. injection E' as E1 E2. rewrite E1, E2. by rewrite (Hid' eq_refl).
Qed.

Lemma truncate_cuts_at_marker_witness :
  let prompt n := set_prompt_index (item_user (lit "q")) n in
  conversation_truncate_for_prompt
    ([item_system (lit "s"); item_user (lit "info"); prompt 0; item_assistant (lit "a")]
     ++ prompt 1 :: [item_assistant (lit "b")]) 1 = 4.
Proof.
  apply (truncate_cuts_at_marker
           [item_system (lit "s"); item_user (lit "info"); set_prompt_index (item_user (lit "q")) 0;
            item_assistant (lit "a")]
           (mkUser [TextPart (lit "q")] Human None None (Some 1)) [item_assistant (lit "b")] 1); [done|].
  repeat (apply Forall_cons; split; [by intros idx [=]; lia|]). by apply Forall_nil.
Defined.
