(* ===== verification/Usage.v ===== *)
(** * Billing ledgers

    [crates/codegen/xai-chat-state/src/usage.rs]: the counters of the model calls
    of a prompt and of a session, in total and by model. Counters are [u64] and
    saturate; costs are [i64] ticks and saturate. The [IndexMap] by model is an
    association list in insertion order. *)

From S2P Require Export Conversation.

(** [i64::saturating_add]. *)
Definition i64_max : Z := 9223372036854775807.
Definition i64_min : Z := -9223372036854775808.
Definition sat_add_i64 (a b : Z) : Z := Z.max i64_min (Z.min (a + b) i64_max).

(** Source: crates/codegen/xai-chat-state/src/usage.rs:31-43, [UsageTotals]. *)
Record UsageTotals := mkTotals {
  ut_input_tokens : N;
  ut_output_tokens : N;
  ut_cached_read_tokens : N;
  ut_cache_creation_tokens : N;
  ut_reasoning_tokens : N;
  ut_model_calls : N;
  ut_api_duration_ms : N;
  ut_cost_usd_ticks : option Z;
  ut_cost_missing_calls : N;
}.

Definition no_usage : UsageTotals := mkTotals 0 0 0 0 0 0 0 None 0.

(** Source: crates/codegen/xai-chat-state/src/usage.rs:46-63, [UsageTotals::from_call]. *)
Definition from_call (usage : TokenUsage) (api_duration_ms : option N) (cost_usd_ticks : option Z) : UsageTotals :=
  let cost_usd_ticks := reported_cost_ticks cost_usd_ticks in
  mkTotals (prompt_tokens usage) (completion_tokens usage) (cached_prompt_tokens usage)
    (cache_creation_prompt_tokens usage) (reasoning_tokens usage) 1
    (default 0%N api_duration_ms) cost_usd_ticks
    (if bool_decide (is_Some cost_usd_ticks) then 0 else 1).

(** Source: crates/codegen/xai-chat-state/src/usage.rs:65-67, [UsageTotals::total_tokens]. *)
Definition ut_total_tokens (u : UsageTotals) : N := sat_add64 (ut_input_tokens u) (ut_output_tokens u).

(** Source: crates/codegen/xai-chat-state/src/usage.rs:69-71, [UsageTotals::cost_is_partial]. *)
Definition cost_is_partial (u : UsageTotals) : bool :=
  bool_decide (is_Some (ut_cost_usd_ticks u)) && N.ltb 0 (ut_cost_missing_calls u).

(** Source: crates/codegen/xai-chat-state/src/usage.rs:99-104, [merge_cost_ticks]. *)
Definition merge_cost_ticks (a b : option Z) : option Z :=
  match a, b with
  | None, None => None
  | _, _ => Some (sat_add_i64 (default 0%Z a) (default 0%Z b))
  end.

(** Source: crates/codegen/xai-chat-state/src/usage.rs:73-96, [UsageTotals::fold_totals]. *)
Definition fold_totals (self other : UsageTotals) : UsageTotals :=
  mkTotals
    (sat_add64 (ut_input_tokens self) (ut_input_tokens other))
    (sat_add64 (ut_output_tokens self) (ut_output_tokens other))
    (sat_add64 (ut_cached_read_tokens self) (ut_cached_read_tokens other))
    (sat_add64 (ut_cache_creation_tokens self) (ut_cache_creation_tokens other))
    (sat_add64 (ut_reasoning_tokens self) (ut_reasoning_tokens other))
    (sat_add64 (ut_model_calls self) (ut_model_calls other))
    (sat_add64 (ut_api_duration_ms self) (ut_api_duration_ms other))
    (merge_cost_ticks (ut_cost_usd_ticks self) (ut_cost_usd_ticks other))
    (sat_add64 (ut_cost_missing_calls self) (ut_cost_missing_calls other)).

(** Source: crates/codegen/xai-chat-state/src/usage.rs:106-114, [UsageLedger]. *)
Record UsageLedger := mkLedger {
  ul_totals : UsageTotals;
  ul_by_model : list (str * UsageTotals);
  ul_main_loop_model_calls : N;
  ul_incomplete : bool;
}.

Definition empty_ledger : UsageLedger := mkLedger no_usage [] 0 false.

(** [entry(model_id).or_default().fold_totals(totals)]. *)
Fixpoint fold_by_model (model_id : str) (totals : UsageTotals) (by_model : list (str * UsageTotals)) :
    list (str * UsageTotals) :=
  match by_model with
  | [] => [(model_id, fold_totals no_usage totals)]
  | (k, t) :: rest =>
      if str_eqb k model_id then (k, fold_totals t totals) :: rest
      else (k, t) :: fold_by_model model_id totals rest
  end.

(** Source: crates/codegen/xai-chat-state/src/usage.rs:146-152, [UsageLedger::fold_entry]. *)
Definition fold_entry (l : UsageLedger) (model_id : str) (totals : UsageTotals) : UsageLedger :=
  mkLedger (fold_totals (ul_totals l) totals) (fold_by_model model_id totals (ul_by_model l))
    (ul_main_loop_model_calls l) (ul_incomplete l).

(** Source: crates/codegen/xai-chat-state/src/usage.rs:120-130, [UsageLedger::record_main_loop_call]. *)
Definition record_main_loop_call (l : UsageLedger) (model_id : str) (usage : TokenUsage)
    (api_duration_ms : option N) (cost_usd_ticks : option Z) : UsageLedger :=
  let call := from_call usage api_duration_ms cost_usd_ticks in
  fold_entry
    (mkLedger (ul_totals l) (ul_by_model l) (sat_add64 (ul_main_loop_model_calls l) 1) (ul_incomplete l))
    model_id call.

(** Source: crates/codegen/xai-chat-state/src/usage.rs:142-144, [UsageLedger::mark_incomplete]. *)
Definition mark_incomplete (l : UsageLedger) : UsageLedger :=
  mkLedger (ul_totals l) (ul_by_model l) (ul_main_loop_model_calls l) true.

(** Source: crates/codegen/xai-chat-state/src/usage.rs:133-140, [UsageLedger::record_subagent]. *)
Definition record_subagent (l : UsageLedger) (by_model : list (str * UsageTotals)) (incomplete : bool) : UsageLedger :=
  let l := foldl (fun l e => fold_entry l (fst e) (snd e)) l by_model in
  if incomplete then mark_incomplete l else l.

(** ** The type invariant *)

Definition u64 (n : N) : Prop := (n <= u64_max)%N.

(** The counters are [u64]; a cost is an [i64], and never negative, since
    [reported_cost_ticks] drops the others. *)
Definition totals_ok (u : UsageTotals) : Prop :=
  (u64 (ut_input_tokens u) ∧ u64 (ut_output_tokens u) ∧ u64 (ut_cached_read_tokens u)
   ∧ u64 (ut_cache_creation_tokens u) ∧ u64 (ut_reasoning_tokens u) ∧ u64 (ut_model_calls u)
   ∧ u64 (ut_api_duration_ms u) ∧ u64 (ut_cost_missing_calls u))
  ∧ (∀ c, ut_cost_usd_ticks u = Some c -> (0 <= c <= i64_max)%Z).

(** The counters of one call are [u32]. *)
Definition usage_ok (u : TokenUsage) : Prop :=
  (prompt_tokens u <= u32_max ∧ completion_tokens u <= u32_max ∧ cached_prompt_tokens u <= u32_max
   ∧ cache_creation_prompt_tokens u <= u32_max ∧ reasoning_tokens u <= u32_max)%N.

(** The sum of the entries of a ledger. *)
Definition sum_totals (l : list UsageTotals) : UsageTotals := foldr fold_totals no_usage l.

(** The total of a ledger is the sum of its models, each listed once. *)
Definition ledger_ok (l : UsageLedger) : Prop :=
  totals_ok (ul_totals l) ∧ Forall totals_ok (map snd (ul_by_model l))
  ∧ NoDup (map fst (ul_by_model l))
  ∧ ul_totals l = sum_totals (map snd (ul_by_model l)).

(** What changes a ledger. *)
Inductive LedgerOp :=
  | MainLoopCall (model_id : str) (usage : TokenUsage) (api_duration_ms : option N) (cost_usd_ticks : option Z)
  | Subagent (by_model : list (str * UsageTotals)) (incomplete : bool)
  | MarkIncomplete.

Definition ledger_step (l : UsageLedger) (op : LedgerOp) : UsageLedger :=
  match op with
  | MainLoopCall m u d c => record_main_loop_call l m u d c
  | Subagent b i => record_subagent l b i
  | MarkIncomplete => mark_incomplete l
  end.

Definition op_ok (op : LedgerOp) : Prop :=
  match op with
  | MainLoopCall _ u d c => usage_ok u ∧ u64 (default 0%N d) ∧ (∀ t, c = Some t -> (t <= i64_max)%Z)
  | Subagent b _ => Forall totals_ok (map snd b)
  | MarkIncomplete => True
  end.

Definition op_main_calls (op : LedgerOp) : N := match op with MainLoopCall _ _ _ _ => 1 | _ => 0 end.
Definition op_incomplete (op : LedgerOp) : bool :=
  match op with MainLoopCall _ _ _ _ => false | Subagent _ i => i | MarkIncomplete => true end.

(** ** Lemmas: [fold_totals] is a commutative monoid *)

Lemma sat_add64_comm a b : sat_add64 a b = sat_add64 b a.
Proof. unfold sat_add64. by rewrite N.add_comm. Qed.
Lemma sat_add64_assoc a b c : sat_add64 a (sat_add64 b c) = sat_add64 (sat_add64 a b) c.
Proof. unfold sat_add64. lia. Qed.
Lemma sat_add64_0 a : u64 a -> sat_add64 a 0 = a.
Proof. unfold sat_add64, u64. lia. Qed.
Lemma sat_add64_u64 a b : u64 (sat_add64 a b).
Proof. unfold sat_add64, u64. lia. Qed.
#[local] Hint Resolve sat_add64_comm sat_add64_assoc sat_add64_u64 : core.

Definition cost_ok (c : option Z) : Prop := ∀ t, c = Some t -> (0 <= t <= i64_max)%Z.

(** On non-negative costs the addition saturates at the top only. *)
Lemma sat_add_i64_nonneg a b : (0 <= a)%Z -> (0 <= b)%Z -> sat_add_i64 a b = Z.min (a + b) i64_max.
Proof. intros. unfold sat_add_i64. apply Z.max_r. unfold i64_min, i64_max. lia. Qed.

Lemma sat_add_i64_comm a b : sat_add_i64 a b = sat_add_i64 b a.
Proof. unfold sat_add_i64. by rewrite Z.add_comm. Qed.

Lemma sat_add_i64_range a b : (0 <= a)%Z -> (0 <= b)%Z -> (0 <= sat_add_i64 a b <= i64_max)%Z.
Proof. intros. rewrite sat_add_i64_nonneg by done. unfold i64_max. lia. Qed.

Lemma sat_add_i64_0_r a : (0 <= a <= i64_max)%Z -> sat_add_i64 a 0 = a.
Proof. intros. rewrite sat_add_i64_nonneg by lia. lia. Qed.

Lemma sat_add_i64_assoc a b c : (0 <= a)%Z -> (0 <= b)%Z -> (0 <= c)%Z ->
  sat_add_i64 a (sat_add_i64 b c) = sat_add_i64 (sat_add_i64 a b) c.
Proof.
  intros. pose proof (sat_add_i64_range a b) as Hab. pose proof (sat_add_i64_range b c) as Hbc.
  rewrite (sat_add_i64_nonneg a (sat_add_i64 b c)), (sat_add_i64_nonneg (sat_add_i64 a b) c) by lia.
  rewrite !sat_add_i64_nonneg by lia. lia.
Qed.

Lemma cost_ok_default c : cost_ok c -> (0 <= default 0%Z c <= i64_max)%Z.
Proof. intros Hc. destruct c as [t|]; [by apply Hc|]. unfold i64_max. cbn. lia. Qed.

Lemma merge_comm a b : merge_cost_ticks a b = merge_cost_ticks b a.
Proof. destruct a, b; cbn [merge_cost_ticks]; try rewrite sat_add_i64_comm; reflexivity. Qed.
Lemma merge_None a : cost_ok a -> merge_cost_ticks a None = a.
Proof.
  intros Ha%cost_ok_default. destruct a as [t|]; [|reflexivity]. cbn [merge_cost_ticks default] in *.
  by rewrite sat_add_i64_0_r.
Qed.
Lemma merge_ok a b : cost_ok a -> cost_ok b -> cost_ok (merge_cost_ticks a b).
Proof.
  intros Ha%cost_ok_default Hb%cost_ok_default t Ht.
  destruct a, b; cbn [merge_cost_ticks] in Ht; simplify_eq; apply sat_add_i64_range; lia.
Qed.
Lemma merge_assoc a b c : cost_ok a -> cost_ok b -> cost_ok c ->
  merge_cost_ticks a (merge_cost_ticks b c) = merge_cost_ticks (merge_cost_ticks a b) c.
Proof.
  intros Ha Hb Hc. pose proof (cost_ok_default _ Ha). pose proof (cost_ok_default _ Hb).
  pose proof (cost_ok_default _ Hc). destruct a, b, c; cbn [merge_cost_ticks from_option id] in *;
    try reflexivity; f_equal; rewrite ?sat_add_i64_assoc by lia; try reflexivity;
    rewrite ?sat_add_i64_0_r by (try apply sat_add_i64_range; lia); try reflexivity.
Qed.

Lemma fold_totals_comm a b : fold_totals a b = fold_totals b a.
Proof. unfold fold_totals. f_equal; auto using merge_comm. Qed.

Lemma fold_totals_assoc a b c : totals_ok a -> totals_ok b -> totals_ok c ->
  fold_totals a (fold_totals b c) = fold_totals (fold_totals a b) c.
Proof. intros [_ ?] [_ ?] [_ ?]. unfold fold_totals. cbn. f_equal; auto. by apply merge_assoc. Qed.

Lemma fold_totals_none a : totals_ok a -> fold_totals a no_usage = a.
Proof.
  intros [Hu Hc]. destruct_and!. destruct a. unfold fold_totals. cbn in *. f_equal; try by apply sat_add64_0.
  by apply merge_None.
Qed.

Lemma fold_totals_ok a b : totals_ok a -> totals_ok b -> totals_ok (fold_totals a b).
Proof. intros [_ Ha] [_ Hb]. split; [cbn; auto 10|]. by apply merge_ok. Qed.

Lemma no_usage_ok : totals_ok no_usage.
Proof. split; [repeat split; done|done]. Qed.

Lemma sum_totals_ok l : Forall totals_ok l -> totals_ok (sum_totals l).
Proof. induction 1; simpl; [apply no_usage_ok|by apply fold_totals_ok]. Qed.

(** ** Lemmas: ledgers *)

Lemma from_call_ok u d c :
  usage_ok u -> u64 (default 0%N d) -> (∀ t, c = Some t -> (t <= i64_max)%Z) -> totals_ok (from_call u d c).
Proof.
  intros Hu Hd Hc. unfold usage_ok in Hu. split.
  - unfold u64 in *. cbn. destruct (bool_decide _); lia.
  - cbn. intros t Ht. destruct c as [c|]; [|done]. cbn in Ht. specialize (Hc c eq_refl).
    destruct (Z.ltb_spec 0 c); simplify_eq. lia.
Qed.

Lemma fold_by_model_keys m t l :
  map fst (fold_by_model m t l) = if bool_decide (m ∈ map fst l) then map fst l else map fst l ++ [m].
Proof.
  induction l as [|[k u] l IH]; [done|]. cbn [fold_by_model].
  destruct (str_eqb k m) eqn:E.
  - apply str_eqb_eq in E as ->. cbn [map fst]. rewrite bool_decide_true by left. done.
  - cbn [map fst]. rewrite IH. assert (Hk : m ≠ k) by (intros ->; by rewrite str_eqb_refl in E).
    destruct (decide (m ∈ map fst l)).
    + rewrite !bool_decide_true by (try right; done). done.
    + rewrite !bool_decide_false by (try (intros [|]%elem_of_cons); done). done.
Qed.

Lemma fold_by_model_sum m t l :
  totals_ok t -> Forall totals_ok (map snd l) ->
  Forall totals_ok (map snd (fold_by_model m t l))
  ∧ sum_totals (map snd (fold_by_model m t l)) = fold_totals (sum_totals (map snd l)) t.
Proof.
  intros Ht. induction l as [|[k u] l IH]; cbn [fold_by_model map snd sum_totals foldr].
  - intros _. split; [apply Forall_singleton, fold_totals_ok; [apply no_usage_ok|done]|].
    apply fold_totals_none, fold_totals_ok; [apply no_usage_ok|done].
  - intros [Hu Hl]%Forall_cons. specialize (IH Hl) as [IH1 IH2]. pose proof (sum_totals_ok _ Hl) as Hs.
    unfold sum_totals in *. destruct (str_eqb k m); cbn [map snd foldr].
    + split; [constructor; [by apply fold_totals_ok|done]|].
      rewrite <- !fold_totals_assoc by done. f_equal. apply fold_totals_comm.
    + split; [by constructor|]. rewrite IH2. by apply fold_totals_assoc.
Qed.

Lemma fold_entry_ok l m t : ledger_ok l -> totals_ok t -> ledger_ok (fold_entry l m t).
Proof.
  intros (H1 & H2 & H3 & H4) Ht. destruct (fold_by_model_sum m t _ Ht H2) as [H5 H6].
  split; [by apply fold_totals_ok|]. split; [done|]. split.
  - cbn. rewrite fold_by_model_keys. case_bool_decide; [done|]. apply NoDup_app. split; [done|].
    split; [|apply NoDup_singleton]. by intros x Hx ->%list_elem_of_singleton.
  - cbn [ul_totals ul_by_model fold_entry]. by rewrite H6, H4.
Qed.

Lemma fold_entries_ok entries l :
  Forall totals_ok (map snd entries) -> ledger_ok l ->
  ledger_ok (foldl (fun l e => fold_entry l (fst e) (snd e)) l entries).
Proof.
  revert l. induction entries as [|[m t] entries IH]; intros l; [done|].
  intros [Ht He]%Forall_cons Hl. cbn. apply IH; [done|]. by apply fold_entry_ok.
Qed.

Lemma fold_entries_frame entries l :
  let l' := foldl (fun l e => fold_entry l (fst e) (snd e)) l entries in
  ul_main_loop_model_calls l' = ul_main_loop_model_calls l ∧ ul_incomplete l' = ul_incomplete l.
Proof. revert l. induction entries as [|[m t] entries IH]; intros l; [done|]. cbn. apply (IH (fold_entry l m t)). Qed.

(** ** Theorems *)

(** The bill adds up. Whatever is recorded, in whatever order and however the
    counters saturate, the totals of a ledger are the sum of its models, every
    counter is a [u64] and every cost a non-negative [i64], and no model is
    listed twice; the turns counted are the main-loop calls recorded, and the
    bill is incomplete exactly when some record said so. *)
Theorem ledger_adds_up ops :
  Forall op_ok ops ->
  let l := foldl ledger_step empty_ledger ops in
  ledger_ok l
  ∧ ul_main_loop_model_calls l = N.min (nsum (map op_main_calls ops)) u64_max
  ∧ ul_incomplete l = existsb op_incomplete ops.
Proof.
  intros Hops. cbv zeta.
  enough (H : ∀ l, ledger_ok l -> u64 (ul_main_loop_model_calls l) ->
    ledger_ok (foldl ledger_step l ops)
    ∧ ul_main_loop_model_calls (foldl ledger_step l ops)
      = N.min (ul_main_loop_model_calls l + nsum (map op_main_calls ops)) u64_max
    ∧ ul_incomplete (foldl ledger_step l ops) = ul_incomplete l || existsb op_incomplete ops).
  { apply (H empty_ledger); [|done]. split; [apply no_usage_ok|]. repeat split; constructor. }
  induction Hops as [|op ops Hop _ IH]; intros l Hl Hu; cbn [foldl map existsb].
  { rewrite orb_false_r. unfold u64 in Hu. split; [done|split; [simpl; lia|done]]. }
  assert (Hstep : ledger_ok (ledger_step l op) ∧
    ul_main_loop_model_calls (ledger_step l op) = sat_add64 (ul_main_loop_model_calls l) (op_main_calls op)
    ∧ ul_incomplete (ledger_step l op) = ul_incomplete l || op_incomplete op).
  { destruct op as [m u d c|b i|]; cbn [ledger_step op_main_calls op_incomplete] in *.
    - destruct Hop as (H1 & H2 & H3). split; [|by rewrite orb_false_r]. apply fold_entry_ok; [done|by apply from_call_ok].
    - pose proof (fold_entries_ok b l Hop Hl) as Hok. destruct (fold_entries_frame b l) as [Hm Hi].
      unfold record_subagent. cbv zeta in *. set (l' := foldl _ l b) in *. rewrite sat_add64_0 by done.
      destruct i; cbn; rewrite ?orb_true_r, ?orb_false_r; done.
    - rewrite sat_add64_0, orb_true_r by done. done. }
  destruct Hstep as (H1 & H2 & H3). destruct (IH _ H1) as (H4 & H5 & H6).
  { rewrite H2. auto. }
  rewrite H5, H6, H2, H3, orb_assoc. split; [done|split; [|done]].
  unfold sat_add64. change (nsum (op_main_calls op :: map op_main_calls ops))
    with (op_main_calls op + nsum (map op_main_calls ops))%N. lia.
Qed.

(** ** Witness *)

Definition demo_usage : TokenUsage := mkTokenUsage 100 10 110 0 0 0.

Definition demo_ops : list LedgerOp :=
  [MainLoopCall (lit "a") demo_usage (Some 5%N) (Some 70%Z);
   Subagent [(lit "b", from_call demo_usage None None); (lit "a", from_call demo_usage None (Some 0%Z))] false;
   MarkIncomplete].

Lemma ledger_adds_up_witness :
  ledger_ok (foldl ledger_step empty_ledger demo_ops)
  ∧ ul_main_loop_model_calls (foldl ledger_step empty_ledger demo_ops) = 1%N
  ∧ ul_incomplete (foldl ledger_step empty_ledger demo_ops) = true
  ∧ ut_input_tokens (ul_totals (foldl ledger_step empty_ledger demo_ops)) = 300%N.
Proof.
  destruct (ledger_adds_up demo_ops) as (H1 & H2 & H3).
  { assert (Hu : usage_ok demo_usage) by (unfold usage_ok; cbn; lia).
    assert (Hd : u64 0) by (unfold u64; lia).
    assert (Hc : ∀ t, Some 0%Z = Some t -> (t <= i64_max)%Z) by (intros t [= <-]; unfold i64_max; lia).
    apply Forall_cons_2; [|apply Forall_cons_2; [|apply Forall_cons_2; [exact I|apply Forall_nil_2]]].
    - split; [exact Hu|]. split; [unfold u64; cbn; lia|]. intros t [= <-]. unfold i64_max. lia.
    - apply Forall_cons_2; [|apply Forall_cons_2; [|apply Forall_nil_2]].
      + apply from_call_ok; [exact Hu|exact Hd|discriminate].
      + apply from_call_ok; [exact Hu|exact Hd|exact Hc]. }
  split; [exact H1|]. split; [rewrite H2; reflexivity|]. split; [rewrite H3; reflexivity|reflexivity].
Defined.
