(* ===== verification/ConversationRepair.v ===== *)
(** * Repairing a conversation

    The passes that make a history acceptable to a provider, which wants every
    tool call answered once, by a result that directly follows it:
    [dedup_duplicate_tool_results], [repair_dangling_tool_calls] and
    [has_dangling_tool_calls] of
    [crates/codegen/xai-grok-sampling-types/src/conversation.rs], and
    [strip_displaced_tool_results], [repair_history],
    [validate_compacted_history] and [sanitize_compacted_history] of
    [crates/codegen/xai-chat-state/src/compaction_utils.rs].

    The index-based loops are modelled as written, with the remaining length as
    fuel, and are proved equal to one-pass definitions ([keep_last],
    [backfill]) on which the properties are proved. *)

From S2P Require Export Conversation.
From stdpp Require Import sorting.

(** ** Vocabulary *)

Definition call_ids (calls : list ToolCall) : list str := map tc_id calls.
Definition in_ids (id : str) (ids : list str) : bool := existsb (str_eqb id) ids.

(** The maximal run of tool results at the head. *)
Fixpoint results_run (l : list ConversationItem) : list ToolResultItem :=
  match l with
  | CToolResult t :: l' => t :: results_run l'
  | _ => []
  end.

(** ** Dangling calls *)

(** Source: crates/codegen/xai-grok-sampling-types/src/conversation.rs:1932-1942, [DanglingToolCallReason]. *)
Inductive DanglingToolCallReason :=
  | UserCancelled
  | HarnessHalted (class : str).

(** Source: crates/codegen/xai-grok-sampling-types/src/conversation.rs:2041-2051, [synthetic_dangling_result_text]. *)
Definition synthetic_dangling_result_text (name : str) (reason : DanglingToolCallReason) : str :=
  match reason with
  | UserCancelled =>
      lit "Tool execution was cancelled by the user (tool `" ++ name ++ lit "` was not executed)."
  | HarnessHalted class =>
      lit "Tool execution was halted by the harness (" ++ class ++ lit "); the tool `" ++ name
      ++ lit "` was not executed."
  end.

(** The results for the calls that [answered] lacks, in call order. *)
Definition synthetic_results (reason : DanglingToolCallReason) (calls : list ToolCall) (answered : list str) :
    list ConversationItem :=
  map (fun tc => item_tool_result (tc_id tc) (synthetic_dangling_result_text (tc_name tc) reason))
      (List.filter (fun tc => negb (in_ids (tc_id tc) answered)) calls).

(** The forward scan: where to insert, and what. *)
Fixpoint repair_scan (reason : DanglingToolCallReason) (conversation : list ConversationItem) (fuel i : nat) :
    list (nat * list ConversationItem) :=
  match fuel with
  | 0 => []
  | S fuel' =>
      match conversation !! i with
      | None => []
      | Some item =>
          match calls_of item with
          | [] => repair_scan reason conversation fuel' (S i)
          | tool_calls =>
              let run := results_run (drop (S i) conversation) in
              let j := S i + length run in
              let synthetic := synthetic_results reason tool_calls (map tr_tool_call_id run) in
              (if is_empty synthetic then [] else [(j, synthetic)])
              ++ repair_scan reason conversation fuel' j
          end
      end
  end.

(** The repairs are applied from the last to the first.

    Source: crates/codegen/xai-grok-sampling-types/src/conversation.rs:1946-2006, [repair_dangling_tool_calls]. *)
Definition repair_dangling_tool_calls (conversation : list ConversationItem) (reason : DanglingToolCallReason) :
    list ConversationItem * nat :=
  let repairs := repair_scan reason conversation (S (length conversation)) 0 in
  let total := list_sum (map (fun r => length (snd r)) repairs) in
  (foldr (fun r c => splice_at (fst r) (snd r) c) conversation repairs, total).

Fixpoint dangling_scan (conversation : list ConversationItem) (fuel i : nat) : bool :=
  match fuel with
  | 0 => false
  | S fuel' =>
      match conversation !! i with
      | None => false
      | Some item =>
          match calls_of item with
          | [] => dangling_scan conversation fuel' (S i)
          | tool_calls =>
              let run := results_run (drop (S i) conversation) in
              if existsb (fun tc => negb (in_ids (tc_id tc) (map tr_tool_call_id run))) tool_calls then true
              else dangling_scan conversation fuel' (S i + length run)
          end
      end
  end.

(** Source: crates/codegen/xai-grok-sampling-types/src/conversation.rs:2010-2039, [has_dangling_tool_calls]. *)
Definition has_dangling_tool_calls (conversation : list ConversationItem) : bool :=
  dangling_scan conversation (S (length conversation)) 0.

(** ** Duplicate results *)

(** The [HashMap] of the loop: the newest entry of an id is the first. *)
Fixpoint seen_at (id : str) (seen : list (str * nat)) : option nat :=
  match seen with
  | [] => None
  | (k, idx) :: rest => if str_eqb id k then Some idx else seen_at id rest
  end.

Fixpoint duplicate_indices (seen : list (str * nat)) (idx : nat) (run : list ToolResultItem) : list nat :=
  match run with
  | [] => []
  | tr :: rest =>
      let id := tr_tool_call_id tr in
      match seen_at id seen with
      | Some prev => prev :: duplicate_indices ((id, idx) :: seen) (S idx) rest
      | None => duplicate_indices ((id, idx) :: seen) (S idx) rest
      end
  end.

Fixpoint dedup_loop (fuel : nat) (conversation : list ConversationItem) (i total_removed : nat) :
    list ConversationItem * nat :=
  match fuel with
  | 0 => (conversation, total_removed)
  | S fuel' =>
      match conversation !! i with
      | None => (conversation, total_removed)
      | Some item =>
          if is_empty (calls_of item) then dedup_loop fuel' conversation (S i) total_removed
          else
            let run := results_run (drop (S i) conversation) in
            let to_remove := duplicate_indices [] (S i) run in
            if is_empty to_remove then dedup_loop fuel' conversation (S i + length run) total_removed
            else
              let descending := rev (merge_sort le to_remove) in
              dedup_loop fuel' (foldl (fun c idx => delete idx c) conversation descending) i
                (total_removed + length to_remove)
      end
  end.

(** Source: crates/codegen/xai-grok-sampling-types/src/conversation.rs:2056-2114, [dedup_duplicate_tool_results]. *)
Definition dedup_duplicate_tool_results (conversation : list ConversationItem) : list ConversationItem * nat :=
  dedup_loop (S (length conversation)) conversation 0 0.

(** ** Displaced results and the whole repair *)

(** [run_ids] are the calls of the assistant whose run of results is being
    read. The two results are what is kept and the ids that are stripped. *)
Fixpoint strip_displaced_from (run_ids : list str) (items : list ConversationItem) :
    list ConversationItem * list str :=
  match items with
  | [] => ([], [])
  | item :: rest =>
      match item with
      | CAssistant a =>
          let '(kept, stripped) := strip_displaced_from (call_ids (a_tool_calls a)) rest in
          (item :: kept, stripped)
      | CToolResult tr =>
          let '(kept, stripped) := strip_displaced_from run_ids rest in
          if in_ids (tr_tool_call_id tr) run_ids then (item :: kept, stripped)
          else (kept, tr_tool_call_id tr :: stripped)
      | _ =>
          let '(kept, stripped) := strip_displaced_from [] rest in
          (item :: kept, stripped)
      end
  end.

(** Source: crates/codegen/xai-chat-state/src/compaction_utils.rs:1070-1096, [strip_displaced_tool_results]. *)
Definition strip_displaced_tool_results (items : list ConversationItem) : list ConversationItem * list str :=
  strip_displaced_from [] items.

(** Source: crates/codegen/xai-chat-state/src/compaction_utils.rs:1031-1040, [HistoryRepairReport]. *)
Record HistoryRepairReport := mkReport {
  duplicates_removed : nat;
  stripped_tool_result_ids : list str;
  synthetic_results_inserted : nat;
}.

(** Source: crates/codegen/xai-chat-state/src/compaction_utils.rs:1043-1047, [HistoryRepairReport::changed]. *)
Definition report_changed (r : HistoryRepairReport) : bool :=
  Nat.ltb 0 (duplicates_removed r) || negb (is_empty (stripped_tool_result_ids r))
  || Nat.ltb 0 (synthetic_results_inserted r).

(** Source: crates/codegen/xai-chat-state/src/compaction_utils.rs:1052-1066, [repair_history]. *)
Definition repair_history (items : list ConversationItem) : list ConversationItem * HistoryRepairReport :=
  let '(items, duplicates) := dedup_duplicate_tool_results items in
  let '(items, stripped) := strip_displaced_tool_results items in
  let '(items, inserted) := repair_dangling_tool_calls items (HarnessHalted (lit "history_repair")) in
  (items, mkReport duplicates stripped inserted).

Fixpoint validate_from (seen_ids : list str) (items : list ConversationItem) : list str :=
  match items with
  | [] => []
  | CAssistant a :: rest => validate_from (call_ids (a_tool_calls a) ++ seen_ids) rest
  | CToolResult tr :: rest =>
      if in_ids (tr_tool_call_id tr) seen_ids then validate_from seen_ids rest
      else tr_tool_call_id tr :: validate_from seen_ids rest
  | _ :: rest => validate_from seen_ids rest
  end.

(** Source: crates/codegen/xai-chat-state/src/compaction_utils.rs:981-998, [validate_compacted_history]. *)
Definition validate_compacted_history (items : list ConversationItem) : list str := validate_from [] items.

Fixpoint sanitize_from (seen_ids : list str) (items : list ConversationItem) : list ConversationItem * list str :=
  match items with
  | [] => ([], [])
  | item :: rest =>
      match item with
      | CAssistant a =>
          let '(kept, stripped) := sanitize_from (call_ids (a_tool_calls a) ++ seen_ids) rest in
          (item :: kept, stripped)
      | CToolResult tr =>
          let '(kept, stripped) := sanitize_from seen_ids rest in
          if in_ids (tr_tool_call_id tr) seen_ids then (item :: kept, stripped)
          else (kept, tr_tool_call_id tr :: stripped)
      | _ =>
          let '(kept, stripped) := sanitize_from seen_ids rest in
          (item :: kept, stripped)
      end
  end.

(** Source: crates/codegen/xai-chat-state/src/compaction_utils.rs:972-978, [SanitizeResult]. *)
Record SanitizeResult := mkSanitize {
  sanitized_items : list ConversationItem;
  stripped_tool_call_ids : list str;
}.

(** Source: crates/codegen/xai-chat-state/src/compaction_utils.rs:1002-1029, [sanitize_compacted_history]. *)
Definition sanitize_compacted_history (items : list ConversationItem) : SanitizeResult :=
  let '(kept, stripped) := sanitize_from [] items in mkSanitize kept stripped.

(** ** The one-pass definitions *)

(** Keep the last result of each id in a run that follows calls. *)
Fixpoint keep_last (active : bool) (l : list ConversationItem) : list ConversationItem :=
  match l with
  | [] => []
  | CToolResult t :: rest =>
      if active && in_ids (tr_tool_call_id t) (map tr_tool_call_id (results_run rest))
      then keep_last active rest else CToolResult t :: keep_last active rest
  | item :: rest => item :: keep_last (negb (is_empty (calls_of item))) rest
  end.

(** Answer the calls the run lacks, where the run ends. *)
Fixpoint backfill (reason : DanglingToolCallReason) (calls : list ToolCall) (answered : list str)
    (l : list ConversationItem) : list ConversationItem :=
  match l with
  | CToolResult t :: rest => CToolResult t :: backfill reason calls (answered ++ [tr_tool_call_id t]) rest
  | item :: rest => synthetic_results reason calls answered ++ item :: backfill reason (calls_of item) [] rest
  | [] => synthetic_results reason calls answered
  end.

(** ** What a provider accepts *)

(** No run that follows calls has two results of one id; [seen] are the ids of
    the run so far. *)
Fixpoint no_duplicates (calls : list ToolCall) (seen : list str) (l : list ConversationItem) : Prop :=
  match l with
  | [] => True
  | CToolResult t :: rest =>
      (calls ≠ [] -> tr_tool_call_id t ∉ seen)
      ∧ no_duplicates calls (seen ++ [tr_tool_call_id t]) rest
  | item :: rest => no_duplicates (calls_of item) [] rest
  end.

(** Every result directly follows the calls it answers. *)
Fixpoint adjacent (calls : list ToolCall) (l : list ConversationItem) : Prop :=
  match l with
  | [] => True
  | CToolResult t :: rest => tr_tool_call_id t ∈ call_ids calls ∧ adjacent calls rest
  | item :: rest => adjacent (calls_of item) rest
  end.

(** Every call is answered in the run that follows it. *)
Fixpoint answered_from (calls : list ToolCall) (seen : list str) (l : list ConversationItem) : Prop :=
  match l with
  | [] => ∀ tc, tc ∈ calls -> tc_id tc ∈ seen
  | CToolResult t :: rest => answered_from calls (seen ++ [tr_tool_call_id t]) rest
  | item :: rest => (∀ tc, tc ∈ calls -> tc_id tc ∈ seen) ∧ answered_from (calls_of item) [] rest
  end.

Definition answered (l : list ConversationItem) : Prop := answered_from [] [] l.

(** The pairing of calls and results a provider accepts. *)
Definition well_paired (l : list ConversationItem) : Prop :=
  no_duplicates [] [] l ∧ adjacent [] l ∧ answered l.

(** The calls of one assistant have different ids. *)
Definition distinct_calls (l : list ConversationItem) : Prop :=
  Forall (fun i => NoDup (call_ids (calls_of i))) l.

(** What the pairing of a conversation depends on: the calls of each item, or the
    id a result answers. *)
Definition shape_of (i : ConversationItem) : str + list ToolCall :=
  match i with CToolResult t => inl (tr_tool_call_id t) | i => inr (calls_of i) end.
Definition shape (l : list ConversationItem) : list (str + list ToolCall) := map shape_of l.

(** ** Lemmas: vocabulary *)

Lemma in_ids_spec id ids : in_ids id ids = true <-> id ∈ ids.
Proof.
  unfold in_ids. rewrite existsb_exists. split.
  - intros (x & Hx & ->%str_eqb_eq). by apply list_elem_of_In.
  - intros Hx%list_elem_of_In. exists id. by rewrite str_eqb_refl.
Qed.

Lemma in_ids_false id ids : in_ids id ids = false <-> id ∉ ids.
Proof. rewrite <- not_true_iff_false, in_ids_spec. done. Qed.

Lemma in_ids_ext id ids ids' : (id ∈ ids <-> id ∈ ids') -> in_ids id ids = in_ids id ids'.
Proof. intros H. apply eq_true_iff_eq. by rewrite !in_ids_spec. Qed.

Abbreviation results := (map CToolResult).
Abbreviation ids_of := (map tr_tool_call_id).

Lemma results_run_split l :
  ∃ rest, l = results (results_run l) ++ rest ∧ results_run rest = []
        ∧ match rest with CToolResult _ :: _ => False | _ => True end.
Proof.
  induction l as [|x l (rest & Hl & Hrun & Hrest)]; [by exists []|].
  destruct x; try by (eexists; split_and!; [reflexivity|..]).
  simpl. exists rest. split_and!; [by f_equal|done|done].
Qed.

Lemma results_run_results run rest :
  results_run rest = [] -> results_run (results run ++ rest) = run.
Proof. intros Hrest. induction run; simpl; [done|]. by f_equal. Qed.

Lemma results_run_all run : results_run (results run) = run.
Proof. induction run; simpl; [done|]. by f_equal. Qed.

(** ** Lemmas: deleting indices *)

Fixpoint keep_not {A} (idxs : list nat) (k : nat) (l : list A) : list A :=
  match l with
  | [] => []
  | x :: l' => if bool_decide (k ∈ idxs) then keep_not idxs (S k) l' else x :: keep_not idxs (S k) l'
  end.

Lemma keep_not_ext {A} idxs idxs' k (l : list A) :
  (∀ p, k ≤ p -> p ∈ idxs <-> p ∈ idxs') -> keep_not idxs k l = keep_not idxs' k l.
Proof.
  revert k. induction l as [|x l IH]; intros k H; simpl; [done|].
  rewrite (bool_decide_ext _ _ (H k (Nat.le_refl k))).
  rewrite (IH (S k)); [done|]. intros p Hp. apply H. lia.
Qed.

Lemma keep_not_none {A} idxs k (l : list A) :
  (∀ p, k ≤ p -> p < k + length l -> p ∉ idxs) -> keep_not idxs k l = l.
Proof.
  revert k. induction l as [|x l IH]; intros k H; simpl; [done|].
  rewrite bool_decide_eq_false_2 by (apply H; simpl; lia).
  f_equal. apply IH. intros p Hp Hp'. apply H; simpl; lia.
Qed.

Lemma keep_not_app {A} idxs k (l1 l2 : list A) :
  keep_not idxs k (l1 ++ l2) = keep_not idxs k l1 ++ keep_not idxs (k + length l1) l2.
Proof.
  revert k. induction l1 as [|x l1 IH]; intros k; simpl; [by rewrite Nat.add_0_r|].
  rewrite IH. replace (S k + length l1) with (k + S (length l1)) by lia.
  by destruct (bool_decide _).
Qed.

Lemma delete_keep_not {A} a idxs k (l : list A) :
  Forall (fun b => a < b) idxs -> k ≤ a ->
  delete (a - k) (keep_not idxs k l) = keep_not (a :: idxs) k l.
Proof.
  intros Hidxs. rewrite Forall_forall in Hidxs. revert k.
  induction l as [|x l IH]; intros k Hk; [done|]. cbn [keep_not].
  rewrite bool_decide_eq_false_2 by (intros Hin%Hidxs; lia).
  destruct (decide (k = a)) as [->|Hne].
  - rewrite Nat.sub_diag, bool_decide_eq_true_2 by left. simpl.
    apply keep_not_ext. intros p Hp. set_unfold. intuition lia.
  - rewrite bool_decide_eq_false_2 by (intros [|Hin%Hidxs]%elem_of_cons; lia).
    replace (a - k) with (S (a - S k)) by lia. simpl. f_equal. apply IH. lia.
Qed.

Lemma foldr_delete {A} idxs (l : list A) :
  StronglySorted lt idxs -> foldr (fun idx c => delete idx c) l idxs = keep_not idxs 0 l.
Proof.
  induction 1 as [|a idxs Hs IH Hall]; simpl; [by rewrite keep_not_none by (intros; set_solver)|].
  rewrite IH. rewrite <- (Nat.sub_0_r a) at 1. apply delete_keep_not; [done|lia].
Qed.

Lemma sorted_le_lt idxs : StronglySorted le idxs -> NoDup idxs -> StronglySorted lt idxs.
Proof.
  induction 1 as [|a idxs Hs IH Hall]; [constructor|]. intros [Ha Hnd]%NoDup_cons.
  constructor; [auto|]. rewrite Forall_forall in *. intros b Hb.
  specialize (Hall b Hb). assert (a ≠ b) by (intros ->; done). lia.
Qed.

Lemma delete_descending {A} idxs (l : list A) :
  NoDup idxs ->
  foldl (fun c idx => delete idx c) l (rev (merge_sort le idxs)) = keep_not idxs 0 l.
Proof.
  intros Hnd. transitivity (foldr (fun idx c => delete idx c) l (merge_sort le idxs)).
  { generalize (merge_sort le idxs). intros sorted. induction sorted as [|a sorted IH]; simpl; [done|].
    rewrite foldl_app. simpl. by rewrite IH. }
  rewrite foldr_delete.
  - apply keep_not_ext. intros p _. by rewrite merge_sort_Permutation.
  - apply sorted_le_lt; [apply (StronglySorted_merge_sort le)|]. by rewrite merge_sort_Permutation.
Qed.

(** ** Lemmas: which results are duplicates *)

Lemma seen_at_cons id id' idx seen :
  seen_at id ((id', idx) :: seen) = if decide (id = id') then Some idx else seen_at id seen.
Proof.
  simpl. destruct (decide (id = id')) as [->|Hne]; [by rewrite str_eqb_refl|].
  destruct (str_eqb id id') eqn:E; [|done]. by apply str_eqb_eq in E.
Qed.

Lemma duplicate_indices_elem seen s run p :
  p ∈ duplicate_indices seen s run <->
  (∃ id, seen_at id seen = Some p ∧ id ∈ ids_of run)
  ∨ (∃ q t, p = s + q ∧ run !! q = Some t ∧ tr_tool_call_id t ∈ ids_of (drop (S q) run)).
Proof.
  revert seen s. induction run as [|t run IH]; intros seen s; cbn [duplicate_indices].
  { split; [set_solver|]. intros [(id & _ & Hid)|(q & t & _ & Hq & _)]; [set_solver|done]. }
  set (id0 := tr_tool_call_id t). specialize (IH ((id0, s) :: seen) (S s)).
  setoid_rewrite seen_at_cons in IH.
  assert (Hrest : p ∈ duplicate_indices ((id0, s) :: seen) (S s) run <->
            (∃ id, id ≠ id0 ∧ seen_at id seen = Some p ∧ id ∈ ids_of run)
            ∨ (∃ q t', p = s + q ∧ (t :: run) !! q = Some t' ∧ tr_tool_call_id t' ∈ ids_of (drop (S q) (t :: run)))).
  { rewrite IH. split.
    - intros [(id & Hat & Hin)|(q & t' & -> & Hq & Hin)].
      + destruct (decide (id = id0)) as [->|Hne]; [|left; eauto].
        right. exists 0, t. simplify_eq. rewrite Nat.add_0_r. done.
      + right. exists (S q), t'. split; [lia|done].
    - intros [(id & Hne & Hat & Hin)|(q & t' & -> & Hq & Hin)].
      + left. exists id. by destruct (decide (id = id0)).
      + destruct q as [|q]; simpl in *.
        * left. simplify_eq. exists id0. rewrite decide_True by done. by rewrite Nat.add_0_r.
        * right. exists q, t'. split; [lia|done]. }
  transitivity ((seen_at id0 seen = Some p) ∨ p ∈ duplicate_indices ((id0, s) :: seen) (S s) run).
  { destruct (seen_at id0 seen) as [prev|].
    - rewrite elem_of_cons. split; (intros [H|H]; [left; congruence|by right]).
    - split; [by right|by intros [|]]. }
  rewrite Hrest. split.
  - intros [Hat|[(id & _ & Hat & Hin)|Hq]]; [left; exists id0|left; exists id|by right]; (split; [done|]); simpl; set_solver.
  - intros [(id & Hat & [->|Hin]%elem_of_cons)|Hq]; [by left| |by right; right].
    destruct (decide (id = id0)) as [->|]; [by left|]. right. left. eauto.
Qed.

(** The indices recorded before [s] are distinct and below [s]. *)
Definition seen_ok (seen : list (str * nat)) (s : nat) : Prop :=
  (∀ id p, seen_at id seen = Some p -> p < s)
  ∧ (∀ id id' p, seen_at id seen = Some p -> seen_at id' seen = Some p -> id = id').

Lemma seen_ok_cons id seen s : seen_ok seen s -> seen_ok ((id, s) :: seen) (S s).
Proof.
  intros [Hlt Hinj]. split.
  - intros id' p. rewrite seen_at_cons. case_decide; [intros [= <-]; lia|].
    intros Hp%Hlt. lia.
  - intros id1 id2 p. rewrite !seen_at_cons. repeat case_decide; subst; eauto.
    + intros [= <-] Hp%Hlt. lia.
    + intros Hp%Hlt [= <-]. lia.
Qed.

Lemma duplicate_indices_NoDup seen s run : seen_ok seen s -> NoDup (duplicate_indices seen s run).
Proof.
  revert seen s. induction run as [|t run IH]; intros seen s Hok; cbn [duplicate_indices]; [constructor|].
  pose proof (seen_ok_cons (tr_tool_call_id t) seen s Hok) as Hok'.
  destruct (seen_at (tr_tool_call_id t) seen) as [prev|] eqn:E; [|by apply IH].
  constructor; [|by apply IH].
  rewrite duplicate_indices_elem. destruct Hok as [Hlt Hinj].
  intros [(id & Hat & _)|(q & t' & -> & _)]; [|apply Hlt in E; lia].
  rewrite seen_at_cons in Hat. case_decide; simplify_eq; [apply Hlt in E; lia|].
  naive_solver.
Qed.

Lemma keep_not_keep_last D s run :
  (∀ q t, run !! q = Some t -> s + q ∈ D <-> tr_tool_call_id t ∈ ids_of (drop (S q) run)) ->
  keep_not D s (results run) = keep_last true (results run).
Proof.
  revert s. induction run as [|t run IH]; intros s HD; [done|].
  cbn [map keep_not keep_last]. rewrite results_run_all.
  rewrite (IH (S s)).
  2:{ intros q t' Hq. rewrite <- (HD (S q) t' Hq). by replace (S s + q) with (s + S q) by lia. }
  specialize (HD 0 t eq_refl). rewrite Nat.add_0_r in HD. simpl in *.
  destruct (in_ids _ _) eqn:E.
  - apply in_ids_spec in E. by rewrite bool_decide_eq_true_2 by tauto.
  - apply in_ids_false in E. by rewrite bool_decide_eq_false_2 by tauto.
Qed.

Lemma remove_duplicates_run A run B :
  keep_not (duplicate_indices [] (length A) run) 0 (A ++ results run ++ B) =
  A ++ keep_last true (results run) ++ B.
Proof.
  rewrite !keep_not_app. simpl.
  assert (HD : ∀ p, p ∈ duplicate_indices [] (length A) run <->
     ∃ q t, p = length A + q ∧ run !! q = Some t ∧ tr_tool_call_id t ∈ ids_of (drop (S q) run)).
  { intros p. rewrite duplicate_indices_elem. split; [intros [(id & [=] & _)|]|right]; done. }
  f_equal; [|f_equal].
  - apply keep_not_none. intros p _ Hp. rewrite HD. intros (q & t & -> & _). lia.
  - apply keep_not_keep_last. intros q t Hq. rewrite HD. split; [|eauto].
    intros (q' & t' & Heq & Hq' & Hin). assert (q' = q) as -> by lia. congruence.
  - apply keep_not_none. rewrite length_map. intros p Hp _. rewrite HD.
    intros (q & t & -> & Hq & _). apply lookup_lt_Some in Hq. lia.
Qed.

Lemma sorted_below a idxs n :
  StronglySorted lt (a :: idxs) -> Forall (fun b => b < n) (a :: idxs) -> a + length idxs < n.
Proof.
  revert a. induction idxs as [|b idxs IH]; intros a Hs Hb; simpl.
  - apply Forall_cons in Hb as [? _]. lia.
  - apply StronglySorted_inv in Hs as [Hs Hall]. apply Forall_cons in Hb as [_ Hb].
    apply Forall_cons in Hall as [Hab _]. specialize (IH b Hs Hb). lia.
Qed.

Lemma foldr_delete_length {A} idxs (l : list A) :
  StronglySorted lt idxs -> Forall (fun b => b < length l) idxs ->
  length (foldr (fun idx c => delete idx c) l idxs) + length idxs = length l.
Proof.
  induction idxs as [|a idxs IH]; intros Hs Hb; simpl; [lia|].
  pose proof (sorted_below a idxs (length l) Hs Hb).
  apply StronglySorted_inv in Hs as [Hs _]. apply Forall_cons in Hb as [_ Hb].
  specialize (IH Hs Hb).
  assert (a < length (foldr (fun idx c => delete idx c) l idxs)) as [y Hy]%lookup_lt_is_Some by lia.
  rewrite (length_delete _ _ ltac:(eauto)). lia.
Qed.

Lemma keep_not_length {A} idxs (l : list A) :
  NoDup idxs -> (∀ p, p ∈ idxs -> p < length l) ->
  length (keep_not idxs 0 l) + length idxs = length l.
Proof.
  intros Hnd Hb. rewrite <- (merge_sort_Permutation le idxs) at 2.
  rewrite (keep_not_ext idxs (merge_sort le idxs)) by (intros p _; by rewrite merge_sort_Permutation).
  assert (Hs : StronglySorted lt (merge_sort le idxs)).
  { apply sorted_le_lt; [apply (StronglySorted_merge_sort le)|]. by rewrite merge_sort_Permutation. }
  rewrite <- foldr_delete by done. apply foldr_delete_length; [done|].
  rewrite Forall_forall. intros p. rewrite merge_sort_Permutation. auto.
Qed.

(** ** Lemmas: deduplication in one pass *)

(** A list that does not start with a result. *)
Definition no_result_head (l : list ConversationItem) : Prop :=
  match l with CToolResult _ :: _ => False | _ => True end.

Lemma keep_last_head a b l : no_result_head l -> keep_last a l = keep_last b l.
Proof. by destruct l as [|[] l]. Qed.

Lemma keep_last_length b l : length (keep_last b l) ≤ length l.
Proof.
  revert b. induction l as [|x l IH]; intros b; [done|].
  destruct x; cbn [keep_last]; try apply le_n_S, IH. simpl.
  destruct (_ && _); [apply le_S, IH|apply le_n_S, IH].
Qed.

Lemma keep_last_app run rest :
  results_run rest = [] -> no_result_head rest ->
  keep_last true (results run ++ rest) = keep_last true (results run) ++ keep_last false rest.
Proof.
  intros Hrest Hhead. induction run as [|t run IH]; simpl; [by apply keep_last_head|].
  rewrite results_run_results by done. rewrite results_run_all, IH. by destruct (in_ids _ _).
Qed.

Lemma keep_last_run run :
  ∃ run', keep_last true (results run) = results run' ∧ NoDup (ids_of run')
        ∧ (∀ id, id ∈ ids_of run' <-> id ∈ ids_of run).
Proof.
  induction run as [|t run (run' & Hk & Hnd & Hids)]; [exists []; by repeat constructor|].
  simpl. rewrite results_run_all.
  destruct (in_ids _ _) eqn:E; [apply in_ids_spec in E|apply in_ids_false in E].
  - exists run'. split_and!; [done|done|]. intros id. rewrite Hids. simpl. rewrite elem_of_cons. split; [by right|by intros [->|]].
  - exists (t :: run'). rewrite Hk. split_and!; [done| |].
    + simpl. constructor; [by rewrite Hids|done].
    + intros id. simpl. by rewrite !elem_of_cons, Hids.
Qed.

Lemma keep_last_nodup run : NoDup (ids_of run) -> keep_last true (results run) = results run.
Proof.
  induction run as [|t run IH]; simpl; [done|]. intros [Hid Hnd]%NoDup_cons.
  rewrite results_run_all.
  apply in_ids_false in Hid. rewrite Hid. by rewrite IH.
Qed.

Lemma duplicate_indices_nil s run : duplicate_indices [] s run = [] -> keep_last true (results run) = results run.
Proof.
  intros Hnil. rewrite <- (keep_not_keep_last [] s run); [apply keep_not_none; set_solver|].
  intros q t Hq. rewrite <- Hnil, duplicate_indices_elem. split.
  - intros [(id & [=] & _)|(q' & t' & Heq & Hq' & Hin)]. assert (q' = q) as -> by lia. congruence.
  - intros Hin. right. exists q, t. done.
Qed.

Lemma calls_of_not_result item : calls_of item ≠ [] -> ¬ is_result_item item.
Proof. destruct item; simpl; intros H; first [by destruct H | by intros []]. Qed.

Lemma keep_last_calls item l :
  ¬ is_result_item item -> keep_last false (item :: l) = item :: keep_last (negb (is_empty (calls_of item))) l.
Proof. by destruct item. Qed.

(** One removal step: the run after the calls loses its duplicates. *)
Lemma remove_duplicates_step conv i item run rest :
  conv = take i conv ++ item :: results run ++ rest -> i < length conv ->
  foldl (fun c idx => delete idx c) conv (rev (merge_sort le (duplicate_indices [] (S i) run)))
  = take i conv ++ item :: keep_last true (results run) ++ rest
  ∧ length (take i conv ++ item :: keep_last true (results run) ++ rest)
    + length (duplicate_indices [] (S i) run) = length conv.
Proof.
  intros Hconv Hi.
  assert (Hnd : NoDup (duplicate_indices [] (S i) run)) by (apply duplicate_indices_NoDup; by split).
  assert (HlenA : length (take i conv ++ [item]) = S i) by (rewrite length_app, length_take; simpl; lia).
  assert (Hkeep : keep_not (duplicate_indices [] (S i) run) 0 conv
                  = take i conv ++ item :: keep_last true (results run) ++ rest).
  { rewrite Hconv at 1. replace (take i conv ++ item :: results run ++ rest)
      with ((take i conv ++ [item]) ++ results run ++ rest) by (by rewrite <- app_assoc).
    rewrite <- HlenA, remove_duplicates_run. by rewrite <- app_assoc. }
  rewrite delete_descending by done. split; [done|]. rewrite <- Hkeep. apply keep_not_length; [done|].
  intros p. rewrite duplicate_indices_elem. intros [(id & [=] & _)|(q & t & -> & Hq & _)].
  apply lookup_lt_Some in Hq. rewrite Hconv. rewrite length_app. simpl. rewrite length_app, length_map, length_take. lia.
Qed.

Lemma dedup_loop_spec fuel conv i total :
  length conv - i < fuel -> i ≤ length conv ->
  dedup_loop fuel conv i total =
    (take i conv ++ keep_last false (drop i conv),
     total + (length conv - length (take i conv ++ keep_last false (drop i conv)))).
Proof.
  revert conv i total. induction fuel as [|fuel IH]; intros conv i total Hfuel Hi; [lia|].
  cbn [dedup_loop]. destruct (conv !! i) as [item|] eqn:Hitem.
  2:{ apply lookup_ge_None in Hitem. rewrite drop_ge, app_nil_r, firstn_all2 by done.
      f_equal. lia. }
  assert (Hlt : i < length conv) by (by eapply lookup_lt_Some).
  pose proof (drop_S _ _ _ Hitem) as Hdrop.
  destruct (results_run_split (drop (S i) conv)) as (rest & Hsplit & Hrest & Hhead).
  set (run := results_run (drop (S i) conv)) in *.
  assert (Hconv : conv = take i conv ++ item :: results run ++ rest)
    by (rewrite <- Hsplit, <- Hdrop; by rewrite take_drop).
  destruct (is_empty (calls_of item)) eqn:Hcalls.
  { rewrite IH by lia. rewrite Hdrop, (take_S_r _ _ _ Hitem), <- app_assoc. simpl.
    destruct item as [| |a|t| |]; simpl in *; try done; by rewrite Hcalls. }
  apply is_empty_false in Hcalls as Hne. pose proof (calls_of_not_result item Hne) as Hnr.
  assert (Hkl : keep_last false (drop i conv) = item :: keep_last true (results run) ++ keep_last false rest).
  { rewrite Hdrop, Hsplit, keep_last_calls by done. rewrite Hcalls. simpl. by rewrite keep_last_app. }
  destruct (is_empty (duplicate_indices [] (S i) run)) eqn:Hdup.
  - apply is_empty_spec in Hdup. apply duplicate_indices_nil in Hdup.
    assert (Hlen : S i + length run = length (take i conv ++ item :: results run))
      by (rewrite length_app, length_take; simpl; rewrite length_map; lia).
    assert (Htake : take (S i + length run) conv = take i conv ++ item :: results run).
    { rewrite Hlen. rewrite Hconv at 2.
      replace (take i conv ++ item :: results run ++ rest)
        with ((take i conv ++ item :: results run) ++ rest) by (by rewrite <- app_assoc).
      apply take_app_length. }
    assert (Hdr : drop (S i + length run) conv = rest).
    { rewrite Hlen. rewrite Hconv at 2.
      replace (take i conv ++ item :: results run ++ rest)
        with ((take i conv ++ item :: results run) ++ rest) by (by rewrite <- app_assoc).
      apply drop_app_length. }
    assert (S i + length run ≤ length conv).
    { rewrite Hlen. rewrite Hconv at 2. rewrite !length_app. simpl. rewrite length_app. lia. }
    rewrite IH by lia. rewrite Htake, Hdr, Hkl, Hdup. by rewrite <- app_assoc.
  - destruct (remove_duplicates_step conv i item run rest Hconv Hlt) as [Hstep Hlen].
    rewrite Hstep. apply is_empty_false in Hdup.
    assert (length (duplicate_indices [] (S i) run) ≠ 0) by (by rewrite length_zero_iff_nil).
    assert (Hi' : i = length (take i conv)) by (rewrite length_take; lia).
    rewrite IH by (rewrite length_app in *; simpl in *; lia).
    destruct (keep_last_run run) as (run' & Hk & Hnd & _). rewrite Hk in *.
    assert (Ht : take i (take i conv ++ item :: results run' ++ rest) = take i conv)
      by (rewrite Hi' at 1; apply take_app_length).
    assert (Hd : drop i (take i conv ++ item :: results run' ++ rest) = item :: results run' ++ rest)
      by (rewrite Hi' at 1; apply drop_app_length).
    rewrite Ht, Hd, keep_last_calls, Hcalls, Hkl by done. simpl.
    rewrite keep_last_app, (keep_last_nodup run') by done. f_equal.
    rewrite !length_app in *. simpl in *. rewrite !length_app in *.
    pose proof (keep_last_length false rest).
    lia.
Qed.

Lemma dedup_keep_last l :
  dedup_duplicate_tool_results l = (keep_last false l, length l - length (keep_last false l)).
Proof. unfold dedup_duplicate_tool_results. rewrite dedup_loop_spec by lia. by rewrite drop_0. Qed.

(** ** Lemmas: backfilling in one pass *)

Lemma synthetic_none reason calls seen :
  synthetic_results reason calls seen = [] <-> ∀ tc, tc ∈ calls -> tc_id tc ∈ seen.
Proof.
  unfold synthetic_results. split.
  - intros Hnil%map_eq_nil tc Htc. destruct (in_ids (tc_id tc) seen) eqn:E; [by apply in_ids_spec|].
    assert (In tc (List.filter (fun tc => negb (in_ids (tc_id tc) seen)) calls)) as Hin
      by (apply filter_In; by rewrite E, <- list_elem_of_In).
    by rewrite Hnil in Hin.
  - intros H. induction calls as [|tc calls IH]; [done|]. simpl.
    rewrite (proj2 (in_ids_spec _ _)) by (apply H; left). simpl. apply IH. intros tc' Htc'. apply H. by right.
Qed.

Lemma synthetic_nil reason seen : synthetic_results reason [] seen = [].
Proof. done. Qed.

Lemma backfill_no_calls reason seen l : backfill reason [] seen l = backfill reason [] [] l.
Proof.
  revert seen. assert (H : ∀ seen seen', backfill reason [] seen l = backfill reason [] seen' l); [|auto].
  induction l as [|x l IH]; intros seen seen'; [done|].
  destruct x; cbn [backfill]; rewrite ?synthetic_nil; [done..|by f_equal|done|done].
Qed.

Lemma backfill_run reason calls seen run rest :
  backfill reason calls seen (results run ++ rest) =
  results run ++ backfill reason calls (seen ++ ids_of run) rest.
Proof.
  revert seen. induction run as [|t run IH]; intros seen; simpl; [by rewrite app_nil_r|].
  rewrite IH, <- app_assoc. done.
Qed.

Lemma backfill_head reason calls seen rest :
  no_result_head rest ->
  backfill reason calls seen rest = synthetic_results reason calls seen ++ backfill reason [] [] rest.
Proof.
  destruct rest as [|x rest]; simpl; [by rewrite app_nil_r|].
  destruct x; simpl; rewrite ?synthetic_nil; done.
Qed.

Lemma backfill_cons_calls reason item l :
  ¬ is_result_item item -> backfill reason [] [] (item :: l) = item :: backfill reason (calls_of item) [] l.
Proof. by destruct item. Qed.

Lemma splice_at_app {A} (pre post new : list A) :
  splice_at (length pre) new (pre ++ post) = pre ++ new ++ post.
Proof. unfold splice_at. by rewrite take_app_length, drop_app_length. Qed.

(** The items up to the end of a run. *)
Lemma take_run conv i item run rest :
  conv !! i = Some item -> drop (S i) conv = results run ++ rest ->
  take (S i + length run) conv = take i conv ++ item :: results run
  ∧ drop (S i + length run) conv = rest ∧ S i + length run ≤ length conv.
Proof.
  intros Hitem Hdrop.
  assert (Hlt : i < length conv) by (by eapply lookup_lt_Some).
  assert (Hconv : conv = (take i conv ++ item :: results run) ++ rest).
  { rewrite <- app_assoc. simpl. rewrite <- Hdrop, <- (drop_S _ _ _ Hitem). by rewrite take_drop. }
  assert (Hlen : S i + length run = length (take i conv ++ item :: results run))
    by (rewrite length_app, length_take; simpl; rewrite length_map; lia).
  rewrite Hlen. split_and!.
  - rewrite Hconv at 2. apply take_app_length.
  - rewrite Hconv at 2. apply drop_app_length.
  - rewrite Hconv at 2. rewrite (length_app _ rest). lia.
Qed.

Lemma repair_scan_spec reason conv fuel i :
  length conv - i < fuel -> i ≤ length conv ->
  foldr (fun r c => splice_at (fst r) (snd r) c) conv (repair_scan reason conv fuel i)
  = take i conv ++ backfill reason [] [] (drop i conv)
  ∧ length (take i conv ++ backfill reason [] [] (drop i conv))
    = length conv + list_sum (map (fun r => length (snd r)) (repair_scan reason conv fuel i)).
Proof.
  revert i. induction fuel as [|fuel IH]; intros i Hfuel Hi; [lia|].
  cbn [repair_scan]. destruct (conv !! i) as [item|] eqn:Hitem.
  2:{ apply lookup_ge_None in Hitem. rewrite drop_ge, firstn_all2 by done. simpl. rewrite app_nil_r. split; [done|lia]. }
  assert (Hlt : i < length conv) by (by eapply lookup_lt_Some).
  pose proof (drop_S _ _ _ Hitem) as Hdrop.
  destruct (calls_of item) as [|c calls] eqn:Hcalls.
  { destruct (IH (S i)) as [IH1 IH2]; [lia..|].
    assert (Hb : backfill reason [] [] (item :: drop (S i) conv) = item :: backfill reason [] [] (drop (S i) conv)).
    { destruct item; cbn [backfill calls_of] in *; rewrite ?synthetic_nil, ?Hcalls; try done.
      f_equal. apply backfill_no_calls. }
    rewrite IH1, <- IH2, Hdrop, Hb, (take_S_r _ _ _ Hitem), <- app_assoc. done. }
  destruct (results_run_split (drop (S i) conv)) as (rest & Hsplit & Hrest & Hhead).
  set (run := results_run (drop (S i) conv)) in *.
  destruct (take_run conv i item run rest Hitem Hsplit) as (Htake & Hdr & Hle).
  destruct (IH (S i + length run)) as [IH1 IH2]; [lia..|].
  assert (Hnr : ¬ is_result_item item) by (apply calls_of_not_result; by rewrite Hcalls).
  set (syn := synthetic_results reason (c :: calls) (ids_of run)).
  assert (Hres : take i conv ++ backfill reason [] [] (drop i conv)
                 = take (S i + length run) conv ++ syn ++ backfill reason [] [] (drop (S i + length run) conv)).
  { rewrite Hdrop, backfill_cons_calls, Hcalls, Hsplit, backfill_run, backfill_head, Htake, Hdr by done.
    by rewrite <- app_assoc. }
  rewrite Hres. destruct syn as [|s syn'] eqn:Hsyn; cbn [is_empty app].
  - by rewrite IH1, <- IH2.
  - cbn [foldr fst snd map]. rewrite IH1. set (B := backfill _ _ _ _) in *. clearbody B.
    replace (S i + length run) with (length (take (S i + length run) conv)) at 1 by (rewrite length_take; lia).
    rewrite splice_at_app. split; [done|].
    match goal with |- context [list_sum (?x :: ?l)] => change (list_sum (x :: l)) with (x + list_sum l) end.
    revert IH2. rewrite !length_app. simpl. rewrite ?length_app. lia.
Qed.

Lemma repair_backfill l reason :
  repair_dangling_tool_calls l reason
  = (backfill reason [] [] l, length (backfill reason [] [] l) - length l).
Proof.
  unfold repair_dangling_tool_calls.
  destruct (repair_scan_spec reason l (S (length l)) 0) as [H1 H2]; [lia..|].
  rewrite H1, drop_0 in *. simpl in *. f_equal. lia.
Qed.

Lemma answered_no_calls seen l : answered_from [] seen l <-> answered_from [] [] l.
Proof.
  assert (H : ∀ seen seen', answered_from [] seen l -> answered_from [] seen' l); [|split; eauto].
  induction l as [|x l IH]; intros s s'; [simpl; set_solver|].
  destruct x; simpl; try (intros [_ ?]; split; [set_solver|done]). eauto.
Qed.

Lemma answered_run calls seen run rest :
  no_result_head rest ->
  answered_from calls seen (results run ++ rest) <->
  (∀ tc, tc ∈ calls -> tc_id tc ∈ seen ++ ids_of run) ∧ answered_from [] [] rest.
Proof.
  intros Hhead. revert seen. induction run as [|t run IH]; intros seen; simpl.
  - rewrite app_nil_r. destruct rest as [|x rest]; simpl; [set_solver|]. destruct x; simpl; set_solver.
  - rewrite IH. by rewrite <- app_assoc.
Qed.

Lemma dangling_scan_spec conv fuel i :
  length conv - i < fuel -> i ≤ length conv ->
  dangling_scan conv fuel i = false <-> answered (drop i conv).
Proof.
  unfold answered. revert i. induction fuel as [|fuel IH]; intros i Hfuel Hi; [lia|].
  cbn [dangling_scan]. destruct (conv !! i) as [item|] eqn:Hitem.
  2:{ apply lookup_ge_None in Hitem. rewrite drop_ge by done. simpl. set_solver. }
  assert (Hlt : i < length conv) by (by eapply lookup_lt_Some).
  pose proof (drop_S _ _ _ Hitem) as Hdrop. rewrite Hdrop.
  destruct (calls_of item) as [|c calls] eqn:Hcalls.
  { rewrite IH by lia. clear -Hcalls. destruct item; cbn [answered_from calls_of] in *; rewrite ?Hcalls;
      try (split; [intros H; split; [by intros tc ?%elem_of_nil|exact H]|by intros [_ ?]]).
    symmetry. apply answered_no_calls. }
  destruct (results_run_split (drop (S i) conv)) as (rest & Hsplit & Hrest & Hhead).
  set (run := results_run (drop (S i) conv)) in *.
  destruct (take_run conv i item run rest Hitem Hsplit) as (Htake & Hdr & Hle).
  assert (Hnr : ¬ is_result_item item) by (apply calls_of_not_result; by rewrite Hcalls).
  transitivity (answered_from (c :: calls) [] (results run ++ rest)).
  2:{ rewrite <- Hsplit, <- Hcalls. clear -Hnr. destruct item; cbn [answered_from calls_of];
        try (split; [intros H; split; [by intros tc ?%elem_of_nil|exact H]|by intros [_ ?]]).
      by destruct Hnr. }
  rewrite answered_run by done. simpl app.
  destruct (existsb _ (c :: calls)) eqn:Hex.
  - split; [done|]. intros [Hall _]. apply existsb_exists in Hex as (tc & Hin & Hneg).
    apply negb_true_iff, in_ids_false in Hneg. destruct Hneg. apply Hall. by apply list_elem_of_In.
  - rewrite IH, Hdr by lia. split; [|by intros []]. intros Hr. split; [|done].
    intros tc Htc. apply in_ids_spec. destruct (in_ids _ _) eqn:E; [done|].
    assert (existsb (fun tc => negb (in_ids (tc_id tc) (ids_of run))) (c :: calls) = true) as Ht; [|congruence].
    apply existsb_exists. exists tc. rewrite <- list_elem_of_In. by rewrite E.
Qed.

Lemma has_dangling_answered l : has_dangling_tool_calls l = false <-> answered l.
Proof. unfold has_dangling_tool_calls. rewrite dangling_scan_spec by lia. by rewrite drop_0. Qed.

(** ** Lemmas: what each pass establishes and preserves *)

Lemma no_duplicates_mono calls seen seen' l :
  seen' ⊆ seen -> no_duplicates calls seen l -> no_duplicates calls seen' l.
Proof.
  revert seen seen'. induction l as [|x l IH]; intros seen seen' Hsub; [done|].
  destruct x; simpl; try done. intros [H1 H2]. split; [set_solver|]. eapply IH; [|exact H2]. set_solver.
Qed.

Lemma no_duplicates_no_calls seen l : no_duplicates [] seen l <-> no_duplicates [] [] l.
Proof.
  assert (H : ∀ seen seen', no_duplicates [] seen l -> no_duplicates [] seen' l); [|split; eauto].
  induction l as [|x l IH]; intros s s'; [done|]. destruct x; simpl; try done. intros [_ H]. split; [done|eauto].
Qed.

Lemma no_duplicates_run calls seen run rest :
  calls ≠ [] -> no_result_head rest ->
  no_duplicates calls seen (results run ++ rest) <->
  (∀ id, id ∈ ids_of run -> id ∉ seen) ∧ NoDup (ids_of run) ∧ no_duplicates [] [] rest.
Proof.
  intros Hne Hhead. revert seen. induction run as [|t run IH]; intros seen; simpl.
  - assert (no_duplicates calls seen rest <-> no_duplicates [] [] rest) as ->.
    { destruct rest as [|x rest]; [done|]. by destruct x. }
    split; [|by intros (_ & _ & ?)]. intros ?. split_and!; [set_solver|constructor|done].
  - rewrite IH, NoDup_cons. set_solver.
Qed.

(** Splitting an item off: a result, or an item that opens its own run. *)
Lemma not_result_cons item :
  ¬ is_result_item item ->
  (∀ calls seen l, no_duplicates calls seen (item :: l) = no_duplicates (calls_of item) [] l)
  ∧ (∀ calls l, adjacent calls (item :: l) = adjacent (calls_of item) l)
  ∧ (∀ calls seen l, answered_from calls seen (item :: l)
       = ((∀ tc, tc ∈ calls -> tc_id tc ∈ seen) ∧ answered_from (calls_of item) [] l))
  ∧ (∀ b l, keep_last b (item :: l) = item :: keep_last (negb (is_empty (calls_of item))) l)
  ∧ (∀ reason calls seen l, backfill reason calls seen (item :: l)
       = synthetic_results reason calls seen ++ item :: backfill reason (calls_of item) [] l)
  ∧ (∀ ids l, strip_displaced_from ids (item :: l)
       = (item :: fst (strip_displaced_from (call_ids (calls_of item)) l),
          snd (strip_displaced_from (call_ids (calls_of item)) l))).
Proof.
  destruct item; simpl; intros Hnr; try done; split_and!; intros; try done;
    by destruct (strip_displaced_from _ _).
Qed.

Lemma item_cases item : (∃ t, item = CToolResult t) ∨ ¬ is_result_item item.
Proof. destruct item; eauto. Qed.

Lemma no_duplicates_add calls seen extra l :
  (∀ id, id ∈ extra -> id ∉ ids_of (results_run l)) ->
  no_duplicates calls seen l -> no_duplicates calls (extra ++ seen) l.
Proof.
  revert seen. induction l as [|x l IH]; intros seen Hextra; [done|].
  destruct (item_cases x) as [[t ->]|Hnr].
  2:{ by rewrite !(proj1 (not_result_cons x Hnr)). }
  simpl in *. intros [H1 H2]. split.
  - intros Hne Hin. apply elem_of_app in Hin as [Hin|Hin]; [|by apply H1].
    apply (Hextra _ Hin). left.
  - rewrite <- app_assoc. apply IH; [|done]. intros id Hid Hin. apply (Hextra id Hid). by right.
Qed.

Lemma no_duplicates_notin calls seen l id :
  calls ≠ [] -> no_duplicates calls seen l -> id ∈ ids_of (results_run l) -> id ∉ seen.
Proof.
  intros Hne. revert seen. induction l as [|x l IH]; intros seen; simpl; [by intros _ ?%elem_of_nil|].
  destruct x as [| | |t| |]; simpl; try by intros _ ?%elem_of_nil.
  intros [H1 H2] [->|Hin]%elem_of_cons; [auto|].
  specialize (IH _ H2 Hin). intros Hs. apply IH, elem_of_app. by left.
Qed.

Lemma keep_last_run_ids b l id :
  id ∈ ids_of (results_run (keep_last b l)) -> id ∈ ids_of (results_run l).
Proof.
  induction l as [|x l IH]; [done|].
  destruct (item_cases x) as [[t ->]|Hnr].
  - simpl. destruct (_ && _); simpl; [intros ?; right; auto|].
    intros [->|?]%elem_of_cons; [left|right; auto].
  - rewrite (proj1 (proj2 (proj2 (proj2 (not_result_cons x Hnr))))). by destruct x.
Qed.

Lemma keep_last_no_duplicates l :
  no_duplicates [] [] (keep_last false l)
  ∧ ∀ calls, calls ≠ [] -> no_duplicates calls [] (keep_last true l).
Proof.
  induction l as [|x l [IH1 IH2]]; [done|].
  destruct (item_cases x) as [[t ->]|Hnr].
  - simpl. split.
    + split; [done|]. by apply no_duplicates_no_calls.
    + intros calls Hne. destruct (in_ids _ _) eqn:E; [auto|]. apply in_ids_false in E.
      split; [intros _; apply not_elem_of_nil|]. apply (no_duplicates_add calls [] [tr_tool_call_id t]); [|auto].
      intros id ->%list_elem_of_singleton Hin%keep_last_run_ids. done.
  - pose proof (not_result_cons x Hnr) as (Hnd & _ & _ & Hk & _ & _).
    assert (H : no_duplicates (calls_of x) [] (keep_last (negb (is_empty (calls_of x))) l)).
    { destruct (calls_of x) eqn:E; simpl; [done|by apply IH2]. }
    split; [|intros calls _]; by rewrite Hk, Hnd.
Qed.

Lemma keep_last_id l :
  (no_duplicates [] [] l -> keep_last false l = l)
  ∧ ∀ calls seen, calls ≠ [] -> no_duplicates calls seen l -> keep_last true l = l.
Proof.
  induction l as [|x l [IH1 IH2]]; [done|].
  destruct (item_cases x) as [[t ->]|Hnr].
  - simpl. split.
    + intros [_ H%no_duplicates_no_calls]. by rewrite IH1.
    + intros calls seen Hne [_ H]. destruct (in_ids _ _) eqn:E.
      * apply in_ids_spec in E. destruct (no_duplicates_notin _ _ _ _ Hne H E).
        apply elem_of_app. right. left.
      * f_equal. by eapply IH2.
  - pose proof (not_result_cons x Hnr) as (Hnd & _ & _ & Hk & _ & _).
    assert (H : no_duplicates (calls_of x) [] l -> keep_last (negb (is_empty (calls_of x))) l = l).
    { destruct (calls_of x) eqn:E; simpl; [done|]. by apply IH2. }
    split; [|intros calls seen _]; rewrite Hk, Hnd; intros; f_equal; auto.
Qed.

Lemma strip_spec calls l :
  adjacent calls (fst (strip_displaced_from (call_ids calls) l))
  ∧ (∀ seen, no_duplicates calls seen l -> no_duplicates calls seen (fst (strip_displaced_from (call_ids calls) l)))
  ∧ (adjacent calls l -> strip_displaced_from (call_ids calls) l = (l, []))
  ∧ (snd (strip_displaced_from (call_ids calls) l) = [] -> adjacent calls l).
Proof.
  revert calls. induction l as [|x l IH]; intros calls; [done|].
  destruct (item_cases x) as [[t ->]|Hnr].
  - specialize (IH calls) as (IH1 & IH2 & IH3 & IH4). simpl.
    destruct (strip_displaced_from (call_ids calls) l) as [kept stripped]. simpl in *.
    destruct (in_ids _ _) eqn:E; [apply in_ids_spec in E|apply in_ids_false in E]; simpl.
    + split; [done|]. split; [|split; [|by auto]].
      * intros seen [H1 H2]. split; auto.
      * intros [_ Hadj]. by injection (IH3 Hadj) as -> ->.
    + split_and!; [done| |by intros []|done].
      intros seen [_ H2]. eapply no_duplicates_mono; [|by apply IH2]. intros id. rewrite elem_of_app. auto.
  - pose proof (not_result_cons x Hnr) as (Hnd & Hadj & _ & _ & _ & Hs).
    specialize (IH (calls_of x)) as (IH1 & IH2 & IH3 & IH4). rewrite !Hs. cbn [fst snd].
    split_and!; [by rewrite Hadj| | |by rewrite Hadj].
    + intros seen. rewrite !Hnd. auto.
    + rewrite Hadj. intros H. by rewrite (IH3 H).
Qed.

(** The synthetic results are results, for the unanswered calls in order. *)
Lemma synthetic_run reason calls seen :
  ∃ run, synthetic_results reason calls seen = results run
       ∧ ids_of run = call_ids (List.filter (fun tc => negb (in_ids (tc_id tc) seen)) calls).
Proof.
  unfold synthetic_results. set (missing := List.filter _ calls). clearbody missing.
  exists (map (fun tc => mkToolResult (tc_id tc) (synthetic_dangling_result_text (tc_name tc) reason) []) missing).
  unfold call_ids. by rewrite !map_map.
Qed.

Lemma synthetic_ids calls seen id :
  id ∈ call_ids (List.filter (fun tc => negb (in_ids (tc_id tc) seen)) calls) <->
  id ∈ call_ids calls ∧ id ∉ seen.
Proof.
  unfold call_ids. rewrite !list_elem_of_In, !in_map_iff. split.
  - intros (tc & <- & [Hin Hneg%negb_true_iff]%filter_In). apply in_ids_false in Hneg.
    split; [eauto|]. by rewrite <- list_elem_of_In.
  - intros [(tc & <- & Hin) Hns]. exists tc. split; [done|]. apply filter_In. split; [done|].
    rewrite <- list_elem_of_In in Hns. apply in_ids_false in Hns. by rewrite Hns.
Qed.

Lemma call_ids_elem tc calls : tc ∈ calls -> tc_id tc ∈ call_ids calls.
Proof. unfold call_ids. intros Hin. apply list_elem_of_fmap. eauto. Qed.

Lemma adjacent_run calls run rest :
  (∀ id, id ∈ ids_of run -> id ∈ call_ids calls) -> adjacent calls rest -> adjacent calls (results run ++ rest).
Proof.
  intros Hids Hrest. induction run as [|t run IH]; [done|]. simpl. split.
  - apply Hids. left.
  - apply IH. intros id Hid. apply Hids. by right.
Qed.

Lemma no_duplicates_extend calls seen run rest :
  no_result_head rest -> NoDup (ids_of run) -> (∀ id, id ∈ ids_of run -> id ∉ seen) ->
  no_duplicates [] [] rest -> no_duplicates calls seen (results run ++ rest).
Proof.
  intros Hhead Hnd Hns Hrest. destruct (decide (calls = [])) as [->|Hne].
  - apply no_duplicates_no_calls. clear Hnd Hns. induction run; simpl; [done|].
    split; [done|]. by apply no_duplicates_no_calls.
  - by apply no_duplicates_run.
Qed.

Lemma NoDup_filter_ids calls f : NoDup (call_ids calls) -> NoDup (call_ids (List.filter f calls)).
Proof.
  unfold call_ids. induction calls as [|c calls IH]; simpl; [done|]. intros [Hc Hnd]%NoDup_cons.
  destruct (f c); simpl; [|auto]. constructor; [|auto].
  rewrite list_elem_of_In, in_map_iff in *. intros (c' & Heq & [Hin _]%filter_In). apply Hc. eauto.
Qed.

(** The end of a run, completed: what follows it starts a new one. *)
Lemma backfill_end reason calls seen rest :
  no_result_head rest ->
  answered_from [] [] rest ->
  answered_from calls seen (synthetic_results reason calls seen ++ rest)
  ∧ (NoDup (call_ids calls) -> no_duplicates [] [] rest ->
     no_duplicates calls seen (synthetic_results reason calls seen ++ rest))
  ∧ (adjacent [] rest -> adjacent calls rest -> adjacent calls (synthetic_results reason calls seen ++ rest)).
Proof.
  intros Hhead Hans. destruct (synthetic_run reason calls seen) as (run & -> & Hids). split_and!.
  - apply answered_run; [done|]. split; [|done]. intros tc Htc. rewrite elem_of_app, Hids, synthetic_ids.
    destruct (decide (tc_id tc ∈ seen)); [by left|]. right. split; [by apply call_ids_elem|done].
  - intros Hnd Hrest. apply no_duplicates_extend; [done| | |done].
    + rewrite Hids. by apply NoDup_filter_ids.
    + intros id. rewrite Hids, synthetic_ids. by intros [].
  - intros _ Hadj. apply adjacent_run; [|done]. intros id. rewrite Hids, synthetic_ids. by intros [].
Qed.

Lemma backfill_spec reason calls seen l :
  answered_from calls seen (backfill reason calls seen l)
  ∧ (NoDup (call_ids calls) -> distinct_calls l -> no_duplicates calls seen l ->
     no_duplicates calls seen (backfill reason calls seen l))
  ∧ (adjacent calls l -> adjacent calls (backfill reason calls seen l)).
Proof.
  revert calls seen. induction l as [|x l IH]; intros calls seen.
  - cbn [backfill]. rewrite <- (app_nil_r (synthetic_results reason calls seen)).
    destruct (backfill_end reason calls seen []) as (H1 & H2 & H3); [done|by intros tc ?%elem_of_nil|].
    split_and!; auto.
  - destruct (item_cases x) as [[t ->]|Hnr].
    + specialize (IH calls (seen ++ [tr_tool_call_id t])) as (IH1 & IH2 & IH3). simpl. split_and!; [done| |].
      * intros Hnd [_ Hd]%Forall_cons [H1 H2]. split; auto.
      * intros [H1 H2]. split; auto.
    + pose proof (not_result_cons x Hnr) as (Hnd & Hadj & Hans & _ & Hb & _).
      specialize (IH (calls_of x) []) as (IH1 & IH2 & IH3). rewrite Hb.
      assert (Hhead : no_result_head (x :: backfill reason (calls_of x) [] l)) by (by destruct x).
      assert (Ha : answered_from [] [] (x :: backfill reason (calls_of x) [] l)).
      { rewrite Hans. split; [by intros tc ?%elem_of_nil|done]. }
      destruct (backfill_end reason calls seen _ Hhead Ha) as (H1 & H2 & H3). split_and!; [done| |].
      * intros Hc [Hx Hd]%Forall_cons Hn. apply H2; [done|]. rewrite Hnd in *. auto.
      * intros Hj. apply H3; rewrite Hadj in *; auto.
Qed.

Lemma backfill_id reason calls seen l :
  answered_from calls seen l -> backfill reason calls seen l = l.
Proof.
  revert calls seen. induction l as [|x l IH]; intros calls seen; [by apply synthetic_none|].
  destruct (item_cases x) as [[t ->]|Hnr].
  - simpl. intros H. f_equal. auto.
  - pose proof (not_result_cons x Hnr) as (_ & _ & Hans & _ & Hb & _). rewrite Hans, Hb.
    intros [H1 H2]. rewrite (proj2 (synthetic_none reason calls seen) H1). simpl. f_equal. auto.
Qed.

(** ** Lemmas: what no pass touches *)

Definition not_result (i : ConversationItem) : bool := negb (is_result_item i).

Lemma keep_last_others b l : List.filter not_result (keep_last b l) = List.filter not_result l.
Proof.
  revert b. induction l as [|x l IH]; intros b; [done|]. destruct x; simpl; rewrite ?IH; try done.
  destruct (_ && _); simpl; auto.
Qed.

Lemma strip_others ids l :
  List.filter not_result (fst (strip_displaced_from ids l)) = List.filter not_result l.
Proof.
  revert ids. induction l as [|x l IH]; intros ids; [done|].
  destruct (item_cases x) as [[t ->]|Hnr].
  - simpl. specialize (IH ids). destruct (strip_displaced_from ids l). by destruct (in_ids _ _).
  - pose proof (not_result_cons x Hnr) as (_ & _ & _ & _ & _ & Hs). rewrite Hs. cbn [fst List.filter].
    by rewrite IH.
Qed.

Lemma results_others run : List.filter not_result (results run) = [].
Proof. by induction run. Qed.

Lemma backfill_others reason calls seen l :
  List.filter not_result (backfill reason calls seen l) = List.filter not_result l.
Proof.
  revert calls seen. induction l as [|x l IH]; intros calls seen.
  - simpl. destruct (synthetic_run reason calls seen) as (run & -> & _). apply results_others.
  - destruct (item_cases x) as [[t ->]|Hnr]; [simpl; auto|].
    pose proof (not_result_cons x Hnr) as (_ & _ & _ & _ & Hb & _). rewrite Hb, List.filter_app.
    destruct (synthetic_run reason calls seen) as (run & -> & _). rewrite results_others. simpl.
    by rewrite IH.
Qed.

Lemma distinct_others l l' :
  List.filter not_result l' = List.filter not_result l -> distinct_calls l -> distinct_calls l'.
Proof.
  unfold distinct_calls. intros Heq Hl. rewrite Forall_forall in *. intros i Hi.
  destruct (item_cases i) as [[t ->]|Hnr]; [constructor|]. apply Hl.
  assert (In i (List.filter not_result l')) as Hin.
  { apply filter_In. split; [by apply list_elem_of_In|]. by destruct i. }
  rewrite Heq in Hin. apply filter_In in Hin as [Hin _]. by apply list_elem_of_In.
Qed.

Lemma backfill_sublist reason calls seen l : l `sublist_of` backfill reason calls seen l.
Proof.
  revert calls seen. induction l as [|x l IH]; intros calls seen; [apply sublist_nil_l|].
  destruct (item_cases x) as [[t ->]|Hnr]; [by constructor|].
  pose proof (not_result_cons x Hnr) as (_ & _ & _ & _ & Hb & _). rewrite Hb.
  apply sublist_inserts_l. by constructor.
Qed.

(** ** Properties *)

(** The pairing of a conversation depends on its shape only. *)
Lemma shape_cons x y l l' :
  shape (x :: l) = shape (y :: l') ->
  shape l = shape l'
  ∧ ((∃ t t', x = CToolResult t ∧ y = CToolResult t' ∧ tr_tool_call_id t = tr_tool_call_id t')
     ∨ (not_result x = true ∧ not_result y = true ∧ calls_of x = calls_of y)).
Proof.
  intros Hs. injection Hs as Hx Hl. split; [done|].
  destruct x, y; simpl in Hx; try discriminate Hx; simplify_eq;
    try (left; eexists _, _; done); by right.
Qed.

Lemma answered_shape_from calls seen l l' :
  shape l = shape l' -> answered_from calls seen l -> answered_from calls seen l'.
Proof.
  revert calls seen l'. induction l as [|x l IH]; intros calls seen [|y l'] Hs; try done.
  destruct (shape_cons _ _ _ _ Hs) as (Hl & [(t & t' & -> & -> & Ht)|(Hx & Hy & Hc)]).
  - simpl. rewrite <- Ht. by apply IH.
  - destruct x, y; try done; simpl in *; rewrite <- ?Hc; intros [H1 H2]; split; auto.
Qed.

Lemma answered_shape l l' : shape l = shape l' -> answered l -> answered l'.
Proof. apply answered_shape_from. Qed.

Lemma has_dangling_shape l l' :
  shape l = shape l' -> has_dangling_tool_calls l = false -> has_dangling_tool_calls l' = false.
Proof. rewrite !has_dangling_answered. apply answered_shape. Qed.

Lemma no_duplicates_shape calls seen l l' :
  shape l = shape l' -> no_duplicates calls seen l -> no_duplicates calls seen l'.
Proof.
  revert calls seen l'. induction l as [|x l IH]; intros calls seen [|y l'] Hs; try done.
  destruct (shape_cons _ _ _ _ Hs) as (Hl & [(t & t' & -> & -> & Ht)|(Hx & Hy & Hc)]).
  - simpl. rewrite <- Ht. intros [H1 H2]. split; [done|by eapply IH].
  - destruct x, y; try done; simpl in *; rewrite <- ?Hc; by apply IH.
Qed.

Lemma adjacent_shape calls l l' : shape l = shape l' -> adjacent calls l -> adjacent calls l'.
Proof.
  revert calls l'. induction l as [|x l IH]; intros calls [|y l'] Hs; try done.
  destruct (shape_cons _ _ _ _ Hs) as (Hl & [(t & t' & -> & -> & Ht)|(Hx & Hy & Hc)]).
  - simpl. rewrite <- Ht. intros [H1 H2]. split; [done|by eapply IH].
  - destruct x, y; try done; simpl in *; rewrite <- ?Hc; by apply IH.
Qed.

Lemma keep_last_adjacent active calls l : adjacent calls l -> adjacent calls (keep_last active l).
Proof.
  revert active calls. induction l as [|x l IH]; intros active calls; [done|].
  destruct x; cbn [keep_last adjacent]; [apply IH..| |apply IH|apply IH].
  intros [Hin Hadj]. destruct (_ && _); [by apply IH|]. split; [done|by apply IH].
Qed.

Lemma ensure_adjacent l reason :
  adjacent [] l -> adjacent [] (fst (repair_dangling_tool_calls (fst (dedup_duplicate_tool_results l)) reason)).
Proof.
  intros Hadj. rewrite dedup_keep_last, repair_backfill. cbn [fst]. by apply backfill_spec, keep_last_adjacent.
Qed.

(** The two guards of the conversation that run at every user message, in one
    line each. *)
Lemma ensure_integrity l reason :
  let l' := fst (repair_dangling_tool_calls (fst (dedup_duplicate_tool_results l)) reason) in
  has_dangling_tool_calls l' = false ∧ (distinct_calls l -> no_duplicates [] [] l').
Proof.
  rewrite dedup_keep_last, repair_backfill. cbn [fst].
  destruct (backfill_spec reason [] [] (keep_last false l)) as (Ha & Hn & _). split.
  - by apply has_dangling_answered.
  - intros Hd. apply Hn; [constructor| |apply keep_last_no_duplicates].
    eapply distinct_others; [|exact Hd]. apply keep_last_others.
Qed.

Lemma sublist_same_length {A} (l1 l2 : list A) : l1 `sublist_of` l2 -> length l2 ≤ length l1 -> l1 = l2.
Proof.
  induction 1 as [|x l1 l2 Hs IH|x l1 l2 Hs IH]; simpl; intros Hle; [done|f_equal; apply IH; lia|].
  apply sublist_length in Hs. lia.
Qed.

Lemma keep_last_sublist b l : keep_last b l `sublist_of` l.
Proof.
  revert b. induction l as [|x l IH]; intros b; [done|].
  destruct x; simpl; try by constructor. destruct (_ && _); by constructor.
Qed.

Lemma keep_last_same_length l : length l ≤ length (keep_last false l) -> keep_last false l = l.
Proof. intros. apply sublist_same_length; [apply keep_last_sublist|done]. Qed.

Lemma backfill_same_length reason l :
  length (backfill reason [] [] l) ≤ length l -> answered l.
Proof.
  intros Hle. rewrite (sublist_same_length _ _ (backfill_sublist reason [] [] l) Hle).
  apply backfill_spec.
Qed.

(** Backfilling dangling calls. The two-phase, index-based repair is the
    one-pass [backfill]; afterwards no call dangles; nothing is removed or
    reordered; the count is the number of results inserted, and it is zero
    exactly when no call dangled before. *)
Theorem repair_dangling_spec l reason :
  let '(l', inserted) := repair_dangling_tool_calls l reason in
  l' = backfill reason [] [] l
  ∧ has_dangling_tool_calls l' = false
  ∧ l `sublist_of` l'
  ∧ List.filter not_result l' = List.filter not_result l
  ∧ inserted + length l = length l'
  ∧ (inserted = 0 <-> has_dangling_tool_calls l = false).
Proof.
  rewrite repair_backfill.
  pose proof (backfill_sublist reason [] [] l) as Hsub. pose proof (sublist_length _ _ Hsub) as Hlen.
  assert (Hans : answered (backfill reason [] [] l)) by apply backfill_spec.
  split_and!; [done|by apply has_dangling_answered|done|apply backfill_others|lia|].
  rewrite has_dangling_answered. split.
  - intros H0. apply (backfill_same_length reason). lia.
  - intros Ha. rewrite backfill_id by done. lia.
Qed.

(** Removing duplicate results. The re-scanning, index-based loop terminates
    and is the one-pass [keep_last]: every run of results that follows calls
    keeps the last result of each id; nothing else is touched; the count is the
    number removed, and it is zero exactly when there were no duplicates. *)
Theorem dedup_duplicate_tool_results_spec l :
  let '(l', removed) := dedup_duplicate_tool_results l in
  l' = keep_last false l
  ∧ no_duplicates [] [] l'
  ∧ List.filter not_result l' = List.filter not_result l
  ∧ removed + length l' = length l
  ∧ (removed = 0 <-> no_duplicates [] [] l).
Proof.
  rewrite dedup_keep_last. pose proof (keep_last_length false l) as Hlen.
  split_and!; [done|apply keep_last_no_duplicates|apply keep_last_others|lia|]. split.
  - intros H0. assert (keep_last false l = l) as <-; [|apply keep_last_no_duplicates].
    apply keep_last_same_length. lia.
  - intros Hn. rewrite (proj1 (keep_last_id l) Hn). lia.
Qed.

Definition repair_reason : DanglingToolCallReason := HarnessHalted (lit "history_repair").

(** What [repair_history] computes, in one pass each. *)
Lemma repair_history_passes l :
  let kept := keep_last false l in
  let stripped := strip_displaced_tool_results kept in
  let filled := backfill (HarnessHalted (lit "history_repair")) [] [] (fst stripped) in
  repair_history l =
    (filled, mkReport (length l - length kept) (snd stripped) (length filled - length (fst stripped))).
Proof.
  unfold repair_history. rewrite dedup_keep_last. cbv beta iota zeta.
  destruct (strip_displaced_tool_results (keep_last false l)) as [s ids]. by rewrite repair_backfill.
Qed.

Lemma repair_history_paired l : distinct_calls l -> well_paired (fst (repair_history l)).
Proof.
  intros Hd. rewrite repair_history_passes. cbn [fst].
  set (kept := keep_last false l). destruct (strip_spec [] kept) as (Hadj & Hnd & _ & _).
  change (strip_displaced_from (call_ids []) kept) with (strip_displaced_tool_results kept) in *.
  set (stripped := fst (strip_displaced_tool_results kept)) in *.
  destruct (backfill_spec (HarnessHalted (lit "history_repair")) [] [] stripped) as (Ha & Hn & Hj).
  split_and!; [|by apply Hj|done].
  apply Hn; [constructor| |apply Hnd, keep_last_no_duplicates].
  eapply distinct_others; [|exact Hd]. unfold stripped, strip_displaced_tool_results.
  rewrite strip_others. apply keep_last_others.
Qed.

Lemma repair_history_fixed l : well_paired l -> repair_history l = (l, mkReport 0 [] 0).
Proof.
  intros (Hn & Hj & Ha). rewrite repair_history_passes.
  rewrite (proj1 (keep_last_id l) Hn). unfold strip_displaced_tool_results.
  destruct (strip_spec [] l) as (_ & _ & Hid & _). change (call_ids []) with (@nil str) in Hid.
  rewrite (Hid Hj). cbn [fst snd]. rewrite backfill_id by done. f_equal. f_equal; lia.
Qed.

(** A repair that reports no change is none. *)
Lemma repair_history_unchanged l :
  report_changed (snd (repair_history l)) = false -> fst (repair_history l) = l.
Proof.
  rewrite repair_history_passes. fold repair_reason. set (reason := repair_reason).
  cbn [fst snd]. unfold report_changed.
  cbn [duplicates_removed stripped_tool_result_ids synthetic_results_inserted].
  intros Hch. nbool. pose proof (keep_last_length false l).
  assert (Hk : keep_last false l = l) by (apply keep_last_same_length; lia).
  rewrite Hk in *. unfold strip_displaced_tool_results in *.
  destruct (strip_spec [] l) as (_ & _ & Hid & Hadj). change (call_ids []) with (@nil str) in *.
  assert (Hnil : snd (strip_displaced_from [] l) = []) by (by apply is_empty_spec).
  rewrite (Hid (Hadj Hnil)) in *. cbn [fst] in *.
  apply backfill_id, (backfill_same_length reason). lia.
Qed.

(** C19 The whole repair. When the calls of each assistant have different ids,
    the repaired history is one a provider accepts: every result directly
    follows the call it answers, no call is answered twice and none is left
    unanswered. Items that are not results are untouched, the report says
    unchanged exactly when the history was acceptable already, and a second
    repair changes nothing. *)
Theorem repair_history_spec l :
  distinct_calls l ->
  let '(l', report) := repair_history l in
  well_paired l'
  ∧ List.filter not_result l' = List.filter not_result l
  ∧ (report_changed report = false <-> well_paired l)
  ∧ repair_history l' = (l', mkReport 0 [] 0).
Proof.
  intros Hd. pose proof (repair_history_paired l Hd) as Hp.
  destruct (repair_history l) as [l' report] eqn:E. cbn [fst] in Hp.
  split_and!; [done| | |by apply repair_history_fixed].
  - rewrite repair_history_passes in E. injection E as <- _.
    rewrite backfill_others. unfold strip_displaced_tool_results. rewrite strip_others. apply keep_last_others.
  - split; [|intros Hw; rewrite (repair_history_fixed l Hw) in E; by injection E as <- <-].
    intros Hch. pose proof (repair_history_unchanged l) as Hun. rewrite E in Hun. cbn [fst snd] in Hun.
    by rewrite <- (Hun Hch).
Qed.

(** The documentation calls the repair idempotent; with two calls of one id, both
    unanswered, it is not: the first repair answers each of them, and the second
    removes one of the two answers. *)
Theorem repair_history_not_idempotent :
  let call := mkToolCall (lit "c") (lit "read") (lit "{}") in
  let l := [item_user (lit "q"); item_assistant_tool_calls [call; call]] in
  let '(once, first) := repair_history l in
  let '(twice, second) := repair_history once in
  length once = 4 ∧ length twice = 3
  ∧ synthetic_results_inserted first = 2 ∧ duplicates_removed second = 1
  ∧ ¬ well_paired once.
Proof.
  split_and!; try (vm_compute; reflexivity).
  intros (Hn & _ & _). vm_compute in Hn. destruct Hn as (_ & Hn & _). apply Hn; [done|]. left.
Qed.

(** Sanitizing a compacted history. What remains passes the validation, the
    ids reported are the ones the validation would have reported, and a valid
    history is untouched. *)
Theorem sanitize_validates items :
  let r := sanitize_compacted_history items in
  validate_compacted_history (sanitized_items r) = []
  ∧ stripped_tool_call_ids r = validate_compacted_history items
  ∧ (validate_compacted_history items = [] -> sanitized_items r = items)
  ∧ List.filter not_result (sanitized_items r) = List.filter not_result items.
Proof.
  unfold sanitize_compacted_history, validate_compacted_history.
  enough (H : ∀ seen, validate_from seen (fst (sanitize_from seen items)) = []
     ∧ snd (sanitize_from seen items) = validate_from seen items
     ∧ (validate_from seen items = [] -> fst (sanitize_from seen items) = items)
     ∧ List.filter not_result (fst (sanitize_from seen items)) = List.filter not_result items).
  { specialize (H []). by destruct (sanitize_from [] items). }
  induction items as [|x l IH]; intros seen; [done|].
  assert (Hcons : ∀ ids i, not_result i = true ->
      validate_from seen (i :: l) = validate_from ids l ->
      sanitize_from seen (i :: l) = (i :: fst (sanitize_from ids l), snd (sanitize_from ids l)) ->
      (∀ k, validate_from seen (i :: k) = validate_from ids k) ->
      validate_from seen (fst (sanitize_from seen (i :: l))) = []
      ∧ snd (sanitize_from seen (i :: l)) = validate_from seen (i :: l)
      ∧ (validate_from seen (i :: l) = [] -> fst (sanitize_from seen (i :: l)) = i :: l)
      ∧ List.filter not_result (fst (sanitize_from seen (i :: l))) = List.filter not_result (i :: l)).
  { intros ids i Hi Hv Hs Hk. rewrite Hs, Hv. cbn [fst snd]. specialize (IH ids) as (H1 & H2 & H3 & H4).
    rewrite Hk. split_and!; [done|done|intros H; f_equal; auto|]. cbn [List.filter]. by rewrite Hi, H4. }
  destruct x as [s|u|a|t|b|r].
  3: apply (Hcons (call_ids (a_tool_calls a) ++ seen)).
  1, 2, 8, 9: apply (Hcons seen).
  all: try done.
  all: try (simpl; by destruct (sanitize_from _ l)).
  specialize (IH seen) as (H1 & H2 & H3 & H4). simpl.
  destruct (sanitize_from seen l) as [kept stripped]. simpl in *.
  destruct (in_ids (tr_tool_call_id t) seen) eqn:E; simpl; rewrite ?E.
  - split_and!; try done. intros H. f_equal. auto.
  - split_and!; try done. by f_equal.
Qed.

(** ** Witnesses *)

Definition demo_call (id : string) : ToolCall := mkToolCall (lit id) (lit "read") (lit "{}").

Definition demo_broken : list ConversationItem :=
  [item_user (lit "q"); item_tool_result (lit "x") (lit "stray");
   item_assistant_tool_calls [demo_call "a"; demo_call "b"];
   item_tool_result (lit "a") (lit "cancelled"); item_tool_result (lit "a") (lit "real");
   item_user (lit "r")].

Lemma repair_history_spec_witness :
  distinct_calls demo_broken
  ∧ let '(l', report) := repair_history demo_broken in
    well_paired l'
    ∧ List.filter not_result l' = List.filter not_result demo_broken
    ∧ (report_changed report = false <-> well_paired demo_broken)
    ∧ repair_history l' = (l', mkReport 0 [] 0).
Proof.
  assert (H : distinct_calls demo_broken).
  { unfold distinct_calls, demo_broken. repeat (apply Forall_cons; split; [apply (bool_decide_unpack _); vm_compute; exact I|]).
    apply Forall_nil. exact I. }
  split; [exact H|]. exact (repair_history_spec demo_broken H).
Defined.
