(* ===== verification/ImageBudget.v ===== *)
(** * The image budget of a request

    [crates/codegen/xai-chat-state/src/image_budget.rs]: when the body of a request
    is too large, its oldest inline images are replaced by a placeholder until the
    body is below a lower mark. The size of a JSON text is [serde_json]'s, a
    parameter here ([JsonSizes]), with the laws of a compact JSON text that the
    running estimate of the eviction relies on ([JsonLaws]). *)

From S2P Require Export ConversationRepair.

(** The sizes [serialized_json_bytes] measures: of a conversation, an item, a
    content part and a string. *)
Class JsonSizes := {
  json_items : list ConversationItem -> N;
  json_item : ConversationItem -> N;
  json_part : ContentPart -> N;
  json_str : str -> N;
}.

(** Source: crates/codegen/xai-chat-state/src/image_budget.rs:7-7, [IMAGE_COMPACT_PLACEHOLDER]. *)
Definition IMAGE_COMPACT_PLACEHOLDER : str := lit
"[An earlier image was removed to keep the request within its size limit and is no longer visible. Do not describe or reason about its contents from memory; ask the user to re-share it if you need to see it again.]".

(** Source: crates/codegen/xai-chat-state/src/image_budget.rs:12-12, [TOOL_IMAGE_COMPACT_NOTE]. *)
Definition TOOL_IMAGE_COMPACT_NOTE : str := lit
"[One or more images from this tool result were removed to keep the request within its size limit and are no longer visible. Do not describe or reason about their contents from memory.]".

(** Source: crates/codegen/xai-chat-state/src/image_budget.rs:16-16, [MAX_REQUEST_BYTES]. *)
Definition MAX_REQUEST_BYTES : N := 50 * 1024 * 1024.
(** Source: crates/codegen/xai-chat-state/src/image_budget.rs:21-21, [IMAGE_COMPACT_TRIGGER_BYTES]. *)
Definition IMAGE_COMPACT_TRIGGER_BYTES : N := MAX_REQUEST_BYTES - 3 * 1024 * 1024.
(** Source: crates/codegen/xai-chat-state/src/image_budget.rs:26-26, [IMAGE_COMPACT_RECLAIM_TARGET_BYTES]. *)
Definition IMAGE_COMPACT_RECLAIM_TARGET_BYTES : N := MAX_REQUEST_BYTES / 2.

Definition images_in (parts : list ContentPart) : nat := length (List.filter is_image parts).

(** Source: crates/codegen/xai-chat-state/src/image_budget.rs:64-84, [inline_image_count]. *)
Definition inline_image_count (conversation : list ConversationItem) : nat :=
  list_sum (map (fun item =>
    match item with
    | CUser user => images_in (u_content user)
    | CToolResult tool_result => images_in (tr_images tool_result)
    | CSystem _ | CAssistant _ | CBackendToolCall _ | CReasoning _ => 0
    end) conversation).

(** Source: crates/codegen/xai-chat-state/src/image_budget.rs:87-99, [ImageBudgetOutcome]. *)
Record ImageBudgetOutcome := mkOutcome {
  body_bytes : N;
  body_bytes_after : N;
  inline_images : nat;
  needs_image_compaction : bool;
  evicted : nat;
}.

(** Source: crates/codegen/xai-chat-state/src/image_budget.rs:102-108, [BudgetedConversation]. *)
Record BudgetedConversation := mkBudgeted {
  bc_items : list ConversationItem;
  bc_outcome : ImageBudgetOutcome;
}.

(** The length of an image part as JSON with an empty address.

    Source: crates/codegen/xai-chat-state/src/image_budget.rs:163-163, [IMAGE_PART_FRAME_BYTES]. *)
Definition IMAGE_PART_FRAME_BYTES : N := 25.

(** [u64::saturating_add], [usize] being 64 bits wide. *)
Abbreviation sat_add_usize := sat_add64.

Section budget.
Context {J : JsonSizes}.

(** Source: crates/codegen/xai-chat-state/src/image_budget.rs:152-161, [encoded_url_bytes]. *)
Definition encoded_url_bytes (url : str) : N :=
  match find (lit ",") url with
  | None => (json_str url - 2)%N
  | Some i =>
      let header := take i url in
      let base64_tail := drop (S i) url in
      if starts_with (lit "data:") header && ends_with (lit ";base64") header
      then (json_str header - 2 + 1 + N.of_nat (length base64_tail))%N
      else (json_str url - 2)%N
  end.

(** The text case is unreachable: only images are discovered.

    Source: crates/codegen/xai-chat-state/src/image_budget.rs:165-170, [image_part_bytes]. *)
Definition image_part_bytes (part : ContentPart) : N :=
  match part with
  | ImagePart url => (IMAGE_PART_FRAME_BYTES + encoded_url_bytes url)%N
  | TextPart _ => 0%N
  end.

(** The blanked parts, and the bytes of the blanked addresses.

    Source: crates/codegen/xai-chat-state/src/image_budget.rs:195-202, [blank_image_urls]. *)
Definition blank_part (part : ContentPart) : ContentPart :=
  match part with ImagePart _ => ImagePart [] | TextPart t => TextPart t end.
Definition part_url_bytes (part : ContentPart) : N :=
  match part with ImagePart url => encoded_url_bytes url | TextPart _ => 0%N end.

Definition blank_item (item : ConversationItem) : ConversationItem :=
  match item with
  | CUser user => CUser (with_u_content user (map blank_part (u_content user)))
  | CToolResult t => CToolResult (with_tr t (tr_content t) (map blank_part (tr_images t)))
  | other => other
  end.

(** Source: crates/codegen/xai-chat-state/src/image_budget.rs:175-193, [conversation_body_bytes]. *)
Definition conversation_body_bytes (conversation : list ConversationItem) : N :=
  let image_url_bytes := nsum (map (fun item => nsum (map part_url_bytes (parts_of item))) conversation) in
  (json_items (map blank_item conversation) + image_url_bytes)%N.

(** Source: crates/codegen/xai-chat-state/src/image_budget.rs:204-208, [ImageLocation]. *)
Inductive ImageLocation :=
  | LocUser (item part : nat)
  | LocToolResult (item : nat).

Fixpoint user_images (item part : nat) (parts : list ContentPart) : list (ImageLocation * N) :=
  match parts with
  | [] => []
  | p :: rest =>
      (if is_image p then [(LocUser item part, image_part_bytes p)] else [])
      ++ user_images item (S part) rest
  end.

Definition result_images (item : nat) (parts : list ContentPart) : list (ImageLocation * N) :=
  map (fun p => (LocToolResult item, image_part_bytes p)) (List.filter is_image parts).

Definition item_images (item : nat) (ci : ConversationItem) : list (ImageLocation * N) :=
  match ci with
  | CUser user => user_images item 0 (u_content user)
  | CToolResult t => result_images item (tr_images t)
  | CSystem _ | CAssistant _ | CBackendToolCall _ | CReasoning _ => []
  end.

(** The discovery loop: the images of a conversation whose first item has the
    index [item]. *)
Fixpoint discover (item : nat) (conversation : list ConversationItem) : list (ImageLocation * N) :=
  match conversation with
  | [] => []
  | ci :: rest => item_images item ci ++ discover (S item) rest
  end.

Definition placeholder : ContentPart := TextPart IMAGE_COMPACT_PLACEHOLDER.
Definition placeholder_bytes : N := json_part placeholder.
Definition tool_note_suffix : str := nl ++ nl ++ TOOL_IMAGE_COMPACT_NOTE.
Definition tool_note_bytes : N := (json_str tool_note_suffix - 2)%N.

(** [position(is image)]. *)
Fixpoint first_image (parts : list ContentPart) : option nat :=
  match parts with
  | [] => None
  | p :: rest => if is_image p then Some 0 else S <$> first_image rest
  end.

(** One round of the loop: [None] is [continue]; a tool result without an image
    is unreachable. *)
Definition evict_one (conversation : list ConversationItem) (running : N) (image : ImageLocation * N) :
    option (list ConversationItem * N) :=
  let '(location, image_bytes) := image in
  match location with
  | LocUser item part =>
      match conversation !! item with
      | Some (CUser user) =>
          match u_content user !! part with
          | Some _ =>
              Some (<[item := CUser (with_u_content user (<[part := placeholder]> (u_content user)))]> conversation,
                    (running - (image_bytes - placeholder_bytes))%N)
          | None => None
          end
      | _ => None
      end
  | LocToolResult item =>
      match conversation !! item with
      | Some (CToolResult t) =>
          match first_image (tr_images t) with
          | Some image_index =>
              let images := delete image_index (tr_images t) in
              let running := (running - (image_bytes + (if is_empty images then 0 else 1)))%N in
              if negb (contains TOOL_IMAGE_COMPACT_NOTE (tr_content t))
              then Some (<[item := CToolResult (with_tr t (tr_content t ++ tool_note_suffix) images)]> conversation,
                         sat_add_usize running tool_note_bytes)
              else Some (<[item := CToolResult (with_tr t (tr_content t) images)]> conversation, running)
          | None => None
          end
      | _ => None
      end
  end.

(** The result also keeps the last value of [running]. *)
Fixpoint evict_loop (images : list (ImageLocation * N)) (conversation : list ConversationItem)
    (running target_bytes : N) (evicted : nat) : list ConversationItem * nat * N :=
  match images with
  | [] => (conversation, evicted, running)
  | image :: rest =>
      if N.leb running target_bytes then (conversation, evicted, running)
      else
        match evict_one conversation running image with
        | None => evict_loop rest conversation running target_bytes evicted
        | Some (conversation', running') => evict_loop rest conversation' running' target_bytes (S evicted)
        end
  end.

(** Source: crates/codegen/xai-chat-state/src/image_budget.rs:210-291, [evict_images_to_budget]. *)
Definition evict_images_to_budget (conversation : list ConversationItem) (current_bytes target_bytes : N) :
    list ConversationItem * nat :=
  fst (evict_loop (discover 0 conversation) conversation current_bytes target_bytes 0).

(** Source: crates/codegen/xai-chat-state/src/image_budget.rs:122-150, [apply_image_budget_with_limits]. *)
Definition apply_image_budget_with_limits (items : list ConversationItem) (trigger_bytes reclaim_target_bytes : N) :
    BudgetedConversation :=
  let body_bytes := conversation_body_bytes items in
  let inline_images := inline_image_count items in
  let needs_image_compaction := N.leb trigger_bytes body_bytes in
  let '(items', evicted) :=
    if needs_image_compaction && N.ltb reclaim_target_bytes body_bytes
    then evict_images_to_budget items body_bytes reclaim_target_bytes
    else (items, 0) in
  let body_bytes_after := if Nat.eqb evicted 0 then body_bytes else conversation_body_bytes items' in
  mkBudgeted items' (mkOutcome body_bytes body_bytes_after inline_images needs_image_compaction evicted).

(** Source: crates/codegen/xai-chat-state/src/image_budget.rs:111-118, [apply_image_budget]. *)
Definition apply_image_budget (items : list ConversationItem) : BudgetedConversation :=
  apply_image_budget_with_limits items IMAGE_COMPACT_TRIGGER_BYTES IMAGE_COMPACT_RECLAIM_TARGET_BYTES.
End budget.

(** What the estimate relies on: a compact JSON text is made of the texts of its
    parts. Replacing an item or a part changes the size by the difference of the
    two; removing an image of a result saves at least its text and the comma
    beside it; a text appended to the content adds its escaped length. *)
Class JsonLaws `{JsonSizes} := {
  json_replace_item pre x y post :
    (json_items (pre ++ x :: post) + json_item y = json_items (pre ++ y :: post) + json_item x)%N;
  json_replace_part u l p q r :
    (json_item (CUser (with_u_content u (l ++ p :: r))) + json_part q
     = json_item (CUser (with_u_content u (l ++ q :: r))) + json_part p)%N;
  json_remove_image t c l p r :
    (json_item (CToolResult (with_tr t c (l ++ r))) + json_part p + (if is_empty (l ++ r) then 0 else 1)
     <= json_item (CToolResult (with_tr t c (l ++ p :: r))))%N;
  json_append_content t c d images :
    (json_item (CToolResult (with_tr t (c ++ d) images)) + 2
     = json_item (CToolResult (with_tr t c images)) + json_str d)%N;
  json_quotes d : (2 <= json_str d)%N;
  json_image_frame : json_part (ImagePart []) = IMAGE_PART_FRAME_BYTES;
}.

(** ** Lemmas: the discovered images *)

Section lemmas.
Context {J : JsonSizes}.

Lemma user_images_split i j parts loc b imgs :
  user_images i j parts = (loc, b) :: imgs ->
  ∃ l url r, parts = l ++ ImagePart url :: r ∧ List.filter is_image l = []
    ∧ loc = LocUser i (j + length l) ∧ b = image_part_bytes (ImagePart url)
    ∧ imgs = user_images i (S (j + length l)) r.
Proof.
  revert j. induction parts as [|p parts IH]; intros j; [done|]. destruct p as [t|url]; cbn [user_images is_image app].
  - intros (l & url & r & -> & Hl & -> & -> & ->)%IH. exists (TextPart t :: l), url, r.
    split_and!; try done; simpl; by rewrite Nat.add_succ_r.
  - intros [= <- <- <-]. exists [], url, parts. simpl. rewrite Nat.add_0_r. done.
Qed.

Lemma user_images_app i j l r :
  List.filter is_image l = [] -> user_images i j (l ++ r) = user_images i (j + length l) r.
Proof.
  revert j. induction l as [|p l IH]; intros j; [simpl; by rewrite Nat.add_0_r|].
  cbn [List.filter app user_images length]. destruct (is_image p); [done|]. intros Hl. simpl.
  rewrite IH by done. by rewrite Nat.add_succ_r.
Qed.

Lemma result_images_split i parts loc b imgs :
  result_images i parts = (loc, b) :: imgs ->
  ∃ l url r, parts = l ++ ImagePart url :: r ∧ List.filter is_image l = []
    ∧ loc = LocToolResult i ∧ b = image_part_bytes (ImagePart url) ∧ imgs = result_images i r.
Proof.
  unfold result_images. induction parts as [|p parts IH]; [done|]. destruct p as [t|url]; cbn [List.filter is_image map].
  - intros (l & url & r & -> & Hl & -> & -> & ->)%IH. by exists (TextPart t :: l), url, r.
  - intros [= <- <- <-]. by exists [], url, parts.
Qed.

Lemma first_image_split l url r :
  List.filter is_image l = [] -> first_image (l ++ ImagePart url :: r) = Some (length l).
Proof.
  induction l as [|p l IH]; [done|]. cbn [List.filter app first_image length].
  destruct (is_image p); [done|]. intros Hl. by rewrite (IH Hl).
Qed.

(** The first image: where it is, and that it is alone before the others. *)
Lemma discover_split k conv loc b imgs :
  discover k conv = (loc, b) :: imgs ->
  ∃ pre post url l r, (∀ n, discover n pre = []) ∧ List.filter is_image l = []
    ∧ b = image_part_bytes (ImagePart url)
    ∧ ((∃ u, conv = pre ++ CUser u :: post ∧ u_content u = l ++ ImagePart url :: r
         ∧ loc = LocUser (k + length pre) (length l)
         ∧ imgs = user_images (k + length pre) (S (length l)) r ++ discover (S (k + length pre)) post)
      ∨ (∃ t, conv = pre ++ CToolResult t :: post ∧ tr_images t = l ++ ImagePart url :: r
         ∧ loc = LocToolResult (k + length pre)
         ∧ imgs = result_images (k + length pre) r ++ discover (S (k + length pre)) post)).
Proof.
  revert k. induction conv as [|x conv IH]; intros k; [done|]. cbn [discover].
  destruct (item_images k x) as [|[loc' b'] imgs'] eqn:E; cbn [app].
  - intros (pre & post & url & l & r & Hpre & Hl & Hb & Hc)%IH. exists (x :: pre), post, url, l, r.
    assert (Hx : ∀ n, item_images n x = []).
    { destruct x as [|u| |t| |]; try done; intros n; cbn [item_images] in *.
      - clear -E. revert n E. generalize 0. induction (u_content u) as [|p parts IHp]; [done|].
        intros j n. cbn [user_images]. destruct (is_image p); [done|]. apply IHp.
      - unfold result_images in *. by destruct (List.filter is_image (tr_images t)). }
    split; [intros n; cbn [discover]; by rewrite Hx, Hpre|]. split; [done|]. split; [done|].
    cbn [length]. rewrite Nat.add_succ_r. destruct Hc as [(u & -> & Hc)|(t & -> & Hc)]; [left; by exists u|right; by exists t].
  - intros [= <- <- <-]. destruct x as [|u| |t| |]; try done; cbn [item_images] in E.
    + apply user_images_split in E as (l & url & r & Hu & Hl & -> & -> & ->).
      exists [], conv, url, l, r. split; [done|]. split; [done|]. split; [done|]. left. exists u.
      cbn [length app]. rewrite Nat.add_0_r. done.
    + apply result_images_split in E as (l & url & r & Ht & Hl & -> & -> & ->).
      exists [], conv, url, l, r. split; [done|]. split; [done|]. split; [done|]. right. exists t.
      cbn [length app]. rewrite Nat.add_0_r. done.
Qed.

Lemma discover_app k l1 l2 : discover k (l1 ++ l2) = discover k l1 ++ discover (k + length l1) l2.
Proof.
  revert k. induction l1 as [|x l1 IH]; intros k; cbn [discover app length]; [by rewrite Nat.add_0_r|].
  rewrite IH, app_assoc. by rewrite Nat.add_succ_r.
Qed.

(** The addresses of the discovered images are those of the conversation. *)
Lemma discover_bytes k conv : map snd (discover k conv) = map (fun u => image_part_bytes (ImagePart u)) (image_urls conv).
Proof.
  revert k. induction conv as [|x conv IH]; intros k; [done|]. cbn [discover].
  unfold image_urls in *. cbn [map concat]. rewrite !map_app, IH. f_equal.
  destruct x as [|u| |t| |]; try done; cbn [item_images parts_of].
  - generalize 0. induction (u_content u) as [|p parts IHp]; intros j; [done|].
    cbn [user_images]. rewrite map_app, IHp. by destruct p.
  - unfold result_images. rewrite map_map. induction (tr_images t) as [|p parts IHp]; [done|].
    cbn [List.filter]. destruct p; [done|]. cbn [is_image map]. by rewrite IHp.
Qed.

Lemma urls_of_app l1 l2 : urls_of (l1 ++ l2) = urls_of l1 ++ urls_of l2.
Proof. unfold urls_of. apply omap_app. Qed.

Lemma urls_of_none l : List.filter is_image l = [] -> urls_of l = [].
Proof. induction l as [|[t|u] l IH]; try done. Qed.

Lemma image_urls_app l1 l2 : image_urls (l1 ++ l2) = image_urls l1 ++ image_urls l2.
Proof. unfold image_urls. by rewrite map_app, concat_app. Qed.

(** What one eviction does. *)
Inductive evicts (url : str) (conv : list ConversationItem) (running : N) :
    list ConversationItem -> N -> Prop :=
  | EvictUser pre u post l r :
      conv = pre ++ CUser u :: post -> u_content u = l ++ ImagePart url :: r ->
      evicts url conv running
        (pre ++ CUser (with_u_content u (l ++ placeholder :: r)) :: post)
        (running - (image_part_bytes (ImagePart url) - placeholder_bytes))
  | EvictNoted pre t post l r :
      conv = pre ++ CToolResult t :: post -> tr_images t = l ++ ImagePart url :: r ->
      evicts url conv running
        (pre ++ CToolResult (with_tr t (tr_content t) (l ++ r)) :: post)
        (running - (image_part_bytes (ImagePart url) + (if is_empty (l ++ r) then 0 else 1)))
  | EvictResult pre t post l r :
      conv = pre ++ CToolResult t :: post -> tr_images t = l ++ ImagePart url :: r ->
      evicts url conv running
        (pre ++ CToolResult (with_tr t (tr_content t ++ tool_note_suffix) (l ++ r)) :: post)
        (sat_add_usize (running - (image_part_bytes (ImagePart url) + (if is_empty (l ++ r) then 0 else 1)))
           tool_note_bytes).

Lemma lookup_length {A} (l : list A) x r : (l ++ x :: r) !! length l = Some x.
Proof. by rewrite lookup_app_r, Nat.sub_diag. Qed.

Lemma insert_length {A} (l : list A) x y r : <[length l := y]> (l ++ x :: r) = l ++ y :: r.
Proof. rewrite <- (Nat.add_0_r (length l)) at 1. by rewrite insert_app_r. Qed.

Lemma delete_length {A} (l : list A) x r : delete (length l) (l ++ x :: r) = l ++ r.
Proof. apply delete_middle. Qed.

Lemma filter_none_app {A} (f : A -> bool) l r : List.filter f l = [] -> List.filter f (l ++ r) = List.filter f r.
Proof. intros Hl. by rewrite List.filter_app, Hl. Qed.

Lemma urls_of_without_image pre x post urls k :
  (∀ n, discover n pre = []) -> urls_of (parts_of x) = urls ->
  image_urls (pre ++ x :: post) = urls ++ image_urls post
  ∧ discover k (pre ++ x :: post) = item_images (k + length pre) x ++ discover (S (k + length pre)) post.
Proof.
  intros Hpre Hx. split; [|by rewrite discover_app, Hpre].
  rewrite image_urls_app. assert (image_urls pre = []) as ->.
  { pose proof (discover_bytes 0 pre) as Hd. rewrite Hpre in Hd. by destruct (image_urls pre). }
  unfold image_urls at 1. cbn [map concat app]. by rewrite Hx.
Qed.

Lemma evict_head conv running loc b imgs :
  discover 0 conv = (loc, b) :: imgs ->
  ∃ url conv' running', evict_one conv running (loc, b) = Some (conv', running')
    ∧ evicts url conv running conv' running' ∧ discover 0 conv' = imgs
    ∧ image_urls conv = url :: image_urls conv' ∧ shape conv' = shape conv.
Proof.
  intros (pre & post & url & l & r & Hpre & Hl & -> & Hc)%discover_split.
  destruct Hc as [(u & -> & Hu & -> & ->)|(t & -> & Ht & -> & ->)]; cbn [Nat.add evict_one].
  - rewrite lookup_length, Hu, lookup_length, !insert_length. eexists url, _, _. split; [done|].
    split; [by eapply EvictUser|].
    assert (Hx' : urls_of (parts_of (CUser (with_u_content u (l ++ placeholder :: r)))) = urls_of r).
    { cbn. by rewrite urls_of_app, (urls_of_none l Hl). }
    assert (Hx : urls_of (parts_of (CUser u)) = url :: urls_of r).
    { cbn. by rewrite Hu, urls_of_app, (urls_of_none l Hl). }
    destruct (urls_of_without_image pre _ post _ 0 Hpre Hx') as [H1 H2].
    destruct (urls_of_without_image pre _ post _ 0 Hpre Hx) as [H3 _].
    split; [|split].
    + rewrite H2. cbn [item_images u_content with_u_content Nat.add]. by rewrite (user_images_app _ _ l) by done.
    + by rewrite H1, H3.
    + unfold shape. by rewrite !map_app.
  - rewrite lookup_length, Ht, first_image_split, delete_length by done.
    assert (Hx : urls_of (parts_of (CToolResult t)) = url :: urls_of r).
    { cbn. by rewrite Ht, urls_of_app, (urls_of_none l Hl). }
    destruct (urls_of_without_image pre _ post _ 0 Hpre Hx) as [H3 _].
    assert (Hx' : ∀ c, urls_of (parts_of (CToolResult (with_tr t c (l ++ r)))) = urls_of r).
    { intros c. cbn. by rewrite urls_of_app, (urls_of_none l Hl). }
    assert (Hgen : ∀ c, let conv' := pre ++ CToolResult (with_tr t c (l ++ r)) :: post in
      discover 0 conv' = result_images (length pre) r ++ discover (S (length pre)) post
      ∧ image_urls (pre ++ CToolResult t :: post) = url :: image_urls conv'
      ∧ shape conv' = shape (pre ++ CToolResult t :: post)).
    { intros c conv'. destruct (urls_of_without_image pre _ post _ 0 Hpre (Hx' c)) as [H1 H2]. subst conv'.
      split; [|split; [by rewrite H1, H3|unfold shape; by rewrite !map_app]].
      rewrite H2. cbn [item_images tr_images with_tr Nat.add]. unfold result_images. by rewrite filter_none_app. }
    destruct (negb _); rewrite insert_length; eexists url, _, _; (split; [done|]);
      (split; [by econstructor|apply Hgen]).
Qed.

(** The loop evicts the images from the oldest on; it stops below the target, or
    when none is left. *)
Lemma evict_loop_spec conv running target n :
  let '(conv', n', running') := evict_loop (discover 0 conv) conv running target n in
  ∃ k, n' = n + k ∧ k ≤ length (image_urls conv) ∧ image_urls conv' = drop k (image_urls conv)
    ∧ shape conv' = shape conv ∧ ((running' <= target)%N ∨ image_urls conv' = []).
Proof.
  remember (discover 0 conv) as imgs eqn:Himgs. revert conv running n Himgs.
  induction imgs as [|[loc b] imgs IH]; intros conv running n Himgs; cbn [evict_loop].
  - exists 0. pose proof (discover_bytes 0 conv) as Hd. rewrite <- Himgs in Hd.
    split_and!; [lia|lia|done|done|right; by destruct (image_urls conv)].
  - destruct (N.leb_spec running target).
    + exists 0. split_and!; [lia|lia|done|done|by left].
    + destruct (evict_head conv running loc b imgs (eq_sym Himgs)) as (url & conv' & running' & -> & _ & Hd & Hu & Hs).
      specialize (IH conv' running' (S n) (eq_sym Hd)).
      destruct (evict_loop imgs conv' running' target (S n)) as [[c m] q].
      destruct IH as (k & -> & Hk & Hk' & Hsh & Hstop). exists (S k). rewrite Hu. simpl.
      split_and!; [lia|lia|done|by rewrite Hsh|done].
Qed.
End lemmas.

(** ** Lemmas: the running estimate *)

Section estimate.
Context {J : JsonSizes} {L : JsonLaws}.

(** What an item adds to the body. *)
Definition weight (x : ConversationItem) : N :=
  (json_item (blank_item x) + nsum (map part_url_bytes (parts_of x)))%N.

Lemma body_replace pre x y post :
  (conversation_body_bytes (pre ++ x :: post) + weight y = conversation_body_bytes (pre ++ y :: post) + weight x)%N.
Proof.
  unfold conversation_body_bytes, weight. rewrite !map_app, !nsum_app. cbn [map].
  assert (Hn : ∀ a l, nsum (a :: l) = (a + nsum l)%N) by done. rewrite !Hn.
  pose proof (json_replace_item (map blank_item pre) (blank_item x) (blank_item y) (map blank_item post)). lia.
Qed.

Lemma url_bytes_split l p r :
  nsum (map part_url_bytes (l ++ p :: r)) = (nsum (map part_url_bytes (l ++ r)) + part_url_bytes p)%N.
Proof. rewrite !map_app, !nsum_app. cbn. lia. Qed.

Lemma with_u_content_twice u c c' : with_u_content (with_u_content u c) c' = with_u_content u c'.
Proof. done. Qed.

Lemma weight_user u l url r :
  u_content u = l ++ ImagePart url :: r ->
  (weight (CUser u) + placeholder_bytes
   = weight (CUser (with_u_content u (l ++ placeholder :: r))) + image_part_bytes (ImagePart url))%N.
Proof.
  intros Hu. unfold weight. cbn [parts_of blank_item u_content with_u_content]. rewrite Hu, !url_bytes_split, !map_app.
  cbn [map blank_part part_url_bytes placeholder image_part_bytes].
  rewrite with_u_content_twice.
  pose proof (json_replace_part u (map blank_part l) (ImagePart []) placeholder (map blank_part r)) as Hp.
  rewrite json_image_frame in Hp. unfold placeholder_bytes, placeholder in *. lia.
Qed.

Lemma weight_result t c l url r :
  tr_images t = l ++ ImagePart url :: r -> c = tr_content t ->
  (weight (CToolResult (with_tr t c (l ++ r))) + image_part_bytes (ImagePart url) + (if is_empty (l ++ r) then 0 else 1)
   <= weight (CToolResult t))%N.
Proof.
  intros Ht ->. unfold weight. cbn [parts_of blank_item tr_images tr_content with_tr]. rewrite Ht, !url_bytes_split, !map_app.
  cbn [map blank_part part_url_bytes image_part_bytes].
  pose proof (json_remove_image t (tr_content t) (map blank_part l) (ImagePart []) (map blank_part r)) as Hp.
  rewrite json_image_frame in Hp. unfold with_tr in *.
  replace (is_empty (map blank_part l ++ map blank_part r)) with (is_empty (l ++ r)) in Hp
    by (rewrite <- map_app; by destruct (l ++ r)). cbn [tr_tool_call_id] in *. lia.
Qed.

Lemma weight_noted t c images :
  weight (CToolResult (with_tr t (c ++ tool_note_suffix) images))
  = (weight (CToolResult (with_tr t c images)) + tool_note_bytes)%N.
Proof.
  unfold weight, tool_note_bytes. cbn [parts_of blank_item tr_images tr_content with_tr].
  pose proof (json_append_content t c tool_note_suffix (map blank_part images)).
  pose proof (json_quotes tool_note_suffix). unfold with_tr in *. cbn [tr_tool_call_id] in *. lia.
Qed.

Lemma evicts_body url conv running conv' running' :
  evicts url conv running conv' running' ->
  (placeholder_bytes <= image_part_bytes (ImagePart url))%N ->
  (conversation_body_bytes conv <= running)%N -> (running + tool_note_bytes <= u64_max)%N ->
  (conversation_body_bytes conv' <= running' <= running + tool_note_bytes)%N.
Proof.
  intros He Hbig Hbody Hmax. destruct He as [pre u post l r -> Hu|pre t post l r -> Ht|pre t post l r -> Ht].
  - pose proof (body_replace pre (CUser u) (CUser (with_u_content u (l ++ placeholder :: r))) post).
    pose proof (weight_user u l url r Hu). lia.
  - pose proof (body_replace pre (CToolResult t) (CToolResult (with_tr t (tr_content t) (l ++ r))) post).
    pose proof (weight_result t _ l url r Ht eq_refl). lia.
  - pose proof (body_replace pre (CToolResult t)
      (CToolResult (with_tr t (tr_content t ++ tool_note_suffix) (l ++ r))) post).
    pose proof (weight_result t _ l url r Ht eq_refl). rewrite weight_noted in *. unfold sat_add64. lia.
Qed.

Definition large_images (conv : list ConversationItem) : Prop :=
  Forall (fun url => placeholder_bytes <= image_part_bytes (ImagePart url))%N (image_urls conv).

Lemma evict_loop_body conv running target n :
  large_images conv -> (conversation_body_bytes conv <= running)%N ->
  (running + tool_note_bytes * N.of_nat (length (image_urls conv)) <= u64_max)%N ->
  let '(conv', _, running') := evict_loop (discover 0 conv) conv running target n in
  (conversation_body_bytes conv' <= running')%N.
Proof.
  remember (discover 0 conv) as imgs eqn:Himgs. revert conv running n Himgs.
  induction imgs as [|[loc b] imgs IH]; intros conv running n Himgs Hl Hb Hm; cbn [evict_loop]; [done|].
  destruct (N.leb_spec running target); [done|].
  destruct (evict_head conv running loc b imgs (eq_sym Himgs)) as (url & conv' & running' & -> & He & Hd & Hu & _).
  unfold large_images in *. rewrite Hu in *. apply Forall_cons in Hl as [Hurl Hl]. cbn [length] in Hm.
  destruct (evicts_body _ _ _ _ _ He Hurl Hb) as [H1 H2]; [lia|].
  apply (IH conv' running' (S n) (eq_sym Hd) Hl H1). lia.
Qed.
End estimate.

(** ** Theorems *)

(** C20 The image budget of a request. The images evicted are the oldest ones and
    nothing else about the pairing of calls and results changes; a body below the
    trigger is untouched; past the trigger, the size of the body that is sent is
    below the reclaim mark unless no image is left. The images are assumed no
    smaller than the placeholder: the eviction does not account for one that is. *)
Theorem apply_image_budget_spec `{JsonLaws} items trigger reclaim :
  large_images items ->
  (conversation_body_bytes items + tool_note_bytes * N.of_nat (length (image_urls items)) <= u64_max)%N ->
  let budgeted := apply_image_budget_with_limits items trigger reclaim in
  let out := bc_outcome budgeted in
  evicted out ≤ length (image_urls items)
  ∧ image_urls (bc_items budgeted) = drop (evicted out) (image_urls items)
  ∧ shape (bc_items budgeted) = shape items
  ∧ ((conversation_body_bytes items < trigger)%N -> bc_items budgeted = items)
  ∧ ((trigger <= conversation_body_bytes items)%N ->
      (conversation_body_bytes (bc_items budgeted) <= reclaim)%N ∨ image_urls (bc_items budgeted) = [])
  ∧ body_bytes_after out = conversation_body_bytes (bc_items budgeted).
Proof.
  intros Hl Hm. unfold apply_image_budget_with_limits. cbv zeta.
  destruct (N.leb_spec trigger (conversation_body_bytes items)) as [Ht|Ht]; cbn [andb].
  2: { cbn [bc_items bc_outcome evicted body_bytes_after Nat.eqb drop].
       split_and!; [lia|done|done|done| |done]. intros Hc. by apply N.lt_nge in Ht. }
  destruct (N.ltb_spec reclaim (conversation_body_bytes items)) as [Hr|Hr].
  2: { cbn [bc_items bc_outcome evicted body_bytes_after Nat.eqb drop].
       split_and!; [lia|done|done|done|by left|done]. }
  unfold evict_images_to_budget.
  pose proof (evict_loop_spec items (conversation_body_bytes items) reclaim 0) as Hspec.
  pose proof (evict_loop_body items (conversation_body_bytes items) reclaim 0 Hl (N.le_refl _) Hm) as Hbody.
  destruct (evict_loop (discover 0 items) items _ reclaim 0) as [[conv n] running'] eqn:E.
  destruct Hspec as (k & Hn & Hk & Hu & Hs & Hstop). cbn [fst bc_items bc_outcome evicted body_bytes_after Nat.add] in *.
  subst n. split_and!; [done|done|done|intros; lia| |].
  - intros _. destruct Hstop as [Hstop|Hstop]; [left; lia|by right].
  - destruct (Nat.eqb_spec k 0) as [->|]; [|done].
    destruct (discover 0 items) as [|[loc b] imgs] eqn:Ed; cbn [evict_loop] in E.
    + by injection E as <- _.
    + rewrite (proj2 (N.leb_gt _ _)) in E by lia.
      destruct (evict_head items (conversation_body_bytes items) loc b imgs Ed) as (url & conv' & r' & Hone & _ & Hd & _).
      rewrite Hone in E. pose proof (evict_loop_spec conv' r' reclaim 1) as Hspec. rewrite Hd, E in Hspec.
      destruct Hspec as (k' & Hk' & _). lia.
Qed.

(** ** Witness *)

(** Sizes with the laws: of a JSON text without escapes, one comma per part. *)
Definition demo_part_size (p : ContentPart) : N :=
  match p with TextPart t => 24 + N.of_nat (length t) | ImagePart u => 25 + N.of_nat (length u) end.

Definition demo_item_size (i : ConversationItem) : N :=
  match i with
  | CUser u => 40 + nsum (map demo_part_size (u_content u)) + N.of_nat (length (u_content u))
  | CToolResult t =>
      60 + N.of_nat (length (tr_content t)) + nsum (map demo_part_size (tr_images t)) + N.of_nat (length (tr_images t))
  | _ => 30 + N.of_nat (length (text_content i))
  end.

Definition demo_sizes : JsonSizes := {|
  json_items := fun l => 2 + nsum (map demo_item_size l);
  json_item := demo_item_size;
  json_part := demo_part_size;
  json_str := fun s => N.of_nat (length s) + 2;
|}%N.

Lemma demo_laws : @JsonLaws demo_sizes.
Proof.
  split; cbn [json_items json_item json_part json_str demo_sizes demo_item_size demo_part_size]; intros.
  - rewrite !map_app, !nsum_app. cbn. lia.
  - cbn [u_content with_u_content]. rewrite !map_app, !nsum_app, !length_app. cbn. lia.
  - cbn [tr_content tr_images with_tr]. rewrite !map_app, !nsum_app, !length_app. cbn. destruct (is_empty _); lia.
  - cbn [tr_content tr_images with_tr]. rewrite length_app. lia.
  - lia.
  - reflexivity.
Qed.

Definition demo_image : str := lit "data:image/png;base64," ++ repeat (byte 65) 400.

Definition demo_images : list ConversationItem :=
  [CUser (mkUser [TextPart (lit "look"); ImagePart demo_image] Human None None None);
   CToolResult (mkToolResult (lit "a") (lit "shot") [ImagePart demo_image])].

Lemma apply_image_budget_spec_witness :
  let budgeted := @apply_image_budget_with_limits demo_sizes demo_images 900 900 in
  evicted (bc_outcome budgeted) = 1
  ∧ image_urls (bc_items budgeted) = [demo_image]
  ∧ shape (bc_items budgeted) = shape demo_images.
Proof.
  pose proof (@apply_image_budget_spec demo_sizes demo_laws demo_images 900 900) as H.
  destruct H as (_ & Hu & Hs & _).
  - unfold large_images. replace (image_urls demo_images) with [demo_image; demo_image] by (vm_compute; reflexivity).
    apply Forall_cons_2; [|apply Forall_cons_2; [|apply Forall_nil_2]]; vm_compute; discriminate.
  - vm_compute. discriminate.
  - assert (He : evicted (bc_outcome (@apply_image_budget_with_limits demo_sizes demo_images 900 900)) = 1)
      by (vm_compute; reflexivity).
    cbv zeta. split; [exact He|]. split; [|exact Hs]. rewrite Hu, He. vm_compute. reflexivity.
Defined.
