(* ===== verification/RequestBuilder.v ===== *)
(** * Trimming and completing the items of a request

    [crates/codegen/xai-chat-state/src/actor/request_builder.rs]: the pruning of
    old tool results, the memory reminder in the system message; the head swap of
    [conversation_util.rs]; the retained-history prune of [actor/mutations.rs],
    which walks the conversation the same way. The functions of the actor that
    call them are in [ChatState]. *)

From S2P Require Export ConversationRepair.

(** Source: crates/codegen/xai-chat-state/src/types.rs:12-12, [MEMORY_CONTEXT_OPEN_TAG]. *)
Definition MEMORY_CONTEXT_OPEN_TAG : str := lit "<memory-context>".

(** Source: crates/codegen/xai-chat-state/src/types.rs:67-81, [PruningConfig]. *)
Record PruningConfig := mkPruning {
  pc_enabled : bool;
  keep_last_n_turns : nat;
  soft_trim_threshold : nat;
  soft_trim_head : nat;
  soft_trim_tail : nat;
  hard_clear_age_turns : nat;
}.

(** Source: crates/codegen/xai-chat-state/src/types.rs:84-93, [PruningConfig::default]. *)
Definition default_pruning : PruningConfig := mkPruning true 3 4000 1500 1500 10.

(** Source: crates/codegen/xai-chat-state/src/actor/request_builder.rs:12-12, [HARD_CLEAR_PLACEHOLDER]. *)
Definition HARD_CLEAR_PLACEHOLDER : str := lit "[Tool result omitted — too old]".

(** Source: crates/codegen/xai-chat-state/src/actor/request_builder.rs:15-15, [SOFT_TRIM_SEPARATOR]. *)
Definition SOFT_TRIM_SEPARATOR : str := nl ++ nl ++ lit "[…trimmed…]" ++ nl ++ nl.

(** Source: crates/codegen/xai-chat-state/src/actor/request_builder.rs:120-122, [should_prune]. *)
Definition should_prune (total_tokens context_window : N) : bool := N.ltb (context_window / 2) total_tokens.

(** Source: crates/codegen/xai-chat-state/src/actor/request_builder.rs:233-235, [safe_char_slice]. *)
Definition safe_char_slice (s : str) (start count : nat) : str := concat (take count (drop start (chars s))).

(** Source: crates/codegen/xai-chat-state/src/actor/request_builder.rs:237-243, [safe_char_slice_tail]. *)
Definition safe_char_slice_tail (s : str) (count : nat) : str :=
  let total := chars_count s in
  if Nat.leb total count then s else concat (drop (total - count) (chars s)).

(** One result of a turn of the given age. *)
Definition prune_result (config : PruningConfig) (turn_from_end : nat) (t : ToolResultItem) : ToolResultItem :=
  if Nat.ltb turn_from_end (keep_last_n_turns config) then t
  else if Nat.leb (hard_clear_age_turns config) turn_from_end then
    if negb (str_eqb (tr_content t) HARD_CLEAR_PLACEHOLDER)
    then with_tr t HARD_CLEAR_PLACEHOLDER (tr_images t) else t
  else
    let content_len := chars_count (tr_content t) in
    if Nat.ltb (soft_trim_threshold config) content_len then
      let head := safe_char_slice (tr_content t) 0 (soft_trim_head config) in
      let tail := safe_char_slice_tail (tr_content t) (soft_trim_tail config) in
      with_tr t (head ++ SOFT_TRIM_SEPARATOR ++ tail) (tr_images t)
    else t.

(** The walk from the end of the conversation, on the reversed list; the age of
    the turn and whether a user item was seen are threaded. *)
Fixpoint prune_walk (f : nat -> ToolResultItem -> ToolResultItem) (turn_from_end : nat) (seen_first_user : bool)
    (reversed : list ConversationItem) : list ConversationItem :=
  match reversed with
  | [] => []
  | CUser u :: rest => CUser u :: prune_walk f (if seen_first_user then S turn_from_end else turn_from_end) true rest
  | CToolResult t :: rest => CToolResult (f turn_from_end t) :: prune_walk f turn_from_end seen_first_user rest
  | item :: rest => item :: prune_walk f turn_from_end seen_first_user rest
  end.

(** Source: crates/codegen/xai-chat-state/src/actor/request_builder.rs:126-169, [prune_conversation]. *)
Definition prune_conversation (conversation : list ConversationItem) (config : PruningConfig) :
    list ConversationItem :=
  if negb (pc_enabled config) then conversation
  else rev (prune_walk (prune_result config) 0 false (rev conversation)).

(** One old result of the retained history. *)
Definition clear_result (effective_threshold turn_from_end : nat) (t : ToolResultItem) : ToolResultItem :=
  if Nat.ltb turn_from_end effective_threshold then t
  else if negb (str_eqb (tr_content t) HARD_CLEAR_PLACEHOLDER)
  then with_tr t HARD_CLEAR_PLACEHOLDER (tr_images t) else t.

Fixpoint count_cleared (effective_threshold turn_from_end : nat) (seen_first_user : bool)
    (reversed : list ConversationItem) : nat :=
  match reversed with
  | [] => 0
  | CUser u :: rest =>
      count_cleared effective_threshold (if seen_first_user then S turn_from_end else turn_from_end) true rest
  | CToolResult t :: rest =>
      (if Nat.ltb turn_from_end effective_threshold then 0
       else if negb (str_eqb (tr_content t) HARD_CLEAR_PLACEHOLDER) then 1 else 0)
      + count_cleared effective_threshold turn_from_end seen_first_user rest
  | item :: rest => count_cleared effective_threshold turn_from_end seen_first_user rest
  end.

(** The closure [prune_retained_conversation] passes to [rewrite_history]: the
    conversation with its old results cleared, and how many were. *)
Definition clear_old_results (effective_threshold : nat) (conversation : list ConversationItem) :
    list ConversationItem * nat :=
  (rev (prune_walk (clear_result effective_threshold) 0 false (rev conversation)),
   count_cleared effective_threshold 0 false (rev conversation)).

(** [s.trim_end_matches(cs)] for ASCII characters. *)
Definition trim_end_newlines (cs : list ascii) (s : str) : str :=
  drop_while_end (fun c => existsb (ch_eqb c) cs) s.

(** Source: crates/codegen/xai-chat-state/src/actor/request_builder.rs:194-227, [upsert_memory_reminder_text]. *)
Definition upsert_memory_reminder_text (system_prompt reminder : str) : str * bool :=
  let existing_start :=
    (fun idx => length (trim_end_newlines nl (take idx system_prompt))) <$> find MEMORY_CONTEXT_OPEN_TAG system_prompt in
  let updated :=
    match existing_start with
    | Some prefix_len =>
        let prefix := trim_end_newlines nl (take prefix_len system_prompt) in
        if is_empty prefix then reminder else prefix ++ nl ++ nl ++ reminder
    | None =>
        if str_eqb (trim_end system_prompt) reminder then system_prompt
        else if is_empty system_prompt then reminder
        else trim_end_newlines nl system_prompt ++ nl ++ nl ++ reminder
    end in
  (updated, negb (str_eqb system_prompt updated)).

Definition with_sys (s : SystemItem) (content : str) : SystemItem := mkSystem content (sys_reason s).

(** Source: crates/codegen/xai-chat-state/src/actor/request_builder.rs:180-192, [inject_memory_reminder]. *)
Definition inject_memory_reminder (items : list ConversationItem) (reminder : str) : list ConversationItem * bool :=
  let reminder := trim reminder in
  if is_empty reminder then (items, false)
  else
    match items with
    | CSystem sys :: rest =>
        let '(content, changed) := upsert_memory_reminder_text (sys_content sys) reminder in
        (CSystem (with_sys sys content) :: rest, changed)
    | _ => (item_system reminder :: items, true)
    end.

(** Source: crates/codegen/xai-chat-state/src/conversation_util.rs:12-14, [canonical_system_prompt_eq]. *)
Definition canonical_system_prompt_eq (a b : str) : bool :=
  str_eqb (trim_end_newlines [byte 10; byte 13] a) (trim_end_newlines [byte 10; byte 13] b).

(** Source: crates/codegen/xai-chat-state/src/conversation_util.rs:19-37, [replace_or_insert_system_head]. *)
Definition replace_or_insert_system_head (conversation : list ConversationItem) (prompt : str) :
    list ConversationItem * bool :=
  match conversation with
  | CSystem sys :: rest =>
      if canonical_system_prompt_eq (sys_content sys) prompt then (conversation, false)
      else (CSystem (with_sys sys prompt) :: rest, true)
  | _ => (item_system prompt :: conversation, true)
  end.

(** ** Lemmas: the age of a turn *)

Definition users (l : list ConversationItem) : nat := length (List.filter is_user_item l).

(** How many whole turns end after the item before [rest]. *)
Definition age (rest : list ConversationItem) : nat := pred (users rest).

(** The walk of the reversed list is a walk of the list in which the age of a
    result is read off the items that follow it. *)
Fixpoint prune_ref (f : nat -> ToolResultItem -> ToolResultItem) (l : list ConversationItem) : list ConversationItem :=
  match l with
  | [] => []
  | CToolResult t :: rest => CToolResult (f (age rest) t) :: prune_ref f rest
  | item :: rest => item :: prune_ref f rest
  end.

Lemma users_app l1 l2 : users (l1 ++ l2) = users l1 + users l2.
Proof. unfold users. by rewrite List.filter_app, length_app. Qed.

Lemma users_rev l : users (rev l) = users l.
Proof. unfold users. by rewrite List.filter_rev, length_rev. Qed.

(** Walking on after [done] (already reversed). *)
Lemma prune_walk_app f l1 l2 tfe seen :
  prune_walk f tfe seen (l1 ++ l2)
  = prune_walk f tfe seen l1
    ++ prune_walk f (if seen then tfe + users l1 else tfe + pred (users l1)) (seen || Nat.ltb 0 (users l1)) l2.
Proof.
  revert tfe seen. induction l1 as [|x l1 IH]; intros tfe seen.
  { simpl. rewrite orb_false_r. destruct seen; by rewrite Nat.add_0_r. }
  destruct x; cbn [app prune_walk]; rewrite IH; f_equal; f_equal; unfold users; cbn [List.filter is_user_item length];
    try done.
  f_equal; destruct seen; simpl; try lia; by rewrite ?orb_true_r.
Qed.

Lemma prune_walk_ref f l : rev (prune_walk f 0 false (rev l)) = prune_ref f l.
Proof.
  induction l as [|x l IH]; [done|]. cbn [rev]. rewrite prune_walk_app, rev_app_distr, IH.
  rewrite users_rev. cbn [Nat.add]. fold (age l). by destruct x.
Qed.

Lemma count_cleared_app th l1 l2 tfe seen :
  count_cleared th tfe seen (l1 ++ l2)
  = count_cleared th tfe seen l1
    + count_cleared th (if seen then tfe + users l1 else tfe + pred (users l1)) (seen || Nat.ltb 0 (users l1)) l2.
Proof.
  revert tfe seen. induction l1 as [|x l1 IH]; intros tfe seen.
  { simpl. rewrite orb_false_r. destruct seen; by rewrite Nat.add_0_r. }
  destruct x; cbn [app count_cleared]; rewrite IH, ?Nat.add_assoc; f_equal; unfold users;
    cbn [List.filter is_user_item length]; try done.
  f_equal; destruct seen; simpl; try lia; by rewrite ?orb_true_r.
Qed.

Lemma clear_old_results_spec th l :
  let '(l', cleared) := clear_old_results th l in
  l' = prune_ref (clear_result th) l ∧ (cleared = 0 -> l' = l).
Proof.
  unfold clear_old_results. rewrite prune_walk_ref. split; [done|].
  induction l as [|x l IH]; [done|]. cbn [rev]. rewrite count_cleared_app, users_rev. cbn [Nat.add].
  fold (age l). intros [H1 H2]%Nat.eq_add_0. specialize (IH H1). destruct x; cbn [prune_ref]; rewrite IH; try done.
  cbn [count_cleared] in H2. unfold clear_result. destruct (Nat.ltb _ _); [done|]. by destruct (negb _).
Qed.

Lemma prune_ref_shape f l :
  (∀ n t, tr_tool_call_id (f n t) = tr_tool_call_id t) -> shape (prune_ref f l) = shape l.
Proof.
  intros Hf. unfold shape. induction l as [|x l IH]; [done|].
  destruct x; cbn [prune_ref map shape_of]; rewrite ?IH; try done. by rewrite Hf.
Qed.

Lemma prune_result_id config n t : tr_tool_call_id (prune_result config n t) = tr_tool_call_id t.
Proof. unfold prune_result. by repeat case_match. Qed.

Lemma clear_result_id th n t : tr_tool_call_id (clear_result th n t) = tr_tool_call_id t.
Proof. unfold clear_result. by repeat case_match. Qed.

Lemma prune_shape config l : shape (prune_conversation l config) = shape l.
Proof.
  unfold prune_conversation. destruct (negb _); [done|]. rewrite prune_walk_ref.
  apply prune_ref_shape, prune_result_id.
Qed.

Lemma clear_shape th l : shape (fst (clear_old_results th l)) = shape l.
Proof.
  unfold clear_old_results. cbn [fst]. rewrite prune_walk_ref. apply prune_ref_shape, clear_result_id.
Qed.

Lemma prune_ref_length f l : length (prune_ref f l) = length l.
Proof. induction l as [|[] l IH]; simpl; by rewrite ?IH. Qed.

Lemma clear_length th l : length (fst (clear_old_results th l)) = length l.
Proof. unfold clear_old_results. cbn [fst]. by rewrite prune_walk_ref, prune_ref_length. Qed.

Lemma prune_ref_lookup f l i :
  prune_ref f l !! i = match l !! i with
    | Some (CToolResult t) => Some (CToolResult (f (age (drop (S i) l)) t))
    | other => other
    end.
Proof.
  revert i. induction l as [|x l IH]; intros i; [done|].
  destruct i as [|i]; [by destruct x|]. destruct x; cbn [prune_ref lookup list_lookup drop]; apply IH.
Qed.

Lemma inject_shape items reminder :
  shape (fst (inject_memory_reminder items reminder)) = shape items
  ∨ shape (fst (inject_memory_reminder items reminder)) = inr [] :: shape items.
Proof.
  unfold inject_memory_reminder. destruct (is_empty _); [by left|].
  destruct items as [|x items]; [by right|]. destruct x; try (by right).
  destruct (upsert_memory_reminder_text _ _). by left.
Qed.

(** A system item in front leaves the pairing as it was. *)
Lemma answered_head l l' : shape l' = inr [] :: shape l -> answered l -> answered l'.
Proof.
  intros Hs. destruct l' as [|x l']; [done|]. injection Hs as Hx Hs.
  intros Ha. eapply answered_shape in Ha; [|symmetry; exact Hs].
  assert (Hnil : ∀ tc : ToolCall, tc ∈ [] -> tc_id tc ∈ []) by (intros tc []%not_elem_of_nil).
  destruct x as [| |a| | |]; cbn [shape_of calls_of] in Hx; simplify_eq; unfold answered;
    cbn [answered_from calls_of]; (split; [exact Hnil|]); try exact Ha.
  replace (a_tool_calls a) with ([] : list ToolCall) by congruence. exact Ha.
Qed.

Lemma inject_answered items reminder : answered items -> answered (fst (inject_memory_reminder items reminder)).
Proof.
  intros Ha. destruct (inject_shape items reminder) as [Hs|Hs]; [by eapply answered_shape|by eapply answered_head].
Qed.
