(* ===== verification/ChatCompaction.v ===== *)
(** * Compaction of a conversation

    [crates/codegen/xai-chat-state/src/compaction_utils.rs]: what the agent
    prepares before it summarizes its conversation, which user turns are real,
    what is carried over, and the history that replaces the old one. The repair
    functions of the file are in [ConversationRepair]. The estimate of an item
    is [state.rs]'s; the alternate carrier formats are compiled out in this
    build ([summary_before_recent_carrier] is constantly [None]). *)

From S2P Require Export ConversationRepair Summary.

(** ** Estimates *)

(** The [serde_json::Value] of a tool's parameters is its printed text.

    Source: crates/codegen/xai-chat-state/src/actor/state.rs:23-31, [estimate_tool_tokens]. *)
Definition estimate_tool_tokens (name : str) (description : option str) (parameters : str) : N :=
  (N.of_nat (length name + from_option length 0%nat description + length parameters) / BYTES_PER_TOKEN)%N.

(** Source: crates/codegen/xai-grok-sampling-types/src/conversation.rs:484-493, [ToolSpec]. *)
Record ToolSpec := mkToolSpec {
  ts_name : str;
  ts_description : option str;
  ts_parameters : str;
}.

(** Sums of [u64] wrap in the release profile.

    Source: crates/codegen/xai-chat-state/src/actor/state.rs:49-54, [estimate_tool_specs_tokens]. *)
Definition estimate_tool_specs_tokens (tools : list ToolSpec) : N :=
  wrap64 (nsum (map (fun t => estimate_tool_tokens (ts_name t) (ts_description t) (ts_parameters t)) tools)).

Definition part_bytes (p : ContentPart) : nat := from_option length 0%nat (part_text p).

(** Source: crates/codegen/xai-chat-state/src/actor/state.rs:59-95, [estimate_item_tokens]. *)
Definition estimate_item_tokens (item : ConversationItem) : N :=
  match item with
  | CSystem s => estimate_tokens (sys_content s)
  | CUser u =>
      let bytes := list_sum (map part_bytes (u_content u)) in
      let images := length (List.filter is_image (u_content u)) in
      (N.of_nat bytes / BYTES_PER_TOKEN + estimate_image_tokens (N.of_nat images))%N
  | CAssistant a =>
      let bytes := length (a_content a) + list_sum (map (fun tc => length (tc_arguments tc)) (a_tool_calls a)) in
      (N.of_nat bytes / BYTES_PER_TOKEN)%N
  | CToolResult tr => estimate_tokens (tr_content tr)
  | CBackendToolCall b => estimate_tokens (text_summary b)
  | CReasoning r =>
      let text_bytes := length (reasoning_item_text r) in
      let enc_bytes := from_option length 0%nat (r_encrypted_content r) in
      (N.of_nat (Nat.max text_bytes (enc_bytes * 3 / 4)) / BYTES_PER_TOKEN)%N
  end.

(** Source: crates/codegen/xai-chat-state/src/actor/state.rs:99-101, [estimate_conversation_tokens]. *)
Definition estimate_conversation_tokens (items : list ConversationItem) : N :=
  wrap64 (nsum (map estimate_item_tokens items)).

(** Source: crates/codegen/xai-chat-state/src/actor/state.rs:117-123, [estimate_messages_tokens]. *)
Definition estimate_messages_tokens (items : list ConversationItem) : N :=
  wrap64 (nsum (map estimate_item_tokens (List.filter (fun i => negb (is_system_item i)) items))).

(** Source: crates/codegen/xai-chat-state/src/actor/state.rs:16-21, [estimate_system_message_tokens]. *)
Definition estimate_system_message_tokens (item : ConversationItem) : N :=
  match item with CSystem s => estimate_tokens (sys_content s) | _ => 0%N end.

Definition count_saturated (item : ConversationItem) : N := N.min (estimate_item_tokens item) u32_max.

Lemma count_saturated_u32 item : (count_saturated item <= u32_max)%N.
Proof. unfold count_saturated. lia. Qed.

(** Source: crates/codegen/xai-chat-state/src/actor/state.rs:108-114, [EstimatedItemTokenCounter]. *)
#[export] Instance estimated_item_token_counter : ItemTokenCounter ConversationItem := {|
  count_item_tokens := count_saturated;
  count_item_tokens_u32 := count_saturated_u32;
|}.

(** ** Preparing a history *)

(** Source: crates/codegen/xai-chat-state/src/compaction_utils.rs:8-12, [AGENT_MESSAGE_MODEL_LABEL]. *)
Definition AGENT_MESSAGE_MODEL_LABEL : str :=
  lit "[Message authored by another agent; not a human request or approval.]".

Definition is_agent_message (item : ConversationItem) : bool :=
  match item with CUser user => bool_decide (u_reason user = AgentMessage) | _ => false end.

(** Source: crates/codegen/xai-chat-state/src/compaction_utils.rs:14-34, [ModelRequestHistory::from_raw]. *)
Definition model_request_history (conversation : list ConversationItem) : list ConversationItem :=
  map (fun item =>
    match item with
    | CUser user =>
        if bool_decide (u_reason user = AgentMessage)
        then CUser (with_u_content user (TextPart AGENT_MESSAGE_MODEL_LABEL :: u_content user))
        else item
    | other => other
    end) conversation.

Definition strip_tool_message (item : ConversationItem) : option ConversationItem :=
  match item with
  | CToolResult _ => None
  | CBackendToolCall _ => None
  | CAssistant a =>
      if is_empty (a_tool_calls a) then Some item
      else
        let tool_info := nl ++ lit "[Called tools: " ++ join (lit ", ") (map tc_name (a_tool_calls a)) ++ lit "]" in
        Some (CAssistant (with_a a (if is_empty (a_content a) then tool_info else a_content a ++ tool_info) []))
  | other => Some other
  end.

(** Source: crates/codegen/xai-chat-state/src/compaction_utils.rs:42-70, [strip_tool_messages_for_conversation_item]. *)
Definition strip_tool_messages_for_conversation_item (conversation : list ConversationItem) : list ConversationItem :=
  omap strip_tool_message conversation.

Definition is_reasoning (item : ConversationItem) : bool := match item with CReasoning _ => true | _ => false end.

(** Source: crates/codegen/xai-chat-state/src/compaction_utils.rs:73-78, [strip_reasoning_blocks]. *)
Definition strip_reasoning_blocks (conversation : list ConversationItem) : list ConversationItem :=
  List.filter (fun item => negb (is_reasoning item)) conversation.

Definition image_as_text (part : ContentPart) : ContentPart :=
  if is_image part then TextPart (lit "[image]") else part.

(** Source: crates/codegen/xai-chat-state/src/compaction_utils.rs:81-98, [strip_images]. *)
Definition strip_images (conversation : list ConversationItem) : list ConversationItem :=
  map (fun item =>
    match item with
    | CUser u =>
        CUser (with_u_content u (map image_as_text (u_content u)))
    | other => other
    end) conversation.

(** Source: crates/codegen/xai-chat-state/src/compaction_utils.rs:102-108, [prepare_conversation_for_summarization]. *)
Definition prepare_conversation_for_summarization (conversation : list ConversationItem) : list ConversationItem :=
  strip_images (strip_reasoning_blocks (strip_tool_messages_for_conversation_item conversation)).

(** Source: crates/codegen/xai-chat-state/src/compaction_utils.rs:110-114, [prepare_conversation_for_segment]. *)
Definition prepare_conversation_for_segment (conversation : list ConversationItem) : list ConversationItem :=
  strip_images (strip_reasoning_blocks conversation).

Definition calls_tools (item : ConversationItem) : bool := negb (is_empty (calls_of item)).

(** Source: crates/codegen/xai-chat-state/src/compaction_utils.rs:116-126, [truncate_trailing_incomplete_tool_call]. *)
Definition truncate_trailing_incomplete_tool_call (conversation : list ConversationItem) : list ConversationItem :=
  drop_while_end calls_tools conversation.

(** Source: crates/codegen/xai-chat-state/src/compaction_utils.rs:128-138, [prepare_conversation_for_verbatim_summarization]. *)
Definition prepare_conversation_for_verbatim_summarization (conversation : list ConversationItem)
    (strip_reasoning : bool) : list ConversationItem :=
  let conversation := if strip_reasoning then strip_reasoning_blocks conversation else conversation in
  truncate_trailing_incomplete_tool_call conversation.

(** ** Fitting a history to a budget *)

(** Source: crates/codegen/xai-chat-state/src/compaction_utils.rs:242-257, [truncate_text_to_bytes]. *)
Definition truncate_text_to_bytes (s : str) (max_bytes : nat) : option str :=
  if Nat.leb (length s) max_bytes then None
  else
    let keep := max_bytes - 64 in
    let e := floor_char_boundary s (Nat.min keep (length s)) in
    let dropped := length s - e in
    Some (take e s ++ nl ++ lit "[... truncated " ++ show_nat dropped
          ++ lit " bytes to fit the compaction window ...]").

(** Source: crates/codegen/xai-chat-state/src/compaction_utils.rs:213-240, [truncate_item_to_tokens]. *)
Definition truncate_item_to_tokens (item : ConversationItem) (max_tokens : N) : ConversationItem :=
  let max_bytes := N.to_nat (sat_mul64 max_tokens 4) in
  let fit s := default s (truncate_text_to_bytes s max_bytes) in
  match item with
  | CToolResult t => CToolResult (with_tr t (fit (tr_content t)) (tr_images t))
  | CAssistant a => CAssistant (with_a a (fit (a_content a)) (a_tool_calls a))
  | CUser u =>
      CUser (with_u_content u
        (map (fun part => match part with TextPart text => TextPart (fit text) | ImagePart _ => part end) (u_content u)))
  | other => other
  end.

(** The trailing results and what precedes them.

    Source: crates/codegen/xai-chat-state/src/compaction_utils.rs:179-211, [recover_truncated_tail_unit]. *)
Definition recover_truncated_tail_unit (body : list ConversationItem) (budget : N) : list ConversationItem :=
  let front := drop_while_end is_result_item body in
  let results := drop (length front) body in
  if is_empty results then
    match last front with
    | Some item => [truncate_item_to_tokens item budget]
    | None => []
    end
  else
    let owner := match last front with
                 | Some item => if calls_tools item then Some item else None
                 | None => None
                 end in
    let owner_cost := from_option estimate_item_tokens 0%N owner in
    let result_budget := (budget - owner_cost)%N in
    let per := N.max (result_budget / N.of_nat (length results)) 1 in
    option_list owner ++ map (fun r => truncate_item_to_tokens r per) results.

(** The backward walk over the body: the start of the longest suffix that costs
    no more than [remaining]. The list is reversed and [start] is its length. *)
Fixpoint budget_start (reversed : list ConversationItem) (remaining : N) (start : nat) : nat :=
  match reversed with
  | [] => start
  | item :: rest =>
      let cost := estimate_item_tokens item in
      if N.ltb remaining cost then start else budget_start rest (remaining - cost) (pred start)
  end.

(** [while matches!(body.get(start), Some(ToolResult))]. *)
Fixpoint skip_results (l : list ConversationItem) (start : nat) : nat :=
  match l with
  | CToolResult _ :: rest => skip_results rest (S start)
  | _ => start
  end.

(** Source: crates/codegen/xai-chat-state/src/compaction_utils.rs:144-177, [fit_conversation_to_budget]. *)
Definition fit_conversation_to_budget (conversation : list ConversationItem) (max_tokens : N) : list ConversationItem :=
  let total := wrap64 (nsum (map estimate_item_tokens conversation)) in
  if N.leb total max_tokens then conversation
  else
    let '(head, body) :=
      match conversation with
      | CSystem s :: rest => ([CSystem s], rest)
      | _ => ([], conversation)
      end in
    let budget := (max_tokens - nsum (map estimate_item_tokens head))%N in
    let start := budget_start (rev body) budget (length body) in
    let start := skip_results (drop start body) start in
    if Nat.ltb start (length body) then head ++ drop start body
    else head ++ recover_truncated_tail_unit body budget.

(** ** The user's queries *)

(** Source: crates/codegen/xai-chat-state/src/compaction_utils.rs:259-272, [SYSTEM_TAGS]. *)
Definition SYSTEM_TAGS : list str := map lit
  ["user_info"; "project_layout"; "git_status"; "fork-context"; "system-reminder"; "agent-memory";
   "system_reminder"; "background_context"; "command-name"; "command-message"; "command-args"; "rules"].

Definition tag_open (t : str) : str := lit "<" ++ t ++ lit ">".
Definition tag_close (t : str) : str := lit "</" ++ t ++ lit ">".

(** The [while let] loop of one tag; each round removes at least the two tags,
    so the length of the text is enough fuel. *)
Fixpoint strip_tag (fuel : nat) (open close result : str) : str :=
  match fuel with
  | 0 => result
  | S fuel' =>
      match find open result with
      | None => result
      | Some start =>
          match find close (drop start result) with
          | Some rel_end =>
              let end_pos := start + rel_end + length close in
              strip_tag fuel' open close (take start result ++ drop end_pos result)
          | None => result
          end
      end
  end.

(** Source: crates/codegen/xai-chat-state/src/compaction_utils.rs:275-290, [strip_system_tags]. *)
Definition strip_system_tags (text : str) : str :=
  trim (foldl (fun result t => strip_tag (S (length result)) (tag_open t) (tag_close t) result) text SYSTEM_TAGS).

Definition query_open : str := lit "<user_query>".
Definition query_close : str := lit "</user_query>".

(** Source: crates/codegen/xai-chat-state/src/compaction_utils.rs:293-309, [extract_user_query]. *)
Definition extract_user_query (text : str) : str :=
  let stripped := strip_system_tags text in
  match find query_open stripped with
  | Some start =>
      let content_start := start + length query_open in
      match find query_close (drop content_start stripped) with
      | Some e => trim (take e (drop content_start stripped))
      | None => stripped
      end
  | None => stripped
  end.

(** Source: crates/codegen/xai-chat-state/src/compaction_utils.rs:312-319, [extract_last_user_query]. *)
Definition extract_last_user_query (conversation : list ConversationItem) : option str :=
  item ← List.find is_user_item (rev conversation);
  let q := extract_user_query (text_content item) in
  if is_empty q then None else Some q.

(** Source: crates/codegen/xai-chat-state/src/compaction_utils.rs:323-324, [AUTO_CONTINUE_PROMPT]. *)
Definition AUTO_CONTINUE_PROMPT : str := lit
"Continue the conversation from where it left off without asking the user any further questions. Resume directly - do not acknowledge the summary, do not recap what was happening, do not preface with "
  ++ dq ++ lit "I'll continue" ++ dq ++ lit " or similar." ++ nl
  ++ lit "Pick up the last task as if the break never happened.".

(** Source: crates/codegen/xai-chat-state/src/compaction_utils.rs:326-328, [is_bootstrap_reminder_text]. *)
Definition is_bootstrap_reminder_text (_ : str) : bool := false.

(** Source: crates/codegen/xai-chat-state/src/compaction_utils.rs:332-337, [is_synthetic_extracted_query]. *)
Definition is_synthetic_extracted_query (text : str) : bool :=
  is_empty text || str_eqb text (lit "__auto_continue__") || str_eqb text AUTO_CONTINUE_PROMPT
  || is_bootstrap_reminder_text text.

(** Source: crates/codegen/xai-chat-state/src/compaction_utils.rs:341-359, [is_real_user_turn]. *)
Definition is_real_user_turn (item : ConversationItem) : bool :=
  match item with
  | CUser u =>
      if negb (is_human (u_reason u)) then false
      else if existsb is_image (u_content u) then true
      else negb (is_synthetic_extracted_query (extract_user_query (text_content item)))
  | _ => false
  end.

(** Source: crates/codegen/xai-chat-state/src/compaction_utils.rs:362-368, [extract_real_user_queries]. *)
Definition extract_real_user_queries (conversation : list ConversationItem) : list str :=
  map (fun item => extract_user_query (text_content item)) (List.filter is_real_user_turn conversation).

(** Source: crates/codegen/xai-chat-state/src/compaction_utils.rs:372-378, [extract_last_real_user_query]. *)
Definition extract_last_real_user_query (conversation : list ConversationItem) : option str :=
  (fun item => extract_user_query (text_content item)) <$> List.find is_real_user_turn (rev conversation).

(** An assistant item as it is, a result with its content omitted. *)
Definition omitted_result (t : ToolResultItem) : ConversationItem :=
  CToolResult (mkToolResult (tr_tool_call_id t) (lit "Tool call omitted...") []).
Definition working_item (item : ConversationItem) : option ConversationItem :=
  match item with
  | CAssistant a => Some (CAssistant a)
  | CToolResult t => Some (omitted_result t)
  | _ => None
  end.

Fixpoint take_while {A} (f : A -> bool) (l : list A) : list A :=
  match l with
  | [] => []
  | x :: l' => if f x then x :: take_while f l' else []
  end.

(** Source: crates/codegen/xai-chat-state/src/compaction_utils.rs:382-401, [extract_messages_since_last_user]. *)
Definition extract_messages_since_last_user (conversation : list ConversationItem) : list ConversationItem :=
  rev (omap working_item (take_while (fun item => negb (is_user_item item)) (rev conversation))).

(** Source: crates/codegen/xai-chat-state/src/compaction_utils.rs:405-426, [extract_messages_since_last_real_user]. *)
Definition extract_messages_since_last_real_user (conversation : list ConversationItem) : list ConversationItem :=
  let start := match rposition is_real_user_turn conversation with Some idx => S idx | None => 0 end in
  omap working_item (drop start conversation).

(** Source: crates/codegen/xai-chat-state/src/compaction_utils.rs:427-432, [AgentMessagePosition]. *)
Inductive AgentMessagePosition := OnlyAgent | BeforeHuman | AfterHuman.

(** Source: crates/codegen/xai-chat-state/src/compaction_utils.rs:434-438, [AgentMessageAnchor]. *)
Record AgentMessageAnchor := mkAnchor {
  anchor_item : ConversationItem;
  anchor_position : AgentMessagePosition;
}.

(** Source: crates/codegen/xai-chat-state/src/compaction_utils.rs:439-456, [extract_latest_agent_message]. *)
Definition extract_latest_agent_message (conversation : list ConversationItem) : option AgentMessageAnchor :=
  agent_message_index ← rposition is_agent_message conversation;
  let position :=
    match rposition is_real_user_turn conversation with
    | Some human_index => if Nat.ltb agent_message_index human_index then BeforeHuman else AfterHuman
    | None => OnlyAgent
    end in
  item ← conversation !! agent_message_index;
  Some (mkAnchor item position).

Definition anchored_item (item : ConversationItem) : option ConversationItem :=
  match item with
  | CUser user => if bool_decide (u_reason user = AgentMessage) then Some (CUser user) else None
  | CAssistant assistant => Some (CAssistant assistant)
  | CToolResult result => Some (omitted_result result)
  | _ => None
  end.

(** Source: crates/codegen/xai-chat-state/src/compaction_utils.rs:457-501, [extract_messages_since_last_compaction_anchor]. *)
Definition extract_messages_since_last_compaction_anchor (conversation : list ConversationItem) : list ConversationItem :=
  let boundary := rposition (fun item => is_real_user_turn item || is_agent_message item) conversation in
  let start :=
    match boundary with
    | None => 0
    | Some idx => if from_option is_agent_message false (conversation !! idx) then idx else S idx
    end in
  omap anchored_item (drop start conversation).

(** ** What a compaction carries over *)

(** Source: crates/codegen/xai-chat-state/src/compaction_utils.rs:504-514, [RunningSubagentSummary]. *)
Record RunningSubagentSummary := mkRunningSubagentSummary {
  rs_subagent_id : str; rs_subagent_type : str; rs_description : str; rs_elapsed_ms : N;
}.

(** Source: crates/codegen/xai-chat-state/src/compaction_utils.rs:516-524, [BackgroundTaskSummary]. *)
Record BackgroundTaskSummary := mkBackgroundTaskSummary {
  bt_task_id : str; bt_command : str; bt_status : str; bt_tool_name : option str;
}.

(** Source: crates/codegen/xai-chat-state/src/compaction_utils.rs:526-534, [ScheduledLoopSummary]. *)
Record ScheduledLoopSummary := mkScheduledLoopSummary {
  sl_task_id : str; sl_interval : str; sl_next_fire_at : str; sl_prompt : str; sl_recurring : bool; sl_durable : bool;
}.

(** Source: crates/codegen/xai-chat-state/src/compaction_utils.rs:536-546, [WorkflowRunSummary]. *)
Record WorkflowRunSummary := mkWorkflowRunSummary {
  wr_name : str; wr_run_id : str; wr_status : str; wr_objective : str; wr_current_phase : option str;
  wr_agents_used : N; wr_agent_budget : option N; wr_elapsed_ms : N;
}.

(** Source: crates/codegen/xai-chat-state/src/compaction_utils.rs:548-553, [CompactionServerSummary]. *)
Record CompactionServerSummary := mkCompactionServerSummary {
  cs_name : str; cs_tool_count : nat; cs_description : option str;
}.

(** Source: crates/codegen/xai-chat-state/src/compaction_utils.rs:556-562, [TodoSummaryStatus]. *)
Inductive TodoSummaryStatus := TsPending | TsInProgress | TsCompleted | TsCancelled.

(** Source: crates/codegen/xai-chat-state/src/compaction_utils.rs:564-566, [TodoSummaryStatus::is_actionable]. *)
Definition todo_is_actionable (s : TodoSummaryStatus) : bool :=
  match s with TsPending | TsInProgress => true | TsCompleted | TsCancelled => false end.

(** Source: crates/codegen/xai-chat-state/src/compaction_utils.rs:568-575, [TodoSummaryStatus::tag]. *)
Definition todo_summary_tag (s : TodoSummaryStatus) : str :=
  match s with
  | TsPending => lit "[pending]"
  | TsInProgress => lit "[in_progress]"
  | TsCompleted => lit "[completed]"
  | TsCancelled => lit "[cancelled]"
  end.

(** Source: crates/codegen/xai-chat-state/src/compaction_utils.rs:579-584, [TodoSummary]. *)
Record TodoSummary := mkTodoSummary { td_id : str; td_content : str; td_status : TodoSummaryStatus }.

(** Source: crates/codegen/xai-chat-state/src/compaction_utils.rs:587-617, [CompactionStateContext]. *)
Record CompactionStateContext := mkContext {
  cwd_generation : N;
  destination_project_instructions : option str;
  agent_message_anchor : option AgentMessageAnchor;
  ctx_recent_messages : list ConversationItem;
  ctx_last_user_query : option str;
  ctx_agent_edited_paths : list str;
  running_tasks : list BackgroundTaskSummary;
  running_subagents : list RunningSubagentSummary;
  connected_mcp_servers : list CompactionServerSummary;
  todos : list TodoSummary;
  scheduled_loops : list ScheduledLoopSummary;
  workflows : list WorkflowRunSummary;
  workflow_tool_name : option str;
}.

(** [in_agent_edited_paths] is the sorted set, in order.

    Source: crates/codegen/xai-chat-state/src/compaction_utils.rs:620-634, [CompactionInputs]. *)
Record CompactionInputs := mkInputs {
  in_cwd_generation : N;
  in_destination_project_instructions : option str;
  in_running_tasks : list BackgroundTaskSummary;
  in_running_subagents : list RunningSubagentSummary;
  in_agent_edited_paths : list str;
  in_connected_mcp_servers : list CompactionServerSummary;
  in_todos : list TodoSummary;
  in_scheduled_loops : list ScheduledLoopSummary;
  in_workflows : list WorkflowRunSummary;
  in_workflow_tool_name : option str;
  goal_objective : option str;
}.

(** Source: crates/codegen/xai-chat-state/src/compaction_utils.rs:638-657, [CompactionStateContext::build]. *)
Definition context_build (conversation : list ConversationItem) (inputs : CompactionInputs) : CompactionStateContext := {|
  cwd_generation := in_cwd_generation inputs;
  destination_project_instructions := in_destination_project_instructions inputs;
  agent_message_anchor := extract_latest_agent_message conversation;
  ctx_recent_messages := extract_messages_since_last_compaction_anchor conversation;
  ctx_last_user_query :=
    match goal_objective inputs with
    | Some objective => if is_empty (trim objective) then extract_last_real_user_query conversation else Some objective
    | None => extract_last_real_user_query conversation
    end;
  ctx_agent_edited_paths := in_agent_edited_paths inputs;
  running_tasks := in_running_tasks inputs;
  running_subagents := in_running_subagents inputs;
  connected_mcp_servers := in_connected_mcp_servers inputs;
  todos := in_todos inputs;
  scheduled_loops := in_scheduled_loops inputs;
  workflows := in_workflows inputs;
  workflow_tool_name := in_workflow_tool_name inputs;
|}.

(** Source: crates/codegen/xai-chat-state/src/compaction_utils.rs:675-694, [CompactionStateContext::for_compaction]. *)
Definition for_compaction (c : CompactionStateContext) : CompactionStateContext := {|
  cwd_generation := cwd_generation c;
  destination_project_instructions := destination_project_instructions c;
  agent_message_anchor :=
    match agent_message_anchor c with
    | Some anchor => Some anchor
    | None => extract_latest_agent_message (ctx_recent_messages c)
    end;
  ctx_recent_messages := [];
  ctx_last_user_query := ctx_last_user_query c;
  ctx_agent_edited_paths := ctx_agent_edited_paths c;
  running_tasks := running_tasks c;
  running_subagents := running_subagents c;
  connected_mcp_servers := connected_mcp_servers c;
  todos := todos c;
  scheduled_loops := scheduled_loops c;
  workflows := workflows c;
  workflow_tool_name := workflow_tool_name c;
|}.

(** ** Cleaning a summary

    The file keeps its own copy of the cleaning of [code_compaction/summary.rs]
    (modelled in [Summary]), written with checked slices. The tags the positions
    come from are ASCII, so a slice between them is at character boundaries. *)

Definition get_range (s : str) (a b : nat) : option str :=
  if Nat.leb a b && Nat.leb b (length s) then Some (take (b - a) (drop a s)) else None.
Definition get_from (s : str) (a : nat) : option str :=
  if Nat.leb a (length s) then Some (drop a s) else None.
Definition get_to (s : str) (b : nat) : option str :=
  if Nat.leb b (length s) then Some (take b s) else None.

Definition chat_is_leading (result : str) (start : nat) : bool :=
  match find summary_open result with
  | Some sp =>
      Nat.ltb start sp
      || from_option (fun s => is_empty (trim s)) false (get_range result (sp + length summary_open) start)
  | None => from_option (fun s => is_empty (trim s)) false (get_to result start)
  end.

(** One iteration of the first loop, as [peel_step]. *)
Definition chat_peel_step (result : str) : option (str * bool) :=
  match find analysis_open result with
  | None => None
  | Some start =>
      if negb (chat_is_leading result start) then None
      else
        match get_from result start ≫= find analysis_close with
        | Some rel =>
            let e := start + rel + length analysis_close in
            Some (default [] (get_to result start) ++ default [] (get_from result e), true)
        | None =>
            let drop_to :=
              match get_from result start ≫= find summary_open with
              | Some rel => start + rel
              | None => length result
              end in
            Some (default [] (get_to result start) ++ default [] (get_from result drop_to), false)
        end
  end.

Fixpoint chat_peel (fuel : nat) (result : str) : str :=
  match fuel with
  | 0 => result
  | S fuel' =>
      match chat_peel_step result with
      | None => result
      | Some (result', true) => chat_peel fuel' result'
      | Some (result', false) => result'
      end
  end.

(** Source: crates/codegen/xai-chat-state/src/compaction_utils.rs:766-781, [strip_leading_scratchpad]. *)
Definition chat_strip_leading_scratchpad (inner : str) : str :=
  let s := trim inner in
  let lead := trim_start_matches (lit "#*-> " ++ [byte 9]) s in
  let digit := match lead with c :: _ => is_ascii_digit c | [] => false end in
  let s :=
    if negb digit then
      match rfind analysis_close s with
      | Some pos => trim_start (default [] (get_from s (pos + length analysis_close)))
      | None => s
      end
    else s in
  match strip_prefix summary_open s with
  | Some rest => trim_start rest
  | None => s
  end.

Definition chat_unwrap (result : str) : str :=
  match find summary_open result, rfind summary_close result with
  | Some start, Some e =>
      if Nat.ltb start e then
        let before := default [] (get_to result start) in
        let after := default [] (get_from result (e + length summary_close)) in
        let inner :=
          chat_strip_leading_scratchpad
            (trim (default [] (get_range result (start + length summary_open) e))) in
        before ++ lit "Summary:" ++ nl ++ inner ++ after
      else result
  | _, _ => result
  end.

(** Source: crates/codegen/xai-chat-state/src/compaction_utils.rs:785-792, [neutralize_compaction_control_tokens]. *)
Definition chat_neutralize (text : str) : str :=
  foldl (fun text token => replace token (defused token) text) text
    [summary_close; summary_open; analysis_close; analysis_open; request_close; request_open].

(** Source: crates/codegen/xai-chat-state/src/compaction_utils.rs:699-762, [format_compact_summary]. *)
Definition chat_format_compact_summary (summary : str) : str :=
  let result := chat_peel (S (length summary)) summary in
  let result := chat_unwrap result in
  let result := chat_neutralize result in
  let result := collapse_newlines (S (length result)) result in
  trim result.

(** Source: crates/codegen/xai-chat-state/src/compaction_utils.rs:796-802, [format_compact_summary_content]. *)
Definition chat_format_compact_summary_content (raw_summary : str) : str :=
  let cleaned := chat_format_compact_summary raw_summary in
  continuation_preamble ++ nl ++ nl ++ cleaned.

(** Source: crates/codegen/xai-chat-state/src/compaction_utils.rs:809-811, [is_degenerate_summary]. *)
Definition chat_is_degenerate_summary (raw_summary : str) : bool :=
  Nat.ltb (chars_count (chat_format_compact_summary raw_summary)) MIN_SUMMARY_SEED_CHARS.

(** Source: crates/codegen/xai-chat-state/src/compaction_utils.rs:817-828, [bound_captured_output]. *)
Definition bound_captured_output (s : str) (max_chars : nat) : str :=
  let total := chars_count s in
  if Nat.leb total max_chars then s
  else
    let head := max_chars / 2 in
    let tail := max_chars - head in
    let head_str := concat (take head (chars s)) in
    let tail_str := concat (drop (total - tail) (chars s)) in
    let elided := total - head - tail in
    head_str ++ nl ++ nl ++ lit "…[" ++ show_nat elided ++ lit " chars elided]…" ++ nl ++ nl ++ tail_str.

(** Source: crates/codegen/xai-chat-state/src/compaction_utils.rs:850-859, [format_transcript_location]. *)
Definition format_transcript_location (path : str) : str :=
  nl ++ nl ++ lit "<transcript_location>" ++ nl
  ++ lit "The full, unsummarized transcript of this conversation is saved at:" ++ nl ++ path ++ nl
  ++ lit "If you need details that were dropped from the summary above (exact code, "
  ++ lit "error text, file contents, or earlier tool output), read this file to "
  ++ lit "recover them." ++ nl
  ++ lit "</transcript_location>".

(** ** The history that replaces the conversation *)

(** Source: crates/codegen/xai-chat-state/src/compaction_utils.rs:862-865, [wrap_user_query]. *)
Definition chat_wrap_user_query (text : str) : str :=
  lit "<user_query>" ++ nl ++ text ++ nl ++ lit "</user_query>".

(** Source: crates/codegen/xai-chat-state/src/compaction_utils.rs:868-895, [CompactedHistoryInput]. *)
Record CompactedHistoryInput := mkHistoryInput {
  hi_system_message : ConversationItem;
  hi_user_message_prefix : str;
  hi_agents_md_reminder : option str;
  hi_state_context : CompactionStateContext;
  hi_compaction_summary : str;
  hi_system_reminder : option str;
  hi_summary_before_recent : bool;
  hi_transcript_hint : option str;
  hi_summary_count : N;
}.

(** Source: crates/codegen/xai-chat-state/src/compaction_utils.rs:897-899, [summary_before_recent_carrier]. *)
Definition summary_before_recent_carrier (_ : CompactedHistoryInput) : option str := None.

Definition is_before_human (a : AgentMessageAnchor) : bool :=
  match anchor_position a with BeforeHuman => true | _ => false end.

(** Source: crates/codegen/xai-chat-state/src/compaction_utils.rs:903-970, [build_compacted_history]. *)
Definition build_compacted_history (input : CompactedHistoryInput) : list ConversationItem :=
  let ctx := hi_state_context input in
  let carrier := summary_before_recent_carrier input in
  let summary_first := match carrier with Some _ => true | None => false end in
  let summary_item :=
    match carrier with
    | Some text => item_user_meta text
    | None =>
        item_user_meta (chat_format_compact_summary_content (hi_compaction_summary input)
                        ++ default [] (hi_transcript_hint input))
    end in
  let compacted := [hi_system_message input; item_user_meta (hi_user_message_prefix input)] in
  let project_instructions :=
    if N.eqb (cwd_generation ctx) 0 then hi_agents_md_reminder input
    else destination_project_instructions ctx in
  let compacted := push_some project_instructions item_project_instructions compacted in
  let anchor :=
    if existsb is_agent_message (ctx_recent_messages ctx) then None else agent_message_anchor ctx in
  let anchor_when b := a ← anchor; if Bool.eqb (is_before_human a) b then Some a else None in
  let compacted := push_some (anchor_when true) anchor_item compacted in
  let compacted := push_some (ctx_last_user_query ctx) (fun q => item_user (chat_wrap_user_query q)) compacted in
  let compacted := push_some (anchor_when false) anchor_item compacted in
  let compacted :=
    if summary_first then compacted ++ [summary_item] ++ ctx_recent_messages ctx
    else compacted ++ ctx_recent_messages ctx ++ [summary_item] in
  push_some (hi_system_reminder input) item_system_reminder compacted.

(** ** Lemmas: the cleaning is the shared one *)

Lemma get_to_find p s i : find p s = Some i -> get_to s i = Some (take i s).
Proof.
  intros Hf. unfold get_to. enough (i ≤ length s) by (by rewrite (proj2 (Nat.leb_le _ _))).
  revert i Hf. induction s as [|c s IH]; intros i; cbn [find].
  - destruct (starts_with p []); [intros [= <-]; simpl; lia|done].
  - destruct (starts_with p (c :: s)); [intros [= <-]; simpl; lia|].
    destruct (find p s) as [j|]; [|done]. intros [= <-]. simpl. specialize (IH j eq_refl). lia.
Qed.

Lemma get_from_le s a : a ≤ length s -> get_from s a = Some (drop a s).
Proof. intros. unfold get_from. by rewrite (proj2 (Nat.leb_le _ _)). Qed.

Lemma find_le p s i : p ≠ [] -> find p s = Some i -> i + length p ≤ length s.
Proof. apply find_lt. Qed.

Lemma lookup_find p s i k : find p s = Some i -> k < length p -> s !! (i + k) = p !! k.
Proof.
  intros Hf Hk. destruct (decide (p = [])) as [->|Hp]; [simpl in Hk; lia|].
  pose proof (find_le _ _ _ Hp Hf). rewrite (find_split _ _ _ Hf) at 1.
  rewrite lookup_app_r, length_take by (rewrite length_take; lia).
  replace (i + k - Nat.min i (length s)) with k by lia. by apply lookup_app_l.
Qed.

(** Two different tags do not overlap: the opening bracket is the first byte
    only, and the second bytes differ. *)
Lemma summary_before_analysis s sp start :
  find summary_open s = Some sp -> find analysis_open s = Some start -> sp ≤ start ->
  sp + length summary_open ≤ start.
Proof.
  intros Hs Ha Hle. destruct (decide (sp + length summary_open ≤ start)) as [|Hlt]; [done|exfalso].
  assert (Hk : start - sp < 9) by (simpl in Hlt; lia).
  pose proof (lookup_find _ _ _ 0 Ha ltac:(simpl; lia)) as H0.
  pose proof (lookup_find _ _ _ 1 Ha ltac:(simpl; lia)) as H1.
  pose proof (lookup_find _ _ _ (start - sp) Hs ltac:(simpl; lia)) as Hd.
  replace (sp + (start - sp)) with (start + 0) in Hd by lia. rewrite H0 in Hd.
  destruct (start - sp) as [|k] eqn:Ek.
  - assert (start = sp) by lia. subst start.
    pose proof (lookup_find _ _ _ 1 Hs ltac:(simpl; lia)) as Hd1. rewrite H1 in Hd1. discriminate Hd1.
  - do 8 (destruct k as [|k]; [discriminate Hd|]). lia.
Qed.

Lemma chat_is_leading_eq s start :
  find analysis_open s = Some start -> chat_is_leading s start = is_leading_analysis s start.
Proof.
  intros Ha. unfold chat_is_leading, is_leading_analysis.
  destruct (find summary_open s) as [sp|] eqn:Hs; [|by rewrite (get_to_find _ _ _ Ha)].
  destruct (Nat.ltb_spec start sp) as [|Hle]; [done|].
  pose proof (summary_before_analysis _ _ _ Hs Ha Hle) as Hd.
  pose proof (find_le analysis_open _ _ ltac:(done) Ha). rewrite !orb_false_l. unfold get_range.
  rewrite (proj2 (Nat.leb_le _ _) Hd), (proj2 (Nat.leb_le start (length s))) by lia. done.
Qed.

Lemma chat_peel_step_eq s : chat_peel_step s = peel_step s.
Proof.
  unfold chat_peel_step, peel_step. destruct (find analysis_open s) as [start|] eqn:Ha; [|done].
  rewrite (chat_is_leading_eq _ _ Ha). destruct (negb _); [done|].
  pose proof (find_le analysis_open _ _ ltac:(done) Ha). rewrite (get_to_find _ _ _ Ha).
  rewrite (get_from_le s start) by lia. cbn [default from_option].
  change (Some (drop start s) ≫= find analysis_close) with (find analysis_close (drop start s)).
  change (Some (drop start s) ≫= find summary_open) with (find summary_open (drop start s)).
  destruct (find analysis_close (drop start s)) as [rel|] eqn:Hc.
  - pose proof (find_le analysis_close _ _ ltac:(done) Hc) as Hle. rewrite length_drop in Hle.
    by rewrite get_from_le by lia.
  - destruct (find summary_open (drop start s)) as [rel|] eqn:Hs.
    + pose proof (find_le summary_open _ _ ltac:(done) Hs) as Hle. rewrite length_drop in Hle.
      by rewrite get_from_le by lia.
    + by rewrite get_from_le by lia.
Qed.

Lemma chat_peel_eq fuel s : chat_peel fuel s = peel_analysis fuel s.
Proof.
  revert s. induction fuel as [|fuel IH]; intros s; simpl; [done|].
  rewrite chat_peel_step_eq. by destruct (peel_step s) as [[s' []]|].
Qed.

Lemma rfind_split p s i : rfind p s = Some i -> i + length p ≤ length s ∧ starts_with p (drop i s) = true.
Proof.
  revert i. induction s as [|c s IH]; intros i; cbn [rfind].
  - destruct p; simpl; [intros [= <-]; auto|done].
  - destruct (rfind p s) as [j|] eqn:E.
    + intros [= <-]. destruct (IH j eq_refl) as [IH1 IH2]. simpl. split; [lia|done].
    + destruct (starts_with p (c :: s)) eqn:Es; [|done]. intros [= <-].
      apply starts_with_spec in Es as [r Hr]. split; [|apply starts_with_spec; eauto].
      rewrite Hr, length_app. lia.
Qed.

Lemma chat_scratchpad_eq s : chat_strip_leading_scratchpad s = strip_leading_scratchpad s.
Proof.
  unfold chat_strip_leading_scratchpad, strip_leading_scratchpad.
  destruct (rfind analysis_close (trim s)) as [pos|] eqn:E; [|done].
  apply rfind_split in E as [Hle _]. by rewrite get_from_le by done.
Qed.

Lemma lookup_rfind p s i k : rfind p s = Some i -> k < length p -> s !! (i + k) = p !! k.
Proof.
  intros [Hle Hs]%rfind_split Hk. apply starts_with_spec in Hs as [r Hr].
  rewrite <- lookup_drop, Hr. by apply lookup_app_l.
Qed.

Lemma summary_close_after s start e :
  find summary_open s = Some start -> rfind summary_close s = Some e -> start < e ->
  start + length summary_open ≤ e.
Proof.
  intros Hs He Hlt. destruct (decide (start + length summary_open ≤ e)) as [|Hn]; [done|exfalso].
  pose proof (lookup_rfind _ _ _ 0 He ltac:(simpl; lia)) as H0.
  pose proof (lookup_find _ _ _ (e - start) Hs ltac:(simpl in *; lia)) as Hd.
  replace (start + (e - start)) with (e + 0) in Hd by lia. rewrite H0 in Hd.
  destruct (e - start) as [|k] eqn:Ek; [lia|]. assert (k < 8) by (simpl in Hn; lia).
  do 8 (destruct k as [|k]; [discriminate Hd|]). lia.
Qed.

Lemma chat_unwrap_eq s : chat_unwrap s = unwrap_summary s.
Proof.
  unfold chat_unwrap, unwrap_summary. destruct (find summary_open s) as [start|] eqn:Hs; [|done].
  destruct (rfind summary_close s) as [e|] eqn:He; [|done].
  destruct (Nat.ltb_spec start e) as [Hlt|]; [|done].
  pose proof (summary_close_after _ _ _ Hs He Hlt) as Hle. apply rfind_split in He as [Hel _].
  rewrite (get_to_find _ _ _ Hs), get_from_le by done. unfold get_range.
  rewrite (proj2 (Nat.leb_le _ _) Hle), (proj2 (Nat.leb_le e (length s))) by lia.
  cbv beta zeta. by rewrite chat_scratchpad_eq.
Qed.

Lemma chat_format_eq s : chat_format_compact_summary s = format_compact_summary s.
Proof.
  unfold chat_format_compact_summary, format_compact_summary.
  by rewrite chat_peel_eq, chat_unwrap_eq.
Qed.

(** ** Lemmas: positions *)

Lemma find_filter {A} (f : A -> bool) l : List.find f l = head (List.filter f l).
Proof. induction l as [|x l IH]; [done|]. simpl. by destruct (f x). Qed.

Lemma rposition_None {A} (f : A -> bool) l : rposition f l = None -> Forall (fun y => f y = false) l.
Proof.
  induction l as [|z l IHl]; [constructor|]. cbn [rposition].
  destruct (rposition f l); [done|]. destruct (f z) eqn:Ez; [done|]. constructor; auto.
Qed.

Lemma rposition_Some {A} (f : A -> bool) l i :
  rposition f l = Some i -> ∃ x, l !! i = Some x ∧ f x = true ∧ Forall (fun y => f y = false) (drop (S i) l).
Proof.
  revert i. induction l as [|y l IH]; intros i; [done|]. cbn [rposition].
  destruct (rposition f l) as [j|] eqn:E.
  - intros [= <-]. destruct (IH j eq_refl) as (x & Hx & Hf & Hr). by exists x.
  - destruct (f y) eqn:Ef; [|done]. intros [= <-]. exists y. split_and!; [done|done|].
    simpl. by apply rposition_None.
Qed.

(** ** Lemmas: queries *)

(** A query that the wrapping of a compaction does not disturb: trimmed, not one
    of the synthetic prompts, without the tags the extraction looks for. *)
Definition plain_query (q : str) : Prop :=
  trim q = q ∧ q ≠ [] ∧ head_is_continuation q = false
  ∧ (∀ t, t ∈ SYSTEM_TAGS -> ¬ occurs (tag_open t) q)
  ∧ ¬ occurs query_close q ∧ is_synthetic_extracted_query q = false.

Lemma strip_tag_none fuel open close s : ¬ occurs open s -> strip_tag fuel open close s = s.
Proof. intros Hn. destruct fuel; simpl; [done|]. by rewrite not_occurs_find. Qed.

Lemma strip_system_tags_plain s :
  (∀ t, t ∈ SYSTEM_TAGS -> ¬ occurs (tag_open t) s) -> strip_system_tags s = trim s.
Proof.
  unfold strip_system_tags. intros Hs. f_equal. revert Hs. generalize SYSTEM_TAGS.
  intros tags. induction tags as [|t tags IH]; intros Hs; [done|]. cbn [foldl].
  rewrite strip_tag_none by (apply Hs; left). apply IH. intros t' Ht'. apply Hs. by right.
Qed.

(** The tags the wrapping itself could hide: none. *)
Definition tag_apart (t : str) : bool :=
  negb (contains (tag_open t) query_open) && negb (contains (tag_open t) query_close)
  && negb (existsb (ch_eqb (byte 10)) (tag_open t)).

Lemma system_tags_apart t :
  t ∈ SYSTEM_TAGS ->
  ¬ occurs (tag_open t) query_open ∧ ¬ occurs (tag_open t) query_close ∧ byte 10 ∉ tag_open t.
Proof.
  assert (Hall : forallb tag_apart SYSTEM_TAGS = true) by (vm_compute; reflexivity).
  intros Ht%list_elem_of_In. rewrite forallb_forall in Hall. specialize (Hall t Ht).
  unfold tag_apart in Hall. nbool. rewrite <- !contains_false. split_and!; [done|done|].
  intros Hin%list_elem_of_In. apply not_true_iff_false in H0. apply H0, existsb_exists.
  exists (byte 10). by rewrite ch_eqb_refl.
Qed.

Lemma occurs_across_newline c t a b :
  byte 10 ∉ (c :: t) -> occurs (c :: t) (a ++ byte 10 :: b) -> occurs (c :: t) a ∨ occurs (c :: t) b.
Proof.
  intros Hn [Ho|Ho]%occurs_app_head; [by left| |by set_solver].
  apply occurs_cons in Ho as [Ho|Ho]; [|by right].
  cbn [starts_with] in Ho. apply andb_true_iff in Ho as [Hc%ch_eqb_eq _]. set_solver.
Qed.

Lemma extract_wrapped_query q : plain_query q -> extract_user_query (chat_wrap_user_query q) = q.
Proof.
  intros (Htrim & Hne & Hhead & Htags & Hclose & _). unfold extract_user_query.
  set (w := chat_wrap_user_query q).
  assert (Hw : w = query_open ++ byte 10 :: q ++ byte 10 :: query_close) by done.
  assert (Hs : strip_system_tags w = w).
  { rewrite strip_system_tags_plain.
    - rewrite Hw. apply trim_fixed.
      change (query_open ++ byte 10 :: q ++ byte 10 :: query_close)
        with (query_open ++ nl ++ q ++ (nl ++ query_close)).
      rewrite chars_app by done. rewrite chars_app by (by destruct q). rewrite chars_app by done.
      split; [done|]. rewrite !rev_app_distr. done.
    - intros t Ht. destruct (system_tags_apart t Ht) as (Ho & Hc & Hnl). rewrite Hw.
      unfold tag_open in *. change (lit "<") with [byte 60] in *. cbn [app] in *.
      intros [?|[Hq|?]%occurs_across_newline]%occurs_across_newline; [done| |done..].
      by apply (Htags t Ht). }
  rewrite Hs. assert (Hfind : find query_open w = Some 0).
  { rewrite Hw. unfold find. destruct (query_open ++ _) eqn:E; [done|].
    rewrite <- E. by rewrite starts_with_app. }
  rewrite Hfind. cbn [Nat.add].
  assert (Hd : drop (length query_open) w = (byte 10 :: q ++ [byte 10]) ++ query_close).
  { rewrite Hw, drop_app_length. cbn [app]. by rewrite <- app_assoc. }
  rewrite Hd. assert (Hf : find query_close ((byte 10 :: q ++ [byte 10]) ++ query_close)
                           = Some (length (byte 10 :: q ++ [byte 10]))).
  { rewrite <- (app_nil_r query_close) at 2. change query_close with (byte 60 :: lit "/user_query>").
    apply find_tag_after; [by_decide|].
    assert (Hnil : ¬ occurs (byte 60 :: lit "/user_query>") []) by (apply contains_false; reflexivity).
    change (byte 10 :: q ++ [byte 10]) with ([] ++ byte 10 :: q ++ [byte 10]). intros Ho.
    apply occurs_across_newline in Ho as [Ho|Ho]; [done| |by_decide].
    by apply occurs_across_newline in Ho as [Ho|Ho]; [done|done|by_decide]. }
  rewrite Hf, take_app_length. apply (trim_strip nl q nl); done.
Qed.

(** What a compaction carries over holds no turn of the user. *)
Definition no_real_turn (l : list ConversationItem) : Prop :=
  Forall (fun item => is_real_user_turn item = false) l.

Lemma agent_message_not_real item : is_agent_message item = true -> is_real_user_turn item = false.
Proof.
  destruct item as [|u| | | |]; try done. cbn. intros Hr%bool_decide_eq_true.
  unfold is_human. by rewrite Hr.
Qed.

Lemma no_real_turn_filter l : no_real_turn l -> List.filter is_real_user_turn l = [].
Proof. induction 1 as [|x l Hx _ IH]; [done|]. cbn [List.filter]. by rewrite Hx. Qed.

Lemma anchored_no_real l : no_real_turn (omap anchored_item l).
Proof.
  apply Forall_forall. intros y (x & _ & Hy)%list_elem_of_omap.
  destruct x as [|u|a|t| |]; simpl in Hy; simplify_eq; try done.
  destruct (bool_decide (u_reason u = AgentMessage)) eqn:E; simplify_eq.
  by apply agent_message_not_real.
Qed.

Lemma latest_agent_message l a : extract_latest_agent_message l = Some a -> is_agent_message (anchor_item a) = true.
Proof.
  unfold extract_latest_agent_message. destruct (rposition is_agent_message l) as [i|] eqn:E; [|done].
  apply rposition_Some in E as (x & Hx & Hf & _). simpl. rewrite Hx. by intros [= <-].
Qed.

(** What the conversation yields for a compaction, and the form of it that
    leaves the working messages out. *)
Definition context_of (conversation : list ConversationItem) (ctx : CompactionStateContext) : Prop :=
  ∃ inputs, ctx = context_build conversation inputs \/ ctx = for_compaction (context_build conversation inputs).

Lemma context_no_real conversation ctx :
  context_of conversation ctx ->
  no_real_turn (ctx_recent_messages ctx)
  ∧ (∀ a, agent_message_anchor ctx = Some a -> is_real_user_turn (anchor_item a) = false).
Proof.
  intros [inputs [-> | ->]]; (split; [try apply anchored_no_real; try by constructor|]); simpl.
  - intros a Ha%latest_agent_message. by apply agent_message_not_real.
  - intros a Ha. apply agent_message_not_real.
    destruct (extract_latest_agent_message conversation) as [a'|] eqn:E; simplify_eq;
      by eapply latest_agent_message.
Qed.

Lemma filter_push_some {A} (x : option A) (f : A -> ConversationItem) l :
  (∀ a, x = Some a -> is_real_user_turn (f a) = false) ->
  List.filter is_real_user_turn (push_some x f l) = List.filter is_real_user_turn l.
Proof.
  destruct x as [a|]; [|done]. intros Hx. simpl. rewrite List.filter_app. cbn [List.filter].
  by rewrite Hx, app_nil_r.
Qed.

Lemma wrapped_query_real q : plain_query q -> is_real_user_turn (item_user (chat_wrap_user_query q)) = true.
Proof.
  intros Hq. pose proof (extract_wrapped_query q Hq) as He.
  destruct Hq as (_ & _ & _ & _ & _ & Hsyn).
  unfold is_real_user_turn. change (text_content (item_user (chat_wrap_user_query q))) with (chat_wrap_user_query q).
  cbn -[is_synthetic_extracted_query extract_user_query chat_wrap_user_query]. by rewrite He, Hsyn.
Qed.

Lemma compacted_real_turns input q :
  no_real_turn (ctx_recent_messages (hi_state_context input)) ->
  (∀ a, agent_message_anchor (hi_state_context input) = Some a -> is_real_user_turn (anchor_item a) = false) ->
  is_real_user_turn (hi_system_message input) = false ->
  ctx_last_user_query (hi_state_context input) = Some q -> plain_query q ->
  List.filter is_real_user_turn (build_compacted_history input) = [item_user (chat_wrap_user_query q)].
Proof.
  intros Hrec Hanchor Hsys Hq Hplain. unfold build_compacted_history. cbn [summary_before_recent_carrier].
  assert (Hwhen : ∀ b a, (a' ← (if existsb is_agent_message (ctx_recent_messages (hi_state_context input)) then None
             else agent_message_anchor (hi_state_context input)); if Bool.eqb (is_before_human a') b then Some a' else None)
           = Some a -> is_real_user_turn (anchor_item a) = false).
  { intros b a. destruct (existsb _ _); [done|].
    destruct (agent_message_anchor _) as [a'|]; [|done]. simpl.
    destruct (Bool.eqb _ b); [|done]. intros [= <-]. by apply Hanchor. }
  rewrite filter_push_some by (intros; done). rewrite !List.filter_app, (no_real_turn_filter _ Hrec).
  rewrite filter_push_some by apply Hwhen. rewrite Hq. cbn [push_some]. rewrite List.filter_app.
  rewrite filter_push_some by apply Hwhen. rewrite filter_push_some by (intros; done).
  cbn [List.filter app]. rewrite Hsys, (wrapped_query_real q Hplain). done.
Qed.

(** ** Lemmas: fitting a history to a budget *)

Definition cost (l : list ConversationItem) : N := nsum (map estimate_item_tokens l).

Lemma cost_app l1 l2 : cost (l1 ++ l2) = (cost l1 + cost l2)%N.
Proof. unfold cost. by rewrite map_app, nsum_app. Qed.

Lemma cost_drop_anti l m n : m ≤ n -> (cost (drop n l) <= cost (drop m l))%N.
Proof. unfold cost. rewrite <- !skipn_map. apply nsum_drop_anti. Qed.

(** The walk stops at the longest suffix that costs no more than the budget. *)
Lemma budget_start_spec l suffix remaining :
  let start := budget_start (rev l) remaining (length l) in
  start ≤ length l
  ∧ ∀ j, j ≤ length l ->
      (cost (drop j l ++ suffix) <= remaining + cost suffix)%N <-> start ≤ j.
Proof.
  revert suffix remaining. induction l as [|x l IH] using rev_ind; intros suffix remaining.
  - simpl. split; [lia|]. intros j Hj. rewrite drop_nil. simpl. split; lia.
  - rewrite rev_app_distr, length_app. cbn [rev app budget_start length].
    replace (length l + 1) with (S (length l)) by lia. cbn [pred].
    destruct (N.ltb_spec remaining (estimate_item_tokens x)) as [Hlt|Hge].
    + cbv zeta. split; [lia|]. intros j Hj. split; [|intros; replace j with (S (length l)) by lia].
      * intros Hc. destruct (decide (j = S (length l))) as [->|]; [lia|exfalso].
        rewrite drop_app_le, !cost_app in Hc by lia. unfold cost in Hc at 2. simpl in Hc. lia.
      * rewrite drop_ge by (rewrite length_app; simpl; lia). simpl. lia.
    + specialize (IH (x :: suffix) (remaining - estimate_item_tokens x)%N) as [IH1 IH2].
      set (start := budget_start (rev l) (remaining - estimate_item_tokens x) (length l)) in *.
      cbv zeta. split; [lia|]. intros j Hj. destruct (decide (j = S (length l))) as [->|].
      * rewrite drop_ge by (rewrite length_app; simpl; lia). simpl. split; lia.
      * rewrite <- IH2 by lia. rewrite drop_app_le, <- app_assoc by lia. cbn [app].
        assert (cost (x :: suffix) = estimate_item_tokens x + cost suffix)%N as -> by done. lia.
Qed.

Lemma skip_results_spec l n :
  let k := skip_results l n in
  n ≤ k ≤ n + length l
  ∧ from_option is_result_item false (drop (k - n) l !! 0) = false
  ∧ ∀ j, j < k - n -> from_option is_result_item false (drop j l !! 0) = true.
Proof.
  revert n. induction l as [|x l IH]; intros n; cbn [skip_results length].
  - rewrite Nat.sub_diag. split_and!; [lia|lia|done|lia].
  - destruct x; try (rewrite Nat.sub_diag; split_and!; [lia|lia|done|lia]).
    specialize (IH (S n)) as ((H1 & H2) & H3 & H4). cbv zeta in *.
    set (k := skip_results l (S n)) in *. replace (k - n) with (S (k - S n)) by lia.
    split_and!; [lia|lia|done|]. intros [|j] Hj; [done|]. cbn [drop]. apply H4. lia.
Qed.

(** The suffixes the fitting may keep: within the budget, and not opening with a
    result whose call was cut off. *)
Definition keepable (body : list ConversationItem) (budget : N) (j : nat) : Prop :=
  (cost (drop j body) <= budget)%N ∧ from_option is_result_item false (drop j body !! 0) = false.

Definition kept_from (body : list ConversationItem) (budget : N) : nat :=
  let start := budget_start (rev body) budget (length body) in skip_results (drop start body) start.

Lemma kept_from_spec body budget :
  let k := kept_from body budget in
  k ≤ length body ∧ keepable body budget k ∧ ∀ j, j < k -> ¬ keepable body budget j.
Proof.
  unfold kept_from. destruct (budget_start_spec body [] budget) as [H1 H2].
  set (start := budget_start (rev body) budget (length body)) in *.
  destruct (skip_results_spec (drop start body) start) as ((H3 & H4) & H5 & H6). cbv zeta in *.
  set (k := skip_results (drop start body) start) in *. rewrite length_drop in H4.
  assert (Hc : ∀ j, j ≤ length body -> (cost (drop j body) <= budget)%N <-> start ≤ j).
  { intros j Hj. rewrite <- (H2 j Hj), app_nil_r. change (cost []) with 0%N. by rewrite N.add_0_r. }
  split; [lia|split; [split; [apply Hc; lia|]|]].
  - rewrite drop_drop in H5. by replace (start + (k - start)) with k in H5 by lia.
  - intros j Hj [Hcost Hres]. apply Hc in Hcost; [|lia]. specialize (H6 (j - start) ltac:(lia)).
    rewrite drop_drop in H6. replace (start + (j - start)) with j in H6 by lia. congruence.
Qed.

(** ** Theorems *)

(** C22 A compaction keeps the user's last query and no other turn of the user. Suppose that the context carries a
    last query, and a plain one: trimmed and not empty, not one of the synthetic prompts, without the tags the extraction looks for;
    and that the system message is not itself a real turn of the user. Then the history rebuilt from the state
    of a conversation holds one real user turn, whose extracted query is that query; so a second compaction
    without a goal, which extracts it from the rebuilt history, carries the same. *)
Theorem compaction_keeps_last_query conversation input q :
  context_of conversation (hi_state_context input) ->
  is_real_user_turn (hi_system_message input) = false ->
  ctx_last_user_query (hi_state_context input) = Some q -> plain_query q ->
  extract_real_user_queries (build_compacted_history input) = [q]
  ∧ extract_last_real_user_query (build_compacted_history input) = Some q
  ∧ (∀ inputs, goal_objective inputs = None ->
       ctx_last_user_query (context_build (build_compacted_history input) inputs) = Some q).
Proof.
  intros [Hrec Hanchor]%context_no_real Hsys Hq Hplain.
  pose proof (compacted_real_turns _ _ Hrec Hanchor Hsys Hq Hplain) as Hf.
  assert (Hlast : extract_last_real_user_query (build_compacted_history input) = Some q).
  { unfold extract_last_real_user_query. rewrite find_filter, List.filter_rev, Hf. simpl.
    by rewrite extract_wrapped_query. }
  split; [|split; [done|]].
  - unfold extract_real_user_queries. rewrite Hf. simpl. by rewrite extract_wrapped_query.
  - intros inputs Hg. simpl. by rewrite Hg.
Qed.

(** The system message that opens the conversation is kept apart. *)
Definition opening (conversation : list ConversationItem) : list ConversationItem :=
  match conversation with CSystem s :: _ => [CSystem s] | _ => [] end.

(** Fitting a history to the summarizer's window. A history within the budget
    is untouched. Otherwise the system message is kept, and after it the longest
    suffix that fits in what is left of the budget and does not open with an
    orphaned result; only when that suffix is empty the last call and its results
    are recovered with their texts truncated. *)
Theorem fit_conversation_to_budget_spec conversation max_tokens :
  (cost conversation <= u64_max)%N ->
  let out := fit_conversation_to_budget conversation max_tokens in
  let head := opening conversation in
  let body := drop (length head) conversation in
  let budget := (max_tokens - cost head)%N in
  ((cost conversation <= max_tokens)%N -> out = conversation)
  ∧ ((max_tokens < cost conversation)%N ->
      ∃ k, k ≤ length body ∧ keepable body budget k ∧ (∀ j, j < k -> ¬ keepable body budget j)
        ∧ (k < length body -> out = head ++ drop k body
             ∧ ((cost head <= max_tokens)%N -> (cost out <= max_tokens)%N))
        ∧ (k = length body -> out = head ++ recover_truncated_tail_unit body budget)).
Proof.
  intros Hsmall. cbv zeta. unfold fit_conversation_to_budget.
  fold (cost conversation). rewrite wrap64_small by done. split.
  - intros Hle. by rewrite (proj2 (N.leb_le _ _)).
  - intros Hlt. rewrite (proj2 (N.leb_gt _ _)) by done.
    assert (Hsplit : match conversation with CSystem s :: rest => ([CSystem s], rest) | _ => ([], conversation) end
      = (opening conversation, drop (length (opening conversation)) conversation)).
    { by destruct conversation as [|[]]. }
    rewrite Hsplit. set (head := opening conversation). set (body := drop (length head) conversation).
    cbv zeta. fold (cost head). set (budget := (max_tokens - cost head)%N). fold (kept_from body budget).
    destruct (kept_from_spec body budget) as (H1 & H2 & H3). exists (kept_from body budget).
    split_and!; try done; try apply H2.
    + intros Hk. rewrite (proj2 (Nat.ltb_lt _ _)) by done. split; [done|].
      intros Hh. rewrite cost_app. destruct H2 as [H2 _]. subst budget. lia.
    + intros ->. by rewrite Nat.ltb_irrefl.
Qed.

(** What a summarization request holds: messages only. *)
Definition message_only (item : ConversationItem) : bool :=
  match item with
  | CSystem _ => true
  | CUser u => negb (existsb is_image (u_content u))
  | CAssistant a => is_empty (a_tool_calls a)
  | _ => false
  end.

Definition is_message (item : ConversationItem) : bool :=
  match item with CSystem _ | CUser _ | CAssistant _ => true | _ => false end.

(** How a message appears in the request: the same system message, the same user
    turn with its texts, the same assistant text with its calls named after it. *)
Definition prepared (before after : ConversationItem) : Prop :=
  match before, after with
  | CSystem s, CSystem s' => s' = s
  | CUser u, CUser u' =>
      u_reason u' = u_reason u ∧ length (u_content u') = length (u_content u)
      ∧ (existsb is_image (u_content u) = false -> u' = u)
  | CAssistant a, CAssistant a' =>
      (∃ note, a_content a' = a_content a ++ note) ∧ a_tool_calls a' = []
      ∧ (a_tool_calls a = [] -> a' = a)
  | _, _ => False
  end.

Lemma replace_images_none parts :
  existsb is_image parts = false ->
  map image_as_text parts = parts.
Proof.
  induction parts as [|p parts IH]; [done|]. cbn [existsb map]. intros [Hp Hps]%orb_false_iff.
  rewrite IH by done. unfold image_as_text. by rewrite Hp.
Qed.

Lemma replace_images_clean parts :
  existsb is_image (map image_as_text parts) = false.
Proof. induction parts as [|p parts IH]; [done|]. cbn [existsb map]. rewrite IH. by destruct p. Qed.

(** The three passes on one item. *)
Definition prepare_item (item : ConversationItem) : option ConversationItem :=
  match item with
  | CSystem s => Some item
  | CUser u => Some (CUser (with_u_content u (map image_as_text (u_content u))))
  | CAssistant _ => strip_tool_message item
  | _ => None
  end.

Lemma prepare_omap l : prepare_conversation_for_summarization l = omap prepare_item l.
Proof.
  unfold prepare_conversation_for_summarization. induction l as [|x l IH]; [done|].
  unfold strip_tool_messages_for_conversation_item in *. cbn [omap list_omap].
  rewrite <- IH. destruct x as [| |a| | |]; try done. cbn [prepare_item strip_tool_message].
  by destruct (is_empty (a_tool_calls a)).
Qed.

Lemma prepare_item_Some x y :
  prepare_item x = Some y ->
  is_message x = true ∧ prepared x y ∧ message_only y = true ∧ prepare_item y = Some y.
Proof.
  destruct x as [s|u|a| | |]; cbn [prepare_item]; intros Hy; simplify_eq.
  - done.
  - split; [done|]. simpl. rewrite length_map, replace_images_clean. split; [|split; [done|]].
    + split; [done|split; [done|]]. intros Hi. rewrite replace_images_none by done. by destruct u.
    + by rewrite (replace_images_none (map image_as_text (u_content u))) by apply replace_images_clean.
  - split; [done|]. cbn [strip_tool_message] in Hy. destruct (a_tool_calls a) as [|c cs] eqn:Ec; cbn [is_empty] in Hy.
    + injection Hy as <-. cbn [prepared message_only prepare_item strip_tool_message]. rewrite Ec.
      split; [|done]. split; [exists []; by rewrite app_nil_r|done].
    + injection Hy as <-. cbn [prepared message_only prepare_item strip_tool_message with_a a_tool_calls is_empty].
      split; [|done]. split; [|by rewrite Ec].
      destruct (a_content a); cbn [is_empty with_a a_content]; eexists; reflexivity.
Qed.

Lemma prepare_item_None x : prepare_item x = None -> is_message x = false.
Proof.
  destruct x as [| |a| | |]; try done. cbn [prepare_item strip_tool_message].
  by destruct (is_empty (a_tool_calls a)).
Qed.

(** Preparing a history for the summarizer. Every message survives in order,
    the system messages and the user turns with their texts, the assistants with
    their texts followed by the names of the tools they called; tool results,
    backend calls, reasoning, calls and images are gone, and preparing again
    changes nothing. *)
Theorem prepare_for_summarization_spec conversation :
  let out := prepare_conversation_for_summarization conversation in
  Forall2 prepared (List.filter is_message conversation) out
  ∧ Forall (fun item => message_only item = true) out
  ∧ prepare_conversation_for_summarization out = out.
Proof.
  cbv zeta. rewrite !prepare_omap. induction conversation as [|x l (IH1 & IH2 & IH3)]; [done|].
  cbn [omap list_omap List.filter]. destruct (prepare_item x) as [y|] eqn:E.
  - apply prepare_item_Some in E as (-> & Hp & Hm & Hy). split; [by constructor|]. split; [by constructor|].
    cbn [omap list_omap]. by rewrite Hy, IH3.
  - by rewrite (prepare_item_None x E).
Qed.

(** The two copies of the summary cleaning agree. The agent's own copy, whose
    slices are checked and fall back to the empty text, cleans every summary as
    the shared crate does, and so judges the same summaries degenerate. *)
Theorem format_compact_summary_copies_agree raw :
  chat_format_compact_summary raw = format_compact_summary raw
  ∧ chat_format_compact_summary_content raw = format_compact_summary_content raw
  ∧ chat_is_degenerate_summary raw = is_degenerate_summary raw.
Proof.
  unfold chat_format_compact_summary_content, format_compact_summary_content,
    chat_is_degenerate_summary, is_degenerate_summary. by rewrite chat_format_eq.
Qed.

(** ** Witnesses *)

Definition demo_inputs : CompactionInputs := mkInputs 0 None [] [] [] [] [] [] [] None None.

Definition demo_chat : list ConversationItem :=
  [item_system (lit "sys"); item_user (lit "<user_query>fix it</user_query>"); item_agent_message (lit "hi");
   item_assistant (lit "looking"); item_assistant_tool_calls [demo_call "a"]; item_tool_result (lit "a") (lit "done")].

Definition demo_history_input : CompactedHistoryInput :=
  mkHistoryInput (item_system (lit "sys")) (lit "prefix") (Some (lit "rules")) (context_build demo_chat demo_inputs)
    (lit "<summary>all of it</summary>") (Some (lit "reminder")) false None 1.

(** A query without an opening bracket holds no tag. *)
Lemma no_bracket_plain q :
  trim q = q -> existsb (ch_eqb (byte 60)) q = false -> is_synthetic_extracted_query q = false ->
  head_is_continuation q = false -> plain_query q.
Proof.
  intros Ht Hb Hs Hh.
  assert (Hno : ∀ r, ¬ occurs (byte 60 :: r) q).
  { intros r (u & v & ->). rewrite existsb_app in Hb. apply orb_false_iff in Hb as [_ Hb]. done. }
  split; [done|]. split; [by intros ->|]. split; [done|].
  split; [intros t _; apply (Hno (t ++ lit ">"))|]. split; [apply (Hno (lit "/user_query>"))|done].
Qed.

Lemma compaction_keeps_last_query_witness :
  ctx_last_user_query (hi_state_context demo_history_input) = Some (lit "fix it")
  ∧ extract_real_user_queries (build_compacted_history demo_history_input) = [lit "fix it"]
  ∧ extract_last_real_user_query (build_compacted_history demo_history_input) = Some (lit "fix it")
  ∧ (∀ inputs, goal_objective inputs = None ->
       ctx_last_user_query (context_build (build_compacted_history demo_history_input) inputs) = Some (lit "fix it")).
Proof.
  assert (Hq : ctx_last_user_query (hi_state_context demo_history_input) = Some (lit "fix it")) by (vm_compute; reflexivity).
  split; [exact Hq|]. apply (compaction_keeps_last_query demo_chat); [|vm_compute; reflexivity|exact Hq|].
  - exists demo_inputs. left. reflexivity.
  - apply no_bracket_plain; vm_compute; reflexivity.
Defined.

Lemma fit_conversation_to_budget_spec_witness :
  cost demo_chat = 9%N
  ∧ fit_conversation_to_budget demo_chat 9 = demo_chat
  ∧ ∃ k, k < 5 ∧ fit_conversation_to_budget demo_chat 2 = item_system (lit "sys") :: drop k (tail demo_chat).
Proof.
  split; [vm_compute; reflexivity|]. split.
  - apply (fit_conversation_to_budget_spec demo_chat 9); vm_compute; discriminate.
  - pose proof (fit_conversation_to_budget_spec demo_chat 2) as [_ H]; [vm_compute; discriminate|].
    destruct H as (k & Hk & Hkeep & Hmin & Hcut & _); [vm_compute; reflexivity|]. exists k.
    destruct (decide (k < 5)) as [Hlt|Hge]; [split; [exact Hlt|apply Hcut; exact Hlt]|].
    exfalso. apply (Hmin 3); [lia|]. split; [vm_compute; discriminate|reflexivity].
Defined.
