(* ===== verification/ChatTypes.v ===== *)
(** * The state of a chat

    The data of the conversation actor ([crates/codegen/xai-chat-state/src]): the
    sampling configuration and the credentials it carries, the state it owns
    ([actor/state.rs]), the persistence calls it makes ([persistence.rs]), the
    events it sends ([events.rs]), its commands and their replies ([commands.rs]).

    A reply channel is the [Reply] the handler returns. The answers the handler
    waits for (the acknowledgement of a strict append or of a strip, the turn
    flag it loads) are arguments of the command. [f32] values are carried as bit
    patterns; the trace context of a request, which is only moved, is left out. *)

From S2P Require Export ChatCompaction Usage ImageBudget RequestBuilder.
From coqutil Require Export Datatypes.RecordSetters.
Export DoubleBraceUpdate.

(** Source: crates/codegen/xai-grok-sampling-types/src/types.rs:1026-1036, [ApiBackend]. *)
Inductive ApiBackend := ChatCompletions | Responses | Messages.

(** Source: crates/codegen/xai-grok-sampling-types/src/types.rs:752-763, [ReasoningEffort]. *)
Inductive ReasoningEffort := ReNone | ReMinimal | ReLow | ReMedium | ReHigh | ReXhigh | ReMax.

(** Source: crates/codegen/xai-grok-sampling-types/src/types.rs:852-860, [ReasoningSummary]. *)
Inductive ReasoningSummary := RsNone | RsAuto | RsConcise | RsDetailed.

(** Source: crates/codegen/xai-grok-sampling-types/src/types.rs:1083-1125, [SamplingConfig]. *)
Record SamplingConfig := mkSamplingConfig {
  base_url : str;
  mtls_cert_dir : option str;
  sc_model : str;
  max_completion_tokens : option N;
  sc_temperature : option N;
  sc_top_p : option N;
  sc_max_retries : option N;
  rate_limit_retry_threshold : option N;
  sc_api_backend : ApiBackend;
  extra_headers : list (str * str);
  conversation_group_id : option str;
  query_params : list (str * str);
  env_http_headers : list (str * str);
  sc_context_window : N;
  sc_reasoning_effort : option ReasoningEffort;
  reasoning_summary : option ReasoningSummary;
  stream_tool_calls : option bool;
}.

(** Source: crates/codegen/xai-chat-state/src/types.rs:98-106, [AuthType]. *)
Inductive AuthType := SessionToken | ApiKey.

(** Source: crates/codegen/xai-chat-state/src/types.rs:110-121, [Credentials]. *)
Record Credentials := mkCredentials {
  api_key : option str;
  auth_type : AuthType;
  alpha_test_key : option str;
  client_version : option str;
}.

Definition default_credentials : Credentials := mkCredentials None SessionToken None None.

(** Source: crates/codegen/xai-chat-state/src/persistence.rs:22-31, [HostAssistantIdentity]. *)
Record HostAssistantIdentity := mkIdentity {
  ai_provider : str;
  ai_model : option str;
  ai_api : option str;
}.

(** Source: crates/codegen/xai-chat-state/src/persistence.rs:35-35, [HostAssistantIdentity::PROVIDER_XAI]. *)
Definition PROVIDER_XAI : str := lit "xai".

Definition filled (s : option str) : bool := match s with Some s => negb (is_empty s) | None => false end.

(** Source: crates/codegen/xai-chat-state/src/persistence.rs:38-42, [HostAssistantIdentity::is_complete]. *)
Definition identity_is_complete (i : HostAssistantIdentity) : bool :=
  negb (is_empty (ai_provider i)) && filled (ai_model i) && filled (ai_api i).

(** Source: crates/codegen/xai-chat-state/src/persistence.rs:45-51, [HostAssistantIdentity::matches_live]. *)
Definition matches_live (self live : HostAssistantIdentity) : bool :=
  identity_is_complete self && identity_is_complete live
  && str_eqb (ai_provider self) (ai_provider live)
  && bool_decide (ai_model self = ai_model live) && bool_decide (ai_api self = ai_api live).

(** Source: crates/codegen/xai-chat-state/src/persistence.rs:55-61, [api_backend_label]. *)
Definition api_backend_label (b : ApiBackend) : str :=
  match b with
  | ChatCompletions => lit "chat_completions"
  | Responses => lit "responses"
  | Messages => lit "messages"
  end.

(** Source: crates/codegen/xai-chat-state/src/actor/state.rs:201-210, [TurnCaptureState]. *)
Record TurnCaptureState := mkCapture {
  turn_start_offset : nat;
  pre_replacement_messages : list ConversationItem;
  cap_compaction_occurred : bool;
}.

(** Source: crates/codegen/xai-chat-state/src/types.rs:126-132, [TurnCapture]. *)
Record TurnCapture := mkTurnCapture {
  tc_messages : list ConversationItem;
  compaction_occurred : bool;
}.

(** Source: crates/codegen/xai-chat-state/src/actor/state.rs:128-196, [ChatState]. *)
#[projections(primitive)]
Record ChatState := mkChatState {
  conversation : list ConversationItem;
  sampling_config : SamplingConfig;
  prompt_index : nat;
  prompt_texts : list str;
  total_tokens : N;
  stream_start_ms : option Z;
  turn_start_ms : option Z;
  agent_edited_paths : gset str;
  last_compaction_prompt_index : option nat;
  credentials : Credentials;
  estimated_tokens_since_model : N;
  estimate_at_last_response : N;
  last_turn_usage : option TokenUsage;
  pending_model_call_usage : option TokenUsage;
  pending_assistant_identity : option HostAssistantIdentity;
  prompt_usage : option UsageLedger;
  session_usage : UsageLedger;
  turn_capture : option TurnCaptureState;
  harness_trace_buffer : list ConversationItem;
  harness_trace_turns : list (list ConversationItem);
}.

(** Source: crates/codegen/xai-chat-state/src/types.rs:27-54, [ChatStateSnapshot]. *)
Record ChatStateSnapshot := mkSnapshot {
  sn_conversation : list ConversationItem;
  sn_sampling_config : SamplingConfig;
  sn_prompt_index : nat;
  sn_total_tokens : N;
  sn_estimate_at_last_response : N;
  sn_agent_edited_paths : gset str;
  sn_prompt_texts : list str;
  sn_stream_start_ms : option Z;
  sn_turn_start_ms : option Z;
  sn_last_compaction_prompt_index : option nat;
  sn_credentials : Credentials;
}.

(** Source: crates/codegen/xai-chat-state/src/types.rs:57-63, [NotificationMeta]. *)
Record NotificationMeta := mkMeta { nm_stream_start_ms : option Z; nm_turn_start_ms : option Z }.

(** Source: crates/codegen/xai-chat-state/src/types.rs:136-146, [ConversationCounts]. *)
Record ConversationCounts := mkCounts { cc_total : nat; cc_user : nat; cc_assistant : nat; cc_tool_result : nat }.

(** Source: crates/codegen/xai-chat-state/src/types.rs:149-157, [AutoCompactTrigger]. *)
Record AutoCompactTrigger := mkTrigger { at_total_tokens : N; at_context_window : N; utilization_percent : N }.

(** Source: crates/codegen/xai-chat-state/src/commands.rs:16-20, [ModelMetadata]. *)
Record ModelMetadata := mkModelMetadata { resolved_model_id : option str; mm_model_fingerprint : option str }.

(** Source: crates/codegen/xai-chat-state/src/commands.rs:39-43, [StrictAppendAck]. *)
Inductive StrictAppendAck := Appended | AlreadyPresent (item : ConversationItem).

(** The [io::Error] of each is not read.

    Source: crates/codegen/xai-chat-state/src/commands.rs:45-53, [StrictAppendError]. *)
Inductive StrictAppendError :=
  | NotCommitted
  | Committed (acknowledgement : StrictAppendAck)
  | Indeterminate.

(** [Result<StrictAppendAck, StrictAppendError>]. *)
Abbreviation AppendResult := (StrictAppendAck + StrictAppendError)%type.

(** Source: crates/codegen/xai-chat-state/src/persistence.rs:126-139, [StripOutcome]. *)
Inductive StripOutcome :=
  | StripApplied (stripped : nat)
  | NoMatch
  | StripWriteFailed (stripped : nat)
  | ActorUnavailable.

(** The calls of the persistence trait, in the order they are made.

    Source: crates/codegen/xai-chat-state/src/persistence.rs:71-122, [ChatPersistence]. *)
Inductive PersistCall :=
  | PersistMessage (item : ConversationItem)
  | PersistMessageWithProviderUsage (item : ConversationItem) (provider_usage : option TokenUsage)
      (identity : option HostAssistantIdentity)
  | PersistWorkingDirectorySwitchAndAck (item : ConversationItem)
  | ReplaceHistory (items : list ConversationItem)
  | ReplaceHistoryForLhcWriteback (items : list ConversationItem) (source_tip : N)
  | ReplaceHistoryForStripAndAck (items : list ConversationItem)
  | PersistFlush.

(** Source: crates/codegen/xai-chat-state/src/events.rs:7-38, [ChatStateEvent]. *)
Inductive ChatStateEvent :=
  | PromptIndexChanged (new_index : nat)
  | TokensUpdated (total_tokens : N)
  | ConversationReset (new_len : nat)
  | ImageBudget (outcome : ImageBudgetOutcome) (trigger_bytes reclaim_target_bytes : N).

(** The fields the builder sets; the others are absent.

    Source: crates/codegen/xai-grok-sampling-types/src/conversation.rs:622-665, [ConversationRequest]. *)
Record ConversationRequest := mkRequest {
  req_items : list ConversationItem;
  req_tools : list ToolSpec;
  req_model : option str;
  req_temperature : option N;
  req_max_output_tokens : option N;
  req_top_p : option N;
  x_grok_conv_id : option str;
  x_grok_req_id : option str;
  req_reasoning_effort : option ReasoningEffort;
  req_length_policy : LengthPolicy;
}.

(** The actor: its state, its configuration, and what it has sent so far to the
    persistence and to its subscribers.

    Source: crates/codegen/xai-chat-state/src/actor/mod.rs:30-43, [ChatStateActor]. *)
#[projections(primitive)]
Record Actor := mkActor {
  state : ChatState;
  pruning_config : PruningConfig;
  persistence : list PersistCall;
  sent_events : list ChatStateEvent;
}.

(** Source: crates/codegen/xai-chat-state/src/commands.rs:56-403, [ChatStateCommand]. *)
Inductive ChatStateCommand :=
  | PushUserMessage (item : ConversationItem)
  | PushUserMessagesBatch (items : list ConversationItem)
  | PushUserMessagesBatchAndAck (items : list ConversationItem)
  | PushUserMessageAndAck (item : ConversationItem)
  | AppendWorkingDirectorySwitchAndAck (content : str) (cwd_generation : N) (ack : option AppendResult)
  | PushUserMessageWithRepairReason (item : ConversationItem) (reason : DanglingToolCallReason)
  | PushAssistantResponse (item : ConversationItem)
  | PushToolResult (item : ConversationItem)
  | PushModelOutput (item : ConversationItem)
  | PushUnreportedModelOutput (item : ConversationItem)
  | RecordTokenUsage (tokens : N)
  | RecordLastTurnUsage (usage : TokenUsage)
  | RecordModelCallUsage (model_id : option str) (usage : TokenUsage) (api_duration_ms : option N)
      (cost_usd_ticks : option Z)
  | RecordResponseIdentity (model_id : option str) (attempt_api : option ApiBackend)
  | RecordSubagentUsage (by_model : list (str * UsageTotals)) (attribute_to_prompt incomplete : bool)
  | MarkUsageIncomplete (prompt session : bool)
  | IncrementPromptIndex
  | UpdateSamplingConfig (config : SamplingConfig)
  | RecordAgentEditedPath (path : str)
  | RecordStreamStart (timestamp_ms : Z)
  | RecordTurnStart (timestamp_ms : Z)
  | ReplaceConversation (items : list ConversationItem) (is_compaction : bool) (lhc_source_tip : option N)
  | RepairHistory (dry_run : bool) (turn_active : option bool)
  | StripConversationImages (urls : list str) (ack : option bool)
  | ReplaceSystemHead (prompt : str)
  | CachePromptText (text : str)
  | RecordCompactionAt (index : nat)
  | Flush
  | UpdateCredentials (creds : Credentials)
  | RestoreSnapshot (snap : ChatStateSnapshot)
  | BeginTurnCapture
  | AppendHarnessTraceItems (items : list ConversationItem)
  | FlushHarnessTraceTurn
  | RepairDanglingAfterHarnessHalt (class : str)
  | PopStrandedContinueReminder
  | BuildConversationRequest (tool_definitions : list ToolSpec) (memory_reminder : option str)
      (persist_memory_reminder : bool) (conv_id req_id : str)
  | GetConversation | GetPromptIndex | GetLastCompactionPromptIndex | GetTotalTokens | GetLastTurnUsage
  | GetPromptUsage | GetSessionUsage | GetEstimatedTotalTokens | GetEstimatedMessagesTokens | GetSamplingConfig
  | ApplyTurnRequestPruning (items : list ConversationItem)
  | GetAgentEditedPaths | GetNotificationMeta | Snapshot
  | TruncateToPromptIndex (target_prompt_index : nat)
  | CheckAutoCompactNeeded (threshold_percent : N)
  | GetCredentials | GetLastModelMetadata | TakeTurnMessages | TakeHarnessTraceTurns
  | GetConversationLen | HasDanglingToolCalls | GetLastAssistantText | GetTrailingAssistantReport
  | GetLastAssistantTextInTurn | GetAssistantTextInTurn | GetFirstUserText
  | GetConversationItemAt (index : nat)
  | GetLastUserQueryText | GetConversationCounts | GetSystemMessage.

(** What is sent on the reply channel. *)
Inductive Reply :=
  | RNothing
  | RUnit
  | RBool (b : bool)
  | RNat (n : nat)
  | RTokens (n : N)
  | RIndex (n : option nat)
  | RText (t : option str)
  | RItem (i : option ConversationItem)
  | RItems (l : list ConversationItem)
  | RTurns (l : list (list ConversationItem))
  | RAppend (r : AppendResult)
  | RRepair (r : option HistoryRepairReport)
  | RStrip (o : StripOutcome)
  | RRequest (r : ConversationRequest)
  | RUsage (u : option TokenUsage)
  | RLedger (l : option UsageLedger)
  | RConfig (c : SamplingConfig)
  | RPaths (p : gset str)
  | RMeta (m : NotificationMeta)
  | RSnapshot (s : ChatStateSnapshot)
  | RTrigger (t : option AutoCompactTrigger)
  | RCredentials (c : Credentials)
  | RModel (m : ModelMetadata)
  | RCapture (c : option TurnCapture)
  | RCounts (c : ConversationCounts).
