(* ===== verification/ChatState.v ===== *)
(** * The conversation actor

    The operations of [ChatStateActor] ([crates/codegen/xai-chat-state/src/actor]):
    [mutations.rs], [queries.rs], the request assembly of [request_builder.rs] and
    the dispatcher [handle_command] of [mod.rs]. An operation maps the actor to the
    actor after it; what it sends to the persistence and to the subscribers is
    appended to the logs of the actor. The theorems are in [ChatStateSpec]. *)

From S2P Require Export ChatTypes.

(** ** Sending *)

(** Source: crates/codegen/xai-chat-state/src/actor/mod.rs:47-51, [ChatStateActor::send_event]. *)
Definition send_event (a : Actor) (e : ChatStateEvent) : Actor := a {{ sent_events ::= fun l => l ++ [e] }}.

Definition persist (a : Actor) (c : PersistCall) : Actor := a {{ persistence ::= fun l => l ++ [c] }}.

(** ** The state *)

(** Source: crates/codegen/xai-chat-state/src/actor/state.rs:216-257, [ChatState::new]. *)
Definition new_chat_state (conversation : list ConversationItem) (sampling_config : SamplingConfig) : ChatState :=
  let conversation := fst (dedup_duplicate_tool_results conversation) in
  let conversation := fst (repair_dangling_tool_calls conversation UserCancelled) in
  let initial_tokens := estimate_conversation_tokens conversation in
  mkChatState conversation sampling_config 0 [] initial_tokens None None ∅ None default_credentials
    0 initial_tokens None None None None empty_ledger None [] [].

(** Source: crates/codegen/xai-chat-state/src/actor/state.rs:261-266, [ChatState::seal_harness_trace_turn]. *)
Definition seal_harness_trace_turn (s : ChatState) : ChatState :=
  if negb (is_empty (harness_trace_buffer s))
  then s {{ harness_trace_turns ::= fun l => l ++ [harness_trace_buffer s]; harness_trace_buffer := [] }}
  else s.

(** Source: crates/codegen/xai-chat-state/src/actor/mod.rs:72-94, [ChatStateActor::spawn_with_pruning]. *)
Definition spawn_with_pruning (initial_conversation : list ConversationItem) (sampling_config : SamplingConfig)
    (pruning_config : PruningConfig) : Actor :=
  mkActor (new_chat_state initial_conversation sampling_config) pruning_config [] [].

(** Source: crates/codegen/xai-chat-state/src/actor/mod.rs:54-69, [ChatStateActor::spawn]. *)
Definition spawn (initial_conversation : list ConversationItem) (sampling_config : SamplingConfig) : Actor :=
  spawn_with_pruning initial_conversation sampling_config default_pruning.

(** ** The turn capture *)

(** [conversation.get(offset..)], and nothing past the end.

    Source: crates/codegen/xai-chat-state/src/actor/mutations.rs:657-674, [ChatStateActor::turn_tail]. *)
Definition turn_tail (conversation : list ConversationItem) (offset : nat) : list ConversationItem :=
  if Nat.leb offset (length conversation) then drop offset conversation else [].

(** Source: crates/codegen/xai-chat-state/src/actor/mutations.rs:636-644, [ChatStateActor::snapshot_turn_slice]. *)
Definition snapshot_turn_slice (a : Actor) : Actor :=
  match turn_capture (state a) with
  | Some cap =>
      let messages := pre_replacement_messages cap
                      ++ turn_tail (conversation (state a)) (turn_start_offset cap) in
      a {{ state -> turn_capture := Some (mkCapture (turn_start_offset cap) messages (cap_compaction_occurred cap)) }}
  | None => a
  end.

(** Source: crates/codegen/xai-chat-state/src/actor/mutations.rs:648-652, [ChatStateActor::rebase_turn_capture_offset]. *)
Definition rebase_turn_capture_offset (a : Actor) : Actor :=
  match turn_capture (state a) with
  | Some cap =>
      a {{ state -> turn_capture := Some (mkCapture (length (conversation (state a))) (pre_replacement_messages cap)
                                            (cap_compaction_occurred cap)) }}
  | None => a
  end.

(** ** Rewrites *)

(** Source: crates/codegen/xai-chat-state/src/actor/mutations.rs:29-42, [HistoryRewrite]. *)
Inductive HistoryRewrite := IntegrityRepair | RetainedPrune | ImageStrip.

(** The two results are the number of changes and whether an acknowledgement is
    to be waited for.

    Source: crates/codegen/xai-chat-state/src/actor/mutations.rs:48-79, [ChatStateActor::rewrite_history]. *)
Definition rewrite_history (a : Actor) (kind : HistoryRewrite)
    (mutate : list ConversationItem -> list ConversationItem * nat) : Actor * nat * bool :=
  let snapshots_capture := match kind with IntegrityRepair => true | _ => false end in
  let a := if snapshots_capture then snapshot_turn_slice a else a in
  let '(items, changed) := mutate (conversation (state a)) in
  let a := a {{ state -> conversation := items }} in
  let '(a, disk_ack) :=
    if Nat.ltb 0 changed then
      match kind with
      | IntegrityRepair | RetainedPrune => (persist a (ReplaceHistory items), false)
      | ImageStrip => (persist a (ReplaceHistoryForStripAndAck items), true)
      end
    else (a, false) in
  let a := if snapshots_capture then rebase_turn_capture_offset a else a in
  (a, changed, disk_ack).

Definition repair_integrity (reason : DanglingToolCallReason) (c : list ConversationItem) :
    list ConversationItem * nat :=
  let '(c, deduped) := dedup_duplicate_tool_results c in
  let '(c, repaired) := repair_dangling_tool_calls c reason in
  (c, repaired + deduped).

(** Source: crates/codegen/xai-chat-state/src/actor/mutations.rs:89-110, [ChatStateActor::ensure_conversation_integrity_with_reason]. *)
Definition ensure_conversation_integrity_with_reason (a : Actor) (reason : DanglingToolCallReason) : Actor :=
  fst (fst (rewrite_history a IntegrityRepair (repair_integrity reason))).

(** Source: crates/codegen/xai-chat-state/src/actor/mutations.rs:84-86, [ChatStateActor::ensure_conversation_integrity]. *)
Definition ensure_conversation_integrity (a : Actor) : Actor :=
  ensure_conversation_integrity_with_reason a UserCancelled.

Definition is_continue_reminder (item : ConversationItem) : bool :=
  match item with CUser u => bool_decide (u_reason u = LengthContinue) | _ => false end.

Definition ends_with_reminder (c : list ConversationItem) : bool :=
  match last c with Some item => is_continue_reminder item | None => false end.

Definition pop_reminders (c : list ConversationItem) : list ConversationItem * nat :=
  let c' := drop_while_end is_continue_reminder c in (c', length c - length c').

(** Source: crates/codegen/xai-chat-state/src/actor/mutations.rs:124-147, [ChatStateActor::pop_stranded_continue_reminder]. *)
Definition pop_stranded_continue_reminder (a : Actor) : Actor :=
  if negb (ends_with_reminder (conversation (state a))) then a
  else fst (fst (rewrite_history a IntegrityRepair pop_reminders)).

(** Source: crates/codegen/xai-chat-state/src/actor/mutations.rs:114-119, [ChatStateActor::repair_dangling_after_harness_halt]. *)
Definition repair_dangling_after_harness_halt (a : Actor) (class : str) : Actor :=
  ensure_conversation_integrity_with_reason (pop_stranded_continue_reminder a) (HarnessHalted class).

(** The [u64] of a ratio of [f64].

    Source: crates/codegen/xai-chat-state/src/actor/mutations.rs:536-551, [ChatStateActor::reseed_total_tokens]. *)
Definition reseed_total_tokens (s : ChatState) (base_estimate : N) : N :=
  let pre_replace_total := total_tokens s in
  let estimated_tokens :=
    if N.ltb 0 pre_replace_total && N.ltb 0 (estimate_at_last_response s) then
      let ratio := f64_div (f64_of_N pre_replace_total) (f64_of_N (estimate_at_last_response s)) in
      f64_round_to_uint u64_max (f64_mul (f64_of_N base_estimate) ratio)
    else base_estimate in
  if N.ltb 0 pre_replace_total then N.min estimated_tokens pre_replace_total else estimated_tokens.

(** Source: crates/codegen/xai-chat-state/src/actor/mutations.rs:555-589, [ChatStateActor::replace_conversation]. *)
Definition replace_conversation (a : Actor) (items : list ConversationItem) (is_compaction : bool)
    (lhc_source_tip : option N) : Actor :=
  let a := snapshot_turn_slice a in
  let a :=
    match is_compaction, turn_capture (state a) with
    | true, Some cap =>
        a {{ state -> turn_capture := Some (mkCapture (turn_start_offset cap) (pre_replacement_messages cap) true) }}
    | _, _ => a
    end in
  let a :=
    match lhc_source_tip with
    | Some tip => persist a (ReplaceHistoryForLhcWriteback items tip)
    | None => persist a (ReplaceHistory items)
    end in
  let base_estimate := estimate_conversation_tokens items in
  let estimated_tokens := reseed_total_tokens (state a) base_estimate in
  let a := a {{ state -> conversation := items;
                state -> estimated_tokens_since_model := 0%N;
                state -> total_tokens := estimated_tokens;
                state -> estimate_at_last_response := base_estimate }} in
  let a := rebase_turn_capture_offset a in
  let a := send_event a (ConversationReset (length (conversation (state a)))) in
  send_event a (TokensUpdated estimated_tokens).

(** The conversation is taken out of the state before it is replaced.

    Source: crates/codegen/xai-chat-state/src/actor/mutations.rs:152-176, [ChatStateActor::repair_history]. *)
Definition actor_repair_history (a : Actor) (dry_run : bool) : Actor * HistoryRepairReport :=
  if dry_run then (a, snd (repair_history (conversation (state a))))
  else
    let items := conversation (state a) in
    let a := a {{ state -> conversation := [] }} in
    let '(items', report) := repair_history items in
    if report_changed report then (replace_conversation a items' false None, report)
    else (a {{ state -> conversation := items' }}, report).

(** Source: crates/codegen/xai-chat-state/src/actor/mutations.rs:180-196, [ChatStateActor::strip_conversation_images]. *)
Definition strip_conversation_images (a : Actor) (urls : list str) : Actor * option nat :=
  let '(a, stripped, disk_ack) := rewrite_history a ImageStrip (fun c => strip_images_by_url c urls) in
  (a, if disk_ack then Some stripped else None).

(** Source: crates/codegen/xai-chat-state/src/actor/mutations.rs:594-606, [ChatStateActor::replace_system_head]. *)
Definition replace_system_head (a : Actor) (prompt : str) : Actor * bool :=
  let matches :=
    match conversation (state a) with
    | CSystem sys :: _ => canonical_system_prompt_eq (sys_content sys) prompt
    | _ => false
    end in
  if matches then (a, false)
  else
    let '(conv, changed) := replace_or_insert_system_head (conversation (state a)) prompt in
    (replace_conversation a conv false None, changed).

(** Source: crates/codegen/xai-chat-state/src/actor/mutations.rs:609-632, [ChatStateActor::restore_snapshot]. *)
Definition restore_snapshot (a : Actor) (snap : ChatStateSnapshot) : Actor :=
  let a := snapshot_turn_slice a in
  let a := a {{ state -> conversation := sn_conversation snap }} in
  let a := rebase_turn_capture_offset a in
  a {{ state -> sampling_config := sn_sampling_config snap;
       state -> prompt_index := sn_prompt_index snap;
       state -> total_tokens := sn_total_tokens snap;
       state -> estimated_tokens_since_model := 0%N;
       state -> estimate_at_last_response :=
         (if N.ltb 0 (sn_estimate_at_last_response snap) then sn_estimate_at_last_response snap
          else estimate_conversation_tokens (conversation (state a)));
       state -> agent_edited_paths := sn_agent_edited_paths snap;
       state -> prompt_texts := sn_prompt_texts snap;
       state -> stream_start_ms := sn_stream_start_ms snap;
       state -> turn_start_ms := sn_turn_start_ms snap;
       state -> last_compaction_prompt_index := sn_last_compaction_prompt_index snap;
       state -> credentials := sn_credentials snap;
       state -> prompt_usage := None }}.

(** ** Pushes *)

(** [u64] addition wraps in the release profile. *)
Definition add_estimate (a : Actor) (item : ConversationItem) : Actor :=
  a {{ state -> estimated_tokens_since_model ::= fun n => wrap64 (n + estimate_item_tokens item) }}.

(** Source: crates/codegen/xai-chat-state/src/actor/mutations.rs:257-278, [ChatStateActor::persist_and_push_message]. *)
Definition persist_and_push_message (a : Actor) (item : ConversationItem) : Actor :=
  let s := state a in
  let provider_usage := if is_assistant_item item then pending_model_call_usage s else None in
  let identity :=
    match item with CAssistant _ | CReasoning _ => pending_assistant_identity s | _ => None end in
  let a := if is_assistant_item item
           then a {{ state -> pending_model_call_usage := None; state -> pending_assistant_identity := None }} else a in
  let a := persist a (PersistMessageWithProviderUsage item provider_usage identity) in
  a {{ state -> conversation ::= fun c => c ++ [item] }}.

(** Source: crates/codegen/xai-chat-state/src/actor/mutations.rs:230-244, [ChatStateActor::push_message]. *)
Definition push_message (a : Actor) (item : ConversationItem) : Actor :=
  let a := if negb (is_assistant_item item) then add_estimate a item else a in
  persist_and_push_message a item.

(** Source: crates/codegen/xai-chat-state/src/actor/mutations.rs:247-249, [ChatStateActor::push_model_output]. *)
Definition push_model_output (a : Actor) (item : ConversationItem) : Actor := persist_and_push_message a item.

(** Source: crates/codegen/xai-chat-state/src/actor/mutations.rs:252-255, [ChatStateActor::push_unreported_model_output]. *)
Definition push_unreported_model_output (a : Actor) (item : ConversationItem) : Actor :=
  persist_and_push_message (add_estimate a item) item.

(** Source: crates/codegen/xai-chat-state/src/actor/mutations.rs:331-397, [ChatStateActor::prune_retained_conversation]. *)
Definition prune_retained_conversation (a : Actor) : Actor * nat :=
  if negb (pc_enabled (pruning_config a)) then (a, 0)
  else if Nat.ltb (prompt_index (state a)) (hard_clear_age_turns (pruning_config a)) then (a, 0)
  else
    let total_user_items := length (List.filter is_user_item (conversation (state a))) in
    let synthetic_count := total_user_items - prompt_index (state a) in
    let effective_threshold := hard_clear_age_turns (pruning_config a) + synthetic_count in
    let '(a, cleared, _) := rewrite_history a RetainedPrune (clear_old_results effective_threshold) in
    (a, cleared).

(** The user items that end a stranded continuation. *)
Definition ends_continuation (item : ConversationItem) : bool :=
  match item with
  | CUser u =>
      starts_prompt_turn (u_reason u)
      || match u_reason u with
         | AutoRecovery | StopHookFeedback | GoalSummary | WorkingDirectorySwitch | Interjection => true
         | _ => false
         end
  | _ => false
  end.

(** Source: crates/codegen/xai-chat-state/src/actor/mutations.rs:287-326, [ChatStateActor::push_user_message_with_repair_reason]. *)
Definition push_user_message_with_repair_reason (a : Actor) (item : ConversationItem)
    (reason : DanglingToolCallReason) : Actor :=
  let a := if ends_continuation item then pop_stranded_continue_reminder a else a in
  let a := ensure_conversation_integrity_with_reason a reason in
  let a := add_estimate a item in
  let a := persist a (PersistMessage item) in
  let a := a {{ state -> conversation ::= fun c => c ++ [item] }} in
  fst (prune_retained_conversation a).

(** Source: crates/codegen/xai-chat-state/src/actor/mutations.rs:282-284, [ChatStateActor::push_user_message]. *)
Definition push_user_message (a : Actor) (item : ConversationItem) : Actor :=
  push_user_message_with_repair_reason a item UserCancelled.

Definition is_switch_of (generation : N) (item : ConversationItem) : bool :=
  bool_decide (working_directory_switch_generation item = Some generation).

(** [iter_mut().find(f)] and an assignment: the first match replaced, if any. *)
Fixpoint replace_first {A} (f : A -> bool) (y : A) (l : list A) : option (A * list A) :=
  match l with
  | [] => None
  | x :: rest => if f x then Some (x, y :: rest) else (fun p => (fst p, x :: snd p)) <$> replace_first f y rest
  end.

(** Source: crates/codegen/xai-chat-state/src/actor/mutations.rs:199-227, [ChatStateActor::converge_working_directory_switch]. *)
Definition converge_working_directory_switch (a : Actor) (generation : N) (authoritative : ConversationItem) : Actor :=
  match replace_first (is_switch_of generation) authoritative (conversation (state a)) with
  | Some (existing, c) =>
      let old_tokens := estimate_item_tokens existing in
      let new_tokens := estimate_item_tokens authoritative in
      a {{ state -> estimated_tokens_since_model ::= fun n =>
             (if N.leb old_tokens new_tokens then sat_add64 n (new_tokens - old_tokens)
              else n - (old_tokens - new_tokens))%N;
           state -> conversation := c }}
  | None =>
      (add_estimate a authoritative) {{ state -> conversation ::= fun c => c ++ [authoritative] }}
  end.

(** ** Usage and counters *)

(** Source: crates/codegen/xai-chat-state/src/actor/mutations.rs:427-433, [ChatStateActor::record_token_usage]. *)
Definition record_token_usage (a : Actor) (tokens : N) : Actor :=
  let a := a {{ state -> estimated_tokens_since_model := 0%N;
                state -> estimate_at_last_response := estimate_conversation_tokens (conversation (state a));
                state -> total_tokens := tokens }} in
  send_event a (TokensUpdated tokens).

(** Source: crates/codegen/xai-chat-state/src/actor/mutations.rs:438-440, [ChatStateActor::record_last_turn_usage]. *)
Definition record_last_turn_usage (a : Actor) (usage : TokenUsage) : Actor :=
  a {{ state -> last_turn_usage := Some usage }}.

(** [get_or_insert_default]. *)
Definition open_ledger (l : option UsageLedger) : UsageLedger := default empty_ledger l.

(** Source: crates/codegen/xai-chat-state/src/actor/mutations.rs:442-467, [ChatStateActor::record_model_call_usage]. *)
Definition record_model_call_usage (a : Actor) (model_id : option str) (usage : TokenUsage)
    (api_duration_ms : option N) (cost_usd_ticks : option Z) : Actor :=
  let model_key :=
    match model_id with
    | Some id => if negb (is_empty id) then id else sc_model (sampling_config (state a))
    | None => sc_model (sampling_config (state a))
    end in
  a {{ state -> prompt_usage ::= fun l =>
         Some (record_main_loop_call (open_ledger l) model_key usage api_duration_ms cost_usd_ticks);
       state -> session_usage ::= fun l => record_main_loop_call l model_key usage api_duration_ms cost_usd_ticks;
       state -> pending_model_call_usage := Some usage }}.

(** Source: crates/codegen/xai-chat-state/src/actor/mutations.rs:478-490, [ChatStateActor::record_response_identity]. *)
Definition record_response_identity (a : Actor) (model_id : option str) (attempt_api : option ApiBackend) : Actor :=
  let model := m ← model_id; if negb (is_empty m) then Some m else None in
  let api := api_backend_label <$> attempt_api in
  a {{ state -> pending_assistant_identity := Some (mkIdentity PROVIDER_XAI model api) }}.

(** Source: crates/codegen/xai-chat-state/src/actor/mutations.rs:492-512, [ChatStateActor::record_subagent_usage]. *)
Definition record_subagent_usage (a : Actor) (by_model : list (str * UsageTotals))
    (attribute_to_prompt incomplete : bool) : Actor :=
  if is_empty by_model && negb incomplete then a
  else
    let a := if attribute_to_prompt
             then a {{ state -> prompt_usage ::= fun l => Some (record_subagent (open_ledger l) by_model incomplete) }}
             else a in
    a {{ state -> session_usage ::= fun l => record_subagent l by_model incomplete }}.

(** Source: crates/codegen/xai-chat-state/src/actor/mutations.rs:514-524, [ChatStateActor::mark_usage_incomplete]. *)
Definition mark_usage_incomplete (a : Actor) (prompt session : bool) : Actor :=
  let a := if prompt then a {{ state -> prompt_usage ::= fun l => Some (mark_incomplete (open_ledger l)) }} else a in
  if session then a {{ state -> session_usage ::= mark_incomplete }} else a.

(** Source: crates/codegen/xai-chat-state/src/actor/mutations.rs:526-532, [ChatStateActor::increment_prompt_index]. *)
Definition increment_prompt_index (a : Actor) : Actor :=
  let a := a {{ state -> prompt_usage := None; state -> prompt_index ::= S }} in
  send_event a (PromptIndexChanged (prompt_index (state a))).

(** ** Rewinding *)

(** The position of the item before which [target] user items stand. *)
Fixpoint truncate_at (target user_count i : nat) (c : list ConversationItem) : nat :=
  match c with
  | [] => i
  | item :: rest =>
      if is_user_item item then
        if Nat.eqb user_count target then i else truncate_at target (S user_count) (S i) rest
      else truncate_at target user_count (S i) rest
  end.

(** Source: crates/codegen/xai-chat-state/src/actor/queries.rs:37-71, [ChatStateActor::truncate_to_prompt_index]. *)
Definition truncate_to_prompt_index (a : Actor) (target_prompt_index : nat) : Actor :=
  if Nat.leb (prompt_index (state a)) target_prompt_index then a
  else
    let items := take (truncate_at target_prompt_index 0 0 (conversation (state a))) (conversation (state a)) in
    let base_estimate := estimate_conversation_tokens items in
    let a := a {{ state -> conversation := items;
                  state -> prompt_texts ::= take target_prompt_index;
                  state -> prompt_index := target_prompt_index;
                  state -> total_tokens := reseed_total_tokens (state a) base_estimate;
                  state -> estimated_tokens_since_model := 0%N;
                  state -> estimate_at_last_response := base_estimate }} in
    let a := persist a (ReplaceHistory (conversation (state a))) in
    send_event a (ConversationReset (length (conversation (state a)))).

(** ** Queries *)

(** Source: crates/codegen/xai-chat-state/src/actor/queries.rs:10-15, [ChatStateActor::get_notification_meta]. *)
Definition get_notification_meta (s : ChatState) : NotificationMeta := mkMeta (stream_start_ms s) (turn_start_ms s).

(** Source: crates/codegen/xai-chat-state/src/actor/queries.rs:18-32, [ChatStateActor::snapshot]. *)
Definition snapshot (s : ChatState) : ChatStateSnapshot :=
  mkSnapshot (conversation s) (sampling_config s) (prompt_index s) (total_tokens s) (estimate_at_last_response s)
    (agent_edited_paths s) (prompt_texts s) (stream_start_ms s) (turn_start_ms s)
    (last_compaction_prompt_index s) (credentials s).

(** Source: crates/codegen/xai-chat-state/src/actor/queries.rs:75-93, [ChatStateActor::check_auto_compact_needed]. *)
Definition check_auto_compact_needed (s : ChatState) (threshold_percent : N) : option AutoCompactTrigger :=
  let cw := sc_context_window (sampling_config s) in
  if exceeds_threshold (total_tokens s) cw threshold_percent
  then Some (mkTrigger (total_tokens s) cw (usage_percentage_truncated_u8 (total_tokens s) cw))
  else None.

Definition as_assistant (item : ConversationItem) : option AssistantItem :=
  match item with CAssistant a => Some a | _ => None end.

(** [iter().rev().find_map(f)] and [iter().find_map(f)]. *)
Definition find_map {A B} (f : A -> option B) (l : list A) : option B := head (omap f l).

(** Source: crates/codegen/xai-chat-state/src/actor/queries.rs:95-111, [ChatStateActor::get_last_model_metadata]. *)
Definition get_last_model_metadata (s : ChatState) : ModelMetadata :=
  default (mkModelMetadata None None)
    (find_map (fun item => (fun a => mkModelMetadata (a_model_id a) (a_model_fingerprint a)) <$> as_assistant item)
       (rev (conversation s))).

(** Source: crates/codegen/xai-chat-state/src/actor/queries.rs:116-118, [ChatStateActor::get_conversation_len]. *)
Definition get_conversation_len (s : ChatState) : nat := length (conversation s).

(** The text of an assistant, when it is not blank. *)
Definition assistant_text (item : ConversationItem) : option str :=
  match item with
  | CAssistant a => if negb (is_empty (trim (a_content a))) then Some (a_content a) else None
  | _ => None
  end.

(** Source: crates/codegen/xai-chat-state/src/actor/queries.rs:128-137, [ChatStateActor::get_last_assistant_text]. *)
Definition get_last_assistant_text (s : ChatState) : option str := find_map assistant_text (rev (conversation s)).

(** The user item a prompt turn starts with. *)
Definition is_turn_boundary (item : ConversationItem) : bool :=
  match item with
  | CUser u => bool_decide (is_Some (u_prompt_index u)) || starts_prompt_turn (u_reason u)
  | _ => false
  end.

(** The first loop: the last text of the turn and what is left of the walk. *)
Fixpoint seek_report (reversed : list ConversationItem) : option (list str * list ConversationItem) :=
  match reversed with
  | [] => Some ([], [])
  | item :: rest =>
      match assistant_text item with
      | Some text => Some ([text], rest)
      | None => if is_turn_boundary item then None else seek_report rest
      end
  end.

(** The second loop: the earlier segments, the latest first. *)
Fixpoint join_segments (reversed : list ConversationItem) : list str :=
  match reversed with
  | [] => []
  | item :: rest =>
      match item with
      | CAssistant a =>
          if negb (is_empty (a_tool_calls a)) then []
          else option_list (assistant_text item) ++ join_segments rest
      | CReasoning _ => join_segments rest
      | CUser u => if bool_decide (u_reason u = LengthContinue) then join_segments rest else []
      | _ => []
      end
  end.

(** Source: crates/codegen/xai-chat-state/src/actor/queries.rs:141-194, [ChatStateActor::get_trailing_assistant_report]. *)
Definition get_trailing_assistant_report (s : ChatState) : option str :=
  match seek_report (rev (conversation s)) with
  | None => None
  | Some (found, rest) =>
      let segments := found ++ join_segments rest in
      if is_empty segments then None else Some (concat (rev segments))
  end.

(** Source: crates/codegen/xai-chat-state/src/actor/queries.rs:199-218, [ChatStateActor::assistant_texts_in_turn]. *)
Definition assistant_texts_in_turn (s : ChatState) : list str :=
  rev (omap assistant_text (take_while (fun item => negb (is_turn_boundary item)) (rev (conversation s)))).

(** Source: crates/codegen/xai-chat-state/src/actor/queries.rs:222-224, [ChatStateActor::get_last_assistant_text_in_turn]. *)
Definition get_last_assistant_text_in_turn (s : ChatState) : option str := last (assistant_texts_in_turn s).

(** Source: crates/codegen/xai-chat-state/src/actor/queries.rs:229-236, [ChatStateActor::get_assistant_text_in_turn]. *)
Definition get_assistant_text_in_turn (s : ChatState) : option str :=
  let texts := assistant_texts_in_turn s in
  if is_empty texts then None else Some (join nl texts).

(** A user item whose first part is not a text is passed over, as [find_map] does.

    Source: crates/codegen/xai-chat-state/src/actor/queries.rs:240-256, [ChatStateActor::get_first_user_text]. *)
Definition get_first_user_text (s : ChatState) : option str :=
  find_map (fun item => match item with CUser u => head (u_content u) ≫= part_text | _ => None end) (conversation s).

(** Source: crates/codegen/xai-chat-state/src/actor/queries.rs:259-264, [ChatStateActor::get_conversation_item_at]. *)
Definition get_conversation_item_at (s : ChatState) (index : nat) : option ConversationItem := conversation s !! index.

(** Source: crates/codegen/xai-chat-state/src/actor/queries.rs:268-270, [ChatStateActor::get_last_user_query_text]. *)
Definition get_last_user_query_text (s : ChatState) : option str := extract_last_user_query (conversation s).

(** Source: crates/codegen/xai-chat-state/src/actor/queries.rs:273-293, [ChatStateActor::get_conversation_counts]. *)
Definition get_conversation_counts (s : ChatState) : ConversationCounts :=
  let count f := length (List.filter f (conversation s)) in
  mkCounts (length (conversation s)) (count is_user_item) (count is_assistant_item) (count is_result_item).

(** Source: crates/codegen/xai-chat-state/src/actor/queries.rs:296-302, [ChatStateActor::get_system_message]. *)
Definition get_system_message (s : ChatState) : option ConversationItem := List.find is_system_item (conversation s).

(** ** The request and the dispatcher *)

Section actor.
Context {J : JsonSizes}.

(** Source: crates/codegen/xai-chat-state/src/actor/request_builder.rs:99-110, [ChatStateActor::prune_items_for_turn_request]. *)
Definition prune_items_for_turn_request (a : Actor) (items : list ConversationItem) : list ConversationItem :=
  if should_prune (total_tokens (state a)) (sc_context_window (sampling_config (state a)))
  then prune_conversation items (pruning_config a) else items.

(** The reminder written into the conversation itself, and the one that is left
    to write into the request. *)
Definition persist_reminder (a : Actor) (memory_reminder : option str) (persist_memory_reminder : bool) :
    Actor * option str :=
  match memory_reminder with
  | Some reminder =>
      if persist_memory_reminder then
        let a := snapshot_turn_slice a in
        let '(items, injected) := inject_memory_reminder (conversation (state a)) reminder in
        let a := a {{ state -> conversation := items }} in
        let '(a, memory_reminder) :=
          if injected then (persist a (ReplaceHistory items), None) else (a, memory_reminder) in
        (rebase_turn_capture_offset a, memory_reminder)
      else (a, memory_reminder)
  | None => (a, memory_reminder)
  end.

(** Source: crates/codegen/xai-chat-state/src/actor/request_builder.rs:21-97, [ChatStateActor::build_conversation_request]. *)
Definition build_conversation_request (a : Actor) (tool_definitions : list ToolSpec) (memory_reminder : option str)
    (persist_memory_reminder : bool) (conv_id req_id : str) : Actor * ConversationRequest :=
  let '(a, memory_reminder) := persist_reminder a memory_reminder persist_memory_reminder in
  let budgeted := apply_image_budget (conversation (state a)) in
  let items := bc_items budgeted in
  let a :=
    if Nat.ltb 0 (inline_images (bc_outcome budgeted))
    then send_event a (ImageBudget (bc_outcome budgeted) IMAGE_COMPACT_TRIGGER_BYTES IMAGE_COMPACT_RECLAIM_TARGET_BYTES)
    else a in
  let items := prune_items_for_turn_request a items in
  let items :=
    match memory_reminder with
    | Some reminder => fst (inject_memory_reminder items reminder)
    | None => items
    end in
  let items := model_request_history items in
  let config := sampling_config (state a) in
  (a, mkRequest items tool_definitions (Some (sc_model config)) (sc_temperature config) (max_completion_tokens config)
        (sc_top_p config) (Some conv_id) (Some req_id) (sc_reasoning_effort config) CompleteToolCalls).

(** The item a strict append made authoritative, if any. *)
Definition append_authoritative (candidate : ConversationItem) (result : AppendResult) : option ConversationItem :=
  match result with
  | inl Appended | inr (Committed Appended) => Some candidate
  | inl (AlreadyPresent authoritative) | inr (Committed (AlreadyPresent authoritative)) => Some authoritative
  | inr NotCommitted | inr Indeterminate => None
  end.

Definition append_working_directory_switch (a : Actor) (content : str) (generation : N) (ack : option AppendResult) :
    Actor * AppendResult :=
  let candidate := item_working_directory_switch content generation in
  let a := pop_stranded_continue_reminder a in
  let a := persist a (PersistWorkingDirectorySwitchAndAck candidate) in
  let result := default (inr Indeterminate) ack in
  (match append_authoritative candidate result with
   | Some authoritative => converge_working_directory_switch a generation authoritative
   | None => a
   end, result).

Definition take_turn_messages (a : Actor) : Actor * option TurnCapture :=
  (a {{ state -> turn_capture := None }},
   (fun cap => mkTurnCapture
      (pre_replacement_messages cap ++ turn_tail (conversation (state a)) (turn_start_offset cap))
      (cap_compaction_occurred cap)) <$> turn_capture (state a)).

(** Source: crates/codegen/xai-chat-state/src/actor/mod.rs:117-485, [ChatStateActor::handle_command]. *)
Definition handle_command (a : Actor) (cmd : ChatStateCommand) : Actor * Reply :=
  let s := state a in
  match cmd with
  | PushUserMessage item => (push_user_message a item, RNothing)
  | PushUserMessagesBatch items => (foldl push_user_message a items, RNothing)
  | PushUserMessagesBatchAndAck items => (foldl push_user_message a items, RUnit)
  | PushUserMessageAndAck item => (push_user_message a item, RUnit)
  | AppendWorkingDirectorySwitchAndAck content generation ack =>
      let '(a, result) := append_working_directory_switch a content generation ack in (a, RAppend result)
  | PushUserMessageWithRepairReason item reason => (push_user_message_with_repair_reason a item reason, RNothing)
  | PushAssistantResponse item => (push_message a item, RNothing)
  | PushToolResult item => (push_message a item, RNothing)
  | PushModelOutput item => (push_model_output a item, RNothing)
  | PushUnreportedModelOutput item => (push_unreported_model_output a item, RNothing)
  | RecordTokenUsage tokens => (record_token_usage a tokens, RNothing)
  | RecordLastTurnUsage usage => (record_last_turn_usage a usage, RNothing)
  | RecordModelCallUsage model_id usage d c => (record_model_call_usage a model_id usage d c, RNothing)
  | RecordResponseIdentity model_id api => (record_response_identity a model_id api, RNothing)
  | RecordSubagentUsage by_model p i => (record_subagent_usage a by_model p i, RUnit)
  | MarkUsageIncomplete p s => (mark_usage_incomplete a p s, RUnit)
  | IncrementPromptIndex => (increment_prompt_index a, RNothing)
  | UpdateSamplingConfig config => (a {{ state -> sampling_config := config }}, RNothing)
  | RecordAgentEditedPath path => (a {{ state -> agent_edited_paths ::= fun ps => {[path]} ∪ ps }}, RNothing)
  | RecordStreamStart t => (a {{ state -> stream_start_ms := Some t }}, RNothing)
  | RecordTurnStart t => (a {{ state -> turn_start_ms := Some t }}, RNothing)
  | ReplaceConversation items c tip => (replace_conversation a items c tip, RNothing)
  | RepairHistory dry_run turn_active =>
      if default false turn_active then (a, RRepair None)
      else let '(a, report) := actor_repair_history a dry_run in (a, RRepair (Some report))
  | StripConversationImages urls ack =>
      match strip_conversation_images a urls with
      | (a, None) => (a, RStrip NoMatch)
      | (a, Some stripped) =>
          (a, RStrip (match ack with Some true => StripApplied stripped | _ => StripWriteFailed stripped end))
      end
  | ReplaceSystemHead prompt => let '(a, changed) := replace_system_head a prompt in (a, RBool changed)
  | CachePromptText text => (a {{ state -> prompt_texts ::= fun l => l ++ [text] }}, RNothing)
  | RecordCompactionAt i => (a {{ state -> last_compaction_prompt_index := Some i }}, RNothing)
  | Flush => (persist a PersistFlush, RNothing)
  | UpdateCredentials c => (a {{ state -> credentials := c }}, RNothing)
  | RestoreSnapshot snap => (restore_snapshot a snap, RNothing)
  | BeginTurnCapture =>
      (a {{ state -> turn_capture := Some (mkCapture (length (conversation s)) [] false) }}, RNothing)
  | AppendHarnessTraceItems items => (a {{ state -> harness_trace_buffer ::= fun l => l ++ items }}, RNothing)
  | FlushHarnessTraceTurn => (a {{ state ::= seal_harness_trace_turn }}, RNothing)
  | RepairDanglingAfterHarnessHalt class => (repair_dangling_after_harness_halt a class, RNothing)
  | PopStrandedContinueReminder => (pop_stranded_continue_reminder a, RNothing)
  | BuildConversationRequest tools reminder p conv_id req_id =>
      let a := ensure_conversation_integrity a in
      let '(a, request) := build_conversation_request a tools reminder p conv_id req_id in (a, RRequest request)
  | GetConversation => (a, RItems (conversation s))
  | GetPromptIndex => (a, RNat (prompt_index s))
  | GetLastCompactionPromptIndex => (a, RIndex (last_compaction_prompt_index s))
  | GetTotalTokens => (a, RTokens (total_tokens s))
  | GetLastTurnUsage => (a, RUsage (last_turn_usage s))
  | GetPromptUsage => (a, RLedger (prompt_usage s))
  | GetSessionUsage => (a, RLedger (Some (session_usage s)))
  | GetEstimatedTotalTokens => (a, RTokens (wrap64 (total_tokens s + estimated_tokens_since_model s)))
  | GetEstimatedMessagesTokens => (a, RTokens (estimate_messages_tokens (conversation s)))
  | GetSamplingConfig => (a, RConfig (sampling_config s))
  | ApplyTurnRequestPruning items => (a, RItems (prune_items_for_turn_request a items))
  | GetAgentEditedPaths => (a, RPaths (agent_edited_paths s))
  | GetNotificationMeta => (a, RMeta (get_notification_meta s))
  | Snapshot => (a, RSnapshot (snapshot s))
  | TruncateToPromptIndex target =>
      ((truncate_to_prompt_index a target) {{ state -> turn_capture := None; state -> prompt_usage := None }}, RUnit)
  | CheckAutoCompactNeeded p => (a, RTrigger (check_auto_compact_needed s p))
  | GetCredentials => (a, RCredentials (credentials s))
  | GetLastModelMetadata => (a, RModel (get_last_model_metadata s))
  | TakeTurnMessages => let '(a, capture) := take_turn_messages a in (a, RCapture capture)
  | TakeHarnessTraceTurns =>
      let s := seal_harness_trace_turn s in
      (a {{ state := s {{ harness_trace_turns := [] }} }}, RTurns (harness_trace_turns s))
  | GetConversationLen => (a, RNat (get_conversation_len s))
  | HasDanglingToolCalls => (a, RBool (has_dangling_tool_calls (conversation s)))
  | GetLastAssistantText => (a, RText (get_last_assistant_text s))
  | GetTrailingAssistantReport => (a, RText (get_trailing_assistant_report s))
  | GetLastAssistantTextInTurn => (a, RText (get_last_assistant_text_in_turn s))
  | GetAssistantTextInTurn => (a, RText (get_assistant_text_in_turn s))
  | GetFirstUserText => (a, RText (get_first_user_text s))
  | GetConversationItemAt i => (a, RItem (get_conversation_item_at s i))
  | GetLastUserQueryText => (a, RText (get_last_user_query_text s))
  | GetConversationCounts => (a, RCounts (get_conversation_counts s))
  | GetSystemMessage => (a, RItem (get_system_message s))
  end.

(** The actor loop over the commands received.

    Source: crates/codegen/xai-chat-state/src/actor/mod.rs:97-114, [ChatStateActor::run]. *)
Definition run_actor (a : Actor) (commands : list ChatStateCommand) : Actor :=
  foldl (fun a cmd => fst (handle_command a cmd)) a commands.
End actor.
