(* ===== verification/ChatStateSpec.v ===== *)
(** * The conversation actor: what it guarantees

    Theorems about [ChatState]: the persisted history is the conversation, the
    requests built are well paired, the turn capture is complete, the counters are
    in range, a rewind cuts where it should, a snapshot restores what it took, the
    harness traces are never lost. *)

From S2P Require Export ChatState.

(** ** The disk *)

(** The history file as a list of items: a line per item. The strict append looks
    for the generation first.

    Source: crates/codegen/xai-grok-shell/src/session/storage/jsonl/mod.rs:523-536, [JsonlStorageAdapter::find_cwd_switch_generation]. *)
Definition find_cwd_switch_generation (disk : list ConversationItem) (generation : N) : option ConversationItem :=
  List.find (is_switch_of generation) disk.

(** A strict append all of whose writes succeed.

    Source: crates/codegen/xai-grok-shell/src/session/storage/jsonl/mod.rs:537-591, [JsonlStorageAdapter::append_cwd_switch_line_sync_with]. *)
Definition append_cwd_switch (disk : list ConversationItem) (item : ConversationItem) :
    list ConversationItem * StrictAppendAck :=
  match working_directory_switch_generation item with
  | Some generation =>
      match find_cwd_switch_generation disk generation with
      | Some authoritative => (disk, AlreadyPresent authoritative)
      | None => (disk ++ [item], Appended)
      end
  | None => (disk, Appended)
  end.

(** What a persistence call does to the file when its writes succeed. *)
Definition disk_step (disk : list ConversationItem) (c : PersistCall) : list ConversationItem :=
  match c with
  | PersistMessage item | PersistMessageWithProviderUsage item _ _ => disk ++ [item]
  | PersistWorkingDirectorySwitchAndAck item => fst (append_cwd_switch disk item)
  | ReplaceHistory items | ReplaceHistoryForLhcWriteback items _ | ReplaceHistoryForStripAndAck items => items
  | PersistFlush => disk
  end.

(** The file when the actor's calls have been served. *)
Definition disk_of (start : list ConversationItem) (a : Actor) : list ConversationItem :=
  foldl disk_step start (persistence a).

(** The conversation in memory is the one on disk. *)
Definition mirrored (start : list ConversationItem) (a : Actor) : Prop := disk_of start a = conversation (state a).

(** The commands whose acknowledgement is the disk's own; a snapshot is restored
    in memory only. *)
Definition served (start : list ConversationItem) (a : Actor) (cmd : ChatStateCommand) : Prop :=
  match cmd with
  | AppendWorkingDirectorySwitchAndAck content generation ack =>
      let disk := disk_of start (pop_stranded_continue_reminder a) in
      let answer := snd (append_cwd_switch disk (item_working_directory_switch content generation)) in
      ack = Some (inl answer) ∨ ack = Some (inr (Committed answer))
  | RestoreSnapshot _ => False
  | _ => True
  end.

(** ** The turn capture *)

(** The messages of the open turn, if one is captured. *)
Definition captured (s : ChatState) : option (list ConversationItem) :=
  (fun cap => pre_replacement_messages cap ++ turn_tail (conversation s) (turn_start_offset cap)) <$> turn_capture s.

(** The pruning of the retained history clears contents in place. *)
Definition erase_content (item : ConversationItem) : ConversationItem :=
  match item with
  | CToolResult t => CToolResult (with_tr t [] (tr_images t))
  | other => other
  end.

(** What a command pushes. *)
Definition pushed (cmd : ChatStateCommand) : list ConversationItem :=
  match cmd with
  | PushUserMessage item | PushUserMessageAndAck item | PushUserMessageWithRepairReason item _
  | PushAssistantResponse item | PushToolResult item | PushModelOutput item | PushUnreportedModelOutput item => [item]
  | PushUserMessagesBatch items | PushUserMessagesBatchAndAck items => items
  | _ => []
  end.

(** The commands a turn is made of: those that neither open nor close a capture,
    and rewrite no message of it in place. *)
Definition in_turn (cmd : ChatStateCommand) : bool :=
  match cmd with
  | BeginTurnCapture | TakeTurnMessages | TruncateToPromptIndex _ | StripConversationImages _ _
  | AppendWorkingDirectorySwitchAndAck _ _ _ => false
  | RepairHistory dry_run _ => dry_run
  | _ => true
  end.

(** The capture starts inside the conversation. *)
Definition capture_ok (s : ChatState) : Prop :=
  ∀ cap, turn_capture s = Some cap -> turn_start_offset cap ≤ length (conversation s).

(** ** Lemmas: rewrites in closed form *)

(** The capture after a snapshot, a change of the conversation, and a rebase. *)
Definition recapture (s : ChatState) (items : list ConversationItem) : option TurnCaptureState :=
  (fun cap => mkCapture (length items) (pre_replacement_messages cap ++ turn_tail (conversation s) (turn_start_offset cap))
                (cap_compaction_occurred cap)) <$> turn_capture s.

Definition rewrite_call (kind : HistoryRewrite) (items : list ConversationItem) : PersistCall :=
  match kind with
  | IntegrityRepair | RetainedPrune => ReplaceHistory items
  | ImageStrip => ReplaceHistoryForStripAndAck items
  end.

(** Reduces the matches on a capture that [E] gives, up to conversion. *)
Ltac reduce_capture E :=
  repeat (match goal with |- context [match ?x with Some _ => _ | None => _ end] => rewrite (E : x = _) end;
          cbn; unfold constant).

Lemma rewrite_history_eq a kind mutate :
  let items := fst (mutate (conversation (state a))) in
  let changed := snd (mutate (conversation (state a))) in
  rewrite_history a kind mutate =
  (a {{ state -> conversation := items;
        state -> turn_capture :=
          match kind with IntegrityRepair => recapture (state a) items | _ => turn_capture (state a) end;
        persistence := persistence a ++ (if Nat.ltb 0 changed then [rewrite_call kind items] else []) }},
   changed,
   match kind with ImageStrip => Nat.ltb 0 changed | _ => false end).
Proof.
  unfold rewrite_history, snapshot_turn_slice, rebase_turn_capture_offset, recapture.
  assert (Hnil : persistence a ++ [] = persistence a) by apply app_nil_r.
  destruct kind; cbn; [destruct (turn_capture (state a)) as [cap|] eqn:E; cbn| |];
    destruct (mutate _) as [items [|changed]]; cbn; unfold constant; rewrite ?Hnil; reduce_capture E; done.
Qed.

Lemma replace_conversation_eq a items is_compaction tip :
  replace_conversation a items is_compaction tip =
  let base := estimate_conversation_tokens items in
  let total := reseed_total_tokens (state a) base in
  a {{ state -> conversation := items;
       state -> turn_capture :=
         (fun cap => mkCapture (turn_start_offset cap) (pre_replacement_messages cap)
                       (is_compaction || cap_compaction_occurred cap)) <$> recapture (state a) items;
       state -> estimated_tokens_since_model := 0%N;
       state -> total_tokens := total;
       state -> estimate_at_last_response := base;
       persistence := persistence a ++
         [match tip with Some t => ReplaceHistoryForLhcWriteback items t | None => ReplaceHistory items end];
       sent_events := sent_events a ++ [ConversationReset (length items)] ++ [TokensUpdated total] }}.
Proof.
  unfold replace_conversation, snapshot_turn_slice, rebase_turn_capture_offset, recapture, send_event, persist.
  destruct (turn_capture (state a)) as [cap|] eqn:E; cbn; reduce_capture E; destruct is_compaction, tip; cbn;
    unfold constant; reduce_capture E; rewrite <- ?app_assoc; done.
Qed.

(** ** Lemmas: the mirror *)

Definition faithful (mutate : list ConversationItem -> list ConversationItem * nat) : Prop :=
  ∀ c, snd (mutate c) = 0 -> fst (mutate c) = c.

Lemma repair_integrity_faithful reason : faithful (repair_integrity reason).
Proof.
  intros c. unfold repair_integrity. rewrite dedup_keep_last, repair_backfill. cbn [fst snd].
  pose proof (sublist_length _ _ (backfill_sublist reason [] [] (keep_last false c))) as Hlen.
  intros H0. rewrite <- (sublist_same_length _ _ (backfill_sublist reason [] [] (keep_last false c))) by lia.
  apply keep_last_same_length. lia.
Qed.

Lemma pop_reminders_faithful : faithful pop_reminders.
Proof.
  intros c. unfold pop_reminders. cbn [fst snd]. destruct (drop_while_end_prefix is_continue_reminder c) as [k Hk].
  intros H0. assert (length k = 0).
  { pose proof (f_equal length Hk) as Hl. rewrite length_app in Hl. lia. }
  destruct k; [|done]. by rewrite app_nil_r in Hk.
Qed.

Lemma clear_faithful th : faithful (clear_old_results th).
Proof.
  intros c. pose proof (clear_old_results_spec th c) as H. destruct (clear_old_results th c). by destruct H.
Qed.

Lemma strip_faithful urls : faithful (fun c => strip_images_by_url c urls).
Proof.
  intros c. unfold strip_images_by_url.
  pose proof (strip_images_where_id (fun url => existsb (fun u => str_eqb u url) urls) c) as H.
  destruct (strip_images_where _ c) as [items stripped]. cbn [fst snd] in *. intros H0.
  apply H. by destruct stripped.
Qed.

Section mirror.
Context {J : JsonSizes} (start : list ConversationItem).

Lemma mirrored_same a a' :
  conversation (state a') = conversation (state a) -> persistence a' = persistence a ->
  mirrored start a -> mirrored start a'.
Proof. unfold mirrored, disk_of. by intros -> ->. Qed.

Lemma mirrored_call a a' call :
  persistence a' = persistence a ++ [call] ->
  conversation (state a') = disk_step (conversation (state a)) call ->
  mirrored start a -> mirrored start a'.
Proof. unfold mirrored, disk_of. intros -> -> Hm. by rewrite foldl_app, Hm. Qed.

Lemma mirrored_rewrite a kind mutate :
  faithful mutate -> mirrored start a -> mirrored start (fst (fst (rewrite_history a kind mutate))).
Proof.
  intros Hf Hm. rewrite rewrite_history_eq. cbn [fst].
  destruct (snd (mutate (conversation (state a)))) as [|n] eqn:E.
  - apply (mirrored_same a); [by apply Hf|apply app_nil_r|done].
  - apply (mirrored_call a _ (rewrite_call kind (fst (mutate (conversation (state a)))))); [done| |done].
    by destruct kind.
Qed.

Lemma mirrored_integrity a reason : mirrored start a -> mirrored start (ensure_conversation_integrity_with_reason a reason).
Proof. apply mirrored_rewrite, repair_integrity_faithful. Qed.

Lemma mirrored_pop a : mirrored start a -> mirrored start (pop_stranded_continue_reminder a).
Proof.
  intros Hm. unfold pop_stranded_continue_reminder. destruct (negb _); [done|].
  apply mirrored_rewrite; [apply pop_reminders_faithful|done].
Qed.

Lemma mirrored_prune a : mirrored start a -> mirrored start (fst (prune_retained_conversation a)).
Proof.
  intros Hm. unfold prune_retained_conversation. destruct (negb _); [done|]. destruct (Nat.ltb _ _); [done|].
  match goal with |- context [rewrite_history a RetainedPrune ?m] =>
    pose proof (mirrored_rewrite a RetainedPrune m (clear_faithful _) Hm) as H;
    destruct (rewrite_history a RetainedPrune m) as [[a' n] b] end. exact H.
Qed.

Lemma mirrored_persist_push a item : mirrored start a -> mirrored start (persist_and_push_message a item).
Proof.
  apply mirrored_call with
    (call := PersistMessageWithProviderUsage item
       (if is_assistant_item item then pending_model_call_usage (state a) else None)
       (match item with CAssistant _ | CReasoning _ => pending_assistant_identity (state a) | _ => None end));
    by destruct item.
Qed.

Lemma mirrored_push a item : mirrored start a -> mirrored start (push_message a item).
Proof.
  intros Hm. apply mirrored_persist_push. destruct (negb _); [|done].
  by apply (mirrored_same a).
Qed.

Lemma mirrored_user a item reason :
  mirrored start a -> mirrored start (push_user_message_with_repair_reason a item reason).
Proof.
  intros Hm. apply mirrored_prune.
  apply mirrored_call with (a := ensure_conversation_integrity_with_reason
     (if ends_continuation item then pop_stranded_continue_reminder a else a) reason) (call := PersistMessage item);
    [done|done|].
  apply mirrored_integrity. destruct (ends_continuation item); [by apply mirrored_pop|done].
Qed.

Lemma mirrored_users a items : mirrored start a -> mirrored start (foldl push_user_message a items).
Proof. revert a. induction items as [|i items IH]; intros a Hm; [done|]. by apply IH, mirrored_user. Qed.

Lemma mirrored_replace a items c tip : mirrored start a -> mirrored start (replace_conversation a items c tip).
Proof.
  rewrite replace_conversation_eq.
  apply mirrored_call with (call := match tip with Some t => ReplaceHistoryForLhcWriteback items t | None => ReplaceHistory items end);
    [done|by destruct tip].
Qed.

(** Replacing outright forgets what the conversation was. *)
Lemma replaced_mirrored a items c tip : mirrored start (replace_conversation a items c tip).
Proof.
  rewrite replace_conversation_eq. unfold mirrored, disk_of. cbn. unfold constant. rewrite foldl_app. by destruct tip.
Qed.

Lemma replace_first_find {A} (f : A -> bool) (l : list A) (y : A) :
  match List.find f l with
  | Some x => replace_first f x l = Some (x, l)
  | None => replace_first f y l = None
  end.
Proof.
  induction l as [|x l IH]; [done|]. simpl. destruct (f x); [done|].
  destruct (List.find f l); by rewrite IH.
Qed.

Lemma mirrored_switch a content generation ack :
  mirrored start a -> served start a (AppendWorkingDirectorySwitchAndAck content generation ack) ->
  mirrored start (fst (append_working_directory_switch a content generation ack)).
Proof.
  intros Hm%mirrored_pop Hack. unfold append_working_directory_switch. cbn [fst].
  unfold served in Hack. cbv zeta in Hack. rewrite Hm in Hack.
  set (a1 := pop_stranded_continue_reminder a) in *. clearbody a1.
  set (item := item_working_directory_switch content generation) in *.
  assert (Hgen : working_directory_switch_generation item = Some generation) by done.
  unfold append_cwd_switch, find_cwd_switch_generation in Hack. rewrite Hgen in Hack.
  pose proof (replace_first_find (is_switch_of generation) (conversation (state a1)) item) as Hfind.
  assert (Hmirror : ∀ a', conversation (state a') = fst (append_cwd_switch (conversation (state a1)) item) ->
    persistence a' = persistence a1 ++ [PersistWorkingDirectorySwitchAndAck item] -> mirrored start a').
  { intros a' Hc Hp. by apply (mirrored_call a1 _ _ Hp). }
  unfold append_cwd_switch, find_cwd_switch_generation in Hmirror. rewrite Hgen in Hmirror.
  destruct (List.find (is_switch_of generation) (conversation (state a1))) as [x|]; cbn [fst snd] in *;
    destruct Hack as [-> | ->]; cbn [from_option id append_authoritative];
    unfold converge_working_directory_switch;
    match goal with |- context [replace_first ?f ?y ?l] => rewrite (Hfind : replace_first f y l = _) end;
    by apply Hmirror.
Qed.

Lemma mirrored_reminder a reminder p : mirrored start a -> mirrored start (fst (persist_reminder a reminder p)).
Proof.
  intros Hm. unfold persist_reminder. destruct reminder as [r|]; [|done]. destruct p; [|done].
  assert (Hs : conversation (state (snapshot_turn_slice a)) = conversation (state a)
             ∧ persistence (snapshot_turn_slice a) = persistence a).
  { unfold snapshot_turn_slice. by destruct (turn_capture (state a)). }
  destruct Hs as [Hs1 Hs2]. rewrite Hs1.
  assert (Hb : ∀ b, conversation (state (rebase_turn_capture_offset b)) = conversation (state b)
             ∧ persistence (rebase_turn_capture_offset b) = persistence b).
  { intros b. unfold rebase_turn_capture_offset. by destruct (turn_capture (state b)). }
  destruct (inject_memory_reminder (conversation (state a)) r) as [items injected] eqn:E.
  destruct injected; cbn [fst].
  - apply (mirrored_call a _ (ReplaceHistory items)); [|by rewrite (proj1 (Hb _))|done].
    rewrite (proj2 (Hb _)). exact (f_equal (fun p => p ++ [ReplaceHistory items]) Hs2).
  - apply (mirrored_same a); [|rewrite (proj2 (Hb _)); exact Hs2|done]. rewrite (proj1 (Hb _)). cbn. unfold constant.
    revert E. unfold inject_memory_reminder. destruct (is_empty (trim r)); [congruence|].
    destruct (conversation (state a)) as [|x l]; [congruence|]. destruct x as [sys| | | | |]; try congruence.
    unfold upsert_memory_reminder_text. cbv zeta. match goal with |- context [str_eqb (sys_content sys) ?u] =>
      set (u' := u); destruct (str_eqb (sys_content sys) u') eqn:Eu end; [|done].
    apply str_eqb_eq in Eu. intros [= <-]. rewrite <- Eu. by destruct sys.
Qed.

Lemma mirrored_repair_history a dry_run : mirrored start a -> mirrored start (fst (actor_repair_history a dry_run)).
Proof.
  intros Hm. unfold actor_repair_history. destruct dry_run; [done|].
  pose proof (repair_history_unchanged (conversation (state a))) as Hun.
  destruct (repair_history (conversation (state a))) as [items report] eqn:E. cbn [fst snd] in Hun.
  cbn [fst snd].
  destruct (report_changed report) eqn:Ec; [apply replaced_mirrored|].
  apply (mirrored_same a); [cbn; unfold constant; by rewrite Hun|done|done].
Qed.

Lemma mirrored_truncate a target : mirrored start a -> mirrored start (truncate_to_prompt_index a target).
Proof.
  intros Hm. unfold truncate_to_prompt_index. destruct (Nat.leb _ _); [done|].
  by eapply (mirrored_call a _ (ReplaceHistory _)).
Qed.

Lemma mirrored_handle a cmd :
  served start a cmd -> mirrored start a -> mirrored start (fst (handle_command a cmd)).
Proof.
  intros Hs Hm. pose proof (mirrored_same a) as Hsame. destruct cmd; cbn [handle_command fst]; try done.
  all: try (by apply (Hsame _ eq_refl eq_refl Hm)).
  - by apply mirrored_user.
  - by apply mirrored_users.
  - by apply mirrored_users.
  - by apply mirrored_user.
  - pose proof (mirrored_switch a content cwd_generation ack Hm Hs) as H.
    by destruct (append_working_directory_switch a content cwd_generation ack).
  - by apply mirrored_user.
  - by apply mirrored_push.
  - by apply mirrored_push.
  - by apply mirrored_persist_push.
  - by apply mirrored_persist_push, (Hsame _ eq_refl eq_refl).
  - unfold record_subagent_usage. destruct (_ && _); [done|]. destruct attribute_to_prompt; by apply Hsame.
  - unfold mark_usage_incomplete. destruct prompt, session; by apply Hsame.
  - by apply mirrored_replace.
  - destruct (default false turn_active); [done|]. pose proof (mirrored_repair_history a dry_run Hm) as H.
    by destruct (actor_repair_history a dry_run).
  - unfold strip_conversation_images.
    pose proof (mirrored_rewrite a ImageStrip _ (strip_faithful urls) Hm) as H.
    destruct (rewrite_history a ImageStrip _) as [[a' n] b]. by destruct b.
  - unfold replace_system_head. destruct (match conversation (state a) with CSystem _ :: _ => _ | _ => _ end); [done|].
    destruct (replace_or_insert_system_head _ _). by apply mirrored_replace.
  - by apply (mirrored_call a _ PersistFlush).
  - apply Hsame; [|done|done]. cbn. unfold seal_harness_trace_turn. by destruct (negb _).
  - by apply mirrored_integrity, mirrored_pop.
  - by apply mirrored_pop.
  - unfold build_conversation_request. pose proof (mirrored_reminder (ensure_conversation_integrity a) memory_reminder
      persist_memory_reminder (mirrored_integrity a UserCancelled Hm)) as H.
    destruct (persist_reminder _ _ _) as [a' r]. cbn [fst] in *. destruct (Nat.ltb _ _); by apply (mirrored_same a').
  - by apply (mirrored_same (truncate_to_prompt_index a target_prompt_index)), mirrored_truncate.
  - apply Hsame; [|done|done]. cbn. unfold seal_harness_trace_turn. by destruct (negb _).
Qed.
End mirror.

(** ** Lemmas: the turn capture *)

Lemma turn_tail_end c : turn_tail c (length c) = [].
Proof. unfold turn_tail. by rewrite Nat.leb_refl, drop_all. Qed.

Lemma turn_tail_le c n : n ≤ length c -> turn_tail c n = drop n c.
Proof. intros. unfold turn_tail. by rewrite (proj2 (Nat.leb_le _ _)). Qed.

(** The captured messages, up to the contents that pruning clears. *)
Definition turn_view (s : ChatState) : option (list ConversationItem) := map erase_content <$> captured s.

(** An operation that keeps the capture and adds [items] to the turn. *)
Definition grows (s s' : ChatState) (items : list ConversationItem) : Prop :=
  capture_ok s -> capture_ok s' ∧ turn_view s' = (fun l => l ++ map erase_content items) <$> turn_view s.

Lemma grows_trans s1 s2 s3 l1 l2 : grows s1 s2 l1 -> grows s2 s3 l2 -> grows s1 s3 (l1 ++ l2).
Proof.
  intros H1 H2 Hok. destruct (H1 Hok) as [Hok2 Hv2], (H2 Hok2) as [Hok3 Hv3]. split; [done|].
  rewrite Hv3, Hv2. destruct (turn_view s1); [|done]. cbn. by rewrite map_app, app_assoc.
Qed.

Lemma grows_none s1 s2 s3 l : grows s1 s2 [] -> grows s2 s3 l -> grows s1 s3 l.
Proof. apply grows_trans. Qed.

Lemma grows_same s s' :
  conversation s' = conversation s -> turn_capture s' = turn_capture s -> grows s s' [].
Proof.
  unfold grows, capture_ok, turn_view, captured. intros -> ->. intros Hok. split; [done|].
  destruct (turn_capture s); [|done]. cbn. by rewrite app_nil_r.
Qed.

Lemma grows_recapture s s' f :
  turn_capture s' = (fun cap => mkCapture (turn_start_offset cap) (pre_replacement_messages cap) (f cap))
                      <$> recapture s (conversation s') ->
  grows s s' [].
Proof.
  unfold grows, capture_ok, turn_view, captured, recapture. intros ->. intros Hok.
  destruct (turn_capture s) as [cap|]; [|done]. cbn. split; [by intros ? [= <-]|].
  by rewrite turn_tail_end, !app_nil_r.
Qed.

Lemma grows_recapture' s s' : turn_capture s' = recapture s (conversation s') -> grows s s' [].
Proof.
  intros Hc. apply (grows_recapture _ _ cap_compaction_occurred). rewrite Hc.
  unfold recapture. by destruct (turn_capture s).
Qed.

Lemma grows_push s s' item :
  conversation s' = conversation s ++ [item] -> turn_capture s' = turn_capture s -> grows s s' [item].
Proof.
  unfold grows, capture_ok, turn_view, captured. intros -> ->. intros Hok.
  destruct (turn_capture s) as [cap|]; [|done]. specialize (Hok cap eq_refl). cbn.
  split; [intros ? [= <-]; rewrite length_app; lia|]. f_equal.
  rewrite !turn_tail_le by (rewrite ?length_app; lia). rewrite drop_app_le by done.
  by rewrite !map_app, app_assoc.
Qed.

Lemma grows_erased s s' :
  map erase_content (conversation s') = map erase_content (conversation s) ->
  turn_capture s' = turn_capture s -> grows s s' [].
Proof.
  unfold grows, capture_ok, turn_view, captured. intros He ->. intros Hok.
  assert (Hlen : length (conversation s') = length (conversation s)).
  { pose proof (f_equal length He) as Hl. by rewrite !length_map in Hl. }
  destruct (turn_capture s) as [cap|]; [|done]. specialize (Hok cap eq_refl). cbn.
  split; [intros ? [= <-]; lia|]. f_equal. rewrite app_nil_r, !map_app. f_equal.
  rewrite !turn_tail_le by lia. by rewrite <- !skipn_map, He.
Qed.

Lemma clear_erased th c : map erase_content (fst (clear_old_results th c)) = map erase_content c.
Proof.
  unfold clear_old_results. cbn [fst]. rewrite prune_walk_ref. induction c as [|x c IH]; [done|].
  destruct x; cbn [prune_ref map]; rewrite IH; try done. f_equal. unfold clear_result. by repeat case_match.
Qed.

Lemma grows_integrity a mutate : grows (state a) (state (fst (fst (rewrite_history a IntegrityRepair mutate)))) [].
Proof. rewrite rewrite_history_eq. by apply grows_recapture'. Qed.

Lemma grows_pop a : grows (state a) (state (pop_stranded_continue_reminder a)) [].
Proof.
  unfold pop_stranded_continue_reminder. destruct (negb _); [by apply grows_same|]. apply grows_integrity.
Qed.

Lemma grows_prune a : grows (state a) (state (fst (prune_retained_conversation a))) [].
Proof.
  unfold prune_retained_conversation. destruct (negb _); [by apply grows_same|].
  destruct (Nat.ltb _ _); [by apply grows_same|]. rewrite rewrite_history_eq. cbn [fst].
  apply grows_erased; [apply clear_erased|done].
Qed.

Lemma grows_persist_push a item : grows (state a) (state (persist_and_push_message a item)) [item].
Proof. apply grows_push; by destruct item. Qed.

Lemma grows_user a item reason : grows (state a) (state (push_user_message_with_repair_reason a item reason)) [item].
Proof.
  unfold push_user_message_with_repair_reason.
  eapply (grows_none _ (state (if ends_continuation item then pop_stranded_continue_reminder a else a))).
  { destruct (ends_continuation item); [apply grows_pop|by apply grows_same]. }
  set (a1 := if ends_continuation item then _ else _). clearbody a1.
  eapply grows_none; [apply grows_integrity|]. eapply (grows_trans _ _ _ [item] []); [|apply grows_prune].
  by apply grows_push.
Qed.

Lemma grows_users a items : grows (state a) (state (foldl push_user_message a items)) items.
Proof.
  revert a. induction items as [|i items IH]; intros a; [by apply grows_same|].
  cbn [foldl]. apply (grows_trans _ (state (push_user_message a i)) _ [i] items); [apply grows_user|apply IH].
Qed.

Lemma grows_replace a items c tip : grows (state a) (state (replace_conversation a items c tip)) [].
Proof.
  rewrite replace_conversation_eq. cbv zeta.
  by apply (grows_recapture _ _ (fun cap => c || cap_compaction_occurred cap)).
Qed.

Lemma rebase_state b :
  conversation (state (rebase_turn_capture_offset b)) = conversation (state b)
  ∧ turn_capture (state (rebase_turn_capture_offset b))
    = (fun cap => mkCapture (length (conversation (state b))) (pre_replacement_messages cap) (cap_compaction_occurred cap))
        <$> turn_capture (state b).
Proof.
  unfold rebase_turn_capture_offset. destruct (turn_capture (state b)) as [cap|] eqn:E; [done|].
  split; [done|]. exact E.
Qed.

Lemma snapshot_capture a :
  turn_capture (state (snapshot_turn_slice a))
  = (fun cap => mkCapture (turn_start_offset cap)
       (pre_replacement_messages cap ++ turn_tail (conversation (state a)) (turn_start_offset cap))
       (cap_compaction_occurred cap)) <$> turn_capture (state a).
Proof. unfold snapshot_turn_slice. destruct (turn_capture (state a)) as [cap|] eqn:E; [done|]. exact E. Qed.

(** A change between a snapshot and a rebase. *)
Lemma snapshot_rebase a b :
  turn_capture (state b) = turn_capture (state (snapshot_turn_slice a)) ->
  grows (state a) (state (rebase_turn_capture_offset b)) [].
Proof.
  intros Hb. destruct (rebase_state b) as [Hc Ht]. apply grows_recapture'.
  rewrite Ht, Hc, Hb, snapshot_capture. unfold recapture. by destruct (turn_capture (state a)).
Qed.

Lemma grows_reminder a reminder p : grows (state a) (state (fst (persist_reminder a reminder p))) [].
Proof.
  unfold persist_reminder. destruct reminder as [r|]; [|by apply grows_same]. destruct p; [|by apply grows_same].
  destruct (inject_memory_reminder _ r) as [items injected].
  destruct injected; by apply snapshot_rebase.
Qed.

Lemma grows_restore a snap : grows (state a) (state (restore_snapshot a snap)) [].
Proof.
  unfold restore_snapshot. eapply (grows_none _ (state (rebase_turn_capture_offset _)));
    [by apply (snapshot_rebase a ((snapshot_turn_slice a) {{ state -> conversation := sn_conversation snap }}))|].
  by apply grows_same.
Qed.

Lemma grows_dry_run `{JsonSizes} a turn_active :
  grows (state a) (state (fst (handle_command a (RepairHistory true turn_active)))) [].
Proof. cbn [handle_command]. by destruct (default false turn_active); apply grows_same. Qed.

Lemma sealed_grows s : grows s (seal_harness_trace_turn s) [].
Proof. apply grows_same; unfold seal_harness_trace_turn; by destruct (negb _). Qed.

Lemma grows_handle `{JsonSizes} a cmd :
  in_turn cmd = true -> grows (state a) (state (fst (handle_command a cmd))) (pushed cmd).
Proof.
  intros Hin. destruct cmd; try discriminate Hin; cbn [pushed].
  all: try (by apply grows_same).
  - apply grows_user.
  - apply grows_users.
  - apply grows_users.
  - apply grows_user.
  - apply grows_user.
  - cbn [handle_command fst]. unfold push_message. destruct (negb _); [|apply grows_persist_push].
    eapply (grows_none _ (state (add_estimate a item))); [by apply grows_same|apply grows_persist_push].
  - cbn [handle_command fst]. unfold push_message. destruct (negb _); [|apply grows_persist_push].
    eapply (grows_none _ (state (add_estimate a item))); [by apply grows_same|apply grows_persist_push].
  - apply grows_persist_push.
  - eapply (grows_none _ (state (add_estimate a item))); [by apply grows_same|apply grows_persist_push].
  - cbn [handle_command fst]. unfold record_subagent_usage. destruct (_ && _); [by apply grows_same|].
    destruct attribute_to_prompt; by apply grows_same.
  - cbn [handle_command fst]. unfold mark_usage_incomplete. destruct prompt, session; by apply grows_same.
  - apply grows_replace.
  - simpl in Hin. subst dry_run. apply grows_dry_run.
  - cbn [handle_command]. unfold replace_system_head.
    destruct (match conversation (state a) with CSystem _ :: _ => _ | _ => _ end); [by apply grows_same|].
    destruct (replace_or_insert_system_head _ _). apply grows_replace.
  - apply grows_restore.
  - apply sealed_grows.
  - cbn [handle_command fst]. unfold repair_dangling_after_harness_halt.
    eapply grows_none; [apply grows_pop|apply grows_integrity].
  - apply grows_pop.
  - cbn [handle_command]. unfold build_conversation_request.
    pose proof (grows_reminder (ensure_conversation_integrity a) memory_reminder persist_memory_reminder) as Hr.
    destruct (persist_reminder _ _ _) as [a' r]. cbn [fst] in *.
    eapply grows_none; [apply grows_integrity|]. eapply grows_none; [exact Hr|].
    destruct (Nat.ltb _ _); by apply grows_same.
  - cbn [handle_command fst]. eapply grows_none; [apply sealed_grows|]. by apply grows_same.
Qed.

Lemma take_view a l :
  turn_view (state a) = Some l ->
  ∃ c, snd (take_turn_messages a) = Some c ∧ map erase_content (tc_messages c) = l.
Proof.
  unfold turn_view, captured, take_turn_messages. cbn [snd].
  case (turn_capture (state a)); [|discriminate]. intros cap [= <-]. by eexists.
Qed.

(** ** Lemmas: what the operations leave alone *)

(** The totals, the ledgers and the traces. *)
Definition counters (s : ChatState) :=
  (total_tokens s, estimate_at_last_response s, prompt_usage s, session_usage s).
Definition rest (s : ChatState) := (counters s, harness_trace_buffer s, harness_trace_turns s).

Lemma rest_rewrite a kind mutate :
  rest (state (fst (fst (rewrite_history a kind mutate)))) = rest (state a)
  ∧ estimated_tokens_since_model (state (fst (fst (rewrite_history a kind mutate)))) = estimated_tokens_since_model (state a).
Proof. by rewrite rewrite_history_eq. Qed.

Lemma rest_integrity a reason :
  rest (state (ensure_conversation_integrity_with_reason a reason)) = rest (state a)
  ∧ estimated_tokens_since_model (state (ensure_conversation_integrity_with_reason a reason))
    = estimated_tokens_since_model (state a).
Proof. apply rest_rewrite. Qed.

Lemma rest_pop a :
  rest (state (pop_stranded_continue_reminder a)) = rest (state a)
  ∧ estimated_tokens_since_model (state (pop_stranded_continue_reminder a)) = estimated_tokens_since_model (state a).
Proof. unfold pop_stranded_continue_reminder. destruct (negb _); [done|]. apply rest_rewrite. Qed.

Lemma rest_prune a :
  rest (state (fst (prune_retained_conversation a))) = rest (state a)
  ∧ estimated_tokens_since_model (state (fst (prune_retained_conversation a))) = estimated_tokens_since_model (state a).
Proof.
  unfold prune_retained_conversation. destruct (negb _); [done|]. destruct (Nat.ltb _ _); [done|].
  by rewrite rewrite_history_eq.
Qed.

Lemma rest_persist_push a item :
  rest (state (persist_and_push_message a item)) = rest (state a)
  ∧ estimated_tokens_since_model (state (persist_and_push_message a item)) = estimated_tokens_since_model (state a).
Proof. by destruct item. Qed.

Lemma u64_0 : u64 0.
Proof. unfold u64. lia. Qed.

Lemma wrap64_u64 n : u64 (wrap64 n).
Proof. unfold u64, wrap64. pose proof (N.mod_lt n 18446744073709551616). lia. Qed.

Lemma rest_push a item :
  rest (state (push_message a item)) = rest (state a)
  ∧ (u64 (estimated_tokens_since_model (state a)) -> u64 (estimated_tokens_since_model (state (push_message a item)))).
Proof.
  unfold push_message. destruct (negb _).
  - destruct (rest_persist_push (add_estimate a item) item) as [-> ->]. split; [done|]. intros _. apply wrap64_u64.
  - by destruct (rest_persist_push a item) as [-> ->].
Qed.

Lemma rest_user a item reason :
  rest (state (push_user_message_with_repair_reason a item reason)) = rest (state a)
  ∧ u64 (estimated_tokens_since_model (state (push_user_message_with_repair_reason a item reason))).
Proof.
  unfold push_user_message_with_repair_reason. match goal with |- context [prune_retained_conversation ?x] =>
    destruct (rest_prune x) as [-> ->] end. split.
  - match goal with |- _ = ?r => change (rest (state (ensure_conversation_integrity_with_reason
      (if ends_continuation item then pop_stranded_continue_reminder a else a) reason)) = r) end.
    rewrite (proj1 (rest_integrity _ _)). destruct (ends_continuation item); [apply rest_pop|done].
  - apply wrap64_u64.
Qed.

Lemma rest_users a items :
  rest (state (foldl push_user_message a items)) = rest (state a)
  ∧ (u64 (estimated_tokens_since_model (state a)) ->
     u64 (estimated_tokens_since_model (state (foldl push_user_message a items)))).
Proof.
  revert a. induction items as [|i items IH]; intros a; [done|]. cbn [foldl].
  destruct (rest_user a i UserCancelled) as [Hr Hu]. destruct (IH (push_user_message a i)) as [IH1 IH2].
  split; [by rewrite IH1|auto].
Qed.

Lemma rest_converge a g item :
  rest (state (converge_working_directory_switch a g item)) = rest (state a)
  ∧ (u64 (estimated_tokens_since_model (state a)) ->
     u64 (estimated_tokens_since_model (state (converge_working_directory_switch a g item)))).
Proof.
  unfold converge_working_directory_switch. destruct (replace_first _ _ _) as [[x c]|]; (split; [done|]); intros Hu.
  - cbn. destruct (N.leb _ _); [apply sat_add64_u64|]. unfold u64 in *.
    match goal with |- (?n - _ <= _)%N => change (n <= u64_max)%N in Hu end. lia.
  - apply wrap64_u64.
Qed.

Lemma rest_switch a content g ack :
  rest (state (fst (append_working_directory_switch a content g ack))) = rest (state a)
  ∧ (u64 (estimated_tokens_since_model (state a)) ->
     u64 (estimated_tokens_since_model (state (fst (append_working_directory_switch a content g ack))))).
Proof.
  unfold append_working_directory_switch. cbn [fst]. destruct (rest_pop a) as [Hr Hu].
  destruct (append_authoritative _ _) as [item|].
  - match goal with |- context [converge_working_directory_switch ?x g item] =>
      destruct (rest_converge x g item) as [H1 H2] end.
    rewrite H1. split; [exact Hr|]. intros Hu0. apply H2. rewrite <- Hu in Hu0. exact Hu0.
  - split; [exact Hr|]. intros Hu0. rewrite <- Hu in Hu0. exact Hu0.
Qed.

Lemma rest_reminder a reminder p :
  rest (state (fst (persist_reminder a reminder p))) = rest (state a)
  ∧ estimated_tokens_since_model (state (fst (persist_reminder a reminder p))) = estimated_tokens_since_model (state a).
Proof.
  assert (Hs : rest (state (snapshot_turn_slice a)) = rest (state a)
    ∧ estimated_tokens_since_model (state (snapshot_turn_slice a)) = estimated_tokens_since_model (state a)).
  { unfold snapshot_turn_slice. by destruct (turn_capture (state a)). }
  assert (Hb : ∀ b, rest (state (rebase_turn_capture_offset b)) = rest (state b)
    ∧ estimated_tokens_since_model (state (rebase_turn_capture_offset b)) = estimated_tokens_since_model (state b)).
  { intros b. unfold rebase_turn_capture_offset. by destruct (turn_capture (state b)). }
  unfold persist_reminder. destruct reminder as [r|]; [|done]. destruct p; [|done].
  destruct (inject_memory_reminder _ r) as [items injected].
  destruct injected; cbn [fst]; rewrite (proj1 (Hb _)), (proj2 (Hb _)); exact Hs.
Qed.

(** What a replacement does to the totals. *)
Lemma replace_totals a items c tip :
  let s' := state (replace_conversation a items c tip) in
  total_tokens s' = reseed_total_tokens (state a) (estimate_conversation_tokens items)
  ∧ estimate_at_last_response s' = estimate_conversation_tokens items ∧ estimated_tokens_since_model s' = 0%N
  ∧ conversation s' = items
  ∧ prompt_usage s' = prompt_usage (state a) ∧ session_usage s' = session_usage (state a)
  ∧ harness_trace_buffer s' = harness_trace_buffer (state a) ∧ harness_trace_turns s' = harness_trace_turns (state a).
Proof. by rewrite replace_conversation_eq. Qed.

Lemma reseed_bound s base : (0 < total_tokens s)%N -> (reseed_total_tokens s base <= total_tokens s)%N.
Proof. intros H. unfold reseed_total_tokens. rewrite (proj2 (N.ltb_lt _ _)) by done. lia. Qed.

Lemma reseed_u64 s base : u64 base -> u64 (reseed_total_tokens s base).
Proof.
  intros H. unfold reseed_total_tokens. cbv zeta.
  assert (Hf : ∀ x, u64 (f64_round_to_uint u64_max x)) by (intros; apply f64_round_to_uint_bound).
  match goal with |- context [if ?b then f64_round_to_uint u64_max ?x else base] => specialize (Hf x) end.
  unfold u64 in *. destruct (N.ltb 0 (total_tokens s)); cbn [andb]; [|done].
  destruct (N.ltb _ _); lia.
Qed.

(** ** The type of the state *)

Definition state_typed (s : ChatState) : Prop :=
  u64 (total_tokens s) ∧ u64 (estimated_tokens_since_model s) ∧ u64 (estimate_at_last_response s)
  ∧ (∀ l, prompt_usage s = Some l -> ledger_ok l) ∧ ledger_ok (session_usage s).

Definition command_typed (cmd : ChatStateCommand) : Prop :=
  match cmd with
  | RecordTokenUsage tokens => u64 tokens
  | RecordModelCallUsage _ usage d c => op_ok (MainLoopCall [] usage d c)
  | RecordSubagentUsage by_model _ i => op_ok (Subagent by_model i)
  | RestoreSnapshot snap => u64 (sn_total_tokens snap) ∧ u64 (sn_estimate_at_last_response snap)
  | _ => True
  end.

Lemma typed_counters s s' :
  counters s' = counters s -> u64 (estimated_tokens_since_model s') -> state_typed s -> state_typed s'.
Proof.
  unfold counters. intros [= H1 H2 H3 H4] Hu (T1 & _ & T3 & T4 & T5).
  unfold state_typed. rewrite H1, H2, H3, H4. done.
Qed.

Lemma typed_rest s s' :
  rest s' = rest s -> u64 (estimated_tokens_since_model s') -> state_typed s -> state_typed s'.
Proof. intros H. apply typed_counters. exact (f_equal (fun p => fst (fst p)) H). Qed.

Lemma typed_rest' s s' :
  rest s' = rest s -> estimated_tokens_since_model s' = estimated_tokens_since_model s -> state_typed s -> state_typed s'.
Proof. intros Hr Hu Ht. apply (typed_rest s); [done| |done]. rewrite Hu. apply Ht. Qed.

Lemma typed_replace a items c tip : state_typed (state a) -> state_typed (state (replace_conversation a items c tip)).
Proof.
  intros (_ & _ & _ & T4 & T5). destruct (replace_totals a items c tip) as (H1 & H2 & H3 & _ & H5 & H6 & _).
  unfold state_typed. rewrite H1, H2, H3, H5, H6. pose proof u64_0.
  split; [apply reseed_u64, wrap64_u64|]. split; [done|]. split; [apply wrap64_u64|]. done.
Qed.

Lemma empty_ledger_ok : ledger_ok empty_ledger.
Proof. split; [apply no_usage_ok|]. repeat split; constructor. Qed.

Lemma open_ledger_ok l : (∀ l', l = Some l' -> ledger_ok l') -> ledger_ok (open_ledger l).
Proof. destruct l; [auto|intros _; apply empty_ledger_ok]. Qed.

Lemma ledger_step_ok l op : ledger_ok l -> op_ok op -> ledger_ok (ledger_step l op).
Proof.
  intros Hl Hop. destruct op as [m u d c|b i|]; cbn [ledger_step op_ok] in *; [| |done].
  - destruct Hop as (H1 & H2 & H3). apply fold_entry_ok; [done|by apply from_call_ok].
  - pose proof (fold_entries_ok b l Hop Hl) as Hok. unfold record_subagent. by destruct i.
Qed.

Lemma sealed_counters s : counters (seal_harness_trace_turn s) = counters s.
Proof. unfold seal_harness_trace_turn. by destruct (negb _). Qed.

Lemma sealed_estimate s :
  estimated_tokens_since_model (seal_harness_trace_turn s) = estimated_tokens_since_model s.
Proof. unfold seal_harness_trace_turn. by destruct (negb _). Qed.

(** The commands that touch the totals, the ledgers or the traces. *)
Definition touches_rest (cmd : ChatStateCommand) : bool :=
  match cmd with
  | RecordTokenUsage _ | RecordModelCallUsage _ _ _ _ | RecordSubagentUsage _ _ _ | MarkUsageIncomplete _ _
  | IncrementPromptIndex | ReplaceConversation _ _ _ | RepairHistory _ _ | ReplaceSystemHead _ | RestoreSnapshot _
  | AppendHarnessTraceItems _ | FlushHarnessTraceTurn | TakeHarnessTraceTurns | TruncateToPromptIndex _ => true
  | _ => false
  end.

Lemma rest_handle `{JsonSizes} a cmd :
  touches_rest cmd = false ->
  rest (state (fst (handle_command a cmd))) = rest (state a)
  ∧ (u64 (estimated_tokens_since_model (state a)) ->
     u64 (estimated_tokens_since_model (state (fst (handle_command a cmd))))).
Proof.
  intros Hc. destruct cmd; try discriminate Hc; cbn [handle_command fst]; try done.
  - destruct (rest_user a item UserCancelled). auto.
  - apply rest_users.
  - apply rest_users.
  - destruct (rest_user a item UserCancelled). auto.
  - pose proof (rest_switch a content cwd_generation ack). by destruct (append_working_directory_switch _ _ _ _).
  - destruct (rest_user a item reason). auto.
  - apply rest_push.
  - apply rest_push.
  - destruct (rest_persist_push a item) as [H1 H2]. split; [exact H1|]. rewrite <- H2. done.
  - destruct (rest_persist_push (add_estimate a item) item) as [H1 H2]. split; [done|]. intros _.
    unfold push_unreported_model_output. rewrite H2. apply wrap64_u64.
  - unfold strip_conversation_images.
    destruct (rest_rewrite a ImageStrip (fun c => strip_images_by_url c urls)) as [H1 H2].
    destruct (rewrite_history a ImageStrip _) as [[a' n] b]. rewrite <- H2. by destruct b.
  - destruct (rest_integrity (pop_stranded_continue_reminder a) (HarnessHalted class)) as [H1 H2], (rest_pop a) as [H3 H4].
    split; [exact (eq_trans H1 H3)|]. rewrite <- H4, <- H2. done.
  - destruct (rest_pop a) as [H1 H2]. rewrite <- H2. done.
  - unfold build_conversation_request. destruct (rest_integrity a UserCancelled) as [H1 H2].
    destruct (rest_reminder (ensure_conversation_integrity a) memory_reminder persist_memory_reminder) as [H3 H4].
    destruct (persist_reminder _ _ _) as [a' r]. cbn [fst] in *.
    pose proof (eq_trans H3 H1) as H5. pose proof (eq_trans H4 H2) as H6. rewrite <- H6.
    destruct (Nat.ltb _ _); [|done]. split; [exact H5|]. intros Hu. exact Hu.
Qed.

(** The replacement a swapped head, a repair or a plain replacement ends in. *)
Lemma replace_system_head_cases a prompt :
  fst (replace_system_head a prompt) = a
  ∨ ∃ items, fst (replace_system_head a prompt) = replace_conversation a items false None.
Proof.
  unfold replace_system_head. destruct (match conversation (state a) with CSystem _ :: _ => _ | _ => _ end); [by left|].
  destruct (replace_or_insert_system_head _ _) as [items changed]. right. by exists items.
Qed.

Lemma repair_history_cases a dry_run :
  let a' := fst (actor_repair_history a dry_run) in
  a' = a ∨ ∃ items, a' = a {{ state -> conversation := items }}
    ∨ a' = replace_conversation (a {{ state -> conversation := [] }}) items false None.
Proof.
  unfold actor_repair_history. destruct dry_run; [by left|]. right.
  destruct (repair_history (conversation (state a))) as [items report]. exists items.
  destruct (report_changed report); auto.
Qed.

Lemma restore_frame a snap :
  let s' := state (restore_snapshot a snap) in
  session_usage s' = session_usage (state a)
  ∧ harness_trace_buffer s' = harness_trace_buffer (state a) ∧ harness_trace_turns s' = harness_trace_turns (state a).
Proof.
  assert (Hf : ∀ b items, rest (state (rebase_turn_capture_offset (b {{ state -> conversation := items }}))) = rest (state b)).
  { intros b items. unfold rebase_turn_capture_offset. by case_match. }
  assert (Hs : rest (state (snapshot_turn_slice a)) = rest (state a)).
  { unfold snapshot_turn_slice. by destruct (turn_capture (state a)). }
  pose proof (eq_trans (Hf (snapshot_turn_slice a) (sn_conversation snap)) Hs) as H. unfold rest, counters in H.
  cbv zeta. unfold restore_snapshot. split; [|split].
  - exact (f_equal (fun p => snd (fst (fst p))) H).
  - exact (f_equal (fun p => snd (fst p)) H).
  - exact (f_equal snd H).
Qed.

Lemma typed_handle `{JsonSizes} a cmd :
  command_typed cmd -> state_typed (state a) -> state_typed (state (fst (handle_command a cmd))).
Proof.
  intros Hc Ht. pose proof Ht as (T1 & T2 & T3 & T4 & T5). pose proof u64_0 as Hz.
  destruct (touches_rest cmd) eqn:Htouch.
  2: { destruct (rest_handle a cmd Htouch) as [H1 H2]. apply (typed_rest (state a)); auto. }
  destruct cmd; try discriminate Htouch; cbn [handle_command fst command_typed] in *; try done.
  - split; [done|]. split; [exact Hz|]. split; [apply wrap64_u64|done].
  - split; [done|]. split; [done|]. split; [done|]. cbn. split.
    + intros l [= <-]. by apply (ledger_step_ok _ (MainLoopCall _ _ _ _)); [apply open_ledger_ok|].
    + by apply (ledger_step_ok _ (MainLoopCall _ _ _ _)).
  - unfold record_subagent_usage. destruct (_ && _); [done|].
    assert (Hs : ledger_ok (record_subagent (session_usage (state a)) by_model incomplete))
      by (by apply (ledger_step_ok _ (Subagent _ _))).
    destruct attribute_to_prompt; (split; [done|]; split; [done|]; split; [done|]; split; [|exact Hs]); [|exact T4].
    cbn. intros l [= <-]. by apply (ledger_step_ok _ (Subagent _ _)); [apply open_ledger_ok|].
  - unfold mark_usage_incomplete.
    assert (Hs : ledger_ok (mark_incomplete (session_usage (state a)))) by exact T5.
    assert (Hp : ∀ l, Some (mark_incomplete (open_ledger (prompt_usage (state a)))) = Some l -> ledger_ok l).
    { intros l [= <-]. exact (open_ledger_ok _ T4). }
    destruct prompt, session; (split; [done|]; split; [done|]; split; [done|];
      split; [first [exact Hp|exact T4]|first [exact Hs|exact T5]]).
  - by apply typed_replace.
  - destruct (default false turn_active); [done|]. pose proof (repair_history_cases a dry_run) as Hr.
    destruct (actor_repair_history a dry_run) as [a' report]. cbn [fst] in *.
    destruct Hr as [-> |(items & [-> | ->])]; [done|done|by apply typed_replace].
  - pose proof (replace_system_head_cases a prompt) as Hr. destruct (replace_system_head a prompt) as [a' b].
    cbn [fst] in *. destruct Hr as [-> |[items ->]]; [done|by apply typed_replace].
  - destruct (restore_frame a snap) as (Hs & _ & _), Hc as [Hc1 Hc2]. rewrite <- Hs in T5.
    split; [exact Hc1|]. split; [exact Hz|]. split; [|split; [intros l; discriminate|exact T5]].
    unfold restore_snapshot. cbn. unfold constant. destruct (N.ltb 0 _); [done|apply wrap64_u64].
  - apply (typed_counters (state a)); [exact (sealed_counters (state a))| |done].
    pose proof (sealed_estimate (state a)) as He. rewrite <- He in T2. exact T2.
  - unfold truncate_to_prompt_index.
    destruct (Nat.leb _ _); (split; [|split; [|split; [|split; [intros l; discriminate|done]]]]); try done;
      [apply reseed_u64; apply wrap64_u64|apply wrap64_u64].
  - apply (typed_counters (state a)); [exact (sealed_counters (state a))| |done].
    pose proof (sealed_estimate (state a)) as He. rewrite <- He in T2. exact T2.
Qed.

(** ** Lemmas: traces *)

(** The items of the harness traces not yet drained. *)
Definition traces (s : ChatState) : list ConversationItem := concat (harness_trace_turns s) ++ harness_trace_buffer s.

Lemma traces_rest s s' :
  harness_trace_buffer s' = harness_trace_buffer s ∧ harness_trace_turns s' = harness_trace_turns s ->
  traces s' = traces s.
Proof. unfold traces. by intros [-> ->]. Qed.

Lemma sealed_eq s :
  harness_trace_buffer (seal_harness_trace_turn s) = []
  ∧ harness_trace_turns (seal_harness_trace_turn s)
    = harness_trace_turns s ++ (if is_empty (harness_trace_buffer s) then [] else [harness_trace_buffer s]).
Proof.
  unfold seal_harness_trace_turn. destruct (is_empty (harness_trace_buffer s)) eqn:E; [|done].
  split; [by apply is_empty_spec|]. symmetry. apply app_nil_r.
Qed.

Lemma sealed_traces s : traces (seal_harness_trace_turn s) = traces s.
Proof.
  unfold traces. destruct (sealed_eq s) as [-> ->]. rewrite app_nil_r, concat_app. f_equal.
  destruct (harness_trace_buffer s); [done|]. apply app_nil_r.
Qed.

Lemma replace_traces a items c tip : traces (state (replace_conversation a items c tip)) = traces (state a).
Proof. apply traces_rest. destruct (replace_totals a items c tip) as (_ & _ & _ & _ & _ & _ & H1 & H2). done. Qed.

(** ** Lemmas: requests *)

(** A history every call of which is answered, without a second answer. *)
Definition sendable (l : list ConversationItem) : Prop := answered l ∧ no_duplicates [] [] l.

Lemma sendable_shape l l' : shape l = shape l' -> sendable l -> sendable l'.
Proof. intros Hs [H1 H2]. split; [by eapply answered_shape|by eapply no_duplicates_shape]. Qed.

Lemma no_duplicates_head l l' : shape l' = inr [] :: shape l -> no_duplicates [] [] l -> no_duplicates [] [] l'.
Proof.
  intros Hs. destruct l' as [|x l']; [done|]. injection Hs as Hx Hs. intros Hn.
  eapply no_duplicates_shape in Hn; [|symmetry; exact Hs].
  destruct x as [| |a| | |]; cbn [shape_of calls_of] in Hx; simplify_eq; cbn [no_duplicates calls_of]; try exact Hn.
  replace (a_tool_calls a) with ([] : list ToolCall) by congruence. exact Hn.
Qed.

Lemma sendable_inject items reminder : sendable items -> sendable (fst (inject_memory_reminder items reminder)).
Proof.
  intros [Ha Hn]. split; [by apply inject_answered|].
  destruct (inject_shape items reminder) as [Hs|Hs]; [by eapply no_duplicates_shape|by eapply no_duplicates_head].
Qed.

Lemma model_request_shape items : shape (model_request_history items) = shape items.
Proof.
  unfold shape, model_request_history. rewrite map_map. apply map_ext. intros x.
  destruct x as [|u| | | |]; try done. by destruct (bool_decide _).
Qed.

Lemma budget_shape `{JsonSizes} items : shape (bc_items (apply_image_budget items)) = shape items.
Proof.
  unfold apply_image_budget, apply_image_budget_with_limits, evict_images_to_budget. cbv zeta.
  destruct (_ && _); [|done].
  pose proof (evict_loop_spec items (conversation_body_bytes items) IMAGE_COMPACT_RECLAIM_TARGET_BYTES 0) as Hs.
  destruct (evict_loop _ _ _ _ _) as [[c n] r]. destruct Hs as (k & _ & _ & _ & Hs & _). exact Hs.
Qed.

Lemma sendable_integrity a reason :
  let c := conversation (state (ensure_conversation_integrity_with_reason a reason)) in
  answered c ∧ (distinct_calls (conversation (state a)) -> sendable c).
Proof.
  unfold ensure_conversation_integrity_with_reason. rewrite rewrite_history_eq. cbn. unfold constant.
  pose proof (ensure_integrity (conversation (state a)) reason) as [H1 H2].
  unfold repair_integrity. destruct (dedup_duplicate_tool_results (conversation (state a))) as [c d] eqn:E.
  destruct (repair_dangling_tool_calls c reason) as [c' r] eqn:E'. cbn [fst] in *. rewrite E' in *. cbn [fst] in *.
  apply has_dangling_answered in H1. split; [done|]. intros Hd. split; [done|by apply H2].
Qed.

Lemma adjacent_head l l' : shape l' = inr [] :: shape l -> adjacent [] l -> adjacent [] l'.
Proof.
  intros Hs. destruct l' as [|x l']; [done|]. injection Hs as Hx Hs. intros Hn.
  eapply adjacent_shape in Hn; [|symmetry; exact Hs].
  destruct x as [| |a| | |]; cbn [shape_of calls_of] in Hx; simplify_eq; cbn [adjacent calls_of]; try exact Hn.
  replace (a_tool_calls a) with ([] : list ToolCall) by congruence. exact Hn.
Qed.

Lemma inject_adjacent items reminder : adjacent [] items -> adjacent [] (fst (inject_memory_reminder items reminder)).
Proof. intros Ha. destruct (inject_shape items reminder) as [Hs|Hs]; [by eapply adjacent_shape|by eapply adjacent_head]. Qed.

Lemma integrity_adjacent a reason :
  adjacent [] (conversation (state a)) ->
  adjacent [] (conversation (state (ensure_conversation_integrity_with_reason a reason))).
Proof.
  intros Ha. apply (ensure_adjacent _ reason) in Ha.
  unfold ensure_conversation_integrity_with_reason. rewrite rewrite_history_eq. cbn. unfold constant, repair_integrity.
  destruct (dedup_duplicate_tool_results (conversation (state a))) as [c d]. cbn [fst] in Ha.
  destruct (repair_dangling_tool_calls c reason) as [c' r] eqn:E'. cbn [fst] in *. done.
Qed.

Lemma reminder_conversation a reminder p :
  conversation (state (fst (persist_reminder a reminder p))) = conversation (state a)
  ∨ ∃ r, conversation (state (fst (persist_reminder a reminder p))) = fst (inject_memory_reminder (conversation (state a)) r).
Proof.
  unfold persist_reminder. destruct reminder as [r|]; [|by left]. destruct p; [|by left]. right. exists r.
  assert (Hs : conversation (state (snapshot_turn_slice a)) = conversation (state a)).
  { unfold snapshot_turn_slice. by case_match. }
  rewrite Hs. destruct (inject_memory_reminder (conversation (state a)) r) as [items injected].
  destruct injected; cbn [fst]; rewrite (proj1 (rebase_state _)); done.
Qed.

(** ** Lemmas: rewinding *)

Lemma truncate_at_spec target uc i c :
  uc ≤ target ->
  ∃ j, truncate_at target uc i c = i + j ∧ j ≤ length c
    ∧ uc + users (take j c) ≤ target
    ∧ (j < length c -> uc + users (take j c) = target ∧ from_option is_user_item false (drop j c !! 0) = true).
Proof.
  revert uc i. induction c as [|x c IH]; intros uc i Hle; cbn [truncate_at].
  { exists 0. cbn. unfold users. cbn. split_and!; lia. }
  destruct (is_user_item x) eqn:Ex.
  - destruct (Nat.eqb_spec uc target) as [->|Hne].
    + exists 0. cbn [take drop]. unfold users. cbn. rewrite Ex. split_and!; lia.
    + destruct (IH (S uc) (S i)) as (j & -> & H1 & H2 & H3); [lia|]. exists (S j).
      cbn [take drop length]. unfold users in *. cbn [List.filter]. rewrite Ex. cbn [length].
      split_and!; [lia|lia|lia|]. intros Hj. destruct (H3 ltac:(lia)) as [H4 H5]. split; [lia|exact H5].
  - destruct (IH uc (S i)) as (j & -> & H1 & H2 & H3); [lia|]. exists (S j).
    cbn [take drop length]. unfold users in *. cbn [List.filter]. rewrite Ex.
    split_and!; [lia|lia|lia|]. intros Hj. by destruct (H3 ltac:(lia)).
Qed.

(** ** Theorems *)

Section theorems.
Context {J : JsonSizes}.

(** Every command of a run is served by the disk. *)
Fixpoint served_run (start : list ConversationItem) (a : Actor) (cmds : list ChatStateCommand) : Prop :=
  match cmds with
  | [] => True
  | cmd :: rest => served start a cmd ∧ served_run start (fst (handle_command a cmd)) rest
  end.

Lemma spawn_mirrored start config pruning : no_duplicates [] [] start -> has_dangling_tool_calls start = false ->
  mirrored start (spawn_with_pruning start config pruning).
Proof.
  intros Hn Hd. change (start = fst (repair_dangling_tool_calls (fst (dedup_duplicate_tool_results start)) UserCancelled)).
  rewrite dedup_keep_last, repair_backfill. cbn [fst].
  rewrite (proj1 (keep_last_id start) Hn). symmetry. apply backfill_id. by apply has_dangling_answered.
Qed.

Lemma run_mirrored start a cmds : mirrored start a -> served_run start a cmds -> mirrored start (run_actor a cmds).
Proof.
  unfold run_actor. revert a. induction cmds as [|cmd cmds IH]; intros a Hm Hs; [exact Hm|]. destruct Hs as [Hs Hrun].
  cbn [foldl]. apply IH; [|done]. by apply mirrored_handle.
Qed.

(** C4 The history on disk is the conversation in memory. An actor spawned on a
    well-formed history file, whatever commands it serves (a snapshot restore
    apart, which stays in memory), leaves on disk, once its persistence calls are
    served, exactly the conversation it holds: no push, repair, rewind, prune,
    strip, compaction, memory reminder or acknowledged append is lost, doubled or
    reordered. *)
Theorem persisted_history_is_the_conversation start config pruning cmds :
  no_duplicates [] [] start -> has_dangling_tool_calls start = false ->
  let spawned := spawn_with_pruning start config pruning in
  served_run start spawned cmds ->
  disk_of start (run_actor spawned cmds) = conversation (state (run_actor spawned cmds)).
Proof. intros Hn Hd spawned Hs. apply run_mirrored; [by apply spawn_mirrored|done]. Qed.

(** C6 The turn capture is complete, between its opening and its taking, for a turn of any commands (pushes, the
    guards before a message or a request, dry-run repairs, pruning, compactions, head swaps, restores, requests) except: another
    opening or taking, a rewind to a prompt, the strip of images, the append of a directory switch, and a
    repair of the history that is no dry run. The messages taken are those pushed during the turn, each once and in order, up to
    the contents that pruning clears. (A repair of the history loses what was captured: see
    [repair_history_drops_capture].) *)
Theorem turn_capture_complete a cmds :
  forallb in_turn cmds = true ->
  let opened := fst (handle_command a BeginTurnCapture) in
  ∃ c, snd (handle_command (run_actor opened cmds) TakeTurnMessages) = RCapture (Some c)
    ∧ map erase_content (tc_messages c) = map erase_content (concat (map pushed cmds))
    ∧ turn_capture (state (fst (handle_command (run_actor opened cmds) TakeTurnMessages))) = None.
Proof.
  intros Hin. cbv zeta. set (opened := fst (handle_command a BeginTurnCapture)).
  assert (Hg : grows (state opened) (state (run_actor opened cmds)) (concat (map pushed cmds))).
  { clearbody opened. revert opened. unfold run_actor. induction cmds as [|cmd cmds IH]; intros o.
    - by apply grows_same.
    - cbn [forallb] in Hin. nbool. cbn [foldl map concat].
      eapply grows_trans; [by apply (grows_handle o cmd)|by apply IH]. }
  destruct Hg as [Hok Hview]. { intros cap [= <-]. apply Nat.le_refl. }
  assert (Hopen : turn_view (state opened) = Some []).
  { exact (f_equal (fun l => Some (map erase_content l)) (turn_tail_end (conversation (state a)))). }
  rewrite Hopen in Hview. apply take_view in Hview as (c & Hc & Hm).
  exists c. split; [exact (f_equal RCapture Hc)|]. done.
Qed.

(** What holds of the guarded conversation, of the shape of its calls and results, and with a reminder, holds of
    the request. *)
Lemma built_keeps (P : list ConversationItem -> Prop) a tools reminder persist_it conv_id req_id :
  (∀ l l', shape l = shape l' -> P l -> P l') -> (∀ l r, P l -> P (fst (inject_memory_reminder l r))) ->
  P (conversation (state a)) ->
  P (req_items (snd (build_conversation_request a tools reminder persist_it conv_id req_id))).
Proof.
  intros Hshape Hinject Ha. unfold build_conversation_request.
  pose proof (reminder_conversation a reminder persist_it) as Hrem.
  destruct (persist_reminder a reminder persist_it) as [a2 left_reminder]. cbn [fst snd req_items] in *.
  match goal with |- context [prune_items_for_turn_request ?x _] => generalize x end. intros a3.
  assert (Ha2 : P (conversation (state a2))) by (destruct Hrem as [-> |[r ->]]; auto).
  assert (Hs : shape (prune_items_for_turn_request a3 (bc_items (apply_image_budget (conversation (state a2)))))
             = shape (conversation (state a2))).
  { unfold prune_items_for_turn_request. destruct (should_prune _ _); rewrite ?prune_shape; apply budget_shape. }
  eapply Hshape; [symmetry; apply model_request_shape|]. destruct left_reminder; [apply Hinject|]; by eapply Hshape.
Qed.

(** C5 Every tool call of a request the actor builds is answered, whatever its conversation holds, and through the
    image budget, the pruning, the memory reminder and the agent labels. When the calls of each assistant
    have different ids, no run of results answers a call twice; when moreover every result of the conversation
    directly follows the calls it answers, the request is paired as a provider demands: no orphaned or
    displaced result, no second answer, no call unanswered. (Without that the guard that runs before a request
    leaves orphaned and displaced results where they are: only [repair_history] removes those.) The request carries the
    tools it was given. *)
Theorem built_request_is_answered a tools reminder persist_it conv_id req_id :
  ∃ r, snd (handle_command a (BuildConversationRequest tools reminder persist_it conv_id req_id)) = RRequest r
    ∧ has_dangling_tool_calls (req_items r) = false
    ∧ (distinct_calls (conversation (state a)) -> no_duplicates [] [] (req_items r))
    ∧ (distinct_calls (conversation (state a)) -> adjacent [] (conversation (state a)) -> well_paired (req_items r))
    ∧ req_tools r = tools.
Proof.
  cbn [handle_command]. destruct (sendable_integrity a UserCancelled) as [Hans Hsend].
  pose proof (integrity_adjacent a UserCancelled) as Hadj. fold (ensure_conversation_integrity a) in *.
  pose proof (λ P, built_keeps P (ensure_conversation_integrity a) tools reminder persist_it conv_id req_id) as Hkeep.
  assert (Htools : req_tools (snd (build_conversation_request (ensure_conversation_integrity a) tools reminder persist_it
                                     conv_id req_id)) = tools)
    by (unfold build_conversation_request; by destruct (persist_reminder _ _ _)).
  destruct (build_conversation_request _ _ _ _ _ _) as [a' r]. cbn [fst snd] in *. exists r. split; [done|].
  assert (Hansr : answered (req_items r)) by (apply (Hkeep answered); [apply answered_shape|apply inject_answered|done]).
  assert (Hdup : distinct_calls (conversation (state a)) -> no_duplicates [] [] (req_items r)).
  { intros Hd. by apply (Hkeep sendable); [apply sendable_shape|apply sendable_inject|apply Hsend]. }
  split_and!; [by apply has_dangling_answered|done| |done].
  intros Hd Ha. split_and!; [by apply Hdup| |done].
  by apply (Hkeep (adjacent [])); [apply adjacent_shape|apply inject_adjacent|apply Hadj].
Qed.

(** C15 The state stays well typed. Whatever well-typed commands an actor serves,
    its token counters are [u64]s, and the ledgers of the open prompt and of the
    session add up. *)
Theorem chat_state_well_typed start config pruning cmds :
  Forall command_typed cmds -> state_typed (state (run_actor (spawn_with_pruning start config pruning) cmds)).
Proof.
  intros Hc. assert (Ht : state_typed (state (spawn_with_pruning start config pruning))).
  { split; [apply wrap64_u64|]. split; [exact u64_0|]. split; [apply wrap64_u64|].
    split; [intros l; discriminate|apply empty_ledger_ok]. }
  unfold run_actor. revert Ht. generalize (spawn_with_pruning start config pruning).
  induction Hc as [|cmd cmds Hcmd _ IH]; intros a Ht; [done|]. by apply IH, typed_handle.
Qed.

(** A rewind cuts the conversation where the target prompt starts: it keeps a
    prefix with at most [target] user items, and what it drops starts with the
    user item after them. It closes the turn capture, never raises the total of
    tokens, and does nothing when the target is not in the past. *)
Theorem truncate_to_prompt_index_spec a target :
  let a' := fst (handle_command a (TruncateToPromptIndex target)) in
  let conv := conversation (state a) in
  turn_capture (state a') = None
  ∧ (prompt_index (state a) ≤ target -> conversation (state a') = conv ∧ persistence a' = persistence a)
  ∧ (target < prompt_index (state a) ->
      prompt_index (state a') = target
      ∧ ((0 < total_tokens (state a))%N -> (total_tokens (state a') <= total_tokens (state a))%N)
      ∧ ∃ k, conversation (state a') = take k conv
        ∧ users (take k conv) = Nat.min target (users conv)
        ∧ (k < length conv -> from_option is_user_item false (drop k conv !! 0) = true)).
Proof.
  cbv zeta. cbn [handle_command fst]. unfold truncate_to_prompt_index.
  destruct (Nat.leb_spec (prompt_index (state a)) target) as [Hle|Hlt].
  { split; [done|]. split; [done|]. lia. }
  split; [done|]. split; [lia|]. intros _. split; [done|]. split; [apply reseed_bound|].
  destruct (truncate_at_spec target 0 0 (conversation (state a))) as (k & Hk & H1 & H2 & H3); [lia|].
  exists k. split; [exact (f_equal (fun k => take k (conversation (state a))) Hk)|].
  pose proof (users_app (take k (conversation (state a))) (drop k (conversation (state a)))) as Hu.
  rewrite take_drop in Hu. destruct (decide (k < length (conversation (state a)))) as [Hlt'|Hge].
  - destruct (H3 Hlt') as [H4 H5]. split; [lia|done].
  - split; [|lia]. rewrite drop_ge in Hu by lia. change (users []) with 0 in Hu. lia.
Qed.

(** C25 A snapshot is restored exactly: what the actor reports after a restore is
    the snapshot it was given, for every snapshot with a recorded estimate; the
    session ledger and the harness traces are the ones it had. *)
Theorem snapshot_restore_roundtrip a snap :
  (0 < sn_estimate_at_last_response snap)%N ->
  let a' := fst (handle_command a (RestoreSnapshot snap)) in
  snd (handle_command a' Snapshot) = RSnapshot snap
  ∧ session_usage (state a') = session_usage (state a) ∧ traces (state a') = traces (state a).
Proof.
  intros He. cbv zeta. cbn [handle_command fst snd].
  destruct (restore_frame a snap) as (H1 & H2 & H3).
  split; [|split; [done|by apply traces_rest]]. f_equal.
  assert (Hc : conversation (state (restore_snapshot a snap)) = sn_conversation snap).
  { pose proof (proj1 (rebase_state ((snapshot_turn_slice a) {{ state -> conversation := sn_conversation snap }}))) as H.
    exact H. }
  assert (Hest : estimate_at_last_response (state (restore_snapshot a snap)) = sn_estimate_at_last_response snap).
  { unfold restore_snapshot. cbn. unfold constant. by rewrite (proj2 (N.ltb_lt _ _)). }
  unfold snapshot. rewrite Hc, Hest. by destruct snap.
Qed.

(** Harness traces are neither lost nor invented: every command leaves the
    undrained traces as they were, except that recording appends the recorded
    items and draining returns them all, in order, and leaves none. *)
Theorem harness_traces_conserved a cmd :
  let a' := fst (handle_command a cmd) in
  match cmd with
  | AppendHarnessTraceItems items => traces (state a') = traces (state a) ++ items
  | TakeHarnessTraceTurns =>
      ∃ turns, snd (handle_command a cmd) = RTurns turns ∧ concat turns = traces (state a) ∧ traces (state a') = []
  | _ => traces (state a') = traces (state a)
  end.
Proof.
  cbv zeta. destruct (touches_rest cmd) eqn:Htouch.
  - destruct cmd; try discriminate Htouch; cbn [handle_command fst snd]; try done.
    + unfold record_subagent_usage. destruct (_ && _); [done|]. by destruct attribute_to_prompt.
    + unfold mark_usage_incomplete. by destruct prompt, session.
    + apply replace_traces.
    + destruct (default false turn_active); [done|]. pose proof (repair_history_cases a dry_run) as Hr.
      destruct (actor_repair_history a dry_run) as [a' report]. cbn [fst] in *.
      destruct Hr as [-> |(items & [-> | ->])]; [done|done|]. by rewrite replace_traces.
    + pose proof (replace_system_head_cases a prompt) as Hr. destruct (replace_system_head a prompt) as [a' b].
      cbn [fst] in *. destruct Hr as [-> |[items ->]]; [done|apply replace_traces].
    + apply traces_rest, restore_frame.
    + unfold traces. cbn. apply app_assoc.
    + apply sealed_traces.
    + unfold truncate_to_prompt_index. by destruct (Nat.leb _ _).
    + eexists. split; [done|]. pose proof (sealed_traces (state a)) as Hs.
      destruct (sealed_eq (state a)) as [Hb _]. unfold traces in *. rewrite Hb, app_nil_r in Hs. split; [done|]. exact Hb.
  - assert (Ht : traces (state (fst (handle_command a cmd))) = traces (state a)).
    { destruct (rest_handle a cmd Htouch) as [Hr _]. apply traces_rest. split.
      - exact (f_equal (fun p => snd (fst p)) Hr).
      - exact (f_equal snd Hr). }
    destruct cmd; try discriminate Htouch; exact Ht.
Qed.

(** The token total never drifts up on its own. Once it is known, no command
    but a recorded usage or a restored snapshot raises it: repairs, rewinds,
    replacements and head swaps reseed it at or below what it was, so an
    over-count cannot fire a compaction early. *)
Theorem total_tokens_never_raised a cmd :
  (∀ n, cmd ≠ RecordTokenUsage n) -> (∀ s, cmd ≠ RestoreSnapshot s) ->
  (0 < total_tokens (state a))%N ->
  (total_tokens (state (fst (handle_command a cmd))) <= total_tokens (state a))%N.
Proof.
  intros Hrec Hrest Hpos. destruct (touches_rest cmd) eqn:Htouch.
  2: { destruct (rest_handle a cmd Htouch) as [Hr _].
       apply (f_equal (fun p => fst (fst (fst (fst (fst p)))))) in Hr. unfold rest, counters in Hr.
       cbn [fst] in Hr. rewrite Hr. done. }
  assert (Hreplace : ∀ b items c tip, total_tokens (state b) = total_tokens (state a) ->
    (total_tokens (state (replace_conversation b items c tip)) <= total_tokens (state a))%N).
  { intros b items c tip Hb. destruct (replace_totals b items c tip) as [-> _]. rewrite <- Hb.
    apply reseed_bound. by rewrite Hb. }
  destruct cmd; try discriminate Htouch; cbn [handle_command fst]; try done.
  - by destruct (Hrec tokens).
  - unfold record_subagent_usage. destruct (_ && _); [done|]. by destruct attribute_to_prompt.
  - unfold mark_usage_incomplete. by destruct prompt, session.
  - by apply Hreplace.
  - destruct (default false turn_active); [done|]. pose proof (repair_history_cases a dry_run) as Hr.
    destruct (actor_repair_history a dry_run) as [a' report]. cbn [fst] in *.
    destruct Hr as [-> |(items & [-> | ->])]; [done|done|by apply Hreplace].
  - pose proof (replace_system_head_cases a prompt) as Hr. destruct (replace_system_head a prompt) as [a' b].
    cbn [fst] in *. destruct Hr as [-> |[items ->]]; [done|by apply Hreplace].
  - by destruct (Hrest snap).
  - pose proof (sealed_counters (state a)) as Hs. unfold counters in Hs. injection Hs as Hs _ _ _.
    change (total_tokens (seal_harness_trace_turn (state a)) <= total_tokens (state a))%N. by rewrite Hs.
  - unfold truncate_to_prompt_index. destruct (Nat.leb _ _); [done|]. by apply reseed_bound.
  - pose proof (sealed_counters (state a)) as Hs. unfold counters in Hs. injection Hs as Hs _ _ _.
    change (total_tokens (seal_harness_trace_turn (state a)) <= total_tokens (state a))%N. by rewrite Hs.
Qed.
End theorems.

(** ** Witnesses *)

Definition demo_config : SamplingConfig :=
  mkSamplingConfig [] None (lit "grok") None None None None None ChatCompletions [] None [] [] 1000 None None None.

Definition demo_start : list ConversationItem :=
  [item_system (lit "sys"); item_user (lit "first"); item_assistant_tool_calls [demo_call "a"];
   item_tool_result (lit "a") (lit "done")].

(** A dangling call, an acknowledged switch, a repairing push, a rewind. *)
Definition demo_commands : list ChatStateCommand :=
  [IncrementPromptIndex; IncrementPromptIndex; PushUserMessage (item_user (lit "second")); PushAssistantResponse (item_assistant_tool_calls [demo_call "b"]);
   AppendWorkingDirectorySwitchAndAck (lit "moved") 1 (Some (inl Appended));
   PushUserMessage (item_user (lit "third")); AppendWorkingDirectorySwitchAndAck (lit "moved again") 1
     (Some (inr (Committed (AlreadyPresent (item_working_directory_switch (lit "moved") 1)))));
   ReplaceSystemHead (lit "new"); TruncateToPromptIndex 1].

Definition demo_spawned : Actor := spawn_with_pruning demo_start demo_config default_pruning.

Lemma persisted_history_is_the_conversation_witness :
  let a := @run_actor demo_sizes demo_spawned demo_commands in
  disk_of demo_start a = conversation (state a) ∧ length (conversation (state a)) = 4.
Proof.
  split; [|vm_compute; reflexivity].
  apply (@persisted_history_is_the_conversation demo_sizes demo_start demo_config default_pruning demo_commands).
  - cbn. repeat split. intros _ H. apply not_elem_of_nil in H. exact H.
  - vm_compute. reflexivity.
  - cbn [served_run demo_commands]. repeat (split; [first [exact I|left; vm_compute; reflexivity|right; vm_compute; reflexivity]|]).
    exact I.
Defined.

Definition demo_turn : list ChatStateCommand :=
  [PushUserMessage (item_user (lit "go")); PushAssistantResponse (item_assistant_tool_calls [demo_call "b"]);
   PushToolResult (item_tool_result (lit "b") (lit "seen")); ReplaceConversation [item_user (lit "summary")] true None;
   PushModelOutput (item_assistant (lit "bye"))].

Lemma turn_capture_complete_witness :
  ∃ c, snd (@handle_command demo_sizes (@run_actor demo_sizes
         (fst (@handle_command demo_sizes demo_spawned BeginTurnCapture)) demo_turn) TakeTurnMessages) = RCapture (Some c)
    ∧ length (tc_messages c) = 4.
Proof.
  destruct (@turn_capture_complete demo_sizes demo_spawned demo_turn) as (c & Hc & Hm & _); [vm_compute; reflexivity|].
  exists c. split; [exact Hc|]. apply (f_equal length) in Hm. rewrite length_map in Hm. rewrite Hm. vm_compute. reflexivity.
Defined.

Lemma chat_state_well_typed_witness :
  state_typed (state (@run_actor demo_sizes demo_spawned
    [RecordTokenUsage 500; RecordModelCallUsage None demo_usage None (Some 70%Z); PushUserMessage (item_user (lit "x"))])).
Proof.
  apply (@chat_state_well_typed demo_sizes).
  apply Forall_cons_2; [unfold command_typed, u64; lia|].
  apply Forall_cons_2; [|apply Forall_cons_2; [exact I|apply Forall_nil_2]].
  split; [unfold usage_ok; cbn; lia|]. split; [exact u64_0|]. intros t [= <-]. unfold i64_max. lia.
Defined.

Definition demo_snapshot : ChatStateSnapshot :=
  mkSnapshot demo_start demo_config 1 40 40 ∅ [lit "first"] None None None default_credentials.

Lemma snapshot_restore_roundtrip_witness :
  snd (@handle_command demo_sizes (fst (@handle_command demo_sizes (spawn [] demo_config) (RestoreSnapshot demo_snapshot)))
         Snapshot) = RSnapshot demo_snapshot.
Proof. apply (@snapshot_restore_roundtrip demo_sizes (spawn [] demo_config) demo_snapshot). reflexivity. Defined.

Lemma total_tokens_never_raised_witness :
  (total_tokens (state (fst (@handle_command demo_sizes demo_spawned
      (ReplaceConversation (demo_start ++ demo_start) false None)))) <= 6)%N.
Proof.
  pose proof (@total_tokens_never_raised demo_sizes demo_spawned (ReplaceConversation (demo_start ++ demo_start) false None)) as H.
  specialize (H ltac:(discriminate) ltac:(discriminate) ltac:(vm_compute; reflexivity)).
  assert (Ht : (total_tokens (state demo_spawned) <= 6)%N) by (vm_compute; discriminate).
  apply (N.le_trans _ _ _ H Ht).
Defined.

(** A repair that changes the history while a turn is captured drops what the
    turn had captured: the conversation is out of the state when the capture is
    snapshotted. *)
Example repair_history_drops_capture :
  let a := @run_actor demo_sizes demo_spawned
    [BeginTurnCapture; PushUserMessage (item_user (lit "go")); PushToolResult (item_tool_result (lit "zz") (lit "stray"));
     RepairHistory false None] in
  captured (state a) = Some [] ∧ length (conversation (state a)) = 5.
Proof. vm_compute. auto. Qed.

(** The first user message need not be the one whose text is returned. *)
Example first_user_text_scans_on :
  get_first_user_text (new_chat_state
    [item_user_with_parts [ImagePart (lit "u")]; item_user (lit "later")] demo_config) = Some (lit "later").
Proof. vm_compute. reflexivity. Qed.
