(* ===== verification/HunkTypes.v ===== *)
(** * The hunk tracker's data

    The types of [xai-hunk-tracker]: hunks and their sources, the content of a
    tracked file ([actor/state.rs]) and its classification ([file_utils.rs]),
    views, snapshots and summaries ([types.rs]), commands and events. Paths are
    [std::path::Path]s up to their equality, which is that of their components;
    the order in which a hash map or set is iterated is a parameter. *)

From S2P Require Import Prelude RustStr.

(** ** Paths

    A path is the list of its components; an absolute one starts with the root
    component. *)
Abbreviation PathBuf := (list str).

Definition root_dir : str := lit "/".

Definition path_is_absolute (p : PathBuf) : bool :=
  match p with c :: _ => str_eqb c root_dir | [] => false end.

(** [a.join(b)]: an absolute [b] replaces [a]. *)
Definition path_join (a b : PathBuf) : PathBuf := if path_is_absolute b then b else a ++ b.

(** [p.strip_prefix(base).ok()] and [p.starts_with(base)]. *)
Fixpoint path_strip_prefix (p base : PathBuf) : option PathBuf :=
  match base, p with
  | [], _ => Some p
  | b :: base', c :: p' => if str_eqb b c then path_strip_prefix p' base' else None
  | _ :: _, [] => None
  end.

Definition path_starts_with (p base : PathBuf) : bool :=
  match path_strip_prefix p base with Some _ => true | None => false end.

Definition path_display (p : PathBuf) : str :=
  match p with
  | c :: rest => if str_eqb c root_dir then root_dir ++ join (lit "/") rest else join (lit "/") p
  | [] => []
  end.

(** [p.parent()] and [p.file_name()]. *)
Definition path_parent (p : PathBuf) : option PathBuf :=
  match p with
  | [] => None
  | [c] => if str_eqb c root_dir then None else Some []
  | _ => Some (removelast p)
  end.

Definition path_file_name (p : PathBuf) : option str :=
  match last p with
  | Some c => if str_eqb c root_dir || str_eqb c (lit "..") then None else Some c
  | None => None
  end.

(** [uuid::Uuid::new_v4]: the text of the [n]-th identifier drawn. *)
Class Uuids := { uuid_v4 : nat -> str }.

(** [collect] into a map: a later entry replaces an earlier one with its key. *)
Definition collect_map {K} `{Countable K} {A} (l : list (K * A)) : gmap K A :=
  foldl (fun m e => <[fst e := snd e]> m) ∅ l.

(** ** Hunks *)

(** A hunk identifier, [HunkId(Arc<str>)]. *)
Abbreviation HunkId := str.

(** The first eight characters.

    Source: crates/codegen/xai-hunk-tracker/src/types.rs:36-42, [impl std::fmt::Display for HunkId]. *)
Definition display_hunk_id (id : HunkId) : str := concat (take 8 (chars id)).

(** Source: crates/codegen/xai-hunk-tracker/src/types.rs:45-56, [HunkLineInfo]. *)
Record HunkLineInfo := mkLines {
  old_start : nat;
  old_count : nat;
  new_start : nat;
  new_count : nat;
}.

#[export] Instance line_info_eq_dec : EqDecision HunkLineInfo.
Proof. solve_decision. Defined.

(** Source: crates/codegen/xai-hunk-tracker/src/types.rs:58-66, [impl std::fmt::Display for HunkLineInfo]. *)
Definition display_line_info (l : HunkLineInfo) : str :=
  lit "@@ -" ++ show_nat (old_start l) ++ lit "," ++ show_nat (old_count l) ++ lit " +"
  ++ show_nat (new_start l) ++ lit "," ++ show_nat (new_count l) ++ lit " @@".

(** Source: crates/codegen/xai-hunk-tracker/src/types.rs:71-89, [HunkSource]. *)
Inductive HunkSource :=
  | AgentEdit (prompt_index : nat)
  | ExternalEditOnAgentFile
  | External.

#[export] Instance hunk_source_eq_dec : EqDecision HunkSource.
Proof. solve_decision. Defined.

(** Source: crates/codegen/xai-hunk-tracker/src/types.rs:93-95, [HunkSource::is_agent_edit]. *)
Definition is_agent_edit (s : HunkSource) : bool :=
  match s with AgentEdit _ => true | _ => false end.

(** Source: crates/codegen/xai-hunk-tracker/src/types.rs:99-104, [HunkSource::is_agent_tracked]. *)
Definition is_agent_tracked (s : HunkSource) : bool :=
  match s with AgentEdit _ | ExternalEditOnAgentFile => true | External => false end.

(** Source: crates/codegen/xai-hunk-tracker/src/types.rs:107-112, [HunkSource::is_external]. *)
Definition is_external (s : HunkSource) : bool :=
  match s with External | ExternalEditOnAgentFile => true | AgentEdit _ => false end.

(** Source: crates/codegen/xai-hunk-tracker/src/types.rs:115-120, [HunkSource::prompt_index]. *)
Definition source_prompt_index (s : HunkSource) : option nat :=
  match s with AgentEdit i => Some i | _ => None end.

(** [created_at], the time of creation, is left out.

    Source: crates/codegen/xai-hunk-tracker/src/types.rs:152-174, [Hunk]. *)
Record Hunk := mkHunk {
  h_id : HunkId;
  h_path : PathBuf;
  h_lines : HunkLineInfo;
  h_source : HunkSource;
  h_old_text : option str;
  h_new_text : str;
  h_patch : option str;
  h_selected : bool;
}.

#[export] Instance hunk_eq_dec : EqDecision Hunk.
Proof. solve_decision. Defined.

(** Source: crates/codegen/xai-hunk-tracker/src/types.rs:178-196, [Hunk::file_created]. *)
Definition file_created (id : HunkId) (path : PathBuf) (content : str) (source : HunkSource) : Hunk :=
  let line_count := Nat.max (length (lines content)) 1 in
  mkHunk id path (mkLines 0 0 1 line_count) source None content None false.

(** Source: crates/codegen/xai-hunk-tracker/src/types.rs:199-217, [Hunk::file_deleted]. *)
Definition file_deleted (id : HunkId) (path : PathBuf) (content : str) (source : HunkSource) : Hunk :=
  let line_count := Nat.max (length (lines content)) 1 in
  mkHunk id path (mkLines 1 line_count 0 0) source (Some content) [] None false.

(** Source: crates/codegen/xai-hunk-tracker/src/types.rs:220-228, [Hunk::summary]. *)
Definition hunk_summary (h : Hunk) : str :=
  let additions := length (lines (h_new_text h)) in
  let deletions := from_option (fun t => length (lines t)) 0 (h_old_text h) in
  lit "+" ++ show_nat additions ++ lit "/-" ++ show_nat deletions.

(** Source: crates/codegen/xai-hunk-tracker/src/types.rs:231-233, [Hunk::display_path]. *)
Definition hunk_display_path (h : Hunk) : str :=
  path_display (h_path h) ++ lit ":" ++ show_nat (new_start (h_lines h)).

Definition with_id (h : Hunk) (id : HunkId) : Hunk :=
  mkHunk id (h_path h) (h_lines h) (h_source h) (h_old_text h) (h_new_text h) (h_patch h) (h_selected h).
Definition with_source (h : Hunk) (source : HunkSource) : Hunk :=
  mkHunk (h_id h) (h_path h) (h_lines h) source (h_old_text h) (h_new_text h) (h_patch h) (h_selected h).
Definition with_path (h : Hunk) (path : PathBuf) : Hunk :=
  mkHunk (h_id h) path (h_lines h) (h_source h) (h_old_text h) (h_new_text h) (h_patch h) (h_selected h).
Definition with_patch (h : Hunk) (patch : option str) : Hunk :=
  mkHunk (h_id h) (h_path h) (h_lines h) (h_source h) (h_old_text h) (h_new_text h) patch (h_selected h).

(** Source: crates/codegen/xai-hunk-tracker/src/types.rs:237-245, [HunkAction]. *)
Inductive HunkAction := Accept | Reject.

(** The operating system's error is not modelled.

    Source: crates/codegen/xai-hunk-tracker/src/types.rs:124-149, [HunkActionError]. *)
Inductive HunkActionError :=
  | HunkNotFound (id : HunkId)
  | WriteError (path : PathBuf)
  | DeleteError (path : PathBuf)
  | ReadError (path : PathBuf).

(** Source: crates/codegen/xai-hunk-tracker/src/types.rs:282-286, [HunkSourceFilter]. *)
Inductive HunkSourceFilter := FilterAgent | FilterExternal.

(** Source: crates/codegen/xai-hunk-tracker/src/types.rs:289-297, [TrackingMode]. *)
Inductive TrackingMode := AgentOnly | AllDirty.

#[export] Instance tracking_mode_eq_dec : EqDecision TrackingMode.
Proof. solve_decision. Defined.

(** ** File contents *)

(** Source: crates/codegen/xai-hunk-tracker/src/actor/state.rs:13-37, [MAX_TRACKED_TEXT_BYTES]. *)
Definition MAX_TRACKED_TEXT_BYTES : N := 1024 * 1024.

(** Source: crates/codegen/xai-hunk-tracker/src/actor/state.rs:18-37, [FileContentState]. *)
Inductive FileContentState :=
  | Missing
  | Binary (byte_len : option N)
  | TooLarge (byte_len : N)
  | LfsPointer (byte_len : N)
  | Symlink
  | Full (text : str).

#[export] Instance content_state_eq_dec : EqDecision FileContentState.
Proof. solve_decision. Defined.

(** Source: crates/codegen/xai-hunk-tracker/src/actor/state.rs:41-46, [FileContentState::as_str]. *)
Definition content_as_str (c : FileContentState) : option str :=
  match c with Full s => Some s | _ => None end.

(** Source: crates/codegen/xai-hunk-tracker/src/actor/state.rs:49-51, [FileContentState::is_diffable]. *)
Definition is_diffable (c : FileContentState) : bool :=
  match c with Full _ => true | _ => false end.

(** Source: crates/codegen/xai-hunk-tracker/src/actor/state.rs:54-64, [FileContentState::byte_len]. *)
Definition content_byte_len (c : FileContentState) : option N :=
  match c with
  | Missing => Some 0%N
  | Binary n => n
  | TooLarge n => Some n
  | LfsPointer n => Some n
  | Symlink => None
  | Full s => Some (N.of_nat (length s))
  end.

(** Source: crates/codegen/xai-hunk-tracker/src/actor/file_utils.rs:7-7, [LFS_POINTER_PREFIX]. *)
Definition LFS_POINTER_PREFIX : str := lit "version https://git-lfs.github.com/spec/v1" ++ nl.

(** Source: crates/codegen/xai-hunk-tracker/src/actor/file_utils.rs:12-15, [is_lfs_pointer]. *)
Definition is_lfs_pointer (bytes : str) : bool :=
  N.ltb (N.of_nat (length bytes)) 1024 && starts_with LFS_POINTER_PREFIX bytes.

(** Source: crates/codegen/xai-hunk-tracker/src/actor/file_utils.rs:19-24, [is_binary]. *)
Definition is_binary (content : str) : bool :=
  existsb (fun c => ch_eqb c (byte 0)) (take (N.to_nat 8000) content).

(** Source: crates/codegen/xai-hunk-tracker/src/actor/file_utils.rs:28-52, [classify_bytes]. *)
Definition classify_bytes (bytes : str) : FileContentState :=
  let byte_len := N.of_nat (length bytes) in
  if N.ltb MAX_TRACKED_TEXT_BYTES byte_len then TooLarge byte_len
  else if is_lfs_pointer bytes then LfsPointer byte_len
  else if is_binary bytes then Binary (Some byte_len)
  else if valid_utf8 bytes then Full bytes
  else Binary (Some byte_len).

(** Source: crates/codegen/xai-hunk-tracker/src/actor/file_utils.rs:57-75, [classify_string]. *)
Definition classify_string (s : str) : FileContentState :=
  let byte_len := N.of_nat (length s) in
  if N.ltb MAX_TRACKED_TEXT_BYTES byte_len then TooLarge byte_len
  else if is_lfs_pointer s then LfsPointer byte_len
  else if is_binary s then Binary (Some byte_len)
  else Full s.

(** Source: crates/codegen/xai-hunk-tracker/src/actor/file_utils.rs:78-80, [missing_content]. *)
Definition missing_content : FileContentState := Missing.

(** Source: crates/codegen/xai-hunk-tracker/src/types.rs:358-375, [FileContentStatus]. *)
Inductive FileContentStatus :=
  | StatusMissing | StatusBinary | StatusTooLarge | StatusLfsPointer | StatusSymlink | StatusFull.

(** Source: crates/codegen/xai-hunk-tracker/src/types.rs:379-390, [FileContentView]. *)
Record FileContentView := mkView {
  v_status : FileContentStatus;
  v_byte_len : option N;
  v_content : option str;
}.

(** Source: crates/codegen/xai-hunk-tracker/src/types.rs:450-460, [FileContentView::from_content_state]. *)
Definition from_content_state (c : FileContentState) : FileContentView :=
  match c with
  | Missing => mkView StatusMissing None None
  | Binary n => mkView StatusBinary n None
  | TooLarge n => mkView StatusTooLarge (Some n) None
  | LfsPointer n => mkView StatusLfsPointer (Some n) None
  | Symlink => mkView StatusSymlink None None
  | Full s => mkView StatusFull (Some (N.of_nat (length s))) (Some s)
  end.

(** Source: crates/codegen/xai-hunk-tracker/src/types.rs:465-473, [FileContentEntry]. *)
Record FileContentEntry := mkEntry {
  fe_path : PathBuf;
  fe_baseline : FileContentView;
  fe_current : FileContentView;
  fe_is_agent_file : bool;
  fe_staged : bool;
}.

(** Source: crates/codegen/xai-hunk-tracker/src/types.rs:477-494, [FileHunkData]. *)
Record FileHunkData := mkFileHunkData {
  fd_hunks : list Hunk;
  fd_baseline : FileContentView;
  fd_current : FileContentView;
  fd_baseline_content : option str;
  fd_current_content : option str;
}.

(** ** Summaries *)

(** Source: crates/codegen/xai-hunk-tracker/src/types.rs:300-315, [SessionStats]. *)
Record SessionStats := mkStats {
  accepted_hunks : N;
  rejected_hunks : N;
  accepted_lines_added : N;
  accepted_lines_removed : N;
  rejected_lines_added : N;
  rejected_lines_removed : N;
}.

Definition no_stats : SessionStats := mkStats 0 0 0 0 0 0.

(** Source: crates/codegen/xai-hunk-tracker/src/types.rs:318-331, [TurnSummary]. *)
Record TurnSummary := mkTurnSummary {
  ts_prompt_index : nat;
  ts_files : list PathBuf;
  ts_pending_hunks : list Hunk;
  ts_lines_added : nat;
  ts_lines_removed : nat;
}.

(** Source: crates/codegen/xai-hunk-tracker/src/types.rs:334-353, [SessionSummary]. *)
Record SessionSummary := mkSessionSummary {
  ss_stats : SessionStats;
  ss_turns : list TurnSummary;
  files_modified : nat;
  files_with_pending : nat;
  pending_hunks : nat;
  pending_lines_added : nat;
  pending_lines_removed : nat;
  unattributed_pending : nat;
}.

(** ** Snapshots *)

(** Source: crates/codegen/xai-hunk-tracker/src/types.rs:503-518, [FileHunkStateSnapshot]. *)
Record FileHunkStateSnapshot := mkFileSnapshot {
  fs_baseline : FileContentState;
  fs_current_content : FileContentState;
  fs_hunks : list Hunk;
  fs_is_agent_file : bool;
  fs_baseline_accepted : bool;
}.

(** Source: crates/codegen/xai-hunk-tracker/src/types.rs:523-531, [HunkTrackerSnapshot]. *)
Record HunkTrackerSnapshot := mkTrackerSnapshot {
  sn_file_states : gmap PathBuf FileHunkStateSnapshot;
  sn_turn_index : gmap nat (gset HunkId);
  sn_session_stats : SessionStats;
}.

(** Source: crates/codegen/xai-hunk-tracker/src/types.rs:536-544, [HunkTurnDelta]. *)
Record HunkTurnDelta := mkTurnDelta {
  td_prompt_index : nat;
  td_file_states : gmap PathBuf FileHunkStateSnapshot;
  td_hunk_ids : gset HunkId;
}.

(** Source: crates/codegen/xai-hunk-tracker/src/types.rs:584-598, [rewrite_single_path]. *)
Definition rewrite_single_path (path old_cwd canonical_old new_cwd : PathBuf) : option PathBuf :=
  let relative :=
    match path_strip_prefix path canonical_old with
    | Some rel => Some rel
    | None => path_strip_prefix path old_cwd
    end in
  path_join new_cwd <$> relative.

Definition repath_snapshot (s : FileHunkStateSnapshot) (path : PathBuf) : FileHunkStateSnapshot :=
  mkFileSnapshot (fs_baseline s) (fs_current_content s) (map (fun h => with_path h path) (fs_hunks s))
    (fs_is_agent_file s) (fs_baseline_accepted s).

(** Source: crates/codegen/xai-hunk-tracker/src/types.rs:550-578, [HunkTrackerSnapshot::rewrite_paths]. *)
Definition rewrite_paths `{HashOrder} (s : HunkTrackerSnapshot) (old_cwd canonical_old_cwd new_cwd : PathBuf) :
    HunkTrackerSnapshot :=
  let rewritten :=
    map (fun '(path, state) =>
      let target_path := default path (rewrite_single_path path old_cwd canonical_old_cwd new_cwd) in
      (target_path, repath_snapshot state target_path)) (hash_iter (sn_file_states s)) in
  mkTrackerSnapshot (collect_map rewritten) (sn_turn_index s) (sn_session_stats s).

(** ** Events *)

(** Source: crates/codegen/xai-hunk-tracker/src/events.rs:11-24, [HunkRemovalReason]. *)
Inductive HunkRemovalReason := Accepted | Rejected | Superseded.

(** Source: crates/codegen/xai-hunk-tracker/src/events.rs:28-66, [HunkEvent]. *)
Inductive HunkEvent :=
  | HunkAdded (path : PathBuf) (hunk : Hunk)
  | HunkRemoved (path : PathBuf) (hunk_id : HunkId) (reason : HunkRemovalReason)
  | HunkMoved (path : PathBuf) (hunk_id : HunkId) (new_line_info : HunkLineInfo)
  | HunkContentChanged (path : PathBuf) (hunk : Hunk) (trigger_source : HunkSource)
      (prev_lines_added prev_lines_removed : nat)
  | FileAdded (path : PathBuf) (is_agent_file : bool)
  | FileRemoved (path : PathBuf)
  | BaselineUpdated (path : PathBuf).

(** ** Commands *)

(** The [reply] channels are the replies of the model's handler.

    Source: crates/codegen/xai-hunk-tracker/src/commands.rs:14-162, [HunkTrackerCommand]. *)
Inductive HunkTrackerCommand :=
  | RecordAgentWrite (path : PathBuf) (content : str) (prompt_index : nat) (previous_content : option str)
  | HandleFileChange (path : PathBuf)
  | HandleFileDeleted (path : PathBuf)
  | RefreshGitDirtyCache
  | ResetBaseline (path : PathBuf)
  | SetMode (mode : TrackingMode)
  | SetWorkingDir (working_dir : PathBuf)
  | ApplyHunkAction (hunk_id : HunkId) (action : HunkAction)
  | FileAction (path : PathBuf) (action : HunkAction)
  | AllAction (action : HunkAction)
  | TurnAction (prompt_index : nat) (action : HunkAction)
  | GetAllHunks
  | GetHunksForPath (path : PathBuf)
  | GetFileHunkData (path : PathBuf)
  | GetHunksBySource (source : HunkSourceFilter)
  | GetHunk (hunk_id : HunkId)
  | IsAgentFile (path : PathBuf)
  | GetAllTrackedPaths
  | GetStagedFiles
  | GetAllFileContents
  | GetSessionSummary
  | GetTurnHunks (prompt_index : nat)
  | ResetStats
  | RefreshAllBaselines
  | SnapshotState
  | SnapshotTurnDelta (prompt_index : nat)
  | RestoreState (snapshot : HunkTrackerSnapshot).
