(* ===== verification/HunkDiff.v ===== *)
(** * Computing, matching and applying hunks

    [xai-hunk-tracker/src/diff.rs], and the loops of [actor/actions.rs] that
    apply a batch of hunks to a text. The line diff of the [similar] crate is a
    parameter ([LineDiff]) with its documented contract ([LineDiffLaws]). *)

From Stdlib Require Import Sorted.
From S2P Require Import Prelude RustStr HunkTypes.

(** ** The diff library *)

Inductive ChangeTag := Equal | Delete | Insert.

#[export] Instance change_tag_eq_dec : EqDecision ChangeTag.
Proof. solve_decision. Defined.

(** [TextDiff::diff_lines], as its changes in order, each with the line it
    concerns; and [unified_diff] with a radius and a header. *)
Class LineDiff := {
  diff_lines : str -> str -> list (ChangeTag * str);
  unified_diff : nat -> str -> str -> list (ChangeTag * str) -> str;
}.

Definition on_old_side (c : ChangeTag * str) : bool :=
  match fst c with Insert => false | _ => true end.
Definition on_new_side (c : ChangeTag * str) : bool :=
  match fst c with Delete => false | _ => true end.

(** The lines of one side of a diff. *)
Definition old_side (changes : list (ChangeTag * str)) : list str := map snd (List.filter on_old_side changes).
Definition new_side (changes : list (ChangeTag * str)) : list str := map snd (List.filter on_new_side changes).

Definition cr_free (s : str) : Prop := byte 13 ∉ s.

(** "Creates a diff of lines. This splits the text [old] and [new] into lines
    preserving newlines in the input": a carriage return may also end a line, so
    the law is stated of texts that have none. *)
Class LineDiffLaws `{LineDiff} := {
  diff_old_side : ∀ a b, cr_free a -> cr_free b -> old_side (diff_lines a b) = split_inclusive a;
  diff_new_side : ∀ a b, cr_free a -> cr_free b -> new_side (diff_lines a b) = split_inclusive b;
}.

(** ** Hunks of a diff *)

(** Source: crates/codegen/xai-hunk-tracker/src/diff.rs:13-13, [CONTEXT_LINES]. *)
Definition CONTEXT_LINES : nat := 3.

(** Source: crates/codegen/xai-hunk-tracker/src/diff.rs:20-20, [MAX_DIFF_FILE_SIZE]. *)
Definition MAX_DIFF_FILE_SIZE : N := 1024 * 1024.

Definition too_large_to_diff (s : str) : bool := N.ltb MAX_DIFF_FILE_SIZE (N.of_nat (length s)).

(** [timed_out] says that the elapsed time reached [DIFF_TIMEOUT].

    Source: crates/codegen/xai-hunk-tracker/src/diff.rs:25-72, [generate_unified_patch]. *)
Definition generate_unified_patch `{LineDiff} (timed_out : bool) (path : PathBuf) (baseline current : str) :
    option str :=
  if str_eqb baseline current then None
  else if too_large_to_diff baseline || too_large_to_diff current then None
  else if timed_out then None
  else
    let path_str := path_display path in
    let unified := unified_diff CONTEXT_LINES (lit "a/" ++ path_str) (lit "b/" ++ path_str)
                     (diff_lines baseline current) in
    if is_empty unified then None else Some unified.

(** [usize] arithmetic of the release profile, which wraps around. *)
Definition wrapping_usize (z : Z) : N := Z.to_N (z mod 18446744073709551616)%Z.

Definition prefixed (p : string) (l : list str) : str := concat (map (fun line => lit p ++ line ++ nl) l).

Definition lines_range (l : list str) (a b : nat) : list str := take (b - a) (drop a l).

(** Source: crates/codegen/xai-hunk-tracker/src/diff.rs:77-146, [generate_hunk_patch]. *)
Definition generate_hunk_patch (baseline current : str) (hunk : Hunk) : str :=
  let old_lines := lines baseline in
  let new_lines := lines current in
  let info := h_lines hunk in
  let old_start_idx := pred (old_start info) in
  let new_start_idx := pred (new_start info) in
  let context_before_start := old_start_idx - CONTEXT_LINES in
  let context_before_end := old_start_idx in
  let changes_end_new := new_start_idx + new_count info in
  let context_after_start := changes_end_new in
  let context_after_end := Nat.min (changes_end_new + CONTEXT_LINES) (length new_lines) in
  let changes_end_old := old_start_idx + old_count info in
  let context_after_start_old := changes_end_old in
  let context_after_end_old := Nat.min (changes_end_old + CONTEXT_LINES) (length old_lines) in
  let before := (Z.of_nat context_before_end - Z.of_nat context_before_start)%Z in
  let total_old_lines :=
    wrapping_usize (before + Z.of_nat (old_count info)
                    + (Z.of_nat context_after_end_old - Z.of_nat context_after_start_old)) in
  let total_new_lines :=
    wrapping_usize (before + Z.of_nat (new_count info)
                    + (Z.of_nat context_after_end - Z.of_nat context_after_start)) in
  let header_old_start := S context_before_start in
  let header_new_start := S context_before_start in
  lit "@@ -" ++ show_nat header_old_start ++ lit "," ++ show_N total_old_lines ++ lit " +"
  ++ show_nat header_new_start ++ lit "," ++ show_N total_new_lines ++ lit " @@" ++ nl
  ++ prefixed " " (lines_range old_lines context_before_start context_before_end)
  ++ from_option (fun t => prefixed "-" (lines t)) [] (h_old_text hunk)
  ++ prefixed "+" (lines (h_new_text hunk))
  ++ prefixed " " (lines_range new_lines context_after_start context_after_end).

(** Source: crates/codegen/xai-hunk-tracker/src/diff.rs:246-251, [HunkBuilder]. *)
Record HunkBuilder := mkBuilder {
  b_old_start : nat;
  b_new_start : nat;
  b_old_lines : list str;
  b_new_lines : list str;
}.

(** Source: crates/codegen/xai-hunk-tracker/src/diff.rs:254-261, [HunkBuilder::new]. *)
Definition builder_new (old_start new_start : nat) : HunkBuilder := mkBuilder old_start new_start [] [].

(** Source: crates/codegen/xai-hunk-tracker/src/diff.rs:263-265, [HunkBuilder::add_old_line]. *)
Definition add_old_line (b : HunkBuilder) (line : str) : HunkBuilder :=
  mkBuilder (b_old_start b) (b_new_start b) (b_old_lines b ++ [line]) (b_new_lines b).

(** Source: crates/codegen/xai-hunk-tracker/src/diff.rs:267-269, [HunkBuilder::add_new_line]. *)
Definition add_new_line (b : HunkBuilder) (line : str) : HunkBuilder :=
  mkBuilder (b_old_start b) (b_new_start b) (b_old_lines b) (b_new_lines b ++ [line]).

(** Source: crates/codegen/xai-hunk-tracker/src/diff.rs:271-296, [HunkBuilder::build]. *)
Definition build (b : HunkBuilder) (path : PathBuf) (source : HunkSource) (id : HunkId) : Hunk :=
  let old_text := if is_empty (b_old_lines b) then None else Some (concat (b_old_lines b)) in
  let new_text := concat (b_new_lines b) in
  mkHunk id path
    (mkLines (b_old_start b) (length (b_old_lines b)) (b_new_start b) (length (b_new_lines b)))
    source old_text new_text None false.

(** The loop over the changes.

    Source: crates/codegen/xai-hunk-tracker/src/diff.rs:205-242, [compute_hunks]. *)
Fixpoint hunks_loop (changes : list (ChangeTag * str)) (old_line new_line : nat)
    (current_hunk : option HunkBuilder) : list HunkBuilder :=
  match changes with
  | [] => option_list current_hunk
  | (Equal, _) :: rest => option_list current_hunk ++ hunks_loop rest (S old_line) (S new_line) None
  | (Delete, value) :: rest =>
      let hunk := default (builder_new old_line new_line) current_hunk in
      hunks_loop rest (S old_line) new_line (Some (add_old_line hunk value))
  | (Insert, value) :: rest =>
      let hunk := default (builder_new old_line new_line) current_hunk in
      hunks_loop rest old_line (S new_line) (Some (add_new_line hunk value))
  end.

(** Building the hunks in order; each takes the next identifier. *)
Fixpoint build_all `{Uuids} (builders : list HunkBuilder) (path : PathBuf) (source : HunkSource) (minted : nat) :
    list Hunk :=
  match builders with
  | [] => []
  | b :: rest => build b path source (uuid_v4 minted) :: build_all rest path source (S minted)
  end.

(** [minted] identifiers were drawn before; the hunks and the count after.

    Source: crates/codegen/xai-hunk-tracker/src/diff.rs:151-243, [compute_hunks]. *)
Definition compute_hunks `{LineDiff, Uuids} (timed_out : bool) (path : PathBuf) (baseline current : str)
    (source : HunkSource) (minted : nat) : list Hunk * nat :=
  if str_eqb baseline current then ([], minted)
  else if too_large_to_diff baseline || too_large_to_diff current then ([], minted)
  else if timed_out then ([], minted)
  else
    let builders := hunks_loop (diff_lines baseline current) 1 1 None in
    (build_all builders path source minted, minted + length builders).

(** Source: crates/codegen/xai-hunk-tracker/src/diff.rs:300-321, [format_unified_diff]. *)
Definition format_unified_diff (hunk : Hunk) : str :=
  lit "--- a/" ++ path_display (h_path hunk) ++ nl
  ++ lit "+++ b/" ++ path_display (h_path hunk) ++ nl
  ++ display_line_info (h_lines hunk) ++ nl
  ++ from_option (fun t => prefixed "-" (lines t)) [] (h_old_text hunk)
  ++ prefixed "+" (lines (h_new_text hunk)).

(** ** Patching *)

(** Source: crates/codegen/xai-hunk-tracker/src/diff.rs:325-356, [patch_lines]. *)
Definition patch_lines (content : str) (start_line remove_count : nat) (insert_text : str) : str :=
  let ls := lines content in
  let start_idx := pred start_line in
  let inserted := if is_empty insert_text then [] else lines insert_text in
  let end_idx := Nat.min (start_idx + remove_count) (length ls) in
  let result := take (Nat.min start_idx (length ls)) ls ++ inserted ++ drop end_idx ls in
  let output := join nl result in
  if ends_with nl content && negb (is_empty output) then output ++ nl else output.

(** A stable descending sort by a key, [sort_by_key(|h| Reverse(key))]. *)
Fixpoint insert_desc {A} (key : A -> nat) (x : A) (l : list A) : list A :=
  match l with
  | [] => [x]
  | y :: rest => if Nat.leb (key y) (key x) then x :: y :: rest else y :: insert_desc key x rest
  end.

Definition sort_desc {A} (key : A -> nat) (l : list A) : list A := foldr (insert_desc key) [] l.

(** One hunk taken into the baseline.

    Source: crates/codegen/xai-hunk-tracker/src/actor/actions.rs:123-128, [accept_hunk]. *)
Definition accept_patch (baseline : str) (hunk : Hunk) : str :=
  patch_lines baseline (old_start (h_lines hunk)) (old_count (h_lines hunk)) (h_new_text hunk).

(** One hunk taken out of the current content.

    Source: crates/codegen/xai-hunk-tracker/src/actor/actions.rs:203-209, [reject_hunk]. *)
Definition reject_patch (current : str) (hunk : Hunk) : str :=
  let old_text := default [] (h_old_text hunk) in
  patch_lines current (new_start (h_lines hunk)) (new_count (h_lines hunk)) old_text.

(** A batch is applied from the end of the file, so that no hunk moves another.

    Source: crates/codegen/xai-hunk-tracker/src/actor/actions.rs:446-457, [accept_hunks_batch]. *)
Definition accept_patches (baseline : str) (hunks : list Hunk) : str :=
  foldl accept_patch baseline (sort_desc (fun h => old_start (h_lines h)) hunks).

(** Source: crates/codegen/xai-hunk-tracker/src/actor/actions.rs:586-597, [reject_hunks_batch]. *)
Definition reject_patches (current : str) (hunks : list Hunk) : str :=
  foldl reject_patch current (sort_desc (fun h => new_start (h_lines h)) hunks).

(** ** Matching *)

Definition opt_str_eqb (a b : option str) : bool :=
  match a, b with
  | Some x, Some y => str_eqb x y
  | None, None => true
  | _, _ => false
  end.

Fixpoint path_eqb (a b : PathBuf) : bool :=
  match a, b with
  | [], [] => true
  | x :: a', y :: b' => str_eqb x y && path_eqb a' b'
  | _, _ => false
  end.

(** Source: crates/codegen/xai-hunk-tracker/src/diff.rs:360-362, [hunks_match_content]. *)
Definition hunks_match_content (a b : Hunk) : bool :=
  path_eqb (h_path a) (h_path b) && opt_str_eqb (h_old_text a) (h_old_text b)
  && str_eqb (h_new_text a) (h_new_text b).

(** Source: crates/codegen/xai-hunk-tracker/src/diff.rs:365-367, [hunk_moved]. *)
Definition hunk_moved (old new : Hunk) : bool :=
  hunks_match_content old new && negb (bool_decide (h_lines old = h_lines new)).

(** Source: crates/codegen/xai-hunk-tracker/src/diff.rs:372-403, [hunks_overlap]. *)
Definition hunks_overlap (a b : Hunk) : bool :=
  if negb (path_eqb (h_path a) (h_path b)) then false
  else
    let a_start := old_start (h_lines a) in
    let a_end := old_start (h_lines a) + old_count (h_lines a) in
    let b_start := old_start (h_lines b) in
    let b_end := old_start (h_lines b) + old_count (h_lines b) in
    if Nat.eqb (old_count (h_lines a)) 0 && Nat.eqb (old_count (h_lines b)) 0 then Nat.eqb a_start b_start
    else if Nat.eqb (old_count (h_lines a)) 0 then Nat.leb b_start a_start && Nat.leb a_start b_end
    else if Nat.eqb (old_count (h_lines b)) 0 then Nat.leb a_start b_start && Nat.leb b_start a_end
    else negb (Nat.ltb a_end b_start || Nat.ltb b_end a_start).

(** Source: crates/codegen/xai-hunk-tracker/src/diff.rs:433-443, [calculate_overlap_size]. *)
Definition calculate_overlap_size (a b : HunkLineInfo) : nat :=
  let overlap_start := Nat.max (old_start a) (old_start b) in
  let overlap_end := Nat.min (old_start a + old_count a) (old_start b + old_count b) in
  overlap_end - overlap_start.

(** [Iterator::min_by_key], the first of the least; [max_by_key], the last of
    the greatest. *)
Definition min_by_key {A} (key : A -> nat) (l : list A) : option A :=
  foldl (fun best x =>
    match best with
    | Some b => if Nat.ltb (key x) (key b) then Some x else best
    | None => Some x
    end) None l.

Definition max_by_key {A} (key : A -> nat) (l : list A) : option A :=
  foldl (fun best x =>
    match best with
    | Some b => if Nat.leb (key b) (key x) then Some x else best
    | None => Some x
    end) None l.

Definition abs_diff (a b : nat) : nat := (a - b) + (b - a).

(** Source: crates/codegen/xai-hunk-tracker/src/diff.rs:407-430, [find_matching_old_hunk]. *)
Definition find_matching_old_hunk (new_hunk : Hunk) (old_hunks : list Hunk) : option Hunk :=
  let content_matches := List.filter (fun o => hunks_match_content o new_hunk) old_hunks in
  if negb (is_empty content_matches) then
    min_by_key (fun o => abs_diff (new_start (h_lines o)) (new_start (h_lines new_hunk))) content_matches
  else
    max_by_key (fun o => calculate_overlap_size (h_lines o) (h_lines new_hunk))
      (List.filter (fun o => hunks_overlap o new_hunk) old_hunks).

(** Source: crates/codegen/xai-hunk-tracker/src/diff.rs:446-454, [find_overlapping_hunks]. *)
Definition find_overlapping_hunks (new_hunk : Hunk) (old_hunks : list Hunk) : list Hunk :=
  List.filter (fun o => hunks_overlap o new_hunk) old_hunks.

(** ** A diff as segments

    The specification of the hunks: a diff is a sequence of kept lines and of
    blocks, each replacing lines of the old text by lines of the new. *)
Inductive segment :=
  | Keep (line : str)
  | Block (dels inss : list str).

Definition swap_segment (s : segment) : segment :=
  match s with Keep v => Keep v | Block d i => Block i d end.

Definition open_block (cur : option (list str * list str)) : list segment :=
  match cur with Some (d, i) => [Block d i] | None => [] end.

Fixpoint segments (changes : list (ChangeTag * str)) (cur : option (list str * list str)) : list segment :=
  match changes with
  | [] => open_block cur
  | (Equal, v) :: rest => open_block cur ++ Keep v :: segments rest None
  | (Delete, v) :: rest =>
      let '(d, i) := default ([], []) cur in segments rest (Some (d ++ [v], i))
  | (Insert, v) :: rest =>
      let '(d, i) := default ([], []) cur in segments rest (Some (d, i ++ [v]))
  end.

(** The text in which the blocks picked are new and the others old. *)
Fixpoint merge (pick : list bool) (segs : list segment) : list str :=
  match segs with
  | [] => []
  | Keep v :: rest => v :: merge pick rest
  | Block d i :: rest =>
      match pick with
      | true :: pick' => i ++ merge pick' rest
      | _ :: pick' => d ++ merge pick' rest
      | [] => d ++ merge [] rest
      end
  end.

Fixpoint select {A} (pick : list bool) (l : list A) : list A :=
  match pick, l with
  | true :: pick', x :: l' => x :: select pick' l'
  | _ :: pick', _ :: l' => select pick' l'
  | _, _ => []
  end.

(** The builders of the blocks, and the patches that turn old into new. *)
Fixpoint blocks (segs : list segment) (o n : nat) : list HunkBuilder :=
  match segs with
  | [] => []
  | Keep _ :: rest => blocks rest (S o) (S n)
  | Block d i :: rest => mkBuilder o n d i :: blocks rest (o + length d) (n + length i)
  end.

Fixpoint edits (segs : list segment) (k : nat) : list (nat * nat * str) :=
  match segs with
  | [] => []
  | Keep _ :: rest => edits rest (S k)
  | Block d i :: rest => (k, length d, concat i) :: edits rest (k + length d)
  end.

Definition edit (e : nat * nat * str) (content : str) : str :=
  let '(start, count, text) := e in patch_lines content start count text.

Definition full_line (t : str) : Prop := ∃ l, t = l ++ nl ∧ byte 10 ∉ l ∧ byte 13 ∉ l.

Definition segment_lines (s : segment) : list str :=
  match s with Keep v => [v] | Block d i => d ++ i end.

(** No text between two patches is empty or a single empty line, where
    [patch_lines] forgets the final line feed. *)
Fixpoint settled (pre : list str) (pick : list bool) (segs : list segment) : Prop :=
  match segs with
  | [] => True
  | Keep v :: rest => settled (pre ++ [v]) pick rest
  | Block d i :: rest =>
      match pick with
      | true :: pick' =>
          pre ++ d ++ merge pick' rest ≠ [] ∧ pre ++ i ++ merge pick' rest ≠ [nl]
          ∧ settled (pre ++ d) pick' rest
      | _ :: pick' => settled (pre ++ d) pick' rest
      | [] => True
      end
  end.

(** Some line that is not blank stays, or nothing does and neither text is blank. *)
Definition steady (baseline current : str) (changes : list (ChangeTag * str)) : Prop :=
  (∃ v, (Equal, v) ∈ changes ∧ v ≠ nl)
  ∨ (Forall (fun c => fst c ≠ Equal) changes ∧ baseline ≠ [] ∧ baseline ≠ nl ∧ current ≠ [] ∧ current ≠ nl).

(** ** Lines *)

Lemma split_inclusive_concat cur s : concat (split_inclusive_from cur s) = rev cur ++ s.
Proof.
  revert cur. induction s as [|c s IH]; intros cur; cbn [split_inclusive_from].
  - destruct cur; [done|]. cbn [concat]. by rewrite !app_nil_r.
  - destruct (ch_eqb c (byte 10)); cbn [concat]; rewrite IH; cbn [rev app]; by rewrite <- app_assoc.
Qed.

Lemma ends_with_nl_cons c s : s ≠ [] -> ends_with nl (c :: s) = true -> ends_with nl s = true.
Proof.
  rewrite !ends_with_spec. intros Hs [t Ht]. destruct t as [|x t]; injection Ht; [done|].
  intros -> _. by exists t.
Qed.

Lemma split_inclusive_lines cur s :
  byte 10 ∉ cur -> byte 13 ∉ cur -> cr_free s -> ends_with nl s = true ->
  Forall full_line (split_inclusive_from cur s).
Proof.
  revert cur. induction s as [|c s IH]; intros cur H10 H13 Hcr Hend; [done|].
  unfold cr_free in Hcr. rewrite not_elem_of_cons in Hcr. destruct Hcr as [Hc Hcr].
  cbn [split_inclusive_from].
  destruct (ch_eqb c (byte 10)) eqn:He.
  - apply ch_eqb_eq in He as ->. constructor.
    + exists (rev cur). cbn [rev]. by rewrite !list_elem_of_In, <- !in_rev, <- !list_elem_of_In.
    + destruct s as [|c' s]; [constructor|].
      apply IH; [apply not_elem_of_nil..|done|]. by eapply ends_with_nl_cons.
  - assert (c ≠ byte 10) by (intros ->; by rewrite ch_eqb_refl in He).
    apply IH; [rewrite not_elem_of_cons; done..|done|].
    eapply ends_with_nl_cons; [|done]. intros ->.
    apply ends_with_spec in Hend as [t Ht]. by apply (app_inj_tail [] t c (byte 10)) in Ht as [_ ?].
Qed.

Lemma full_line_ends_nl toks : Forall full_line toks -> toks ≠ [] -> ends_with nl (concat toks) = true.
Proof.
  intros Hf Hne. destruct (exists_last Hne) as (l & t & ->).
  apply Forall_app in Hf as [_ Hf]. apply Forall_inv in Hf as (x & -> & _).
  apply ends_with_spec. exists (concat l ++ x). rewrite concat_app. cbn. by rewrite app_nil_r, app_assoc.
Qed.

Lemma split_inclusive_tokens toks : Forall full_line toks -> split_inclusive (concat toks) = toks.
Proof.
  unfold split_inclusive. induction 1 as [|t toks (l & -> & Hl & _) _ IH]; [done|].
  cbn [concat]. rewrite <- app_assoc, split_inclusive_line by done. by rewrite IH.
Qed.

Lemma strip_full_line l : byte 13 ∉ l -> strip_line_ending (l ++ nl) = l.
Proof.
  intros Hl. unfold strip_line_ending. rewrite strip_suffix_app. unfold strip_suffix.
  destruct (ends_with [byte 13] l) eqn:He; [|done].
  apply ends_with_spec in He as [t ->]. apply not_elem_of_app in Hl as [_ []]. apply list_elem_of_here.
Qed.

Lemma full_line_strip t : full_line t -> strip_line_ending t ++ nl = t.
Proof. intros (l & -> & _ & Hl). by rewrite strip_full_line. Qed.

Lemma join_full_lines toks : Forall full_line toks -> toks ≠ [] ->
  join nl (map strip_line_ending toks) ++ nl = concat toks.
Proof.
  induction 1 as [|t toks Ht Hf IH]; [done|]. intros _. destruct toks as [|t' toks].
  - cbn. rewrite app_nil_r. by apply full_line_strip.
  - cbn [map] in *. rewrite join_cons by done. cbn [concat] in *.
    rewrite <- !app_assoc, IH by done. rewrite (app_assoc _ nl), full_line_strip; done.
Qed.

Lemma join_full_empty toks : Forall full_line toks -> toks ≠ [] -> toks ≠ [nl] ->
  is_empty (join nl (map strip_line_ending toks)) = false.
Proof.
  intros Hf Hne Hnl. apply is_empty_false. intros Hj.
  pose proof (join_full_lines _ Hf Hne) as Hc. rewrite Hj in Hc. cbn [app] in Hc.
  destruct toks as [|t toks]; [done|]. apply Forall_cons in Hf as [(l & -> & _) Hf].
  cbn [concat] in Hc. apply (f_equal length) in Hc. rewrite !length_app in Hc. cbn in Hc.
  destruct l; [|cbn in Hc; lia]. destruct toks as [|t' toks]; [done|].
  apply Forall_cons in Hf as [(l' & -> & _) _]. cbn in Hc. rewrite !length_app in Hc. cbn in Hc. lia.
Qed.

(** On texts of full lines a patch is the replacement of the lines. *)
Lemma patch_lines_tokens pre dels inss post :
  Forall full_line (pre ++ dels ++ inss ++ post) ->
  pre ++ dels ++ post ≠ [] -> pre ++ inss ++ post ≠ [nl] ->
  patch_lines (concat (pre ++ dels ++ post)) (S (length pre)) (length dels) (concat inss)
  = concat (pre ++ inss ++ post).
Proof.
  intros Hf Hne Hnl. rewrite !Forall_app in Hf. destruct Hf as (Hp & Hd & Hi & Hq).
  assert (Ho : Forall full_line (pre ++ dels ++ post)) by (rewrite !Forall_app; done).
  assert (Hn : Forall full_line (pre ++ inss ++ post)) by (rewrite !Forall_app; done).
  unfold patch_lines. cbn [pred].
  assert (Hl : lines (concat (pre ++ dels ++ post)) = map strip_line_ending (pre ++ dels ++ post)).
  { unfold lines. by rewrite split_inclusive_tokens. }
  rewrite Hl, length_map. rewrite full_line_ends_nl by done.
  assert (Hins : (if is_empty (concat inss) then [] else lines (concat inss)) = map strip_line_ending inss).
  { destruct (is_empty (concat inss)) eqn:He.
    - destruct inss as [|t inss]; [done|]. apply Forall_cons in Hi as [(l & -> & _) _].
      apply is_empty_spec in He. cbn in He. destruct l; discriminate.
    - unfold lines. by rewrite split_inclusive_tokens. }
  rewrite Hins. rewrite !length_app.
  rewrite Nat.min_l by lia. rewrite Nat.min_l by lia.
  rewrite !firstn_map, !skipn_map, <- !map_app.
  rewrite take_app_length. rewrite drop_app_ge by lia.
  replace (length pre + length dels - length pre) with (length dels) by lia.
  rewrite drop_app_length.
  destruct (decide (pre ++ inss ++ post = [])) as [->|Hne']; [done|].
  rewrite join_full_empty by done. cbn [negb andb]. by apply join_full_lines.
Qed.

(** ** Segments *)

Definition start_ok (b : HunkBuilder) (o n : nat) : Prop := b_old_start b ≤ o ∧ b_new_start b ≤ n.

Definition before (a b : HunkBuilder) : Prop := b_old_start a < b_old_start b ∧ b_new_start a < b_new_start b.

Lemma hunks_loop_blocks changes o n :
  hunks_loop changes o n None = blocks (segments changes None) o n
  ∧ ∀ d i, hunks_loop changes (o + length d) (n + length i) (Some (mkBuilder o n d i))
           = blocks (segments changes (Some (d, i))) o n.
Proof.
  revert o n. induction changes as [|[[] v] rest IH]; intros o n; [done|..].
  - destruct (IH (S o) (S n)) as [H1 _]. split; [done|]. intros d i. cbn. f_equal.
    specialize (IH (S (o + length d)) (S (n + length i))) as [-> _]. done.
  - split.
    + destruct (IH o n) as [_ H2]. specialize (H2 [v] []). cbn in H2 |- *.
      by rewrite !Nat.add_1_r, Nat.add_0_r in H2.
    + intros d i. destruct (IH o n) as [_ H2]. specialize (H2 (d ++ [v]) i). rewrite length_app in H2. cbn in H2 |- *.
      by rewrite Nat.add_1_r, Nat.add_succ_r in H2.
  - split.
    + destruct (IH o n) as [_ H2]. specialize (H2 [] [v]). cbn in H2 |- *.
      by rewrite !Nat.add_1_r, Nat.add_0_r in H2.
    + intros d i. destruct (IH o n) as [_ H2]. specialize (H2 d (i ++ [v])). rewrite length_app in H2. cbn in H2 |- *.
      by rewrite Nat.add_1_r, Nat.add_succ_r in H2.
Qed.

Lemma hunks_loop_sorted changes : ∀ o n cur,
  (∀ b, cur = Some b -> start_ok b o n) ->
  Forall (fun b => from_option b_old_start o cur ≤ b_old_start b ∧ from_option b_new_start n cur ≤ b_new_start b)
    (hunks_loop changes o n cur)
  ∧ StronglySorted before (hunks_loop changes o n cur).
Proof.
  induction changes as [|[[] v] rest IH]; intros o n cur Hcur; cbn [hunks_loop].
  - destruct cur; cbn; repeat constructor.
  - destruct (IH (S o) (S n) None) as [Hf Hs]; [done|]. cbn [from_option] in Hf.
    destruct cur as [b|]; cbn [option_list app from_option].
    + destruct (Hcur b eq_refl) as [? ?]. unfold before.
      split; constructor; try done; try (cbn; lia);
        (eapply Forall_impl; [exact Hf|]; cbn; lia).
    + split; [|done]. eapply Forall_impl; [exact Hf|]. cbn. lia.
  - destruct (IH (S o) n (Some (add_old_line (default (builder_new o n) cur) v))) as [Hf Hs].
    { intros b [= <-]. unfold start_ok. destruct cur as [b|]; cbn; [destruct (Hcur b eq_refl)|]; lia. }
    split; [|done]. eapply Forall_impl; [exact Hf|]. destruct cur; cbn; done.
  - destruct (IH o (S n) (Some (add_new_line (default (builder_new o n) cur) v))) as [Hf Hs].
    { intros b [= <-]. unfold start_ok. destruct cur as [b|]; cbn; [destruct (Hcur b eq_refl)|]; lia. }
    split; [|done]. eapply Forall_impl; [exact Hf|]. destruct cur; cbn; done.
Qed.

Lemma merge_old segs : merge [] segs = concat (map (fun s => match s with Keep v => [v] | Block d _ => d end) segs).
Proof. induction segs as [|[] segs IH]; cbn; by rewrite ?IH. Qed.

Lemma blocks_length segs o n : length (blocks segs o n) = length (blocks segs 0 0).
Proof.
  revert o n. induction segs as [|[] segs IH]; intros o n; cbn; [done|..].
  - by rewrite IH, (IH 1).
  - by rewrite IH, (IH (length dels)).
Qed.

Lemma merge_all pick segs : length (blocks segs 0 0) ≤ length pick -> Forall (eq true) pick ->
  merge pick segs = merge [] (map swap_segment segs).
Proof.
  revert pick. induction segs as [|[v|d i] segs IH]; intros pick Hlen Hp; cbn [merge map swap_segment]; [done|..].
  - f_equal. apply IH; [|done]. cbn in Hlen. by rewrite blocks_length in Hlen.
  - cbn in Hlen. rewrite blocks_length in Hlen. destruct Hp as [|x pick <- Hp]; cbn in Hlen; [lia|]. f_equal.
    apply IH; [lia|done].
Qed.

Lemma merge_swap pick segs : length (blocks segs 0 0) ≤ length pick ->
  merge (map negb pick) (map swap_segment segs) = merge pick segs.
Proof.
  revert pick. induction segs as [|[v|d i] segs IH]; intros pick Hlen; cbn [merge map swap_segment]; [done|..].
  - f_equal. apply IH. cbn in Hlen. by rewrite blocks_length in Hlen.
  - cbn in Hlen. rewrite blocks_length in Hlen. destruct pick as [|[] pick]; cbn in Hlen |- *; [lia|..]; f_equal; apply IH; lia.
Qed.

Lemma segments_sides changes cur :
  merge [] (segments changes cur) = from_option fst [] cur ++ old_side changes
  ∧ merge [] (map swap_segment (segments changes cur)) = from_option snd [] cur ++ new_side changes.
Proof.
  revert cur. induction changes as [|[[] v] rest IH]; intros cur; cbn [segments].
  - destruct cur as [[d i]|]; cbn; by rewrite ?app_nil_r.
  - destruct (IH None) as [H1 H2]. destruct cur as [[d i]|]; cbn in *; by rewrite H1, H2.
  - destruct cur as [[d i]|]; cbn [default from_option id]; rewrite (proj1 (IH _)), (proj2 (IH _)); cbn; by rewrite <- ?app_assoc.
  - destruct cur as [[d i]|]; cbn [default from_option id]; rewrite (proj1 (IH _)), (proj2 (IH _)); cbn; by rewrite <- ?app_assoc.
Qed.

Lemma segment_lines_all (P : str -> Prop) changes cur :
  Forall P (from_option (fun c => fst c ++ snd c) [] cur) ->
  Forall P (old_side changes) -> Forall P (new_side changes) ->
  Forall (fun s => Forall P (segment_lines s)) (segments changes cur).
Proof.
  unfold old_side, new_side. revert cur.
  induction changes as [|[[] v] rest IH]; intros cur Hc Ho Hn;
    cbn [segments List.filter on_old_side on_new_side fst snd map] in *.
  - destruct cur as [[d i]|]; repeat constructor. exact Hc.
  - apply Forall_cons in Ho as [Hv Ho]. apply Forall_cons in Hn as [_ Hn].
    apply Forall_app. split; [destruct cur as [[d i]|]; repeat constructor; exact Hc|].
    constructor; [by repeat constructor|]. by apply IH.
  - apply Forall_cons in Ho as [Hv Ho]. destruct cur as [[d i]|]; cbn in Hc |- *; apply IH; try done;
      cbn; rewrite ?Forall_app in *; repeat split; try constructor; by try apply Hc.
  - apply Forall_cons in Hn as [Hv Hn]. destruct cur as [[d i]|]; cbn in Hc |- *; apply IH; try done;
      cbn; rewrite ?Forall_app in *; repeat split; try constructor; by try apply Hc.
Qed.

(** Applying the picked patches from the end gives the merged text. *)
Lemma edits_merge segs : ∀ pre pick,
  Forall (fun s => Forall full_line (segment_lines s)) segs -> Forall full_line pre -> settled pre pick segs ->
  foldr edit (concat (pre ++ merge [] segs)) (select pick (edits segs (S (length pre))))
  = concat (pre ++ merge pick segs).
Proof.
  assert (Hm : ∀ segs pick, Forall (fun s => Forall full_line (segment_lines s)) segs -> Forall full_line (merge pick segs)).
  { clear. intros segs pick Hf. revert pick. induction Hf as [|[v|d i] segs H Hf IH]; intros pick; cbn [merge segment_lines] in *; [done|..].
    - apply Forall_cons in H as [H _]. by constructor.
    - apply Forall_app in H as [Hd Hi]. destruct pick as [|[] pick]; apply Forall_app; auto. }
  induction segs as [|[v|d i] segs IH]; intros pre pick Hf Hp Hs.
  - by destruct pick as [|[] pick].
  - apply Forall_cons in Hf as [Hv Hf]. apply Forall_cons in Hv as [Hv _]. cbn [merge edits settled] in *.
    specialize (IH (pre ++ [v]) pick Hf). rewrite length_app, Nat.add_1_r, <- !app_assoc in IH.
    apply IH; [|done]. apply Forall_app. auto.
  - apply Forall_cons in Hf as [Hdi Hf]. apply Forall_app in Hdi as [Hd Hi]. cbn [merge edits settled] in *.
    specialize (IH (pre ++ d)). rewrite length_app in IH.
    assert (Hpd : Forall full_line (pre ++ d)) by (apply Forall_app; auto).
    destruct pick as [|[] pick]; [by cbn|..]; cbn [select foldr].
    + destruct Hs as (H1 & H2 & Hs). specialize (IH pick Hf Hpd Hs). rewrite <- !app_assoc in IH.
      cbn [Nat.add] in IH |- *. rewrite IH. apply patch_lines_tokens; [|done..].
      rewrite !Forall_app. auto.
    + specialize (IH pick Hf Hpd Hs). by rewrite <- !app_assoc in IH.
Qed.

Lemma merge_keeps v segs pick : Keep v ∈ segs -> v ∈ merge pick segs.
Proof.
  revert pick. induction segs as [|[v'|d i] segs IH]; intros pick; [by intros ?%not_elem_of_nil|..];
    rewrite elem_of_cons; intros [[=]|H]; subst; cbn [merge].
  - apply list_elem_of_here.
  - by apply list_elem_of_further, IH.
  - destruct pick as [|[] pick]; apply elem_of_app; right; auto.
Qed.

Lemma anchored_settled v segs : v ≠ nl -> ∀ pre pick, v ∈ pre ∨ Keep v ∈ segs -> settled pre pick segs.
Proof.
  intros Hv. induction segs as [|[v'|d i] segs IH]; intros pre pick Hin; cbn [settled]; [done|..].
  - apply IH. rewrite elem_of_app, list_elem_of_singleton. rewrite elem_of_cons in Hin. naive_solver.
  - assert (Hin' : v ∈ pre ++ d ∨ Keep v ∈ segs).
    { rewrite elem_of_app. rewrite elem_of_cons in Hin. naive_solver. }
    assert (Hall : ∀ x p, v ∈ pre ++ x ++ merge p segs).
    { intros x p. rewrite !elem_of_app. rewrite elem_of_cons in Hin.
      destruct Hin as [|[|Hin]]; [by left|done|right; right; by apply merge_keeps]. }
    destruct pick as [|[] pick]; [done| |by apply IH].
    split; [|split; [|by apply IH]]; intros He.
    + specialize (Hall d pick). rewrite He in Hall. by apply not_elem_of_nil in Hall.
    + specialize (Hall i pick). rewrite He in Hall. by apply list_elem_of_singleton in Hall.
Qed.

Lemma equal_kept v changes cur : (Equal, v) ∈ changes -> Keep v ∈ segments changes cur.
Proof.
  revert cur. induction changes as [|[[] v'] rest IH]; intros cur; [by intros ?%not_elem_of_nil|..];
    rewrite elem_of_cons; intros [[=]|H]; subst; cbn [segments].
  - apply elem_of_app. right. apply list_elem_of_here.
  - apply elem_of_app. right. by apply list_elem_of_further, IH.
  - destruct (default ([], []) cur) as [d i]. by apply IH.
  - destruct (default ([], []) cur) as [d i]. by apply IH.
Qed.

Lemma rewrite_one_block changes d i : Forall (fun c => fst c ≠ Equal) changes ->
  segments changes (Some (d, i)) = [Block (d ++ old_side changes) (i ++ new_side changes)].
Proof.
  unfold old_side, new_side. intros Hf. revert d i.
  induction Hf as [|[[] v] rest H Hf IH]; intros d i; cbn [segments List.filter on_old_side on_new_side fst snd map default from_option id];
    rewrite ?app_nil_r; try done; rewrite IH; by rewrite <- app_assoc.
Qed.

Lemma keep_swapped v segs : Keep v ∈ segs -> Keep v ∈ map swap_segment segs.
Proof. intros H. apply list_elem_of_fmap. by exists (Keep v). Qed.

(** The condition of the theorem is enough for both directions. *)
Lemma steady_settled baseline current changes pick :
  old_side changes = split_inclusive baseline -> new_side changes = split_inclusive current ->
  steady baseline current changes ->
  settled [] pick (segments changes None) ∧ settled [] pick (map swap_segment (segments changes None)).
Proof.
  intros Ho Hn [(v & Hv & Hne)|(Hf & Hb & Hb' & Hc & Hc')].
  - apply (equal_kept _ _ None) in Hv. split; eapply anchored_settled; eauto using keep_swapped.
  - destruct changes as [|c rest]; [done|].
    assert (Hs : segments (c :: rest) None = [Block (old_side (c :: rest)) (new_side (c :: rest))]).
    { transitivity (segments (c :: rest) (Some ([], []))); [by destruct c as [[] v]; apply Forall_inv in Hf|].
      by rewrite rewrite_one_block. }
    rewrite Hs, Ho, Hn. cbn [map swap_segment settled merge app].
    assert (Hsplit : ∀ s, split_inclusive s ≠ [] ∧ split_inclusive s ≠ [nl] ∨ s = [] ∨ s = nl).
    { intros s. pose proof (split_inclusive_concat [] s) as Hs'. fold (split_inclusive s) in Hs'.
      destruct (split_inclusive s) as [|t [|]]; cbn in Hs'; rewrite ?app_nil_r in Hs'.
      - right. by left.
      - destruct (decide (t = nl)) as [->|]; [right; by right|left]. split; congruence.
      - left. split; congruence. }
    destruct (Hsplit baseline) as [[? ?]|[]], (Hsplit current) as [[? ?]|[]]; try done.
    rewrite !app_nil_r. by destruct pick as [|[] pick].
Qed.

(** ** Applying a batch *)

Lemma insert_desc_end {A} (key : A -> nat) x l : Forall (fun y => key x < key y) l ->
  insert_desc key x l = l ++ [x].
Proof.
  induction 1 as [|y l H _ IH]; [done|]. cbn. destruct (Nat.leb_spec (key y) (key x)); [lia|]. by rewrite IH.
Qed.

Lemma sort_desc_rev {A} (key : A -> nat) l : StronglySorted (fun a b => key a < key b) l -> sort_desc key l = rev l.
Proof.
  induction 1 as [|x l _ IH Hx]; [done|]. cbn [sort_desc foldr rev]. change (foldr (insert_desc key) [] l) with (sort_desc key l).
  rewrite IH. apply insert_desc_end. by apply Forall_rev.
Qed.

Lemma foldl_rev {A B} (f : A -> B -> A) a l : foldl f a (rev l) = foldr (fun y x => f x y) a l.
Proof.
  revert a. induction l as [|y l IH]; intros a; [done|]. cbn [rev foldr].
  rewrite foldl_app. cbn. by rewrite IH.
Qed.

Lemma select_sublist {A} pick (l : list A) : sublist (select pick l) l.
Proof.
  revert pick. induction l as [|x l IH]; intros [|[] pick]; cbn; eauto using sublist_nil_l, sublist_skip, sublist_cons.
Qed.

Lemma StronglySorted_sublist {A} (R : A -> A -> Prop) l k : sublist l k -> StronglySorted R k -> StronglySorted R l.
Proof.
  induction 1 as [|x l k Hsub IH|x l k Hsub IH]; intros Hk; [done|..]; apply StronglySorted_inv in Hk as [Hk Hx]; auto.
  constructor; [auto|]. rewrite Forall_forall in *. intros y Hy. apply Hx. by eapply elem_of_sublist.
Qed.

Lemma select_map {A B} (f : A -> B) pick l : select pick (map f l) = map f (select pick l).
Proof. revert pick. induction l as [|x l IH]; intros [|[] pick]; cbn; by rewrite ?IH. Qed.

Lemma select_all {A} (l : list A) pick : length l ≤ length pick -> Forall (eq true) pick -> select pick l = l.
Proof.
  revert pick. induction l as [|x l IH]; intros pick Hl Hp; [by destruct pick as [|[]]|].
  destruct Hp as [|y pick <- Hp]; cbn in Hl; [lia|]. cbn. rewrite IH; [done|lia|done].
Qed.

Definition accept_edit (h : Hunk) : nat * nat * str := (old_start (h_lines h), old_count (h_lines h), h_new_text h).
Definition reject_edit (h : Hunk) : nat * nat * str :=
  (new_start (h_lines h), new_count (h_lines h), default [] (h_old_text h)).

Section batches.
Context `{LineDiff, Uuids}.

Lemma build_all_edits segs o n path source m :
  let hunks := build_all (blocks segs o n) path source m in
  map accept_edit hunks = edits segs o ∧ map reject_edit hunks = edits (map swap_segment segs) n.
Proof.
  cbv zeta. revert o n m. induction segs as [|[v|d i] segs IH]; intros o n m;
    cbn [blocks build_all map edits swap_segment]; [done|apply IH|].
  destruct (IH (o + length d) (n + length i) (S m)) as [-> ->].
  split; [done|]. f_equal. unfold reject_edit. cbn. by destruct d.
Qed.

Lemma build_all_sorted bs path source m : StronglySorted before bs ->
  StronglySorted (fun a b => old_start (h_lines a) < old_start (h_lines b)) (build_all bs path source m)
  ∧ StronglySorted (fun a b => new_start (h_lines a) < new_start (h_lines b)) (build_all bs path source m).
Proof.
  intros Hs. revert m. induction Hs as [|b bs _ IH Hb]; intros m; cbn [build_all]; [by repeat constructor|].
  destruct (IH (S m)) as [H1 H2].
  assert (Hall : ∀ k, Forall (fun h => b_old_start b < old_start (h_lines h) ∧ b_new_start b < new_start (h_lines h))
                        (build_all bs path source k)).
  { clear -Hb. induction Hb as [|b' bs [? ?] _ IH]; intros k; cbn [build_all]; constructor; auto. }
  split; (constructor; [done|]); (eapply Forall_impl; [apply Hall|]); cbn; tauto.
Qed.

Lemma batch_merge segs pick :
  Forall (fun s => Forall full_line (segment_lines s)) segs -> settled [] pick segs ->
  foldr edit (concat (merge [] segs)) (select pick (edits segs 1)) = concat (merge pick segs).
Proof. intros Hf Hs. by apply (edits_merge segs []). Qed.

Lemma accept_select hunks baseline pick :
  StronglySorted (fun a b => old_start (h_lines a) < old_start (h_lines b)) hunks ->
  accept_patches baseline (select pick hunks) = foldr edit baseline (select pick (map accept_edit hunks)).
Proof.
  intros Hs. unfold accept_patches. rewrite sort_desc_rev, foldl_rev, select_map, foldr_fmap; [done|].
  eapply StronglySorted_sublist; [apply select_sublist|exact Hs].
Qed.

Lemma reject_select hunks current pick :
  StronglySorted (fun a b => new_start (h_lines a) < new_start (h_lines b)) hunks ->
  reject_patches current (select pick hunks) = foldr edit current (select pick (map reject_edit hunks)).
Proof.
  intros Hs. unfold reject_patches. rewrite sort_desc_rev, foldl_rev, select_map, foldr_fmap; [done|].
  eapply StronglySorted_sublist; [apply select_sublist|exact Hs].
Qed.

Lemma split_inclusive_id s : concat (split_inclusive s) = s.
Proof. apply (split_inclusive_concat []). Qed.

Lemma edits_length segs k : length (edits segs k) = length (blocks segs 0 0).
Proof.
  revert k. induction segs as [|[] segs IH]; intros k; cbn; [done|..]; rewrite IH.
  - by rewrite (blocks_length segs 1 1).
  - by rewrite (blocks_length segs (length dels) _).
Qed.

Lemma blocks_swap_length segs : length (blocks (map swap_segment segs) 0 0) = length (blocks segs 0 0).
Proof.
  induction segs as [|[] segs IH]; cbn [map swap_segment blocks length]; [done|..].
  - rewrite (blocks_length (map _ _) 1 1), (blocks_length segs 1 1). apply IH.
  - rewrite (blocks_length (map _ _) (0 + _)), (blocks_length segs (0 + _)). by f_equal.
Qed.

Lemma swap_swap segs : map swap_segment (map swap_segment segs) = segs.
Proof. rewrite map_map. rewrite <- (map_id segs) at 2. apply map_ext. by intros []. Qed.

Lemma full_segments `{!LineDiffLaws} baseline current :
  cr_free baseline -> cr_free current -> ends_with nl baseline = true -> ends_with nl current = true ->
  let segs := segments (diff_lines baseline current) None in
  Forall (fun s => Forall full_line (segment_lines s)) segs
  ∧ Forall (fun s => Forall full_line (segment_lines s)) (map swap_segment segs)
  ∧ concat (merge [] segs) = baseline ∧ concat (merge [] (map swap_segment segs)) = current.
Proof.
  intros Hb Hc Eb Ec. cbv zeta.
  assert (Hf : Forall (fun s => Forall full_line (segment_lines s)) (segments (diff_lines baseline current) None)).
  { apply segment_lines_all; [constructor|..]; [rewrite diff_old_side by done|rewrite diff_new_side by done];
      apply split_inclusive_lines; try done; apply not_elem_of_nil. }
  split; [done|]. split.
  { apply Forall_map. eapply Forall_impl; [exact Hf|]. intros [v|d i]; cbn; [done|]. rewrite !Forall_app. tauto. }
  rewrite (proj1 (segments_sides _ _)), (proj2 (segments_sides _ _)). cbn.
  rewrite diff_old_side, diff_new_side by done. split; apply split_inclusive_id.
Qed.

(** What a batch over any selection computes. *)
Lemma batch_both `{!LineDiffLaws} path baseline current source minted :
  cr_free baseline -> cr_free current -> ends_with nl baseline = true -> ends_with nl current = true ->
  steady baseline current (diff_lines baseline current) ->
  let segs := segments (diff_lines baseline current) None in
  let hunks := build_all (hunks_loop (diff_lines baseline current) 1 1 None) path source minted in
  length hunks = length (blocks segs 0 0)
  ∧ (∀ p, accept_patches baseline (select p hunks) = concat (merge p segs))
  ∧ (∀ p, reject_patches current (select p hunks) = concat (merge p (map swap_segment segs))).
Proof.
  intros Hb Hc Eb Ec Hsteady. cbv zeta.
  destruct (full_segments baseline current) as (Hf & Hf' & Hold & Hnew); [done..|].
  destruct (hunks_loop_blocks (diff_lines baseline current) 1 1) as [Hblocks _].
  destruct (hunks_loop_sorted (diff_lines baseline current) 1 1 None) as [_ Hsorted]; [done|].
  destruct (build_all_sorted _ path source minted Hsorted) as [Hso Hsn]. rewrite Hblocks in *.
  set (segs := segments (diff_lines baseline current) None) in *.
  destruct (build_all_edits segs 1 1 path source minted) as [Hacc Hrej].
  set (hunks := build_all (blocks segs 1 1) path source minted) in *.
  assert (Hset : ∀ p, settled [] p segs ∧ settled [] p (map swap_segment segs)).
  { intros p. apply (steady_settled baseline current); [by apply diff_old_side|by apply diff_new_side|done]. }
  split; [|split; intros p].
  - by rewrite <- (length_map accept_edit hunks), Hacc, edits_length.
  - rewrite accept_select, Hacc by done. rewrite <- Hold at 1. apply batch_merge; [done|apply Hset].
  - rewrite reject_select, Hrej by done. rewrite <- Hnew at 1. apply batch_merge; [done|apply Hset].
Qed.

(** C17 The hunks of a diff are a faithful, separable account of the change. For two texts without carriage returns that
    both end with a line feed, of at most the size that is diffed and diffed in time, and whose diff keeps some
    line that is not blank (or keeps none, neither text being blank): accepting any selection of the hunks into the
    baseline and rejecting all the others from the current content meet in the same text; accepting all of them turns the
    baseline into the current content, rejecting all turns the current content back into the baseline. (The
    conditions are needed: see [patch_strips_carriage_returns] and [blank_text_loses_line].) *)
Theorem hunks_apply_partially `{!LineDiffLaws} path baseline current source minted pick :
  cr_free baseline -> cr_free current ->
  ends_with nl baseline = true -> ends_with nl current = true ->
  too_large_to_diff baseline || too_large_to_diff current = false ->
  steady baseline current (diff_lines baseline current) ->
  let hunks := fst (compute_hunks false path baseline current source minted) in
  length hunks = length pick ->
  accept_patches baseline (select pick hunks) = reject_patches current (select (map negb pick) hunks)
  ∧ accept_patches baseline hunks = current
  ∧ reject_patches current hunks = baseline.
Proof.
  intros Hb Hc Eb Ec Hsize Hsteady. cbv zeta. unfold compute_hunks. rewrite Hsize.
  destruct (str_eqb baseline current) eqn:He.
  { apply str_eqb_eq in He as ->. by destruct pick. }
  cbn [fst]. destruct (batch_both path baseline current source minted) as (Hlen & Ha & Hr); [done..|].
  destruct (full_segments baseline current) as (_ & _ & Hold & Hnew); [done..|].
  set (segs := segments (diff_lines baseline current) None) in *.
  set (hunks := build_all _ path source minted) in *. intros Hpick.
  assert (Hones : Forall (eq true) (replicate (length pick) true)) by (apply Forall_replicate; done).
  assert (Hall : select (replicate (length pick) true) hunks = hunks)
    by (apply select_all; [rewrite length_replicate; lia|done]).
  split; [|split].
  - rewrite Ha, Hr, merge_swap by lia. done.
  - rewrite <- Hall, Ha, merge_all, Hnew; [done|rewrite length_replicate; lia|done].
  - rewrite <- Hall, Hr, merge_all, swap_swap, Hold; [done|rewrite length_replicate, blocks_swap_length; lia|done].
Qed.

End batches.

(** ** A line diff that satisfies the contract

    It compares the texts line by line, without looking for a longest match. *)
Fixpoint pairwise_diff (old new : list str) : list (ChangeTag * str) :=
  match old, new with
  | x :: old', y :: new' =>
      if str_eqb x y then (Equal, x) :: pairwise_diff old' new'
      else (Delete, x) :: (Insert, y) :: pairwise_diff old' new'
  | _, [] => map (pair Delete) old
  | [], _ => map (pair Insert) new
  end.

Definition demo_diff : LineDiff := {|
  diff_lines a b := pairwise_diff (split_inclusive a) (split_inclusive b);
  unified_diff _ _ _ _ := [];
|}.

Definition demo_uuids : Uuids := {| uuid_v4 n := show_nat n |}.

Lemma pairwise_diff_sides old new :
  old_side (pairwise_diff old new) = old ∧ new_side (pairwise_diff old new) = new.
Proof.
  unfold old_side, new_side.
  assert (Hd : ∀ l, map snd (List.filter on_old_side (map (pair Delete) l)) = l
                    ∧ map snd (List.filter on_new_side (map (pair Delete) l)) = []).
  { induction l as [|x l [IH1 IH2]]; [done|]. cbn. by rewrite IH1, IH2. }
  assert (Hi : ∀ l, map snd (List.filter on_old_side (map (pair Insert) l)) = []
                    ∧ map snd (List.filter on_new_side (map (pair Insert) l)) = l).
  { induction l as [|x l [IH1 IH2]]; [done|]. cbn. by rewrite IH1, IH2. }
  revert new. induction old as [|x old IH]; intros [|y new]; [done|apply Hi|apply (Hd (x :: old))|].
  cbn [pairwise_diff]. destruct (IH new) as [IH1 IH2]. destruct (str_eqb x y) eqn:He.
  - apply str_eqb_eq in He as ->. cbn. by rewrite IH1, IH2.
  - cbn. by rewrite IH1, IH2.
Qed.

Lemma demo_diff_laws : @LineDiffLaws demo_diff.
Proof. constructor; intros a b _ _; apply pairwise_diff_sides. Qed.

Definition demo_old : str := lit "one" ++ nl ++ lit "two" ++ nl ++ lit "three" ++ nl.
Definition demo_new : str := lit "1" ++ nl ++ lit "two" ++ nl ++ lit "3" ++ nl.
Definition demo_file : PathBuf := [root_dir; lit "a"].

Lemma hunks_apply_partially_witness :
  let hunks := fst (@compute_hunks demo_diff demo_uuids false demo_file demo_old demo_new External 0) in
  length hunks = 2
  ∧ accept_patches demo_old (select [true; false] hunks) = reject_patches demo_new (select [false; true] hunks)
  ∧ accept_patches demo_old hunks = demo_new ∧ reject_patches demo_new hunks = demo_old.
Proof.
  split; [reflexivity|].
  apply (@hunks_apply_partially demo_diff demo_uuids demo_diff_laws demo_file demo_old demo_new External 0 [true; false]).
  - by_decide.
  - by_decide.
  - reflexivity.
  - reflexivity.
  - reflexivity.
  - left. exists (lit "two" ++ nl). split; [by_decide|discriminate].
  - reflexivity.
Defined.

(** ** Where patching loses text

    The conditions of the theorem are needed. A change of the final line feed is
    neither accepted nor rejected, an empty baseline loses the line feed of what
    is accepted, a text that becomes a single empty line in between loses lines,
    and [lines] strips the carriage returns of the whole file. *)
Example final_newline_not_accepted :
  let old := lit "one" ++ nl in let new := lit "one" in
  let hunks := fst (@compute_hunks demo_diff demo_uuids false demo_file old new External 0) in
  length hunks = 1 ∧ accept_patches old hunks = old ∧ reject_patches new hunks = new.
Proof. repeat split; reflexivity. Qed.

Example empty_baseline_loses_newline :
  let new := lit "one" ++ nl in
  let hunks := fst (@compute_hunks demo_diff demo_uuids false demo_file [] new External 0) in
  accept_patches [] hunks = lit "one".
Proof. reflexivity. Qed.

Example blank_text_loses_line :
  let old := nl ++ lit "b" ++ nl in
  let removed := mkHunk (lit "1") demo_file (mkLines 2 1 2 0) External (Some (lit "b" ++ nl)) [] None false in
  let added := mkHunk (lit "0") demo_file (mkLines 1 0 1 1) External None (lit "a" ++ nl) None false in
  accept_patches old [added; removed] = lit "a".
Proof. reflexivity. Qed.

Example patch_strips_carriage_returns :
  let crnl := byte 13 :: nl in
  patch_lines (lit "one" ++ crnl ++ lit "two" ++ crnl) 1 1 (lit "1" ++ crnl) = lit "1" ++ nl ++ lit "two" ++ nl.
Proof. reflexivity. Qed.
