(* ===== verification/HunkTracker.v ===== *)
(** * The hunk tracker's actor

    [xai-hunk-tracker/src/actor/]: the state of the actor that tracks the
    changes of a session's files ([state.rs], [mod.rs]), its access to git
    ([git.rs]), the recomputation of hunks ([hunks.rs]), the handlers of file
    changes ([mutations.rs]), accepting and rejecting ([actions.rs]), the queries
    ([queries.rs]) and the loop over coalesced commands ([mod.rs]). The file
    system and the git library are parameters over a world the actor writes to. *)

From S2P Require Import Prelude RustStr HunkTypes HunkDiff.

(** ** The outside

    [fs_read_file w p n] opens a file and reads it: the bytes of a first read of
    at most [n] bytes and, if asked for, the rest up to the end. *)
Class FileSystem (W : Type) := {
  fs_lstat : W -> PathBuf -> option (bool * N);
  fs_read_file : W -> PathBuf -> N -> option (str * option str);
  fs_exists : W -> PathBuf -> bool;
  fs_is_dir : W -> PathBuf -> bool;
  fs_canonicalize : W -> PathBuf -> option PathBuf;
  fs_write : W -> PathBuf -> str -> option W;
  fs_remove_file : W -> PathBuf -> option W;
}.

(** An entry of the tree of HEAD. *)
Inductive TreeEntry := LinkEntry | BlobEntry (data : str).

(** [git_discover w p] is the root of the repository [p] lies in; an entry of
    HEAD is looked up by its path from the root; a status lists the changed paths
    under the given ones (all, when there are none), each with whether it is
    staged, or fails; the last is the commit of HEAD and the time of the index. *)
Class Git (W : Type) := {
  git_discover : W -> PathBuf -> option PathBuf;
  git_head_entry : W -> PathBuf -> PathBuf -> option TreeEntry;
  git_status : W -> PathBuf -> list PathBuf -> option (list (PathBuf * bool));
  git_head_and_index : W -> PathBuf -> option str * option N;
}.

(** Whether the [n]-th diff, which is one of these two texts, takes longer than its timeout. *)
Class DiffTimer := { diff_timed_out : nat -> str -> str -> bool }.

(** ** State *)

(** A repository handle is the root of its repository.

    Source: crates/codegen/xai-hunk-tracker/src/actor/state.rs:70-84, [GitRepoState]. *)
Inductive GitRepoState :=
  | RepoUnknown
  | NotARepo
  | Discovered (repo prefix : PathBuf).

(** Source: crates/codegen/xai-hunk-tracker/src/actor/state.rs:100-106, [RepoSyncState]. *)
Record RepoSyncState := mkSync {
  head_oid : option str;
  index_mtime : option N;
}.

#[export] Instance repo_sync_eq_dec : EqDecision RepoSyncState.
Proof. solve_decision. Defined.

(** Source: crates/codegen/xai-hunk-tracker/src/actor/state.rs:109-133, [FileHunkState]. *)
Record FileHunkState := mkFile {
  baseline : FileContentState;
  current_content : FileContentState;
  hunks : list Hunk;
  is_agent_file : bool;
  baseline_accepted : bool;
}.

Definition with_hunks (s : FileHunkState) (hs : list Hunk) : FileHunkState :=
  mkFile (baseline s) (current_content s) hs (is_agent_file s) (baseline_accepted s).

(** [hunks.retain]: the hunks whose identifier is not among [ids]. *)
Definition without_ids (ids : list HunkId) (hs : list Hunk) : list Hunk :=
  List.filter (fun h => negb (existsb (str_eqb (h_id h)) ids)) hs.

Section tracker.
Context {W : Type} `{FileSystem W, Git W, DiffTimer, HashOrder, Uuids, LineDiff}.

(** The session identifier, the channel and the cancellation token are left out;
    added are the events sent, the identifiers and diffs counted so far and the
    world.

    Source: crates/codegen/xai-hunk-tracker/src/actor/mod.rs:104-151, [HunkTrackerActor]. *)
Record Tracker := mkTracker {
  t_working_dir : PathBuf;
  t_file_states : gmap PathBuf FileHunkState;
  t_turn_index : gmap nat (gset HunkId);
  t_git_dirty_cache : gset PathBuf;
  t_git_staged_cache : gset PathBuf;
  t_git_repo_state : GitRepoState;
  t_repo_sync_state : RepoSyncState;
  t_mode : TrackingMode;
  t_session_stats : SessionStats;
  t_events : list HunkEvent;
  t_minted : nat;
  t_diffs : nat;
  t_world : W;
}.

Definition set_working_dir (x : PathBuf) (t : Tracker) : Tracker :=
  mkTracker x (t_file_states t) (t_turn_index t) (t_git_dirty_cache t) (t_git_staged_cache t) (t_git_repo_state t)
    (t_repo_sync_state t) (t_mode t) (t_session_stats t) (t_events t) (t_minted t) (t_diffs t) (t_world t).
Definition set_file_states (x : gmap PathBuf FileHunkState) (t : Tracker) : Tracker :=
  mkTracker (t_working_dir t) x (t_turn_index t) (t_git_dirty_cache t) (t_git_staged_cache t) (t_git_repo_state t)
    (t_repo_sync_state t) (t_mode t) (t_session_stats t) (t_events t) (t_minted t) (t_diffs t) (t_world t).
Definition set_turn_index (x : gmap nat (gset HunkId)) (t : Tracker) : Tracker :=
  mkTracker (t_working_dir t) (t_file_states t) x (t_git_dirty_cache t) (t_git_staged_cache t) (t_git_repo_state t)
    (t_repo_sync_state t) (t_mode t) (t_session_stats t) (t_events t) (t_minted t) (t_diffs t) (t_world t).
Definition set_git_dirty_cache (x : gset PathBuf) (t : Tracker) : Tracker :=
  mkTracker (t_working_dir t) (t_file_states t) (t_turn_index t) x (t_git_staged_cache t) (t_git_repo_state t)
    (t_repo_sync_state t) (t_mode t) (t_session_stats t) (t_events t) (t_minted t) (t_diffs t) (t_world t).
Definition set_git_staged_cache (x : gset PathBuf) (t : Tracker) : Tracker :=
  mkTracker (t_working_dir t) (t_file_states t) (t_turn_index t) (t_git_dirty_cache t) x (t_git_repo_state t)
    (t_repo_sync_state t) (t_mode t) (t_session_stats t) (t_events t) (t_minted t) (t_diffs t) (t_world t).
Definition set_git_repo_state (x : GitRepoState) (t : Tracker) : Tracker :=
  mkTracker (t_working_dir t) (t_file_states t) (t_turn_index t) (t_git_dirty_cache t) (t_git_staged_cache t) x
    (t_repo_sync_state t) (t_mode t) (t_session_stats t) (t_events t) (t_minted t) (t_diffs t) (t_world t).
Definition set_repo_sync_state (x : RepoSyncState) (t : Tracker) : Tracker :=
  mkTracker (t_working_dir t) (t_file_states t) (t_turn_index t) (t_git_dirty_cache t) (t_git_staged_cache t)
    (t_git_repo_state t) x (t_mode t) (t_session_stats t) (t_events t) (t_minted t) (t_diffs t) (t_world t).
Definition set_mode (x : TrackingMode) (t : Tracker) : Tracker :=
  mkTracker (t_working_dir t) (t_file_states t) (t_turn_index t) (t_git_dirty_cache t) (t_git_staged_cache t)
    (t_git_repo_state t) (t_repo_sync_state t) x (t_session_stats t) (t_events t) (t_minted t) (t_diffs t) (t_world
    t).
Definition set_session_stats (x : SessionStats) (t : Tracker) : Tracker :=
  mkTracker (t_working_dir t) (t_file_states t) (t_turn_index t) (t_git_dirty_cache t) (t_git_staged_cache t)
    (t_git_repo_state t) (t_repo_sync_state t) (t_mode t) x (t_events t) (t_minted t) (t_diffs t) (t_world t).
Definition set_events (x : list HunkEvent) (t : Tracker) : Tracker :=
  mkTracker (t_working_dir t) (t_file_states t) (t_turn_index t) (t_git_dirty_cache t) (t_git_staged_cache t)
    (t_git_repo_state t) (t_repo_sync_state t) (t_mode t) (t_session_stats t) x (t_minted t) (t_diffs t) (t_world t).
Definition set_minted (x : nat) (t : Tracker) : Tracker :=
  mkTracker (t_working_dir t) (t_file_states t) (t_turn_index t) (t_git_dirty_cache t) (t_git_staged_cache t)
    (t_git_repo_state t) (t_repo_sync_state t) (t_mode t) (t_session_stats t) (t_events t) x (t_diffs t) (t_world t).
Definition set_diffs (x : nat) (t : Tracker) : Tracker :=
  mkTracker (t_working_dir t) (t_file_states t) (t_turn_index t) (t_git_dirty_cache t) (t_git_staged_cache t)
    (t_git_repo_state t) (t_repo_sync_state t) (t_mode t) (t_session_stats t) (t_events t) (t_minted t) x (t_world t).
Definition set_world (x : W) (t : Tracker) : Tracker :=
  mkTracker (t_working_dir t) (t_file_states t) (t_turn_index t) (t_git_dirty_cache t) (t_git_staged_cache t)
    (t_git_repo_state t) (t_repo_sync_state t) (t_mode t) (t_session_stats t) (t_events t) (t_minted t) (t_diffs t) x.

Definition update_file (path : PathBuf) (s : FileHunkState) (t : Tracker) : Tracker :=
  set_file_states (<[path := s]> (t_file_states t)) t.

(** Source: crates/codegen/xai-hunk-tracker/src/actor/mod.rs:155-159, [HunkTrackerActor::send_event]. *)
Definition emit (e : HunkEvent) (t : Tracker) : Tracker := set_events (t_events t ++ [e]) t.

Definition emit_all (es : list HunkEvent) (t : Tracker) : Tracker := set_events (t_events t ++ es) t.

(** Source: crates/codegen/xai-hunk-tracker/src/actor/mod.rs:164-187, [HunkTrackerActor::new]. *)
Definition tracker_new (working_dir : PathBuf) (mode : TrackingMode) (w : W) : Tracker :=
  mkTracker working_dir ∅ ∅ ∅ ∅ RepoUnknown (mkSync None None) mode no_stats [] 0 0 w.

Definition has_file (t : Tracker) (path : PathBuf) : bool :=
  match t_file_states t !! path with Some _ => true | None => false end.

(** [set.remove(&id)] in the set of the hunk's prompt, if there is one.

    Source: crates/codegen/xai-hunk-tracker/src/actor/actions.rs:56-62, [HunkTrackerActor::remove_from_turn_index]. *)
Definition remove_from_turn_index (id : HunkId) (source : HunkSource) (t : Tracker) : Tracker :=
  match source_prompt_index source with
  | Some i => set_turn_index (alter (fun ids => ids ∖ {[id]}) i (t_turn_index t)) t
  | None => t
  end.

Definition add_to_turn_index (h : Hunk) (t : Tracker) : Tracker :=
  match source_prompt_index (h_source h) with
  | Some i => set_turn_index (<[i := {[h_id h]} ∪ default ∅ (t_turn_index t !! i)]> (t_turn_index t)) t
  | None => t
  end.

(** ** Reading *)

(** Source: crates/codegen/xai-hunk-tracker/src/actor/file_utils.rs:85-140, [read_file_bounded]. *)
Definition read_file_bounded (w : W) (path : PathBuf) : FileContentState :=
  match fs_lstat w path with
  | None => missing_content
  | Some (true, _) => Symlink
  | Some (false, byte_len) =>
      if N.ltb MAX_TRACKED_TEXT_BYTES byte_len then TooLarge byte_len
      else
        let prefix_size := N.min 8000 byte_len in
        match fs_read_file w path prefix_size with
        | None => missing_content
        | Some (prefix_buf, rest) =>
            if is_lfs_pointer prefix_buf then LfsPointer byte_len
            else if is_binary prefix_buf then Binary (Some byte_len)
            else
              let full_buf :=
                if N.ltb prefix_size byte_len then app prefix_buf <$> rest else Some prefix_buf in
              match full_buf with
              | None => missing_content
              | Some bytes => if valid_utf8 bytes then Full bytes else Binary (Some byte_len)
              end
        end
  end.

(** Source: crates/codegen/xai-hunk-tracker/src/actor/git.rs:22-60, [open_or_discover]. *)
Definition open_or_discover (w : W) (cached : GitRepoState) (working_dir : PathBuf) :
    option (PathBuf * PathBuf * option GitRepoState) :=
  match cached with
  | Discovered repo prefix => Some (repo, prefix, None)
  | RepoUnknown =>
      repo_root ← git_discover w working_dir;
      let canonical_working_dir := default working_dir (fs_canonicalize w working_dir) in
      let canonical_repo_root := default repo_root (fs_canonicalize w repo_root) in
      prefix ← path_strip_prefix canonical_working_dir canonical_repo_root;
      Some (repo_root, prefix, Some (Discovered repo_root prefix))
  | NotARepo => None
  end.

(** Source: crates/codegen/xai-hunk-tracker/src/actor/git.rs:65-72, [canonicalize_or_parent]. *)
Definition canonicalize_or_parent (w : W) (path : PathBuf) : PathBuf :=
  match fs_canonicalize w path with
  | Some p => p
  | None =>
      match path_parent path ≫= fs_canonicalize w, path_file_name path with
      | Some cp, Some f => path_join cp [f]
      | _, _ => path
      end
  end.

(** The repository to use, and the tracker with the discovery cached. *)
Definition open_repo (t : Tracker) : option (PathBuf * PathBuf) * Tracker :=
  match open_or_discover (t_world t) (t_git_repo_state t) (t_working_dir t) with
  | Some (repo, prefix, discovered) =>
      (Some (repo, prefix), from_option (fun s => set_git_repo_state s t) t discovered)
  | None =>
      (None, match t_git_repo_state t with RepoUnknown => set_git_repo_state NotARepo t | _ => t end)
  end.

Definition is_not_a_repo (t : Tracker) : bool :=
  match t_git_repo_state t with NotARepo => true | _ => false end.

(** The content of HEAD at an absolute path. *)
Definition head_content (t : Tracker) (repo prefix path : PathBuf) : FileContentState :=
  let w := t_world t in
  let canonical_abs_path := canonicalize_or_parent w path in
  let canonical_working_dir := default (t_working_dir t) (fs_canonicalize w (t_working_dir t)) in
  match path_strip_prefix canonical_abs_path canonical_working_dir with
  | None => missing_content
  | Some working_dir_relative =>
      match git_head_entry w repo (path_join prefix working_dir_relative) with
      | None => missing_content
      | Some LinkEntry => Symlink
      | Some (BlobEntry data) => classify_bytes data
      end
  end.

(** Source: crates/codegen/xai-hunk-tracker/src/actor/git.rs:304-394, [HunkTrackerActor::read_baseline]. *)
Definition read_baseline (t : Tracker) (path : PathBuf) : FileContentState * Tracker :=
  if is_not_a_repo t then (missing_content, t)
  else
    match open_repo t with
    | (Some (repo, prefix), t') => (head_content t repo prefix path, t')
    | (None, t') => (missing_content, t')
    end.

(** Source: crates/codegen/xai-hunk-tracker/src/actor/git.rs:399-480, [HunkTrackerActor::read_baselines_batch]. *)
Definition read_baselines_batch (t : Tracker) (paths : list PathBuf) :
    gmap PathBuf FileContentState * Tracker :=
  if is_empty paths || is_not_a_repo t then (∅, t)
  else
    match open_repo t with
    | (Some (repo, prefix), t') => (collect_map (map (fun p => (p, head_content t repo prefix p)) paths), t')
    | (None, t') => (collect_map (map (fun p => (p, missing_content)) paths), t')
    end.

(** Source: crates/codegen/xai-hunk-tracker/src/actor/git.rs:239-301, [HunkTrackerActor::read_repo_sync_state]. *)
Definition read_repo_sync_state (t : Tracker) : option RepoSyncState * Tracker :=
  if is_not_a_repo t then (None, t)
  else
    match open_repo t with
    | (Some (repo, _), t') =>
        let '(oid, mtime) := git_head_and_index (t_world t) repo in (Some (mkSync oid mtime), t')
    | (None, t') => (None, t')
    end.

(** ** Recomputing hunks *)

(** The hunks of a pair of contents, with the identifiers drawn and the diffs
    started so far.

    Source: crates/codegen/xai-hunk-tracker/src/actor/hunks.rs:38-81, [recompute_hunks]. *)
Definition file_diff (path : PathBuf) (base current : FileContentState) (source : HunkSource)
    (minted diffs : nat) : list Hunk * nat * nat :=
  match base, current with
  | Full b, Full c =>
      let '(hs, minted) := compute_hunks (diff_timed_out diffs b c) path b c source minted in (hs, minted, S diffs)
  | Full b, Missing =>
      if is_empty b then ([], minted, diffs) else ([file_deleted (uuid_v4 minted) path b source], S minted, diffs)
  | Missing, Full c =>
      if is_empty c then ([], minted, diffs) else ([file_created (uuid_v4 minted) path c source], S minted, diffs)
  | _, _ => ([], minted, diffs)
  end.

(** A new hunk takes the identifier of the old hunk it matches, unless another
    new hunk has claimed it, and keeps the attribution to the agent.

    Source: crates/codegen/xai-hunk-tracker/src/actor/hunks.rs:85-106, [recompute_hunks]. *)
Fixpoint preserve_ids (old_hunks : list Hunk) (claimed_old_ids : gset HunkId) (new_hunks : list Hunk) : list Hunk :=
  match new_hunks with
  | [] => []
  | new_hunk :: rest =>
      match find_matching_old_hunk new_hunk old_hunks with
      | Some best_match =>
          if bool_decide (h_id best_match ∈ claimed_old_ids)
          then new_hunk :: preserve_ids old_hunks claimed_old_ids rest
          else
            let new_hunk := with_id new_hunk (h_id best_match) in
            let new_hunk :=
              if is_external (h_source new_hunk) && is_agent_edit (h_source best_match)
              then with_source new_hunk (h_source best_match) else new_hunk in
            new_hunk :: preserve_ids old_hunks ({[h_id best_match]} ∪ claimed_old_ids) rest
      | None => new_hunk :: preserve_ids old_hunks claimed_old_ids rest
      end
  end.

(** The event for one new hunk, if any. *)
Definition new_hunk_event (path : PathBuf) (old_hunks : list Hunk) (trigger_source : HunkSource) (new_hunk : Hunk) :
    list HunkEvent :=
  match List.find (fun o => hunks_match_content o new_hunk) old_hunks with
  | Some old_hunk =>
      if hunk_moved old_hunk new_hunk then [HunkMoved path (h_id old_hunk) (h_lines new_hunk)] else []
  | None =>
      if negb (existsb (fun o => hunks_overlap o new_hunk) old_hunks) then [HunkAdded path new_hunk]
      else
        let prev :=
          match List.find (fun o => str_eqb (h_id o) (h_id new_hunk)) old_hunks with
          | Some o => Some o
          | None => List.find (fun o => hunks_overlap o new_hunk) old_hunks
          end in
        let '(prev_lines_added, prev_lines_removed) :=
          from_option (fun h => (new_count (h_lines h), old_count (h_lines h))) (0, 0) prev in
        [HunkContentChanged path new_hunk trigger_source prev_lines_added prev_lines_removed]
  end.

(** Source: crates/codegen/xai-hunk-tracker/src/actor/hunks.rs:136-206, [HunkTrackerActor::emit_hunk_diff_events]. *)
Definition hunk_diff_events (path : PathBuf) (old_hunks new_hunks : list Hunk) (trigger_source : HunkSource) :
    list HunkEvent :=
  let removed :=
    List.filter (fun old_hunk =>
      negb (existsb (fun n => hunks_overlap old_hunk n || hunks_match_content old_hunk n) new_hunks)) old_hunks in
  map (fun old_hunk => HunkRemoved path (h_id old_hunk) Superseded) removed
  ++ concat (map (new_hunk_event path old_hunks trigger_source) new_hunks).

(** Source: crates/codegen/xai-hunk-tracker/src/actor/hunks.rs:21-131, [HunkTrackerActor::recompute_hunks]. *)
Definition recompute_hunks (path : PathBuf) (new_current : option FileContentState) (source : HunkSource)
    (t : Tracker) : Tracker :=
  match t_file_states t !! path with
  | None => t
  | Some state =>
      let old_hunks := hunks state in
      let current := default missing_content new_current in
      let '(new_hunks, minted, diffs) :=
        file_diff path (baseline state) current source (t_minted t) (t_diffs t) in
      let new_hunks := preserve_ids old_hunks ∅ new_hunks in
      let state := mkFile (baseline state) current new_hunks (is_agent_file state) (baseline_accepted state) in
      let t := set_minted minted (set_diffs diffs (update_file path state t)) in
      let t := foldl (fun t h => remove_from_turn_index (h_id h) (h_source h) t) t old_hunks in
      let t := foldl (fun t h => add_to_turn_index h t) t new_hunks in
      emit_all (hunk_diff_events path old_hunks new_hunks source) t
  end.

(** ** Actions *)

Definition added_removed (l : HunkLineInfo) : N * N := (N.of_nat (new_count l), N.of_nat (old_count l)).

(** Source: crates/codegen/xai-hunk-tracker/src/actor/actions.rs:28-53, [HunkTrackerActor::update_session_stats]. *)
Definition update_session_stats (line_info : HunkLineInfo) (accepted : bool) (t : Tracker) : Tracker :=
  let s := t_session_stats t in
  let '(lines_added, lines_removed) := added_removed line_info in
  set_session_stats
    (if accepted then
       mkStats (sat_add64 (accepted_hunks s) 1) (rejected_hunks s)
         (sat_add64 (accepted_lines_added s) lines_added) (sat_add64 (accepted_lines_removed s) lines_removed)
         (rejected_lines_added s) (rejected_lines_removed s)
     else
       mkStats (accepted_hunks s) (sat_add64 (rejected_hunks s) 1)
         (accepted_lines_added s) (accepted_lines_removed s)
         (sat_add64 (rejected_lines_added s) lines_added) (sat_add64 (rejected_lines_removed s) lines_removed)) t.

Definition is_accept (action : HunkAction) : bool := match action with Accept => true | Reject => false end.

(** The source of the first remaining hunk, or an external one. *)
Definition remaining_source (path : PathBuf) (t : Tracker) : HunkSource :=
  match t_file_states t !! path with
  | Some s => from_option h_source External (head (hunks s))
  | None => External
  end.

Abbreviation M := (eff Tracker HunkActionError).

Definition run_unit (f : Tracker -> Tracker) : M unit := eff_modify f.

(** Source: crates/codegen/xai-hunk-tracker/src/actor/actions.rs:103-167, [HunkTrackerActor::accept_hunk]. *)
Definition accept_hunk (path : PathBuf) (hunk : Hunk) : M unit := fun t =>
  match t_file_states t !! path with
  | None => (Ok tt, t)
  | Some state =>
      let kept := without_ids [h_id hunk] (hunks state) in
      let removed := [HunkRemoved path (h_id hunk) Accepted; BaselineUpdated path] in
      match baseline state with
      | Missing =>
          let state := mkFile (current_content state) (current_content state) kept (is_agent_file state) true in
          (Ok tt, emit_all removed (update_file path state t))
      | base =>
          let base := match base with Full b => Full (accept_patch b hunk) | _ => base end in
          let current := current_content state in
          let state := mkFile base current kept (is_agent_file state) true in
          let t := emit_all removed (update_file path state t) in
          (Ok tt, recompute_hunks path (Some current) (remaining_source path t) t)
      end
  end.

(** [tokio::fs::write] and [remove_file], with the error of the action. *)
Definition write_file (path : PathBuf) (text : str) : M unit := fun t =>
  match fs_write (t_world t) path text with
  | Some w => (Ok tt, set_world w t)
  | None => (Err (WriteError path), t)
  end.

Definition remove_file (path : PathBuf) : M unit := fun t =>
  match fs_remove_file (t_world t) path with
  | Some w => (Ok tt, set_world w t)
  | None => (Err (DeleteError path), t)
  end.

(** The state of the file after the rejected hunks are gone. *)
Definition rejected_state (path : PathBuf) (current : FileContentState) (ids : list HunkId) (t : Tracker) : Tracker :=
  match t_file_states t !! path with
  | None => t
  | Some s =>
      let s := mkFile (baseline s) current (without_ids ids (hunks s)) (is_agent_file s) (baseline_accepted s) in
      let t := update_file path s t in
      emit_all (map (fun id => HunkRemoved path id Rejected) ids) t
  end.

Definition recompute_remaining (path : PathBuf) (current : FileContentState) (t : Tracker) : Tracker :=
  recompute_hunks path (Some current) (remaining_source path t) t.

(** Source: crates/codegen/xai-hunk-tracker/src/actor/actions.rs:170-294, [HunkTrackerActor::reject_hunk]. *)
Definition reject_hunk (path : PathBuf) (hunk : Hunk) : M unit := fun t =>
  match t_file_states t !! path with
  | None => (Ok tt, t)
  | Some state =>
      match current_content state, baseline state with
      | Missing, Full base =>
          (write_file path base ;; run_unit (rejected_state path (Full base) [h_id hunk])) t
      | Full _, Missing =>
          (remove_file path ;; run_unit (rejected_state path Missing [h_id hunk])) t
      | Full current, _ =>
          let patched := reject_patch current hunk in
          (write_file path patched ;;
           run_unit (fun t =>
             recompute_remaining path (Full patched) (rejected_state path (Full patched) [h_id hunk] t))) t
      | _, _ => (Ok tt, t)
      end
  end.

(** Source: crates/codegen/xai-hunk-tracker/src/actor/actions.rs:408-496, [HunkTrackerActor::accept_hunks_batch]. *)
Definition accept_hunks_batch (path : PathBuf) (hs : list Hunk) : M unit := fun t =>
  if is_empty hs then (Ok tt, t)
  else
    match t_file_states t !! path with
    | None => (Ok tt, t)
    | Some state =>
        let kept := without_ids (map h_id hs) (hunks state) in
        let events := map (fun h => HunkRemoved path (h_id h) Accepted) hs ++ [BaselineUpdated path] in
        match baseline state with
        | Missing =>
            let state := mkFile (current_content state) (current_content state) kept (is_agent_file state) true in
            (Ok tt, emit_all events (update_file path state t))
        | base =>
            let base := match base with Full b => Full (accept_patches b hs) | _ => base end in
            let current := current_content state in
            let t := emit_all events (update_file path (mkFile base current kept (is_agent_file state) true) t) in
            (Ok tt, recompute_remaining path current t)
        end
    end.

(** Source: crates/codegen/xai-hunk-tracker/src/actor/actions.rs:500-634, [HunkTrackerActor::reject_hunks_batch]. *)
Definition reject_hunks_batch (path : PathBuf) (hs : list Hunk) : M unit := fun t =>
  if is_empty hs then (Ok tt, t)
  else
    match t_file_states t !! path with
    | None => (Ok tt, t)
    | Some state =>
        let ids := map h_id hs in
        match current_content state, baseline state with
        | Missing, Full base =>
            (write_file path base ;; run_unit (rejected_state path (Full base) ids)) t
        | Full _, Missing =>
            (remove_file path ;; run_unit (rejected_state path Missing ids)) t
        | Full current, _ =>
            let patched := reject_patches current hs in
            (write_file path patched ;;
             run_unit (fun t =>
               recompute_remaining path (Full patched) (rejected_state path (Full patched) ids t))) t
        | _, _ => (Ok tt, t)
        end
    end.

(** What is done for a hunk before the action itself. *)
Definition count_action (action : HunkAction) (h : Hunk) (t : Tracker) : Tracker :=
  remove_from_turn_index (h_id h) (h_source h) (update_session_stats (h_lines h) (is_accept action) t).

(** Source: crates/codegen/xai-hunk-tracker/src/actor/actions.rs:65-100, [HunkTrackerActor::apply_hunk_action]. *)
Definition apply_hunk_action (hunk_id : HunkId) (action : HunkAction) : M unit := fun t =>
  let in_file '(path, state) := pair path <$> List.find (fun h => str_eqb (h_id h) hunk_id) (hunks state) in
  match head (omap in_file (hash_iter (t_file_states t))) with
  | None => (Err (HunkNotFound hunk_id), t)
  | Some (path, hunk) =>
      let t := count_action action hunk t in
      match action with
      | Accept => accept_hunk path hunk t
      | Reject => reject_hunk path hunk t
      end
  end.

(** Source: crates/codegen/xai-hunk-tracker/src/actor/actions.rs:372-404, [HunkTrackerActor::apply_action_batch]. *)
Fixpoint apply_action_batch (files_with_hunks : list (PathBuf * list Hunk)) (action : HunkAction) : M (list HunkId) :=
  match files_with_hunks with
  | [] => mret []
  | (path, hs) :: rest =>
      run_unit (fun t => foldl (fun t h => count_action action h t) t hs) ;;
      match action with
      | Accept => accept_hunks_batch path hs
      | Reject => reject_hunks_batch path hs
      end ;;
      affected ← apply_action_batch rest action;
      mret (map h_id hs ++ affected)
  end.

(** Source: crates/codegen/xai-hunk-tracker/src/actor/actions.rs:298-315, [HunkTrackerActor::apply_file_action]. *)
Definition apply_file_action (path : PathBuf) (action : HunkAction) : M (list HunkId) := fun t =>
  match t_file_states t !! path with
  | None => (Ok [], t)
  | Some state =>
      if is_empty (hunks state) then (Ok [], t) else apply_action_batch [(path, hunks state)] action t
  end.

(** Source: crates/codegen/xai-hunk-tracker/src/actor/actions.rs:319-336, [HunkTrackerActor::apply_all_action]. *)
Definition apply_all_action (action : HunkAction) : M (list HunkId) := fun t =>
  let files_with_hunks :=
    map (fun e => (fst e, hunks (snd e)))
      (List.filter (fun e => negb (is_empty (hunks (snd e)))) (hash_iter (t_file_states t))) in
  if is_empty files_with_hunks then (Ok [], t) else apply_action_batch files_with_hunks action t.

Definition hunks_of_turn (prompt_index : nat) (s : FileHunkState) : list Hunk :=
  List.filter (fun h => bool_decide (source_prompt_index (h_source h) = Some prompt_index)) (hunks s).

(** Source: crates/codegen/xai-hunk-tracker/src/actor/actions.rs:340-368, [HunkTrackerActor::apply_turn_action]. *)
Definition apply_turn_action (prompt_index : nat) (action : HunkAction) : M (list HunkId) := fun t =>
  let files_with_hunks :=
    collect_map (List.filter (fun e => negb (is_empty (snd e)))
      (map (fun e => (fst e, hunks_of_turn prompt_index (snd e))) (hash_iter (t_file_states t)))) in
  if bool_decide (files_with_hunks = ∅) then (Ok [], t)
  else apply_action_batch (hash_iter files_with_hunks) action t.

(** ** File changes *)

(** Source: crates/codegen/xai-hunk-tracker/src/actor/mutations.rs:39-44, [strip_single_trailing_newline]. *)
Definition strip_single_trailing_newline (content : str) : str :=
  match strip_suffix (byte 13 :: nl) content with
  | Some s => s
  | None => default content (strip_suffix nl content)
  end.

Definition same_text (a b : str) : bool :=
  str_eqb (strip_single_trailing_newline a) (strip_single_trailing_newline b).

(** Membership of an absolute path in the dirty cache, whose paths are relative. *)
Definition is_dirty (t : Tracker) (path : PathBuf) : bool :=
  let rel := default path (path_strip_prefix path (t_working_dir t)) in
  bool_decide (rel ∈ t_git_dirty_cache t).

Definition add_file (path : PathBuf) (base current : FileContentState) (agent : bool) (t : Tracker) : Tracker :=
  emit (FileAdded path agent) (update_file path (mkFile base current [] agent false) t).

(** Source: crates/codegen/xai-hunk-tracker/src/actor/mutations.rs:48-138, [HunkTrackerActor::record_agent_write]. *)
Definition record_agent_write (path : PathBuf) (content : str) (prompt_index : nat) (previous_content : option str)
    (t : Tracker) : Tracker :=
  let source := AgentEdit prompt_index in
  let current_state := classify_string content in
  if negb (is_diffable current_state) then
    match t_file_states t !! path with
    | None =>
        let '(base, t) :=
          match previous_content with
          | Some prev => (classify_string prev, t)
          | None => read_baseline t path
          end in
        add_file path base current_state true t
    | Some s => update_file path (mkFile (baseline s) current_state [] true (baseline_accepted s)) t
    end
  else
    let t :=
      match t_file_states t !! path with
      | None =>
          let '(base, t) := read_baseline t path in
          let base :=
            match base with
            | Missing => from_option classify_string missing_content previous_content
            | other => other
            end in
          add_file path base current_state true t
      | Some s =>
          update_file path (mkFile (baseline s) (current_content s) (hunks s) true (baseline_accepted s)) t
      end in
    recompute_hunks path (Some current_state) source t.

(** The preloaded baseline, or the one read from git. *)
Definition take_baseline (preloaded : option FileContentState) (path : PathBuf) (t : Tracker) :
    FileContentState * Tracker :=
  match preloaded with
  | Some b => (b, t)
  | None => read_baseline t path
  end.

(** A path that is neither in HEAD nor dirty is ignored by git, unless it is a directory. *)
Definition is_ignored (t : Tracker) (path : PathBuf) (base : FileContentState) : bool :=
  bool_decide (t_mode t = AllDirty) && bool_decide (base = Missing) && negb (fs_is_dir (t_world t) path)
  && negb (is_dirty t path).

(** Source: crates/codegen/xai-hunk-tracker/src/actor/mutations.rs:288-306, [process_file_change]. *)
Definition content_matches_head (t : Tracker) (path : PathBuf) (current head : FileContentState) : bool :=
  match current, head with
  | Full c, Full h => same_text c h
  | Missing, Missing | Binary _, Binary _ | TooLarge _, TooLarge _ | LfsPointer _, LfsPointer _
  | Symlink, Symlink => true
  | Symlink, Full _ | Full _, Symlink => negb (is_dirty t path)
  | _, _ => false
  end.

Definition edit_source (path : PathBuf) (t : Tracker) : HunkSource :=
  match t_file_states t !! path with
  | Some s => if is_agent_file s then ExternalEditOnAgentFile else External
  | None => External
  end.

(** Source: crates/codegen/xai-hunk-tracker/src/actor/mutations.rs:186-326, [HunkTrackerActor::process_file_change]. *)
Definition process_file_change (path : PathBuf) (preloaded_baseline : option FileContentState) (t : Tracker) :
    Tracker :=
  match t_file_states t !! path with
  | None =>
      if bool_decide (t_mode t = AgentOnly) then t
      else
        let current_state := read_file_bounded (t_world t) path in
        if negb (is_diffable current_state) then
          let '(base, t) := take_baseline preloaded_baseline path t in
          if is_ignored t path base then t
          else
            let t := add_file path base current_state false t in
            if is_diffable base then recompute_hunks path None External t else t
        else
          let '(base, t) := take_baseline preloaded_baseline path t in
          if is_ignored t path base then t
          else
            let t := add_file path base missing_content false t in
            recompute_hunks path (Some current_state) (edit_source path t) t
  | Some s =>
      let current_state := read_file_bounded (t_world t) path in
      if baseline_accepted s then
        let '(git_head_state, t) := take_baseline preloaded_baseline path t in
        if content_matches_head t path current_state git_head_state then
          match t_file_states t !! path with
          | Some s => update_file path (mkFile git_head_state git_head_state [] (is_agent_file s) false) t
          | None => t
          end
        else recompute_hunks path (Some current_state) (edit_source path t) t
      else recompute_hunks path (Some current_state) (edit_source path t) t
  end.

(** Source: crates/codegen/xai-hunk-tracker/src/actor/mutations.rs:141-143, [HunkTrackerActor::handle_file_change]. *)
Definition handle_file_change (path : PathBuf) (t : Tracker) : Tracker := process_file_change path None t.

(** Source: crates/codegen/xai-hunk-tracker/src/actor/mutations.rs:148-182, [HunkTrackerActor::handle_file_changes_batch]. *)
Definition handle_file_changes_batch (paths : list PathBuf) (t : Tracker) : Tracker :=
  if is_empty paths then t
  else
    let needs_baseline p :=
      match t_file_states t !! p with
      | None => negb (bool_decide (t_mode t = AgentOnly))
      | Some s => baseline_accepted s
      end in
    let baseline_paths := List.filter needs_baseline paths in
    let '(baselines, t) := if is_empty baseline_paths then (∅, t) else read_baselines_batch t baseline_paths in
    fst (foldl (fun '(t, baselines) path => (process_file_change path (baselines !! path) t, delete path baselines))
           (t, baselines) paths).

(** Source: crates/codegen/xai-hunk-tracker/src/actor/mutations.rs:331-398, [HunkTrackerActor::handle_file_deleted]. *)
Definition handle_file_deleted (path : PathBuf) (t : Tracker) : Tracker :=
  if negb (has_file t path) then
    if bool_decide (t_mode t = AgentOnly) then t
    else if fs_exists (t_world t) path then t
    else
      let '(base, t) := read_baseline t path in
      match base with
      | Missing => t
      | _ => recompute_hunks path None External (add_file path base missing_content false t)
      end
  else if fs_exists (t_world t) path then handle_file_change path t
  else recompute_hunks path None (edit_source path t) t.

(** The hunks leave the turn index, each with an event. *)
Definition supersede (path : PathBuf) (hs : list Hunk) (t : Tracker) : Tracker :=
  foldl (fun t h => emit (HunkRemoved path (h_id h) Superseded) (remove_from_turn_index (h_id h) (h_source h) t)) t hs.

(** Source: crates/codegen/xai-hunk-tracker/src/actor/mutations.rs:401-427, [HunkTrackerActor::reset_baseline]. *)
Definition reset_baseline (path : PathBuf) (t : Tracker) : Tracker :=
  match t_file_states t !! path with
  | None => t
  | Some s =>
      let t := update_file path (mkFile (current_content s) (current_content s) [] (is_agent_file s) false) t in
      emit (BaselineUpdated path) (supersede path (hunks s) t)
  end.

(** Source: crates/codegen/xai-hunk-tracker/src/actor/git.rs:78-236, [HunkTrackerActor::refresh_git_dirty_cache]. *)
Definition refresh_git_dirty_cache (scope : option (list PathBuf)) (t : Tracker) : Tracker :=
  if is_not_a_repo t then t
  else
    let '(opened, t) := open_repo t in
    let items :=
      match opened with
      | None => []
      | Some (repo, prefix) =>
          let pathspecs := from_option (map (path_join prefix)) [] scope in
          let under_prefix '(location, staged) :=
            (fun rel => (rel, staged)) <$> path_strip_prefix location prefix in
          omap under_prefix (default [] (git_status (t_world t) repo pathspecs))
      end in
    let dirty_files : gset PathBuf := list_to_set (map fst items) in
    let staged_files : gset PathBuf := list_to_set (map fst (List.filter snd items)) in
    let paths_to_track :=
      List.filter (fun rel => negb (has_file t (path_join (t_working_dir t) rel))) (set_iter dirty_files) in
    let t := set_git_staged_cache staged_files (set_git_dirty_cache dirty_files t) in
    if bool_decide (t_mode t = AllDirty) then
      foldl (fun t rel => handle_file_change (path_join (t_working_dir t) rel) t) t paths_to_track
    else t.

(** Source: crates/codegen/xai-hunk-tracker/src/actor/mutations.rs:538-574, [refresh_all_baselines_except]. *)
Definition is_clean (t : Tracker) (path : PathBuf) (base current : FileContentState) : bool :=
  match base, current with
  | Full b, Full c => same_text b c
  | Binary _, Binary _ | TooLarge _, TooLarge _ | LfsPointer _, LfsPointer _ | Symlink, Symlink =>
      negb (is_dirty t path)
  | LfsPointer _, _ | _, LfsPointer _ => negb (is_dirty t path)
  | Symlink, Full _ | Full _, Symlink => negb (is_dirty t path)
  | Missing, Missing => negb (fs_exists (t_world t) path)
  | Missing, _ => negb (is_dirty t path)
  | _, _ => false
  end.

(** Source: crates/codegen/xai-hunk-tracker/src/actor/mutations.rs:519-634, [refresh_all_baselines_except]. *)
Definition refresh_file (baselines current_contents : gmap PathBuf FileContentState) (t : Tracker) (path : PathBuf) :
    Tracker :=
  let new_baseline := default missing_content (baselines !! path) in
  let new_current := default missing_content (current_contents !! path) in
  match t_file_states t !! path with
  | None => t
  | Some s =>
      let t := update_file path (mkFile new_baseline new_current (hunks s) (is_agent_file s) false) t in
      let clean := is_clean t path new_baseline new_current in
      if clean && negb (is_agent_file s) then
        let t := set_file_states (delete path (t_file_states t)) t in
        emit (FileRemoved path) (supersede path (hunks s) t)
      else if clean then
        let t := update_file path (mkFile new_baseline new_current [] (is_agent_file s) false) t in
        emit (BaselineUpdated path) (supersede path (hunks s) t)
      else
        let source := if is_agent_file s then ExternalEditOnAgentFile else External in
        emit (BaselineUpdated path) (recompute_hunks path (Some new_current) source t)
  end.

(** Source: crates/codegen/xai-hunk-tracker/src/actor/mutations.rs:438-637, [HunkTrackerActor::refresh_all_baselines_except]. *)
Definition refresh_all_baselines_except (skip : gset PathBuf) (t : Tracker) : Tracker :=
  if bool_decide (t_mode t = AgentOnly) && bool_decide (t_file_states t = ∅) then t
  else
    let '(repo_sync_state, t) := read_repo_sync_state t in
    let unchanged := from_option (fun s => bool_decide (s = t_repo_sync_state t)) false repo_sync_state in
    if unchanged then t
    else
      let t := from_option (fun s => set_repo_sync_state s t) t repo_sync_state in
      let keys := map fst (hash_iter (t_file_states t)) in
      let scope :=
        match t_mode t with
        | AllDirty => None
        | AgentOnly => Some (omap (fun p => path_strip_prefix p (t_working_dir t)) keys)
        end in
      let t :=
        match scope with
        | Some [] => set_git_staged_cache ∅ (set_git_dirty_cache ∅ t)
        | _ => refresh_git_dirty_cache scope t
        end in
      let paths :=
        List.filter (fun p => negb (bool_decide (p ∈ skip))) (map fst (hash_iter (t_file_states t))) in
      let '(baselines, t) := if is_empty paths then (∅, t) else read_baselines_batch t paths in
      let current_contents := collect_map (map (fun p => (p, read_file_bounded (t_world t) p)) paths) in
      foldl (refresh_file baselines current_contents) t paths.

(** Source: crates/codegen/xai-hunk-tracker/src/actor/mutations.rs:432-434, [HunkTrackerActor::refresh_all_baselines]. *)
Definition refresh_all_baselines (t : Tracker) : Tracker := refresh_all_baselines_except ∅ t.

Definition untrack (t : Tracker) (path : PathBuf) : Tracker :=
  match t_file_states t !! path with
  | Some s =>
      let t := set_file_states (delete path (t_file_states t)) t in
      emit (FileRemoved path) (supersede path (hunks s) t)
  | None => t
  end.

(** Source: crates/codegen/xai-hunk-tracker/src/actor/mutations.rs:640-675, [HunkTrackerActor::set_mode]. *)
Definition set_tracking_mode (mode : TrackingMode) (t : Tracker) : Tracker :=
  let old_mode := t_mode t in
  let t := set_mode mode t in
  match old_mode, mode with
  | AgentOnly, AllDirty => refresh_git_dirty_cache None t
  | AllDirty, AgentOnly =>
      let non_agent_paths :=
        map fst (List.filter (fun e => negb (is_agent_file (snd e))) (hash_iter (t_file_states t))) in
      foldl untrack t non_agent_paths
  | _, _ => t
  end.

(** ** Queries *)

Definition all_states (t : Tracker) : list (PathBuf * FileHunkState) := hash_iter (t_file_states t).

(** Source: crates/codegen/xai-hunk-tracker/src/actor/queries.rs:19-24, [HunkTrackerActor::get_all_hunks]. *)
Definition get_all_hunks (t : Tracker) : list Hunk := concat (map (fun e => hunks (snd e)) (all_states t)).

(** Source: crates/codegen/xai-hunk-tracker/src/actor/queries.rs:27-32, [HunkTrackerActor::get_hunks_for_path]. *)
Definition get_hunks_for_path (t : Tracker) (path : PathBuf) : list Hunk :=
  from_option hunks [] (t_file_states t !! path).

(** Source: crates/codegen/xai-hunk-tracker/src/actor/queries.rs:37-86, [HunkTrackerActor::get_file_hunk_data]. *)
Definition get_file_hunk_data (t : Tracker) (path : PathBuf) : FileHunkData :=
  match t_file_states t !! path with
  | None => mkFileHunkData [] (from_content_state Missing) (from_content_state Missing) None None
  | Some s =>
      let patch_of h :=
        match content_as_str (baseline s), content_as_str (current_content s) with
        | Some b, Some c => Some (generate_hunk_patch b c h)
        | None, Some c => Some (generate_hunk_patch [] c h)
        | Some b, None => Some (generate_hunk_patch b [] h)
        | None, None => None
        end in
      let base := from_content_state (baseline s) in
      let current := from_content_state (current_content s) in
      mkFileHunkData (map (fun h => with_patch h (patch_of h)) (hunks s)) base current (v_content base) (v_content current)
  end.

(** Source: crates/codegen/xai-hunk-tracker/src/actor/queries.rs:91-93, [HunkTrackerActor::get_all_tracked_paths]. *)
Definition get_all_tracked_paths (t : Tracker) : list PathBuf := map fst (all_states t).

(** Source: crates/codegen/xai-hunk-tracker/src/actor/queries.rs:96-106, [HunkTrackerActor::get_hunks_by_source]. *)
Definition get_hunks_by_source (t : Tracker) (source : HunkSourceFilter) : list Hunk :=
  List.filter (fun h =>
    match source with
    | FilterAgent => is_agent_edit (h_source h)
    | FilterExternal => is_external (h_source h)
    end) (get_all_hunks t).

(** Source: crates/codegen/xai-hunk-tracker/src/actor/queries.rs:109-115, [HunkTrackerActor::get_hunk]. *)
Definition get_hunk (t : Tracker) (hunk_id : HunkId) : option Hunk :=
  List.find (fun h => str_eqb (h_id h) hunk_id) (get_all_hunks t).

(** Source: crates/codegen/xai-hunk-tracker/src/actor/queries.rs:118-124, [HunkTrackerActor::get_hunks_for_turn]. *)
Definition get_hunks_for_turn (t : Tracker) (prompt_index : nat) : list Hunk :=
  match t_turn_index t !! prompt_index with
  | None => []
  | Some ids => omap (get_hunk t) (set_iter ids)
  end.

(** The accumulated data of a turn: files, pending hunks, lines added and removed. *)
Record TurnData := mkTurnData {
  tdat_files : gset PathBuf;
  tdat_pending : list Hunk;
  tdat_added : nat;
  tdat_removed : nat;
}.

Definition no_turn_data : TurnData := mkTurnData ∅ [] 0 0.

(** One hunk of the loop over the files.

    Source: crates/codegen/xai-hunk-tracker/src/actor/queries.rs:150-159, [compute_session_summary]. *)
Definition add_pending (path : PathBuf) (acc : gmap nat TurnData * nat) (hunk : Hunk) : gmap nat TurnData * nat :=
  let '(by_prompt, unattributed) := acc in
  match source_prompt_index (h_source hunk) with
  | Some prompt_index =>
      let e := default no_turn_data (by_prompt !! prompt_index) in
      let e := mkTurnData ({[path]} ∪ tdat_files e) (tdat_pending e ++ [hunk])
                 (tdat_added e + new_count (h_lines hunk)) (tdat_removed e + old_count (h_lines hunk)) in
      (<[prompt_index := e]> by_prompt, unattributed)
  | None => (by_prompt, S unattributed)
  end.

Definition has_agent_hunks (s : FileHunkState) : bool :=
  existsb (fun h => bool_decide (is_Some (source_prompt_index (h_source h)))) (hunks s).

Definition sum_of {A} (f : A -> nat) (l : list A) : nat := sum_list (map f l).

(** Source: crates/codegen/xai-hunk-tracker/src/actor/queries.rs:127-198, [HunkTrackerActor::compute_session_summary]. *)
Definition compute_session_summary (t : Tracker) : SessionSummary :=
  let '(by_prompt, unattributed) :=
    foldl (fun acc e => foldl (add_pending (fst e)) acc (hunks (snd e))) (∅, 0) (all_states t) in
  let modified : gset PathBuf :=
    list_to_set (map fst (List.filter (fun e => has_agent_hunks (snd e)) (all_states t))) in
  let turn '(prompt_index, data) :=
    mkTurnSummary prompt_index (set_iter (tdat_files data)) (tdat_pending data) (tdat_added data)
      (tdat_removed data) in
  let turns := sort_asc ts_prompt_index (map turn (hash_iter by_prompt)) in
  mkSessionSummary (t_session_stats t) turns (size modified) (size modified)
    (sum_of (fun s => length (ts_pending_hunks s)) turns) (sum_of ts_lines_added turns)
    (sum_of ts_lines_removed turns) unattributed.

(** ** Snapshots and remounts *)

(** Source: crates/codegen/xai-hunk-tracker/src/actor/mod.rs:587-595, [HunkTrackerActor::snapshot_file_state]. *)
Definition snapshot_file_state (s : FileHunkState) : FileHunkStateSnapshot :=
  mkFileSnapshot (baseline s) (current_content s) (hunks s) (is_agent_file s) (baseline_accepted s).

(** Source: crates/codegen/xai-hunk-tracker/src/actor/mod.rs:599-611, [HunkTrackerActor::take_snapshot]. *)
Definition take_snapshot (t : Tracker) : HunkTrackerSnapshot :=
  mkTrackerSnapshot (snapshot_file_state <$> t_file_states t) (t_turn_index t) (t_session_stats t).

(** Source: crates/codegen/xai-hunk-tracker/src/actor/mod.rs:616-633, [HunkTrackerActor::take_turn_delta]. *)
Definition take_turn_delta (t : Tracker) (prompt_index : nat) : HunkTurnDelta :=
  let hunk_ids := default ∅ (t_turn_index t !! prompt_index) in
  let owns s := existsb (fun h => bool_decide (h_id h ∈ hunk_ids)) (hunks s) in
  mkTurnDelta prompt_index
    (omap (fun s => if owns s then Some (snapshot_file_state s) else None) (t_file_states t)) hunk_ids.

Definition restore_file_state (s : FileHunkStateSnapshot) : FileHunkState :=
  mkFile (fs_baseline s) (fs_current_content s) (fs_hunks s) (fs_is_agent_file s) (fs_baseline_accepted s).

(** Source: crates/codegen/xai-hunk-tracker/src/actor/mod.rs:638-666, [HunkTrackerActor::restore_snapshot]. *)
Definition restore_tracker (snapshot : HunkTrackerSnapshot) (t : Tracker) : Tracker :=
  set_session_stats (sn_session_stats snapshot)
    (set_turn_index (sn_turn_index snapshot)
      (set_file_states (restore_file_state <$> sn_file_states snapshot) t)).

Definition rekey_state (s : FileHunkState) (path : PathBuf) : FileHunkState :=
  with_hunks s (map (fun h => with_path h path) (hunks s)).

(** The rewriting closure: a path already under the new root stays. *)
Definition rewrite_for (old new_cwd path : PathBuf) : PathBuf :=
  if path_starts_with path new_cwd then path else default path (rewrite_single_path path old old new_cwd).

(** The entry of a rewritten path: a collision is merged into what is there. *)
Definition merge_entry (old new_cwd : PathBuf) (next : gmap PathBuf FileHunkState) (e : PathBuf * FileHunkState) :
    gmap PathBuf FileHunkState :=
  let new_path := rewrite_for old new_cwd (fst e) in
  let s := rekey_state (snd e) new_path in
  match next !! new_path with
  | None => <[new_path := s]> next
  | Some dest =>
      <[new_path := mkFile (baseline dest) (current_content dest) (hunks dest ++ hunks s)
                      (is_agent_file dest || is_agent_file s) (baseline_accepted dest || baseline_accepted s)]> next
  end.

(** Source: crates/codegen/xai-hunk-tracker/src/actor/mod.rs:524-582, [HunkTrackerActor::rekey_paths_for_working_dir]. *)
Definition rekey_paths_for_working_dir (new_cwd : PathBuf) (t : Tracker) : Tracker :=
  if path_eqb new_cwd (t_working_dir t) then t
  else
    let old := t_working_dir t in
    let under e := path_starts_with (fst e) new_cwd in
    let pairs := hash_iter (t_file_states t) in
    let already := List.filter under pairs in
    let rewritten := List.filter (fun e => negb (under e)) pairs in
    let next :=
      collect_map (map (fun e => let new_path := rewrite_for old new_cwd (fst e) in
                                 (new_path, rekey_state (snd e) new_path)) already) in
    let next := foldl (merge_entry old new_cwd) next rewritten in
    set_git_staged_cache (set_map (rewrite_for old new_cwd) (t_git_staged_cache t))
      (set_git_dirty_cache (set_map (rewrite_for old new_cwd) (t_git_dirty_cache t))
        (set_file_states next t)).

(** ** Commands *)

Inductive TrackerReply :=
  | NoReply
  | ReplyDone
  | ReplyAction (r : result unit HunkActionError)
  | ReplyIds (r : result (list HunkId) HunkActionError)
  | ReplyHunks (hs : list Hunk)
  | ReplyFileData (d : FileHunkData)
  | ReplyHunk (h : option Hunk)
  | ReplyFlag (b : bool)
  | ReplyPaths (ps : list PathBuf)
  | ReplyStaged (s : gset PathBuf)
  | ReplyContents (es : list FileContentEntry)
  | ReplySummary (s : SessionSummary)
  | ReplySnapshot (s : HunkTrackerSnapshot)
  | ReplyDelta (d : HunkTurnDelta).

Definition content_entry (t : Tracker) (e : PathBuf * FileHunkState) : FileContentEntry :=
  let rel := default (fst e) (path_strip_prefix (fst e) (t_working_dir t)) in
  mkEntry (fst e) (from_content_state (baseline (snd e))) (from_content_state (current_content (snd e)))
    (is_agent_file (snd e)) (bool_decide (rel ∈ t_git_staged_cache t)).

(** The handler always lets the loop go on; here it returns its reply.

    Source: crates/codegen/xai-hunk-tracker/src/actor/mod.rs:332-520, [HunkTrackerActor::handle_command]. *)
Definition tracker_handle_command (cmd : HunkTrackerCommand) (t : Tracker) : TrackerReply * Tracker :=
  match cmd with
  | RecordAgentWrite path content prompt_index previous =>
      (NoReply, record_agent_write path content prompt_index previous t)
  | HandleFileChange path => (NoReply, handle_file_change path t)
  | HandleFileDeleted path => (NoReply, handle_file_deleted path t)
  | RefreshGitDirtyCache => (NoReply, refresh_git_dirty_cache None t)
  | ResetBaseline path => (NoReply, reset_baseline path t)
  | SetMode mode => (NoReply, set_tracking_mode mode t)
  | SetWorkingDir working_dir =>
      let t := rekey_paths_for_working_dir working_dir t in
      (ReplyDone, set_repo_sync_state (mkSync None None) (set_git_repo_state RepoUnknown (set_working_dir working_dir t)))
  | ApplyHunkAction hunk_id action => let '(r, t) := apply_hunk_action hunk_id action t in (ReplyAction r, t)
  | FileAction path action => let '(r, t) := apply_file_action path action t in (ReplyIds r, t)
  | AllAction action => let '(r, t) := apply_all_action action t in (ReplyIds r, t)
  | TurnAction prompt_index action => let '(r, t) := apply_turn_action prompt_index action t in (ReplyIds r, t)
  | GetAllHunks => (ReplyHunks (get_all_hunks t), t)
  | GetHunksForPath path => (ReplyHunks (get_hunks_for_path t path), t)
  | GetFileHunkData path => (ReplyFileData (get_file_hunk_data t path), t)
  | GetHunksBySource source => (ReplyHunks (get_hunks_by_source t source), t)
  | GetHunk hunk_id => (ReplyHunk (get_hunk t hunk_id), t)
  | IsAgentFile path => (ReplyFlag (from_option is_agent_file false (t_file_states t !! path)), t)
  | GetAllTrackedPaths => (ReplyPaths (get_all_tracked_paths t), t)
  | GetStagedFiles => (ReplyStaged (set_map (path_join (t_working_dir t)) (t_git_staged_cache t)), t)
  | GetAllFileContents => (ReplyContents (map (content_entry t) (all_states t)), t)
  | GetSessionSummary => (ReplySummary (compute_session_summary t), t)
  | GetTurnHunks prompt_index => (ReplyHunks (get_hunks_for_turn t prompt_index), t)
  | ResetStats => (NoReply, set_session_stats no_stats t)
  | RefreshAllBaselines => (NoReply, refresh_all_baselines t)
  | SnapshotState => (ReplySnapshot (take_snapshot t), t)
  | SnapshotTurnDelta prompt_index => (ReplyDelta (take_turn_delta t prompt_index), t)
  | RestoreState snapshot => (NoReply, restore_tracker snapshot t)
  end.

(** ** The loop *)

(** Source: crates/codegen/xai-hunk-tracker/src/actor/mod.rs:42-47, [CoalescedPathAction]. *)
Inductive CoalescedPathAction := Changed | Deleted | DeletedThenChanged.

(** Source: crates/codegen/xai-hunk-tracker/src/actor/mod.rs:50-57, [CoalescedBatch]. *)
Record CoalescedBatch := mkBatch {
  file_actions : gmap PathBuf CoalescedPathAction;
  refresh_all : bool;
  refresh_dirty : bool;
  other_commands : list HunkTrackerCommand;
  command_count : nat;
}.

(** Source: crates/codegen/xai-hunk-tracker/src/actor/mod.rs:60-68, [CoalescedBatch::new]. *)
Definition batch_new : CoalescedBatch := mkBatch ∅ false false [] 0.

(** Source: crates/codegen/xai-hunk-tracker/src/actor/mod.rs:70-99, [CoalescedBatch::add]. *)
Definition batch_add (b : CoalescedBatch) (cmd : HunkTrackerCommand) : CoalescedBatch :=
  let n := S (command_count b) in
  match cmd with
  | HandleFileChange path =>
      let action :=
        match file_actions b !! path with
        | Some Deleted => DeletedThenChanged
        | Some action => action
        | None => Changed
        end in
      mkBatch (<[path := action]> (file_actions b)) (refresh_all b) (refresh_dirty b) (other_commands b) n
  | HandleFileDeleted path =>
      mkBatch (<[path := Deleted]> (file_actions b)) (refresh_all b) (refresh_dirty b) (other_commands b) n
  | RefreshAllBaselines => mkBatch (file_actions b) true (refresh_dirty b) (other_commands b) n
  | RefreshGitDirtyCache => mkBatch (file_actions b) (refresh_all b) true (other_commands b) n
  | _ => mkBatch (file_actions b) (refresh_all b) (refresh_dirty b) (other_commands b ++ [cmd]) n
  end.

(** Source: crates/codegen/xai-hunk-tracker/src/actor/mod.rs:214-222, [HunkTrackerActor::is_coalescable]. *)
Definition is_coalescable (cmd : HunkTrackerCommand) : bool :=
  match cmd with
  | HandleFileChange _ | HandleFileDeleted _ | RefreshAllBaselines | RefreshGitDirtyCache => true
  | _ => false
  end.

(** The commands in the channel behind [first].

    Source: crates/codegen/xai-hunk-tracker/src/actor/mod.rs:225-234, [HunkTrackerActor::drain_and_coalesce]. *)
Definition drain_and_coalesce (first : HunkTrackerCommand) (queued : list HunkTrackerCommand) : CoalescedBatch :=
  foldl batch_add batch_new (first :: queued).

Definition handle_all (cmds : list HunkTrackerCommand) (t : Tracker) : list TrackerReply * Tracker :=
  foldl (fun '(rs, t) cmd => let '(r, t) := tracker_handle_command cmd t in (rs ++ [r], t)) ([], t) cmds.

(** Source: crates/codegen/xai-hunk-tracker/src/actor/mod.rs:261-275, [handle_coalesced_batch]. *)
Definition refresh_step (acc : Tracker * gset PathBuf) (e : PathBuf * CoalescedPathAction) : Tracker * gset PathBuf :=
  let '(t, already_processed) := acc in
  let '(path, action) := e in
  match action with
  | Changed | DeletedThenChanged =>
      if has_file t path then acc else (handle_file_change path t, {[path]} ∪ already_processed)
  | Deleted => if has_file t path then (handle_file_deleted path t, already_processed) else acc
  end.

Definition change_step (acc : Tracker * list PathBuf) (e : PathBuf * CoalescedPathAction) : Tracker * list PathBuf :=
  let '(t, changed_paths) := acc in
  match snd e with
  | Changed | DeletedThenChanged => (t, changed_paths ++ [fst e])
  | Deleted => (handle_file_deleted (fst e) t, changed_paths)
  end.

(** Source: crates/codegen/xai-hunk-tracker/src/actor/mod.rs:237-298, [HunkTrackerActor::handle_coalesced_batch]. *)
Definition handle_coalesced_batch (b : CoalescedBatch) (t : Tracker) : list TrackerReply * Tracker :=
  let t := if refresh_dirty b && negb (refresh_all b) then refresh_git_dirty_cache None t else t in
  let t :=
    if refresh_all b then
      let '(t, already_processed) := foldl refresh_step (t, ∅) (hash_iter (file_actions b)) in
      refresh_all_baselines_except already_processed t
    else
      let '(t, changed_paths) := foldl change_step (t, []) (hash_iter (file_actions b)) in
      handle_file_changes_batch changed_paths t in
  handle_all (other_commands b) t.

(** The commands waiting in the channel, until it is empty.

    Source: crates/codegen/xai-hunk-tracker/src/actor/mod.rs:301-329, [HunkTrackerActor::run]. *)
Fixpoint run_queue (queue : list HunkTrackerCommand) (t : Tracker) : list TrackerReply * Tracker :=
  match queue with
  | [] => ([], t)
  | cmd :: queued =>
      if is_coalescable cmd then handle_coalesced_batch (drain_and_coalesce cmd queued) t
      else
        let '(r, t) := tracker_handle_command cmd t in
        let '(rs, t) := run_queue queued t in (r :: rs, t)
  end.

(** Source: crates/codegen/xai-hunk-tracker/src/actor/mod.rs:191-211, [HunkTrackerActor::spawn]. *)
Definition tracker_spawn (working_dir : PathBuf) (mode : TrackingMode) (w : W) : Tracker :=
  let t := tracker_new working_dir mode w in
  match mode with AllDirty => refresh_git_dirty_cache None t | AgentOnly => t end.

End tracker.
Arguments Tracker : clear implicits.
