(* ===== verification/HunkTrackerSpec.v ===== *)
(** * What the hunk tracker guarantees

    The states the tracker reaches, the invariant they satisfy (the hunks of a
    file are the diff of its contents, identifiers are unique, the turn index is
    exact), what accepting and rejecting do, and the summaries. *)

From S2P Require Import Prelude RustStr HunkTypes HunkDiff HunkTracker.

(** ** The turn index *)

Definition index_ids (idx : gmap nat (gset HunkId)) (k : nat) : gset HunkId := default ∅ (idx !! k).

Definition index_remove (hs : list Hunk) (idx : gmap nat (gset HunkId)) : gmap nat (gset HunkId) :=
  foldl (fun idx h =>
    match source_prompt_index (h_source h) with
    | Some i => alter (fun ids => ids ∖ {[h_id h]}) i idx
    | None => idx
    end) idx hs.

Definition index_add (hs : list Hunk) (idx : gmap nat (gset HunkId)) : gmap nat (gset HunkId) :=
  foldl (fun idx h =>
    match source_prompt_index (h_source h) with
    | Some i => <[i := {[h_id h]} ∪ index_ids idx i]> idx
    | None => idx
    end) idx hs.

Lemma index_remove_ids hs idx k id :
  id ∈ index_ids (index_remove hs idx) k
  <-> id ∈ index_ids idx k ∧ ¬ ∃ h, h ∈ hs ∧ h_id h = id ∧ h_source h = AgentEdit k.
Proof.
  unfold index_remove. revert idx. induction hs as [|h hs IH]; intros idx; cbn [foldl].
  - split; [intros ?; split; [done|]; intros (h & Hh%not_elem_of_nil & _); done|tauto].
  - rewrite IH. clear IH.
    assert (Hone : id ∈ index_ids (match source_prompt_index (h_source h) with
                                   | Some i => alter (fun ids => ids ∖ {[h_id h]}) i idx | None => idx end) k
                   <-> id ∈ index_ids idx k ∧ ¬ (h_id h = id ∧ h_source h = AgentEdit k)).
    { unfold index_ids. destruct (h_source h) as [i| |] eqn:Hs; cbn [source_prompt_index].
      - destruct (decide (i = k)) as [->|Hne].
        + rewrite lookup_alter_eq. destruct (idx !! k) as [ids|]; cbn; [|set_solver].
          rewrite elem_of_difference, elem_of_singleton. naive_solver.
        + rewrite lookup_alter_ne by done. split; [intros ?; split; [done|]; intros [_ ?]; congruence|tauto].
      - split; [intros ?; split; [done|]; naive_solver|tauto].
      - split; [intros ?; split; [done|]; naive_solver|tauto]. }
    rewrite Hone. setoid_rewrite elem_of_cons. naive_solver.
Qed.

Lemma index_add_ids hs idx k id :
  id ∈ index_ids (index_add hs idx) k
  <-> id ∈ index_ids idx k ∨ ∃ h, h ∈ hs ∧ h_id h = id ∧ h_source h = AgentEdit k.
Proof.
  unfold index_add. revert idx. induction hs as [|h hs IH]; intros idx; cbn [foldl].
  - split; [by left|]. intros [?|(h & Hh%not_elem_of_nil & _)]; done.
  - rewrite IH. clear IH.
    assert (Hone : id ∈ index_ids (match source_prompt_index (h_source h) with
                                   | Some i => <[i := {[h_id h]} ∪ index_ids idx i]> idx | None => idx end) k
                   <-> id ∈ index_ids idx k ∨ (h_id h = id ∧ h_source h = AgentEdit k)).
    { destruct (h_source h) as [i| |] eqn:Hs; cbn [source_prompt_index]; [|naive_solver..].
      unfold index_ids at 1. destruct (decide (i = k)) as [->|Hne].
      - rewrite lookup_insert_eq. cbn. rewrite elem_of_union, elem_of_singleton. naive_solver.
      - rewrite lookup_insert_ne by done. fold (index_ids idx k). naive_solver. }
    rewrite Hone. setoid_rewrite elem_of_cons. naive_solver.
Qed.

(** ** The shape of hunks *)

(** A hunk without its identity and attribution. *)
Definition shape (h : Hunk) : HunkLineInfo * option str * str := (h_lines h, h_old_text h, h_new_text h).

Section spec.
Context {W : Type} `{FileSystem W, Git W, DiffTimer, HashOrder, Uuids, LineDiff}.

(** What the hunks of a file should be. *)
Definition diff_shape (base current : FileContentState) : list (HunkLineInfo * option str * str) :=
  match base, current with
  | Full b, Full c => map shape (fst (compute_hunks false [] b c External 0))
  | Full b, Missing => if is_empty b then [] else [shape (file_deleted [] [] b External)]
  | Missing, Full c => if is_empty c then [] else [shape (file_created [] [] c External)]
  | _, _ => []
  end.

(** A file shows no hunks although its contents differ: a diff of just these texts
    takes too long, or it is a file of the agent that a refresh found clean, its texts
    being the same up to the last line break, or [HEAD] not holding it. *)
Definition cut_short (base current : FileContentState) : Prop :=
  ∃ n b c, base = Full b ∧ current = Full c ∧ diff_timed_out n b c = true.
Definition found_clean (base current : FileContentState) : Prop :=
  match base, current with
  | Full b, Full c => same_text b c = true
  | Missing, Full _ => True
  | _, _ => False
  end.
Definition silent (s : FileHunkState) : Prop :=
  hunks s = []
  ∧ (cut_short (baseline s) (current_content s)
     ∨ is_agent_file s = true ∧ baseline_accepted s = false ∧ found_clean (baseline s) (current_content s)).

Definition file_ok (s : FileHunkState) : Prop :=
  silent s ∨ map shape (hunks s) = diff_shape (baseline s) (current_content s).

Lemma diff_shape_same c : diff_shape c c = [].
Proof. destruct c as [|?|?|?| |c]; cbn; try done. unfold compute_hunks. by rewrite str_eqb_refl. Qed.

Lemma file_ok_same c a f : file_ok (mkFile c c [] a f).
Proof. right. cbn [hunks baseline current_content]. by rewrite diff_shape_same. Qed.

Definition inert (b c : FileContentState) : Prop :=
  is_diffable c = false ∧ (is_diffable b = false ∨ c ≠ Missing).

Lemma file_ok_inert b c a f : inert b c -> file_ok (mkFile b c [] a f).
Proof. intros [Hc Hb]. right. destruct Hb as [Hb|Hb]; by destruct b, c. Qed.

Lemma classify_inert b content : is_diffable (classify_string content) = false -> inert b (classify_string content).
Proof. intros Hc. split; [done|]. right. unfold classify_string in *. by repeat case_match. Qed.

Lemma build_all_shape bs p p' src src' m m' : map shape (build_all bs p src m) = map shape (build_all bs p' src' m').
Proof. revert m m'. induction bs as [|b bs IH]; intros m m'; cbn; [done|]. by erewrite IH. Qed.

Lemma build_all_path bs p src m h : h ∈ build_all bs p src m -> h_path h = p ∧ h_source h = src.
Proof.
  revert m. induction bs as [|b bs IH]; intros m; cbn; [by intros ?%not_elem_of_nil|].
  rewrite elem_of_cons. intros [->|Hin]; [done|by eapply IH].
Qed.

Lemma build_all_ids bs p src m : map h_id (build_all bs p src m) = map uuid_v4 (seq m (length bs)).
Proof. revert m. induction bs as [|b bs IH]; intros m; cbn; [done|]. by rewrite IH. Qed.

(** Recomputed hunks have the shape of the diff, the path and source they were
    computed for, and the next identifiers. *)
Lemma file_diff_spec p base current src m d hs m' d' :
  file_diff p base current src m d = (hs, m', d') ->
  ((hs = [] ∧ cut_short base current) ∨ map shape hs = diff_shape base current)
  ∧ Forall (fun h => h_path h = p ∧ h_source h = src) hs
  ∧ map h_id hs = map uuid_v4 (seq m (length hs)) ∧ m' = m + length hs.
Proof.
  assert (Hnone : ∀ m'', Forall (fun h => h_path h = p ∧ h_source h = src) []
                   ∧ map h_id [] = map uuid_v4 (seq m'' 0) ∧ m'' = m'' + 0) by (intros; repeat split; auto; constructor).
  unfold file_diff, diff_shape.
  destruct base as [|?|?|?| |b], current as [|?|?|?| |c]; intros Heq; simplify_eq/=; try (split; [by right|apply Hnone]).
  - destruct (is_empty c); simplify_eq/=; (split; [by right|]); [apply Hnone|].
    repeat split; [by repeat constructor|lia].
  - destruct (is_empty b); simplify_eq/=; (split; [by right|]); [apply Hnone|].
    repeat split; [by repeat constructor|lia].
  - destruct (compute_hunks _ p b c src m) as [hs' n] eqn:Hc. simplify_eq/=. unfold compute_hunks in *.
    destruct (str_eqb b c); simplify_eq/=; [split; [by right|apply Hnone]|].
    destruct (too_large_to_diff b || too_large_to_diff c); simplify_eq/=; [split; [by right|apply Hnone]|].
    destruct (diff_timed_out d b c) eqn:Ht; simplify_eq/=; [split; [left; split; [done|by exists d, b, c]|apply Hnone]|].
    set (bs := hunks_loop _ _ _ _).
    assert (Hl : length (build_all bs p src m) = length bs)
      by (rewrite <- (length_map h_id), build_all_ids, length_map; apply length_seq).
    split; [right; apply build_all_shape|]. split; [apply Forall_forall; intros h; apply build_all_path|].
    by rewrite Hl, build_all_ids.
Qed.

(** Keeping identifiers changes no shape and no path. *)
Lemma preserve_ids_shape old claimed new :
  map shape (preserve_ids old claimed new) = map shape new
  ∧ map h_path (preserve_ids old claimed new) = map h_path new
  ∧ length (preserve_ids old claimed new) = length new.
Proof.
  revert claimed. induction new as [|n new IH]; intros claimed; cbn [preserve_ids]; [done|].
  destruct (find_matching_old_hunk n old) as [best|]; [case_bool_decide|]; cbn [map length].
  - destruct (IH claimed) as (-> & -> & ->). done.
  - destruct (IH ({[h_id best]} ∪ claimed)) as (-> & -> & ->).
    destruct (is_external _ && _); done.
  - destruct (IH claimed) as (-> & -> & ->). done.
Qed.

Lemma foldl_pick_in {A} (f : option A -> A -> option A) l acc x :
  (∀ a y, f a y = Some y ∨ f a y = a) -> foldl f acc l = Some x -> acc = Some x ∨ x ∈ l.
Proof.
  intros Hf. revert acc. induction l as [|y l IH]; intros acc; cbn; [by left|]. rewrite elem_of_cons.
  intros [Hx|Hx]%IH; [|by auto]. destruct (Hf acc y) as [Hy|Hy]; rewrite Hy in Hx; simplify_eq; auto.
Qed.

Lemma min_by_key_in {A} (key : A -> nat) l x : min_by_key key l = Some x -> x ∈ l.
Proof.
  intros [[=]|Hx]%foldl_pick_in; [done|]. intros [b|] y; cbn; [case_match|]; auto.
Qed.

Lemma max_by_key_in {A} (key : A -> nat) l x : max_by_key key l = Some x -> x ∈ l.
Proof.
  intros [[=]|Hx]%foldl_pick_in; [done|]. intros [b|] y; cbn; [case_match|]; auto.
Qed.

Lemma nodup_ids_inj l h h' : NoDup (map h_id l) -> h ∈ l -> h' ∈ l -> h_id h = h_id h' -> h = h'.
Proof.
  induction l as [|x l IH]; cbn; [by intros _ ?%not_elem_of_nil|].
  intros [Hx Hnd]%NoDup_cons. rewrite !elem_of_cons. intros [->|Hh] [->|Hh'] Hid; try done; [..|by apply IH];
    destruct Hx; [rewrite Hid|rewrite <- Hid]; by apply list_elem_of_fmap_2.
Qed.

Lemma sublist_map {A B} (f : A -> B) l k : sublist l k -> sublist (map f l) (map f k).
Proof. induction 1; cbn; eauto using sublist_nil, sublist_skip, sublist_cons. Qed.

Lemma find_matching_in new old b : find_matching_old_hunk new old = Some b -> b ∈ old.
Proof.
  unfold find_matching_old_hunk.
  destruct (negb _); intros Hb; [apply min_by_key_in in Hb|apply max_by_key_in in Hb];
    rewrite !list_elem_of_In, filter_In in Hb; rewrite list_elem_of_In; tauto.
Qed.

Lemma preserve_ids_from old claimed new h : h ∈ preserve_ids old claimed new ->
  (∃ n, n ∈ new ∧ h_id h = h_id n) ∨ (∃ o, o ∈ old ∧ h_id h = h_id o ∧ h_id o ∉ claimed).
Proof.
  revert claimed. induction new as [|n new IH]; intros claimed; cbn [preserve_ids]; [by intros ?%not_elem_of_nil|].
  setoid_rewrite elem_of_cons.
  destruct (find_matching_old_hunk n old) as [best|] eqn:Hb; [apply find_matching_in in Hb; case_bool_decide|];
    rewrite elem_of_cons; intros [->|[(n' & ? & ?)|(o & ? & ? & ?)]%IH]; eauto 6.
  - right. exists best. destruct (is_external _ && _); done.
  - right. exists o. set_solver.
Qed.

Lemma preserve_ids_nodup old claimed new :
  NoDup (map h_id new) -> (∀ n o, n ∈ new -> o ∈ old -> h_id n ≠ h_id o) ->
  NoDup (map h_id (preserve_ids old claimed new)).
Proof.
  revert claimed. induction new as [|n new IH]; intros claimed Hnd Hdisj; cbn [preserve_ids]; [done|].
  cbn [map] in Hnd. apply NoDup_cons in Hnd as [Hn Hnd].
  setoid_rewrite elem_of_cons in Hdisj.
  assert (Hfresh : ∀ c, h_id n ∉ map h_id (preserve_ids old c new)).
  { intros c (h & Hid & [(n' & Hn' & Hh)|(o & Ho & Hh & _)]%preserve_ids_from)%list_elem_of_fmap.
    - apply Hn. apply list_elem_of_fmap. exists n'. split; [congruence|done].
    - apply (Hdisj n o); [by left|done|congruence]. }
  destruct (find_matching_old_hunk n old) as [best|] eqn:Hb; [case_bool_decide|];
    cbn [map]; apply NoDup_cons; (split; [|apply IH; eauto]).
  - apply Hfresh.
  - intros Hin. apply find_matching_in in Hb.
    assert (Hid : h_id best ∈ map h_id (preserve_ids old ({[h_id best]} ∪ claimed) new))
      by (destruct (is_external _ && _); exact Hin).
    apply list_elem_of_fmap in Hid as (h & Hh & [(n' & Hn' & Hh')|(o & Ho & Hh' & Hc)]%preserve_ids_from).
    + apply (Hdisj n' best); [by right|done|congruence].
    + apply Hc. rewrite <- Hh', <- Hh. set_solver.
  - apply Hfresh.
Qed.

Class UuidLaws := { uuid_inj : Inj (=) (=) uuid_v4 }.

Context `{!UuidLaws, !HashOrderLaws}.
#[local] Existing Instance uuid_inj.

(** ** The invariant *)

Definition has_hunk (fs : gmap PathBuf FileHunkState) (p : PathBuf) (h : Hunk) : Prop :=
  ∃ s, fs !! p = Some s ∧ h ∈ hunks s.

Section since.
Context (base : nat).

(** The files of [P] may have hunks that are not their diff, the hunks of [X]
    may be missing from the turn index: the state inside an operation. At least
    [base] identifiers have been drawn. *)
Record good_but (P : PathBuf -> Prop) (X : HunkId -> Prop) (fs : gmap PathBuf FileHunkState)
    (idx : gmap nat (gset HunkId)) (m : nat) : Prop := {
  good_files : ∀ p s, fs !! p = Some s -> ¬ P p -> file_ok s;
  good_paths : ∀ p h, has_hunk fs p h -> h_path h = p;
  good_fresh : ∀ p h, has_hunk fs p h -> ∃ k, k < m ∧ h_id h = uuid_v4 k;
  good_nodup : ∀ p s, fs !! p = Some s -> NoDup (map h_id (hunks s));
  good_apart : ∀ p p' h h', has_hunk fs p h -> has_hunk fs p' h' -> h_id h = h_id h' -> p = p';
  good_index : ∀ k id, id ∈ index_ids idx k -> ∃ j, j < m ∧ id = uuid_v4 j;
  good_live : ∀ k p h, has_hunk fs p h -> h_id h ∈ index_ids idx k -> h_source h = AgentEdit k;
  good_complete : ∀ k p h, has_hunk fs p h -> h_source h = AgentEdit k -> ¬ X (h_id h) ->
                    h_id h ∈ index_ids idx k;
  good_since : base ≤ m;
}.

Definition none {A} (_ : A) : Prop := False.

Definition inv (P : PathBuf -> Prop) (X : HunkId -> Prop) (t : Tracker W) : Prop :=
  good_but P X (t_file_states t) (t_turn_index t) (t_minted t).

Definition good : Tracker W -> Prop := inv none none.

(** Operations that touch neither files, nor the index, nor the identifiers. *)
Definition same_core (t t' : Tracker W) : Prop :=
  t_file_states t' = t_file_states t ∧ t_turn_index t' = t_turn_index t ∧ t_minted t' = t_minted t.

Lemma inv_same_core P X t t' : same_core t t' -> inv P X t -> inv P X t'.
Proof. unfold inv. by intros (-> & -> & ->). Qed.

(** The hunks marked have left the state. *)
Lemma inv_unmark P X t : inv P X t -> (∀ p h, has_hunk (t_file_states t) p h -> ¬ X (h_id h)) -> inv P none t.
Proof. intros [] Hx. constructor; try done. intros k p h Hh Hs _. eauto. Qed.

Lemma inv_weaken (P P' : PathBuf -> Prop) (X X' : HunkId -> Prop) t :
  inv P X t -> (∀ p, P p -> P' p) -> (∀ i, X i -> X' i) -> inv P' X' t.
Proof. intros [] HP HX. constructor; eauto. Qed.

(** Shrinking the hunks of a file, or tracking one without hunks. *)
Lemma inv_shrink P P' X t p s :
  inv P X t -> sublist (hunks s) (from_option hunks [] (t_file_states t !! p)) ->
  (∀ q, P q -> q ≠ p -> P' q) -> (file_ok s ∨ P' p) -> inv P' X (update_file p s t).
Proof.
  intros [] Hsub HP Hok.
  assert (Hback : ∀ q h, has_hunk (t_file_states (update_file p s t)) q h -> has_hunk (t_file_states t) q h).
  { intros q h (s' & Hs' & Hh). cbn in Hs'. destruct (decide (q = p)) as [->|Hne].
    - rewrite lookup_insert_eq in Hs'. simplify_eq.
      destruct (t_file_states t !! p) as [s0|] eqn:Hp0; cbn in Hsub.
      + exists s0. split; [done|]. by eapply elem_of_sublist.
      + apply sublist_nil_r in Hsub. rewrite Hsub in Hh. by apply not_elem_of_nil in Hh.
    - rewrite lookup_insert_ne in Hs' by done. by exists s'. }
  constructor; cbn [update_file set_file_states t_file_states t_turn_index t_minted] in *; eauto.
  - intros q s' Hs' Hq. destruct (decide (q = p)) as [->|Hne].
    + rewrite lookup_insert_eq in Hs'. simplify_eq. by destruct Hok.
    + rewrite lookup_insert_ne in Hs' by done. eapply good_files0; [done|]. eauto.
  - intros q s' Hs'. destruct (decide (q = p)) as [->|Hne].
    + rewrite lookup_insert_eq in Hs'. simplify_eq.
      destruct (t_file_states t !! p) as [s0|] eqn:Hp0; cbn in Hsub.
      * eapply sublist_NoDup; [by eapply good_nodup0|]. by apply sublist_map.
      * apply sublist_nil_r in Hsub. rewrite Hsub. constructor.
    + rewrite lookup_insert_ne in Hs' by done. by eapply good_nodup0.
Qed.

Lemma inv_delete P X t p : inv P X t -> inv P X (set_file_states (delete p (t_file_states t)) t).
Proof.
  intros [].
  assert (Hback : ∀ q h, has_hunk (delete p (t_file_states t)) q h -> has_hunk (t_file_states t) q h).
  { intros q h (s' & Hs' & Hh). apply lookup_delete_Some in Hs' as [_ Hs']. by exists s'. }
  constructor; cbn; eauto; intros q s' [_ Hs']%lookup_delete_Some; eauto.
Qed.

(** Taking hunks out of the index marks them. *)
Lemma inv_index_remove P X t hs :
  inv P X t -> inv P (fun i => X i ∨ i ∈ map h_id hs) (set_turn_index (index_remove hs (t_turn_index t)) t).
Proof.
  intros []. constructor; cbn; eauto.
  - intros k id [Hid _]%index_remove_ids. eauto.
  - intros k p h Hh [Hid _]%index_remove_ids. eauto.
  - intros k p h Hh Hs Hx. apply index_remove_ids. split; [apply (good_complete0 k p); tauto|].
    intros (h' & Hin & Hid & _). apply Hx. right. rewrite <- Hid. by apply list_elem_of_fmap_2.
Qed.

Lemma removes_eq (hs : list Hunk) (t : Tracker W) :
  foldl (fun t h => remove_from_turn_index (h_id h) (h_source h) t) t hs
  = set_turn_index (index_remove hs (t_turn_index t)) t.
Proof.
  unfold index_remove. revert t. induction hs as [|h hs IH]; intros t; cbn; [by destruct t|].
  rewrite IH. unfold remove_from_turn_index. by destruct (source_prompt_index (h_source h)).
Qed.

Lemma adds_eq (hs : list Hunk) (t : Tracker W) :
  foldl (fun t h => add_to_turn_index h t) t hs = set_turn_index (index_add hs (t_turn_index t)) t.
Proof.
  unfold index_add. revert t. induction hs as [|h hs IH]; intros t; cbn; [by destruct t|].
  rewrite IH. unfold add_to_turn_index. by destruct (source_prompt_index (h_source h)).
Qed.

(** A recomputation, field by field. *)
Lemma recompute_core p c src t :
  same_core (recompute_hunks p c src t)
    (match t_file_states t !! p with
     | None => t
     | Some s =>
         let current := default missing_content c in
         let '(raw, m, _) := file_diff p (baseline s) current src (t_minted t) (t_diffs t) in
         let new := preserve_ids (hunks s) ∅ raw in
         set_minted m
           (set_turn_index (index_add new (index_remove (hunks s) (t_turn_index t)))
             (update_file p (mkFile (baseline s) current new (is_agent_file s) (baseline_accepted s)) t))
     end)
  ∧ t_world (recompute_hunks p c src t) = t_world t
  ∧ t_session_stats (recompute_hunks p c src t) = t_session_stats t.
Proof.
  unfold recompute_hunks, same_core. destruct (t_file_states t !! p) as [s|]; [|done].
  destruct (file_diff _ _ _ _ _ _) as [[raw m] d]. rewrite removes_eq, adds_eq. done.
Qed.

Section recompute.
Context (P : PathBuf -> Prop) (X : HunkId -> Prop) (t : Tracker W) (p : PathBuf) (s : FileHunkState).
Context (current : FileContentState) (src : HunkSource) (raw : list Hunk) (m d : nat).
Hypothesis Hinv : inv P X t.
Hypothesis Hs : t_file_states t !! p = Some s.
Hypothesis Hdiff : file_diff p (baseline s) current src (t_minted t) (t_diffs t) = (raw, m, d).

Let new := preserve_ids (hunks s) ∅ raw.
Let fs := <[p := mkFile (baseline s) current new (is_agent_file s) (baseline_accepted s)]> (t_file_states t).

Lemma raw_fresh n : n ∈ raw -> ∃ j, t_minted t ≤ j < m ∧ h_id n = uuid_v4 j.
Proof.
  destruct (file_diff_spec _ _ _ _ _ _ _ _ _ Hdiff) as (_ & _ & Hids & ->). intros Hn.
  assert (Hin : h_id n ∈ map h_id raw) by by apply list_elem_of_fmap_2.
  rewrite Hids in Hin. apply list_elem_of_fmap in Hin as (j & Hj & Hin). exists j.
  rewrite list_elem_of_In, in_seq in Hin. split; [lia|done].
Qed.

Lemma new_ids h : h ∈ new ->
  (∃ j, t_minted t ≤ j < m ∧ h_id h = uuid_v4 j) ∨ (∃ o, has_hunk (t_file_states t) p o ∧ h_id h = h_id o).
Proof.
  intros [(n & Hn & Hid)|(o & Ho & Hid & _)]%preserve_ids_from.
  - left. destruct (raw_fresh n Hn) as (j & Hj & Hid'). exists j. split; [done|congruence].
  - right. exists o. split; [by exists s|done].
Qed.

Lemma new_nodup : NoDup (map h_id new).
Proof.
  apply preserve_ids_nodup.
  - destruct (file_diff_spec _ _ _ _ _ _ _ _ _ Hdiff) as (_ & _ & -> & _).
    apply NoDup_fmap_2; [apply uuid_inj|]. apply NoDup_ListNoDup, seq_NoDup.
  - intros n o (j & Hj & ->)%raw_fresh Ho. destruct Hinv.
    destruct (good_fresh0 p o) as (k & Hk & ->); [by exists s|]. intros ?%uuid_inj. lia.
Qed.

Lemma minted_le : t_minted t ≤ m.
Proof. destruct (file_diff_spec _ _ _ _ _ _ _ _ _ Hdiff) as (_ & _ & _ & ->). lia. Qed.

Lemma has_new q h : has_hunk fs q h -> (q = p ∧ h ∈ new) ∨ (q ≠ p ∧ has_hunk (t_file_states t) q h).
Proof.
  intros (s' & Hs' & Hh). unfold fs in Hs'. destruct (decide (q = p)) as [->|Hne].
  - rewrite lookup_insert_eq in Hs'. simplify_eq. by left.
  - rewrite lookup_insert_ne in Hs' by done. right. split; [done|by exists s'].
Qed.

(** An identifier of the file is not one of another file. *)
Lemma new_not_other q h h' : q ≠ p -> h ∈ new -> has_hunk (t_file_states t) q h' -> h_id h ≠ h_id h'.
Proof.
  intros Hne Hh Hh' Hid. destruct Hinv. destruct (new_ids h Hh) as [(j & Hj & Hj')|(o & Ho & Ho')].
  - destruct (good_fresh0 q h' Hh') as (k & Hk & Hk'). rewrite Hid, Hk' in Hj'. apply uuid_inj in Hj'. lia.
  - apply Hne. apply (good_apart0 q p h' o); [done..|congruence].
Qed.

Lemma new_file_ok : file_ok (mkFile (baseline s) current new (is_agent_file s) (baseline_accepted s)).
Proof.
  destruct (file_diff_spec _ _ _ _ _ _ _ _ _ Hdiff) as (Hshape & _).
  destruct (preserve_ids_shape (hunks s) ∅ raw) as (Hsame & _ & Hlen).
  destruct Hshape as [[-> Hto]|Hshape]; [left; split; [done|by left]|right]. cbn. by rewrite <- Hshape, <- Hsame.
Qed.

Lemma recompute_inv_some :
  good_but (fun q => P q ∧ q ≠ p) X fs (index_add new (index_remove (hunks s) (t_turn_index t))) m.
Proof.
  pose proof minted_le as Hle. pose proof new_nodup as Hnd.
  pose proof (file_diff_spec _ _ _ _ _ _ _ _ _ Hdiff) as (_ & Hpath & _ & _).
  pose proof Hinv as [].
  constructor.
  - intros q s' Hs' Hq. unfold fs in Hs'. destruct (decide (q = p)) as [->|Hne].
    + rewrite lookup_insert_eq in Hs'. simplify_eq. apply new_file_ok.
    + rewrite lookup_insert_ne in Hs' by done. eapply good_files0; [done|]. tauto.
  - intros q h [[-> Hh]|[_ Hh]]%has_new; [|eauto].
    destruct (preserve_ids_shape (hunks s) ∅ raw) as (_ & Hp & _).
    assert (Hin : h_path h ∈ map h_path raw) by (rewrite <- Hp; by apply list_elem_of_fmap_2).
    apply list_elem_of_fmap in Hin as (n & -> & Hn). rewrite Forall_forall in Hpath. by apply Hpath.
  - intros q h [[-> Hh]|[_ Hh]]%has_new.
    + destruct (new_ids h Hh) as [(j & Hj & Hj')|(o & Ho & ->)]; [exists j; split; [lia|done]|].
      destruct (good_fresh0 p o Ho) as (k & Hk & Hk'). exists k. split; [lia|done].
    + destruct (good_fresh0 q h Hh) as (k & Hk & Hk'). exists k. split; [lia|done].
  - intros q s' Hs'. unfold fs in Hs'. destruct (decide (q = p)) as [->|Hne].
    + rewrite lookup_insert_eq in Hs'. by simplify_eq.
    + rewrite lookup_insert_ne in Hs' by done. by eapply good_nodup0.
  - intros q q' h h' [[-> Hh]|[Hq Hh]]%has_new [[-> Hh']|[Hq' Hh']]%has_new Hid; [done|..|eauto].
    + by destruct (new_not_other q' h h').
    + by destruct (new_not_other q h' h).
  - intros k id [[Hid _]%index_remove_ids|(h & Hh & <- & _)]%index_add_ids.
    + destruct (good_index0 k id Hid) as (j & Hj & ->). exists j. split; [lia|done].
    + destruct (new_ids h Hh) as [(j & Hj & Hj')|(o & Ho & ->)]; [exists j; split; [lia|done]|].
      destruct (good_fresh0 p o Ho) as (j & Hj & Hj'). exists j. split; [lia|done].
  - intros k q h Hh [[Hid Hnot]%index_remove_ids|(h' & Hh' & Hid & Hsrc)]%index_add_ids;
      destruct (has_new q h Hh) as [[-> Hin]|[Hne Hin]].
    + exfalso. destruct (new_ids h Hin) as [(j & Hj & Hj')|(o & Ho & Ho')].
      * destruct (good_index0 k _ Hid) as (i & Hi & Hi'). rewrite Hj' in Hi'. apply uuid_inj in Hi'. lia.
      * apply Hnot. exists o. rewrite Ho' in Hid |- *. split; [|split; [done|by eapply good_live0]].
        destruct Ho as (s0 & Hs0 & Ho). congruence.
    + by eapply good_live0.
    + by rewrite (nodup_ids_inj new h h').
    + by destruct (new_not_other q h' h).
  - intros k q h [[-> Hh]|[Hne Hh]]%has_new Hsrc Hx; apply index_add_ids; [right; by exists h|left].
    apply index_remove_ids. split; [by eapply good_complete0|]. intros (o & Ho & Hid & _).
    apply Hne, (good_apart0 q p h o); [done|by exists s|done].
  - lia.
Qed.

End recompute.

Lemma recompute_inv P X p c src t : inv P X t -> inv (fun q => P q ∧ q ≠ p) X (recompute_hunks p c src t).
Proof.
  intros Hinv. destruct (recompute_core p c src t) as [(Hf & Hi & Hm) _].
  destruct (t_file_states t !! p) as [s|] eqn:Hs.
  - cbv zeta in *. destruct (file_diff p (baseline s) (default missing_content c) src (t_minted t) (t_diffs t))
      as [[raw m] d] eqn:Hd.
    unfold inv. rewrite <- Hf, <- Hi, <- Hm. by eapply recompute_inv_some.
  - unfold inv. rewrite <- Hf, <- Hi, <- Hm. destruct Hinv. constructor; try done.
    intros q s Hq Hno. eapply good_files0; [done|]. intros Hp. apply Hno. split; [done|]. congruence.
Qed.

(** Whether the diff of these contents that starts now takes too long. *)
Definition times_out_now (t : Tracker W) (base current : FileContentState) : bool :=
  match base, current with Full b, Full c => diff_timed_out (t_diffs t) b c | _, _ => false end.

(** What one recomputation leaves, in any state. *)
Lemma recompute_exact p c src t s : t_file_states t !! p = Some s ->
  ∃ hs, t_file_states (recompute_hunks p c src t) !! p
        = Some (mkFile (baseline s) (default missing_content c) hs (is_agent_file s) (baseline_accepted s))
    ∧ map shape hs = if times_out_now t (baseline s) (default missing_content c) then []
                     else diff_shape (baseline s) (default missing_content c).
Proof.
  intros Hs. destruct (recompute_core p c src t) as [(Hf & _) _]. rewrite Hs in Hf. cbv zeta in Hf.
  destruct (file_diff _ _ _ _ _ _) as [[raw m] d] eqn:Hd. eexists. split; [rewrite <- Hf; apply lookup_insert_eq|].
  destruct (preserve_ids_shape (hunks s) ∅ raw) as (-> & _). revert Hd. unfold file_diff, times_out_now.
  destruct (baseline s) as [|?|?|?| |b] eqn:Hb, (default missing_content c) as [|?|?|?| |c'] eqn:Hc;
    try (intros Hd; injection Hd as <- _ _; reflexivity).
  - cbn. destruct (is_empty c'); intros Hd; by injection Hd as <- _ _.
  - cbn. destruct (is_empty b); intros Hd; by injection Hd as <- _ _.
  - destruct (compute_hunks _ _ _ _ _ _) as [hs n] eqn:Hh. intros Hd. injection Hd as <- _ _.
    unfold compute_hunks in *. cbn [diff_shape]. unfold compute_hunks.
    destruct (diff_timed_out (t_diffs t) b c'), (str_eqb b c'), (too_large_to_diff b || too_large_to_diff c');
      injection Hh as <- _; try done. apply build_all_shape.
Qed.

(** ** Every operation keeps the invariant *)

Lemma inv_unmark_some P X Y t : inv P (fun i => X i ∨ Y i) t ->
  (∀ p h, has_hunk (t_file_states t) p h -> ¬ Y (h_id h)) -> inv P X t.
Proof. intros [] Hy. constructor; try done. intros k p h Hh Hs Hx. apply good_complete0 with p; [done..|].
  intros [?|?]; [done|by eapply Hy].
Qed.

Lemma inv_done P X t : inv P X t -> (∀ p, ¬ P p) -> inv none X t.
Proof. intros Hinv HP. eapply inv_weaken; [exact Hinv|intros p Hp; by destruct (HP p)|done]. Qed.

Lemma inv_clear P X t p b c a f :
  inv none X t -> file_ok (mkFile b c [] a f) ∨ P p -> inv P X (update_file p (mkFile b c [] a f) t).
Proof. intros Hinv Hok. eapply inv_shrink; [exact Hinv|apply sublist_nil_l|done|done]. Qed.

Lemma recompute_none X p c src t : inv (eq p) X t -> inv none X (recompute_hunks p c src t).
Proof. intros Hinv. eapply inv_done; [by apply recompute_inv|]. cbn. naive_solver. Qed.

Lemma inv_recompute X p c src t : inv none X t -> inv none X (recompute_hunks p c src t).
Proof. intros Hinv. apply recompute_none. by eapply inv_weaken. Qed.

Lemma add_file_inv X p b c a t : inv none X t -> inv (eq p) X (add_file p b c a t).
Proof. intros Hinv. by apply (inv_clear (eq p)); [|right]. Qed.

Lemma add_inert_inv X p b c a t : inert b c -> inv none X t -> inv none X (add_file p b c a t).
Proof. intros Hc Hinv. apply (inv_clear none); [done|]. left. by apply file_ok_inert. Qed.

(** Files whose hunks leave with an event. *)
Lemma supersede_core p hs (t : Tracker W) :
  same_core (supersede p hs t) (set_turn_index (index_remove hs (t_turn_index t)) t).
Proof.
  unfold supersede, index_remove, same_core. revert t. induction hs as [|h hs IH]; intros t; cbn; [done|].
  specialize (IH (emit (HunkRemoved p (h_id h) Superseded) (remove_from_turn_index (h_id h) (h_source h) t))).
  destruct IH as (H1' & H2' & H3'). cbn in *. rewrite <- H1', <- H2', <- H3'. clear.
  unfold remove_from_turn_index. by destruct (source_prompt_index (h_source h)).
Qed.

Lemma supersede_inv P X p hs t : inv P X t ->
  (∀ q h, has_hunk (t_file_states t) q h -> h_id h ∉ map h_id hs) -> inv P X (supersede p hs t).
Proof.
  intros Hinv Hgone. destruct (supersede_core p hs t) as (H1' & H2' & H3').
  apply (inv_same_core _ _ (set_turn_index (index_remove hs (t_turn_index t)) t)); [done|].
  apply inv_unmark_some with (fun i => i ∈ map h_id hs); [by apply inv_index_remove|done].
Qed.

(** The hunks of one file are not in another, nor among the others of their file. *)
Lemma gone_elsewhere P X t p s hs q h : inv P X t -> t_file_states t !! p = Some s -> hs ⊆ hunks s ->
  has_hunk (t_file_states t) q h -> q ≠ p -> h_id h ∉ map h_id hs.
Proof.
  intros [] Hs Hsub Hh Hne (h' & Hid & Hin)%list_elem_of_fmap. apply Hne.
  apply (good_apart0 q p h h'); [done| |done]. exists s. auto.
Qed.

Lemma has_hunk_insert fs p s q h : has_hunk (<[p := s]> fs) q h ->
  (q = p ∧ h ∈ hunks s) ∨ (q ≠ p ∧ has_hunk fs q h).
Proof.
  intros (s' & Hs' & Hh). destruct (decide (q = p)) as [->|Hne].
  - rewrite lookup_insert_eq in Hs'. simplify_eq. by left.
  - rewrite lookup_insert_ne in Hs' by done. right. split; [done|by exists s'].
Qed.

Lemma clear_supersede_inv X t p s b c a f : inv none X t -> t_file_states t !! p = Some s ->
  file_ok (mkFile b c [] a f) ->
  inv none X (supersede p (hunks s) (update_file p (mkFile b c [] a f) t)).
Proof.
  intros Hinv Hs Hok. apply supersede_inv; [by apply (inv_clear none); [|left]|].
  intros q h [[_ Hh%not_elem_of_nil]|[Hne Hh]]%has_hunk_insert; [done|]. by eapply gone_elsewhere.
Qed.

Lemma delete_supersede_inv X t p s : inv none X t -> t_file_states t !! p = Some s ->
  inv none X (supersede p (hunks s) (set_file_states (delete p (t_file_states t)) t)).
Proof.
  intros Hinv Hs. apply supersede_inv; [by apply inv_delete|].
  intros q h (s' & Hs' & Hh). cbn in Hs'. apply lookup_delete_Some in Hs' as [Hne Hs'].
  apply (gone_elsewhere none X t p s _ q); [done..|by exists s'|done].
Qed.

(** *** File changes *)

Lemma open_repo_core (t : Tracker W) : same_core t (snd (open_repo t)).
Proof.
  unfold open_repo. destruct (open_or_discover _ _ _) as [[[repo prefix] [d|]]|]; try done.
  by destruct (t_git_repo_state t).
Qed.

Lemma read_baseline_core (t : Tracker W) p : same_core t (snd (read_baseline t p)).
Proof.
  unfold read_baseline. destruct (is_not_a_repo t); [done|]. pose proof (open_repo_core t) as Hc.
  destruct (open_repo t) as [[[repo prefix]|] t']; done.
Qed.

Lemma read_baselines_core (t : Tracker W) ps : same_core t (snd (read_baselines_batch t ps)).
Proof.
  unfold read_baselines_batch. destruct (is_empty ps || is_not_a_repo t); [done|]. pose proof (open_repo_core t) as Hc.
  destruct (open_repo t) as [[[repo prefix]|] t']; done.
Qed.

Lemma read_sync_core (t : Tracker W) : same_core t (snd (read_repo_sync_state t)).
Proof.
  unfold read_repo_sync_state. destruct (is_not_a_repo t); [done|]. pose proof (open_repo_core t) as Hc.
  destruct (open_repo t) as [[[repo prefix]|] t']; [|done]. by destruct (git_head_and_index _ _).
Qed.

Lemma take_baseline_core pre p (t : Tracker W) : same_core t (snd (take_baseline pre p t)).
Proof. destruct pre; [done|]. apply read_baseline_core. Qed.

Lemma record_agent_write_inv X p content i prev t :
  inv none X t -> inv none X (record_agent_write p content i prev t).
Proof.
  intros Hinv. unfold record_agent_write. destruct (is_diffable _) eqn:Hdiff; cbn [negb].
  - destruct (t_file_states t !! p) as [s|] eqn:Hs.
    + apply recompute_none. eapply inv_shrink; [exact Hinv|by rewrite Hs|done|by right].
    + pose proof (read_baseline_core t p) as Hc. destruct (read_baseline t p) as [b t'].
      apply recompute_none, add_file_inv. by eapply inv_same_core.
  - assert (Hin : ∀ b, inert b (classify_string content)) by by intros b; apply classify_inert.
    destruct (t_file_states t !! p) as [s|] eqn:Hs; [apply (inv_clear none); [done|]; left; by apply file_ok_inert|].
    destruct prev as [prev|]; [by apply add_inert_inv|].
    pose proof (read_baseline_core t p) as Hc. destruct (read_baseline t p) as [b t'].
    apply add_inert_inv; [done|]. by eapply inv_same_core.
Qed.

Lemma process_file_change_inv X p pre t : inv none X t -> inv none X (process_file_change p pre t).
Proof.
  intros Hinv. unfold process_file_change.
  assert (Htake : inv none X (snd (take_baseline pre p t)))
    by (eapply inv_same_core; [apply take_baseline_core|done]).
  destruct (t_file_states t !! p) as [s|] eqn:Hs.
  - destruct (baseline_accepted s); [|by apply inv_recompute].
    destruct (take_baseline pre p t) as [head t'] eqn:Ht. cbn in Htake.
    destruct (content_matches_head _ _ _ _); [|by apply inv_recompute].
    destruct (t_file_states t' !! p); [|done]. apply (inv_clear none); [done|]. left. apply file_ok_same.
  - destruct (bool_decide _); [done|].
    destruct (take_baseline pre p t) as [b t'] eqn:Ht. cbn in Htake.
    destruct (is_diffable (read_file_bounded _ _)) eqn:Hd; cbn [negb]; (destruct (is_ignored _ _ _); [done|]).
    + by apply recompute_none, add_file_inv.
    + destruct (is_diffable b) eqn:Hb; [by apply recompute_none, add_file_inv|].
      apply add_inert_inv; [|done]. split; [done|by left].
Qed.

Lemma foldl_inv {A} (Q : Tracker W -> Prop) (f : Tracker W -> A -> Tracker W) l t :
  (∀ t x, Q t -> Q (f t x)) -> Q t -> Q (foldl f t l).
Proof. intros Hf. revert t. induction l as [|x l IH]; intros t Ht; cbn; auto. Qed.

Lemma handle_file_changes_batch_inv X ps t : inv none X t -> inv none X (handle_file_changes_batch ps t).
Proof.
  intros Hinv. unfold handle_file_changes_batch. destruct (is_empty ps); [done|].
  set (bp := List.filter _ ps). pose proof (read_baselines_core t bp) as Hc.
  assert (Hfold : ∀ qs (u : Tracker W) (m : gmap PathBuf FileContentState), inv none X u ->
    inv none X (fst (foldl (fun '(t, m) path => (process_file_change path (m !! path) t, delete path m)) (u, m) qs))).
  { induction qs as [|q qs IH]; intros u m Hu; [done|]. cbn [foldl]. by apply IH, process_file_change_inv. }
  destruct (is_empty bp); [by apply Hfold|]. destruct (read_baselines_batch t bp) as [m t'].
  apply Hfold. by eapply inv_same_core.
Qed.

Lemma handle_file_deleted_inv X p t : inv none X t -> inv none X (handle_file_deleted p t).
Proof.
  intros Hinv. unfold handle_file_deleted. destruct (negb _).
  - destruct (bool_decide _); [done|]. destruct (fs_exists _ _); [done|].
    pose proof (read_baseline_core t p) as Hc. destruct (read_baseline t p) as [b t'].
    assert (Hinv' : inv none X t') by by eapply inv_same_core.
    destruct b; [done|..]; by apply recompute_none, add_file_inv.
  - destruct (fs_exists _ _); [by apply process_file_change_inv|by apply inv_recompute].
Qed.

Lemma reset_baseline_inv X p t : inv none X t -> inv none X (reset_baseline p t).
Proof.
  intros Hinv. unfold reset_baseline. destruct (t_file_states t !! p) as [s|] eqn:Hs; [|done].
  apply clear_supersede_inv; [done..|apply file_ok_same].
Qed.

Lemma refresh_git_dirty_cache_inv X scope t : inv none X t -> inv none X (refresh_git_dirty_cache scope t).
Proof.
  intros Hinv. unfold refresh_git_dirty_cache. destruct (is_not_a_repo t); [done|].
  pose proof (open_repo_core t) as Hc. destruct (open_repo t) as [opened t'].
  assert (Hinv' : inv none X t') by by eapply inv_same_core.
  destruct (bool_decide _); [|done].
  apply foldl_inv; [|done]. intros u rel Hu. by apply process_file_change_inv.
Qed.

Lemma clean_ok (t : Tracker W) p b c : is_clean t p b c = true -> file_ok (mkFile b c [] true false).
Proof. destruct b, c; cbn; try done; intros Hc; first [by right|left; split; [done|right; by split_and!]]. Qed.

Lemma refresh_file_inv X bs cs t p : inv none X t -> inv none X (refresh_file bs cs t p).
Proof.
  intros Hinv. unfold refresh_file. destruct (t_file_states t !! p) as [s|] eqn:Hs; [|done].
  set (b := default _ (bs !! p)). set (c := default _ (cs !! p)).
  set (u := update_file p (mkFile b c (hunks s) (is_agent_file s) false) t).
  assert (Hu : inv (eq p) X u).
  { eapply inv_shrink; [exact Hinv|by rewrite Hs|done|by right]. }
  destruct (is_clean _ _ _ _) eqn:Hclean; cbn [andb]; [destruct (is_agent_file s) eqn:Ha; cbn [negb]|].
  - assert (Heq : update_file p (mkFile b c [] true false) u
                  = update_file p (mkFile b c [] true false) t).
    { unfold u, update_file, set_file_states. cbn. by rewrite insert_insert_eq. }
    rewrite Heq. apply clear_supersede_inv; [done..|]. by apply clean_ok with t p.
  - assert (Heq : set_file_states (delete p (t_file_states u)) u = set_file_states (delete p (t_file_states t)) t).
    { unfold u, update_file, set_file_states. cbn. by rewrite delete_insert_eq. }
    rewrite Heq. by apply delete_supersede_inv.
  - by apply recompute_none.
Qed.

Lemma refresh_all_baselines_except_inv X skip t : inv none X t -> inv none X (refresh_all_baselines_except skip t).
Proof.
  intros Hinv. unfold refresh_all_baselines_except. destruct (_ && _); [done|].
  pose proof (read_sync_core t) as Hc. destruct (read_repo_sync_state t) as [sync t'].
  assert (Hinv' : inv none X t') by by eapply inv_same_core.
  destruct (from_option _ _ sync); [done|].
  set (u := from_option _ t' sync).
  assert (Hu : inv none X u) by by destruct sync.
  set (scope := match t_mode u with AgentOnly => _ | AllDirty => _ end).
  set (v := match scope with Some [] => _ | _ => _ end).
  assert (Hv : inv none X v).
  { unfold v. destruct scope as [[|]|]; [done|by apply refresh_git_dirty_cache_inv..]. }
  set (paths := List.filter _ _). pose proof (read_baselines_core v paths) as Hcv.
  destruct (is_empty paths); [by apply foldl_inv; [intros; apply refresh_file_inv|]|].
  destruct (read_baselines_batch v paths) as [m w]. apply foldl_inv; [intros; by apply refresh_file_inv|].
  by eapply inv_same_core.
Qed.

Lemma untrack_inv X t p : inv none X t -> inv none X (untrack t p).
Proof.
  intros Hinv. unfold untrack. destruct (t_file_states t !! p) as [s|] eqn:Hs; [|done].
  by apply delete_supersede_inv.
Qed.

Lemma set_tracking_mode_inv X mode t : inv none X t -> inv none X (set_tracking_mode mode t).
Proof.
  intros Hinv. unfold set_tracking_mode. destruct (t_mode t), mode; try done.
  - by apply refresh_git_dirty_cache_inv.
  - apply foldl_inv; [|done]. intros. by apply untrack_inv.
Qed.

(** *** Accepting and rejecting *)

Definition io_failed {A} (r : result A HunkActionError) : bool :=
  match r with
  | Ok _ | Err (HunkNotFound _) => false
  | Err _ => true
  end.

(** After a failed write any hunk may be missing from the index. *)
Definition after {A} (X : HunkId -> Prop) (r : result A HunkActionError) (i : HunkId) : Prop :=
  X i ∨ io_failed r = true.

Lemma without_ids_elem ids hs h : h ∈ without_ids ids hs <-> h ∈ hs ∧ h_id h ∉ ids.
Proof.
  assert (Hx : existsb (str_eqb (h_id h)) ids = true <-> h_id h ∈ ids).
  { rewrite existsb_exists. setoid_rewrite str_eqb_eq. setoid_rewrite <- list_elem_of_In. naive_solver. }
  rewrite <- Hx. unfold without_ids. rewrite !list_elem_of_In, filter_In.
  destruct (existsb _ _); cbn; naive_solver.
Qed.

Lemma without_ids_sublist ids hs : sublist (without_ids ids hs) hs.
Proof.
  unfold without_ids. induction hs as [|h hs IH]; cbn; [done|]. case_match; by constructor.
Qed.

(** The single actions are batches of one. *)
Lemma accept_hunk_batch p h (t : Tracker W) : accept_hunk p h t = accept_hunks_batch p [h] t.
Proof. unfold accept_hunk, accept_hunks_batch. destruct (t_file_states t !! p) as [s|]; [|done]. by destruct (baseline s). Qed.

Lemma reject_hunk_batch p h (t : Tracker W) : reject_hunk p h t = reject_hunks_batch p [h] t.
Proof.
  unfold reject_hunk, reject_hunks_batch. destruct (t_file_states t !! p) as [s|]; [|done].
  by destruct (current_content s), (baseline s).
Qed.

Lemma count_core a hs (t : Tracker W) :
  same_core (set_turn_index (index_remove hs (t_turn_index t)) t) (foldl (fun t h => count_action a h t) t hs)
  ∧ t_world (foldl (fun t h => count_action a h t) t hs) = t_world t
  ∧ t_diffs (foldl (fun t h => count_action a h t) t hs) = t_diffs t.
Proof.
  unfold same_core, index_remove. revert t. induction hs as [|h hs IH]; intros t; cbn; [done|].
  destruct (IH (count_action a h t)) as ((Hf & Hi & Hm) & Hw & Hd). cbn in *. rewrite Hf, Hi, Hm, Hw, Hd. clear.
  unfold count_action, update_session_stats, remove_from_turn_index.
  by destruct (source_prompt_index (h_source h)).
Qed.

(** A file with hunks whose contents are not both texts has a single hunk. *)
Lemma one_side_missing s : file_ok s -> baseline s = Missing ∨ current_content s = Missing -> length (hunks s) ≤ 1.
Proof.
  intros [[-> _]|Hs] Hm; [cbn; lia|]. rewrite <- (length_map shape), Hs. unfold diff_shape.
  destruct Hm as [->| ->].
  - destruct (current_content s); cbn; try lia. case_match; cbn; lia.
  - destruct (baseline s); cbn; try lia. case_match; cbn; lia.
Qed.

Lemma hunks_diffable s : file_ok s -> hunks s ≠ [] ->
  match baseline s, current_content s with
  | Full _, Full _ | Full _, Missing | Missing, Full _ => True
  | _, _ => False
  end.
Proof.
  intros [[? _]|Hs] Hne; [done|]. unfold diff_shape in Hs.
  destruct (baseline s), (current_content s); try done; by destruct (hunks s).
Qed.

Lemma without_single hs l : length l ≤ 1 -> hs ≠ [] -> hs ⊆ l -> without_ids (map h_id hs) l = [].
Proof.
  intros Hlen Hne Hsub. destruct hs as [|h hs]; [done|].
  assert (Hh : h ∈ l) by (apply Hsub, list_elem_of_here).
  destruct l as [|x [|]]; cbn in Hlen; [done| |lia]. apply list_elem_of_singleton in Hh as ->.
  destruct (without_ids _ _) as [|y ys] eqn:He; [done|].
  assert (Hy : y ∈ without_ids (map h_id (x :: hs)) [x]) by (rewrite He; apply list_elem_of_here).
  apply without_ids_elem in Hy as [->%list_elem_of_singleton Hy]. destruct Hy. apply list_elem_of_here.
Qed.

Lemma file_ok_single c hs l a f : length l ≤ 1 -> hs ≠ [] -> hs ⊆ l ->
  file_ok (mkFile c c (without_ids (map h_id hs) l) a f).
Proof. intros. rewrite without_single by done. apply file_ok_same. Qed.

(** Removing the hunks acted on from their file takes the marks away. *)
Lemma inv_kept P' X t p s hs b c a f :
  inv none (fun i => X i ∨ i ∈ map h_id hs) t -> t_file_states t !! p = Some s -> hs ⊆ hunks s ->
  let s' := mkFile b c (without_ids (map h_id hs) (hunks s)) a f in
  (file_ok s' ∨ P' p) -> inv P' X (update_file p s' t).
Proof.
  intros Hinv Hs Hsub s' Hok. apply inv_unmark_some with (fun i => i ∈ map h_id hs).
  - eapply inv_shrink; [exact Hinv| |done|exact Hok]. rewrite Hs. apply without_ids_sublist.
  - intros q h [[-> Hh]|[Hne Hh]]%has_hunk_insert; [by apply without_ids_elem in Hh as [_ Hh]|].
    by eapply gone_elsewhere.
Qed.

Lemma recompute_other p c src (t : Tracker W) q : q ≠ p -> t_file_states (recompute_hunks p c src t) !! q = t_file_states t !! q.
Proof.
  intros Hne. destruct (recompute_core p c src t) as [(Hf & _ & _) _]. rewrite <- Hf.
  destruct (t_file_states t !! p) as [s|]; [|done]. cbv zeta. destruct (file_diff _ _ _ _ _ _) as [[raw m] d].
  cbn. by rewrite lookup_insert_ne.
Qed.

(** The file is left as [rejected_state] has it, but perhaps for a recomputation. *)
Lemma rejected_state_inv P' X p hs t s c :
  inv none (fun i => X i ∨ i ∈ map h_id hs) t -> t_file_states t !! p = Some s -> hs ⊆ hunks s ->
  (file_ok (mkFile (baseline s) c (without_ids (map h_id hs) (hunks s)) (is_agent_file s) (baseline_accepted s))
   ∨ P' p) ->
  inv P' X (rejected_state p c (map h_id hs) t)
  ∧ ∀ q, q ≠ p -> t_file_states (rejected_state p c (map h_id hs) t) !! q = t_file_states t !! q.
Proof.
  intros Hinv Hs Hsub Hok. unfold rejected_state. rewrite Hs.
  split; [by eapply inv_kept|]. intros q Hq. cbn. by rewrite lookup_insert_ne.
Qed.

Lemma inv_after {A} P X (r : result A HunkActionError) t : inv P X t -> inv P (after X r) t.
Proof. intros Hinv. eapply inv_weaken; [exact Hinv|done|]. intros i Hi. by left. Qed.

(** The outcome of an action on the file [p]. *)
Definition acted (X : HunkId -> Prop) (p : PathBuf) (t : Tracker W) (o : result unit HunkActionError * Tracker W) : Prop :=
  inv none (after X (fst o)) (snd o) ∧ (io_failed (fst o) = true ∨ fst o = Ok tt)
  ∧ ∀ q, q ≠ p -> t_file_states (snd o) !! q = t_file_states t !! q.

Lemma acted_io X p hs t (m : eff (Tracker W) HunkActionError unit) (f : Tracker W -> Tracker W) :
  inv none (fun i => X i ∨ i ∈ map h_id hs) t ->
  match m t with
  | (Ok _, u) => same_core t u
  | (Err e, u) => u = t ∧ io_failed (A := unit) (Err e) = true
  end ->
  (∀ u, inv none (fun i => X i ∨ i ∈ map h_id hs) u -> t_file_states u = t_file_states t ->
    inv none X (f u) ∧ ∀ q, q ≠ p -> t_file_states (f u) !! q = t_file_states u !! q) ->
  acted X p t ((m ;; run_unit f) t).
Proof.
  intros Hinv Hm Hf. unfold acted, mbind, eff_bind, run_unit, eff_modify. destruct (m t) as [[[]|e] u].
  - pose proof Hm as (Hfs & _). destruct (Hf u) as [Hu Hq]; [by eapply inv_same_core|done|].
    split; [exact (inv_after none X (Ok tt) (f u) Hu)|]. split; [by right|]. intros q Hne. cbn. by rewrite Hq, Hfs.
  - destruct Hm as [-> He]. split; [|split; [by left|done]].
    eapply inv_weaken; [exact Hinv|done|]. intros i _. by right.
Qed.

Lemma accept_batch_inv X p hs t s :
  inv none (fun i => X i ∨ i ∈ map h_id hs) t -> t_file_states t !! p = Some s -> hs ⊆ hunks s -> hs ≠ [] ->
  acted X p t (accept_hunks_batch p hs t).
Proof.
  intros Hinv Hs Hsub Hne. unfold accept_hunks_batch. rewrite (proj2 (is_empty_false hs)), Hs by done.
  assert (Hok : file_ok s) by (destruct Hinv; eapply good_files0; [done|by intros []]).
  destruct (baseline s) eqn:Hb.
  1: { split; [|split; [by right|intros q Hq; cbn; by rewrite lookup_insert_ne]].
       apply inv_after. eapply inv_kept; [exact Hinv|done..|]. left. apply file_ok_single; [|done..].
       apply one_side_missing; [done|by left]. }
  all: split; [|split; [by right|intros q Hq; cbn [snd]; unfold recompute_remaining; rewrite recompute_other by done;
                                  cbn; by rewrite lookup_insert_ne]].
  all: apply inv_after, recompute_none; eapply inv_kept; [exact Hinv|done..|by right].
Qed.

Lemma write_file_io p text (t : Tracker W) :
  match write_file p text t with
  | (Ok _, u) => same_core t u
  | (Err e, u) => u = t ∧ io_failed (A := unit) (Err e) = true
  end.
Proof. unfold write_file. by destruct (fs_write _ _ _). Qed.

Lemma remove_file_io p (t : Tracker W) :
  match remove_file p t with
  | (Ok _, u) => same_core t u
  | (Err e, u) => u = t ∧ io_failed (A := unit) (Err e) = true
  end.
Proof. unfold remove_file. by destruct (fs_remove_file _ _). Qed.

Lemma reject_batch_inv X p hs t s :
  inv none (fun i => X i ∨ i ∈ map h_id hs) t -> t_file_states t !! p = Some s -> hs ⊆ hunks s -> hs ≠ [] ->
  acted X p t (reject_hunks_batch p hs t).
Proof.
  intros Hinv Hs Hsub Hne. unfold reject_hunks_batch. rewrite (proj2 (is_empty_false hs)), Hs by done.
  assert (Hok : file_ok s) by (destruct Hinv; eapply good_files0; [done|by intros []]).
  assert (Hhs : hunks s ≠ []).
  { destruct hs as [|h hs]; [done|]. intros He. specialize (Hsub h (list_elem_of_here _ _)).
    rewrite He in Hsub. by apply not_elem_of_nil in Hsub. }
  assert (Hone : ∀ c u, (baseline s = Missing ∨ current_content s = Missing) -> baseline s = c ->
    inv none (fun i => X i ∨ i ∈ map h_id hs) u -> t_file_states u = t_file_states t ->
    inv none X (rejected_state p c (map h_id hs) u)
    ∧ ∀ q, q ≠ p -> t_file_states (rejected_state p c (map h_id hs) u) !! q = t_file_states u !! q).
  { intros c u Hm <- Hu Hf. apply rejected_state_inv with s; [done|by rewrite Hf|done|].
    left. apply file_ok_single; [|done..]. by apply one_side_missing. }
  pose proof (hunks_diffable s Hok Hhs) as Hd.
  destruct (current_content s) eqn:Hc, (baseline s) eqn:Hb; try done; eapply acted_io; try exact Hinv.
  - apply write_file_io.
  - intros u Hu Hf. by apply Hone; [right|..].
  - apply remove_file_io.
  - intros u Hu Hf. by apply Hone; [left|..].
  - apply write_file_io.
  - intros u Hu Hf.
    destruct (rejected_state_inv (eq p) X p hs u s (Full (reject_patches text hs))) as [Hr Hq];
      [done|by rewrite Hf|done|by right|].
    split; [by apply recompute_none|]. intros q Hne'. unfold recompute_remaining.
    rewrite recompute_other by done. by apply Hq.
Qed.

Definition pending (l : list (PathBuf * list Hunk)) (t : Tracker W) : Prop :=
  NoDup (map fst l)
  ∧ ∀ p hs, (p, hs) ∈ l -> hs ≠ [] ∧ ∃ s, t_file_states t !! p = Some s ∧ hs ⊆ hunks s.

Definition act_on (action : HunkAction) (p : PathBuf) (hs : list Hunk) : eff (Tracker W) HunkActionError unit :=
  match action with
  | Accept => accept_hunks_batch p hs
  | Reject => reject_hunks_batch p hs
  end.

Definition count_all (action : HunkAction) (hs : list Hunk) (t : Tracker W) : Tracker W :=
  foldl (fun t h => count_action action h t) t hs.

Lemma act_on_inv X action p hs t s :
  inv none X t -> t_file_states t !! p = Some s -> hs ⊆ hunks s -> hs ≠ [] ->
  acted X p t (act_on action p hs (count_all action hs t)).
Proof.
  intros Hinv Hs Hsub Hne. unfold count_all. set (u := foldl _ t hs).
  destruct (count_core action hs t) as (Hcore & _). fold u in Hcore.
  assert (Hu : inv none (fun i => X i ∨ i ∈ map h_id hs) u)
    by (eapply inv_same_core; [exact Hcore|by apply inv_index_remove]).
  assert (Hf : t_file_states u = t_file_states t) by apply Hcore.
  assert (Hact : acted X p u (act_on action p hs u))
    by (destruct action; [apply accept_batch_inv with s|apply reject_batch_inv with s]; rewrite ?Hf; done).
  destruct Hact as (? & ? & Hq). split; [done|split; [done|]]. intros q Hqp. by rewrite Hq, Hf.
Qed.

Lemma pending_rest p hs l t u : pending ((p, hs) :: l) t ->
  (∀ q, q ≠ p -> t_file_states u !! q = t_file_states t !! q) -> pending l u.
Proof.
  intros [[Hp Hnd]%NoDup_cons Hl] Hq. split; [done|]. intros q hs' Hin.
  destruct (Hl q hs') as (Hne & s & Hs & Hsub); [by right|]. split; [done|]. exists s. split; [|done].
  rewrite Hq; [done|]. intros ->. apply Hp. by apply (list_elem_of_fmap_2 fst) in Hin.
Qed.

Lemma apply_action_batch_cons p hs l action (t : Tracker W) :
  apply_action_batch ((p, hs) :: l) action t
  = match act_on action p hs (count_all action hs t) with
    | (Ok _, u) =>
        let '(r, v) := apply_action_batch l action u in
        ((match r with Ok ids => Ok (map h_id hs ++ ids) | Err e => Err e end), v)
    | (Err e, u) => (Err e, u)
    end.
Proof.
  cbn [apply_action_batch]. unfold mbind, eff_bind, run_unit, eff_modify, act_on, count_all.
  destruct action; [destruct (accept_hunks_batch p hs _) as [[[]|e] u]|destruct (reject_hunks_batch p hs _) as [[[]|e] u]];
    try done; by destruct (apply_action_batch l _ u) as [[|] v].
Qed.

(** A batch keeps the invariant; it names the hunks of the files acted on, or
    stops at a failed write. *)
Lemma apply_action_batch_inv X l action t : inv none X t -> pending l t ->
  let '(r, u) := apply_action_batch l action t in
  inv none (after X r) u
  ∧ match r with Ok ids => ids = concat (map (fun e => map h_id (snd e)) l) | Err _ => io_failed r = true end.
Proof.
  revert t. induction l as [|[p hs] l IH]; intros t Hinv Hpend; [split; [by apply inv_after|done]|].
  rewrite apply_action_batch_cons. destruct Hpend as [Hnd Hl].
  destruct (Hl p hs) as (Hne & s & Hs & Hsub); [by left|].
  destruct (act_on_inv X action p hs t s) as (Hu & Hr & Hq); [done..|].
  destruct (act_on action p hs _) as [[x|e] u]; cbn [fst snd] in *.
  - assert (Hu' : inv none X u) by (eapply inv_weaken; [exact Hu|done|by intros i [|]]).
    specialize (IH u Hu' (pending_rest p hs l t u (conj Hnd Hl) Hq)).
    destruct (apply_action_batch l action u) as [[ids|e] v]; destruct IH as [Hv Hids]; [|done].
    split; [done|]. cbn. by rewrite Hids.
  - split; [done|]. by destruct Hr.
Qed.

Lemma hash_iter_elem {K} `{Countable K} {A} (m : gmap K A) k x : (k, x) ∈ hash_iter m <-> m !! k = Some x.
Proof. rewrite hash_iter_perm. apply elem_of_map_to_list. Qed.

Lemma hash_iter_keys {K} `{Countable K} {A} (m : gmap K A) : NoDup (map fst (hash_iter m)).
Proof. rewrite hash_iter_perm. apply NoDup_fst_map_to_list. Qed.

Lemma collect_map_in {K} `{Countable K} {A} (l : list (K * A)) k x : collect_map l !! k = Some x -> (k, x) ∈ l.
Proof.
  unfold collect_map. assert (Hgen : ∀ m : gmap K A, foldl (fun m e => <[fst e := snd e]> m) m l !! k = Some x ->
    (k, x) ∈ l ∨ m !! k = Some x).
  { induction l as [|[k' x'] l IH]; intros m Hx; [by right|]. cbn in Hx. destruct (IH _ Hx) as [|Hm]; [by left; right|].
    destruct (decide (k' = k)) as [->|Hne].
    - rewrite lookup_insert_eq in Hm. simplify_eq. left. by left.
    - rewrite lookup_insert_ne in Hm by done. by right. }
  intros Hx. destruct (Hgen ∅ Hx) as [|Hm]; [done|]. by rewrite lookup_empty in Hm.
Qed.

Lemma filter_in {A} (f : A -> bool) l x : x ∈ List.filter f l <-> x ∈ l ∧ f x = true.
Proof. by rewrite !list_elem_of_In, filter_In. Qed.

Lemma filter_is_sublist {A} (f : A -> bool) l : sublist (List.filter f l) l.
Proof. induction l as [|x l IH]; cbn; [done|]. case_match; by constructor. Qed.

Definition outcome {A} (X : HunkId -> Prop) (o : result A HunkActionError * Tracker W) : Prop :=
  inv none (after X (fst o)) (snd o).

Lemma apply_hunk_action_inv X id action t : inv none X t -> outcome X (apply_hunk_action id action t).
Proof.
  intros Hinv. unfold apply_hunk_action, outcome. destruct (head _) as [[p h]|] eqn:Hhead; [|by apply inv_after].
  destruct (omap _ _) as [|e l] eqn:Hl; [done|]. cbn in Hhead. simplify_eq.
  assert (Hin : (p, h) ∈ (p, h) :: l) by by left. rewrite <- Hl in Hin.
  apply list_elem_of_omap in Hin as ([q s] & Hq%hash_iter_elem & Hfind).
  destruct (List.find _ (hunks s)) as [h'|] eqn:Hf; [|done]. cbn in Hfind. simplify_eq.
  apply find_some in Hf as [Hf _]. rewrite <- list_elem_of_In in Hf.
  destruct (act_on_inv X action p [h] t s) as (Hu & _); [done..|by intros ? ->%list_elem_of_singleton|done|].
  unfold act_on, count_all in Hu. cbn [foldl] in Hu. by destruct action; rewrite ?accept_hunk_batch, ?reject_hunk_batch.
Qed.

Lemma apply_file_action_inv X p action t : inv none X t -> outcome X (apply_file_action p action t).
Proof.
  intros Hinv. unfold apply_file_action, outcome. destruct (t_file_states t !! p) as [s|] eqn:Hs; [|by apply inv_after].
  destruct (is_empty (hunks s)) eqn:He; [by apply inv_after|].
  pose proof (apply_action_batch_inv X [(p, hunks s)] action t Hinv) as Hb.
  destruct (apply_action_batch _ action t) as [r u]. apply Hb. split; [apply NoDup_singleton|].
  intros q hs [= -> ->]%list_elem_of_singleton. split; [by intros Hn; rewrite Hn in He|by exists s].
Qed.

Lemma apply_all_action_inv X action t : inv none X t -> outcome X (apply_all_action action t).
Proof.
  intros Hinv. unfold apply_all_action, outcome. set (l := map _ _).
  destruct (is_empty l); [by apply inv_after|].
  pose proof (apply_action_batch_inv X l action t Hinv) as Hb.
  destruct (apply_action_batch _ action t) as [r u]. apply Hb. split.
  - unfold l. rewrite map_map. eapply sublist_NoDup; [apply (hash_iter_keys (t_file_states t))|].
    apply (sublist_map fst), filter_is_sublist.
  - intros p hs ([q s] & [= -> ->] & [Hq%hash_iter_elem He]%filter_in)%list_elem_of_fmap.
    split; [by intros Hn; cbn in He; rewrite Hn in He|by exists s].
Qed.

Lemma apply_turn_action_inv X k action t : inv none X t -> outcome X (apply_turn_action k action t).
Proof.
  intros Hinv. unfold apply_turn_action, outcome. set (m := collect_map _).
  case_bool_decide; [by apply inv_after|].
  pose proof (apply_action_batch_inv X (hash_iter m) action t Hinv) as Hb.
  destruct (apply_action_batch _ action t) as [r u]. apply Hb. split; [apply hash_iter_keys|].
  intros p hs [([q s] & [= -> ->] & Hq%hash_iter_elem)%list_elem_of_fmap He]%hash_iter_elem%collect_map_in%filter_in.
  split; [by intros Hn; cbn in He; rewrite Hn in He|]. exists s. split; [done|]. by intros h [Hh _]%filter_in.
Qed.

(** *** Remounts and snapshots *)

(** No two tracked paths are rewritten to the same one. *)
Definition rekey_apart (new_cwd : PathBuf) (t : Tracker W) : Prop :=
  new_cwd = t_working_dir t
  ∨ ∀ p q s s', t_file_states t !! p = Some s -> t_file_states t !! q = Some s' ->
      rewrite_for (t_working_dir t) new_cwd p = rewrite_for (t_working_dir t) new_cwd q -> p = q.

Lemma path_eqb_eq a b : path_eqb a b = true <-> a = b.
Proof.
  revert b. induction a as [|x a IH]; intros [|y b]; cbn; try done.
  rewrite andb_true_iff, str_eqb_eq, IH. naive_solver.
Qed.

Section rekey.
Context (old new_cwd : PathBuf) (fs : gmap PathBuf FileHunkState).
Hypothesis Happart : ∀ p q s s', fs !! p = Some s -> fs !! q = Some s' ->
  rewrite_for old new_cwd p = rewrite_for old new_cwd q -> p = q.

Definition rekeyed (q : PathBuf) (s' : FileHunkState) : Prop :=
  ∃ p s, fs !! p = Some s ∧ q = rewrite_for old new_cwd p ∧ s' = rekey_state s q.

Lemma merge_entries_rekeyed l next :
  NoDup (map fst l) -> (∀ p s, (p, s) ∈ l -> fs !! p = Some s) ->
  (∀ q s', next !! q = Some s' ->
    ∃ p s, fs !! p = Some s ∧ q = rewrite_for old new_cwd p ∧ s' = rekey_state s q ∧ p ∉ map fst l) ->
  ∀ q s', foldl (merge_entry old new_cwd) next l !! q = Some s' -> rekeyed q s'.
Proof.
  revert next. induction l as [|[p s] l IH]; intros next Hnd Hl Hnext q s'; cbn [foldl].
  { intros (p & s & ? & ? & ? & _)%Hnext. by exists p, s. }
  cbn [map fst] in Hnd, Hnext. apply NoDup_cons in Hnd as [Hp Hnd].
  assert (Hps : fs !! p = Some s) by (apply Hl; by left).
  apply IH; [done|by intros ? ? ?; apply Hl; right|]. clear q s'. intros q s' Hq.
  unfold merge_entry in Hq. cbn [fst snd] in Hq.
  destruct (next !! rewrite_for old new_cwd p) as [dest|] eqn:Hd.
  - exfalso. destruct (Hnext _ _ Hd) as (p' & s0 & Hp' & Heq & _ & Hno).
    apply Hno. rewrite (Happart p' p s0 s) by done. by left.
  - destruct (decide (q = rewrite_for old new_cwd p)) as [->|Hne].
    + rewrite lookup_insert_eq in Hq. simplify_eq. by exists p, s.
    + rewrite lookup_insert_ne in Hq by done. destruct (Hnext q s' Hq) as (p' & s0 & ? & ? & ? & Hno).
      exists p', s0. rewrite elem_of_cons in Hno. tauto.
Qed.
End rekey.

Lemma rekey_paths_rekeyed new_cwd (t : Tracker W) q s' : rekey_apart new_cwd t -> new_cwd ≠ t_working_dir t ->
  t_file_states (rekey_paths_for_working_dir new_cwd t) !! q = Some s' ->
  rekeyed (t_working_dir t) new_cwd (t_file_states t) q s'.
Proof.
  intros [?|Hap] Hne; [done|]. unfold rekey_paths_for_working_dir.
  destruct (path_eqb _ _) eqn:Heq; [by apply path_eqb_eq in Heq|]. cbn [t_file_states set_git_staged_cache
    set_git_dirty_cache set_file_states].
  apply merge_entries_rekeyed; [done|..].
  - eapply sublist_NoDup; [apply (hash_iter_keys (t_file_states t))|]. apply sublist_map, filter_is_sublist.
  - by intros p s [Hin%hash_iter_elem _]%filter_in.
  - intros q' s ([p s0] & [= -> ->] & [Hin%hash_iter_elem Hu]%filter_in)%collect_map_in%list_elem_of_fmap.
    exists p, s0. repeat split; [done|].
    intros ([p' s1] & Hpp & [Hin' Hu']%filter_in)%list_elem_of_fmap. cbn in *. subst p'. by rewrite Hu in Hu'.
Qed.

Lemma rekey_shape s q : map shape (hunks (rekey_state s q)) = map shape (hunks s).
Proof. cbn. rewrite map_map. by apply map_ext. Qed.

Lemma rekey_ids s q : map h_id (hunks (rekey_state s q)) = map h_id (hunks s).
Proof. cbn. rewrite map_map. by apply map_ext. Qed.

Lemma rekey_inv X new_cwd t : rekey_apart new_cwd t -> inv none X t ->
  inv none X (rekey_paths_for_working_dir new_cwd t).
Proof.
  intros Hap []. destruct (decide (new_cwd = t_working_dir t)) as [->|Hne].
  { unfold rekey_paths_for_working_dir. by rewrite (proj2 (path_eqb_eq _ _)) by done. }
  pose proof (λ q s', rekey_paths_rekeyed new_cwd t q s' Hap Hne) as Hre.
  assert (Hcore : t_turn_index (rekey_paths_for_working_dir new_cwd t) = t_turn_index t
                  ∧ t_minted (rekey_paths_for_working_dir new_cwd t) = t_minted t)
    by (unfold rekey_paths_for_working_dir; by destruct (path_eqb _ _)).
  unfold inv. destruct Hcore as [-> ->]. set (fs := t_file_states (rekey_paths_for_working_dir _ _)) in *.
  assert (Hback : ∀ q h, has_hunk fs q h -> ∃ p h0, has_hunk (t_file_states t) p h0
            ∧ q = rewrite_for (t_working_dir t) new_cwd p ∧ h = with_path h0 q).
  { intros q h (s' & (p & s & Hs & Hq & ->)%Hre & Hh). cbn in Hh.
    apply list_elem_of_fmap in Hh as (h0 & -> & Hh). exists p, h0. split; [by exists s|done]. }
  constructor; [..|done|intros k q h (p & h0 & Hh & -> & ->)%Hback|intros k q h (p & h0 & Hh & -> & ->)%Hback|done]; cbn; eauto.
  - intros q s' (p & s & Hs & _ & ->)%Hre _. destruct (good_files0 p s Hs) as [[Hn Hw]|Hn]; [by intros []|left; unfold silent; cbn; by rewrite Hn|].
    right. by rewrite rekey_shape.
  - by intros q h (p & h0 & Hh & _ & ->)%Hback.
  - intros q h (p & h0 & Hh & _ & ->)%Hback. cbn. by eapply good_fresh0.
  - intros q s' (p & s & Hs & _ & ->)%Hre. rewrite rekey_ids. by eapply good_nodup0.
  - intros q q' h h' (p & h0 & Hh & -> & ->)%Hback (p' & h0' & Hh' & -> & ->)%Hback Hid. f_equal. eauto.
Qed.

(** *** Commands *)

Definition reply_failed (r : TrackerReply) : bool :=
  match r with
  | ReplyAction r => io_failed r
  | ReplyIds r => io_failed r
  | _ => false
  end.

Definition harmless (X : HunkId -> Prop) (cmd : HunkTrackerCommand) (t : Tracker W) : Prop :=
  match cmd with
  | RestoreState sn => inv none X (restore_tracker sn t)
  | SetWorkingDir new_cwd => rekey_apart new_cwd t
  | _ => True
  end.

Lemma after_reply {A} X (r : result A HunkActionError) t (reply : result A HunkActionError -> TrackerReply) :
  reply_failed (reply r) = io_failed r -> outcome X (r, t) ->
  inv none (fun i => X i ∨ reply_failed (reply r) = true) t.
Proof. by intros ->. Qed.

Lemma handle_command_inv X cmd t : inv none X t -> harmless X cmd t ->
  let '(r, u) := tracker_handle_command cmd t in inv none (fun i => X i ∨ reply_failed r = true) u.
Proof.
  intros Hinv Hok.
  assert (Hplain : ∀ r (u : Tracker W), inv none X u -> inv none (fun i => X i ∨ reply_failed r = true) u)
    by (intros r u Hu; eapply inv_weaken; [exact Hu|done|by left]).
  destruct cmd; cbn [tracker_handle_command]; try (by apply Hplain).
  - by apply Hplain, record_agent_write_inv.
  - by apply Hplain, process_file_change_inv.
  - by apply Hplain, handle_file_deleted_inv.
  - by apply Hplain, refresh_git_dirty_cache_inv.
  - by apply Hplain, reset_baseline_inv.
  - by apply Hplain, set_tracking_mode_inv.
  - by apply Hplain, rekey_inv.
  - pose proof (apply_hunk_action_inv X hunk_id action t Hinv) as Ho. by destruct (apply_hunk_action _ _ _).
  - pose proof (apply_file_action_inv X path action t Hinv) as Ho. by destruct (apply_file_action _ _ _).
  - pose proof (apply_all_action_inv X action t Hinv) as Ho. by destruct (apply_all_action _ _).
  - pose proof (apply_turn_action_inv X prompt_index action t Hinv) as Ho. by destruct (apply_turn_action _ _ _).
  - by apply Hplain, refresh_all_baselines_except_inv.
Qed.

(** The file changes of a batch, without its other commands. *)
Definition batch_changes (b : CoalescedBatch) (t : Tracker W) : Tracker W :=
  let t := if refresh_dirty b && negb (refresh_all b) then refresh_git_dirty_cache None t else t in
  if refresh_all b then
    let '(t, done_paths) := foldl refresh_step (t, ∅) (hash_iter (file_actions b)) in
    refresh_all_baselines_except done_paths t
  else
    let '(t, changed_paths) := foldl change_step (t, []) (hash_iter (file_actions b)) in
    handle_file_changes_batch changed_paths t.

Lemma handle_coalesced_changes b (t : Tracker W) :
  handle_coalesced_batch b t = handle_all (other_commands b) (batch_changes b t).
Proof.
  unfold handle_coalesced_batch, batch_changes. destruct (refresh_all b); [|by destruct (foldl _ _ _)].
  by destruct (foldl refresh_step _ _).
Qed.

Lemma batch_changes_inv X b t : inv none X t -> inv none X (batch_changes b t).
Proof.
  intros Hinv. unfold batch_changes. set (t0 := if _ && _ then _ else t).
  assert (H0' : inv none X t0) by (unfold t0; destruct (_ && _); [by apply refresh_git_dirty_cache_inv|done]).
  clearbody t0. destruct (refresh_all b).
  - assert (Hfold : ∀ l s, inv none X (fst s) -> inv none X (fst (foldl refresh_step s l))).
    { induction l as [|[p a] l IH]; intros [u s] Hu; [done|]. apply IH. unfold refresh_step. cbn in Hu.
      destruct a, (has_file u p); cbn [fst]; by (apply Hu || apply process_file_change_inv || apply handle_file_deleted_inv). }
    specialize (Hfold (hash_iter (file_actions b)) (t0, ∅) H0').
    destruct (foldl refresh_step _ _) as [u s]. by apply refresh_all_baselines_except_inv.
  - assert (Hfold : ∀ l s, inv none X (fst s) -> inv none X (fst (foldl change_step s l))).
    { induction l as [|[p a] l IH]; intros [u s] Hu; [done|]. apply IH. unfold change_step. cbn in Hu |- *.
      destruct a; [done|by apply handle_file_deleted_inv|done]. }
    specialize (Hfold (hash_iter (file_actions b)) (t0, []) H0').
    destruct (foldl change_step _ _) as [u s]. by apply handle_file_changes_batch_inv.
Qed.

End since.

(** ** The states of a session *)

Definition saved (r : TrackerReply) : list HunkTrackerSnapshot :=
  match r with
  | ReplySnapshot sn => [sn]
  | _ => []
  end.

(** A snapshot is restored into the session it was taken in, and a remount keeps
    the tracked paths apart. *)
Definition allowed (sns : list HunkTrackerSnapshot) (cmd : HunkTrackerCommand) (t : Tracker W) : Prop :=
  match cmd with
  | RestoreState sn => sn ∈ sns
  | SetWorkingDir new_cwd => rekey_apart new_cwd t
  | _ => True
  end.

(** The states after commands, batches of file changes and changes of the world,
    with whether a file operation has failed and the snapshots taken. *)
Inductive reachable : bool -> list HunkTrackerSnapshot -> Tracker W -> Prop :=
  | reached_spawn working_dir mode w : reachable false [] (tracker_spawn working_dir mode w)
  | reached_world failed sns t w : reachable failed sns t -> reachable failed sns (set_world w t)
  | reached_command failed sns t cmd : reachable failed sns t -> allowed sns cmd t ->
      reachable (failed || reply_failed (fst (tracker_handle_command cmd t)))
        (saved (fst (tracker_handle_command cmd t)) ++ sns) (snd (tracker_handle_command cmd t))
  | reached_batch failed sns t b : reachable failed sns t -> other_commands b = [] ->
      reachable failed sns (snd (handle_coalesced_batch b t)).

Definition lax (failed : bool) (_ : HunkId) : Prop := failed = true.

Definition session_inv (failed : bool) (sns : list HunkTrackerSnapshot) (t : Tracker W) : Prop :=
  inv 0 none (lax failed) t ∧ ∀ sn, sn ∈ sns -> inv 0 none (lax failed) (restore_tracker sn t).

Lemma inv_rebase b b' P X t : inv b P X t -> b' ≤ t_minted t -> inv b' P X t.
Proof. intros [] Hb. by constructor. Qed.

Lemma restore_inv failed failed' sn t u :
  inv 0 none (lax failed) (restore_tracker sn t) -> t_minted t ≤ t_minted u -> (failed = true -> failed' = true) ->
  inv 0 none (lax failed') (restore_tracker sn u).
Proof.
  intros [] Hle Hf. constructor; cbn in *; eauto; [..|lia].
  - intros p h Hh. destruct (good_fresh0 p h Hh) as (k & Hk & Hid). exists k. split; [lia|done].
  - intros k id Hid. destruct (good_index0 k id Hid) as (j & Hj & ->). exists j. split; [lia|done].
  - intros k p h Hh Hs Hx. apply (good_complete0 k p h Hh Hs). intros Hl. by apply Hx, Hf.
Qed.

Lemma minted_grows (f : Tracker W -> Tracker W) X Y t :
  (∀ base, inv base none X t -> inv base none Y (f t)) -> inv 0 none X t -> t_minted t ≤ t_minted (f t).
Proof.
  intros Hf Hinv. apply (good_since _ _ _ _ _ _ (Hf (t_minted t) (inv_rebase 0 _ _ _ _ Hinv (le_n _)))).
Qed.

(** A snapshot puts back what was there. *)
Lemma restore_taken (t u : Tracker W) :
  t_file_states (restore_tracker (take_snapshot t) u) = t_file_states t
  ∧ t_turn_index (restore_tracker (take_snapshot t) u) = t_turn_index t
  ∧ t_session_stats (restore_tracker (take_snapshot t) u) = t_session_stats t.
Proof.
  split; [|done]. cbn. rewrite <- map_fmap_compose. rewrite <- (map_fmap_id (t_file_states t)) at 2.
  apply map_fmap_ext. by intros p [].
Qed.

Lemma session_inv_step failed failed' sns t (f : Tracker W -> Tracker W) :
  (∀ base, inv base none (lax failed) t -> inv base none (lax failed') (f t)) ->
  (failed = true -> failed' = true) -> session_inv failed sns t -> session_inv failed' sns (f t).
Proof.
  intros Hf Hle [Hinv Hsns]. split; [by apply Hf|]. intros sn Hsn.
  apply (restore_inv failed failed' sn t); [by apply Hsns| |done]. by eapply minted_grows.
Qed.

Lemma command_inv base failed sns cmd t : inv base none (lax failed) t -> allowed sns cmd t ->
  (∀ sn, sn ∈ sns -> inv base none (lax failed) (restore_tracker sn t)) ->
  inv base none (lax (failed || reply_failed (fst (tracker_handle_command cmd t)))) (snd (tracker_handle_command cmd t)).
Proof.
  intros Hinv Hok Hsns. pose proof (handle_command_inv base (lax failed) cmd t Hinv) as Hc.
  destruct (tracker_handle_command cmd t) as [r u]. cbn. eapply inv_weaken; [apply Hc|done|].
  - destruct cmd; try done. by apply Hsns.
  - intros i [->|Hr]; [done|]. unfold lax. rewrite Hr. apply orb_true_r.
Qed.

(** What [SnapshotState] saves is the state it leaves. *)
Lemma saved_taken cmd (t : Tracker W) sn : sn ∈ saved (fst (tracker_handle_command cmd t)) ->
  sn = take_snapshot t ∧ snd (tracker_handle_command cmd t) = t.
Proof.
  destruct cmd; cbn; try (by intros ?%not_elem_of_nil); try (by intros ->%list_elem_of_singleton);
    [destruct (apply_hunk_action _ _ _)|destruct (apply_file_action _ _ _)|destruct (apply_all_action _ _)
    |destruct (apply_turn_action _ _ _)]; by intros ?%not_elem_of_nil.
Qed.

Lemma spawn_inv working_dir mode w : inv 0 none (lax false) (tracker_spawn working_dir mode w).
Proof.
  assert (Hno : ∀ p h, ¬ has_hunk ∅ p h) by (intros p h (s & Hs & _); by rewrite lookup_empty in Hs).
  assert (Hnew : inv 0 none (lax false) (tracker_new working_dir mode w)).
  { constructor; cbn; try done; try (intros; exfalso; by eapply Hno);
      intros *; by rewrite ?lookup_empty. }
  unfold tracker_spawn. destruct mode; [done|]. by apply refresh_git_dirty_cache_inv.
Qed.

Lemma reachable_inv failed sns t : reachable failed sns t -> session_inv failed sns t.
Proof.
  induction 1 as [wd mode w|failed sns t w _ IH|failed sns t cmd _ IH Hok|failed sns t b _ IH Hb].
  - split; [apply spawn_inv|by intros sn ?%not_elem_of_nil].
  - by apply (session_inv_step failed failed sns t (set_world w)).
  - destruct IH as [Hinv Hsns].
    pose proof (command_inv 0 failed sns cmd t Hinv Hok Hsns) as Hu. split; [done|].
    intros sn [Hsn|Hsn]%elem_of_app.
    + apply saved_taken in Hsn as [-> Heq]. rewrite Heq in Hu |- *. unfold inv in *.
      by destruct (restore_taken t t) as (-> & -> & _).
    + apply (restore_inv failed _ sn t); [by apply Hsns| |by intros ->].
      eapply (minted_grows (fun t => snd (tracker_handle_command cmd t))); [|exact Hinv].
      intros base Hb. apply (command_inv base failed sns); [done..|].
      intros sn' Hsn'. apply (inv_rebase 0); [by apply Hsns|]. by destruct Hb.
  - rewrite handle_coalesced_changes, Hb. cbn.
    apply (session_inv_step failed failed sns t (batch_changes b)); [|done..].
    intros base. apply batch_changes_inv.
Qed.


End spec.
Arguments UuidLaws {_}.

(** ** A world to run in

    Files in memory, no repository, maps iterated in the order of [map_to_list]. *)
Definition Files : Type := gmap PathBuf str.

#[export] Instance demo_fs : FileSystem Files := {|
  fs_lstat w p := (fun text => (false, N.of_nat (length text))) <$> (w !! p);
  fs_read_file w p n :=
    (fun text => (firstn (N.to_nat n) text, Some (skipn (N.to_nat n) text))) <$> (w !! p);
  fs_exists w p := bool_decide (is_Some (w !! p));
  fs_is_dir _ _ := false;
  fs_canonicalize _ p := Some p;
  fs_write w p text := Some (<[p := text]> w);
  fs_remove_file w p := match w !! p with Some _ => Some (delete p w) | None => None end;
|}.

#[export] Instance demo_git : Git Files := {|
  git_discover _ _ := None;
  git_head_entry _ _ _ := None;
  git_status _ _ _ := None;
  git_head_and_index _ _ := (None, None);
|}.

#[export] Instance demo_timer : DiffTimer := {| diff_timed_out _ _ _ := false |}.

#[export] Instance demo_order : HashOrder := {|
  hash_iter K eqK countK A m := @map_to_list K A (@gmap K eqK countK A) _ m;
  set_iter K eqK countK s := @elements K (@gset K eqK countK) _ s;
|}.

#[export] Instance demo_order_laws : HashOrderLaws.
Proof. by constructor. Qed.

#[local] Existing Instances demo_uuids demo_diff.

Lemma show_nat_inj : Inj (=) (=) show_nat.
Proof. intros a b Hab%show_N_inj. by apply Nat2N.inj. Qed.

#[export] Instance demo_uuid_laws : UuidLaws.
Proof. constructor. apply show_nat_inj. Qed.

(** An agent rewrites a file in its second turn, then a line is put back on disk. *)
Definition demo_world : Files := {[demo_file := demo_new]}.
Definition demo_edited : Files := {[demo_file := lit "1" ++ nl ++ lit "two" ++ nl ++ lit "three" ++ nl]}.

Definition demo_start : Tracker Files := tracker_spawn [root_dir] AgentOnly demo_world.
Definition demo_written : Tracker Files :=
  snd (tracker_handle_command (RecordAgentWrite demo_file demo_new 1 (Some demo_old)) demo_start).
Definition demo_touched : Tracker Files :=
  snd (tracker_handle_command (HandleFileChange demo_file) (set_world demo_edited demo_written)).

Lemma demo_written_reached : reachable false [] demo_written.
Proof. apply (reached_command false [] demo_start (RecordAgentWrite demo_file demo_new 1 (Some demo_old))); [constructor|exact I]. Qed.

Lemma demo_touched_reached : reachable false [] demo_touched.
Proof.
  apply (reached_command false [] (set_world demo_edited demo_written) (HandleFileChange demo_file)); [|exact I].
  apply reached_world, demo_written_reached.
Qed.

Definition demo_state : FileHunkState :=
  default (mkFile Missing Missing [] false false) (t_file_states demo_touched !! demo_file).

Lemma demo_state_lookup : t_file_states demo_touched !! demo_file = Some demo_state.
Proof. vm_compute. reflexivity. Qed.

