(* ===== verification/HunkTrackerViews.v ===== *)
(** * What the hunk tracker shows and does

    Accepting and rejecting the hunks of a file, the queries over hunks and turns,
    the session summary and the coalescing of file events, in the states the
    tracker reaches. *)

From Stdlib Require Import Sorted.
From S2P Require Import Prelude RustStr HunkTypes HunkDiff HunkTracker HunkTrackerSpec.

Section views.
Context {W : Type} `{FileSystem W, Git W, DiffTimer, HashOrder, Uuids, LineDiff, !UuidLaws, !HashOrderLaws}.

(** ** Settling a file *)

Lemma sort_desc_map {A B} (f : A -> B) (key : B -> nat) l :
  map f (sort_desc (fun x => key (f x)) l) = sort_desc key (map f l).
Proof.
  unfold sort_desc. induction l as [|x l IH]; [done|]. cbn [map foldr]. rewrite <- IH. clear IH.
  induction (foldr _ _ l) as [|y k IHk]; [done|]. cbn. case_match; cbn; [done|by rewrite IHk].
Qed.

Lemma foldl_map {A B C} (f : A -> B) (g : C -> B -> C) c l : foldl g c (map f l) = foldl (fun c x => g c (f x)) c l.
Proof. revert c. by induction l as [|x l IH]; intros c; cbn. Qed.

(** Patching looks at the shapes only. *)
Lemma accept_patches_shape b hs hs' : map shape hs = map shape hs' -> accept_patches b hs = accept_patches b hs'.
Proof.
  intros Hs. set (g b (x : HunkLineInfo * option str * str) := patch_lines b (old_start (fst (fst x))) (old_count (fst (fst x))) (snd x)).
  assert (Heq : ∀ l, accept_patches b l = foldl g b (sort_desc (fun x => old_start (fst (fst x))) (map shape l))).
  { intros l. rewrite <- (sort_desc_map shape), foldl_map. done. }
  by rewrite !Heq, Hs.
Qed.

Lemma reject_patches_shape c hs hs' : map shape hs = map shape hs' -> reject_patches c hs = reject_patches c hs'.
Proof.
  intros Hs. set (g c (x : HunkLineInfo * option str * str) :=
    patch_lines c (new_start (fst (fst x))) (new_count (fst (fst x))) (default [] (snd (fst x)))).
  assert (Heq : ∀ l, reject_patches c l = foldl g c (sort_desc (fun x => new_start (fst (fst x))) (map shape l))).
  { intros l. rewrite <- (sort_desc_map shape), foldl_map. done. }
  by rewrite !Heq, Hs.
Qed.

(** The texts for which patching loses nothing (see [HunkDiff]). *)
Definition patchable (b c : str) : Prop :=
  cr_free b ∧ cr_free c ∧ ends_with nl b = true ∧ ends_with nl c = true ∧ steady b c (diff_lines b c).

Lemma patch_all `{!LineDiffLaws} s b c : file_ok s -> hunks s ≠ [] -> baseline s = Full b ->
  current_content s = Full c -> patchable b c ->
  accept_patches b (hunks s) = c ∧ reject_patches c (hunks s) = b.
Proof.
  intros [[? _]|Hs] Hne Hb Hc (Hcb & Hcc & Heb & Hec & Hst); [done|].
  rewrite Hb, Hc in Hs. cbn [diff_shape] in Hs.
  destruct (too_large_to_diff b || too_large_to_diff c) eqn:Hl.
  { unfold compute_hunks in Hs. rewrite Hl in Hs. destruct (str_eqb b c); by destruct (hunks s). }
  rewrite (accept_patches_shape _ _ _ Hs), (reject_patches_shape _ _ _ Hs).
  by destruct (hunks_apply_partially [] b c External 0
    (replicate (length (fst (compute_hunks false [] b c External 0))) true)) as (_ & ? & ?);
    [..|rewrite length_replicate|].
Qed.

Lemma without_all hs : without_ids (map h_id hs) hs = [].
Proof.
  destruct (without_ids _ _) as [|h l] eqn:He; [done|].
  assert (Hh : h ∈ without_ids (map h_id hs) hs) by (rewrite He; by left).
  apply without_ids_elem in Hh as [Hh Hno]. destruct Hno. by apply list_elem_of_fmap_2.
Qed.

(** Recomputing a file whose contents agree leaves it without hunks. *)
Lemma recompute_same p c src (t : Tracker W) s :
  t_file_states t !! p = Some s -> baseline s = c ->
  t_file_states (recompute_hunks p (Some c) src t) = <[p := mkFile c c [] (is_agent_file s) (baseline_accepted s)]> (t_file_states t).
Proof.
  intros Hs Hb. destruct (recompute_core p (Some c) src t) as [(<- & _) _]. rewrite Hs, Hb. cbn [default].
  destruct (file_diff _ _ _ _ _ _) as [[raw m] d] eqn:Hd.
  assert (Hraw : raw = []).
  { unfold file_diff in Hd. destruct c as [|?|?|?| |c]; simplify_eq/=; try done.
    unfold compute_hunks in Hd. rewrite str_eqb_refl in Hd. by simplify_eq. }
  by rewrite Hraw.
Qed.

Lemma apply_file_single p action (t u : Tracker W) s r :
  t_file_states t !! p = Some s -> hunks s ≠ [] ->
  act_on action p (hunks s) (count_all action (hunks s) t) = (r, u) ->
  apply_file_action p action t
  = (match r with Ok _ => Ok (map h_id (hunks s)) | Err e => Err e end, u).
Proof.
  intros Hs Hne Hact. unfold apply_file_action. rewrite Hs, (proj2 (is_empty_false _)) by done.
  rewrite apply_action_batch_cons, Hact. destruct r; [|done]. cbn. by rewrite app_nil_r.
Qed.

Lemma counted_file action hs (t : Tracker W) :
  t_file_states (count_all action hs t) = t_file_states t ∧ t_world (count_all action hs t) = t_world t.
Proof. destruct (count_core action hs t) as ((Hf & _) & Hw & _). by split. Qed.

(** What accepting the hunks of a file with contents makes of it. *)
Lemma accept_file_state `{!LineDiffLaws} p s c t :
  t_file_states t !! p = Some s -> file_ok s -> hunks s ≠ [] -> current_content s = Full c ->
  (∀ b, baseline s = Full b -> patchable b c) ->
  ∃ u, apply_file_action p Accept t = (Ok (map h_id (hunks s)), u) ∧ t_world u = t_world t
  ∧ t_file_states u = <[p := mkFile (Full c) (Full c) [] (is_agent_file s) true]> (t_file_states t).
Proof.
  intros Hs Hok Hne Hc Hp. destruct (counted_file Accept (hunks s) t) as [Hf Hw].
  destruct (act_on Accept p (hunks s) (count_all Accept (hunks s) t)) as [r u] eqn:Hact.
  exists u. rewrite (apply_file_single p Accept t u s r) by done.
  unfold act_on, accept_hunks_batch in Hact. rewrite Hf, Hs, Hc, without_all, (proj2 (is_empty_false _)) in Hact by done.
  pose proof (hunks_diffable s Hok Hne) as Hd. rewrite Hc in Hd.
  destruct (baseline s) as [|?|?|?| |b] eqn:Hb; try done; simplify_eq; split; try done.
  - split; [exact Hw|]. cbn. by rewrite Hf.
  - destruct (patch_all s b c) as [-> _]; [by auto..|]. set (v := emit_all _ _).
    assert (Hv : t_file_states v !! p = Some (mkFile (Full c) (Full c) [] (is_agent_file s) true)) by apply lookup_insert_eq.
    split; [destruct (recompute_core p (Some (Full c)) (remaining_source p v) v) as (_ & Hrw & _); unfold recompute_remaining; by rewrite Hrw|].
    unfold recompute_remaining. rewrite (recompute_same _ _ _ _ _ Hv) by done. cbn. by rewrite Hf, insert_insert_eq.
Qed.

(** The write that rejecting everything amounts to. *)
Definition put_back (w : W) (p : PathBuf) (content : FileContentState) : option W :=
  match content with
  | Full b => fs_write w p b
  | Missing => fs_remove_file w p
  | _ => None
  end.

Definition both_patchable (s : FileHunkState) : Prop :=
  ∀ b c, baseline s = Full b -> current_content s = Full c -> patchable b c.

Lemma reject_file_state `{!LineDiffLaws} p s t :
  t_file_states t !! p = Some s -> file_ok s -> hunks s ≠ [] -> both_patchable s ->
  let '(r, u) := apply_file_action p Reject t in
  match put_back (t_world t) p (baseline s) with
  | Some w => r = Ok (map h_id (hunks s)) ∧ t_world u = w
      ∧ t_file_states u = <[p := mkFile (baseline s) (baseline s) [] (is_agent_file s) (baseline_accepted s)]> (t_file_states t)
  | None => (∃ e, r = Err e ∧ (e = WriteError p ∨ e = DeleteError p)) ∧ u = count_all Reject (hunks s) t
  end.
Proof.
  intros Hs Hok Hne Hp. destruct (counted_file Reject (hunks s) t) as [Hf Hw].
  destruct (act_on Reject p (hunks s) (count_all Reject (hunks s) t)) as [r u] eqn:Hact.
  rewrite (apply_file_single p Reject t u s r) by done.
  unfold act_on, reject_hunks_batch in Hact. rewrite Hf, Hs, (proj2 (is_empty_false _)) in Hact by done.
  pose proof (hunks_diffable s Hok Hne) as Hd. set (v := count_all Reject (hunks s) t) in *.
  unfold mbind, eff_bind, run_unit, eff_modify, write_file, remove_file in Hact. rewrite Hw in Hact.
  destruct (baseline s) as [|?|?|?| |b] eqn:Hb, (current_content s) as [|?|?|?| |c] eqn:Hc; try done; cbn [put_back].
  3: destruct (patch_all s b c) as [_ Hr]; [by auto..|]; rewrite Hr in Hact; clear Hr.
  1: destruct (fs_remove_file _ _) as [w|] eqn:Hio; simplify_eq; [|by split; [eexists; split; [done|by right]|]].
  2,3: destruct (fs_write _ _ _) as [w|] eqn:Hio; simplify_eq; [|by split; [eexists; split; [done|by left]|]].
  all: split; [done|].
  1,2: unfold rejected_state; cbn [set_world t_file_states]; rewrite Hf, Hs; cbn; by rewrite without_all, Hf, Hb.
  set (v' := rejected_state _ _ _ _).
  assert (Hv' : t_file_states v' = <[p := mkFile (Full b) (Full b) [] (is_agent_file s) (baseline_accepted s)]> (t_file_states t)).
  { unfold v', rejected_state. cbn [set_world t_file_states]. rewrite Hf, Hs. cbn. by rewrite without_all, Hf, Hb. }
  assert (Hlook : t_file_states v' !! p = Some (mkFile (Full b) (Full b) [] (is_agent_file s) (baseline_accepted s)))
    by (rewrite Hv'; apply lookup_insert_eq).
  split.
  - unfold recompute_remaining. destruct (recompute_core p (Some (Full b)) (remaining_source p v') v') as (_ & -> & _).
    unfold v', rejected_state. cbn [set_world t_file_states]. by rewrite Hf, Hs.
  - unfold recompute_remaining. rewrite (recompute_same _ _ _ _ _ Hlook) by done. rewrite Hv'. cbn. apply insert_insert_eq.
Qed.

(** ** Queries *)

Lemma all_hunks_elem (t : Tracker W) h : h ∈ get_all_hunks t <-> ∃ p, has_hunk (t_file_states t) p h.
Proof.
  unfold get_all_hunks, has_hunk, all_states. rewrite concat_elem. split.
  - intros (l & ([p s] & -> & Hp%hash_iter_elem)%list_elem_of_fmap & Hh). by exists p, s.
  - intros (p & s & Hp & Hh). exists (hunks s). split; [|done]. apply list_elem_of_fmap. exists (p, s).
    by rewrite hash_iter_elem.
Qed.

Lemma all_ids_nodup base P X (t : Tracker W) : inv base P X t -> NoDup (map h_id (get_all_hunks t)).
Proof.
  intros [_ _ _ Hfile Hapart _ _ _ _]. unfold get_all_hunks, all_states.
  assert (Hgen : ∀ l, NoDup (map fst l) -> (∀ p s, (p, s) ∈ l -> t_file_states t !! p = Some s) ->
            NoDup (map h_id (concat (map (fun e => hunks (snd e)) l)))).
  { induction l as [|[p s] l IH]; intros Hnd Hl; cbn; [constructor|].
    cbn in Hnd. apply NoDup_cons in Hnd as [Hp Hnd].
    assert (Hs : t_file_states t !! p = Some s) by (apply Hl; by left).
    rewrite map_app. apply NoDup_app. split; [by eapply Hfile|]. split; [|apply IH; [done|]; intros; apply Hl; by right].
    intros id (h & -> & Hh)%list_elem_of_fmap (h' & Hid & Hh')%list_elem_of_fmap. apply Hp.
    apply concat_elem in Hh' as (k & ([q s'] & -> & Hq)%list_elem_of_fmap & Hin).
    rewrite (Hapart p q h h'); [by apply (list_elem_of_fmap_2 fst) in Hq|by exists s| |done].
    exists s'. split; [|done]. apply Hl. by right. }
  apply Hgen; [apply hash_iter_keys|]. by intros p s ?%hash_iter_elem.
Qed.

Lemma get_hunk_spec (t : Tracker W) id h : NoDup (map h_id (get_all_hunks t)) ->
  get_hunk t id = Some h <-> h ∈ get_all_hunks t ∧ h_id h = id.
Proof.
  intros Hnd. unfold get_hunk. split.
  - intros [Hin Hid]%find_some. rewrite <- list_elem_of_In in Hin. by apply str_eqb_eq in Hid.
  - intros [Hin <-]. destruct (List.find _ _) as [h'|] eqn:Hf.
    + apply find_some in Hf as [Hin' Hid]. rewrite <- list_elem_of_In in Hin'. apply str_eqb_eq in Hid.
      f_equal. by apply (nodup_ids_inj (get_all_hunks t)).
    + rewrite list_elem_of_In in Hin. pose proof (find_none _ _ Hf h Hin) as Hno. cbn in Hno. by rewrite str_eqb_refl in Hno.
Qed.

Lemma omap_nodup {A B} (f : A -> option B) (g : B -> A) l :
  (∀ x y, f x = Some y -> g y = x) -> NoDup l -> NoDup (omap f l).
Proof.
  intros Hg. induction 1 as [|x l Hx _ IH]; [constructor|]. cbn. destruct (f x) as [y|] eqn:Hf; [|done].
  apply NoDup_cons. split; [|done]. intros (x' & Hx' & Hf')%list_elem_of_omap.
  apply Hx. by rewrite <- (Hg x y), (Hg x' y).
Qed.

Lemma turn_hunks_elem (t : Tracker W) k h : NoDup (map h_id (get_all_hunks t)) ->
  h ∈ get_hunks_for_turn t k <-> h ∈ get_all_hunks t ∧ h_id h ∈ index_ids (t_turn_index t) k.
Proof.
  intros Hnd. unfold get_hunks_for_turn, index_ids. destruct (t_turn_index t !! k) as [ids|]; cbn.
  - rewrite list_elem_of_omap. setoid_rewrite set_iter_perm. setoid_rewrite elem_of_elements. split.
    + by intros (id & Hid & [Hh <-]%get_hunk_spec).
    + intros [Hh Hid]. exists (h_id h). by rewrite get_hunk_spec.
  - rewrite elem_of_nil, elem_of_empty. tauto.
Qed.

Lemma turn_hunks_nodup (t : Tracker W) k : NoDup (map h_id (get_all_hunks t)) -> NoDup (get_hunks_for_turn t k).
Proof.
  intros Hnd. unfold get_hunks_for_turn. destruct (t_turn_index t !! k) as [ids|]; [|constructor].
  apply omap_nodup with h_id; [by intros id h [_ ?]%get_hunk_spec|]. rewrite set_iter_perm. apply NoDup_elements.
Qed.

Definition of_turn (k : nat) (h : Hunk) : bool := bool_decide (h_source h = AgentEdit k).

Lemma turn_hunks_spec base failed (t : Tracker W) k : inv base none (lax failed) t ->
  (∀ h, h ∈ get_hunks_for_turn t k -> h ∈ get_all_hunks t ∧ h_source h = AgentEdit k)
  ∧ (failed = false -> get_hunks_for_turn t k ≡ₚ List.filter (of_turn k) (get_all_hunks t)).
Proof.
  intros Hinv. pose proof (all_ids_nodup _ _ _ _ Hinv) as Hnd.
  destruct Hinv as [_ _ _ _ _ _ Hlive Hcomplete _].
  assert (Hsrc : ∀ h, h ∈ get_hunks_for_turn t k -> h ∈ get_all_hunks t ∧ h_source h = AgentEdit k).
  { intros h [Hh Hid]%turn_hunks_elem; [|done]. split; [done|]. apply all_hunks_elem in Hh as [p Hp]. by eapply Hlive. }
  split; [done|]. intros ->. apply NoDup_Permutation.
  - by apply turn_hunks_nodup.
  - eapply sublist_NoDup; [by eapply NoDup_fmap_1|apply filter_is_sublist].
  - intros h. rewrite filter_in. unfold of_turn. rewrite bool_decide_eq_true. split; [apply Hsrc|].
    intros [Hh Hs]. apply turn_hunks_elem; [done|]. split; [done|]. apply all_hunks_elem in Hh as [p Hp].
    by apply (Hcomplete k p).
Qed.

(** ** Coalescing *)

(** The event a command stands for at [p]: a deletion ([true]) or a change. *)
Definition event_at (p : PathBuf) (cmd : HunkTrackerCommand) : option bool :=
  match cmd with
  | HandleFileChange q => if decide (q = p) then Some false else None
  | HandleFileDeleted q => if decide (q = p) then Some true else None
  | _ => None
  end.

(** What a sequence of events at a path comes to: the last one, and for a change
    whether a deletion came before it. *)
Definition net_action (events : list bool) : option CoalescedPathAction :=
  match last events with
  | None => None
  | Some true => Some Deleted
  | Some false => Some (if existsb id events then DeletedThenChanged else Changed)
  end.

Lemma net_action_snoc events e : net_action (events ++ [e]) =
  Some (if e : bool then Deleted
        else match net_action events with Some Deleted => DeletedThenChanged | Some a => a | None => Changed end).
Proof.
  unfold net_action. rewrite last_snoc, existsb_app. destruct e; [done|]. cbn. rewrite orb_false_r.
  destruct (last events) as [[|]|] eqn:Hl.
  - apply last_Some in Hl as [l ->]. by rewrite existsb_app, orb_true_r.
  - by destruct (existsb id events).
  - apply last_None in Hl as ->. done.
Qed.

Definition is_cmd (cmd cmd' : HunkTrackerCommand) : bool :=
  match cmd, cmd' with
  | RefreshAllBaselines, RefreshAllBaselines | RefreshGitDirtyCache, RefreshGitDirtyCache => true
  | _, _ => false
  end.

Lemma coalesced_spec q : let b := foldl batch_add batch_new q in
  (∀ p, file_actions b !! p = net_action (omap (event_at p) q))
  ∧ refresh_all b = existsb (is_cmd RefreshAllBaselines) q
  ∧ refresh_dirty b = existsb (is_cmd RefreshGitDirtyCache) q
  ∧ other_commands b = List.filter (fun cmd => negb (is_coalescable cmd)) q
  ∧ command_count b = length q.
Proof.
  induction q as [|cmd q IH] using rev_ind; [by repeat split|]. cbv zeta in *. rewrite foldl_app. cbn [foldl].
  destruct IH as (Hf & Hr & Hd & Ho & Hn). set (b := foldl batch_add batch_new q) in *.
  rewrite !existsb_app, List.filter_app, length_app, <- Hr, <- Hd, <- Ho, <- Hn. setoid_rewrite omap_app.
  destruct cmd; cbn; rewrite ?orb_false_r, ?app_nil_r, ?orb_true_r, Nat.add_1_r;
    (split; [intros p; rewrite ?app_nil_r; try done|by repeat split]).
  all: case_decide; [subst; rewrite lookup_insert_eq, net_action_snoc, <- ?Hf; by repeat case_match
                    |rewrite lookup_insert_ne, app_nil_r by done; by rewrite Hf].
Qed.

(** *** The loop is made of commands and batches *)

(** Neither a restore nor a remount. *)
Definition routine (cmd : HunkTrackerCommand) : Prop :=
  match cmd with
  | RestoreState _ | SetWorkingDir _ => False
  | _ => True
  end.

Lemma handle_all_reached cmds failed sns (t : Tracker W) rs : Forall routine cmds -> reachable failed sns t ->
  ∃ failed' sns', reachable failed' sns' (snd (foldl (fun '(rs, t) cmd =>
    let '(r, t) := tracker_handle_command cmd t in (rs ++ [r], t)) (rs, t) cmds)).
Proof.
  revert failed sns t rs. induction cmds as [|cmd cmds IH]; intros failed sns t rs Hcmds Ht; [by exists failed, sns|].
  apply Forall_cons in Hcmds as [Hcmd Hcmds]. cbn [foldl].
  assert (Hu : reachable (failed || reply_failed (fst (tracker_handle_command cmd t)))
        (saved (fst (tracker_handle_command cmd t)) ++ sns) (snd (tracker_handle_command cmd t))).
  { apply reached_command; [done|]. by destruct cmd. }
  destruct (tracker_handle_command cmd t) as [r u]. by eapply IH.
Qed.

Lemma run_queue_reached q failed sns (t : Tracker W) : Forall routine q -> reachable failed sns t ->
  ∃ failed' sns', reachable failed' sns' (snd (run_queue q t)).
Proof.
  revert failed sns t. induction q as [|cmd q IH]; intros failed sns t Hq Ht; [by exists failed, sns|].
  cbn [run_queue]. destruct (is_coalescable cmd) eqn:Hc.
  - unfold drain_and_coalesce. destruct (coalesced_spec (cmd :: q)) as (_ & _ & _ & Ho & _).
    set (b := foldl batch_add batch_new (cmd :: q)) in *. rewrite handle_coalesced_changes. unfold handle_all.
    apply (handle_all_reached _ failed sns).
    + rewrite Ho. apply Forall_forall. intros x [Hx _]%filter_in. rewrite Forall_forall in Hq. by apply Hq.
    + set (b' := mkBatch (file_actions b) (refresh_all b) (refresh_dirty b) [] (command_count b)).
      pose proof (reached_batch failed sns t b' Ht eq_refl) as Hb'. by rewrite handle_coalesced_changes in Hb'.
  - apply Forall_cons in Hq as [Hcmd Hq].
    assert (Hu : reachable (failed || reply_failed (fst (tracker_handle_command cmd t)))
        (saved (fst (tracker_handle_command cmd t)) ++ sns) (snd (tracker_handle_command cmd t))).
    { apply reached_command; [done|]. by destruct cmd. }
    destruct (tracker_handle_command cmd t) as [r u]. destruct (IH _ _ _ Hq Hu) as (f' & sns' & Hr).
    exists f', sns'. cbn [snd] in *. by destruct (run_queue q u) as [rs v].
Qed.

(** ** The session summary *)

Section summary.
Context (t : Tracker W).

Definition is_agent (h : Hunk) : bool := bool_decide (is_Some (source_prompt_index (h_source h))).

(** All hunks with the files they are in. *)
Definition located : list (PathBuf * Hunk) :=
  concat (map (fun e => map (pair (fst e)) (hunks (snd e))) (all_states t)).

Lemma located_hunks : map snd located = get_all_hunks t.
Proof.
  unfold located, get_all_hunks. induction (all_states t) as [|[p s] l IH]; [done|].
  cbn. rewrite map_app, map_map, map_id, IH. done.
Qed.

Definition add_located (acc : gmap nat TurnData * nat) (e : PathBuf * Hunk) := add_pending (fst e) acc (snd e).

Lemma pending_located :
  foldl (fun acc e => foldl (add_pending (fst e)) acc (hunks (snd e))) (∅, 0) (all_states t)
  = foldl add_located (∅, 0) located.
Proof.
  unfold located. generalize (∅ : gmap nat TurnData, 0). induction (all_states t) as [|[p s] l IH]; intros acc; [done|].
  cbn [map concat foldl]. rewrite foldl_app, foldl_map. apply IH.
Qed.

Definition turn_of (k : nat) (l : list (PathBuf * Hunk)) : list (PathBuf * Hunk) :=
  List.filter (fun e => of_turn k (snd e)) l.

Definition turn_data (l : list (PathBuf * Hunk)) : TurnData :=
  mkTurnData (list_to_set (map fst l)) (map snd l)
    (sum_of (fun e => new_count (h_lines (snd e))) l) (sum_of (fun e => old_count (h_lines (snd e))) l).

Lemma sum_of_app {A} (f : A -> nat) l k : sum_of f (l ++ k) = sum_of f l + sum_of f k.
Proof. unfold sum_of. induction l; cbn; lia. Qed.

Lemma sum_of_perm {A} (f : A -> nat) l k : l ≡ₚ k -> sum_of f l = sum_of f k.
Proof. unfold sum_of. induction 1; cbn; lia. Qed.

Lemma turn_data_snoc l e : turn_data (l ++ [e]) =
  let d := turn_data l in
  mkTurnData ({[fst e]} ∪ tdat_files d) (tdat_pending d ++ [snd e])
    (tdat_added d + new_count (h_lines (snd e))) (tdat_removed d + old_count (h_lines (snd e))).
Proof.
  unfold turn_data. rewrite !map_app, !sum_of_app, list_to_set_app_L. cbn [map list_to_set].
  cbn. rewrite !Nat.add_0_r. f_equal. set_solver.
Qed.

Lemma turn_of_snoc k l e : turn_of k (l ++ [e]) = turn_of k l ++ (if of_turn k (snd e) then [e] else []).
Proof. unfold turn_of. by rewrite List.filter_app. Qed.

(** The map the loop builds. *)
Lemma add_located_spec l :
  (∀ k, fst (foldl add_located (∅, 0) l) !! k
        = if is_empty (turn_of k l) then None else Some (turn_data (turn_of k l)))
  ∧ snd (foldl add_located (∅, 0) l) = length (List.filter (fun e => negb (is_agent (snd e))) l).
Proof.
  induction l as [|[p h] l [IHm IHn]] using rev_ind; [by split; [intros k; apply lookup_empty|]|].
  rewrite foldl_app. cbn [foldl]. destruct (foldl add_located (∅, 0) l) as [m n]. cbn [fst snd] in *.
  unfold add_located, add_pending, is_agent in *. cbn [fst snd].
  rewrite List.filter_app, length_app, <- IHn. cbn [List.filter snd].
  destruct (source_prompt_index (h_source h)) as [i|] eqn:Hs.
  - assert (Hsrc : h_source h = AgentEdit i) by (destruct (h_source h); by simplify_eq/=).
    split; [|by cbn; lia]. intros k. rewrite !turn_of_snoc. unfold of_turn. cbn [fst snd]. rewrite Hsrc. destruct (decide (i = k)) as [->|Hne].
    + rewrite lookup_insert_eq, bool_decide_true by done.
      rewrite (proj2 (is_empty_false _)) by by destruct (turn_of k l).
      rewrite turn_data_snoc, IHm. by destruct (turn_of k l).
    + rewrite lookup_insert_ne, bool_decide_false, app_nil_r, IHm by congruence. done.
  - split; [|cbn; lia]. intros k. rewrite !turn_of_snoc. unfold of_turn. cbn [fst snd].
    rewrite bool_decide_false by by intros Hk; rewrite Hk in Hs.
    by rewrite app_nil_r, <- IHm.
Qed.

Definition map_sum (f : TurnData -> nat) (m : gmap nat TurnData) : nat := sum_of (fun e => f (snd e)) (map_to_list m).

Lemma map_sum_insert f m k x : map_sum f (<[k := x]> m) + from_option f 0 (m !! k) = map_sum f m + f x.
Proof.
  unfold map_sum. rewrite <- insert_delete_eq. rewrite (sum_of_perm _ _ _ (map_to_list_insert _ _ _ (lookup_delete_eq _ _))).
  destruct (m !! k) as [y|] eqn:Hk; cbn.
  - rewrite <- (insert_delete_id m k y Hk) at 2. rewrite (sum_of_perm _ _ _ (map_to_list_insert _ _ _ (lookup_delete_eq _ _))).
    unfold sum_of. cbn. lia.
  - rewrite delete_id by done. unfold sum_of. cbn. lia.
Qed.
Lemma map_sum_pending f g l :
  f no_turn_data = 0 ->
  (∀ d p h, f (mkTurnData ({[p]} ∪ tdat_files d) (tdat_pending d ++ [h]) (tdat_added d + new_count (h_lines h))
                (tdat_removed d + old_count (h_lines h))) = f d + g h) ->
  map_sum f (fst (foldl add_located (∅, 0) l)) = sum_of g (List.filter is_agent (map snd l)).
Proof.
  intros Hnone Hstep. induction l as [|[p h] l IH] using rev_ind; [done|].
  rewrite foldl_app, map_app, List.filter_app, sum_of_app, <- IH. cbn [foldl map snd List.filter].
  destruct (foldl add_located (∅, 0) l) as [m n]. unfold add_located, add_pending, is_agent. cbn [fst snd].
  destruct (source_prompt_index (h_source h)) as [i|] eqn:Hs; cbn [fst].
  - rewrite bool_decide_true by done. set (d := default no_turn_data (m !! i)).
    pose proof (map_sum_insert f m i (mkTurnData ({[p]} ∪ tdat_files d) (tdat_pending d ++ [h])
      (tdat_added d + new_count (h_lines h)) (tdat_removed d + old_count (h_lines h)))) as Hsum.
    rewrite Hstep in Hsum. assert (Hd : from_option f 0 (m !! i) = f d) by (unfold d; by destruct (m !! i)).
    unfold sum_of. cbn. fold d. lia.
  - rewrite bool_decide_false by by intros [? [=]]. cbn. lia.
Qed.

Lemma sorted_keys {A} (key : A -> nat) l : StronglySorted (key_le key) l -> StronglySorted le (map key l).
Proof. induction 1 as [|x l _ IH Hx]; cbn [map]; constructor; [done|]. by apply Forall_map. Qed.

Lemma sorted_strict l : StronglySorted le l -> NoDup l -> StronglySorted lt l.
Proof.
  induction 1 as [|x l _ IH Hx]; intros Hnd; constructor; apply NoDup_cons in Hnd as [Hno Hnd]; [by apply IH|].
  rewrite Forall_forall in Hx |- *. intros y Hy. specialize (Hx y Hy).
  assert (x ≠ y) by by intros ->. lia.
Qed.
Lemma filter_map {A B} (f : A -> B) (g : B -> bool) l :
  List.filter g (map f l) = map f (List.filter (fun x => g (f x)) l).
Proof. induction l as [|x l IH]; cbn; [done|]. case_match; cbn; by rewrite IH. Qed.

Lemma filter_both {A} (g : A -> bool) l :
  length (List.filter g l) + length (List.filter (fun x => negb (g x)) l) = length l.
Proof. induction l as [|x l IH]; cbn; [done|]. destruct (g x); cbn; lia. Qed.

Lemma sum_of_const {A} (l : list A) : sum_of (fun _ => 1) l = length l.
Proof. unfold sum_of. induction l; cbn; lia. Qed.

(** The turns of the summary, from the map the loop built. *)
Section turns.
Context (m : gmap nat TurnData).
Hypothesis Hm : ∀ k, m !! k = if is_empty (turn_of k located) then None else Some (turn_data (turn_of k located)).

Definition turn_summary (e : nat * TurnData) : TurnSummary :=
  mkTurnSummary (fst e) (set_iter (tdat_files (snd e))) (tdat_pending (snd e)) (tdat_added (snd e)) (tdat_removed (snd e)).

Let turns := sort_asc ts_prompt_index (map turn_summary (hash_iter m)).

Lemma turns_perm : turns ≡ₚ map turn_summary (map_to_list m).
Proof. unfold turns. by rewrite sort_asc_perm, hash_iter_perm. Qed.

Lemma turns_indices : map ts_prompt_index turns ≡ₚ map fst (map_to_list m).
Proof. by rewrite turns_perm, map_map. Qed.

Lemma turns_sum f g : (∀ e, f (turn_summary e) = g (snd e)) -> sum_of f turns = map_sum g m.
Proof.
  intros Hfg. rewrite (sum_of_perm _ _ _ turns_perm). unfold map_sum, sum_of. rewrite map_map. f_equal.
  by apply map_ext.
Qed.

Lemma turns_sorted : StronglySorted lt (map ts_prompt_index turns).
Proof. apply sorted_strict; [apply sorted_keys, sort_asc_sorted|]. rewrite turns_indices. apply NoDup_fst_map_to_list. Qed.

Lemma turns_present k : k ∈ map ts_prompt_index turns <-> ∃ h, h ∈ map snd located ∧ h_source h = AgentEdit k.
Proof.
  rewrite turns_indices, list_elem_of_fmap. split.
  - intros ([k' d] & -> & Hk%elem_of_map_to_list). cbn. rewrite Hm in Hk.
    destruct (turn_of k' located) as [|e l] eqn:Ht; [done|]. exists (snd e).
    assert (He : e ∈ turn_of k' located) by (rewrite Ht; by left).
    apply filter_in in He as [He Hs]. unfold of_turn in Hs. apply bool_decide_eq_true in Hs.
    split; [by apply list_elem_of_fmap_2|done].
  - intros (h & (e & -> & He)%list_elem_of_fmap & Hs). exists (k, turn_data (turn_of k located)). split; [done|].
    apply elem_of_map_to_list. rewrite Hm.
    assert (Hin : e ∈ turn_of k located) by (apply filter_in; split; [done|]; unfold of_turn; by rewrite bool_decide_true).
    by destruct (turn_of k located); [apply not_elem_of_nil in Hin|].
Qed.

Lemma turns_content ts : ts ∈ turns ->
  ts_pending_hunks ts = List.filter (of_turn (ts_prompt_index ts)) (map snd located)
  ∧ ts_lines_added ts = sum_of (fun h => new_count (h_lines h)) (ts_pending_hunks ts)
  ∧ ts_lines_removed ts = sum_of (fun h => old_count (h_lines h)) (ts_pending_hunks ts).
Proof.
  rewrite turns_perm. intros ([k d] & -> & Hk%elem_of_map_to_list)%list_elem_of_fmap.
  rewrite Hm in Hk. destruct (is_empty (turn_of k located)); [done|]. simplify_eq.
  cbn. unfold turn_of, sum_of. by rewrite !map_map, filter_map.
Qed.
End turns.

(** The session summary is an exact account of the pending hunks. The turns are
    those that have hunks, in ascending order, each once; a turn's hunks and line
    counts are those of the hunks attributed to it; agent and unattributed hunks
    add up to all hunks, and the totals to the sums over the agent's. *)
Theorem session_summary_exact :
  let sm := compute_session_summary t in
  let turns := ss_turns sm in
  StronglySorted lt (map ts_prompt_index turns)
  ∧ (∀ k, k ∈ map ts_prompt_index turns <-> ∃ h, h ∈ get_all_hunks t ∧ h_source h = AgentEdit k)
  ∧ (∀ ts, ts ∈ turns ->
       ts_pending_hunks ts = List.filter (of_turn (ts_prompt_index ts)) (get_all_hunks t)
       ∧ ts_lines_added ts = sum_of (fun h => new_count (h_lines h)) (ts_pending_hunks ts)
       ∧ ts_lines_removed ts = sum_of (fun h => old_count (h_lines h)) (ts_pending_hunks ts))
  ∧ pending_hunks sm + unattributed_pending sm = length (get_all_hunks t)
  ∧ pending_lines_added sm = sum_of (fun h => new_count (h_lines h)) (List.filter is_agent (get_all_hunks t))
  ∧ pending_lines_removed sm = sum_of (fun h => old_count (h_lines h)) (List.filter is_agent (get_all_hunks t)).
Proof.
  cbv zeta. unfold compute_session_summary. rewrite pending_located, <- located_hunks.
  destruct (add_located_spec located) as [Hm Hn].
  pose proof (map_sum_pending (fun d => length (tdat_pending d)) (fun _ => 1) located) as Hlen.
  pose proof (map_sum_pending tdat_added (fun h => new_count (h_lines h)) located) as Hadd.
  pose proof (map_sum_pending tdat_removed (fun h => old_count (h_lines h)) located) as Hrem.
  destruct (foldl add_located (∅, 0) located) as [m n]. cbn [fst snd] in *.
  assert (Hturn : map (fun '(k, d) => mkTurnSummary k (set_iter (tdat_files d)) (tdat_pending d) (tdat_added d)
            (tdat_removed d)) (hash_iter m) = map turn_summary (hash_iter m)) by by apply map_ext; intros [].
  rewrite Hturn. cbn [ss_turns pending_hunks unattributed_pending pending_lines_added pending_lines_removed].
  split; [apply turns_sorted|]. split; [intros k; by apply turns_present|]. split; [intros ts; by apply turns_content|].
  rewrite (turns_sum _ _ (fun d => length (tdat_pending d))), (turns_sum _ _ tdat_added), (turns_sum _ _ tdat_removed) by done.
  split; [|split; [by apply Hadd|by apply Hrem]].
  rewrite Hlen by (try done; intros; cbn; by rewrite length_app).
  rewrite Hn, sum_of_const, filter_map, !length_map. apply (filter_both (fun e => is_agent (snd e)) located).
Qed.
End summary.

(** ** The theorems *)

Section laws.
Context `{!LineDiffLaws}.

(** In any state a session reaches, accepting a file with contents makes its
    content the baseline: every hunk is named in the answer and gone, nothing is
    written to disk and no other file changes. Of two texts that needs the
    conditions under which patching loses nothing. *)
Theorem accept_file_settles failed sns (t : Tracker W) p s c :
  reachable failed sns t -> t_file_states t !! p = Some s -> hunks s ≠ [] -> current_content s = Full c ->
  (∀ b, baseline s = Full b -> patchable b c) ->
  ∃ u, apply_file_action p Accept t = (Ok (map h_id (hunks s)), u)
  ∧ t_file_states u = <[p := mkFile (Full c) (Full c) [] (is_agent_file s) true]> (t_file_states t)
  ∧ t_world u = t_world t.
Proof.
  intros [Hinv _]%reachable_inv Hs Hne Hc Hp.
  assert (Hok : file_ok s) by (apply (good_files _ _ _ _ _ _ Hinv p s Hs); by intros []).
  destruct (accept_file_state p s c t) as (u & ? & ? & ?); [done..|]. by exists u.
Qed.

End laws.

(** The turn index is exact. The hunks of a turn are found by it and by nothing
    else: what is returned is attributed to that turn, and as long as no file
    operation has failed it is all of them, once each. A hunk is found by its
    identifier if and only if it is shown. *)
Theorem turn_hunks_exact failed sns (t : Tracker W) k :
  reachable failed sns t ->
  (∀ h, h ∈ get_hunks_for_turn t k -> h ∈ get_all_hunks t ∧ h_source h = AgentEdit k)
  ∧ (failed = false -> get_hunks_for_turn t k ≡ₚ List.filter (of_turn k) (get_all_hunks t))
  ∧ ∀ id h, get_hunk t id = Some h <-> h ∈ get_all_hunks t ∧ h_id h = id.
Proof.
  intros [Hinv _]%reachable_inv. destruct (turn_hunks_spec _ _ _ k Hinv). split; [done|split; [done|]].
  intros id h. apply get_hunk_spec. by eapply all_ids_nodup.
Qed.

(** Coalescing keeps what matters of the queued commands: at each path the last
    event, and for a change whether a deletion came before it; whether a refresh
    was asked for; and all other commands, in their order. *)
Theorem coalescing_exact first queued : let b := drain_and_coalesce first queued in
  (∀ p, file_actions b !! p = net_action (omap (event_at p) (first :: queued)))
  ∧ refresh_all b = existsb (is_cmd RefreshAllBaselines) (first :: queued)
  ∧ refresh_dirty b = existsb (is_cmd RefreshGitDirtyCache) (first :: queued)
  ∧ other_commands b = List.filter (fun cmd => negb (is_coalescable cmd)) (first :: queued)
  ∧ command_count b = length (first :: queued).
Proof. apply coalesced_spec. Qed.

(** The loop stays within the states of a session: whatever commands wait in the
    channel, handled singly or coalesced, the tracker ends in a reachable state, so
    that the hunks of every file are then its diff. *)
Theorem queue_keeps_diff failed sns (t : Tracker W) q p s :
  reachable failed sns t -> Forall routine q -> t_file_states (snd (run_queue q t)) !! p = Some s ->
  map shape (hunks s) = diff_shape (baseline s) (current_content s) ∨ silent s.
Proof.
  intros Ht Hq Hs. destruct (run_queue_reached q failed sns t) as (f & sns' & [Hinv _]%reachable_inv); [done..|].
  destruct (good_files _ _ _ _ _ _ Hinv p s Hs) as [?|?]; [by intros []|by right|by left].
Qed.

End views.

(** ** In the demonstration world *)

#[local] Existing Instances demo_uuids demo_diff demo_diff_laws.

Definition demo_state2 : FileHunkState :=
  default (mkFile Missing Missing [] false false) (t_file_states demo_written !! demo_file).

Lemma demo_state2_is : demo_state2 = mkFile (Full demo_old) (Full demo_new) (hunks demo_state2) true false
  ∧ map h_id (hunks demo_state2) = [lit "0"; lit "1"].
Proof. vm_compute. by split. Qed.

Lemma demo_state2_lookup : t_file_states demo_written !! demo_file = Some demo_state2.
Proof. vm_compute. reflexivity. Qed.

Lemma demo_patchable : patchable demo_old demo_new.
Proof.
  split; [by_decide|split; [by_decide|split; [reflexivity|split; [reflexivity|]]]].
  left. exists (lit "two" ++ nl). split; [by_decide|discriminate].
Qed.

Lemma accept_file_settles_witness :
  ∃ u, apply_file_action demo_file Accept demo_written = (Ok [lit "0"; lit "1"], u)
  ∧ t_file_states u = <[demo_file := mkFile (Full demo_new) (Full demo_new) [] true true]> (t_file_states demo_written).
Proof.
  destruct demo_state2_is as [Hs Hids].
  destruct (accept_file_settles false [] demo_written demo_file demo_state2 demo_new) as (u & Hu & Hf & _).
  - exact demo_written_reached.
  - exact demo_state2_lookup.
  - intros Hn. by rewrite Hn in Hids.
  - by rewrite Hs.
  - intros b Hb. rewrite Hs in Hb. injection Hb as <-. exact demo_patchable.
  - exists u. rewrite Hids in Hu. split; [exact Hu|]. by rewrite Hs in Hf.
Defined.


Lemma turn_hunks_exact_witness :
  length (get_hunks_for_turn demo_written 1) = 2
  ∧ get_hunks_for_turn demo_written 1 ≡ₚ List.filter (of_turn 1) (get_all_hunks demo_written).
Proof.
  split; [vm_compute; reflexivity|].
  by apply (turn_hunks_exact false [] demo_written 1 demo_written_reached).
Defined.

Lemma session_summary_exact_witness :
  pending_hunks (compute_session_summary demo_written) = 2
  ∧ pending_hunks (compute_session_summary demo_written) + unattributed_pending (compute_session_summary demo_written)
    = length (get_all_hunks demo_written).
Proof.
  split; [vm_compute; reflexivity|]. apply (session_summary_exact demo_written).
Defined.

(** A write of the agent, two file events and the acceptance of a hunk, all
    waiting when the loop starts. *)
Definition demo_queue : list HunkTrackerCommand :=
  [RecordAgentWrite demo_file demo_new 1 (Some demo_old); HandleFileChange demo_file;
   HandleFileDeleted demo_file; ApplyHunkAction (lit "0") Accept].

Lemma queue_keeps_diff_witness :
  ∃ s, t_file_states (snd (run_queue demo_queue demo_start)) !! demo_file = Some s ∧ length (hunks s) = 1
  ∧ (map shape (hunks s) = diff_shape (baseline s) (current_content s) ∨ silent s).
Proof.
  destruct (t_file_states (snd (run_queue demo_queue demo_start)) !! demo_file) as [s|] eqn:Hs;
    [|exfalso; revert Hs; vm_compute; discriminate].
  exists s. split; [reflexivity|]. split; [revert Hs; vm_compute; by intros [= <-]|].
  apply (queue_keeps_diff false [] demo_start demo_queue demo_file s); [constructor| |exact Hs].
  repeat constructor.
Defined.
