(* ===== verification/LocSink.v ===== *)
(** * Attribution records

    [xai-hunk-tracker/src/loc/mod.rs]: the sink that turns the tracker's events
    into records of lines added and removed, by author, such that the sum over the
    records of a hunk is what the hunk contributed. The file it appends to is the
    list of records written; the outcome of each write is a parameter. *)

From S2P Require Import Prelude RustStr HunkTypes HunkDiff HunkTracker HunkTrackerSpec.

(** ** Signed 64-bit integers

    [wrap_i64] is the value of the low 64 bits: [x as i64], and the [+] and [-] of
    the release profile. *)
Definition wrap_i64 (z : Z) : Z := ((z + 2 ^ 63) `mod` 2 ^ 64 - 2 ^ 63)%Z.

(** ** Records *)

(** Source: crates/codegen/xai-hunk-tracker/src/loc/mod.rs:21-26, [AuthorType]. *)
Inductive AuthorType := AuthorAgent | AuthorHuman.

(** Source: crates/codegen/xai-hunk-tracker/src/loc/mod.rs:38-44, [SourceType]. *)
Inductive SourceType := SrcAgentEdit | SrcExternalEditOnAgentFile | SrcExternal.

(** Source: crates/codegen/xai-hunk-tracker/src/loc/mod.rs:57-67, [EventType]. *)
Inductive EventType := EvAdded | EvUpdated | EvRemoved.

(** Source: crates/codegen/xai-hunk-tracker/src/loc/mod.rs:29-34, [AuthorType::fmt]. *)
Definition author_type_display (a : AuthorType) : str :=
  match a with AuthorAgent => lit "agent" | AuthorHuman => lit "human" end.

(** Source: crates/codegen/xai-hunk-tracker/src/loc/mod.rs:47-53, [SourceType::fmt]. *)
Definition source_type_display (s : SourceType) : str :=
  match s with
  | SrcAgentEdit => lit "agent_edit"
  | SrcExternalEditOnAgentFile => lit "external_edit_on_agent_file"
  | SrcExternal => lit "external"
  end.

(** Source: crates/codegen/xai-hunk-tracker/src/loc/mod.rs:70-76, [EventType::fmt]. *)
Definition event_type_display (e : EventType) : str :=
  match e with EvAdded => lit "added" | EvUpdated => lit "updated" | EvRemoved => lit "removed" end.

(** Without the time stamp.

    Source: crates/codegen/xai-hunk-tracker/src/loc/mod.rs:81-122, [HunkRecord]. *)
Record HunkRecord := mkRecord {
  rec_hunk_id : HunkId;
  rec_file_path : PathBuf;
  rec_hunk_start : nat;
  rec_hunk_end : nat;
  rec_lines_added : Z;
  rec_lines_removed : Z;
  rec_author_type : option AuthorType;
  rec_author_id : option str;
  rec_agent_id : str;
  rec_session_id : str;
  rec_prompt_index : option nat;
  rec_source_type : option SourceType;
  rec_event_type : EventType;
  rec_removal_reason : option HunkRemovalReason;
}.

Definition with_lines (r : HunkRecord) (added removed : Z) : HunkRecord :=
  mkRecord (rec_hunk_id r) (rec_file_path r) (rec_hunk_start r) (rec_hunk_end r) added removed
    (rec_author_type r) (rec_author_id r) (rec_agent_id r) (rec_session_id r) (rec_prompt_index r)
    (rec_source_type r) (rec_event_type r) (rec_removal_reason r).

Definition count_i64 (n : nat) : Z := wrap_i64 (Z.of_nat n).

(** Source: crates/codegen/xai-hunk-tracker/src/loc/mod.rs:128-182, [HunkRecord::from_hunk]. *)
Definition record_from_hunk (hunk : Hunk) (session_id agent_id : str) (user_id : option str) (event_type : EventType)
    (attribution_source : HunkSource) : HunkRecord :=
  let '(author_type, author_id, prompt_index, source_type) :=
    match attribution_source with
    | AgentEdit i => (AuthorAgent, Some agent_id, Some i, SrcAgentEdit)
    | ExternalEditOnAgentFile => (AuthorHuman, user_id, None, SrcExternalEditOnAgentFile)
    | External => (AuthorHuman, user_id, None, SrcExternal)
    end in
  let l := h_lines hunk in
  let '(start, count) :=
    if Nat.eqb (new_count l) 0 then (old_start l, old_count l) else (new_start l, new_count l) in
  let hunk_end := if Nat.eqb count 0 then start else start + count - 1 in
  mkRecord (h_id hunk) (h_path hunk) start hunk_end (count_i64 (new_count l)) (count_i64 (old_count l))
    (Some author_type) author_id agent_id session_id prompt_index (Some source_type) event_type None.

(** ** The sink *)

(** Source: crates/codegen/xai-hunk-tracker/src/loc/mod.rs:255-270, [LocAggregate]. *)
Inductive LocAggregate :=
  | LinesChanged (author_type : AuthorType) (lines_added lines_removed : Z) (file_path : PathBuf)
  | LinesReverted (lines_added_reverted lines_removed_reverted : Z).

(** [has_aggregate_tx]: whether somebody listens to the aggregates.

    Source: crates/codegen/xai-hunk-tracker/src/loc/mod.rs:273-283, [LocSinkContext]. *)
Record LocSinkContext := mkSinkContext {
  ctx_session_id : str;
  ctx_agent_id : str;
  ctx_user_id : option str;
  has_aggregate_tx : bool;
}.

(** The accumulated lines by hunk, the number of writes tried, the records written
    and the aggregates sent. *)
Record LocSink := mkSink {
  sink_acc : gmap HunkId (Z * Z);
  sink_writes : nat;
  sink_records : list HunkRecord;
  sink_aggregates : list LocAggregate;
}.

Section sink.
(** Whether the [n]-th write fails. *)
Context (write_fails : nat -> bool) (ctx : LocSinkContext).

(** A record that cannot be written is dropped.

    Source: crates/codegen/xai-hunk-tracker/src/loc/mod.rs:452-468, [write_record]. *)
Definition write_record (r : HunkRecord) (s : LocSink) : LocSink :=
  mkSink (sink_acc s) (S (sink_writes s))
    (if write_fails (sink_writes s) then sink_records s else sink_records s ++ [r]) (sink_aggregates s).

Definition send_aggregate (a : LocAggregate) (s : LocSink) : LocSink :=
  mkSink (sink_acc s) (sink_writes s) (sink_records s)
    (if has_aggregate_tx ctx then sink_aggregates s ++ [a] else sink_aggregates s).

Definition accumulate (id : HunkId) (added removed : Z) (s : LocSink) : LocSink :=
  let '(a, r) := default (0%Z, 0%Z) (sink_acc s !! id) in
  mkSink (<[id := (wrap_i64 (a + added), wrap_i64 (r + removed))]> (sink_acc s)) (sink_writes s) (sink_records s)
    (sink_aggregates s).

Definition forget (id : HunkId) (s : LocSink) : LocSink :=
  mkSink (delete id (sink_acc s)) (sink_writes s) (sink_records s) (sink_aggregates s).

Definition removed_record (path : PathBuf) (id : HunkId) (added removed : Z) (reason : HunkRemovalReason) : HunkRecord :=
  mkRecord id path 0 0 added removed None None (ctx_agent_id ctx) (ctx_session_id ctx) None None EvRemoved (Some reason).

Definition record_of (hunk : Hunk) (e : EventType) (source : HunkSource) : HunkRecord :=
  record_from_hunk hunk (ctx_session_id ctx) (ctx_agent_id ctx) (ctx_user_id ctx) e source.

(** What the two events with a hunk do with its record. *)
Definition changed (r : HunkRecord) (default_author : AuthorType) (s : LocSink) : LocSink :=
  let s := accumulate (rec_hunk_id r) (rec_lines_added r) (rec_lines_removed r) s in
  let s := send_aggregate (LinesChanged (default default_author (rec_author_type r)) (rec_lines_added r)
                             (rec_lines_removed r) (rec_file_path r)) s in
  write_record r s.

(** A hunk rejected or superseded.

    Source: crates/codegen/xai-hunk-tracker/src/loc/mod.rs:402-433, [handle_event]. *)
Definition revert (path : PathBuf) (hunk_id : HunkId) (reason : HunkRemovalReason) (s : LocSink) : LocSink :=
  match sink_acc s !! hunk_id with
  | None => s
  | Some (total_added, total_removed) =>
      let s := forget hunk_id s in
      if Z.eqb total_added 0 && Z.eqb total_removed 0 then s
      else
        let s := send_aggregate (LinesReverted (Z.max total_added 0) (Z.max total_removed 0)) s in
        write_record (removed_record path hunk_id (wrap_i64 (- total_added)) (wrap_i64 (- total_removed)) reason) s
  end.

(** Source: crates/codegen/xai-hunk-tracker/src/loc/mod.rs:323-449, [handle_event]. *)
Definition sink_event (s : LocSink) (event : HunkEvent) : LocSink :=
  match event with
  | HunkAdded _ hunk => changed (record_of hunk EvAdded (h_source hunk)) AuthorAgent s
  | HunkContentChanged _ hunk trigger_source prev_lines_added prev_lines_removed =>
      let record := record_of hunk EvUpdated trigger_source in
      let l := h_lines hunk in
      changed (with_lines record (wrap_i64 (count_i64 (new_count l) - count_i64 prev_lines_added))
                 (wrap_i64 (count_i64 (old_count l) - count_i64 prev_lines_removed))) AuthorHuman s
  | HunkRemoved _ hunk_id Accepted => forget hunk_id s
  | HunkRemoved path hunk_id reason => revert path hunk_id reason s
  | HunkMoved _ _ _ | FileAdded _ _ | FileRemoved _ | BaselineUpdated _ => s
  end.

(** All events of a session: until the channel is closed or, on cancellation, until
    what is left in it has been drained.

    Source: crates/codegen/xai-hunk-tracker/src/loc/mod.rs:288-320, [run_loc_sink]. *)
Definition run_loc_sink (events : list HunkEvent) : LocSink := foldl sink_event (mkSink ∅ 0 [] []) events.
End sink.

(** ** The ledger of a hunk

    The reference: what a hunk has contributed for good, by being accepted, and what
    it contributes while it is pending. *)
Inductive Side := SideAdded | SideRemoved.

Definition side_count (side : Side) (l : HunkLineInfo) : Z :=
  Z.of_nat (match side with SideAdded => new_count l | SideRemoved => old_count l end).

Definition side_record (side : Side) (r : HunkRecord) : Z :=
  match side with SideAdded => rec_lines_added r | SideRemoved => rec_lines_removed r end.

Definition ledger_step (side : Side) (id : HunkId) (acc : Z * Z) (event : HunkEvent) : Z * Z :=
  let '(kept, pending) := acc in
  match event with
  | HunkAdded _ hunk => if str_eqb (h_id hunk) id then (kept, pending + side_count side (h_lines hunk))%Z else acc
  | HunkContentChanged _ hunk _ prev_added prev_removed =>
      let prev := Z.of_nat (match side with SideAdded => prev_added | SideRemoved => prev_removed end) in
      if str_eqb (h_id hunk) id then (kept, pending + (side_count side (h_lines hunk) - prev))%Z else acc
  | HunkRemoved _ hunk_id reason =>
      if str_eqb hunk_id id
      then match reason with Accepted => (kept + pending, 0)%Z | Rejected | Superseded => (kept, 0%Z) end
      else acc
  | _ => acc
  end.

Definition ledger (side : Side) (id : HunkId) (events : list HunkEvent) : Z * Z :=
  foldl (ledger_step side id) (0, 0)%Z events.

(** The sum over the records of a hunk. *)
Definition recorded (side : Side) (id : HunkId) (rs : list HunkRecord) : Z :=
  foldr Z.add 0%Z (map (side_record side) (List.filter (fun r => str_eqb (rec_hunk_id r) id) rs)).

(** *** Arithmetic modulo 2^64 *)

Lemma wrap_eq a b : wrap_i64 a = wrap_i64 b <-> (a `mod` 2 ^ 64 = b `mod` 2 ^ 64)%Z.
Proof.
  unfold wrap_i64. split; intros Hw.
  - assert (Heq : ((a + 2 ^ 63) `mod` 2 ^ 64 = (b + 2 ^ 63) `mod` 2 ^ 64)%Z) by lia.
    replace a with ((a + 2 ^ 63) - 2 ^ 63)%Z by lia. replace b with ((b + 2 ^ 63) - 2 ^ 63)%Z by lia.
    rewrite Zminus_mod, Heq, <- Zminus_mod. done.
  - by rewrite Zplus_mod, Hw, <- Zplus_mod.
Qed.

Lemma wrap_id a : (wrap_i64 a `mod` 2 ^ 64 = a `mod` 2 ^ 64)%Z.
Proof. unfold wrap_i64. rewrite Zminus_mod, Zmod_mod, <- Zminus_mod. f_equal. lia. Qed.

Definition same64 (a b : Z) : Prop := (a `mod` 2 ^ 64 = b `mod` 2 ^ 64)%Z.

#[local] Instance same64_equiv : Equivalence same64.
Proof. split; [by intros a|by intros a b|by intros a b c Hab Hbc; transitivity (b `mod` 2 ^ 64)%Z]. Qed.
#[local] Instance same64_add : Proper (same64 ==> same64 ==> same64) Z.add.
Proof. intros a a' Ha b b' Hb. unfold same64 in *. by rewrite Zplus_mod, Ha, Hb, <- Zplus_mod. Qed.
#[local] Instance same64_sub : Proper (same64 ==> same64 ==> same64) Z.sub.
Proof. intros a a' Ha b b' Hb. unfold same64 in *. by rewrite Zminus_mod, Ha, Hb, <- Zminus_mod. Qed.
#[local] Instance same64_opp : Proper (same64 ==> same64) Z.opp.
Proof. intros a a' Ha. change (same64 (- a) (- a')). rewrite <- !Z.sub_0_l. by rewrite Ha. Qed.

Lemma wrap_same a : same64 (wrap_i64 a) a.
Proof. apply wrap_id. Qed.

Lemma recorded_snoc side id rs r :
  recorded side id (rs ++ [r]) = (recorded side id rs + (if str_eqb (rec_hunk_id r) id then side_record side r else 0))%Z.
Proof.
  unfold recorded. rewrite List.filter_app, map_app, foldr_app. cbn.
  assert (Hz : ∀ l z, foldr Z.add z l = (foldr Z.add 0%Z l + z)%Z) by (induction l as [|x l IH]; intros z; cbn; [lia|rewrite IH; lia]).
  rewrite Hz. destruct (str_eqb _ _); cbn; lia.
Qed.

Section spec.
Context (ctx : LocSinkContext).

Definition side_of (side : Side) (p : Z * Z) : Z := match side with SideAdded => fst p | SideRemoved => snd p end.

(** The sink holds what is pending and its records add up to the ledger. *)
Definition balanced (id : HunkId) (l : Side -> Z * Z) (s : LocSink) : Prop :=
  ∀ side, same64 (side_of side (default (0, 0)%Z (sink_acc s !! id))) (snd (l side))
          ∧ same64 (recorded side id (sink_records s)) (fst (l side) + snd (l side)).

Let no_failure (_ : nat) : bool := false.

(** What an event with a hunk adds to the pending part. *)
Definition ledger_delta (side : Side) (event : HunkEvent) : Z :=
  match event with
  | HunkAdded _ hunk => side_count side (h_lines hunk)
  | HunkContentChanged _ hunk _ prev_added prev_removed =>
      (side_count side (h_lines hunk) - Z.of_nat (match side with SideAdded => prev_added | SideRemoved => prev_removed end))%Z
  | _ => 0%Z
  end.

Lemma changed_balanced id l s r a :
  balanced id l s ->
  balanced id (fun side => if str_eqb (rec_hunk_id r) id then (fst (l side), (snd (l side) + side_record side r)%Z) else l side)
    (changed no_failure ctx r a s).
Proof.
  intros Hb side. destruct (Hb side) as [Ha Hr]. unfold changed, accumulate.
  destruct (default (0, 0)%Z (sink_acc s !! rec_hunk_id r)) as [x y] eqn:Hd.
  unfold write_record, send_aggregate, no_failure. cbn [sink_acc sink_records sink_writes sink_aggregates].
  rewrite recorded_snoc.
  destruct (str_eqb (rec_hunk_id r) id) eqn:He.
  - apply str_eqb_eq in He as <-. rewrite lookup_insert_eq. rewrite Hd in Ha. cbn [default fst snd]. split.
    + destruct side; cbn in *; by rewrite wrap_same, Ha.
    + rewrite Hr. by rewrite Z.add_assoc.
  - assert (Hne : rec_hunk_id r ≠ id) by (intros Hid; by rewrite Hid, str_eqb_refl in He).
    rewrite lookup_insert_ne by done. split; [done|]. by rewrite Z.add_0_r.
Qed.

Lemma balanced_ext id l l' s : (∀ side, l side = l' side) -> balanced id l s -> balanced id l' s.
Proof. intros Heq Hb side. rewrite <- Heq. apply Hb. Qed.

Lemma str_eqb_ne (a b : str) : a ≠ b -> str_eqb a b = false.
Proof. intros Hne. destruct (str_eqb a b) eqn:He; [by apply str_eqb_eq in He|done]. Qed.

(** Deleting the entry of [id], with records that take its sum to [kept]. *)
Lemma deleted_balanced id kept s s' :
  sink_acc s' = delete id (sink_acc s) -> (∀ side, same64 (recorded side id (sink_records s')) (kept side)) ->
  balanced id (fun side => (kept side, 0%Z)) s'.
Proof.
  intros Hacc Hr side. rewrite Hacc, lookup_delete_eq. cbn [fst snd default]. split; [by destruct side|].
  by rewrite Z.add_0_r.
Qed.

Lemma other_balanced id l s s' x :
  id ≠ x -> sink_acc s' !! id = sink_acc s !! id -> (∀ side, recorded side id (sink_records s') = recorded side id (sink_records s)) ->
  balanced id l s -> balanced id l s'.
Proof. intros Hne Hacc Hr Hb side. rewrite Hacc, Hr. apply Hb. Qed.

Lemma removed_balanced id l s path hunk_id reason :
  balanced id l s ->
  balanced id (fun side => ledger_step side id (l side) (HunkRemoved path hunk_id reason))
    (sink_event no_failure ctx s (HunkRemoved path hunk_id reason)).
Proof.
  intros Hb. destruct (decide (hunk_id = id)) as [->|Hne].
  - assert (Hstep : ∀ side, (match reason with Accepted => (fst (l side) + snd (l side), 0) | _ => (fst (l side), 0) end
              = ledger_step side id (l side) (HunkRemoved path id reason))%Z).
    { intros side. unfold ledger_step. destruct (l side). rewrite str_eqb_refl. by destruct reason. }
    eapply balanced_ext; [exact Hstep|]. clear Hstep.
    assert (Hrev : balanced id (fun side => (fst (l side), 0%Z)) (revert no_failure ctx path id reason s)).
    { unfold revert. destruct (sink_acc s !! id) as [[x y]|] eqn:Hs.
      - destruct (Z.eqb x 0 && Z.eqb y 0) eqn:Hz.
        + apply andb_true_iff in Hz as [->%Z.eqb_eq ->%Z.eqb_eq]. apply (deleted_balanced id _ s); [done|].
          intros side. destruct (Hb side) as [Ha Hr]. rewrite Hs in Ha. cbn [sink_records forget].
          rewrite Hr, <- Ha. destruct side; cbn; by rewrite Z.add_0_r.
        + apply (deleted_balanced id _ s); [done|]. intros side. destruct (Hb side) as [Ha Hr]. rewrite Hs in Ha.
          unfold write_record, send_aggregate, no_failure, forget. cbn [sink_records]. rewrite recorded_snoc.
          cbn [rec_hunk_id removed_record]. rewrite str_eqb_refl, Hr, <- Ha.
          destruct side; cbn; rewrite wrap_same; apply eq_subrelation; [typeclasses eauto|lia|typeclasses eauto|lia].
      - intros side. destruct (Hb side) as [Ha Hr]. rewrite Hs in Ha |- *. cbn [default fst snd] in *.
        split; [by destruct side|]. rewrite Hr, <- Ha. by destruct side. }
    destruct reason; [|exact Hrev..].
    apply (deleted_balanced id _ s); [done|]. intros side. apply Hb.
  - apply (balanced_ext id l); [intros side; unfold ledger_step; rewrite str_eqb_ne by done; by destruct (l side)|].
    apply (other_balanced id l s _ hunk_id); [done|..|exact Hb].
    + destruct reason; cbn; unfold revert; [by rewrite lookup_delete_ne|..];
        (destruct (sink_acc s !! hunk_id) as [[x y]|]; [|done]); destruct (_ && _); cbn; by rewrite lookup_delete_ne.
    + intros side. destruct reason; cbn; unfold revert; [done|..];
        (destruct (sink_acc s !! hunk_id) as [[x y]|]; [|done]); destruct (_ && _); try done;
        unfold write_record, send_aggregate, no_failure, forget; cbn [sink_records]; rewrite recorded_snoc;
        cbn [rec_hunk_id removed_record]; rewrite str_eqb_ne by done; apply Z.add_0_r.
Qed.

Lemma changed_step id l s r a (e : HunkEvent) :
  (∀ side, ledger_step side id (l side) e
     = if str_eqb (rec_hunk_id r) id then (fst (l side), (snd (l side) + ledger_delta side e)%Z) else l side) ->
  (∀ side, same64 (side_record side r) (ledger_delta side e)) ->
  balanced id l s -> balanced id (fun side => ledger_step side id (l side) e) (changed no_failure ctx r a s).
Proof.
  intros Hl Hd Hb side. destruct (changed_balanced id l s r a Hb side) as [Ha Hr]. rewrite Ha, Hr, Hl.
  destruct (str_eqb (rec_hunk_id r) id); [|by split]. cbn [fst snd]. by rewrite Hd.
Qed.

Lemma sink_event_balanced id l s e :
  balanced id l s -> balanced id (fun side => ledger_step side id (l side) e) (sink_event no_failure ctx s e).
Proof.
  intros Hb. destruct e as [p h|p id' reason|p id' info|p h src pa pr|p b|p|p]; cbn [sink_event].
  - apply changed_step; [..|done]; intros side.
    + unfold ledger_step, record_of, record_from_hunk. destruct (l side).
      by destruct (h_source h), (Nat.eqb _ _).
    + unfold record_of, record_from_hunk, count_i64. by destruct side, (h_source h), (Nat.eqb _ _); apply wrap_same.
  - by apply removed_balanced.
  - apply (balanced_ext id l); [|done]. intros side. cbn. by destruct (l side).
  - apply changed_step; [..|done]; intros side.
    + unfold ledger_step, record_of, record_from_hunk. destruct (l side).
      by destruct src, (Nat.eqb _ _).
    + cbn [with_lines]. unfold ledger_delta, side_count, count_i64. destruct side; cbn; by rewrite !wrap_same.
  - apply (balanced_ext id l); [|done]. intros side. cbn. by destruct (l side).
  - apply (balanced_ext id l); [|done]. intros side. cbn. by destruct (l side).
  - apply (balanced_ext id l); [|done]. intros side. cbn. by destruct (l side).
Qed.

(** The records of a hunk add up to its ledger, to the width of the counters:
    what it contributed when it was accepted, plus what it contributes while
    pending, with nothing left of a hunk that was rejected or superseded. The sink
    holds exactly the pending part. *)
Theorem records_add_up events id side :
  let s := run_loc_sink no_failure ctx events in
  wrap_i64 (recorded side id (sink_records s))
    = wrap_i64 (fst (ledger side id events) + snd (ledger side id events))
  ∧ wrap_i64 (side_of side (default (0, 0)%Z (sink_acc s !! id))) = wrap_i64 (snd (ledger side id events)).
Proof.
  assert (Hall : balanced id (fun side => ledger side id events) (run_loc_sink no_failure ctx events)).
  { unfold run_loc_sink, ledger. induction events as [|e es IH] using rev_ind.
    - intros side'. cbn. by destruct side'.
    - apply (balanced_ext id (fun side => ledger_step side id (foldl (ledger_step side id) (0, 0)%Z es) e)).
      + intros side'. by rewrite foldl_app.
      + rewrite foldl_app. by apply sink_event_balanced. }
  destruct (Hall side) as [Ha Hr]. split; by apply wrap_eq.
Qed.
End spec.

(** ** Splitting and merging hunks

    The delta of a changed hunk is taken from the hunk with its identifier or, if
    there is none, from the first that it overlaps. A hunk that splits in two has
    its lines subtracted twice, and of two that merge one is never subtracted: the
    records of the file no longer add up to the lines of its hunks. *)
Definition demo_context : LocSinkContext := mkSinkContext (lit "s") (lit "a") None true.

#[local] Existing Instances demo_uuids demo_diff.

Definition demo_merged : Tracker Files :=
  snd (tracker_handle_command (RecordAgentWrite demo_file (lit "1" ++ nl ++ lit "2" ++ nl ++ lit "3" ++ nl) 2 None) demo_written).
Definition demo_split : Tracker Files :=
  snd (tracker_handle_command (RecordAgentWrite demo_file demo_new 3 None) demo_merged).

Definition all_recorded (t : Tracker Files) : Z :=
  foldr Z.add 0%Z (map rec_lines_added (sink_records (run_loc_sink (fun _ => false) demo_context (t_events t)))).
Definition all_shown (t : Tracker Files) : Z := foldr Z.add 0%Z (map (fun h => side_count SideAdded (h_lines h)) (get_all_hunks t)).

Example recorded_before_merge : (all_recorded demo_written, all_shown demo_written) = (2, 2)%Z.
Proof. vm_compute. reflexivity. Qed.

Example merged_hunks_count_twice : (all_recorded demo_merged, all_shown demo_merged) = (4, 3)%Z.
Proof. vm_compute. reflexivity. Qed.

Example split_hunk_subtracts_twice : (all_recorded demo_split, all_shown demo_split) = (0, 2)%Z.
Proof. vm_compute. reflexivity. Qed.
