(* ===== verification/LhcKeys.v ===== *)
(** * The keys of captured events

    [grok-lhc-host/src/idempotency.rs] and the file names of [session.rs]: every
    event captured from a conversation gets a key made of the session, the digest
    of its item, how often that item occurred before and the kind of the event. The
    archive records a key once, so the keys decide what is recorded. *)

From Stdlib Require Import DecimalString.
From S2P Require Import Prelude RustStr Conversation.

(** ** Text *)

Definition colon : ascii := byte 58.

(** [s.split(c).next()]: what is before the first [c], or everything. *)
Definition before (c : ascii) (s : str) : str := from_option fst s (split_once c s).

Definition digit_value (c : ascii) : N := (N_of_ascii c - 48)%N.

(** [s.parse::<u64>()]. *)
Definition parse_u64 (s : str) : option N :=
  let digits := match s with c :: (_ :: _) as rest => if ch_eqb c (byte 43) then rest else s | _ => s end in
  if is_empty digits || negb (forallb is_ascii_digit digits) then None
  else
    let n := foldl (fun n c => (10 * n + digit_value c)%N) 0%N digits in
    if N.leb n u64_max then Some n else None.

(** ** Keys *)

(** Source: crates/lhc/grok-lhc-host/src/idempotency.rs:28-28, [ITEM_KEY_GENERATION]. *)
Definition ITEM_KEY_GENERATION : N := 0.

(** Source: crates/lhc/grok-lhc-host/src/idempotency.rs:72-74, [encode_session_id]. *)
Definition encode_session_id (session_id : str) : str :=
  replace (lit ":") (lit "%3A") (replace (lit "%") (lit "%25") session_id).

(** Source: crates/lhc/grok-lhc-host/src/idempotency.rs:101-118, [item_event_key]. *)
Definition item_event_key (session_id : str) (generation : N) (digest : str) (occurrence : N) (event_kind : str)
    (part : option str) : str :=
  let sid := encode_session_id session_id in
  let head := lit "grok:" ++ sid ++ lit ":g" ++ show_N generation ++ lit ":" ++ digest ++ lit ":"
              ++ show_N occurrence ++ lit ":" ++ event_kind in
  match part with
  | Some part => head ++ lit ":" ++ part
  | None => head
  end.

(** Source: crates/lhc/grok-lhc-host/src/idempotency.rs:121-124, [model_change_key]. *)
Definition model_change_key (session_id : str) (ordinal : N) (previous new : str) : str :=
  lit "grok:" ++ encode_session_id session_id ++ lit ":model_change:" ++ show_N ordinal ++ lit ":" ++ previous
  ++ lit ":" ++ new.

(** Source: crates/lhc/grok-lhc-host/src/idempotency.rs:127-135, [thinking_level_change_key]. *)
Definition thinking_level_change_key (session_id : str) (ordinal : N) (previous new : str) : str :=
  lit "grok:" ++ encode_session_id session_id ++ lit ":thinking_level_change:" ++ show_N ordinal ++ lit ":" ++ previous
  ++ lit ":" ++ new.

(** The ordinal after the first occurrence of [marker], plus one. *)
Definition ordinal_after (marker key : str) : option N :=
  idx ← find marker key;
  ord ← parse_u64 (before colon (drop (idx + length marker) key));
  Some (sat_add64 ord 1).

(** Source: crates/lhc/grok-lhc-host/src/idempotency.rs:138-153, [max_change_ordinal_from_keys]. *)
Definition max_change_ordinal_from_keys (keys : list str) : N :=
  foldl (fun mx key =>
    foldl (fun mx marker => from_option (N.max mx) mx (ordinal_after marker key)) mx
      [lit ":model_change:"; lit ":thinking_level_change:"]) 0%N keys.

(** ** Occurrences *)

(** The next occurrence of each digest.

    Source: crates/lhc/grok-lhc-host/src/idempotency.rs:34-38, [OccurrenceTracker]. *)
Abbreviation OccurrenceTracker := (gmap str N).

(** Source: crates/lhc/grok-lhc-host/src/idempotency.rs:41-43, [OccurrenceTracker::new]. *)
Definition tracker_empty : OccurrenceTracker := ∅.

Definition count_of (t : OccurrenceTracker) (digest : str) : N := default 0%N (t !! digest).

(** Source: crates/lhc/grok-lhc-host/src/idempotency.rs:46-51, [OccurrenceTracker::next]. *)
Definition next_occurrence (t : OccurrenceTracker) (digest : str) : N * OccurrenceTracker :=
  let occ := count_of t digest in (occ, <[digest := wrap64 (occ + 1)]> t).

(** Source: crates/lhc/grok-lhc-host/src/idempotency.rs:57-62, [OccurrenceTracker::merge_monotonic]. *)
Definition merge_monotonic (t other : OccurrenceTracker) : OccurrenceTracker :=
  union_with (fun a b => Some (N.max a b)) t other.

(** Source: crates/lhc/grok-lhc-host/src/idempotency.rs:65-68, [OccurrenceTracker::observe]. *)
Definition observe (t : OccurrenceTracker) (digest : str) (occ : N) : OccurrenceTracker :=
  <[digest := N.max (count_of t digest) (sat_add64 occ 1)]> t.

(** Source: crates/lhc/grok-lhc-host/src/idempotency.rs:169-186, [parse_item_key_digest_occ]. *)
Definition parse_item_key_digest_occ (key : str) : option (str * N) :=
  rest ← strip_prefix (lit "grok:") key;
  '(_, after_sid) ← split_once colon rest;
  after_g ← strip_prefix (lit "g") after_sid;
  '(_, rest) ← split_once colon after_g;
  '(digest, rest) ← split_once colon rest;
  '(occ_str, _) ← split_once colon rest;
  occ ← parse_u64 occ_str;
  if is_empty digest then None else Some (digest, occ).

(** Source: crates/lhc/grok-lhc-host/src/idempotency.rs:159-167, [seed_occurrence_from_keys]. *)
Definition seed_occurrence_from_keys (keys : list str) : OccurrenceTracker :=
  foldl (fun t key =>
    match parse_item_key_digest_occ key with
    | Some (digest, occ) => observe t digest occ
    | None => t
    end) tracker_empty keys.

(** ** Thread files *)

(** Source: crates/lhc/grok-lhc-host/src/session.rs:798-804, [nibble_hex]. *)
Definition nibble_hex (n : N) : ascii :=
  if N.leb n 9 then byte (48 + n) else if N.leb n 15 then byte (65 + (n - 10)) else byte 48.

Definition path_safe (c : ascii) : bool :=
  ch_between 48 57 c || ch_between 65 90 c || ch_between 97 122 c || ch_eqb c (byte 45) || ch_eqb c (byte 95).

Definition path_byte (c : ascii) : str :=
  if path_safe c then [c]
  else [byte 37; nibble_hex (N.shiftr (N_of_ascii c) 4); nibble_hex (N.land (N_of_ascii c) 15)].

(** Source: crates/lhc/grok-lhc-host/src/session.rs:783-796, [encode_session_id_for_path]. *)
Definition encode_session_id_for_path (session_id : str) : str := concat (map path_byte session_id).

(** ** Lemmas on text *)

Lemma split_once_app c a b : c ∉ a -> split_once c (a ++ c :: b) = Some (a, b).
Proof.
  induction a as [|x a IH]; cbn [app split_once]; intros Hc; [by rewrite ch_eqb_refl|].
  rewrite not_elem_of_cons in Hc. destruct Hc as [Hx Hc].
  destruct (ch_eqb x c) eqn:He; [apply ch_eqb_eq in He; congruence|]. by rewrite IH.
Qed.

Lemma split_once_none c s : c ∉ s -> split_once c s = None.
Proof.
  induction s as [|x s IH]; cbn [split_once]; intros Hc; [done|]. rewrite not_elem_of_cons in Hc. destruct Hc as [Hx Hc].
  destruct (ch_eqb x c) eqn:He; [apply ch_eqb_eq in He; congruence|]. by rewrite IH.
Qed.

Lemma before_app c a b : c ∉ a -> before c (a ++ c :: b) = a.
Proof. intros Hc. unfold before. by rewrite split_once_app. Qed.

(** Two texts cut at their first [c]. *)
Lemma cut_inj (c : ascii) (a a' b b' : str) : c ∉ a -> c ∉ a' -> a ++ c :: b = a' ++ c :: b' -> a = a' ∧ b = b'.
Proof.
  intros Ha Ha' Heq. pose proof (split_once_app c a b Ha) as H1. rewrite Heq, split_once_app in H1 by done. by simplify_eq.
Qed.

Lemma show_N_no c n : is_ascii_digit c = false -> c ∉ show_N n.
Proof.
  intros Hc Hin. destruct (show_N_digits n) as [Hd _]. rewrite Forall_forall in Hd. by rewrite Hd in Hc.
Qed.

Lemma parse_show_u64 n : (n <= u64_max)%N -> parse_u64 (show_N n) = Some n.
Proof.
  intros Hn. destruct (show_N_digits n) as [Hd Hne].
  assert (Hdig : (match show_N n with c :: (_ :: _) as rest => if ch_eqb c (byte 43) then rest else show_N n | _ => show_N n end) = show_N n).
  { destruct (show_N n) as [|c [|d s]]; [done..|]. inversion Hd as [|? ? Hc _]. subst.
    destruct (ch_eqb c (byte 43)) eqn:He; [|done]. by apply ch_eqb_eq in He as ->. }
  unfold parse_u64. rewrite Hdig, (proj2 (is_empty_false _)) by done.
  rewrite (proj2 (forallb_forall _ _)) by (intros c Hc; rewrite Forall_forall in Hd; apply Hd; by rewrite list_elem_of_In).
  cbn [orb negb]. change (foldl _ 0%N (show_N n)) with (digits_value 0 (show_N n)). rewrite digits_value_show.
  by apply N.leb_le in Hn as ->.
Qed.

(** Replacing one character. *)
Lemma replace_char c r s : replace [c] r s = concat (map (fun x => if ch_eqb c x then r else [x]) s).
Proof.
  induction s as [|x s IH]; [done|]. unfold replace in *. cbn [replace_from starts_with map concat length pred].
  destruct (ch_eqb c x); cbn [andb]; by rewrite IH.
Qed.

Definition encoded_byte (c : ascii) : str :=
  if ch_eqb (byte 37) c then lit "%25" else if ch_eqb colon c then lit "%3A" else [c].

Lemma encode_bytes s : encode_session_id s = concat (map encoded_byte s).
Proof.
  unfold encode_session_id. change (lit ":") with [colon]. change (lit "%") with [byte 37].
  rewrite !replace_char. induction s as [|c s IH]; [done|].
  cbn [map concat]. rewrite map_app, concat_app, IH. f_equal. unfold encoded_byte.
  destruct (ch_eqb (byte 37) c); [reflexivity|]. cbn. by rewrite app_nil_r.
Qed.

Lemma encode_no_colon s : colon ∉ encode_session_id s.
Proof.
  rewrite encode_bytes, concat_elem. intros (k & (c & -> & _)%list_elem_of_fmap & Hin). unfold encoded_byte in Hin.
  destruct (ch_eqb (byte 37) c); [revert Hin; by_decide|].
  destruct (ch_eqb colon c) eqn:He; [revert Hin; by_decide|].
  apply list_elem_of_singleton in Hin as <-. by rewrite ch_eqb_refl in He.
Qed.

(** ** The structure of keys *)

Lemma encoded_byte_inj c c' a a' : encoded_byte c ++ a = encoded_byte c' ++ a' -> c = c' ∧ a = a'.
Proof.
  unfold encoded_byte. intros Heq.
  destruct (ch_eqb (byte 37) c) eqn:H1; [apply ch_eqb_eq in H1 as <-|destruct (ch_eqb colon c) eqn:H2; [apply ch_eqb_eq in H2 as <-|]];
    (destruct (ch_eqb (byte 37) c') eqn:H3; [apply ch_eqb_eq in H3 as <-|destruct (ch_eqb colon c') eqn:H4; [apply ch_eqb_eq in H4 as <-|]]);
    cbn in *; simplify_eq; try done; by rewrite ?ch_eqb_refl in *.
Qed.

Lemma encode_session_id_inj : Inj (=) (=) encode_session_id.
Proof.
  intros s s'. rewrite !encode_bytes. revert s'. induction s as [|c s IH]; intros [|c' s'] Heq; [done|..].
  - exfalso. revert Heq. cbn [map concat]. unfold encoded_byte. by repeat case_match.
  - exfalso. revert Heq. cbn [map concat]. unfold encoded_byte. by repeat case_match.
  - cbn [map concat] in Heq. apply encoded_byte_inj in Heq as [-> Heq]. f_equal. by apply IH.
Qed.

(** A digest is blake3 in hexadecimal. *)
Definition is_digest (d : str) : Prop := Forall (fun c => is_lower_hex c = true) d ∧ d ≠ [].

Lemma digest_no c d : is_lower_hex c = false -> is_digest d -> c ∉ d.
Proof. intros Hc [Hd _] Hin. rewrite Forall_forall in Hd. by rewrite Hd in Hc. Qed.

Lemma digest_no_colon d : is_digest d -> colon ∉ d.
Proof. by apply digest_no. Qed.

(** What follows the occurrence in an item key. *)
Definition key_tail (event_kind : str) (part : option str) : str :=
  event_kind ++ match part with Some part => colon :: part | None => [] end.

Lemma item_event_key_eq sid gen d occ kind part :
  item_event_key sid gen d occ kind part
  = lit "grok:" ++ encode_session_id sid ++ colon :: lit "g" ++ show_N gen ++ colon :: d ++ colon :: show_N occ
    ++ colon :: key_tail kind part.
Proof.
  unfold item_event_key, key_tail. destruct part; cbn [app]; rewrite ?app_nil_r; repeat (rewrite <- ?app_assoc; cbn [app]); done.
Qed.

Lemma key_tail_inj kind kind' part part' : colon ∉ kind -> colon ∉ kind' ->
  key_tail kind part = key_tail kind' part' -> kind = kind' ∧ part = part'.
Proof.
  unfold key_tail. intros Hk Hk' Heq.
  destruct part as [p|], part' as [p'|]; rewrite ?app_nil_r in Heq.
  - apply cut_inj in Heq as [-> ->]; done.
  - subst. destruct Hk'. rewrite elem_of_app. right. by left.
  - subst. destruct Hk. rewrite elem_of_app. right. by left.
  - done.
Qed.

Lemma show_N_no_colon n : colon ∉ show_N n.
Proof. by apply show_N_no. Qed.

Lemma parse_item_key sid gen d occ kind part : is_digest d -> (occ <= u64_max)%N ->
  parse_item_key_digest_occ (item_event_key sid gen d occ kind part) = Some (d, occ).
Proof.
  intros Hdig Hocc. pose proof (digest_no_colon _ Hdig) as Hd. destruct Hdig as [_ Hne]. rewrite item_event_key_eq. unfold parse_item_key_digest_occ.
  rewrite strip_prefix_app. cbn [mbind option_bind]. rewrite split_once_app by apply encode_no_colon.
  cbn [mbind option_bind]. rewrite strip_prefix_app. cbn [mbind option_bind]. rewrite split_once_app by apply show_N_no_colon.
  cbn [mbind option_bind]. rewrite split_once_app by done. cbn [mbind option_bind].
  rewrite split_once_app by apply show_N_no_colon. cbn [mbind option_bind].
  rewrite parse_show_u64 by done. cbn [mbind option_bind]. by rewrite (proj2 (is_empty_false _)).
Qed.

Lemma item_key_parts sid sid' gen gen' d d' occ occ' kind kind' part part' :
  colon ∉ d -> colon ∉ d' ->
  item_event_key sid gen d occ kind part = item_event_key sid' gen' d' occ' kind' part' ->
  sid = sid' ∧ gen = gen' ∧ d = d' ∧ occ = occ' ∧ key_tail kind part = key_tail kind' part'.
Proof.
  intros Hd Hd'. rewrite !item_event_key_eq. intros Heq. apply app_inv_head in Heq.
  apply cut_inj in Heq as [->%encode_session_id_inj Heq]; [|apply encode_no_colon..].
  apply app_inv_head in Heq. apply cut_inj in Heq as [->%show_N_inj Heq]; [|apply show_N_no_colon..].
  apply cut_inj in Heq as [-> Heq]; [|done..]. by apply cut_inj in Heq as [->%show_N_inj ?]; [|apply show_N_no_colon..].
Qed.

(** ** Seeding *)

Lemma count_observe t d occ d' :
  count_of (observe t d occ) d' = if decide (d = d') then N.max (count_of t d) (sat_add64 occ 1) else count_of t d'.
Proof. unfold observe, count_of. case_decide; [subst; by rewrite lookup_insert_eq|by rewrite lookup_insert_ne]. Qed.

Lemma count_seed_from t keys d :
  count_of (foldl (fun t key => match parse_item_key_digest_occ key with
                                | Some (digest, occ) => observe t digest occ | None => t end) t keys) d
  = foldr N.max (count_of t d)
      (omap (fun key => '(d', occ) ← parse_item_key_digest_occ key;
                        if decide (d' = d) then Some (sat_add64 occ 1) else None) keys).
Proof.
  assert (Hmax : ∀ l x y, foldr N.max (N.max x y) l = N.max y (foldr N.max x l)) by (induction l as [|z l IH]; intros x y; cbn; [lia|rewrite IH; lia]).
  revert t. induction keys as [|k keys IH]; intros t; [done|]. cbn [foldl omap list_omap]. rewrite IH.
  destruct (parse_item_key_digest_occ k) as [[d' occ]|]; cbn [mbind option_bind]; [|done].
  rewrite count_observe. case_decide; [subst; cbn [foldr]; by rewrite Hmax|done].
Qed.

(** The seed of a digest is one more than the largest occurrence among its keys. *)
Lemma count_seed keys d :
  count_of (seed_occurrence_from_keys keys) d
  = foldr N.max 0%N (omap (fun key => '(d', occ) ← parse_item_key_digest_occ key;
                        if decide (d' = d) then Some (sat_add64 occ 1) else None) keys).
Proof. apply count_seed_from. Qed.

Lemma foldr_max_ge l x : x ∈ l -> (x <= foldr N.max 0 l)%N.
Proof. induction 1; cbn; lia. Qed.

Lemma seed_above sid gen d occ kind part keys : is_digest d -> (occ <= u64_max)%N ->
  item_event_key sid gen d occ kind part ∈ keys ->
  (sat_add64 occ 1 <= count_of (seed_occurrence_from_keys keys) d)%N.
Proof.
  intros Hd Hocc Hin. rewrite count_seed. apply foldr_max_ge, list_elem_of_omap.
  eexists. split; [exact Hin|]. rewrite parse_item_key by done. cbn. by rewrite decide_True.
Qed.

(** A seed is known from the occurrences its keys hold. *)
Lemma seed_count keys d n : (n <= u64_max)%N ->
  (∀ key occ, key ∈ keys -> parse_item_key_digest_occ key = Some (d, occ) -> (occ < n)%N) ->
  ((0 < n)%N -> ∃ key, key ∈ keys ∧ parse_item_key_digest_occ key = Some (d, (n - 1)%N)) ->
  count_of (seed_occurrence_from_keys keys) d = n.
Proof.
  intros Hn Hall Hhit. rewrite count_seed.
  assert (Hle : ∀ l : list N, (∀ x, x ∈ l -> (x <= n)%N) -> (foldr N.max 0 l <= n)%N).
  { induction l as [|x l IH]; intros Hl; cbn; [lia|]. pose proof (Hl x ltac:(by left)).
    specialize (IH ltac:(intros y Hy; apply Hl; by right)). lia. }
  apply N.le_antisymm.
  - apply Hle. intros x (key & Hin & Hx)%list_elem_of_omap.
    destruct (parse_item_key_digest_occ key) as [[d' occ]|] eqn:Hp; cbn in Hx; [|done].
    case_decide; simplify_eq. specialize (Hall _ _ Hin Hp). unfold sat_add64. lia.
  - destruct (decide (0 < n)%N) as [Hpos|]; [|lia]. destruct (Hhit Hpos) as (key & Hin & Hp).
    apply foldr_max_ge, list_elem_of_omap. exists key. split; [done|]. rewrite Hp. cbn [mbind option_bind].
    rewrite decide_True by done. f_equal. unfold sat_add64. lia.
Qed.

(** ** Change ordinals *)

Definition change_marker (word : str) : str := colon :: word ++ [colon].

Definition change_key (word sid : str) (ordinal : N) (previous new : str) : str :=
  lit "grok:" ++ encode_session_id sid ++ change_marker word ++ show_N ordinal ++ colon :: previous ++ colon :: new.

Lemma model_change_key_eq sid ord p n : model_change_key sid ord p n = change_key (lit "model_change") sid ord p n.
Proof. done. Qed.

Lemma thinking_level_change_key_eq sid ord p n :
  thinking_level_change_key sid ord p n = change_key (lit "thinking_level_change") sid ord p n.
Proof. done. Qed.

Lemma find_change_marker word sid ord p n : colon ∉ word -> encode_session_id sid ≠ word ->
  find (change_marker word) (change_key word sid ord p n) = Some (5 + length (encode_session_id sid)).
Proof.
  intros Hw Hne. unfold change_key. cbn [lit String.list_ascii_of_string app]. set (e := encode_session_id sid) in *.
  assert (Hstep : ∀ c s, ch_eqb colon c = false -> find (change_marker word) (c :: s) = S <$> find (change_marker word) s).
  { intros c s Hc. apply find_cons. unfold change_marker. cbn [starts_with]. by rewrite Hc. }
  do 4 (rewrite Hstep by done). rewrite find_cons.
  - unfold change_marker. cbn [app].
    rewrite (find_after colon (word ++ [colon]) e) by apply encode_no_colon. done.
  - destruct (starts_with _ _) eqn:Hs; [|done]. apply starts_with_spec in Hs as [r Hr]. unfold change_marker in Hr.
    cbn [app] in Hr. injection Hr as Hr. rewrite <- !app_assoc in Hr. cbn [app] in Hr.
    apply cut_inj in Hr as [Heq _]; [done|apply encode_no_colon|done].
Qed.

Lemma ordinal_of_change_key word sid ord p n : colon ∉ word -> encode_session_id sid ≠ word -> (ord <= u64_max)%N ->
  ordinal_after (change_marker word) (change_key word sid ord p n) = Some (sat_add64 ord 1).
Proof.
  intros Hw Hne Hord. unfold ordinal_after. rewrite find_change_marker by done. cbn [mbind option_bind].
  assert (Hdrop : drop (5 + length (encode_session_id sid) + length (change_marker word)) (change_key word sid ord p n)
                  = show_N ord ++ colon :: p ++ colon :: n).
  { unfold change_key. rewrite (app_assoc (lit "grok:")), app_assoc. apply drop_app_length'. by rewrite !length_app. }
  rewrite Hdrop, before_app by apply show_N_no_colon. by rewrite parse_show_u64.
Qed.

Definition change_markers : list str := [lit ":model_change:"; lit ":thinking_level_change:"].

Lemma max_change_from keys mx :
  foldl (fun mx key => foldl (fun mx marker => from_option (N.max mx) mx (ordinal_after marker key)) mx change_markers) mx keys
  = foldr N.max mx (concat (map (fun key => omap (fun marker => ordinal_after marker key) change_markers) keys)).
Proof.
  assert (Hmax : ∀ l x y, foldr N.max (N.max x y) l = N.max y (foldr N.max x l)) by (induction l as [|z l IH]; intros x y; cbn; [lia|rewrite IH; lia]).
  revert mx. induction keys as [|k keys IH]; intros mx; [done|]. cbn [foldl map concat]. rewrite IH, foldr_app.
  unfold change_markers. cbn [foldl omap list_omap].
  destruct (ordinal_after (lit ":model_change:") k) as [x|], (ordinal_after (lit ":thinking_level_change:") k) as [y|];
    cbn [from_option foldr]; rewrite ?Hmax; lia.
Qed.

Lemma max_change_ge keys key marker ord : key ∈ keys -> marker ∈ change_markers ->
  ordinal_after marker key = Some ord -> (ord <= max_change_ordinal_from_keys keys)%N.
Proof.
  intros Hk Hm Ho. unfold max_change_ordinal_from_keys. fold change_markers. rewrite max_change_from.
  apply foldr_max_ge, concat_elem. eexists. split; [by apply list_elem_of_fmap_2|].
  apply list_elem_of_omap. by exists marker.
Qed.

Lemma change_key_fresh keys word sid p n : change_marker word ∈ change_markers -> colon ∉ word ->
  encode_session_id sid ≠ word -> (max_change_ordinal_from_keys keys < u64_max)%N ->
  change_key word sid (max_change_ordinal_from_keys keys) p n ∉ keys.
Proof.
  intros Hm Hw Hne Ho Hin.
  assert (Hge : (sat_add64 (max_change_ordinal_from_keys keys) 1 <= max_change_ordinal_from_keys keys)%N)
    by (eapply max_change_ge; [exact Hin|exact Hm|apply ordinal_of_change_key; [done..|lia]]).
  unfold sat_add64 in Hge. lia.
Qed.

(** *** Thread files *)

Definition unhex (c : ascii) : N := if N.leb (N_of_ascii c) 57 then N_of_ascii c - 48 else N_of_ascii c - 55.

Lemma path_byte_decode c :
  (16 * unhex (nibble_hex (N.shiftr (N_of_ascii c) 4)) + unhex (nibble_hex (N.land (N_of_ascii c) 15)))%N = N_of_ascii c.
Proof. by destruct c as [[] [] [] [] [] [] [] []]. Qed.

Lemma path_byte_inj c c' a a' : path_byte c ++ a = path_byte c' ++ a' -> c = c' ∧ a = a'.
Proof.
  unfold path_byte. destruct (path_safe c) eqn:Hc, (path_safe c') eqn:Hc'; cbn [app]; intros Heq; simplify_eq; try done.
  split; [|done]. rewrite <- (ascii_N_embedding c), <- (ascii_N_embedding c'), <- (path_byte_decode c), <- (path_byte_decode c').
  congruence.
Qed.

(** Two sessions never share a thread file. *)
Lemma encode_session_id_for_path_inj : Inj (=) (=) encode_session_id_for_path.
Proof.
  intros s s'. unfold encode_session_id_for_path. revert s'. induction s as [|c s IH]; intros [|c' s'] Heq; [done|..].
  - exfalso. revert Heq. cbn [map concat]. unfold path_byte. by case_match.
  - exfalso. revert Heq. cbn [map concat]. unfold path_byte. by case_match.
  - cbn [map concat] in Heq. apply path_byte_inj in Heq as [-> Heq]. f_equal. by apply IH.
Qed.

(** A session called like a marker hides its ordinals. *)
Example marker_session_not_seeded :
  max_change_ordinal_from_keys [model_change_key (lit "model_change") 7 (lit "a") (lit "b")] = 0%N.
Proof. vm_compute. reflexivity. Qed.

(** ** Theorems *)

(** A key identifies its event. Of a key minted for an item the digest and the
    occurrence can be read back, and two keys are equal only if session,
    generation, digest, occurrence, kind and part are. *)
Theorem item_keys_identify sid sid' gen gen' d d' occ occ' kind kind' part part' :
  is_digest d -> is_digest d' -> (occ <= u64_max)%N -> colon ∉ kind -> colon ∉ kind' ->
  parse_item_key_digest_occ (item_event_key sid gen d occ kind part) = Some (d, occ)
  ∧ (item_event_key sid gen d occ kind part = item_event_key sid' gen' d' occ' kind' part' ->
     sid = sid' ∧ gen = gen' ∧ d = d' ∧ occ = occ' ∧ kind = kind' ∧ part = part').
Proof.
  intros Hd Hd' Hocc Hk Hk'. split; [by apply parse_item_key|]. intros Heq.
  apply item_key_parts in Heq as (-> & -> & -> & -> & Ht); [|by apply digest_no_colon..].
  by apply key_tail_inj in Ht as [-> ->].
Qed.

(** A key minted after a restart is new. Seeded from the stored keys, the next
    occurrence of an item has a key that no stored one equals, and the next change
    ordinal is above that of every stored change, as long as no counter is at its
    limit and the session is not named like a marker. *)
Theorem seeding_is_fresh keys sid d :
  is_digest d -> (count_of (seed_occurrence_from_keys keys) d < u64_max)%N ->
  (max_change_ordinal_from_keys keys < u64_max)%N ->
  encode_session_id sid ≠ lit "model_change" -> encode_session_id sid ≠ lit "thinking_level_change" ->
  (∀ gen kind part, item_event_key sid gen d (fst (next_occurrence (seed_occurrence_from_keys keys) d)) kind part ∉ keys)
  ∧ (∀ p n, model_change_key sid (max_change_ordinal_from_keys keys) p n ∉ keys)
  ∧ (∀ p n, thinking_level_change_key sid (max_change_ordinal_from_keys keys) p n ∉ keys).
Proof.
  intros Hd Hc Ho Hm Ht. split; [|split].
  - intros gen kind part Hin. apply seed_above in Hin; [|done|]; cbn in *; unfold sat_add64 in *; lia.
  - intros p n. rewrite model_change_key_eq. by apply change_key_fresh; [left|by_decide|..].
  - intros p n. rewrite thinking_level_change_key_eq. by apply change_key_fresh; [right; left|by_decide|..].
Qed.

Definition demo_digest : str := lit "deadbeef".
Definition demo_keys : list str :=
  [item_event_key (lit "s:1") 0 demo_digest 4 (lit "user_prompt") None; model_change_key (lit "s:1") 2 (lit "a") (lit "b")].

Lemma demo_is_digest : is_digest demo_digest.
Proof. split; [repeat constructor|discriminate]. Qed.

Lemma item_keys_identify_witness :
  parse_item_key_digest_occ (item_event_key (lit "s:1") 0 demo_digest 4 (lit "tool_call") (Some (lit "c:1")))
  = Some (demo_digest, 4%N).
Proof.
  apply (item_keys_identify (lit "s:1") (lit "s") 0 0 demo_digest demo_digest 4 4 (lit "tool_call") (lit "tool_call")
    (Some (lit "c:1")) None); [apply demo_is_digest|apply demo_is_digest|lia|by_decide|by_decide].
Defined.

Lemma seeding_is_fresh_witness :
  fst (next_occurrence (seed_occurrence_from_keys demo_keys) demo_digest) = 5%N
  ∧ max_change_ordinal_from_keys demo_keys = 3%N
  ∧ ∀ p n, model_change_key (lit "s:1") (max_change_ordinal_from_keys demo_keys) p n ∉ demo_keys.
Proof.
  split; [vm_compute; reflexivity|]. split; [vm_compute; reflexivity|].
  apply (seeding_is_fresh demo_keys (lit "s:1") demo_digest);
    [apply demo_is_digest|vm_compute; reflexivity|vm_compute; reflexivity|vm_compute; discriminate|vm_compute; discriminate].
Defined.
