(* ===== verification/LhcTime.v ===== *)
(** * Times of captured events

    The clock of [grok-lhc-host/src/mapping.rs]: a second of the Unix epoch to a
    date and a time of day in UTC, by arithmetic on eras of 400 years, and its
    ISO-8601 text. The reference calendar counts days one by one with the leap
    years of the Gregorian calendar. *)

From S2P Require Import Prelude RustStr.

(** ** Time *)

(** [format!("{n:0w$}")]. *)
Definition pad (w : nat) (n : N) : str := let s := show_N n in replicate (w - length s) (byte 48) ++ s.

(** A [SystemTime]: nanoseconds from the Unix epoch, in a signed 64-bit count of seconds. *)
Abbreviation SystemTime := Z (only parsing).
Definition system_time_min : Z := (- 2 ^ 63 * 10 ^ 9)%Z.

(** [t.checked_sub(Duration::from_millis(ms))]. *)
Definition checked_sub_millis (t : SystemTime) (ms : N) : option SystemTime :=
  let r := (t - Z.of_N ms * 10 ^ 6)%Z in if Z.leb system_time_min r then Some r else None.

(** The date and time of a second: year, month, day, hour, minute, second.

    Source: crates/lhc/grok-lhc-host/src/mapping.rs:103-126, [civil_utc_from_unix_secs]. *)
Definition civil_utc_from_unix_secs (secs : Z) : N * N * N * N * N * N :=
  let day_secs := 86400%Z in
  let days := Z.quot secs day_secs in
  let rem := Z.rem secs day_secs in
  let hour := Z.quot rem 3600 in
  let minute := Z.quot (Z.rem rem 3600) 60 in
  let second := Z.rem rem 60 in
  let z := (days + 719468)%Z in
  let era := Z.quot (if Z.leb 0 z then z else z - 146096) 146097 in
  let doe := (z - era * 146097)%Z in
  let yoe := Z.quot (doe - Z.quot doe 1460 + Z.quot doe 36524 - Z.quot doe 146096) 365 in
  let y := (yoe + era * 400)%Z in
  let doy := (doe - (365 * yoe + Z.quot yoe 4 - Z.quot yoe 100))%Z in
  let mp := Z.quot (5 * doy + 2) 153 in
  let d := (doy - Z.quot (153 * mp + 2) 5 + 1)%Z in
  let m := if Z.ltb mp 10 then (mp + 3)%Z else (mp - 9)%Z in
  let y := if Z.leb m 2 then (y + 1)%Z else y in
  (wrap32 (Z.to_N y), wrap32 (Z.to_N m), wrap32 (Z.to_N d), wrap32 (Z.to_N hour), wrap32 (Z.to_N minute),
   wrap32 (Z.to_N second)).

(** Source: crates/lhc/grok-lhc-host/src/mapping.rs:94-100, [format_system_time_iso8601_millis]. *)
Definition format_system_time_iso8601_millis (t : SystemTime) : str :=
  let dur := if Z.ltb t 0 then 0%Z else t in
  let secs := Z.quot dur (10 ^ 9) in
  let millis := Z.to_N (Z.quot (Z.rem dur (10 ^ 9)) (10 ^ 6)) in
  let '(year, month, day, hour, minute, second) := civil_utc_from_unix_secs secs in
  pad 4 year ++ lit "-" ++ pad 2 month ++ lit "-" ++ pad 2 day ++ lit "T" ++ pad 2 hour ++ lit ":" ++ pad 2 minute
  ++ lit ":" ++ pad 2 second ++ lit "." ++ pad 3 millis ++ lit "Z".

(** ** Reference: days are counted one by one *)

Definition is_leap (y : Z) : bool :=
  (Z.eqb (y mod 4) 0 && negb (Z.eqb (y mod 100) 0)) || Z.eqb (y mod 400) 0.

Definition days_in_month (y m : Z) : Z :=
  if Z.eqb m 2 then (if is_leap y then 29 else 28)%Z
  else if Z.eqb m 4 || Z.eqb m 6 || Z.eqb m 9 || Z.eqb m 11 then 30%Z else 31%Z.

Definition next_day (date : Z * Z * Z) : Z * Z * Z :=
  let '(y, m, d) := date in
  if Z.ltb d (days_in_month y m) then (y, m, d + 1)%Z
  else if Z.ltb m 12 then (y, m + 1, 1)%Z
  else (y + 1, 1, 1)%Z.

(** The date [n] days after the first of January 1970. *)
Definition calendar (n : nat) : Z * Z * Z := Nat.iter n next_day (1970, 1, 1)%Z.

(** The date of the day [doe] of an era of 400 years that starts on the first of March. *)
Definition era_date (doe : Z) : Z * Z * Z :=
  let yoe := ((doe - doe / 1460 + doe / 36524 - doe / 146096) / 365)%Z in
  let doy := (doe - (365 * yoe + yoe / 4 - yoe / 100))%Z in
  let mp := ((5 * doy + 2) / 153)%Z in
  let d := (doy - (153 * mp + 2) / 5 + 1)%Z in
  let m := if Z.ltb mp 10 then (mp + 3)%Z else (mp - 9)%Z in
  (if Z.leb m 2 then yoe + 1 else yoe, m, d)%Z.

Definition plus_years (n : Z) (date : Z * Z * Z) : Z * Z * Z := let '(y, m, d) := date in (y + n, m, d)%Z.

Definition all_below (p : Z -> bool) (n : nat) : bool := forallb (fun k => p (Z.of_nat k)) (seq 0 n).

Lemma all_below_spec p n : all_below p n = true -> ∀ x, (0 <= x < Z.of_nat n)%Z -> p x = true.
Proof.
  unfold all_below. rewrite forallb_forall. intros Ha x Hx. rewrite <- (Z2Nat.id x) by lia.
  apply Ha, in_seq. lia.
Qed.

(** *** The years of an era: [y] counts from 0 to 399 and starts in March *)

Definition year_start (y : Z) : Z := (365 * y + y / 4 - y / 100)%Z.
Definition year_length (y : Z) : Z := if is_leap (y + 1) then 366%Z else 365%Z.
Definition year_at (doe : Z) : Z := ((doe - doe / 1460 + doe / 36524 - doe / 146096) / 365)%Z.

Definition year_ok (y : Z) : bool :=
  Z.eqb (year_at (year_start y)) y && Z.eqb (year_at (year_start y + year_length y - 1)) y
  && Z.eqb (year_start y + year_length y) (if Z.eqb y 399 then 146097 else year_start (y + 1))%Z.

Lemma year_checked y : (0 <= y < 400)%Z ->
  year_at (year_start y) = y ∧ year_at (year_start y + year_length y - 1) = y
  ∧ (year_start y + year_length y)%Z = (if Z.eqb y 399 then 146097 else year_start (y + 1))%Z.
Proof.
  intros Hy. assert (Hok : year_ok y = true) by (apply (all_below_spec year_ok 400); [vm_compute; reflexivity|lia]).
  apply andb_true_iff in Hok as [[H1 H2]%andb_true_iff H3]. by apply Z.eqb_eq in H1, H2, H3.
Qed.

Lemma sub_div_mono k a b : (1 < k -> a <= b -> a - a / k <= b - b / k)%Z.
Proof.
  intros Hk Hab. assert (b / k <= a / k + (b - a))%Z; [|lia].
  rewrite <- Z.div_add by lia. apply Z.div_le_mono; [lia|nia].
Qed.

Lemma year_end_le y : (0 <= y < 400)%Z -> (year_start y + year_length y <= 146097)%Z.
Proof.
  intros Hy. apply Z.leb_le.
  apply (all_below_spec (fun y => Z.leb (year_start y + year_length y) 146097) 400); [vm_compute; reflexivity|lia].
Qed.

Lemma year_at_mono a b : (0 <= a <= b)%Z -> (year_at a <= year_at b)%Z.
Proof.
  intros Hab. unfold year_at. apply Z.div_le_mono; [lia|].
  change 146096%Z with (36524 * 4)%Z. rewrite <- !Z.div_div by lia.
  assert (a / 36524 <= b / 36524)%Z by (apply Z.div_le_mono; lia).
  pose proof (sub_div_mono 1460 a b ltac:(lia) ltac:(lia)).
  pose proof (sub_div_mono 4 (a / 36524) (b / 36524) ltac:(lia) ltac:(done)). lia.
Qed.

Lemma year_start_nonneg y : (0 <= y -> 0 <= year_start y)%Z.
Proof.
  intros Hy. unfold year_start. assert (y / 100 <= y)%Z by (apply Z.div_le_upper_bound; lia).
  pose proof (Z.div_pos y 4). lia.
Qed.

Lemma year_at_bounds doe : (0 <= doe < 146097)%Z ->
  (0 <= year_at doe < 400 ∧ year_start (year_at doe) <= doe < year_start (year_at doe) + year_length (year_at doe))%Z.
Proof.
  intros Hdoe. set (y := year_at doe).
  assert (Hlo : (year_at 0 <= y)%Z) by (apply year_at_mono; lia). change (year_at 0) with 0%Z in Hlo.
  assert (Hhi : (y <= year_at 146096)%Z) by (apply year_at_mono; lia). change (year_at 146096) with 399%Z in Hhi.
  destruct (year_checked y) as (Hs & He & Hn); [lia|]. split; [lia|]. split.
  - destruct (decide (year_start y <= doe)%Z) as [|Hlt]; [done|]. exfalso.
    assert (Hy : (1 <= y)%Z) by (destruct (decide (y = 0)%Z) as [Hz|]; [rewrite Hz in Hlt; change (year_start 0) with 0%Z in Hlt; lia|lia]).
    destruct (year_checked (y - 1)) as (Hs' & He' & Hn'); [lia|].
    rewrite (proj2 (Z.eqb_neq _ _)) in Hn' by lia. replace (y - 1 + 1)%Z with y in Hn' by lia.
    assert (y <= y - 1)%Z; [|lia]. rewrite <- He'. apply year_at_mono. lia.
  - destruct (decide (doe < year_start y + year_length y)%Z) as [|Hge]; [done|]. exfalso.
    destruct (Z.eqb y 399) eqn:Hlast; [lia|]. apply Z.eqb_neq in Hlast.
    destruct (year_checked (y + 1)) as (Hs' & _ & _); [lia|].
    assert (y + 1 <= y)%Z; [|lia]. rewrite <- Hs'. apply year_at_mono. split; [apply year_start_nonneg|]; lia.
Qed.

(** *** The days of a year *)

(** Whether the day is in the next calendar year, its month and its day. *)
Definition day_at (doy : Z) : Z * Z * Z :=
  let mp := ((5 * doy + 2) / 153)%Z in
  let d := (doy - (153 * mp + 2) / 5 + 1)%Z in
  let m := if Z.ltb mp 10 then (mp + 3)%Z else (mp - 9)%Z in
  (if Z.leb m 2 then 1 else 0, m, d)%Z.

Lemma era_date_eq doe : era_date doe = plus_years (year_at doe) (day_at (doe - year_start (year_at doe))).
Proof.
  unfold era_date, day_at, plus_years, year_at, year_start. cbv zeta.
  match goal with |- context [Z.leb ?x 2] => destruct (Z.leb x 2) end; f_equal; f_equal; apply Z.add_comm.
Qed.

Definition days_of_month (leap : bool) (m : Z) : Z :=
  if Z.eqb m 2 then (if leap then 29 else 28)%Z
  else if Z.eqb m 4 || Z.eqb m 6 || Z.eqb m 9 || Z.eqb m 11 then 30%Z else 31%Z.

(** [next_day] in a year that starts in March, whose February is long if [leap]. *)
Definition next_md (leap : bool) (date : Z * Z * Z) : Z * Z * Z :=
  let '(y, m, d) := date in
  if Z.ltb d (days_of_month leap m) then (y, m, d + 1)%Z
  else if Z.ltb m 12 then (y, m + 1, 1)%Z
  else (y + 1, 1, 1)%Z.

Lemma date_eq_dec (a b : Z * Z * Z) : {a = b} + {a ≠ b}.
Proof. solve_decision. Defined.

Definition day_ok (doy : Z) : bool :=
  let '(y, m, d) := day_at doy in
  Z.leb 0 (5 * doy + 2) && Z.leb 0 (153 * ((5 * doy + 2) / 153) + 2)
  && Z.leb 1 m && Z.leb m 12 && Z.leb 1 d && Z.leb d 31 && (Z.eqb m 2 || Z.eqb (days_of_month true m) (days_of_month false m))
  && (Z.eqb y 1 || negb (Z.eqb m 2))
  && forallb (fun leap : bool =>
       let n := if leap then 366%Z else 365%Z in
       if Z.ltb doy n
       then bool_decide (next_md leap (day_at doy) = if Z.ltb (doy + 1) n then day_at (doy + 1) else (1, 3, 1)%Z)
       else true) [true; false].

Lemma day_checked doy : (0 <= doy < 366)%Z -> day_ok doy = true.
Proof. intros Hd. apply (all_below_spec day_ok 366); [vm_compute; reflexivity|lia]. Qed.

Lemma day_range doy : (0 <= doy < 366)%Z ->
  let '(y, m, d) := day_at doy in (0 <= y ∧ 1 <= m <= 12 ∧ 1 <= d <= 31)%Z ∧ (m = 2%Z -> y = 1%Z).
Proof.
  intros Hd%day_checked. unfold day_ok in Hd. destruct (day_at doy) as [[y m] d] eqn:Hday.
  assert (Hy : y = 1%Z ∨ y = 0%Z) by (unfold day_at in Hday; case_match; simplify_eq; auto).
  repeat apply andb_true_iff in Hd as [Hd ?].
  repeat match goal with H : Z.leb _ _ = true |- _ => apply Z.leb_le in H end.
  split; [destruct Hy; lia|]. intros ->. match goal with H : (Z.eqb y 1 || _)%bool = true |- _ => cbn in H; rewrite orb_false_r in H; by apply Z.eqb_eq in H end.
Qed.

Lemma day_next (leap : bool) doy : (0 <= doy < if leap then 366 else 365)%Z ->
  next_md leap (day_at doy)
  = (if Z.ltb (doy + 1) (if leap then 366 else 365) then day_at (doy + 1) else (1, 3, 1))%Z.
Proof.
  intros Hd. assert (Hr : (0 <= doy < 366)%Z) by (destruct leap; lia). apply day_checked in Hr. unfold day_ok in Hr.
  destruct (day_at doy) as [[y m] d]. apply andb_true_iff in Hr as [_ Hr]. rewrite forallb_forall in Hr.
  specialize (Hr leap). cbv zeta in Hr. rewrite (proj2 (Z.ltb_lt _ _)) in Hr by lia.
  apply bool_decide_eq_true in Hr; [done|]. destruct leap; cbn; auto.
Qed.

(** The next day, in the year that contains its February. *)
Lemma next_day_md n date : (let '(y, m, _) := date in m = 2%Z -> y = 1%Z) ->
  next_day (plus_years n date) = plus_years n (next_md (is_leap (n + 1)) date).
Proof.
  destruct date as [[y m] d]. intros Hm. unfold next_day, next_md, plus_years, days_in_month, days_of_month.
  destruct (Z.eqb m 2) eqn:H2.
  - apply Z.eqb_eq in H2. specialize (Hm H2). subst. replace (1 + n)%Z with (n + 1)%Z by lia.
    repeat case_match; f_equal; f_equal; lia.
  - repeat case_match; f_equal; f_equal; lia.
Qed.

Lemma era_next doe : (0 <= doe < 146097)%Z ->
  next_day (era_date doe) = if Z.eqb doe 146096 then plus_years 400 (era_date 0) else era_date (doe + 1).
Proof.
  intros Hdoe. destruct (year_at_bounds doe Hdoe) as [Hy Hb]. rewrite era_date_eq. set (y := year_at doe) in *.
  assert (Hlen : year_length y = if is_leap (y + 1) then 366%Z else 365%Z) by done.
  assert (Hdoy : (0 <= doe - year_start y < if is_leap (y + 1) then 366 else 365)%Z) by (rewrite <- Hlen; lia).
  rewrite next_day_md; [|pose proof (day_range (doe - year_start y) ltac:(destruct (is_leap _); lia)) as Hrange;
    destruct (day_at _) as [[? ?] ?]; apply Hrange].
  rewrite day_next by done. rewrite <- Hlen. destruct (Z.ltb (doe - year_start y + 1) (year_length y)) eqn:Hlast.
  - apply Z.ltb_lt in Hlast. rewrite (proj2 (Z.eqb_neq _ _)).
    + destruct (year_at_bounds (doe + 1)) as [Hy' Hb'].
      { pose proof (year_end_le y Hy). lia. }
      assert (Heq : year_at (doe + 1) = y).
      { destruct (year_checked y Hy) as (_ & He & _).
        assert (year_at (doe + 1) <= y)%Z by (rewrite <- He at 1; apply year_at_mono; lia).
        assert (y <= year_at (doe + 1))%Z by (apply year_at_mono; lia). lia. }
      rewrite era_date_eq, Heq. f_equal. f_equal. lia.
    + intros ->. change y with 399%Z in *. cbn in Hlast. vm_compute in Hlast. discriminate.
  - apply Z.ltb_ge in Hlast. destruct (year_checked y Hy) as (_ & _ & Hn).
    destruct (Z.eqb y 399) eqn:H9.
    + apply Z.eqb_eq in H9. assert (doe = 146096%Z) as -> by lia. rewrite H9. vm_compute. reflexivity.
    + apply Z.eqb_neq in H9. destruct (year_checked (y + 1)) as (Hs & _); [lia|].
      assert (Hd : (doe + 1)%Z = year_start (y + 1)) by lia. rewrite (proj2 (Z.eqb_neq _ _)).
      * rewrite era_date_eq, Hd, Hs, Z.sub_diag. change (day_at 0) with (0, 3, 1)%Z. unfold plus_years. f_equal. f_equal. lia.
      * intros ->. apply H9. vm_compute. reflexivity.
Qed.

(** The quotients of the code truncate, those of the reference floor. *)
Lemma era_date_quot doe : (0 <= doe < 146097)%Z ->
  era_date doe =
  let yoe := Z.quot (doe - Z.quot doe 1460 + Z.quot doe 36524 - Z.quot doe 146096) 365 in
  let doy := (doe - (365 * yoe + Z.quot yoe 4 - Z.quot yoe 100))%Z in
  let mp := Z.quot (5 * doy + 2) 153 in
  let d := (doy - Z.quot (153 * mp + 2) 5 + 1)%Z in
  let m := if Z.ltb mp 10 then (mp + 3)%Z else (mp - 9)%Z in
  ((if Z.leb m 2 then yoe + 1 else yoe)%Z, m, d).
Proof.
  intros Hdoe. destruct (year_at_bounds doe Hdoe) as [Hy Hb]. cbv zeta.
  rewrite !(Z.quot_div_nonneg doe) by lia.
  assert (0 <= doe - doe / 1460 + doe / 36524 - doe / 146096)%Z.
  { pose proof (sub_div_mono 1460 0 doe ltac:(lia) ltac:(lia)) as H1. change (0 / 1460)%Z with 0%Z in H1.
    change 146096%Z with (36524 * 4)%Z. rewrite <- Z.div_div by lia. pose proof (Z.div_pos doe 36524 ltac:(lia) ltac:(lia)).
    pose proof (sub_div_mono 4 0 (doe / 36524) ltac:(lia) ltac:(lia)) as H2. change (0 / 4)%Z with 0%Z in H2. lia. }
  rewrite (Z.quot_div_nonneg (doe - doe / 1460 + doe / 36524 - doe / 146096)) by lia.
  change ((doe - doe / 1460 + doe / 36524 - doe / 146096) / 365)%Z with (year_at doe).
  rewrite !(Z.quot_div_nonneg (year_at doe)) by lia.
  change (365 * year_at doe + year_at doe / 4 - year_at doe / 100)%Z with (year_start (year_at doe)).
  rewrite (Z.quot_div_nonneg (5 * _ + 2)) by lia.
  pose proof (Z.div_pos (5 * (doe - year_start (year_at doe)) + 2) 153 ltac:(lia) ltac:(lia)).
  rewrite (Z.quot_div_nonneg (153 * _ + 2)) by lia. reflexivity.
Qed.

Lemma era_range doe : (0 <= doe < 146097)%Z ->
  let '(y, m, d) := era_date doe in (0 <= y ∧ 1 <= m <= 12 ∧ 1 <= d <= 31)%Z.
Proof.
  intros Hdoe. destruct (year_at_bounds doe Hdoe) as [Hy Hb]. rewrite era_date_eq. unfold year_length in Hb.
  pose proof (day_range (doe - year_start (year_at doe)) ltac:(destruct (is_leap _); lia)) as Hr.
  destruct (day_at _) as [[y m] d]. cbn. lia.
Qed.

Lemma next_day_plus_years k date : next_day (plus_years (400 * k) date) = plus_years (400 * k) (next_day date).
Proof.
  destruct date as [[y m] d]. unfold next_day, plus_years, days_in_month, is_leap.
  replace ((y + 400 * k) mod 4)%Z with (y mod 4)%Z by (replace (y + 400 * k)%Z with (y + (100 * k) * 4)%Z by lia; by rewrite Z_mod_plus_full).
  replace ((y + 400 * k) mod 100)%Z with (y mod 100)%Z by (replace (y + 400 * k)%Z with (y + (4 * k) * 100)%Z by lia; by rewrite Z_mod_plus_full).
  replace ((y + 400 * k) mod 400)%Z with (y mod 400)%Z by (replace (y + 400 * k)%Z with (y + k * 400)%Z by lia; by rewrite Z_mod_plus_full).
  repeat case_match; f_equal; f_equal; lia.
Qed.

(** The date of a day counted from the first of March of the year 0. *)
Definition date_of (z : Z) : Z * Z * Z := plus_years (400 * (z / 146097)) (era_date (z mod 146097)).

Lemma date_of_next z : date_of (z + 1) = next_day (date_of z).
Proof.
  unfold date_of. rewrite next_day_plus_years.
  assert (Hr : (0 <= z mod 146097 < 146097)%Z) by (apply Z.mod_pos_bound; lia).
  rewrite era_next by done. pose proof (Z.div_mod z 146097 ltac:(lia)) as Hdm.
  destruct (Z.eqb (z mod 146097) 146096) eqn:Hlast.
  - apply Z.eqb_eq in Hlast.
    replace ((z + 1) / 146097)%Z with (z / 146097 + 1)%Z by (apply (Z.div_unique _ _ _ 0); lia).
    replace ((z + 1) mod 146097)%Z with 0%Z by (apply (Z.mod_unique _ _ (z / 146097 + 1)); lia).
    destruct (era_date 0) as [[y0 m0] d0]. cbn. f_equal; f_equal; lia.
  - apply Z.eqb_neq in Hlast.
    replace ((z + 1) / 146097)%Z with (z / 146097)%Z by (apply (Z.div_unique _ _ _ (z mod 146097 + 1)); lia).
    by replace ((z + 1) mod 146097)%Z with (z mod 146097 + 1)%Z by (apply (Z.mod_unique _ _ (z / 146097)); lia).
Qed.

Lemma date_of_calendar n : date_of (719468 + Z.of_nat n) = calendar n.
Proof.
  induction n as [|n IH]; [vm_compute; reflexivity|].
  replace (719468 + Z.of_nat (S n))%Z with (719468 + Z.of_nat n + 1)%Z by lia. by rewrite date_of_next, IH.
Qed.

Lemma wrap32_date k x : (1 <= x <= k)%Z -> (k <= 31)%Z -> wrap32 (Z.to_N x) = Z.to_N x.
Proof. intros Hx Hk. unfold wrap32. apply N.mod_small. lia. Qed.

Lemma civil_date secs : (0 <= secs)%Z ->
  let '(y, m, d, _, _, _) := civil_utc_from_unix_secs secs in
  let '(y', m', d') := date_of (719468 + secs / 86400) in
  y = wrap32 (Z.to_N y') ∧ m = Z.to_N m' ∧ d = Z.to_N d'.
Proof.
  intros Hs. unfold civil_utc_from_unix_secs, date_of. set (z := (Z.quot secs 86400 + 719468)%Z).
  assert (Hz : (719468 + secs / 86400)%Z = z) by (unfold z; rewrite Z.quot_div_nonneg by lia; lia). rewrite Hz.
  assert (Hz0 : (0 <= z)%Z) by (unfold z; pose proof (Z.quot_pos secs 86400); lia).
  rewrite (proj2 (Z.leb_le 0 z)) by done. rewrite (Z.quot_div_nonneg z) by lia.
  replace (z - z / 146097 * 146097)%Z with (z mod 146097)%Z by (rewrite Z.mod_eq; lia).
  assert (Hr : (0 <= z mod 146097 < 146097)%Z) by (apply Z.mod_pos_bound; lia).
  pose proof (era_range _ Hr) as Hrange. revert Hr Hrange. generalize (z mod 146097)%Z as doe. intros doe Hr Hrange.
  rewrite (era_date_quot doe Hr) in Hrange |- *. cbn [plus_years].
  split; [|split].
  - f_equal. f_equal. match goal with |- context [Z.leb ?x 2] => destruct (Z.leb x 2) end; ring.
  - apply (wrap32_date 12); [apply Hrange|lia].
  - apply (wrap32_date 31); [apply Hrange|lia].
Qed.

Lemma civil_clock secs : (0 <= secs)%Z ->
  let '(_, _, _, h, mi, s) := civil_utc_from_unix_secs secs in
  (h < 24)%N ∧ (mi < 60)%N ∧ (s < 60)%N
  ∧ secs = (86400 * (secs / 86400) + 3600 * Z.of_N h + 60 * Z.of_N mi + Z.of_N s)%Z.
Proof.
  intros Hs. unfold civil_utc_from_unix_secs. cbv zeta.
  rewrite (Z.rem_mod_nonneg secs 86400) by lia. pose proof (Z.mod_pos_bound secs 86400 ltac:(lia)) as Hr.
  pose proof (Z.div_mod secs 86400 ltac:(lia)) as Hdm. revert Hr Hdm. generalize (secs mod 86400)%Z as r. intros r Hr Hdm.
  rewrite (Z.rem_mod_nonneg r 3600), (Z.rem_mod_nonneg r 60), (Z.quot_div_nonneg r 3600) by lia.
  pose proof (Z.mod_pos_bound r 3600 ltac:(lia)) as Hr2. rewrite (Z.quot_div_nonneg (r mod 3600) 60) by lia.
  pose proof (Z.div_mod r 3600 ltac:(lia)) as H1. pose proof (Z.div_mod (r mod 3600) 60 ltac:(lia)) as H2.
  pose proof (Z.mod_pos_bound (r mod 3600) 60 ltac:(lia)) as H3.
  assert (H4 : ((r mod 3600) mod 60 = r mod 60)%Z) by (change 3600%Z with (60 * 60)%Z; rewrite Z.mod_mod_divide; [done|by exists 60%Z]).
  assert (H5 : (0 <= r / 3600 < 24)%Z) by (split; [apply Z.div_pos|apply Z.div_lt_upper_bound]; lia).
  assert (H6 : (0 <= r mod 3600 / 60 < 60)%Z) by (split; [apply Z.div_pos|apply Z.div_lt_upper_bound]; lia).
  rewrite H4 in *. unfold wrap32. rewrite !N.mod_small by lia. lia.
Qed.

(** ** Theorem *)

(** The clock shows the Gregorian date. For every second the date is the one
    reached by counting the days since the first of January 1970 (the year as
    far as its 32 bits go) and the time of day is what remains of the second. *)
Theorem civil_utc_is_the_calendar secs : (0 <= secs)%Z ->
  let '(y, m, d, h, mi, s) := civil_utc_from_unix_secs secs in
  let '(y', m', d') := calendar (Z.to_nat (secs / 86400)) in
  y = wrap32 (Z.to_N y') ∧ m = Z.to_N m' ∧ d = Z.to_N d'
  ∧ (h < 24)%N ∧ (mi < 60)%N ∧ (s < 60)%N
  ∧ secs = (86400 * (secs / 86400) + 3600 * Z.of_N h + 60 * Z.of_N mi + Z.of_N s)%Z.
Proof.
  intros Hs. pose proof (civil_date secs Hs) as Hd. pose proof (civil_clock secs Hs) as Hc.
  rewrite <- date_of_calendar, Z2Nat.id by (apply Z.div_pos; lia).
  destruct (civil_utc_from_unix_secs secs) as [[[[[y m] d] h] mi] s]. destruct (date_of _) as [[y' m'] d'].
  destruct Hd as (? & ? & ?). tauto.
Qed.

Lemma civil_utc_is_the_calendar_witness :
  civil_utc_from_unix_secs 951826154 = (2000, 2, 29, 12, 9, 14)%N
  ∧ let '(y, m, d) := calendar (Z.to_nat (951826154 / 86400)) in (2000, 2, 29)%N = (wrap32 (Z.to_N y), Z.to_N m, Z.to_N d).
Proof.
  pose proof (civil_utc_is_the_calendar 951826154 ltac:(lia)) as Hc. split; [vm_compute; reflexivity|].
  replace (civil_utc_from_unix_secs 951826154) with (2000, 2, 29, 12, 9, 14)%N in Hc by (vm_compute; reflexivity).
  destruct (calendar _) as [[y m] d]. by destruct Hc as (<- & <- & <- & _).
Defined.
