(* ===== verification/LhcMapping.v ===== *)
(** * From conversation items to captured events

    [grok-lhc-host/src/mapping.rs]: every item of a conversation becomes one or
    more events of the archive, with a key of [LhcKeys]; a turn that ends carries
    the facts the shell observed; images travel as content blocks; a change of
    model is an event of its own. The archive's crate, the hash of an item and the
    text of JSON values are outside the repository. *)

From S2P Require Import Prelude RustStr Json Conversation Usage ChatTypes LhcKeys LhcTime.

(** ** Data *)

(** Source: crates/lhc/grok-lhc-host/src/mapping.rs:19-19, [ACTOR]. *)
Definition ACTOR : str := lit "grok".

(** Source: crates/lhc/grok-lhc-host/src/mapping.rs:20-20, [HARNESS]. *)
Definition HARNESS : str := lit "grok-build".

(** Source: crates/lhc/grok-lhc-host/src/mapping.rs:23-23, [IMAGE_URL_PREVIEW_CHARS]. *)
Definition IMAGE_URL_PREVIEW_CHARS : nat := 128.

(** Source: crates/lhc/grok-lhc-host/src/mapping.rs:25-25, [BACKEND_OUTPUTS_PREVIEW_CHARS]. *)
Definition BACKEND_OUTPUTS_PREVIEW_CHARS : nat := 2048.

(** The input of the archive's intake. *)
Record MessageEventInput := mkInput {
  event_kind : str;
  idempotency_key : option str;
  ev_actor : str;
  ev_harness : str;
  payload : JMap;
  ev_extra : JMap;
}.

(** Source: crates/lhc/grok-lhc-host/src/mapping.rs:29-32, [MappedEvent]. *)
Record MappedEvent := mkMapped { input : MessageEventInput }.

(** Source: crates/lhc/grok-lhc-host/src/mapping.rs:39-48, [TurnEndFacts]. *)
Record TurnEndFacts := mkFacts {
  outcome : option str;
  outcome_reason : option str;
  started_at : option str;
  ended_at : option str;
}.

Definition no_facts : TurnEndFacts := mkFacts None None None None.

(** What [item_digest] computes: the blake3 hash, in hexadecimal, of the JSON text of an item. *)
Class ItemDigest := item_digest : ConversationItem -> str.
Class ItemDigestLaws `{ItemDigest} := item_digest_hex i : is_digest (item_digest i).

(** The JSON value of a search action, a type of the responses API. *)
Class SearchActionJson := ws_action_value : WebSearchAction -> json.

(** ** The facts of a turn's end *)

(** Source: crates/lhc/grok-lhc-host/src/mapping.rs:51-56, [TurnEndFacts::is_empty]. *)
Definition facts_is_empty (f : TurnEndFacts) : bool :=
  bool_decide (outcome f = None) && bool_decide (outcome_reason f = None)
  && bool_decide (started_at f = None) && bool_decide (ended_at f = None).

(** Source: crates/lhc/grok-lhc-host/src/mapping.rs:69-91, [TurnEndFacts::from_shell_outcome]. *)
Definition from_shell_outcome (outcome_label : str) (cancellation_category : option str) (duration_ms : N)
    (ended : SystemTime) : TurnEndFacts :=
  let label := to_ascii_lowercase outcome_label in
  let outcome := if str_eqb label (lit "completed") then lit "completed" else lit "aborted" in
  let outcome_reason := default label cancellation_category in
  let started := default 0%Z (checked_sub_millis ended duration_ms) in
  mkFacts (Some outcome) (Some outcome_reason) (Some (format_system_time_iso8601_millis started))
    (Some (format_system_time_iso8601_millis ended)).

(** [if let Some(v) = ... { payload.insert(k, json!(v)); }]. *)
Definition insert_some (k : str) (v : option str) (m : JMap) : JMap :=
  match v with Some v => map_insert k (JString v) m | None => m end.

Definition insert_facts (f : TurnEndFacts) (m : JMap) : JMap :=
  let m := insert_some (lit "outcome") (outcome f) m in
  let m := insert_some (lit "outcomeReason") (outcome_reason f) m in
  let m := insert_some (lit "startedAt") (started_at f) m in
  insert_some (lit "endedAt") (ended_at f) m.

Definition kind_is (kind : str) (e : MappedEvent) : bool := str_eqb (event_kind (input e)) kind.

Definition set_payload (e : MappedEvent) (p : JMap) : MappedEvent :=
  let 'mkMapped (mkInput kind key actor harness _ extra) := e in mkMapped (mkInput kind key actor harness p extra).

(** Source: crates/lhc/grok-lhc-host/src/mapping.rs:129-151, [apply_turn_end_facts]. *)
Definition apply_turn_end_facts (e : MappedEvent) (f : TurnEndFacts) : MappedEvent :=
  if negb (kind_is (lit "turn_end") e) then e else set_payload e (insert_facts f (payload (input e))).

Definition event (kind key : str) (p : JMap) : MappedEvent :=
  mkMapped (mkInput kind (Some key) ACTOR HARNESS p []).

(** Source: crates/lhc/grok-lhc-host/src/mapping.rs:156-175, [shell_turn_end_event]. *)
Definition shell_turn_end_event (session_id : str) (turn_number : N) (facts : TurnEndFacts) : MappedEvent :=
  let sid := encode_session_id session_id in
  let key := lit "grok:" ++ sid ++ lit ":g0:shell_turn_end:" ++ show_N turn_number in
  apply_turn_end_facts (event (lit "turn_end") key []) facts.

(** Source: crates/lhc/grok-lhc-host/src/mapping.rs:179-179, [SEGMENT_END_REASON]. *)
Definition SEGMENT_END_REASON : str := lit "grok_lhc_segment".

(** [s.split_once(p)] for a string. *)
Definition split_once_str (p s : str) : option (str * str) :=
  i ← find p s; Some (take i s, drop (i + length p) s).

(** Source: crates/lhc/grok-lhc-host/src/mapping.rs:188-203, [segment_end_event]. *)
Definition segment_end_event (anchor_tool_result_key : str) : option MappedEvent :=
  '(head, _) ← split_once_str (lit ":tool_result:") anchor_tool_result_key;
  let payload := map_insert (lit "outcome") (JString (lit "completed")) [] in
  let payload := map_insert (lit "outcomeReason") (JString SEGMENT_END_REASON) payload in
  Some (event (lit "turn_end") (head ++ lit ":segment_end") payload).

(** ** Content *)

(** Source: crates/lhc/grok-lhc-host/src/mapping.rs:485-493, [parse_data_url]. *)
Definition parse_data_url (url : str) : option (str * str) :=
  rest ← strip_prefix (lit "data:") url;
  '(meta, data) ← split_once (byte 44) rest;
  media_type ← strip_suffix (lit ";base64") meta;
  if is_empty media_type then None else Some (media_type, data).

(** Source: crates/lhc/grok-lhc-host/src/mapping.rs:464-481, [image_block]. *)
Definition image_block (url : str) : JMap :=
  let source :=
    match parse_data_url url with
    | Some (media_type, data) =>
        map_insert (lit "data") (JString data)
          (map_insert (lit "media_type") (JString media_type)
            (map_insert (lit "type") (JString (lit "base64")) []))
    | None => map_insert (lit "url") (JString url) (map_insert (lit "type") (JString (lit "url")) [])
    end in
  map_insert (lit "source") (JObject source) (map_insert (lit "type") (JString (lit "image")) []).

(** Source: crates/lhc/grok-lhc-host/src/mapping.rs:498-509, [image_block_url]. *)
Definition image_block_url (block : JMap) : option str :=
  source ← map_get (lit "source") block ≫= as_object;
  ty ← map_get (lit "type") source ≫= as_str;
  if str_eqb ty (lit "base64") then
    media_type ← map_get (lit "media_type") source ≫= as_str;
    data ← map_get (lit "data") source ≫= as_str;
    Some (lit "data:" ++ media_type ++ lit ";base64," ++ data)
  else if str_eqb ty (lit "url") then map_get (lit "url") source ≫= as_str
  else None.

Definition text_block (text : str) : JMap :=
  map_insert (lit "text") (JString text) (map_insert (lit "type") (JString (lit "text")) []).

Definition is_image_part (p : ContentPart) : bool := match p with ImagePart _ => true | TextPart _ => false end.

Definition part_block (p : ContentPart) : JMap :=
  match p with TextPart text => text_block text | ImagePart url => image_block url end.

(** Source: crates/lhc/grok-lhc-host/src/mapping.rs:433-459, [content_parts_blocks]. *)
Definition content_parts_blocks (parts : list ContentPart) : str * option (list JMap) :=
  let text := join nl (omap (fun p => match p with TextPart text => Some text | ImagePart _ => None end) parts) in
  if negb (existsb is_image_part parts) then (text, None) else (text, Some (map part_block parts)).

(** Source: crates/lhc/grok-lhc-host/src/mapping.rs:558-567, [truncate_chars]. *)
Definition truncate_chars (s : str) (max : nat) : str :=
  if Nat.leb (length s) max then s else take (floor_char_boundary s max) s.

(** The character [U+2026]. *)
Definition ellipsis : str := [byte 226; byte 128; byte 166].
Definition size_suffix (n : nat) : str := ellipsis ++ lit "(" ++ show_nat n ++ lit "B)".

(** Source: crates/lhc/grok-lhc-host/src/mapping.rs:539-556, [content_parts_text]. *)
Definition content_parts_text (parts : list ContentPart) : str :=
  join nl (map (fun p =>
    match p with
    | TextPart text => text
    | ImagePart url =>
        let preview := truncate_chars url IMAGE_URL_PREVIEW_CHARS in
        let suffix := if Nat.ltb IMAGE_URL_PREVIEW_CHARS (length url) then size_suffix (length url) else [] in
        lit "[image:" ++ preview ++ suffix ++ lit "]"
    end) parts).

(** ** Payloads *)

(** Source: crates/lhc/grok-lhc-host/src/mapping.rs:895-899, [text_payload]. *)
Definition text_payload (text : str) : JMap := map_insert (lit "text") (JString text) [].

(** Source: crates/lhc/grok-lhc-host/src/mapping.rs:901-907, [assistant_thinking_payload]. *)
Definition assistant_thinking_payload (text : str) (signature : option str) : JMap :=
  insert_some (lit "signature") signature (text_payload text).

(** Source: crates/lhc/grok-lhc-host/src/mapping.rs:909-915, [tool_call_payload]. *)
Definition tool_call_payload (id name : str) (arguments : JMap) : JMap :=
  let m := map_insert (lit "toolCallId") (JString id) [] in
  let m := map_insert (lit "toolName") (JString name) m in
  map_insert (lit "arguments") (JObject arguments) m.

(** Source: crates/lhc/grok-lhc-host/src/mapping.rs:917-931, [parse_arguments_object]. *)
Definition parse_arguments_object `{JsonText} (raw : str) : JMap :=
  match json_from_str raw with
  | Some (JObject m) => m
  | Some other => map_insert (lit "value") other []
  | None => map_insert (lit "raw") (JString raw) []
  end.

(** ** Events *)

(** Source: crates/lhc/grok-lhc-host/src/mapping.rs:569-589, [text_event]. *)
Definition text_event (session_id : str) (generation : N) (digest : str) (occ : N) (kind text : str)
    (part : option str) : MappedEvent :=
  event kind (item_event_key session_id generation digest occ kind part) (text_payload text).

(** Source: crates/lhc/grok-lhc-host/src/mapping.rs:511-537, [user_prompt_event]. *)
Definition user_prompt_event (session_id : str) (generation : N) (digest : str) (occ : N) (text : str)
    (blocks : option (list JMap)) : MappedEvent :=
  let key := item_event_key session_id generation digest occ (lit "user_prompt") None in
  let payload := text_payload text in
  let payload :=
    match blocks with
    | Some blocks => map_insert (lit "blocks") (JArray (map JObject blocks)) payload
    | None => payload
    end in
  event (lit "user_prompt") key payload.

(** Source: crates/lhc/grok-lhc-host/src/mapping.rs:595-622, [thinking_event]. *)
Definition thinking_event (session_id : str) (generation : N) (digest : str) (occ : N) (text : str)
    (part signature : option str) : MappedEvent :=
  event (lit "assistant_thinking") (item_event_key session_id generation digest occ (lit "assistant_thinking") part)
    (assistant_thinking_payload text signature).

(** Source: crates/lhc/grok-lhc-host/src/mapping.rs:624-658, [turn_end_event]. *)
Definition turn_end_event (session_id : str) (generation : N) (digest : str) (occ : N) (part : option str)
    (facts : TurnEndFacts) : MappedEvent :=
  event (lit "turn_end") (item_event_key session_id generation digest occ (lit "turn_end") part) (insert_facts facts []).

(** Source: crates/lhc/grok-lhc-host/src/mapping.rs:662-667, [token_usage_to_provider_usage]. *)
Definition token_usage_to_provider_usage (to_value : TokenUsage -> option json) (usage : TokenUsage) : option JMap :=
  match to_value usage with
  | Some (JObject m) => Some m
  | _ => None
  end.

(** Source: crates/lhc/grok-lhc-host/src/mapping.rs:670-678, [attach_provider_usage]. *)
Definition attach_provider_usage (e : MappedEvent) (usage : JMap) : MappedEvent :=
  if negb (kind_is (lit "assistant_text") e) then e
  else set_payload e (map_insert (lit "providerUsage") (JObject usage) (payload (input e))).

Definition some_filled (s : option str) : option str :=
  match s with Some s => if is_empty s then None else Some s | None => None end.

(** Source: crates/lhc/grok-lhc-host/src/mapping.rs:683-706, [attach_assistant_identity]. *)
Definition attach_assistant_identity (e : MappedEvent) (identity : HostAssistantIdentity) : MappedEvent :=
  if negb (kind_is (lit "assistant_text") e) && negb (kind_is (lit "assistant_thinking") e) then e
  else
    let p := payload (input e) in
    let p := if is_empty (ai_provider identity) then p
             else map_insert (lit "provider") (JString (ai_provider identity)) p in
    let p := insert_some (lit "model") (some_filled (ai_model identity)) p in
    set_payload e (insert_some (lit "api") (some_filled (ai_api identity)) p).

(** Source: crates/lhc/grok-lhc-host/src/mapping.rs:708-734, [tool_call_event]. *)
Definition tool_call_event `{JsonText} (session_id : str) (generation : N) (digest : str) (occ : N) (tc : ToolCall)
    : MappedEvent :=
  let key := item_event_key session_id generation digest occ (lit "tool_call") (Some (tc_id tc)) in
  event (lit "tool_call") key (tool_call_payload (tc_id tc) (tc_name tc) (parse_arguments_object (tc_arguments tc))).

(** Source: crates/lhc/grok-lhc-host/src/mapping.rs:736-790, [tool_result_event]. *)
Definition tool_result_event (session_id : str) (generation : N) (digest : str) (occ : N) (result : ToolResultItem)
    : MappedEvent :=
  let key := item_event_key session_id generation digest occ (lit "tool_result") (Some (tr_tool_call_id result)) in
  let content := tr_content result in
  let payload := map_insert (lit "toolCallId") (JString (tr_tool_call_id result)) [] in
  let payload := map_insert (lit "content") (JString content) payload in
  let payload :=
    if is_empty (tr_images result) then payload
    else
      let blocks := (if is_empty content then [] else [JObject (text_block content)])
                    ++ map (fun p => JObject (part_block p)) (tr_images result) in
      map_insert (lit "blocks") (JArray blocks) payload in
  event (lit "tool_result") key payload.

(** Tool name, arguments, content of the result, and whether it is an error. *)
Definition backend_parts `{JsonText, SearchActionJson} (btc : BackendToolKind) : str * JMap * str * option bool :=
  match btc with
  | WebSearch _ action status =>
      let args := default [] (as_object (ws_action_value action)) in
      let result := json_to_string (JObject (json_map [(lit "status", JString status); (lit "action", ws_action_value action)])) in
      (lit "web_search", args, result, None)
  | XSearch _ call_id name input =>
      let args := map_insert (lit "input") (JString input) [] in
      let name := if is_empty name then lit "x_search" else name in
      let result := json_to_string (JObject (json_map
        [(lit "status", JString (lit "server_executed")); (lit "callId", JString call_id); (lit "input", JString input)])) in
      (name, args, result, None)
  | CodeInterpreter _ code container_id status outputs =>
      let args := map_insert (lit "code") (JString (default [] code)) [] in
      let args := map_insert (lit "containerId") (JString container_id) args in
      let is_error := str_eqb status (lit "Failed") in
      let outputs_raw := json_to_string (default JNull outputs) in
      let outputs_preview := truncate_chars outputs_raw BACKEND_OUTPUTS_PREVIEW_CHARS in
      let outputs_value :=
        if Nat.ltb BACKEND_OUTPUTS_PREVIEW_CHARS (length outputs_raw)
        then JString (outputs_preview ++ size_suffix (length outputs_raw))
        else default JNull outputs in
      let result := json_to_string (JObject (json_map [(lit "status", JString status); (lit "outputs", outputs_value)])) in
      (lit "code_interpreter", args, result, Some is_error)
  end.

(** Source: crates/lhc/grok-lhc-host/src/mapping.rs:792-893, [backend_tool_events]. *)
Definition backend_tool_events `{JsonText, SearchActionJson} (session_id : str) (generation : N) (digest : str) (occ : N)
    (btc : BackendToolKind) : list MappedEvent :=
  let id := backend_id btc in
  let '(tool_name, arguments, result_content, is_error) := backend_parts btc in
  let call_key := item_event_key session_id generation digest occ (lit "tool_call") (Some id) in
  let result_key := item_event_key session_id generation digest occ (lit "tool_result") (Some id) in
  let p := map_insert (lit "toolCallId") (JString id) [] in
  let p := map_insert (lit "content") (JString result_content) p in
  let p := match is_error with Some err => map_insert (lit "isError") (JBool err) p | None => p end in
  [event (lit "tool_call") call_key (tool_call_payload id tool_name arguments); event (lit "tool_result") result_key p].

(** Source: crates/lhc/grok-lhc-host/src/mapping.rs:310-382, [map_synthetic_user]. *)
Definition map_synthetic_user (session_id : str) (generation : N) (digest : str) (occ : N) (reason : SyntheticReason)
    (user : UserItem) (facts : TurnEndFacts) : list MappedEvent :=
  let text := content_parts_text (u_content user) in
  let starts_turn :=
    match reason with
    | Human | AgentMessage | ParentHumanMessage | DirectBash | GoalSetup | UnknownReason | TaskCompleted
    | SubagentCompleted | NotificationDrain | GoalClassifierNudge | SchedulerFired => true
    | Primary | SessionPrefix | CompactionMeta | SystemReminder | LengthContinue | ProjectInstructions | AutoContinue
    | AutoRecovery | Interjection | GoalSummary | StopHookFeedback | WorkingDirectorySwitch => false
    end in
  let note := text_event session_id generation digest occ (lit "runtime_note") text None in
  if starts_turn then [turn_end_event session_id generation digest occ (Some (lit "pre_synthetic")) facts; note]
  else [note].

(** Source: crates/lhc/grok-lhc-host/src/mapping.rs:212-307, [map_item]. *)
Definition map_item `{ItemDigest, JsonText, SearchActionJson} (session_id : str) (generation : N)
    (item : ConversationItem) (tracker : OccurrenceTracker) (facts : TurnEndFacts)
    : list MappedEvent * OccurrenceTracker :=
  let digest := item_digest item in
  let '(occ, tracker) := next_occurrence tracker digest in
  (match item with
   | CSystem sys => [text_event session_id generation digest occ (lit "runtime_note") (sys_content sys) None]
   | CUser user =>
       if is_human (u_reason user) then
         let '(text, blocks) := content_parts_blocks (u_content user) in
         [user_prompt_event session_id generation digest occ text blocks]
       else map_synthetic_user session_id generation digest occ (u_reason user) user facts
   | CAssistant a =>
       (if negb (is_empty (a_content a)) || is_empty (a_tool_calls a)
        then [text_event session_id generation digest occ (lit "assistant_text") (a_content a) None] else [])
       ++ map (tool_call_event session_id generation digest occ) (a_tool_calls a)
       ++ (if is_empty (a_tool_calls a) then [turn_end_event session_id generation digest occ None facts] else [])
   | CToolResult r => [tool_result_event session_id generation digest occ r]
   | CBackendToolCall b => backend_tool_events session_id generation digest occ b
   | CReasoning r =>
       let part := if is_empty (r_id r) then None else Some (r_id r) in
       let signature := some_filled (r_encrypted_content r) in
       [thinking_event session_id generation digest occ (reasoning_item_text r) part signature]
   end, tracker).

(** Source: crates/lhc/grok-lhc-host/src/mapping.rs:406-424, [map_history_from]. *)
Definition map_history_from `{ItemDigest, JsonText, SearchActionJson} (session_id : str) (generation : N)
    (items : list ConversationItem) (facts : TurnEndFacts) (tracker : OccurrenceTracker)
    : list MappedEvent * OccurrenceTracker :=
  foldl (fun '(out, tracker) item =>
    let '(events, tracker) := map_item session_id generation item tracker facts in (out ++ events, tracker))
    ([], tracker) items.

(** Source: crates/lhc/grok-lhc-host/src/mapping.rs:388-401, [map_history]. *)
Definition map_history `{ItemDigest, JsonText, SearchActionJson} (session_id : str) (generation : N)
    (items : list ConversationItem) (facts : TurnEndFacts) : list MappedEvent * OccurrenceTracker :=
  map_history_from session_id generation items facts tracker_empty.

(** ** Changes of model *)

(** Source: crates/lhc/grok-lhc-host/src/mapping.rs:936-980, [map_model_change]. *)
Definition map_model_change (session_id previous_model new_model previous_level new_level : str) (next_ordinal : N)
    : list MappedEvent * N :=
  let '(out, next_ordinal) :=
    if str_eqb previous_model new_model then ([], next_ordinal)
    else
      ([event (lit "model_change") (model_change_key session_id next_ordinal previous_model new_model)
          (map_insert (lit "newModel") (JString new_model)
            (map_insert (lit "previousModel") (JString previous_model) []))],
       sat_add64 next_ordinal 1) in
  if str_eqb previous_level new_level then (out, next_ordinal)
  else
    (out ++ [event (lit "thinking_level_change") (thinking_level_change_key session_id next_ordinal previous_level new_level)
               (map_insert (lit "newLevel") (JString new_level)
                 (map_insert (lit "previousLevel") (JString previous_level) []))],
     sat_add64 next_ordinal 1).

(** Source: crates/lhc/grok-lhc-host/src/mapping.rs:983-988, [level_label]. *)
Definition level_label (effort : option str) : str :=
  match effort with
  | Some s => if is_empty (trim s) then lit "none" else trim s
  | None => lit "none"
  end.

(** * Keys of a mapped history *)

Definition ev_key (e : MappedEvent) : option str := idempotency_key (input e).

(** ** The events of an item *)

(** The kinds and parts of an item's events. *)
Definition item_parts (item : ConversationItem) : list (str * option str) :=
  match item with
  | CSystem _ => [(lit "runtime_note", None)]
  | CUser u =>
      if is_human (u_reason u) then [(lit "user_prompt", None)]
      else if starts_prompt_turn (u_reason u)
           then [(lit "turn_end", Some (lit "pre_synthetic")); (lit "runtime_note", None)]
           else [(lit "runtime_note", None)]
  | CAssistant a =>
      (if negb (is_empty (a_content a)) || is_empty (a_tool_calls a) then [(lit "assistant_text", None)] else [])
      ++ map (fun tc => (lit "tool_call", Some (tc_id tc))) (a_tool_calls a)
      ++ (if is_empty (a_tool_calls a) then [(lit "turn_end", None)] else [])
  | CToolResult r => [(lit "tool_result", Some (tr_tool_call_id r))]
  | CBackendToolCall b => [(lit "tool_call", Some (backend_id b)); (lit "tool_result", Some (backend_id b))]
  | CReasoning r => [(lit "assistant_thinking", if is_empty (r_id r) then None else Some (r_id r))]
  end.

Definition item_keys (sid : str) (gen : N) (digest : str) (occ : N) (item : ConversationItem) : list str :=
  map (fun '(kind, part) => item_event_key sid gen digest occ kind part) (item_parts item).

(** No item calls two tools under one identifier. *)
Definition calls_distinct (item : ConversationItem) : Prop :=
  match item with CAssistant a => NoDup (map tc_id (a_tool_calls a)) | _ => True end.

Lemma item_parts_kind item kind part : (kind, part) ∈ item_parts item -> colon ∉ kind.
Proof.
  assert (Hk : Forall (fun p => bool_decide (colon ∉ fst p) = true) (item_parts item)).
  { destruct item as [s|u|a|r|b|r]; cbn [item_parts]; try (repeat constructor; done).
    - repeat case_match; repeat constructor.
    - rewrite !Forall_app, Forall_map. split; [|split]; [case_match; repeat constructor| |case_match; repeat constructor].
      apply Forall_true. intros tc. vm_compute. reflexivity. }
  intros Hin. rewrite Forall_forall in Hk. specialize (Hk _ Hin). by apply bool_decide_eq_true in Hk.
Qed.

Lemma item_parts_nonempty item : item_parts item ≠ [].
Proof.
  destruct item as [s|u|a|r|b|r]; cbn [item_parts]; try done; [by repeat case_match|].
  destruct (a_tool_calls a); [by rewrite orb_true_r|]. by case_match.
Qed.

Lemma item_parts_NoDup item : calls_distinct item -> NoDup (item_parts item).
Proof.
  intros Hd. destruct item as [s|u|a|r|b|r]; cbn [item_parts calls_distinct] in *; try by repeat constructor; set_solver.
  - repeat case_match; repeat constructor; rewrite ?elem_of_cons, ?elem_of_nil; naive_solver.
  - rewrite !NoDup_app. split; [case_match; repeat constructor; set_solver|]. split; [|split; [|split]].
    + intros x Hx. rewrite elem_of_app. intros [(tc & -> & _)%list_elem_of_fmap|Hy].
      * case_match; [by apply list_elem_of_singleton in Hx|by apply elem_of_nil in Hx].
      * repeat case_match; rewrite ?elem_of_cons, ?elem_of_nil in *; naive_solver.
    + rewrite <- map_map with (f := tc_id) (g := fun i => (lit "tool_call", Some i)).
      apply NoDup_fmap_2; [|done]. intros x y Heq. by simplify_eq.
    + intros x (tc & -> & _)%list_elem_of_fmap Hy. case_match; rewrite ?elem_of_cons, ?elem_of_nil in Hy; naive_solver.
    + case_match; repeat constructor; set_solver.
Qed.

Section keys.
Context `{ItemDigest, JsonText, SearchActionJson}.

Lemma map_item_keys sid gen item t facts :
  map ev_key (fst (map_item sid gen item t facts))
  = map Some (item_keys sid gen (item_digest item) (count_of t (item_digest item)) item)
  ∧ snd (map_item sid gen item t facts) = snd (next_occurrence t (item_digest item)).
Proof.
  split; [|done]. unfold map_item, item_keys. cbn [next_occurrence fst snd].
  destruct item as [s|u|a|r|b|r]; cbn [item_parts]; try done.
  - destruct (is_human (u_reason u)) eqn:Hh; [by destruct (content_parts_blocks _)|].
    unfold map_synthetic_user. destruct (u_reason u); done.
  - rewrite !map_app, !map_map. repeat f_equal; by repeat case_match.
  - unfold backend_tool_events. by destruct (backend_parts b) as [[[? ?] ?] ?].
Qed.

(** ** The occurrences of a history *)

Fixpoint numbered (t : OccurrenceTracker) (items : list ConversationItem) : list (ConversationItem * N) :=
  match items with
  | [] => []
  | i :: items => (i, count_of t (item_digest i)) :: numbered (snd (next_occurrence t (item_digest i))) items
  end.

(** The tracker after a history. *)
Definition advance (t : OccurrenceTracker) (items : list ConversationItem) : OccurrenceTracker :=
  foldl (fun t i => snd (next_occurrence t (item_digest i))) t items.

Definition history_keys (sid : str) (gen : N) (t : OccurrenceTracker) (items : list ConversationItem) : list str :=
  concat (map (fun '(i, occ) => item_keys sid gen (item_digest i) occ i) (numbered t items)).

Lemma map_history_from_acc sid gen items facts out t :
  foldl (fun '(out, tracker) item =>
    let '(events, tracker) := map_item sid gen item tracker facts in (out ++ events, tracker)) (out, t) items
  = (out ++ fst (map_history_from sid gen items facts t), snd (map_history_from sid gen items facts t)).
Proof.
  revert out t. induction items as [|i items IH]; intros out t; [cbn; by rewrite app_nil_r|].
  unfold map_history_from. cbn [foldl]. destruct (map_item sid gen i t facts) as [ev t'].
  rewrite !IH. cbn. by rewrite app_assoc.
Qed.

Lemma map_history_from_cons sid gen i items facts t :
  map_history_from sid gen (i :: items) facts t
  = (fst (map_item sid gen i t facts)
       ++ fst (map_history_from sid gen items facts (snd (map_item sid gen i t facts))),
     snd (map_history_from sid gen items facts (snd (map_item sid gen i t facts)))).
Proof.
  unfold map_history_from at 1. cbn [foldl]. destruct (map_item sid gen i t facts) as [ev t'].
  rewrite map_history_from_acc. cbn. done.
Qed.

Lemma map_history_keys sid gen items facts t :
  map ev_key (fst (map_history_from sid gen items facts t)) = map Some (history_keys sid gen t items)
  ∧ snd (map_history_from sid gen items facts t) = advance t items.
Proof.
  revert t. induction items as [|i items IH]; intros t; [done|].
  rewrite map_history_from_cons. destruct (map_item_keys sid gen i t facts) as [Hk Ht]. rewrite Ht.
  destruct (IH (snd (next_occurrence t (item_digest i)))) as [IHk IHt]. cbn [fst snd].
  split; [|exact IHt]. rewrite map_app, Hk, IHk. unfold history_keys. cbn [numbered map concat]. by rewrite map_app.
Qed.

Lemma history_keys_app sid gen t xs ys :
  history_keys sid gen t (xs ++ ys) = history_keys sid gen t xs ++ history_keys sid gen (advance t xs) ys.
Proof.
  revert t. induction xs as [|i xs IH]; intros t; [done|]. cbn [app]. unfold history_keys in *. cbn [numbered map concat].
  rewrite IH. by rewrite app_assoc.
Qed.

Lemma advance_app t xs ys : advance t (xs ++ ys) = advance (advance t xs) ys.
Proof. apply foldl_app. Qed.

(** *** Counting *)

Definition occurrences (d : str) (items : list ConversationItem) : nat :=
  length (filter (fun i => item_digest i = d) items).

(** No count reaches the limit of its width. *)
Definition counts_fit (t : OccurrenceTracker) (items : list ConversationItem) : Prop :=
  ∀ d, (count_of t d + N.of_nat (length items) <= u64_max)%N.

Lemma count_next t d d' : (count_of t d < u64_max)%N ->
  count_of (snd (next_occurrence t d)) d' = (count_of t d' + if decide (d = d') then 1 else 0)%N.
Proof.
  intros Hc. cbn. unfold count_of at 1. case_decide; [subst; rewrite lookup_insert_eq|rewrite lookup_insert_ne by done; fold (count_of t d'); lia].
  cbn. unfold wrap64. rewrite N.mod_small; lia.
Qed.

Lemma counts_fit_next t i items : counts_fit t (i :: items) ->
  (count_of t (item_digest i) < u64_max)%N ∧ counts_fit (snd (next_occurrence t (item_digest i))) items.
Proof.
  intros Hf. pose proof (Hf (item_digest i)) as Hi. cbn [length] in Hi. split; [lia|].
  intros d. rewrite count_next by lia. specialize (Hf d). cbn [length] in Hf. case_decide; lia.
Qed.

Lemma count_advance t items d : counts_fit t items ->
  count_of (advance t items) d = (count_of t d + N.of_nat (occurrences d items))%N.
Proof.
  revert t. induction items as [|i items IH]; intros t Hf; [cbn; lia|].
  apply counts_fit_next in Hf as [Hi Hf]. change (advance t (i :: items)) with (advance (snd (next_occurrence t (item_digest i))) items).
  rewrite IH by done. rewrite count_next by done. unfold occurrences. rewrite filter_cons. repeat case_decide; cbn [length]; lia.
Qed.

(** The occurrences of a digest are numbered from its count on, one after the other. *)
Lemma numbered_range t items i occ : counts_fit t items -> (i, occ) ∈ numbered t items ->
  i ∈ items ∧ (count_of t (item_digest i) <= occ < count_of (advance t items) (item_digest i))%N.
Proof.
  revert t. induction items as [|j items IH]; intros t Hf Hin; [by apply elem_of_nil in Hin|].
  pose proof (counts_fit_next _ _ _ Hf) as [Hj Hf']. rewrite count_advance by done.
  cbn [numbered] in Hin. apply elem_of_cons in Hin as [Heq|Hin].
  - simplify_eq. split; [by left|]. unfold occurrences. rewrite filter_cons_True by done. cbn [length]. lia.
  - apply IH in Hin as [Hi Hr]; [|done]. split; [by right|].
    rewrite count_advance, !count_next in Hr by done. unfold occurrences in *. rewrite filter_cons. repeat case_decide; cbn [length] in *; lia.
Qed.

Lemma numbered_hit t items d occ : counts_fit t items ->
  (count_of t d <= occ < count_of (advance t items) d)%N -> ∃ i, item_digest i = d ∧ (i, occ) ∈ numbered t items.
Proof.
  revert t. induction items as [|j items IH]; intros t Hf Hr; [cbn in Hr; lia|].
  pose proof (counts_fit_next _ _ _ Hf) as [Hj Hf'].
  destruct (decide (item_digest j = d ∧ occ = count_of t d)) as [[Hd ->]|Hne].
  - exists j. split; [done|]. cbn [numbered]. rewrite Hd. by left.
  - destruct (IH (snd (next_occurrence t (item_digest j))) Hf') as (i & Hi & Hin).
    + change (advance t (j :: items)) with (advance (snd (next_occurrence t (item_digest j))) items) in Hr.
      rewrite count_next by done. case_decide; split; try lia. destruct (decide (occ = count_of t d)); [naive_solver|lia].
    + exists i. split; [done|]. by right.
Qed.

Lemma numbered_NoDup t items : counts_fit t items ->
  NoDup (map (fun '(i, occ) => (item_digest i, occ)) (numbered t items)).
Proof.
  revert t. induction items as [|i items IH]; intros t Hf; [constructor|].
  pose proof (counts_fit_next _ _ _ Hf) as [Hi Hf']. cbn [numbered map]. constructor; [|by apply IH].
  intros ([j occ] & [= Hd Ho] & Hin)%list_elem_of_fmap. apply numbered_range in Hin as [_ Hr]; [|done].
  rewrite <- Hd, count_next in Hr by done. rewrite decide_True in Hr by done. lia.
Qed.

Context `{!ItemDigestLaws}.

(** ** Which key belongs to which item *)

Lemma item_keys_elem sid gen d occ item key : key ∈ item_keys sid gen d occ item <->
  ∃ kind part, (kind, part) ∈ item_parts item ∧ key = item_event_key sid gen d occ kind part.
Proof.
  unfold item_keys. rewrite list_elem_of_fmap. split.
  - intros ([kind part] & -> & Hin). eauto.
  - intros (kind & part & Hin & ->). by exists (kind, part).
Qed.

Lemma item_keys_parse sid gen i occ key : (occ <= u64_max)%N ->
  key ∈ item_keys sid gen (item_digest i) occ i -> parse_item_key_digest_occ key = Some (item_digest i, occ).
Proof.
  intros Hocc (kind & part & _ & ->)%item_keys_elem. apply parse_item_key; [apply item_digest_hex|done].
Qed.

Lemma item_keys_nonempty sid gen d occ item : ∃ key, key ∈ item_keys sid gen d occ item.
Proof.
  pose proof (item_parts_nonempty item) as Hne. unfold item_keys. destruct (item_parts item) as [|[kind part] ps]; [done|].
  eexists. by left.
Qed.

Lemma item_keys_NoDup sid gen i occ : calls_distinct i -> NoDup (item_keys sid gen (item_digest i) occ i).
Proof.
  intros Hd. apply item_parts_NoDup in Hd. unfold item_keys.
  assert (Hk : ∀ kind part, (kind, part) ∈ item_parts i -> colon ∉ kind) by apply item_parts_kind.
  induction (item_parts i) as [|[kind part] ps IH]; [constructor|]. cbn [map]. inversion Hd as [|? ? Hnin Hd']. subst.
  constructor; [|apply IH; [done|intros; eapply Hk; by right]].
  intros ([kind' part'] & Heq & Hin)%list_elem_of_fmap. apply Hnin.
  apply item_key_parts in Heq as (_ & _ & _ & _ & Ht); [|apply digest_no_colon, item_digest_hex..].
  apply key_tail_inj in Ht as [-> ->]; [done|eapply Hk; by left|eapply Hk; by right].
Qed.

Lemma history_keys_elem sid gen t items key : key ∈ history_keys sid gen t items <->
  ∃ i occ, (i, occ) ∈ numbered t items ∧ key ∈ item_keys sid gen (item_digest i) occ i.
Proof.
  unfold history_keys. rewrite concat_elem. split.
  - intros (ks & ([i occ] & -> & Hin)%list_elem_of_fmap & Hk). eauto.
  - intros (i & occ & Hin & Hk). eexists. split; [|exact Hk]. apply list_elem_of_fmap. by exists (i, occ).
Qed.

Lemma concat_NoDup {A} (l : list (list A)) : Forall NoDup l ->
  (∀ n m a x y, l !! n = Some x -> l !! m = Some y -> a ∈ x -> a ∈ y -> n = m) -> NoDup (concat l).
Proof.
  induction l as [|x l IH]; intros Hall Hdis; [constructor|]. inversion Hall as [|? ? Hx Hl]. subst. cbn [concat].
  apply NoDup_app. split; [done|]. split.
  - intros a Ha (y & Hy & Hay)%concat_elem. apply list_elem_of_lookup in Hy as [m Hm].
    by specialize (Hdis 0 (S m) a x y eq_refl Hm Ha Hay).
  - apply IH; [done|]. intros n m a u v Hn Hm Hu Hv. specialize (Hdis (S n) (S m) a u v Hn Hm Hu Hv). lia.
Qed.

(** No two events of a history share a key. *)
Lemma history_keys_NoDup sid gen t items : counts_fit t items -> Forall calls_distinct items ->
  NoDup (history_keys sid gen t items).
Proof.
  intros Hf Hd. unfold history_keys. apply concat_NoDup.
  - rewrite Forall_map, Forall_forall. intros [i occ] Hin. apply item_keys_NoDup.
    rewrite Forall_forall in Hd. apply Hd. by eapply numbered_range.
  - intros n m a x y Hn Hm Hx Hy. rewrite list_lookup_fmap in Hn, Hm.
    destruct (numbered t items !! n) as [[i occ]|] eqn:Hni; cbn in Hn; [|done].
    destruct (numbered t items !! m) as [[j occ']|] eqn:Hmj; cbn in Hm; [|done]. simplify_eq.
    apply item_keys_elem in Hx as (kind & part & _ & ->). apply item_keys_elem in Hy as (kind' & part' & _ & Heq).
    apply item_key_parts in Heq as (_ & _ & Hdd & <- & _); [|apply digest_no_colon, item_digest_hex..].
    eapply NoDup_lookup; [by apply numbered_NoDup|rewrite list_lookup_fmap, Hni; reflexivity|].
    rewrite list_lookup_fmap, Hmj. cbn. by rewrite Hdd.
Qed.

(** The tracker that the keys of a history seed is the one that made them. *)
Lemma seed_history sid gen items d : counts_fit tracker_empty items ->
  count_of (seed_occurrence_from_keys (history_keys sid gen tracker_empty items)) d = count_of (advance tracker_empty items) d.
Proof.
  intros Hf. pose proof (count_advance _ _ d Hf) as Hc. pose proof (Hf d) as Hb. change (count_of tracker_empty d) with 0%N in Hb, Hc.
  assert (Hocc : (N.of_nat (occurrences d items) <= N.of_nat (length items))%N).
  { unfold occurrences. pose proof (length_filter (fun i => item_digest i = d) items). lia. }
  apply seed_count; [lia| |].
  - intros key occ (i & occ' & Hin & Hk)%history_keys_elem Hp. apply numbered_range in Hin as [_ Hr]; [|done].
    assert (Hi : (count_of (advance tracker_empty items) (item_digest i) <= u64_max)%N).
    { rewrite count_advance by done. specialize (Hf (item_digest i)). unfold occurrences.
      pose proof (length_filter (fun j => item_digest j = item_digest i) items). lia. }
    apply item_keys_parse in Hk; [|lia]. rewrite Hk in Hp. simplify_eq. lia.
  - intros Hpos. destruct (numbered_hit tracker_empty items d (count_of (advance tracker_empty items) d - 1)) as (i & <- & Hin); [done|change (count_of tracker_empty d) with 0%N; lia|].
    destruct (item_keys_nonempty sid gen (item_digest i) (count_of (advance tracker_empty items) (item_digest i) - 1) i) as [key Hk].
    exists key. split; [apply history_keys_elem; eauto|]. apply item_keys_parse in Hk; [done|lia].
Qed.

End keys.

(** ** Other keys *)

(** A word between colons, searched in fields without colons. *)
Definition marker (word : str) : str := colon :: word ++ [colon].

Lemma find_past p (f r : str) : colon ∉ f ->
  find (colon :: p) (f ++ colon :: r) = (fun i => length f + i) <$> find (colon :: p) (colon :: r).
Proof.
  induction f as [|x f IH]; intros Hf; [cbn [app length]; destruct (find (colon :: p) (colon :: r)); done|].
  apply not_elem_of_cons in Hf as [Hx Hf]. cbn [app]. rewrite find_cons.
  - rewrite IH by done. destruct (find (colon :: p) (colon :: r)); done.
  - cbn [starts_with]. destruct (ch_eqb colon x) eqn:He; [by apply ch_eqb_eq in He|done].
Qed.

Lemma find_marker_past word (f r : str) : colon ∉ f ->
  find (marker word) (f ++ colon :: r) = (fun i => length f + i) <$> find (marker word) (colon :: r).
Proof. apply find_past. Qed.

Lemma find_marker_skip word (f r : str) : colon ∉ word -> colon ∉ f -> f ≠ word ->
  find (marker word) (colon :: f ++ colon :: r) = (fun i => S (length f) + i) <$> find (marker word) (colon :: r).
Proof.
  intros Hw Hf Hne. rewrite find_cons.
  - unfold marker. rewrite find_past by done. by destruct (find _ _).
  - destruct (starts_with _ _) eqn:Hs; [|done]. apply starts_with_spec in Hs as [q Hq]. unfold marker in Hq.
    cbn [app] in Hq. injection Hq as Hq. rewrite <- app_assoc in Hq. cbn [app] in Hq. by apply cut_inj in Hq as [-> _].
Qed.

Lemma find_marker_here word r : find (marker word) (colon :: word ++ colon :: r) = Some 0.
Proof.
  unfold marker. replace (colon :: word ++ colon :: r) with ((colon :: word ++ [colon]) ++ r) by (cbn; by rewrite <- app_assoc).
  destruct ((colon :: word ++ [colon]) ++ r) eqn:He; [done|]. rewrite <- He. 
  pose proof (starts_with_app (colon :: word ++ [colon]) r) as Hs. rewrite He in *. cbn [find]. by rewrite Hs.
Qed.

Lemma segment_end_key sid gen d occ call : is_digest d -> encode_session_id sid ≠ lit "tool_result" ->
  ev_key <$> segment_end_event (item_event_key sid gen d occ (lit "tool_result") (Some call))
  = Some (Some (item_event_key sid gen d occ (lit "segment_end") None)).
Proof.
  intros Hd Hsid. unfold segment_end_event, split_once_str.
  assert (Hdc : colon ∉ d) by by apply digest_no_colon.
  assert (Hw : colon ∉ lit "tool_result") by by_decide.
  assert (Hdn : d ≠ lit "tool_result") by (intros ->; apply (digest_no (byte 116) _ eq_refl Hd); by_decide).
  assert (Hon : show_N occ ≠ lit "tool_result").
  { intros Heq. apply (show_N_no (byte 116) occ eq_refl). rewrite Heq. by_decide. }
  set (head := lit "grok:" ++ encode_session_id sid ++ colon :: lit "g" ++ show_N gen ++ colon :: d ++ colon :: show_N occ).
  assert (Hkey : item_event_key sid gen d occ (lit "tool_result") (Some call) = head ++ colon :: lit "tool_result" ++ colon :: call).
  { rewrite item_event_key_eq. unfold key_tail, head. by repeat (rewrite <- ?app_assoc; cbn [app]). }
  assert (Hfind : find (lit ":tool_result:") (item_event_key sid gen d occ (lit "tool_result") (Some call)) = Some (length head)).
  { change (lit ":tool_result:") with (marker (lit "tool_result")). rewrite item_event_key_eq. unfold key_tail.
    change (lit "grok:") with (lit "grok" ++ [colon]). rewrite <- app_assoc. cbn [app].
    rewrite find_marker_past by by_decide.
    rewrite find_marker_skip by (done || apply encode_no_colon).
    rewrite (app_assoc (lit "g")). change (lit "g" ++ show_N gen) with (byte 103 :: show_N gen).
    rewrite find_marker_skip; [|done|by rewrite not_elem_of_cons; split; [done|apply show_N_no_colon]|done].
    rewrite find_marker_skip by done. rewrite find_marker_skip by (done || apply show_N_no_colon).
    rewrite find_marker_here. cbn [fmap option_fmap option_map]. f_equal. unfold head. repeat (rewrite ?length_app; cbn [length]).
    change (length (lit "grok")) with 4. change (length (lit "grok:")) with 5. change (length (lit "g")) with 1. lia. }
  rewrite Hfind. cbn [mbind option_bind fmap option_fmap option_map]. rewrite Hkey, take_app_length.
  f_equal. unfold ev_key, event. cbn [input idempotency_key]. f_equal.
  rewrite item_event_key_eq. unfold key_tail, head. rewrite app_nil_r. by repeat (rewrite <- ?app_assoc; cbn [app]).
Qed.

(** *** Trackers that count alike map alike *)

Section resume.
Context `{ItemDigest, !ItemDigestLaws, JsonText, SearchActionJson}.

Lemma numbered_counts t t' items : counts_fit t items -> (∀ d, count_of t d = count_of t' d) ->
  numbered t items = numbered t' items.
Proof.
  revert t t'. induction items as [|i items IH]; intros t t' Hf Heq; [done|].
  pose proof (counts_fit_next _ _ _ Hf) as [Hi Hf']. cbn [numbered]. rewrite Heq. f_equal. apply IH; [done|].
  intros d. rewrite !count_next by (rewrite <- ?Heq; done). by rewrite Heq.
Qed.

Lemma counts_fit_app t xs ys : counts_fit t (xs ++ ys) -> counts_fit t xs ∧ counts_fit (advance t xs) ys.
Proof.
  intros Hf. assert (Hx : counts_fit t xs) by (intros d; specialize (Hf d); rewrite length_app in Hf; lia).
  split; [done|]. intros d. rewrite count_advance by done. specialize (Hf d). rewrite length_app in Hf.
  pose proof (length_filter (fun i => item_digest i = d) xs). unfold occurrences. lia.
Qed.

Lemma counts_fit_counts t t' items : (∀ d, count_of t d = count_of t' d) -> counts_fit t items -> counts_fit t' items.
Proof. intros Heq Hf d. rewrite <- Heq. apply Hf. Qed.

Lemma counts_fit_empty items : (N.of_nat (length items) <= u64_max)%N -> counts_fit tracker_empty items.
Proof. intros Hl d. change (count_of tracker_empty d) with 0%N. lia. Qed.
End resume.

Definition keys_of (evs : list MappedEvent) : list str := omap ev_key evs.

Lemma keys_of_map evs ks : map ev_key evs = map Some ks -> keys_of evs = ks.
Proof.
  unfold keys_of. revert ks. induction evs as [|e evs IH]; intros [|k ks] [=]; [done|]. cbn. rewrite H0. f_equal. by apply IH.
Qed.

(** *** Image blocks *)

Lemma split_once_spec c s a b : split_once c s = Some (a, b) -> s = a ++ c :: b.
Proof.
  revert a b. induction s as [|x s IH]; intros a b; cbn; [done|]. destruct (ch_eqb x c) eqn:He.
  - intros [= <- <-]. by apply ch_eqb_eq in He as ->.
  - destruct (split_once c s) as [[a' b']|]; cbn; [|done]. intros [= <- <-]. cbn. f_equal. by apply IH.
Qed.

Lemma parse_data_url_spec url media data : parse_data_url url = Some (media, data) ->
  url = lit "data:" ++ media ++ lit ";base64," ++ data.
Proof.
  unfold parse_data_url. intros Hp. destruct (strip_prefix _ url) as [rest|] eqn:Hs; cbn [mbind option_bind] in Hp; [|done].
  apply strip_prefix_spec in Hs as ->. destruct (split_once _ rest) as [[meta data']|] eqn:Ho; cbn [mbind option_bind] in Hp; [|done].
  apply split_once_spec in Ho as ->. destruct (strip_suffix _ meta) as [m|] eqn:Hm; cbn [mbind option_bind] in Hp; [|done].
  destruct (is_empty m); simplify_eq. apply strip_suffix_spec in Hm as ->. by rewrite <- !app_assoc.
Qed.

(** ** Theorems *)

(** C27 A resumed capture goes on where it stopped. For a history no item of which calls two tools under one
    identifier, and of at most [u64::MAX] items: its keys are pairwise distinct, whatever facts its turns ended with; they
    begin with the keys of any earlier part of it, and go on with the keys that the rest is given from a tracker
    seeded with the stored keys of that part. Every event of the history has a key. *)
Theorem restart_resumes_keys `{ItemDigest, !ItemDigestLaws, JsonText, SearchActionJson} sid gen xs ys f f' f'' :
  (N.of_nat (length (xs ++ ys)) <= u64_max)%N -> Forall calls_distinct (xs ++ ys) ->
  let stored := keys_of (fst (map_history sid gen xs f')) in
  keys_of (fst (map_history sid gen (xs ++ ys) f))
  = stored ++ keys_of (fst (map_history_from sid gen ys f'' (seed_occurrence_from_keys stored)))
  ∧ NoDup (keys_of (fst (map_history sid gen (xs ++ ys) f)))
  ∧ length (keys_of (fst (map_history sid gen (xs ++ ys) f))) = length (fst (map_history sid gen (xs ++ ys) f)).
Proof.
  intros Hlen Hd stored. assert (Hf : counts_fit tracker_empty (xs ++ ys)) by by apply counts_fit_empty.
  destruct (counts_fit_app _ _ _ Hf) as [Hfx Hfy].
  destruct (map_history_keys sid gen (xs ++ ys) f tracker_empty) as [Hall _].
  destruct (map_history_keys sid gen xs f' tracker_empty) as [Hx _].
  apply keys_of_map in Hx. fold (map_history sid gen xs f') in Hx.
  assert (Hcount : ∀ d, count_of (advance tracker_empty xs) d = count_of (seed_occurrence_from_keys stored) d).
  { intros d. unfold stored. rewrite Hx. symmetry. by apply seed_history. }
  destruct (map_history_keys sid gen ys f'' (seed_occurrence_from_keys stored)) as [Hy _]. apply keys_of_map in Hy.
  pose proof (keys_of_map _ _ Hall) as Hk. unfold map_history. rewrite Hk. split; [|split].
  - rewrite history_keys_app. unfold stored at 1. rewrite Hx, Hy. f_equal. unfold history_keys. f_equal. f_equal.
    by apply numbered_counts.
  - by apply history_keys_NoDup.
  - rewrite <- (length_map ev_key (fst _)), Hall. by rewrite length_map.
Qed.

(** An image survives the archive: the address read back from the content block
    made for an image is the address of the image, for data and for plain addresses. *)
Theorem image_block_roundtrip url : image_block_url (image_block url) = Some url.
Proof.
  unfold image_block, image_block_url. destruct (parse_data_url url) as [[media data]|] eqn:Hp; [|reflexivity].
  apply parse_data_url_spec in Hp as ->. reflexivity.
Qed.

(** The end of a segment is anchored to its tool result: its key is that of the
    item of the result, so two ends are one only when they close after the same
    item. (A session must not be called like the marker that is searched.) *)
Theorem segment_end_anchored sid sid' gen gen' d d' occ occ' call call' e e' :
  is_digest d -> is_digest d' -> encode_session_id sid ≠ lit "tool_result" -> encode_session_id sid' ≠ lit "tool_result" ->
  segment_end_event (item_event_key sid gen d occ (lit "tool_result") (Some call)) = Some e ->
  segment_end_event (item_event_key sid' gen' d' occ' (lit "tool_result") (Some call')) = Some e' ->
  ev_key e = Some (item_event_key sid gen d occ (lit "segment_end") None)
  ∧ (ev_key e = ev_key e' -> sid = sid' ∧ gen = gen' ∧ d = d' ∧ occ = occ').
Proof.
  intros Hd Hd' Hs Hs' He He'. pose proof (segment_end_key sid gen d occ call Hd Hs) as Hk.
  pose proof (segment_end_key sid' gen' d' occ' call' Hd' Hs') as Hk'. rewrite He in Hk. rewrite He' in Hk'.
  apply (inj Some) in Hk as ->, Hk' as ->. split; [done|]. intros Heq%(inj Some).
  apply item_key_parts in Heq as (-> & -> & -> & -> & _); [done|by apply digest_no_colon..].
Qed.

(** A session called [tool_result] has one end for all of its segments. *)
Example tool_result_session_shares_ends call call' :
  segment_end_event (item_event_key (lit "tool_result") 0 (lit "aa") 0 (lit "tool_result") (Some call))
  = segment_end_event (item_event_key (lit "tool_result") 0 (lit "bb") 3 (lit "tool_result") (Some call')).
Proof. reflexivity. Qed.

(** ** Runs *)

Definition demo_hex (s : str) : str := concat (map (fun c => show_hex (N_of_ascii c)) s).

#[export] Instance demo_item_digest : ItemDigest := fun i =>
  match i with
  | CSystem s => lit "a" ++ demo_hex (sys_content s)
  | CUser u => lit "b" ++ demo_hex (content_parts_text (u_content u))
  | CAssistant a => lit "c" ++ demo_hex (a_content a ++ concat (map tc_id (a_tool_calls a)))
  | CToolResult r => lit "d" ++ demo_hex (tr_tool_call_id r ++ tr_content r)
  | CBackendToolCall b => lit "e" ++ demo_hex (backend_id b)
  | CReasoning r => lit "f" ++ demo_hex (reasoning_item_text r)
  end.
#[export] Instance demo_item_digest_laws : ItemDigestLaws.
Proof.
  assert (Hhex : ∀ s, Forall (fun c => is_lower_hex c = true) (demo_hex s)).
  { intros s. unfold demo_hex. induction s as [|c s IH]; [constructor|]. cbn [map concat]. apply Forall_app.
    split; [apply show_hex_digits|done]. }
  intros i. unfold item_digest, demo_item_digest. destruct i; (split; [constructor; [reflexivity|apply Hhex]|done]).
Qed.
#[export] Instance demo_json : JsonText := { json_from_str := fun _ => None; json_to_string := fun _ => lit "{}" }.
#[export] Instance demo_actions : SearchActionJson := fun _ => JNull.

Definition demo_items : list ConversationItem :=
  [item_user (lit "hi"); item_assistant (lit "hello"); item_user (lit "hi");
   item_assistant_tool_calls [mkToolCall (lit "c1") (lit "ls") (lit "{}"); mkToolCall (lit "c2") (lit "ls") (lit "{}")];
   item_tool_result (lit "c1") (lit "ok")].

Lemma restart_resumes_keys_witness :
  let stored := keys_of (fst (map_history (lit "s") 0 demo_items no_facts)) in
  keys_of (fst (map_history (lit "s") 0 (demo_items ++ [item_user (lit "hi")]) no_facts))
  = stored ++ keys_of (fst (map_history_from (lit "s") 0 [item_user (lit "hi")] no_facts (seed_occurrence_from_keys stored))).
Proof.
  apply (restart_resumes_keys (lit "s") 0 demo_items [item_user (lit "hi")] no_facts no_facts no_facts);
    [vm_compute; discriminate|repeat constructor; by_decide].
Defined.

Lemma segment_end_anchored_witness :
  ev_key <$> segment_end_event (item_event_key (lit "s") 0 (lit "aa") 2 (lit "tool_result") (Some (lit "c1")))
  = Some (Some (item_event_key (lit "s") 0 (lit "aa") 2 (lit "segment_end") None)).
Proof.
  assert (Hd : is_digest (lit "aa")) by (split; [repeat constructor|done]).
  destruct (segment_end_event (item_event_key (lit "s") 0 (lit "aa") 2 (lit "tool_result") (Some (lit "c1")))) as [e|] eqn:He;
    [|discriminate He].
  cbn [fmap option_fmap option_map]. f_equal.
  refine (proj1 (segment_end_anchored (lit "s") (lit "s") 0 0 (lit "aa") (lit "aa") 2 2 (lit "c1") (lit "c1") e e Hd Hd _ _ He He));
    vm_compute; discriminate.
Defined.
