(* ===== verification/LhcSession.v ===== *)
(** * A capture session over its archive thread

    [grok-lhc-host/src/session.rs]: finding or creating the thread of a session,
    seeding the keys from its stored events, submitting batches and disabling the
    capture after repeated failures, compaction. The archive is a crate outside the
    repository: the class [Archive], with its contract in [ArchiveLaws]. *)

From stdpp Require Import sorting.
From S2P Require Import Prelude RustStr F64 Json Conversation LhcKeys LhcMapping.

(** ** The archive *)

Inductive BatchEventOutcome := Recorded | Skipped.

Record BatchEvent := mkBatchEvent { be_key : str; be_outcome : BatchEventOutcome }.

Record BatchResult := mkBatch {
  br_events : list BatchEvent;
  last_event_order : Z;
}.

Record EventRecord := mkRecord { event_order : Z; er_key : str }.

(** A thread, by its identifier or its file. *)
Inductive ThreadRef := ThreadId (thread_id : str) | FilePath (path : str).

(** An error of the compaction: it was told to stop, or the reason. *)
Inductive CompactError := CompactStopped | CompactFailed (reason : str).

(** Calls whose answer is handed on as it is. *)
Inductive ArchiveCall :=
  | GetLlmRequestContext | GetSessionThreadView | GetClassifyContext | PreviewCompact | GetViewStatus
  | InspectHealth | GetTurns (ids : list str) | GetMessages (ids : list str) | ListImpressions.

Class Archive (W : Type) := {
  message_events : ThreadRef -> list MessageEventInput -> W -> result BatchResult str * W;
  archive_list_events : ThreadRef -> W -> result (list EventRecord) str * W;
  (** The tokens of the open turn, if one is open. *)
  archive_host_metadata : ThreadRef -> W -> result (option Z) str * W;
  (** [lower_bound] and [percentages.full] of a profile of the resolved view configuration. *)
  view_profile : str -> W -> option (f64 * f64);
  set_model : str -> W -> W;
  Receipt : Type;
  archive_compact : ThreadRef -> W -> result Receipt CompactError * W;
  Reply : Type;
  archive_call : ArchiveCall -> ThreadRef -> W -> Reply * W;
  archive_drain_settled : ThreadRef -> W -> W;
  (** Threads and their registry. *)
  file_exists : str -> W -> bool;
  create_dir_all : str -> W -> bool * W;
  threads_info : ThreadRef -> W -> result str str * W;
  threads_resolve : str -> str -> W -> result str str * W;
  resolve_thread_ref : ThreadRef -> W -> result str str * W;
  list_threads : str -> W -> result (list (str * str)) str * W;
  new_thread : str -> str -> option str -> str -> W -> result str str * W;
  path_eqb : str -> str -> bool;
}.

(** Which keys of a batch are recorded: those not stored yet, each once. *)
Fixpoint outcomes (stored : list str) (keys : list str) : list BatchEvent :=
  match keys with
  | [] => []
  | k :: keys =>
      if bool_decide (k ∈ stored) then mkBatchEvent k Skipped :: outcomes stored keys
      else mkBatchEvent k Recorded :: outcomes (stored ++ [k]) keys
  end.

Definition recorded_keys (events : list BatchEvent) : list str :=
  omap (fun e => match be_outcome e with Recorded => Some (be_key e) | Skipped => None end) events.

Definition keys_stored (l : list EventRecord) : list str := map er_key l.

(** The last order of a thread. *)
Definition last_order (l : list EventRecord) : Z := from_option event_order 0%Z (last l).

(** The orders of a thread grow. *)
Definition ordered (l : list EventRecord) : Prop :=
  StronglySorted (fun a b => (event_order a < event_order b)%Z) l ∧ Forall (fun e => (0 < event_order e)%Z) l.

(** An error is the text the host reports of it. The contract: a batch is recorded whole or not at all; of its keyed events
    those not stored are appended in their order; nothing else touches the events. *)
Class ArchiveLaws W `{Archive W} := {
  stored_events : ThreadRef -> W -> list EventRecord;
  events_ordered t w : ordered (stored_events t w);
  events_unique t w : NoDup (keys_stored (stored_events t w));
  message_events_ok t evs w b w' :
    message_events t evs w = (Ok b, w') ->
    ∃ added, stored_events t w' = stored_events t w ++ added
      ∧ keys_stored added = recorded_keys (outcomes (keys_stored (stored_events t w)) (omap idempotency_key evs))
      ∧ br_events b = outcomes (keys_stored (stored_events t w)) (omap idempotency_key evs)
      ∧ last_event_order b = last_order (stored_events t w');
  message_events_err t evs w e w' : message_events t evs w = (Err e, w') -> stored_events t w' = stored_events t w;
  list_events_ok t w : (∀ l, fst (archive_list_events t w) = Ok l -> l = stored_events t w)
    ∧ stored_events t (snd (archive_list_events t w)) = stored_events t w;
  host_metadata_reads t w : stored_events t (snd (archive_host_metadata t w)) = stored_events t w;
  set_model_reads t m w : stored_events t (set_model m w) = stored_events t w;
  compact_reads t w : stored_events t (snd (archive_compact t w)) = stored_events t w;
  call_reads c t w : stored_events t (snd (archive_call c t w)) = stored_events t w;
  drain_reads t w : stored_events t (archive_drain_settled t w) = stored_events t w;
}.

(** ** The session *)

(** Source: crates/lhc/grok-lhc-host/src/session.rs:36-40, [CompactDrainOutcome]. *)
Inductive CompactDrainOutcome := AbandonedByCancel.

(** Source: crates/lhc/grok-lhc-host/src/session.rs:97-97, [SEGMENT_POLICY_PROFILE]. *)
Definition SEGMENT_POLICY_PROFILE : str := lit "continuation".

(** With the outcome that the registry of compactions keeps for the session.

    Source: crates/lhc/grok-lhc-host/src/session.rs:100-116, [LhcSession]. *)
Record LhcSession (W : Type) := mkSession {
  ls_session_id : str;
  lhc : W;
  thread_ref : ThreadRef;
  generation : N;
  next_change_ordinal : N;
  capture_disabled : bool;
  failure_count : N;
  drain_outcome : option CompactDrainOutcome;
}.
Arguments mkSession {_} _ _ _ _ _ _ _ _.
Arguments ls_session_id {_} _.
Arguments lhc {_} _.
Arguments thread_ref {_} _.
Arguments generation {_} _.
Arguments next_change_ordinal {_} _.
Arguments capture_disabled {_} _.
Arguments failure_count {_} _.
Arguments drain_outcome {_} _.

Definition set_lhc {W} (w : W) (s : LhcSession W) : LhcSession W :=
  mkSession (ls_session_id s) w (thread_ref s) (generation s) (next_change_ordinal s) (capture_disabled s) (failure_count s)
    (drain_outcome s).
Definition set_generation {W} (g : N) (s : LhcSession W) : LhcSession W :=
  mkSession (ls_session_id s) (lhc s) (thread_ref s) g (next_change_ordinal s) (capture_disabled s) (failure_count s)
    (drain_outcome s).
Definition set_next_change_ordinal {W} (n : N) (s : LhcSession W) : LhcSession W :=
  mkSession (ls_session_id s) (lhc s) (thread_ref s) (generation s) n (capture_disabled s) (failure_count s) (drain_outcome s).
Definition set_failures {W} (n : N) (disabled : bool) (s : LhcSession W) : LhcSession W :=
  mkSession (ls_session_id s) (lhc s) (thread_ref s) (generation s) (next_change_ordinal s) disabled n (drain_outcome s).
(** Source: crates/lhc/grok-lhc-host/src/session.rs:57-61, [note_compact_drain_outcome]. *)
Definition note_compact_drain_outcome {W} (o : CompactDrainOutcome) (s : LhcSession W) : LhcSession W :=
  mkSession (ls_session_id s) (lhc s) (thread_ref s) (generation s) (next_change_ordinal s) (capture_disabled s)
    (failure_count s) (Some o).

(** [x.max(0) as u64] of an [i64]. *)
Definition order_to_u64 (z : Z) : N := Z.to_N (Z.max z 0).

(** [n as i64]. *)
Definition u64_as_i64 (n : N) : Z := if N.ltb n (2 ^ 63) then Z.of_N n else (Z.of_N n - 2 ^ 64)%Z.

Section session.
Context {W : Type} `{Archive W}.

(** Source: crates/lhc/grok-lhc-host/src/session.rs:286-296, [LhcSession::list_events]. *)
Definition list_events (s : LhcSession W) : result (list EventRecord) str * LhcSession W :=
  let '(r, w) := archive_list_events (thread_ref s) (lhc s) in (r, set_lhc w s).

(** Source: crates/lhc/grok-lhc-host/src/session.rs:218-230, [LhcSession::seed_from_db]. *)
Definition seed_from_db (s : LhcSession W) : result OccurrenceTracker str * LhcSession W :=
  match list_events s with
  | (Err e, s) => (Err e, s)
  | (Ok events, s) =>
      let top := match map event_order events with [] => 0%Z | o :: os => foldl Z.max o os end in
      let s := set_generation (order_to_u64 top) s in
      let keys := map er_key events in
      let s := set_next_change_ordinal (max_change_ordinal_from_keys keys) s in
      (Ok (seed_occurrence_from_keys keys), s)
  end.

(** Source: crates/lhc/grok-lhc-host/src/session.rs:233-236, [LhcSession::latch_generation_from_batch]. *)
Definition latch_generation_from_batch (b : BatchResult) (s : LhcSession W) : LhcSession W :=
  set_generation (N.max (generation s) (order_to_u64 (last_event_order b))) s.

(** Source: crates/lhc/grok-lhc-host/src/session.rs:239-284, [LhcSession::submit_events]. *)
Definition submit_events (events : list MessageEventInput) (s : LhcSession W) : result BatchResult str * LhcSession W :=
  if capture_disabled s then (Err (lit "capture disabled for session"), s)
  else if is_empty events then (Ok (mkBatch [] (u64_as_i64 (generation s))), s)
  else
    let '(r, w) := message_events (thread_ref s) events (lhc s) in
    let s := set_lhc w s in
    match r with
    | Ok value => (Ok value, latch_generation_from_batch value (set_failures 0 (capture_disabled s) s))
    | Err error =>
        let n := sat_add32 (failure_count s) 1 in
        (Err error, set_failures n (if N.leb 3 n then true else capture_disabled s) s)
    end.

(** Source: crates/lhc/grok-lhc-host/src/session.rs:209-213, [LhcSession::set_serving_model]. *)
Definition set_serving_model (model : str) (s : LhcSession W) : LhcSession W :=
  if is_empty model then s else set_lhc (set_model model (lhc s)) s.

(** Source: crates/lhc/grok-lhc-host/src/session.rs:528-538, [LhcSession::host_metadata]. *)
Definition host_metadata (s : LhcSession W) : result (option Z) str * LhcSession W :=
  let '(r, w) := archive_host_metadata (thread_ref s) (lhc s) in (r, set_lhc w s).

(** Source: crates/lhc/grok-lhc-host/src/session.rs:546-550, [LhcSession::segment_threshold_tokens]. *)
Definition segment_threshold_tokens (s : LhcSession W) : option Z :=
  '(lower_bound, full) ← view_profile SEGMENT_POLICY_PROFILE (lhc s);
  let full_budget := f64_div (f64_mul lower_bound full) (f64_of_N 100) in
  Some (f64_floor_to_i64 (f64_div full_budget (f64_of_N 2))).

(** When the turn was cancelled: before the call, while it ran, or by the time it answered. *)
Record CancelTiming := mkCancel { before_call : bool; while_running : bool; when_answered : bool }.

(** The compaction, raced against the cancellation of its turn.

    Source: crates/lhc/grok-lhc-host/src/session.rs:449-524, [LhcSession::compact]. *)
Definition session_compact (cancel : CancelTiming) (s : LhcSession W) : result Receipt str * LhcSession W :=
  let cancelled s := (Err (lit "compact_cancelled"), note_compact_drain_outcome AbandonedByCancel s) in
  if before_call cancel then cancelled s
  else if while_running cancel then cancelled s
  else
    let '(r, w) := archive_compact (thread_ref s) (lhc s) in
    let s := set_lhc w s in
    match r with
    | Ok value => if when_answered cancel then cancelled s else (Ok value, s)
    | Err CompactStopped => cancelled s
    | Err (CompactFailed reason) => if when_answered cancel then cancelled s else (Err reason, s)
    end.

(** Source: crates/lhc/grok-lhc-host/src/session.rs:583-604, [LhcSession::close]. *)
Definition session_close (s : LhcSession W) : W := archive_drain_settled (thread_ref s) (lhc s).

(** ** Opening *)

(** [a.join(b)] for a relative [b]. *)
Definition path_join (a b : str) : str :=
  if is_empty a || ends_with (lit "/") a then a ++ b else a ++ lit "/" ++ b.

(** Source: crates/lhc/grok-lhc-host/src/session.rs:772-777, [thread_file_path]. *)
Definition thread_file_path (root session_id : str) : str :=
  path_join (path_join root (lit "threads")) (lit "grok-" ++ encode_session_id_for_path session_id ++ lit ".sqlite").

(** Source: crates/lhc/grok-lhc-host/src/session.rs:622-717, [open_existing]. *)
Definition open_existing (session_id file_path registry : str) : eff W unit ThreadRef := fun w =>
  match threads_info (FilePath file_path) w with
  | (Err _, w) => (Err tt, w)
  | (Ok thread_id, w) =>
      match threads_resolve thread_id registry w with
      | (Ok resolved, w) =>
          if negb (str_eqb resolved file_path) && negb (path_eqb resolved file_path) then (Err tt, w)
          else
            match resolve_thread_ref (FilePath resolved) w with
            | (Ok _, w) => (Ok (FilePath resolved), w)
            | (Err _, w) => (Err tt, w)
            end
      | (Err _, w) =>
          match list_threads registry w with
          | (Ok rows, w) =>
              match List.find (fun '(_, p) => str_eqb p file_path || path_eqb p file_path) rows with
              | Some (_, p) => (Ok (FilePath p), w)
              | None => (Err tt, w)
              end
          | (Err _, w) => (Err tt, w)
          end
      end
  end.

(** Source: crates/lhc/grok-lhc-host/src/session.rs:719-770, [create_new]. *)
Definition create_new (session_id : str) (cwd : option str) (file_path registry : str) : eff W unit ThreadRef := fun w =>
  match new_thread file_path (lit "grok:" ++ session_id) cwd registry w with
  | (Err _, w) => (Err tt, w)
  | (Ok thread_id, w) =>
      match resolve_thread_ref (ThreadId thread_id) w with
      | (Ok resolved, w) => (Ok (FilePath resolved), w)
      | (Err _, w) => (Err tt, w)
      end
  end.

(** Source: crates/lhc/grok-lhc-host/src/session.rs:126-205, [LhcSession::open]. *)
Definition session_open (session_id : str) (cwd : option str) (root : str) (serving_model : option str)
    : eff W unit (LhcSession W * OccurrenceTracker) := fun w =>
  match create_dir_all (path_join root (lit "threads")) w with
  | (false, w) => (Err tt, w)
  | (true, w) =>
      let registry := path_join root (lit "registry.sqlite") in
      let file_path := thread_file_path root session_id in
      let w := match serving_model with Some m => if is_empty m then w else set_model m w | None => w end in
      match (if file_exists file_path w then open_existing session_id file_path registry w
             else create_new session_id cwd file_path registry w) with
      | (Err _, w) => (Err tt, w)
      | (Ok thread_ref, w) =>
          match seed_from_db (mkSession session_id w thread_ref 0 0 false 0 None) with
          | (Ok t, s) => (Ok (s, t), lhc s)
          | (Err _, s) => (Err tt, lhc s)
          end
      end
  end.
End session.
