(* ===== verification/LhcCapture.v ===== *)
(** * The capture of a session

    [grok-lhc-host/src/capture.rs] and [generated_prefix.rs]: the worker that takes
    commands from a bounded queue and submits events to the archive. A live item is
    keyed by the running tracker; a whole history is re-mapped and left to the
    archive's deduplication; a body that the archive itself generated is skipped;
    the end of a turn waits for the facts of the shell; a long turn is closed in
    segments. [handle] operations run on the actor's side and never wait. *)

From S2P Require Import Prelude RustStr Json Conversation Usage ChatTypes LhcKeys LhcMapping LhcSession.

(** ** Installed prefixes *)

(** Source: crates/lhc/grok-lhc-host/src/generated_prefix.rs:31-35, [GeneratedPrefix]. *)
Record GeneratedPrefix := mkGenerated { gp_items : list ConversationItem; gp_source_tip : N }.

(** Source: crates/lhc/grok-lhc-host/src/generated_prefix.rs:38-46, [PrefixWalk]. *)
Inductive PrefixWalk :=
  | Covered (remap_head : bool) (remainder : nat)
  | Stopped (index : nat).

(** Source: crates/lhc/grok-lhc-host/src/generated_prefix.rs:49-56, [InstalledPrefix]. *)
Record InstalledPrefix := mkInstalled {
  body : list ConversationItem;
  digests : list str;
  source_tip : N;
  seed : option OccurrenceTracker;
}.

Section prefix.
Context `{ItemDigest}.

(** Source: crates/lhc/grok-lhc-host/src/generated_prefix.rs:59-67, [InstalledPrefix::new]. *)
Definition prefix_new (g : GeneratedPrefix) : InstalledPrefix :=
  mkInstalled (gp_items g) (map item_digest (gp_items g)) (gp_source_tip g) None.

(** Source: crates/lhc/grok-lhc-host/src/generated_prefix.rs:80-109, [InstalledPrefix::walk]. *)
Fixpoint walk_loop (self : InstalledPrefix) (native : list ConversationItem) (ds : list str) (i : nat) (remap_head : bool)
    : PrefixWalk :=
  match ds with
  | [] => Covered remap_head (length (digests self))
  | expected :: ds =>
      match native !! i with
      | None => Covered remap_head (length native)
      | Some item =>
          if str_eqb (item_digest item) expected then walk_loop self native ds (S i) remap_head
          else
            match item, body self !! i with
            | CSystem _, Some (CSystem _) =>
                if Nat.eqb i 0 then walk_loop self native ds (S i) true else Stopped i
            | CToolResult a, Some (CToolResult b) =>
                if str_eqb (tr_tool_call_id a) (tr_tool_call_id b) then walk_loop self native ds (S i) remap_head
                else Stopped i
            | _, _ => Stopped i
            end
      end
  end.

(** Source: crates/lhc/grok-lhc-host/src/generated_prefix.rs:78-114, [InstalledPrefix::walk]. *)
Definition prefix_walk (self : InstalledPrefix) (native : list ConversationItem) : PrefixWalk :=
  walk_loop self native (digests self) 0 false.
End prefix.

(** Source: crates/lhc/grok-lhc-host/src/generated_prefix.rs:118-135, [InstalledPrefix::frozen_seed]. *)
Definition frozen_seed `{Archive W} (self : InstalledPrefix) (sess : LhcSession W)
    : result OccurrenceTracker str * InstalledPrefix * LhcSession W :=
  match seed self with
  | Some t => (Ok t, self, sess)
  | None =>
      match list_events sess with
      | (Err e, sess) => (Err e, self, sess)
      | (Ok events, sess) =>
          let tip := Z.min (Z.of_N (source_tip self)) (2 ^ 63 - 1) in
          let t := seed_occurrence_from_keys
                     (map er_key (List.filter (fun e => Z.leb (event_order e) tip) events)) in
          (Ok t, mkInstalled (body self) (digests self) (source_tip self) (Some t), sess)
      end
  end.

(** ** Commands and state *)

(** Source: crates/lhc/grok-lhc-host/src/capture.rs:30-30, [CAPTURE_QUEUE_CAP]. *)
Definition CAPTURE_QUEUE_CAP : nat := 1024.

(** The commands of the shipped build; calls handed on to the archive are one constructor.

    Source: crates/lhc/grok-lhc-host/src/capture.rs:46-132, [CaptureCmd]. *)
Inductive CaptureCmd :=
  | Persist (item : ConversationItem) (provider_usage : option JMap) (identity : option HostAssistantIdentity)
  | TurnEndFactsCmd (turn_number : N) (facts : TurnEndFacts)
  | ReplaceHistory (items : list ConversationItem)
  | WritebackInstalled (generated : GeneratedPrefix)
  | ModelChange (previous_model new_model previous_level new_level : str)
  | Flush
  | ListEvents
  | Call (c : ArchiveCall)
  | Compact (cancel : CancelTiming)
  | DrainSettled
  | Shutdown.

(** What a command answers. *)
Inductive CaptureReply {W} `{Archive W} :=
  | NoReply
  | Done
  | EventsReply (r : result (list EventRecord) str)
  | CallReply (r : Reply)
  | CompactReply (r : result (Receipt * N) str).

(** The state of the worker beside its session. [open_calls] is [SegmentState]; the
    flag and the counter are shared with the handle.

    Source: crates/lhc/grok-lhc-host/src/capture.rs:1519-1531, [process_cmd]. *)
Record Worker := mkWorker {
  tracker : OccurrenceTracker;
  baseline_poisoned : bool;
  dropped : N;
  deferred_turn_end : option MappedEvent;
  installed : option InstalledPrefix;
  open_calls : gset str;
}.

Definition set_tracker (t : OccurrenceTracker) (w : Worker) : Worker :=
  mkWorker t (baseline_poisoned w) (dropped w) (deferred_turn_end w) (installed w) (open_calls w).
Definition set_poisoned (b : bool) (w : Worker) : Worker :=
  mkWorker (tracker w) b (dropped w) (deferred_turn_end w) (installed w) (open_calls w).
Definition note_dropped (w : Worker) : Worker :=
  mkWorker (tracker w) (baseline_poisoned w) (wrap64 (dropped w + 1)) (deferred_turn_end w) (installed w) (open_calls w).
Definition set_deferred (d : option MappedEvent) (w : Worker) : Worker :=
  mkWorker (tracker w) (baseline_poisoned w) (dropped w) d (installed w) (open_calls w).
Definition set_installed (p : option InstalledPrefix) (w : Worker) : Worker :=
  mkWorker (tracker w) (baseline_poisoned w) (dropped w) (deferred_turn_end w) p (open_calls w).
Definition set_open_calls (c : gset str) (w : Worker) : Worker :=
  mkWorker (tracker w) (baseline_poisoned w) (dropped w) (deferred_turn_end w) (installed w) c.

(** *** Pairing of calls and results *)

(** Source: crates/lhc/grok-lhc-host/src/capture.rs:1419-1432, [SegmentState::fold_item]. *)
Definition fold_item (open : gset str) (item : ConversationItem) : gset str :=
  match item with
  | CAssistant a => foldl (fun s tc => {[tc_id tc]} ∪ s) open (a_tool_calls a)
  | CToolResult r => open ∖ {[tr_tool_call_id r]}
  | _ => open
  end.

(** Source: crates/lhc/grok-lhc-host/src/capture.rs:1435-1440, [SegmentState::reset_from]. *)
Definition reset_from (items : list ConversationItem) : gset str := foldl fold_item ∅ items.

(** ** The worker *)

Section worker.
Context {W : Type} `{Archive W} `{ItemDigest, JsonText, SearchActionJson}.
Variable session_id : str.

(** Source: crates/lhc/grok-lhc-host/src/capture.rs:1872-1888, [submit_mapped]. *)
Definition submit_mapped (mapped : list MappedEvent) (sess : LhcSession W) : result BatchResult str * LhcSession W :=
  if is_empty mapped then (Ok (mkBatch [] (u64_as_i64 (generation sess))), sess)
  else submit_events (map input mapped) sess.

(** [if let Some(te) = deferred_turn_end.take() { let _ = submit_mapped(sess, vec![te]); }].

    Source: crates/lhc/grok-lhc-host/src/capture.rs:1741-1749, [process_cmd]. *)
Definition flush_deferred (sess : LhcSession W) (w : Worker) : LhcSession W * Worker :=
  match deferred_turn_end w with
  | Some te => (snd (submit_mapped [te] sess), set_deferred None w)
  | None => (sess, w)
  end.

(** Source: crates/lhc/grok-lhc-host/src/capture.rs:1332-1405, [remap_slice]. *)
Definition remap_slice (items : list ConversationItem) (sess : LhcSession W) (w : Worker)
    : result (list MappedEvent) str * LhcSession W * Worker :=
  let full := map_history session_id ITEM_KEY_GENERATION items no_facts in
  let merged (events : list MappedEvent) (local : OccurrenceTracker) sess w :=
    (Ok events, sess, set_tracker (merge_monotonic (tracker w) local) w) in
  match installed w with
  | None => merged (fst full) (snd full) sess w
  | Some prefix =>
      match prefix_walk prefix items with
      | Stopped _ => merged (fst full) (snd full) sess (set_installed None w)
      | Covered remap_head remainder =>
          match frozen_seed prefix sess with
          | (Err err, prefix, sess) => (Err err, sess, set_installed (Some prefix) w)
          | (Ok seed, prefix, sess) =>
              let w := set_installed (Some prefix) w in
              let '(out, seed) :=
                if remap_head then map_history_from session_id ITEM_KEY_GENERATION (take 1 items) no_facts seed
                else ([], seed) in
              let '(ev, local) := map_history_from session_id ITEM_KEY_GENERATION (drop remainder items) no_facts seed in
              merged (out ++ ev) local sess w
          end
      end
  end.

(** Source: crates/lhc/grok-lhc-host/src/capture.rs:1469-1515, [maybe_close_segment]. *)
Definition maybe_close_segment (anchor : str) (batch : BatchResult) (sess : LhcSession W) (w : Worker) : LhcSession W :=
  if negb (bool_decide (open_calls w = ∅)) then sess
  else if negb (existsb (fun e => str_eqb (be_key e) anchor
                                  && match be_outcome e with Recorded => true | Skipped => false end) (br_events batch))
  then sess
  else
    match segment_threshold_tokens sess with
    | None => sess
    | Some threshold =>
        match host_metadata sess with
        | (Err _, sess) => sess
        | (Ok None, sess) => sess
        | (Ok (Some estimated_tokens), sess) =>
            if Z.ltb estimated_tokens threshold then sess
            else
              match segment_end_event anchor with
              | None => sess
              | Some end_ => snd (submit_mapped [end_] sess)
              end
        end
    end.

(** The first event of a kind is changed.

    Source: crates/lhc/grok-lhc-host/src/capture.rs:1562-1568, [process_cmd]. *)
Fixpoint update_first (p : MappedEvent -> bool) (f : MappedEvent -> MappedEvent) (l : list MappedEvent) : list MappedEvent :=
  match l with
  | [] => []
  | e :: l => if p e then f e :: l else e :: update_first p f l
  end.

(** The ends of a turn that an item maps to are kept back for the facts of the shell;
    a close still kept back is released first.

    Source: crates/lhc/grok-lhc-host/src/capture.rs:1585-1596, [process_cmd]. *)
Definition defer_turn_ends (turn_ends : list MappedEvent) (sess : LhcSession W) (w : Worker) : LhcSession W * Worker :=
  if is_empty turn_ends then (sess, w)
  else
    let '(sess, w) := flush_deferred sess w in
    let w := set_deferred (last turn_ends) w in
    let rest := removelast turn_ends in
    (if is_empty rest then sess else snd (submit_mapped rest sess), w).

(** The other events are submitted; after a tool result a segment may end.

    Source: crates/lhc/grok-lhc-host/src/capture.rs:1600-1611, [process_cmd]. *)
Definition submit_live (item : ConversationItem) (mapped : list MappedEvent) (sess : LhcSession W) (w : Worker)
    : LhcSession W :=
  let anchor :=
    match item with
    | CToolResult _ => List.find (kind_is (lit "tool_result")) mapped ≫= fun e => idempotency_key (input e)
    | _ => None
    end in
  let '(batch, sess) := submit_mapped mapped sess in
  match anchor, batch with
  | Some anchor, Ok batch => maybe_close_segment anchor batch sess w
  | _, _ => sess
  end.

(** [CaptureCmd::Persist].

    Source: crates/lhc/grok-lhc-host/src/capture.rs:1536-1613, [process_cmd]. *)
Definition process_persist (item : ConversationItem) (provider_usage : option JMap)
    (identity : option HostAssistantIdentity) (sess : LhcSession W) (w : Worker) : LhcSession W * Worker :=
  if baseline_poisoned w then (sess, note_dropped w)
  else
    let '(mapped, t) := map_item session_id ITEM_KEY_GENERATION item (tracker w) no_facts in
    let w := set_tracker t w in
    let mapped :=
      match provider_usage with
      | Some usage => update_first (kind_is (lit "assistant_text")) (fun e => attach_provider_usage e usage) mapped
      | None => mapped
      end in
    let mapped :=
      match identity with
      | Some id => map (fun e => attach_assistant_identity e id) mapped
      | None => mapped
      end in
    let turn_ends := List.filter (kind_is (lit "turn_end")) mapped in
    let mapped := List.filter (fun e => negb (kind_is (lit "turn_end") e)) mapped in
    let '(sess, w) := defer_turn_ends turn_ends sess w in
    let w := set_open_calls (fold_item (open_calls w) item) w in
    (submit_live item mapped sess w, w).

(** [CaptureCmd::TurnEndFacts].

    Source: crates/lhc/grok-lhc-host/src/capture.rs:1614-1642, [process_cmd]. *)
Definition process_turn_end_facts (turn_number : N) (facts : TurnEndFacts) (sess : LhcSession W) (w : Worker)
    : LhcSession W * Worker :=
  if baseline_poisoned w then (sess, note_dropped w)
  else
    let w := set_open_calls ∅ w in
    match deferred_turn_end w with
    | Some te => (snd (submit_mapped [apply_turn_end_facts te facts] sess), set_deferred None w)
    | None => (snd (submit_mapped [shell_turn_end_event session_id turn_number facts] sess), w)
    end.

(** [CaptureCmd::ReplaceHistory].

    Source: crates/lhc/grok-lhc-host/src/capture.rs:1643-1705, [process_cmd]. *)
Definition process_replace_history (items : list ConversationItem) (sess : LhcSession W) (w : Worker)
    : LhcSession W * Worker :=
  let w := set_open_calls (reset_from items) w in
  let '(sess, w) := flush_deferred sess w in
  match remap_slice items sess w with
  | (Err _, sess, w) => (sess, set_poisoned false w)
  | (Ok events, sess, w) => (snd (submit_mapped events sess), set_poisoned false w)
  end.

(** [CaptureCmd::ModelChange].

    Source: crates/lhc/grok-lhc-host/src/capture.rs:1706-1740, [process_cmd]. *)
Definition process_model_change (previous_model new_model previous_level new_level : str) (sess : LhcSession W)
    : LhcSession W :=
  if str_eqb previous_model new_model && str_eqb previous_level new_level then sess
  else
    let '(mapped, next) :=
      map_model_change session_id previous_model new_model previous_level new_level (next_change_ordinal sess) in
    let sess := if str_eqb previous_model new_model then sess else set_serving_model new_model sess in
    if is_empty mapped then sess
    else
      match submit_mapped mapped sess with
      | (Ok batch, sess) =>
          if existsb (fun e => match be_outcome e with Recorded => true | Skipped => false end) (br_events batch)
          then set_next_change_ordinal next sess else sess
      | (Err _, sess) => sess
      end.

(** Without the [None] of a session that was taken, which ends the worker.

    Source: crates/lhc/grok-lhc-host/src/capture.rs:1741-1870, [process_cmd]. *)
Definition process_cmd (cmd : CaptureCmd) (sess : LhcSession W) (w : Worker) : CaptureReply * LhcSession W * Worker :=
  match cmd with
  | Persist item usage identity => let '(sess, w) := process_persist item usage identity sess w in (NoReply, sess, w)
  | TurnEndFactsCmd n facts => let '(sess, w) := process_turn_end_facts n facts sess w in (NoReply, sess, w)
  | ReplaceHistory items => let '(sess, w) := process_replace_history items sess w in (NoReply, sess, w)
  | WritebackInstalled g => (NoReply, sess, set_installed (Some (prefix_new g)) w)
  | ModelChange pm nm pl nl => (NoReply, process_model_change pm nm pl nl sess, w)
  | Flush => let '(sess, w) := flush_deferred sess w in (Done, sess, w)
  | ListEvents =>
      let '(sess, w) := flush_deferred sess w in
      let '(r, sess) := list_events sess in (EventsReply r, sess, w)
  | Call c => let '(r, world) := archive_call c (thread_ref sess) (lhc sess) in (CallReply r, set_lhc world sess, w)
  | Compact cancel =>
      let '(r, sess) := session_compact cancel sess in
      (CompactReply match r with Ok receipt => Ok (receipt, generation sess) | Err e => Err e end, sess, w)
  | DrainSettled => (Done, set_lhc (archive_drain_settled (thread_ref sess) (lhc sess)) sess, w)
  | Shutdown => (Done, sess, w)
  end.

(** The end of the worker: the commands still queued are taken, a deferred close is
    released and the session closed.

    Source: crates/lhc/grok-lhc-host/src/capture.rs:1175-1216, [spawn_capture_with_serving_model]. *)
Definition finish_worker (rest : list CaptureCmd) (sess : LhcSession W) (w : Worker) : W :=
  let '(sess, w) := foldl (fun '(sess, w) cmd => let '(_, sess, w) := process_cmd cmd sess w in (sess, w)) (sess, w) rest in
  let '(sess, _) := flush_deferred sess w in session_close sess.

(** What the worker does with a history it is started with.

    Source: crates/lhc/grok-lhc-host/src/capture.rs:1095-1158, [spawn_capture_with_serving_model]. *)
Definition start_worker (bootstrap : list ConversationItem) (generated : option GeneratedPrefix)
    (opened : LhcSession W * OccurrenceTracker) : LhcSession W * Worker :=
  let '(sess, t) := opened in
  let w := mkWorker t false 0 None (prefix_new <$> generated) ∅ in
  let '(sess, w) :=
    if is_empty bootstrap then (sess, w)
    else
      match remap_slice bootstrap sess w with
      | (Ok events, sess, w) => (snd (submit_events (map input events) sess), w)
      | (Err _, sess, w) => (sess, w)
      end in
  (sess, set_open_calls (reset_from bootstrap) w).

(** *** The queue *)

(** The commands waiting, and the worker that takes them. *)
Record Capture := mkCapture {
  queue : list CaptureCmd;
  closed : bool;
  worker_session : LhcSession W;
  worker : Worker;
}.

Definition on_worker (f : Worker -> Worker) (c : Capture) : Capture :=
  mkCapture (queue c) (closed c) (worker_session c) (f (worker c)).

Inductive TrySendError := Full | Closed.

(** [tx.try_send(cmd)] on a channel of [CAPTURE_QUEUE_CAP] commands. *)
Definition try_send (cmd : CaptureCmd) (c : Capture) : result unit TrySendError * Capture :=
  if closed c then (Err Closed, c)
  else if Nat.leb CAPTURE_QUEUE_CAP (length (queue c)) then (Err Full, c)
  else (Ok tt, mkCapture (queue c ++ [cmd]) (closed c) (worker_session c) (worker c)).

(** Send, and count what is dropped.

    Source: crates/lhc/grok-lhc-host/src/capture.rs:211-227, [CaptureHandle::persist_with_capture_facts]. *)
Definition send_or_drop (cmd : CaptureCmd) (c : Capture) : Capture :=
  match try_send cmd c with
  | (Ok _, c) => c
  | (Err _, c) => on_worker note_dropped c
  end.

(** Send, and poison the baseline if it is dropped.

    Source: crates/lhc/grok-lhc-host/src/capture.rs:262-284, [CaptureHandle::replace_history]. *)
Definition send_or_poison (cmd : CaptureCmd) (c : Capture) : Capture :=
  match try_send cmd c with
  | (Ok _, c) => c
  | (Err _, c) => on_worker (fun w => note_dropped (set_poisoned true w)) c
  end.

(** Source: crates/lhc/grok-lhc-host/src/capture.rs:211-230, [CaptureHandle::persist_with_capture_facts]. *)
Definition handle_persist (item : ConversationItem) (usage : option JMap) (identity : option HostAssistantIdentity)
    (c : Capture) : Capture := send_or_drop (Persist item usage identity) c.

(** Source: crates/lhc/grok-lhc-host/src/capture.rs:247-261, [CaptureHandle::turn_end_facts]. *)
Definition handle_turn_end_facts (n : N) (facts : TurnEndFacts) (c : Capture) : Capture :=
  send_or_drop (TurnEndFactsCmd n facts) c.

(** Source: crates/lhc/grok-lhc-host/src/capture.rs:263-284, [CaptureHandle::replace_history]. *)
Definition handle_replace_history (items : list ConversationItem) (c : Capture) : Capture :=
  send_or_poison (ReplaceHistory items) c.

(** Source: crates/lhc/grok-lhc-host/src/capture.rs:290-315, [CaptureHandle::writeback_installed]. *)
Definition handle_writeback_installed (items : list ConversationItem) (tip : N) (c : Capture) : Capture :=
  send_or_poison (WritebackInstalled (mkGenerated items tip)) c.

(** Source: crates/lhc/grok-lhc-host/src/capture.rs:317-338, [CaptureHandle::model_change]. *)
Definition handle_model_change (pm nm pl nl : str) (c : Capture) : Capture := send_or_drop (ModelChange pm nm pl nl) c.

(** Source: crates/lhc/grok-lhc-host/src/capture.rs:355-358, [CaptureHandle::flush_async]. *)
Definition handle_flush_async (c : Capture) : Capture := snd (try_send Flush c).

(** The worker takes the next command. *)
Definition worker_step (c : Capture) : Capture :=
  match queue c with
  | [] => c
  | cmd :: rest =>
      let '(_, sess, w) := process_cmd cmd (worker_session c) (worker c) in
      mkCapture rest (closed c) sess w
  end.
End worker.
