(* ===== verification/LhcCaptureSpec.v ===== *)
(** * What a capture records

    The invariant of [LhcCapture]'s worker over every archive that keeps its
    contract, failures included, and what more holds while no call fails: every
    item of a history is recorded once, under the key its re-map gives it, and a
    body the archive generated is never recorded. *)

From stdpp Require Import sorting.
From S2P Require Import Prelude RustStr Json Conversation Usage ChatTypes LhcKeys LhcMapping LhcSession LhcCapture.

(** ** Batches *)

Definition fresh (stored keys : list str) : list str := recorded_keys (outcomes stored keys).

Lemma fresh_cons stored k keys :
  fresh stored (k :: keys) = if bool_decide (k ∈ stored) then fresh stored keys else k :: fresh (stored ++ [k]) keys.
Proof. unfold fresh. cbn [outcomes]. by case_bool_decide. Qed.

Lemma fresh_elem stored keys k : k ∈ fresh stored keys <-> k ∈ keys ∧ k ∉ stored.
Proof.
  revert stored. induction keys as [|x keys IH]; intros stored; [set_solver|]. rewrite fresh_cons. case_bool_decide as Hx.
  - rewrite IH, elem_of_cons. naive_solver.
  - rewrite elem_of_cons, IH, elem_of_app, list_elem_of_singleton, elem_of_cons.
    destruct (decide (k = x)) as [->|]; naive_solver.
Qed.

Lemma fresh_NoDup stored keys : NoDup (fresh stored keys).
Proof.
  revert stored. induction keys as [|x keys IH]; intros stored; [constructor|]. rewrite fresh_cons. case_bool_decide; [apply IH|].
  constructor; [|apply IH]. rewrite fresh_elem, elem_of_app, list_elem_of_singleton. naive_solver.
Qed.

Lemma fresh_app_NoDup stored keys : NoDup stored -> NoDup (stored ++ fresh stored keys).
Proof.
  intros Hs. apply NoDup_app. split; [done|]. split; [|apply fresh_NoDup]. intros k Hk. rewrite fresh_elem. naive_solver.
Qed.

Lemma fresh_all stored keys : NoDup keys -> (∀ k, k ∈ keys -> k ∉ stored) -> fresh stored keys = keys.
Proof.
  revert stored. induction keys as [|x keys IH]; intros stored Hd Hn; [done|]. inversion Hd as [|? ? Hx Hd']. subst.
  rewrite fresh_cons, bool_decide_eq_false_2 by (apply Hn; by left). f_equal. apply IH; [done|].
  intros k Hk. rewrite elem_of_app, list_elem_of_singleton. intros [Hs| ->]; [|done]. by apply (Hn k); [right|].
Qed.

Lemma fresh_none stored keys : (∀ k, k ∈ keys -> k ∈ stored) -> fresh stored keys = [].
Proof.
  intros Hin. destruct (fresh stored keys) as [|k ks] eqn:Hf; [done|].
  assert (Hk : k ∈ fresh stored keys) by (rewrite Hf; by left). apply fresh_elem in Hk as [Hk Hn]. destruct Hn. by apply Hin.
Qed.

Lemma fresh_app stored xs ys : fresh stored (xs ++ ys) = fresh stored xs ++ fresh (stored ++ fresh stored xs) ys.
Proof.
  revert stored. induction xs as [|x xs IH]; intros stored; [cbn; by rewrite app_nil_r|].
  cbn [app]. rewrite !fresh_cons. case_bool_decide; [apply IH|]. rewrite IH. cbn [app]. f_equal. f_equal. by rewrite <- app_assoc.
Qed.

(** ** Keys below a tracker *)

(** If the key is of an item, its occurrence was counted. *)
Definition ok_key (t : OccurrenceTracker) (key : str) : Prop :=
  ∀ d occ, parse_item_key_digest_occ key = Some (d, occ) -> (occ < count_of t d)%N.

Definition le_counts (t t' : OccurrenceTracker) : Prop := ∀ d, (count_of t d <= count_of t' d)%N.

#[export] Instance le_counts_preorder : PreOrder le_counts.
Proof. split; [intros t d; lia|intros x y z Hxy Hyz d; specialize (Hxy d); specialize (Hyz d); lia]. Qed.

Lemma ok_key_mono t t' key : le_counts t t' -> ok_key t key -> ok_key t' key.
Proof. intros Hle Hk d occ Hp. specialize (Hk d occ Hp). specialize (Hle d). lia. Qed.

Lemma count_merge t t' d : count_of (merge_monotonic t t') d = N.max (count_of t d) (count_of t' d).
Proof.
  unfold merge_monotonic, count_of. rewrite lookup_union_with. destruct (t !! d), (t' !! d); cbn; lia.
Qed.

Lemma merge_le_l t t' : le_counts t (merge_monotonic t t').
Proof. intros d. rewrite count_merge. lia. Qed.
Lemma merge_le_r t t' : le_counts t' (merge_monotonic t t').
Proof. intros d. rewrite count_merge. lia. Qed.

Lemma seed_le keys t : Forall (ok_key t) keys -> le_counts (seed_occurrence_from_keys keys) t.
Proof.
  intros Hall d. rewrite count_seed. rewrite Forall_forall in Hall. induction keys as [|k keys IH]; [cbn; lia|].
  specialize (IH ltac:(intros; apply Hall; by right)). cbn [omap list_omap]. pose proof (Hall k ltac:(by left)) as Hk.
  destruct (parse_item_key_digest_occ k) as [[d' occ]|] eqn:Hp; cbn [mbind option_bind]; [|done].
  specialize (Hk _ _ Hp). case_decide; [|done]. subst d'. cbn [foldr]. apply N.max_lub; [unfold sat_add64; lia|exact IH].
Qed.

Lemma seed_ok keys t : le_counts (seed_occurrence_from_keys keys) t ->
  (∀ d occ key, key ∈ keys -> parse_item_key_digest_occ key = Some (d, occ) -> (occ < u64_max)%N) -> Forall (ok_key t) keys.
Proof.
  intros Hle Hb. apply Forall_forall. intros key Hin d occ Hp. specialize (Hle d). rewrite count_seed in Hle.
  pose proof (Hb _ _ _ Hin Hp). assert (Hge : (sat_add64 occ 1 <= count_of t d)%N).
  { etrans; [|exact Hle]. apply foldr_max_ge, list_elem_of_omap. exists key. split; [done|]. rewrite Hp. cbn. by rewrite decide_True. }
  unfold sat_add64 in Hge. lia.
Qed.

Lemma seed_sub keys keys' : (∀ k, k ∈ keys -> k ∈ keys') ->
  le_counts (seed_occurrence_from_keys keys) (seed_occurrence_from_keys keys').
Proof.
  intros Hsub d. rewrite !count_seed.
  assert (Hle : ∀ l n, (∀ x, x ∈ l -> (x <= n)%N) -> (foldr N.max 0 l <= n)%N).
  { induction l as [|x l IH]; intros n Hl; cbn; [lia|]. pose proof (Hl x ltac:(by left)).
    specialize (IH n ltac:(intros y Hy; apply Hl; by right)). lia. }
  apply Hle. intros x (k & Hk & Hx)%list_elem_of_omap. apply foldr_max_ge, list_elem_of_omap. eauto.
Qed.

(** Keys that no item has. *)
Lemma shell_key_no_item sid n : parse_item_key_digest_occ (lit "grok:" ++ encode_session_id sid ++ lit ":g0:shell_turn_end:" ++ show_N n) = None.
Proof.
  unfold parse_item_key_digest_occ. rewrite strip_prefix_app. cbn [mbind option_bind].
  change (lit ":g0:shell_turn_end:" ++ show_N n) with (colon :: lit "g0:shell_turn_end:" ++ show_N n).
  rewrite split_once_app by apply encode_no_colon. cbn [mbind option_bind].
  change (lit "g0:shell_turn_end:" ++ show_N n) with (lit "g" ++ (lit "0:shell_turn_end:" ++ show_N n)).
  rewrite strip_prefix_app. cbn [mbind option_bind].
  change (lit "0:shell_turn_end:" ++ show_N n) with (lit "0" ++ colon :: (lit "shell_turn_end:" ++ show_N n)).
  rewrite split_once_app by by_decide. cbn [mbind option_bind].
  change (lit "shell_turn_end:" ++ show_N n) with (lit "shell_turn_end" ++ colon :: show_N n).
  rewrite split_once_app by by_decide. cbn [mbind option_bind].
  rewrite (split_once_none colon (show_N n)) by apply show_N_no_colon. done.
Qed.

Lemma change_key_no_item word sid ord p n : strip_prefix (lit "g") (word ++ colon :: show_N ord ++ colon :: p ++ colon :: n) = None ->
  parse_item_key_digest_occ (change_key word sid ord p n) = None.
Proof.
  intros Hw. unfold parse_item_key_digest_occ, change_key. rewrite strip_prefix_app. cbn [mbind option_bind].
  unfold change_marker. cbn [app]. rewrite split_once_app by apply encode_no_colon. cbn [mbind option_bind].
  rewrite <- app_assoc. cbn [app]. by rewrite Hw.
Qed.

(** ** Events keep their keys *)

Lemma set_payload_key e p : ev_key (set_payload e p) = ev_key e ∧ event_kind (input (set_payload e p)) = event_kind (input e).
Proof. by destruct e as [[]]. Qed.

(** A change of an event that keeps its key and its kind. *)
Definition same_event (f : MappedEvent -> MappedEvent) : Prop :=
  ∀ e, ev_key (f e) = ev_key e ∧ event_kind (input (f e)) = event_kind (input e).

Lemma attach_usage_same usage : same_event (fun e => attach_provider_usage e usage).
Proof. intros e. unfold attach_provider_usage. case_match; [done|apply set_payload_key]. Qed.

Lemma attach_identity_same id : same_event (fun e => attach_assistant_identity e id).
Proof. intros e. unfold attach_assistant_identity. case_match; [done|apply set_payload_key]. Qed.

Lemma apply_facts_same f : same_event (fun e => apply_turn_end_facts e f).
Proof. intros e. unfold apply_turn_end_facts. case_match; [done|apply set_payload_key]. Qed.

(** Lists of events with equal keys and kinds. *)
Definition same_events (l l' : list MappedEvent) : Prop :=
  map (fun e => (ev_key e, event_kind (input e))) l = map (fun e => (ev_key e, event_kind (input e))) l'.

Lemma update_first_same p f l : same_event f -> same_events (update_first p f l) l.
Proof.
  intros Hf. unfold same_events. induction l as [|e l IH]; [done|]. cbn [update_first]. destruct (p e); cbn [map].
  - destruct (Hf e) as [-> ->]. done.
  - by rewrite IH.
Qed.

Lemma map_same f l : same_event f -> same_events (map f l) l.
Proof. intros Hf. unfold same_events. rewrite map_map. apply map_ext. intros e. by destruct (Hf e) as [-> ->]. Qed.

Lemma same_events_trans l1 l2 l3 : same_events l1 l2 -> same_events l2 l3 -> same_events l1 l3.
Proof. unfold same_events. congruence. Qed.

Lemma same_events_keys l l' (g : str -> bool) : same_events l l' ->
  keys_of (List.filter (fun e => g (event_kind (input e))) l) = keys_of (List.filter (fun e => g (event_kind (input e))) l').
Proof.
  unfold same_events, keys_of. revert l'. induction l as [|e l IH]; intros [|e' l'] Heq; [done|done|done|].
  injection Heq as Hk Hkind Hrest. cbn [List.filter]. rewrite Hkind. case_match; cbn [omap list_omap]; [|by apply IH].
  rewrite Hk. by rewrite (IH l').
Qed.

(** ** Orders of a thread *)

Lemma last_order_ge l added : ordered (l ++ added) -> (last_order l <= last_order (l ++ added))%Z.
Proof.
  intros [Hs Hp]. unfold last_order. destruct added as [|e added _] using rev_ind; [by rewrite app_nil_r|].
  assert (He : e ∈ l ++ added ++ [e]) by (rewrite !elem_of_app, list_elem_of_singleton; auto).
  rewrite (app_assoc l), last_snoc. cbn [from_option]. destruct (last l) as [e'|] eqn:Hl; cbn [from_option].
  - apply Z.lt_le_incl. apply (StronglySorted_app_1_elem_of _ l (added ++ [e]) e' e Hs).
    + apply last_Some in Hl as [l' ->]. rewrite elem_of_app, list_elem_of_singleton. auto.
    + rewrite elem_of_app, list_elem_of_singleton. auto.
  - rewrite Forall_forall in Hp. specialize (Hp e He). lia.
Qed.

(** ** Submitting *)

Section submit.
Context {W : Type} `{Archive W, !ArchiveLaws W}.

Definition events_of (sess : LhcSession W) : list EventRecord := stored_events (thread_ref sess) (lhc sess).

(** The keys of the session's thread. *)
Definition stored (sess : LhcSession W) : list str := keys_stored (stored_events (thread_ref sess) (lhc sess)).

(** Capture goes on and the archive answers every call on the thread. *)
Definition reliable (s : LhcSession W) : Prop :=
  capture_disabled s = false
  ∧ (∀ evs w, ∃ b w', message_events (thread_ref s) evs w = (Ok b, w'))
  ∧ (∀ w, ∃ l w', archive_list_events (thread_ref s) w = (Ok l, w')).

(** The latched tip is the last order of the thread. *)
Definition tip_ok (s : LhcSession W) : Prop := generation s = order_to_u64 (last_order (events_of s)).

(** What a submission leaves alone. *)
Definition same_thread (s s' : LhcSession W) : Prop :=
  ls_session_id s' = ls_session_id s ∧ thread_ref s' = thread_ref s ∧ (reliable s -> reliable s') ∧ (tip_ok s -> tip_ok s').

(** A batch with these keys was taken, or it was refused and nothing happened. *)
Definition sent (keys : list str) (s s' : LhcSession W) : Prop :=
  stored s' = stored s ++ fresh (stored s) keys ∨ (¬ reliable s ∧ stored s' = stored s).

Lemma sent_nil s s' : stored s' = stored s -> sent [] s s'.
Proof. intros Hs. left. rewrite Hs. unfold fresh. cbn. by rewrite app_nil_r. Qed.

Lemma keys_of_inputs mapped : omap idempotency_key (map input mapped) = keys_of mapped.
Proof. unfold keys_of. induction mapped as [|e l IH]; [done|]. cbn. unfold ev_key. by rewrite IH. Qed.

Lemma submit_mapped_sent mapped s : let '(r, s') := submit_mapped mapped s in
  sent (keys_of mapped) s s' ∧ same_thread s s' ∧ ∃ added, events_of s' = events_of s ++ added.
Proof.
  assert (Hsame : same_thread s s ∧ ∃ added, events_of s = events_of s ++ added) by (split; [done|exists []; by rewrite app_nil_r]).
  unfold submit_mapped. destruct (decide (mapped = [])) as [->|He]; [split; [by apply sent_nil|done]|].
  rewrite (proj2 (is_empty_false _)) by done. unfold submit_events.
  destruct (capture_disabled s) eqn:Hdis; [split; [right; split; [intros [Hf _]; congruence|done]|done]|].
  destruct (is_empty (map input mapped)) eqn:Hi; [by destruct mapped|].
  destruct (message_events (thread_ref s) (map input mapped) (lhc s)) as [[b|e] w] eqn:Hm.
  - destruct (message_events_ok _ _ _ _ _ Hm) as (added & Hev & Hk & Hb & Hlast). rewrite keys_of_inputs in *.
    split; [left; unfold stored at 1; cbn; rewrite Hev; unfold keys_stored; rewrite map_app; f_equal; exact Hk|].
    split; [split; [done|split; [done|split; [done|]]]|by exists added].
    unfold tip_ok. cbn. intros ->. rewrite Hlast. unfold events_of. cbn. rewrite Hev.
    pose proof (events_ordered (thread_ref s) w) as Ho. rewrite Hev in Ho. apply last_order_ge in Ho. unfold order_to_u64. lia.
  - apply message_events_err in Hm as Hst. split; [right; split|split].
    + intros (_ & Hr & _). destruct (Hr (map input mapped) (lhc s)) as (b & w' & Hb). congruence.
    + unfold stored. cbn. by rewrite Hst.
    + split; [done|split; [done|split]]; [|unfold tip_ok, events_of; cbn; by rewrite Hst].
      intros (_ & Hr & _). destruct (Hr (map input mapped) (lhc s)) as (b & w' & Hb). congruence.
    + exists []. unfold events_of. cbn. by rewrite Hst, app_nil_r.
Qed.

Lemma stored_sub keys s s' k : sent keys s s' -> k ∈ stored s -> k ∈ stored s'.
Proof. intros [-> | [_ ->]] Hk; [rewrite elem_of_app; by left|done]. Qed.

Lemma sent_NoDup keys s s' : sent keys s s' -> NoDup (stored s) -> NoDup (stored s').
Proof. intros [-> | [_ ->]] Hd; [by apply fresh_app_NoDup|done]. Qed.

Lemma sent_Forall P keys s s' : sent keys s s' -> Forall P (stored s) -> Forall P keys -> Forall P (stored s').
Proof.
  intros [-> | [_ ->]] Hs Hk; [|done]. apply Forall_app. split; [done|]. rewrite Forall_forall in *. intros k [Hin _]%fresh_elem. by apply Hk.
Qed.

Lemma list_events_spec s : let '(r, s') := list_events s in
  stored s' = stored s ∧ events_of s' = events_of s ∧ same_thread s s' ∧ ∀ l, r = Ok l -> l = events_of s.
Proof.
  unfold list_events. pose proof (list_events_ok (thread_ref s) (lhc s)) as [Hl Hw].
  destruct (archive_list_events _ _) as [r w]. unfold stored, events_of, same_thread, tip_ok, events_of. cbn in *. rewrite Hw. done.
Qed.

Lemma host_metadata_spec s : let '(r, s') := host_metadata s in
  stored s' = stored s ∧ events_of s' = events_of s ∧ same_thread s s'.
Proof.
  unfold host_metadata. pose proof (host_metadata_reads (thread_ref s) (lhc s)) as Hw.
  destruct (archive_host_metadata _ _) as [r w]. unfold stored, events_of, same_thread, tip_ok, events_of. cbn in *. by rewrite Hw.
Qed.
End submit.

(** ** The invariant *)

Section spec.
Context {W : Type} `{Archive W, !ArchiveLaws W, ItemDigest, !ItemDigestLaws, JsonText, SearchActionJson}.
Variable sid : str.

(** There is room for [n] more items. *)
Definition roomy (t : OccurrenceTracker) (n : nat) : Prop := ∀ d, (count_of t d + N.of_nat n <= u64_max)%N.

Record inv (s : LhcSession W) (w : Worker) : Prop := {
  inv_nodup : NoDup (stored s);
  inv_below : Forall (ok_key (tracker w)) (stored s);
  inv_deferred te : deferred_turn_end w = Some te -> ∃ key, ev_key te = Some key ∧ ok_key (tracker w) key;
  inv_prefix p t : installed w = Some p -> seed p = Some t -> le_counts t (tracker w);
}.

Definition deferred_keys (w : Worker) : list str := match deferred_turn_end w with Some te => keys_of [te] | None => [] end.

Lemma deferred_ok s w : inv s w -> Forall (ok_key (tracker w)) (deferred_keys w).
Proof.
  intros Hi. unfold deferred_keys. destruct (deferred_turn_end w) as [te|] eqn:Hd; [|constructor].
  destruct (inv_deferred _ _ Hi te Hd) as (key & Hk & Hok). unfold keys_of. cbn [omap list_omap]. rewrite Hk. by repeat constructor.
Qed.

(** A worker whose tracker grew and that changed nothing else the invariant reads. *)
Lemma inv_grow s w w' : inv s w -> le_counts (tracker w) (tracker w') -> deferred_turn_end w' = deferred_turn_end w ->
  (∀ p t, installed w' = Some p -> seed p = Some t -> le_counts t (tracker w')) -> inv s w'.
Proof.
  intros [Hn Hb Hd _] Hle Hde Hp. split; [done| | |done].
  - eapply Forall_impl; [exact Hb|]. intros k. by apply ok_key_mono.
  - intros te. rewrite Hde. intros Hte. destruct (Hd te Hte) as (key & Hk & Hok). exists key. split; [done|]. by eapply ok_key_mono.
Qed.

Lemma inv_sent s s' w keys : inv s w -> sent keys s s' -> Forall (ok_key (tracker w)) keys -> inv s' w.
Proof.
  intros [Hn Hb Hd Hp] Hs Hk. split; [by eapply sent_NoDup|by eapply sent_Forall|done|done].
Qed.

Lemma inv_same s s' w : inv s w -> stored s' = stored s -> inv s' w.
Proof. intros [Hn Hb Hd Hp] Hs. split; rewrite ?Hs; done. Qed.

Lemma inv_no_deferred s w : inv s w -> inv s (set_deferred None w).
Proof. intros [Hn Hb Hd Hp]. by split. Qed.

Lemma flush_inv s w : inv s w -> let '(s', w') := flush_deferred s w in
  inv s' w' ∧ sent (deferred_keys w) s s' ∧ same_thread s s' ∧ deferred_turn_end w' = None ∧ tracker w' = tracker w
  ∧ installed w' = installed w ∧ open_calls w' = open_calls w ∧ baseline_poisoned w' = baseline_poisoned w
  ∧ ∃ added, events_of s' = events_of s ++ added.
Proof.
  intros Hi. unfold flush_deferred. pose proof (deferred_ok _ _ Hi) as Hok. unfold deferred_keys in *.
  destruct (deferred_turn_end w) as [te|] eqn:Hd.
  - pose proof (submit_mapped_sent [te] s) as Hs. destruct (submit_mapped [te] s) as [r s']. destruct Hs as (Hs & Ht & Ha). cbn [snd].
    split; [|by destruct Ha as [added Ha]; do 7 (split; [done|]); exists added].
    exact (inv_sent s s' _ _ (inv_no_deferred _ _ Hi) Hs Hok).
  - split; [done|]. split; [by apply sent_nil|]. do 6 (split; [done|]). exists []. by rewrite app_nil_r.
Qed.

(** *** Keys of a live item *)

Definition is_turn_end_kind (k : str) : bool := str_eqb k (lit "turn_end").

Lemma item_keys_below t i : (count_of t (item_digest i) < u64_max)%N ->
  Forall (ok_key (snd (next_occurrence t (item_digest i))))
    (item_keys sid ITEM_KEY_GENERATION (item_digest i) (count_of t (item_digest i)) i).
Proof.
  intros Hc. apply Forall_forall. intros key Hin d occ Hp. apply item_keys_parse in Hin; [|lia]. rewrite Hin in Hp.
  simplify_eq. rewrite count_next by done. rewrite decide_True by done. lia.
Qed.

Lemma next_le t i : (count_of t (item_digest i) < u64_max)%N -> le_counts t (snd (next_occurrence t (item_digest i))).
Proof. intros Hc d. rewrite count_next by done. case_decide; lia. Qed.

(** No key of the next occurrence is known yet. *)
Lemma item_keys_new t i key keys : (count_of t (item_digest i) < u64_max)%N -> Forall (ok_key t) keys ->
  key ∈ item_keys sid ITEM_KEY_GENERATION (item_digest i) (count_of t (item_digest i)) i -> key ∉ keys.
Proof.
  intros Hc Hall Hin Hk. apply item_keys_parse in Hin; [|lia]. rewrite Forall_forall in Hall.
  specialize (Hall _ Hk _ _ Hin). lia.
Qed.

(** The events a live item is submitted as, after its facts are attached. *)
Definition live_events (item : ConversationItem) (usage : option JMap) (identity : option HostAssistantIdentity)
    (t : OccurrenceTracker) : list MappedEvent :=
  let mapped := fst (map_item sid ITEM_KEY_GENERATION item t no_facts) in
  let mapped := match usage with
                | Some u => update_first (kind_is (lit "assistant_text")) (fun e => attach_provider_usage e u) mapped
                | None => mapped end in
  match identity with Some id => map (fun e => attach_assistant_identity e id) mapped | None => mapped end.

Lemma live_events_same item usage identity t :
  same_events (live_events item usage identity t) (fst (map_item sid ITEM_KEY_GENERATION item t no_facts)).
Proof.
  unfold live_events. destruct identity as [id|]; [eapply same_events_trans; [apply map_same, attach_identity_same|]|];
    (destruct usage as [u|]; [apply update_first_same, attach_usage_same|done]).
Qed.

(** Its keys, without the end of a turn and only that. *)
Definition live_keys (item : ConversationItem) (t : OccurrenceTracker) : list str :=
  map (fun '(kind, part) => item_event_key sid ITEM_KEY_GENERATION (item_digest item) (count_of t (item_digest item)) kind part)
    (List.filter (fun p => negb (is_turn_end_kind (fst p))) (item_parts item)).

Definition close_keys (item : ConversationItem) (t : OccurrenceTracker) : list str :=
  map (fun '(kind, part) => item_event_key sid ITEM_KEY_GENERATION (item_digest item) (count_of t (item_digest item)) kind part)
    (List.filter (fun p => is_turn_end_kind (fst p)) (item_parts item)).

(** The kinds of the events are those of the parts. *)
Lemma map_item_parts item t facts :
  map (fun e => (ev_key e, event_kind (input e))) (fst (map_item sid ITEM_KEY_GENERATION item t facts))
  = map (fun '(kind, part) => (Some (item_event_key sid ITEM_KEY_GENERATION (item_digest item) (count_of t (item_digest item)) kind part), kind))
      (item_parts item).
Proof.
  unfold map_item. cbn [next_occurrence fst snd].
  destruct item as [x|u|a|r|b|r]; cbn [item_parts]; try done.
  - destruct (is_human (u_reason u)) eqn:Hh; [by destruct (content_parts_blocks _)|].
    unfold map_synthetic_user. destruct (u_reason u); done.
  - rewrite !map_app, !map_map. repeat f_equal; by repeat case_match.
  - unfold backend_tool_events. by destruct (backend_parts b) as [[[? ?] ?] ?].
Qed.

Lemma filter_map_keys (g : str -> bool) evs (parts : list (str * option str)) (mk : str -> option str -> str) :
  map (fun e => (ev_key e, event_kind (input e))) evs = map (fun '(kind, part) => (Some (mk kind part), kind)) parts ->
  keys_of (List.filter (fun e => g (event_kind (input e))) evs)
  = map (fun '(kind, part) => mk kind part) (List.filter (fun p => g (fst p)) parts).
Proof.
  unfold keys_of. revert parts. induction evs as [|e evs IH]; intros [|[kind part] parts] Heq; [done|done|done|].
  injection Heq as Hk Hkind Hr. cbn [List.filter fst]. rewrite Hkind. specialize (IH _ Hr).
  destruct (g kind); cbn [omap list_omap map]; rewrite ?Hk; by rewrite IH.
Qed.

Lemma live_events_keys item usage identity t :
  keys_of (List.filter (fun e => negb (kind_is (lit "turn_end") e)) (live_events item usage identity t)) = live_keys item t
  ∧ keys_of (List.filter (kind_is (lit "turn_end")) (live_events item usage identity t)) = close_keys item t.
Proof.
  pose proof (live_events_same item usage identity t) as Hs. unfold same_events in Hs. rewrite map_item_parts in Hs. split.
  - exact (filter_map_keys (fun k => negb (is_turn_end_kind k)) _ _
      (fun kind part => item_event_key sid ITEM_KEY_GENERATION (item_digest item) (count_of t (item_digest item)) kind part) Hs).
  - exact (filter_map_keys is_turn_end_kind _ _
      (fun kind part => item_event_key sid ITEM_KEY_GENERATION (item_digest item) (count_of t (item_digest item)) kind part) Hs).
Qed.

(** *** What every step leaves alone, and that the thread only grows *)

Definition grew (s s' : LhcSession W) : Prop := same_thread s s' ∧ ∃ added, events_of s' = events_of s ++ added.

#[local] Instance grew_preorder : PreOrder grew.
Proof.
  split.
  - intros s. split; [done|]. exists []. by rewrite app_nil_r.
  - intros s1 s2 s3 [(Ha & Hb & Hc) [l1 H12]] [(Ha' & Hb' & Hc') [l2 H23]]. split; [split; [congruence|split; [congruence|split; tauto]]|].
    exists (l1 ++ l2). by rewrite H23, H12, app_assoc.
Qed.

Lemma read_grew (s s' : LhcSession W) : thread_ref s' = thread_ref s -> ls_session_id s' = ls_session_id s ->
  capture_disabled s' = capture_disabled s -> generation s' = generation s -> events_of s' = events_of s -> stored s' = stored s ∧ grew s s'.
Proof.
  intros Ht Hid Hd Hgen He. split; [unfold stored; fold (events_of s'); by rewrite He|].
  split; [|exists []; by rewrite app_nil_r]. split; [done|]. split; [done|]. unfold reliable, tip_ok. by rewrite Ht, Hd, Hgen, He.
Qed.

Lemma submit_grew mapped s : grew s (snd (submit_mapped mapped s)).
Proof.
  pose proof (submit_mapped_sent mapped s) as Hs. destruct (submit_mapped mapped s) as [r s'].
  destruct Hs as (_ & Ht & Ha). by split.
Qed.

Lemma submit_sent mapped s : sent (keys_of mapped) s (snd (submit_mapped mapped s)).
Proof. pose proof (submit_mapped_sent mapped s) as Hs. destruct (submit_mapped mapped s) as [r s']. apply Hs. Qed.

Lemma segment_sent anchor batch s w : let s' := maybe_close_segment anchor batch s w in
  grew s s' ∧ (stored s' = stored s ∨ ∃ e, segment_end_event anchor = Some e ∧ sent (keys_of [e]) s s').
Proof.
  unfold maybe_close_segment. assert (Hrefl : grew s s ∧ (stored s = stored s ∨ ∃ e, segment_end_event anchor = Some e ∧ sent (keys_of [e]) s s))
    by (split; [done|by left]).
  case_match; [done|]. case_match; [done|]. destruct (segment_threshold_tokens s) as [th|]; [|done].
  pose proof (host_metadata_spec s) as Hm. destruct (host_metadata s) as [r s1]. destruct Hm as (Hst & Hev & Ht).
  assert (Hg : grew s s1) by (split; [done|]; exists []; by rewrite app_nil_r).
  destruct r as [[tok|]|err]; [|by split; [|left]|by split; [|left]].
  case_match; [by split; [|left]|]. destruct (segment_end_event anchor) as [e|] eqn:He; [|by split; [|left]].
  split; [etrans; [exact Hg|apply submit_grew]|]. right. exists e. split; [done|].
  pose proof (submit_sent [e] s1) as Hs. unfold sent in *. rewrite Hst in Hs. destruct Hs as [Hs|[Hn Hs]]; [by left|right].
  split; [|done]. intros Hr. by apply Hn, Ht.
Qed.

Context (sid_ok : encode_session_id sid ≠ lit "tool_result").

Definition segment_key (item : ConversationItem) (t : OccurrenceTracker) : str :=
  item_event_key sid ITEM_KEY_GENERATION (item_digest item) (count_of t (item_digest item)) (lit "segment_end") None.

Lemma keys_of_app l l' : keys_of (l ++ l') = keys_of l ++ keys_of l'.
Proof. unfold keys_of. induction l as [|e l IH]; [done|]. cbn. destruct (ev_key e); cbn; by rewrite IH. Qed.

Lemma last_split {A} (l : list A) : l ≠ [] -> ∃ x, last l = Some x ∧ l = removelast l ++ [x].
Proof.
  intros Hl. destruct (exists_last Hl) as (l' & x & ->). exists x. split; [by rewrite last_snoc|].
  by rewrite removelast_last.
Qed.

(** The anchor of a tool result is its key. *)
Lemma anchor_key r usage identity t : ∃ e,
  live_events (CToolResult r) usage identity t = [e] ∧ event_kind (input e) = lit "tool_result"
  ∧ ev_key e = Some (item_event_key sid ITEM_KEY_GENERATION (item_digest (CToolResult r)) (count_of t (item_digest (CToolResult r)))
                       (lit "tool_result") (Some (tr_tool_call_id r))).
Proof.
  pose proof (live_events_same (CToolResult r) usage identity t) as Hs. unfold same_events in Hs. rewrite map_item_parts in Hs.
  cbn [item_parts map] in Hs. destruct (live_events _ _ _ _) as [|e [|? ?]]; [done| |done].
  injection Hs as Hk Hkind. by exists e.
Qed.

(** The closes of an item, kept back but for the last. *)
Lemma defer_spec l s w : inv s w -> Forall (ok_key (tracker w)) (keys_of l) -> Forall (fun e => ev_key e ≠ None) l ->
  let '(s', w') := defer_turn_ends l s w in
  inv s' w' ∧ grew s s' ∧ tracker w' = tracker w ∧ installed w' = installed w ∧ baseline_poisoned w' = baseline_poisoned w
  ∧ deferred_keys w' = (if is_empty l then deferred_keys w else match last (keys_of l) with Some k => [k] | None => [] end)
  ∧ ∃ s1, (if is_empty l then s1 = s else sent (deferred_keys w) s s1) ∧ sent (removelast (keys_of l)) s1 s' ∧ grew s s1.
Proof.
  intros Hi Hok Hkeyed. unfold defer_turn_ends. destruct (decide (l = [])) as [->|Hne].
  { split; [done|]. split; [done|]. do 4 (split; [done|]). exists s. split; [done|]. split; [by apply sent_nil|done]. }
  rewrite (proj2 (is_empty_false _)) by done. destruct (last_split l Hne) as (te & Hlast & Hl).
  pose proof (flush_inv s w Hi) as Hf. destruct (flush_deferred s w) as [s1 w1].
  destruct Hf as (Hi1 & Hs1 & Hth & Hd & Ht & Hins & Hoc & Hbp & Hadd). rewrite Hlast.
  assert (Hte : ∃ key, ev_key te = Some key).
  { rewrite Hl, Forall_app in Hkeyed. destruct Hkeyed as [_ Hk]. inversion Hk as [|? ? Hk' _]. subst. destruct (ev_key te); [eauto|done]. }
  destruct Hte as [key Hkey]. assert (Hkl : keys_of l = keys_of (removelast l) ++ [key]).
  { rewrite Hl at 1. rewrite keys_of_app. f_equal. unfold keys_of. cbn. by rewrite Hkey. }
  rewrite Hkl in *. apply Forall_app in Hok as [Hokr Hokl]. rewrite removelast_last.
  assert (Hs2 : let s' := if is_empty (removelast l) then s1 else snd (submit_mapped (removelast l) s1) in
                sent (keys_of (removelast l)) s1 s' ∧ grew s1 s').
  { destruct (decide (removelast l = [])) as [Hnil|Hn]; [rewrite Hnil; cbn; split; [by apply sent_nil|done]|].
    rewrite (proj2 (is_empty_false _)) by done. split; [apply submit_sent|apply submit_grew]. }
  cbv zeta in Hs2. destruct Hs2 as [Hs2 Hg2]. set (s' := if is_empty (removelast l) then s1 else _) in *.
  assert (Hi' : inv s' (set_deferred (Some te) w1)).
  { eapply (inv_sent s1); [|exact Hs2|cbn [tracker set_deferred]; by rewrite Ht].
    destruct Hi1 as [Hn Hb Hde Hpf]. split; [done|done| |done]. intros te' [= <-]. exists key. split; [done|].
    cbn [tracker set_deferred]. rewrite Ht. by inversion Hokl. }
  split; [done|]. split; [etrans; [split; done|done]|]. do 3 (split; [done|]). split.
  - unfold deferred_keys, keys_of. cbn. rewrite Hkey. by rewrite last_snoc.
  - exists s1. split; [done|]. split; [done|by split].
Qed.

(** A live item's events are submitted; then a segment may end. *)
Lemma submit_live_spec item usage identity t s w :
  let s' := submit_live item (List.filter (fun e => negb (kind_is (lit "turn_end") e)) (live_events item usage identity t)) s w in
  grew s s' ∧ ∃ s3, sent (live_keys item t) s s3 ∧ grew s s3 ∧ (stored s' = stored s3 ∨ sent [segment_key item t] s3 s').
Proof.
  cbv zeta. destruct (live_events_keys item usage identity t) as [Hlive _]. unfold submit_live.
  set (mapped := List.filter _ _) in *. pose proof (submit_mapped_sent mapped s) as Hs.
  destruct (submit_mapped mapped s) as [batch s3]. rewrite Hlive in Hs. destruct Hs as (Hs & Hth & Ha).
  assert (Hbase : grew s s3 ∧ ∃ s4, sent (live_keys item t) s s4 ∧ grew s s4 ∧ (stored s3 = stored s4 ∨ sent [segment_key item t] s4 s3)).
  { split; [by split|]. exists s3. split; [done|]. split; [by split|by left]. }
  destruct item as [x|u|a|r|b|r]; try exact Hbase.
  destruct (anchor_key r usage identity t) as (e & He & Hkind & Hkey). 
  assert (Hmap : mapped = [e]) by (unfold mapped; rewrite He; cbn [List.filter]; unfold kind_is; by rewrite Hkind).
  assert (Hfind : List.find (kind_is (lit "tool_result")) [e] = Some e) by (cbn [List.find]; unfold kind_is; by rewrite Hkind, str_eqb_refl).
  rewrite Hmap, Hfind. cbn [mbind option_bind]. fold (ev_key e). rewrite Hkey.
  destruct batch as [batch|err]; [|exact Hbase].
  pose proof (segment_sent (item_event_key sid ITEM_KEY_GENERATION (item_digest (CToolResult r)) (count_of t (item_digest (CToolResult r)))
                       (lit "tool_result") (Some (tr_tool_call_id r))) batch s3 w) as [Hg Hseg].
  split; [etrans; [by split|exact Hg]|]. exists s3. split; [done|]. split; [by split|]. destruct Hseg as [Hseg|(e' & He' & Hseg)]; [by left|right].
  pose proof (segment_end_key sid ITEM_KEY_GENERATION _ (count_of t (item_digest (CToolResult r))) (tr_tool_call_id r)
                (item_digest_hex (CToolResult r)) sid_ok) as Hk.
  rewrite He' in Hk. cbn in Hk. apply (inj Some) in Hk. unfold keys_of in Hseg. cbn [omap list_omap] in Hseg. by rewrite Hk in Hseg.
Qed.

(** What a live item does: the close it supersedes is released, its own close is
    kept back, the rest is submitted, and a segment may end. *)
Lemma persist_unfold item usage identity s w : baseline_poisoned w = false ->
  process_persist sid item usage identity s w
  = let evs := live_events item usage identity (tracker w) in
    let '(s, w) := defer_turn_ends (List.filter (kind_is (lit "turn_end")) evs) s
                     (set_tracker (snd (next_occurrence (tracker w) (item_digest item))) w) in
    let w := set_open_calls (fold_item (open_calls w) item) w in
    (submit_live item (List.filter (fun e => negb (kind_is (lit "turn_end") e)) evs) s w, w).
Proof.
  intros Hp. unfold process_persist, live_events. rewrite Hp.
  pose proof (proj2 (map_item_keys sid ITEM_KEY_GENERATION item (tracker w) no_facts)) as Ht.
  destruct (map_item sid ITEM_KEY_GENERATION item (tracker w) no_facts) as [mapped t]. cbn [fst snd] in *. by rewrite Ht.
Qed.

Lemma close_keys_sub item t key : key ∈ close_keys item t ->
  key ∈ item_keys sid ITEM_KEY_GENERATION (item_digest item) (count_of t (item_digest item)) item.
Proof.
  intros ([kind part] & -> & Hin)%list_elem_of_fmap. apply list_elem_of_In, List.filter_In in Hin as [Hin _].
  apply item_keys_elem. exists kind, part. by rewrite list_elem_of_In.
Qed.

Lemma live_keys_sub item t key : key ∈ live_keys item t ->
  key ∈ item_keys sid ITEM_KEY_GENERATION (item_digest item) (count_of t (item_digest item)) item.
Proof.
  intros ([kind part] & -> & Hin)%list_elem_of_fmap. apply list_elem_of_In, List.filter_In in Hin as [Hin _].
  apply item_keys_elem. exists kind, part. by rewrite list_elem_of_In.
Qed.

Lemma item_keys_split item t key :
  key ∈ item_keys sid ITEM_KEY_GENERATION (item_digest item) (count_of t (item_digest item)) item ->
  key ∈ live_keys item t ∨ key ∈ close_keys item t.
Proof.
  intros (kind & part & Hin & ->)%item_keys_elem.
  destruct (is_turn_end_kind kind) eqn:Hk; [right|left]; apply list_elem_of_fmap; exists (kind, part);
    (split; [done|apply list_elem_of_In, List.filter_In; rewrite <- list_elem_of_In; cbn [fst]; by rewrite Hk]).
Qed.

Lemma segment_key_ok item t : (count_of t (item_digest item) < u64_max)%N ->
  ok_key (snd (next_occurrence t (item_digest item))) (segment_key item t).
Proof.
  intros Hc d occ Hp. unfold segment_key in Hp. rewrite parse_item_key in Hp by (apply item_digest_hex || lia). simplify_eq.
  rewrite count_next by done. rewrite decide_True by done. lia.
Qed.

Lemma close_events_keyed item usage identity t :
  Forall (fun e => ev_key e ≠ None) (List.filter (kind_is (lit "turn_end")) (live_events item usage identity t)).
Proof.
  pose proof (live_events_same item usage identity t) as Hs. unfold same_events in Hs. rewrite map_item_parts in Hs.
  apply Forall_forall. intros e He. apply list_elem_of_In, List.filter_In in He as [He _].
  rewrite <- list_elem_of_In in He. apply (list_elem_of_fmap_2 (fun e => (ev_key e, event_kind (input e)))) in He.
  change (fmap (fun e => (ev_key e, event_kind (input e)))) with (map (fun e => (ev_key e, event_kind (input e)))) in He.
  rewrite Hs in He. apply list_elem_of_fmap in He as ([kind part] & Heq & _). by injection Heq as -> _.
Qed.

Lemma filter_nil_keys l : Forall (fun e => ev_key e ≠ None) l -> is_empty l = is_empty (keys_of l).
Proof. destruct l as [|e l]; [done|]. intros Hf. inversion Hf as [|? ? He _]. subst. unfold keys_of. cbn. by destruct (ev_key e). Qed.

Lemma persist_spec item usage identity s w : inv s w -> roomy (tracker w) 1 -> baseline_poisoned w = false ->
  let '(s', w') := process_persist sid item usage identity s w in
  inv s' w' ∧ grew s s' ∧ tracker w' = snd (next_occurrence (tracker w) (item_digest item))
  ∧ installed w' = installed w ∧ baseline_poisoned w' = false
  ∧ deferred_keys w' = (if is_empty (close_keys item (tracker w)) then deferred_keys w
                        else match last (close_keys item (tracker w)) with Some k => [k] | None => [] end)
  ∧ ∃ s1 s2 s3, (if is_empty (close_keys item (tracker w)) then s1 = s else sent (deferred_keys w) s s1)
      ∧ sent (removelast (close_keys item (tracker w))) s1 s2
      ∧ sent (live_keys item (tracker w)) s2 s3
      ∧ (stored s' = stored s3 ∨ sent [segment_key item (tracker w)] s3 s')
      ∧ grew s s1 ∧ grew s s2 ∧ grew s s3.
Proof.
  intros Hi Hroom Hp. rewrite persist_unfold by done. specialize (Hroom (item_digest item)) as Hr.
  assert (Hc : (count_of (tracker w) (item_digest item) < u64_max)%N) by (cbn in Hr; lia).
  set (t' := snd (next_occurrence (tracker w) (item_digest item))).
  pose proof (next_le (tracker w) item Hc) as Hle. fold t' in Hle.
  destruct (live_events_keys item usage identity (tracker w)) as [_ Hclose].
  pose proof (close_events_keyed item usage identity (tracker w)) as Hkeyed. pose proof (filter_nil_keys _ Hkeyed) as Hnil.
  cbv zeta. set (closes := List.filter (kind_is (lit "turn_end")) _) in *. rewrite Hclose in Hnil.
  assert (Hi1 : inv s (set_tracker t' w)).
  { apply (inv_grow s w); [done..|]. intros p t Hpf Hs. etrans; [by eapply (inv_prefix _ _ Hi)|done]. }
  assert (Hok : ∀ key, key ∈ item_keys sid ITEM_KEY_GENERATION (item_digest item) (count_of (tracker w) (item_digest item)) item -> ok_key t' key).
  { intros key Hin. pose proof (item_keys_below (tracker w) item Hc) as Hb. rewrite Forall_forall in Hb. by apply Hb. }
  assert (Hokc : Forall (ok_key (tracker (set_tracker t' w))) (keys_of closes)).
  { rewrite Hclose. apply Forall_forall. intros key Hin. by apply Hok, close_keys_sub. }
  pose proof (defer_spec closes s (set_tracker t' w) Hi1 Hokc Hkeyed) as Hd.
  destruct (defer_turn_ends closes s (set_tracker t' w)) as [s2 w2]. rewrite Hclose, Hnil in Hd.
  destruct Hd as (Hi2 & Hg2 & Ht2 & Hins & Hbp & Hdef & s1 & Hs1 & Hs2 & Hg1). cbn in Ht2, Hins, Hbp.
  set (w3 := set_open_calls _ w2).
  destruct (submit_live_spec item usage identity (tracker w) s2 w3) as (Hg3 & s3 & Hs3 & Hg23 & Hseg).
  set (s' := submit_live _ _ s2 w3) in *.
  assert (Hi3 : inv s3 w3).
  { eapply (inv_sent s2); [by apply (inv_grow s2 w2); [done..|apply Hi2]|done|]. cbn. rewrite Ht2.
    apply Forall_forall. intros key Hin. by apply Hok, live_keys_sub. }
  split.
  { destruct Hseg as [Hseg|Hseg]; [by eapply inv_same|]. eapply inv_sent; [done|done|]. constructor; [|constructor].
    cbn. rewrite Ht2. by apply segment_key_ok. }
  split; [etrans; [exact Hg2|exact Hg3]|]. do 3 (split; [cbn; congruence|]). split; [exact Hdef|]. exists s1, s2, s3.
  do 4 (split; [done|]). split; [done|]. split; [done|]. etrans; [exact Hg2|exact Hg23].
Qed.

(** *** The other commands *)

Lemma shell_event_ok t n facts : ∃ key, keys_of [shell_turn_end_event sid n facts] = [key] ∧ ok_key t key.
Proof.
  unfold shell_turn_end_event, keys_of. cbn [omap list_omap].
  destruct (apply_facts_same facts (event (lit "turn_end") (lit "grok:" ++ encode_session_id sid ++ lit ":g0:shell_turn_end:" ++ show_N n) [])) as [Hk _].
  cbv beta in Hk. rewrite Hk. cbn [ev_key event input idempotency_key]. eexists. split; [done|].
  intros d occ Hp. by rewrite shell_key_no_item in Hp.
Qed.

Lemma facts_spec n facts s w : inv s w -> baseline_poisoned w = false ->
  let '(s', w') := process_turn_end_facts sid n facts s w in
  inv s' w' ∧ grew s s' ∧ tracker w' = tracker w ∧ installed w' = installed w ∧ baseline_poisoned w' = false
  ∧ deferred_keys w' = [] ∧ ∃ more, sent (deferred_keys w ++ more) s s' ∧ Forall (ok_key (tracker w)) more.
Proof.
  intros Hi Hp. unfold process_turn_end_facts. rewrite Hp. set (w1 := set_open_calls ∅ w).
  assert (Hi1 : inv s w1) by (apply (inv_grow s w); [done..|apply Hi]).
  pose proof (deferred_ok _ _ Hi) as Hok. unfold deferred_keys in *. change (deferred_turn_end w1) with (deferred_turn_end w).
  destruct (deferred_turn_end w) as [te|] eqn:Hd.
  - pose proof (submit_sent [apply_turn_end_facts te facts] s) as Hs. pose proof (submit_grew [apply_turn_end_facts te facts] s) as Hg.
    assert (Hk : keys_of [apply_turn_end_facts te facts] = keys_of [te]).
    { unfold keys_of. cbn [omap list_omap]. by destruct (apply_facts_same facts te) as [-> _]. }
    rewrite Hk in Hs. set (s' := snd _) in *.
    split; [exact (inv_sent s s' _ _ (inv_no_deferred _ _ Hi1) Hs Hok)|]. do 5 (split; [done|]). exists []. by rewrite app_nil_r.
  - pose proof (submit_sent [shell_turn_end_event sid n facts] s) as Hs. pose proof (submit_grew [shell_turn_end_event sid n facts] s) as Hg.
    destruct (shell_event_ok (tracker w) n facts) as (key & Hkey & Hkok). rewrite Hkey in Hs. set (s' := snd _) in *.
    assert (Hf : Forall (ok_key (tracker w)) [key]) by (by repeat constructor).
    split; [exact (inv_sent s s' _ _ Hi1 Hs Hf)|]. do 3 (split; [done|]). split; [done|]. split; [cbn; by rewrite Hd|]. by exists [key].
Qed.

Lemma model_spec pm nm pl nl s w : inv s w ->
  let s' := process_model_change sid pm nm pl nl s in
  inv s' w ∧ grew s s' ∧ ∃ more, sent more s s' ∧ Forall (fun k => parse_item_key_digest_occ k = None) more.
Proof.
  intros Hi. unfold process_model_change.
  assert (Hrefl : inv s w ∧ grew s s ∧ ∃ more, sent more s s ∧ Forall (fun k => parse_item_key_digest_occ k = None) more).
  { split; [done|]. split; [done|]. exists []. split; [by apply sent_nil|done]. }
  cbv zeta. case_match; [done|].
  destruct (map_model_change sid pm nm pl nl (next_change_ordinal s)) as [mapped next] eqn:Hm.
  assert (Hmore : Forall (fun k => parse_item_key_digest_occ k = None) (keys_of mapped)).
  { unfold map_model_change in Hm. unfold keys_of. repeat case_match; simplify_eq; cbn [app omap list_omap event ev_key input idempotency_key];
      repeat constructor; rewrite ?model_change_key_eq, ?thinking_level_change_key_eq; by apply change_key_no_item. }
  set (s1 := if str_eqb pm nm then s else set_serving_model nm s).
  assert (Hs1 : stored s1 = stored s ∧ grew s s1).
  { unfold s1. case_match; [done|]. unfold set_serving_model. case_match; [done|].
    assert (Hw : stored_events (thread_ref s) (set_model nm (lhc s)) = stored_events (thread_ref s) (lhc s)) by apply set_model_reads.
    apply read_grew; try reflexivity. exact Hw. }
  destruct Hs1 as [Hst1 Hg1]. case_match.
  { split; [by eapply inv_same|]. split; [done|]. exists []. split; [by apply sent_nil|done]. }
  pose proof (submit_mapped_sent mapped s1) as Hs. destruct (submit_mapped mapped s1) as [r s2]. destruct Hs as (Hs & Hth & Ha).
  assert (Hg2 : grew s s2) by (etrans; [exact Hg1|by split]).
  assert (Hs2 : sent (keys_of mapped) s s2).
  { unfold sent in *. rewrite Hst1 in Hs. destruct Hs as [Hs|[Hn Hs]]; [by left|right]. split; [|done]. intros Hr. by apply Hn, Hg1. }
  assert (Hok : Forall (ok_key (tracker w)) (keys_of mapped)).
  { eapply Forall_impl; [exact Hmore|]. intros k Hk d occ Hp. cbv beta in Hk. congruence. }
  assert (Hfin : ∀ s3, stored s3 = stored s2 -> grew s2 s3 ->
    inv s3 w ∧ grew s s3 ∧ ∃ more, sent more s s3 ∧ Forall (fun k => parse_item_key_digest_occ k = None) more).
  { intros s3 Hst3 Hg3. split; [eapply inv_same; [exact (inv_sent s s2 w _ Hi Hs2 Hok)|done]|]. split; [by etrans|].
    exists (keys_of mapped). split; [|done]. unfold sent in *. by rewrite Hst3. }
  destruct r as [b|e]; [|by apply Hfin]. case_match; [|by apply Hfin]. apply Hfin; [done|].
  split; [done|]. exists []. by rewrite app_nil_r.
Qed.

(** *** Re-mapping *)

Lemma walk_covered p native ds i head head' rem : digests p = take i (digests p) ++ ds -> i ≤ length (digests p) ->
  i ≤ length native -> (head = true -> 1 ≤ i) -> walk_loop p native ds i head = Covered head' rem ->
  rem ≤ length native ∧ (head' = true -> 1 ≤ rem).
Proof.
  revert i head. induction ds as [|d ds IH]; intros i head Hd Hi Hn Hh Hw; cbn [walk_loop] in Hw.
  - injection Hw as <- <-. rewrite app_nil_r in Hd.
    assert (length (digests p) = i) as -> by (rewrite Hd, length_take; lia). auto.
  - assert (Hlen : i < length (digests p)) by (rewrite Hd at 1; rewrite length_app, length_take; cbn; lia).
    assert (Hd' : digests p = take (S i) (digests p) ++ ds).
    { rewrite (take_S_r _ _ d); [rewrite <- app_assoc; exact Hd|]. rewrite Hd, lookup_app_r; rewrite length_take; [|lia].
      by rewrite Nat.min_l, Nat.sub_diag by lia. }
    destruct (native !! i) as [item|] eqn:Hit.
    + apply lookup_lt_Some in Hit.
      assert (Hgo : ∀ h, (h = true -> 1 ≤ S i) -> walk_loop p native ds (S i) h = Covered head' rem -> rem ≤ length native ∧ (head' = true -> 1 ≤ rem)).
      { intros h Hh' Hw'. apply (IH (S i) h); try done; lia. }
      repeat case_match; try done; eapply Hgo; try exact Hw; lia.
    + injection Hw as <- <-. apply lookup_ge_None in Hit. split; [lia|]. intros Hh'. specialize (Hh Hh'). lia.
Qed.

(** From which tracker which items of a history are keyed. *)
Inductive remap_source (items : list ConversationItem) (s : LhcSession W) (w : Worker)
    : OccurrenceTracker -> list ConversationItem -> Prop :=
  | source_full : (installed w = None ∨ ∃ p i, installed w = Some p ∧ prefix_walk p items = Stopped i) ->
      remap_source items s w tracker_empty items
  | source_rest p head rem t0 : installed w = Some p -> prefix_walk p items = Covered head rem ->
      (seed p = Some t0 ∨ seed p = None ∧ t0 = seed_occurrence_from_keys
         (map er_key (List.filter (fun e => Z.leb (event_order e) (Z.min (Z.of_N (source_tip p)) (2 ^ 63 - 1))) (events_of s)))) ->
      remap_source items s w t0 ((if head then take 1 items else []) ++ drop rem items).

Lemma source_length items s w t0 hs : remap_source items s w t0 hs -> length hs ≤ length items ∧ ∀ i, i ∈ hs -> i ∈ items.
Proof.
  intros [|p head rem t Hp Hw _]; [done|]. unfold prefix_walk in Hw.
  apply (walk_covered p items (digests p) 0 false) in Hw as [Hr Hh]; [|done|lia|lia|done].
  rewrite length_app, length_drop. split.
  - destruct head; [rewrite length_take; specialize (Hh eq_refl); lia|cbn; lia].
  - intros i [Hin|Hin]%elem_of_app; [destruct head; [|by apply elem_of_nil in Hin]|];
      [eapply (elem_of_sublist _ _ _ Hin), sublist_take|eapply (elem_of_sublist _ _ _ Hin), sublist_drop].
Qed.

Lemma source_le items s w t0 hs : inv s w -> remap_source items s w t0 hs -> le_counts t0 (tracker w).
Proof.
  intros Hi [|p head rem t Hp Hw [Ht|[_ ->]]].
  - intros d. change (count_of tracker_empty d) with 0%N. lia.
  - by eapply (inv_prefix _ _ Hi).
  - etrans; [apply (seed_sub _ (stored s))|apply seed_le, Hi].
    intros k (e & -> & He)%list_elem_of_fmap. apply list_elem_of_fmap. exists e. split; [done|].
    apply list_elem_of_In, List.filter_In in He as [He _]. by apply list_elem_of_In.
Qed.

Lemma source_fit items s w t0 hs : inv s w -> roomy (tracker w) (length items) -> remap_source items s w t0 hs -> counts_fit t0 hs.
Proof.
  intros Hi Hroom Hs d. pose proof (source_le _ _ _ _ _ Hi Hs d). pose proof (source_length _ _ _ _ _ Hs) as [Hl _].
  specialize (Hroom d). lia.
Qed.

Lemma history_keys_ok t items : counts_fit t items -> Forall (ok_key (advance t items)) (history_keys sid ITEM_KEY_GENERATION t items).
Proof.
  intros Hf. apply Forall_forall. intros key (i & occ & Hin & Hk)%history_keys_elem d occ' Hp.
  pose proof (numbered_range _ _ _ _ Hf Hin) as [_ Hr].
  assert (Hb : (count_of (advance t items) (item_digest i) <= u64_max)%N).
  { rewrite count_advance by done. specialize (Hf (item_digest i)). unfold occurrences.
    pose proof (length_filter (fun j => item_digest j = item_digest i) items). lia. }
  apply item_keys_parse in Hk; [|lia]. rewrite Hk in Hp. simplify_eq. lia.
Qed.

Lemma frozen_spec p s : let '(r, p', s') := frozen_seed p s in
  stored s' = stored s ∧ grew s s' ∧ match r with
  | Ok t => seed p' = Some t ∧ (seed p = Some t ∨ seed p = None ∧ t = seed_occurrence_from_keys
         (map er_key (List.filter (fun e => Z.leb (event_order e) (Z.min (Z.of_N (source_tip p)) (2 ^ 63 - 1))) (events_of s))))
  | Err _ => p' = p ∧ ¬ reliable s
  end.
Proof.
  unfold frozen_seed. destruct (seed p) as [t|] eqn:Hs; [split; [done|]; split; [done|]; auto|].
  pose proof (list_events_spec s) as Hl. destruct (list_events s) as [r s'] eqn:Hr. destruct Hl as (Hst & Hev & Hth & Hok).
  assert (Hg : grew s s') by (split; [done|]; exists []; by rewrite app_nil_r).
  destruct r as [l|e]; (split; [done|]; split; [done|]).
  - cbn [seed]. split; [done|]. right. split; [done|]. by rewrite (Hok l eq_refl).
  - split; [done|]. intros (_ & _ & Hrel). unfold list_events in Hr. destruct (Hrel (lhc s)) as (l & w' & Hw). by rewrite Hw in Hr.
Qed.

(** The events of a history, as keys. *)
Lemma mapped_from items t : keys_of (fst (map_history_from sid ITEM_KEY_GENERATION items no_facts t)) = history_keys sid ITEM_KEY_GENERATION t items
  ∧ snd (map_history_from sid ITEM_KEY_GENERATION items no_facts t) = advance t items.
Proof. destruct (map_history_keys sid ITEM_KEY_GENERATION items no_facts t) as [Hk Ht]. split; [by apply keys_of_map|done]. Qed.

Lemma two_maps (head : bool) items rest t0 :
  let '(out, t1) := if head then map_history_from sid ITEM_KEY_GENERATION (take 1 items) no_facts t0 else ([], t0) in
  let '(ev, local) := map_history_from sid ITEM_KEY_GENERATION rest no_facts t1 in
  keys_of (out ++ ev) = history_keys sid ITEM_KEY_GENERATION t0 ((if head then take 1 items else []) ++ rest)
  ∧ local = advance t0 ((if head then take 1 items else []) ++ rest).
Proof.
  assert (Hhead : let '(out, t1) := if head then map_history_from sid ITEM_KEY_GENERATION (take 1 items) no_facts t0 else ([], t0) in
                  keys_of out = history_keys sid ITEM_KEY_GENERATION t0 (if head then take 1 items else [])
                  ∧ t1 = advance t0 (if head then take 1 items else [])).
  { destruct head; [|done]. destruct (mapped_from (take 1 items) t0) as [Hk Ht]. by destruct (map_history_from _ _ _ _ _) as [out t1]. }
  destruct (if head then map_history_from sid ITEM_KEY_GENERATION (take 1 items) no_facts t0 else ([], t0)) as [out t1].
  destruct Hhead as [Hout ->]. destruct (mapped_from rest (advance t0 (if head then take 1 items else []))) as [Hk Ht].
  destruct (map_history_from _ _ rest _ _) as [ev local]. cbn [fst snd] in *.
  by rewrite keys_of_app, Hout, Hk, history_keys_app, advance_app.
Qed.

(** What a re-map that succeeds leaves. *)
Definition remapped (items : list ConversationItem) (s : LhcSession W) (w : Worker) (events : list MappedEvent) (w' : Worker) : Prop :=
  ∃ t0 hs, remap_source items s w t0 hs ∧ keys_of events = history_keys sid ITEM_KEY_GENERATION t0 hs
    ∧ tracker w' = merge_monotonic (tracker w) (advance t0 hs) ∧ Forall (ok_key (tracker w')) (keys_of events).

Lemma remap_merged items s w t0 hs events s' w1 : inv s w -> roomy (tracker w) (length items) ->
  remap_source items s w t0 hs -> stored s' = stored s ->
  keys_of events = history_keys sid ITEM_KEY_GENERATION t0 hs -> tracker w1 = tracker w ->
  deferred_turn_end w1 = deferred_turn_end w -> (∀ p t, installed w1 = Some p -> seed p = Some t -> le_counts t (tracker w)) ->
  inv s' (set_tracker (merge_monotonic (tracker w1) (advance t0 hs)) w1)
  ∧ remapped items s w events (set_tracker (merge_monotonic (tracker w1) (advance t0 hs)) w1).
Proof.
  intros Hi Hroom Hsrc Hst Hk Ht Hd Hp. split.
  - apply (inv_same s s'); [|done]. apply (inv_grow s w); cbn; rewrite ?Ht; [done|apply merge_le_l|done|].
    intros p t Hpf Hse. etrans; [by eapply Hp|apply merge_le_l].
  - exists t0, hs. cbn. rewrite Ht. do 3 (split; [done|]). rewrite Hk. eapply Forall_impl; [by eapply history_keys_ok, source_fit|].
    intros key. apply ok_key_mono, merge_le_r.
Qed.

Lemma remap_spec items s w : inv s w -> roomy (tracker w) (length items) ->
  let '(r, s', w') := remap_slice sid items s w in
  stored s' = stored s ∧ grew s s' ∧ deferred_turn_end w' = deferred_turn_end w ∧ baseline_poisoned w' = baseline_poisoned w
  ∧ inv s' w' ∧
  match r with
  | Ok events => remapped items s w events w'
  | Err _ => ¬ reliable s ∧ tracker w' = tracker w
  end.
Proof.
  intros Hi Hroom. destruct (mapped_from items tracker_empty) as [Hfk Hft]. fold (map_history sid ITEM_KEY_GENERATION items no_facts) in Hfk, Hft.
  unfold remap_slice. rewrite Hft. destruct (installed w) as [p|] eqn:Hp.
  - destruct (prefix_walk p items) as [head rem|i] eqn:Hw.
    + pose proof (frozen_spec p s) as Hfr. destruct (frozen_seed p s) as [[r p'] s']. destruct Hfr as (Hst & Hg & Hr).
      destruct r as [t0|e].
      * destruct Hr as [Hp' Hsrc].
        assert (Hs : remap_source items s w t0 ((if head then take 1 items else []) ++ drop rem items)) by by econstructor.
        pose proof (two_maps head items (drop rem items) t0) as Htwo.
        destruct (if head then map_history_from sid ITEM_KEY_GENERATION (take 1 items) no_facts t0 else ([], t0)) as [out t1].
        destruct (map_history_from sid ITEM_KEY_GENERATION (drop rem items) no_facts t1) as [ev local]. destruct Htwo as [Hk ->].
        do 4 (split; [done|]). apply remap_merged; try done.
        cbn. intros q t [= <-]. rewrite Hp'. intros [= <-]. by eapply source_le.
      * destruct Hr as [-> Hn]. do 4 (split; [done|]). split; [|done].
        apply (inv_same s s'); [|done]. apply (inv_grow s w); [done..|]. cbn. intros q t [= <-]. by eapply (inv_prefix _ _ Hi).
    + do 4 (split; [done|]). apply remap_merged; try done. constructor. right. by exists p, i.
  - do 4 (split; [done|]). apply remap_merged; try done; [constructor; by left|]. intros q t. by rewrite Hp.
Qed.

(** A whole history replaced: the close kept back, then what the archive lacks. *)
Lemma replace_spec items s w : inv s w -> roomy (tracker w) (length items) ->
  let '(s', w') := process_replace_history sid items s w in
  inv s' w' ∧ grew s s' ∧ deferred_keys w' = [] ∧ baseline_poisoned w' = false
  ∧ ∃ s1 w1, sent (deferred_keys w) s s1 ∧ grew s s1 ∧ installed w1 = installed w ∧ tracker w1 = tracker w
    ∧ ((¬ reliable s ∧ tracker w' = tracker w ∧ stored s' = stored s1)
       ∨ ∃ events, remapped items s1 w1 events w' ∧ sent (keys_of events) s1 s' ∧ grew s1 s').
Proof.
  intros Hi Hroom. unfold process_replace_history. set (w0 := set_open_calls (reset_from items) w).
  assert (Hi0 : inv s w0) by (apply (inv_grow s w); [done..|apply Hi]).
  pose proof (flush_inv s w0 Hi0) as Hf. destruct (flush_deferred s w0) as [s1 w1].
  destruct Hf as (Hi1 & Hs1 & Hth & Hd & Ht & Hins & _ & _ & Ha). assert (Hg1 : grew s s1) by by split.
  assert (Hroom1 : roomy (tracker w1) (length items)) by by rewrite Ht.
  pose proof (remap_spec items s1 w1 Hi1 Hroom1) as Hr. destruct (remap_slice sid items s1 w1) as [[r s2] w2].
  destruct Hr as (Hst2 & Hg2 & Hd2 & _ & Hi2 & Hr).
  assert (Hpois : inv s2 (set_poisoned false w2)) by (apply (inv_grow s2 w2); [done..|apply Hi2]).
  assert (Hdk : deferred_keys (set_poisoned false w2) = []) by (unfold deferred_keys; cbn; by rewrite Hd2, Hd).
  destruct r as [events|e].
  - pose proof (submit_sent events s2) as Hsub. pose proof (submit_grew events s2) as Hg3. destruct Hr as (t0 & hs & Hsrc & Hk & Htr & Hok).
    split; [exact (inv_sent _ _ _ _ Hpois Hsub Hok)|]. split; [etrans; [|exact Hg3]; by etrans|]. split; [done|]. split; [done|].
    exists s1, w1. do 4 (split; [done|]). right. exists events. split; [by exists t0, hs|]. split; [|by etrans].
    unfold sent in *. rewrite Hst2 in Hsub. destruct Hsub as [Hsub|[Hn Hsub]]; [by left|right]. split; [|done]. intros Hr. by apply Hn, Hg2.
  - destruct Hr as [Hn Htr]. split; [done|]. split; [by etrans|]. split; [done|]. split; [done|].
    exists s1, w1. do 4 (split; [done|]). left. split; [|split; [cbn; rewrite Htr; exact Ht|done]]. intros Hr. by apply Hn, Hg1.
Qed.

(** *** All commands *)

Definition cmd_items (cmd : CaptureCmd) : list ConversationItem :=
  match cmd with Persist i _ _ => [i] | ReplaceHistory items => items | _ => [] end.

Definition step (st : LhcSession W * Worker) (cmd : CaptureCmd) : LhcSession W * Worker :=
  let '(_, s, w) := process_cmd sid cmd (fst st) (snd st) in (s, w).
Definition run (cmds : list CaptureCmd) (st : LhcSession W * Worker) : LhcSession W * Worker := foldl step st cmds.
Definition run_items (cmds : list CaptureCmd) : list ConversationItem := concat (map cmd_items cmds).

Lemma advance_roomy t t0 hs (items : list ConversationItem) n : le_counts t0 t -> counts_fit t0 hs -> length hs ≤ length items ->
  roomy t (length items + n) -> roomy (merge_monotonic t (advance t0 hs)) n.
Proof.
  intros Hle Hf Hl Hroom d. rewrite count_merge, count_advance by done. specialize (Hle d). specialize (Hroom d).
  unfold occurrences. pose proof (length_filter (fun i => item_digest i = d) hs). lia.
Qed.

Lemma roomy_le t n m : n ≤ m -> roomy t m -> roomy t n.
Proof. intros Hnm Hr d. specialize (Hr d). lia. Qed.

Lemma compact_spec c s : let '(_, s') := session_compact c s in stored s' = stored s ∧ grew s s'.
Proof.
  unfold session_compact. destruct (before_call c); [by apply read_grew|]. destruct (while_running c); [by apply read_grew|].
  pose proof (compact_reads (thread_ref s) (lhc s)) as Hw. destruct (archive_compact _ _) as [r w]. cbn [snd] in Hw.
  destruct r as [v|[|reason]], (when_answered c); apply read_grew; try reflexivity; exact Hw.
Qed.

Lemma persist_step item usage identity s w n : inv s w -> roomy (tracker w) (S n) ->
  let '(s', w') := process_persist sid item usage identity s w in
  inv s' w' ∧ grew s s' ∧ roomy (tracker w') n ∧ le_counts (tracker w) (tracker w').
Proof.
  intros Hi Hroom. destruct (baseline_poisoned w) eqn:Hp.
  { unfold process_persist. rewrite Hp. split; [by apply (inv_grow s w); [..|apply Hi]|]. split; [done|].
    split; [by eapply roomy_le; [|exact Hroom]; lia|done]. }
  pose proof (persist_spec item usage identity s w Hi ltac:(by eapply roomy_le; [|exact Hroom]; lia) Hp) as Hs.
  destruct (process_persist sid item usage identity s w) as [s' w']. destruct Hs as (Hi' & Hg & Ht & _).
  assert (Hc : (count_of (tracker w) (item_digest item) < u64_max)%N) by (specialize (Hroom (item_digest item)); lia).
  split; [done|]. split; [done|]. rewrite Ht. split; [|by apply next_le].
  intros d. rewrite count_next by done. specialize (Hroom d). case_decide; lia.
Qed.

Lemma replace_step items s w n : inv s w -> roomy (tracker w) (length items + n) ->
  let '(s', w') := process_replace_history sid items s w in
  inv s' w' ∧ grew s s' ∧ roomy (tracker w') n ∧ le_counts (tracker w) (tracker w').
Proof.
  intros Hi Hroom. assert (Hr0 : roomy (tracker w) (length items)) by (by eapply roomy_le; [|exact Hroom]; lia).
  pose proof (replace_spec items s w Hi Hr0) as Hs. destruct (process_replace_history sid items s w) as [s' w'].
  destruct Hs as (Hi' & Hg & _ & _ & s1 & w1 & Hs1 & Hg1 & Hins & Ht1 & Hr). split; [done|]. split; [done|].
  destruct Hr as [(_ & -> & _)|(events & (t0 & hs & Hsrc & _ & Htr & _) & _)]; [split; [by eapply roomy_le; [|exact Hroom]; lia|done]|].
  rewrite Htr, Ht1. split; [|apply merge_le_l]. pose proof (source_length _ _ _ _ _ Hsrc) as [Hl _].
  pose proof (inv_sent s s1 w _ Hi Hs1 (deferred_ok _ _ Hi)) as Hi1.
  assert (Hsrc' : remap_source items s1 w t0 hs).
  { destruct Hsrc as [Hfull|p head rem t Hp Hw Ht]; [constructor; by rewrite <- Hins|by econstructor; [rewrite <- Hins|..]]. }
  apply (advance_roomy _ t0 hs items n); [exact (source_le _ _ _ _ _ Hi1 Hsrc')|exact (source_fit _ _ _ _ _ Hi1 Hr0 Hsrc')|exact Hl|exact Hroom].
Qed.

(** Every command keeps the invariant. *)
Lemma step_inv cmd s w n : inv s w -> roomy (tracker w) (length (cmd_items cmd) + n) ->
  let '(s', w') := step (s, w) cmd in inv s' w' ∧ grew s s' ∧ roomy (tracker w') n ∧ le_counts (tracker w) (tracker w').
Proof.
  intros Hi Hroom. assert (Hn : roomy (tracker w) n) by (by eapply roomy_le; [|exact Hroom]; lia).
  assert (Hread : ∀ s', stored s' = stored s ∧ grew s s' -> inv s' w ∧ grew s s' ∧ roomy (tracker w) n ∧ le_counts (tracker w) (tracker w)).
  { intros s' [Hst Hg]. split; [by eapply inv_same|done]. }
  assert (Hdrop : inv s (note_dropped w)) by (apply (inv_grow s w); [done..|apply Hi]).
  unfold step. cbn [fst snd]. destruct cmd as [item u id|k facts|items|g|pm nm pl nl| | |c|c| |]; cbn [process_cmd cmd_items] in *.
  - pose proof (persist_step item u id s w n Hi Hroom) as Hs. by destruct (process_persist sid item u id s w) as [s' w'].
  - destruct (baseline_poisoned w) eqn:Hp; [unfold process_turn_end_facts; rewrite Hp; done|].
    pose proof (facts_spec k facts s w Hi Hp) as Hs. destruct (process_turn_end_facts sid k facts s w) as [s' w'].
    destruct Hs as (Hi' & Hg & -> & _). done.
  - pose proof (replace_step items s w n Hi Hroom) as Hs. by destruct (process_replace_history sid items s w) as [s' w'].
  - cbn. split; [|done]. apply (inv_grow s w); [done..|]. cbn. intros p t [= <-]. done.
  - destruct (model_spec pm nm pl nl s w Hi) as (Hi' & Hg & _). done.
  - pose proof (flush_inv s w Hi) as Hf. destruct (flush_deferred s w) as [s' w']. destruct Hf as (Hi' & _ & Hth & _ & -> & _ & _ & _ & Ha). by split; [|split].
  - pose proof (flush_inv s w Hi) as Hf. destruct (flush_deferred s w) as [s1 w1]. destruct Hf as (Hi' & _ & Hth & _ & Ht & _ & _ & _ & Ha).
    pose proof (list_events_spec s1) as Hl. destruct (list_events s1) as [r s2]. destruct Hl as (Hst & Hev & Hth2 & _).
    cbn. rewrite Ht. split; [by eapply inv_same|]. split; [|done]. etrans; [by split|]. split; [done|]. exists []. by rewrite app_nil_r.
  - pose proof (call_reads c (thread_ref s) (lhc s)) as Hw. destruct (archive_call c (thread_ref s) (lhc s)) as [r w1]. cbn [snd] in Hw.
    apply Hread, read_grew; try done.
  - pose proof (compact_spec c s) as Hc. destruct (session_compact c s) as [r s']. by apply Hread.
  - apply Hread, read_grew; try done. apply drain_reads.
  - done.
Qed.

(** ** While no call fails *)

(** No two items of [U] share a digest. *)
Definition collision_free (U : list ConversationItem) : Prop :=
  ∀ i j, i ∈ U -> j ∈ U -> item_digest i = item_digest j -> i = j.

(** Every occurrence the tracker counted is stored, or waits as the close kept back. *)
Record settled (U : list ConversationItem) (s : LhcSession W) (w : Worker) : Prop := {
  st_reliable : reliable s;
  st_exact : le_counts (tracker w) (seed_occurrence_from_keys (stored s));
  st_complete i occ key : i ∈ U -> (occ < count_of (tracker w) (item_digest i))%N ->
    key ∈ item_keys sid ITEM_KEY_GENERATION (item_digest i) occ i -> key ∈ stored s ∨ key ∈ deferred_keys w;
  st_poison : baseline_poisoned w = false;
}.

Lemma took keys s s' : reliable s -> sent keys s s' -> stored s' = stored s ++ fresh (stored s) keys.
Proof. intros Hr [Hs|[Hn _]]; [done|by destruct Hn]. Qed.

Lemma took_elem keys s s' k : reliable s -> sent keys s s' -> (k ∈ stored s' <-> k ∈ stored s ∨ k ∈ keys).
Proof.
  intros Hr Hs. rewrite (took _ _ _ Hr Hs), elem_of_app, fresh_elem. destruct (decide (k ∈ stored s)); naive_solver.
Qed.

Lemma settled_sent U keys s s' w : settled U s w -> sent keys s s' -> grew s s' -> settled U s' w.
Proof.
  intros [Hr He Hc Hp] Hs Hg. split; [by apply Hg| | |done].
  - etrans; [exact He|]. apply seed_sub. intros k Hk. rewrite (took_elem _ _ _ k Hr Hs). by left.
  - intros i occ key Hi Ho Hk. rewrite (took_elem _ _ _ key Hr Hs). destruct (Hc i occ key Hi Ho Hk); auto.
Qed.

Lemma settled_same U s s' w w' : settled U s w -> stored s' = stored s -> grew s s' -> tracker w' = tracker w ->
  deferred_keys w' = deferred_keys w -> baseline_poisoned w' = false -> settled U s' w'.
Proof.
  intros [Hr He Hc Hp] Hs Hg Ht Hd Hb. split; [by apply Hg|by rewrite Ht, Hs| |done].
  intros i occ key. rewrite Ht, Hs, Hd. apply Hc.
Qed.

(** The close kept back was released. *)
Lemma settled_release U more s s' w w' : settled U s w -> sent (deferred_keys w ++ more) s s' -> grew s s' ->
  tracker w' = tracker w -> baseline_poisoned w' = false -> settled U s' w'.
Proof.
  intros [Hr He Hc Hp] Hs Hg Ht Hb. split; [by apply Hg| | |done].
  - rewrite Ht. etrans; [exact He|]. apply seed_sub. intros k Hk. rewrite (took_elem _ _ _ k Hr Hs). by left.
  - intros i occ key Hi Ho Hk. rewrite Ht in Ho. left. rewrite (took_elem _ _ _ key Hr Hs), elem_of_app.
    destruct (Hc i occ key Hi Ho Hk); auto.
Qed.

Lemma close_keys_single item t : close_keys item t = [] ∨ ∃ k, close_keys item t = [k].
Proof.
  unfold close_keys. destruct item as [x|u|a|r|b|r]; cbn [item_parts]; try (by left).
  - repeat case_match; cbn; eauto.
  - assert (Hc : ∀ l, List.filter (fun p => is_turn_end_kind (fst p)) (map (fun tc => (lit "tool_call", Some (tc_id tc))) l) = []).
    { intros l. induction l; [done|]. by cbn. }
    rewrite !List.filter_app, Hc. cbn [app]. destruct (a_tool_calls a); [|left; by case_match]. cbn [is_empty].
    rewrite orb_true_r. right. by eexists.
Qed.

Lemma live_keys_some item t : ∃ k, k ∈ live_keys item t.
Proof.
  assert (Hp : ∃ kind part, (kind, part) ∈ item_parts item ∧ is_turn_end_kind kind = false).
  { destruct item as [x|u|a|r|b|r]; cbn [item_parts]; try (by eexists _, _; split; [by left|]).
    - repeat case_match; try (by eexists _, _; split; [by left|]). eexists _, _. split; [right; by left|done].
    - destruct (a_tool_calls a) as [|tc l]; [rewrite orb_true_r; by eexists _, _; split; [by left|]|].
      eexists (lit "tool_call"), (Some (tc_id tc)). split; [|done]. rewrite !elem_of_app. right. left. by left. }
  destruct Hp as (kind & part & Hin & Hk). eexists. apply list_elem_of_fmap. exists (kind, part). split; [reflexivity|].
  apply list_elem_of_In, List.filter_In. rewrite <- list_elem_of_In. cbn [fst]. by rewrite Hk.
Qed.

(** The occurrences below the next one, or the new one. *)
Lemma next_cases t i j occ : (count_of t (item_digest i) < u64_max)%N ->
  (occ < count_of (snd (next_occurrence t (item_digest i))) (item_digest j))%N ->
  (occ < count_of t (item_digest j))%N ∨ (item_digest i = item_digest j ∧ occ = count_of t (item_digest i)).
Proof. intros Hc. rewrite count_next by done. case_decide as Hd; [rewrite Hd|]; intros; [|left; lia]. destruct (decide (occ < count_of t (item_digest j))%N); [by left|right]. split; [done|lia]. Qed.

Lemma persist_settled U item usage identity s w : inv s w -> settled U s w -> collision_free U -> item ∈ U ->
  roomy (tracker w) 1 ->
  let '(s', w') := process_persist sid item usage identity s w in settled U s' w'.
Proof.
  intros Hi Hset Hcf HU Hroom. pose proof (persist_spec item usage identity s w Hi Hroom (st_poison _ _ _ Hset)) as Hs.
  destruct (process_persist sid item usage identity s w) as [s' w'].
  destruct Hs as (Hi' & Hg & Ht & _ & Hbp & Hdef & s1 & s2 & s3 & Hs1 & Hs2 & Hs3 & Hseg & Hg1 & Hg2 & Hg3).
  assert (Hc : (count_of (tracker w) (item_digest item) < u64_max)%N) by (specialize (Hroom (item_digest item)); cbn in Hroom; lia).
  destruct Hset as [Hr He Hco Hp]. assert (Hr2 : reliable s2) by by apply Hg2. assert (Hr1 : reliable s1) by by apply Hg1.
  assert (Hr3 : reliable s3) by by apply Hg3.
  assert (Hs' : ∀ k, k ∈ stored s3 -> k ∈ stored s').
  { intros k Hk. destruct Hseg as [-> |Hseg]; [done|]. rewrite (took_elem _ _ _ k Hr3 Hseg). by left. }
  assert (H23 : ∀ k, k ∈ stored s2 ∨ k ∈ live_keys item (tracker w) -> k ∈ stored s').
  { intros k Hk. apply Hs'. by rewrite (took_elem _ _ _ k Hr2 Hs3). }
  assert (H02 : ∀ k, k ∈ stored s -> k ∈ stored s').
  { intros k Hk. apply H23. left. rewrite (took_elem _ _ _ k Hr1 Hs2). left.
    destruct (is_empty (close_keys item (tracker w))); [by subst|]. rewrite (took_elem _ _ _ k Hr Hs1). by left. }
  split; [by apply Hg| | |done].
  - intros d. rewrite Ht, count_next by done. case_decide as Hd.
    + subst d. destruct (live_keys_some item (tracker w)) as [k Hk].
      assert (Hks : k ∈ stored s') by (apply H23; by right). apply live_keys_sub in Hk. apply item_keys_elem in Hk as (kind & part & _ & ->).
      apply seed_above in Hks; [|apply item_digest_hex|lia]. unfold sat_add64 in Hks. lia.
    + pose proof (seed_sub _ _ H02 d). specialize (He d). lia.
  - intros j occ key Hj Hocc Hk. rewrite Ht in Hocc. apply next_cases in Hocc as [Hocc|[Hd ->]]; [| |done].
    + destruct (Hco j occ key Hj Hocc Hk) as [Hin|Hin]; [left; by apply H02|]. rewrite Hdef.
      destruct (is_empty (close_keys item (tracker w))) eqn:Hne; [by right|]. left. apply H23. left.
      rewrite (took_elem _ _ _ key Hr1 Hs2). left. rewrite (took_elem _ _ _ key Hr Hs1). by right.
    + apply Hcf in Hd as <-; [|done..]. apply item_keys_split in Hk as [Hk|Hk]; [left; apply H23; by right|right]. rewrite Hdef.
      destruct (close_keys_single item (tracker w)) as [Hn|[k Hck]]; rewrite ?Hn, ?Hck in *; [by apply elem_of_nil in Hk|done].
Qed.

Lemma source_settled U items s w t0 hs events s' w' : collision_free U -> (∀ i, i ∈ items -> i ∈ U) ->
  inv s w -> roomy (tracker w) (length items) -> settled U s w -> deferred_keys w = [] ->
  remap_source items s w t0 hs -> keys_of events = history_keys sid ITEM_KEY_GENERATION t0 hs ->
  tracker w' = merge_monotonic (tracker w) (advance t0 hs) -> sent (keys_of events) s s' -> grew s s' ->
  baseline_poisoned w' = false -> settled U s' w'.
Proof.
  intros Hcf HU Hi Hroom [Hr He Hc _] Hdef Hsrc Hk Ht Hs Hg Hp.
  pose proof (source_le _ _ _ _ _ Hi Hsrc) as Hle. pose proof (source_fit _ _ _ _ _ Hi Hroom Hsrc) as Hfit.
  pose proof (source_length _ _ _ _ _ Hsrc) as [_ Hsub].
  assert (Hin : ∀ i occ key, (i, occ) ∈ numbered t0 hs -> key ∈ item_keys sid ITEM_KEY_GENERATION (item_digest i) occ i -> key ∈ stored s').
  { intros i occ key Hno Hkey. rewrite (took_elem _ _ _ key Hr Hs). right. rewrite Hk. apply history_keys_elem. eauto. }
  split; [by apply Hg| | |done].
  - intros d. rewrite Ht, count_merge. apply N.max_lub.
    + etrans; [apply He|]. apply seed_sub. intros k Hks. rewrite (took_elem _ _ _ k Hr Hs). by left.
    + destruct (decide (count_of t0 d < count_of (advance t0 hs) d)%N) as [Hlt|Hge].
      * destruct (numbered_hit t0 hs d (count_of (advance t0 hs) d - 1) Hfit ltac:(lia)) as (i & <- & Hno).
        destruct (item_keys_nonempty sid ITEM_KEY_GENERATION (item_digest i) (count_of (advance t0 hs) (item_digest i) - 1) i) as [key Hkey].
        pose proof (Hin _ _ _ Hno Hkey) as Hks. apply item_keys_elem in Hkey as (kind & part & _ & ->).
        assert (Hb : (count_of (advance t0 hs) (item_digest i) <= u64_max)%N).
        { rewrite count_advance by done. specialize (Hfit (item_digest i)). unfold occurrences.
          pose proof (length_filter (fun j => item_digest j = item_digest i) hs). lia. }
        apply seed_above in Hks; [|apply item_digest_hex|lia]. unfold sat_add64 in Hks. lia.
      * etrans; [|etrans; [apply (He d)|apply seed_sub]]; [specialize (Hle d); lia|].
        intros k Hks. rewrite (took_elem _ _ _ k Hr Hs). by left.
  - intros i occ key HiU Hocc Hkey. left. rewrite Ht, count_merge in Hocc.
    destruct (decide (occ < count_of (tracker w) (item_digest i))%N) as [Hlt|Hge].
    + rewrite (took_elem _ _ _ key Hr Hs). left. destruct (Hc i occ key HiU Hlt Hkey) as [Hks|Hd]; [done|].
      rewrite Hdef in Hd. by apply elem_of_nil in Hd.
    + pose proof (Hle (item_digest i)). destruct (numbered_hit t0 hs (item_digest i) occ Hfit ltac:(lia)) as (j & Hj & Hno).
      assert (Hjh : j ∈ hs) by (by eapply numbered_range in Hno as [? _]). apply Hcf in Hj; [|by apply HU, Hsub|done]. subst j. by eapply Hin.
Qed.

Lemma replace_settled U items s w : collision_free U -> (∀ i, i ∈ items -> i ∈ U) -> inv s w ->
  roomy (tracker w) (length items) -> settled U s w ->
  let '(s', w') := process_replace_history sid items s w in settled U s' w'.
Proof.
  intros Hcf HU Hi Hroom Hset. pose proof (replace_spec items s w Hi Hroom) as Hs.
  destruct (process_replace_history sid items s w) as [s' w'].
  destruct Hs as (Hi' & Hg & Hd' & Hp' & s1 & w1 & Hs1 & Hg1 & Hins & Ht1 & Hr).
  pose proof (st_reliable _ _ _ Hset) as Hrel. destruct Hr as [(Hn & _)|(events & (t0 & hs & Hsrc & Hk & Htr & Hok) & Hs2 & Hg2)]; [done|].
  set (w2 := set_deferred None (set_poisoned false w)).
  assert (Hi1 : inv s1 w2).
  { apply (inv_sent s s1 w2 (deferred_keys w)); [|done|by apply (deferred_ok s w)].
    destruct Hi as [Hn Hb Hd Hp]. split; [done|done|done|done]. }
  assert (Hset1 : settled U s1 w2).
  { eapply (settled_release U [] s s1 w w2); [done|by rewrite app_nil_r|done|done|done]. }
  assert (Hsrc2 : remap_source items s1 w2 t0 hs).
  { destruct Hsrc as [Hfull|p head rem t Hp Hw Ht]; [constructor; unfold w2; cbn; by rewrite <- Hins|].
    econstructor; [unfold w2; cbn; by rewrite <- Hins|done|done]. }
  eapply (source_settled U items s1 w2 t0 hs events); try done. by rewrite Htr, Ht1.
Qed.

(** Every command keeps what holds while no call fails. *)
Lemma step_settled U cmd s w n : collision_free U -> (∀ i, i ∈ cmd_items cmd -> i ∈ U) -> inv s w ->
  roomy (tracker w) (length (cmd_items cmd) + n) -> settled U s w ->
  let '(s', w') := step (s, w) cmd in settled U s' w'.
Proof.
  intros Hcf HU Hi Hroom Hset. pose proof (st_poison _ _ _ Hset) as Hp.
  assert (Hread : ∀ s', stored s' = stored s ∧ grew s s' -> settled U s' w) by (intros s' [Hst Hg]; by eapply settled_same).
  unfold step. cbn [fst snd]. destruct cmd as [item u id|k facts|items|g|pm nm pl nl| | |c|c| |]; cbn [process_cmd cmd_items] in *.
  - pose proof (persist_settled U item u id s w Hi Hset Hcf ltac:(apply HU; by left) ltac:(by eapply roomy_le; [|exact Hroom]; cbn; lia)) as Hs.
    by destruct (process_persist sid item u id s w) as [s' w'].
  - pose proof (facts_spec k facts s w Hi Hp) as Hs. destruct (process_turn_end_facts sid k facts s w) as [s' w'].
    destruct Hs as (_ & Hg & Ht & _ & Hp' & _ & more & Hs & _). by eapply settled_release.
  - pose proof (replace_settled U items s w Hcf HU Hi ltac:(by eapply roomy_le; [|exact Hroom]; lia) Hset) as Hs.
    by destruct (process_replace_history sid items s w) as [s' w'].
  - by eapply settled_same.
  - destruct (model_spec pm nm pl nl s w Hi) as (_ & Hg & more & Hs & _). by eapply settled_sent.
  - pose proof (flush_inv s w Hi) as Hf. destruct (flush_deferred s w) as [s' w'].
    destruct Hf as (_ & Hs & Hth & _ & Ht & _ & _ & Hbp & Ha). eapply (settled_release U []); [done|by rewrite app_nil_r|by split|done|congruence].
  - pose proof (flush_inv s w Hi) as Hf. destruct (flush_deferred s w) as [s1 w1].
    destruct Hf as (_ & Hs & Hth & _ & Ht & _ & _ & Hbp & Ha). pose proof (list_events_spec s1) as Hl.
    destruct (list_events s1) as [r s2]. destruct Hl as (Hst & Hev & Hth2 & _).
    assert (H1s : settled U s1 w1) by (eapply (settled_release U []); [done|by rewrite app_nil_r|by split|done|congruence]).
    eapply settled_same; [exact H1s|done| |done|done|congruence]. split; [done|]. exists []. by rewrite app_nil_r.
  - pose proof (call_reads c (thread_ref s) (lhc s)) as Hw. destruct (archive_call c (thread_ref s) (lhc s)) as [r w1]. cbn [snd] in Hw.
    by apply Hread, read_grew.
  - pose proof (compact_spec c s) as Hc. destruct (session_compact c s) as [r s']. by apply Hread.
  - apply Hread, read_grew; try done. apply drain_reads.
  - done.
Qed.

Lemma run_inv cmds s w n : inv s w -> roomy (tracker w) (length (run_items cmds) + n) ->
  let '(s', w') := run cmds (s, w) in inv s' w' ∧ grew s s' ∧ roomy (tracker w') n ∧ le_counts (tracker w) (tracker w').
Proof.
  revert s w. induction cmds as [|cmd cmds IH]; intros s w Hi Hroom; [done|].
  unfold run_items in Hroom. cbn [map concat] in Hroom. rewrite length_app, <- Nat.add_assoc in Hroom.
  pose proof (step_inv cmd s w _ Hi Hroom) as Hs. unfold run. cbn [foldl]. fold (run cmds).
  destruct (step (s, w) cmd) as [s1 w1]. destruct Hs as (Hi1 & Hg1 & Hroom1 & Hle1).
  specialize (IH s1 w1 Hi1 Hroom1). fold (run cmds (s1, w1)). destruct (run cmds (s1, w1)) as [s2 w2]. destruct IH as (Hi2 & Hg2 & Hroom2 & Hle2).
  split; [done|]. split; [by etrans|]. split; [done|by etrans].
Qed.

Lemma run_settled U cmds s w n : collision_free U -> (∀ i, i ∈ run_items cmds -> i ∈ U) -> inv s w ->
  roomy (tracker w) (length (run_items cmds) + n) -> settled U s w -> let '(s', w') := run cmds (s, w) in settled U s' w'.
Proof.
  intros Hcf. revert s w. induction cmds as [|cmd cmds IH]; intros s w HU Hi Hroom Hset; [done|].
  unfold run_items in Hroom, HU. cbn [map concat] in Hroom, HU. rewrite length_app, <- Nat.add_assoc in Hroom.
  pose proof (step_inv cmd s w _ Hi Hroom) as Hs.
  pose proof (step_settled U cmd s w _ Hcf ltac:(intros i Hin; apply HU; rewrite elem_of_app; by left) Hi Hroom Hset) as Hst.
  unfold run. cbn [foldl]. destruct (step (s, w) cmd) as [s1 w1]. destruct Hs as (Hi1 & _ & Hroom1 & _).
  apply (IH s1 w1); try done. intros i Hin. apply HU. rewrite elem_of_app. by right.
Qed.

(** ** Lives of a capture *)

Lemma submit_events_mapped events s : snd (submit_events (map input events) s) = snd (submit_mapped events s).
Proof.
  unfold submit_mapped. destruct events as [|e l]; [|done]. cbn. unfold submit_events. by destruct (capture_disabled s).
Qed.

(** The worker before its bootstrap. *)
Definition fresh_worker (s : LhcSession W) (generated : option GeneratedPrefix) : Worker :=
  mkWorker (seed_occurrence_from_keys (stored s)) false 0 None (prefix_new <$> generated) ∅.

Lemma fresh_inv s generated : roomy (seed_occurrence_from_keys (stored s)) 0 ->
  Forall (ok_key (seed_occurrence_from_keys (stored s))) (stored s) -> inv s (fresh_worker s generated).
Proof.
  intros Hr Hok. split; [apply events_unique|done|done|]. intros p t Hp Hs. cbn in Hp. destruct generated as [g|]; [|done]. by injection Hp as <-.
Qed.

(** The worker after a bootstrap. *)
Lemma start_spec U bootstrap generated s n : let w := fresh_worker s generated in
  inv s w -> roomy (tracker w) (length bootstrap + n) ->
  let '(s', w') := start_worker sid bootstrap generated (s, seed_occurrence_from_keys (stored s)) in
  inv s' w' ∧ roomy (tracker w') n ∧ grew s s'
  ∧ (collision_free U -> (∀ i, i ∈ bootstrap -> i ∈ U) -> settled U s w -> settled U s' w').
Proof.
  intros w Hi Hroom. unfold start_worker. fold (fresh_worker s generated). fold w.
  assert (Hend : ∀ s' w', inv s' w' -> roomy (tracker w') n -> grew s s' ->
    (collision_free U -> (∀ i, i ∈ bootstrap -> i ∈ U) -> settled U s w -> settled U s' w') ->
    let w'' := set_open_calls (reset_from bootstrap) w' in inv s' w'' ∧ roomy (tracker w'') n ∧ grew s s'
    ∧ (collision_free U -> (∀ i, i ∈ bootstrap -> i ∈ U) -> settled U s w -> settled U s' w'')).
  { intros s' w' Hi' Hr' Hg' Hs'. cbn. split; [apply (inv_grow s' w'); [done..|apply Hi']|]. split; [done|]. split; [done|].
    intros Hcf HU Hset. specialize (Hs' Hcf HU Hset). eapply settled_same; [exact Hs'|done|done|done|done|apply Hs']. }
  assert (Hroom0 : roomy (tracker w) (length bootstrap)) by (by eapply roomy_le; [|exact Hroom]; lia).
  destruct (is_empty bootstrap) eqn:He.
  { apply Hend; try done. by eapply roomy_le; [|exact Hroom]; lia. }
  pose proof (remap_spec bootstrap s w Hi Hroom0) as Hr. destruct (remap_slice sid bootstrap s w) as [[r s2] w2].
  destruct Hr as (Hst2 & Hg2 & Hd2 & Hbp2 & Hi2 & Hr). destruct r as [events|e].
  - rewrite submit_events_mapped. pose proof (submit_sent events s2) as Hsub. pose proof (submit_grew events s2) as Hg3.
    destruct Hr as (t0 & hs & Hsrc & Hk & Htr & Hok). set (s3 := snd (submit_mapped events s2)) in *.
    assert (Hg13 : grew s s3) by by etrans. assert (Hsent : sent (keys_of events) s s3).
    { unfold sent in *. rewrite Hst2 in Hsub. destruct Hsub as [Hsub|[Hn Hsub]]; [by left|right]. split; [|done]. intros Hrel. by apply Hn, Hg2. }
    apply Hend; [exact (inv_sent _ _ _ _ Hi2 Hsub Hok)| |done|].
    + rewrite Htr. pose proof (source_length _ _ _ _ _ Hsrc) as [Hl _].
      apply (advance_roomy (tracker w) t0 hs bootstrap n); [exact (source_le _ _ _ _ _ Hi Hsrc)|exact (source_fit _ _ _ _ _ Hi Hroom0 Hsrc)|exact Hl|exact Hroom].
    + intros Hcf HU Hset. eapply (source_settled U bootstrap s w t0 hs events); done.
  - destruct Hr as [Hn Htr]. apply Hend; [done|rewrite Htr; by eapply roomy_le; [|exact Hroom]; lia|done|].
    intros _ _ Hset. destruct Hn. apply Hset.
Qed.

(** A thread opened again: the same events, the tip latched from them, no failure counted. *)
Definition reopened (rel : bool) (s s' : LhcSession W) : Prop :=
  events_of s' = events_of s ∧ tip_ok s' ∧ (rel = true -> reliable s').

(** The states of a capture, from a new thread on, over any number of processes.
    [rel] says that no call fails and no process dies with a close kept back. *)
Inductive life (rel : bool) (U : list ConversationItem) : LhcSession W -> Worker -> Prop :=
  | life_new s bootstrap s' w' : events_of s = [] -> tip_ok s -> (rel = true -> reliable s) ->
      (∀ i, i ∈ bootstrap -> i ∈ U) -> (N.of_nat (length bootstrap) <= u64_max)%N ->
      start_worker sid bootstrap None (s, seed_occurrence_from_keys (stored s)) = (s', w') -> life rel U s' w'
  | life_step s w cmd s' w' : life rel U s w -> (∀ i, i ∈ cmd_items cmd -> i ∈ U) ->
      roomy (tracker w) (length (cmd_items cmd)) -> step (s, w) cmd = (s', w') -> life rel U s' w'
  | life_restart s w s1 w1 s' bootstrap generated s2 w2 : life rel U s w -> flush_deferred s w = (s1, w1) -> reopened rel s1 s' ->
      (∀ i, i ∈ bootstrap -> i ∈ U) -> roomy (seed_occurrence_from_keys (stored s')) (length bootstrap) ->
      start_worker sid bootstrap generated (s', seed_occurrence_from_keys (stored s')) = (s2, w2) -> life rel U s2 w2
  | life_crash s w s' bootstrap generated s2 w2 : life rel U s w -> rel = false -> reopened rel s s' ->
      (∀ i, i ∈ bootstrap -> i ∈ U) -> roomy (seed_occurrence_from_keys (stored s')) (length bootstrap) ->
      start_worker sid bootstrap generated (s', seed_occurrence_from_keys (stored s')) = (s2, w2) -> life rel U s2 w2.

Lemma reopened_stored rel s s' : reopened rel s s' -> stored s' = stored s.
Proof. intros (He & _). unfold stored. fold (events_of s'). fold (events_of s). by rewrite He. Qed.

(** The seed of a thread counts all that is stored. *)
Lemma seed_counts keys t : Forall (ok_key t) keys -> roomy t 0 -> Forall (ok_key (seed_occurrence_from_keys keys)) keys.
Proof.
  intros Hok Hr. apply seed_ok; [done|]. intros d occ key Hin Hp. rewrite Forall_forall in Hok.
  specialize (Hok key Hin d occ Hp). specialize (Hr d). lia.
Qed.

Lemma restart_inv s s' w generated : inv s w -> roomy (tracker w) 0 -> stored s' = stored s ->
  inv s' (fresh_worker s' generated) ∧ roomy (tracker (fresh_worker s' generated)) 0.
Proof.
  intros Hi Hr Hst. assert (Hle : le_counts (seed_occurrence_from_keys (stored s')) (tracker w)) by (rewrite Hst; apply seed_le, Hi).
  assert (Hroom : roomy (seed_occurrence_from_keys (stored s')) 0) by (intros d; specialize (Hr d); specialize (Hle d); lia).
  split; [|done]. apply fresh_inv; [done|]. eapply seed_counts; [rewrite Hst; apply Hi|done].
Qed.

Lemma restart_settled U s s' w generated : inv s w -> settled U s w -> deferred_keys w = [] -> stored s' = stored s ->
  reliable s' -> settled U s' (fresh_worker s' generated).
Proof.
  intros Hi [Hr He Hc Hp] Hd Hst Hrel. split; [done|done| |done]. intros i occ key Hu Hocc Hk. left. rewrite Hst. cbn in Hocc.
  pose proof (seed_le _ _ (inv_below _ _ Hi) (item_digest i)) as Hle. rewrite <- Hst in Hle.
  destruct (Hc i occ key Hu ltac:(lia) Hk) as [Hin|Hin]; [done|]. rewrite Hd in Hin. by apply elem_of_nil in Hin.
Qed.

Definition life_ok (rel : bool) (U : list ConversationItem) (s : LhcSession W) (w : Worker) : Prop :=
  inv s w ∧ roomy (tracker w) 0 ∧ tip_ok s ∧ (rel = true -> collision_free U -> settled U s w).

Lemma start_ok rel U s bootstrap generated : inv s (fresh_worker s generated) ->
  roomy (seed_occurrence_from_keys (stored s)) (length bootstrap) -> tip_ok s -> (∀ i, i ∈ bootstrap -> i ∈ U) ->
  (rel = true -> collision_free U -> settled U s (fresh_worker s generated)) ->
  let '(s', w') := start_worker sid bootstrap generated (s, seed_occurrence_from_keys (stored s)) in life_ok rel U s' w'.
Proof.
  intros Hi Hr Ht HU Hset. pose proof (start_spec U bootstrap generated s 0 Hi ltac:(by rewrite Nat.add_0_r)) as Hs.
  destruct (start_worker _ _ _ _) as [s' w']. destruct Hs as (Hi' & Hr' & Hg & Hs). split; [done|]. split; [done|].
  split; [by apply Hg|]. intros Hrel Hcf. by apply Hs; [| |apply Hset].
Qed.

Lemma capture_start_ok rel U s bootstrap : events_of s = [] -> tip_ok s -> (rel = true -> reliable s) ->
  (∀ i, i ∈ bootstrap -> i ∈ U) -> (N.of_nat (length bootstrap) <= u64_max)%N ->
  let '(s', w') := start_worker sid bootstrap None (s, seed_occurrence_from_keys (stored s)) in life_ok rel U s' w'.
Proof.
  intros He Ht Hrel HU Hlen. assert (Hst : stored s = []) by (unfold stored; fold (events_of s); by rewrite He).
  assert (Hz : ∀ d, count_of (seed_occurrence_from_keys (stored s)) d = 0%N) by (intros d; by rewrite Hst).
  apply start_ok; [apply fresh_inv; [intros d; rewrite Hz; lia|rewrite Hst; constructor]|intros d; rewrite Hz; lia|done|done|].
  intros Hr _. split; [by apply Hrel|done| |done]. intros i occ key _ Hocc. cbn [tracker fresh_worker] in Hocc. rewrite Hz in Hocc. lia.
Qed.

(** The close kept back is released before the worker ends. *)
Lemma flush_ok rel U s w : life_ok rel U s w -> let '(s1, w1) := flush_deferred s w in life_ok rel U s1 w1 ∧ deferred_keys w1 = [].
Proof.
  intros (Hi & Hr & Ht & Hset). assert (Hr0 : roomy (tracker w) (length (cmd_items Flush) + 0)) by by eapply roomy_le; [|exact Hr].
  pose proof (step_inv Flush s w 0 Hi Hr0) as Hf.
  assert (Hfs : rel = true -> collision_free U -> let '(s1, w1) := step (s, w) Flush in settled U s1 w1).
  { intros Hrel Hcf. apply (step_settled U Flush s w 0 Hcf); [intros i Hin; by apply elem_of_nil in Hin|done|done|by apply Hset]. }
  pose proof (flush_inv s w Hi) as Hfl. unfold step in Hf, Hfs. cbn [process_cmd fst snd] in Hf, Hfs.
  destruct (flush_deferred s w) as [s1 w1]. destruct Hf as (Hi1 & Hg & Hr1 & _). destruct Hfl as (_ & _ & _ & Hd & _).
  split; [|unfold deferred_keys; by rewrite Hd]. split; [done|]. split; [done|]. split; [by apply Hg|done].
Qed.

Lemma life_inv rel U s w : life rel U s w -> life_ok rel U s w.
Proof.
  induction 1 as [s bootstrap s' w' He Ht Hrel HU Hlen Heq|s w cmd s' w' _ IH HU Hroom Heq
                 |s w s1 w1 s' bootstrap generated s2 w2 _ IH Hfl Hre HU Hroom Heq|s w s' bootstrap generated s2 w2 _ IH Hrel Hre HU Hroom Heq].
  - pose proof (capture_start_ok rel U s bootstrap He Ht Hrel HU Hlen) as Hn. by rewrite Heq in Hn.
  - destruct IH as (Hi & Hr & Ht & Hset). assert (Hroom' : roomy (tracker w) (length (cmd_items cmd) + 0)) by by rewrite Nat.add_0_r.
    pose proof (step_inv cmd s w 0 Hi Hroom') as Hs.
    assert (Hst : rel = true -> collision_free U -> let '(s', w') := step (s, w) cmd in settled U s' w').
    { intros Hrel Hcf. by apply (step_settled U cmd s w 0 Hcf HU Hi), Hset. }
    rewrite Heq in Hs, Hst. destruct Hs as (Hi' & Hg & Hr' & _). split; [done|]. split; [done|]. split; [by apply Hg|done].
  - pose proof (flush_ok rel U s w IH) as Hf. rewrite Hfl in Hf. destruct Hf as [(Hi & Hr & Ht & Hset) Hd].
    pose proof (reopened_stored _ _ _ Hre) as Hst. destruct Hre as (He & Hto & Hrel).
    destruct (restart_inv s1 s' w1 generated Hi Hr Hst) as [Hinv _].
    pose proof (start_ok rel U s' bootstrap generated Hinv Hroom Hto HU) as Hs. rewrite Heq in Hs. apply Hs.
    intros Hr' Hcf. eapply (restart_settled U s1 s' w1); [done|by apply Hset|done|done|by apply Hrel].
  - destruct IH as (Hi & Hr & Ht & _). pose proof (reopened_stored _ _ _ Hre) as Hst. destruct Hre as (He & Hto & _).
    destruct (restart_inv s s' w generated Hi Hr Hst) as [Hinv _].
    pose proof (start_ok rel U s' bootstrap generated Hinv Hroom Hto HU) as Hs. rewrite Heq in Hs. apply Hs. intros Hrel'. congruence.
Qed.

(** A life goes on over a run of commands. *)
Lemma life_run rel U cmds s w : life rel U s w -> (∀ i, i ∈ run_items cmds -> i ∈ U) ->
  roomy (tracker w) (length (run_items cmds)) -> let '(s', w') := run cmds (s, w) in life rel U s' w'.
Proof.
  revert s w. induction cmds as [|cmd cmds IH]; intros s w Hl HU Hroom; [done|].
  unfold run_items in Hroom, HU. cbn [map concat] in Hroom, HU. rewrite length_app in Hroom.
  destruct (life_inv _ _ _ _ Hl) as (Hi & _). pose proof (step_inv cmd s w _ Hi Hroom) as Hs.
  unfold run. cbn [foldl]. destruct (step (s, w) cmd) as [s1 w1] eqn:Hst. destruct Hs as (_ & _ & Hroom1 & _).
  apply (IH s1 w1); [|intros i Hin; apply HU; rewrite elem_of_app; by right|done].
  eapply life_step; [exact Hl|intros i Hin; apply HU; rewrite elem_of_app; by left| |exact Hst].
  eapply roomy_le; [|exact Hroom]. lia.
Qed.

(** ** What is recorded *)

(** A body is walked over whole when the history begins with it. *)
Lemma walk_body g rest : prefix_walk (prefix_new g) (gp_items g ++ rest) = Covered false (length (gp_items g)).
Proof.
  unfold prefix_walk, prefix_new. cbn [digests]. set (self := mkInstalled _ _ _ _).
  assert (Hgen : ∀ done todo, gp_items g = done ++ todo ->
    walk_loop self (gp_items g ++ rest) (map item_digest todo) (length done) false = Covered false (length (gp_items g))).
  { intros done todo. revert done. induction todo as [|i todo IH]; intros done Heq; cbn [map walk_loop].
    - unfold self. cbn [digests]. by rewrite length_map.
    - assert (Hl : (gp_items g ++ rest) !! length done = Some i).
      { rewrite Heq, <- app_assoc. cbn [app]. by rewrite list_lookup_middle. }
      rewrite Hl, str_eqb_refl. replace (S (length done)) with (length (done ++ [i])) by (rewrite length_app; cbn; lia).
      apply IH. by rewrite Heq, <- app_assoc. }
  apply (Hgen [] (gp_items g)). done.
Qed.

(** The events up to the last order of a thread, after it has grown. *)
Lemma filter_tip l added : ordered (l ++ added) -> (last_order l <= 2 ^ 63 - 1)%Z ->
  List.filter (fun e => Z.leb (event_order e) (Z.min (Z.of_N (order_to_u64 (last_order l))) (2 ^ 63 - 1))) (l ++ added) = l.
Proof.
  intros [Hs Hp] Hmax. pose proof (proj1 (Forall_app _ _ _) Hp) as [Hl Ha].
  assert (Hlast : (0 <= last_order l)%Z ∧ ∀ e, e ∈ l -> (event_order e <= last_order l)%Z).
  { unfold last_order. destruct l as [|e l _] using rev_ind; [split; [cbn; lia|intros e He; by apply elem_of_nil in He]|].
    rewrite last_snoc. cbn [from_option]. rewrite Forall_forall in Hl.
    pose proof (Hl e ltac:(rewrite elem_of_app, list_elem_of_singleton; auto)). split; [lia|].
    intros e' [He| ->%list_elem_of_singleton]%elem_of_app; [|lia]. apply StronglySorted_app_1_l in Hs.
    apply Z.lt_le_incl. apply (StronglySorted_app_1_elem_of _ l [e] e' e Hs); [done|by apply list_elem_of_singleton]. }
  destruct Hlast as [Hr Hle]. unfold order_to_u64. rewrite Z2N.id by lia. rewrite Z.max_l, Z.min_l by lia.
  rewrite List.filter_app.
  assert (Hyes : List.filter (fun e => Z.leb (event_order e) (last_order l)) l = l).
  { clear -Hle. assert (Hg : ∀ z, (∀ e, e ∈ l -> (event_order e <= z)%Z) -> List.filter (fun e => Z.leb (event_order e) z) l = l).
    { clear Hle. intros z. induction l as [|e l IH]; intros Hle; [done|]. cbn [List.filter].
      rewrite (proj2 (Z.leb_le _ _)) by (apply Hle; by left). f_equal. apply IH. intros e' He. apply Hle. by right. }
    by apply Hg. }
  assert (Hno : List.filter (fun e => Z.leb (event_order e) (last_order l)) added = []).
  { assert (Hg : ∀ e, e ∈ added -> (last_order l < event_order e)%Z).
    { intros e He. unfold last_order. destruct (last l) as [e'|] eqn:Hlast; cbn [from_option].
      - apply (StronglySorted_app_1_elem_of _ l added e' e Hs); [|done]. apply last_Some in Hlast as [l' ->].
        rewrite elem_of_app, list_elem_of_singleton. auto.
      - rewrite Forall_forall in Ha. apply Ha in He. lia. }
    clear -Hg. revert Hg. generalize (last_order l) as z. intros z. induction added as [|e added IH]; intros Hg; [done|]. cbn [List.filter].
    rewrite (proj2 (Z.leb_gt _ _)) by (apply Hg; by left). apply IH. intros e' He. apply Hg. by right. }
  by rewrite Hyes, Hno, app_nil_r.
Qed.

Definition live_cmds (xs : list (ConversationItem * option JMap * option HostAssistantIdentity)) : list CaptureCmd :=
  map (fun '(i, u, id) => Persist i u id) xs.
Definition live_items (xs : list (ConversationItem * option JMap * option HostAssistantIdentity)) : list ConversationItem :=
  map (fun '(i, _, _) => i) xs.

Lemma run_items_live xs : run_items (live_cmds xs) = live_items xs.
Proof. induction xs as [|[[i u] id] xs IH]; [done|]. change (i :: run_items (live_cmds xs) = i :: live_items xs). by rewrite IH. Qed.

(** Live items advance the tracker and leave an installed body alone. *)
Lemma run_live xs s w : inv s w -> baseline_poisoned w = false -> roomy (tracker w) (length xs) ->
  let '(s', w') := run (live_cmds xs) (s, w) in
  tracker w' = advance (tracker w) (live_items xs) ∧ installed w' = installed w ∧ baseline_poisoned w' = false.
Proof.
  revert s w. induction xs as [|[[i u] id] xs IH]; intros s w Hi Hp Hroom; [done|].
  assert (Hr1 : roomy (tracker w) 1) by (eapply roomy_le; [|exact Hroom]; cbn; lia).
  pose proof (step_inv (Persist i u id) s w (length xs) Hi Hroom) as Hs. pose proof (persist_spec i u id s w Hi Hr1 Hp) as Hps.
  cbn [live_cmds map]. unfold run. cbn [foldl]. unfold step in Hs |- * at 2. cbn [process_cmd fst snd] in *.
  destruct (process_persist sid i u id s w) as [s1 w1]. destruct Hs as (Hi1 & _ & Hr1' & _).
  destruct Hps as (_ & _ & Ht & Hins & Hp1 & _). specialize (IH s1 w1 Hi1 Hp1 Hr1'). fold (live_cmds xs).
  fold (run (live_cmds xs) (s1, w1)). destruct (run (live_cmds xs) (s1, w1)) as [s2 w2].
  destruct IH as (Ht2 & Hins2 & Hp2). split; [|split; [congruence|done]]. rewrite Ht2, Ht. done.
Qed.

(** The keys a settled capture has counted are stored; those it has not are not. *)
Lemma settled_covers U s w t xs : settled U s w -> deferred_keys w = [] -> counts_fit t xs -> (∀ i, i ∈ xs -> i ∈ U) ->
  le_counts (advance t xs) (tracker w) -> ∀ key, key ∈ history_keys sid ITEM_KEY_GENERATION t xs -> key ∈ stored s.
Proof.
  intros Hset Hd Hfit HU Hle key (i & occ & Hno & Hk)%history_keys_elem.
  pose proof (numbered_range _ _ _ _ Hfit Hno) as [Hin Hr]. specialize (Hle (item_digest i)).
  destruct (st_complete _ _ _ Hset i occ key (HU i Hin) ltac:(lia) Hk) as [Hs|Hs]; [done|].
  rewrite Hd in Hs. by apply elem_of_nil in Hs.
Qed.

Lemma ahead_not_stored s w t ys : inv s w -> counts_fit t ys -> le_counts (tracker w) t ->
  ∀ key, key ∈ history_keys sid ITEM_KEY_GENERATION t ys -> key ∉ stored s.
Proof.
  intros Hi Hfit Hle key (i & occ & Hno & Hkey)%history_keys_elem Hin.
  pose proof (numbered_range _ _ _ _ Hfit Hno) as [_ Hr]. pose proof (inv_below _ _ Hi) as Hb. rewrite Forall_forall in Hb.
  assert (Hmax : (count_of (advance t ys) (item_digest i) <= u64_max)%N).
  { rewrite count_advance by done. specialize (Hfit (item_digest i)). unfold occurrences.
    pose proof (length_filter (fun j => item_digest j = item_digest i) ys). lia. }
  apply item_keys_parse in Hkey; [|lia]. specialize (Hb _ Hin _ _ Hkey). specialize (Hle (item_digest i)). lia.
Qed.

(** C28 A live item is always new. In every state of a capture's worker, over restarts, crashes and
    failing calls (no count of occurrences having run full, and for a session whose encoded identifier is not
    [tool_result]), no key of the next item is stored or kept back, and they are distinct if the item does not call two
    tools under one identifier. While the baseline is not poisoned and the archive answers, each is stored afterwards or
    is the close that is kept back; with a poisoned baseline the item is refused, and nothing is stored. No key is ever stored
    twice. (The states are those of the commands the worker takes: a full queue drops commands before
    that, and poisons the baseline.) *)
Theorem live_items_are_new rel U s w item usage identity : life rel U s w -> roomy (tracker w) 1 ->
  let keys := item_keys sid ITEM_KEY_GENERATION (item_digest item) (count_of (tracker w) (item_digest item)) item in
  let '(s', w') := step (s, w) (Persist item usage identity) in
  (calls_distinct item -> NoDup keys) ∧ (∀ key, key ∈ keys -> key ∉ stored s ∧ key ∉ deferred_keys w)
  ∧ (if baseline_poisoned w then s' = s
     else reliable s -> ∀ key, key ∈ keys -> key ∈ stored s' ∨ key ∈ deferred_keys w')
  ∧ NoDup (stored s').
Proof.
  intros Hlife Hroom keys. destruct (life_inv _ _ _ _ Hlife) as (Hi & _ & _ & _).
  assert (Hc : (count_of (tracker w) (item_digest item) < u64_max)%N) by (specialize (Hroom (item_digest item)); cbn in Hroom; lia).
  assert (Hnew : ∀ key, key ∈ keys -> key ∉ stored s ∧ key ∉ deferred_keys w).
  { intros key Hk. split; [by eapply item_keys_new; [|apply Hi|]|by eapply item_keys_new; [|by eapply deferred_ok|]]. }
  assert (Hnd : calls_distinct item -> NoDup keys) by by apply item_keys_NoDup.
  unfold step. cbn [process_cmd fst snd]. destruct (baseline_poisoned w) eqn:Hp.
  { unfold process_persist. rewrite Hp. split_and!; [done..|apply Hi]. }
  pose proof (persist_spec item usage identity s w Hi Hroom Hp) as Hs.
  destruct (process_persist sid item usage identity s w) as [s' w'].
  destruct Hs as (Hi' & Hg & Ht & _ & _ & Hdef & s1 & s2 & s3 & Hs1 & Hs2 & Hs3 & Hseg & Hg1 & Hg2 & Hg3).
  split; [done|]. split; [done|]. split; [|apply Hi']. intros Hr key Hk.
  assert (Hr2 : reliable s2) by by apply Hg2. assert (Hr3 : reliable s3) by by apply Hg3.
  apply item_keys_split in Hk as [Hk|Hk].
  - left. assert (H3k : key ∈ stored s3) by (rewrite (took_elem _ _ _ key Hr2 Hs3); by right).
    destruct Hseg as [-> |Hseg]; [done|]. rewrite (took_elem _ _ _ key Hr3 Hseg). by left.
  - right. rewrite Hdef. destruct (close_keys_single item (tracker w)) as [Hn|[k Hck]]; rewrite ?Hn, ?Hck in *; [by apply elem_of_nil in Hk|done].
Qed.

(** A history that was captured is all there, and re-mapping it records nothing.
    While no call fails, for every history whose items occur in it no more often
    than the capture has counted them, all keys are stored once the close kept
    back is released, and replacing the history by it adds no event. *)
Theorem captured_history_is_settled U s w h : life true U s w -> collision_free U -> (∀ i, i ∈ h -> i ∈ U) ->
  (N.of_nat (length h) <= u64_max)%N -> roomy (tracker w) (length h) -> installed w = None ->
  (∀ d, (N.of_nat (occurrences d h) <= count_of (tracker w) d)%N) ->
  let '(s1, w1) := step (s, w) Flush in
  (∀ key, key ∈ history_keys sid ITEM_KEY_GENERATION tracker_empty h -> key ∈ stored s1)
  ∧ stored (fst (step (s1, w1) (ReplaceHistory h))) = stored s1.
Proof.
  intros Hlife Hcf HU Hlen Hroom Hins Hocc. pose proof (life_inv _ _ _ _ Hlife) as Hok.
  pose proof (flush_ok _ _ _ _ Hok) as Hf. destruct Hok as (Hi & _ & _ & _). pose proof (flush_inv s w Hi) as Hfl.
  unfold step at 1. cbn [process_cmd fst snd]. destruct (flush_deferred s w) as [s1 w1].
  destruct Hf as [(Hi1 & _ & _ & Hset) Hd1]. specialize (Hset eq_refl Hcf). destruct Hfl as (_ & _ & _ & _ & Ht & Hins1 & _).
  assert (Hfit : counts_fit tracker_empty h) by (intros d; change (count_of tracker_empty d) with 0%N; lia).
  assert (Hall : ∀ key, key ∈ history_keys sid ITEM_KEY_GENERATION tracker_empty h -> key ∈ stored s1).
  { apply (settled_covers U s1 w1); [done..|]. intros d. rewrite Ht, count_advance by done. apply Hocc. }
  split; [exact Hall|]. assert (Hroom1 : roomy (tracker w1) (length h)) by by rewrite Ht.
  pose proof (replace_spec h s1 w1 Hi1 Hroom1) as Hs. unfold step. cbn [process_cmd fst snd].
  destruct (process_replace_history sid h s1 w1) as [s' w']. destruct Hs as (_ & _ & _ & _ & s2 & w2 & Hs2 & Hg2 & Hi2 & Ht2 & Hr).
  pose proof (st_reliable _ _ _ Hset) as Hrel. rewrite Hd1 in Hs2. apply (took _ _ _ Hrel) in Hs2 as Hst2.
  unfold fresh in Hst2. cbn in Hst2. rewrite app_nil_r in Hst2.
  destruct Hr as [(Hn & _)|(events & (t0 & hs & Hsrc & Hk & _) & Hsent & _)]; [done|].
  destruct Hsrc as [_|p head rem t Hp]; [|congruence]. cbn [fst].
  assert (Hrel2 : reliable s2) by by apply Hg2. rewrite (took _ _ _ Hrel2 Hsent), Hk, fresh_none, app_nil_r; [done|].
  intros key Hkey. rewrite Hst2. by apply Hall.
Qed.

(** While no call fails the tracker is the seed of what is stored. *)
Lemma settled_counts U s w d : inv s w -> settled U s w -> count_of (seed_occurrence_from_keys (stored s)) d = count_of (tracker w) d.
Proof.
  intros Hi Hset. pose proof (st_exact _ _ _ Hset d). pose proof (seed_le _ _ (inv_below _ _ Hi) d). lia.
Qed.

Lemma history_keys_counts t t' items : counts_fit t items -> (∀ d, count_of t d = count_of t' d) ->
  history_keys sid ITEM_KEY_GENERATION t items = history_keys sid ITEM_KEY_GENERATION t' items.
Proof. intros Hf Heq. unfold history_keys. by rewrite (numbered_counts t t'). Qed.

(** After a body was installed at the tip and live items followed. *)
Lemma after_install U s w B xs : life true U s w -> collision_free U -> (∀ i, i ∈ live_items xs -> i ∈ U) ->
  roomy (tracker w) (length xs) ->
  let '(s1, w1) := run (WritebackInstalled (mkGenerated B (generation s)) :: live_cmds xs ++ [Flush]) (s, w) in
  inv s1 w1 ∧ settled U s1 w1 ∧ deferred_keys w1 = [] ∧ tracker w1 = advance (tracker w) (live_items xs)
  ∧ installed w1 = Some (prefix_new (mkGenerated B (generation s))) ∧ grew s s1.
Proof.
  intros Hlife Hcf HU Hroom. destruct (life_inv _ _ _ _ Hlife) as (Hi & _ & _ & Hset). specialize (Hset eq_refl Hcf).
  set (w0 := set_installed (Some (prefix_new (mkGenerated B (generation s)))) w).
  assert (Hi0 : inv s w0) by (apply (inv_grow s w); [done..|]; cbn; intros p t [= <-]; done).
  assert (Hset0 : settled U s w0) by (by eapply settled_same; [exact Hset|..|apply Hset]).
  unfold run. cbn [foldl]. unfold step at 2. cbn [process_cmd fst snd]. fold w0. rewrite foldl_app. fold (run (live_cmds xs) (s, w0)).
  assert (Hlen : length (run_items (live_cmds xs)) = length xs) by (rewrite run_items_live; unfold live_items; by rewrite length_map).
  pose proof (run_live xs s w0 Hi0 (st_poison _ _ _ Hset) Hroom) as Hl.
  pose proof (run_inv (live_cmds xs) s w0 0 Hi0 ltac:(by rewrite Hlen, Nat.add_0_r)) as Hri.
  pose proof (run_settled U (live_cmds xs) s w0 0 Hcf ltac:(by rewrite run_items_live) Hi0 ltac:(by rewrite Hlen, Nat.add_0_r) Hset0) as Hrs.
  destruct (run (live_cmds xs) (s, w0)) as [s1 w1]. destruct Hl as (Ht & Hins & Hp). destruct Hri as (Hi1 & Hg1 & Hr1 & _).
  cbn [foldl]. unfold step. cbn [process_cmd fst snd].
  pose proof (flush_inv s1 w1 Hi1) as Hf. destruct (flush_deferred s1 w1) as [s2 w2].
  destruct Hf as (Hi2 & Hs2 & Hth & Hd & Ht2 & Hins2 & _ & Hp2 & Ha). assert (Hg2 : grew s1 s2) by by split.
  split; [done|]. split; [eapply (settled_release U [] s1 s2 w1 w2); [done|by rewrite app_nil_r|done|done|congruence]|].
  split; [unfold deferred_keys; by rewrite Hd|]. split; [by rewrite Ht2|]. split; [by rewrite Hins2, Hins|by etrans].
Qed.

(** C29 What the archive generated is never recorded as source, as long as no call of the archive has failed and no process
    died with a close kept back ([life true]), and no two of the items seen share a digest. After a body
    generated at the present tip was installed and items [xs] went on live, replacing the
    history by the body, these items and further items [ys] records exactly the
    events of [ys], under the keys that live capture would have given them. ([ys] call no two tools under one
    identifier in one item, the counts and the archive's order have room, and the session's encoded identifier is not
    [tool_result]. After a failed submission it does not hold: see [remap_misses_consumed_occurrences].) *)
Theorem generated_body_is_not_source U s w B xs ys : life true U s w -> collision_free U ->
  (∀ i, i ∈ live_items xs ++ ys -> i ∈ U) -> Forall calls_distinct ys ->
  roomy (tracker w) (length xs + length (B ++ live_items xs ++ ys)) -> (last_order (events_of s) <= 2 ^ 63 - 1)%Z ->
  let '(s1, w1) := run (WritebackInstalled (mkGenerated B (generation s)) :: live_cmds xs ++ [Flush]) (s, w) in
  stored (fst (step (s1, w1) (ReplaceHistory (B ++ live_items xs ++ ys))))
  = stored s1 ++ history_keys sid ITEM_KEY_GENERATION (advance (tracker w) (live_items xs)) ys.
Proof.
  intros Hlife Hcf HU Hd Hroom Hmax. destruct (life_inv _ _ _ _ Hlife) as (Hi & _ & Htip & Hset). specialize (Hset eq_refl Hcf).
  assert (Hxs : length (live_items xs) = length xs) by (unfold live_items; by rewrite length_map).
  pose proof (after_install U s w B xs Hlife Hcf ltac:(intros i Hin; apply HU; rewrite elem_of_app; by left)
                ltac:(by eapply roomy_le; [|exact Hroom]; lia)) as Ha.
  destruct (run _ (s, w)) as [s1 w1]. destruct Ha as (Hi1 & Hset1 & Hd1 & Ht1 & Hins1 & Hg1).
  set (h := B ++ live_items xs ++ ys) in *. set (p := prefix_new (mkGenerated B (generation s))) in *.
  assert (Hfit : counts_fit (tracker w) (live_items xs ++ ys)).
  { intros d. specialize (Hroom d). unfold h in Hroom. rewrite !length_app in *. lia. }
  destruct (counts_fit_app _ _ _ Hfit) as [Hfx Hfy].
  assert (Hroom1 : roomy (tracker w1) (length h)).
  { intros d. rewrite Ht1, count_advance by done. specialize (Hroom d). unfold occurrences.
    pose proof (length_filter (fun i => item_digest i = d) (live_items xs)). lia. }
  pose proof (replace_spec h s1 w1 Hi1 Hroom1) as Hs. unfold step. cbn [process_cmd fst snd].
  destruct (process_replace_history sid h s1 w1) as [s' w'].
  destruct Hs as (_ & _ & _ & _ & s2 & w2 & Hs2 & Hg2 & Hi2 & Ht2 & Hr). pose proof (st_reliable _ _ _ Hset1) as Hrel. cbn [fst].
  rewrite Hd1 in Hs2. apply (took _ _ _ Hrel) in Hs2. unfold fresh in Hs2. cbn in Hs2. rewrite app_nil_r in Hs2.
  destruct Hr as [(Hn & _)|(events & (t0 & hs & Hsrc & Hk & _) & Hsent & _)]; [done|].
  assert (Hrel2 : reliable s2) by by apply Hg2. rewrite (took _ _ _ Hrel2 Hsent), Hk, Hs2. f_equal.
  assert (Hsource : hs = live_items xs ++ ys ∧ t0 = seed_occurrence_from_keys (stored s)).
  { pose proof (walk_body (mkGenerated B (generation s)) (live_items xs ++ ys)) as Hwalk. cbn [gp_items] in Hwalk. fold p h in Hwalk.
    rewrite Hins1 in Hi2. destruct Hsrc as [[Hn|(q & i & Hq & Hw)]|q head rem t Hq Hw Ht]; [congruence|rewrite Hi2 in Hq; congruence|].
    rewrite Hi2 in Hq. injection Hq as <-. rewrite Hwalk in Hw. injection Hw as <- <-. split; [unfold h; cbn [app]; by rewrite drop_app_length|].
    destruct Ht as [Ht|[_ ->]]; [done|]. assert (Hg : grew s s2) by by etrans. destruct Hg as [_ [added Hev]]. rewrite Hev.
    cbn [source_tip prefix_new gp_source_tip p]. rewrite Htip. rewrite filter_tip; [done| |done]. rewrite <- Hev. apply events_ordered. }
  destruct Hsource as [-> ->].
  rewrite (history_keys_counts _ (tracker w)); [|by eapply counts_fit_counts; [intros d; symmetry; by eapply settled_counts|]|intros d; by eapply settled_counts].
  rewrite history_keys_app, fresh_app, fresh_none, app_nil_r.
  - apply fresh_all; [by apply history_keys_NoDup|]. apply (ahead_not_stored s1 w1); [done|done|]. by rewrite Ht1.
  - apply (settled_covers U s1 w1); [done|done|done| |by rewrite Ht1]. intros i Hin. apply HU. rewrite elem_of_app. by left.
Qed.
End spec.

(** ** Runs *)

(** An archive in memory that takes every batch. *)
Record MemoryArchive := mkMemory { mem_keys : list str }.

Definition mem_unique (w : MemoryArchive) : list str := fresh [] (mem_keys w).
Fixpoint records_from (n : Z) (keys : list str) : list EventRecord :=
  match keys with [] => [] | k :: keys => mkRecord n k :: records_from (n + 1) keys end.
Definition mem_events (w : MemoryArchive) : list EventRecord := records_from 1 (mem_unique w).

#[export] Instance memory_archive : Archive MemoryArchive := {
  message_events := fun _ evs w =>
    let keys := omap idempotency_key evs in
    let w' := mkMemory (mem_keys w ++ fresh (mem_unique w) keys) in
    (Ok (mkBatch (outcomes (mem_unique w) keys) (last_order (mem_events w'))), w');
  archive_list_events := fun _ w => (Ok (mem_events w), w);
  archive_host_metadata := fun _ w => (Ok (Some 100%Z), w);
  view_profile := fun _ _ => Some (f64_of_N 200, f64_of_N 100);
  set_model := fun _ w => w;
  Receipt := unit;
  archive_compact := fun _ w => (Ok tt, w);
  Reply := unit;
  archive_call := fun _ _ w => (tt, w);
  archive_drain_settled := fun _ w => w;
  file_exists := fun _ _ => false;
  create_dir_all := fun _ w => (true, w);
  threads_info := fun _ w => (Ok [], w);
  threads_resolve := fun _ p w => (Ok p, w);
  resolve_thread_ref := fun _ w => (Ok (lit "t"), w);
  list_threads := fun _ w => (Ok [], w);
  new_thread := fun _ _ _ _ w => (Ok (lit "t"), w);
  path_eqb := str_eqb;
}.

Lemma records_keys n keys : keys_stored (records_from n keys) = keys.
Proof. revert n. induction keys as [|k keys IH]; intros n; [done|]. cbn. f_equal. apply IH. Qed.

Lemma records_app n keys keys' : ∃ added, records_from n (keys ++ keys') = records_from n keys ++ added ∧ keys_stored added = keys'.
Proof.
  revert n. induction keys as [|k keys IH]; intros n; [exists (records_from n keys'); by rewrite records_keys|].
  cbn. destruct (IH (n + 1)%Z) as (added & -> & Ha). by exists added.
Qed.

Lemma records_ordered n keys : (0 < n)%Z -> ordered (records_from n keys) ∧ Forall (fun e => (n <= event_order e)%Z) (records_from n keys).
Proof.
  revert n. induction keys as [|k keys IH]; intros n Hn; [by repeat constructor|]. cbn.
  destruct (IH (n + 1)%Z ltac:(lia)) as [[Hs Hp] Hge]. split; [split|].
  - constructor; [done|]. eapply Forall_impl; [exact Hge|]. cbn. lia.
  - constructor; [done|]. eapply Forall_impl; [exact Hge|]. cbn. lia.
  - constructor; [cbn; lia|]. eapply Forall_impl; [exact Hge|]. cbn. lia.
Qed.

Lemma mem_unique_take w keys :
  mem_unique (mkMemory (mem_keys w ++ fresh (mem_unique w) keys)) = mem_unique w ++ fresh (mem_unique w) keys.
Proof.
  unfold mem_unique at 1. cbn [mem_keys]. rewrite fresh_app. cbn [app]. fold (mem_unique w). f_equal.
  apply fresh_all; [apply fresh_NoDup|]. intros k Hk. by apply fresh_elem in Hk as [_ ?].
Qed.

#[export] Instance memory_archive_laws : ArchiveLaws MemoryArchive.
Proof.
  refine {| stored_events := fun _ w => mem_events w |}.
  - intros _ w. by apply records_ordered.
  - intros _ w. unfold mem_events. rewrite records_keys. apply fresh_NoDup.
  - intros t evs w b w' [= <- <-]. set (new := fresh (mem_unique w) (omap idempotency_key evs)).
    destruct (records_app 1 (mem_unique w) new) as (added & Ha & Hk). exists added.
    split; [unfold mem_events at 1; unfold new; rewrite mem_unique_take; exact Ha|].
    assert (Hst : keys_stored (mem_events w) = mem_unique w) by apply records_keys. rewrite Hst. by split.
  - intros t evs w e w' [=].
  - intros t w. split; [by intros l [= <-]|done].
  - done.
  - done.
  - done.
  - done.
  - done.
Defined.

Definition demo_session : LhcSession MemoryArchive := mkSession (lit "s") (mkMemory []) (FilePath (lit "t")) 0 0 false 0 None.
Definition demo_start : LhcSession MemoryArchive * Worker := start_worker (lit "s") [] None (demo_session, seed_occurrence_from_keys []).
Definition demo_live : list (ConversationItem * option JMap * option HostAssistantIdentity) := map (fun i => (i, None, None)) demo_items.
Definition demo_state : LhcSession MemoryArchive * Worker := run (lit "s") (live_cmds demo_live) demo_start.

Lemma demo_sid : encode_session_id (lit "s") ≠ lit "tool_result".
Proof. by vm_compute. Qed.

Lemma demo_reliable : reliable demo_session.
Proof. split; [done|]. split; intros; do 2 eexists; reflexivity. Qed.

Lemma demo_roomy n : (N.of_nat n <= u64_max)%N -> roomy (tracker (snd demo_start)) n.
Proof. intros Hn d. change (count_of (tracker (snd demo_start)) d) with 0%N. lia. Qed.

Lemma demo_new U : life (lit "s") true U (fst demo_start) (snd demo_start).
Proof.
  eapply (life_new _ _ _ demo_session []); [done|done|intros _; apply demo_reliable|intros i Hin; by apply elem_of_nil in Hin|by vm_compute|reflexivity].
Qed.

Lemma demo_life : life (lit "s") true demo_items (fst demo_state) (snd demo_state).
Proof.
  pose proof (life_run (lit "s") demo_sid true demo_items (live_cmds demo_live) _ _ (demo_new demo_items)) as Hl. rewrite run_items_live in Hl.
  assert (Hroom : roomy (tracker (snd demo_start)) (length (live_items demo_live))) by (apply demo_roomy; by vm_compute).
  specialize (Hl ltac:(by intros i Hin) Hroom). unfold demo_state. by destruct (run _ _ _).
Qed.

Lemma collision_free_decided U : Forall (fun i => Forall (fun j => item_digest i = item_digest j -> i = j) U) U -> collision_free U.
Proof. intros Hall i j Hi Hj. rewrite Forall_forall in Hall. specialize (Hall i Hi). rewrite Forall_forall in Hall. by apply Hall. Qed.

Lemma demo_cf : collision_free demo_items.
Proof. apply collision_free_decided. by_decide. Qed.

Lemma demo_start_tracker : tracker (snd demo_start) = tracker_empty.
Proof. by vm_compute. Qed.

Lemma demo_start_inv : inv (fst demo_start) (snd demo_start).
Proof. destruct (life_inv (lit "s") demo_sid _ _ _ _ (demo_new [])) as [Hi _]. exact Hi. Qed.

Lemma demo_tracker d : count_of (tracker (snd demo_state)) d = N.of_nat (occurrences d demo_items).
Proof.
  assert (Hp : baseline_poisoned (snd demo_start) = false) by by vm_compute.
  assert (Hroom : roomy (tracker (snd demo_start)) (length demo_live)) by (apply demo_roomy; by vm_compute).
  assert (Ht : tracker (snd demo_state) = advance (tracker (snd demo_start)) demo_items).
  { pose proof (run_live (lit "s") demo_sid demo_live _ _ demo_start_inv Hp Hroom) as Hr. rewrite <- surjective_pairing in Hr.
    unfold demo_state. destruct (run _ _ _) as [s w]. destruct Hr as (Ht & _). exact Ht. }
  rewrite Ht, demo_start_tracker. rewrite count_advance; [apply N.add_0_l|]. intros d'.
  pose proof (length_filter (fun i => item_digest i = d') demo_items).
  change (length demo_items) with 5 in *. unfold occurrences. change (count_of tracker_empty d') with 0%N. lia.
Qed.

Lemma demo_state_roomy n : (N.of_nat n <= 1000)%N -> roomy (tracker (snd demo_state)) n.
Proof.
  intros Hn d. rewrite demo_tracker. unfold occurrences. pose proof (length_filter (fun i => item_digest i = d) demo_items).
  change (length demo_items) with 5 in *. lia.
Qed.

Lemma live_items_are_new_witness :
  NoDup (item_keys (lit "s") ITEM_KEY_GENERATION (item_digest (item_user (lit "hi"))) (count_of (tracker (snd demo_state)) (item_digest (item_user (lit "hi")))) (item_user (lit "hi"))).
Proof.
  pose proof (live_items_are_new (lit "s") demo_sid true demo_items (fst demo_state) (snd demo_state) (item_user (lit "hi")) None None demo_life
    (demo_state_roomy 1 ltac:(done))) as Hn.
  cbv zeta in Hn. destruct (step _ _ _). destruct Hn as (Hn & _). exact (Hn I).
Defined.

Lemma captured_history_is_settled_witness :
  let '(s1, w1) := step (lit "s") demo_state Flush in
  stored (fst (step (lit "s") (s1, w1) (ReplaceHistory demo_items))) = stored s1.
Proof.
  assert (Hlen : (N.of_nat (length demo_items) <= u64_max)%N) by by vm_compute.
  assert (Hins : installed (snd demo_state) = None) by by vm_compute.
  assert (Hroom : roomy (tracker (snd demo_state)) (length demo_items)) by by apply demo_state_roomy.
  assert (Hocc : ∀ d, (N.of_nat (occurrences d demo_items) <= count_of (tracker (snd demo_state)) d)%N)
    by (intros d; by rewrite demo_tracker).
  pose proof (captured_history_is_settled (lit "s") demo_sid demo_items (fst demo_state) (snd demo_state) demo_items demo_life demo_cf
    (fun i Hi => Hi) Hlen Hroom Hins Hocc) as Hs.
  rewrite <- surjective_pairing in Hs. destruct (step (lit "s") demo_state Flush). by destruct Hs.
Defined.

Lemma generated_body_is_not_source_witness :
  let '(s, w) := demo_state in
  let body := [item_user (lit "summary")] in
  let xs := [(item_assistant (lit "hello"), None, None)] in
  let '(s1, w1) := run (lit "s") (WritebackInstalled (mkGenerated body (generation s)) :: live_cmds xs ++ [Flush]) (s, w) in
  stored (fst (step (lit "s") (s1, w1) (ReplaceHistory (body ++ live_items xs ++ [item_user (lit "hi")]))))
  = stored s1 ++ history_keys (lit "s") ITEM_KEY_GENERATION (advance (tracker w) (live_items xs)) [item_user (lit "hi")].
Proof.
  rewrite (surjective_pairing demo_state).
  apply (generated_body_is_not_source (lit "s") demo_sid demo_items (fst demo_state) (snd demo_state) [item_user (lit "summary")]
    [(item_assistant (lit "hello"), None, None)] [item_user (lit "hi")] demo_life demo_cf).
  - apply Forall_forall. by_decide.
  - by repeat constructor.
  - by apply demo_state_roomy.
  - by vm_compute.
Defined.

(** *** Where the code and its comments part *)

(** A baseline that was queued before lifts the poison of a baseline that was dropped:
    the queue is full, the second replacement is dropped and poisons the baseline,
    and the worker, taking the first one, lifts it. *)
Lemma poison_is_lifted_early {W} `{Archive W, ItemDigest, JsonText, SearchActionJson} (sid : str) A B rest (c : Capture) :
  queue c = ReplaceHistory A :: rest -> length (queue c) = CAPTURE_QUEUE_CAP -> closed c = false ->
  let c' := handle_replace_history B c in
  queue c' = queue c ∧ baseline_poisoned (worker c') = true ∧ baseline_poisoned (worker (worker_step sid c')) = false.
Proof.
  intros Hq Hl Hc c'. assert (Hs : c' = on_worker (fun w => note_dropped (set_poisoned true w)) c).
  { unfold c', handle_replace_history, send_or_poison, try_send. by rewrite Hc, Hl. }
  rewrite Hs. split; [done|]. split; [done|]. unfold worker_step, on_worker. cbn [queue worker worker_session closed]. rewrite Hq.
  cbn [process_cmd]. unfold process_replace_history. destruct (flush_deferred _ _) as [s w].
  by destruct (remap_slice _ _ _ _) as [[[events|e] s'] w'].
Qed.

(** The memory, failing as planned. *)
Record FlakyArchive := mkFlaky { fl_memory : MemoryArchive; fl_plan : list bool }.

#[export] Instance flaky_archive : Archive FlakyArchive := {
  message_events := fun t evs w =>
    match fl_plan w with
    | true :: plan => (Err (lit "busy"), mkFlaky (fl_memory w) plan)
    | plan => let '(r, m) := message_events t evs (fl_memory w) in (r, mkFlaky m (tail plan))
    end;
  archive_list_events := fun _ w => (Ok (mem_events (fl_memory w)), w);
  archive_host_metadata := fun _ w => (Ok None, w);
  view_profile := fun _ _ => None;
  set_model := fun _ w => w;
  Receipt := unit;
  archive_compact := fun _ w => (Ok tt, w);
  Reply := unit;
  archive_call := fun _ _ w => (tt, w);
  archive_drain_settled := fun _ w => w;
  file_exists := fun _ _ => false;
  create_dir_all := fun _ w => (true, w);
  threads_info := fun _ w => (Ok [], w);
  threads_resolve := fun _ p w => (Ok p, w);
  resolve_thread_ref := fun _ w => (Ok (lit "t"), w);
  list_threads := fun _ w => (Ok [], w);
  new_thread := fun _ _ _ _ w => (Ok (lit "t"), w);
  path_eqb := str_eqb;
}.

(** An item whose first submission failed: the frozen baseline does not know the
    occurrence that was consumed, and the re-map records the item again. *)
Lemma remap_misses_consumed_occurrences :
  let x := item_user (lit "hi") in
  let body := [item_user (lit "summary")] in
  let start := start_worker (lit "s") [] None (mkSession (lit "s") (mkFlaky (mkMemory []) [true]) (FilePath (lit "t")) 0 0 false 0 None, tracker_empty) in
  let '(s1, w1) := run (lit "s") [Persist x None None; WritebackInstalled (mkGenerated body 0); Persist x None None] start in
  let s2 := fst (step (lit "s") (s1, w1) (ReplaceHistory (body ++ [x]))) in
  mem_unique (fl_memory (lhc s1)) = item_keys (lit "s") 0 (item_digest x) 1 x
  ∧ mem_unique (fl_memory (lhc s2)) = item_keys (lit "s") 0 (item_digest x) 1 x ++ item_keys (lit "s") 0 (item_digest x) 0 x.
Proof. by vm_compute. Qed.
