(* ===== verification/LhcServing.v ===== *)
(** * Serving a conversation from the archive

    [grok-lhc-host/src/serving.rs]: the view of a thread is translated into items of
    the host, its notes are aligned with the host's own items, prompt markers are
    taken over from the native conversation, and the result is substituted into a
    request or written back as the new native conversation. [compact.rs]: who
    writes a compaction. [lib.rs]: the entries that fetch a view. *)

From S2P Require Import Prelude RustStr Json Conversation ChatTypes LhcKeys LhcMapping LhcSession LhcCapture.

(** ** The view of a thread *)

(** The data of the archive's crate, with the fields the source reads. A source is
    given by the identifier of its message. *)
Inductive MessageKind := UserPrompt | RuntimeNote | OtherMessage (kind : str).

Record SessionUserMessage := mkUserMessage {
  um_content : str;
  um_blocks : option (list JMap);
  um_sources : list str;
}.

Inductive SessionAssistantPartType := PText | PThinking | PToolCall | POther.

Record SessionAssistantPart := mkPart {
  p_type : SessionAssistantPartType;
  p_text : option str;
  p_thinking : option str;
  p_signature : option str;
  p_call_id : option str;
  p_tool_name : option str;
  p_arguments : option JMap;
  p_block : option JMap;
}.

Record SessionAssistantMessage := mkAssistantMessage {
  am_content : list SessionAssistantPart;
  am_provider : option str;
  am_model : option str;
  am_api : option str;
}.

Record SessionToolResultMessage := mkResultMessage {
  rm_call_id : str;
  rm_content : str;
  rm_blocks : option (list JMap);
}.

Inductive ViewEntry :=
  | VUser (u : SessionUserMessage)
  | VAssistant (a : SessionAssistantMessage)
  | VToolResult (r : SessionToolResultMessage)
  | VModelChange (provider model_id : str)
  | VThinkingLevelChange (level : str).

(** [lhc::shared_tech::content_blocks::placeholder_text]. *)
Class BlockText := placeholder_text : json -> str.

(** Source: crates/lhc/grok-lhc-host/src/serving.rs:44-47, [SourceKindIndex]. *)
Definition SourceKindIndex : Type := gmap str MessageKind.

(** Source: crates/lhc/grok-lhc-host/src/serving.rs:54-60, [SourceKindIndex::from_message_records]. *)
Definition from_message_records (records : list (str * MessageKind)) : SourceKindIndex :=
  foldl (fun m '(id, kind) => <[id := kind]> m) ∅ records.

(** Source: crates/lhc/grok-lhc-host/src/serving.rs:93-104, [SourceKindIndex::is_recorded_user_prompt]. *)
Definition is_recorded_user_prompt (kinds : SourceKindIndex) (sources : list str) : bool :=
  if is_empty sources then false
  else forallb (fun id => match kinds !! id with Some UserPrompt => true | _ => false end) sources.

(** Source: crates/lhc/grok-lhc-host/src/serving.rs:116-123, [ViewTranslateMode]. *)
Inductive ViewTranslateMode := Serve | Writeback.

(** Source: crates/lhc/grok-lhc-host/src/serving.rs:126-132, [ServeDecision]. *)
Inductive ServeDecision :=
  | Substitute (items : list ConversationItem)
  | Native (reason : str).

(** Source: crates/lhc/grok-lhc-host/src/serving.rs:135-140, [LastServeOutcome]. *)
Record LastServeOutcome := mkOutcome { substituted : bool; serve_reason : option str }.

(** The outcomes by session.

    Source: crates/lhc/grok-lhc-host/src/serving.rs:151-165, [note_last_serve]. *)
Definition note_last_serve (session_id : str) (d : ServeDecision) (m : gmap str LastServeOutcome) : gmap str LastServeOutcome :=
  <[session_id := match d with
                  | Substitute _ => mkOutcome true None
                  | Native reason => mkOutcome false (Some reason)
                  end]> m.

(** Source: crates/lhc/grok-lhc-host/src/serving.rs:168-173, [last_serve_outcome]. *)
Definition last_serve_outcome (session_id : str) (m : gmap str LastServeOutcome) : option LastServeOutcome := m !! session_id.

(** Source: crates/lhc/grok-lhc-host/src/serving.rs:179-183, [clear_last_serve_outcome]. *)
Definition clear_last_serve_outcome (session_id : str) (m : gmap str LastServeOutcome) : gmap str LastServeOutcome :=
  delete session_id m.

(** ** The native side *)

Fixpoint split_system_prefix_from (in_prefix : bool) (native : list ConversationItem)
    : list ConversationItem * list ConversationItem :=
  match native with
  | [] => ([], [])
  | item :: native =>
      match item, in_prefix with
      | CSystem _, true => let '(prefix, rest) := split_system_prefix_from true native in (item :: prefix, rest)
      | _, _ => let '(prefix, rest) := split_system_prefix_from false native in (prefix, item :: rest)
      end
  end.

(** Source: crates/lhc/grok-lhc-host/src/serving.rs:186-202, [split_system_prefix]. *)
Definition split_system_prefix (native : list ConversationItem) : list ConversationItem * list ConversationItem :=
  split_system_prefix_from true native.

(** A human prompt. *)
Definition is_human_item (i : ConversationItem) : bool := match i with CUser u => is_human (u_reason u) | _ => false end.

(** Source: crates/lhc/grok-lhc-host/src/serving.rs:205-213, [native_prompt_indices]. *)
Definition native_prompt_indices (native : list ConversationItem) : list nat :=
  omap (fun i => match i with CUser u => if is_human (u_reason u) then u_prompt_index u else None | _ => None end) native.

(** The positions of the human prompts. *)
Fixpoint user_slots (idx : nat) (body : list ConversationItem) : list nat :=
  match body with
  | [] => []
  | i :: body => if is_human_item i then idx :: user_slots (S idx) body else user_slots (S idx) body
  end.

(** Source: crates/lhc/grok-lhc-host/src/serving.rs:219-239, [assign_prompt_indices_from_tail]. *)
Definition assign_prompt_indices_from_tail (body : list ConversationItem) (indices : list nat) : list ConversationItem :=
  let slots := user_slots 0 body in
  if is_empty slots || is_empty indices then body
  else
    let n := Nat.min (length slots) (length indices) in
    let native_tail := drop (length indices - n) indices in
    let body_tail := drop (length slots - n) slots in
    foldl (fun body '(slot, pi) => alter (fun i => set_prompt_index i pi) slot body) body (zip body_tail native_tail).

(** Source: crates/lhc/grok-lhc-host/src/serving.rs:245-245, [RUNTIME_NOTE_PREFIX]. *)
Definition RUNTIME_NOTE_PREFIX : str := lit "[runtime note] ".

(** Source: crates/lhc/grok-lhc-host/src/serving.rs:249-260, [runtime_note_text]. *)
Definition runtime_note_text (item : ConversationItem) : option str :=
  match item with
  | CUser u =>
      if is_human (u_reason u) then None
      else match u_content u with [TextPart text] => strip_prefix RUNTIME_NOTE_PREFIX text | _ => None end
  | _ => None
  end.

(** Source: crates/lhc/grok-lhc-host/src/serving.rs:263-272, [user_item_text]. *)
Definition user_item_text (u : UserItem) : str :=
  join nl (map (fun p => match p with TextPart text => text | ImagePart _ => lit "[image]" end) (u_content u)).

(** Source: crates/lhc/grok-lhc-host/src/serving.rs:277-296, [same_host_item]. *)
Definition same_host_item (a b : ConversationItem) : bool :=
  match a, b with
  | CUser x, CUser y =>
      Bool.eqb (is_human (u_reason x)) (is_human (u_reason y)) && str_eqb (user_item_text x) (user_item_text y)
  | CAssistant x, CAssistant y =>
      str_eqb (a_content x) (a_content y) && Nat.eqb (length (a_tool_calls x)) (length (a_tool_calls y))
      && forallb (fun '(p, q) => str_eqb (tc_id p) (tc_id q)) (zip (a_tool_calls x) (a_tool_calls y))
  | CToolResult x, CToolResult y => str_eqb (tr_tool_call_id x) (tr_tool_call_id y)
  | _, _ => false
  end.

(** [iter().position(f)]. *)
Fixpoint position {A} (f : A -> bool) (l : list A) : option nat :=
  match l with
  | [] => None
  | x :: l => if f x then Some 0 else S <$> position f l
  end.

(** [body.remove(i)] and [body.insert(i, x)] in range. *)
Definition remove_at {A} (i : nat) (l : list A) : list A := take i l ++ drop (S i) l.
Definition insert_at {A} (i : nat) (x : A) (l : list A) : list A := take i l ++ x :: drop i l.

(** A synthetic user item with this text. *)
Definition is_synthetic_text (text : str) (n : ConversationItem) : bool :=
  match n with CUser u => negb (is_human (u_reason u)) && str_eqb (user_item_text u) text | _ => false end.

(** The first synthetic item with this text, and its position. *)
Definition counterpart (text : str) (rest : list ConversationItem) : option (nat * ConversationItem) :=
  j ← position (is_synthetic_text text) rest; pair j <$> rest !! j.

(** Where a note belongs: after the item that precedes its counterpart. *)
Definition note_target (rest body : list ConversationItem) (j : nat) : option nat :=
  match j with
  | O => Some 0
  | S k => match rest !! k with Some anchor => S <$> position (fun b => same_host_item b anchor) body | None => None end
  end.

(** Each round moves [i] forward, so the length of the body is enough fuel.

    Source: crates/lhc/grok-lhc-host/src/serving.rs:327-366, [align_runtime_notes_with_native]. *)
Fixpoint align_loop (fuel : nat) (rest body : list ConversationItem) (i : nat) : list ConversationItem :=
  match fuel with
  | O => body
  | S fuel =>
      match body !! i with
      | None => body
      | Some item =>
          match runtime_note_text item with
          | None => align_loop fuel rest body (S i)
          | Some text =>
              match counterpart text rest with
              | None => align_loop fuel rest body (S i)
              | Some (j, native_item) =>
                  match note_target rest body j with
                  | Some t =>
                      if Nat.ltb i t then align_loop fuel rest (insert_at (t - 1) native_item (remove_at i body)) t
                      else if Nat.eqb t 0 && negb (Nat.eqb i 0)
                      then align_loop fuel rest (insert_at 0 native_item (remove_at i body)) (S i)
                      else align_loop fuel rest (<[i := native_item]> body) (S i)
                  | None => align_loop fuel rest (<[i := native_item]> body) (S i)
                  end
              end
          end
      end
  end.

(** Whether a system item of the prefix has this text. *)
Definition in_system_prefix (prefix : list ConversationItem) (text : str) : bool :=
  existsb (fun sys => match sys with CSystem s => str_eqb (sys_content s) text | _ => false end) prefix.

(** Source: crates/lhc/grok-lhc-host/src/serving.rs:316-367, [align_runtime_notes_with_native]. *)
Definition align_runtime_notes_with_native (body native : list ConversationItem) : list ConversationItem :=
  let '(system_prefix, rest) := split_system_prefix native in
  let body :=
    List.filter (fun item => match runtime_note_text item with
                             | Some text => negb (in_system_prefix system_prefix text)
                             | None => true
                             end) body in
  align_loop (length body) rest body 0.

(** ** Translation *)

(** Source: crates/lhc/grok-lhc-host/src/serving.rs:373-375, [is_band_user]. *)
Definition is_band_user (u : SessionUserMessage) : bool := is_empty (um_sources u).

Section translate.
Context `{BlockText, JsonText}.

(** Source: crates/lhc/grok-lhc-host/src/serving.rs:612-646, [content_parts_from_blocks]. *)
Definition content_parts_from_blocks (blocks : list JMap) : list ContentPart :=
  concat (map (fun block =>
    match map_get (lit "type") block ≫= as_str with
    | Some ty =>
        if str_eqb ty (lit "text") then [TextPart (default [] (map_get (lit "text") block ≫= as_str))]
        else if str_eqb ty (lit "image") then
          match image_block_url block with
          | Some url => [ImagePart url]
          | None => [TextPart (placeholder_text (JObject block))]
          end
        else let line := placeholder_text (JObject block) in if is_empty line then [] else [TextPart line]
    | None => let line := placeholder_text (JObject block) in if is_empty line then [] else [TextPart line]
    end) blocks).

(** Source: crates/lhc/grok-lhc-host/src/serving.rs:651-663, [tool_result_parts_from_blocks]. *)
Definition tool_result_parts_from_blocks (blocks : list JMap) : str * list ContentPart :=
  let parts := content_parts_from_blocks blocks in
  (join nl (omap part_text parts), List.filter is_image_part parts).

(** The text, the calls and the items of the parts seen so far. *)
Record Emitted := mkEmitted { text_parts : list str; tool_calls : list ToolCall; reasonings : list ConversationItem }.

(** A block of thinking; its signature only goes out to the identity it came from.

    Source: crates/lhc/grok-lhc-host/src/serving.rs:539-561, [emit_assistant_conserved]. *)
Definition emit_thinking (reemit_signature : bool) (p : SessionAssistantPart) : list ConversationItem :=
  let stored := p_signature p ≫= fun s => if is_empty s then None else Some s in
  let signature := if reemit_signature then stored else None in
  match p_thinking p, signature with
  | None, None => []
  | thinking, signature =>
      let item := synthesized_reasoning_item (default [] thinking) in
      [CReasoning match signature with
                  | Some sig => mkReasoning (r_id item) (r_summary item) (r_content item) (Some sig)
                  | None => item
                  end]
  end.

Definition emit_part (reemit_signature : bool) (e : Emitted) (p : SessionAssistantPart) : Emitted :=
  match p_type p with
  | PText =>
      match p_text p with
      | Some t => if is_empty t then e else mkEmitted (text_parts e ++ [t]) (tool_calls e) (reasonings e)
      | None => e
      end
  | PThinking => mkEmitted (text_parts e) (tool_calls e) (reasonings e ++ emit_thinking reemit_signature p)
  | PToolCall =>
      let name := default (lit "unknown_tool") (p_tool_name p) in
      let id := default (lit "unknown_call") (p_call_id p) in
      let args := match p_arguments p with Some m => json_to_string (JObject m) | None => lit "{}" end in
      mkEmitted (text_parts e) (tool_calls e ++ [mkToolCall id name args]) (reasonings e)
  | POther =>
      let placeholder := match p_block p with Some block => placeholder_text (JObject block) | None => [] end in
      let line := match p_text p with Some t => if is_empty t then placeholder else t | None => placeholder end in
      if is_empty line then e else mkEmitted (text_parts e ++ [line]) (tool_calls e) (reasonings e)
  end.

(** Source: crates/lhc/grok-lhc-host/src/serving.rs:511-607, [emit_assistant_conserved]. *)
Definition emit_assistant_conserved (a : SessionAssistantMessage) (live_identity : option HostAssistantIdentity)
    : list ConversationItem :=
  let stored := mkIdentity (default [] (am_provider a)) (am_model a) (am_api a) in
  let reemit_signature := match live_identity with Some live => matches_live stored live | None => false end in
  let e := foldl (emit_part reemit_signature) (mkEmitted [] [] []) (am_content a) in
  let content := join nl (text_parts e) in
  if is_empty content && is_empty (tool_calls e) then reasonings e
  else
    let model_id := am_model a ≫= fun m => if is_empty m then None else Some m in
    reasonings e ++ [CAssistant (mkAssistant content (tool_calls e) model_id None None)].

Definition flush_bands (mode : ViewTranslateMode) (out : list ConversationItem) (band_chunks : list str)
    : list ConversationItem :=
  if is_empty band_chunks then out
  else match mode with
       | Serve => out ++ map item_user_meta band_chunks
       | Writeback => out ++ [item_user_meta (join (nl ++ nl) band_chunks)]
       end.

Definition prompt_item (u : SessionUserMessage) : ConversationItem :=
  match um_blocks u with
  | Some blocks => item_user_with_parts (content_parts_from_blocks blocks)
  | None => item_user (um_content u)
  end.

Definition result_item (r : SessionToolResultMessage) : ConversationItem :=
  match rm_blocks r with
  | Some blocks =>
      let '(content, images) := tool_result_parts_from_blocks blocks in
      item_tool_result_with_images (rm_call_id r) content images
  | None => item_tool_result (rm_call_id r) (rm_content r)
  end.

(** An entry that is not a band.

    Source: crates/lhc/grok-lhc-host/src/serving.rs:440-497, [session_view_to_items]. *)
Definition entry_items (kinds : SourceKindIndex) (live_identity : option HostAssistantIdentity) (entry : ViewEntry)
    : list ConversationItem :=
  match entry with
  | VUser u => [if is_recorded_user_prompt kinds (um_sources u) then prompt_item u else item_user_meta (um_content u)]
  | VAssistant a => emit_assistant_conserved a live_identity
  | VToolResult r => [result_item r]
  | VModelChange provider model_id => [item_user_meta (lit "[model change] " ++ provider ++ lit "/" ++ model_id)]
  | VThinkingLevelChange level => [item_user_meta (lit "[thinking level change] " ++ level)]
  end.

(** Bands are gathered; any other entry flushes them.

    Source: crates/lhc/grok-lhc-host/src/serving.rs:434-497, [session_view_to_items]. *)
Definition view_step (kinds : SourceKindIndex) (mode : ViewTranslateMode) (live_identity : option HostAssistantIdentity)
    (st : list ConversationItem * list str) (entry : ViewEntry) : list ConversationItem * list str :=
  let '(out, bands) := st in
  match entry with
  | VUser u => if is_band_user u then (out, bands ++ [um_content u])
               else (flush_bands mode out bands ++ entry_items kinds live_identity entry, [])
  | _ => (flush_bands mode out bands ++ entry_items kinds live_identity entry, [])
  end.

(** Source: crates/lhc/grok-lhc-host/src/serving.rs:403-501, [session_view_to_items]. *)
Definition session_view_to_items (view : list ViewEntry) (kinds : SourceKindIndex) (mode : ViewTranslateMode)
    (live_identity : option HostAssistantIdentity) : result (list ConversationItem) str :=
  let '(out, bands) := foldl (view_step kinds mode live_identity) ([], []) view in
  Ok (flush_bands mode out bands).

(** ** Substitution and write-back *)

(** Alignment, markers and the host's own prefix around a translated body. *)
Definition place_body (body native : list ConversationItem) : list ConversationItem :=
  let body := align_runtime_notes_with_native body native in
  let body := assign_prompt_indices_from_tail body (native_prompt_indices native) in
  fst (split_system_prefix native) ++ body.

(** Source: crates/lhc/grok-lhc-host/src/serving.rs:669-690, [build_writeback_conversation]. *)
Definition build_writeback_conversation (native_before : list ConversationItem) (view : list ViewEntry)
    (kinds : SourceKindIndex) : result (list ConversationItem) str :=
  match session_view_to_items view kinds Writeback None with
  | Err e => Err e
  | Ok body => if is_empty body then Err (lit "empty_lhc_context") else Ok (place_body body native_before)
  end.

(** Source: crates/lhc/grok-lhc-host/src/serving.rs:717-725, [body_has_tool_cycle]. *)
Definition body_has_tool_cycle (items : list ConversationItem) : bool :=
  existsb (fun item =>
    match item with
    | CToolResult _ | CBackendToolCall _ => true
    | CAssistant a => negb (is_empty (a_tool_calls a))
    | CSystem _ | CUser _ | CReasoning _ => false
    end) items.

(** Source: crates/lhc/grok-lhc-host/src/serving.rs:728-758, [decide_substitution]. *)
Definition decide_substitution (native_items : list ConversationItem) (view : list ViewEntry) (kinds : SourceKindIndex)
    (live_identity : option HostAssistantIdentity) : ServeDecision :=
  match session_view_to_items view kinds Serve live_identity with
  | Err _ => Native (lit "context_translation_failed")
  | Ok body => if is_empty body then Native (lit "empty_lhc_context") else Substitute (place_body body native_items)
  end.

(** Source: crates/lhc/grok-lhc-host/src/serving.rs:761-772, [apply_serve_decision]. *)
Definition apply_serve_decision (native_items : list ConversationItem) (d : ServeDecision) : list ConversationItem * bool :=
  match d with Substitute items => (items, true) | Native _ => (native_items, false) end.

(** What the worker answers to a request for the view and the kinds. *)
Inductive ContextAnswer :=
  | Answered (r : result (list ViewEntry * SourceKindIndex) str)
  | TimedOut.

(** With the handle found for the session, if any, and its answer.

    Source: crates/lhc/grok-lhc-host/src/lib.rs:232-269, [serve_request_context_inner]. *)
Definition serve_request_context_inner (native_items : list ConversationItem) (live_identity : option HostAssistantIdentity)
    (handle : option ContextAnswer) : ServeDecision :=
  match handle with
  | None => Native (lit "no_capture_handle")
  | Some (Answered (Ok (view, kinds))) => decide_substitution native_items view kinds live_identity
  | Some (Answered (Err _)) => Native (lit "get_classify_context_failed")
  | Some TimedOut => Native (lit "get_classify_context_timeout")
  end.

(** Source: crates/lhc/grok-lhc-host/src/lib.rs:213-230, [serve_request_context]. *)
Definition serve_request_context (session_id : str) (native_items : list ConversationItem)
    (live_identity : option HostAssistantIdentity) (active : bool) (handle : option ContextAnswer)
    (outcomes : gmap str LastServeOutcome) : ServeDecision * gmap str LastServeOutcome :=
  if negb active then (Native (lit "lhc_inactive"), outcomes)
  else
    let d := serve_request_context_inner native_items live_identity handle in
    (d, note_last_serve session_id d outcomes).
End translate.

(** ** Who writes a compaction *)

(** Source: crates/lhc/grok-lhc-host/src/compact.rs:10-16, [CompactMode]. *)
Inductive CompactMode := Off | Replace.

(** Source: crates/lhc/grok-lhc-host/src/compact.rs:27-29, [CompactMode::native_writes]. *)
Definition native_writes (m : CompactMode) : bool := match m with Off => true | Replace => false end.

(** Source: crates/lhc/grok-lhc-host/src/compact.rs:32-34, [CompactMode::lhc_writes]. *)
Definition lhc_writes (m : CompactMode) : bool := match m with Replace => true | Off => false end.

(** Source: crates/lhc/grok-lhc-host/src/compact.rs:38-44, [CompactBridgePlan]. *)
Inductive CompactBridgePlan := NativeOnly | ReplaceOnceAtChoke.

(** Source: crates/lhc/grok-lhc-host/src/compact.rs:47-52, [CompactBridgePlan::from_mode]. *)
Definition plan_from_mode (m : CompactMode) : CompactBridgePlan :=
  match m with Off => NativeOnly | Replace => ReplaceOnceAtChoke end.

(** Source: crates/lhc/grok-lhc-host/src/compact.rs:55-57, [CompactBridgePlan::may_replace]. *)
Definition may_replace (p : CompactBridgePlan) : bool := match p with ReplaceOnceAtChoke => true | NativeOnly => false end.

(** Source: crates/lhc/grok-lhc-host/src/compact.rs:62-70, [CompactEventBridge]. *)
Record CompactEventBridge := mkBridge { plan : CompactBridgePlan; lhc_attempts : N; fail_open : bool; lhc_wrote : bool }.

(** Source: crates/lhc/grok-lhc-host/src/compact.rs:73-81, [CompactChokeAction]. *)
Inductive CompactChokeAction := RunNative | SkipNativeLhcWrote | SkipNativePending.

(** Source: crates/lhc/grok-lhc-host/src/compact.rs:84-91, [CompactEventBridge::new]. *)
Definition bridge_new (m : CompactMode) : CompactEventBridge := mkBridge (plan_from_mode m) 0 false false.

(** Source: crates/lhc/grok-lhc-host/src/compact.rs:110-112, [CompactEventBridge::should_attempt_replace]. *)
Definition should_attempt_replace (b : CompactEventBridge) : bool :=
  may_replace (plan b) && negb (fail_open b) && negb (lhc_wrote b) && N.eqb (lhc_attempts b) 0.

(** Source: crates/lhc/grok-lhc-host/src/compact.rs:115-122, [CompactEventBridge::record_replace_result]. *)
Definition record_replace_result (ok : bool) (b : CompactEventBridge) : CompactEventBridge :=
  mkBridge (plan b) (sat_add32 (lhc_attempts b) 1) (if ok then fail_open b else true) (if ok then true else lhc_wrote b).

(** Source: crates/lhc/grok-lhc-host/src/compact.rs:125-132, [CompactEventBridge::choke_action]. *)
Definition choke_action (b : CompactEventBridge) : CompactChokeAction :=
  if lhc_wrote b then SkipNativeLhcWrote else RunNative.

(** Source: crates/lhc/grok-lhc-host/src/gating.rs:13-21, [is_enabled]. *)
Definition is_enabled (grok_lhc : option str) : bool :=
  match grok_lhc with
  | Some v =>
      let v := trim v in
      str_eqb v (lit "1") || eq_ignore_ascii_case v (lit "true") || eq_ignore_ascii_case v (lit "on")
  | None => true
  end.

(** Source: crates/lhc/grok-lhc-host/src/compact.rs:157-162, [compact_mode]. *)
Definition compact_mode (grok_lhc : option str) : CompactMode := if is_enabled grok_lhc then Replace else Off.

(** ** A compaction for the write-back *)

Section writeback.
Context {W : Type} `{Archive W, ItemDigest, JsonText, SearchActionJson}.
(** The view and the kinds in a reply to [GetClassifyContext]. *)
Variable as_context : Reply -> result (list ViewEntry * SourceKindIndex) str.

(** Source: crates/lhc/grok-lhc-host/src/lib.rs:272-287, [ReplaceCompactWriteback]. *)
Record ReplaceCompactWriteback := mkWriteback {
  wb_source_tip : N;
  wb_receipt : Receipt;
  wb_view : list ViewEntry;
  wb_kinds : SourceKindIndex;
}.

(** With the session and the worker found for the session, if any, and whether the turn
    was cancelled by the time the worker answered.

    Source: crates/lhc/grok-lhc-host/src/lib.rs:325-383, [replace_compact_for_writeback_with_cancel_signal]. *)
Definition replace_compact_for_writeback (session_id : str) (mode : CompactMode) (cancel : CancelTiming) (cancelled : bool)
    (handle : option (LhcSession W * Worker)) : result ReplaceCompactWriteback str * option (LhcSession W * Worker) :=
  match mode, handle with
  | Off, handle => (Err (lit "replace_mode_inactive"), handle)
  | Replace, None => (Err (lit "no_capture_handle"), None)
  | Replace, Some (sess, w) =>
      match process_cmd session_id (Compact cancel) sess w with
      | (CompactReply (Ok (receipt, source_tip)), sess, w) =>
          if cancelled then (Err (lit "compact_cancelled"), Some (note_compact_drain_outcome AbandonedByCancel sess, w))
          else
            match process_cmd session_id (Call GetClassifyContext) sess w with
            | (CallReply r, sess, w) =>
                (match as_context r with
                 | Ok (view, kinds) => Ok (mkWriteback source_tip receipt view kinds)
                 | Err e => Err e
                 end, Some (sess, w))
            | (_, sess, w) => (Err [], Some (sess, w))
            end
      | (CompactReply (Err e), sess, w) => (Err e, Some (sess, w))
      | (_, sess, w) => (Err [], Some (sess, w))
      end
  end.
End writeback.
