(* ===== verification/LhcServingSpec.v ===== *)
(** * What is served

    The theorems about [LhcServing]: alignment of notes as a sequence of steps, the
    fixpoint of the written conversation, the prompts and markers of a served body,
    signatures, content blocks, and who writes a compaction. *)

From S2P Require Import Prelude RustStr Json Conversation ChatTypes LhcKeys LhcMapping LhcServing.

(** ** Positions *)

Lemma position_app {A} (f : A -> bool) l1 x l2 : Forall (fun y => f y = false) l1 -> f x = true ->
  position f (l1 ++ x :: l2) = Some (length l1).
Proof. intros Hl Hx. induction Hl as [|y l1 Hy _ IH]; cbn; [by rewrite Hx|]. by rewrite Hy, IH. Qed.

Lemma position_None {A} (f : A -> bool) l : position f l = None <-> Forall (fun y => f y = false) l.
Proof.
  induction l as [|y l IH]; cbn; [done|]. rewrite Forall_cons. destruct (f y); [naive_solver|].
  destruct (position f l); cbn; [|naive_solver]. split; [done|]. intros [_ Hl]. by apply IH in Hl.
Qed.

Lemma position_Some {A} (f : A -> bool) l k : position f l = Some k ->
  ∃ l1 x l2, l = l1 ++ x :: l2 ∧ length l1 = k ∧ f x = true ∧ Forall (fun y => f y = false) l1.
Proof.
  revert k. induction l as [|y l IH]; intros k; cbn; [done|]. destruct (f y) eqn:Hy.
  - intros [= <-]. by exists [], y, l.
  - destruct (position f l) as [k'|]; cbn; [|done]. intros [= <-]. destruct (IH k' eq_refl) as (l1 & x & l2 & -> & <- & Hx & Hl).
    exists (y :: l1), x, l2. repeat split; try done. by constructor.
Qed.

Lemma position_ext {A} (f g : A -> bool) l l' : Forall2 (fun x y => f x = g y) l l' -> position f l = position g l'.
Proof. induction 1 as [|x y l l' Hxy _ IH]; cbn; [done|]. by rewrite Hxy, IH. Qed.

Lemma position_ge {A} (f : A -> bool) l1 l2 k : position f (l1 ++ l2) = Some k -> length l1 ≤ k ->
  Forall (fun y => f y = false) l1.
Proof.
  intros Hp Hk. destruct (position_Some _ _ _ Hp) as (a & x & b & Heq & <- & Hx & Ha).
  apply Forall_forall. intros y Hy. apply list_elem_of_lookup in Hy as [i Hi]. rewrite Forall_forall in Ha. apply Ha.
  apply list_elem_of_lookup. exists i. apply lookup_lt_Some in Hi as Hlt.
  assert (Hi' : (l1 ++ l2) !! i = Some y) by by rewrite lookup_app_l. rewrite Heq, lookup_app_l in Hi' by lia. done.
Qed.

Lemma counterpart_spec text rest j n : counterpart text rest = Some (j, n) ->
  ∃ l1 l2, rest = l1 ++ n :: l2 ∧ length l1 = j ∧ is_synthetic_text text n = true
    ∧ Forall (fun y => is_synthetic_text text y = false) l1.
Proof.
  unfold counterpart. intros Hc. destruct (position (is_synthetic_text text) rest) as [k|] eqn:Hp; [|done]. cbn [mbind option_bind] in Hc.
  destruct (position_Some _ _ _ Hp) as (l1 & x & l2 & -> & <- & Hx & Hl). rewrite lookup_app_r, Nat.sub_diag in Hc by lia.
  cbn in Hc. injection Hc as <- <-. by exists l1, l2.
Qed.

Lemma counterpart_app text l1 n l2 : Forall (fun y => is_synthetic_text text y = false) l1 -> is_synthetic_text text n = true ->
  counterpart text (l1 ++ n :: l2) = Some (length l1, n).
Proof.
  intros Hl Hn. unfold counterpart. rewrite position_app by done. cbn [mbind option_bind].
  by rewrite lookup_app_r, Nat.sub_diag by lia.
Qed.

Lemma counterpart_None text rest : counterpart text rest = None <-> Forall (fun y => is_synthetic_text text y = false) rest.
Proof.
  rewrite <- position_None. unfold counterpart. destruct (position (is_synthetic_text text) rest) as [k|] eqn:Hp; [|done]. cbn [mbind option_bind].
  destruct (position_Some _ _ _ Hp) as (l1 & x & l2 & -> & <- & _). by rewrite lookup_app_r, Nat.sub_diag by lia.
Qed.

(** Two texts of one item are one. *)
Lemma synthetic_text_inj t t' n : is_synthetic_text t n = true -> is_synthetic_text t' n = true -> t = t'.
Proof.
  destruct n as [|u| | | |]; try done. cbn. intros [_ H1]%andb_prop [_ H2]%andb_prop. apply str_eqb_eq in H1, H2. congruence.
Qed.

(** ** The same item for the host *)

Lemma zip_ids (x y : list ToolCall) : length x = length y ->
  forallb (fun '(p, q) => str_eqb (tc_id p) (tc_id q)) (zip x y) = true <-> map tc_id x = map tc_id y.
Proof.
  revert y. induction x as [|p x IH]; intros [|q y]; cbn; try done. intros [= Hl]. specialize (IH y Hl).
  rewrite andb_true_iff, str_eqb_eq, IH. split; [intros [-> ->]; done|intros [= -> ->]; done].
Qed.

(** What the host identifies an item by. *)
Definition host_identity (i : ConversationItem) : option (bool * str + str * list str + str) :=
  match i with
  | CUser u => Some (inl (inl (is_human (u_reason u), user_item_text u)))
  | CAssistant a => Some (inl (inr (a_content a, map tc_id (a_tool_calls a))))
  | CToolResult r => Some (inr (tr_tool_call_id r))
  | _ => None
  end.

Lemma same_host_spec a b : same_host_item a b = true <-> is_Some (host_identity a) ∧ host_identity a = host_identity b.
Proof.
  destruct a as [|x|x|x| |], b as [|y|y|y| |]; cbn; try (split; [done|intros [[? ?] ?]; done]).
  - rewrite andb_true_iff, eqb_true_iff, str_eqb_eq. split; [intros [-> ->]; eauto|intros [_ [= -> ->]]; done].
  - rewrite !andb_true_iff, str_eqb_eq, Nat.eqb_eq. split.
    + intros [[-> Hl] Hz]. apply zip_ids in Hz; [|done]. rewrite Hz. eauto.
    + intros [_ [= -> Hm]]. assert (Hl : length (a_tool_calls x) = length (a_tool_calls y)).
      { rewrite <- (length_map tc_id), Hm. apply length_map. }
      split; [done|]. by apply zip_ids.
  - rewrite str_eqb_eq. split; [intros ->; eauto|intros [_ [= ->]]; done].
Qed.

(** ** Alignment as steps *)

(** The items behind [i] and those ahead of it. *)
Inductive astep (rest : list ConversationItem) : list ConversationItem -> list ConversationItem ->
    list ConversationItem -> list ConversationItem -> Prop :=
  | as_keep done x todo : (∀ text, runtime_note_text x = Some text -> counterpart text rest = None) ->
      astep rest done (x :: todo) (done ++ [x]) todo
  | as_place done x todo text j n : runtime_note_text x = Some text -> counterpart text rest = Some (j, n) ->
      (∀ t, note_target rest (done ++ x :: todo) j = Some t -> t ≤ length done ∧ (t = 0 -> done = [])) ->
      astep rest done (x :: todo) (done ++ [n]) todo
  | as_front done x todo text n : runtime_note_text x = Some text -> counterpart text rest = Some (0, n) -> done ≠ [] ->
      astep rest done (x :: todo) (n :: done) todo
  | as_forward done x u v text j n : runtime_note_text x = Some text -> counterpart text rest = Some (j, n) ->
      note_target rest (done ++ x :: u ++ v) j = Some (length done + S (length u)) ->
      astep rest done (x :: u ++ v) (done ++ u ++ [n]) v.

Inductive aligned (rest : list ConversationItem) : list ConversationItem -> list ConversationItem -> list ConversationItem -> Prop :=
  | al_done done : aligned rest done [] done
  | al_step done todo done' todo' body : astep rest done todo done' todo' -> aligned rest done' todo' body ->
      aligned rest done todo body.

Lemma remove_at_app {A} (l1 : list A) x l2 : remove_at (length l1) (l1 ++ x :: l2) = l1 ++ l2.
Proof. unfold remove_at. rewrite take_app_length. f_equal. change (x :: l2) with ([x] ++ l2). rewrite app_assoc, drop_app_length'; [done|]. rewrite length_app. cbn. lia. Qed.

Lemma insert_at_app {A} (l1 : list A) x l2 : insert_at (length l1) x (l1 ++ l2) = l1 ++ x :: l2.
Proof. unfold insert_at. by rewrite take_app_length, drop_app_length. Qed.

Lemma note_target_le rest body j t : note_target rest body j = Some t -> t ≤ length body.
Proof.
  destruct j as [|k]; cbn; [intros [= <-]; lia|]. destruct (rest !! k) as [a|]; [|done]. destruct (position _ body) as [p|] eqn:Hp; [|done].
  intros [= <-]. destruct (position_Some _ _ _ Hp) as (l1 & x & l2 & -> & <- & _). rewrite length_app. cbn. lia.
Qed.

Lemma astep_loop rest fuel done todo done' todo' : astep rest done todo done' todo' ->
  align_loop (S fuel) rest (done ++ todo) (length done) = align_loop fuel rest (done' ++ todo') (length done').
Proof.
  assert (Hlook : ∀ x l, (done ++ x :: l) !! length done = Some x) by (intros; by rewrite lookup_app_r, Nat.sub_diag by lia).
  destruct 1 as [done x todo Hk|done x todo text j n Hn Hc Ht|done x todo text n Hn Hc Hd|done x u v text j n Hn Hc Ht];
    cbn [align_loop]; rewrite Hlook.
  - rewrite length_app, Nat.add_1_r, <- app_assoc. cbn [app]. destruct (runtime_note_text x) as [text|] eqn:Hx; [|done]. by rewrite (Hk text).
  - rewrite Hn, Hc. assert (Hins : <[length done:=n]> (done ++ x :: todo) = (done ++ [n]) ++ todo).
    { rewrite insert_app_r_alt by lia. rewrite Nat.sub_diag. cbn. by rewrite <- app_assoc. }
    destruct (note_target rest (done ++ x :: todo) j) as [t|] eqn:Htt; rewrite Hins, length_app, Nat.add_1_r; [|done].
    destruct (Ht t eq_refl) as [Hle Hz]. rewrite (proj2 (Nat.ltb_ge _ _)) by done. destruct (Nat.eqb_spec t 0) as [->|]; [|done].
    by rewrite (Hz eq_refl).
  - rewrite Hn, Hc. cbn [note_target]. destruct done as [|d done]; [done|]. cbn [length]. cbn [Nat.ltb Nat.leb Nat.eqb negb andb].
    rewrite (remove_at_app (d :: done)). done.
  - rewrite Hn, Hc, Ht. rewrite (proj2 (Nat.ltb_lt _ _)) by lia. rewrite remove_at_app, (app_assoc done u v).
    replace (length done + S (length u) - 1) with (length (done ++ u)) by (rewrite length_app; lia).
    rewrite insert_at_app. rewrite !length_app. cbn [length]. rewrite <- !app_assoc. cbn [app]. f_equal. lia.
Qed.

Lemma astep_shorter rest done todo done' todo' : astep rest done todo done' todo' -> length todo' < length todo.
Proof. destruct 1; cbn; try rewrite length_app; lia. Qed.

Lemma astep_total rest done todo : todo ≠ [] -> ∃ done' todo', astep rest done todo done' todo'.
Proof.
  destruct todo as [|x todo]; [done|intros _]. destruct (runtime_note_text x) as [text|] eqn:Hx; [|do 2 eexists; apply as_keep; naive_solver].
  destruct (counterpart text rest) as [[j n]|] eqn:Hc; [|do 2 eexists; apply as_keep; naive_solver].
  destruct (note_target rest (done ++ x :: todo) j) as [t|] eqn:Ht; [|do 2 eexists; eapply as_place; [done..|naive_solver]].
  destruct (decide (t ≤ length done)) as [Hle|Hgt].
  - destruct (decide (t = 0 ∧ done ≠ [])) as [[-> Hd]|Hnz].
    + destruct j as [|k]; [do 2 eexists; by eapply as_front|]. cbn in Ht. destruct (rest !! k) as [a|]; [|done].
      by destruct (position _ _).
    + do 2 eexists. eapply as_place; [done..|]. rewrite Ht. intros t' [= <-]. split; [done|]. intros ->.
      destruct done as [|d done]; [done|]. destruct Hnz. by split.
  - apply note_target_le in Ht as Hlt. rewrite length_app in Hlt. cbn in Hlt.
    rewrite <- (take_drop (t - S (length done)) todo) in Ht |- *. do 2 eexists. eapply as_forward; [done..|].
    rewrite Ht. f_equal. rewrite length_take. lia.
Qed.

Lemma align_loop_aligned rest fuel done todo : length todo ≤ fuel ->
  aligned rest done todo (align_loop fuel rest (done ++ todo) (length done)).
Proof.
  revert done todo. induction fuel as [|fuel IH]; intros done todo Hf.
  - destruct todo; [|cbn in Hf; lia]. cbn. rewrite app_nil_r. constructor.
  - destruct (decide (todo = [])) as [->|Ht].
    + rewrite app_nil_r. cbn [align_loop]. rewrite lookup_ge_None_2 by lia. constructor.
    + destruct (astep_total rest done todo Ht) as (done' & todo' & Hs). rewrite (astep_loop _ fuel _ _ _ _ Hs).
      eapply al_step; [exact Hs|]. apply IH. apply astep_shorter in Hs. lia.
Qed.

Lemma aligned_loop rest fuel done todo body : aligned rest done todo body -> length todo ≤ fuel ->
  align_loop fuel rest (done ++ todo) (length done) = body.
Proof.
  intros Ha. revert fuel. induction Ha as [done|done todo done' todo' body Hs Ha IH]; intros fuel Hf.
  - rewrite app_nil_r. destruct fuel; cbn [align_loop]; [done|]. by rewrite lookup_ge_None_2 by lia.
  - apply astep_shorter in Hs as Hlt. destruct fuel as [|fuel]; [lia|]. rewrite (astep_loop _ fuel _ _ _ _ Hs). apply IH. lia.
Qed.

(** What is left alone by the alignment: all but the synthetic items of users. *)
Definition is_synthetic_user (i : ConversationItem) : bool := match i with CUser u => negb (is_human (u_reason u)) | _ => false end.
Definition conserved (l : list ConversationItem) : list ConversationItem := List.filter (fun i => negb (is_synthetic_user i)) l.

Lemma note_synthetic x text : runtime_note_text x = Some text -> is_synthetic_user x = true.
Proof. destruct x as [|u| | | |]; cbn; try done. by destruct (is_human _). Qed.

Lemma counterpart_synthetic text rest j n : counterpart text rest = Some (j, n) -> is_synthetic_user n = true.
Proof. intros (l1 & l2 & _ & _ & Hn & _)%counterpart_spec. destruct n as [|u| | | |]; try done. cbn in *. by apply andb_prop in Hn as [-> _]. Qed.

Lemma conserved_app l l' : conserved (l ++ l') = conserved l ++ conserved l'.
Proof. apply List.filter_app. Qed.

Lemma conserved_synthetic x l : is_synthetic_user x = true -> conserved (x :: l) = conserved l.
Proof. intros Hx. unfold conserved. cbn. by rewrite Hx. Qed.

Lemma astep_conserved rest done todo done' todo' : astep rest done todo done' todo' ->
  conserved (done' ++ todo') = conserved (done ++ todo).
Proof.
  destruct 1 as [done x todo Hk|done x todo text j n Hn Hc Ht|done x todo text n Hn Hc Hd|done x u v text j n Hn Hc Ht];
    try apply note_synthetic in Hn; try apply counterpart_synthetic in Hc.
  - by rewrite <- app_assoc.
  - rewrite <- app_assoc, !conserved_app. cbn [app]. by rewrite (conserved_synthetic x), (conserved_synthetic n) by done.
  - cbn [app]. rewrite (conserved_synthetic n), !conserved_app by done. by rewrite (conserved_synthetic x) by done.
  - rewrite <- !app_assoc, !conserved_app. cbn [app]. by rewrite (conserved_synthetic x), (conserved_synthetic n), conserved_app by done.
Qed.

Lemma aligned_conserved rest done todo body : aligned rest done todo body -> conserved body = conserved (done ++ todo).
Proof.
  induction 1 as [done|done todo done' todo' body Hs _ IH]; [by rewrite app_nil_r|]. by rewrite IH, (astep_conserved _ _ _ _ _ Hs).
Qed.

Lemma align_conserved body native : conserved (align_runtime_notes_with_native body native) = conserved body.
Proof.
  unfold align_runtime_notes_with_native. destruct (split_system_prefix native) as [prefix rest].
  set (kept := List.filter _ body). pose proof (align_loop_aligned rest (length kept) [] kept (le_n _)) as Ha.
  apply aligned_conserved in Ha. cbn [app length] in Ha. rewrite Ha. unfold kept, conserved. clear. induction body as [|x body IH]; [done|]. cbn [List.filter].
  destruct (runtime_note_text x) as [text|] eqn:Hx.
  - rewrite (note_synthetic x text Hx). cbn [negb]. destruct (negb (in_system_prefix _ _)); [|exact IH].
    cbn [List.filter]. by rewrite (note_synthetic x text Hx).
  - cbn [List.filter]. destruct (negb (is_synthetic_user x)); [|exact IH]. by f_equal.
Qed.

(** ** Aligning what is aligned *)

Lemma same_host_refl a b : same_host_item a b = true -> same_host_item b b = true.
Proof. rewrite !same_host_spec. intros [? <-]. done. Qed.

Lemma same_host_ext a b y : same_host_item b a = true -> same_host_item y b = same_host_item y a.
Proof.
  rewrite same_host_spec. intros [_ Hid]. apply Bool.eq_iff_eq_true. by rewrite !same_host_spec, Hid.
Qed.

(** Two notes with one text are the same item for the host. *)
Lemma note_identity x y text : runtime_note_text x = Some text -> runtime_note_text y = Some text ->
  host_identity x = host_identity y.
Proof.
  assert (Hid : ∀ z, runtime_note_text z = Some text -> host_identity z = Some (inl (inl (false, RUNTIME_NOTE_PREFIX ++ text)))).
  { intros [|u| | | |]; try done. cbn. destruct (is_human (u_reason u)); [done|]. unfold user_item_text.
    destruct (u_content u) as [|[c|c] [|]]; try done. intros Hs. apply strip_prefix_spec in Hs. cbn. by rewrite Hs. }
  intros Hx Hy. by rewrite (Hid x), (Hid y).
Qed.

Lemma synthetic_same_host text f y : is_synthetic_text text f = true -> same_host_item y f = true -> is_synthetic_text text y = true.
Proof.
  destruct f as [|u| | | |]; try done. rewrite same_host_spec. intros Hf [_ Hid]. destruct y as [|w| | | |]; try done.
  cbn in *. injection Hid as Hh Ht. by rewrite Hh, Ht.
Qed.

(** A list of translated items against the native items [R], such that no note has
    the text of a synthetic item and the first note is not repeated. *)
Section fixpoint.
Variables R todo0 : list ConversationItem.
Hypothesis distinct : ∀ x y text, x ∈ todo0 -> y ∈ todo0 -> runtime_note_text x = Some text -> is_synthetic_text text y = false.
Hypothesis head_once : ∀ x l text, todo0 = x :: l -> runtime_note_text x = Some text -> ∀ y, y ∈ l -> runtime_note_text y ≠ Some text.

Definition placed_at (P : nat -> Prop) (d : ConversationItem) : Prop :=
  ∃ text x j, x ∈ todo0 ∧ runtime_note_text x = Some text ∧ counterpart text R = Some (j, d) ∧ P j.

Record sim (done todo : list ConversationItem) : Prop := {
  s_start : done = [] -> todo = todo0;
  s_todo y : y ∈ todo -> y ∈ todo0;
  s_done d : d ∈ done -> d ∈ todo0 ∨ placed_at (fun _ => True) d;
  s_head d text k : head done = Some d -> counterpart text R = Some (S k, d) -> ∀ y, y ∈ todo -> runtime_note_text y ≠ Some text;
  s_anchor text k n a : counterpart text R = Some (S k, n) -> n ∈ done -> R !! k = Some a ->
    (∃ d, d ∈ done ∧ same_host_item d a = true)
    ∨ (∀ y, y ∈ todo -> runtime_note_text y = Some text -> same_host_item y a = true)
    ∨ (∀ y, y ∈ todo -> same_host_item y a = false);
}.

Lemma sim_start : sim [] todo0.
Proof. split; [done|done|set_solver|done|set_solver]. Qed.

Lemma counterpart_text text rest j n : counterpart text rest = Some (j, n) -> is_synthetic_text text n = true.
Proof. by intros (l1 & l2 & _ & _ & Hn & _)%counterpart_spec. Qed.

Lemma counterpart_unique text text' j j' n : counterpart text R = Some (j, n) -> counterpart text' R = Some (j', n) -> text = text' ∧ j = j'.
Proof.
  intros Hc Hc'. assert (text = text') as <- by (eapply synthetic_text_inj; by eapply counterpart_text).
  split; [done|congruence].
Qed.

(** Only one item of [R] stands for a text. *)
Lemma placed_is text j n d P : (∃ x, x ∈ todo0 ∧ runtime_note_text x = Some text) -> counterpart text R = Some (j, n) ->
  d ∈ todo0 ∨ placed_at P d -> is_synthetic_text text d = true -> d = n.
Proof.
  intros (x & Hx & Hn) Hc [Hd|(text' & y & j' & _ & _ & Hc' & _)] Ht; [by rewrite (distinct x d text) in Ht|].
  assert (text = text') as <- by (eapply synthetic_text_inj; [done|by eapply counterpart_text]). congruence.
Qed.

(** What the counterpart's target says of the anchor. *)
Lemma target_anchor rest body k t : note_target rest body (S k) = Some t ->
  ∃ a p l1 b l2, rest !! k = Some a ∧ t = S p ∧ position (fun y => same_host_item y a) body = Some p
    ∧ body = l1 ++ b :: l2 ∧ length l1 = p ∧ same_host_item b a = true.
Proof.
  cbn. destruct (rest !! k) as [a|]; [|done]. destruct (position _ body) as [p|] eqn:Hp; [|done]. intros [= <-].
  destruct (position_Some _ _ _ Hp) as (l1 & b & l2 & -> & Hl & Hb & _). by exists a, p, l1, b, l2.
Qed.

Lemma kept_no_note d y text j : d ∈ todo0 -> y ∈ todo0 -> counterpart text R = Some (j, d) -> runtime_note_text y ≠ Some text.
Proof. intros Hd Hy Hc%counterpart_text Hn. by rewrite (distinct y d text) in Hc. Qed.

Lemma sim_head done todo done' todo' : astep R done todo done' todo' -> sim done todo ->
  ∀ d text k, head done' = Some d -> counterpart text R = Some (S k, d) -> ∀ y, y ∈ todo' -> runtime_note_text y ≠ Some text.
Proof.
  intros Hstep [Hst Htd _ Hhd _] d text k Hh Hc y Hy.
  assert (Hfirst : ∀ x j n l, done = [] -> todo = x :: l -> y ∈ l -> runtime_note_text x = Some j -> counterpart j R = Some (S k, n) ->
    d = n -> runtime_note_text y ≠ Some text).
  { intros x j n l -> -> Hin Hx Hj ->. destruct (counterpart_unique _ _ _ _ _ Hj Hc) as [<- _].
    by apply (head_once x l j); [rewrite Hst|..]. }
  assert (Hold : head done = Some d -> y ∈ todo -> runtime_note_text y ≠ Some text) by (intros Hd; by eapply Hhd).
  destruct Hstep as [done x todo Hk|done x todo t' j n Hn Hc' Ht|done x todo t' n Hn Hc' Hd|done x u v t' j n Hn Hc' Ht].
  - destruct done as [|d0 done]; [|apply Hold; [done|by right]]. injection Hh as ->.
    eapply kept_no_note; [apply Htd; by left|apply Htd; by right|done].
  - destruct done as [|d0 done]; [|apply Hold; [done|by right]]. injection Hh as ->.
    destruct (counterpart_unique _ _ _ _ _ Hc' Hc) as [-> ->]. by eapply Hfirst.
  - injection Hh as ->. by destruct (counterpart_unique _ _ _ _ _ Hc' Hc).
  - destruct done as [|d0 done]; [|apply Hold; [done|right; rewrite elem_of_app; by right]]. destruct u as [|b u]; cbn in Hh; injection Hh as ->.
    + destruct (counterpart_unique _ _ _ _ _ Hc' Hc) as [-> ->]. by eapply Hfirst.
    + eapply kept_no_note; [apply Htd; right; by left|apply Htd; right; rewrite elem_of_app; by right|done].
Qed.

(** The anchor of the item placed by a step is behind it, or every note with its text, or nowhere ahead. *)
Lemma placed_anchor done x todo text k n a t : runtime_note_text x = Some text -> counterpart text R = Some (S k, n) -> R !! k = Some a ->
  note_target R (done ++ x :: todo) (S k) = t -> (∀ t', t = Some t' -> t' ≤ length done) ->
  (∃ d, d ∈ done ∧ same_host_item d a = true) ∨ (∀ y, y ∈ todo -> same_host_item y a = false).
Proof.
  intros Hn Hc Ha Ht Hle. destruct t as [t|].
  - left. destruct (target_anchor _ _ _ _ Ht) as (a' & p & l1 & b & l2 & Ha' & -> & _ & Hbody & Hl & Hb). rewrite Ha in Ha'. injection Ha' as <-.
    specialize (Hle _ eq_refl). exists b. split; [|done]. apply list_elem_of_lookup. exists p.
    rewrite <- (lookup_app_l done (x :: todo)), Hbody by lia. by rewrite lookup_app_r, <- Hl, Nat.sub_diag by lia.
  - right. cbn in Ht. rewrite Ha in Ht. destruct (position _ _) eqn:Hp; [done|]. apply position_None in Hp. rewrite Forall_forall in Hp.
    intros y Hy. apply Hp. rewrite elem_of_app. right. by right.
Qed.

Lemma sim_anchor done todo done' todo' : astep R done todo done' todo' -> sim done todo ->
  ∀ text k n a, counterpart text R = Some (S k, n) -> n ∈ done' -> R !! k = Some a ->
    (∃ d, d ∈ done' ∧ same_host_item d a = true)
    ∨ (∀ y, y ∈ todo' -> runtime_note_text y = Some text -> same_host_item y a = true)
    ∨ (∀ y, y ∈ todo' -> same_host_item y a = false).
Proof.
  intros Hstep [_ Htd _ _ Han] text k n a Hc Hin Ha.
  assert (Hsub : ∀ y, y ∈ todo' -> y ∈ todo) by (destruct Hstep; intros y Hy; rewrite ?elem_of_cons, ?elem_of_app; tauto).
  assert (Hkeep : ∀ d, d ∈ done -> d ∈ done') by (destruct Hstep; intros y Hy; rewrite ?elem_of_cons, ?elem_of_app; tauto).
  assert (Hold : n ∈ done -> (∃ d, d ∈ done' ∧ same_host_item d a = true)
    ∨ (∀ y, y ∈ todo' -> runtime_note_text y = Some text -> same_host_item y a = true) ∨ (∀ y, y ∈ todo' -> same_host_item y a = false)).
  { intros Hd. destruct (Han text k n a Hc Hd Ha) as [(d & Hd' & Hs)|[Hall|Hno]]; eauto 6. }
  assert (Hkept : n ∈ todo -> ∀ y, y ∈ todo' -> runtime_note_text y = Some text -> same_host_item y a = true).
  { intros Hd y Hy Hn. by destruct (kept_no_note n y text _ (Htd _ Hd) (Htd _ (Hsub _ Hy)) Hc). }
  destruct Hstep as [done x todo Hk|done x todo t' j m Hn Hc' Ht|done x todo t' m Hn Hc' Hd|done x u v t' j m Hn Hc' Ht];
    rewrite ?elem_of_cons, ?elem_of_app, ?list_elem_of_singleton in Hin.
  - destruct Hin as [Hin| ->]; [by apply Hold|]. right; left. apply Hkept. by left.
  - destruct Hin as [Hin| ->]; [by apply Hold|]. destruct (counterpart_unique _ _ _ _ _ Hc' Hc) as [-> ->].
    destruct (placed_anchor _ _ _ _ _ _ _ _ Hn Hc Ha eq_refl ltac:(intros t Htt; by apply Ht)) as [(d & Hd & Hs)|Hno]; [|by right; right].
    left. exists d. rewrite elem_of_app. auto.
  - destruct Hin as [-> |Hin]; [|by apply Hold]. by destruct (counterpart_unique _ _ _ _ _ Hc' Hc).
  - destruct Hin as [Hin|[Hin| ->]]; [by apply Hold|right; left; apply Hkept; rewrite elem_of_cons, elem_of_app; auto|].
    destruct (counterpart_unique _ _ _ _ _ Hc' Hc) as [-> ->].
    destruct (target_anchor _ _ _ _ Ht) as (a' & p & l1 & b & l2 & Ha' & Hp & _ & Hbody & Hl & Hb). rewrite Ha in Ha'. injection Ha' as <-.
    assert (p = length done + length u) as -> by lia.
    assert (Hlook : (x :: u) !! length u = Some b).
    { transitivity ((done ++ x :: u ++ v) !! (length done + length u)).
      - rewrite lookup_app_r by lia. replace (length done + length u - length done) with (length u) by lia.
        change (x :: u ++ v) with ((x :: u) ++ v). rewrite lookup_app_l; [done|cbn; lia].
      - rewrite Hbody, lookup_app_r, Hl, Nat.sub_diag by lia. done. }
    destruct u as [|z u _] using rev_ind.
    + cbn in Hlook. injection Hlook as <-. right; left. intros y Hy Hny. rewrite same_host_spec in *.
      by rewrite (note_identity y x text).
    + left. exists b. split; [|done]. rewrite length_app, Nat.add_1_r in Hlook. cbn in Hlook. apply list_elem_of_lookup_2 in Hlook.
      rewrite !elem_of_app in *. tauto.
Qed.

Lemma sim_step done todo done' todo' : astep R done todo done' todo' -> sim done todo -> sim done' todo'.
Proof.
  intros Hstep Hsim. pose proof (sim_head _ _ _ _ Hstep Hsim) as Hhd'. pose proof (sim_anchor _ _ _ _ Hstep Hsim) as Han'. destruct Hsim as [Hst Htd Hdn Hhd Han].
  assert (Hsub : ∀ y, y ∈ todo' -> y ∈ todo) by (destruct Hstep; intros y Hy; rewrite ?elem_of_cons, ?elem_of_app; tauto).
  assert (Hkeep : ∀ d, d ∈ done -> d ∈ done') by (destruct Hstep; intros y Hy; rewrite ?elem_of_cons, ?elem_of_app; tauto).
  assert (Hnew : ∀ d, d ∈ done' -> d ∈ done ∨ d ∈ todo ∨ ∃ x text j, x ∈ todo ∧ runtime_note_text x = Some text ∧ counterpart text R = Some (j, d)).
  { destruct Hstep; intros d; rewrite ?elem_of_cons, ?elem_of_app, ?list_elem_of_singleton; try tauto.
    - intros [Hd| ->]; [tauto|]. right; right. exists x, text, j. rewrite elem_of_cons. tauto.
    - intros [-> |Hd]; [|tauto]. right; right. exists x, text, 0. rewrite elem_of_cons. tauto.
    - intros [Hd|[Hd| ->]]; [tauto|tauto|]. right; right. exists x, text, j. rewrite elem_of_cons. tauto. }
  split; [| | |exact Hhd'|].
  - intros Hnil. by destruct Hstep; destruct done; try destruct u.
  - intros y Hy. by apply Htd, Hsub.
  - intros d [Hd|[Hd|(x & text & j & Hx & Hn & Hc)]]%Hnew; [by apply Hdn|left; by apply Htd|]. right. exists text, x, j. auto.
  - exact Han'.
Qed.

(** The result holds what is behind, after items moved to the front. *)
Lemma aligned_shape done todo body : aligned R done todo body -> sim done todo ->
  (∃ F T, body = F ++ done ++ T ∧ Forall (placed_at (eq 0)) F) ∧ ∀ b, b ∈ body -> b ∈ todo0 ∨ placed_at (fun _ => True) b.
Proof.
  induction 1 as [done|done todo done' todo' body Hs _ IH]; intros Hsim.
  - split; [exists [], []; by rewrite app_nil_r|]. apply Hsim.
  - destruct (IH (sim_step _ _ _ _ Hs Hsim)) as [(F & T & -> & HF) Hin]. split; [|exact Hin]. clear Hin IH.
    destruct Hs as [done x todo Hk|done x todo t' j n Hn Hc' Ht|done x todo t' n Hn Hc' Hd|done x u v t' j n Hn Hc' Ht].
    + exists F, (x :: T). by rewrite <- app_assoc.
    + exists F, (n :: T). by rewrite <- app_assoc.
    + exists (F ++ [n]), T. rewrite <- app_assoc. split; [done|]. apply Forall_app. split; [done|]. constructor; [|done].
      exists t', x, 0. repeat split; try done. apply Hsim. by left.
    + exists F, (u ++ n :: T). by rewrite <- !app_assoc.
Qed.

(** In the result an anchor is behind the note that follows it. *)
Lemma anchor_behind F d1 d2 n T x todo t : Forall (placed_at (eq 0)) F -> sim (d1 ++ d2) (x :: todo) -> F ++ d1 ≠ [] ->
  note_target (F ++ d1 ++ n :: T) ((d1 ++ d2) ++ x :: todo) (length (F ++ d1)) = Some t -> t ≤ length (d1 ++ d2) ∧ t ≠ 0.
Proof.
  intros HF Hsim Hne Ht. destruct (length (F ++ d1)) as [|k] eqn:Hl; [by destruct (F ++ d1)|].
  destruct (target_anchor _ _ _ _ Ht) as (a & p & l1 & b & l2 & Ha & -> & Hp & Hbody & Hl1 & Hb). split; [|done].
  destruct (decide (p < length (d1 ++ d2))) as [Hlt|Hge]; [lia|]. exfalso.
  apply position_ge in Hp as Hnone; [|lia]. rewrite Forall_forall in Hnone.
  assert (Hlast : last (F ++ d1) = Some a).
  { rewrite last_lookup, Hl. cbn. rewrite <- Ha, (app_assoc F). symmetry. apply lookup_app_l. lia. }
  destruct d1 as [|q d1 _] using rev_ind.
  - rewrite app_nil_r in Hlast. apply last_Some in Hlast as [F' ->]. apply Forall_app in HF as [_ HF]. inversion_clear HF as [|? ? Hf _].
    destruct Hf as (text & z & j & Hz & Hnz & Hcz & _). pose proof (counterpart_text _ _ _ _ Hcz) as Hat.
    assert (Hb0 : b ∈ x :: todo).
    { apply (list_elem_of_lookup_2 _ (p - length ([] ++ d2))). rewrite <- lookup_app_r, Hbody by lia.
      by rewrite lookup_app_r, <- Hl1, Nat.sub_diag by lia. }
    pose proof (synthetic_same_host text a b Hat Hb) as Hbt.
    rewrite (distinct z b text) in Hbt; [done|done|by apply Hsim|done].
  - rewrite app_assoc, last_snoc in Hlast. injection Hlast as ->. apply same_host_refl in Hb.
    rewrite (Hnone a) in Hb; [done|]. rewrite !elem_of_app, list_elem_of_singleton. auto.
Qed.

(** Synthetic items behind the state that have the text of a note. *)
Lemma behind_text text j n done todo d : (∃ x, x ∈ todo0 ∧ runtime_note_text x = Some text) -> counterpart text R = Some (j, n) ->
  sim done todo -> d ∈ done -> is_synthetic_text text d = true -> d = n.
Proof. intros Hx Hc Hsim Hd Ht. eapply placed_is; [done|done|by eapply s_done|done]. Qed.

Lemma front_text text k n F : counterpart text R = Some (S k, n) -> Forall (placed_at (eq 0)) F ->
  Forall (fun y => is_synthetic_text text y = false) F.
Proof.
  intros (l1 & l2 & HR & Hl & Hn & Hl1)%counterpart_spec HF. eapply Forall_impl; [exact HF|]. intros f (t & z & j & _ & _ & Hc & <-).
  apply counterpart_spec in Hc as ([|? ?] & l2' & HR' & Hl' & _); [|done]. rewrite HR in HR'. destruct l1 as [|y l1]; [done|].
  injection HR' as -> _. by inversion_clear Hl1.
Qed.

Lemma todo_text x text l : x ∈ todo0 -> runtime_note_text x = Some text -> (∀ y, y ∈ l -> y ∈ todo0) ->
  Forall (fun y => is_synthetic_text text y = false) l.
Proof. intros Hx Hn Hl. apply Forall_forall. intros y Hy. apply (distinct x y); auto. Qed.

(** A note placed where it is, is so against the result as well. *)
Lemma replay_place done x todo text k n F T : sim done (x :: todo) -> runtime_note_text x = Some text ->
  counterpart text R = Some (S k, n) -> Forall (placed_at (eq 0)) F ->
  astep (F ++ done ++ n :: T) done (x :: todo) (done ++ [n]) todo.
Proof.
  intros Hsim Hn Hc HF. assert (Hx : x ∈ todo0) by (apply Hsim; by left). pose proof (counterpart_text _ _ _ _ Hc) as Hnt.
  pose proof (front_text _ _ _ _ Hc HF) as HFt.
  destruct (position (is_synthetic_text text) done) as [p|] eqn:Hp.
  - destruct (position_Some _ _ _ Hp) as (d1 & d & d2 & Hdone & _ & Hd & Hd1).
    assert (d = n) as -> by (eapply behind_text; [by exists x|done|exact Hsim| |done]; rewrite Hdone, elem_of_app; right; by left).
    assert (HB : F ++ done ++ n :: T = F ++ d1 ++ n :: (d2 ++ n :: T)) by (rewrite Hdone, <- !app_assoc; done).
    rewrite HB. eapply as_place; [done| |].
    + rewrite app_assoc. apply counterpart_app; [by apply Forall_app|done].
    + rewrite Hdone in Hsim |- *. destruct (decide (F ++ d1 = [])) as [[-> ->]%app_nil|Hne].
      * destruct (s_head _ _ Hsim n text k eq_refl Hc x); [by left|done].
      * intros t Ht. destruct (anchor_behind F d1 (n :: d2) n _ x todo t HF Hsim Hne Ht). by split.
  - apply position_None in Hp. eapply as_place; [done| |].
    + rewrite app_assoc. apply counterpart_app; [by apply Forall_app|done].
    + destruct (decide (F ++ done = [])) as [Hnil|Hne]; intros t Ht.
      * rewrite Hnil in Ht. cbn in Ht. injection Ht as <-. apply app_nil in Hnil as [_ ->]. split; [cbn; lia|done].
      * rewrite <- (app_nil_r done) in Hsim, Ht at 2 |- *. rewrite app_nil_r in Ht at 1.
        destruct (anchor_behind F done [] n T x todo t HF Hsim Hne) as [Hle Hz]; [by rewrite app_nil_r in *|]. by rewrite app_nil_r in *.
Qed.

(** A note that moved over other items had no counterpart behind it. *)
Lemma forward_first done x u v text k n : sim done (x :: u ++ v) -> runtime_note_text x = Some text ->
  counterpart text R = Some (S k, n) -> note_target R (done ++ x :: u ++ v) (S k) = Some (length done + S (length u)) ->
  u ≠ [] -> n ∉ done.
Proof.
  intros Hsim Hn Hc Ht Hu Hin. destruct (target_anchor _ _ _ _ Ht) as (a & p & l1 & b & l2 & Ha & Hp & Hpos & Hbody & Hl & Hb).
  assert (p = length done + length u) as -> by lia. pose proof (position_ge _ done (x :: u ++ v) _ Hpos ltac:(lia)) as Hd.
  rewrite Forall_forall in Hd. destruct (s_anchor _ _ Hsim text k n a Hc Hin Ha) as [(d & Hd' & Hs)|[Hall|Hno]].
  - by rewrite (Hd d) in Hs.
  - specialize (Hall x ltac:(by left) Hn). change (done ++ x :: u ++ v) with (done ++ [x] ++ (u ++ v)) in Hpos. rewrite app_assoc in Hpos.
    apply position_ge in Hpos as Hge; [|rewrite length_app; cbn; destruct u; [done|cbn; lia]]. rewrite Forall_forall in Hge.
    rewrite (Hge x) in Hall; [done|]. rewrite elem_of_app, list_elem_of_singleton. auto.
  - rewrite (Hno b) in Hb; [done|]. apply (list_elem_of_lookup_2 _ (length u)).
    replace (length u) with (length done + length u - length done) by lia. rewrite <- lookup_app_r, Hbody by lia.
    by rewrite lookup_app_r, Hl, Nat.sub_diag by lia.
Qed.

Lemma replay_forward done x u b v text k n F T : sim done (x :: (u ++ [b]) ++ v) -> runtime_note_text x = Some text ->
  counterpart text R = Some (S k, n) ->
  note_target R (done ++ x :: (u ++ [b]) ++ v) (S k) = Some (length done + S (length (u ++ [b]))) -> Forall (placed_at (eq 0)) F ->
  astep (F ++ done ++ (u ++ [b]) ++ n :: T) done (x :: (u ++ [b]) ++ v) (done ++ (u ++ [b]) ++ [n]) v.
Proof.
  intros Hsim Hn Hc Ht HF. assert (Hx : x ∈ todo0) by (apply Hsim; by left).
  pose proof (forward_first _ _ _ _ _ _ _ Hsim Hn Hc Ht ltac:(by destruct u)) as Hfirst.
  assert (Hpre : Forall (fun y => is_synthetic_text text y = false) (F ++ done ++ u ++ [b])).
  { rewrite !Forall_app. split; [by eapply front_text|]. split.
    - apply Forall_forall. intros d Hd. destruct (is_synthetic_text text d) eqn:Hdt; [|done].
      destruct Hfirst. by rewrite <- (behind_text text (S k) n done (x :: (u ++ [b]) ++ v) d) by eauto.
    - rewrite <- Forall_app. apply (todo_text x); [done|done|]. intros y Hy. apply (s_todo _ _ Hsim). right. rewrite elem_of_app. by left. }
  assert (HB : F ++ done ++ (u ++ [b]) ++ n :: T = (F ++ done ++ u) ++ b :: n :: T) by (rewrite <- !app_assoc; done).
  eapply as_forward; [done| |].
  - replace (F ++ done ++ (u ++ [b]) ++ n :: T) with ((F ++ done ++ u ++ [b]) ++ n :: T) by (rewrite <- !app_assoc; done).
    by apply counterpart_app; [|eapply counterpart_text].
  - replace (length (F ++ done ++ u ++ [b])) with (S (length (F ++ done ++ u))) by (rewrite !length_app; cbn; lia).
    rewrite HB, <- Ht. cbn [note_target]. rewrite lookup_app_r, Nat.sub_diag by lia. cbn [lookup list_lookup].
    destruct (target_anchor _ _ _ _ Ht) as (a & p & l1 & b' & l2 & Ha & Hp & _ & Hbody & Hl & Hb). rewrite Ha.
    assert (b' = b) as ->.
    { assert (Hlook : (done ++ x :: (u ++ [b]) ++ v) !! p = Some b).
      { replace (done ++ x :: (u ++ [b]) ++ v) with ((done ++ x :: u) ++ b :: v) by (rewrite <- !app_assoc; done).
        apply list_lookup_middle. rewrite length_app in Hp |- *. cbn in *. lia. }
      rewrite Hbody, list_lookup_middle in Hlook by done. by injection Hlook. }
    f_equal. apply position_ext. apply Forall_Forall2_diag. apply Forall_forall. intros y _. by apply same_host_ext.
Qed.

(** The item that stands first in the native list stands first in the result. *)
Lemma front_head text n F l : counterpart text R = Some (0, n) -> Forall (placed_at (eq 0)) F -> counterpart text (F ++ n :: l) = Some (0, n).
Proof.
  intros Hc HF. pose proof (counterpart_text _ _ _ _ Hc) as Hn. destruct F as [|f F]; [by apply (counterpart_app _ [])|].
  inversion_clear HF as [|? ? (t & z & j & _ & _ & Hcf & <-) _]. apply counterpart_spec in Hc as ([|] & l2 & HR & Hl & _), Hcf as ([|] & l2' & HR' & Hl' & _); [|done..].
  rewrite HR in HR'. injection HR' as <- _. by apply (counterpart_app _ [] n (F ++ n :: l)).
Qed.

Lemma replay done todo done' todo' body : astep R done todo done' todo' -> sim done todo -> aligned R done' todo' body ->
  astep body done todo done' todo'.
Proof.
  intros Hs Hsim Ha. pose proof (aligned_shape _ _ _ Ha (sim_step _ _ _ _ Hs Hsim)) as [(F & T & -> & HF) Hin]. clear Ha.
  destruct Hs as [done x todo Hk|done x todo text j n Hn Hc Ht|done x todo text n Hn Hc Hd|done x u v text j n Hn Hc Ht].
  - apply as_keep. intros text Hn. specialize (Hk text Hn). apply counterpart_None. apply Forall_forall. intros b Hb.
    destruct (is_synthetic_text text b) eqn:Hbt; [|done]. assert (Hx : x ∈ todo0) by (apply Hsim; by left).
    destruct (Hin b Hb) as [Hb0|(t & z & j & _ & _ & Hcb & _)]; [by rewrite (distinct x b text) in Hbt|].
    apply counterpart_None in Hk. rewrite Forall_forall in Hk. apply counterpart_spec in Hcb as (l1 & l2 & HR & _).
    rewrite Hk in Hbt; [done|]. rewrite HR, elem_of_app. right. by left.
  - replace (F ++ (done ++ [n]) ++ T) with (F ++ done ++ n :: T) by (rewrite <- !app_assoc; done).
    destruct j as [|k]; [|by eapply replay_place]. destruct (Ht 0 eq_refl) as [_ Hnil]. rewrite (Hnil eq_refl).
    eapply as_place; [done|by apply front_head|]. by intros t [= <-].
  - cbn [app]. eapply as_front; [done| |done]. by apply front_head.
  - destruct j as [|k]; [cbn in Ht; injection Ht as Ht; lia|]. destruct u as [|b u _] using rev_ind.
    + cbn [app]. replace (F ++ (done ++ [n]) ++ T) with (F ++ done ++ n :: T) by (rewrite <- !app_assoc; done). by eapply replay_place.
    + replace (F ++ (done ++ (u ++ [b]) ++ [n]) ++ T) with (F ++ done ++ (u ++ [b]) ++ n :: T) by (rewrite <- !app_assoc; done).
      by eapply replay_forward.
Qed.

Lemma replay_all done todo body : aligned R done todo body -> sim done todo -> aligned body done todo body.
Proof.
  induction 1 as [done|done todo done' todo' body Hs Ha IH]; intros Hsim; [constructor|].
  eapply al_step; [by eapply replay|]. apply IH. by eapply sim_step.
Qed.

(** Aligning against the aligned list gives it back. *)
Lemma align_loop_fixpoint : let body := align_loop (length todo0) R todo0 0 in align_loop (length todo0) body todo0 0 = body.
Proof.
  intros body. apply (aligned_loop body (length todo0) [] todo0); [|done]. apply replay_all; [|apply sim_start].
  by apply (align_loop_aligned R _ [] todo0).
Qed.

Lemma align_loop_members b : b ∈ align_loop (length todo0) R todo0 0 -> b ∈ todo0 ∨ placed_at (fun _ => True) b.
Proof. apply (aligned_shape [] todo0); [|apply sim_start]. by apply (align_loop_aligned R _ [] todo0). Qed.
End fixpoint.

(** ** Prompt markers *)

(** The human prompts get these markers, in order; a prompt keeps its own where none is given. *)
Fixpoint stamp (ms : list (option nat)) (body : list ConversationItem) : list ConversationItem :=
  match body with
  | [] => []
  | i :: body =>
      if is_human_item i then
        match ms with
        | Some pi :: ms => set_prompt_index i pi :: stamp ms body
        | None :: ms => i :: stamp ms body
        | [] => i :: stamp [] body
        end
      else i :: stamp ms body
  end.

(** The last of [m] prompts get the last markers. *)
Definition tail_markers (m : nat) (indices : list nat) : list (option nat) :=
  replicate (m - length indices) None ++ map Some (drop (length indices - m) indices).

Definition humans (body : list ConversationItem) : list ConversationItem := List.filter is_human_item body.

Definition marked (body : list ConversationItem) (slots : list nat) (ms : list (option nat)) : list ConversationItem :=
  foldl (fun body '(slot, m) => match m with Some pi => alter (fun i => set_prompt_index i pi) slot body | None => body end) body (zip slots ms).

Lemma user_slots_S k body : user_slots (S k) body = map S (user_slots k body).
Proof. revert k. induction body as [|i body IH]; intros k; [done|]. cbn. destruct (is_human_item i); cbn; by rewrite IH. Qed.

Lemma user_slots_length k body : length (user_slots k body) = length (humans body).
Proof. revert k. unfold humans. induction body as [|i body IH]; intros k; [done|]. cbn. destruct (is_human_item i); cbn; by rewrite IH. Qed.

Lemma marked_shift i body slots ms : marked (i :: body) (map S slots) ms = i :: marked body slots ms.
Proof.
  revert body ms. unfold marked. induction slots as [|s slots IH]; intros body [|m ms]; [done..|]. cbn. destruct m as [pi|]; apply IH.
Qed.

Lemma marked_stamp body ms : marked body (user_slots 0 body) ms = stamp ms body.
Proof.
  revert ms. induction body as [|i body IH]; intros ms; [by destruct ms|]. cbn [user_slots stamp]. rewrite user_slots_S.
  destruct (is_human_item i); [|by rewrite marked_shift, IH]. destruct ms as [|[pi|] ms].
  - rewrite <- IH. unfold marked. by destruct (user_slots 0 body).
  - rewrite <- IH, <- marked_shift. done.
  - by rewrite <- IH, <- marked_shift.
Qed.

Lemma marked_skip body slots slots' n ms : length slots = n -> marked body (slots ++ slots') (replicate n None ++ ms) = marked body slots' ms.
Proof.
  intros <-. induction slots as [|s slots IH]; [done|]. exact IH.
Qed.

Lemma marked_some body slots tail : foldl (fun body '(slot, pi) => alter (fun i => set_prompt_index i pi) slot body) body (zip slots tail)
  = marked body slots (map Some tail).
Proof. revert body tail. induction slots as [|s slots IH]; intros body [|pi tail]; [done..|]. cbn. apply IH. Qed.

Lemma tail_markers_nil m : tail_markers m [] = replicate m None.
Proof. unfold tail_markers. cbn. by rewrite drop_nil, app_nil_r, Nat.sub_0_r. Qed.

Lemma stamp_none n body : stamp (replicate n None) body = body.
Proof.
  revert n. induction body as [|i body IH]; intros n; [done|]. cbn. destruct (is_human_item i); [|by rewrite IH].
  destruct n as [|n]; cbn [replicate]; [|by rewrite IH]. f_equal. apply (IH 0).
Qed.

Lemma assign_stamp body indices : assign_prompt_indices_from_tail body indices = stamp (tail_markers (length (humans body)) indices) body.
Proof.
  unfold assign_prompt_indices_from_tail. destruct (is_empty (user_slots 0 body)) eqn:Hs.
  - cbn [orb]. rewrite <- (user_slots_length 0). apply is_empty_spec in Hs. rewrite <- marked_stamp, Hs. done.
  - destruct (is_empty indices) eqn:Hi; cbn [orb].
    { apply is_empty_spec in Hi as ->. by rewrite tail_markers_nil, stamp_none. }
    rewrite marked_some, <- marked_stamp. unfold tail_markers. rewrite <- (user_slots_length 0).
    set (slots := user_slots 0 body). set (m := length slots). set (n := length indices).
    rewrite <- (take_drop (m - Nat.min m n) slots) at 2. replace (m - n) with (length (take (m - Nat.min m n) slots)) by (rewrite length_take; lia).
    rewrite marked_skip by done. by replace (n - Nat.min m n) with (n - m) by lia.
Qed.

Lemma tail_markers_tail m indices : tail_markers m (drop (length indices - m) indices) = tail_markers m indices.
Proof.
  unfold tail_markers. rewrite length_drop, drop_drop. f_equal; [f_equal; lia|]. f_equal. f_equal. lia.
Qed.

(** Items that differ in their markers only. *)
Inductive same_but_marker : ConversationItem -> ConversationItem -> Prop :=
  | sbm_refl i : same_but_marker i i
  | sbm_marked u u' : is_human (u_reason u) = true -> is_human (u_reason u') = true -> u_content u = u_content u' ->
      same_but_marker (CUser u) (CUser u').

Lemma set_prompt_same i pi : is_human_item i = true -> same_but_marker i (set_prompt_index i pi).
Proof. destruct i; try done. intros Hh. by apply sbm_marked. Qed.

Lemma stamp_same ms body : Forall2 same_but_marker body (stamp ms body).
Proof.
  revert ms. induction body as [|i body IH]; intros ms; [constructor|]. cbn. destruct (is_human_item i) eqn:Hi; [|by repeat constructor].
  destruct ms as [|[pi|] ms]; constructor; try apply IH; try constructor. by apply set_prompt_same.
Qed.

Lemma synthetic_text_same text i j : same_but_marker i j -> is_synthetic_text text i = is_synthetic_text text j.
Proof. destruct 1 as [|u u' Hu Hu' Hc]; [done|]. cbn. by rewrite Hu, Hu'. Qed.

Lemma host_identity_same i j : same_but_marker i j -> host_identity i = host_identity j.
Proof. destruct 1 as [|u u' Hu Hu' Hc]; [done|]. cbn. unfold user_item_text. by rewrite Hu, Hu', Hc. Qed.

Lemma counterpart_same text l l' : Forall2 same_but_marker l l' -> counterpart text l = counterpart text l'.
Proof.
  intros Hl. unfold counterpart.
  rewrite (position_ext _ (is_synthetic_text text) l l') by (eapply Forall2_impl; [exact Hl|]; intros i j Hij; by apply synthetic_text_same).
  destruct (position (is_synthetic_text text) l') as [k|] eqn:Hp; [|done]. cbn [mbind option_bind].
  destruct (position_Some _ _ _ Hp) as (l1 & x & l2 & -> & <- & Hx & _). apply Forall2_app_inv_r in Hl as (m1 & m2 & H1 & H2 & ->).
  apply Forall2_cons_inv_r in H2 as (y & m2' & Hy & _ & ->). apply Forall2_length in H1. rewrite list_lookup_middle by done. rewrite list_lookup_middle by done.
  destruct Hy as [|u u' Hu Hu' _]; [done|]. cbn in Hx. by rewrite Hu' in Hx.
Qed.

Lemma note_target_same l l' body j : Forall2 same_but_marker l l' -> note_target l body j = note_target l' body j.
Proof.
  intros Hl. destruct j as [|k]; [done|]. cbn. pose proof (Forall2_lookup_lr same_but_marker l l' k) as Hlr.
  destruct (l !! k) as [a|] eqn:Ha, (l' !! k) as [a'|] eqn:Ha'; [| | |done].
  - specialize (Hlr a a' Hl eq_refl eq_refl). f_equal. apply position_ext, Forall_Forall2_diag, Forall_forall. intros y _.
    apply Bool.eq_iff_eq_true. by rewrite !same_host_spec, (host_identity_same _ _ Hlr).
  - apply lookup_lt_Some in Ha. apply lookup_ge_None in Ha'. apply Forall2_length in Hl. lia.
  - apply lookup_lt_Some in Ha'. apply lookup_ge_None in Ha. apply Forall2_length in Hl. lia.
Qed.

Lemma align_loop_same fuel l l' body i : Forall2 same_but_marker l l' -> align_loop fuel l body i = align_loop fuel l' body i.
Proof.
  intros Hl. revert body i. induction fuel as [|fuel IH]; intros body i; [done|]. cbn [align_loop].
  destruct (body !! i) as [item|]; [|done]. destruct (runtime_note_text item) as [text|]; [|apply IH].
  rewrite (counterpart_same text l l' Hl). destruct (counterpart text l') as [[j n]|]; [|apply IH].
  rewrite (note_target_same l l' body j Hl). destruct (note_target l' body j) as [t|]; [|apply IH].
  destruct (Nat.ltb i t); [apply IH|]. destruct (_ && _); apply IH.
Qed.

(** No marker yet. *)
Definition unmarked (i : ConversationItem) : Prop := match i with CUser u => is_human (u_reason u) = true -> u_prompt_index u = None | _ => True end.

Lemma native_indices_stamp ms body : Forall unmarked body -> length ms = length (humans body) ->
  native_prompt_indices (stamp ms body) = omap id ms.
Proof.
  intros Hu. revert ms. induction Hu as [|i body Hi _ IH]; intros ms; [by destruct ms|]. unfold humans. cbn. destruct (is_human_item i) eqn:Hh.
  - destruct i as [|u| | | |]; try done. cbn in Hh, Hi. destruct ms as [|[pi|] ms]; [done| |]; cbn; intros [= Hl].
    + rewrite Hh. f_equal. by apply IH.
    + rewrite Hh, Hi by done. by apply IH.
  - intros Hl. assert (Hnone : native_prompt_indices (i :: stamp ms body) = native_prompt_indices (stamp ms body)).
    { destruct i as [|u| | | |]; try done. cbn in Hh |- *. by rewrite Hh. }
    transitivity (native_prompt_indices (i :: stamp ms body)); [done|]. rewrite Hnone. by apply IH.
Qed.

Lemma tail_markers_length m indices : length (tail_markers m indices) = m.
Proof. unfold tail_markers. rewrite length_app, length_replicate, length_map, length_drop. lia. Qed.

Lemma tail_markers_some m indices : omap id (tail_markers m indices) = drop (length indices - m) indices.
Proof.
  unfold tail_markers. rewrite omap_app. assert (Hr : ∀ k, omap id (replicate k (@None nat)) = []) by (induction k; [done|exact IHk]).
  rewrite Hr. cbn [app]. induction (drop _ _) as [|x l IH]; [done|]. cbn. by f_equal.
Qed.

(** ** The written conversation *)

Lemma split_prefix native : let '(p, r) := split_system_prefix native in
  native = p ++ r ∧ Forall (fun i => is_system_item i = true) p ∧ ∀ l, Forall (fun i => is_system_item i = false) l -> split_system_prefix (p ++ l) = (p, l).
Proof.
  assert (Hrest : ∀ l, split_system_prefix_from false l = ([], l)).
  { induction l as [|i l IH]; [done|]. cbn. destruct i; by rewrite IH. }
  assert (Hno : ∀ l, Forall (fun i => is_system_item i = false) l -> split_system_prefix_from true l = ([], l)).
  { intros l [|i l' Hi _]; [done|]. destruct i; try done; cbn; by rewrite Hrest. }
  unfold split_system_prefix. induction native as [|i native IH]; cbn; [auto|].
  destruct i; try (rewrite Hrest; split; [done|split; [constructor|exact Hno]]).
  destruct (split_system_prefix_from true native) as [p r]. destruct IH as (-> & Hp & Hl). split; [done|].
  split; [by constructor|]. intros l Hall. cbn. by rewrite (Hl l Hall).
Qed.

(** The items that are aligned: notes of the host's own prefix are dropped. *)
Definition kept_notes (body native : list ConversationItem) : list ConversationItem :=
  List.filter (fun item => match runtime_note_text item with
                           | Some text => negb (in_system_prefix (fst (split_system_prefix native)) text)
                           | None => true
                           end) body.

Lemma align_unfold body native : align_runtime_notes_with_native body native
  = align_loop (length (kept_notes body native)) (snd (split_system_prefix native)) (kept_notes body native) 0.
Proof. unfold align_runtime_notes_with_native, kept_notes. by destruct (split_system_prefix native). Qed.

(** No note has the text of a synthetic item, and the first note is not repeated. *)
Definition notes_apart (l : list ConversationItem) : Prop :=
  (∀ x y text, x ∈ l -> y ∈ l -> runtime_note_text x = Some text -> is_synthetic_text text y = false)
  ∧ (∀ x l' text, l = x :: l' -> runtime_note_text x = Some text -> ∀ y, y ∈ l' -> runtime_note_text y ≠ Some text).

(** Translated items: no system item, and no markers. *)
Definition bare (i : ConversationItem) : Prop := is_system_item i = false ∧ unmarked i.

Lemma kept_bare body native : Forall bare body -> Forall bare (kept_notes body native).
Proof. unfold kept_notes. induction 1; cbn; [constructor|]. case_match; [by constructor|done]. Qed.

Lemma aligned_bare l R : notes_apart l -> Forall bare l -> Forall bare (align_loop (length l) R l 0).
Proof.
  intros [H1 H2] Hl. rewrite Forall_forall in *. intros b [Hb|(text & x & j & _ & _ & Hc & _)]%(align_loop_members R l H1 H2); [by apply Hl|].
  apply counterpart_synthetic in Hc. destruct b as [|u| | | |]; try done. cbn in Hc. split; [done|]. intros Hh. cbn in Hh. by rewrite Hh in Hc.
Qed.

Lemma stamp_system ms body : Forall (fun i => is_system_item i = false) body -> Forall (fun i => is_system_item i = false) (stamp ms body).
Proof.
  intros Hb. pose proof (stamp_same ms body) as Hs. revert Hb. induction Hs as [|i j l l' Hij _ IH]; intros Hb; [constructor|].
  inversion_clear Hb as [|? ? Hi Hl]. constructor; [by destruct Hij|by apply IH].
Qed.

Lemma system_indices p l : Forall (fun i => is_system_item i = true) p -> native_prompt_indices (p ++ l) = native_prompt_indices l.
Proof. induction 1 as [|i p Hi _ IH]; [done|]. by destruct i. Qed.

Lemma place_body_fixpoint body native : Forall bare body -> notes_apart (kept_notes body native) ->
  place_body body (place_body body native) = place_body body native.
Proof.
  intros Hbare Hapart. unfold place_body at 2 3. rewrite align_unfold, assign_stamp. pose proof (split_prefix native) as Hsplit.
  set (kept := kept_notes body native) in *. destruct (split_system_prefix native) as [p R] eqn:Hs. cbn [fst snd]. destruct Hsplit as (_ & Hp & Hsp).
  set (A := align_loop (length kept) R kept 0). set (idx := native_prompt_indices native). set (ms := tail_markers (length (humans A)) idx).
  assert (HA : Forall bare A) by (by apply aligned_bare; [|apply kept_bare]).
  assert (Hsys : Forall (fun i => is_system_item i = false) (stamp ms A)) by (apply stamp_system; eapply Forall_impl; [exact HA|by intros i []]).
  unfold place_body. rewrite align_unfold, assign_stamp. unfold kept_notes. rewrite (Hsp _ Hsys). cbn [fst snd].
  assert (Hk : List.filter (fun item => match runtime_note_text item with Some text => negb (in_system_prefix p text) | None => true end) body = kept)
    by (unfold kept, kept_notes; by rewrite Hs).
  rewrite Hk. rewrite <- (align_loop_same (length kept) A (stamp ms A) kept 0) by apply stamp_same.
  pose proof (align_loop_fixpoint R kept (proj1 Hapart) (proj2 Hapart)) as Hfix. cbv zeta in Hfix. fold A in Hfix. rewrite Hfix.
  rewrite system_indices by done. rewrite native_indices_stamp by (by apply tail_markers_length || (eapply Forall_impl; [exact HA|by intros i []])).
  unfold ms. by rewrite tail_markers_some, tail_markers_tail.
Qed.

(** ** Translation *)

Section view.
Context `{BlockText, JsonText}.

Lemma flush_elem mode out bands i : i ∈ flush_bands mode out bands -> i ∈ out ∨ ∃ t, i = item_user_meta t.
Proof.
  unfold flush_bands. destruct (is_empty bands); [auto|]. destruct mode; rewrite elem_of_app.
  - intros [Hi|(t & -> & _)%list_elem_of_fmap]; eauto.
  - rewrite list_elem_of_singleton. intros [Hi| ->]; eauto.
Qed.

Lemma conserved_flush mode out bands : conserved (flush_bands mode out bands) = conserved out.
Proof.
  unfold flush_bands. destruct (is_empty bands); [done|]. destruct mode; rewrite conserved_app.
  - assert (Hm : conserved (map item_user_meta bands) = []) by (induction bands; [done|exact IHbands]). by rewrite Hm, app_nil_r.
  - apply app_nil_r.
Qed.

(** An item of the translation is a band or comes from an entry. *)
Lemma view_elem view kinds mode live body i : session_view_to_items view kinds mode live = Ok body -> i ∈ body ->
  (∃ t, i = item_user_meta t) ∨ ∃ e, e ∈ view ∧ i ∈ entry_items kinds live e.
Proof.
  unfold session_view_to_items. destruct (foldl _ _ view) as [out bands] eqn:Hf. intros [= <-] Hi. apply flush_elem in Hi as [Hi|Hi]; [|auto].
  revert out bands Hf Hi. induction view as [|e view IH] using rev_ind; intros out bands Hf Hi; [injection Hf as <- <-; by apply elem_of_nil in Hi|].
  rewrite foldl_app in Hf. destruct (foldl (view_step kinds mode live) ([], []) view) as [out0 bands0]. cbn [foldl] in Hf.
  assert (Hold : i ∈ out0 -> (∃ t, i = item_user_meta t) ∨ ∃ e0, e0 ∈ view ++ [e] ∧ i ∈ entry_items kinds live e0).
  { intros Hin. destruct (IH out0 bands0 eq_refl Hin) as [Hm|(e0 & He & Hi0)]; [auto|]. right. exists e0. rewrite elem_of_app. auto. }
  assert (Hstep : out = out0 ∨ out = flush_bands mode out0 bands0 ++ entry_items kinds live e).
  { unfold view_step in Hf. destruct e as [u| | | |]; [destruct (is_band_user u)|..]; injection Hf as <- <-; auto. }
  destruct Hstep as [-> | ->]; [by apply Hold|]. apply elem_of_app in Hi as [[Hi|Hi]%flush_elem|Hi]; [by apply Hold|auto|].
  right. exists e. rewrite elem_of_app, list_elem_of_singleton. auto.
Qed.

(** All but the bands and notes, entry by entry. *)
Lemma view_conserved view kinds mode live : ∃ body, session_view_to_items view kinds mode live = Ok body
  ∧ conserved body = concat (map (fun e => conserved (entry_items kinds live e)) view).
Proof.
  unfold session_view_to_items. destruct (foldl _ _ view) as [out bands] eqn:Hf. eexists. split; [done|]. rewrite conserved_flush.
  revert out bands Hf. induction view as [|e view IH] using rev_ind; intros out bands Hf; [by injection Hf as <- <-|].
  rewrite foldl_app in Hf. destruct (foldl (view_step kinds mode live) ([], []) view) as [out0 bands0]. cbn [foldl] in Hf.
  specialize (IH out0 bands0 eq_refl). rewrite map_app, concat_app, <- IH. cbn [map concat]. rewrite app_nil_r.
  assert (Hstep : (out = out0 ∧ conserved (entry_items kinds live e) = []) ∨ out = flush_bands mode out0 bands0 ++ entry_items kinds live e).
  { unfold view_step in Hf. destruct e as [u| | | |]; [destruct (is_band_user u) eqn:Hb|..]; injection Hf as <- <-; auto. left. split; [done|].
    cbn [entry_items]. unfold is_recorded_user_prompt. unfold is_band_user in Hb. by rewrite Hb. }
  destruct Hstep as [[-> ->]| ->]; [by rewrite app_nil_r|]. by rewrite conserved_app, conserved_flush.
Qed.

Lemma emitted_elem a live i : i ∈ emit_assistant_conserved a live -> (∃ x, i = CAssistant x) ∨ ∃ p,
  p ∈ am_content a ∧ i ∈ emit_thinking (match live with Some live => matches_live (mkIdentity (default [] (am_provider a)) (am_model a) (am_api a)) live | None => false end) p.
Proof.
  unfold emit_assistant_conserved. set (re := match live with Some live => _ | None => false end).
  assert (Hr : ∀ parts j, j ∈ reasonings (foldl (emit_part re) (mkEmitted [] [] []) parts) -> ∃ p, p ∈ parts ∧ j ∈ emit_thinking re p).
  { induction parts as [|p parts IH] using rev_ind; intros j Hj; [by apply elem_of_nil in Hj|]. rewrite foldl_app in Hj. cbn [foldl] in Hj.
    assert (Hcase : j ∈ reasonings (foldl (emit_part re) (mkEmitted [] [] []) parts) ∨ j ∈ emit_thinking re p).
    { unfold emit_part in Hj. repeat case_match; cbn in Hj; try rewrite elem_of_app in Hj; tauto. }
    destruct Hcase as [Ho|Hn]; [destruct (IH j Ho) as (q & Hq & Hjq); exists q|exists p]; by rewrite elem_of_app, list_elem_of_singleton; auto. }
  destruct (_ && _); [intros Hi; right; by apply Hr|]. rewrite elem_of_app, list_elem_of_singleton. intros [Hi| ->]; [right; by apply Hr|eauto].
Qed.

Lemma emit_thinking_elem re p i : i ∈ emit_thinking re p -> ∃ r, i = CReasoning r
  ∧ ∀ sig, r_encrypted_content r = Some sig -> re = true ∧ p_signature p = Some sig.
Proof.
  unfold emit_thinking. set (stored := p_signature p ≫= _).
  assert (Hst : ∀ sig, stored = Some sig -> p_signature p = Some sig).
  { unfold stored. intros sig. destruct (p_signature p) as [s|]; [|done]. cbn. destruct (is_empty s); [done|]. by intros [= ->]. }
  destruct re, (p_thinking p), stored as [s|]; cbn; rewrite ?list_elem_of_singleton; try (by intros ?%elem_of_nil);
    intros ->; eexists; (split; [done|]); cbn; try done; intros sig [= <-]; auto.
Qed.

Lemma entry_bare kinds live e i : i ∈ entry_items kinds live e -> bare i.
Proof.
  destruct e as [u|a|r|pr m|l]; cbn [entry_items]; rewrite ?list_elem_of_singleton; try (by intros ->).
  - intros ->. destruct (is_recorded_user_prompt _ _); [|done]. unfold prompt_item. by destruct (um_blocks u).
  - intros [[x ->]|(p & _ & Hi)]%emitted_elem; [done|]. by apply emit_thinking_elem in Hi as (r & -> & _).
  - intros ->. unfold result_item. destruct (rm_blocks r); [|done]. by destruct (tool_result_parts_from_blocks _).
Qed.

Lemma view_bare view kinds mode live body : session_view_to_items view kinds mode live = Ok body -> Forall bare body.
Proof.
  intros Hv. apply Forall_forall. intros i Hi. destruct (view_elem _ _ _ _ _ _ Hv Hi) as [[t ->]|(e & _ & He)]; [done|by eapply entry_bare].
Qed.

(** C31 Writing back is a fixpoint. When the notes of the view stand apart (none has the
    text of another synthetic item, the first one is not repeated), building the
    conversation again from the same view, on top of the conversation that was
    built, gives that conversation. *)
Theorem writeback_is_a_fixpoint native view kinds body items : session_view_to_items view kinds Writeback None = Ok body ->
  notes_apart (kept_notes body native) -> build_writeback_conversation native view kinds = Ok items ->
  build_writeback_conversation items view kinds = Ok items.
Proof.
  intros Hv Hapart. unfold build_writeback_conversation. rewrite Hv. destruct (is_empty body) eqn:He; [done|]. intros [= <-].
  f_equal. apply place_body_fixpoint; [by eapply view_bare|done].
Qed.

Lemma conserved_stamp ms body : conserved (stamp ms body) = stamp ms (conserved body).
Proof.
  revert ms. induction body as [|i body IH]; intros ms; [done|]. cbn [stamp]. destruct (is_human_item i) eqn:Hi.
  - assert (Hs : is_synthetic_user i = false) by (destruct i as [|u| | | |]; try done; cbn in *; by rewrite Hi).
    assert (Hk : ∀ pi, is_synthetic_user (set_prompt_index i pi) = false) by (intros pi; destruct i as [|u| | | |]; try done; cbn in *; by rewrite Hi).
    unfold conserved. cbn [List.filter]. rewrite Hs. cbn [negb stamp]. rewrite Hi.
    destruct ms as [|[pi|] ms]; cbn [List.filter]; rewrite ?Hk, ?Hs; cbn [negb]; f_equal; apply IH.
  - unfold conserved. cbn [List.filter]. destruct (negb (is_synthetic_user i)); cbn [stamp]; rewrite ?Hi; [f_equal|]; apply IH.
Qed.

Lemma humans_conserved l : humans (conserved l) = humans l.
Proof.
  unfold humans, conserved. induction l as [|i l IH]; [done|]. cbn. destruct i as [|u| | | |]; cbn; try done.
  destruct (is_human (u_reason u)) eqn:Hu; cbn; rewrite ?Hu; [by f_equal|done].
Qed.

Lemma conserved_systems p : Forall (fun i => is_system_item i = true) p -> conserved p = p.
Proof. induction 1 as [|i p Hi _ IH]; [done|]. destruct i; try done. unfold conserved. cbn. by f_equal. Qed.

(** C32 What is served is the archive's conversation. Translation never fails; but for bands
    and notes, the served body is the host's own system prefix and then, entry by
    entry and in order, the prompts, answers, calls and results of the view, where
    the last prompts carry the last prompt markers of the native conversation. *)
Theorem served_body_is_the_view native view kinds mode live : ∃ body, session_view_to_items view kinds mode live = Ok body
  ∧ let recorded := concat (map (fun e => conserved (entry_items kinds live e)) view) in
    conserved (place_body body native)
    = fst (split_system_prefix native) ++ stamp (tail_markers (length (humans recorded)) (native_prompt_indices native)) recorded.
Proof.
  destruct (view_conserved view kinds mode live) as (body & Hv & Hc). exists body. split; [done|]. cbv zeta. rewrite <- Hc.
  unfold place_body. rewrite assign_stamp, conserved_app, conserved_stamp, align_conserved.
  pose proof (split_prefix native) as Hs. destruct (split_system_prefix native) as [p R]. destruct Hs as (_ & Hp & _). cbn [fst].
  rewrite (conserved_systems p Hp). do 3 f_equal. by rewrite <- humans_conserved, align_conserved, humans_conserved.
Qed.

Lemma stamp_reasoning ms body r : CReasoning r ∈ stamp ms body -> CReasoning r ∈ body.
Proof.
  intros Hin. pose proof (stamp_same ms body) as Hs. revert Hin. induction Hs as [|i j l l' Hij _ IH]; [done|].
  rewrite !elem_of_cons. intros [<-|Hin]; [left; by inversion Hij|right; by apply IH].
Qed.

Lemma placed_reasoning body native r : CReasoning r ∈ place_body body native -> CReasoning r ∈ body.
Proof.
  unfold place_body. rewrite assign_stamp, elem_of_app. pose proof (split_prefix native) as Hs.
  destruct (split_system_prefix native) as [p R]. destruct Hs as (_ & Hp & _). cbn [fst]. intros [Hin|Hin%stamp_reasoning].
  - rewrite Forall_forall in Hp. by apply Hp in Hin.
  - assert (Hc : CReasoning r ∈ conserved (align_runtime_notes_with_native body native)).
    { unfold conserved. apply list_elem_of_In, List.filter_In. by rewrite <- list_elem_of_In. }
    rewrite align_conserved in Hc. unfold conserved in Hc. apply list_elem_of_In, List.filter_In in Hc as [Hc _]. by apply list_elem_of_In.
Qed.

(** Opaque reasoning goes back only where it came from. Every signature in a substituted
    body was recorded in a message of the view whose complete provider, model and
    interface are those of the request; a written conversation holds none. *)
Theorem signatures_go_home native view kinds live r sig : r_encrypted_content r = Some sig ->
  (∀ items, decide_substitution native view kinds live = Substitute items -> CReasoning r ∈ items ->
    ∃ l a p, live = Some l ∧ VAssistant a ∈ view ∧ p ∈ am_content a ∧ p_signature p = Some sig
      ∧ matches_live (mkIdentity (default [] (am_provider a)) (am_model a) (am_api a)) l = true)
  ∧ (∀ items, build_writeback_conversation native view kinds = Ok items -> CReasoning r ∉ items).
Proof.
  intros Hsig. assert (Hview : ∀ mode lv body, session_view_to_items view kinds mode lv = Ok body -> CReasoning r ∈ body ->
    ∃ l a p, lv = Some l ∧ VAssistant a ∈ view ∧ p ∈ am_content a ∧ p_signature p = Some sig
      ∧ matches_live (mkIdentity (default [] (am_provider a)) (am_model a) (am_api a)) l = true).
  { intros mode lv body Hv Hin. destruct (view_elem _ _ _ _ _ _ Hv Hin) as [[t Ht]|(e & He & Hi)]; [done|].
    destruct e as [u|a|x|pr m|l]; cbn [entry_items] in Hi; rewrite ?list_elem_of_singleton in Hi; try done.
    - destruct (is_recorded_user_prompt _ _); [|done]. unfold prompt_item in Hi. by destruct (um_blocks u).
    - apply emitted_elem in Hi as [[y Hy]|(p & Hp & Hi)]; [done|]. apply emit_thinking_elem in Hi as (r' & [= <-] & Hs).
      destruct (Hs sig Hsig) as [Hre Hps]. destruct lv as [l|]; [|done]. by exists l, a, p.
    - unfold result_item in Hi. destruct (rm_blocks x); [|done]. by destruct (tool_result_parts_from_blocks _). }
  split; intros items.
  - unfold decide_substitution. destruct (session_view_to_items view kinds Serve live) as [body|] eqn:Hv; [|done].
    destruct (is_empty body); [done|]. intros [= <-] Hin%placed_reasoning. by eapply Hview.
  - unfold build_writeback_conversation. destruct (session_view_to_items view kinds Writeback None) as [body|] eqn:Hv; [|done].
    destruct (is_empty body); [done|]. intros [= <-] Hin%placed_reasoning. by destruct (Hview _ _ _ Hv Hin) as (l & a & p & ? & _).
Qed.

(** *** Content blocks *)

(** The blocks of an event's payload. *)
Definition recorded_blocks (e : MappedEvent) : option (list JMap) :=
  map_get (lit "blocks") (payload (input e)) ≫= fun v => match v with JArray l => Some (omap as_object l) | _ => None end.

Lemma blocks_objects l : omap as_object (map JObject l) = l.
Proof. induction l as [|b l IH]; [done|]. cbn. by f_equal. Qed.

Lemma parts_blocks parts : content_parts_from_blocks (map part_block parts) = parts.
Proof.
  unfold content_parts_from_blocks. rewrite map_map. induction parts as [|p parts IH]; [done|]. cbn [map concat]. rewrite IH. clear IH.
  destruct p as [t|url]; cbn [part_block].
  - unfold text_block. rewrite map_get_insert_ne by by_decide. rewrite map_get_insert. cbn [mbind option_bind as_str].
    change (str_eqb (lit "text") (lit "text")) with true. cbn match. by rewrite map_get_insert.
  - assert (Ht : map_get (lit "type") (image_block url) = Some (JString (lit "image"))).
    { unfold image_block. rewrite map_get_insert_ne by by_decide. apply map_get_insert. }
    rewrite Ht. cbn [mbind option_bind as_str]. change (str_eqb (lit "image") (lit "text")) with false.
    change (str_eqb (lit "image") (lit "image")) with true. cbn match. by rewrite image_block_roundtrip.
Qed.

Lemma images_only l : Forall (fun p => is_image_part p = true) l -> omap part_text l = [] ∧ List.filter is_image_part l = l.
Proof. induction 1 as [|p l Hp _ [IH1 IH2]]; [done|]. destruct p; [done|]. cbn. by rewrite IH1, IH2. Qed.

(** What the capture records is served as it was. A prompt with images whose message
    carries the recorded blocks comes back with its parts in their order, and a tool
    result comes back whole: its call, its content and its images. *)
Theorem recorded_content_comes_back sid gen d occ parts um r rm : Forall (fun p => is_image_part p = true) (tr_images r) ->
  (let '(text, blocks) := content_parts_blocks parts in
   existsb is_image_part parts = true -> um_blocks um = recorded_blocks (user_prompt_event sid gen d occ text blocks) ->
   prompt_item um = item_user_with_parts parts)
  ∧ (rm_call_id rm = tr_tool_call_id r -> rm_content rm = tr_content r -> rm_blocks rm = recorded_blocks (tool_result_event sid gen d occ r) ->
     result_item rm = CToolResult r).
Proof.
  intros Himg. split.
  - unfold content_parts_blocks. destruct (existsb is_image_part parts) eqn:Hi; cbn [negb]; [|done]. intros _ Hb. unfold prompt_item.
    rewrite Hb. unfold recorded_blocks, user_prompt_event. cbn [input event payload]. rewrite map_get_insert. cbn [mbind option_bind].
    by rewrite blocks_objects, parts_blocks.
  - intros Hid Hc Hb. unfold result_item. rewrite Hb. clear Hb. unfold recorded_blocks, tool_result_event. cbn [input event payload]. destruct r as [id content images].
    cbn [tr_images tr_content tr_tool_call_id] in *. destruct (is_empty images) eqn:He.
    + apply is_empty_spec in He as ->. rewrite !map_get_insert_ne by by_decide. cbn [map_get mbind option_bind]. by rewrite Hid, Hc.
    + rewrite map_get_insert. cbn [mbind option_bind].
      assert (Ho : omap as_object ((if is_empty content then [] else [JObject (text_block content)]) ++ map (fun p => JObject (part_block p)) images)
        = map part_block ((if is_empty content then [] else [TextPart content]) ++ images)).
      { rewrite omap_app, map_app, <- (map_map part_block JObject images), blocks_objects. by destruct (is_empty content). }
      rewrite Ho. unfold tool_result_parts_from_blocks. rewrite parts_blocks, omap_app, List.filter_app. destruct (images_only _ Himg) as [-> ->].
      rewrite app_nil_r, Hid. destruct (is_empty content) eqn:Hce; [by apply is_empty_spec in Hce as ->|done].
Qed.
End view.

(** ** Who writes *)

(** One compaction event: the archive is tried while the bridge says so. *)
Definition bridge_run (m : CompactMode) (answers : list bool) : CompactEventBridge :=
  foldl (fun b ok => if should_attempt_replace b then record_replace_result ok b else b) (bridge_new m) answers.

(** An event tries the archive at most once, and has one writer: the archive when it is
    on and its one try succeeded, else the native compaction. *)
Theorem one_writer m answers : let b := bridge_run m answers in
  (lhc_attempts b <= 1)%N ∧ choke_action b = (if lhc_writes m && default false (head answers) then SkipNativeLhcWrote else RunNative)
  ∧ native_writes m = negb (lhc_writes m).
Proof.
  intros b. assert (Hstay : ∀ b0 l, should_attempt_replace b0 = false ->
    foldl (fun b ok => if should_attempt_replace b then record_replace_result ok b else b) b0 l = b0).
  { intros b0 l Hb. induction l as [|ok l IH]; [done|]. cbn [foldl]. by rewrite Hb. }
  unfold b, bridge_run. destruct m; [by rewrite Hstay|]. destruct answers as [|ok answers]; [done|].
  cbn [foldl]. change (should_attempt_replace (bridge_new Replace)) with true. cbn match. destruct ok; by rewrite Hstay.
Qed.

(** ** Runs *)

#[export] Instance demo_block_text : BlockText := fun _ => lit "[block]".

Definition view_note (text id : str) : ViewEntry := VUser (mkUserMessage (RUNTIME_NOTE_PREFIX ++ text) None [id]).
Definition view_prompt (text id : str) : ViewEntry := VUser (mkUserMessage text None [id]).
Definition view_band (text : str) : ViewEntry := VUser (mkUserMessage text None []).
Definition view_answer (text : str) : ViewEntry :=
  VAssistant (mkAssistantMessage
    [mkPart PThinking None (Some (lit "hm")) (Some (lit "sig")) None None None None; mkPart PText (Some text) None None None None None None]
    (Some (lit "xai")) (Some (lit "grok")) (Some (lit "responses"))).
Definition demo_kinds : SourceKindIndex := from_message_records [(lit "u1", UserPrompt); (lit "n1", RuntimeNote); (lit "n2", RuntimeNote)].
Definition demo_native : list ConversationItem :=
  [item_system (lit "sys"); set_prompt_index (item_user (lit "hi")) 3; item_system_reminder (lit "rem"); item_assistant (lit "ok")].
Definition demo_view : list ViewEntry :=
  [view_band (lit "before"); view_note (lit "sys") (lit "n1"); view_note (lit "rem") (lit "n2"); view_prompt (lit "hi") (lit "u1"); view_answer (lit "ok")].
Definition demo_body : list ConversationItem :=
  match session_view_to_items demo_view demo_kinds Writeback None with Ok body => body | Err _ => [] end.

(** [notes_apart], decided. *)
Definition notes_apart_b (l : list ConversationItem) : bool :=
  forallb (fun x => match runtime_note_text x with
                    | Some text => forallb (fun y => negb (is_synthetic_text text y)) l
                    | None => true
                    end) l
  && match l with
     | x :: l => match runtime_note_text x with
                 | Some text => forallb (fun y => negb (bool_decide (runtime_note_text y = Some text))) l
                 | None => true
                 end
     | [] => true
     end.

Lemma notes_apart_decided l : notes_apart_b l = true -> notes_apart l.
Proof.
  unfold notes_apart_b. intros [H1 H2]%andb_prop. rewrite forallb_forall in H1. split.
  - intros x y text Hx Hy Hn. rewrite list_elem_of_In in Hx, Hy. specialize (H1 x Hx). rewrite Hn in H1. rewrite forallb_forall in H1.
    specialize (H1 y Hy). by destruct (is_synthetic_text text y).
  - intros x l' text -> Hn y Hy Hn'. rewrite Hn in H2. rewrite forallb_forall in H2. rewrite list_elem_of_In in Hy. specialize (H2 y Hy).
    by rewrite bool_decide_eq_true_2 in H2.
Qed.

Lemma writeback_is_a_fixpoint_witness : ∃ items, build_writeback_conversation demo_native demo_view demo_kinds = Ok items
  ∧ length items = 6 ∧ build_writeback_conversation items demo_view demo_kinds = Ok items.
Proof.
  eexists. split; [vm_compute; reflexivity|]. split; [reflexivity|].
  apply (writeback_is_a_fixpoint demo_native demo_view demo_kinds demo_body);
    [vm_compute; reflexivity|apply notes_apart_decided; vm_compute; reflexivity|vm_compute; reflexivity].
Defined.

Definition demo_live_identity : HostAssistantIdentity := mkIdentity (lit "xai") (Some (lit "grok")) (Some (lit "responses")).
Definition demo_signed : ReasoningItem := mkReasoning [] [lit "hm"] None (Some (lit "sig")).
Definition demo_served : list ConversationItem :=
  match decide_substitution demo_native demo_view demo_kinds (Some demo_live_identity) with Substitute items => items | Native _ => [] end.

Lemma signatures_go_home_witness : CReasoning demo_signed ∈ demo_served
  ∧ ∃ l a p, Some demo_live_identity = Some l ∧ VAssistant a ∈ demo_view ∧ p ∈ am_content a ∧ p_signature p = Some (lit "sig")
      ∧ matches_live (mkIdentity (default [] (am_provider a)) (am_model a) (am_api a)) l = true.
Proof.
  assert (Hin : CReasoning demo_signed ∈ demo_served) by by_decide. split; [exact Hin|].
  apply (signatures_go_home demo_native demo_view demo_kinds (Some demo_live_identity) demo_signed (lit "sig") eq_refl) with demo_served;
    [vm_compute; reflexivity|exact Hin].
Defined.

Lemma recorded_content_comes_back_witness :
  let r := mkToolResult (lit "c") (lit "out") [ImagePart (lit "data:image/png;base64,AA")] in
  let blocks := recorded_blocks (tool_result_event (lit "s") 0 (lit "d") 0 r) in
  result_item (mkResultMessage (lit "c") (lit "out") blocks) = CToolResult r.
Proof.
  intros r blocks.
  apply (recorded_content_comes_back (lit "s") 0 (lit "d") 0 [] (mkUserMessage [] None []) r (mkResultMessage (lit "c") (lit "out") blocks)
    ltac:(by repeat constructor)); reflexivity.
Defined.

(** *** Where the fixpoint fails, and what alignment leaves behind *)

Definition rebuilt (native : list ConversationItem) (view : list ViewEntry) : list ConversationItem :=
  match build_writeback_conversation native view demo_kinds with Ok items => items | Err _ => [] end.

(** A reminder that is repeated in the view, its anchor compacted away. *)
Lemma repeated_note_moves :
  let native := [item_user (lit "gone"); item_system_reminder (lit "rem")] in
  let view := [view_note (lit "rem") (lit "n1"); view_answer (lit "ok"); view_note (lit "rem") (lit "n2")] in
  let once := rebuilt native view in
  once = item_system_reminder (lit "rem") :: rebuilt native [view_answer (lit "ok")] ++ [item_system_reminder (lit "rem")]
  ∧ rebuilt once view = [item_system_reminder (lit "rem"); item_system_reminder (lit "rem")] ++ rebuilt native [view_answer (lit "ok")].
Proof. by vm_compute. Qed.

(** A note with the text of a band. *)
Lemma note_like_a_band :
  let view := [view_band (lit "x"); view_note (lit "x") (lit "n1")] in
  rebuilt [] view = [item_user_meta (lit "x"); item_user_meta (RUNTIME_NOTE_PREFIX ++ lit "x")]
  ∧ rebuilt (rebuilt [] view) view = [item_user_meta (lit "x"); item_user_meta (lit "x")].
Proof. by vm_compute. Qed.

(** Of two notes ahead of their anchor the second is skipped: it stays ahead, as a note. *)
Lemma second_note_is_skipped :
  let native := [item_user (lit "hi"); item_system_reminder (lit "a"); item_system_reminder (lit "b")] in
  rebuilt native [view_note (lit "a") (lit "n1"); view_note (lit "b") (lit "n2"); view_prompt (lit "hi") (lit "u1")]
  = [item_user_meta (RUNTIME_NOTE_PREFIX ++ lit "b"); item_user (lit "hi"); item_system_reminder (lit "a")].
Proof. by vm_compute. Qed.
