(* ===== verification/LhcTee.v ===== *)
(** * From the conversation actor to the archive

    [grok-lhc-host/src/tee.rs]: the persistence of a session with the capture beside
    it, so that every call of the conversation actor goes to the capture and then to
    the disk; and the property of the three together: what the actor holds is in the
    archive. *)

From S2P Require Import Prelude RustStr Json Conversation Usage ChatTypes ChatState ChatStateSpec.
From S2P Require Import LhcKeys LhcMapping LhcSession LhcCapture LhcCaptureSpec LhcServing.

Section tee.
Context {W : Type} `{Archive W, ItemDigest, JsonText, SearchActionJson}.
(** [serde_json::to_value] of a usage. *)
Variable usage_value : TokenUsage -> option json.

(** The handle of the session's capture, when it has one that is open.

    Source: crates/lhc/grok-lhc-host/src/tee.rs:148-158, [LhcTeePersistence::with_handle]. *)
Definition with_handle (f : Capture (W:=W) -> Capture (W:=W)) (h : option (Capture (W:=W))) : option (Capture (W:=W)) :=
  match h with
  | Some c => if closed c then Some c else Some (f c)
  | None => None
  end.

(** A call goes to the capture, then in its native form to the disk.

    Source: crates/lhc/grok-lhc-host/src/tee.rs:161-220, [LhcTeePersistence]. *)
Definition tee_call (c : PersistCall) (h : option (Capture (W:=W))) : option (Capture (W:=W)) * PersistCall :=
  match c with
  | PersistMessage item => (with_handle (handle_persist item None None) h, PersistMessage item)
  | PersistMessageWithProviderUsage item provider_usage identity =>
      let usage_map := provider_usage ≫= token_usage_to_provider_usage usage_value in
      (with_handle (handle_persist item usage_map identity) h, PersistMessage item)
  | PersistWorkingDirectorySwitchAndAck item =>
      (with_handle (handle_persist item None None) h, PersistWorkingDirectorySwitchAndAck item)
  | ChatTypes.ReplaceHistory items => (with_handle (handle_replace_history items) h, ChatTypes.ReplaceHistory items)
  | ReplaceHistoryForLhcWriteback items source_tip =>
      (with_handle (handle_writeback_installed items source_tip) h, ChatTypes.ReplaceHistory items)
  | ReplaceHistoryForStripAndAck items => (h, ReplaceHistoryForStripAndAck items)
  | PersistFlush => (with_handle handle_flush_async h, PersistFlush)
  end.

(** The command a call sends. *)
Definition tee_command (c : PersistCall) : option CaptureCmd :=
  match c with
  | PersistMessage item => Some (Persist item None None)
  | PersistMessageWithProviderUsage item provider_usage identity =>
      Some (Persist item (provider_usage ≫= token_usage_to_provider_usage usage_value) identity)
  | PersistWorkingDirectorySwitchAndAck item => Some (Persist item None None)
  | ChatTypes.ReplaceHistory items => Some (ReplaceHistory items)
  | ReplaceHistoryForLhcWriteback items source_tip => Some (WritebackInstalled (mkGenerated items source_tip))
  | ReplaceHistoryForStripAndAck _ => None
  | PersistFlush => Some Flush
  end.

(** The items of a call. *)
Definition call_items (c : PersistCall) : list ConversationItem := default [] (cmd_items <$> tee_command c).

(** A call whose items the capture gets as the disk gets them: no body of the archive is
    written back and no image stripped. *)
Definition plain (c : PersistCall) : Prop :=
  match c with ReplaceHistoryForLhcWriteback _ _ | ReplaceHistoryForStripAndAck _ => False | _ => True end.

(** *** The queue *)

(** The actor calls, and the worker takes a command, in any order. *)
Inductive Event := Called (c : PersistCall) | Worked.

Definition calls_made (evs : list Event) : list PersistCall := omap (fun e => match e with Called c => Some c | Worked => None end) evs.

Definition event_step (sid : str) (c : Capture (W:=W)) (e : Event) : Capture (W:=W) :=
  match e with
  | Called call => default c (fst (tee_call call (Some c)))
  | Worked => worker_step sid c
  end.

(** The queue has room at every call. *)
Fixpoint never_full (sid : str) (c : Capture (W:=W)) (evs : list Event) : Prop :=
  match evs with
  | [] => True
  | e :: evs => (match e with Called _ => length (queue c) < CAPTURE_QUEUE_CAP | Worked => True end)
                ∧ never_full sid (event_step sid c e) evs
  end.

(** The worker when it has taken what is queued. *)
Definition drained (sid : str) (c : Capture (W:=W)) : LhcSession W * Worker := run sid (queue c) (worker_session c, worker c).

Lemma tee_call_sends call c : closed c = false -> length (queue c) < CAPTURE_QUEUE_CAP ->
  default c (fst (tee_call call (Some c)))
  = mkCapture (queue c ++ match tee_command call with Some cmd => [cmd] | None => [] end) (closed c) (worker_session c) (worker c).
Proof.
  intros Hc Hl. assert (Hsend : ∀ cmd, try_send cmd c = (Ok tt, mkCapture (queue c ++ [cmd]) (closed c) (worker_session c) (worker c))).
  { intros cmd. unfold try_send. rewrite Hc, (proj2 (Nat.leb_gt _ _)) by done. done. }
  destruct call; cbn [tee_call fst with_handle tee_command]; try rewrite Hc; cbn [default];
    unfold handle_persist, handle_replace_history, handle_writeback_installed, handle_flush_async, send_or_drop, send_or_poison;
    try (rewrite Hsend, Hc; done). rewrite app_nil_r. destruct c. cbn in *. by subst.
Qed.

(** While it has room, the queue hides nothing: the worker comes to the state of taking
    every command of the calls, in their order. *)
Lemma drained_run sid c evs : closed c = false -> never_full sid c evs ->
  drained sid (foldl (event_step sid) c evs) = run sid (omap tee_command (calls_made evs)) (drained sid c).
Proof.
  revert c. induction evs as [|e evs IH]; intros c Hc Hf; [done|]. destruct Hf as [Hl Hf]. cbn [foldl].
  destruct e as [call|]; cbn [event_step] in *.
  - rewrite (tee_call_sends call c Hc Hl) in Hf |- *. rewrite IH by done. cbn [calls_made omap list_omap]. unfold drained. cbn [queue worker_session worker].
    destruct (tee_command call) as [cmd|]; [|by rewrite app_nil_r]. unfold run. rewrite foldl_app. done.
  - assert (Hcl : closed (worker_step sid c) = false).
    { unfold worker_step. destruct (queue c); [done|]. by destruct (process_cmd _ _ _ _) as [[? ?] ?]. }
    rewrite IH by done. cbn [calls_made omap list_omap]. f_equal. unfold drained, worker_step. destruct (queue c) as [|cmd rest] eqn:Hq; [by rewrite ?Hq|].
    unfold run. cbn [foldl]. unfold step at 3. cbn [fst snd]. by destruct (process_cmd _ _ _ _) as [[? ?] ?].
Qed.

(** ** What the archive holds *)

Section archived.
Context `{!ArchiveLaws W, !ItemDigestLaws}.
Variable sid : str.
Hypothesis sid_ok : encode_session_id sid ≠ lit "tool_result".

(** The capture counted every item of the history as often as it occurs. *)
Definition covered (disk : list ConversationItem) (w : Worker) : Prop :=
  ∀ d, (N.of_nat (occurrences d disk) <= count_of (tracker w) d)%N.

Lemma occurrences_snoc d l i : occurrences d (l ++ [i]) = occurrences d l + if decide (item_digest i = d) then 1 else 0.
Proof.
  unfold occurrences. rewrite filter_app, length_app. f_equal. rewrite filter_cons, filter_nil. by case_decide.
Qed.

Lemma covered_persist disk w w' item : covered disk w -> (count_of (tracker w) (item_digest item) < u64_max)%N ->
  tracker w' = snd (next_occurrence (tracker w) (item_digest item)) -> covered (disk ++ [item]) w'.
Proof.
  intros Hc Hmax Ht d. rewrite Ht, count_next, occurrences_snoc by done. specialize (Hc d). case_decide; lia.
Qed.

Lemma covered_le disk disk' w : (∀ d, occurrences d disk' ≤ occurrences d disk) -> covered disk w -> covered disk' w.
Proof. intros Hle Hc d. specialize (Hle d). specialize (Hc d). lia. Qed.

(** The disk appends at most what the capture counts. *)
Lemma disk_append_le disk item d : occurrences d (fst (append_cwd_switch disk item)) ≤ occurrences d (disk ++ [item]).
Proof.
  unfold append_cwd_switch. rewrite occurrences_snoc. case_match; cbn [fst]; [|lia]. case_match; cbn [fst]; [lia|]. by rewrite occurrences_snoc.
Qed.

(** A whole history, when no body is installed, raises the counts to its own. *)
Lemma replace_none items s w : installed w = None -> let '(_, w') := process_replace_history sid items s w in
  installed w' = None ∧ tracker w' = merge_monotonic (tracker w) (advance tracker_empty items).
Proof.
  intros Hins. unfold process_replace_history. set (w0 := set_open_calls (reset_from items) w).
  assert (Hf : let '(_, w1) := flush_deferred s w0 in installed w1 = None ∧ tracker w1 = tracker w).
  { unfold flush_deferred. by destruct (deferred_turn_end w0). }
  destruct (flush_deferred s w0) as [s1 w1]. destruct Hf as [Hi1 Ht1]. unfold remap_slice. rewrite Hi1. cbn [installed set_poisoned set_tracker tracker].
  split; [done|]. rewrite Ht1. f_equal. apply (map_history_keys sid ITEM_KEY_GENERATION items no_facts tracker_empty).
Qed.

Lemma covered_step U call disk s w cmd n : life sid true U s w -> collision_free U -> installed w = None -> covered disk w ->
  plain call -> tee_command call = Some cmd -> roomy (tracker w) (length (cmd_items cmd) + n) ->
  let '(_, w') := step sid (s, w) cmd in installed w' = None ∧ covered (disk_step disk call) w'.
Proof.
  intros Hlife Hcf Hins Hcov Hplain Hcmd Hroom. destruct (life_inv sid sid_ok _ _ _ _ Hlife) as (Hi & _ & _ & Hset).
  specialize (Hset eq_refl Hcf). pose proof (st_poison _ _ _ _ Hset) as Hp.
  assert (Hpersist : ∀ item u id, cmd = Persist item u id -> (∀ d, occurrences d (disk_step disk call) ≤ occurrences d (disk ++ [item])) ->
    let '(_, w') := step sid (s, w) cmd in installed w' = None ∧ covered (disk_step disk call) w').
  { intros item u id -> Hle. assert (Hr1 : roomy (tracker w) 1) by (eapply roomy_le; [|exact Hroom]; cbn; lia).
    pose proof (persist_spec sid sid_ok item u id s w Hi Hr1 Hp) as Hs. unfold step. cbn [process_cmd fst snd].
    destruct (process_persist sid item u id s w) as [s' w']. destruct Hs as (_ & _ & Ht & Hins' & _). split; [congruence|].
    apply (covered_le (disk ++ [item])); [exact Hle|]. eapply covered_persist; [done| |done]. specialize (Hr1 (item_digest item)). lia. }
  destruct call as [item|item pu id|item|items| |items|]; try done; injection Hcmd as <-.
  - by eapply Hpersist.
  - by eapply Hpersist.
  - eapply Hpersist; [done|]. intros d. apply disk_append_le.
  - pose proof (replace_none items s w Hins) as Hs. unfold step. cbn [process_cmd fst snd].
    destruct (process_replace_history sid items s w) as [s' w']. destruct Hs as [Hi' Ht]. split; [done|]. intros d. cbn [disk_step].
    assert (Hfit : counts_fit tracker_empty items).
    { intros d'. specialize (Hroom d'). cbn [cmd_items] in Hroom. change (count_of tracker_empty d') with 0%N. lia. }
    rewrite Ht, count_merge, count_advance by done. change (count_of tracker_empty d) with 0%N. lia.
  - unfold step. cbn [process_cmd fst snd]. pose proof (flush_inv s w Hi) as Hf. destruct (flush_deferred s w) as [s1 w1].
    destruct Hf as (_ & _ & _ & _ & Ht & Hins1 & _). split; [congruence|]. intros d. rewrite Ht. apply Hcov.
Qed.

(** The items of a list of calls. *)
Definition calls_items (calls : list PersistCall) : list ConversationItem := concat (map call_items calls).

Lemma disk_items disk calls i : Forall plain calls -> i ∈ foldl disk_step disk calls -> i ∈ disk ∨ i ∈ calls_items calls.
Proof.
  intros Hp. revert disk. induction Hp as [|c calls Hc _ IH]; intros disk Hi; [auto|]. cbn [foldl] in Hi. unfold calls_items in *. cbn [map concat].
  rewrite elem_of_app. apply IH in Hi as [Hi|Hi]; [|auto]. assert (Hstep : i ∈ disk ∨ i ∈ call_items c); [|tauto].
  unfold call_items. destruct c; cbn in *; try done; rewrite ?elem_of_app in Hi; try tauto.
  unfold append_cwd_switch in Hi. repeat case_match; cbn in Hi; rewrite ?elem_of_app in Hi; tauto.
Qed.

Lemma covered_run U calls disk s w n : life sid true U s w -> collision_free U -> installed w = None -> covered disk w ->
  Forall plain calls -> (∀ i, i ∈ calls_items calls -> i ∈ U) -> roomy (tracker w) (length (calls_items calls) + n) ->
  let '(s', w') := run sid (omap tee_command calls) (s, w) in
  life sid true U s' w' ∧ installed w' = None ∧ covered (foldl disk_step disk calls) w' ∧ roomy (tracker w') n.
Proof.
  intros Hlife Hcf Hins Hcov Hp. revert disk s w Hlife Hins Hcov. induction Hp as [|c calls Hc _ IH]; intros disk s w Hlife Hins Hcov HU Hroom; [done|].
  unfold calls_items in Hroom, HU. cbn [map concat] in Hroom, HU. rewrite length_app in Hroom.
  assert (Hcmd : ∃ cmd, tee_command c = Some cmd) by (destruct c; try done; by eexists). destruct Hcmd as [cmd Hcmd].
  unfold call_items in Hroom, HU. rewrite Hcmd in Hroom, HU. cbn in Hroom, HU. rewrite <- Nat.add_assoc in Hroom.
  cbn [omap list_omap]. rewrite Hcmd. cbn [foldl].
  pose proof (covered_step U c disk s w cmd _ Hlife Hcf Hins Hcov Hc Hcmd Hroom) as Hs.
  destruct (life_inv sid sid_ok _ _ _ _ Hlife) as (Hi & _). pose proof (step_inv sid sid_ok cmd s w _ Hi Hroom) as Hsi.
  unfold run. cbn [foldl]. destruct (step sid (s, w) cmd) as [s1 w1] eqn:Hst. destruct Hs as [Hins1 Hcov1]. destruct Hsi as (_ & _ & Hroom1 & _).
  apply (IH (disk_step disk c) s1 w1); try done; [|intros i Hin; apply HU; rewrite elem_of_app; by right].
  eapply life_step; [exact Hlife|intros i Hin; apply HU; rewrite elem_of_app; by left| |exact Hst]. eapply roomy_le; [|exact Hroom]. lia.
Qed.

(** C30 What the actor holds is in the archive, as long as no call of the archive has failed and no process
    died with a close kept back ([life true]), and no two items share a digest. An actor is spawned on a history without duplicated
    results or unanswered calls, which the capture has counted, and serves any commands that strip no image, write no generated
    body back and restore no snapshot (a switch of directory being acknowledged with the disk's own answer); its
    calls reach the capture, open and with an empty queue and no generated body installed, through a queue that
    is never full, the worker taking commands at any time. When the queue is drained and the close kept back is
    released, every item of the conversation in memory is stored under its key, and mapping the conversation again (a
    rewrite, a restart) records nothing. (The counts of occurrences have room, and the session's encoded identifier
    is not [tool_result].) *)
Theorem conversation_is_archived {J : JsonSizes} start config pruning cmds U c evs :
  no_duplicates [] [] start -> has_dangling_tool_calls start = false ->
  served_run start (spawn_with_pruning start config pruning) cmds ->
  let a := run_actor (spawn_with_pruning start config pruning) cmds in
  calls_made evs = persistence a -> Forall plain (persistence a) ->
  closed c = false -> queue c = [] -> never_full sid c evs ->
  life sid true U (worker_session c) (worker c) -> installed (worker c) = None -> covered start (worker c) ->
  collision_free U -> (∀ i, i ∈ start ++ calls_items (persistence a) -> i ∈ U) ->
  roomy (tracker (worker c)) (length (calls_items (persistence a)) + length (conversation (state a))) ->
  let '(s1, w1) := step sid (drained sid (foldl (event_step sid) c evs)) Flush in
  (∀ key, key ∈ history_keys sid ITEM_KEY_GENERATION tracker_empty (conversation (state a)) -> key ∈ stored s1)
  ∧ stored (fst (step sid (s1, w1) (ReplaceHistory (conversation (state a))))) = stored s1.
Proof.
  intros Hn Hd Hserved a Hcalls Hplain Hcl Hq Hfull Hlife Hins Hcov Hcf HU Hroom.
  assert (Hconv : foldl disk_step start (persistence a) = conversation (state a)) by (apply run_mirrored; [by apply spawn_mirrored|done]).
  rewrite drained_run, Hcalls by done. unfold drained. rewrite Hq. cbn [run foldl].
  pose proof (covered_run U (persistence a) start _ _ _ Hlife Hcf Hins Hcov Hplain ltac:(intros i Hi; apply HU; rewrite elem_of_app; by right) Hroom) as Hrun.
  destruct (run sid (omap tee_command (persistence a)) (worker_session c, worker c)) as [s w]. destruct Hrun as (Hl & Hi & Hcv & Hr).
  rewrite Hconv in Hcv. apply (captured_history_is_settled sid sid_ok U s w (conversation (state a))); try done.
  - intros i Hin. apply HU. rewrite elem_of_app. rewrite <- Hconv in Hin. by apply disk_items.
  - specialize (Hr []). lia.
Qed.
End archived.
End tee.

(** A compaction for the write-back reads only: it leaves the events and the worker alone,
    and the tip it carries is the tip of the session. *)
Lemma writeback_tip {W} `{Archive W, !ArchiveLaws W, ItemDigest, JsonText, SearchActionJson} as_context sid mode cancel cancelled s w wb s' w' :
  replace_compact_for_writeback as_context sid mode cancel cancelled (Some (s, w)) = (Ok wb, Some (s', w')) ->
  wb_source_tip wb = generation s ∧ stored s' = stored s ∧ w' = w.
Proof.
  unfold replace_compact_for_writeback. destruct mode; [done|]. cbn [process_cmd].
  pose proof (compact_spec cancel s) as Hs. assert (Hg : generation (snd (session_compact cancel s)) = generation s).
  { unfold session_compact. repeat case_match; done. }
  destruct (session_compact cancel s) as [r s1]. destruct Hs as [Hst _]. cbn [snd] in Hg. destruct r as [receipt|e]; [|done].
  destruct cancelled; [done|]. pose proof (call_reads GetClassifyContext (thread_ref s1) (lhc s1)) as Hread.
  destruct (archive_call GetClassifyContext (thread_ref s1) (lhc s1)) as [reply world]. destruct (as_context reply) as [[view kinds]|]; [|done].
  intros [= <- <- <-]. split; [done|]. split; [|done]. unfold stored in *. cbn in *. congruence.
Qed.

(** The disk sees the calls as the actor made them. *)
Lemma tee_transparent {W} `{Archive W} uv call h disk : disk_step disk (snd (tee_call (W := W) uv call h)) = disk_step disk call.
Proof. by destruct call. Qed.

(** ** Runs *)

Definition demo_actor : Actor :=
  @run_actor demo_sizes (spawn_with_pruning [] demo_config default_pruning)
    [PushUserMessage (item_user (lit "hi")); PushAssistantResponse (item_assistant (lit "hello")); PushUserMessage (item_user (lit "hi"))].
Definition demo_events : list Event := concat (map (fun c => [Called c; Worked]) (persistence demo_actor)).
Definition demo_capture : Capture := mkCapture [] false (fst demo_start) (snd demo_start).
Definition no_usage : TokenUsage -> option json := fun _ => None.

Lemma conversation_is_archived_witness :
  let '(s1, w1) := step (lit "s") (drained (lit "s") (foldl (event_step no_usage (lit "s")) demo_capture demo_events)) Flush in
  stored (fst (step (lit "s") (s1, w1) (ReplaceHistory (conversation (state demo_actor))))) = stored s1.
Proof.
  pose proof (conversation_is_archived no_usage (lit "s") demo_sid (J := demo_sizes) [] demo_config default_pruning
    [PushUserMessage (item_user (lit "hi")); PushAssistantResponse (item_assistant (lit "hello")); PushUserMessage (item_user (lit "hi"))]
    (calls_items no_usage (persistence demo_actor)) demo_capture demo_events) as Hc.
  cbv zeta in Hc. fold demo_actor in Hc.
  assert (Hall : let '(s1, w1) := step (lit "s") (drained (lit "s") (foldl (event_step no_usage (lit "s")) demo_capture demo_events)) Flush in
    (∀ key, key ∈ history_keys (lit "s") ITEM_KEY_GENERATION tracker_empty (conversation (state demo_actor)) -> key ∈ stored s1)
    ∧ stored (fst (step (lit "s") (s1, w1) (ReplaceHistory (conversation (state demo_actor))))) = stored s1).
  { apply Hc.
    - done.
    - done.
    - cbn [served_run served]. done.
    - vm_compute. reflexivity.
    - vm_compute. repeat constructor.
    - reflexivity.
    - reflexivity.
    - vm_compute. repeat split; lia.
    - apply demo_new.
    - vm_compute. reflexivity.
    - intros d. cbn. lia.
    - apply collision_free_decided. by_decide.
    - done.
    - apply demo_roomy. vm_compute. discriminate. }
  destruct (step _ _ _). by destruct Hall.
Defined.

(** A directory switch is captured before the disk answers: asked for twice, it is on disk
    once and in the archive twice. *)
Lemma directory_switch_twice :
  let item := item_working_directory_switch (lit "moved") 1 in
  let calls := [PersistWorkingDirectorySwitchAndAck item; PersistWorkingDirectorySwitchAndAck item] in
  let '(s, _) := run (lit "s") (omap (tee_command no_usage) calls) demo_start in
  foldl disk_step [] calls = [item]
  ∧ mem_unique (lhc s) = item_keys (lit "s") 0 (item_digest item) 0 item ++ item_keys (lit "s") 0 (item_digest item) 1 item.
Proof. by vm_compute. Qed.
