(* ===== verification/ShellWords.v ===== *)
(** * Shell commands: splitting and peeling

    [crates/codegen/xai-grok-workspace/src/permission/bash_command_splitting.rs]:
    the plain commands of a script read off its syntax tree, and the peeling of
    wrapper commands ([timeout], [env], ...) and transparent prefixes ([exec],
    [command], [builtin]) down to the command that runs. The parser is
    tree-sitter's: a tree is data here. The display helpers of the file
    (soft breaks) are not modelled. *)

From S2P Require Export RustStr.
From Stdlib Require Import Sorting.Sorted.

(** ** Words *)

(** [matches!(s, "a" | "b" | ...)]. *)
Definition str_in (l : list string) (s : str) : bool := existsb (fun x => str_eqb (lit x) s) l.

Definition dash : str := lit "-".
Definition backslash : ascii := byte 92.

(** [s.rsplit(['/', '\\']).next()]. *)
Definition base_name (s : str) : str :=
  rev ((fix last_segment (l : str) : str :=
          match l with
          | [] => []
          | c :: l' => if ch_eqb c (byte 47) || ch_eqb c backslash then [] else c :: last_segment l'
          end) (rev s)).

(** [words.get(i..)]. *)
Definition get_from {A} (l : list A) (i : nat) : option (list A) :=
  if Nat.leb i (length l) then Some (drop i l) else None.

(** Source: crates/codegen/xai-grok-workspace/src/permission/bash_command_splitting.rs:141-150, [is_setup_command]. *)
Definition is_setup_command (cmd : list str) : bool :=
  match cmd with
  | [] => true
  | h :: _ => str_in ["cd"; "pushd"; "popd"; "export"; "unset"; "set"; "sleep"; "timeout"] h
  end.

Definition name_byte (c : ascii) : bool :=
  is_ascii_alphabetic c || is_ascii_digit c || ch_eqb c (byte 95).

(** Source: crates/codegen/xai-grok-workspace/src/permission/bash_command_splitting.rs:153-166, [is_env_assignment]. *)
Definition is_env_assignment (tok : str) : bool :=
  match find (lit "=") tok with
  | None => false
  | Some eq =>
      match take eq tok with
      | [] => false
      | b :: _ as name =>
          (is_ascii_alphabetic b || ch_eqb b (byte 95)) && forallb name_byte name
      end
  end.

(** ** [env] *)

(** Source: crates/codegen/xai-grok-workspace/src/permission/bash_command_splitting.rs:168-177, [EnvScan]. *)
Record EnvScan := mkEnvScan {
  chdir : option str;
  scan_split_string : bool;
  options_uncertain : bool;
  split_string_script : option str;
  command_start : nat
}.

Definition quote_char (ch : str) : bool := str_in ["'"] ch || str_eqb ch dq.

(** The loop over the characters, with the open quote.

    Source: crates/codegen/xai-grok-workspace/src/permission/bash_command_splitting.rs:186-201, [decode_shell_literal_spelling]. *)
Fixpoint decode_loop (quote : option str) (out : str) (l : list str) : option str :=
  match l with
  | [] => match quote with None => Some out | Some _ => None end
  | ch :: l' =>
      match quote with
      | None =>
          if quote_char ch then decode_loop (Some ch) out l'
          else if str_eqb ch [backslash] then
            match l' with
            | [] => None
            | n :: l'' => decode_loop None (out ++ n) l''
            end
          else decode_loop None (out ++ ch) l'
      | Some open =>
          if str_eqb ch open then decode_loop None out l'
          else if str_eqb open dq && str_eqb ch [backslash] then
            match l' with
            | [] => None
            | n :: l'' =>
                if str_in ["$"; "`"] n || str_eqb n dq || str_eqb n [backslash] || str_eqb n nl
                then decode_loop quote (out ++ n) l''
                else decode_loop quote (out ++ [backslash] ++ n) l''
            end
          else decode_loop quote (out ++ ch) l'
      end
  end.

(** Source: crates/codegen/xai-grok-workspace/src/permission/bash_command_splitting.rs:182-203, [decode_shell_literal_spelling]. *)
Definition decode_shell_literal_spelling (raw : str) : option str := decode_loop None [] (chars raw).

(** Source: crates/codegen/xai-grok-workspace/src/permission/bash_command_splitting.rs:207-216, [decode_env_option_token]. *)
Definition decode_env_option_token (raw : str) : str :=
  if negb (existsb quote_char (chars raw)) then raw
  else match decode_shell_literal_spelling raw with
       | Some decoded => decoded
       | None => raw
       end.

(** Source: crates/codegen/xai-grok-workspace/src/permission/bash_command_splitting.rs:220-226, [is_high_confidence_env_s_payload]. *)
Definition is_high_confidence_env_s_payload (s : str) : bool :=
  negb (is_empty s)
  && negb (existsb (ch_eqb (byte 0)) s)
  && negb (existsb (fun c => str_in ["'"; "\"; "#"; "`"; "$"] c || str_eqb c dq || str_eqb c nl
                             || str_eqb c [byte 13]) (chars s)).

(** Source: crates/codegen/xai-grok-workspace/src/permission/bash_command_splitting.rs:230-232, [take_high_confidence_payload]. *)
Definition take_high_confidence_payload (raw : str) : option str :=
  if is_high_confidence_env_s_payload raw then Some raw else None.

(** Source: crates/codegen/xai-grok-workspace/src/permission/bash_command_splitting.rs:235-247, [EnvShort]. *)
Inductive EnvShort :=
  | SplitStringNext
  | SplitStringGlued (rest : str)
  | SplitStringDetect
  | NoArg
  | ArgNeedNext (kind : str)
  | ArgGlued (kind : str)
  | Uncertain.

(** The [while] loop, on the characters from [idx] on.

    Source: crates/codegen/xai-grok-workspace/src/permission/bash_command_splitting.rs:268-285, [classify_env_short]. *)
Fixpoint env_short_loop (l : list str) : EnvShort :=
  match l with
  | [] => NoArg
  | c :: l' =>
      if str_in ["i"; "v"; "0"] c then env_short_loop l'
      else if str_in ["S"] c then SplitStringDetect
      else if str_in ["u"; "C"; "P"; "a"] c then
        if negb (is_empty l') then ArgGlued c else ArgNeedNext c
      else Uncertain
  end.

(** Source: crates/codegen/xai-grok-workspace/src/permission/bash_command_splitting.rs:251-286, [classify_env_short]. *)
Definition classify_env_short (tok : str) : EnvShort :=
  if negb (starts_with dash tok) || starts_with (lit "--") tok || str_eqb tok dash then Uncertain
  else
    let body := drop 1 tok in
    if is_empty body then Uncertain
    else match strip_prefix (lit "S") body with
         | Some rest => if is_empty rest then SplitStringNext else SplitStringGlued rest
         | None => env_short_loop (chars body)
         end.

(** One iteration of the option loop at index [i]: [inl] continues, [inr]
    breaks out.

    Source: crates/codegen/xai-grok-workspace/src/permission/bash_command_splitting.rs:308-434, [env_scan]. *)
Definition env_scan_step (cmd : list str) (s : EnvScan) : EnvScan + EnvScan :=
  let i := command_start s in
  let at_ k := mkEnvScan (chdir s) (scan_split_string s) (options_uncertain s) (split_string_script s) k in
  let uncertain :=
    inr (mkEnvScan (chdir s) (scan_split_string s) true (split_string_script s) i) in
  let split script := inr (mkEnvScan (chdir s) true (options_uncertain s) script i) in
  (* [split_string_script] keeps its value when there is no next word *)
  let split_next :=
    split (match cmd !! (i + 1) with
           | Some raw => take_high_confidence_payload raw
           | None => split_string_script s
           end) in
  let set_chdir dir k :=
    inl (mkEnvScan (Some dir) (scan_split_string s) (options_uncertain s) (split_string_script s) k) in
  match cmd !! i with
  | None => inr s
  | Some tok_raw =>
      if str_eqb tok_raw (lit "--") then inr (at_ (i + 1))
      else if str_eqb tok_raw dash then inl (at_ (i + 1))
      else if negb (starts_with dash tok_raw) then
        if is_env_assignment tok_raw then inl (at_ (i + 1)) else inr s
      else if starts_with (lit "--") tok_raw then
        if str_eqb tok_raw (lit "--chdir") then
          match cmd !! (i + 1) with
          | Some dir => set_chdir dir (i + 2)
          | None => uncertain
          end
        else match strip_prefix (lit "--chdir=") tok_raw with
        | Some dir => set_chdir dir (i + 1)
        | None =>
        if str_in ["--unset"; "--path"; "--argv0"] tok_raw then
          match cmd !! (i + 1) with Some _ => inl (at_ (i + 2)) | None => uncertain end
        else if starts_with (lit "--unset=") tok_raw || starts_with (lit "--path=") tok_raw
                || starts_with (lit "--argv0=") tok_raw then inl (at_ (i + 1))
        else if str_in ["--ignore-environment"; "--null"; "--debug"; "--version"; "--help"] tok_raw
        then inl (at_ (i + 1))
        else if str_eqb tok_raw (lit "--split-string") then split_next
        else match strip_prefix (lit "--split-string=") tok_raw with
        | Some payload =>
            let decoded := decode_env_option_token tok_raw in
            let payload := match strip_prefix (lit "--split-string=") decoded with
                           | Some p => p
                           | None => payload
                           end in
            split (take_high_confidence_payload payload)
        | None => uncertain
        end end
      else
        match classify_env_short (decode_env_option_token tok_raw) with
        | SplitStringNext => split_next
        | SplitStringGlued payload => split (take_high_confidence_payload payload)
        | SplitStringDetect => split (split_string_script s)
        | NoArg => inl (at_ (i + 1))
        | ArgNeedNext kind =>
            match cmd !! (i + 1) with
            | Some operand => if str_in ["C"] kind then set_chdir operand (i + 2) else inl (at_ (i + 2))
            | None => uncertain
            end
        | ArgGlued kind =>
            if str_in ["C"] kind then
              set_chdir (match strip_prefix (lit "-C") tok_raw with Some d => d | None => [] end) (i + 1)
            else inl (at_ (i + 1))
        | Uncertain => uncertain
        end
  end.

(** Every continuing iteration advances the index, which the step leaves in
    the words: [length cmd] iterations are enough. *)
Fixpoint env_scan_loop (cmd : list str) (fuel : nat) (s : EnvScan) : EnvScan :=
  match fuel with
  | 0 => s
  | S fuel' =>
      match env_scan_step cmd s with
      | inl s' => env_scan_loop cmd fuel' s'
      | inr s' => s'
      end
  end.

(** Source: crates/codegen/xai-grok-workspace/src/permission/bash_command_splitting.rs:302-442, [env_scan]. *)
Definition env_scan (cmd : list str) : EnvScan :=
  env_scan_loop cmd (S (length cmd)) (mkEnvScan None false false None 1).

(** Source: crates/codegen/xai-grok-workspace/src/permission/bash_command_splitting.rs:446-455, [env_split_string_script]. *)
Definition env_split_string_script (words : list str) : option str :=
  match words with
  | [] => None
  | h :: _ =>
      if negb (str_eqb (base_name h) (lit "env")) then None
      else let scan := env_scan words in
           if negb (scan_split_string scan) then None else split_string_script scan
  end.

(** ** Wrapper commands *)

(** [while cmd.get(i).is_some_and(|t| t.starts_with('-'))]: an option of
    [two] takes two words, any other one. Each iteration advances [i]. *)
Fixpoint skip_options (two : list string) (cmd : list str) (fuel i : nat) : nat :=
  match fuel with
  | 0 => i
  | S fuel' =>
      match cmd !! i with
      | Some t =>
          if starts_with dash t then
            skip_options two cmd fuel' (if str_in two t then i + 2 else i + 1)
          else i
      | None => i
      end
  end.

(** Source: crates/codegen/xai-grok-workspace/src/permission/bash_command_splitting.rs:463-546, [strip_wrapper_command]. *)
Definition wrapper_operand_start (head : str) (cmd : list str) : option nat :=
  let skip two := skip_options two cmd (length cmd) 1 in
  if str_eqb head (lit "timeout") then
    let i := skip ["-k"; "-s"; "--kill-after"; "--signal"] in
    if Nat.leb (length cmd) i then None else Some (i + 1)
  else if str_eqb head (lit "nice") then Some (skip ["-n"; "--adjustment"])
  else if str_eqb head (lit "ionice") then
    Some (skip ["-c"; "-n"; "-p"; "-P"; "-u"; "--class"; "--classdata"; "--pid"; "--pgid"; "--uid"])
  else if str_eqb head (lit "chrt") then
    let i := skip [] in
    if Nat.leb (length cmd) i then None else Some (i + 1)
  else if str_eqb head (lit "stdbuf") then Some (skip ["-i"; "-o"; "-e"])
  else if str_eqb head (lit "env") then
    let scan := env_scan cmd in
    if scan_split_string scan || options_uncertain scan then None else Some (command_start scan)
  else None.

(** Source: crates/codegen/xai-grok-workspace/src/permission/bash_command_splitting.rs:459-552, [strip_wrapper_command]. *)
Definition strip_wrapper_command (cmd : list str) : option (list str) :=
  match cmd with
  | [] => None
  | h :: _ =>
      match wrapper_operand_start (base_name h) cmd with
      | None => None
      | Some i =>
          match get_from cmd i with
          | Some inner => if is_empty inner then None else Some inner
          | None => None
          end
      end
  end.

(** Source: crates/codegen/xai-grok-workspace/src/permission/bash_command_splitting.rs:557-562, [is_wrapper_command]. *)
Definition is_wrapper_command (words : list str) : bool :=
  match words with
  | [] => false
  | w :: _ => str_in ["timeout"; "nice"; "ionice"; "chrt"; "stdbuf"; "env"] (base_name w)
  end.

(** Source: crates/codegen/xai-grok-workspace/src/permission/bash_command_splitting.rs:564-564, [MAX_WRAPPER_DEPTH]. *)
Definition MAX_WRAPPER_DEPTH : nat := 8.
(** Source: crates/codegen/xai-grok-workspace/src/permission/bash_command_splitting.rs:566-566, [MAX_INLINE_SHELL_DEPTH]. *)
Definition MAX_INLINE_SHELL_DEPTH : nat := 8.

(** Source: crates/codegen/xai-grok-workspace/src/permission/bash_command_splitting.rs:568-576, [CheckedWrapperPeel]. *)
Record CheckedWrapperPeel := mkPeel {
  peel_words : list str;
  peel_has_chdir : bool;
  peel_has_split_string : bool;
  peel_env_options_uncertain : bool;
  peel_exhausted : bool
}.

Definition head_is_env (words : list str) : bool :=
  match words with [] => false | w :: _ => str_eqb (base_name w) (lit "env") end.

(** The [for _ in 0..n] loop.

    Source: crates/codegen/xai-grok-workspace/src/permission/bash_command_splitting.rs:584-610, [unwrap_wrappers_checked]. *)
Fixpoint unwrap_loop (n : nat) (p : CheckedWrapperPeel) : CheckedWrapperPeel :=
  let current := peel_words p in
  match n with
  | 0 =>
      mkPeel current (peel_has_chdir p) (peel_has_split_string p) (peel_env_options_uncertain p)
        (is_wrapper_command current
         && match strip_wrapper_command current with Some _ => true | None => false end)
  | S n' =>
      let p :=
        if head_is_env current then
          let scan := env_scan current in
          mkPeel current (peel_has_chdir p || match chdir scan with Some _ => true | None => false end)
            (peel_has_split_string p || scan_split_string scan)
            (peel_env_options_uncertain p || options_uncertain scan) false
        else p in
      match strip_wrapper_command current with
      | Some inner =>
          unwrap_loop n' (mkPeel inner (peel_has_chdir p) (peel_has_split_string p)
                            (peel_env_options_uncertain p) false)
      | None => p
      end
  end.

(** Source: crates/codegen/xai-grok-workspace/src/permission/bash_command_splitting.rs:579-611, [unwrap_wrappers_checked]. *)
Definition unwrap_wrappers_checked (words : list str) : CheckedWrapperPeel :=
  unwrap_loop MAX_WRAPPER_DEPTH (mkPeel words false false false false).

(** Source: crates/codegen/xai-grok-workspace/src/permission/bash_command_splitting.rs:615-617, [unwrap_wrappers]. *)
Definition unwrap_wrappers (words : list str) : list str := peel_words (unwrap_wrappers_checked words).

(** ** Transparent prefixes *)

(** Source: crates/codegen/xai-grok-workspace/src/permission/bash_command_splitting.rs:729-733, [TransparentStrip]. *)
Inductive TransparentStrip :=
  | NotPrefix
  | Peeled (inner : list str)
  | StripAmbiguous.

Definition nul : str := [byte 0].

(** [tok.chars().skip(1)] all, or some, among the ASCII characters [cs]. *)
Definition rest_all (cs : list string) (tok : str) : bool := forallb (str_in cs) (drop 1 (chars tok)).
Definition rest_any (cs : list string) (tok : str) : bool := existsb (str_in cs) (drop 1 (chars tok)).

Definition peeled_from (cmd : list str) (i : nat) : TransparentStrip :=
  match get_from cmd i with
  | Some inner => if negb (is_empty inner) then Peeled inner else NotPrefix
  | None => NotPrefix
  end.

(** The option loop at index [i].

    Source: crates/codegen/xai-grok-workspace/src/permission/bash_command_splitting.rs:750-791, [strip_exec_prefix]. *)
Fixpoint exec_loop (cmd : list str) (fuel i : nat) : TransparentStrip :=
  match fuel with
  | 0 => peeled_from cmd i
  | S fuel' =>
      match cmd !! i with
      | None => peeled_from cmd i
      | Some tok =>
          if str_eqb tok (lit "--") then peeled_from cmd (i + 1)
          else if str_eqb tok dash || negb (starts_with dash tok) then peeled_from cmd i
          else if str_in ["-c"; "-l"; "-cl"; "-lc"] tok then exec_loop cmd fuel' (i + 1)
          else if str_eqb tok (lit "-a") then
            match cmd !! (i + 1) with
            | Some v =>
                if negb (str_eqb v nul) && negb (is_empty v) then exec_loop cmd fuel' (i + 2)
                else StripAmbiguous
            | None => StripAmbiguous
            end
          else
            match strip_prefix (lit "-a") tok with
            | Some rest => if str_eqb rest nul then StripAmbiguous else exec_loop cmd fuel' (i + 1)
            | None =>
                if starts_with dash tok && negb (starts_with (lit "--") tok) && rest_all ["c"; "l"] tok
                then exec_loop cmd fuel' (i + 1)
                else StripAmbiguous
            end
      end
  end.

(** Source: crates/codegen/xai-grok-workspace/src/permission/bash_command_splitting.rs:749-792, [strip_exec_prefix]. *)
Definition strip_exec_prefix (cmd : list str) : TransparentStrip := exec_loop cmd (length cmd) 1.

(** Source: crates/codegen/xai-grok-workspace/src/permission/bash_command_splitting.rs:796-826, [strip_command_prefix]. *)
Fixpoint command_loop (cmd : list str) (fuel i : nat) : TransparentStrip :=
  match fuel with
  | 0 => peeled_from cmd i
  | S fuel' =>
      match cmd !! i with
      | None => peeled_from cmd i
      | Some tok =>
          if str_eqb tok (lit "--") then peeled_from cmd (i + 1)
          else if str_eqb tok dash || negb (starts_with dash tok) then peeled_from cmd i
          else if str_in ["-v"; "-V"; "--help"; "--version"] tok
                  || (starts_with dash tok && negb (starts_with (lit "--") tok) && rest_any ["v"; "V"] tok)
          then NotPrefix
          else if str_eqb tok (lit "-p")
                  || (starts_with dash tok && negb (starts_with (lit "--") tok) && rest_all ["p"] tok)
          then command_loop cmd fuel' (i + 1)
          else StripAmbiguous
      end
  end.

(** Source: crates/codegen/xai-grok-workspace/src/permission/bash_command_splitting.rs:795-827, [strip_command_prefix]. *)
Definition strip_command_prefix (cmd : list str) : TransparentStrip := command_loop cmd (length cmd) 1.

(** Source: crates/codegen/xai-grok-workspace/src/permission/bash_command_splitting.rs:830-839, [strip_builtin_prefix]. *)
Definition strip_builtin_prefix (cmd : list str) : TransparentStrip :=
  match cmd !! 1 with
  | None => NotPrefix
  | Some tok =>
      if starts_with dash tok && negb (str_eqb tok dash) then StripAmbiguous else peeled_from cmd 1
  end.

(** Source: crates/codegen/xai-grok-workspace/src/permission/bash_command_splitting.rs:735-746, [strip_transparent_prefix]. *)
Definition strip_transparent_prefix (cmd : list str) : TransparentStrip :=
  match cmd with
  | [] => NotPrefix
  | h :: _ =>
      if is_empty h || str_eqb h nul then NotPrefix
      else
        let head := base_name h in
        if str_eqb head (lit "exec") then strip_exec_prefix cmd
        else if str_eqb head (lit "command") then strip_command_prefix cmd
        else if str_eqb head (lit "builtin") then strip_builtin_prefix cmd
        else NotPrefix
  end.

(** Source: crates/codegen/xai-grok-workspace/src/permission/bash_command_splitting.rs:628-631, [TransparentPrefixPeel]. *)
Inductive TransparentPrefixPeel :=
  | Ready (words : list str)
  | PeelAmbiguous.

(** Source: crates/codegen/xai-grok-workspace/src/permission/bash_command_splitting.rs:633-633, [MAX_TRANSPARENT_PREFIX_DEPTH]. *)
Definition MAX_TRANSPARENT_PREFIX_DEPTH : nat := 8.
(** Source: crates/codegen/xai-grok-workspace/src/permission/bash_command_splitting.rs:635-635, [MAX_NORMALIZE_ROUNDS]. *)
Definition MAX_NORMALIZE_ROUNDS : nat := MAX_WRAPPER_DEPTH + MAX_TRANSPARENT_PREFIX_DEPTH.

(** Source: crates/codegen/xai-grok-workspace/src/permission/bash_command_splitting.rs:641-654, [peel_transparent_prefixes]. *)
Fixpoint transparent_loop (n : nat) (current : list str) : TransparentPrefixPeel :=
  match n with
  | 0 =>
      match strip_transparent_prefix current with
      | NotPrefix => Ready current
      | _ => PeelAmbiguous
      end
  | S n' =>
      match strip_transparent_prefix current with
      | NotPrefix => Ready current
      | Peeled inner => transparent_loop n' inner
      | StripAmbiguous => PeelAmbiguous
      end
  end.

(** Source: crates/codegen/xai-grok-workspace/src/permission/bash_command_splitting.rs:639-655, [peel_transparent_prefixes]. *)
Definition peel_transparent_prefixes (words : list str) : TransparentPrefixPeel :=
  transparent_loop MAX_TRANSPARENT_PREFIX_DEPTH words.

(** ** Normalization *)

(** Source: crates/codegen/xai-grok-workspace/src/permission/bash_command_splitting.rs:658-665, [NormalizedCommandPeel]. *)
Record NormalizedCommandPeel := mkNorm {
  norm_words : list str;
  has_chdir : bool;
  has_split_string : bool;
  env_options_uncertain : bool;
  exhausted : bool;
  ambiguous : bool
}.

(** The [for _ in 0..n] loop. The words are always a tail of one slice, so
    comparing lengths compares the slices and their addresses.

    Source: crates/codegen/xai-grok-workspace/src/permission/bash_command_splitting.rs:678-705, [normalize_command_words]. *)
Fixpoint normalize_loop (n : nat) (p : NormalizedCommandPeel) : NormalizedCommandPeel :=
  match n with
  | 0 => p
  | S n' =>
      let start_len := length (norm_words p) in
      let wrapped := unwrap_wrappers_checked (norm_words p) in
      let p :=
        mkNorm (peel_words wrapped) (has_chdir p || peel_has_chdir wrapped)
          (has_split_string p || peel_has_split_string wrapped)
          (env_options_uncertain p || peel_env_options_uncertain wrapped)
          (exhausted p || peel_exhausted wrapped) (ambiguous p) in
      if has_split_string p || env_options_uncertain p then p
      else
        match peel_transparent_prefixes (norm_words p) with
        | Ready inner =>
            let p := mkNorm inner (has_chdir p) (has_split_string p) (env_options_uncertain p)
                       (exhausted p) (ambiguous p) in
            if Nat.eqb (length inner) start_len then p else normalize_loop n' p
        | PeelAmbiguous =>
            mkNorm (norm_words p) (has_chdir p) (has_split_string p) (env_options_uncertain p)
              (exhausted p) true
        end
  end.

(** Source: crates/codegen/xai-grok-workspace/src/permission/bash_command_splitting.rs:670-727, [normalize_command_words]. *)
Definition normalize_command_words (words : list str) : NormalizedCommandPeel :=
  let p := normalize_loop MAX_NORMALIZE_ROUNDS (mkNorm words false false false false false) in
  if negb (ambiguous p) && negb (has_split_string p) && negb (env_options_uncertain p) then
    let current := norm_words p in
    let still_wrapper :=
      is_wrapper_command current
      && match strip_wrapper_command current with Some _ => true | None => false end in
    let still_transparent :=
      match strip_transparent_prefix current with NotPrefix => false | _ => true end in
    if still_wrapper || still_transparent then
      mkNorm current (has_chdir p) (has_split_string p) (env_options_uncertain p) true (ambiguous p)
    else p
  else p.

Definition words_of (l : list string) : list str := map lit l.

Example normalize_ex :
  norm_words (normalize_command_words
    (words_of ["timeout"; "-k"; "5"; "10"; "env"; "A=1"; "command"; "-p"; "rm"; "-rf"; "/"]))
  = words_of ["rm"; "-rf"; "/"].
Proof. reflexivity. Qed.

(** ** Syntax trees

    What the code reads of a tree-sitter node: its kind, whether it is named,
    its span, the field of its parent it stands in, its children. The text of a
    node is the script's bytes between its offsets. *)

Inductive Node := mkNode {
  kind : str;
  is_named : bool;
  start_byte : nat;
  end_byte : nat;
  node_field : option str;
  children : list Node
}.

(** The root, and tree-sitter's flag that the parse met an error. *)
Record Tree := mkTree { root_node : Node; root_has_error : bool }.

Definition named_children (n : Node) : list Node := List.filter is_named (children n).
Definition node_text (src : str) (n : Node) : str :=
  take (end_byte n - start_byte n) (drop (start_byte n) src).
Definition kind_is (k : string) (n : Node) : bool := str_eqb (lit k) (kind n).

(** Source: crates/codegen/xai-grok-workspace/src/permission/bash_command_splitting.rs:58-88, [try_parse_word_only_commands_sequence]. *)
Definition ALLOWED_KINDS : list string :=
  ["program"; "list"; "pipeline"; "command"; "command_name"; "word"; "string"; "string_content";
   "raw_string"; "number"; "concatenation"; "variable_assignment"; "variable_name";
   "redirected_statement"; "file_redirect"; "file_descriptor"; "comment"; "heredoc_redirect";
   "heredoc_start"; "heredoc_body"; "heredoc_content"; "heredoc_end"].

(** Source: crates/codegen/xai-grok-workspace/src/permission/bash_command_splitting.rs:90-94, [try_parse_word_only_commands_sequence]. *)
Definition allowed_punct (k : str) : bool :=
  str_in ["&&"; "||"; ";"; "|"; "'"; "="; ">"; ">>"; "<"; "<<"; ">&"; "&>"; "&>>"] k || str_eqb k dq.

(** The checks on one node.

    Source: crates/codegen/xai-grok-workspace/src/permission/bash_command_splitting.rs:101-119, [try_parse_word_only_commands_sequence]. *)
Definition node_allowed (n : Node) : bool :=
  if is_named n then str_in ALLOWED_KINDS (kind n)
  else
    negb (existsb (fun c => existsb (ch_eqb c) (lit "&;|")) (kind n) && negb (allowed_punct (kind n)))
    && (allowed_punct (kind n) || is_empty (trim (kind n))).

(** The number of nodes. *)
Fixpoint node_size (n : Node) : nat :=
  match n with mkNode _ _ _ _ _ cs => S (list_sum (map node_size cs)) end.

(** The walk with its explicit stack, last in first out; one iteration per
    node.

    Source: crates/codegen/xai-grok-workspace/src/permission/bash_command_splitting.rs:101-124, [try_parse_word_only_commands_sequence]. *)
Fixpoint walk (fuel : nat) (stack command_nodes : list Node) : option (list Node) :=
  match fuel with
  | 0 => None
  | S fuel' =>
      match stack with
      | [] => Some command_nodes
      | node :: stack' =>
          if negb (node_allowed node) then None
          else
            walk fuel' (rev (children node) ++ stack')
              (if is_named node && kind_is "command" node then command_nodes ++ [node]
               else command_nodes)
      end
  end.

(** Source: crates/codegen/xai-grok-workspace/src/permission/bash_command_splitting.rs:16-20, [PlainCommand]. *)
Record PlainCommand := mkPlain { words : list str; span_start : nat; span_end : nat }.

(** Source: crates/codegen/xai-grok-workspace/src/permission/bash_command_splitting.rs:31-38, [PlainCommand::spans_whole_script]. *)
Definition spans_whole_script (c : PlainCommand) (script : str) : bool :=
  if is_char_boundary script (span_start c) && is_char_boundary script (span_end c) then
    is_empty (trim (take (span_start c) script)) && is_empty (trim (drop (span_end c) script))
  else false.

(** One child of a command node: the words and span after it, or a refusal.

    Source: crates/codegen/xai-grok-workspace/src/permission/bash_command_splitting.rs:931-1007, [parse_plain_command_from_node]. *)
Definition plain_child (src : str) (acc : option (list str * option nat * option nat)) (child : Node) :
    option (list str * option nat * option nat) :=
  match acc with
  | None => None
  | Some (ws, s, e) =>
      let at_ (n : Node) (text : str) :=
        Some (ws ++ [text], Some (match s with Some s => s | None => start_byte n end), Some (end_byte n)) in
      if kind_is "variable_assignment" child then acc
      else if kind_is "command_name" child then
        match named_children child with
        | word_node :: _ =>
            if negb (kind_is "word" word_node) then None else at_ word_node (node_text src word_node)
        | [] => None
        end
      else if kind_is "word" child || kind_is "number" child then at_ child (node_text src child)
      else if kind_is "string" child
              && match children child with
                 | [q1; content; q2] =>
                     str_eqb (kind q1) dq && kind_is "string_content" content && str_eqb (kind q2) dq
                 | _ => false
                 end
      then match children child with
           | [_; content; _] => at_ child (node_text src content)
           | _ => None
           end
      else if kind_is "raw_string" child then
        let text := node_text src child in
        match strip_prefix (lit "'") text with
        | Some s1 =>
            match rev s1 with
            | c :: r => if ch_eqb c (byte 39) then at_ child (rev r) else None
            | [] => None
            end
        | None => None
        end
      else if kind_is "concatenation" child then at_ child (node_text src child)
      else None
  end.

(** Source: crates/codegen/xai-grok-workspace/src/permission/bash_command_splitting.rs:921-1018, [parse_plain_command_from_node]. *)
Definition parse_plain_command_from_node (src : str) (cmd : Node) : option PlainCommand :=
  if negb (kind_is "command" cmd) then None
  else
    match fold_left (plain_child src) (named_children cmd) (Some ([], None, None)) with
    | None => None
    | Some (ws, s, e) =>
        Some (mkPlain ws (match s with Some s => s | None => start_byte cmd end)
                (match e with Some e => e | None => end_byte cmd end))
    end.

Fixpoint parse_all (src : str) (l : list Node) : option (list PlainCommand) :=
  match l with
  | [] => Some []
  | n :: l' =>
      match parse_plain_command_from_node src n with
      | None => None
      | Some c => match parse_all src l' with Some cs => Some (c :: cs) | None => None end
      end
  end.

(** Source: crates/codegen/xai-grok-workspace/src/permission/bash_command_splitting.rs:53-138, [try_parse_word_only_commands_sequence]. *)
Definition try_parse_word_only_commands_sequence (tree : Tree) (src : str) : option (list PlainCommand) :=
  if root_has_error tree then None
  else
    match walk (S (node_size (root_node tree))) [root_node tree] [] with
    | None => None
    | Some command_nodes => parse_all src (sort_asc start_byte command_nodes)
    end.

(** [parser] is [try_parse_shell], tree-sitter's parse of a script.

    Source: crates/codegen/xai-grok-workspace/src/permission/bash_command_splitting.rs:914-917, [all_commands_from_script]. *)
Definition all_commands_from_script (parser : str -> option Tree) (script : str) :
    option (list PlainCommand) :=
  match parser script with
  | None => None
  | Some tree => try_parse_word_only_commands_sequence tree script
  end.

(** ** The primary command *)

(** The loop, with the quote it is in and the word so far.

    Source: crates/codegen/xai-grok-workspace/src/permission/bash_command_splitting.rs:842-878, [sh_split_simple]. *)
Fixpoint sh_split_loop (in_single in_double : bool) (current : str) (l : list str) : list str :=
  match l with
  | [] => if is_empty current then [] else [current]
  | c :: l' =>
      if str_eqb c (lit "'") && negb in_double then sh_split_loop (negb in_single) in_double current l'
      else if str_eqb c dq && negb in_single then sh_split_loop in_single (negb in_double) current l'
      else if str_eqb c [backslash] then
        match l' with
        | [] => if is_empty current then [] else [current]
        | next :: l'' => sh_split_loop in_single in_double (current ++ next) l''
        end
      else if is_whitespace c && negb in_single && negb in_double then
        if is_empty current then sh_split_loop in_single in_double [] l'
        else current :: sh_split_loop in_single in_double [] l'
      else sh_split_loop in_single in_double (current ++ c) l'
  end.

(** Source: crates/codegen/xai-grok-workspace/src/permission/bash_command_splitting.rs:842-878, [sh_split_simple]. *)
Definition sh_split_simple (s : str) : list str := sh_split_loop false false [] (chars s).

(** Source: crates/codegen/xai-grok-workspace/src/permission/bash_command_splitting.rs:5-10, [BashCommandHighlights]. *)
Record BashCommandHighlights := mkHighlights { hl_prefix : list str; highlighted_words : list str; hl_suffix : list str }.

(** The first command that is more than its wrappers and is no setup command,
    with the number of words peeled off and the rest.

    Source: crates/codegen/xai-grok-workspace/src/permission/bash_command_splitting.rs:887-895, [primary_command_from_script]. *)
Fixpoint find_primary (commands : list PlainCommand) : option (PlainCommand * nat * list str) :=
  match commands with
  | [] => None
  | c :: commands' =>
      let peeled := unwrap_wrappers (words c) in
      if is_empty peeled || is_setup_command peeled then find_primary commands'
      else
        let peeled_off := length (words c) - length peeled in
        match get_from (words c) peeled_off with
        | Some peeled_words => Some (c, peeled_off, peeled_words)
        | None => find_primary commands'
        end
  end.

(** Source: crates/codegen/xai-grok-workspace/src/permission/bash_command_splitting.rs:881-910, [primary_command_from_script]. *)
Definition primary_command_from_script (parser : str -> option Tree) (script : str) : option BashCommandHighlights :=
  commands ← all_commands_from_script parser script;
  '(primary, peeled_off, peeled_words) ← find_primary commands;
  if is_char_boundary script (span_start primary) && is_char_boundary script (span_end primary) then
    Some (mkHighlights
            (sh_split_simple (take (span_start primary) script) ++ take peeled_off (words primary))
            peeled_words
            (sh_split_simple (drop (span_end primary) script)))
  else None.

(** * Theorems *)

(** ** The loops have enough fuel and advance *)

Ltac scan_cases :=
  repeat match goal with
  | |- context [if ?b then _ else _] => destruct b
  | |- context [match ?x with Some _ => _ | None => _ end] => destruct x
  | |- context [match classify_env_short ?x with _ => _ end] => destruct (classify_env_short x)
  end.

(** One iteration: it continues only at a word of the command, with a larger
    index, and never goes back. *)
Lemma env_scan_step_advances cmd s :
  match env_scan_step cmd s with
  | inl s' => command_start s < length cmd ∧ command_start s < command_start s'
  | inr s' => command_start s ≤ command_start s'
  end.
Proof.
  unfold env_scan_step. cbn zeta.
  destruct (cmd !! command_start s) as [tok|] eqn:Hi; [|done].
  apply lookup_lt_Some in Hi. scan_cases; cbn; lia.
Qed.

Lemma env_scan_loop_start cmd fuel s : command_start s ≤ command_start (env_scan_loop cmd fuel s).
Proof.
  revert s. induction fuel as [|fuel IH]; intros s; simpl; [done|].
  pose proof (env_scan_step_advances cmd s) as Hs. destruct (env_scan_step cmd s) as [s'|s']; [|done].
  specialize (IH s'). lia.
Qed.

(** More fuel than the words that remain changes nothing. *)
Lemma env_scan_loop_fuel cmd f1 f2 s :
  length cmd < f1 + command_start s -> length cmd < f2 + command_start s -> 0 < f1 -> 0 < f2 ->
  env_scan_loop cmd f1 s = env_scan_loop cmd f2 s.
Proof.
  revert f2 s. induction f1 as [|f1 IH]; intros [|f2] s H1 H2 Hp1 Hp2; try lia. simpl.
  pose proof (env_scan_step_advances cmd s) as Hs. destruct (env_scan_step cmd s) as [s'|s']; [|done].
  apply IH; lia.
Qed.

Lemma env_scan_total cmd fuel :
  S (length cmd) ≤ fuel -> env_scan cmd = env_scan_loop cmd fuel (mkEnvScan None false false None 1).
Proof. intros Hf. apply env_scan_loop_fuel; simpl; lia. Qed.

Lemma skip_options_start two cmd fuel i : i ≤ skip_options two cmd fuel i.
Proof.
  revert i. induction fuel as [|fuel IH]; intros i; cbn [skip_options]; [done|].
  destruct (cmd !! i) as [t|]; [|done]. destruct (starts_with dash t); [|done].
  destruct (str_in two t); [specialize (IH (i + 2))|specialize (IH (i + 1))]; lia.
Qed.

Lemma wrapper_operand_start_pos h cmd i : wrapper_operand_start h cmd = Some i -> 1 ≤ i.
Proof.
  unfold wrapper_operand_start. cbn zeta. intros Hi.
  repeat match goal with
  | H : context [if ?b then _ else _] |- _ => destruct b
  end; simplify_eq; try apply skip_options_start; try lia.
  apply (env_scan_loop_start cmd (S (length cmd)) (mkEnvScan None false false None 1)).
Qed.

(** ** Peeling takes a shorter tail *)

Lemma get_from_tail {A} (l : list A) i inner :
  get_from l i = Some inner -> 1 ≤ i -> inner ≠ [] -> inner `suffix_of` l ∧ length inner < length l.
Proof.
  unfold get_from. destruct (Nat.leb_spec i (length l)); [|done]. intros [= <-] Hi Hne.
  split; [apply suffix_drop|]. rewrite length_drop.
  destruct (drop i l) eqn:E; [done|]. apply (f_equal length) in E. rewrite length_drop in E. simpl in E. lia.
Qed.

Lemma strip_wrapper_tail cmd inner :
  strip_wrapper_command cmd = Some inner -> inner `suffix_of` cmd ∧ length inner < length cmd.
Proof.
  unfold strip_wrapper_command. destruct cmd as [|h t]; [done|].
  destruct (wrapper_operand_start (base_name h) (h :: t)) as [i|] eqn:Ei; [|done].
  apply wrapper_operand_start_pos in Ei.
  destruct (get_from (h :: t) i) as [l|] eqn:E; [|done]. intros Hl.
  destruct l as [|x l]; [done|]. injection Hl as <-. by eapply get_from_tail.
Qed.

(** What is stripped had a wrapper's name. *)
Lemma strip_wrapper_is_wrapper cmd inner :
  strip_wrapper_command cmd = Some inner -> is_wrapper_command cmd = true.
Proof.
  unfold strip_wrapper_command, is_wrapper_command. destruct cmd as [|h t]; [done|].
  unfold wrapper_operand_start, str_in. cbn [existsb]. cbn zeta. intros Hs.
  repeat match goal with
  | H : context [if str_eqb ?a ?b then _ else _] |- _ =>
      let E := fresh "E" in destruct (str_eqb a b) eqn:E;
      [apply str_eqb_eq in E; rewrite E; reflexivity|]
  end. done.
Qed.

Lemma peeled_from_tail cmd i inner :
  peeled_from cmd i = Peeled inner -> 1 ≤ i -> inner `suffix_of` cmd ∧ length inner < length cmd.
Proof.
  unfold peeled_from. destruct (get_from cmd i) as [l|] eqn:E; [|done]. intros Hl Hi.
  destruct l as [|x l]; [done|]. injection Hl as <-. by eapply get_from_tail.
Qed.

Ltac loop_tail IH :=
  repeat match goal with
  | H : context [if ?b then _ else _] |- _ => destruct b
  | H : context [match ?x with Some _ => _ | None => _ end] |- _ => destruct x
  end; try done; try (eapply peeled_from_tail; [done|lia]); try (eapply IH; [done|lia]).

Lemma exec_loop_tail cmd fuel i inner :
  exec_loop cmd fuel i = Peeled inner -> 1 ≤ i -> inner `suffix_of` cmd ∧ length inner < length cmd.
Proof.
  revert i. induction fuel as [|fuel IH]; intros i; cbn [exec_loop]; [apply peeled_from_tail|].
  intros Hp Hi. loop_tail IH.
Qed.

Lemma command_loop_tail cmd fuel i inner :
  command_loop cmd fuel i = Peeled inner -> 1 ≤ i -> inner `suffix_of` cmd ∧ length inner < length cmd.
Proof.
  revert i. induction fuel as [|fuel IH]; intros i; cbn [command_loop]; [apply peeled_from_tail|].
  intros Hp Hi. loop_tail IH.
Qed.

Lemma strip_transparent_tail cmd inner :
  strip_transparent_prefix cmd = Peeled inner -> inner `suffix_of` cmd ∧ length inner < length cmd.
Proof.
  unfold strip_transparent_prefix. destruct cmd as [|h t]; [done|].
  destruct (is_empty h || _); [done|]. cbn zeta.
  destruct (str_eqb _ (lit "exec")); [by intros Hp; eapply exec_loop_tail; [exact Hp|lia]|].
  destruct (str_eqb _ (lit "command")); [by intros Hp; eapply command_loop_tail; [exact Hp|lia]|].
  destruct (str_eqb _ (lit "builtin")); [|done].
  unfold strip_builtin_prefix. destruct ((h :: t) !! 1); [|done].
  destruct (_ && _); [done|]. intros Hp. eapply peeled_from_tail; [exact Hp|lia].
Qed.

(** ** Peeling loops *)

Lemma unwrap_loop_tail n p : peel_words (unwrap_loop n p) `suffix_of` peel_words p.
Proof.
  revert p. induction n as [|n IH]; intros p; cbn [unwrap_loop]; [done|].
  cbn zeta. destruct (strip_wrapper_command (peel_words p)) as [inner|] eqn:E.
  - apply strip_wrapper_tail in E as [Hs _]. etrans; [apply IH|done].
  - by destruct (head_is_env (peel_words p)).
Qed.

Lemma unwrap_loop_strict n p inner :
  strip_wrapper_command (peel_words p) = Some inner ->
  length (peel_words (unwrap_loop (S n) p)) < length (peel_words p).
Proof.
  intros E. cbn [unwrap_loop]. cbn zeta. rewrite E. apply strip_wrapper_tail in E as [_ E].
  eapply Nat.le_lt_trans; [|exact E]. apply suffix_length. apply (unwrap_loop_tail n (mkPeel _ _ _ _ _)).
Qed.

Lemma unwrap_checked_tail w : peel_words (unwrap_wrappers_checked w) `suffix_of` w.
Proof. apply (unwrap_loop_tail _ (mkPeel w false false false false)). Qed.

Lemma transparent_loop_tail n current inner :
  transparent_loop n current = Ready inner -> inner `suffix_of` current.
Proof.
  revert current. induction n as [|n IH]; intros current; cbn [transparent_loop];
    destruct (strip_transparent_prefix current) as [|l|] eqn:E; try done; try by intros [= ->].
  intros Hi. apply strip_transparent_tail in E as [Hs _]. etrans; [by apply IH|done].
Qed.

(** Words at which neither loop has anything left to peel. *)
Definition settled (w : list str) : Prop :=
  ∃ c, unwrap_wrappers_checked w = mkPeel w c false false false ∧ peel_transparent_prefixes w = Ready w.

Lemma peel_transparent_tail w inner : peel_transparent_prefixes w = Ready inner -> inner `suffix_of` w.
Proof. apply transparent_loop_tail. Qed.

#[local] Opaque unwrap_wrappers_checked peel_transparent_prefixes.

Lemma normalize_loop_tail n p : norm_words (normalize_loop n p) `suffix_of` norm_words p.
Proof.
  revert p. induction n as [|n IH]; intros p; cbn [normalize_loop]; [done|]. cbn zeta.
  pose proof (unwrap_checked_tail (norm_words p)) as Hw.
  destruct (unwrap_wrappers_checked (norm_words p)) as [w c sp un ex]. cbn in *.
  destruct (_ || _); [done|].
  destruct (peel_transparent_prefixes w) as [inner|] eqn:E; [|done].
  apply peel_transparent_tail in E.
  destruct (Nat.eqb _ _); cbn; [by etrans|]. etrans; [apply IH|]. by etrans.
Qed.

(** Within its budget the loop stops at settled words, unless it raised a flag. *)
Lemma normalize_loop_settles n p :
  length (norm_words p) < n ->
  let q := normalize_loop n p in
  exhausted q = false -> ambiguous q = false -> has_split_string q = false ->
  env_options_uncertain q = false -> settled (norm_words q).
Proof.
  revert p. induction n as [|n IH]; intros p Hlen; [lia|]. cbn zeta. cbn [normalize_loop]. cbn zeta.
  pose proof (unwrap_checked_tail (norm_words p)) as Hw.
  destruct (unwrap_wrappers_checked (norm_words p)) as [w c sp un ex] eqn:Eu.
  cbn [norm_words has_split_string env_options_uncertain exhausted ambiguous peel_words peel_has_chdir
       peel_has_split_string peel_env_options_uncertain peel_exhausted] in *.
  destruct ((has_split_string p || sp) || (env_options_uncertain p || un)) eqn:Ef.
  { cbn. intros _ _ Hs Hu. by rewrite Hs, Hu in Ef. }
  destruct (peel_transparent_prefixes w) as [inner|] eqn:Et; [|done].
  pose proof (peel_transparent_tail _ _ Et) as Ht.
  destruct (Nat.eqb_spec (length inner) (length (norm_words p))) as [Heq|Hne].
  - cbn. intros Hex _ Hsp Hun.
    assert (inner = norm_words p) as -> by (apply suffix_length_eq; [by etrans|lia]).
    assert (w = norm_words p) as -> by (apply suffix_length_eq; [done|by apply suffix_length]).
    apply orb_false_iff in Hex as [_ ->], Hsp as [_ ->], Hun as [_ ->]. by exists c.
  - apply IH. cbn. apply suffix_length in Hw, Ht. lia.
Qed.

#[local] Transparent unwrap_wrappers_checked peel_transparent_prefixes.

(** The budgets, as successors. *)
Lemma unwrap_checked_S w :
  ∃ n, unwrap_wrappers_checked w = unwrap_loop (S n) (mkPeel w false false false false).
Proof.
  assert (∃ n, MAX_WRAPPER_DEPTH = S n) as [n Hn] by (by exists 7).
  exists n. unfold unwrap_wrappers_checked. by rewrite Hn.
Qed.

Lemma peel_transparent_S w : ∃ n, peel_transparent_prefixes w = transparent_loop (S n) w.
Proof.
  assert (∃ n, MAX_TRANSPARENT_PREFIX_DEPTH = S n) as [n Hn] by (by exists 7).
  exists n. unfold peel_transparent_prefixes. by rewrite Hn.
Qed.

Lemma normalize_rounds_S : ∃ n, MAX_NORMALIZE_ROUNDS = S n.
Proof. by exists 15. Qed.

#[local] Opaque unwrap_wrappers_checked peel_transparent_prefixes.

(** Settled words are a fixed point of the normalization. *)
Lemma settled_transparent w : peel_transparent_prefixes w = Ready w -> strip_transparent_prefix w = NotPrefix.
Proof.
  destruct (peel_transparent_S w) as [n ->]. cbn [transparent_loop].
  destruct (strip_transparent_prefix w) as [|l|] eqn:E; try done. intros Ht.
  apply strip_transparent_tail in E as [_ E].
  apply transparent_loop_tail in Ht. apply suffix_length in Ht. lia.
Qed.

Lemma settled_wrapper w c :
  unwrap_wrappers_checked w = mkPeel w c false false false -> strip_wrapper_command w = None.
Proof.
  destruct (unwrap_checked_S w) as [n ->]. intros Hu.
  destruct (strip_wrapper_command w) as [l|] eqn:E; [|done].
  pose proof (unwrap_loop_strict n (mkPeel w false false false false) l E) as Hl.
  rewrite Hu in Hl. cbn in Hl. lia.
Qed.

Lemma settled_fixed w :
  settled w -> ∃ c, normalize_command_words w = mkNorm w c false false false false.
Proof.
  intros (c & Hu & Ht). exists c. unfold normalize_command_words.
  destruct normalize_rounds_S as [n ->]. cbn [normalize_loop norm_words]. cbn zeta.
  rewrite Hu. cbn. rewrite Ht. cbn. rewrite Nat.eqb_refl. cbn.
  by rewrite (settled_wrapper _ _ Hu), (settled_transparent _ Ht), andb_false_r.
Qed.

(** The flags and words of the result are those of the loop, but for the
    exhaustion of a head that could still be peeled. *)
Lemma normalize_eq ws :
  let q := normalize_loop MAX_NORMALIZE_ROUNDS (mkNorm ws false false false false false) in
  let p := normalize_command_words ws in
  norm_words p = norm_words q ∧ ambiguous p = ambiguous q ∧ has_split_string p = has_split_string q
  ∧ env_options_uncertain p = env_options_uncertain q
  ∧ (exhausted p = false -> exhausted q = false
     ∧ (ambiguous q = false -> has_split_string q = false -> env_options_uncertain q = false ->
        strip_wrapper_command (norm_words q) = None
        ∧ strip_transparent_prefix (norm_words q) = NotPrefix)).
Proof.
  cbn zeta. unfold normalize_command_words. cbn zeta.
  set (q := normalize_loop _ _). clearbody q.
  destruct (negb (ambiguous q) && _ && _) eqn:Ef.
  - destruct (strip_wrapper_command (norm_words q)) as [l|] eqn:Ew.
    + rewrite (strip_wrapper_is_wrapper _ _ Ew). by cbn.
    + rewrite andb_false_r. cbn [orb].
      destruct (strip_transparent_prefix (norm_words q)) eqn:Et; cbn; by split_and!.
  - split_and!; try done. intros Hex. split; [done|]. intros Ha Hs Hu.
    by rewrite Ha, Hs, Hu in Ef.
Qed.

(** No flag raised: the words are trusted to name the command that runs. *)
Definition unflagged (p : NormalizedCommandPeel) : bool :=
  negb (exhausted p) && negb (ambiguous p) && negb (has_split_string p) && negb (env_options_uncertain p).

Lemma normalize_command_words_sound ws :
  let p := normalize_command_words ws in
  norm_words p `suffix_of` ws
  ∧ (unflagged p = true ->
     strip_wrapper_command (norm_words p) = None
     ∧ strip_transparent_prefix (norm_words p) = NotPrefix
     ∧ (length ws < MAX_NORMALIZE_ROUNDS ->
        ∃ c, normalize_command_words (norm_words p) = mkNorm (norm_words p) c false false false false)).
Proof.
  cbn zeta. destruct (normalize_eq ws) as (Hw & Ha & Hs & Hu & Hex).
  pose proof (normalize_loop_settles MAX_NORMALIZE_ROUNDS (mkNorm ws false false false false false)) as Hset.
  pose proof (normalize_loop_tail MAX_NORMALIZE_ROUNDS (mkNorm ws false false false false false)) as Ht.
  unfold unflagged. rewrite Hw, Ha, Hs, Hu. cbn [norm_words] in *. cbn zeta in *.
  set (q := normalize_loop _ _) in *. clearbody q. split; [done|]. intros Hf. nbool.
  destruct Hex as [Hq Hstrip]; [done|]. destruct Hstrip; try done. split_and!; try done.
  intros Hlen. apply settled_fixed, Hset; done.
Qed.

(** ** The walk over the syntax tree *)

(** A node and all its descendants. *)
Fixpoint nodes (n : Node) : list Node :=
  n :: match n with mkNode _ _ _ _ _ cs => concat (map nodes cs) end.

Definition forest (l : list Node) : list Node := concat (map nodes l).
Definition is_command (n : Node) : bool := is_named n && kind_is "command" n.
Definition forest_size (l : list Node) : nat := list_sum (map node_size l).

Lemma nodes_eq n : nodes n = n :: forest (children n).
Proof. by destruct n. Qed.
Lemma node_size_eq n : node_size n = S (forest_size (children n)).
Proof. by destruct n. Qed.

Lemma concat_permutation {A} (l k : list (list A)) : l ≡ₚ k -> concat l ≡ₚ concat k.
Proof.
  induction 1 as [|x l k _ IH|x y l|l k m _ IH1 _ IH2]; simpl; [done|by rewrite IH| |by etrans].
  rewrite !app_assoc. by rewrite (Permutation_app_comm x y).
Qed.

Lemma filter_permutation {A} (f : A -> bool) l k : l ≡ₚ k -> List.filter f l ≡ₚ List.filter f k.
Proof.
  induction 1 as [|x l k _ IH|x y l|l k m _ IH1 _ IH2]; simpl; [done| | |by etrans].
  - destruct (f x); by rewrite IH.
  - destruct (f x), (f y); try done. by constructor.
Qed.

Lemma forest_push cs st : forest (rev cs ++ st) ≡ₚ forest cs ++ forest st.
Proof.
  unfold forest. rewrite <- concat_app, <- map_app. apply concat_permutation, Permutation_map.
  by rewrite <- Permutation_rev.
Qed.

Lemma forest_size_push cs st : forest_size (rev cs ++ st) = forest_size cs + forest_size st.
Proof.
  unfold forest_size. rewrite map_app, list_sum_app. f_equal.
  induction cs as [|c cs IH]; [done|]. simpl. rewrite map_app, list_sum_app. simpl. lia.
Qed.

(** With one unit of fuel per node and one to stop, the walk succeeds exactly
    when every node is allowed, and then it has collected every command. *)
Lemma walk_spec fuel stack acc :
  forest_size stack < fuel ->
  match walk fuel stack acc with
  | Some cmds => Forall (fun n => node_allowed n = true) (forest stack)
                 ∧ cmds ≡ₚ acc ++ List.filter is_command (forest stack)
  | None => Exists (fun n => node_allowed n = false) (forest stack)
  end.
Proof.
  revert stack acc. induction fuel as [|fuel IH]; intros stack acc Hf; [lia|]. cbn [walk].
  destruct stack as [|n stack]; [by rewrite app_nil_r|].
  assert (Hsz : forest_size (n :: stack) = S (forest_size (children n) + forest_size stack))
    by (unfold forest_size at 1; simpl; by rewrite node_size_eq).
  assert (Hforest : forest (n :: stack) = n :: forest (children n) ++ forest stack).
  { unfold forest at 1. cbn [map concat]. by rewrite nodes_eq. }
  rewrite Hforest. destruct (node_allowed n) eqn:En; cbn [negb]; [|by left].
  assert (Hf' : forest_size (rev (children n) ++ stack) < fuel).
  { rewrite forest_size_push. lia. }
  specialize (IH (rev (children n) ++ stack)
    (if is_named n && kind_is "command" n then acc ++ [n] else acc) Hf').
  destruct (walk fuel _ _) as [cmds|].
  - destruct IH as [Hall Hcmds]. rewrite forest_push in Hall. split; [by constructor|].
    rewrite Hcmds. cbn [List.filter]. fold (is_command n).
    assert (Hp : List.filter is_command (forest (rev (children n) ++ stack))
                 ≡ₚ List.filter is_command (forest (children n) ++ forest stack)).
    { apply filter_permutation, forest_push. }
    rewrite Hp. destruct (is_command n); [|done]. by rewrite <- app_assoc.
  - right. eapply Exists_exists. apply Exists_exists in IH as (x & Hx & Hbad).
    exists x. split; [|done]. by rewrite <- forest_push.
Qed.

(** ** Properties *)

Lemma parse_all_Forall2 src l cmds :
  parse_all src l = Some cmds -> Forall2 (fun n c => parse_plain_command_from_node src n = Some c) l cmds.
Proof.
  revert cmds. induction l as [|n l IH]; intros cmds; simpl; [by intros [= <-]|].
  destruct (parse_plain_command_from_node src n) as [c|] eqn:E; [|done].
  destruct (parse_all src l) as [cs|]; [|done]. intros [= <-]. constructor; auto.
Qed.

Definition starts_le (a b : Node) : Prop := start_byte a ≤ start_byte b.

(** C12 No command of a script escapes the decomposition the permission rules
    run on. When it succeeds, the parse had no error, every named node of
    the tree is of an allowed kind - so that no substitution, function or control
    structure is in it - and the commands are those of all the command nodes,
    however deep, in source order. *)
Theorem commands_complete parser script cmds :
  all_commands_from_script parser script = Some cmds ->
  ∃ tree ordered,
    parser script = Some tree ∧ root_has_error tree = false
    ∧ Forall (fun n => is_named n = true -> str_in ALLOWED_KINDS (kind n) = true) (nodes (root_node tree))
    ∧ ordered ≡ₚ List.filter is_command (nodes (root_node tree))
    ∧ Sorting.Sorted.StronglySorted starts_le ordered
    ∧ Forall2 (fun n c => parse_plain_command_from_node script n = Some c) ordered cmds.
Proof.
  unfold all_commands_from_script. destruct (parser script) as [tree|]; [|done].
  unfold try_parse_word_only_commands_sequence. destruct (root_has_error tree) eqn:Ee; [done|].
  pose proof (walk_spec (S (node_size (root_node tree))) [root_node tree] []) as Hw.
  destruct (walk _ _ _) as [found|]; [|done]. intros Hp%parse_all_Forall2.
  assert (Hf : forest [root_node tree] = nodes (root_node tree)) by (unfold forest; cbn; apply app_nil_r).
  rewrite Hf in Hw. destruct Hw as [Hall Hperm]; [unfold forest_size; cbn; lia|].
  exists tree, (sort_asc start_byte found). split_and!; try done.
  - eapply Forall_impl; [exact Hall|]. intros n Hn Hnamed. cbn beta in Hn.
    unfold node_allowed in Hn. by rewrite Hnamed in Hn.
  - by rewrite sort_asc_perm.
  - apply sort_asc_sorted.
Qed.

(** Peeling a command down to the one that runs. The normalized words are
    a tail of the words given; when no flag is raised the head is neither a
    wrapper nor a transparent prefix that could be peeled further; and for
    fewer words than the budget of rounds they are then a fixed point, so that
    peeling twice is peeling once. *)
Theorem normalize_command_words_settles ws :
  let p := normalize_command_words ws in
  norm_words p `suffix_of` ws
  ∧ (unflagged p = true ->
     strip_wrapper_command (norm_words p) = None
     ∧ strip_transparent_prefix (norm_words p) = NotPrefix
     ∧ (length ws < MAX_NORMALIZE_ROUNDS ->
        ∃ c, normalize_command_words (norm_words p) = mkNorm (norm_words p) c false false false false)).
Proof. apply normalize_command_words_sound. Qed.

(** Sixteen rounds of [nice command] and then a packed [env]. *)
Definition deep_env : list str :=
  concat (repeat (words_of ["nice"; "command"]) MAX_NORMALIZE_ROUNDS) ++ words_of ["env"; "-S"; "rm $x"].

(** The budget fails open on [env]. The comment after the loop promises that
    what the budget left unpeeled fails closed, but it only looks for a head
    that can be peeled: after exactly sixteen rounds an [env] with a packed
    command is not flagged, although looking at the very words the
    normalization returns does flag it. *)
Theorem normalize_budget_fails_open :
  let p := normalize_command_words deep_env in
  unflagged p = true ∧ norm_words p = words_of ["env"; "-S"; "rm $x"]
  ∧ has_split_string (normalize_command_words (norm_words p)) = true
  ∧ env_split_string_script (norm_words p) = None.
Proof. vm_compute. by split_and!. Qed.

(** ** Witness *)

Definition leaf (k : string) (s e : nat) : Node := mkNode (lit k) true s e None [].
(** The tree of [rm x]. *)
Definition demo_tree : Tree :=
  mkTree (mkNode (lit "program") true 0 4 None
    [mkNode (lit "command") true 0 4 None
       [mkNode (lit "command_name") true 0 2 (Some (lit "name")) [leaf "word" 0 2]; leaf "word" 3 4]]) false.

Lemma commands_complete_witness :
  all_commands_from_script (fun _ => Some demo_tree) (lit "rm x") = Some [mkPlain (words_of ["rm"; "x"]) 0 4]
  ∧ ∃ tree ordered,
    Some demo_tree = Some tree ∧ root_has_error tree = false
    ∧ Forall (fun n => is_named n = true -> str_in ALLOWED_KINDS (kind n) = true) (nodes (root_node tree))
    ∧ ordered ≡ₚ List.filter is_command (nodes (root_node tree))
    ∧ Sorting.Sorted.StronglySorted starts_le ordered
    ∧ Forall2 (fun n c => parse_plain_command_from_node (lit "rm x") n = Some c) ordered
        [mkPlain (words_of ["rm"; "x"]) 0 4].
Proof.
  split; [reflexivity|].
  apply (commands_complete (fun _ => Some demo_tree) (lit "rm x")). reflexivity.
Defined.
