(* ===== verification/PermissionRules.v ===== *)
(** * Permission rules: data and parsing

    [crates/codegen/xai-grok-workspace/src/permission/]: the data of
    [types.rs] the policy reads and the rule parser of [rules.rs]. The JSON
    input of an MCP call is carried, never read: its type is a parameter. *)

From S2P Require Export RustStr.

(** ** Data *)

(** Source: crates/codegen/xai-grok-workspace/src/permission/types.rs:109-133, [AccessKind]. *)
Inductive AccessKind (Value : Type) :=
  | Read (path : option str)
  | Grep (path glob : option str)
  | Edit (path : str)
  | Bash (cmd : str)
  | MCPTool (name : str) (input : Value)
  | WebFetch (url : str)
  | WebSearch (query : str)
  | AgentMessage (subagent_id : str)
  | Tool (name : str).
Arguments Read {_} _.
Arguments Grep {_} _ _.
Arguments Edit {_} _.
Arguments Bash {_} _.
Arguments MCPTool {_} _ _.
Arguments WebFetch {_} _.
Arguments WebSearch {_} _.
Arguments AgentMessage {_} _.
Arguments Tool {_} _.

(** Source: crates/codegen/xai-grok-workspace/src/permission/types.rs:134-142, [Decision]. *)
Inductive Decision :=
  | Allow
  | Ask
  | FollowupMessage (m : str)
  | Reject (reason : str)
  | PolicyDeny (reason : str)
  | Cancelled.

(** Source: crates/codegen/xai-grok-workspace/src/permission/types.rs:380-388, [PromptPolicy]. *)
Inductive PromptPolicy := PromptAsk | PromptDeny | PromptAuto | PromptAllow.

(** Source: crates/codegen/xai-grok-workspace/src/permission/types.rs:398-404, [PatternMode]. *)
Inductive PatternMode := Glob | Domain.

(** Source: crates/codegen/xai-grok-workspace/src/permission/types.rs:405-412, [RuleAction]. *)
Inductive RuleAction := ActAllow | ActDeny | ActAsk.

(** Source: crates/codegen/xai-grok-workspace/src/permission/types.rs:413-428, [ToolFilter]. *)
Inductive ToolFilter := FAny | FBash | FEdit | FRead | FGrep | FMcp | FWebFetch | FWebSearch | FAgentMessage.

#[export] Instance RuleAction_eq_dec : EqDecision RuleAction.
Proof. solve_decision. Defined.
#[export] Instance ToolFilter_eq_dec : EqDecision ToolFilter.
Proof. solve_decision. Defined.
#[export] Instance PatternMode_eq_dec : EqDecision PatternMode.
Proof. solve_decision. Defined.

(** Source: crates/codegen/xai-grok-workspace/src/permission/types.rs:389-397, [PermissionRule]. *)
Record PermissionRule := mkRule {
  action : RuleAction;
  tool : ToolFilter;
  pattern : option str;
  pattern_mode : PatternMode
}.

(** Source: crates/codegen/xai-grok-workspace/src/permission/types.rs:362-370, [PermissionConfig]. *)
Record PermissionConfig := mkConfig {
  rules : list PermissionRule;
  prompt_policy : PromptPolicy;
  default_mode_configured : bool
}.

(** Source: crates/codegen/xai-grok-workspace/src/permission/types.rs:372-378, [PermissionConfig::new]. *)
Definition config_new (rs : list PermissionRule) : PermissionConfig := mkConfig rs PromptAsk false.

(** ** Default modes *)

(** Source: crates/codegen/xai-grok-workspace/src/permission/rules.rs:5-16, [DefaultPermissionMode]. *)
Inductive DefaultPermissionMode := ModeDefault | AcceptEdits | Plan | ModeAuto | DontAsk | BypassPermissions.

(** Source: crates/codegen/xai-grok-workspace/src/permission/rules.rs:18-32, [DefaultPermissionMode::from_str]. *)
Definition mode_from_str (s : str) : result DefaultPermissionMode str :=
  if str_eqb s (lit "default") then Ok ModeDefault
  else if str_eqb s (lit "acceptEdits") then Ok AcceptEdits
  else if str_eqb s (lit "plan") then Ok Plan
  else if str_eqb s (lit "auto") then Ok ModeAuto
  else if str_eqb s (lit "dontAsk") then Ok DontAsk
  else if str_eqb s (lit "bypassPermissions") then Ok BypassPermissions
  else Err s.

(** Source: crates/codegen/xai-grok-workspace/src/permission/rules.rs:58-63, [DefaultModeEffects]. *)
Record DefaultModeEffects := mkEffects {
  effect_prompt_policy : PromptPolicy;
  accept_edits : bool;
  bypass_permissions : bool
}.

(** Source: crates/codegen/xai-grok-workspace/src/permission/rules.rs:34-56, [DefaultPermissionMode::effects]. *)
Definition effects (m : DefaultPermissionMode) : DefaultModeEffects :=
  match m with
  | AcceptEdits => mkEffects PromptAsk true false
  | BypassPermissions => mkEffects PromptAsk false true
  | ModeDefault | Plan => mkEffects PromptAsk false false
  | DontAsk => mkEffects PromptDeny false false
  | ModeAuto => mkEffects PromptAuto false false
  end.

(** ** Parsing *)

(** Source: crates/codegen/xai-grok-workspace/src/permission/rules.rs:69-82, [RuleParseError]. *)
Inductive RuleParseError :=
  | UnsupportedToolPrefix (prefix : str)
  | UnknownToolPrefix (prefix : str)
  | MalformedRule (detail : str).

Definition bslash : ascii := byte 92.
Definition lparen : ascii := byte 40.
Definition rparen : ascii := byte 41.

(** The [while] loop from [j] down, with the count so far.

    Source: crates/codegen/xai-grok-workspace/src/permission/rules.rs:261-269, [is_unescaped]. *)
Fixpoint count_backslashes (bytes : str) (j : nat) : nat :=
  match j with
  | 0 => 0
  | S j' =>
      match bytes !! j' with
      | Some c => if ch_eqb c bslash then S (count_backslashes bytes j') else 0
      | None => 0
      end
  end.

(** Source: crates/codegen/xai-grok-workspace/src/permission/rules.rs:260-269, [is_unescaped]. *)
Definition is_unescaped (bytes : str) (pos : nat) : bool := Nat.even (count_backslashes bytes pos).

Definition unescaped_at (s : str) (target : ascii) (i : nat) : bool :=
  match s !! i with
  | Some b => ch_eqb b target && is_unescaped s i
  | None => false
  end.

(** Source: crates/codegen/xai-grok-workspace/src/permission/rules.rs:271-278, [find_first_unescaped]. *)
Definition find_first_unescaped (s : str) (target : ascii) : option nat :=
  List.find (unescaped_at s target) (seq 0 (length s)).

(** Source: crates/codegen/xai-grok-workspace/src/permission/rules.rs:280-285, [find_last_unescaped]. *)
Definition find_last_unescaped (s : str) (target : ascii) : option nat :=
  List.find (unescaped_at s target) (rev (seq 0 (length s))).

(** Source: crates/codegen/xai-grok-workspace/src/permission/rules.rs:287-296, [unescape_rule_content]. *)
Definition unescape_rule_content (s : str) : str :=
  if negb (existsb (ch_eqb bslash) s) then s
  else replace [bslash; bslash] [bslash]
         (replace [bslash; rparen] [rparen] (replace [bslash; lparen] [lparen] s)).

(** Source: crates/codegen/xai-grok-workspace/src/permission/rules.rs:298-303, [strip_domain_prefix]. *)
Definition strip_domain_prefix (p : str) : str * PatternMode :=
  match strip_prefix (lit "domain:") p with
  | Some domain => (domain, Domain)
  | None => (p, Glob)
  end.

(** Source: crates/codegen/xai-grok-workspace/src/permission/rules.rs:305-312, [strip_bash_colon_wildcard]. *)
Definition strip_bash_colon_wildcard (p : str) : str :=
  match strip_suffix (lit ":*") p with Some prefix => prefix | None => p end.

Definition is_one_of (l : list string) (s : str) : bool := existsb (fun x => str_eqb (lit x) s) l.

(** Source: crates/codegen/xai-grok-workspace/src/permission/rules.rs:244-258, [tool_name_to_filter]. *)
Definition tool_name_to_filter (name : str) : option ToolFilter :=
  if is_one_of ["Bash"] name then Some FBash
  else if is_one_of ["Read"] name then Some FRead
  else if is_one_of ["Edit"; "Write"] name then Some FEdit
  else if is_one_of ["MCPTool"] name then Some FMcp
  else if is_one_of ["Grep"; "Glob"] name then Some FGrep
  else if is_one_of ["WebFetch"] name then Some FWebFetch
  else if is_one_of ["WebSearch"] name then Some FWebSearch
  else if is_one_of ["AgentMessage"; "SendSubagentMessage"; "SendAgentMessage"] name then Some FAgentMessage
  else None.

Definition unsupported : list string := ["EnterWorktree"; "NotebookEdit"; "NotebookRead"].

(** The rule with a parenthesized content. The slices the code takes with
    [get] are at positions of ASCII bytes, where they always exist.

    Source: crates/codegen/xai-grok-workspace/src/permission/rules.rs:117-188, [parse_permission_rule]. *)
Definition parse_with_content (rule : str) (act : RuleAction) (open_paren : nat) :
    result PermissionRule RuleParseError :=
  let prefix_trimmed := trim (take open_paren rule) in
  let content_and_close := drop (open_paren + 1) rule in
  match find_last_unescaped content_and_close rparen with
  | None => Err (MalformedRule (lit "missing closing parenthesis"))
  | Some close_paren =>
      let raw_content := trim (take close_paren content_and_close) in
      let p := if is_empty raw_content || str_eqb raw_content (lit "*") then []
               else unescape_rule_content raw_content in
      match tool_name_to_filter prefix_trimmed with
      | None =>
          if is_one_of unsupported prefix_trimmed then Err (UnsupportedToolPrefix prefix_trimmed)
          else Err (UnknownToolPrefix prefix_trimmed)
      | Some t =>
          let p := if bool_decide (t = FBash) then strip_bash_colon_wildcard p else p in
          let '(p, m) := strip_domain_prefix p in
          Ok (mkRule act t (if is_empty p then None else Some p) m)
      end
  end.

(** Source: crates/codegen/xai-grok-workspace/src/permission/rules.rs:106-242, [parse_permission_rule]. *)
Definition parse_permission_rule (rule : str) (act : RuleAction) : result PermissionRule RuleParseError :=
  let rule := trim rule in
  match find_first_unescaped rule lparen with
  | Some open_paren => parse_with_content rule act open_paren
  | None =>
      if is_one_of unsupported rule then Err (UnsupportedToolPrefix rule)
      else match tool_name_to_filter rule with
      | Some t => Ok (mkRule act t None Glob)
      | None =>
          match strip_prefix (lit "mcp__") rule with
          | Some (_ :: _ as rest) =>
              let p := if str_eqb rest (lit "*") then None
                       else if contains (lit "__") rest then Some rest
                       else Some (rest ++ lit "__*") in
              Ok (mkRule act FMcp p Glob)
          | _ => Ok (mkRule act FAny (if is_empty rule then None else Some rule) Glob)
          end
      end
  end.

Example parse_ex :
  parse_permission_rule (lit "Bash(git push:*)") ActDeny = Ok (mkRule ActDeny FBash (Some (lit "git push")) Glob).
Proof. reflexivity. Qed.

(** ** Escaping *)

(** What a rule's author writes for a literal content: the escaping that
    [unescape_rule_content] reverses, a backslash before every backslash and
    parenthesis. *)
Definition escape_byte (c : ascii) : str :=
  if ch_eqb c bslash || ch_eqb c lparen || ch_eqb c rparen then [bslash; c] else [c].
Definition escape_rule_content (s : str) : str := concat (map escape_byte s).

Lemma replace2_hit a b r t : replace [a; b] r (a :: b :: t) = r ++ replace [a; b] r t.
Proof. unfold replace. simpl. by rewrite !ch_eqb_refl. Qed.

Lemma replace2_miss a b r c t :
  starts_with [a; b] (c :: t) = false -> replace [a; b] r (c :: t) = c :: replace [a; b] r t.
Proof. unfold replace. intros Hs. cbn [replace_from]. by rewrite Hs. Qed.

Lemma starts_with2_ne a b c t : a ≠ c -> starts_with [a; b] (c :: t) = false.
Proof.
  intros Hne. cbn [starts_with]. destruct (ch_eqb a c) eqn:E; [|done]. by apply ch_eqb_eq in E.
Qed.

(** The text after the first, and after the second replacement. *)
Definition esc1 (c : ascii) : str :=
  if ch_eqb c bslash || ch_eqb c rparen then [bslash; c] else [c].
Definition esc2 (c : ascii) : str := if ch_eqb c bslash then [bslash; c] else [c].

(** A byte is one of the three, or none. *)
Lemma special_cases c :
  c = bslash ∨ c = lparen ∨ c = rparen
  ∨ (ch_eqb c bslash = false ∧ ch_eqb c lparen = false ∧ ch_eqb c rparen = false ∧ bslash ≠ c).
Proof.
  destruct (ch_eqb c bslash) eqn:E1; [left; by apply ch_eqb_eq|].
  destruct (ch_eqb c lparen) eqn:E2; [right; left; by apply ch_eqb_eq|].
  destruct (ch_eqb c rparen) eqn:E3; [right; right; left; by apply ch_eqb_eq|].
  right; right; right. split_and!; try done. intros <-. by rewrite ch_eqb_refl in E1.
Qed.

(** Escaped text never begins with a bare parenthesis. *)
Lemma escape_no_paren s p :
  p = lparen ∨ p = rparen -> starts_with [p] (escape_rule_content s) = false.
Proof.
  intros Hp. destruct s as [|c s]; [done|]. unfold escape_rule_content. cbn [map concat].
  unfold escape_byte.
  destruct (special_cases c) as [->|[->|[->|(E1 & E2 & E3 & Hne)]]];
    [by destruct Hp as [->| ->]..|].
  rewrite E1, E2, E3. cbn [orb app starts_with]. destruct Hp as [->| ->]; rewrite andb_true_r;
    (destruct (ch_eqb _ c) eqn:E; [apply ch_eqb_eq in E; subst c; by rewrite ch_eqb_refl in *|done]).
Qed.

Lemma esc1_no_paren s : starts_with [rparen] (concat (map esc1 s)) = false.
Proof.
  destruct s as [|c s]; [done|]. cbn [map concat]. unfold esc1.
  destruct (special_cases c) as [->|[->|[->|(E1 & E2 & E3 & Hne)]]]; [done..|].
  rewrite E1, E3. cbn [orb app starts_with]. destruct (ch_eqb rparen c) eqn:E; [|done].
  apply ch_eqb_eq in E; subst c. by rewrite ch_eqb_refl in E3.
Qed.

Lemma unescape_left s :
  replace [bslash; lparen] [lparen] (escape_rule_content s) = concat (map esc1 s).
Proof.
  unfold escape_rule_content. induction s as [|c s IH]; [done|]. cbn [map concat].
  pose proof (escape_no_paren s lparen (or_introl eq_refl)) as Hp. unfold escape_rule_content in Hp.
  unfold escape_byte at 1, esc1 at 1.
  destruct (special_cases c) as [->|[->|[->|(E1 & E2 & E3 & Hne)]]]; cbn [orb app ch_eqb].
  - change (ch_eqb bslash bslash) with true. cbn [orb app].
    rewrite replace2_miss by done. rewrite replace2_miss by done. by rewrite IH.
  - change (ch_eqb lparen bslash || ch_eqb lparen lparen || ch_eqb lparen rparen) with true.
    change (ch_eqb lparen bslash || ch_eqb lparen rparen) with false. cbn [app].
    rewrite replace2_hit. by rewrite IH.
  - change (ch_eqb rparen bslash || ch_eqb rparen lparen || ch_eqb rparen rparen) with true.
    change (ch_eqb rparen bslash || ch_eqb rparen rparen) with true. cbn [app].
    rewrite replace2_miss by done. rewrite replace2_miss by done. by rewrite IH.
  - rewrite E1, E2, E3. cbn [orb app]. rewrite replace2_miss by by apply starts_with2_ne. by rewrite IH.
Qed.

Lemma unescape_right s :
  replace [bslash; rparen] [rparen] (concat (map esc1 s)) = concat (map esc2 s).
Proof.
  induction s as [|c s IH]; [done|]. cbn [map concat]. pose proof (esc1_no_paren s) as Hp.
  unfold esc1 at 1, esc2 at 1.
  destruct (special_cases c) as [->|[->|[->|(E1 & E2 & E3 & Hne)]]].
  - change (ch_eqb bslash bslash) with true. cbn [orb app].
    rewrite replace2_miss by done. rewrite replace2_miss by done. by rewrite IH.
  - change (ch_eqb lparen bslash) with false. change (ch_eqb lparen rparen) with false. cbn [orb app].
    rewrite replace2_miss by done. by rewrite IH.
  - change (ch_eqb rparen bslash) with false. change (ch_eqb rparen rparen) with true. cbn [orb app].
    rewrite replace2_hit. by rewrite IH.
  - rewrite E1, E3. cbn [orb app]. rewrite replace2_miss by by apply starts_with2_ne. by rewrite IH.
Qed.

Lemma unescape_backslash s : replace [bslash; bslash] [bslash] (concat (map esc2 s)) = s.
Proof.
  induction s as [|c s IH]; [done|]. cbn [map concat]. unfold esc2 at 1.
  destruct (ch_eqb c bslash) eqn:E; cbn [app].
  - apply ch_eqb_eq in E as ->. rewrite replace2_hit. by rewrite IH.
  - rewrite replace2_miss; [by rewrite IH|]. apply starts_with2_ne. intros <-.
    by rewrite ch_eqb_refl in E.
Qed.

(** Without a backslash nothing was escaped. *)
Lemma escape_plain s : existsb (ch_eqb bslash) (escape_rule_content s) = false -> escape_rule_content s = s.
Proof.
  unfold escape_rule_content. induction s as [|c s IH]; [done|]. cbn [map concat].
  rewrite existsb_app. intros [Hc Hs]%orb_false_iff. rewrite (IH Hs). unfold escape_byte in *.
  destruct (_ || _); [|done]. by cbn in Hc.
Qed.

Lemma unescape_escape s : unescape_rule_content (escape_rule_content s) = s.
Proof.
  unfold unescape_rule_content.
  destruct (existsb _ _) eqn:E; cbn [negb]; [|by apply escape_plain].
  by rewrite unescape_left, unescape_right, unescape_backslash.
Qed.

(** ** Finding the parentheses *)

(** The backslashes before the end of an escaped text pair up. *)
Lemma count_backslashes_app a b j :
  count_backslashes (a ++ b) (length a + j)
  = count_backslashes b j + (if Nat.eqb (count_backslashes b j) j then count_backslashes a (length a) else 0).
Proof.
  induction j as [|j IH].
  - rewrite Nat.add_0_r. simpl. clear. 
    assert (∀ k, k ≤ length a -> count_backslashes (a ++ b) k = count_backslashes a k) as H; [|by apply H].
    induction k as [|k IH]; intros Hk; [done|]. cbn [count_backslashes].
    rewrite lookup_app_l by lia. rewrite IH by lia. done.
  - replace (length a + S j) with (S (length a + j)) by lia. cbn [count_backslashes].
    rewrite lookup_app_r by lia. replace (length a + j - length a) with j by lia.
    destruct (b !! j) as [c|]; [|done]. destruct (ch_eqb c bslash); [|done].
    rewrite IH. cbn [Nat.eqb]. destruct (Nat.eqb _ j); lia.
Qed.

Lemma escape_even s : Nat.even (count_backslashes (escape_rule_content s) (length (escape_rule_content s))) = true.
Proof.
  unfold escape_rule_content. induction s as [|c s IH] using rev_ind; [done|].
  rewrite map_app, concat_app, length_app, count_backslashes_app. cbn [map concat]. rewrite app_nil_r.
  set (e := concat (map escape_byte s)) in *. unfold escape_byte.
  destruct (special_cases c) as [->|[->|[->|(E1 & E2 & E3 & Hne)]]]; [|done|done|].
  - change (ch_eqb bslash bslash || _ || _) with true. cbn [length].
    change (count_backslashes [bslash; bslash] 2) with 2. rewrite Nat.eqb_refl.
    by rewrite Nat.even_add, IH.
  - rewrite E1, E2, E3. cbn [orb length]. cbn [count_backslashes lookup list_lookup]. by rewrite E1.
Qed.

Lemma find_app {A} (f : A -> bool) l k :
  List.find f (l ++ k) = match List.find f l with Some x => Some x | None => List.find f k end.
Proof. induction l as [|x l IH]; simpl; [done|]. by destruct (f x). Qed.

Lemma find_last_unescaped_escape s :
  find_last_unescaped (escape_rule_content s ++ [rparen]) rparen = Some (length (escape_rule_content s)).
Proof.
  unfold find_last_unescaped. rewrite length_app. cbn [length]. rewrite seq_app, rev_app_distr. cbn [seq rev app].
  cbn [List.find]. unfold unescaped_at at 1. rewrite list_lookup_middle by lia.
  rewrite ch_eqb_refl. cbn [andb]. unfold is_unescaped.
  pose proof (count_backslashes_app (escape_rule_content s) [rparen] 0) as Hc. rewrite Nat.add_0_r in Hc.
  change (count_backslashes [rparen] 0) with 0 in Hc. rewrite Nat.eqb_refl in Hc. cbn [Nat.add] in Hc.
  rewrite Nat.add_0_l, Hc. by rewrite escape_even.
Qed.

(** The name of a tool holds no parenthesis: the first is the one after it. *)
Lemma find_first_after name rest :
  existsb (ch_eqb lparen) name = false -> existsb (ch_eqb bslash) name = false ->
  find_first_unescaped (name ++ lparen :: rest) lparen = Some (length name).
Proof.
  intros Hn Hb. unfold find_first_unescaped. rewrite length_app. cbn [length].
  replace (length name + S (length rest)) with (length name + (1 + length rest)) by lia.
  rewrite seq_app, find_app.
  assert (Hnone : List.find (unescaped_at (name ++ lparen :: rest) lparen) (seq 0 (length name)) = None).
  { destruct (List.find _ _) as [i|] eqn:E; [|done]. apply List.find_some in E as [Hi E].
    apply in_seq in Hi. unfold unescaped_at in E. rewrite lookup_app_l in E by lia.
    destruct (name !! i) as [c|] eqn:Ec; [|done]. apply andb_true_iff in E as [E _].
    apply ch_eqb_eq in E as ->.
    assert (existsb (ch_eqb lparen) name = true); [|congruence].
    apply existsb_exists. exists lparen. split; [|apply ch_eqb_refl].
    apply list_elem_of_In. by eapply list_elem_of_lookup_2. }
  rewrite Hnone. cbn [Nat.add seq List.find]. unfold unescaped_at. rewrite list_lookup_middle by lia.
  rewrite ch_eqb_refl. cbn [andb]. unfold is_unescaped.
  assert (Hc : count_backslashes (name ++ lparen :: rest) (length name) = 0); [|by rewrite Hc].
  destruct (length name) as [|k] eqn:El; [done|]. cbn [count_backslashes].
  rewrite lookup_app_l by lia. destruct (name !! k) as [c|] eqn:Ec; [|done].
  destruct (ch_eqb c bslash) eqn:E; [|done]. apply ch_eqb_eq in E as ->.
  assert (existsb (ch_eqb bslash) name = true); [|congruence].
  apply existsb_exists. exists bslash. split; [|apply ch_eqb_refl].
  apply list_elem_of_In. by eapply list_elem_of_lookup_2.
Qed.

(** ** The rule of a literal content *)

Definition tool_names : list string :=
  ["Bash"; "Read"; "Edit"; "Write"; "MCPTool"; "Grep"; "Glob"; "WebFetch"; "WebSearch";
   "AgentMessage"; "SendSubagentMessage"; "SendAgentMessage"].

Lemma tool_name_known name t : tool_name_to_filter name = Some t -> name ∈ map lit tool_names.
Proof.
  unfold tool_name_to_filter, is_one_of. cbn [existsb]. intros Hn. apply list_elem_of_In, in_map_iff.
  repeat match type of Hn with
  | context [str_eqb ?a name] =>
      let E := fresh "E" in destruct (str_eqb a name) eqn:E;
      [apply str_eqb_eq in E; eexists; split; [exact E|]; vm_compute; tauto|]
  end. done.
Qed.

(** A known name is trimmed and holds neither a parenthesis nor a backslash. *)
Lemma tool_name_plain name t :
  tool_name_to_filter name = Some t ->
  trim name = name ∧ existsb (ch_eqb lparen) name = false ∧ existsb (ch_eqb bslash) name = false.
Proof.
  intros Hn%tool_name_known. apply list_elem_of_In, in_map_iff in Hn as (x & <- & Hx).
  unfold tool_names in Hx. cbn [In] in Hx.
  repeat (destruct Hx as [<-|Hx]; [split_and!; vm_compute; reflexivity|]). done.
Qed.

(** What the parser does to a content after unescaping it. *)
Definition finish_pattern (t : ToolFilter) (p : str) : option str * PatternMode :=
  let p := if bool_decide (t = FBash) then strip_bash_colon_wildcard p else p in
  let '(p, m) := strip_domain_prefix p in (if is_empty p then None else Some p, m).

Lemma parse_written name t act s :
  tool_name_to_filter name = Some t ->
  s ≠ [] -> s ≠ lit "*" ->
  trim (escape_rule_content s) = escape_rule_content s ->
  parse_with_content (name ++ lparen :: escape_rule_content s ++ [rparen]) act (length name)
  = Ok (mkRule act t (finish_pattern t s).1 (finish_pattern t s).2).
Proof.
  intros Ht Hne Hstar Htrim. destruct (tool_name_plain name t Ht) as (Hn & _ & _).
  unfold parse_with_content. rewrite take_app_length, Hn. cbn zeta.
  replace (drop (length name + 1) (name ++ lparen :: escape_rule_content s ++ [rparen]))
    with (escape_rule_content s ++ [rparen]).
  2: { rewrite drop_app. rewrite drop_ge by lia. by replace (length name + 1 - length name) with 1 by lia. }
  rewrite find_last_unescaped_escape, take_app_length, Htrim, Ht.
  assert (Hes : escape_rule_content s ≠ []).
  { destruct s as [|c s]; [done|]. unfold escape_rule_content. cbn [map concat]. unfold escape_byte.
    by destruct (_ || _). }
  assert (Hest : str_eqb (escape_rule_content s) (lit "*") = false).
  { destruct (str_eqb _ _) eqn:E; [|done]. apply str_eqb_eq in E.
    apply (f_equal unescape_rule_content) in E. rewrite unescape_escape in E. by destruct Hstar. }
  destruct (is_empty (escape_rule_content s)) eqn:Ee; [by destruct (escape_rule_content s)|].
  rewrite Hest. cbn [orb]. rewrite unescape_escape. unfold finish_pattern.
  by destruct (strip_domain_prefix _).
Qed.

(** No white-space character begins with an ASCII letter. *)
Lemma letter_not_whitespace c t : N.ltb 64 (N_of_ascii c) && N.ltb (N_of_ascii c) 128 = true -> is_whitespace (c :: t) = false.
Proof.
  intros Hc. nbool. unfold is_whitespace. cbn [map].
  assert (Hne : ∀ k, (k <= 64 ∨ 128 <= k)%N -> N.eqb (N_of_ascii c) k = false) by (intros; apply N.eqb_neq; lia).
  destruct t as [|b [|b' [|b'' t]]]; cbn [map]; rewrite ?Hne by lia; cbn [andb orb]; try done.
  rewrite orb_false_r. apply andb_false_iff. right. apply N.leb_gt. lia.
Qed.

Lemma tool_name_head name t :
  tool_name_to_filter name = Some t ->
  ∃ c r, name = c :: r ∧ N.ltb 64 (N_of_ascii c) && N.ltb (N_of_ascii c) 128 = true.
Proof.
  intros Hn%tool_name_known. apply list_elem_of_In, in_map_iff in Hn as (x & <- & Hx).
  unfold tool_names in Hx. cbn [In] in Hx.
  repeat (destruct Hx as [<-|Hx]; [eexists _, _; split; [reflexivity|vm_compute; reflexivity]|]). done.
Qed.

Lemma written_trim name t s :
  tool_name_to_filter name = Some t -> trim (name ++ s ++ [rparen]) = name ++ s ++ [rparen].
Proof.
  intros (c & r & -> & Hc)%tool_name_head. apply trim_fixed. split.
  - pose proof (chars_head ((c :: r) ++ s ++ [rparen])) as Hh.
    destruct (chars _) as [|ch l]; [done|]. destruct Hh as (d & u & -> & [= <-]).
    by apply letter_not_whitespace.
  - rewrite app_assoc, chars_app by done. change (chars [rparen]) with [[rparen]].
    rewrite rev_app_distr. reflexivity.
Qed.

(** C23 A rule written for a literal content means that content. For every tool
    name and action, and every content that is not empty, not the wildcard [*], and
    neither begins nor ends, once escaped, with white space (the parser trims what stands
    between the parentheses), the text [Name(escaped content)] parses to a rule of that tool
    whose pattern is the content itself, parentheses and backslashes included. Excluded are
    also the two spellings the parser gives a meaning of their own: a [domain:] prefix, for any tool, and for
    [Bash] a [:*] suffix. *)
Theorem parse_permission_rule_roundtrip name t act s :
  tool_name_to_filter name = Some t ->
  s ≠ [] -> s ≠ lit "*" ->
  trim (escape_rule_content s) = escape_rule_content s ->
  strip_prefix (lit "domain:") s = None ->
  (t = FBash -> strip_suffix (lit ":*") s = None) ->
  parse_permission_rule (name ++ [lparen] ++ escape_rule_content s ++ [rparen]) act
  = Ok (mkRule act t (Some s) Glob).
Proof.
  intros Ht Hne Hstar Htrim Hd Hb. unfold parse_permission_rule.
  pose proof (written_trim name t ([lparen] ++ escape_rule_content s) Ht) as Hw.
  rewrite <- app_assoc in Hw. rewrite Hw. cbn [app].
  destruct (tool_name_plain name t Ht) as (_ & Hn & Hbs).
  rewrite find_first_after by done. rewrite (parse_written name t act s) by done.
  assert ((if bool_decide (t = FBash) then strip_bash_colon_wildcard s else s) = s) as Hw'
    by (unfold strip_bash_colon_wildcard; case_bool_decide; [by rewrite Hb|done]).
  unfold finish_pattern. rewrite Hw'.
  unfold strip_domain_prefix. rewrite Hd. by destruct s.
Qed.

Lemma parse_permission_rule_roundtrip_witness :
  parse_permission_rule (lit "Bash(python -c \\\(1\))") ActDeny
  = Ok (mkRule ActDeny FBash (Some (lit "python -c \(1)")) Glob).
Proof.
  apply (parse_permission_rule_roundtrip (lit "Bash") FBash ActDeny (lit "python -c \(1)"));
    first [discriminate|intros _; vm_compute; reflexivity|vm_compute; reflexivity].
Defined.
