(* ===== verification/ExecRisk.v ===== *)
(** * Execution risk of a command

    [crates/codegen/xai-grok-workspace/src/permission/exec_risk.rs]: options that
    make [git] and [sort] run a program, the read-only queries of [git], and the
    local configuration of the repositories a script's [git] commands run in.
    libgit2 is a parameter: the entries it reads of a repository's local
    configuration and its parse of a boolean. *)

From S2P Require Export PermissionPolicy.

(** ** The command that runs *)

(** Source: crates/codegen/xai-grok-workspace/src/permission/exec_risk.rs:19-22, [NormalizedArgv]. *)
Inductive NormalizedArgv := ArgvReady (words : list str) | ArgvFailClosed.

(** One iteration continues with fewer words: the slices compared by pointer are
    tails of one slice, so they are the same when their lengths are.

    Source: crates/codegen/xai-grok-workspace/src/permission/exec_risk.rs:24-50, [normalize_for_exec_risk]. *)
Fixpoint exec_normalize_loop (n : nat) (current : list str) : NormalizedArgv :=
  match n with
  | 0 => ArgvFailClosed
  | S n =>
      let checked := unwrap_wrappers_checked current in
      if peel_exhausted checked || peel_has_split_string checked || peel_has_chdir checked then ArgvFailClosed
      else
        let after_wrap := peel_words checked in
        match peel_transparent_prefixes after_wrap with
        | PeelAmbiguous => ArgvFailClosed
        | Ready after_trans =>
            if Nat.eqb (length after_trans) (length current) then ArgvReady after_trans
            else if Nat.eqb (length after_trans) (length after_wrap) then ArgvReady after_trans
            else exec_normalize_loop n after_trans
        end
  end.

(** Source: crates/codegen/xai-grok-workspace/src/permission/exec_risk.rs:24-50, [normalize_for_exec_risk]. *)
Definition normalize_for_exec_risk (words : list str) : NormalizedArgv :=
  exec_normalize_loop MAX_NORMALIZE_ROUNDS words.

(** [tok.split_once('=').map(|(f, _)| f).unwrap_or(tok)]. *)
Definition before_eq (tok : str) : str := from_option fst tok (split_once (byte 61) tok).

(** Source: crates/codegen/xai-grok-workspace/src/permission/exec_risk.rs:53-58, [is_accepted_long_option_prefix]. *)
Definition is_accepted_long_option_prefix (flag : str) (full : string) (min_len : nat) : bool :=
  starts_with (lit "--") flag && Nat.leb min_len (length flag) && starts_with flag (lit full)
  && forallb (fun b => is_ascii_alphanumeric b || ch_eqb b (byte 45)) flag.

(** Source: crates/codegen/xai-grok-workspace/src/permission/exec_risk.rs:80-87, [normalized_token_basename]. *)
Definition normalized_token_basename (token : str) : str :=
  let name := to_ascii_lowercase (base_name token) in
  match strip_suffix (lit ".exe") name with Some stem => stem | None => name end.

(** Source: crates/codegen/xai-grok-workspace/src/permission/exec_risk.rs:60-71, [normalized_program_name]. *)
Definition normalized_program_name (words : list str) : option str :=
  raw ← head words;
  if is_empty (base_name raw) then None else Some (normalized_token_basename raw).

Definition program_is (name : string) (words : list str) : bool :=
  match normalized_program_name words with Some p => str_eqb p (lit name) | None => false end.

(** Source: crates/codegen/xai-grok-workspace/src/permission/exec_risk.rs:73-75, [is_git_program]. *)
Definition is_git_program : list str -> bool := program_is "git".
(** Source: crates/codegen/xai-grok-workspace/src/permission/exec_risk.rs:77-79, [is_sort_program]. *)
Definition is_sort_program : list str -> bool := program_is "sort".

(** ** Options that run a program *)

(** The loop over the words after the program. *)
Fixpoint compress_program_loop (l : list str) : bool :=
  match l with
  | [] => false
  | w :: l =>
      if str_eqb w (lit "--") then false
      else if str_eqb w (lit "--compress-program") || starts_with (lit "--compress-program=") w then true
      else if is_accepted_long_option_prefix (before_eq w) "--compress-program" 4 then true
      else compress_program_loop l
  end.

(** Source: crates/codegen/xai-grok-workspace/src/permission/exec_risk.rs:90-104, [sort_has_compress_program_flag]. *)
Definition sort_has_compress_program_flag (words : list str) : bool := compress_program_loop (drop 1 words).

(** Source: crates/codegen/xai-grok-workspace/src/permission/exec_risk.rs:106-113, [is_git_config_env_flag]. *)
Definition is_git_config_env_flag (tok : str) : bool :=
  str_eqb tok (lit "--config-env") || starts_with (lit "--config-env=") tok
  || is_accepted_long_option_prefix (before_eq tok) "--config-env" 4.

(** Source: crates/codegen/xai-grok-workspace/src/permission/exec_risk.rs:116-128, [is_git_repo_retarget_flag]. *)
Definition is_git_repo_retarget_flag (tok : str) : bool :=
  str_eqb tok (lit "--git-dir") || starts_with (lit "--git-dir=") tok
  || str_eqb tok (lit "--work-tree") || starts_with (lit "--work-tree=") tok
  || is_accepted_long_option_prefix (before_eq tok) "--git-dir" 4
  || is_accepted_long_option_prefix (before_eq tok) "--work-tree" 4.

(** Source: crates/codegen/xai-grok-workspace/src/permission/exec_risk.rs:130-132, [is_attached_git_config_c]. *)
Definition is_attached_git_config_c (tok : str) : bool :=
  starts_with (lit "-c") tok && Nat.ltb 2 (length tok) && negb (starts_with (lit "--") tok).

(** Source: crates/codegen/xai-grok-workspace/src/permission/exec_risk.rs:134-137, [attached_git_c_path]. *)
Definition attached_git_c_path (tok : str) : option str :=
  match strip_prefix (lit "-C") tok with
  | Some rest => if negb (is_empty rest) && negb (starts_with (lit "--") tok) then Some rest else None
  | None => None
  end.

(** Source: crates/codegen/xai-grok-workspace/src/permission/exec_risk.rs:139-159, [git_global_option_takes_value]. *)
Definition git_global_option_takes_value (tok : str) : bool :=
  str_in ["-C"; "-c"; "--git-dir"; "--work-tree"; "--namespace"; "--super-prefix"; "--exec-path"; "--list-cmds";
          "--attr-source"; "--config-env"] tok
  || is_accepted_long_option_prefix tok "--config-env" 4
  || is_accepted_long_option_prefix tok "--git-dir" 4
  || is_accepted_long_option_prefix tok "--work-tree" 4
  || is_accepted_long_option_prefix tok "--namespace" 7
  || is_accepted_long_option_prefix tok "--super-prefix" 8
  || is_accepted_long_option_prefix tok "--exec-path" 7
  || is_accepted_long_option_prefix tok "--list-cmds" 7
  || is_accepted_long_option_prefix tok "--attr-source" 8.

(** The next word is taken for the value of the option before it. *)
Definition reads_as_value (n : str) : bool := negb (starts_with dash n) || str_eqb n dash.

(** The option [tok] takes the word after it. *)
Definition skips_value (tok n : str) : bool :=
  negb (has_char "=" tok) && git_global_option_takes_value tok && reads_as_value n.

(** The loop from an index, on the words that remain.

    Source: crates/codegen/xai-grok-workspace/src/permission/exec_risk.rs:162-196, [git_has_exec_risk_global]. *)
Fixpoint exec_risk_global_loop (l : list str) : bool :=
  match l with
  | [] => false
  | tok :: l' =>
      if str_eqb tok (lit "--") then false
      else if negb (starts_with dash tok) || str_eqb tok dash then false
      else if str_eqb tok (lit "-c") || is_attached_git_config_c tok || is_git_config_env_flag tok
              || is_git_repo_retarget_flag tok then true
      else
        match attached_git_c_path tok, l' with
        | None, n :: l'' => if skips_value tok n then exec_risk_global_loop l'' else exec_risk_global_loop l'
        | _, _ => exec_risk_global_loop l'
        end
  end.

(** Source: crates/codegen/xai-grok-workspace/src/permission/exec_risk.rs:162-196, [git_has_exec_risk_global]. *)
Definition git_has_exec_risk_global (words : list str) : bool := exec_risk_global_loop (drop 1 words).

(** Source: crates/codegen/xai-grok-workspace/src/permission/exec_risk.rs:198-206, [segment_has_exec_risk_flag]. *)
Definition segment_has_exec_risk_flag (words : list str) : bool :=
  if is_sort_program words then sort_has_compress_program_flag words
  else if is_git_program words then git_has_exec_risk_global words
  else false.

(** Source: crates/codegen/xai-grok-workspace/src/permission/exec_risk.rs:208-212, [SegmentExecFacts]. *)
Record SegmentExecFacts := mkFacts { exec_risk : bool; has_git : bool }.

(** Source: crates/codegen/xai-grok-workspace/src/permission/exec_risk.rs:215-226, [segment_exec_facts]. *)
Definition segment_exec_facts (words : list str) : SegmentExecFacts :=
  match normalize_for_exec_risk words with
  | ArgvFailClosed => mkFacts true false
  | ArgvReady inner => mkFacts (segment_has_exec_risk_flag inner) (is_git_program inner)
  end.

(** ** Read-only queries of [git] *)

(** Source: crates/codegen/xai-grok-workspace/src/permission/exec_risk.rs:231-253, [SAFE_GIT_SUBCOMMANDS]. *)
Definition SAFE_GIT_SUBCOMMANDS : list string :=
  ["status"; "branch"; "log"; "diff"; "ls-files"; "show"; "rev-parse"; "blame"; "grep"; "describe"; "merge-base";
   "check-ignore"; "check-attr"; "cat-file"; "ls-tree"; "show-ref"; "for-each-ref"; "rev-list"; "name-rev";
   "count-objects"; "shortlog"].

(** Source: crates/codegen/xai-grok-workspace/src/permission/exec_risk.rs:257-263, [GIT_QUERY_UNSAFE_OPTIONS]. *)
Definition GIT_QUERY_UNSAFE_OPTIONS : list string :=
  ["--filters"; "--textconv"; "--output"; "--ext-diff"; "--open-files-in-pager"].

(** Source: crates/codegen/xai-grok-workspace/src/permission/exec_risk.rs:267-273, [git_query_option_is_unsafe]. *)
Definition git_query_option_is_unsafe (word : str) : bool :=
  let flag := before_eq word in
  Nat.ltb 2 (length flag) && existsb (fun full => starts_with flag (lit full)) GIT_QUERY_UNSAFE_OPTIONS.

(** The loop, on the words from index [i].

    Source: crates/codegen/xai-grok-workspace/src/permission/exec_risk.rs:277-297, [git_safe_query_verb_index]. *)
Fixpoint verb_index_loop (i : nat) (l : list str) : option nat :=
  match l with
  | [] => None
  | tok :: l' =>
      if str_eqb tok dash || str_eqb tok (lit "--") then None
      else if negb (starts_with dash tok) then Some i
      else if str_eqb tok (lit "-C") then
        match l' with [] => None | _ :: l'' => verb_index_loop (S (S i)) l'' end
      else if (match attached_git_c_path tok with Some _ => true | None => false end)
              || str_eqb tok (lit "--no-pager") || str_eqb tok (lit "-P")
      then verb_index_loop (S i) l'
      else None
  end.

(** Source: crates/codegen/xai-grok-workspace/src/permission/exec_risk.rs:277-297, [git_safe_query_verb_index]. *)
Definition git_safe_query_verb_index (words : list str) : option nat := verb_index_loop 1 (drop 1 words).

Definition first_is (name : string) (words : list str) : bool :=
  match words with w :: _ => str_eqb w (lit name) | [] => false end.

(** Source: crates/codegen/xai-grok-workspace/src/permission/exec_risk.rs:301-311, [git_words_have_unsafe_query_option]. *)
Definition git_words_have_unsafe_query_option (words : list str) : bool :=
  first_is "git" words
  && (existsb git_query_option_is_unsafe (drop 1 words)
      || (match git_safe_query_verb_index words with
          | Some i => match words !! i with Some w => str_eqb w (lit "grep") | None => false end
          | None => false
          end && existsb (starts_with (lit "-O")) (drop 1 words))).

(** Source: crates/codegen/xai-grok-workspace/src/permission/exec_risk.rs:315-335, [git_words_are_read_only_query]. *)
Definition git_words_are_read_only_query (words : list str) : bool :=
  if negb (first_is "git" words) then false
  else if git_has_exec_risk_global words then false
  else
    match git_safe_query_verb_index words with
    | None => false
    | Some verb_idx =>
        match words !! verb_idx with
        | Some w => str_in SAFE_GIT_SUBCOMMANDS w && negb (git_words_have_unsafe_query_option words)
        | None => false
        end
    end.

(** ** The configuration around a [git] command *)

(** Source: crates/codegen/xai-grok-workspace/src/permission/exec_risk.rs:378-385, [is_static_path_operand]. *)
Definition is_static_path_operand (p : str) : bool :=
  negb (is_empty p) && negb (str_eqb p dash) && negb (starts_with dash p) && negb (has_char "$" p)
  && negb (has_char "`" p) && negb (contains (lit "$(") p).

(** Source: crates/codegen/xai-grok-workspace/src/permission/exec_risk.rs:387-394, [join_cwd]. *)
Definition join_cwd (base operand : str) : str :=
  if is_absolute operand then operand else path_push base operand.

(** The loop over the operands, with the target found so far; after [--] the
    next word is the target, whatever it is. *)
Fixpoint chdir_target (target : option str) (l : list str) : option (option str) :=
  match l with
  | [] => Some target
  | tok :: l' =>
      if str_eqb tok (lit "--") then Some (head l')
      else if starts_with dash tok then None
      else match target with
           | Some _ => None
           | None => chdir_target (Some tok) l'
           end
  end.

(** Source: crates/codegen/xai-grok-workspace/src/permission/exec_risk.rs:396-417, [apply_literal_chdir]. *)
Definition apply_literal_chdir (cwd : str) (words : list str) : option str :=
  target ← chdir_target None (drop 1 words);
  target ← target;
  if is_static_path_operand target then Some (join_cwd cwd target) else None.

(** Source: crates/codegen/xai-grok-workspace/src/permission/exec_risk.rs:423-460, [git_effective_cwd]. *)
Fixpoint effective_cwd_loop (cwd : str) (l : list str) : option str :=
  match l with
  | [] => Some cwd
  | tok :: l' =>
      if str_eqb tok (lit "--") || negb (starts_with dash tok) || str_eqb tok dash then Some cwd
      else if is_git_repo_retarget_flag tok then None
      else if str_eqb tok (lit "-C") then
        match l' with
        | path :: l'' =>
            if is_static_path_operand path then effective_cwd_loop (join_cwd cwd path) l'' else None
        | [] => None
        end
      else
        match attached_git_c_path tok, l' with
        | Some path, _ => if is_static_path_operand path then effective_cwd_loop (join_cwd cwd path) l' else None
        | None, n :: l'' =>
            if skips_value tok n then effective_cwd_loop cwd l'' else effective_cwd_loop cwd l'
        | None, [] => effective_cwd_loop cwd l'
        end
  end.

(** Source: crates/codegen/xai-grok-workspace/src/permission/exec_risk.rs:420-461, [git_effective_cwd]. *)
Definition git_effective_cwd (words : list str) (start_cwd : str) : option str :=
  effective_cwd_loop start_cwd (drop 1 words).

(** Source: crates/codegen/xai-grok-workspace/src/permission/exec_risk.rs:463-467, [AmbientScanPlan]. *)
Inductive AmbientScanPlan := PlanFailClosed | CheckDirs (dirs : list str).

(** The loop over the segments, with the directory it has reached and those it
    has collected; a program that is [cd] or [pushd] moves it. *)
Fixpoint ambient_loop (cwd : str) (git_cwds : list str) (raw_segments : list (list str)) : AmbientScanPlan :=
  match raw_segments with
  | [] => if is_empty git_cwds then PlanFailClosed else CheckDirs git_cwds
  | raw :: rest =>
      match normalize_for_exec_risk raw with
      | ArgvFailClosed => PlanFailClosed
      | ArgvReady words =>
          if program_is "cd" words || program_is "pushd" words then
            match apply_literal_chdir cwd words with
            | Some next => ambient_loop next git_cwds rest
            | None => PlanFailClosed
            end
          else if program_is "popd" words then PlanFailClosed
          else if program_is "git" words then
            match git_effective_cwd words cwd with
            | Some effective => ambient_loop cwd (git_cwds ++ [effective]) rest
            | None => PlanFailClosed
            end
          else ambient_loop cwd git_cwds rest
      end
  end.

(** Source: crates/codegen/xai-grok-workspace/src/permission/exec_risk.rs:470-499, [ambient_scan_plan_from_segments]. *)
Definition ambient_scan_plan_from_segments (raw_segments : list (list str)) (session_cwd : str) : AmbientScanPlan :=
  ambient_loop session_cwd [] raw_segments.

(** [s.rsplit_once('.')]. *)
Definition rsplit_once_dot (s : str) : option (str * str) :=
  i ← rfind (lit ".") s; Some (take i s, drop (S i) s).

(** Source: crates/codegen/xai-grok-workspace/src/git_content_filters.rs:6-23, [filter_command_driver]. *)
Definition filter_command_driver (name : str) : option str :=
  if Nat.ltb (length name) 7 || negb (is_char_boundary name 7) then None
  else if negb (eq_ignore_ascii_case (take 7 name) (lit "filter.")) then None
  else
    '(driver, prop) ← rsplit_once_dot (drop 7 name);
    if negb (is_empty driver)
       && (eq_ignore_ascii_case prop (lit "clean") || eq_ignore_ascii_case prop (lit "smudge")
           || eq_ignore_ascii_case prop (lit "process"))
    then Some driver else None.

(** What the scan reads of the world: the entries of a directory's local and
    worktree configuration ([None] on a read error), and [git2]'s parse of a
    boolean value. *)
Class GitConfig := {
  read_local_git_config_entries : str -> option (list (str * str));
  parse_bool : str -> option bool
}.

Section Ambient.
Context `{GitConfig}.

(** Source: crates/codegen/xai-grok-workspace/src/permission/exec_risk.rs:337-368, [local_git_config_entry_is_exec]. *)
Definition local_git_config_entry_is_exec (name value : str) : bool :=
  let name := to_ascii_lowercase name in
  let value := trim value in
  if is_empty value then false
  else if str_eqb name (lit "core.fsmonitor") then
    match parse_bool value with Some _ => false | None => true end
  else if str_eqb name (lit "diff.external") then true
  else if match strip_prefix (lit "diff.") name with
          | Some rest => ends_with (lit ".command") rest || ends_with (lit ".textconv") rest
                         || ends_with (lit ".external") rest
          | None => false
          end then true
  else if match filter_command_driver name with Some _ => true | None => false end then true
  else match strip_prefix (lit "alias.") name with
       | Some a => str_in SAFE_GIT_SUBCOMMANDS a && starts_with (lit "!") value
       | None => false
       end.

(** Source: crates/codegen/xai-grok-workspace/src/permission/exec_risk.rs:369-376, [local_repo_config_has_exec_risk]. *)
Definition local_repo_config_has_exec_risk (cwd : str) : bool :=
  match read_local_git_config_entries cwd with
  | None => true
  | Some entries => existsb (fun '(name, value) => local_git_config_entry_is_exec name value) entries
  end.

(** Source: crates/codegen/xai-grok-workspace/src/permission/exec_risk.rs:501-506, [ambient_exec_risk_from_plan]. *)
Definition ambient_exec_risk_from_plan (plan : AmbientScanPlan) : bool :=
  match plan with
  | PlanFailClosed => true
  | CheckDirs dirs => existsb local_repo_config_has_exec_risk dirs
  end.

End Ambient.

(** [s.split(f)] on characters. *)
Fixpoint split_chars (f : str -> bool) (cur : str) (l : list str) : list str :=
  match l with
  | [] => [cur]
  | c :: l => if f c then cur :: split_chars f [] l else split_chars f (cur ++ c) l
  end.

(** Source: crates/codegen/xai-grok-workspace/src/permission/exec_risk.rs:517-530, [script_may_invoke_git]. *)
Definition script_may_invoke_git (cmd : str) : bool :=
  let ends c := is_whitespace c || str_in ["|"; "&"; ";"; "("; ")"; "`"; "<"; ">"] c || str_eqb c nl in
  existsb (fun token =>
    let trimmed := trim_matches [byte 39; byte 34; byte 96] token in
    negb (is_empty trimmed) && str_eqb (normalized_token_basename trimmed) (lit "git"))
    (split_chars ends [] (chars cmd)).

Example facts_ex :
  segment_exec_facts (words_of ["command"; "timeout"; "1"; "env"; "git"; "-c"; "core.fsmonitor=/x"; "status"])
    = mkFacts true true
  ∧ segment_exec_facts (words_of ["command"; "git"; "status"]) = mkFacts false true
  ∧ segment_exec_facts (words_of ["command"; "env"; "-C"; "/evil"; "git"; "status"]) = mkFacts true false
  ∧ git_words_are_read_only_query (words_of ["git"; "-C/abs"; "--no-pager"; "log"; "--oneline"]) = true
  ∧ git_words_are_read_only_query (words_of ["git"; "-p"; "status"]) = false
  ∧ git_words_have_unsafe_query_option (words_of ["git"; "grep"; "-Ovim"; "TODO"]) = true
  ∧ git_words_have_unsafe_query_option (words_of ["git"; "cat-file"; "--filt"; "HEAD:a"]) = true
  ∧ script_may_invoke_git (lit "x=`/usr/bin/git status`") = true.
Proof. vm_compute. by split_and!. Qed.

(** * Theorems *)

(** ** Normalization *)

Lemma unwrap_loop_done n p :
  peel_exhausted p = false -> peel_exhausted (unwrap_loop n p) = false ->
  strip_wrapper_command (peel_words (unwrap_loop n p)) = None.
Proof.
  revert p. induction n as [|n IH]; intros p Hp; cbn [unwrap_loop]; cbn zeta.
  - cbn. intros Hx. destruct (strip_wrapper_command (peel_words p)) eqn:E; [|done].
    by rewrite (strip_wrapper_is_wrapper _ _ E) in Hx.
  - destruct (strip_wrapper_command (peel_words p)) as [inner|] eqn:E; [by apply IH|].
    by destruct (head_is_env (peel_words p)).
Qed.

Lemma unwrap_checked_done w :
  peel_exhausted (unwrap_wrappers_checked w) = false ->
  strip_wrapper_command (peel_words (unwrap_wrappers_checked w)) = None.
Proof. by apply unwrap_loop_done. Qed.

Lemma peel_transparent_done w inner :
  peel_transparent_prefixes w = Ready inner -> strip_transparent_prefix inner = NotPrefix.
Proof.
  unfold peel_transparent_prefixes. revert w.
  induction MAX_TRANSPARENT_PREFIX_DEPTH as [|n IH]; intros w; cbn [transparent_loop];
    destruct (strip_transparent_prefix w) eqn:E; intros Hr; simplify_eq; eauto.
Qed.

(** Words with nothing to peel, whose head is not [env]: a round leaves them. *)
Lemma unwrap_settled w :
  strip_wrapper_command w = None -> head_is_env w = false ->
  unwrap_wrappers_checked w = mkPeel w false false false false.
Proof.
  destruct (unwrap_checked_S w) as [n ->]. intros Hs He. cbn [unwrap_loop peel_words]. cbn zeta.
  by rewrite He, Hs.
Qed.

Lemma peel_transparent_settled w : strip_transparent_prefix w = NotPrefix -> peel_transparent_prefixes w = Ready w.
Proof. destruct (peel_transparent_S w) as [n ->]. cbn [transparent_loop]. by intros ->. Qed.

#[local] Opaque unwrap_wrappers_checked peel_transparent_prefixes.

Lemma normalize_loop_settled n p :
  strip_wrapper_command (norm_words p) = None -> strip_transparent_prefix (norm_words p) = NotPrefix ->
  head_is_env (norm_words p) = false -> has_split_string p = false -> env_options_uncertain p = false ->
  normalize_loop n p = p.
Proof.
  intros Hs Ht He Hsp Hun. destruct n as [|n]; [done|]. cbn [normalize_loop]. cbn zeta.
  rewrite (unwrap_settled _ Hs He). cbn. rewrite Hsp, Hun. cbn.
  rewrite (peel_transparent_settled _ Ht), Nat.eqb_refl. destruct p; cbn in *. by rewrite Hsp, Hun, !orb_false_r.
Qed.

(** One round that does not fail closed. *)
Lemma exec_round n c inner :
  exec_normalize_loop (S n) c = ArgvReady inner ->
  ∃ w un t, unwrap_wrappers_checked c = mkPeel w false false un false ∧ peel_transparent_prefixes w = Ready t
    ∧ t `suffix_of` w ∧ w `suffix_of` c
    ∧ (t = w ∧ inner = t ∨ length t ≠ length c ∧ exec_normalize_loop n t = ArgvReady inner).
Proof.
  cbn [exec_normalize_loop]. cbn zeta. pose proof (unwrap_checked_tail c) as Hw.
  destruct (unwrap_wrappers_checked c) as [w chd sp un ex]. cbn in *.
  destruct ex, sp, chd; try done. cbn.
  destruct (peel_transparent_prefixes w) as [t|] eqn:Et; [|done].
  pose proof (peel_transparent_tail _ _ Et) as Ht. intros Hr. exists w, un, t. split_and!; try done.
  pose proof (suffix_length _ _ Ht). pose proof (suffix_length _ _ Hw).
  destruct (Nat.eqb_spec (length t) (length c)).
  - left. simplify_eq. split; [|done]. apply suffix_length_eq; [done|lia].
  - destruct (Nat.eqb_spec (length t) (length w)); [left; simplify_eq; split; [|done]; apply suffix_length_eq; [done|lia]|].
    by right.
Qed.

(** Normalization for the risk scan. The words it returns are a tail of those
    given, and neither a wrapper nor a transparent prefix is left to peel: the
    scan never looks at the options of a wrapper instead of the command's. *)
Theorem exec_normalize_settles words inner :
  normalize_for_exec_risk words = ArgvReady inner ->
  inner `suffix_of` words ∧ strip_wrapper_command inner = None ∧ strip_transparent_prefix inner = NotPrefix.
Proof.
  unfold normalize_for_exec_risk. revert words.
  induction MAX_NORMALIZE_ROUNDS as [|n IH]; intros c; [done|].
  intros (w & un & t & Hu & Ht & Hs1 & Hs2 & Hr)%exec_round.
  destruct Hr as [[-> ->]|[_ Hr]].
  - split; [done|]. split; [|by eapply peel_transparent_done].
    pose proof (unwrap_checked_done c) as Hd. rewrite Hu in Hd. by apply Hd.
  - destruct (IH _ Hr) as (Hs & ? & ?). split_and!; try done. etrans; [exact Hs|]. by etrans.
Qed.

(** The risk scan and the policy look at the same command. When the risk scan
    returns words whose head is not [env], the policy's normalization returns
    the same words without a flag, unless it met options of [env] it does not
    know, for which it asks. *)
Theorem normalizers_agree words inner :
  normalize_for_exec_risk words = ArgvReady inner -> head_is_env inner = false ->
  let p := normalize_command_words words in
  env_options_uncertain p = true ∨ norm_words p = inner ∧ unflagged p = true.
Proof.
  intros Hr He. destruct (exec_normalize_settles _ _ Hr) as (_ & Hsw & Hst).
  assert (Hloop : ∀ n p, exec_normalize_loop n (norm_words p) = ArgvReady inner ->
    p = mkNorm (norm_words p) false false false false false ->
    let q := normalize_loop n p in
    env_options_uncertain q = true ∨ q = mkNorm inner false false false false false).
  { clear words Hr. intros n. induction n as [|n IH]; intros p; [done|].
    intros (w & un & t & Hu & Ht & Hs1 & Hs2 & Hr)%exec_round ->. cbn [normalize_loop norm_words].
    cbn zeta. rewrite Hu. cbn. destruct un; cbn; [by left|]. rewrite Ht. cbn.
    destruct Hr as [[-> ->]|[Hne Hr]].
    - destruct (Nat.eqb _ _); [by right|]. right. by apply normalize_loop_settled.
    - destruct (Nat.eqb_spec (length t) (length (norm_words p))); [done|]. by apply IH. }
  cbn zeta. unfold normalize_for_exec_risk in Hr.
  destruct (Hloop MAX_NORMALIZE_ROUNDS (mkNorm words false false false false false) Hr eq_refl) as [Hq|Hq];
    unfold normalize_command_words; cbn zeta.
  - left. rewrite Hq, andb_false_r. exact Hq.
  - right. rewrite Hq. cbn. rewrite Hsw, Hst, andb_false_r. by cbn.
Qed.

#[local] Transparent unwrap_wrappers_checked peel_transparent_prefixes.

(** ** Read-only queries *)

(** What may stand between [git] and the verb: [-C] with any word, [-C]
    attached to a path, [--no-pager] and [-P]. *)
Inductive benign_globals : list str -> Prop :=
  | bg_nil : benign_globals []
  | bg_C v l : benign_globals l -> benign_globals (lit "-C" :: v :: l)
  | bg_attached t p l : attached_git_c_path t = Some p -> benign_globals l -> benign_globals (t :: l)
  | bg_no_pager l : benign_globals l -> benign_globals (lit "--no-pager" :: l)
  | bg_P l : benign_globals l -> benign_globals (lit "-P" :: l).

Lemma attached_dash t p : attached_git_c_path t = Some p -> t = lit "-C" ++ p ∧ p ≠ [].
Proof.
  unfold attached_git_c_path. destruct (strip_prefix _ t) as [r|] eqn:E; [|done].
  destruct (is_empty r) eqn:Er; [done|]. destruct (negb _ && _); [|done]. intros [= <-].
  apply strip_prefix_spec in E. by apply is_empty_false in Er.
Qed.

(** The index is that of the first word that is not among these globals. *)
Lemma verb_index_spec i l k :
  verb_index_loop i l = Some k <->
  ∃ globals verb args, l = globals ++ verb :: args ∧ benign_globals globals ∧ starts_with dash verb = false
    ∧ k = i + length globals.
Proof.
  split.
  - revert i. induction l as [l IH] using (induction_ltof1 _ (@length _)). unfold ltof in IH. intros i.
    destruct l as [|tok l]; cbn [verb_index_loop]; [done|].
    destruct (str_eqb tok dash || str_eqb tok (lit "--")); [done|].
    destruct (starts_with dash tok) eqn:Ed; cbn [negb].
    2: { intros [= <-]. exists [], tok, l. split_and!; [done|constructor|done|cbn; lia]. }
    assert (Hstep : ∀ pre rest j, tok :: l = pre ++ rest -> length pre = j -> j ≠ 0 ->
      (∀ g, benign_globals g -> benign_globals (pre ++ g)) -> verb_index_loop (j + i) rest = Some k ->
      ∃ globals verb args, tok :: l = globals ++ verb :: args ∧ benign_globals globals
        ∧ starts_with dash verb = false ∧ k = i + length globals).
    { intros pre rest j Heq Hj Hpos Hg Hk. apply IH in Hk as (g & verb & args & -> & Hb & Hv & ->).
      - exists (pre ++ g), verb, args. rewrite Heq, length_app, <- app_assoc. split_and!; auto. lia.
      - rewrite Heq, length_app. lia. }
    destruct (str_eqb tok (lit "-C")) eqn:EC.
    { apply str_eqb_eq in EC as ->. destruct l as [|v l]; [done|].
      intros Hk. apply (Hstep [lit "-C"; v] l 2); auto. intros g Hg. by constructor. }
    destruct (_ || _) eqn:Eb; [|done]. intros Hk. apply (Hstep [tok] l 1); auto. intros g Hg.
    apply orb_true_iff in Eb as [Eb|Eb]; [apply orb_true_iff in Eb as [Eb|Eb]|].
    + destruct (attached_git_c_path tok) as [p|] eqn:Ea; [|done]. by apply (bg_attached tok p).
    + apply str_eqb_eq in Eb as ->. by constructor.
    + apply str_eqb_eq in Eb as ->. by constructor.
  - intros (g & verb & args & -> & Hb & Hv & ->). revert i.
    induction Hb as [|v l _ IH|t p l Ha _ IH|l _ IH|l _ IH]; intros i; cbn [app verb_index_loop length].
    + destruct (str_eqb verb dash || str_eqb verb (lit "--")) eqn:Ed.
      { apply orb_true_iff in Ed as [->%str_eqb_eq| ->%str_eqb_eq]; done. }
      rewrite Hv. cbn. f_equal. lia.
    + cbn. rewrite IH. f_equal. lia.
    + rewrite Ha. apply attached_dash in Ha as [-> Hp]. destruct p as [|c p]; [done|]. cbn. rewrite IH. f_equal. lia.
    + cbn. rewrite IH. f_equal. lia.
    + cbn. rewrite IH. f_equal. lia.
Qed.

Lemma safe_verb_plain verb : str_in SAFE_GIT_SUBCOMMANDS verb = true -> starts_with dash verb = false.
Proof.
  unfold str_in. intros (x & Hx & <-%str_eqb_eq)%existsb_exists. 
  assert (Hall : Forall (fun x => starts_with dash (lit x) = false) SAFE_GIT_SUBCOMMANDS) by repeat constructor.
  rewrite List.Forall_forall in Hall. by apply Hall.
Qed.

Lemma first_is_git words : first_is "git" words = true <-> ∃ l, words = lit "git" :: l.
Proof.
  split; [|by intros [l ->]]. destruct words as [|w l]; [done|]. intros ->%str_eqb_eq. by exists l.
Qed.

Lemma existsb_false {A} (f : A -> bool) l : existsb f l = false <-> Forall (fun x => f x = false) l.
Proof.
  induction l as [|x l IH]; cbn; [split; [constructor|done]|].
  rewrite orb_false_iff, IH, Forall_cons. done.
Qed.

(** C38 What the safe list takes for a read-only query of [git], exactly. The
    program is spelled [git]; before the verb there is only [-C] with its
    path, [--no-pager] or [-P]; the verb is one of the table; no word after the program
    could abbreviate an option that runs a driver or writes a file, nor, for
    [grep], be [-O]; and the scan for options that inject configuration found
    nothing. *)
Theorem read_only_query_iff words :
  git_words_are_read_only_query words = true <->
  ∃ globals verb args, words = lit "git" :: globals ++ verb :: args ∧ benign_globals globals
    ∧ str_in SAFE_GIT_SUBCOMMANDS verb = true
    ∧ Forall (fun w => git_query_option_is_unsafe w = false) (globals ++ verb :: args)
    ∧ (verb = lit "grep" -> Forall (fun w => starts_with (lit "-O") w = false) (globals ++ verb :: args))
    ∧ git_has_exec_risk_global words = false.
Proof.
  unfold git_words_are_read_only_query, git_words_have_unsafe_query_option.
  assert (Hat : ∀ g v a, (lit "git" :: g ++ v :: a) !! (1 + length g) = Some v).
  { intros g v a. cbn. by apply list_lookup_middle. }
  split.
  - destruct (first_is "git" words) eqn:Ef; [|done]. apply first_is_git in Ef as [l ->]. cbn [negb].
    destruct (git_has_exec_risk_global _) eqn:Er; [done|].
    destruct (git_safe_query_verb_index _) as [k|] eqn:Ek; [|done].
    apply verb_index_spec in Ek as (g & v & a & El & Hb & Hv & ->). 
    rewrite skipn_cons, drop_0 in El. subst l. rewrite Hat, skipn_cons, drop_0. cbn [andb]. intros [Hs Hu]%andb_true_iff.
    apply negb_true_iff, orb_false_iff in Hu as [Hu Ho]. rewrite existsb_false in Hu.
    exists g, v, a. split_and!; try done. intros ->. apply existsb_false. rewrite str_eqb_refl in Ho. by destruct (existsb _ _).
  - intros (g & v & a & -> & Hb & Hs & Hu & Ho & Hr).
    assert (Hk : git_safe_query_verb_index (lit "git" :: g ++ v :: a) = Some (1 + length g)).
    { apply verb_index_spec. exists g, v, a.
      rewrite skipn_cons, drop_0. split_and!; try done. by apply safe_verb_plain. }
    rewrite Hr, Hk, Hat, Hs, skipn_cons, drop_0. cbn [first_is]. rewrite str_eqb_refl.
    apply existsb_false in Hu. rewrite Hu. cbn [negb andb orb].
    destruct (str_eqb v (lit "grep")) eqn:Eg; [|done]. apply str_eqb_eq in Eg.
    by rewrite (proj2 (existsb_false _ _) (Ho Eg)).
Qed.

(** Globals whose [-C] values do not look like options. *)
Inductive plain_globals : list str -> Prop :=
  | pg_nil : plain_globals []
  | pg_C v l : reads_as_value v = true -> plain_globals l -> plain_globals (lit "-C" :: v :: l)
  | pg_attached t p l : attached_git_c_path t = Some p -> plain_globals l -> plain_globals (t :: l)
  | pg_no_pager l : plain_globals l -> plain_globals (lit "--no-pager" :: l)
  | pg_P l : plain_globals l -> plain_globals (lit "-P" :: l).

Lemma plain_is_benign g : plain_globals g -> benign_globals g.
Proof. induction 1; by econstructor. Qed.

Lemma attached_not_long p full n : is_accepted_long_option_prefix (before_eq (lit "-C" ++ p)) full n = false.
Proof.
  unfold is_accepted_long_option_prefix, before_eq. cbn [split_once app lit].
  cbn. by destruct (split_once "=" p) as [[]|].
Qed.

Lemma attached_not_risky p :
  is_git_config_env_flag (lit "-C" ++ p) || is_git_repo_retarget_flag (lit "-C" ++ p) = false.
Proof.
  unfold is_git_config_env_flag, is_git_repo_retarget_flag. by rewrite !attached_not_long.
Qed.

Lemma plain_globals_not_risky g verb args :
  plain_globals g -> starts_with dash verb = false -> exec_risk_global_loop (g ++ verb :: args) = false.
Proof.
  intros Hg Hv. induction Hg as [|v l Hr _ IH|t p l Ha _ IH|l _ IH|l _ IH]; cbn [app exec_risk_global_loop].
  - rewrite Hv. by destruct (str_eqb verb (lit "--")).
  - cbn. unfold skips_value. rewrite Hr. cbn. exact IH.
  - rewrite Ha. apply attached_dash in Ha as [-> Hp]. pose proof (attached_not_risky p) as Hf.
    destruct p as [|c p]; [done|]. apply orb_false_iff in Hf as [-> ->]. exact IH.
  - cbn. destruct (l ++ verb :: args) as [|n rest] eqn:E; [by destruct l|]. cbn [skips_value]. exact IH.
  - cbn. destruct (l ++ verb :: args) as [|n rest] eqn:E; [by destruct l|]. exact IH.
Qed.

(** Ordinary queries are accepted: the scan for injected configuration adds
    nothing when no value of [-C] looks like an option. *)
Lemma plain_query_accepted g verb args :
  plain_globals g -> str_in SAFE_GIT_SUBCOMMANDS verb = true ->
  Forall (fun w => git_query_option_is_unsafe w = false) (g ++ verb :: args) ->
  (verb = lit "grep" -> Forall (fun w => starts_with (lit "-O") w = false) (g ++ verb :: args)) ->
  git_words_are_read_only_query (lit "git" :: g ++ verb :: args) = true.
Proof.
  intros Hg Hs Hu Ho. pose proof (safe_verb_plain _ Hs) as Hv.
  unfold git_words_are_read_only_query, git_words_have_unsafe_query_option, git_has_exec_risk_global.
  assert (Hk : git_safe_query_verb_index (lit "git" :: g ++ verb :: args) = Some (1 + length g)).
  { apply verb_index_spec. exists g, verb, args.
    rewrite skipn_cons, drop_0. split_and!; try done. by apply plain_is_benign. }
  rewrite skipn_cons, drop_0. rewrite (plain_globals_not_risky _ _ _ Hg Hv), Hk.
  replace ((lit "git" :: g ++ verb :: args) !! (1 + length g)) with (Some verb)
    by (symmetry; cbn; by apply list_lookup_middle).
  rewrite Hs. apply existsb_false in Hu. rewrite Hu. cbn [negb andb orb first_is]. rewrite str_eqb_refl.
  destruct (str_eqb verb (lit "grep")) eqn:Eg; [|done]. apply str_eqb_eq in Eg.
  by rewrite (proj2 (existsb_false _ _) (Ho Eg)).
Qed.

(** ** The ambient scan *)

(** The directory after a segment, when it is known. *)
Definition segment_cwd (cwd : str) (raw : list str) : option str :=
  match normalize_for_exec_risk raw with
  | ArgvFailClosed => None
  | ArgvReady words =>
      if program_is "cd" words || program_is "pushd" words then apply_literal_chdir cwd words
      else if program_is "popd" words then None
      else Some cwd
  end.

Fixpoint cwd_after (cwd : str) (segments : list (list str)) : option str :=
  match segments with
  | [] => Some cwd
  | raw :: rest => next ← segment_cwd cwd raw; cwd_after next rest
  end.

Lemma program_is_one a b words : program_is a words = true -> a ≠ b -> program_is b words = false.
Proof.
  unfold program_is. destruct (normalized_program_name words) as [p|]; [|done].
  intros ->%str_eqb_eq Hab. apply not_true_iff_false. intros He%str_eqb_eq. apply Hab.
  unfold lit in He. apply (f_equal String.string_of_list_ascii) in He.
  by rewrite !String.string_of_list_ascii_of_string in He.
Qed.

Lemma ambient_loop_incl cwd acc segs dirs : ambient_loop cwd acc segs = CheckDirs dirs -> acc ⊆ dirs.
Proof.
  revert cwd acc. induction segs as [|raw segs IH]; intros cwd acc; cbn [ambient_loop].
  - destruct (is_empty acc); [done|]. by intros [= ->].
  - destruct (normalize_for_exec_risk raw) as [words|]; [|done].
    destruct (_ || _); [destruct (apply_literal_chdir cwd words); [apply IH|done]|].
    destruct (program_is "popd" words); [done|]. destruct (program_is "git" words); [|apply IH].
    destruct (git_effective_cwd words cwd) as [d|]; [|done]. intros Hl%IH. etrans; [|exact Hl]. set_solver.
Qed.

(** When the scan names directories, no segment was beyond it, and the
    directory each [git] command runs in is among them: the session's, moved
    by every literal [cd] before the command and by its own [-C] options. *)
Theorem ambient_scan_complete segs cwd dirs pre raw post :
  ambient_scan_plan_from_segments segs cwd = CheckDirs dirs -> segs = pre ++ raw :: post ->
  ∃ c words, cwd_after cwd pre = Some c ∧ normalize_for_exec_risk raw = ArgvReady words
    ∧ (is_git_program words = true -> ∃ d, git_effective_cwd words c = Some d ∧ d ∈ dirs).
Proof.
  intros Hl ->. unfold ambient_scan_plan_from_segments in Hl. revert Hl. generalize ([] : list str) as acc.
  revert cwd. induction pre as [|x pre IH]; intros cwd acc; cbn [app ambient_loop cwd_after].
  - destruct (normalize_for_exec_risk raw) as [words|] eqn:En; [|done]. intros Hl.
    exists cwd, words. split_and!; [done|done|]. intros Hg. unfold is_git_program in Hg.
    rewrite (program_is_one _ "cd" _ Hg), (program_is_one _ "pushd" _ Hg), (program_is_one _ "popd" _ Hg), Hg in Hl
      by done.
    cbn in Hl. destruct (git_effective_cwd words cwd) as [d|]; [|done]. exists d. split; [done|].
    apply ambient_loop_incl in Hl. set_solver.
  - unfold segment_cwd. destruct (normalize_for_exec_risk x) as [w|]; [|done].
    destruct (_ || _); [destruct (apply_literal_chdir cwd w); [apply IH|done]|].
    destruct (program_is "popd" w); [done|]. cbn [mbind option_bind].
    destruct (program_is "git" w); [|apply IH]. destruct (git_effective_cwd w cwd); [apply IH|done].
Qed.

(** ** Witness *)

Lemma normalizers_agree_witness :
  norm_words (normalize_command_words (words_of ["command"; "timeout"; "1"; "git"; "status"])) = words_of ["git"; "status"].
Proof.
  destruct (normalizers_agree (words_of ["command"; "timeout"; "1"; "git"; "status"]) (words_of ["git"; "status"]))
    as [Hu|[Hw _]]; [vm_compute; reflexivity|vm_compute; reflexivity| |exact Hw].
  vm_compute in Hu. discriminate Hu.
Defined.
