(* ===== verification/ShellAccess.v ===== *)
(** * Files a shell command reads and writes

    [crates/codegen/xai-grok-workspace/src/permission/shell_access.rs]: the
    redirects and commands of a script read off its syntax tree, the files each
    names and whether it reads or writes them, the gate of the policy on those
    files, and the targets whose edit always needs a confirmation. The parser and
    the glob patterns are parameters as in [PermissionPolicy]; so is the file
    system's resolution of a path. *)

From S2P Require Export ExecRisk.

(** ** Walking the tree *)

(** A node with its way up: each ancestor from the nearest, and what stands
    right after the node below it. *)
Record Cursor := mkCursor { here : Node; above : list (Node * option Node) }.

Fixpoint with_next (l : list Node) : list (Node * option Node) :=
  match l with
  | [] => []
  | n :: l' => (n, head l') :: with_next l'
  end.

(** The children of a node, anonymous ones included. *)
Definition child_cursors (c : Cursor) : list Cursor :=
  map (fun '(n, next) => mkCursor n ((here c, next) :: above c)) (with_next (children (here c))).

Definition root_cursor (n : Node) : Cursor := mkCursor n [].

(** [while let Some(node) = stack.pop()], pushing the children in order: the
    nodes in the order the loop meets them. *)
Fixpoint visit (fuel : nat) (stack : list Cursor) : list Cursor :=
  match fuel, stack with
  | S fuel, c :: stack => c :: visit fuel (rev (child_cursors c) ++ stack)
  | _, _ => []
  end.

Definition visited (root : Node) : list Cursor := visit (node_size root) [root_cursor root].

Definition child_by_field_name (f : string) (n : Node) : option Node :=
  List.find (fun c => match node_field c with Some g => str_eqb g (lit f) | None => false end) (children n).

(** ** Scopes *)

(** Source: crates/codegen/xai-grok-workspace/src/permission/shell_access.rs:641-645, [ExecutionScope]. *)
Record ExecutionScope := mkScope { scope_start : N; scope_end : N }.

#[export] Instance ExecutionScope_eq_dec : EqDecision ExecutionScope.
Proof. solve_decision. Defined.

(** Source: crates/codegen/xai-grok-workspace/src/permission/shell_access.rs:647-651, [ExecutionScope::contains]. *)
Definition scope_contains (s other : ExecutionScope) : bool :=
  N.leb (scope_start s) (scope_start other) && N.leb (scope_end other) (scope_end s).

Definition span_of (n : Node) : ExecutionScope := mkScope (N.of_nat (start_byte n)) (N.of_nat (end_byte n)).

(** The loop up the ancestors of [current].

    Source: crates/codegen/xai-grok-workspace/src/permission/shell_access.rs:661-699, [execution_scope]. *)
Fixpoint scope_loop (current : Node) (up : list (Node * option Node)) : ExecutionScope :=
  match up with
  | [] => mkScope 0 u64_max
  | (parent, next) :: up' =>
      if match next with Some s => kind_is "&" s | None => false end then
        span_of (if kind_is "list" current then current else parent)
      else if str_in ["subshell"; "command_substitution"; "process_substitution"] (kind parent) then span_of parent
      else if kind_is "pipeline" parent then span_of current
      else scope_loop parent up'
  end.

(** Source: crates/codegen/xai-grok-workspace/src/permission/shell_access.rs:661-699, [execution_scope]. *)
Definition execution_scope (c : Cursor) : ExecutionScope := scope_loop (here c) (above c).

(** Source: crates/codegen/xai-grok-workspace/src/permission/shell_access.rs:637-639, [shell_program_name]. *)
Definition shell_program_name (word : str) : str := base_name word.

(** Source: crates/codegen/xai-grok-workspace/src/permission/shell_access.rs:701-704, [CwdPoison]. *)
Record CwdPoison := mkPoison { poison_at : nat; poison_scope : ExecutionScope }.

Definition is_cwd_program (p : str) : bool := str_in ["cd"; "pushd"; "popd"] p.

(** Source: crates/codegen/xai-grok-workspace/src/permission/shell_access.rs:707-731, [cwd_poison_positions]. *)
Definition cwd_poison_positions (root : Node) (src : str) : list CwdPoison :=
  omap (fun c =>
    if kind_is "command" (here c)
       && match child_by_field_name "name" (here c) with
          | Some name => is_cwd_program (shell_program_name (node_text src name))
          | None => false
          end
    then Some (mkPoison (start_byte (here c)) (execution_scope c)) else None) (visited root).

(** Source: crates/codegen/xai-grok-workspace/src/permission/shell_access.rs:734-736, [script_has_cwd_change]. *)
Definition script_has_cwd_change (root : Node) (src : str) : bool := negb (is_empty (cwd_poison_positions root src)).

(** Source: crates/codegen/xai-grok-workspace/src/permission/shell_access.rs:739-743, [cwd_unpinned_before]. *)
Definition cwd_unpinned_before (positions : list CwdPoison) (at_ : nat) (scope : ExecutionScope) : bool :=
  existsb (fun p => Nat.ltb (poison_at p) at_
                    && (bool_decide (poison_scope p = scope) || scope_contains (poison_scope p) scope)) positions.

(** ** The text of a word *)

(** Source: crates/codegen/xai-grok-workspace/src/permission/shell_access.rs:812-817, [ArgText]. *)
Inductive ArgText := ArgLiteral (s : str) | ArgAmbiguous.

(** Source: crates/codegen/xai-grok-workspace/src/permission/shell_access.rs:820-839, [node_has_expansion]. *)
Definition node_has_expansion (n : Node) : bool :=
  existsb (fun m => str_in ["expansion"; "simple_expansion"; "command_substitution"; "arithmetic_expansion";
                            "process_substitution"] (kind m)) (forest (children n)).

(** Source: crates/codegen/xai-grok-workspace/src/permission/shell_access.rs:842-849, [is_windows_path_like]. *)
Definition is_windows_path_like (raw : str) : bool :=
  starts_with [backslash; backslash] raw
  || match raw with
     | b :: c :: _ => is_ascii_alphabetic b && ch_eqb c (byte 58)
     | _ => false
     end.

Definition is_backslash (ch : str) : bool := str_eqb ch [backslash].

Fixpoint fold_escapes (l : list str) : option str :=
  match l with
  | [] => Some []
  | ch :: l' =>
      if is_backslash ch then
        match l' with [] => None | n :: l'' => app n <$> fold_escapes l'' end
      else app ch <$> fold_escapes l'
  end.

(** Source: crates/codegen/xai-grok-workspace/src/permission/shell_access.rs:852-869, [decode_unquoted_word]. *)
Definition decode_unquoted_word (raw : str) : option str :=
  if negb (contains [backslash] raw) || is_windows_path_like raw then Some raw else fold_escapes (chars raw).

Fixpoint fold_double_quoted (l : list str) : option str :=
  match l with
  | [] => Some []
  | ch :: l' =>
      if is_backslash ch then
        match l' with
        | [] => None
        | n :: l'' =>
            if str_in ["$"; "`"] n || str_eqb n dq || is_backslash n || str_eqb n nl
            then app n <$> fold_double_quoted l''
            else app (ch ++ n) <$> fold_double_quoted l''
        end
      else app ch <$> fold_double_quoted l'
  end.

(** Source: crates/codegen/xai-grok-workspace/src/permission/shell_access.rs:872-893, [decode_double_quoted_content]. *)
Definition decode_double_quoted_content (content : str) : option str :=
  if negb (contains [backslash] content) then Some content else fold_double_quoted (chars content).

(** [raw.strip_prefix(q).and_then(|s| s.strip_suffix(q)).unwrap_or(raw)]. *)
Definition strip_quotes (q raw : str) : str := default raw (s ← strip_prefix q raw; strip_suffix q s).

Definition literal_or_ambiguous (o : option str) : ArgText :=
  match o with Some s => ArgLiteral s | None => ArgAmbiguous end.

(** Source: crates/codegen/xai-grok-workspace/src/permission/shell_access.rs:895-937, [shell_node_arg]. *)
Definition shell_node_arg (src : str) (n : Node) : option ArgText :=
  let text := node_text src n in
  if kind_is "variable_assignment" n then None
  else if kind_is "word" n || kind_is "number" n then Some (literal_or_ambiguous (decode_unquoted_word text))
  else if kind_is "raw_string" n then Some (ArgLiteral (strip_quotes (lit "'") text))
  else if kind_is "string" n then
    if node_has_expansion n then Some ArgAmbiguous
    else Some (literal_or_ambiguous (decode_double_quoted_content (strip_quotes dq text)))
  else if kind_is "concatenation" n then
    if node_has_expansion n then Some ArgAmbiguous
    else Some (literal_or_ambiguous (decode_shell_literal_spelling text))
  else Some ArgAmbiguous.

(** ** The commands of a script *)

(** Source: crates/codegen/xai-grok-workspace/src/permission/shell_access.rs:746-750, [InvocationWord]. *)
Inductive InvocationWord := ILiteral (w : str) | IUntrusted.

(** Source: crates/codegen/xai-grok-workspace/src/permission/shell_access.rs:752-758, [ShellInvocation]. *)
Record ShellInvocation := mkInvocation {
  inv_start_byte : nat;
  inv_scope : ExecutionScope;
  inv_words : list InvocationWord;
  wrapper_words : list str
}.

(** Source: crates/codegen/xai-grok-workspace/src/permission/shell_access.rs:775-783, [InvocationSlice::literal_words]. *)
Definition literal_words (ws : list InvocationWord) : list str :=
  omap (fun w => match w with ILiteral s => Some s | IUntrusted => None end) ws.

(** Source: crates/codegen/xai-grok-workspace/src/permission/shell_access.rs:785-793, [InvocationSlice::shell_words]. *)
Definition shell_words (ws : list InvocationWord) : list ShellWord :=
  map (fun w => match w with ILiteral s => WLiteral s | IUntrusted => WUntrusted end) ws.

(** One operand of a command; an assignment is none. *)
Definition invocation_word (src : str) (child : Node) : option InvocationWord :=
  arg ← (if kind_is "command_name" child then inner ← head (named_children child); shell_node_arg src inner
         else shell_node_arg src child);
  Some (match arg with ArgLiteral s => ILiteral s | ArgAmbiguous => IUntrusted end).

(** Source: crates/codegen/xai-grok-workspace/src/permission/shell_access.rs:939-985, [shell_command_invocations]. *)
Definition invocation_at (src : str) (c : Cursor) : ShellInvocation :=
  let ws := omap (invocation_word src) (named_children (here c)) in
  mkInvocation (start_byte (here c)) (execution_scope c) ws
    (map (fun w => match w with ILiteral s => s | IUntrusted => nul end) ws).

(** Source: crates/codegen/xai-grok-workspace/src/permission/shell_access.rs:939-985, [shell_command_invocations]. *)
Definition shell_command_invocations (root : Node) (src : str) : list ShellInvocation :=
  sort_asc inv_start_byte
    (map (invocation_at src) (List.filter (fun c => kind_is "command" (here c)) (visited root))).

(** Source: crates/codegen/xai-grok-workspace/src/permission/shell_access.rs:765-772, [CheckedInvocationPeel]. *)
Record CheckedInvocationPeel := mkInvPeel {
  ip_words : list InvocationWord;
  ip_has_chdir : bool;
  ip_has_split_string : bool;
  ip_env_options_uncertain : bool;
  ip_exhausted : bool;
  ip_transparent_ambiguous : bool
}.

(** Source: crates/codegen/xai-grok-workspace/src/permission/shell_access.rs:796-810, [unwrap_invocation_checked]. *)
Definition unwrap_invocation_checked (inv : ShellInvocation) : CheckedInvocationPeel :=
  let norm := normalize_command_words (wrapper_words inv) in
  let peeled_count := length (wrapper_words inv) - length (norm_words norm) in
  mkInvPeel (default [] (get_from (inv_words inv) peeled_count)) (has_chdir norm) (has_split_string norm)
    (env_options_uncertain norm) (exhausted norm) (ambiguous norm).

(** Source: crates/codegen/xai-grok-workspace/src/permission/policy.rs:457-462, [InlineShellScript::is_potential_inline]. *)
Definition is_potential_inline (s : InlineShellScript) : bool :=
  match s with SLiteral _ | SUntrusted => true | NotInline | SUnrecognized => false end.

(** Source: crates/codegen/xai-grok-workspace/src/permission/shell_access.rs:989-995, [words_are_opaque_shell]. *)
Definition words_are_opaque_shell (ws : list ShellWord) : bool :=
  is_potential_inline (shell_dash_c_script ws)
  || match ws with WLiteral program :: _ => str_eqb (shell_program_name program) (lit "eval") | _ => false end.

(** Source: crates/codegen/xai-grok-workspace/src/permission/shell_access.rs:998-1005, [tree_has_opaque_shell]. *)
Definition tree_has_opaque_shell (root : Node) (src : str) : bool :=
  existsb (fun inv => words_are_opaque_shell (shell_words (ip_words (unwrap_invocation_checked inv))))
    (shell_command_invocations root src).

(** ** Redirects *)

(** Source: crates/codegen/xai-grok-workspace/src/permission/shell_access.rs:612-618, [ShellFileMode]. *)
Inductive ShellFileMode := FRd | FWr | FCreate.

#[export] Instance ShellFileMode_eq_dec : EqDecision ShellFileMode.
Proof. solve_decision. Defined.

(** Source: crates/codegen/xai-grok-workspace/src/permission/shell_access.rs:653-659, [ShellRedirectTarget]. *)
Record ShellRedirectTarget := mkRedirect {
  redirect_path : option str;
  redirect_mode : ShellFileMode;
  redirect_ambiguous : bool;
  redirect_start_byte : nat;
  redirect_scope : ExecutionScope
}.

(** Source: crates/codegen/xai-grok-workspace/src/permission/shell_access.rs:1252-1254, [shell_arg_is_ambiguous]. *)
Definition shell_arg_is_ambiguous (token : str) : bool :=
  has_char "*" token || has_char "?" token || has_char "[" token.

(** The operator of a redirect; none for a here-document.

    Source: crates/codegen/xai-grok-workspace/src/permission/shell_access.rs:1031-1044, [shell_redirect_one]. *)
Fixpoint redirect_operator (l : list Node) : option str :=
  match l with
  | [] => None
  | n :: l' =>
      if contains (lit "<<") (kind n) then None
      else if has_char ">" (kind n) || has_char "<" (kind n) then Some (kind n)
      else redirect_operator l'
  end.

(** Source: crates/codegen/xai-grok-workspace/src/permission/shell_access.rs:1031-1066, [shell_redirect_one]. *)
Definition shell_redirect_one (src : str) (n : Node) : option (option str * ShellFileMode * bool) :=
  redirect ← redirect_operator (children n);
  let mode := if has_char ">" redirect then FWr else FRd in
  let duplicates_fd := str_in [">&"; "<&"] redirect in
  dest ← child_by_field_name "destination" n;
  arg ← shell_node_arg src dest;
  match arg with
  | ArgLiteral s =>
      if is_empty s || starts_with (lit "&") s || (duplicates_fd && (str_eqb s dash || forallb is_ascii_digit s))
      then None
      else Some (Some s, mode, shell_arg_is_ambiguous s)
  | ArgAmbiguous => Some (None, mode, true)
  end.

(** Source: crates/codegen/xai-grok-workspace/src/permission/shell_access.rs:1007-1029, [shell_redirect_targets]. *)
Definition shell_redirect_targets (root : Node) (src : str) : list ShellRedirectTarget :=
  omap (fun c =>
    if kind_is "file_redirect" (here c) then
      '(path, mode, amb) ← shell_redirect_one src (here c);
      Some (mkRedirect path mode amb (start_byte (here c)) (execution_scope c))
    else None) (visited root).

(** ** The operands of a command *)

(** Source: crates/codegen/xai-grok-workspace/src/permission/shell_access.rs:622-635, [shell_file_mode]. *)
Definition shell_file_mode (program : str) : option ShellFileMode :=
  if str_in ["cat"; "tac"; "nl"; "head"; "tail"; "grep"; "egrep"; "fgrep"; "rg"; "sed"; "awk"; "less"; "more";
             "bat"; "strings"; "xxd"; "od"; "hexdump"; "base64"; "base32"; "cut"; "sort"; "uniq"; "wc"; "type";
             "get-content"; "gc"; "diff"; "comm"; "rev"; "jq"; "yq"; "select-string"; "sls"; "ag"; "ack"; "zcat";
             "zless"; "zmore"; "zgrep"; "zegrep"; "zfgrep"; "bzcat"; "bzgrep"; "xzcat"; "xzgrep"; "zstdcat";
             "lz4cat"] program then Some FRd
  else if str_in ["tee"; "set-content"; "out-file"; "add-content"; "tee-object"; "truncate"] program then Some FWr
  else None.

(** Source: crates/codegen/xai-grok-workspace/src/permission/shell_access.rs:1068-1075, [shell_sed_in_place]. *)
Definition shell_sed_in_place (ws : list str) : bool :=
  existsb (fun w => str_eqb w (lit "--in-place") || starts_with (lit "--in-place=") w
                    || (starts_with dash w && negb (starts_with (lit "--") w) && has_char "i" w)) (drop 1 ws).

(** One word of the command, with the word after it: the value of an output
    option it is. A missing value is the empty path.

    Source: crates/codegen/xai-grok-workspace/src/permission/shell_access.rs:1083-1118, [shell_output_flag_values]. *)
Definition output_flag_value (clustered_o : bool) (token : str) (next : option str) : option str :=
  let next_or_empty := default [] next in
  if starts_with (lit "--") token then
    let '(flag, attached) := match split_once (byte 61) token with
                             | Some (flag, value) => (flag, Some value)
                             | None => (token, None)
                             end in
    if is_accepted_long_option_prefix flag "--output" 3 then Some (default next_or_empty attached) else None
  else if str_eqb token (lit "-o") then Some next_or_empty
  else
    match strip_prefix (lit "-o") token with
    | Some (c :: value) => Some (c :: value)
    | _ =>
        if negb clustered_o then None
        else
          flags ← strip_prefix dash token;
          if is_empty flags || starts_with (lit "o") flags || has_char "=" flags then None
          else
            '(_, after_o) ← split_once (byte 111) flags;
            Some (if is_empty after_o then next_or_empty else after_o)
    end.

Fixpoint output_values_from (clustered_o : bool) (ws : list str) : list str :=
  match ws with
  | [] => []
  | token :: ws' =>
      option_list (output_flag_value clustered_o token (head ws')) ++ output_values_from clustered_o ws'
  end.

(** Source: crates/codegen/xai-grok-workspace/src/permission/shell_access.rs:1079-1119, [shell_output_flag_values]. *)
Definition shell_output_flag_values (ws : list str) (clustered_o : bool) : list str := output_values_from clustered_o ws.

(** Source: crates/codegen/xai-grok-workspace/src/permission/shell_access.rs:1123-1140, [value_flag_values]. *)
Fixpoint value_flag_values (flag : string) (ws : list str) : list str :=
  match ws with
  | [] => []
  | token :: ws' =>
      option_list
        (match strip_prefix (lit flag ++ lit "=") token with
         | Some value => Some value
         | None =>
             if str_eqb token (lit flag) then head ws'
             else if negb (starts_with (lit "--") (lit flag)) then
               match strip_prefix (lit flag) token with
               | Some (c :: value) => Some (c :: value)
               | _ => None
               end
             else None
         end) ++ value_flag_values flag ws'
  end.

Fixpoint candidates_from (end_of_options : bool) (ws : list str) : list str :=
  match ws with
  | [] => []
  | token :: ws' =>
      if negb end_of_options && str_eqb token (lit "--") then candidates_from true ws'
      else if end_of_options || (negb (str_eqb token dash) && negb (starts_with dash token))
      then token :: candidates_from end_of_options ws'
      else candidates_from end_of_options ws'
  end.

(** Source: crates/codegen/xai-grok-workspace/src/permission/shell_access.rs:1191-1204, [shell_file_candidates]. *)
Definition shell_file_candidates (ws : list str) : list str := candidates_from false (drop 1 ws).

(** Source: crates/codegen/xai-grok-workspace/src/permission/shell_access.rs:1143-1179, [special_file_operands]. *)
Definition special_file_operands (program : str) (ws : list str) : list (str * ShellFileMode) :=
  let writes := map (fun p => (p, FWr)) in
  if str_eqb program (lit "dd") then
    omap (fun token => match strip_prefix (lit "if=") token with
                       | Some path => Some (path, FRd)
                       | None => path ← strip_prefix (lit "of=") token; Some (path, FWr)
                       end) (drop 1 ws)
  else if str_eqb program (lit "sort") then writes (shell_output_flag_values ws true)
  else if str_in ["go"; "git"] program then writes (shell_output_flag_values ws false)
  else if str_eqb program (lit "rustc") then
    writes (shell_output_flag_values ws false ++ value_flag_values "--out-dir" ws)
  else if str_eqb program (lit "rustfmt") then writes (shell_file_candidates ws)
  else [].

(** Source: crates/codegen/xai-grok-workspace/src/permission/shell_access.rs:338-340, [is_creation_program]. *)
Definition is_creation_program (program : str) : bool := str_in ["mkdir"; "touch"] program.

(** Source: crates/codegen/xai-grok-workspace/src/permission/shell_access.rs:1209-1250, [shell_path_command_operands]. *)
Definition shell_path_command_operands (program : str) (ws : list str) : option (list (str * ShellFileMode)) :=
  let operands := shell_file_candidates ws in
  if str_in ["cp"; "mv"; "ln"; "install"] program then
    dest ← last operands;
    Some (map (fun s => (s, FRd)) (removelast operands) ++ [(dest, FWr)])
  else if str_in ["rm"; "rmdir"] program then Some (map (fun c => (c, FWr)) operands)
  else if is_creation_program program then Some (map (fun c => (c, FCreate)) operands)
  else if str_eqb program (lit "uniq") then
    match operands with
    | input :: output :: _ => Some [(input, FRd); (output, FWr)]
    | _ => None
    end
  else None.

(** Source: crates/codegen/xai-grok-workspace/src/permission/shell_access.rs:1273-1275, [is_directory_operand]. *)
Definition is_directory_operand (token : str) : bool :=
  str_eqb token (lit ".") || str_eqb token (lit "..") || ends_with (lit "/") token.

(** Source: crates/codegen/xai-grok-workspace/src/permission/shell_access.rs:1258-1270, [shell_reader_can_recurse]. *)
Definition shell_reader_can_recurse (program : str) (ws candidates : list str) : bool :=
  str_in ["grep"; "egrep"; "fgrep"] program
  && existsb (fun w => str_in ["--recursive"; "--dereference-recursive"] w
                       || (starts_with dash w && negb (starts_with (lit "--") w)
                           && (has_char "r" w || has_char "R" w))) ws
  || str_in ["rg"; "ag"; "ack"] program
     && (Nat.leb (length candidates) 1 || existsb is_directory_operand (drop 1 candidates)).

(** ** The write model *)

Definition is_write (m : ShellFileMode) : bool := match m with FWr => true | _ => false end.
Definition is_create (m : ShellFileMode) : bool := match m with FCreate => true | _ => false end.

(** Source: crates/codegen/xai-grok-workspace/src/permission/shell_access.rs:250-282, [command_words_write_paths]. *)
Definition command_words_write_paths (ws : list str) : list str :=
  let inner := unwrap_wrappers ws in
  match inner with
  | [] => []
  | w :: _ =>
      let program := to_ascii_lowercase (shell_program_name w) in
      let writes l := map fst (List.filter (fun p : str * ShellFileMode => is_write (snd p)) l) in
      let out := writes (special_file_operands program inner) in
      match shell_path_command_operands program inner with
      | Some operands => out ++ writes operands
      | None =>
          if match shell_file_mode program with Some FWr => true | _ => false end
             || (str_eqb program (lit "sed") && shell_sed_in_place inner)
          then out ++ shell_file_candidates inner
          else out
      end
  end.

(** Source: crates/codegen/xai-grok-workspace/src/permission/shell_access.rs:343-354, [command_words_creation_paths]. *)
Definition command_words_creation_paths (ws : list str) : list str :=
  let inner := unwrap_wrappers ws in
  match inner with
  | [] => []
  | w :: _ =>
      map fst (List.filter (fun p : str * ShellFileMode => is_create (snd p))
        (default [] (shell_path_command_operands (to_ascii_lowercase (shell_program_name w)) inner)))
  end.

(** Source: crates/codegen/xai-grok-workspace/src/permission/shell_access.rs:296-304, [WritePathsSplit]. *)
Record WritePathsSplit := mkSplit {
  redirect_paths : list str;
  unextracted_write_redirect : bool;
  word_paths : list str;
  creation_paths : list str
}.

(** Source: crates/codegen/xai-grok-workspace/src/permission/shell_access.rs:306-335, [command_write_paths_split]. *)
Definition command_write_paths_split (root : Node) (src : str) : WritePathsSplit :=
  let targets := List.filter (fun r => is_write (redirect_mode r)) (shell_redirect_targets root src) in
  let invocations := map (fun inv => literal_words (inv_words inv)) (shell_command_invocations root src) in
  mkSplit (omap redirect_path targets)
    (existsb (fun r => match redirect_path r with None => true | Some _ => false end) targets)
    (concat (map command_words_write_paths invocations))
    (concat (map command_words_creation_paths invocations)).

(** Source: crates/codegen/xai-grok-workspace/src/permission/shell_access.rs:286-291, [command_write_paths_in_tree]. *)
Definition command_write_paths_in_tree (root : Node) (src : str) : list str :=
  let split := command_write_paths_split root src in redirect_paths split ++ word_paths split.

(** Source: crates/codegen/xai-grok-workspace/src/permission/shell_access.rs:357-359, [is_safe_write_sink]. *)
Definition is_safe_write_sink (path : str) : bool := str_in ["/dev/null"; "/dev/stdout"; "/dev/stderr"] path.

(** ** Paths as the shell writes them *)

(** Source: crates/codegen/xai-grok-workspace/src/permission/shell_access.rs:1277-1281, [is_absolute_shell_path]. *)
Definition second_is_colon (path : str) : bool :=
  match path with _ :: c :: _ => ch_eqb c (byte 58) | _ => false end.

(** Source: crates/codegen/xai-grok-workspace/src/permission/shell_access.rs:1277-1281, [is_absolute_shell_path]. *)
Definition is_absolute_shell_path (path : str) : bool :=
  starts_with (lit "/") path || starts_with (lit "~/") path || second_is_colon path.

(** Source: crates/codegen/xai-grok-workspace/src/permission/shell_access.rs:1289-1295, [normalize_shell_path_raw]. *)
Definition normalize_shell_path_raw (path : str) : str :=
  let p := replace [backslash] (lit "/") (trim_matches [byte 34; byte 39] path) in
  match strip_prefix (lit "/c/") p with
  | Some rest => lit "C:/" ++ rest
  | None => p
  end.

(** One segment of a path, on the segments kept.

    Source: crates/codegen/xai-grok-workspace/src/permission/shell_access.rs:1306-1318, [lexical_normalize]. *)
Definition segment_step (absolute : bool) (out : list str) (segment : str) : list str :=
  if is_empty segment || str_eqb segment (lit ".") then out
  else if str_eqb segment (lit "..") then
    if match last out with Some s => negb (str_eqb s (lit "..")) | None => false end then removelast out
    else if negb absolute then out ++ [lit ".."] else out
  else out ++ [segment].

(** Source: crates/codegen/xai-grok-workspace/src/permission/shell_access.rs:1297-1328, [lexical_normalize]. *)
Definition lexical_normalize (path : str) : str :=
  let prefix_len := if second_is_colon path then 2 else 0 in
  let prefix := take prefix_len path in
  let rest := drop prefix_len path in
  let absolute := starts_with (lit "/") rest in
  let body := join (lit "/") (fold_left (segment_step absolute) (split (lit "/") rest) []) in
  match is_empty prefix, absolute, is_empty body with
  | false, true, false => prefix ++ lit "/" ++ body
  | false, true, true => prefix ++ lit "/"
  | false, false, _ => prefix ++ body
  | true, true, false => lit "/" ++ body
  | true, true, true => lit "/"
  | true, false, _ => body
  end.

(** Source: crates/codegen/xai-grok-workspace/src/permission/shell_access.rs:1283-1285, [normalize_shell_path]. *)
Definition normalize_shell_path (path : str) : str := lexical_normalize (normalize_shell_path_raw path).

(** ** The gate *)

Section Gate.
Context {Value Pattern : Type} (glob_new : str -> option Pattern)
  (glob_matches_with : Pattern -> bool -> str -> bool) (url_host : str -> option str) (to_lowercase : str -> str)
  (parser : str -> option Tree) (follow_absolute_symlink : str -> str -> SymlinkFollow).

Abbreviation Policy := (CompiledPolicy (Pattern := Pattern)).

(** Source: crates/codegen/xai-grok-workspace/src/permission/shell_access.rs:1181-1186, [shell_access]. *)
Definition shell_access (mode : ShellFileMode) (path : str) : AccessKind Value :=
  match mode with FRd => Read (Some path) | FWr | FCreate => Edit path end.

(** Source: crates/codegen/xai-grok-workspace/src/permission/shell_access.rs:198-203, [CompiledPolicy::evaluate_shell_path]. *)
Definition escalate_access (p : Policy) (rule_cwd : option str) (access : AccessKind Value) : option GateDecision :=
  match evaluate_lexical_with_cwd glob_new glob_matches_with url_host to_lowercase parser p access rule_cwd with
  | Some (Reject reason) => Some (GReject reason)
  | Some Ask => Some AskRuleMatch
  | _ => None
  end.

(** Source: crates/codegen/xai-grok-workspace/src/permission/shell_access.rs:184-244, [CompiledPolicy::evaluate_shell_path]. *)
Definition evaluate_shell_path (p : Policy) (token cwd : str) (mode : ShellFileMode) (cwd_unpinned : bool) :
    option GateDecision :=
  let path := normalize_shell_path token in
  let is_abs := is_absolute_shell_path path in
  let rule_cwd := if is_abs || negb cwd_unpinned then Some cwd else None in
  let absolute := if is_abs then path else normalize_shell_path (path_push cwd path) in
  let raw := normalize_shell_path_raw token in
  let raw_absolute :=
    if is_absolute_shell_path raw then Some raw
    else if cwd_unpinned then None
    else Some (normalize_shell_path_raw (path_push cwd raw)) in
  let resolved_decision :=
    raw_absolute ← raw_absolute;
    match follow_absolute_symlink raw_absolute absolute with
    | FollowTarget resolved => escalate_access p rule_cwd (shell_access mode resolved)
    | Unresolvable => Some AskFailClosed
    | FollowNone => None
    end in
  let path_decision := escalate_access p rule_cwd (shell_access mode path) in
  let anchored_decision :=
    if cwd_unpinned && negb is_abs then None
    else combine_gate_decisions (escalate_access p rule_cwd (shell_access mode absolute)) resolved_decision in
  combine_gate_decisions (combine_gate_decisions path_decision anchored_decision)
    (if cwd_unpinned && negb is_abs then Some AskFailClosed else None).

(** The decision and the forced ask, as the loops leave them. *)
Record GateState := mkGate { gate_decision : option GateDecision; forced_ask : bool }.

Definition force (b : bool) (g : GateState) : GateState := mkGate (gate_decision g) (forced_ask g || b).
Definition add_decision (d : option GateDecision) (g : GateState) : GateState :=
  mkGate (combine_gate_decisions (gate_decision g) d) (forced_ask g).

(** One file operand: a pattern character forces an ask. *)
Definition operand_step (p : Policy) (cwd : str) (unpinned : bool) (g : GateState) (op : str * ShellFileMode) :
    GateState :=
  add_decision (evaluate_shell_path p (fst op) cwd (snd op) unpinned) (force (shell_arg_is_ambiguous (fst op)) g).

(** Source: crates/codegen/xai-grok-workspace/src/permission/shell_access.rs:58-71, [CompiledPolicy::evaluate_shell_file_access_inner]. *)
Definition redirect_step (p : Policy) (cwd : str) (cwd_unpinned : bool) (changes : list CwdPoison) (g : GateState)
    (r : ShellRedirectTarget) : GateState :=
  let g := force (redirect_ambiguous r) g in
  match redirect_path r with
  | None => g
  | Some path =>
      add_decision
        (evaluate_shell_path p path cwd (redirect_mode r)
           (cwd_unpinned || cwd_unpinned_before changes (redirect_start_byte r) (redirect_scope r))) g
  end.

(** The script given inline to a shell, over the recursive call [deeper] on
    the script and whether its directory is known. *)
Definition inline_step (deeper : option (str -> bool -> option GateDecision)) (unpinned parse_failed : bool)
    (sw : list ShellWord) (g : GateState) : GateState :=
  match shell_dash_c_script sw with
  | NotInline => g
  | SUntrusted | SUnrecognized => force true g
  | SLiteral index =>
      let g := force parse_failed g in
      match deeper with
      | None => force true g
      | Some go => match sw !! index with
                   | Some (WLiteral inner) => add_decision (go inner unpinned) g
                   | _ => g
                   end
      end
  end.

(** What the arguments of a known reader or writer name.

    Source: crates/codegen/xai-grok-workspace/src/permission/shell_access.rs:150-178, [CompiledPolicy::evaluate_shell_file_access_inner]. *)
Definition plain_operands (program : str) (lits : list str) : option (list (str * ShellFileMode)) :=
  let pairs modes := concat (map (fun t => map (fun m => (t, m)) modes) (shell_file_candidates lits)) in
  match shell_file_mode program with
  | Some FCreate | None => None
  | Some m =>
      Some (if str_eqb program (lit "sed") && shell_sed_in_place lits then pairs [FRd; FWr] else pairs [m])
  end.

(** The files of one command, once its program is known.

    Source: crates/codegen/xai-grok-workspace/src/permission/shell_access.rs:119-178, [CompiledPolicy::evaluate_shell_file_access_inner]. *)
Definition program_step (p : Policy) (cwd : str) (unpinned parse_failed has_ambiguous_word : bool) (program : str)
    (lits : list str) (g : GateState) : GateState :=
  let path_operands := shell_path_command_operands program lits in
  let is_some {A} (o : option A) := match o with Some _ => true | None => false end in
  let is_known := str_eqb program (lit "dd") || is_some (shell_file_mode program) || is_some path_operands in
  let g := force (is_known && (unpinned || has_ambiguous_word || parse_failed)) g in
  let g := fold_left (operand_step p cwd unpinned) (special_file_operands program lits) g in
  if str_eqb program (lit "dd") then g
  else
    match path_operands with
    | Some operands => fold_left (operand_step p cwd unpinned) operands g
    | None =>
        match plain_operands program lits with
        | None => g
        | Some operands =>
            force (shell_reader_can_recurse program lits (shell_file_candidates lits))
              (fold_left (operand_step p cwd unpinned) operands g)
        end
    end.

(** Source: crates/codegen/xai-grok-workspace/src/permission/shell_access.rs:73-180, [CompiledPolicy::evaluate_shell_file_access_inner]. *)
Definition invocation_step (p : Policy) (cwd : str) (deeper : option (str -> bool -> option GateDecision))
    (cwd_unpinned parse_failed : bool) (changes : list CwdPoison) (g : GateState) (inv : ShellInvocation) :
    GateState :=
  let peeled := unwrap_invocation_checked inv in
  let ws := ip_words peeled in
  let unpinned := cwd_unpinned || cwd_unpinned_before changes (inv_start_byte inv) (inv_scope inv)
                  || ip_has_chdir peeled in
  let g := force (ip_exhausted peeled || ip_has_split_string peeled || ip_env_options_uncertain peeled
                  || ip_transparent_ambiguous peeled) g in
  let g := inline_step deeper unpinned parse_failed (shell_words ws) g in
  match ws with
  | ILiteral w :: _ =>
      let program := to_ascii_lowercase (shell_program_name w) in
      if is_cwd_program program then g
      else
        program_step p cwd unpinned parse_failed
          (existsb (fun w => match w with IUntrusted => true | ILiteral _ => false end) ws) program
          (literal_words ws) g
  | _ => g
  end.

(** Source: crates/codegen/xai-grok-workspace/src/permission/shell_access.rs:38-182, [CompiledPolicy::evaluate_shell_file_access_inner]. *)
Fixpoint evaluate_shell_file_access_inner (p : Policy) (cwd : str) (inline_depth_remaining : nat) (cmd : str)
    (cwd_unpinned entered_inline : bool) : option GateDecision :=
  match parser cmd with
  | None => if entered_inline then Some AskFailClosed else None
  | Some tree =>
      let root := root_node tree in
      let parse_failed := root_has_error tree in
      let deeper := match inline_depth_remaining with
                    | 0 => None
                    | S depth => Some (fun inner unpinned =>
                                         evaluate_shell_file_access_inner p cwd depth inner unpinned true)
                    end in
      let changes := cwd_poison_positions root cmd in
      let g := mkGate None (entered_inline && parse_failed) in
      let g := fold_left (redirect_step p cwd cwd_unpinned changes) (shell_redirect_targets root cmd) g in
      let g := fold_left (invocation_step p cwd deeper cwd_unpinned parse_failed changes)
                 (shell_command_invocations root cmd) g in
      combine_gate_decisions (gate_decision g) (if forced_ask g then Some AskFailClosed else None)
  end.

(** Source: crates/codegen/xai-grok-workspace/src/permission/shell_access.rs:28-36, [CompiledPolicy::evaluate_shell_file_access_gate]. *)
Definition evaluate_shell_file_access_gate (p : Policy) (cmd cwd : str) : option GateDecision :=
  if negb (has_file_restrictions p) then None
  else evaluate_shell_file_access_inner p cwd MAX_INLINE_SHELL_DEPTH cmd false false.

(** Source: crates/codegen/xai-grok-workspace/src/permission/shell_access.rs:21-24, [CompiledPolicy::evaluate_shell_file_access]. *)
Definition evaluate_shell_file_access (p : Policy) (cmd cwd : str) : option Decision :=
  into_decision <$> evaluate_shell_file_access_gate p cmd cwd.

End Gate.

(** ** Protected edit targets *)

(** Source: crates/codegen/xai-grok-workspace/src/permission/shell_access.rs:363-375, [ProtectedEditReason]. *)
Inductive ProtectedEditReason :=
  | HookRoot | GitHooks | Ssh | StartupFile | Etc | GrokConfig | GrokSandbox | ClaudeSettings | CursorHooks
  | Sensitive.

#[export] Instance ProtectedEditReason_eq_dec : EqDecision ProtectedEditReason.
Proof. solve_decision. Defined.

(** Source: crates/codegen/xai-grok-workspace/src/permission/shell_access.rs:378-391, [ProtectedEditReason::kind]. *)
Definition protected_kind (r : ProtectedEditReason) : str :=
  lit match r with
      | HookRoot => "hook_root" | GitHooks => "git_hooks" | Ssh => "ssh" | StartupFile => "startup_file"
      | Etc => "etc" | GrokConfig => "grok_config" | GrokSandbox => "grok_sandbox"
      | ClaudeSettings => "claude_settings" | CursorHooks => "cursor_hooks" | Sensitive => "sensitive"
      end.

(** [Path::starts_with], [Path::join], [Path::parent] and the equality of paths
    are on components. *)
Definition path_starts_with (p base : str) : bool :=
  match strip_components (components base) (components p) with Some _ => true | None => false end.
Definition path_eqb (p q : str) : bool := bool_decide (components p = components q).
Definition parent_components (cs : list Component) : option (list Component) :=
  match last cs with
  | Some RootDir | None => None
  | Some _ => Some (removelast cs)
  end.

(** [path.components()], the normal ones, in lower case. *)
Definition string_components (p : str) : list str :=
  omap (fun c => match c with Normal s => Some (to_ascii_lowercase s) | _ => None end) (components p).

Definition list_ends_with (suffix : list string) (l : list str) : bool :=
  Nat.leb (length suffix) (length l)
  && bool_decide (drop (length l - length suffix) l = map lit suffix).

(** [components.get(components.len() - n) == Some(&s)]. *)
Definition nth_last_is (n : nat) (s : string) (l : list str) : bool :=
  Nat.leb n (length l) && match l !! (length l - n) with Some c => str_eqb c (lit s) | None => false end.

(** [components.windows(2).any(|pair| pair == [a, b])]. *)
Fixpoint adjacent (a b : string) (l : list str) : bool :=
  match l with
  | x :: ((y :: _) as l') => (str_eqb x (lit a) && str_eqb y (lit b)) || adjacent a b l'
  | _ => false
  end.

(** Source: crates/codegen/xai-grok-workspace/src/permission/shell_access.rs:593-602, [protected_git_hooks_path]. *)
Fixpoint under_modules_hooks (l : list str) : bool :=
  match l with
  | [] => false
  | c :: l' =>
      (str_eqb c (lit ".git")
       && match l' with
          | m :: rest => str_eqb m (lit "modules") && existsb (fun c => str_eqb c (lit "hooks")) (drop 1 rest)
          | [] => false
          end)
      || under_modules_hooks l'
  end.

(** Source: crates/codegen/xai-grok-workspace/src/permission/shell_access.rs:593-602, [protected_git_hooks_path]. *)
Definition protected_git_hooks_path (l : list str) : bool := adjacent ".git" "hooks" l || under_modules_hooks l.

(** Source: crates/codegen/xai-grok-workspace/src/permission/shell_access.rs:475-493, [protected_edit_reason]. *)
Definition STARTUP_FILES : list string :=
  [".bashrc"; ".bash_profile"; ".bash_login"; ".bash_logout"; ".profile"; ".zshrc"; ".zshenv"; ".zprofile";
   ".zlogin"; ".zlogout"; ".kshrc"; ".cshrc"; ".tcshrc"; ".login"; ".logout"; ".inputrc"; ".xprofile"].

(** What the check reads of the machine: where symbolic links lead ([None]: no
    answer), and the user's home of the program. *)
Class EditWorld := {
  resolve_following_symlinks : str -> option str;
  user_grok_home : option str
}.

Section Protected.
Context `{EditWorld}.

(** Source: crates/codegen/xai-grok-workspace/src/permission/shell_access.rs:573-579, [grok_home_matches]. *)
Definition grok_home_matches (home : option str) (pred : str -> bool) : bool :=
  match home with
  | None => false
  | Some home =>
      let lexical := normalize_lexically home in
      pred lexical || match resolve_following_symlinks lexical with Some r => pred r | None => false end
  end.

(** Source: crates/codegen/xai-grok-workspace/src/permission/shell_access.rs:581-583, [path_is_under_user_grok_hook_root]. *)
Definition path_is_under_user_grok_hook_root (path grok_home : str) : bool :=
  path_starts_with path (path_push grok_home (lit "hooks")) || path_eqb path (path_push grok_home (lit "hooks-paths")).

(** Source: crates/codegen/xai-grok-workspace/src/permission/shell_access.rs:585-591, [protected_grok_hook_root]. *)
Definition protected_grok_hook_root (path : str) (cs : list str) : bool :=
  adjacent ".grok" "hooks" cs || list_ends_with [".grok"; "hooks-paths"] cs
  || grok_home_matches user_grok_home (path_is_under_user_grok_hook_root path).

(** [crates/codegen/xai-grok-config/src/loader.rs] names the configuration
    files.

    Source: crates/codegen/xai-grok-workspace/src/permission/shell_access.rs:535-568, [protected_grok_config_file_with_home]. *)
Definition protected_grok_config_file_with_home (path : str) (cs : list str) (home : option str) :
    option ProtectedEditReason :=
  file ← last cs;
  let parent := parent_components (components path) in
  let at_home (sub : str -> list Component) (dir : option (list Component)) :=
    grok_home_matches home (fun h => bool_decide (dir = Some (sub h))) in
  if (str_eqb file (lit "permission.toml")
      || (starts_with (lit "permission_") file && ends_with (lit ".toml") file))
     && Nat.leb 3 (length cs) && nth_last_is 3 "sessions" cs
  then
    if (Nat.leb 4 (length cs) && nth_last_is 4 ".grok" cs)
       || at_home (fun h => components (path_push h (lit "sessions"))) (parent ≫= parent_components)
    then Some GrokConfig else None
  else
    reason ← (if str_in ["config.toml"; "managed_config.toml"; "requirements.toml"; "mcp.json"; "lsp.json"] file
              then Some GrokConfig
              else if str_eqb file (lit "sandbox.toml") then Some GrokSandbox else None);
    if (Nat.leb 2 (length cs) && nth_last_is 2 ".grok" cs) || at_home components parent
    then Some reason else None.

(** Source: crates/codegen/xai-grok-workspace/src/permission/shell_access.rs:527-533, [protected_grok_config_file]. *)
Definition protected_grok_config_file (path : str) (cs : list str) : option ProtectedEditReason :=
  protected_grok_config_file_with_home path cs user_grok_home.

(** Source: crates/codegen/xai-grok-workspace/src/permission/shell_access.rs:465-522, [protected_edit_reason]. *)
Definition protected_edit_reason (path : str) : option ProtectedEditReason :=
  let cs := string_components path in
  let file := default [] (last cs) in
  if protected_grok_hook_root path cs then Some HookRoot
  else if list_ends_with [".claude"; "settings.json"] cs || list_ends_with [".claude"; "settings.local.json"] cs
  then Some ClaudeSettings
  else if list_ends_with [".cursor"; "hooks.json"] cs then Some CursorHooks
  else if protected_git_hooks_path cs then Some GitHooks
  else if existsb (fun c => str_eqb c (lit ".ssh")) cs then Some Ssh
  else if str_in STARTUP_FILES file then Some StartupFile
  else match protected_grok_config_file path cs with
       | Some reason => Some reason
       | None => if path_starts_with path (lit "/etc") then Some Etc else None
       end.

(** Source: crates/codegen/xai-grok-workspace/src/permission/shell_access.rs:606-610, [resolved_path_is_within_root]. *)
Definition resolved_path_is_within_root (resolved root : str) : bool :=
  match resolve_following_symlinks root with
  | Some r => path_starts_with resolved r
  | None => true
  end.

(** Source: crates/codegen/xai-grok-workspace/src/permission/shell_access.rs:447-463, [edit_target_protection]. *)
Definition edit_target_protection (path : str) : option ProtectedEditReason :=
  if negb (is_absolute path) then Some Sensitive
  else
    match protected_edit_reason (normalize_lexically path) with
    | Some reason => Some reason
    | None =>
        match resolve_following_symlinks path with
        | None => Some Sensitive
        | Some resolved =>
            match protected_edit_reason resolved with
            | Some reason => Some reason
            | None => if resolved_path_is_within_root resolved (lit "/etc") then Some Sensitive else None
            end
        end
    end.

End Protected.

(** ** Scripts as trees

    A parser for chains of plain words, for the runs below: commands joined by
    [&&], a word after [>] the target of a redirect, a word in double quotes a
    string. *)

Definition text_node (k : string) (f : option string) (i : nat) (w : str) (cs : list Node) : Node :=
  mkNode (lit k) true i (i + length w) (lit <$> f) cs.

Definition word_node (f : option string) (i : nat) (w : str) : Node :=
  if starts_with dq w then text_node "string" f i w [] else text_node "word" f i w [].

(** The words of a script, with where they start. *)
Fixpoint offsets (i : nat) (ws : list str) : list (nat * str) :=
  match ws with
  | [] => []
  | w :: ws' => (i, w) :: offsets (S (i + length w)) ws'
  end.

Fixpoint command_children (first : bool) (ws : list (nat * str)) : list Node * list Node :=
  match ws with
  | [] => ([], [])
  | (i, w) :: ws' =>
      if str_eqb w (lit ">") then
        match ws' with
        | (j, t) :: _ =>
            ([], [mkNode (lit "file_redirect") true i (j + length t) None
                    [mkNode (lit ">") false i (S i) None []; word_node (Some "destination") j t]])
        | [] => ([], [])
        end
      else
        let '(l, r) := command_children false ws' in
        ((if first then text_node "command_name" (Some "name") i w [word_node None i w] else word_node None i w) :: l, r)
  end.

Definition last_end (l : list Node) : nat := match last l with Some n => end_byte n | None => 0 end.
Definition first_start (l : list Node) : nat := match l with n :: _ => start_byte n | [] => 0 end.

Definition command_node (ws : list (nat * str)) : Node :=
  let '(l, r) := command_children true ws in
  let cmd := mkNode (lit "command") true (first_start l) (last_end l) None l in
  if is_empty r then cmd
  else mkNode (lit "redirected_statement") true (first_start l) (last_end r) None (cmd :: r).

Fixpoint chain_nodes (cur : list (nat * str)) (ws : list (nat * str)) : list Node :=
  match ws with
  | [] => [command_node (rev cur)]
  | (i, w) :: ws' =>
      if str_eqb w (lit "&&") then
        command_node (rev cur) :: mkNode (lit "&&") false i (i + 2) None [] :: chain_nodes [] ws'
      else chain_nodes ((i, w) :: cur) ws'
  end.

Definition chain_parser (script : str) : option Tree :=
  let l := chain_nodes [] (offsets 0 (split (lit " ") script)) in
  let body := match l with [one] => one | _ => mkNode (lit "list") true (first_start l) (last_end l) None l end in
  Some (mkTree (mkNode (lit "program") true 0 (length script) None [body]) false).

Definition exact_glob (s : str) : option str := Some s.
Definition exact_match (p : str) (_ : bool) (s : str) : bool := str_eqb p s.
Definition demo_file_policy (rs : list PermissionRule) : CompiledPolicy :=
  policy_new (Value := unit) tt exact_glob exact_match (fun _ => None) id (config_new rs).
Definition demo_file_gate (rs : list PermissionRule) (cmd cwd : string) : option GateDecision :=
  evaluate_shell_file_access_gate (Value := unit) exact_glob exact_match (fun _ => None) id chain_parser no_link
    (demo_file_policy rs) (lit cmd) (lit cwd).
Definition deny_shadow : PermissionRule := mkRule ActDeny FRead (Some (lit "/etc/shadow")) Glob.

Example gate_ex :
  demo_file_gate [deny_shadow] "cat /etc/shadow" "/w" = Some (GReject (deny_reason deny_shadow))
  ∧ demo_file_gate [deny_shadow] "cat ../etc/./shadow" "/w" = Some (GReject (deny_reason deny_shadow))
  ∧ demo_file_gate [deny_shadow] "timeout 5 head -n 1 shadow" "/etc" = Some (GReject (deny_reason deny_shadow))
  ∧ demo_file_gate [deny_shadow] "cat notes" "/w" = None
  ∧ demo_file_gate [deny_shadow] "cd /etc && cat shadow" "/w" = Some AskFailClosed
  ∧ demo_file_gate [deny_shadow] "cat shadow && cd /etc" "/w" = None.
Proof. vm_compute. by split_and!. Qed.

Example write_paths_ex :
  let split s := command_write_paths_split (root_node (default (mkTree (leaf "" 0 0) true) (chain_parser (lit s)))) (lit s) in
  split "sort -no out in > log" = mkSplit [lit "log"] false [lit "out"] []
  ∧ split "mkdir a && timeout 5 tee f" = mkSplit [] false [lit "f"] [lit "a"]
  ∧ split "cp a b d" = mkSplit [] false [lit "d"] [].
Proof. vm_compute. by split_and!. Qed.
