(* ===== verification/ShellAccessSpec.v ===== *)
(** * What the gate on shell commands promises

    The theorems on [ShellAccess]: the walks meet every node, the shell's
    normalization of a path is that of the file tools, every file a script is
    seen to name is checked, and a file the tools may not touch is not reached
    through a shell command. *)

From S2P Require Export ShellAccess.

(** ** The walk *)

Lemma with_next_fst l : map fst (with_next l) = l.
Proof. induction l as [|n l IH]; cbn; [done|]. by rewrite IH. Qed.

Lemma child_cursors_here c : map here (child_cursors c) = children (here c).
Proof.
  unfold child_cursors. rewrite map_map. rewrite <- (with_next_fst (children (here c))) at 2.
  apply map_ext. by intros [].
Qed.

(** A cursor of the tree: the root's, or that of a child of one. *)
Inductive cursor_of (root : Node) : Cursor -> Prop :=
  | cursor_root : cursor_of root (root_cursor root)
  | cursor_child c d : cursor_of root c -> d ∈ child_cursors c -> cursor_of root d.

Lemma visit_spec fuel stack :
  forest_size (map here stack) ≤ fuel -> map here (visit fuel stack) ≡ₚ forest (map here stack).
Proof.
  revert stack. induction fuel as [|fuel IH]; intros [|c stack]; cbn [visit]; [done| |done|].
  - unfold forest_size. cbn. rewrite node_size_eq. lia.
  - cbn [map]. intros Hf.
    assert (Hsz : forest_size (here c :: map here stack) = S (forest_size (children (here c)) + forest_size (map here stack)))
      by (unfold forest_size at 1; simpl; by rewrite node_size_eq).
    assert (Hmap : map here (rev (child_cursors c) ++ stack) = rev (children (here c)) ++ map here stack)
      by (by rewrite map_app, map_rev, child_cursors_here).
    rewrite (IH (rev (child_cursors c) ++ stack)) by (rewrite Hmap, forest_size_push; lia).
    rewrite Hmap, forest_push. unfold forest at 3. cbn [map concat]. by rewrite nodes_eq.
Qed.

Lemma visit_cursors root fuel stack :
  Forall (cursor_of root) stack -> Forall (cursor_of root) (visit fuel stack).
Proof.
  revert stack. induction fuel as [|fuel IH]; intros [|c stack]; cbn [visit]; try done.
  intros [Hc Hs]%Forall_cons. constructor; [done|]. apply IH, Forall_app. split; [|done].
  apply Forall_rev, Forall_forall. intros d Hd. by eapply cursor_child.
Qed.

(** The loops over the tree end, meet each node once, and know its ancestors. *)
Lemma visited_complete root :
  map here (visited root) ≡ₚ nodes root ∧ Forall (cursor_of root) (visited root).
Proof.
  unfold visited. split.
  - rewrite visit_spec; unfold forest_size, forest; cbn; [by rewrite app_nil_r|lia].
  - apply visit_cursors. repeat constructor.
Qed.

(** Every command node gives an invocation, every redirect that has one a
    target. *)
Lemma every_command_is_invoked root src n :
  n ∈ nodes root -> kind_is "command" n = true ->
  ∃ inv, inv ∈ shell_command_invocations root src ∧ inv_start_byte inv = start_byte n
         ∧ inv_words inv = omap (invocation_word src) (named_children n).
Proof.
  intros Hn Hk. destruct (visited_complete root) as [Hp _]. rewrite <- Hp in Hn.
  apply list_elem_of_fmap in Hn as (c & -> & Hc). exists (invocation_at src c). split_and!; [|done|done].
  unfold shell_command_invocations. rewrite sort_asc_perm.
  apply list_elem_of_fmap. exists c. split; [done|]. apply list_elem_of_In, List.filter_In.
  split; [by apply list_elem_of_In|done].
Qed.

(** ** Normal forms of paths *)

(** The segments an absolute path keeps: none empty, none a dot or two. *)
Definition clean (out : list str) : Prop :=
  Forall (fun s => s ≠ [] ∧ s ≠ lit "." ∧ s ≠ lit ".." ∧ "/"%char ∉ s) out.

Definition root_path (out : list str) : str := lit "/" ++ join (lit "/") out.

Lemma clean_app a b : clean (a ++ b) <-> clean a ∧ clean b.
Proof. apply Forall_app. Qed.

Lemma str_eqb_false a b : a ≠ b -> str_eqb a b = false.
Proof. intros Hab. apply not_true_iff_false. by rewrite str_eqb_eq. Qed.

Lemma clean_removelast out : clean out -> clean (removelast out).
Proof.
  destruct (decide (out = [])) as [->|Hne]; [done|]. rewrite (app_removelast_last [] Hne) at 1.
  by intros [? _]%clean_app.
Qed.

(** One segment, in the two normalizations. *)
Lemma segment_step_clean out s : clean out -> "/"%char ∉ s ->
  clean (segment_step true out s)
  ∧ fold_left normalize_step (to_component s) (RootDir :: map Normal out)
    = RootDir :: map Normal (segment_step true out s).
Proof.
  intros Hc Hs. unfold segment_step, to_component.
  destruct (is_empty s || str_eqb s (lit ".")) eqn:E1; [done|].
  apply orb_false_iff in E1 as [E1 E2]. apply is_empty_false in E1.
  destruct (str_eqb s (lit "..")) eqn:E3; cbn [fold_left].
  - unfold normalize_step. destruct out as [|x out' _] using rev_ind; [done|]. rewrite last_snoc.
    apply clean_app in Hc as [Hc Hx]. apply Forall_cons in Hx as [(_ & _ & Hx & _) _].
    rewrite (str_eqb_false _ _ Hx). cbn [negb]. rewrite removelast_last. split; [done|].
    rewrite map_app. cbn [map]. rewrite app_comm_cons, last_snoc. by rewrite removelast_last.
  - split.
    + apply clean_app. split; [done|]. constructor; [|constructor]. split_and!; try done.
      * intros ->. by rewrite str_eqb_refl in E2.
      * intros ->. by rewrite str_eqb_refl in E3.
    + cbn [normalize_step]. by rewrite map_app.
Qed.

Lemma segment_fold_clean ss out : clean out -> Forall (fun s => "/"%char ∉ s) ss ->
  clean (fold_left (segment_step true) ss out)
  ∧ fold_left normalize_step (concat (map to_component ss)) (RootDir :: map Normal out)
    = RootDir :: map Normal (fold_left (segment_step true) ss out).
Proof.
  intros Hc Hs. revert out Hc. induction Hs as [|s ss Hs _ IH]; intros out Hc; cbn [map concat fold_left]; [done|].
  destruct (segment_step_clean out s Hc Hs) as [Hc' He]. rewrite fold_left_app, He. by apply IH.
Qed.

Lemma split_absolute r : split (lit "/") (lit "/" ++ r) = [] :: split (lit "/") r.
Proof. apply (split_byte_app "/"%char [] r). Qed.

Lemma split_slash_free s : Forall (fun l => "/"%char ∉ l) (split (lit "/") s).
Proof. apply (split_byte_free "/"%char s). Qed.

Lemma components_absolute r : components (lit "/" ++ r) = RootDir :: concat (map to_component (split (lit "/") r)).
Proof.
  unfold components, is_absolute. rewrite starts_with_app, split_absolute. by cbn [map concat to_component].
Qed.

Lemma split_join_slash l : l ≠ [] -> Forall (fun s => "/"%char ∉ s) l -> split (lit "/") (join (lit "/") l) = l.
Proof.
  intros Hne. destruct l as [|z l _] using rev_ind; [done|]. intros [Hl Hz]%Forall_app.
  apply Forall_cons in Hz as [Hz _]. by apply (split_join_byte "/"%char).
Qed.

(** The kept segments of an absolute path. *)
Definition kept (r : str) : list str := fold_left (segment_step true) (split (lit "/") r) [].

Lemma kept_clean r : clean (kept r).
Proof. unfold kept. apply segment_fold_clean; [constructor|apply split_slash_free]. Qed.

Lemma push_segment p s : p ≠ [] -> last p ≠ Some "/"%char -> "/"%char ∉ s -> path_push p s = p ++ lit "/" ++ s.
Proof.
  intros Hp Hl Hs. unfold path_push, is_absolute.
  destruct (starts_with (lit "/") s) eqn:E.
  { apply starts_with_spec in E as [t ->]. destruct Hs. by left. }
  destruct p as [|a p]; [done|]. cbn [is_empty]. destruct (last (a :: p)) as [c|] eqn:El; [|by apply last_None in El].
  destruct (ch_eqb c (byte 47)) eqn:Ec; [|done]. apply ch_eqb_eq in Ec. by subst.
Qed.

Lemma last_segment (p s : str) : s ≠ [] -> "/"%char ∉ s -> last (p ++ s) ≠ Some "/"%char.
Proof.
  intros Hs Hf. destruct s as [|c s _] using rev_ind; [done|]. rewrite app_assoc, last_snoc.
  intros [= ->]. apply Hf, elem_of_app. right. by left.
Qed.

Lemma collect_from p out : p ≠ [] -> last p ≠ Some "/"%char -> clean out ->
  fold_left (fun p c => path_push p (component_str c)) (map Normal out) p
  = p ++ concat (map (fun s => lit "/" ++ s) out).
Proof.
  intros Hp Hl Hc. revert p Hp Hl. induction Hc as [|s out (Hs & _ & _ & Hf) Hc IH]; intros p Hp Hl;
    cbn [map fold_left concat component_str]; [by rewrite app_nil_r|].
  rewrite push_segment by done. rewrite IH.
  - by rewrite <- !app_assoc.
  - by destruct p.
  - rewrite app_assoc. by apply last_segment.
Qed.

Lemma join_slashes s out : join (lit "/") (s :: out) = s ++ concat (map (fun s => lit "/" ++ s) out).
Proof.
  revert s. induction out as [|t out IH]; intros s; [cbn; by rewrite app_nil_r|].
  rewrite join_cons by done. rewrite IH. cbn [map concat]. by rewrite <- !app_assoc.
Qed.

Lemma collect_clean out : clean out -> collect_path (RootDir :: map Normal out) = root_path out.
Proof.
  intros Hc. unfold collect_path, root_path. cbn [fold_left component_str].
  change (path_push [] (lit "/")) with (lit "/"). destruct out as [|s out]; [done|].
  apply Forall_cons in Hc as [(Hs & _ & _ & Hf) Hc]. cbn [map fold_left component_str].
  assert (Hpush : path_push (lit "/") s = lit "/" ++ s).
  { unfold path_push, is_absolute. destruct (starts_with (lit "/") s) eqn:E.
    - apply starts_with_spec in E as [t ->]. destruct Hf. by left.
    - by destruct s. }
  rewrite Hpush, collect_from; [|done|by apply last_segment|done]. by rewrite join_slashes, <- app_assoc.
Qed.

Lemma normalize_absolute r : normalize_lexically (lit "/" ++ r) = root_path (kept r).
Proof.
  unfold normalize_lexically. rewrite components_absolute. cbn [fold_left normalize_step app].
  destruct (segment_fold_clean (split (lit "/") r) []) as [Hc He]; [constructor|apply split_slash_free|].
  cbn [map] in He. rewrite He. cbn [is_empty]. by apply collect_clean.
Qed.

(** On absolute paths the shell's normalization is the tools'. *)
Lemma lexical_is_normal r : second_is_colon (lit "/" ++ r) = false ->
  lexical_normalize (lit "/" ++ r) = normalize_lexically (lit "/" ++ r).
Proof.
  intros Hs. unfold lexical_normalize. rewrite Hs, take_0, drop_0, starts_with_app. cbn [is_empty].
  rewrite normalize_absolute, split_absolute. cbn [fold_left].
  change (segment_step true [] []) with ([] : list str). fold (kept r).
  pose proof (kept_clean r) as Hc. unfold root_path. destruct (kept r) as [|s out]; [done|].
  apply Forall_cons in Hc as [(Hne & _) _]. rewrite join_slashes. by destruct s.
Qed.

Lemma kept_root out : clean out -> kept (join (lit "/") out) = out.
Proof.
  intros Hc. unfold kept.
  assert (Hfold : ∀ acc, clean out -> fold_left (segment_step true) out acc = acc ++ out).
  { clear. intros acc Hc. revert acc. induction Hc as [|s out (H1 & H2 & H3 & _) _ IH]; intros acc; cbn [fold_left];
      [by rewrite app_nil_r|].
    unfold segment_step. rewrite (str_eqb_false s (lit ".")), (str_eqb_false s (lit "..")) by done.
    destruct s; [done|]. cbn [is_empty orb]. by rewrite IH, <- app_assoc. }
  destruct out as [|s out]; [done|]. rewrite split_join_slash, Hfold; [done|done|done|].
  eapply Forall_impl; [exact Hc|]. by intros x (_ & _ & _ & ?).
Qed.

Lemma normalize_idempotent r : normalize_lexically (normalize_lexically (lit "/" ++ r)) = normalize_lexically (lit "/" ++ r).
Proof.
  rewrite normalize_absolute. unfold root_path. rewrite normalize_absolute. by rewrite kept_root by apply kept_clean.
Qed.

(** A relative path below a directory. *)
Lemma push_normal c t : starts_with (lit "/") t = false ->
  normalize_lexically (path_push (lit "/" ++ c) t)
  = root_path (fold_left (segment_step true) (split (lit "/") t) (kept c)).
Proof.
  intros Ht. unfold path_push, is_absolute. rewrite Ht.
  change (is_empty (lit "/" ++ c)) with false. cbv iota.
  assert (Hplain : normalize_lexically ((lit "/" ++ c) ++ lit "/" ++ t)
                   = root_path (fold_left (segment_step true) (split (lit "/") t) (kept c))).
  { rewrite <- app_assoc, normalize_absolute. unfold kept.
    change (c ++ lit "/" ++ t) with (c ++ "/"%char :: t).
    change (split (lit "/")) with (split ["/"%char]). by rewrite split_byte_app, fold_left_app. }
  destruct (last (lit "/" ++ c)) as [x|] eqn:El; [|by apply last_None in El].
  destruct (ch_eqb x (byte 47)) eqn:Ex; [|exact Hplain]. apply ch_eqb_eq in Ex as ->.
  rewrite <- app_assoc, normalize_absolute. f_equal.
  destruct c as [|y c' _] using rev_ind; [done|]. rewrite app_assoc, last_snoc in El. injection El as ->.
  unfold kept. change (split (lit "/")) with (split ["/"%char]). change (byte 47) with "/"%char. rewrite <- app_assoc. cbn [app].
  by rewrite !split_byte_app, !fold_left_app.
Qed.

Definition segment_ok (s : str) : Prop := s ≠ [] ∧ s ≠ lit "." ∧ "/"%char ∉ s.

Lemma step_normal a out s : s ≠ [] -> s ≠ lit "." -> s ≠ lit ".." -> segment_step a out s = out ++ [s].
Proof.
  intros H1 H2 H3. unfold segment_step. rewrite (str_eqb_false _ _ H2), (str_eqb_false _ _ H3). by destruct s.
Qed.

Lemma step_up a out n : n ≠ lit ".." -> segment_step a (out ++ [n]) (lit "..") = out.
Proof.
  intros Hn. unfold segment_step. rewrite last_snoc, (str_eqb_false _ _ Hn), removelast_last. done.
Qed.

Lemma step_up_more out : last out = None ∨ last out = Some (lit "..") ->
  segment_step false out (lit "..") = out ++ [lit ".."].
Proof. unfold segment_step. by intros [-> | ->]. Qed.

Lemma relative_step acc out s : Forall segment_ok out ->
  fold_left (segment_step true) (segment_step false out s) acc
  = segment_step true (fold_left (segment_step true) out acc) s
  ∧ ("/"%char ∉ s -> Forall segment_ok (segment_step false out s)).
Proof.
  intros Ho. destruct (decide (s = [] ∨ s = lit ".")) as [[-> | ->]|Hs]; [done|done|].
  destruct (decide (s = lit "..")) as [->|Hu].
  - assert (Hup : segment_ok (lit "..")).
    { split_and!; [done|done|by_decide]. }
    destruct out as [|n out _] using rev_ind; [by repeat constructor|].
    apply Forall_app in Ho as [Ho Hn]. pose proof Hn as [Hn1 _]%Forall_cons.
    destruct (decide (n = lit "..")) as [->|Hne].
    + rewrite step_up_more by (right; apply last_snoc). rewrite fold_left_app. cbn [fold_left]. split; [done|].
      intros _. rewrite !Forall_app. auto.
    + rewrite step_up, fold_left_app by done. cbn [fold_left]. destruct Hn1 as (H1 & H2 & _).
      by rewrite (step_normal true _ n), step_up by done.
  - assert (s ≠ [] ∧ s ≠ lit ".") as [H1 H2] by naive_solver.
    rewrite !step_normal, fold_left_app by done. cbn [fold_left]. rewrite step_normal by done. split; [done|].
    intros Hf. rewrite Forall_app. split; [done|]. by constructor.
Qed.

Lemma relative_fold ss acc out : Forall segment_ok out -> Forall (fun s => "/"%char ∉ s) ss ->
  let rel := fold_left (segment_step false) ss out in
  fold_left (segment_step true) rel acc
  = fold_left (segment_step true) ss (fold_left (segment_step true) out acc) ∧ Forall segment_ok rel.
Proof.
  intros Ho Hs. revert out Ho. induction Hs as [|s ss Hs _ IH]; intros out Ho; cbn [fold_left]; [done|].
  destruct (relative_step acc out s Ho) as [He Ho']. destruct (IH _ (Ho' Hs)) as [IH1 IH2].
  split; [|done]. by rewrite <- He.
Qed.

Lemma relative_normal t acc : starts_with (lit "/") t = false -> second_is_colon t = false ->
  fold_left (segment_step true) (split (lit "/") (lexical_normalize t)) acc
  = fold_left (segment_step true) (split (lit "/") t) acc
  ∧ starts_with (lit "/") (lexical_normalize t) = false.
Proof.
  intros Ht Hc. unfold lexical_normalize. rewrite Hc, take_0, drop_0, Ht. cbn [is_empty].
  destruct (relative_fold (split (lit "/") t) acc []) as [He Hok]; [constructor|apply split_slash_free|].
  cbn [fold_left] in He. rewrite <- He. clear He.
  destruct (fold_left _ _ _) as [|s out]; [done|]. split.
  - rewrite split_join_slash; [done|done|]. eapply Forall_impl; [exact Hok|]. by intros x (_ & _ & ?).
  - rewrite join_slashes. apply Forall_cons in Hok as [(Hs1 & _ & Hs2) _]. destruct s as [|x s]; [done|].
    apply not_elem_of_cons in Hs2 as [Hs2 _]. cbn [app]. by apply (starts_with_byte "/"%char).
Qed.

(** A relative path, normalized before or after it is put below a directory. *)
Lemma push_relative c t : starts_with (lit "/") t = false -> second_is_colon t = false ->
  normalize_lexically (path_push (lit "/" ++ c) (lexical_normalize t)) = normalize_lexically (path_push (lit "/" ++ c) t).
Proof.
  intros Ht Hc. destruct (relative_normal t (kept c) Ht Hc) as [He Hs].
  rewrite !push_normal by done. by rewrite He.
Qed.

(** ** Words that name the path they spell *)

Definition special (c : ascii) : bool := ch_eqb c backslash || ch_eqb c (byte 34) || ch_eqb c (byte 39).

(** A word with no quote or backslash, not of the form of a drive or of the
    home directory, before and after normalization. *)
Definition plain_token (t : str) : bool :=
  forallb (fun c => negb (special c)) t && negb (starts_with (lit "/c/") t) && negb (second_is_colon t)
  && Bool.eqb (is_absolute_shell_path t) (is_absolute t)
  && Bool.eqb (is_absolute_shell_path (lexical_normalize t)) (is_absolute t) && negb (is_tilde_path t).

(** An absolute directory with no quote or backslash, not the root, not below [/c] nor
    spelled like a drive. *)
Definition plain_cwd (cwd : str) : bool :=
  match cwd with
  | s :: c :: _ =>
      ch_eqb s (byte 47) && negb (ch_eqb c (byte 47)) && negb (ch_eqb c (byte 58))
      && negb (starts_with (lit "/c/") (cwd ++ lit "/")) && forallb (fun c => negb (special c)) cwd
  | _ => false
  end.

Lemma split_Forall (P : ascii -> Prop) s : Forall P s -> Forall (Forall P) (split (lit "/") s).
Proof.
  change (split (lit "/")) with (split ["/"%char]). destruct (split_byte_spec "/"%char s) as (ls & z & -> & Hf).
  pose proof Hf as [Hls Hz]%Forall_app. rewrite split_join_byte; [|done|by apply Forall_cons in Hz as [? _]].
  rewrite join_snoc. intros [H1 H2]%Forall_app. apply Forall_app. split; [|by repeat constructor].
  clear Hf Hls Hz H2. induction ls as [|l ls IH]; [constructor|]. cbn [map concat] in H1.
  apply Forall_app in H1 as [H1 H2]. apply Forall_app in H1 as [H1 _]. constructor; [done|by apply IH].
Qed.

Lemma join_Forall (P : ascii -> Prop) l : P "/"%char -> Forall (Forall P) l -> Forall P (join (lit "/") l).
Proof.
  intros Hp. induction 1 as [|x l Hx Hl IH]; [constructor|]. destruct l as [|y l]; [done|].
  rewrite join_cons by done. rewrite !Forall_app. split_and!; [done|by repeat constructor|done].
Qed.

Lemma segment_fold_Forall (P : ascii -> Prop) a ss out : P "."%char ->
  Forall (Forall P) ss -> Forall (Forall P) out -> Forall (Forall P) (fold_left (segment_step a) ss out).
Proof.
  intros Hd Hss. revert out. induction Hss as [|s ss Hs _ IH]; intros out Ho; cbn [fold_left]; [done|].
  apply IH. unfold segment_step. destruct (_ || _); [done|].
  assert (Hdots : Forall (Forall P) (out ++ [lit ".."])) by (rewrite Forall_app; split; [done|by repeat constructor]).
  assert (Hrem : Forall (Forall P) (removelast out)).
  { destruct out as [|x out _] using rev_ind; [done|]. rewrite removelast_last. by apply Forall_app in Ho as [? _]. }
  destruct (str_eqb s (lit "..")); [|rewrite Forall_app; split; [done|by constructor]].
  destruct (match last out with Some _ => _ | None => _ end); [done|]. by destruct a.
Qed.

Lemma lexical_Forall (P : ascii -> Prop) t : P "/"%char -> P "."%char -> Forall P t -> Forall P (lexical_normalize t).
Proof.
  intros Hs Hd Ht. unfold lexical_normalize. cbn zeta. set (k := if second_is_colon t then 2 else 0).
  assert (Hb : Forall P (join (lit "/") (fold_left (segment_step (starts_with (lit "/") (drop k t)))
                                           (split (lit "/") (drop k t)) []))).
  { apply join_Forall, segment_fold_Forall; [done|done| |constructor]. by apply split_Forall, Forall_drop. }
  pose proof (Forall_take P k t Ht) as Hp. set (b := join _ _) in *. clearbody b.
  assert (Forall P (lit "/")) by by repeat constructor.
  destruct (is_empty (take k t)), (starts_with (lit "/") (drop k t)), (is_empty b); rewrite ?Forall_app; auto.
Qed.

Lemma drop_while_none {A} (f : A -> bool) l : forallb (fun x => negb (f x)) l = true -> drop_while f l = l.
Proof. destruct l as [|x l]; [done|]. cbn. by destruct (f x). Qed.

Lemma raw_plain x : forallb (fun c => negb (special c)) x = true -> starts_with (lit "/c/") x = false ->
  normalize_shell_path_raw x = x.
Proof.
  intros Hx Hc. unfold normalize_shell_path_raw.
  assert (Hq : trim_matches [byte 34; byte 39] x = x).
  { unfold trim_matches, drop_while_end.
    assert (Hf : forallb (fun c => negb (existsb (ch_eqb c) [byte 34; byte 39])) x = true).
    { rewrite forallb_forall in *. intros c Hin. specialize (Hx c Hin). unfold special in Hx. cbn [existsb].
      destruct (ch_eqb c backslash), (ch_eqb c (byte 34)), (ch_eqb c (byte 39)); done. }
    rewrite (drop_while_none _ _ Hf), drop_while_none; [apply rev_involutive|]. by rewrite forallb_rev. }
  assert (Hr : replace [backslash] (lit "/") x = x).
  { apply replace_id; [done|]. intros (a & b & ->). rewrite forallb_app in Hx.
    apply andb_true_iff in Hx as [_ Hx]. cbn in Hx. done. }
  rewrite Hq, Hr. unfold strip_prefix. by rewrite Hc.
Qed.

Definition plain_chars (t : str) : Prop := Forall (fun c => special c = false) t.

Lemma plain_chars_bool t : forallb (fun c => negb (special c)) t = true <-> plain_chars t.
Proof.
  unfold plain_chars. rewrite forallb_forall, List.Forall_forall. split; intros H c Hc; specialize (H c Hc);
    by destruct (special c).
Qed.

Lemma plain_chars_push cwd t : plain_chars cwd -> plain_chars t -> plain_chars (path_push cwd t).
Proof.
  intros Hc Ht. unfold path_push. destruct (is_absolute t); [done|]. destruct (is_empty cwd); [done|].
  destruct (last cwd) as [c|]; [|done]. assert (plain_chars (lit "/")) by by repeat constructor.
  destruct (ch_eqb c (byte 47)); unfold plain_chars in *; rewrite ?Forall_app; auto.
Qed.

(** Below such a directory a relative path is spelled like no drive. *)
Lemma plain_cwd_push cwd t : plain_cwd cwd = true -> is_absolute t = false ->
  ∃ c, cwd = lit "/" ++ c ∧ plain_chars cwd ∧ is_absolute (path_push cwd t) = true
    ∧ second_is_colon (path_push cwd t) = false ∧ starts_with (lit "/c/") (path_push cwd t) = false.
Proof.
  unfold plain_cwd, path_push. destruct cwd as [|x [|y r]]; [done|done|]. intros Hc Ht.
  apply andb_true_iff in Hc as [Hc Hch]. apply andb_true_iff in Hc as [Hc Hs].
  apply andb_true_iff in Hc as [Hc H3]. apply andb_true_iff in Hc as [H1 H2].
  apply plain_chars_bool in Hch. apply ch_eqb_eq in H1 as ->. rewrite Ht. cbn [is_empty].
  exists (y :: r). split; [done|]. split; [done|].
  destruct (last (byte 47 :: y :: r)) as [z|] eqn:El; [|by apply last_None in El].
  assert (Hsec : ∀ u, second_is_colon (byte 47 :: y :: u) = false) by (intros u; by apply negb_true_iff).
  assert (Hdrive : ∀ u, (r = [] -> ∃ v, u = "/"%char :: v) -> starts_with (lit "/c/") ((byte 47 :: y :: r) ++ u) = false).
  { intros u Hu. change (ch_eqb "c" y && starts_with (lit "/") (r ++ u) = false).
    change (negb (ch_eqb "c" y && starts_with (lit "/") (r ++ lit "/")) = true) in Hs.
    destruct (ch_eqb "c" y); [|done]. cbn [andb] in *. apply negb_true_iff in Hs. destruct r as [|w r]; [done|].
    change (ch_eqb "/" w && starts_with [] (r ++ u) = false).
    change (ch_eqb "/" w && starts_with [] (r ++ lit "/") = false) in Hs. by destruct (ch_eqb "/" w). }
  destruct (ch_eqb z (byte 47)) eqn:Ez.
  - split_and!; [done|apply Hsec|]. apply Hdrive. intros ->. cbn in El. injection El as ->. by rewrite Ez in H2.
  - split_and!; [done|apply Hsec|]. apply Hdrive. intros _. by exists t.
Qed.

(** ** One path against the policy *)

Section Spec.
Context {Value Pattern : Type} (null : Value) (glob_new : str -> option Pattern)
  (glob_matches_with : Pattern -> bool -> str -> bool) (url_host : str -> option str) (to_lowercase : str -> str)
  (parser : str -> option Tree) (follow_absolute_symlink : str -> str -> SymlinkFollow).

Abbreviation Policy := (CompiledPolicy (Pattern := Pattern)).
Abbreviation lexical := (evaluate_lexical_with_cwd (Value := Value) glob_new glob_matches_with url_host to_lowercase parser).
Abbreviation direct_verdict := (evaluate_with_cwd (Value := Value) glob_new glob_matches_with url_host to_lowercase parser
                                  follow_absolute_symlink).
Abbreviation escalated := (escalate_access (Value := Value) glob_new glob_matches_with url_host to_lowercase parser).
Abbreviation shell_path := (evaluate_shell_path (Value := Value) glob_new glob_matches_with url_host to_lowercase parser
                              follow_absolute_symlink).
Abbreviation access := (shell_access (Value := Value)).

(** The policy tells paths apart by their forms only. *)
Lemma lexical_forms (p : Policy) m x y cwd :
  path_match_forms x cwd = path_match_forms y cwd -> lexical p (access m x) cwd = lexical p (access m y) cwd.
Proof.
  intros Hf. unfold evaluate_lexical_with_cwd.
  assert (Hloop : ∀ l a b,
    rule_loop glob_matches_with url_host to_lowercase (access m x) cwd l a b
    = rule_loop glob_matches_with url_host to_lowercase (access m y) cwd l a b).
  { induction l as [|[r mt] l IH]; intros a b; cbn [rule_loop]; [done|].
    assert (Hr : rule_reaches (access m x) r = rule_reaches (access m y) r) by by destruct m.
    assert (Hp : pattern_matches glob_matches_with url_host to_lowercase (access m x) (mkCompiled r mt) cwd
                 = pattern_matches glob_matches_with url_host to_lowercase (access m y) (mkCompiled r mt) cwd).
    { unfold pattern_matches, path_context_matches. destruct m; cbn [shell_access]; by rewrite Hf. }
    rewrite Hr, Hp. destruct (action r); by rewrite ?IH. }
  rewrite Hloop. by destruct m.
Qed.

Lemma absolute_not_tilde q : is_absolute q = true -> is_tilde_path q = false.
Proof. unfold is_tilde_path, components. by intros ->. Qed.

Lemma forms_absolute x y cwd : is_absolute x = true -> is_tilde_path y = false ->
  normalize_lexically x = normalize_lexically (if is_absolute y then y else path_push cwd y) ->
  path_match_forms x (Some cwd) = path_match_forms y (Some cwd).
Proof.
  intros Hx Hy He. unfold path_match_forms, absolute_normalized_path.
  rewrite (absolute_not_tilde _ Hx), Hy, Hx. cbn [negb]. destruct (is_absolute y); cbn [negb]; by rewrite He.
Qed.

(** What the gate computes for a plain word whose directory is known. *)
Lemma shell_path_pinned (p : Policy) t cwd m :
  plain_token t = true -> plain_cwd cwd = true ->
  let joined := if is_absolute t then t else path_push cwd t in
  let anchored := normalize_lexically joined in
  shell_path p t cwd m false
  = combine_gate_decisions
      (combine_gate_decisions (escalated p (Some cwd) (access m (lexical_normalize t)))
         (combine_gate_decisions (escalated p (Some cwd) (access m anchored))
            (match follow_absolute_symlink joined anchored with
             | FollowTarget resolved => escalated p (Some cwd) (access m resolved)
             | Unresolvable => Some AskFailClosed
             | FollowNone => None
             end))) None
  ∧ is_absolute joined = true ∧ plain_chars joined.
Proof.
  unfold plain_token. intros Ht Hcwd.
  apply andb_true_iff in Ht as [Ht Htilde]. apply andb_true_iff in Ht as [Ht Habs2].
  apply andb_true_iff in Ht as [Ht Habs1]. apply andb_true_iff in Ht as [Ht Hcol].
  apply andb_true_iff in Ht as [Hch Hdrive]. apply eqb_prop in Habs1, Habs2. apply negb_true_iff in Hdrive, Hcol.
  pose proof (raw_plain t Hch Hdrive) as Hraw. apply plain_chars_bool in Hch.
  assert (Hl : plain_chars (lexical_normalize t)) by by apply lexical_Forall.
  unfold evaluate_shell_path, normalize_shell_path. rewrite Hraw, Habs1, Habs2. cbn zeta.
  destruct (is_absolute t) eqn:Ea; cbn [orb negb andb mbind option_bind].
  - unfold is_absolute in Ea. apply starts_with_spec in Ea as [r ->]. rewrite (lexical_is_normal r Hcol). done.
  - unfold is_absolute in Ea.
    assert (Hrel : is_absolute (lexical_normalize t) = false).
    { unfold is_absolute_shell_path in Habs2. unfold is_absolute.
      by destruct (starts_with (lit "/") (lexical_normalize t)). }
    destruct (plain_cwd_push cwd t Hcwd Ea) as (c & Hc & Hcc & Hj & Hjc & Hjd).
    destruct (plain_cwd_push cwd _ Hcwd Hrel) as (c' & _ & _ & Hk & Hkc & Hkd).
    pose proof (plain_chars_push _ _ Hcc Hch) as Hpj. pose proof (plain_chars_push _ _ Hcc Hl) as Hpk.
    rewrite (raw_plain _ (proj2 (plain_chars_bool _) Hpj) Hjd), (raw_plain _ (proj2 (plain_chars_bool _) Hpk) Hkd).
    assert (Hnorm : lexical_normalize (path_push cwd (lexical_normalize t)) = normalize_lexically (path_push cwd t)).
    { assert (∃ r, path_push cwd (lexical_normalize t) = lit "/" ++ r) as [r Hr] by by apply starts_with_spec.
      rewrite Hr in *. rewrite (lexical_is_normal r Hkc), <- Hr, Hc. by apply push_relative. }
    by rewrite Hnorm.
Qed.

Lemma match_string_plain q : plain_chars q -> path_match_string q = q.
Proof.
  intros Hq. unfold path_match_string. apply replace_id; [done|]. intros (a & b & ->).
  apply Forall_app in Hq as [_ Hq]. apply Forall_app in Hq as [Hq _]. apply Forall_cons in Hq as [Hq _]. done.
Qed.

Lemma normal_plain r : plain_chars r -> plain_chars (normalize_lexically (lit "/" ++ r)).
Proof.
  intros Hr. rewrite normalize_absolute. unfold root_path, plain_chars. apply Forall_app. split; [by repeat constructor|].
  apply join_Forall, segment_fold_Forall; [done|done|by apply split_Forall|constructor].
Qed.

Lemma escalated_rank (p : Policy) cwd a :
  match lexical p a cwd with
  | Some (Reject r) => escalated p cwd a = Some (GReject r)
  | Some Ask => escalated p cwd a = Some AskRuleMatch
  | _ => True
  end.
Proof. unfold escalate_access. by destruct (lexical p a cwd) as [[]|]. Qed.

Definition gate_reaches (n : nat) (g : option GateDecision) : Prop := n ≤ gate_rank_opt g.

Lemma gate_reject g : gate_reaches 3 g -> ∃ r, g = Some (GReject r).
Proof. unfold gate_reaches. destruct g as [[]|]; cbn; [eauto|lia..]. Qed.

Lemma gate_some g : gate_reaches 1 g -> g ≠ None.
Proof. unfold gate_reaches. destruct g; cbn; [done|lia]. Qed.

Lemma reaches_combine n a b : gate_reaches n a ∨ gate_reaches n b -> gate_reaches n (combine_gate_decisions a b).
Proof. unfold gate_reaches. rewrite combine_gate_rank. lia. Qed.

(** The verdict of a tool that would read or edit the path, as a rank of the
    gate: a rejection must be one, an ask at least an ask. *)
Definition verdict_rank (d : option Decision) : nat :=
  match d with Some (Reject _) => 3 | Some Ask => 1 | _ => 0 end.

(** A path named in a shell command whose directory is known is held to what a
    direct read or edit of it is: by the same rules, on the path below the
    directory, and on where its symbolic links lead. *)
Theorem shell_path_as_strict (p : Policy) t cwd m :
  plain_token t = true -> plain_cwd cwd = true ->
  gate_reaches (verdict_rank (direct_verdict p (access m t) (Some cwd))) (shell_path p t cwd m false).
Proof.
  intros Ht Hcwd. destruct (shell_path_pinned p t cwd m Ht Hcwd) as (-> & Habs & Hch).
  assert (Htilde : is_tilde_path t = false) by (unfold plain_token in Ht; by apply andb_true_iff in Ht as [_ ?%negb_true_iff]).
  set (joined := if is_absolute t then t else path_push cwd t) in *.
  pose proof Habs as Habs'. unfold is_absolute in Habs'. apply starts_with_spec in Habs' as [r Hr].
  assert (Hidem : normalize_lexically (normalize_lexically joined) = normalize_lexically joined)
    by (rewrite Hr; apply normalize_idempotent).
  assert (Hna : is_absolute (normalize_lexically joined) = true) by (rewrite Hr, normalize_absolute; apply starts_with_app).
  assert (Hlex : lexical p (access m (normalize_lexically joined)) (Some cwd) = lexical p (access m t) (Some cwd)).
  { apply lexical_forms, forms_absolute; [done|done|]. by rewrite Hidem. }
  assert (Hraw : raw_absolute_tool_path t (Some cwd) = Some joined).
  { unfold raw_absolute_tool_path. rewrite Htilde. fold joined.
    assert (Hj : (if negb (is_absolute t) then path_push cwd t else t) = joined) by (unfold joined; by destruct (is_absolute t)).
    by rewrite Hj, Habs, match_string_plain. }
  assert (Hla : path_match_string (absolute_normalized_path t (Some cwd)) = normalize_lexically joined).
  { unfold absolute_normalized_path. rewrite Htilde.
    assert (Hj : (if negb (is_absolute t) then path_push cwd t else t) = joined) by (unfold joined; by destruct (is_absolute t)).
    rewrite Hj. apply match_string_plain. rewrite Hr. apply normal_plain. rewrite Hr in Hch. by apply Forall_app in Hch as [_ ?]. }
  apply reaches_combine. left. apply reaches_combine. right. apply reaches_combine.
  unfold evaluate_with_cwd, evaluate_with_cwd_details.
  assert (Hn : native_file_path (access m t) = Some t) by by destruct m. rewrite Hn, Hraw, Hla.
  assert (Hat : ∀ x, access_with_path (access m t) x = access m x) by (intros x; by destruct m).
  pose proof (escalated_rank p (Some cwd) (access m (normalize_lexically joined))) as H1. rewrite Hlex in H1.
  destruct (follow_absolute_symlink joined (normalize_lexically joined)) as [|resolved|].
  - left. cbn [fst]. destruct (lexical p (access m t) (Some cwd)) as [[]|]; cbn [verdict_rank]; unfold gate_reaches;
      rewrite ?H1; cbn; lia.
  - rewrite Hat. pose proof (escalated_rank p (Some cwd) (access m resolved)) as H2. cbn [fst]. unfold gate_reaches in *.
    destruct (lexical p (access m t) (Some cwd)) as [[]|], (lexical p (access m resolved) (Some cwd)) as [[]|]; cbn;
      rewrite ?H1, ?H2; cbn; lia.
  - unfold gate_reaches in *. destruct (native_path_restrictions_apply _ _); cbn [fst];
      destruct (lexical p (access m t) (Some cwd)) as [[]|]; cbn; rewrite ?H1; cbn; lia.
Qed.

(** After a change of directory a relative path is at least asked about. *)
Lemma unpinned_asks (p : Policy) t cwd m :
  is_absolute_shell_path (normalize_shell_path t) = false -> gate_reaches 1 (shell_path p t cwd m true).
Proof.
  intros Hr. unfold evaluate_shell_path. rewrite Hr. cbn [negb andb orb]. apply reaches_combine. right.
  unfold gate_reaches. cbn. lia.
Qed.

(** ** Every file a script is seen to name *)

(** The files of one command by its program and literal words. *)
Definition gate_operands (program : str) (lits : list str) : list (str * ShellFileMode) :=
  special_file_operands program lits
  ++ (if str_eqb program (lit "dd") then []
      else match shell_path_command_operands program lits with
           | Some operands => operands
           | None => default [] (plain_operands program lits)
           end).

Definition invocation_unpinned (cwd_unpinned : bool) (changes : list CwdPoison) (inv : ShellInvocation) : bool :=
  cwd_unpinned || cwd_unpinned_before changes (inv_start_byte inv) (inv_scope inv)
  || ip_has_chdir (unwrap_invocation_checked inv).

(** [names depth script unpinned path mode u]: the script, or one it gives
    inline to a shell, reads or writes [path]; [u] tells that the directory it is
    relative to is not known. *)
Inductive names : nat -> str -> bool -> str -> ShellFileMode -> bool -> Prop :=
  | names_redirect depth cmd unp tree r path :
      parser cmd = Some tree -> r ∈ shell_redirect_targets (root_node tree) cmd -> redirect_path r = Some path ->
      names depth cmd unp path (redirect_mode r)
        (unp || cwd_unpinned_before (cwd_poison_positions (root_node tree) cmd) (redirect_start_byte r) (redirect_scope r))
  | names_operand depth cmd unp tree inv w rest path mode :
      parser cmd = Some tree -> inv ∈ shell_command_invocations (root_node tree) cmd ->
      ip_words (unwrap_invocation_checked inv) = ILiteral w :: rest ->
      let program := to_ascii_lowercase (shell_program_name w) in
      is_cwd_program program = false ->
      (path, mode) ∈ gate_operands program (literal_words (ILiteral w :: rest)) ->
      names depth cmd unp path mode (invocation_unpinned unp (cwd_poison_positions (root_node tree) cmd) inv)
  | names_inline depth cmd unp tree inv index inner path mode u :
      parser cmd = Some tree -> inv ∈ shell_command_invocations (root_node tree) cmd ->
      let sw := shell_words (ip_words (unwrap_invocation_checked inv)) in
      shell_dash_c_script sw = SLiteral index -> sw !! index = Some (WLiteral inner) ->
      names depth inner (invocation_unpinned unp (cwd_poison_positions (root_node tree) cmd) inv) path mode u ->
      names (S depth) cmd unp path mode u.

Abbreviation opstep := (operand_step (Value := Value) glob_new glob_matches_with url_host to_lowercase parser
                          follow_absolute_symlink).
Abbreviation inner_gate := (evaluate_shell_file_access_inner (Value := Value) glob_new glob_matches_with url_host
                              to_lowercase parser follow_absolute_symlink).
Abbreviation redstep := (redirect_step (Value := Value) glob_new glob_matches_with url_host to_lowercase parser
                           follow_absolute_symlink).
Abbreviation invstep := (invocation_step (Value := Value) glob_new glob_matches_with url_host to_lowercase parser
                           follow_absolute_symlink).
Abbreviation progstep := (program_step (Value := Value) glob_new glob_matches_with url_host to_lowercase parser
                           follow_absolute_symlink).

(** What the state of the gate answers for, and how it grows. *)
Definition at_least (n : nat) (g : GateState) : Prop := gate_reaches n (gate_decision g).
Definition grows (f : GateState -> GateState) : Prop := ∀ n g, at_least n g -> at_least n (f g).

Lemma force_grows b : grows (force b).
Proof. by intros n g. Qed.
Lemma add_grows d : grows (add_decision d).
Proof. intros n g Hg. apply reaches_combine. by left. Qed.
Lemma add_reaches n d g : gate_reaches n d -> at_least n (add_decision d g).
Proof. intros Hd. apply reaches_combine. by right. Qed.

Lemma fold_grows {A} (f : GateState -> A -> GateState) l : (∀ x, grows (fun g => f g x)) -> grows (fun g => fold_left f l g).
Proof.
  intros Hf. induction l as [|x l IH]; intros n g Hg; cbn [fold_left]; [done|]. apply IH. by apply (Hf x).
Qed.

Lemma fold_reaches {A} (f : GateState -> A -> GateState) l x n g :
  (∀ y, grows (fun g => f g y)) -> (∀ g, at_least n (f g x)) -> x ∈ l -> at_least n (fold_left f l g).
Proof.
  intros Hf Hx. revert g. induction l as [|y l IH]; intros g; [by intros ?%elem_of_nil|].
  intros [<-|Hin]%elem_of_cons; cbn [fold_left]; [|by apply IH].
  by apply (fold_grows f l Hf).
Qed.

Lemma opstep_grows p cwd u op : grows (fun g => opstep p cwd u g op).
Proof. intros n g Hg. by apply add_grows. Qed.
Lemma opstep_reaches p cwd u op g n : gate_reaches n (shell_path p (fst op) cwd (snd op) u) -> at_least n (opstep p cwd u g op).
Proof. apply add_reaches. Qed.
Lemma redstep_grows p cwd u ch r : grows (fun g => redstep p cwd u ch g r).
Proof. intros n g Hg. unfold redirect_step. destruct (redirect_path r); [by apply add_grows|done]. Qed.

Lemma progstep_grows p cwd u pf amb prog lits : grows (progstep p cwd u pf amb prog lits).
Proof.
  intros n g Hg. unfold program_step. cbn zeta.
  assert (Hs : at_least n (fold_left (opstep p cwd u) (special_file_operands prog lits)
     (force ((str_eqb prog (lit "dd") || match shell_file_mode prog with Some _ => true | None => false end
              || match shell_path_command_operands prog lits with Some _ => true | None => false end)
             && (u || amb || pf)) g))).
  { apply (fold_grows _ _ (opstep_grows p cwd u)). by apply force_grows. }
  destruct (str_eqb prog (lit "dd")); [done|].
  destruct (shell_path_command_operands prog lits); [by apply (fold_grows _ _ (opstep_grows p cwd u))|].
  destruct (plain_operands prog lits); [|done]. apply force_grows. by apply (fold_grows _ _ (opstep_grows p cwd u)).
Qed.

Lemma progstep_reaches p cwd u pf amb prog lits path mode n g :
  (path, mode) ∈ gate_operands prog lits -> gate_reaches n (shell_path p path cwd mode u) ->
  at_least n (progstep p cwd u pf amb prog lits g).
Proof.
  intros Hin Hn. unfold program_step. cbn zeta. unfold gate_operands in Hin. apply elem_of_app in Hin as [Hin|Hin].
  - assert (Hs : ∀ g, at_least n (fold_left (opstep p cwd u) (special_file_operands prog lits) g)).
    { intros g'. eapply fold_reaches; [apply opstep_grows| |exact Hin]. intros g0. by apply opstep_reaches. }
    destruct (str_eqb prog (lit "dd")); [apply Hs|].
    destruct (shell_path_command_operands prog lits); [by apply (fold_grows _ _ (opstep_grows p cwd u))|].
    destruct (plain_operands prog lits); [|apply Hs]. apply force_grows. by apply (fold_grows _ _ (opstep_grows p cwd u)).
  - destruct (str_eqb prog (lit "dd")); [by apply elem_of_nil in Hin|].
    destruct (shell_path_command_operands prog lits) as [ops|].
    + eapply fold_reaches; [apply opstep_grows| |exact Hin]. intros g0. by apply opstep_reaches.
    + destruct (plain_operands prog lits) as [ops|]; [|by apply elem_of_nil in Hin]. apply force_grows.
      eapply fold_reaches; [apply opstep_grows| |exact Hin]. intros g0. by apply opstep_reaches.
Qed.

Lemma inline_grows go u pf sw : grows (inline_step go u pf sw).
Proof.
  intros n g Hg. unfold inline_step. destruct (shell_dash_c_script sw); try done.
  destruct go as [go|]; [|done]. destruct (sw !! index) as [[]|]; [by apply add_grows|done..].
Qed.

Lemma invstep_grows p cwd go u pf ch inv : grows (fun g => invstep p cwd go u pf ch g inv).
Proof.
  intros n g Hg. unfold invocation_step. cbn zeta.
  assert (Hi : ∀ u0 sw b, at_least n (inline_step go u0 pf sw (force b g))) by (intros; by apply inline_grows, force_grows).
  destruct (ip_words _) as [|[w|] rest]; [done| |done]. destruct (is_cwd_program _); [done|]. by apply progstep_grows.
Qed.

Lemma inner_gate_unfold p cwd depth cmd unp ent :
  inner_gate p cwd depth cmd unp ent =
  match parser cmd with
  | None => if ent then Some AskFailClosed else None
  | Some tree =>
      let root := root_node tree in
      let parse_failed := root_has_error tree in
      let deeper := match depth with
                    | 0 => None
                    | S depth => Some (fun inner unpinned => inner_gate p cwd depth inner unpinned true)
                    end in
      let changes := cwd_poison_positions root cmd in
      let g := mkGate None (ent && parse_failed) in
      let g := fold_left (redstep p cwd unp changes) (shell_redirect_targets root cmd) g in
      let g := fold_left (invstep p cwd deeper unp parse_failed changes) (shell_command_invocations root cmd) g in
      combine_gate_decisions (gate_decision g) (if forced_ask g then Some AskFailClosed else None)
  end.
Proof. by destruct depth. Qed.

(** The gate's verdict is no weaker than that on any file the script names. *)
Lemma gate_covers (p : Policy) cwd depth cmd unp path mode u ent n :
  names depth cmd unp path mode u -> gate_reaches n (shell_path p path cwd mode u) ->
  gate_reaches n (inner_gate p cwd depth cmd unp ent).
Proof.
  intros Hnames Hn. revert ent. induction Hnames as
    [depth cmd unp tree r path Hp Hr Hrp|depth cmd unp tree inv w rest path mode Hp Hi Hw program Hc Hop
    |depth cmd unp tree inv index inner path mode u Hp Hi sw Hs Hl _ IH]; intros ent;
    rewrite inner_gate_unfold, Hp; cbn zeta; apply reaches_combine; left.
  - apply (fold_grows _ _ (invstep_grows _ _ _ _ _ _)).
    eapply fold_reaches; [apply redstep_grows| |exact Hr]. intros g. unfold redirect_step. rewrite Hrp. by apply add_reaches.
  - eapply fold_reaches; [apply invstep_grows| |exact Hi]. intros g. unfold invocation_step. cbn zeta. rewrite Hw.
    fold program. rewrite Hc. by eapply progstep_reaches.
  - eapply fold_reaches; [apply invstep_grows| |exact Hi]. intros g. unfold invocation_step. cbn zeta.
    assert (Hin : ∀ pf g, at_least n (inline_step (Some (fun i v => inner_gate p cwd depth i v true))
       (invocation_unpinned unp (cwd_poison_positions (root_node tree) cmd) inv) pf sw g)).
    { intros pf g'. unfold inline_step. rewrite Hs, Hl. apply add_reaches. by apply IH. }
    specialize (Hin (root_has_error tree)). unfold invocation_unpinned in *. fold sw.
    destruct (ip_words _) as [|[w|] rest]; [apply Hin| |apply Hin]. destruct (is_cwd_program _); [apply Hin|].
    apply progstep_grows, Hin.
Qed.

Abbreviation compiled := (policy_new (Value := Value) null glob_new glob_matches_with url_host to_lowercase).
Abbreviation file_gate := (evaluate_shell_file_access_gate (Value := Value) glob_new glob_matches_with url_host
                             to_lowercase parser follow_absolute_symlink).

Lemma restricting_file_rule cfg m r : r ∈ rules cfg -> restricts r = true -> tool_filter_matches (access m []) (tool r) = true ->
  has_file_restrictions (compiled cfg) = true.
Proof.
  intros Hin Hr Ht. cbn [has_file_restrictions policy_new]. apply existsb_exists. exists r.
  split; [by apply list_elem_of_In|]. rewrite Hr. unfold tool_among. by destruct m, (tool r).
Qed.

Lemma lexical_restricted cfg m x cwd :
  verdict_rank (lexical (compiled cfg) (access m x) cwd) ≠ 0 -> has_file_restrictions (compiled cfg) = true.
Proof.
  rewrite (lexical_eq null). unfold lexical_ref.
  assert (Hhit : ∀ a r, a ≠ ActAllow -> r ∈ rules cfg ->
    hits_with glob_new glob_matches_with url_host to_lowercase a (access m x) cwd r = true ->
    has_file_restrictions (compiled cfg) = true).
  { intros a r Ha Hin Hh. unfold hits_with, rule_hits in Hh. apply andb_true_iff in Hh as [Hact Hh].
    apply andb_true_iff in Hh as [Hr _]. apply bool_decide_eq_true in Hact. subst a.
    apply (restricting_file_rule cfg m r Hin); [unfold restricts; by destruct (action r)|by destruct m]. }
  destruct (List.find _ (rules cfg)) as [r|] eqn:Ef.
  - intros _. apply List.find_some in Ef as [Hin Hh]. apply (Hhit ActDeny r); [done|by apply list_elem_of_In|done].
  - destruct (existsb _ (rules cfg)) eqn:Ea.
    + intros _. apply existsb_exists in Ea as (r & Hin & Hh). apply (Hhit ActAsk r); [done|by apply list_elem_of_In|done].
    + cbn zeta. intros Hn. destruct Hn. destruct m; cbn [shell_access]; destruct (existsb (hits_with _ _ _ _ ActAllow _ _) _); done.
Qed.

Lemma direct_restricted cfg m t cwd :
  verdict_rank (direct_verdict (compiled cfg) (access m t) cwd) ≠ 0 -> has_file_restrictions (compiled cfg) = true.
Proof.
  unfold evaluate_with_cwd, evaluate_with_cwd_details. pose proof (lexical_restricted cfg m t cwd) as Hl.
  destruct (native_file_path _); [|exact Hl]. destruct (raw_absolute_tool_path _ _); [|exact Hl].
  destruct (follow_absolute_symlink _ _) as [|resolved|]; cbn [fst]; [exact Hl| |].
  - assert (Hat : access_with_path (access m t) resolved = access m resolved) by by destruct m.
    rewrite Hat. pose proof (lexical_restricted cfg m resolved cwd) as Hr.
    destruct (lexical (compiled cfg) (access m t) cwd) as [[]|], (lexical (compiled cfg) (access m resolved) cwd) as [[]|];
      cbn in *; auto.
  - destruct (native_path_restrictions_apply _ _) eqn:En; [|exact Hl]. intros _.
    apply existsb_exists in En as (r & Hin & Hr). apply andb_true_iff in Hr as [Hr Ht].
    apply (restricting_file_rule cfg m r); [by apply list_elem_of_In|done|by destruct m].
Qed.

(** C8 The shell is no way around the rules on files. Take a file that a
    script is seen to read or write - by a redirect, by an operand of a command whose
    wrappers have been peeled, or in a script it hands to a shell, as deep as the
    code follows those - in a directory that is known, named by a plain word. If the policy
    rejects the direct read or edit of that file, the gate rejects the script;
    if the policy asks, the gate does not pass it. And when the directory is no longer
    known, a relative file is asked about as soon as any rule restricts files. *)
Theorem shell_is_no_way_around cfg cmd cwd path mode u :
  names MAX_INLINE_SHELL_DEPTH cmd false path mode u ->
  (u = false -> plain_token path = true -> plain_cwd cwd = true ->
   match direct_verdict (compiled cfg) (access mode path) (Some cwd) with
   | Some (Reject _) => ∃ r, file_gate (compiled cfg) cmd cwd = Some (GReject r)
   | Some Ask => file_gate (compiled cfg) cmd cwd ≠ None
   | _ => True
   end)
  ∧ (u = true -> is_absolute_shell_path (normalize_shell_path path) = false -> has_file_restrictions (compiled cfg) = true ->
     file_gate (compiled cfg) cmd cwd ≠ None).
Proof.
  intros Hn. unfold evaluate_shell_file_access_gate. split.
  - intros -> Ht Hc. pose proof (shell_path_as_strict (compiled cfg) path cwd mode Ht Hc) as Hs.
    pose proof (direct_restricted cfg mode path (Some cwd)) as Hres.
    pose proof (gate_covers _ _ _ _ _ _ _ _ false _ Hn Hs) as Hg.
    destruct (direct_verdict _ _ _) as [[]|]; try done; cbn [verdict_rank] in *; rewrite Hres by done; cbn [negb];
      [by apply gate_some|by apply gate_reject].
  - intros -> Hr ->. cbn [negb]. apply gate_some. eapply gate_covers; [exact Hn|]. by apply unpinned_asks.
Qed.

End Spec.

(** ** Protected targets *)

(** An edit needs no confirmation exactly when its target is absolute, resolves, and is of
    no protected kind either as spelled or as resolved, nor within what [/etc] resolves to. *)
Theorem unprotected_iff `{EditWorld} path :
  edit_target_protection path = None <->
  is_absolute path = true ∧ protected_edit_reason (normalize_lexically path) = None
  ∧ ∃ resolved root, resolve_following_symlinks path = Some resolved ∧ protected_edit_reason resolved = None
      ∧ resolve_following_symlinks (lit "/etc") = Some root ∧ path_starts_with resolved root = false.
Proof.
  unfold edit_target_protection, resolved_path_is_within_root.
  destruct (is_absolute path); cbn [negb]; [|split; [done|by intros [? _]]].
  destruct (protected_edit_reason (normalize_lexically path)); [split; [done|by intros (_ & ? & _)]|].
  destruct (resolve_following_symlinks path) as [resolved|]; [|split; [done|by intros (_ & _ & r & _ & ? & _)]].
  destruct (protected_edit_reason resolved) eqn:Er; [split; [done|]; intros (_ & _ & r & _ & [= <-] & ? & _); congruence|].
  destruct (resolve_following_symlinks (lit "/etc")) as [root|]; [|split; [done|by intros (_ & _ & r & r' & _ & _ & ? & _)]].
  destruct (path_starts_with resolved root) eqn:Es.
  - split; [done|]. intros (_ & _ & r & r' & [= <-] & _ & [= <-] & ?). congruence.
  - split; [|done]. intros _. split_and!; [done|done|]. by exists resolved, root.
Qed.

(** The resolution of links cannot unprotect: a target protected as spelled is protected
    whatever the file system says. *)
Lemma protected_as_spelled `{EditWorld} path reason :
  protected_edit_reason (normalize_lexically path) = Some reason -> edit_target_protection path ≠ None.
Proof. intros Hr Hn%unprotected_iff. destruct Hn as (_ & Hn & _). congruence. Qed.

(** ** The write model and the gate *)

(** Without a transparent prefix, what the write model reports for a command is
    among the operands the gate checks. *)
Lemma write_paths_are_operands ws w rest path :
  unwrap_wrappers ws = w :: rest -> path ∈ command_words_write_paths ws ->
  (path, FWr) ∈ gate_operands (to_ascii_lowercase (shell_program_name w)) (w :: rest).
Proof.
  unfold command_words_write_paths. intros ->. cbn zeta. set (program := to_ascii_lowercase _).
  assert (Hw : ∀ l, path ∈ map fst (List.filter (fun p : str * ShellFileMode => is_write (snd p)) l) -> (path, FWr) ∈ l).
  { intros l ([x m] & -> & Hin)%list_elem_of_fmap. apply list_elem_of_In, List.filter_In in Hin as [Hin Hm].
    apply list_elem_of_In. by destruct m. }
  unfold gate_operands. intros Hin. apply elem_of_app.
  destruct (str_eqb program (lit "dd")) eqn:Ed.
  - left. apply str_eqb_eq in Ed. rewrite Ed in Hin |- *. cbn in Hin. apply Hw. exact Hin.
  - destruct (shell_path_command_operands program (w :: rest)) as [ops|].
    + apply elem_of_app in Hin as [Hin|Hin]; [left|right]; by apply Hw.
    + destruct (_ || _) eqn:Em; [|left; by apply Hw].
      apply elem_of_app in Hin as [Hin|Hin]; [left; by apply Hw|right]. unfold plain_operands.
      assert (Hpair : ∀ modes, FWr ∈ modes ->
        (path, FWr) ∈ concat (map (fun t => map (fun m => (t, m)) modes) (shell_file_candidates (w :: rest)))).
      { intros modes Hm. apply concat_elem. exists (map (fun m => (path, m)) modes).
        split; apply list_elem_of_fmap; eauto. }
      destruct (str_eqb program (lit "sed") && shell_sed_in_place (w :: rest)) eqn:Es.
      * apply andb_true_iff in Es as [Es _]. apply str_eqb_eq in Es. rewrite Es. cbn [default shell_file_mode].
        apply (Hpair [FRd; FWr]). set_solver.
      * rewrite orb_false_r in Em. destruct (shell_file_mode program) as [[]|]; try done. cbn [default]. apply Hpair. set_solver.
Qed.

(** ** Concrete runs *)

(** Spelling [cd] behind [builtin] or [command], or quoting it, moves the shell but
    not the gate's idea of the directory: the file is neither matched nor asked
    about, although the same script with a plain [cd] is. *)
Theorem directory_changes_missed :
  let quoted := dq ++ lit "cd" ++ dq ++ lit " /etc && cat shadow" in
  let gate cmd := evaluate_shell_file_access_gate (Value := unit) exact_glob exact_match (fun _ => None) id chain_parser
                    no_link (demo_file_policy [deny_shadow]) cmd (lit "/w") in
  gate (lit "cd /etc && cat shadow") = Some AskFailClosed
  ∧ gate (lit "builtin cd /etc && cat shadow") = None
  ∧ gate (lit "command cd /etc && cat shadow") = None
  ∧ gate quoted = None.
Proof. vm_compute. by split_and!. Qed.

(** The write model peels wrappers but no transparent prefix, so that it reports no
    write for [command tee f], of which the gate does see the write. *)
Theorem writes_behind_prefixes_missed :
  let deny_f := mkRule ActDeny FEdit (Some (lit "/w/f")) Glob in
  let writes s := match chain_parser (lit s) with
                  | Some t => command_write_paths_in_tree (root_node t) (lit s)
                  | None => []
                  end in
  writes "tee f" = [lit "f"] ∧ demo_file_gate [deny_f] "tee f" "/w" = Some (GReject (deny_reason deny_f))
  ∧ writes "command tee f" = []
  ∧ demo_file_gate [deny_f] "command tee f" "/w" = Some (GReject (deny_reason deny_f)).
Proof. vm_compute. by split_and!. Qed.

(** A path below [/c] is taken for one on a Windows drive on every platform: a rule on
    it does not match its absolute spelling. *)
Theorem drive_spelling_everywhere :
  let deny_c := mkRule ActDeny FRead (Some (lit "/c/key")) Glob in
  demo_file_gate [deny_c] "cat /c/key" "/w" = None
  ∧ evaluate_with_cwd (Value := unit) exact_glob exact_match (fun _ => None) id chain_parser no_link
      (demo_file_policy [deny_c]) (Read (Some (lit "/c/key"))) (Some (lit "/w")) = Some (Reject (deny_reason deny_c)).
Proof. vm_compute. by split_and!. Qed.

(** ** Witness *)

Definition demo_script : str := lit "timeout 5 head -n 1 shadow".
Definition demo_script_tree : Tree := default (mkTree (leaf "" 0 0) true) (chain_parser demo_script).
Definition demo_script_invocation : ShellInvocation :=
  default (mkInvocation 0 (mkScope 0 0) [] []) (head (shell_command_invocations (root_node demo_script_tree) demo_script)).

Lemma shell_is_no_way_around_witness :
  names chain_parser MAX_INLINE_SHELL_DEPTH demo_script false (lit "shadow") FRd false
  ∧ ∃ r, demo_file_gate [deny_shadow] "timeout 5 head -n 1 shadow" "/etc" = Some (GReject r).
Proof.
  assert (Hn : names chain_parser MAX_INLINE_SHELL_DEPTH demo_script false (lit "shadow") FRd
     (invocation_unpinned false (cwd_poison_positions (root_node demo_script_tree) demo_script) demo_script_invocation)).
  { apply (names_operand chain_parser _ demo_script false demo_script_tree demo_script_invocation (lit "head")
             [ILiteral (lit "-n"); ILiteral (lit "1"); ILiteral (lit "shadow")]);
      [vm_compute; reflexivity| |vm_compute; reflexivity|vm_compute; reflexivity|vm_compute; right; by left].
    assert (Hl : shell_command_invocations (root_node demo_script_tree) demo_script = [demo_script_invocation])
      by (vm_compute; reflexivity).
    rewrite Hl. by left. }
  assert (Hu : invocation_unpinned false (cwd_poison_positions (root_node demo_script_tree) demo_script)
                 demo_script_invocation = false) by (vm_compute; reflexivity).
  rewrite Hu in Hn. split; [exact Hn|].
  pose proof (proj1 (shell_is_no_way_around (Value := unit) tt exact_glob exact_match (fun _ => None) id chain_parser
    no_link (config_new [deny_shadow]) demo_script (lit "/etc") (lit "shadow") FRd false Hn)
    eq_refl ltac:(vm_compute; reflexivity) ltac:(vm_compute; reflexivity)) as Hd.
  exact Hd.
Defined.
