(* ===== verification/AutoMode.v ===== *)
(** * Auto mode: what static analysis decides

    [crates/codegen/xai-grok-workspace/src/permission/auto_mode/]: the findings of
    [security_findings.rs], the risk of a script's environment, the heuristic that
    allows routine commands ([mod.rs], [routine_git.rs]) and the fast path before
    any classifier. *)

From S2P Require Export ShellAccessSpec.

(** ** Findings *)

(** Source: crates/codegen/xai-grok-workspace/src/permission/auto_mode/security_findings.rs:11-32, [ClassifierSecurityFinding]. *)
Inductive ClassifierSecurityFinding :=
  | FailClosedPolicy | UnparseableShell | OpaqueShell | ExecOrAmbientGit | EnvInjection | UnvettedEnv | FileWrite
  | DangerousCommand | SpecialExecSurface.

#[export] Instance ClassifierSecurityFinding_eq_dec : EqDecision ClassifierSecurityFinding.
Proof. solve_decision. Defined.

(** Source: crates/codegen/xai-grok-workspace/src/permission/auto_mode/security_findings.rs:35-47, [ClassifierSecurityFinding::ALL]. *)
Definition ALL_FINDINGS : list ClassifierSecurityFinding :=
  [FailClosedPolicy; UnparseableShell; OpaqueShell; ExecOrAmbientGit; EnvInjection; UnvettedEnv; FileWrite;
   DangerousCommand; SpecialExecSurface].

(** The derived order: that of the variants. *)
Definition finding_rank (f : ClassifierSecurityFinding) : nat :=
  match f with
  | FailClosedPolicy => 0 | UnparseableShell => 1 | OpaqueShell => 2 | ExecOrAmbientGit => 3 | EnvInjection => 4
  | UnvettedEnv => 5 | FileWrite => 6 | DangerousCommand => 7 | SpecialExecSurface => 8
  end.

(** Source: crates/codegen/xai-grok-workspace/src/permission/auto_mode/security_findings.rs:49-63, [ClassifierSecurityFinding::token]. *)
Definition finding_token (f : ClassifierSecurityFinding) : str :=
  lit match f with
      | FailClosedPolicy => "fail_closed_policy" | UnparseableShell => "unparseable_shell" | OpaqueShell => "opaque_shell"
      | ExecOrAmbientGit => "exec_or_ambient_git" | EnvInjection => "env_injection" | UnvettedEnv => "unvetted_env"
      | FileWrite => "file_write" | DangerousCommand => "dangerous_command"
      | SpecialExecSurface => "special_exec_surface"
      end.

(** Source: crates/codegen/xai-grok-workspace/src/permission/auto_mode/security_findings.rs:65-83, [ClassifierSecurityFinding::description]. *)
Definition finding_description (f : ClassifierSecurityFinding) : str :=
  lit match f with
      | FailClosedPolicy => "permission policy could not determine whether a rule applies"
      | UnparseableShell => "shell structure could not be fully parsed"
      | OpaqueShell => "invokes a nested or dynamically supplied shell command"
      | ExecOrAmbientGit => "may run code via an execution callback or ambient Git configuration"
      | EnvInjection => "sets environment variables that can change which code executes"
      | UnvettedEnv => "sets environment variables outside the known-safe set"
      | FileWrite => "writes to a real file rather than a sink"
      | DangerousCommand => "a destructive or high-impact command"
      | SpecialExecSurface =>
          "options or tools that can write arbitrary output, execute code, override config/identity, or disclose the process environment"
      end.

(** Source: crates/codegen/xai-grok-workspace/src/permission/auto_mode/security_findings.rs:88-98, [ClassifierSecurityFinding::is_grant_floor]. *)
Definition is_grant_floor (f : ClassifierSecurityFinding) : bool :=
  match f with
  | FileWrite | UnvettedEnv | EnvInjection | OpaqueShell | ExecOrAmbientGit | SpecialExecSurface => true
  | FailClosedPolicy | UnparseableShell | DangerousCommand => false
  end.

(** The ordered set: its elements in increasing order.

    Source: crates/codegen/xai-grok-workspace/src/permission/auto_mode/security_findings.rs:104-104, [BashSecurityAssessment]. *)
Definition BashSecurityAssessment := list ClassifierSecurityFinding.

(** Source: crates/codegen/xai-grok-workspace/src/permission/auto_mode/security_findings.rs:107-109, [BashSecurityAssessment::insert]. *)
Fixpoint insert_finding (f : ClassifierSecurityFinding) (s : BashSecurityAssessment) : BashSecurityAssessment :=
  match s with
  | [] => [f]
  | g :: s' =>
      if Nat.eqb (finding_rank f) (finding_rank g) then s
      else if Nat.ltb (finding_rank f) (finding_rank g) then f :: s
      else g :: insert_finding f s'
  end.

Definition insert_if (b : bool) (f : ClassifierSecurityFinding) (s : BashSecurityAssessment) : BashSecurityAssessment :=
  if b then insert_finding f s else s.

(** Source: crates/codegen/xai-grok-workspace/src/permission/auto_mode/security_findings.rs:118-120, [BashSecurityAssessment::contains]. *)
Definition contains_finding (f : ClassifierSecurityFinding) (s : BashSecurityAssessment) : bool :=
  existsb (fun g => bool_decide (g = f)) s.

(** Source: crates/codegen/xai-grok-workspace/src/permission/auto_mode/security_findings.rs:123-128, [BashSecurityAssessment::constrains_broad_grant]. *)
Definition constrains_broad_grant (s : BashSecurityAssessment) : bool := existsb is_grant_floor s.

(** Source: crates/codegen/xai-grok-workspace/src/permission/auto_mode/security_findings.rs:132-134, [BashSecurityAssessment::is_file_write_only]. *)
Definition is_file_write_only (s : BashSecurityAssessment) : bool :=
  Nat.eqb (length s) 1 && contains_finding FileWrite s.

(** Source: crates/codegen/xai-grok-workspace/src/permission/auto_mode/security_findings.rs:146-148, [BashSecurityAssessment::tokens]. *)
Definition finding_tokens (s : BashSecurityAssessment) : list str := map finding_token s.

(** Source: crates/codegen/xai-grok-workspace/src/permission/auto_mode/security_findings.rs:151-157, [BashSecurityAssessment::render_glossary]. *)
Definition render_glossary (s : BashSecurityAssessment) : str :=
  join nl (map (fun f => lit "- " ++ finding_token f ++ lit ": " ++ finding_description f) s).

(** ** The environment *)

(** Source: crates/codegen/xai-grok-workspace/src/permission/auto_mode/mod.rs:583-596, [SAFE_ENV_KEYS]. *)
Definition SAFE_ENV_KEYS : list string :=
  ["CARGO_TERM_COLOR"; "CARGO_TERM_PROGRESS_WHEN"; "RUST_LOG"; "RUST_LOG_STYLE"; "RUST_BACKTRACE"; "RUST_TEST_THREADS";
   "RUST_MIN_STACK"; "NO_COLOR"; "CLICOLOR"; "CLICOLOR_FORCE"; "FORCE_COLOR"; "COLORTERM"].

(** Source: crates/codegen/xai-grok-workspace/src/permission/auto_mode/mod.rs:926-931, [EnvRisk]. *)
Inductive EnvRisk := EnvSafe | EnvUnvetted | EnvInjects.

#[export] Instance EnvRisk_eq_dec : EqDecision EnvRisk.
Proof. solve_decision. Defined.

Definition env_rank (r : EnvRisk) : nat := match r with EnvSafe => 0 | EnvUnvetted => 1 | EnvInjects => 2 end.
(** [Ord::max]. *)
Definition env_max (a b : EnvRisk) : EnvRisk := if Nat.leb (env_rank a) (env_rank b) then b else a.

(** Source: crates/codegen/xai-grok-workspace/src/permission/auto_mode/mod.rs:933-943, [INJECTION_ENV_KEYS]. *)
Definition INJECTION_ENV_KEYS : list string :=
  ["LD_PRELOAD"; "LD_AUDIT"; "BASH_ENV"; "ENV"; "IFS"; "PATH"; "GIT_EXTERNAL_DIFF"; "GIT_PROXY_COMMAND"; "PROMPT_COMMAND"].

(** Source: crates/codegen/xai-grok-workspace/src/permission/auto_mode/mod.rs:947-947, [INJECTION_ENV_KEY_PREFIXES]. *)
Definition INJECTION_ENV_KEY_PREFIXES : list string := ["DYLD_"; "GIT_CONFIG"].

(** Source: crates/codegen/xai-grok-workspace/src/permission/auto_mode/mod.rs:947-959, [env_key_risk]. *)
Definition env_key_risk (key : str) : EnvRisk :=
  if str_in SAFE_ENV_KEYS key then EnvSafe
  else if str_in INJECTION_ENV_KEYS key || existsb (fun p => starts_with (lit p) key) INJECTION_ENV_KEY_PREFIXES
  then EnvInjects
  else EnvUnvetted.

(** Source: crates/codegen/xai-grok-workspace/src/permission/auto_mode/mod.rs:1015-1028, [assignment_key]. *)
Definition assignment_key (n : Node) (src : str) : str :=
  match List.find (kind_is "variable_name") (children n) with
  | Some child => node_text src child
  | None => before_eq (node_text src n)
  end.

(** The arguments of one [env], with the risk so far: the last of them is the
    first word that is no assignment. [inr]: an option ends the whole scan.

    Source: crates/codegen/xai-grok-workspace/src/permission/auto_mode/mod.rs:990-1005, [command_env_risk]. *)
Fixpoint env_args_risk (options_done : bool) (risk : EnvRisk) (args : list str) : EnvRisk + unit :=
  match args with
  | [] => inl risk
  | arg :: args' =>
      if str_eqb arg (lit "--") then env_args_risk true risk args'
      else if negb options_done && starts_with dash arg then inr tt
      else match split_once (byte 61) arg with
           | Some (key, _) => env_args_risk options_done (env_max risk (env_key_risk key)) args'
           | None => inl risk
           end
  end.

(** The loop [for _ in 0..n] over the wrappers of a command.

    Source: crates/codegen/xai-grok-workspace/src/permission/auto_mode/mod.rs:986-1012, [command_env_risk]. *)
Fixpoint env_risk_loop (n : nat) (risk : EnvRisk) (current : list str) : EnvRisk :=
  match n with
  | 0 => risk
  | S n =>
      match (if head_is_env current then env_args_risk false risk (drop 1 current) else inl risk) with
      | inr _ => EnvInjects
      | inl risk =>
          match strip_wrapper_command current with
          | Some inner => env_risk_loop n risk inner
          | None => risk
          end
      end
  end.

(** Source: crates/codegen/xai-grok-workspace/src/permission/auto_mode/mod.rs:985-1014, [command_env_risk]. *)
Definition command_env_risk (ws : list str) : EnvRisk := env_risk_loop 8 EnvSafe ws.

(** Source: crates/codegen/xai-grok-workspace/src/permission/auto_mode/mod.rs:965-983, [script_env_risk]. *)
Definition script_env_risk (root : Node) (src : str) (cmds : list PlainCommand) : EnvRisk :=
  let inline := fold_left (fun risk c =>
    if kind_is "variable_assignment" (here c) then env_max risk (env_key_risk (assignment_key (here c) src)) else risk)
    (visited root) EnvSafe in
  fold_left (fun risk c => env_max risk (command_env_risk (words c))) cmds inline.

(** ** Options that change what a reader does *)

(** Source: crates/codegen/xai-grok-workspace/src/permission/auto_mode/mod.rs:547-564, [KUBECTL_UNSAFE_FLAGS]. *)
Definition KUBECTL_UNSAFE_FLAGS : list string :=
  ["--kubeconfig"; "--context"; "--cluster"; "--server"; "-s"; "--token"; "--user"; "--as"; "--as-group"; "--as-uid";
   "--as-user-extra"; "--username"; "--password"; "--client-certificate"; "--client-key"; "--certificate-authority"].

(** Source: crates/codegen/xai-grok-workspace/src/permission/auto_mode/mod.rs:567-567, [RG_UNSAFE_FLAGS]. *)
Definition RG_UNSAFE_FLAGS : list string := ["--pre"; "--hostname-bin"].

Definition head_is (name : string) (ws : list str) : bool :=
  match normalized_command_head ws with Some h => str_eqb h (lit name) | None => false end.
Definition has_flag_of (flags : list string) (ws : list str) : bool :=
  existsb (fun w => str_in flags (before_eq w)) (drop 1 ws).

(** Source: crates/codegen/xai-grok-workspace/src/permission/auto_mode/mod.rs:570-578, [rg_has_unsafe_flag]. *)
Definition rg_has_unsafe_flag (ws : list str) : bool := head_is "rg" ws && has_flag_of RG_UNSAFE_FLAGS ws.

(** ** Routine [git] *)

(** Source: crates/codegen/xai-grok-workspace/src/permission/auto_mode/routine_git.rs:34-48, [BRANCH_SWITCH_BENIGN_FLAGS]. *)
Definition BRANCH_SWITCH_BENIGN_FLAGS : list string :=
  ["-q"; "--quiet"; "-d"; "--detach"; "-t"; "--track"; "--no-track"; "--guess"; "--no-guess"; "--progress";
   "--no-progress"; "--recurse-submodules"; "--no-recurse-submodules"].

(** Source: crates/codegen/xai-grok-workspace/src/permission/auto_mode/routine_git.rs:94-125, [operand_reads_as_path]. *)
Definition operand_reads_as_path (op : str) : bool :=
  if existsb (fun c => starts_with (lit ".") c || ends_with (lit ".lock") c) (split (lit "/") op)
     || ends_with (lit "/") op || ends_with (lit ".") op || contains (lit "..") op || contains (lit "@{") op
     || has_char "~" op || has_char "^" op || has_char ":" op || contains [backslash] op
     || existsb is_whitespace (chars op)
  then true
  else if starts_with (lit "/") op || has_char "*" op || has_char "?" op || has_char "[" op then true
  else
    match rsplit_once_dot op with
    | None => false
    | Some (stem, ext) =>
        let stem_leaf := default [] (last (split (lit "/") stem)) in
        if str_eqb ext (lit "x") && existsb is_ascii_digit stem_leaf
           && forallb (fun b => is_ascii_digit b || ch_eqb b (byte 46)) stem_leaf
        then false
        else Nat.leb 1 (length ext) && Nat.leb (length ext) 5 && forallb is_ascii_alphanumeric ext
             && existsb is_ascii_alphabetic ext
    end.

(** The loop over the arguments, with the operands counted; [None]: refused. *)
Fixpoint branch_switch_loop (operands : nat) (args : list str) : option nat :=
  match args with
  | [] => Some operands
  | word :: args' =>
      if str_in ["-b"; "-B"; "-c"; "-C"; "--orphan"] word then
        match args' with [] => Some operands | _ :: args'' => branch_switch_loop operands args'' end
      else if str_eqb word dash then branch_switch_loop (S operands) args'
      else if str_in BRANCH_SWITCH_BENIGN_FLAGS word then branch_switch_loop operands args'
      else if starts_with dash word then None
      else if operand_reads_as_path word then None
      else branch_switch_loop (S operands) args'
  end.

(** Source: crates/codegen/xai-grok-workspace/src/permission/auto_mode/routine_git.rs:51-72, [is_routine_branch_switch]. *)
Definition is_routine_branch_switch (args : list str) : bool :=
  match branch_switch_loop 0 args with Some n => Nat.leb n 1 | None => false end.

(** The subcommand: [inl] refuses, [inr None] is a bare [stash]. *)
Fixpoint stash_subcommand (args : list str) : unit + option str :=
  match args with
  | [] => inr None
  | word :: args' =>
      if str_in ["-m"; "--message"] word then match args' with [] => inr None | _ :: args'' => stash_subcommand args'' end
      else if str_in ["-q"; "--quiet"] word then stash_subcommand args'
      else if starts_with dash word then inl tt
      else inr (Some word)
  end.

(** Source: crates/codegen/xai-grok-workspace/src/permission/auto_mode/routine_git.rs:75-91, [is_routine_stash]. *)
Definition is_routine_stash (args : list str) : bool :=
  match stash_subcommand args with
  | inl _ => false
  | inr None => true
  | inr (Some s) => str_in ["push"; "save"; "pop"; "apply"; "list"; "show"; "branch"] s
  end.

(** Source: crates/codegen/xai-grok-workspace/src/permission/auto_mode/routine_git.rs:8-31, [git_words_are_routine]. *)
Definition git_words_are_routine (ws : list str) : bool :=
  if negb (first_is "git" ws) then false
  else if git_words_are_read_only_query ws then true
  else if git_words_have_unsafe_query_option ws then false
  else
    match ws with
    | _ :: verb :: args =>
        if str_in ["add"; "commit"; "pull"; "fetch"] verb then true
        else if str_eqb verb (lit "worktree") then first_is "list" args
        else if str_in ["checkout"; "switch"] verb then is_routine_branch_switch args
        else if str_eqb verb (lit "stash") then is_routine_stash args
        else false
    | _ => false
    end.

(** ** Package managers *)

(** Source: crates/codegen/xai-grok-workspace/src/permission/auto_mode/mod.rs:770-806, [NPM_SAFE_SUBCOMMANDS]. *)
Definition NPM_SAFE_SUBCOMMANDS : list string :=
  ["install"; "i"; "ci"; "add"; "remove"; "rm"; "uninstall"; "update"; "up"; "upgrade"; "test"; "t"; "run"; "run-script";
   "start"; "build"; "audit"; "list"; "ls"; "ll"; "outdated"; "why"; "view"; "info"; "dedupe"; "prune"; "version";
   "pack"; "config"; "link"; "unlink"; "rebuild"; "store"; "fetch"; "import"].

(** Source: crates/codegen/xai-grok-workspace/src/permission/auto_mode/mod.rs:811-814, [UV_SAFE_SUBCOMMANDS]. *)
Definition UV_SAFE_SUBCOMMANDS : list string :=
  ["sync"; "pip"; "lock"; "venv"; "add"; "remove"; "tree"; "export"; "build"; "version"; "python"; "cache"; "init";
   "self"; "help"].

(** Source: crates/codegen/xai-grok-workspace/src/permission/auto_mode/mod.rs:817-830, [RUSTUP_SAFE_SUBCOMMANDS]. *)
Definition RUSTUP_SAFE_SUBCOMMANDS : list string :=
  ["show"; "toolchain"; "component"; "target"; "default"; "update"; "which"; "doc"; "self"; "completions"; "set";
   "override"].

Definition npm_like (prog : str) : bool := str_in ["npm"; "pnpm"; "yarn"] prog.

(** Source: crates/codegen/xai-grok-workspace/src/permission/auto_mode/mod.rs:842-849, [launcher_subcommand]. *)
Definition launcher_subcommand (prog : str) (inner : list str) : option str :=
  sub ← inner !! 1;
  Some (if npm_like prog && str_eqb sub (lit "x") then lit "exec"
        else if npm_like prog && str_eqb sub (lit "innit") then lit "init"
        else sub).

Definition word_is (o : option str) (w : string) : bool := match o with Some s => str_eqb s (lit w) | None => false end.

(** Source: crates/codegen/xai-grok-workspace/src/permission/auto_mode/mod.rs:853-878, [is_remote_launcher]. *)
Definition is_remote_launcher (prog : str) (inner : list str) : bool :=
  if str_in ["npx"; "uvx"] prog then true
  else if str_eqb prog (lit "uv") && word_is (inner !! 1) "tool" && word_is (inner !! 2) "run" then true
  else
    match launcher_subcommand prog inner with
    | None => false
    | Some sub =>
        npm_like prog
        && (str_in ["dlx"; "create"; "explore"] sub
            || (str_eqb sub (lit "init")
                && match inner !! 2 with Some a => negb (starts_with dash a) | None => false end))
    end.

(** Source: crates/codegen/xai-grok-workspace/src/permission/auto_mode/mod.rs:881-888, [LaunchTarget]. *)
Inductive LaunchTarget := NotLauncher | LaunchInner (ws : list str) | LaunchUnresolved.

(** Source: crates/codegen/xai-grok-workspace/src/permission/auto_mode/mod.rs:895-924, [explicit_launch_target]. *)
Definition explicit_launch_target (prog : str) (inner : list str) : LaunchTarget :=
  match launcher_subcommand prog inner with
  | None => NotLauncher
  | Some sub =>
      let at_ start :=
        match inner !! start with
        | Some tok => if negb (starts_with dash tok) then LaunchInner (drop start inner) else LaunchUnresolved
        | None => LaunchUnresolved
        end in
      if str_eqb prog (lit "uv") && str_eqb sub (lit "run") then at_ 2
      else if str_eqb prog (lit "rustup") && str_eqb sub (lit "run") then
        match inner !! 2 with
        | Some toolchain => if negb (starts_with dash toolchain) then at_ 3 else LaunchUnresolved
        | None => LaunchUnresolved
        end
      else if npm_like prog && str_eqb sub (lit "exec") then
        if word_is (inner !! 2) "--" then at_ 3 else at_ 2
      else NotLauncher
  end.

(** Source: crates/codegen/xai-grok-workspace/src/permission/auto_mode/mod.rs:834-838, [launched_writes_nonsink]. *)
Definition launched_writes_nonsink (ws : list str) : bool :=
  existsb (fun p => negb (is_safe_write_sink p)) (command_words_write_paths ws).

(** Over the classification [routine] of the launched command.

    Source: crates/codegen/xai-grok-workspace/src/permission/auto_mode/mod.rs:728-763, [package_manager_subcommand_is_routine]. *)
Definition package_manager_subcommand_is_routine (routine : list str -> bool) (prog : str) (inner : list str) : option bool :=
  if negb (str_in ["uv"; "uvx"; "npm"; "npx"; "pnpm"; "yarn"; "rustup"] prog) then None
  else if is_remote_launcher prog inner then Some false
  else
    match explicit_launch_target prog inner with
    | LaunchUnresolved => Some false
    | LaunchInner launched =>
        Some (bool_decide (command_env_risk launched = EnvSafe) && negb (launched_writes_nonsink launched)
              && routine launched)
    | NotLauncher =>
        let among l := match launcher_subcommand prog inner with Some s => str_in l s | None => false end in
        Some (if npm_like prog then among NPM_SAFE_SUBCOMMANDS
              else if str_eqb prog (lit "uv") then among UV_SAFE_SUBCOMMANDS
              else if str_eqb prog (lit "rustup") then among RUSTUP_SAFE_SUBCOMMANDS
              else false)
    end.

(** ** Routine commands *)

(** Source: crates/codegen/xai-grok-workspace/src/permission/auto_mode/mod.rs:481-543, [ROUTINE_PREFIXES]. *)
Definition ROUTINE_PREFIXES : list string :=
  ["cargo "; "pytest"; "python "; "python3 "; "node "; "rustc "; "rustfmt"; "clippy"; "make "; "cmake "; "cd"; "pushd";
   "popd"; "ls"; "pwd"; "echo "; "printf "; "cat "; "head "; "tail "; "wc "; "rg "; "grep "; "which "; "type "; "true";
   "false"; "test "; "sort "; "uniq "; "tr "; "cut "; "diff "; "jq "; "date"; "whoami"; "hostname"; "uname"; "nproc";
   "printenv"; "stat "; "file "; "tree"; "basename "; "dirname "; "realpath "; "readlink "; "strings "; "sleep "; "df ";
   "du "; "ps "; "top"; "htop"; "bazel "; "just "; "go "; "kubectl get"; "kubectl logs"; "kubectl describe"; "set"].

(** Source: crates/codegen/xai-grok-workspace/src/permission/auto_mode/mod.rs:1036-1038, [is_lone_wrapper]. *)
Definition is_lone_wrapper (ws : list str) : bool := Nat.eqb (length ws) 1 && is_wrapper_command ws.

(** Source: crates/codegen/xai-grok-workspace/src/permission/auto_mode/mod.rs:1042-1047, [find_is_read_only]. *)
Definition find_is_read_only (ws : list str) : bool :=
  negb (existsb (str_in ["-delete"; "-exec"; "-execdir"; "-ok"; "-okdir"; "-fprint"; "-fprint0"; "-fprintf"; "-fls"]) ws).

(** Source: crates/codegen/xai-grok-workspace/src/permission/auto_mode/mod.rs:698-706, [nonflag_tokens]. *)
Definition nonflag_tokens (inner : list str) (n : nat) : list str :=
  take n (List.filter (fun w => negb (starts_with dash w)) (drop 1 inner)).

(** Source: crates/codegen/xai-grok-workspace/src/permission/auto_mode/mod.rs:709-722, [gh_subcommand_is_read_only]. *)
Definition gh_subcommand_is_read_only (inner : list str) : bool :=
  match nonflag_tokens inner 2 with
  | [group; sub] =>
      (str_in ["pr"; "issue"; "release"; "run"; "workflow"; "repo"; "gist"] group
       && str_in ["view"; "list"; "status"; "checks"; "diff"] sub)
      || (str_eqb group (lit "auth") && str_eqb sub (lit "status"))
  | [one] => str_eqb one (lit "status")
  | _ => false
  end.

(** A prefix of the table, on a word boundary. *)
Definition matches_routine (joined : str) (p : string) : bool :=
  let base := trim (lit p) in
  str_eqb joined base || (starts_with base joined && starts_with (lit " ") (drop (length base) joined)).

(** One command, over the classification [routine] of what it launches.

    Source: crates/codegen/xai-grok-workspace/src/permission/auto_mode/mod.rs:636-688, [bash_command_is_routine]. *)
Definition command_is_routine (routine : list str -> bool) (ws : list str) : bool :=
  let inner := unwrap_wrappers ws in
  match inner with
  | [] => true
  | head_word :: _ =>
      if is_lone_wrapper inner then true
      else
        let prog := to_ascii_lowercase (base_name head_word) in
        match package_manager_subcommand_is_routine routine prog inner with
        | Some routine => routine
        | None =>
            if str_eqb prog (lit "find") then find_is_read_only inner
            else if str_eqb prog (lit "git") then git_words_are_routine inner
            else if str_eqb prog (lit "tree")
                    && existsb (fun w => (starts_with dash w && negb (starts_with (lit "--") w) && has_char "o" w)
                                         || starts_with (lit "--output") w) inner
            then false
            else if rg_has_unsafe_flag inner then false
            else if str_eqb prog (lit "kubectl") && has_flag_of KUBECTL_UNSAFE_FLAGS inner then false
            else if str_eqb prog (lit "gh") then gh_subcommand_is_read_only inner
            else existsb (matches_routine (to_ascii_lowercase (join (lit " ") inner))) ROUTINE_PREFIXES
        end
  end.

(** [fuel] bounds the nesting of launchers, each of which launches fewer words. *)
Fixpoint routine_loop (fuel : nat) (ws : list str) : bool :=
  match fuel with
  | 0 => false
  | S fuel => command_is_routine (routine_loop fuel) ws
  end.

(** Source: crates/codegen/xai-grok-workspace/src/permission/auto_mode/mod.rs:636-688, [bash_command_is_routine]. *)
Definition bash_command_is_routine (ws : list str) : bool := routine_loop (S (length ws)) ws.

(** Source: crates/codegen/xai-grok-workspace/src/permission/auto_mode/mod.rs:28-38, [ClassifierVerdict]. *)
Inductive ClassifierVerdict := VAllow | VBlock | VUnavailable.

#[export] Instance ClassifierVerdict_eq_dec : EqDecision ClassifierVerdict.
Proof. solve_decision. Defined.

(** Source: crates/codegen/xai-grok-workspace/src/permission/auto_mode/mod.rs:600-629, [classify_bash]. *)
Definition classify_bash (parser : str -> option Tree) (cmd : str) : ClassifierVerdict :=
  match parser cmd with
  | None => VBlock
  | Some tree =>
      match try_parse_word_only_commands_sequence tree cmd with
      | None => VBlock
      | Some cmds =>
          if negb (bool_decide (script_env_risk (root_node tree) cmd cmds = EnvSafe)) then VBlock
          else if existsb (fun path => negb (is_safe_write_sink path)) (command_write_paths_in_tree (root_node tree) cmd)
          then VBlock
          else if negb (is_empty cmds) && forallb (fun c => bash_command_is_routine (words c)) cmds then VAllow
          else VBlock
      end
  end.

(** ** The heuristic *)

(** Source: crates/codegen/xai-grok-workspace/src/permission/auto_mode/mod.rs:381-417, [HeuristicPermissionClassifier::classify_sync]. *)
Definition DANGEROUS_PATTERNS : list string :=
  ["rm -rf /"; "rm -rf /*"; "mkfs"; "dd if="; ":(){ :|:& };:"; "curl | sh"; "curl|sh"; "curl | bash"; "curl|bash";
   "wget | sh"; "wget|sh"; "wget | bash"; "wget|bash"; "chmod 777"; "chmod -r 777"; "chmod +x /tmp"; "base64 -d";
   "base64 --decode"; "nc -e"; "ncat -e"; "/dev/tcp/"; "shutdown"; "reboot"; "useradd"; "userdel"; "passwd ";
   "chown -r /"; "iptables -f"; "kill -9 1"; "sudo rm"; "sudo dd"; "sudo mkfs"; "exfiltrat"; "steal credential";
   "send secrets"].

(** Source: crates/codegen/xai-grok-workspace/src/permission/auto_mode/mod.rs:436-444, [HeuristicPermissionClassifier::classify_sync]. *)
Definition HOSTILE_INTENT : list string :=
  ["delete all files"; "wipe the disk"; "exfiltrate"; "steal secrets"; "send my credentials"; "ignore safety";
   "bypass permission"].

Definition contains_any (l : list string) (s : str) : bool := existsb (fun p => contains (lit p) s) l.

(** [transcript_text] is the rendered transcript of the context.

    Source: crates/codegen/xai-grok-workspace/src/permission/auto_mode/mod.rs:360-471, [HeuristicPermissionClassifier::classify_sync]. *)
Definition classify_sync {Value} (parser : str -> option Tree) (tool_name : str) (access : AccessKind Value)
    (access_detail : option str) (transcript_text : str) : ClassifierVerdict :=
  let detail := to_ascii_lowercase (default [] access_detail) in
  let tool := to_ascii_lowercase tool_name in
  let transcript := to_ascii_lowercase transcript_text in
  let blob := tool ++ lit " " ++ detail ++ lit " " ++ transcript in
  if contains (lit "ask_user") tool || contains (lit "askuserquestion") tool then VBlock
  else if contains_any DANGEROUS_PATTERNS blob then VBlock
  else if contains_any ["curl"; "wget"; "fetch"] blob
          && contains_any ["| sh"; "|sh"; "| bash"; "|bash"; "| zsh"; "|zsh"] blob then VBlock
  else if contains_any HOSTILE_INTENT transcript then VBlock
  else
    match access with
    | Bash cmd => classify_bash parser cmd
    | WebFetch _ | Edit _ | MCPTool _ _ | AgentMessage _ | Tool _ => VBlock
    | Read _ | Grep _ _ | WebSearch _ => VAllow
    end.

(** ** The fast path *)

(** Source: crates/codegen/xai-grok-workspace/src/permission/auto_mode/mod.rs:1063-1080, [access_requires_user_interaction]. *)
Definition access_requires_user_interaction {Value} (tool_name : str) (access : AccessKind Value) : bool :=
  let t := to_ascii_lowercase tool_name in
  if contains_any ["ask_user"; "askuserquestion"; "user_question"] t || str_eqb t (lit "ask_user_question") then true
  else
    match access with
    | MCPTool name _ =>
        let n := to_ascii_lowercase name in
        contains (lit "ask_user") n || (contains (lit "confirm") n && contains (lit "human") n)
    | _ => false
    end.

(** Source: crates/codegen/xai-grok-workspace/src/permission/auto_mode/mod.rs:1085-1090, [is_auto_mode_allowlisted_access]. *)
Definition is_auto_mode_allowlisted_access {Value} (access : AccessKind Value) : bool :=
  match access with Read _ | Grep _ _ | WebSearch _ => true | _ => false end.

(** Source: crates/codegen/xai-grok-workspace/src/permission/auto_mode/mod.rs:1093-1123, [is_auto_mode_allowlisted_tool_name]. *)
Definition is_auto_mode_allowlisted_tool_name (tool_name : str) : bool :=
  str_in ["todo_write"; "TodoWrite"; "task_output"; "TaskOutput"; "wait_tasks"; "WaitTasks"; "ask_user_question";
          "AskUserQuestion"; "enter_plan_mode"; "EnterPlanMode"; "exit_plan_mode"; "ExitPlanMode"; "switch_mode";
          "SwitchMode"; "create_plan"; "CreatePlan"; "update_plan"; "UpdatePlan"; "list_mcp_resources";
          "ListMcpResources"; "read_mcp_resource"; "ReadMcpResource"; "tool_search"; "ToolSearch"; "sleep"; "Sleep"]
    tool_name.

(** Source: crates/codegen/xai-grok-workspace/src/permission/auto_mode/mod.rs:1127-1134, [AutoFastPath]. *)
Inductive AutoFastPath := FastAllow | FastPromptUser | FastClassify.

(** Source: crates/codegen/xai-grok-workspace/src/permission/auto_mode/mod.rs:1141-1165, [auto_mode_fast_path]. *)
Definition auto_mode_fast_path {Value} (access : AccessKind Value) (tool_name : str) (requires_user_interaction : bool) :
    AutoFastPath :=
  if requires_user_interaction then FastPromptUser
  else if is_auto_mode_allowlisted_access access || is_auto_mode_allowlisted_tool_name tool_name then FastAllow
  else
    match access with
    | Edit _ | AgentMessage _ => FastAllow
    | Bash cmd => if str_in ["true"; ":"; "false"] (trim cmd) then FastAllow else FastClassify
    | _ => FastClassify
    end.

Example routine_ex :
  map (fun s => bash_command_is_routine (split (lit " ") (lit s)))
    ["cargo test"; "topgrade"; "top"; "uv run pytest -q"; "uv run --with x pytest"; "npm exec -- tsc"; "npx tsc";
     "rustup run nightly cargo build"; "git push"; "git checkout main"; "git checkout src/main.rs"; "git stash drop";
     "find . -name x -delete"; "env"; "timeout 5 env A=1 cargo build"; "gh pr view 3"; "gh pr merge 3"]
  = [true; false; true; true; false; false; false; true; false; true; false; false; false; true; true; true; false].
Proof. vm_compute. reflexivity. Qed.

Example env_ex :
  command_env_risk (words_of ["timeout"; "5"; "env"; "RUST_LOG=x"; "LD_PRELOAD=y"; "ls"]) = EnvInjects
  ∧ command_env_risk (words_of ["env"; "RUST_LOG=x"; "ls"; "PATH=y"]) = EnvSafe
  ∧ command_env_risk (words_of ["env"; "-i"; "ls"]) = EnvInjects
  ∧ command_env_risk (words_of ["env"; "FOO=1"; "ls"]) = EnvUnvetted.
Proof. vm_compute. by split_and!. Qed.

(** * Theorems *)

(** ** The findings of a request *)

Definition ranked (f g : ClassifierSecurityFinding) : Prop := finding_rank f < finding_rank g.
(** The form [insert] keeps: increasing, so without repetition. *)
Definition canonical (s : BashSecurityAssessment) : Prop := Sorting.Sorted.StronglySorted ranked s.

Lemma finding_rank_inj f g : finding_rank f = finding_rank g -> f = g.
Proof. by destruct f, g. Qed.

Lemma insert_elem f g s : f ∈ insert_finding g s <-> f = g ∨ f ∈ s.
Proof.
  induction s as [|h s IH]; cbn [insert_finding]; [set_solver|].
  destruct (Nat.eqb_spec (finding_rank g) (finding_rank h)) as [->%finding_rank_inj|]; [set_solver|].
  destruct (Nat.ltb _ _); set_solver.
Qed.

Lemma insert_canonical f s : canonical s -> canonical (insert_finding f s).
Proof.
  unfold canonical. induction 1 as [|h s Hs IH Hh]; cbn [insert_finding]; [by repeat constructor|].
  destruct (Nat.eqb_spec (finding_rank f) (finding_rank h)); [by constructor|].
  destruct (Nat.ltb_spec (finding_rank f) (finding_rank h)).
  - constructor; [by constructor|]. constructor; [done|]. eapply Forall_impl; [exact Hh|]. unfold ranked. lia.
  - constructor; [exact IH|]. rewrite Forall_forall in Hh |- *. intros g [->|Hg]%insert_elem; [unfold ranked; lia|by apply Hh].
Qed.

Lemma canonical_eq s t : canonical s -> canonical t -> (∀ f, f ∈ s <-> f ∈ t) -> s = t.
Proof.
  unfold canonical. intros Hs. revert t. induction Hs as [|a s Hs IH Ha]; intros t Ht Heq.
  - destruct t as [|b t]; [done|]. by destruct (not_elem_of_nil b); apply Heq; left.
  - destruct Ht as [|b t Ht Hb]; [by destruct (not_elem_of_nil a); apply Heq; left|].
    rewrite Forall_forall in Ha, Hb. unfold ranked in Ha, Hb.
    assert (a = b) as ->.
    { pose proof (proj1 (Heq a) ltac:(by left)) as [?|Hab]%elem_of_cons; [done|].
      pose proof (proj2 (Heq b) ltac:(by left)) as [?|Hba]%elem_of_cons; [done|]. specialize (Ha _ Hba). specialize (Hb _ Hab). lia. }
    f_equal. apply IH; [done|]. intros f. specialize (Heq f). rewrite !elem_of_cons in Heq.
    split; intros Hf; [destruct (proj1 Heq (or_intror Hf)) as [->|]|destruct (proj2 Heq (or_intror Hf)) as [->|]]; try done;
      [specialize (Ha _ Hf)|specialize (Hb _ Hf)]; lia.
Qed.

(** The order in which the analysis reports findings, and how often, does not show:
    the prompt and the telemetry are determined by which findings there are. *)
Theorem assessment_is_a_set fs gs :
  (∀ f, f ∈ fs <-> f ∈ gs) ->
  foldr insert_finding [] fs = foldr insert_finding [] gs
  ∧ render_glossary (foldr insert_finding [] fs) = render_glossary (foldr insert_finding [] gs).
Proof.
  intros Heq. assert (Hc : ∀ l, canonical (foldr insert_finding [] l)).
  { induction l as [|f l IH]; cbn; [constructor|by apply insert_canonical]. }
  assert (He : ∀ l f, f ∈ foldr insert_finding [] l <-> f ∈ l).
  { induction l as [|g l IH]; intros f; cbn [foldr]; [done|]. rewrite insert_elem, IH. set_solver. }
  assert (foldr insert_finding [] fs = foldr insert_finding [] gs) as ->; [|done].
  apply canonical_eq; [done..|]. intros f. by rewrite !He.
Qed.

Lemma contains_finding_spec f s : contains_finding f s = true <-> f ∈ s.
Proof.
  unfold contains_finding. rewrite existsb_exists. split.
  - intros (g & Hg & ->%bool_decide_eq_true). by apply list_elem_of_In.
  - intros Hf. exists f. split; [by apply list_elem_of_In|by apply bool_decide_eq_true].
Qed.

(** ** The environment *)

Lemma env_max_safe a b : env_max a b = EnvSafe <-> a = EnvSafe ∧ b = EnvSafe.
Proof. destruct a, b; cbn; naive_solver. Qed.

Lemma fold_env_safe {A} (f : A -> EnvRisk) l acc :
  fold_left (fun r x => env_max r (f x)) l acc = EnvSafe <-> acc = EnvSafe ∧ ∀ x, x ∈ l -> f x = EnvSafe.
Proof.
  revert acc. induction l as [|x l IH]; intros acc; cbn [fold_left].
  - split; [|naive_solver]. intros ->. split; [done|]. by intros x ?%elem_of_nil.
  - rewrite IH, env_max_safe. set_solver.
Qed.

Lemma env_key_safe key : env_key_risk key = EnvSafe <-> str_in SAFE_ENV_KEYS key = true.
Proof. unfold env_key_risk. destruct (str_in SAFE_ENV_KEYS key); [done|]. by destruct (_ || _). Qed.

(** A script's environment is safe exactly when every assignment of its tree, wherever it
    is, sets a key of the table, and no [env] of its commands takes an option or sets
    another key. *)
Theorem script_env_safe_iff root src cmds :
  script_env_risk root src cmds = EnvSafe <->
  (∀ n, n ∈ nodes root -> kind_is "variable_assignment" n = true -> str_in SAFE_ENV_KEYS (assignment_key n src) = true)
  ∧ ∀ c, c ∈ cmds -> command_env_risk (words c) = EnvSafe.
Proof.
  unfold script_env_risk. rewrite (fold_env_safe (fun c => command_env_risk (words c))).
  set (risk c := if kind_is "variable_assignment" (here c) then env_key_risk (assignment_key (here c) src) else EnvSafe).
  assert (Hfold : ∀ l acc,
    fold_left (fun risk c => if kind_is "variable_assignment" (here c)
                             then env_max risk (env_key_risk (assignment_key (here c) src)) else risk) l acc
    = fold_left (fun r c => env_max r (risk c)) l acc).
  { induction l as [|c l IH]; intros acc; cbn [fold_left]; [done|]. rewrite IH. f_equal. unfold risk.
    destruct (kind_is _ _); [done|]. by destruct acc. }
  rewrite Hfold, fold_env_safe. destruct (visited_complete root) as [Hp _].
  split; intros [H1 H2]; (split; [|done]).
  - destruct H1 as [_ H1]. intros n Hn Hk. rewrite <- Hp in Hn. apply list_elem_of_fmap in Hn as (c & -> & Hc).
    specialize (H1 c Hc). unfold risk in H1. rewrite Hk in H1. by apply env_key_safe.
  - split; [done|]. intros c Hc. unfold risk. destruct (kind_is "variable_assignment" (here c)) eqn:Ek; [|done].
    apply env_key_safe, H1; [|done]. rewrite <- Hp. apply list_elem_of_fmap. by exists c.
Qed.

(** ** Routine commands *)

Lemma launch_target_shorter prog inner launched :
  explicit_launch_target prog inner = LaunchInner launched -> launched `suffix_of` inner ∧ length launched < length inner.
Proof.
  unfold explicit_launch_target. destruct (launcher_subcommand prog inner) as [sub|]; [|done]. cbn zeta.
  assert (Hat : ∀ start tok, 1 ≤ start -> inner !! start = Some tok ->
    drop start inner `suffix_of` inner ∧ length (drop start inner) < length inner).
  { intros start tok Hs E. apply lookup_lt_Some in E. split; [|rewrite length_drop; lia].
    exists (take start inner). by rewrite take_drop. }
  intros Ht. repeat case_match; simplify_eq; by (eapply Hat; [|done]; lia).
Qed.

Lemma package_manager_ext (r1 r2 : list str -> bool) prog inner :
  (∀ l, l `suffix_of` inner -> length l < length inner -> r1 l = r2 l) ->
  package_manager_subcommand_is_routine r1 prog inner = package_manager_subcommand_is_routine r2 prog inner.
Proof.
  intros Hr. unfold package_manager_subcommand_is_routine. destruct (negb _); [done|].
  destruct (is_remote_launcher prog inner); [done|].
  destruct (explicit_launch_target prog inner) as [|launched|] eqn:E; [done| |done].
  apply launch_target_shorter in E as [Hs Hl]. by rewrite (Hr _ Hs Hl).
Qed.

Lemma command_routine_ext (r1 r2 : list str -> bool) ws :
  (∀ l, length l < length ws -> r1 l = r2 l) -> command_is_routine r1 ws = command_is_routine r2 ws.
Proof.
  intros Hr. unfold command_is_routine. cbn zeta.
  assert (Ht : length (unwrap_wrappers ws) ≤ length ws) by apply suffix_length, unwrap_checked_tail.
  destruct (unwrap_wrappers ws) as [|w inner]; [reflexivity|]. destruct (is_lone_wrapper _); [reflexivity|].
  rewrite (package_manager_ext r1 r2); [reflexivity|]. intros l _ Hl. apply Hr. lia.
Qed.

(** A launcher launches fewer words, so that the words bound the recursion: with more
    fuel the answer is the same. *)
Lemma routine_fuel fuel ws : S (length ws) ≤ fuel -> routine_loop fuel ws = bash_command_is_routine ws.
Proof.
  unfold bash_command_is_routine. remember (S (length ws)) as m eqn:Em. assert (Hm : S (length ws) ≤ m) by lia. clear Em.
  revert ws m Hm. induction fuel as [|fuel IH]; intros ws m Hm Hf; [lia|]. destruct m as [|m]; [lia|].
  cbn [routine_loop]. apply command_routine_ext. intros l Hl. destruct m as [|m]; [lia|]. apply IH; lia.
Qed.

(** When the shell arm of the heuristic allows. *)
Lemma classify_bash_allows parser cmd :
  classify_bash parser cmd = VAllow <->
  ∃ tree cmds, parser cmd = Some tree ∧ try_parse_word_only_commands_sequence tree cmd = Some cmds ∧ cmds ≠ []
    ∧ (∀ n, n ∈ nodes (root_node tree) -> kind_is "variable_assignment" n = true ->
            str_in SAFE_ENV_KEYS (assignment_key n cmd) = true)
    ∧ (∀ path, path ∈ command_write_paths_in_tree (root_node tree) cmd -> is_safe_write_sink path = true)
    ∧ ∀ c, c ∈ cmds -> command_env_risk (words c) = EnvSafe ∧ bash_command_is_routine (words c) = true.
Proof.
  unfold classify_bash. destruct (parser cmd) as [tree|]; [|split; [done|by intros (? & ? & ? & _)]].
  destruct (try_parse_word_only_commands_sequence tree cmd) as [cmds|] eqn:Et;
    [|split; [done|by intros (? & ? & [= <-] & ? & _); congruence]].
  assert (Hw : existsb (fun path => negb (is_safe_write_sink path)) (command_write_paths_in_tree (root_node tree) cmd) = false
               <-> ∀ path, path ∈ command_write_paths_in_tree (root_node tree) cmd -> is_safe_write_sink path = true).
  { rewrite existsb_false, Forall_forall. split; intros H p Hp; specialize (H p Hp); by destruct (is_safe_write_sink p). }
  assert (Hr : forallb (fun c => bash_command_is_routine (words c)) cmds = true
               <-> ∀ c, c ∈ cmds -> bash_command_is_routine (words c) = true).
  { rewrite forallb_forall. split; intros H c Hc; apply H; by apply list_elem_of_In. }
  pose proof (script_env_safe_iff (root_node tree) cmd cmds) as He. split.
  - case_bool_decide as Hrisk; cbn [negb]; [|done]. apply He in Hrisk as [He1 He2].
    destruct (existsb _ _); [done|]. destruct cmds as [|c cmds]; [done|]. cbn [is_empty negb andb].
    destruct (forallb _ _) eqn:Ef; [|done]. intros _. exists tree, (c :: cmds). split_and!; [done..|by apply Hw|].
    intros d Hd. split; [by apply He2|]. by apply Hr.
  - intros (t & cs & [= <-] & Hcs & Hne & H1 & H2 & H3). rewrite Et in Hcs. injection Hcs as <-.
    rewrite bool_decide_eq_true_2 by (apply He; split; [done|]; intros c Hc; by apply H3). cbn [negb].
    rewrite (proj2 Hw H2), (proj2 Hr) by (intros c Hc; by apply H3). by destruct cmds.
Qed.

(** ** Routine [git] *)

Lemma str_in_app l k s : str_in (l ++ k) s = str_in l s || str_in k s.
Proof. apply existsb_app. Qed.

(** A routine [git] command is a read-only query, or its first argument is one of eight verbs;
    so no option before the verb injects configuration, and no option runs a driver or writes a
    file. *)
Theorem routine_git_verbs ws :
  git_words_are_routine ws = true ->
  git_has_exec_risk_global ws = false ∧ git_words_have_unsafe_query_option ws = false
  ∧ (git_words_are_read_only_query ws = true
     ∨ ∃ verb args, ws = lit "git" :: verb :: args
         ∧ str_in ["add"; "commit"; "pull"; "fetch"; "worktree"; "checkout"; "switch"; "stash"] verb = true).
Proof.
  unfold git_words_are_routine. destruct (first_is "git" ws) eqn:Ef; [|done]. cbn [negb].
  destruct (git_words_are_read_only_query ws) eqn:Eq.
  - intros _. split_and!; [| |by left]; unfold git_words_are_read_only_query in Eq; rewrite Ef in Eq; cbn [negb] in Eq;
      destruct (git_has_exec_risk_global ws); try done. destruct (git_safe_query_verb_index ws) as [k|]; [|done].
    destruct (ws !! k) as [w|]; [|done]. by apply andb_true_iff in Eq as [_ ?%negb_true_iff].
  - destruct (git_words_have_unsafe_query_option ws) eqn:Eu; [done|]. apply first_is_git in Ef as [l ->].
    destruct l as [|verb args]; [done|]. intros Hv.
    assert (Hin : str_in ["add"; "commit"; "pull"; "fetch"; "worktree"; "checkout"; "switch"; "stash"] verb = true).
    { change (str_in (["add"; "commit"; "pull"; "fetch"] ++ ["worktree"] ++ ["checkout"; "switch"] ++ ["stash"]) verb = true).
      rewrite !str_in_app. destruct (str_in ["add"; "commit"; "pull"; "fetch"] verb); [done|].
      destruct (str_eqb verb (lit "worktree")) eqn:E; [by apply str_eqb_eq in E as ->|].
      destruct (str_in ["checkout"; "switch"] verb); [by rewrite orb_true_r|].
      destruct (str_eqb verb (lit "stash")) eqn:E'; [by apply str_eqb_eq in E' as ->|done]. }
    split_and!; [|done|right; by exists verb, args].
    unfold git_has_exec_risk_global. rewrite skipn_cons, drop_0. cbn [exec_risk_global_loop].
    assert (Hd : starts_with dash verb = false).
    { unfold str_in in Hin. apply existsb_exists in Hin as (x & Hx & <-%str_eqb_eq).
      assert (Hall : Forall (fun x => starts_with dash (lit x) = false)
        ["add"; "commit"; "pull"; "fetch"; "worktree"; "checkout"; "switch"; "stash"]) by repeat constructor.
      rewrite List.Forall_forall in Hall. by apply Hall. }
    rewrite Hd. by destruct (str_eqb verb (lit "--")).
Qed.

(** *** What an allowed script runs *)

(** The programs of the routine table. *)
Definition ROUTINE_PROGRAMS : list string :=
  ["cargo"; "pytest"; "python"; "python3"; "node"; "rustc"; "rustfmt"; "clippy"; "make"; "cmake"; "cd"; "pushd"; "popd";
   "ls"; "pwd"; "echo"; "printf"; "cat"; "head"; "tail"; "wc"; "rg"; "grep"; "which"; "type"; "true"; "false"; "test";
   "sort"; "uniq"; "tr"; "cut"; "diff"; "jq"; "date"; "whoami"; "hostname"; "uname"; "nproc"; "printenv"; "stat"; "file";
   "tree"; "basename"; "dirname"; "realpath"; "readlink"; "strings"; "sleep"; "df"; "du"; "ps"; "top"; "htop"; "bazel";
   "just"; "go"; "kubectl"; "set"].

Definition program (head : str) : str := to_ascii_lowercase (base_name head).

Fixpoint until_space (s : str) : str :=
  match s with
  | [] => []
  | c :: s' => if ch_eqb c (byte 32) then [] else c :: until_space s'
  end.

(** The command line that a launcher runs: [uv run c], [rustup run t c], [npm exec [--] c]. *)
Inductive launches : list str -> list str -> Prop :=
  | launches_uv h tok rest : program h = lit "uv" -> starts_with dash tok = false ->
      launches (h :: lit "run" :: tok :: rest) (tok :: rest)
  | launches_rustup h toolchain tok rest : program h = lit "rustup" -> starts_with dash toolchain = false ->
      starts_with dash tok = false -> launches (h :: lit "run" :: toolchain :: tok :: rest) (tok :: rest)
  | launches_npm h sub tok rest : npm_like (program h) = true -> str_in ["exec"; "x"] sub = true ->
      starts_with dash tok = false -> launches (h :: sub :: tok :: rest) (tok :: rest)
  | launches_npm_past h sub tok rest : npm_like (program h) = true -> str_in ["exec"; "x"] sub = true ->
      starts_with dash tok = false -> launches (h :: sub :: lit "--" :: tok :: rest) (tok :: rest).

(** The command lines a command comes down to, its wrappers peeled at each launcher. *)
Inductive comes_to : list str -> list str -> Prop :=
  | comes_to_itself ws : comes_to ws ws
  | comes_to_launched ws l ws' : launches (unwrap_wrappers ws) l -> comes_to l ws' -> comes_to ws ws'.

(** The programs that launch others or fetch them to run. *)
Definition fetches_and_runs (inner : list str) : Prop :=
  match inner with
  | h :: args =>
      str_in ["npx"; "uvx"] (program h) = true
      ∨ (program h = lit "uv" ∧ ∃ rest, args = lit "tool" :: lit "run" :: rest)
      ∨ (npm_like (program h) = true ∧ ∃ sub rest, args = sub :: rest ∧ str_in ["dlx"; "create"; "explore"] sub = true)
  | [] => False
  end.

(** What may stand in the place of a command, its wrappers peeled. *)
Definition vetted (inner : list str) : Prop :=
  match inner with
  | [] => True
  | h :: args =>
      (args = [] ∧ is_wrapper_command inner = true)
      ∨ (∃ sub rest, args = sub :: rest
         ∧ ((∃ l, launches inner l)
            ∨ (npm_like (program h) = true ∧ str_in NPM_SAFE_SUBCOMMANDS sub = true)
            ∨ (program h = lit "uv" ∧ str_in UV_SAFE_SUBCOMMANDS sub = true)
            ∨ (program h = lit "rustup" ∧ str_in RUSTUP_SAFE_SUBCOMMANDS sub = true)))
      ∨ (program h = lit "find"
         ∧ ∀ w, w ∈ inner -> str_in ["-delete"; "-exec"; "-execdir"; "-ok"; "-okdir"; "-fprint"; "-fprint0"; "-fprintf"; "-fls"] w = false)
      ∨ (h = lit "git" ∧ git_has_exec_risk_global inner = false ∧ git_words_have_unsafe_query_option inner = false
         ∧ (git_words_are_read_only_query inner = true
            ∨ ∃ verb rest, args = verb :: rest
                ∧ str_in ["add"; "commit"; "pull"; "fetch"; "worktree"; "checkout"; "switch"; "stash"] verb = true))
      ∨ (program h = lit "gh" ∧ gh_subcommand_is_read_only inner = true)
      ∨ str_in ROUTINE_PROGRAMS (until_space (to_ascii_lowercase h)) = true ∧ rg_has_unsafe_flag inner = false
  end.

Lemma until_space_app s t : until_space (s ++ byte 32 :: t) = until_space s.
Proof. induction s as [|c s IH]; cbn [until_space app]; [done|]. by rewrite IH. Qed.

Lemma joined_head h args : until_space (to_ascii_lowercase (join (lit " ") (h :: args))) = until_space (to_ascii_lowercase h).
Proof.
  destruct args as [|w args]; [done|]. rewrite join_cons by done. unfold to_ascii_lowercase. rewrite !map_app.
  exact (until_space_app (map _ h) (map _ (join (lit " ") (w :: args)))).
Qed.

Lemma routine_prefix_program h args :
  existsb (matches_routine (to_ascii_lowercase (join (lit " ") (h :: args)))) ROUTINE_PREFIXES = true ->
  str_in ROUTINE_PROGRAMS (until_space (to_ascii_lowercase h)) = true.
Proof.
  rewrite <- (joined_head h args). generalize (to_ascii_lowercase (join (lit " ") (h :: args))). intros joined.
  intros (p & Hp & Hm)%existsb_exists.
  assert (Hall : forallb (fun p => str_in ROUTINE_PROGRAMS (until_space (trim (lit p)))) ROUTINE_PREFIXES = true)
    by (vm_compute; reflexivity).
  rewrite forallb_forall in Hall. specialize (Hall p Hp). unfold matches_routine in Hm.
  apply orb_true_iff in Hm as [->%str_eqb_eq|[[r ->]%starts_with_spec Hs]%andb_true_iff]; [done|].
  rewrite drop_app_length in Hs. apply starts_with_spec in Hs as [t ->].
  rewrite (until_space_app (trim (lit p)) t : until_space (trim (lit p) ++ lit " " ++ t) = _). exact Hall.
Qed.

Lemma str_in_elem l s : str_in l s = true <-> ∃ x, x ∈ l ∧ s = lit x.
Proof.
  unfold str_in. rewrite existsb_exists. split.
  - intros (x & Hx & <-%str_eqb_eq). exists x. by rewrite list_elem_of_In.
  - intros (x & Hx & ->). exists x. split; [by apply list_elem_of_In|apply str_eqb_refl].
Qed.

Lemma launches_target h args l : launches (h :: args) l ->
  explicit_launch_target (program h) (h :: args) = LaunchInner l ∧ length l < length (h :: args)
  ∧ str_in ["uv"; "uvx"; "npm"; "npx"; "pnpm"; "yarn"; "rustup"] (program h) = true.
Proof.
  assert (Hnpm : ∀ prog, npm_like prog = true -> prog = lit "npm" ∨ prog = lit "pnpm" ∨ prog = lit "yarn").
  { intros prog (x & Hx & ->)%str_in_elem. rewrite !elem_of_cons, elem_of_nil in Hx. naive_solver. }
  assert (Hsub : ∀ sub, str_in ["exec"; "x"] sub = true -> sub = lit "exec" ∨ sub = lit "x").
  { intros sub (x & Hx & ->)%str_in_elem. rewrite !elem_of_cons, elem_of_nil in Hx. naive_solver. }
  assert (Hn : ∀ tok, starts_with dash tok = false -> str_eqb tok (lit "--") = false).
  { intros tok Ht. destruct (str_eqb tok (lit "--")) eqn:E; [|done]. apply str_eqb_eq in E as ->. discriminate Ht. }
  unfold explicit_launch_target, launcher_subcommand.
  inversion 1 as [? tok rest Hp Ht|? tc tok rest Hp Htc Ht|? sub tok rest Hp%Hnpm Hs%Hsub Ht|? sub tok rest Hp%Hnpm Hs%Hsub Ht]; subst;
    try specialize (Hn tok Ht); revert Ht; try revert Htc; generalize (starts_with dash); intros d.
  - intros Ht. rewrite Hp. cbn. rewrite Ht. cbn. split_and!; [done|lia|done].
  - intros Htc Ht. rewrite Hp. cbn. rewrite Htc. cbn. rewrite Ht. cbn. split_and!; [done|lia|done].
  - intros Ht. destruct Hp as [->|[-> | ->]], Hs as [-> | ->]; cbn in Hn |- *; rewrite ?Hn, ?Ht; cbn; split_and!; solve [done|lia].
  - intros Ht. destruct Hp as [->|[-> | ->]], Hs as [-> | ->]; cbn; rewrite ?Ht; cbn; split_and!; solve [done|lia].
Qed.

Lemma npm_like_alone prog : npm_like prog = true -> str_eqb prog (lit "uv") = false ∧ str_eqb prog (lit "rustup") = false.
Proof. intros (y & Hy & ->)%str_in_elem. rewrite !elem_of_cons, elem_of_nil in Hy. by destruct_or! Hy; subst y. Qed.

Lemma str_eqb_sym a b : str_eqb a b = str_eqb b a.
Proof. apply eq_true_iff_eq. rewrite !str_eqb_eq. naive_solver. Qed.

Lemma npm_subcommand sub :
  str_eqb (if str_eqb sub (lit "x") then lit "exec" else if str_eqb sub (lit "innit") then lit "init" else sub) (lit "exec")
  = str_in ["exec"; "x"] sub.
Proof.
  cbn [str_in existsb]. rewrite orb_false_r, !(str_eqb_sym (lit _) sub).
  destruct (str_eqb sub (lit "x")) eqn:Ex; [by rewrite orb_true_r|]. rewrite orb_false_r.
  destruct (str_eqb sub (lit "innit")) eqn:Ei; [|done]. by apply str_eqb_eq in Ei as ->.
Qed.

(** The aliases stand for subcommands that are not in the table. *)
Lemma npm_safe_alias sub sub' :
  Some (if str_eqb sub (lit "x") then lit "exec" else if str_eqb sub (lit "innit") then lit "init" else sub) = Some sub' ->
  str_in NPM_SAFE_SUBCOMMANDS sub' = true -> str_in NPM_SAFE_SUBCOMMANDS sub = true.
Proof.
  intros Hs Hin. destruct (str_eqb sub (lit "x")).
  { assert (sub' = lit "exec") as -> by congruence. discriminate Hin. }
  destruct (str_eqb sub (lit "innit")); [|by assert (sub' = sub) as <- by congruence].
  assert (sub' = lit "init") as -> by congruence. discriminate Hin.
Qed.

Lemma target_launches h args l : explicit_launch_target (program h) (h :: args) = LaunchInner l -> launches (h :: args) l.
Proof.
  unfold explicit_launch_target, launcher_subcommand. destruct args as [|sub args]; [done|]. cbn [lookup list_lookup mbind option_bind].
  destruct (npm_like (program h)) eqn:Hn; cbn [andb].
  - destruct (npm_like_alone _ Hn) as [-> ->]. cbn [andb]. rewrite npm_subcommand.
    destruct (str_in ["exec"; "x"] sub) eqn:Hs; [|done]. destruct args as [|tok args]; [done|]. cbn [lookup list_lookup word_is].
    destruct (str_eqb tok (lit "--")) eqn:Ed.
    + apply str_eqb_eq in Ed as ->. destruct args as [|tok args]; [done|]. cbn [lookup list_lookup].
      destruct (starts_with dash tok) eqn:Et; [done|]. intros [= <-]. by apply launches_npm_past.
    + destruct (starts_with dash tok) eqn:Et; [done|]. intros [= <-]. by apply launches_npm.
  - destruct (str_eqb (program h) (lit "uv")) eqn:Hu; cbn [andb].
    + apply str_eqb_eq in Hu. rewrite Hu. destruct (str_eqb sub (lit "run")) eqn:Hr; [|done]. apply str_eqb_eq in Hr as ->.
      destruct args as [|tok args]; [done|]. cbn [lookup list_lookup].
      destruct (starts_with dash tok) eqn:Et; [done|]. intros [= <-]. by apply launches_uv.
    + destruct (str_eqb (program h) (lit "rustup")) eqn:Hru; cbn [andb]; [|done].
      destruct (str_eqb sub (lit "run")) eqn:Hr; [|done]. apply str_eqb_eq in Hr as ->. apply str_eqb_eq in Hru.
      destruct args as [|tc args]; [done|]. cbn [lookup list_lookup].
      destruct (starts_with dash tc) eqn:Etc; [done|]. cbn [negb]. destruct args as [|tok args]; [done|]. cbn [lookup list_lookup].
      destruct (starts_with dash tok) eqn:Et; [done|]. intros [= <-]. by apply launches_rustup.
Qed.

(** The judgement of a peeled command that is neither alone a wrapper nor a package manager. *)
Definition judged_alone (h : str) (args : list str) : bool :=
  let inner := h :: args in
  if str_eqb (program h) (lit "find") then find_is_read_only inner
  else if str_eqb (program h) (lit "git") then git_words_are_routine inner
  else if str_eqb (program h) (lit "tree")
          && existsb (fun w => (starts_with dash w && negb (starts_with (lit "--") w) && has_char "o" w)
                               || starts_with (lit "--output") w) inner
  then false
  else if rg_has_unsafe_flag inner then false
  else if str_eqb (program h) (lit "kubectl") && has_flag_of KUBECTL_UNSAFE_FLAGS inner then false
  else if str_eqb (program h) (lit "gh") then gh_subcommand_is_read_only inner
  else existsb (matches_routine (to_ascii_lowercase (join (lit " ") inner))) ROUTINE_PREFIXES.

Lemma routine_eq ws :
  bash_command_is_routine ws =
  match unwrap_wrappers ws with
  | [] => true
  | h :: args =>
      if is_lone_wrapper (h :: args) then true
      else match package_manager_subcommand_is_routine (routine_loop (length ws)) (program h) (h :: args) with
           | Some routine => routine
           | None => judged_alone h args
           end
  end.
Proof.
  change (bash_command_is_routine ws) with (command_is_routine (routine_loop (length ws)) ws).
  unfold command_is_routine, judged_alone, program. cbn zeta. by destruct (unwrap_wrappers ws).
Qed.

(** A launched command has been judged like the one that launches it. *)
Lemma routine_launched ws l : bash_command_is_routine ws = true -> launches (unwrap_wrappers ws) l ->
  command_env_risk l = EnvSafe ∧ launched_writes_nonsink l = false ∧ bash_command_is_routine l = true.
Proof.
  intros Hr Hl. assert (Ht : length (unwrap_wrappers ws) ≤ length ws) by apply suffix_length, unwrap_checked_tail.
  rewrite routine_eq in Hr.
  destruct (unwrap_wrappers ws) as [|h args]; [inversion Hl|]. apply launches_target in Hl as (He & Hlen & Hp).
  unfold is_lone_wrapper in Hr. destruct (Nat.eqb_spec (length (h :: args)) 1) as [H1|_].
  { assert (l = []) as -> by (destruct l; [done|cbn in *; lia]).
    exfalso. destruct args; [|done]. by unfold explicit_launch_target, launcher_subcommand in He. }
  cbn [andb] in Hr. unfold package_manager_subcommand_is_routine in Hr. rewrite Hp, He in Hr. cbn [negb] in Hr.
  destruct (is_remote_launcher _ _); [done|]. apply andb_true_iff in Hr as [[Henv%bool_decide_eq_true Hw%negb_true_iff]%andb_true_iff Hr].
  rewrite routine_fuel in Hr by lia. done.
Qed.

Lemma remote_launchers h args : fetches_and_runs (h :: args) -> 
  is_remote_launcher (program h) (h :: args) = true
  ∧ str_in ["uv"; "uvx"; "npm"; "npx"; "pnpm"; "yarn"; "rustup"] (program h) = true.
Proof.
  cbn [fetches_and_runs]. unfold is_remote_launcher. destruct (str_in ["npx"; "uvx"] (program h)) eqn:Ex.
  { intros _. split; [done|]. apply str_in_elem in Ex as (x & Hx & ->). rewrite !elem_of_cons, elem_of_nil in Hx. naive_solver. }
  intros [?|[(Hp & rest & ->)|(Hp & sub & rest & -> & (x & Hx & ->)%str_in_elem)]]; [done|by rewrite Hp|].
  apply str_in_elem in Hp as (y & Hy & ->). rewrite !elem_of_cons, elem_of_nil in Hx, Hy. naive_solver.
Qed.

Lemma routine_vetted ws : bash_command_is_routine ws = true ->
  vetted (unwrap_wrappers ws) ∧ ¬ fetches_and_runs (unwrap_wrappers ws).
Proof.
  rewrite routine_eq. destruct (unwrap_wrappers ws) as [|h args]; [by intros _; split; [|intros []]|].
  destruct (is_lone_wrapper (h :: args)) eqn:Hlone.
  { apply andb_true_iff in Hlone as [Hlen%Nat.eqb_eq Hw]. assert (args = []) as -> by (by destruct args).
    intros _. split; [by left|]. intros [_ Hp]%remote_launchers.
    cbn [is_wrapper_command] in Hw. apply str_in_elem in Hw as (x & Hx & Hb). unfold program in Hp. rewrite Hb in Hp.
    rewrite !elem_of_cons, elem_of_nil in Hx. destruct_or! Hx; subst x; try done; discriminate Hp. }
  intros Hr. assert (Hno : ¬ fetches_and_runs (h :: args)).
  { intros [Hrem Hp]%remote_launchers. unfold package_manager_subcommand_is_routine in Hr. by rewrite Hp, Hrem in Hr. }
  split; [|done]. clear Hno. cbn [vetted]. unfold package_manager_subcommand_is_routine in Hr.
  destruct (str_in ["uv"; "uvx"; "npm"; "npx"; "pnpm"; "yarn"; "rustup"] (program h)) eqn:Hpm; cbn [negb] in Hr.
  - right. left. destruct (is_remote_launcher _ _); [done|].
    destruct (explicit_launch_target (program h) (h :: args)) as [|l|] eqn:Et; [| |done].
    + destruct (launcher_subcommand (program h) (h :: args)) as [sub'|] eqn:Es.
      2: { destruct (npm_like _), (str_eqb (program h) (lit "uv")), (str_eqb (program h) (lit "rustup")); done. }
      unfold launcher_subcommand in Es. destruct args as [|sub rest]; [done|]. cbn [lookup list_lookup mbind option_bind] in Es.
      exists sub, rest. split; [done|]. right. destruct (npm_like (program h)) eqn:Hn; cbn [andb] in Es.
      * left. split; [done|]. by eapply npm_safe_alias.
      * injection Es as ->. right. destruct (str_eqb (program h) (lit "uv")) eqn:Hu; [apply str_eqb_eq in Hu; by left|].
        right. destruct (str_eqb (program h) (lit "rustup")) eqn:Hru; [apply str_eqb_eq in Hru; by split|done].
    + apply target_launches in Et. destruct args as [|sub rest]; [inversion Et|].
      exists sub, rest. split; [done|]. left. by exists l.
  - clear Hpm. unfold judged_alone in Hr. cbn zeta in Hr. destruct (str_eqb (program h) (lit "find")) eqn:Hf.
    { apply str_eqb_eq in Hf. right. right. left. split; [done|]. intros w Hw.
      unfold find_is_read_only in Hr. apply negb_true_iff, existsb_false in Hr. rewrite Forall_forall in Hr. by apply Hr. }
    destruct (str_eqb (program h) (lit "git")) eqn:Hg.
    { right. right. right. left. pose proof Hr as (H1 & H2 & H3)%routine_git_verbs.
      unfold git_words_are_routine in Hr. destruct (first_is "git" (h :: args)) eqn:Eg; [|done].
      apply first_is_git in Eg as [args' [= -> <-]]. split_and!; [done..|].
      destruct H3 as [?|(verb & rest & [= ->] & Hv)]; [by left|right; by exists verb, rest]. }
    destruct (str_eqb (program h) (lit "tree") && _); [done|].
    destruct (rg_has_unsafe_flag (h :: args)) eqn:Hrg; [done|].
    destruct (str_eqb (program h) (lit "kubectl") && _); [done|].
    destruct (str_eqb (program h) (lit "gh")) eqn:Hgh.
    { apply str_eqb_eq in Hgh. do 4 right. by left. }
    do 5 right. split; [by apply (routine_prefix_program h args)|done].
Qed.
(** The scan of a request's text: every part of it that the heuristic reads. *)
Lemma scanned_parts (l : list string) tool detail transcript :
  contains_any l (tool ++ lit " " ++ detail ++ lit " " ++ transcript) = false ->
  ∀ p, p ∈ l -> ¬ occurs (lit p) tool ∧ ¬ occurs (lit p) detail ∧ ¬ occurs (lit p) transcript.
Proof.
  unfold contains_any. rewrite existsb_false, Forall_forall. intros Hall p Hp. specialize (Hall p Hp).
  apply contains_false in Hall. split_and!; intros Ho; apply Hall.
  - by apply occurs_app_r.
  - by apply occurs_app_l, occurs_app_l, occurs_app_r.
  - by do 4 apply occurs_app_l.
Qed.

Lemma contains_none (l : list string) s : contains_any l s = false -> ∀ p, p ∈ l -> ¬ occurs (lit p) s.
Proof. unfold contains_any. rewrite existsb_false, Forall_forall. intros Hall p Hp. apply contains_false. exact (Hall p Hp). Qed.

Lemma nonsinks_none l path : launched_writes_nonsink l = false -> path ∈ command_words_write_paths l -> is_safe_write_sink path = true.
Proof.
  unfold launched_writes_nonsink. rewrite existsb_false, Forall_forall. intros Hw Hp. apply negb_false_iff. exact (Hw path Hp).
Qed.

Lemma routine_comes_to ws ws' : comes_to ws ws' -> bash_command_is_routine ws = true -> command_env_risk ws = EnvSafe ->
  bash_command_is_routine ws' = true ∧ command_env_risk ws' = EnvSafe.
Proof.
  induction 1 as [ws|ws l ws' Hl _ IH]; [done|]. intros Hr _.
  destruct (routine_launched ws l Hr Hl) as (He & _ & Hr'). by apply IH.
Qed.

Lemma unless_blocked (b : bool) v : (if b then VBlock else v) = VAllow -> b = false ∧ v = VAllow.
Proof. by destruct b. Qed.

Lemma classify_sync_allows {Value} parser tool cmd detail transcript :
  classify_sync parser tool (Bash cmd : AccessKind Value) detail transcript = VAllow ->
  contains_any DANGEROUS_PATTERNS (to_ascii_lowercase tool ++ lit " " ++ to_ascii_lowercase (default [] detail)
                                   ++ lit " " ++ to_ascii_lowercase transcript) = false
  ∧ contains_any HOSTILE_INTENT (to_ascii_lowercase transcript) = false ∧ classify_bash parser cmd = VAllow.
Proof. unfold classify_sync. by intros [_ [? [_ [? ?]%unless_blocked]%unless_blocked]%unless_blocked]%unless_blocked. Qed.

(** C39 What the heuristic classifier lets a shell script run. If it allows one, the script decomposes into commands;
    no assignment sets a key outside the harmless table, and what it is seen to write are sinks. Each command, and each
    that it comes down to when wrappers are peeled (as the code peels them) and [uv run], [rustup run] and
    [npm]/[pnpm]/[yarn] [exec] are followed to any depth, has a harmless [env], is no program that fetches what
    it runs ([npx], [uvx], [uv tool run], [dlx], ...), and is: nothing, or a wrapper alone; a package manager with a
    subcommand of its table, or launching; [find] without an action; [git] (no path) with one of eight verbs or as a
    read-only query, without options that inject configuration or run a driver; a read-only [gh]; or a
    routine program by the first word of its text, [rg] not running another. What a launched
    command writes are sinks. Tool name, detail and transcript hold, in lower case, no dangerous pattern, the
    transcript no hostile phrase. *)
Theorem heuristic_vets_what_runs {Value} parser tool cmd detail transcript :
  classify_sync parser tool (Bash cmd : AccessKind Value) detail transcript = VAllow ->
  (∃ tree cmds, parser cmd = Some tree ∧ try_parse_word_only_commands_sequence tree cmd = Some cmds ∧ cmds ≠ []
    ∧ (∀ n, n ∈ nodes (root_node tree) -> kind_is "variable_assignment" n = true ->
            str_in SAFE_ENV_KEYS (assignment_key n cmd) = true)
    ∧ (∀ path, path ∈ command_write_paths_in_tree (root_node tree) cmd -> is_safe_write_sink path = true)
    ∧ ∀ c ws, c ∈ cmds -> comes_to (words c) ws ->
        command_env_risk ws = EnvSafe ∧ vetted (unwrap_wrappers ws) ∧ ¬ fetches_and_runs (unwrap_wrappers ws)
        ∧ ∀ l path, launches (unwrap_wrappers ws) l -> path ∈ command_words_write_paths l -> is_safe_write_sink path = true)
  ∧ (∀ p, p ∈ DANGEROUS_PATTERNS ->
       ¬ occurs (lit p) (to_ascii_lowercase tool) ∧ ¬ occurs (lit p) (to_ascii_lowercase (default [] detail))
       ∧ ¬ occurs (lit p) (to_ascii_lowercase transcript))
  ∧ ∀ p, p ∈ HOSTILE_INTENT -> ¬ occurs (lit p) (to_ascii_lowercase transcript).
Proof.
  intros (Hdanger & Hhost & (tree & cmds & Hp & Hs & Hne & Hassign & Hsink & Hcmds)%classify_bash_allows)%classify_sync_allows.
  split; [|split].
  - exists tree, cmds. do 5 (split; [assumption|]). intros c ws Hc Hto. destruct (Hcmds c Hc) as [He Hr].
    destruct (routine_comes_to _ _ Hto Hr He) as [Hr' He']. destruct (routine_vetted ws Hr') as [Hv Hf].
    split; [exact He'|split; [exact Hv|split; [exact Hf|]]]. intros l path Hl Hpath.
    destruct (routine_launched ws l Hr' Hl) as (_ & Hw & _). exact (nonsinks_none l path Hw Hpath).
  - exact (scanned_parts DANGEROUS_PATTERNS _ _ _ Hdanger).
  - exact (contains_none HOSTILE_INTENT _ Hhost).
Qed.

Lemma heuristic_vets_what_runs_witness :
  vetted (words_of ["pytest"; "-q"]) ∧ ¬ fetches_and_runs (words_of ["pytest"; "-q"]).
Proof.
  destruct (heuristic_vets_what_runs (Value := unit) chain_parser (lit "run_terminal_cmd") (lit "timeout 5 uv run pytest -q")
              (Some (lit "timeout 5 uv run pytest -q")) (lit "run the tests") ltac:(vm_compute; reflexivity))
    as [(tree & cmds & Hp & Hs & _ & _ & _ & Hall) _].
  assert (Hw : (t ← chain_parser (lit "timeout 5 uv run pytest -q");
                map words <$> try_parse_word_only_commands_sequence t (lit "timeout 5 uv run pytest -q"))
               = Some [words_of ["timeout"; "5"; "uv"; "run"; "pytest"; "-q"]]) by (vm_compute; reflexivity).
  rewrite Hp in Hw. cbn [mbind option_bind] in Hw. rewrite Hs in Hw. cbn [fmap option_fmap option_map] in Hw. injection Hw as Hw.
  destruct cmds as [|c cmds]; [discriminate Hw|]. injection Hw as Hw _.
  destruct (Hall c (words_of ["pytest"; "-q"]) ltac:(left)) as (_ & Hv & Hf & _); [|split; [exact Hv|exact Hf]].
  rewrite Hw. eapply comes_to_launched; [|apply comes_to_itself].
  exact (launches_uv (lit "uv") (lit "pytest") (words_of ["-q"]) eq_refl eq_refl).
Defined.

(** ** Concrete runs *)

(** The arm for [git] claims to send every shape it does not recognize to the model, but takes
    any option of [fetch] and [pull]: also the one that names the program to run in place of
    the server's. *)
Theorem fetch_takes_any_option :
  bash_command_is_routine (words_of ["git"; "fetch"; "--upload-pack=/tmp/evil"; "."]) = true
  ∧ classify_bash chain_parser (lit "git fetch --upload-pack=/tmp/evil .") = VAllow.
Proof. vm_compute. by split. Qed.

(** The allowlist of tool names is looked up whatever the access: a shell command that comes under
    the name of a coordination tool is allowed without a classifier. *)
Theorem name_allowlist_ignores_the_access (cmd : str) :
  auto_mode_fast_path (Value := unit) (Bash cmd) (lit "sleep") (access_requires_user_interaction (Value := unit) (lit "sleep") (Bash cmd))
  = FastAllow.
Proof. reflexivity. Qed.
