(* ===== verification/GrantState.v ===== *)
(** * Permission grants: the stored state and its keys

    [crates/codegen/xai-grok-workspace/src/permission/state.rs]: what a session
    remembers as granted and denied, and the merge of two such states. With it
    what a grant's key is derived from: the qualified name of an MCP tool
    ([crates/codegen/xai-grok-mcp/src/tool_name.rs], the identifiers of
    [crates/common/xai-tool-protocol/src/ids.rs]), the domain of a URL
    ([crates/codegen/xai-grok-tools/.../web_fetch/domain.rs], with the static
    allowlist) and the path a model names ([crates/codegen/xai-grok-tools/src/types/resources.rs]).
    URLs are parsed by a library (the class [Urls]). *)

From S2P Require Export AutoMode.

(** ** The state *)

(** Source: crates/codegen/xai-grok-workspace/src/permission/types.rs:144-149, [EditPolicy]. *)
Inductive EditPolicy := EditAsk | EditAllow | EditReject.

(** Source: crates/codegen/xai-grok-workspace/src/permission/state.rs:9-9, [VALIDATED_MCP_SERVER_GRANTS_VERSION]. *)
Definition VALIDATED_MCP_SERVER_GRANTS_VERSION : Z := 1.

(** Source: crates/codegen/xai-grok-workspace/src/permission/state.rs:13-45, [PermissionState]. *)
Record PermissionState := mkPermissionState {
  edit_policy : EditPolicy;
  allow_bash_execute : bool;
  allowed_bash_commands : gset str;
  disallowed_bash_commands : gset str;
  allowed_bash_globs : gset str;
  allowed_web_fetch_domains : gset str;
  allowed_mcp_tools : gset str;
  allowed_mcp_servers : gset str;
  disallowed_mcp_tools : gset str;
  disallowed_web_fetch_domains : gset str;
  validated_mcp_server_grants_version : Z
}.

(** Source: crates/codegen/xai-grok-workspace/src/permission/state.rs:62-78, [PermissionState::default]. *)
Definition permission_state_default : PermissionState :=
  mkPermissionState EditAsk false ∅ ∅ ∅ ∅ ∅ ∅ ∅ ∅ VALIDATED_MCP_SERVER_GRANTS_VERSION.

(** Source: crates/codegen/xai-grok-workspace/src/permission/state.rs:84-110, [PermissionState::merge_grants_from]. *)
Definition merge_grants_from (s other : PermissionState) : PermissionState :=
  mkPermissionState (edit_policy s) (allow_bash_execute s || allow_bash_execute other)
    (allowed_bash_commands s ∪ allowed_bash_commands other)
    (disallowed_bash_commands s ∪ disallowed_bash_commands other)
    (allowed_bash_globs s ∪ allowed_bash_globs other)
    (allowed_web_fetch_domains s ∪ allowed_web_fetch_domains other)
    (allowed_mcp_tools s ∪ allowed_mcp_tools other)
    (allowed_mcp_servers s ∪ allowed_mcp_servers other)
    (disallowed_mcp_tools s ∪ disallowed_mcp_tools other)
    (disallowed_web_fetch_domains s ∪ disallowed_web_fetch_domains other)
    (validated_mcp_server_grants_version s).

(** [state.field.insert(key)], field by field. *)
Definition allow_bash (keys : gset str) (s : PermissionState) : PermissionState :=
  mkPermissionState (edit_policy s) (allow_bash_execute s) (keys ∪ allowed_bash_commands s) (disallowed_bash_commands s)
    (allowed_bash_globs s) (allowed_web_fetch_domains s) (allowed_mcp_tools s) (allowed_mcp_servers s)
    (disallowed_mcp_tools s) (disallowed_web_fetch_domains s) (validated_mcp_server_grants_version s).
Definition deny_bash (key : str) (s : PermissionState) : PermissionState :=
  mkPermissionState (edit_policy s) (allow_bash_execute s) (allowed_bash_commands s)
    ({[key]} ∪ disallowed_bash_commands s) (allowed_bash_globs s) (allowed_web_fetch_domains s) (allowed_mcp_tools s)
    (allowed_mcp_servers s) (disallowed_mcp_tools s) (disallowed_web_fetch_domains s)
    (validated_mcp_server_grants_version s).
Definition allow_glob (key : str) (s : PermissionState) : PermissionState :=
  mkPermissionState (edit_policy s) (allow_bash_execute s) (allowed_bash_commands s) (disallowed_bash_commands s)
    ({[key]} ∪ allowed_bash_globs s) (allowed_web_fetch_domains s) (allowed_mcp_tools s) (allowed_mcp_servers s)
    (disallowed_mcp_tools s) (disallowed_web_fetch_domains s) (validated_mcp_server_grants_version s).
Definition allow_domain (key : str) (s : PermissionState) : PermissionState :=
  mkPermissionState (edit_policy s) (allow_bash_execute s) (allowed_bash_commands s) (disallowed_bash_commands s)
    (allowed_bash_globs s) ({[key]} ∪ allowed_web_fetch_domains s) (allowed_mcp_tools s) (allowed_mcp_servers s)
    (disallowed_mcp_tools s) (disallowed_web_fetch_domains s) (validated_mcp_server_grants_version s).
Definition allow_mcp_tool (key : str) (s : PermissionState) : PermissionState :=
  mkPermissionState (edit_policy s) (allow_bash_execute s) (allowed_bash_commands s) (disallowed_bash_commands s)
    (allowed_bash_globs s) (allowed_web_fetch_domains s) ({[key]} ∪ allowed_mcp_tools s) (allowed_mcp_servers s)
    (disallowed_mcp_tools s) (disallowed_web_fetch_domains s) (validated_mcp_server_grants_version s).
Definition allow_mcp_server (key : str) (s : PermissionState) : PermissionState :=
  mkPermissionState (edit_policy s) (allow_bash_execute s) (allowed_bash_commands s) (disallowed_bash_commands s)
    (allowed_bash_globs s) (allowed_web_fetch_domains s) (allowed_mcp_tools s) ({[key]} ∪ allowed_mcp_servers s)
    (disallowed_mcp_tools s) (disallowed_web_fetch_domains s) (validated_mcp_server_grants_version s).
Definition deny_mcp_tool (key : str) (s : PermissionState) : PermissionState :=
  mkPermissionState (edit_policy s) (allow_bash_execute s) (allowed_bash_commands s) (disallowed_bash_commands s)
    (allowed_bash_globs s) (allowed_web_fetch_domains s) (allowed_mcp_tools s) (allowed_mcp_servers s)
    ({[key]} ∪ disallowed_mcp_tools s) (disallowed_web_fetch_domains s) (validated_mcp_server_grants_version s).
Definition deny_domain (key : str) (s : PermissionState) : PermissionState :=
  mkPermissionState (edit_policy s) (allow_bash_execute s) (allowed_bash_commands s) (disallowed_bash_commands s)
    (allowed_bash_globs s) (allowed_web_fetch_domains s) (allowed_mcp_tools s) (allowed_mcp_servers s)
    (disallowed_mcp_tools s) ({[key]} ∪ disallowed_web_fetch_domains s) (validated_mcp_server_grants_version s).

(** ** What a prompt answers *)

(** Source: crates/codegen/xai-grok-workspace/src/permission/prompter.rs:190-218, [PromptOutcome]. *)
Inductive PromptOutcome :=
  | AllowOnce | AllowAlways | AllowEditsForSession
  | AllowAlwaysBashCommand (prefix : str) | AllowAlwaysBashGlob (pat : str) | AllowAlwaysDomain (domain : str)
  | AllowAlwaysMcpTool (name : str) | AllowAlwaysMcpServer (server : str)
  | RejectOnce
  | RejectAlwaysBashCommand (prefix : str) | RejectAlwaysMcpTool (name : str) | RejectAlwaysDomain (domain : str)
  | PromptCancelled | PromptFollowupMessage (message : str) | PromptError (message : str).

(** Source: crates/codegen/xai-grok-workspace/src/permission/types.rs:180-183, [RequestPathContext]. *)
Record RequestPathContext := mkPathContext { real_cwd : str; display_cwd : option str }.

(** ** Names of MCP tools *)

(** Source: crates/common/xai-tool-protocol/src/ids.rs:26-28, [is_id_char]. *)
Definition is_id_char (c : ascii) : bool := is_ascii_alphanumeric c || ch_eqb c (byte 95) || ch_eqb c (byte 45).

(** Source: crates/common/xai-tool-protocol/src/ids.rs:30-32, [is_valid_segment]. *)
Definition is_valid_segment (s : str) : bool := negb (is_empty s) && forallb is_id_char s.

(** Source: crates/common/xai-tool-protocol/src/ids.rs:207-217, [is_well_formed_tool_id]. *)
Definition is_well_formed_tool_id (s : str) : bool :=
  match split (lit ":") s with
  | [first] => is_valid_segment first
  | [first; second] => is_valid_segment first && is_valid_segment second
  | _ => false
  end.

(** [ToolId::new(value).is_ok()].

    Source: crates/common/xai-tool-protocol/src/ids.rs:60-65, [ToolId::new]. *)
Definition tool_id_ok (s : str) : bool := negb (is_empty s) && is_well_formed_tool_id s.

(** Source: crates/codegen/xai-grok-workspace-types/src/lib.rs:68-68, [MCP_TOOL_NAME_DELIMITER]. *)
Definition MCP_TOOL_NAME_DELIMITER : str := lit "__".

(** The indices of the windows that are the delimiter. *)
Fixpoint boundaries (i : nat) (name : str) : list nat :=
  match name with
  | [] => []
  | _ :: name' =>
      if starts_with MCP_TOOL_NAME_DELIMITER name then i :: boundaries (S i) name' else boundaries (S i) name'
  end.

(** The identifier, the server and the tool.

    Source: crates/codegen/xai-grok-mcp/src/tool_name.rs:52-70, [parse_mcp_qualified_name]. *)
Definition parse_mcp_qualified_name (name : str) : option (str * str * str) :=
  match boundaries 0 name with
  | [boundary] =>
      let server := take boundary name in
      let tool := drop (length MCP_TOOL_NAME_DELIMITER) (drop boundary name) in
      if is_empty server || is_empty tool then None
      else if tool_id_ok name then Some (name, server, tool) else None
  | _ => None
  end.

(** ** Domains *)

(** A parsed URL: [Url::parse], [host_str] and [path]. *)
Class Urls := {
  Url : Type;
  url_parse : str -> option Url;
  host_str : Url -> option str;
  url_path : Url -> str
}.

(** Source: crates/codegen/xai-grok-tools/src/implementations/grok_build/web_fetch/domain.rs:31-37, [HostEntry]. *)
Inductive HostEntry := AnyPath | PathPrefixes (prefixes : list str).

(** Source: crates/codegen/xai-grok-tools/src/implementations/grok_build/web_fetch/domain.rs:46-48, [DomainMatcher]. *)
Definition DomainMatcher := gmap str HostEntry.

Section Domains.
Context (to_lowercase : str -> str).

(** One entry of the allowlist.

    Source: crates/codegen/xai-grok-tools/src/implementations/grok_build/web_fetch/domain.rs:55-106, [DomainMatcher::new]. *)
Definition matcher_insert (entries : gmap str HostEntry) (raw : str) : gmap str HostEntry :=
  let normalized := normalize_domain to_lowercase raw in
  if is_empty normalized then entries
  else
    match find (lit "/") normalized with
    | None => <[normalized := AnyPath]> entries
    | Some i =>
        let host := take i normalized in
        match entries !! host with
        | Some AnyPath => entries
        | entry =>
            let prefix := trim_end_char (byte 47) (drop i normalized) in
            if is_empty prefix || str_eqb prefix (lit "/") then <[host := AnyPath]> entries
            else
              let prefix := if starts_with (lit "/") prefix then prefix else lit "/" ++ prefix in
              <[host := PathPrefixes
                  match entry with
                  | Some (PathPrefixes v) => if existsb (str_eqb prefix) v then v else v ++ [prefix]
                  | _ => [prefix]
                  end]> entries
        end
    end.

(** Source: crates/codegen/xai-grok-tools/src/implementations/grok_build/web_fetch/domain.rs:52-109, [DomainMatcher::new]. *)
Definition domain_matcher_new (raw_entries : list str) : DomainMatcher := fold_left matcher_insert raw_entries ∅.

(** [None] permits the URL; [Some] names the domain that is not allowed.

    Source: crates/codegen/xai-grok-tools/src/implementations/grok_build/web_fetch/domain.rs:113-147, [DomainMatcher::check]. *)
Definition domain_matcher_check `{Urls} (m : gmap str HostEntry) (url : Url) : option str :=
  match host_str url with
  | None => Some []
  | Some raw_host =>
      let host := normalize_domain to_lowercase raw_host in
      match m !! host with
      | Some AnyPath => None
      | Some (PathPrefixes prefixes) =>
          let path := to_lowercase (url_path url) in
          if existsb (fun prefix => str_eqb path prefix
                        || (starts_with prefix path && bool_decide (path !! length prefix = Some (byte 47)))) prefixes
          then None else Some host
      | None => Some host
      end
  end.

(** Source: crates/codegen/xai-grok-tools/src/implementations/grok_build/web_fetch/domain.rs:153-157, [domain_from_url]. *)
Definition domain_from_url `{Urls} (raw_url : str) : option str :=
  u ← url_parse raw_url;
  h ← host_str u;
  Some (normalize_domain to_lowercase h).

End Domains.

(** ** Paths a model names *)

Definition quotes : list ascii := [byte 34; byte 39].
Definition starts_with_one (cs : list ascii) (s : str) : bool :=
  match s with [] => false | c :: _ => existsb (ch_eqb c) cs end.

(** The loop over escapes left as two characters; each round removes them.

    Source: crates/codegen/xai-grok-tools/src/types/resources.rs:440-448, [sanitize_model_path_arg]. *)
Fixpoint strip_escapes (fuel : nat) (result : str) : str :=
  match fuel with
  | 0 => result
  | S fuel =>
      let suffix c := strip_suffix (backslash :: lit c) result in
      match suffix "n" ∪ suffix "r" ∪ suffix "t" with
      | Some stripped => strip_escapes fuel (trim_end stripped)
      | None => result
      end
  end.

(** Source: crates/codegen/xai-grok-tools/src/types/resources.rs:432-449, [sanitize_model_path_arg]. *)
Definition sanitize_model_path_arg (input : str) : str :=
  let trimmed := trim input in
  let quote_wrapped :=
    Nat.leb 2 (length trimmed) && starts_with_one quotes trimmed && starts_with_one quotes (rev trimmed) in
  let unquoted := trim (trim_matches quotes trimmed) in
  if negb quote_wrapped then unquoted else strip_escapes (length unquoted) unquoted.

(** [tilde] is [shellexpand::tilde]; paths are up to their components.

    Source: crates/codegen/xai-grok-tools/src/types/resources.rs:402-428, [resolve_model_path]. *)
Definition resolve_model_path (tilde : str -> str) (cwd : str) (display_cwd : option str) (input : str) : str :=
  let expanded := tilde (sanitize_model_path_arg input) in
  let rest base p := strip_components (components base) (components p) in
  match display_cwd, is_absolute expanded with
  | Some display, true =>
      match rest display expanded with
      | Some suffix => path_push cwd (collect_path suffix)
      | None => expanded
      end
  | _, _ =>
      if negb (is_absolute expanded) && negb (is_empty expanded) then
        match rest (default cwd display_cwd) (lit "/" ++ expanded) with
        | Some suffix => path_push cwd (collect_path suffix)
        | None => path_push cwd expanded
        end
      else path_push cwd expanded
  end.
