(* ===== verification/Grants.v ===== *)
(** * Permission grants: evaluation

    [crates/codegen/xai-grok-workspace/src/permission/grants.rs] and
    [grants/bash_grants.rs]: the safe lists, the scopes the prompt offers, the
    facts of a shell request (segments, findings, write targets), the decisions
    taken on a stored state before anyone is asked, and what an answer to the
    prompt stores. Globs, URLs, Unicode lower-casing, the shell parser, the home
    directory, git's configuration, the file system and the order of hash sets
    are parameters, as in [PermissionPolicy], [ExecRisk] and [ShellAccess]. *)

From S2P Require Export GrantState.

(** ** Flags that no safe list covers *)

(** Source: crates/codegen/xai-grok-workspace/src/permission/grants.rs:141-149, [kubectl_has_unsafe_flag]. *)
Definition kubectl_has_unsafe_flag (ws : list str) : bool :=
  head_is "kubectl" ws && has_flag_of KUBECTL_UNSAFE_FLAGS ws.

(** Options whose value is the next word.

    Source: crates/codegen/xai-grok-workspace/src/permission/grants.rs:169-195, [ps_dumps_environment]. *)
Definition PS_VALUE_FLAGS : list string :=
  ["-o"; "-O"; "--format"; "--sort"; "-p"; "-q"; "-t"; "-u"; "-U"; "-g"; "-G"; "-C"; "-s"; "--pid"; "--ppid"; "--sid";
   "--tty"; "--user"; "--group"; "--cols"; "--columns"; "--width"; "o"; "O"].

(** Source: crates/codegen/xai-grok-workspace/src/permission/grants.rs:157-221, [ps_dumps_environment]. *)
Fixpoint ps_loop (skip_next : bool) (l : list str) : bool :=
  match l with
  | [] => false
  | s :: l' =>
      if skip_next then ps_loop false l'
      else if starts_with (lit "--format=") s || starts_with (lit "--sort=") s then ps_loop false l'
      else if str_in PS_VALUE_FLAGS s then ps_loop true l'
      else if starts_with (lit "-o") s || starts_with (lit "-O") s then ps_loop false l'
      else
        let has_upper_e := has_char "E" s in
        let has_lower_e := has_char "e" s in
        let dashless := negb (starts_with dash s) in
        let short_cluster := starts_with dash s && negb (starts_with (lit "--") s) in
        let bsd_selector_cluster := short_cluster && (has_char "a" s || has_char "x" s) in
        if has_upper_e || (has_lower_e && (dashless || bsd_selector_cluster)) then true
        else ps_loop (short_cluster && (ends_with (lit "o") s || ends_with (lit "O") s)) l'
  end.

(** Source: crates/codegen/xai-grok-workspace/src/permission/grants.rs:153-222, [ps_dumps_environment]. *)
Definition ps_dumps_environment (ws : list str) : bool := if head_is "ps" ws then ps_loop false (drop 1 ws) else false.

(** ** Safe lists *)

(** Source: crates/codegen/xai-grok-workspace/src/permission/grants.rs:252-258, [is_safe_git_query_prefix]. *)
Definition is_safe_git_query_prefix (cmd : str) : bool :=
  match strip_prefix (lit "git ") cmd with
  | Some rest => existsb (fun verb => matches_command_prefix rest (lit verb)) SAFE_GIT_SUBCOMMANDS
  | None => false
  end.

Definition matches_one_of (l : list string) (cmd : str) : bool := existsb (fun p => matches_command_prefix cmd (lit p)) l.

(** Source: crates/codegen/xai-grok-workspace/src/permission/grants.rs:261-290, [is_safe_command_words_str]. *)
Definition is_safe_command_words_str (cmd : str) : bool :=
  matches_one_of ["ls"; "cat"; "pwd"; "date"] cmd
  || is_safe_git_query_prefix cmd
  || matches_one_of ["whoami"; "hostname"; "uptime"; "grep"; "rg"; "kubectl get"; "kubectl logs"; "kubectl describe";
                     "ps"; "head"; "tail"; "wc"; "sort"; "uniq"; "tr"; "cut"; "echo"; "printf"] cmd.

(** Source: crates/codegen/xai-grok-workspace/src/permission/grants.rs:294-313, [ALWAYS_SAFE_COMMANDS]. *)
Definition ALWAYS_SAFE_COMMANDS : list string :=
  ["ls"; "cat"; "pwd"; "date"; "whoami"; "hostname"; "uptime"; "ps"; "grep"; "rg"; "kubectl get"; "kubectl logs";
   "kubectl describe"].

(** The words that both safe lists refuse, and the arm for [git] they share. *)
Definition safe_by (prefixes : str -> bool) (ws : list str) : bool :=
  if is_empty ws || rg_has_unsafe_flag ws || kubectl_has_unsafe_flag ws || ps_dumps_environment ws then false
  else if first_is "git" ws then git_words_are_read_only_query ws
  else prefixes (join (lit " ") ws).

(** Source: crates/codegen/xai-grok-workspace/src/permission/grants.rs:225-244, [is_safe_command_words]. *)
Definition is_safe_command_words (ws : list str) : bool := safe_by is_safe_command_words_str ws.

(** Source: crates/codegen/xai-grok-workspace/src/permission/grants.rs:316-321, [is_safe_creation_command]. *)
Definition is_safe_creation_command (ws : list str) : bool :=
  match ws with [] => false | w :: _ => is_creation_program w end.

(** Source: crates/codegen/xai-grok-workspace/src/permission/grants.rs:325-353, [is_always_safe_command_words]. *)
Definition is_always_safe_command_words (ws : list str) : bool := safe_by (matches_one_of ALWAYS_SAFE_COMMANDS) ws.

(** Source: crates/codegen/xai-grok-workspace/src/permission/grants.rs:438-457, [is_dangerous_command_words]. *)
Definition is_dangerous_command_words (ws : list str) : bool :=
  match normalized_command_head ws with
  | None => false
  | Some h =>
      let joined := if Nat.eqb (length ws) 1 then h else h ++ lit " " ++ join (lit " ") (drop 1 ws) in
      matches_one_of ["rm"; "chmod"; "chown"; "chgrp"; "chattr"; "pkill"; "kill"; "killall"; "git push"] joined
  end.

(** Source: crates/codegen/xai-grok-workspace/src/permission/grants.rs:462-464, [matches_whitelist_prefix]. *)
Definition matches_whitelist_prefix (segment allowed_prefix : str) : bool := matches_command_prefix segment allowed_prefix.

(** ** Scopes *)

(** Source: crates/codegen/xai-grok-workspace/src/permission/grants.rs:357-362, [always_allow_scope_pinned]. *)
Definition always_allow_scope_pinned (ws : list str) : bool :=
  is_dangerous_command_words ws || head_is_exec_vehicle ws || head_is "sed" ws.

(** Source: crates/codegen/xai-grok-workspace/src/permission/grants.rs:385-393, [gh_always_allow_scope]. *)
Definition gh_always_allow_scope (ws : list str) : option nat :=
  if head_is "gh" ws then
    Some (match ws !! 1, ws !! 2 with
          | Some group, Some verb =>
              if negb (starts_with dash group) && negb (starts_with dash verb) then 3 else length ws
          | _, _ => length ws
          end)
  else None.

(** The flags that follow the first [n] words. *)
Definition flags_after (n : nat) (ws : list str) : nat :=
  length (drop n ws) - length (drop_while (starts_with dash) (drop n ws)).

(** Source: crates/codegen/xai-grok-workspace/src/permission/grants.rs:406-424, [base_scope]. *)
Definition base_scope (ws : list str) : nat :=
  let safe := is_safe_command_words ws in
  let n := length ws `min` 2 in
  if safe && match ws with w :: _ => is_safe_command_words_str w | [] => false end then 1
  else if safe && Nat.leb 2 (length ws) && is_safe_command_words_str (join (lit " ") (take 2 ws)) then 2
  else n + flags_after n ws.

(** Source: crates/codegen/xai-grok-workspace/src/permission/grants.rs:366-380, [default_always_allow_scope]. *)
Definition default_always_allow_scope (ws : list str) : nat :=
  if is_empty ws then 0
  else if always_allow_scope_pinned ws then length ws
  else match gh_always_allow_scope ws with Some n => n | None => base_scope ws end.

(** Source: crates/codegen/xai-grok-workspace/src/permission/grants.rs:398-403, [default_always_deny_scope]. *)
Definition default_always_deny_scope (ws : list str) : nat := if is_empty ws then 0 else base_scope ws.

(** Source: crates/codegen/xai-grok-workspace/src/permission/grants.rs:428-434, [minimum_always_allow_scope]. *)
Definition minimum_always_allow_scope (ws : list str) : nat :=
  if always_allow_scope_pinned ws then length ws else default 1 (gh_always_allow_scope ws).

(** ** Facts of a shell request *)

(** Source: crates/codegen/xai-grok-workspace/src/permission/grants.rs:474-488, [SegmentEvaluation]. *)
Inductive SegmentEvaluation :=
  | SegAutoAllow (via_session_grant : bool)
  | SegReject (reason : str)
  | SegNeedsPrompts (segments : list str)
  | SegUnparseable.

(** Source: crates/codegen/xai-grok-workspace/src/permission/grants.rs:492-509, [BashEvaluation]. *)
Record BashEvaluation := mkEvaluation {
  ev_segments : SegmentEvaluation;
  exact_grant : bool;
  all_segments_granted : bool;
  assessment : BashSecurityAssessment;
  redirect_write : bool;
  ambient_segments : option (list (list str));
  protected_paths : list str;
  has_cwd_change : bool
}.

(** Source: crates/codegen/xai-grok-workspace/src/permission/grants.rs:511-515, [unparseable_exec_risk]. *)
Definition unparseable_exec_risk (cmd : str) : bool := script_may_invoke_git cmd.

(** Source: crates/codegen/xai-grok-workspace/src/permission/grants.rs:518-524, [env_risk_finding]. *)
Definition env_risk_finding (r : EnvRisk) : option ClassifierSecurityFinding :=
  match r with EnvInjects => Some EnvInjection | EnvUnvetted => Some UnvettedEnv | EnvSafe => None end.

(** The reason of a remembered denial. *)
Definition user_rejected (key : str) : str := lit "User previously rejected `" ++ key ++ lit "` in this project".

(** Source: crates/codegen/xai-grok-workspace/src/permission/grants.rs:834-838, [BashGrantOpts]. *)
Record BashGrantOpts := mkOpts { honor_safe_lists : bool; allow_blanket : bool; conservative_blanket : bool }.

(** Source: crates/codegen/xai-grok-workspace/src/permission/grants.rs:841-845, [BashGrantOpts::PRE_CLASSIFIER]. *)
Definition PRE_CLASSIFIER : BashGrantOpts := mkOpts true true true.
(** Source: crates/codegen/xai-grok-workspace/src/permission/grants.rs:846-850, [BashGrantOpts::ASK_FLOOR_REMEMBER]. *)
Definition ASK_FLOOR_REMEMBER : BashGrantOpts := mkOpts false false false.
(** Source: crates/codegen/xai-grok-workspace/src/permission/grants.rs:851-857, [BashGrantOpts::post_classify]. *)
Definition post_classify (auto_forced_prompt : bool) : BashGrantOpts := mkOpts true (negb auto_forced_prompt) false.

(** Source: crates/codegen/xai-grok-workspace/src/permission/reasons.rs:15-15, [SESSION_GRANT]. *)
Definition SESSION_GRANT : str := lit "session_grant".
(** Source: crates/codegen/xai-grok-workspace/src/permission/reasons.rs:16-16, [STATIC_ALLOWLIST]. *)
Definition STATIC_ALLOWLIST : str := lit "static_allowlist".
(** Source: crates/codegen/xai-grok-workspace/src/permission/reasons.rs:17-17, [SAFE_COMMAND]. *)
Definition SAFE_COMMAND : str := lit "safe_command".
(** Source: crates/codegen/xai-grok-workspace/src/permission/reasons.rs:18-18, [SESSION_DENY]. *)
Definition SESSION_DENY : str := lit "session_deny".

(** Source: crates/codegen/xai-grok-workspace/src/permission/grants.rs:828-830, [bash_request_floor_requires_prompt]. *)
Definition bash_request_floor_requires_prompt (evaluation : option BashEvaluation) : bool :=
  match evaluation with
  | Some e => negb (exact_grant e) && constrains_broad_grant (assessment e)
  | None => false
  end.

(** [yolo_pin.is_none()] is [unpinned].

    Source: crates/codegen/xai-grok-workspace/src/permission/grants.rs:759-765, [persisted_bash_auto_allows]. *)
Definition persisted_bash_auto_allows (state : PermissionState) (cmd : str) (yolo_pin : option str) : bool :=
  (allow_bash_execute state && match yolo_pin with None => true | Some _ => false end)
  || bool_decide (cmd ∈ allowed_bash_commands state).

(** Source: crates/codegen/xai-grok-workspace/src/permission/grants.rs:860-862, [grant_allow]. *)
Definition grant_allow (reason : str) : option (Decision * str) := Some (Allow, reason).

(** [b.then_some(..)] of an allow on a grant. *)
Definition allow_if (b : bool) : option (Decision * str) := if b then grant_allow SESSION_GRANT else None.

(** Source: crates/codegen/xai-grok-workspace/src/permission/grants.rs:864-922, [bash_grant_pre_decision]. *)
Definition bash_grant_pre_decision (cmd : str) (evaluation : BashEvaluation) (state : PermissionState)
    (yolo_pin : option str) (opts : BashGrantOpts) : option (Decision * str) :=
  match ev_segments evaluation with
  | SegReject reason => Some (Reject reason, SESSION_DENY)
  | segments =>
      if bash_request_floor_requires_prompt (Some evaluation) then None
      else
        match segments with
        | SegReject _ => None
        | SegAutoAllow via_session_grant =>
            if negb (honor_safe_lists opts) && negb (all_segments_granted evaluation) then None
            else grant_allow (if via_session_grant then SESSION_GRANT else SAFE_COMMAND)
        | SegNeedsPrompts _ =>
            if negb (allow_blanket opts) then None
            else if conservative_blanket opts && contains_finding DangerousCommand (assessment evaluation) then
              allow_if (exact_grant evaluation)
            else allow_if (persisted_bash_auto_allows state cmd yolo_pin)
        | SegUnparseable =>
            if negb (allow_blanket opts) then None
            else allow_if (if conservative_blanket opts then exact_grant evaluation
                           else persisted_bash_auto_allows state cmd yolo_pin)
        end
  end.

Section Grants.
Context {Value Pattern : Type} (glob_new : str -> option Pattern)
  (glob_matches_with : Pattern -> bool -> str -> bool) (parser : str -> option Tree).
Context `{HashOrder}.

(** [set.iter().any(f)] and [set.iter().find(f)]. *)
Definition any_of (f : str -> bool) (s : gset str) : bool := existsb f (set_iter s).
Definition find_of (f : str -> bool) (s : gset str) : option str := head (List.filter f (set_iter s)).

(** Source: crates/codegen/xai-grok-workspace/src/permission/grants.rs:468-470, [matches_bash_glob]. *)
Definition matches_bash_glob (segment p : str) : bool := bash_pattern_matches_command glob_new glob_matches_with p segment.

(** Source: crates/codegen/xai-grok-workspace/src/permission/grants.rs:529-537, [raw_deny_rejection]. *)
Definition raw_deny_rejection (cmd : str) (state : PermissionState) : option SegmentEvaluation :=
  d ← find_of (matches_whitelist_prefix cmd) (disallowed_bash_commands state);
  Some (SegReject (user_rejected d)).

(** Source: crates/codegen/xai-grok-workspace/src/permission/grants/bash_grants.rs:25-33, [words_join_unambiguously]. *)
Definition words_join_unambiguously (ws : list str) : bool :=
  let joined := join (lit " ") ws in
  match all_commands_from_script parser joined with
  | Some [only] => spans_whole_script only joined && bool_decide (words only = ws)
  | _ => false
  end.

(** Source: crates/codegen/xai-grok-workspace/src/permission/grants/bash_grants.rs:38-52, [whole_script_grant]. *)
Definition whole_script_grant (cmd : str) (segments : list PlainCommand) (state : PermissionState) : bool :=
  bool_decide (cmd ∈ allowed_bash_commands state)
  || match segments with
     | [only] => spans_whole_script only cmd && words_join_unambiguously (words only)
                 && bool_decide (join (lit " ") (words only) ∈ allowed_bash_commands state)
     | _ => false
     end.

(** *** The loop over the segments *)

(** What the loop carries: the segments to ask about, whether a grant was used,
    whether all segments are granted, whether options run code, whether [git] runs, the
    raw words and the findings. *)
Record SegState := mkSegState {
  needs_prompt : list str;
  via_grant : bool;
  all_granted : bool;
  seg_exec_risk : bool;
  has_git_command : bool;
  ambient_raw : list (list str);
  findings : BashSecurityAssessment
}.

(** A segment that a grant covers: a pinned one by its exact text only.

    Source: crates/codegen/xai-grok-workspace/src/permission/grants.rs:668-680, [evaluate_bash]. *)
Definition matched_grant (state : PermissionState) (ws : list str) : bool :=
  let s := join (lit " ") ws in
  (if always_allow_scope_pinned ws then bool_decide (s ∈ allowed_bash_commands state)
   else any_of (matches_whitelist_prefix s) (allowed_bash_commands state))
  || any_of (matches_bash_glob s) (allowed_bash_globs state).

(** The variants that a prefix does not cover.

    Source: crates/codegen/xai-grok-workspace/src/permission/grants.rs:692-696, [evaluate_bash]. *)
Definition special_surface (state : PermissionState) (ws : list str) : bool :=
  (kubectl_has_unsafe_flag ws || rg_has_unsafe_flag ws || ps_dumps_environment ws || git_words_have_unsafe_query_option ws)
  && negb (bool_decide (join (lit " ") ws ∈ allowed_bash_commands state)).

(** Source: crates/codegen/xai-grok-workspace/src/permission/grants.rs:704-707, [evaluate_bash]. *)
Definition matched_safe (honor : bool) (ws : list str) : bool :=
  honor && (is_safe_command_words ws || is_always_safe_command_words ws || is_safe_creation_command ws).

(** What is read off the words before the segment is judged.

    Source: crates/codegen/xai-grok-workspace/src/permission/grants.rs:622-639, [evaluate_bash]. *)
Definition segment_facts (raw : list str) (st : SegState) : SegState :=
  let ws := unwrap_wrappers raw in
  let facts := segment_exec_facts raw in
  mkSegState (needs_prompt st) (via_grant st) (all_granted st) (seg_exec_risk st || exec_risk facts)
    (has_git_command st || has_git facts) (ambient_raw st ++ [raw])
    (insert_if (exec_risk facts) ExecOrAmbientGit
       (insert_if (words_are_opaque_shell (map WLiteral ws)) OpaqueShell (findings st))).

(** The judgement of a segment that nothing denies.

    Source: crates/codegen/xai-grok-workspace/src/permission/grants.rs:665-716, [evaluate_bash]. *)
Definition segment_judged (state : PermissionState) (honor : bool) (ws : list str) (st : SegState) : SegState :=
  let s := join (lit " ") ws in
  let granted := matched_grant state ws in
  let ask finding :=
    mkSegState (needs_prompt st ++ [s]) (via_grant st) (all_granted st && granted) (seg_exec_risk st)
      (has_git_command st) (ambient_raw st) (match finding with Some f => insert_finding f (findings st) | None => findings st end) in
  if is_dangerous_command_words ws then ask (Some DangerousCommand)
  else if special_surface state ws then ask (Some SpecialExecSurface)
  else if granted || matched_safe honor ws then
    mkSegState (needs_prompt st) (via_grant st || granted) (all_granted st && granted) (seg_exec_risk st)
      (has_git_command st) (ambient_raw st) (findings st)
  else ask None.

(** The loop; a denied segment ends it with the key that denies it.

    Source: crates/codegen/xai-grok-workspace/src/permission/grants.rs:615-717, [evaluate_bash]. *)
Fixpoint segment_loop (state : PermissionState) (honor : bool) (segments : list PlainCommand) (st : SegState) :
    SegState + (SegState * str) :=
  match segments with
  | [] => inl st
  | parsed :: rest =>
      let ws := unwrap_wrappers (words parsed) in
      let st := segment_facts (words parsed) st in
      if is_setup_command ws then segment_loop state honor rest st
      else
        match find_of (matches_whitelist_prefix (join (lit " ") ws)) (disallowed_bash_commands state) with
        | Some d => inr (st, d)
        | None => segment_loop state honor rest (segment_judged state honor ws st)
        end
  end.

(** The findings of the whole script: a write to a real file, its environment.

    Source: crates/codegen/xai-grok-workspace/src/permission/grants.rs:566-592, [evaluate_bash]. *)
Definition script_findings (tree : Tree) (cmd : str) (segments : option (list PlainCommand)) : BashSecurityAssessment :=
  let writes := command_write_paths_split (root_node tree) cmd in
  let unsafe_in := existsb (fun path => negb (is_safe_write_sink path)) in
  let with_writes :=
    insert_if (unextracted_write_redirect writes || unsafe_in (redirect_paths writes) || unsafe_in (word_paths writes))
      FileWrite [] in
  match env_risk_finding (script_env_risk (root_node tree) cmd (default [] segments)) with
  | Some f => insert_finding f with_writes
  | None => with_writes
  end.

(** A script that is not decomposed.

    Source: crates/codegen/xai-grok-workspace/src/permission/grants.rs:593-612, [evaluate_bash]. *)
Definition unparseable_evaluation (cmd : str) (state : PermissionState) (a : BashSecurityAssessment)
    (paths : list str) (cwd_change : bool) : BashEvaluation :=
  mkEvaluation (default SegUnparseable (raw_deny_rejection cmd state)) (bool_decide (cmd ∈ allowed_bash_commands state))
    false (insert_if (unparseable_exec_risk cmd) ExecOrAmbientGit a) true None paths cwd_change.

(** Source: crates/codegen/xai-grok-workspace/src/permission/grants.rs:541-740, [evaluate_bash]. *)
Definition evaluate_bash (cmd : str) (state : PermissionState) (honor_safe_lists : bool) : BashEvaluation :=
  match parser cmd with
  | None => unparseable_evaluation cmd state [UnparseableShell] [] false
  | Some tree =>
      let writes := command_write_paths_split (root_node tree) cmd in
      let cwd_change := script_has_cwd_change (root_node tree) cmd in
      let redirect_write :=
        unextracted_write_redirect writes || existsb (fun path => negb (is_safe_write_sink path)) (redirect_paths writes) in
      let paths := creation_paths writes ++ word_paths writes ++ redirect_paths writes in
      let segments := try_parse_word_only_commands_sequence tree cmd in
      let a := script_findings tree cmd segments in
      match segments with
      | None =>
          unparseable_evaluation cmd state
            (insert_if (tree_has_opaque_shell (root_node tree) cmd) OpaqueShell (insert_finding UnparseableShell a))
            paths cwd_change
      | Some segments =>
          let exact := whole_script_grant cmd segments state in
          match segment_loop state honor_safe_lists segments (mkSegState [] false true false false [] a) with
          | inr (st, d) =>
              mkEvaluation (SegReject (user_rejected d)) exact (all_granted st) (findings st) redirect_write None [] false
          | inl st =>
              mkEvaluation
                (if is_empty (needs_prompt st) then SegAutoAllow (via_grant st) else SegNeedsPrompts (needs_prompt st))
                exact (all_granted st) (findings st) redirect_write
                (if has_git_command st && negb (seg_exec_risk st) then Some (ambient_raw st) else None)
                paths cwd_change
          end
      end
  end.

(** Source: crates/codegen/xai-grok-workspace/src/permission/grants.rs:769-783, [evaluate_bash_with_ambient]. *)
Definition evaluate_bash_with_ambient `{GitConfig} (cmd : str) (state : PermissionState) (cwd : str) : BashEvaluation :=
  let e := evaluate_bash cmd state true in
  let risk := match ambient_segments e with
              | Some raw => ambient_exec_risk_from_plan (ambient_scan_plan_from_segments raw cwd)
              | None => false
              end in
  mkEvaluation (ev_segments e) (exact_grant e) (all_segments_granted e) (insert_if risk ExecOrAmbientGit (assessment e))
    (redirect_write e) None (protected_paths e) (has_cwd_change e).

(** The first path of the evaluation that is protected, each resolved.

    Source: crates/codegen/xai-grok-workspace/src/permission/grants.rs:788-824, [protected_target]. *)
Definition protected_target `{EditWorld} (tilde : str -> str) (access : AccessKind Value)
    (bash_evaluation : option BashEvaluation) (cwd : str) (path_context : option RequestPathContext) :
    option ProtectedEditReason :=
  let resolve path :=
    match path_context with
    | Some context => resolve_model_path tilde (real_cwd context) (display_cwd context) path
    | None => resolve_model_path tilde cwd None path
    end in
  match access with
  | Edit path => edit_target_protection (resolve path)
  | Bash _ =>
      e ← bash_evaluation;
      if has_cwd_change e && existsb (fun p => negb (is_absolute p)) (protected_paths e) then Some Sensitive
      else head (omap (fun path => edit_target_protection (resolve path)) (protected_paths e))
  | _ => None
  end.

(** *** What the prompt stores for a script *)

(** Source: crates/codegen/xai-grok-workspace/src/permission/grants/bash_grants.rs:13-21, [always_allow_scope_persists]. *)
Definition always_allow_scope_persists (h : BashCommandHighlights) (n : nat) : bool :=
  let ws := highlighted_words h in
  if Nat.eqb n 0 || Nat.ltb (length ws) n || Nat.ltb n (minimum_always_allow_scope ws) then false
  else words_join_unambiguously (take n ws) || (Nat.eqb n (length ws) && is_empty (hl_prefix h) && is_empty (hl_suffix h)).

(** Source: crates/codegen/xai-grok-workspace/src/permission/grants/bash_grants.rs:58-58, [bash_grant_segments]. *)
Definition MAX_SEGMENT_GRANTS : nat := 5.

(** Source: crates/codegen/xai-grok-workspace/src/permission/grants/bash_grants.rs:65-76, [bash_grant_segments]. *)
Definition segment_grant (c : PlainCommand) : option str :=
  let ws := unwrap_wrappers (words c) in
  if negb (is_empty ws) && negb (is_setup_command ws) && negb (is_dangerous_command_words ws)
     && negb (head_is_exec_vehicle ws) && words_join_unambiguously ws
  then Some (join (lit " ") ws) else None.

(** Source: crates/codegen/xai-grok-workspace/src/permission/grants/bash_grants.rs:56-81, [bash_grant_segments]. *)
Definition bash_grant_segments (cmd : str) : list str :=
  match all_commands_from_script parser cmd with
  | None => []
  | Some segments =>
      let grants := omap segment_grant segments in
      if Nat.ltb MAX_SEGMENT_GRANTS (length grants) then [] else grants
  end.

(** The label is the join of a prefix of the primary command, at or above the floor.

    Source: crates/codegen/xai-grok-workspace/src/permission/grants/bash_grants.rs:95-99, [persist_bash_always_allow]. *)
Definition labeled_words_verified (ws : list str) (prefix : str) : bool :=
  existsb (fun n => words_join_unambiguously (take n ws) && str_eqb (join (lit " ") (take n ws)) prefix)
    (seq (minimum_always_allow_scope ws) (S (length ws) - minimum_always_allow_scope ws)).

(** Source: crates/codegen/xai-grok-workspace/src/permission/grants/bash_grants.rs:85-110, [persist_bash_always_allow]. *)
Definition persist_bash_always_allow (state : PermissionState) (cmd prefix : str) : PermissionState :=
  match primary_command_from_script parser cmd with
  | None => state
  | Some h =>
      let ws := highlighted_words h in
      if labeled_words_verified ws prefix then allow_bash {[prefix]} state
      else if is_empty (hl_prefix h) && is_empty (hl_suffix h) && str_eqb (join (lit " ") ws) prefix
      then allow_bash {[cmd]} state
      else state
  end.

(** Source: crates/codegen/xai-grok-workspace/src/permission/grants/bash_grants.rs:114-130, [bash_glob_covers_script]. *)
Definition bash_glob_covers_script (cmd p : str) : bool :=
  if bash_glob_is_catchall (Value := Value) glob_new glob_matches_with p then false
  else
    match all_commands_from_script parser cmd with
    | None => matches_bash_glob cmd p
    | Some segments =>
        existsb (fun seg => let ws := unwrap_wrappers (words seg) in
                            negb (is_empty ws) && negb (is_setup_command ws) && matches_bash_glob (join (lit " ") ws) p)
          segments
    end.

(** Source: crates/codegen/xai-grok-workspace/src/permission/grants/bash_grants.rs:134-162, [always_allow_row_is_effective]. *)
Definition always_allow_row_is_effective (cmd : str) : bool :=
  match primary_command_from_script parser cmd with
  | None => false
  | Some h =>
      let scope := default_always_allow_scope (highlighted_words h) in
      if negb (always_allow_scope_persists h scope) then false
      else
        let scratch :=
          persist_bash_always_allow permission_state_default cmd (join (lit " ") (take scope (highlighted_words h))) in
        match bash_grant_pre_decision cmd (evaluate_bash cmd scratch true) scratch None PRE_CLASSIFIER with
        | Some (Allow, _) => true
        | _ => false
        end
  end.

(** *** MCP tools and fetches *)

(** Source: crates/codegen/xai-grok-workspace/src/permission/grants.rs:46-49, [mcp_server_prefix_allowed]. *)
Definition mcp_server_prefix_allowed (name : str) (servers : gset str) : bool :=
  negb (bool_decide (servers = ∅))
  && match parse_mcp_qualified_name name with Some (_, server, _) => bool_decide (server ∈ servers) | None => false end.

(** Source: crates/codegen/xai-grok-workspace/src/permission/grants.rs:53-86, [mcp_pre_decision]. *)
Definition mcp_pre_decision (name : str) (state : PermissionState) (policy_forced_prompt remember_tool_approvals : bool) :
    option Decision :=
  if bool_decide (name ∈ disallowed_mcp_tools state) then Some (Reject (user_rejected name))
  else if policy_forced_prompt && negb remember_tool_approvals then None
  else if bool_decide (name ∈ allowed_mcp_tools state) then Some Allow
  else if mcp_server_prefix_allowed name (allowed_mcp_servers state) then Some Allow
  else None.

Context (to_lowercase : str -> str) `{Urls}.

(** Source: crates/codegen/xai-grok-workspace/src/permission/grants.rs:89-91, [web_fetch_deny_key]. *)
Definition web_fetch_deny_key (host : str) : str := to_lowercase (trim_end_char (byte 46) (trim host)).

(** Source: crates/codegen/xai-grok-workspace/src/permission/grants.rs:94-97, [web_fetch_deny_key_from_url]. *)
Definition web_fetch_deny_key_from_url (url : str) : option str :=
  u ← url_parse url;
  h ← host_str u;
  let key := web_fetch_deny_key h in
  if is_empty key then None else Some key.

(** Source: crates/codegen/xai-grok-workspace/src/permission/grants.rs:107-115, [denied_web_fetch_domain]. *)
Definition domain_is_denied_by (domain denied : str) : bool :=
  negb (is_empty denied)
  && (str_eqb domain denied
      || (Nat.ltb (length denied + 1) (length domain) && ends_with denied domain
          && bool_decide (domain !! (length domain - length denied - 1) = Some (byte 46)))).

(** Source: crates/codegen/xai-grok-workspace/src/permission/grants.rs:101-117, [denied_web_fetch_domain]. *)
Definition denied_web_fetch_domain (host : str) (disallowed : gset str) : option str :=
  if bool_decide (disallowed = ∅) then None
  else find_of (domain_is_denied_by (web_fetch_deny_key host)) disallowed.

(** Source: crates/codegen/xai-grok-workspace/src/permission/grants.rs:121-136, [web_fetch_deny_pre_decision]. *)
Definition web_fetch_deny_pre_decision (parsed_url : Url) (state : PermissionState) : option Decision :=
  h ← host_str parsed_url;
  denied ← denied_web_fetch_domain h (disallowed_web_fetch_domains state);
  Some (Reject (user_rejected denied)).

(** *** One decision before anyone is asked *)

(** Source: crates/codegen/xai-grok-workspace/src/permission/grants.rs:925-975, [session_grant_pre_decision]. *)
Definition session_grant_pre_decision (access : AccessKind Value) (bash_evaluation : option BashEvaluation)
    (state : PermissionState) (allow_edits_for_session : bool) (static_domain_matcher : option DomainMatcher)
    (yolo_pin : option str) : option (Decision * str) :=
  match access with
  | MCPTool name _ =>
      d ← mcp_pre_decision name state false false;
      Some (d, match d with Reject _ => SESSION_DENY | _ => SESSION_GRANT end)
  | WebFetch url =>
      parsed_url ← url_parse url;
      match web_fetch_deny_pre_decision parsed_url state with
      | Some reject => Some (reject, SESSION_DENY)
      | None =>
          if match static_domain_matcher with
             | Some matcher => bool_decide (domain_matcher_check to_lowercase matcher parsed_url = None)
             | None => false
             end then grant_allow STATIC_ALLOWLIST
          else
            h ← host_str parsed_url;
            if bool_decide (normalize_domain to_lowercase h ∈ allowed_web_fetch_domains state)
            then grant_allow SESSION_GRANT else None
      end
  | Edit _ => if allow_edits_for_session then grant_allow SESSION_GRANT else None
  | Bash cmd => e ← bash_evaluation; bash_grant_pre_decision cmd e state yolo_pin PRE_CLASSIFIER
  | _ => None
  end.

(** The new state, and the key recorded.

    Source: crates/codegen/xai-grok-workspace/src/permission/grants.rs:981-1060, [record_prompt_outcome]. *)
Definition record_prompt_outcome (state : PermissionState) (access : AccessKind Value) (outcome : PromptOutcome) :
    PermissionState * option str :=
  match access, outcome with
  | Bash cmd, AllowAlways => (allow_bash (list_to_set (bash_grant_segments cmd)) (allow_bash {[cmd]} state), Some cmd)
  | Bash cmd, AllowAlwaysBashCommand prefix => (persist_bash_always_allow state cmd prefix, Some prefix)
  | Bash cmd, AllowAlwaysBashGlob p =>
      if negb (bash_glob_covers_script cmd p) then (state, None) else (allow_glob p state, Some p)
  | Bash _, RejectAlwaysBashCommand prefix => (deny_bash prefix state, Some prefix)
  | MCPTool name _, AllowAlways => (allow_mcp_tool name state, Some name)
  | MCPTool name _, AllowAlwaysMcpTool _ => (allow_mcp_tool name state, Some name)
  | MCPTool name _, AllowAlwaysMcpServer server_prefix =>
      match parse_mcp_qualified_name name with
      | Some (_, server, _) =>
          if str_eqb server server_prefix then (allow_mcp_server server state, Some server)
          else (allow_mcp_tool name state, Some name)
      | None => (allow_mcp_tool name state, Some name)
      end
  | MCPTool name _, RejectAlwaysMcpTool _ => (deny_mcp_tool name state, Some name)
  | WebFetch url, AllowAlwaysDomain _ =>
      match domain_from_url to_lowercase url with
      | Some domain => (allow_domain domain state, Some domain)
      | None => (state, None)
      end
  | WebFetch url, RejectAlwaysDomain _ =>
      match web_fetch_deny_key_from_url url with
      | Some domain => (deny_domain domain state, Some domain)
      | None => (state, None)
      end
  | _, _ => (state, None)
  end.

End Grants.
