(* ===== verification/GrantsSpec.v ===== *)
(** * Permission grants: what they decide

    Which shell requests the stored grants let pass before anyone is asked, and
    which they reject; that nothing but what the prompt showed is stored, and that a
    stored answer replays; the keys grants are stored under. *)

From S2P Require Export Grants.

(** ** Keys *)

Lemma boundaries_ge i name b : b ∈ boundaries i name -> i ≤ b.
Proof.
  revert i. induction name as [|c name IH]; intros i; cbn [boundaries]; [by intros ?%elem_of_nil|].
  destruct (starts_with _ _); [intros [->|Hb]%elem_of_cons; [lia|]|intros Hb]; apply IH in Hb; lia.
Qed.

(** A boundary is where the delimiter occurs. *)
Lemma boundaries_spec i name b :
  b ∈ boundaries i name <-> ∃ server tool, name = server ++ MCP_TOOL_NAME_DELIMITER ++ tool ∧ b = i + length server.
Proof.
  revert i. induction name as [|c name IH]; intros i; cbn [boundaries].
  { split; [by intros ?%elem_of_nil|]. intros ([|] & tool & Hn & _); discriminate Hn. }
  assert (Hstep : b ∈ boundaries (S i) name <->
            ∃ server tool, c :: name = (c :: server) ++ MCP_TOOL_NAME_DELIMITER ++ tool ∧ b = i + length (c :: server)).
  { rewrite IH. split; intros (server & tool & Hn & ->); exists server, tool; cbn [length] in *; split; try lia.
    - cbn [app]. by f_equal.
    - by injection Hn as ->. }
  destruct (starts_with MCP_TOOL_NAME_DELIMITER (c :: name)) eqn:Es.
  - rewrite elem_of_cons, Hstep. apply starts_with_spec in Es as [tool Et]. split.
    + intros [->|(server & tool' & Hn & Hb)]; [exists [], tool; cbn [length]; split; [exact Et|lia]|by exists (c :: server), tool'].
    + intros ([|d server] & tool' & Hn & ->); cbn [length]; [left; lia|right].
      assert (d = c) as -> by (cbn [app] in Hn; congruence). exists server, tool'. split; [exact Hn|done].
  - rewrite Hstep. split; [intros (server & tool' & Hn & Hb); by exists (c :: server), tool'|].
    intros ([|d server] & tool' & Hn & ->).
    + exfalso. cbn [app] in Hn. assert (starts_with MCP_TOOL_NAME_DELIMITER (c :: name) = true) by (apply starts_with_spec; by exists tool').
      congruence.
    + assert (d = c) as -> by (cbn [app] in Hn; congruence). exists server, tool'. split; [exact Hn|done].
Qed.

Lemma boundaries_nodup i name : NoDup (boundaries i name).
Proof.
  revert i. induction name as [|c name IH]; intros i; cbn [boundaries]; [constructor|].
  destruct (starts_with _ _); [|apply IH]. constructor; [|apply IH]. intros Hb%boundaries_ge. lia.
Qed.

(** A name is that of a server's tool exactly when it is an identifier with one occurrence of the
    delimiter, between two parts that are not empty. *)
Theorem parse_mcp_qualified_name_spec name id server tool :
  parse_mcp_qualified_name name = Some (id, server, tool) <->
  id = name ∧ name = server ++ MCP_TOOL_NAME_DELIMITER ++ tool ∧ server ≠ [] ∧ tool ≠ [] ∧ tool_id_ok name = true
  ∧ ∀ server' tool', name = server' ++ MCP_TOOL_NAME_DELIMITER ++ tool' -> server' = server.
Proof.
  unfold parse_mcp_qualified_name. pose proof (boundaries_spec 0 name) as Hs. pose proof (boundaries_nodup 0 name) as Hd.
  assert (Hcut : ∀ a b : str, take (length a) (a ++ MCP_TOOL_NAME_DELIMITER ++ b) = a
            ∧ drop (length MCP_TOOL_NAME_DELIMITER) (drop (length a) (a ++ MCP_TOOL_NAME_DELIMITER ++ b)) = b).
  { intros a b. by rewrite take_app_length, !drop_app_length. }
  split.
  - destruct (boundaries 0 name) as [|b [|]]; try done.
    destruct (proj1 (Hs b) ltac:(by left)) as (a & t & Hn & ->). cbn [Nat.add].
    destruct (Hcut a t) as [Ha Ht]. rewrite <- Hn in Ha, Ht. rewrite Ha, Ht.
    destruct (is_empty a || is_empty t) eqn:Ee; [done|]. apply orb_false_iff in Ee as [Ea Et].
    destruct (tool_id_ok name); [|done]. intros Heq. injection Heq as <- <- <-. apply is_empty_false in Ea, Et.
    do 5 (split; [done|]). intros a' t' Hn'.
    pose proof (proj2 (Hs (0 + length a')) (ex_intro _ a' (ex_intro _ t' (conj Hn' eq_refl)))) as Hl.
    apply list_elem_of_singleton in Hl. rewrite Hn in Hn'. by apply app_inj_1 in Hn' as [-> _].
  - intros (-> & Hn & Ha & Ht & Hid & Hu).
    assert (Hb : boundaries 0 name = [length server]).
    { assert (Hall : ∀ b, b ∈ boundaries 0 name -> b = length server).
      { intros b (a' & t' & Hn' & ->)%Hs. by rewrite (Hu _ _ Hn'). }
      assert (Hin : length server ∈ boundaries 0 name) by (apply Hs; by exists server, tool).
      destruct (boundaries 0 name) as [|b bs]; [by apply elem_of_nil in Hin|].
      rewrite (Hall b) by (by left). destruct bs as [|b' bs]; [done|].
      apply NoDup_cons in Hd as [Hd _]. destruct Hd. rewrite (Hall b) by (by left). rewrite (Hall b') by (right; by left). by left. }
    rewrite Hb. destruct (Hcut server tool) as [Hc1 Hc2]. rewrite <- Hn in Hc1, Hc2. rewrite Hc1, Hc2.
    apply is_empty_false in Ha as ->. apply is_empty_false in Ht as ->. cbn [orb]. by rewrite Hid.
Qed.

(** ** The static allowlist *)

Section Allowlist.
Context (to_lowercase : str -> str).

Definition prefix_allows (path prefix : str) : bool :=
  str_eqb path prefix || (starts_with prefix path && bool_decide (path !! length prefix = Some (byte 47))).

(** What one entry of the allowlist says of a host and a path. *)
Definition entry_allows (raw host path : str) : bool :=
  let n := normalize_domain to_lowercase raw in
  negb (is_empty n)
  && match find (lit "/") n with
     | None => str_eqb n host
     | Some i => str_eqb (take i n) host
                 && (is_empty (trim_end_char (byte 47) (drop i n)) || prefix_allows path (trim_end_char (byte 47) (drop i n)))
     end.

Definition entries_allow (m : gmap str HostEntry) (host path : str) : bool :=
  match m !! host with
  | None => false
  | Some AnyPath => true
  | Some (PathPrefixes ps) => existsb (prefix_allows path) ps
  end.

Lemma trim_end_char_prefix c s : ∃ r, s = trim_end_char c s ++ r.
Proof.
  apply drop_while_end_prefix.
Qed.

Lemma trimmed_slash s : trim_end_char (byte 47) s ≠ lit "/".
Proof.
  unfold trim_end_char, drop_while_end. intros H. apply (f_equal (@rev _)) in H. rewrite rev_involutive in H.
  change (rev (lit "/")) with [byte 47] in H. induction (rev s) as [|c l IH]; [done|]. cbn [drop_while] in H.
  destruct (ch_eqb (byte 47) c) eqn:Ec; [by apply IH|]. injection H as -> _. discriminate Ec.
Qed.

Lemma existsb_add (f : str -> bool) x v :
  existsb f (if existsb (str_eqb x) v then v else v ++ [x]) = existsb f v || f x.
Proof.
  destruct (existsb (str_eqb x) v) eqn:Ein; [|by rewrite existsb_app; cbn [existsb]; rewrite orb_false_r].
  apply existsb_exists in Ein as (q & Hq & <-%str_eqb_eq). destruct (f x) eqn:Ef; [|by rewrite orb_false_r].
  rewrite orb_true_r. apply existsb_exists. by exists x.
Qed.

Lemma matcher_insert_allows m raw host path :
  entries_allow (matcher_insert to_lowercase m raw) host path = entries_allow m host path || entry_allows raw host path.
Proof.
  unfold matcher_insert, entry_allows. set (n := normalize_domain to_lowercase raw).
  destruct (is_empty n) eqn:En; [by rewrite orb_false_r|]. cbn [negb andb].
  assert (Hins : ∀ h e, entries_allow (<[h := e]> m) host path =
            if decide (h = host) then match e with AnyPath => true | PathPrefixes ps => existsb (prefix_allows path) ps end
            else entries_allow m host path).
  { intros h e. unfold entries_allow. destruct (decide (h = host)) as [->|Hne]; [by rewrite lookup_insert_eq|].
    by rewrite lookup_insert_ne. }
  assert (Hoff : ∀ h, h ≠ host -> str_eqb h host = false) by (intros h Hh; by apply str_eqb_false).
  destruct (find (lit "/") n) as [i|] eqn:Ef.
  - set (h := take i n). set (prefix := trim_end_char (byte 47) (drop i n)).
    assert (Hp : prefix ≠ [] -> starts_with (lit "/") prefix = true).
    { intros Hne. pose proof (find_split _ _ _ Ef) as Hs. destruct (trim_end_char_prefix (byte 47) (drop i n)) as [r Hr].
      fold prefix in Hr. assert (Hd : ∃ v, drop i n = lit "/" ++ v).
      { exists (drop (i + length (lit "/")) n). rewrite Hs at 1. pose proof (find_lt (lit "/") _ _ ltac:(done) Ef).
        rewrite drop_app, firstn_length_le by lia. rewrite drop_ge by (rewrite firstn_length_le; lia).
        replace (i - i) with 0 by lia. by rewrite drop_0. }
      destruct Hd as [v Hv]. rewrite Hv in Hr. destruct prefix as [|c p]; [done|]. change (lit "/") with [byte 47] in *.
      assert (c = byte 47) as Hc by (cbn [app] in Hr; congruence). apply starts_with_spec. exists p. by rewrite Hc. }
    assert (Hsl : str_eqb prefix (lit "/") = false) by (apply str_eqb_false, trimmed_slash).
    fold h. fold prefix. destruct (decide (h = host)) as [Eh|Hne].
    + rewrite Eh, str_eqb_refl. cbn [andb]. unfold entries_allow at 2. destruct (m !! host) as [[|v]|] eqn:Em.
      * unfold entries_allow. by rewrite Em.
      * rewrite Hsl, orb_false_r. destruct (is_empty prefix) eqn:Ee; [by rewrite Hins, decide_True, orb_true_r by done|].
        rewrite Hp, Hins, decide_True by (done || by intros Hx; rewrite Hx in Ee). apply existsb_add.
      * rewrite Hsl, orb_false_r. destruct (is_empty prefix) eqn:Ee; [by rewrite Hins, decide_True by done|].
        rewrite Hp, Hins, decide_True by (done || by intros Hx; rewrite Hx in Ee). cbn [existsb]. by rewrite orb_false_r.
    + rewrite Hoff by done. cbn [andb]. rewrite orb_false_r. rewrite Hsl, orb_false_r.
      destruct (m !! h) as [[|v]|]; [done|..]; destruct (is_empty prefix); by rewrite Hins, decide_False by done.
  - rewrite Hins. destruct (decide (n = host)) as [->|Hne]; [by rewrite str_eqb_refl, orb_true_r|].
    by rewrite Hoff, orb_false_r by done.
Qed.

(** The allowlist, folded into a table of hosts, allows what one of its entries allows: an
    entry without a path the whole host, one with a path what lies below it. *)
Theorem domain_matcher_check_spec `{Urls} raws url :
  domain_matcher_check to_lowercase (domain_matcher_new to_lowercase raws) url = None <->
  ∃ h, host_str url = Some h
    ∧ existsb (fun raw => entry_allows raw (normalize_domain to_lowercase h) (to_lowercase (url_path url))) raws = true.
Proof.
  assert (Hfold : ∀ host path, entries_allow (domain_matcher_new to_lowercase raws) host path
            = existsb (fun raw => entry_allows raw host path) raws).
  { intros host path. unfold domain_matcher_new.
    assert (Hg : ∀ m, entries_allow (fold_left (matcher_insert to_lowercase) raws m) host path
               = entries_allow m host path || existsb (fun raw => entry_allows raw host path) raws).
    { induction raws as [|raw rs IH]; intros m; cbn [fold_left existsb]; [by rewrite orb_false_r|].
      by rewrite IH, matcher_insert_allows, orb_assoc. }
    rewrite Hg. unfold entries_allow. by rewrite lookup_empty. }
  unfold domain_matcher_check. destruct (host_str url) as [h|]; [|split; [done|by intros (? & ? & _)]].
  specialize (Hfold (normalize_domain to_lowercase h) (to_lowercase (url_path url))).
  assert (Hex : (∃ h', Some h = Some h' ∧ existsb (fun raw => entry_allows raw (normalize_domain to_lowercase h')
                   (to_lowercase (url_path url))) raws = true)
                <-> entries_allow (domain_matcher_new to_lowercase raws) (normalize_domain to_lowercase h)
                      (to_lowercase (url_path url)) = true).
  { rewrite Hfold. split; [by intros (? & [= <-] & Hc)|by exists h]. }
  rewrite Hex. unfold entries_allow, prefix_allows.
  destruct (_ !! normalize_domain to_lowercase h) as [[|ps]|]; [done| |done].
  by destruct (existsb _ ps).
Qed.

End Allowlist.

(** ** Paths a model names *)

(** The length of the text bounds the rounds: what is left ends in none of the escapes. *)
Lemma strip_escapes_settles fuel s c : c ∈ ["n"; "r"; "t"]%string -> length s ≤ fuel ->
  strip_suffix (backslash :: lit c) (strip_escapes fuel s) = None.
Proof.
  intros Hc. revert s. induction fuel as [|fuel IH]; intros s Hl; cbn [strip_escapes].
  - destruct s; [|cbn in Hl; lia]. destruct (strip_suffix _ _) as [r|] eqn:E; [|done].
    apply strip_suffix_spec in E. by destruct r.
  - assert (Hgo : ∀ d r, strip_suffix (backslash :: lit d) s = Some r -> length (trim_end r) ≤ fuel).
    { intros d r Hr%strip_suffix_spec. destruct (trim_end_prefix r) as [k Hk]. apply (f_equal length) in Hr, Hk.
      rewrite length_app in Hr, Hk. cbn [length] in Hr. lia. }
    assert (H1 : ∀ r (a b : option str), Some r ∪ a ∪ b = Some r) by (by intros r [] []).
    assert (H2 : ∀ r (b : option str), None ∪ Some r ∪ b = Some r) by (by intros r []).
    destruct (strip_suffix (backslash :: lit "n") s) as [r|] eqn:En; [rewrite H1; by eapply IH, Hgo|].
    destruct (strip_suffix (backslash :: lit "r") s) as [r|] eqn:Er; [rewrite H2; by eapply IH, Hgo|].
    destruct (strip_suffix (backslash :: lit "t") s) as [r|] eqn:Et; [change (None ∪ None ∪ Some r) with (Some r); by eapply IH, Hgo|].
    change (None ∪ None ∪ None) with (@None str). cbn iota.
    by apply elem_of_cons in Hc as [->|[->|[->|[]%elem_of_nil]%elem_of_cons]%elem_of_cons].
Qed.

(** ** Findings of a request *)

Lemma contains_insert f g s : contains_finding f (insert_finding g s) = bool_decide (f = g) || contains_finding f s.
Proof.
  apply eq_true_iff_eq. by rewrite orb_true_iff, !contains_finding_spec, insert_elem, bool_decide_eq_true.
Qed.

Lemma contains_insert_if f b g s :
  contains_finding f (insert_if b g s) = (b && bool_decide (f = g)) || contains_finding f s.
Proof. destruct b; cbn [insert_if andb orb]; [apply contains_insert|done]. Qed.

Lemma constrains_iff s : constrains_broad_grant s = true <-> ∃ f, is_grant_floor f = true ∧ contains_finding f s = true.
Proof.
  unfold constrains_broad_grant. rewrite existsb_exists.
  split; intros (f & H1 & H2); exists f.
  - by rewrite contains_finding_spec, list_elem_of_In.
  - by rewrite <- list_elem_of_In, <- contains_finding_spec.
Qed.

Section Spec.
Context {Value Pattern : Type} (glob_new : str -> option Pattern)
  (glob_matches_with : Pattern -> bool -> str -> bool) (parser : str -> option Tree).
Context `{HashOrder, !HashOrderLaws}.

Abbreviation evaluate := (evaluate_bash glob_new glob_matches_with parser).
Abbreviation granted := (matched_grant glob_new glob_matches_with).
Abbreviation judged := (segment_judged glob_new glob_matches_with).
Abbreviation loop := (segment_loop glob_new glob_matches_with).

Lemma elem_of_iter (x : str) (s : gset str) : x ∈ set_iter s <-> x ∈ s.
Proof. by rewrite set_iter_perm, elem_of_elements. Qed.

Lemma any_of_spec (f : str -> bool) (s : gset str) : any_of f s = true <-> ∃ x, x ∈ s ∧ f x = true.
Proof.
  unfold any_of. rewrite existsb_exists. split; intros (x & Hx & Hf); exists x; split; try done.
  - apply elem_of_iter. by apply list_elem_of_In.
  - apply list_elem_of_In. by apply elem_of_iter.
Qed.

Lemma find_of_some (f : str -> bool) (s : gset str) x : find_of f s = Some x -> x ∈ s ∧ f x = true.
Proof.
  unfold find_of. intros Hx. apply head_Some_elem_of, list_elem_of_In, filter_In in Hx as [Hx Hf].
  split; [|done]. apply elem_of_iter. by apply list_elem_of_In.
Qed.

Lemma find_of_none (f : str -> bool) (s : gset str) : find_of f s = None <-> ∀ x, x ∈ s -> f x = false.
Proof.
  unfold find_of. split.
  - intros Hn x Hx. destruct (f x) eqn:Ef; [|done].
    assert (Hin : In x (List.filter f (set_iter s))) by (apply filter_In; split; [by apply list_elem_of_In, elem_of_iter|done]).
    by destruct (List.filter f (set_iter s)).
  - intros Hall. destruct (List.filter f (set_iter s)) as [|x l] eqn:E; [done|].
    assert (Hin : In x (List.filter f (set_iter s))) by (rewrite E; by left). apply filter_In in Hin as [Hin Hf].
    by rewrite Hall in Hf by (by apply elem_of_iter, list_elem_of_In).
Qed.

(** *** One segment *)

(** The peeled words of a segment; whether it counts; what denies it; whether it
    passes without a prompt. *)
Definition seg_words (c : PlainCommand) : list str := unwrap_wrappers (words c).
Definition seg_text (c : PlainCommand) : str := join (lit " ") (seg_words c).
Definition counts (c : PlainCommand) : Prop := is_setup_command (seg_words c) = false.
Definition denied_by (state : PermissionState) (c : PlainCommand) (d : str) : Prop :=
  counts c ∧ d ∈ disallowed_bash_commands state ∧ matches_command_prefix (seg_text c) d = true.
Definition passes (state : PermissionState) (honor : bool) (c : PlainCommand) : bool :=
  is_setup_command (seg_words c)
  || (negb (is_dangerous_command_words (seg_words c)) && negb (special_surface state (seg_words c))
      && (granted state (seg_words c) || matched_safe honor (seg_words c))).
Definition is_granted (state : PermissionState) (c : PlainCommand) : bool :=
  is_setup_command (seg_words c) || granted state (seg_words c).
Definition dangerous (c : PlainCommand) : bool :=
  negb (is_setup_command (seg_words c)) && is_dangerous_command_words (seg_words c).
Definition special (state : PermissionState) (c : PlainCommand) : bool :=
  negb (is_setup_command (seg_words c)) && negb (is_dangerous_command_words (seg_words c))
  && special_surface state (seg_words c).
Definition opaque (c : PlainCommand) : bool := words_are_opaque_shell (map WLiteral (seg_words c)).
Definition runs_code (c : PlainCommand) : bool := exec_risk (segment_exec_facts (words c)).
Definition runs_git (c : PlainCommand) : bool := has_git (segment_exec_facts (words c)).

(** What a segment adds to the findings. *)
Definition seg_finds (state : PermissionState) (c : PlainCommand) (f : ClassifierSecurityFinding) : bool :=
  match f with
  | OpaqueShell => opaque c
  | ExecOrAmbientGit => runs_code c
  | DangerousCommand => dangerous c
  | SpecialExecSurface => special state c
  | _ => false
  end.

(** A segment that is not denied, judged. *)
Definition after_segment (state : PermissionState) (honor : bool) (c : PlainCommand) (st : SegState) : SegState :=
  let st := segment_facts (words c) st in
  if is_setup_command (seg_words c) then st else judged state honor (seg_words c) st.

Lemma facts_findings c st f :
  contains_finding f (findings (segment_facts (words c) st))
  = contains_finding f (findings st) || (opaque c && bool_decide (f = OpaqueShell))
    || (runs_code c && bool_decide (f = ExecOrAmbientGit)).
Proof.
  unfold segment_facts, opaque, runs_code, seg_words. cbn [findings]. rewrite !contains_insert_if.
  generalize (words_are_opaque_shell (map WLiteral (unwrap_wrappers (words c)))) (exec_risk (segment_exec_facts (words c)))
    (contains_finding f (findings st)). by intros [] [] []; destruct f.
Qed.

Lemma facts_fields c st :
  let st' := segment_facts (words c) st in
  needs_prompt st' = needs_prompt st ∧ all_granted st' = all_granted st
  ∧ seg_exec_risk st' = seg_exec_risk st || runs_code c ∧ has_git_command st' = has_git_command st || runs_git c
  ∧ ambient_raw st' = ambient_raw st ++ [words c].
Proof.
  unfold segment_facts, runs_code, runs_git.
  cbn [needs_prompt all_granted seg_exec_risk has_git_command ambient_raw]. by repeat split.
Qed.

Lemma is_empty_snoc {A} (l : list A) x : is_empty (l ++ [x]) = false.
Proof. by destruct l. Qed.

(** The cases of a judged segment, over the answers of the tests. *)
Lemma judged_spec state honor ws st : is_setup_command ws = false ->
  let st' := judged state honor ws st in
  let d := is_dangerous_command_words ws in
  let s := special_surface state ws in
  let g := granted state ws in
  is_empty (needs_prompt st') = is_empty (needs_prompt st) && (negb d && negb s && (g || matched_safe honor ws))
  ∧ all_granted st' = all_granted st && g
  ∧ seg_exec_risk st' = seg_exec_risk st ∧ has_git_command st' = has_git_command st ∧ ambient_raw st' = ambient_raw st
  ∧ ∀ f, contains_finding f (findings st') = contains_finding f (findings st)
           || (d && bool_decide (f = DangerousCommand)) || (negb d && s && bool_decide (f = SpecialExecSurface)).
Proof.
  intros _. unfold segment_judged. generalize (is_dangerous_command_words ws) (special_surface state ws) (granted state ws)
    (matched_safe honor ws) (join (lit " ") ws). intros d s g m x.
  destruct d; [|destruct s; [|destruct g; [|destruct m]]]; cbn [negb orb andb];
    cbn [needs_prompt all_granted seg_exec_risk has_git_command ambient_raw findings];
    rewrite ?is_empty_snoc, ?andb_false_r, ?andb_true_r; do 5 (split; [done|]); intros f;
    rewrite ?contains_insert, ?orb_false_r; try done; apply orb_comm.
Qed.

Lemma after_segment_spec state honor c st :
  let st' := after_segment state honor c st in
  is_empty (needs_prompt st') = is_empty (needs_prompt st) && passes state honor c
  ∧ all_granted st' = all_granted st && is_granted state c
  ∧ seg_exec_risk st' = seg_exec_risk st || runs_code c
  ∧ has_git_command st' = has_git_command st || runs_git c
  ∧ ambient_raw st' = ambient_raw st ++ [words c]
  ∧ ∀ f, contains_finding f (findings st') = contains_finding f (findings st) || seg_finds state c f.
Proof.
  pose proof (facts_findings c st) as Hf. pose proof (facts_fields c st) as (F1 & F2 & F3 & F4 & F5).
  unfold after_segment, passes, is_granted, seg_finds, dangerous, special.
  destruct (is_setup_command (seg_words c)) eqn:Es; cbn [negb orb andb].
  - rewrite F1, F2, F3, F4, F5, !andb_true_r. do 5 (split; [reflexivity|]). intros f. rewrite Hf.
    generalize (opaque c) (runs_code c). intros [] []; destruct f; by rewrite ?orb_true_r, ?orb_false_r.
  - destruct (judged_spec state honor (seg_words c) (segment_facts (words c) st) Es) as (-> & -> & -> & -> & -> & Hj).
    rewrite F1, F2, F3, F4, F5. do 5 (split; [reflexivity|]). intros f. rewrite Hj, Hf. generalize (opaque c) (runs_code c)
      (is_dangerous_command_words (seg_words c)) (special_surface state (seg_words c)).
    intros [] [] [] []; destruct f; by rewrite ?orb_true_r, ?orb_false_r.
Qed.

(** *** The loop *)

Lemma segment_loop_step state honor c segs st :
  loop state honor (c :: segs) st =
  match (if is_setup_command (seg_words c) then None
         else find_of (matches_command_prefix (seg_text c)) (disallowed_bash_commands state)) with
  | Some d => inr (segment_facts (words c) st, d)
  | None => loop state honor segs (after_segment state honor c st)
  end.
Proof.
  cbn [segment_loop]. unfold after_segment, seg_text, seg_words.
  destruct (is_setup_command (unwrap_wrappers (words c))); [reflexivity|].
  unfold matches_whitelist_prefix. by destruct (find_of _ _).
Qed.

Definition loop_facts (state : PermissionState) (honor : bool) (segs : list PlainCommand) (st st' : SegState) : Prop :=
  is_empty (needs_prompt st') = is_empty (needs_prompt st) && forallb (passes state honor) segs
  ∧ all_granted st' = all_granted st && forallb (is_granted state) segs
  ∧ seg_exec_risk st' = seg_exec_risk st || existsb runs_code segs
  ∧ has_git_command st' = has_git_command st || existsb runs_git segs
  ∧ ambient_raw st' = ambient_raw st ++ map words segs
  ∧ ∀ f, contains_finding f (findings st') = contains_finding f (findings st) || existsb (fun c => seg_finds state c f) segs.

Lemma segment_loop_spec state honor segs st :
  match loop state honor segs st with
  | inr (_, d) => ∃ c, c ∈ segs ∧ denied_by state c d
  | inl st' => (∀ c d, c ∈ segs -> ¬ denied_by state c d) ∧ loop_facts state honor segs st st'
  end.
Proof.
  revert st. induction segs as [|c segs IH]; intros st.
  { cbn [segment_loop]. split; [by intros c d ?%elem_of_nil|]. unfold loop_facts. cbn [forallb existsb map].
    rewrite !andb_true_r, !orb_false_r, app_nil_r. do 5 (split; [done|]). intros f. by rewrite orb_false_r. }
  rewrite segment_loop_step. destruct (if is_setup_command (seg_words c) then None else _) as [d|] eqn:Ed.
  { destruct (is_setup_command (seg_words c)) eqn:Es; [done|]. apply find_of_some in Ed as [Hin Hm].
    exists c. split; [by left|]. by split. }
  assert (Hc : ∀ d, ¬ denied_by state c d).
  { intros d (Hcount & Hin & Hm). unfold counts in Hcount. rewrite Hcount in Ed.
    rewrite find_of_none in Ed. by rewrite Ed in Hm by done. }
  specialize (IH (after_segment state honor c st)).
  destruct (after_segment_spec state honor c st) as (A1 & A2 & A3 & A4 & A5 & A6).
  destruct (loop _ _ _ _) as [st'|[st' d]]; [|destruct IH as (c' & ? & ?); exists c'; split; [by right|done]].
  destruct IH as [Hn (B1 & B2 & B3 & B4 & B5 & B6)]. split; [intros c' d [->|?]%elem_of_cons; [apply Hc|by apply Hn]|].
  unfold loop_facts. cbn [forallb existsb map]. rewrite B1, B2, B3, B4, B5, A1, A2, A3, A4, A5, <- app_assoc, !andb_assoc, !orb_assoc.
  do 5 (split; [reflexivity|]). intros f. by rewrite B6, A6, orb_assoc.
Qed.

(** *** The whole request *)

(** The script needs no grant at its floor: it writes no real file and its environment is
    harmless, no segment is opaque, runs code by its options or has a special surface, and where [git]
    runs, [clean] holds. *)
Definition floor_free (state : PermissionState) (tree : Tree) (cmd : str) (segs : list PlainCommand) (clean : bool) : bool :=
  let writes := command_write_paths_split (root_node tree) cmd in
  negb (unextracted_write_redirect writes)
  && forallb is_safe_write_sink (redirect_paths writes) && forallb is_safe_write_sink (word_paths writes)
  && bool_decide (script_env_risk (root_node tree) cmd segs = EnvSafe)
  && forallb (fun c => negb (opaque c) && negb (runs_code c) && negb (special state c)) segs
  && (negb (existsb runs_git segs) || clean).

Lemma script_findings_spec tree cmd segs f :
  let writes := command_write_paths_split (root_node tree) cmd in
  let r := script_env_risk (root_node tree) cmd (default [] segs) in
  contains_finding f (script_findings tree cmd segs) =
  match f with
  | FileWrite => negb (negb (unextracted_write_redirect writes)
                       && forallb is_safe_write_sink (redirect_paths writes) && forallb is_safe_write_sink (word_paths writes))
  | EnvInjection => bool_decide (r = EnvInjects)
  | UnvettedEnv => bool_decide (r = EnvUnvetted)
  | _ => false
  end.
Proof.
  cbn zeta. unfold script_findings.
  assert (Hw : ∀ l, existsb (fun path => negb (is_safe_write_sink path)) l = negb (forallb is_safe_write_sink l))
    by (intros l; induction l as [|x l IH]; [done|]; cbn [existsb forallb]; by rewrite IH, negb_andb).
  rewrite !Hw. destruct (command_write_paths_split _ _) as [rp ur wp cp].
  cbn [unextracted_write_redirect redirect_paths word_paths].
  generalize (forallb is_safe_write_sink rp) (forallb is_safe_write_sink wp) (script_env_risk (root_node tree) cmd (default [] segs)).
  intros a b r. destruct ur, a, b, r; cbn [env_risk_finding negb orb andb insert_if]; by destruct f.
Qed.

(** A decomposed script: rejected with a key that denies one of its segments, or judged by
    all of them. *)
Lemma evaluate_decomposed cmd state honor tree segs :
  parser cmd = Some tree -> try_parse_word_only_commands_sequence tree cmd = Some segs ->
  let e := evaluate cmd state honor in
  exact_grant e = whole_script_grant parser cmd segs state
  ∧ ((∃ c d, c ∈ segs ∧ denied_by state c d ∧ ev_segments e = SegReject (user_rejected d))
     ∨ ((∀ c d, c ∈ segs -> ¬ denied_by state c d)
        ∧ (if forallb (passes state honor) segs then ∃ v, ev_segments e = SegAutoAllow v else ∃ l, ev_segments e = SegNeedsPrompts l)
        ∧ all_segments_granted e = forallb (is_granted state) segs
        ∧ ambient_segments e = (if existsb runs_git segs && negb (existsb runs_code segs) then Some (map words segs) else None)
        ∧ ∀ f, contains_finding f (assessment e)
               = contains_finding f (script_findings tree cmd (Some segs)) || existsb (fun c => seg_finds state c f) segs)).
Proof.
  intros Hp Hs e. subst e. unfold evaluate_bash. rewrite Hp, Hs.
  pose proof (segment_loop_spec state honor segs (mkSegState [] false true false false [] (script_findings tree cmd (Some segs)))) as Hl.
  destruct (loop state honor segs _) as [st|[st d]]; cbn [exact_grant ev_segments all_segments_granted ambient_segments assessment].
  - destruct Hl as [Hn (B1 & B2 & B3 & B4 & B5 & B6)].
    cbn [needs_prompt all_granted seg_exec_risk has_git_command ambient_raw findings is_empty andb orb app] in *.
    split; [done|]. right. split; [done|]. rewrite B1, B2, B3, B4, B5.
    split; [destruct (forallb _ segs); by eexists|]. by split_and!.
  - destruct Hl as (c & Hc & Hd). split; [done|]. left. by exists c, d.
Qed.

Lemma forallb_and3 {A} (f g h : A -> bool) l :
  forallb (fun x => f x && g x && h x) l = forallb f l && forallb g l && forallb h l.
Proof. induction l as [|x l IH]; [done|]; cbn [forallb]. rewrite IH. by destruct (f x), (g x), (h x), (forallb f l), (forallb g l), (forallb h l). Qed.
Lemma forallb_negb {A} (f : A -> bool) l : forallb (fun x => negb (f x)) l = negb (existsb f l).
Proof. induction l as [|x l IH]; [done|]; cbn [forallb existsb]. by rewrite IH, negb_orb. Qed.

Lemma seg_finds_any state segs f :
  existsb (fun c => seg_finds state c f) segs =
  match f with
  | OpaqueShell => existsb opaque segs
  | ExecOrAmbientGit => existsb runs_code segs
  | DangerousCommand => existsb dangerous segs
  | SpecialExecSurface => existsb (special state) segs
  | _ => false
  end.
Proof.
  assert (Hnone : ∀ l : list PlainCommand, existsb (fun _ => false) l = false) by (intros l; induction l; done).
  destruct f; cbn [seg_finds]; first [reflexivity|apply Hnone].
Qed.

(** Which findings reach the floor, over the answers of the tests. *)
Lemma floor_cases (a : BashSecurityAssessment) (w o x s k : bool) (r : EnvRisk) (d : bool) :
  (∀ f, contains_finding f a =
     (k && bool_decide (f = ExecOrAmbientGit))
     || match f with
        | FileWrite => w | EnvInjection => bool_decide (r = EnvInjects) | UnvettedEnv => bool_decide (r = EnvUnvetted)
        | OpaqueShell => o | ExecOrAmbientGit => x | DangerousCommand => d | SpecialExecSurface => s | _ => false
        end) ->
  constrains_broad_grant a = w || negb (bool_decide (r = EnvSafe)) || o || x || s || k.
Proof.
  intros Hc. apply eq_true_iff_eq. rewrite constrains_iff. split.
  - intros (f & Hf & Hin). rewrite Hc in Hin. destruct f; try discriminate Hf; revert Hin; clear;
      destruct w, o, x, s, k, r; vm_compute; intros H; (reflexivity || discriminate H).
  - intros Hor. repeat rewrite orb_true_iff in Hor. destruct Hor as [[[[[Hw|He]|Ho]|Hx]|Hs]|Hk]; subst.
    + exists FileWrite. rewrite Hc. by rewrite orb_true_r.
    + destruct r; [done|exists UnvettedEnv|exists EnvInjection]; (split; [done|]); rewrite Hc; by rewrite orb_true_r.
    + exists OpaqueShell. rewrite Hc. by rewrite orb_true_r.
    + exists ExecOrAmbientGit. rewrite Hc. by rewrite orb_true_r.
    + exists SpecialExecSurface. rewrite Hc. by rewrite orb_true_r.
    + exists ExecOrAmbientGit. rewrite Hc. by rewrite bool_decide_eq_true_2.
Qed.

(** Its floor, with the answer of the scan for [git]'s configuration. *)
Lemma evaluation_floor cmd state tree segs a clean :
  (∀ f, contains_finding f a = contains_finding f (script_findings tree cmd (Some segs)) || existsb (fun c => seg_finds state c f) segs) ->
  constrains_broad_grant (insert_if (existsb runs_git segs && negb (existsb runs_code segs) && negb clean) ExecOrAmbientGit a)
  = negb (floor_free state tree cmd segs clean).
Proof.
  intros Ha. pose proof (script_findings_spec tree cmd (Some segs)) as Hs. cbn zeta in Hs. cbn [default from_option id] in Hs.
  unfold floor_free. rewrite forallb_and3, !forallb_negb.
  set (w := negb (unextracted_write_redirect _) && _ && _) in *.
  set (r := script_env_risk (root_node tree) cmd segs) in *.
  set (k := existsb runs_git segs && negb (existsb runs_code segs) && negb clean).
  rewrite (floor_cases _ (negb w) (existsb opaque segs) (existsb runs_code segs) (existsb (special state) segs) k r
             (existsb dangerous segs)).
  - unfold k. clearbody w r.
    generalize (existsb opaque segs) (existsb runs_code segs) (existsb (special state) segs) (existsb runs_git segs) (bool_decide (r = EnvSafe)).
    intros [] [] [] [] []; by destruct w, clean.
  - intros f. rewrite contains_insert_if, Ha, Hs, seg_finds_any. f_equal. by destruct f; rewrite ?orb_false_r.
Qed.

(** ** What passes before anyone is asked *)

(** A decomposed script is covered by the state: nothing denies a segment; its floor is free, or the
    script is granted as a whole; and every segment passes, or the rest is granted - a script with a
    dangerous segment as a whole only. *)
Definition script_covered (state : PermissionState) (pin : option str) (cmd : str) (tree : Tree)
    (segs : list PlainCommand) (clean : bool) : Prop :=
  let exact := whole_script_grant parser cmd segs state in
  (∀ c d, c ∈ segs -> ¬ denied_by state c d)
  ∧ (floor_free state tree cmd segs clean = true ∨ exact = true)
  ∧ (forallb (passes state true) segs = true
     ∨ (if existsb dangerous segs then exact else persisted_bash_auto_allows state cmd pin) = true).

(** One that is not decomposed is covered by the grant of its text. *)
Definition text_covered (state : PermissionState) (cmd : str) : Prop :=
  cmd ∈ allowed_bash_commands state
  ∧ ∀ d, d ∈ disallowed_bash_commands state -> matches_command_prefix cmd d = false.

Definition covered (state : PermissionState) (pin : option str) (cmd : str) (clean : list (list str) -> bool) : Prop :=
  match parser cmd with
  | None => text_covered state cmd
  | Some tree =>
      match try_parse_word_only_commands_sequence tree cmd with
      | None => text_covered state cmd
      | Some segs => script_covered state pin cmd tree segs (clean (map words segs))
      end
  end.

Definition allows (d : option (Decision * str)) : Prop := ∃ r, d = Some (Allow, r).

Lemma allows_if b : allows (allow_if b) <-> b = true.
Proof. destruct b; split; try done; [by eexists|by intros [? ?]]. Qed.
Lemma allows_grant r : allows (grant_allow r).
Proof. by eexists. Qed.
Lemma not_allows_none : ¬ allows None.
Proof. by intros [? ?]. Qed.

Lemma raw_deny_spec cmd state :
  match raw_deny_rejection cmd state with
  | Some e => ∃ d, d ∈ disallowed_bash_commands state ∧ matches_command_prefix cmd d = true ∧ e = SegReject (user_rejected d)
  | None => ∀ d, d ∈ disallowed_bash_commands state -> matches_command_prefix cmd d = false
  end.
Proof.
  unfold raw_deny_rejection. destruct (find_of _ _) as [d|] eqn:E; cbn.
  - apply find_of_some in E as [? ?]. by exists d.
  - by apply find_of_none.
Qed.

(** The gate on an evaluation that is not a decomposition. *)
Lemma gate_text cmd state pin e :
  ev_segments e = default SegUnparseable (raw_deny_rejection cmd state) ->
  exact_grant e = bool_decide (cmd ∈ allowed_bash_commands state) ->
  allows (bash_grant_pre_decision cmd e state pin PRE_CLASSIFIER) <-> text_covered state cmd.
Proof.
  intros He Hx. unfold bash_grant_pre_decision, text_covered. rewrite He. pose proof (raw_deny_spec cmd state) as Hd.
  destruct (raw_deny_rejection cmd state) as [s|]; cbn [default from_option id].
  - destruct Hd as (d & Hin & Hm & ->). split; [by intros [? ?]|]. intros [_ Hall]. by rewrite Hall in Hm.
  - unfold bash_request_floor_requires_prompt. rewrite Hx. cbn [allow_blanket conservative_blanket PRE_CLASSIFIER negb].
    destruct (bool_decide (cmd ∈ allowed_bash_commands state)) eqn:Eb; cbn [negb andb].
    + apply bool_decide_eq_true in Eb. rewrite allows_if. by split.
    + apply bool_decide_eq_false in Eb. destruct (constrains_broad_grant _); rewrite ?allows_if;
        (split; [try (intros ?%not_allows_none; done); done|by intros [? _]]).
Qed.

(** The gate on a decomposed script; [risk] is what the scan of [git]'s configuration adds. *)
Lemma gate_script cmd state pin tree segs clean e :
  parser cmd = Some tree -> try_parse_word_only_commands_sequence tree cmd = Some segs ->
  ev_segments e = ev_segments (evaluate cmd state true) -> exact_grant e = exact_grant (evaluate cmd state true) ->
  assessment e = insert_if (existsb runs_git segs && negb (existsb runs_code segs) && negb clean) ExecOrAmbientGit
                   (assessment (evaluate cmd state true)) ->
  allows (bash_grant_pre_decision cmd e state pin PRE_CLASSIFIER) <-> script_covered state pin cmd tree segs clean.
Proof.
  intros Hp Hs He Hx Ha. destruct (evaluate_decomposed cmd state true tree segs Hp Hs) as [Hex Hcase].
  unfold script_covered. rewrite <- Hex, <- Hx. unfold bash_grant_pre_decision, bash_request_floor_requires_prompt.
  rewrite He. destruct Hcase as [(c & d & Hc & Hd & ->)|(Hn & Hseg & _ & _ & Hf)].
  { split; [by intros [? ?]|]. intros [Hall _]. by destruct (Hall c d). }
  assert (Hfloor := evaluation_floor cmd state tree segs _ clean Hf). rewrite <- Ha in Hfloor. rewrite Hfloor.
  assert (Hdan : contains_finding DangerousCommand (assessment e) = existsb dangerous segs).
  { rewrite Ha, contains_insert_if, Hf, script_findings_spec, seg_finds_any. by rewrite bool_decide_eq_false_2, andb_false_r. }
  rewrite Hdan. destruct (forallb (passes state true) segs) eqn:Epass; destruct Hseg as [v ->];
    cbn [honor_safe_lists allow_blanket conservative_blanket PRE_CLASSIFIER negb andb].
  - destruct (exact_grant e); cbn [negb andb]; [|destruct (floor_free state tree cmd segs clean); cbn [negb]].
    + split; [|intros; apply allows_grant]. intros _. split; [done|]. by split; [right|left].
    + split; [|intros; apply allows_grant]. intros _. split; [done|]. by split; left.
    + split; [by intros ?%not_allows_none|]. by intros (_ & [|] & _).
  - assert (Hgo : allows (if existsb dangerous segs then allow_if (exact_grant e)
                          else allow_if (persisted_bash_auto_allows state cmd pin))
              <-> (if existsb dangerous segs then exact_grant e else persisted_bash_auto_allows state cmd pin) = true)
      by (destruct (existsb dangerous segs); apply allows_if).
    destruct (exact_grant e) eqn:Ee; cbn [negb andb]; [|destruct (floor_free state tree cmd segs clean); cbn [negb]].
    + rewrite Hgo. split; [intros ?; split_and!; auto|by intros (_ & _ & [|])].
    + rewrite Hgo. split; [intros ?; split_and!; auto|by intros (_ & _ & [|])].
    + split; [by intros ?%not_allows_none|]. by intros (_ & [|] & _).
Qed.

(** C9 What the stored state lets a shell command do before anyone is asked, exactly. A script that
    decomposes passes when nothing denies one of its segments; when it reaches no floor - it writes no
    real file, its environment is harmless, no segment hides a shell, runs code by its options
    or has a special surface, and the configuration git would read runs none - unless it is granted as a
    whole; and when every segment is granted or safe, or the blanket grant or that of its text covers the
    rest, where a dangerous segment wants the script granted as a whole. Any other script passes on the
    grant of its very text alone. *)
Theorem grant_gate_iff `{GitConfig} cmd state cwd pin :
  allows (bash_grant_pre_decision cmd (evaluate_bash_with_ambient glob_new glob_matches_with parser cmd state cwd)
            state pin PRE_CLASSIFIER)
  <-> covered state pin cmd (fun raw => negb (ambient_exec_risk_from_plan (ambient_scan_plan_from_segments raw cwd))).
Proof.
  unfold covered. destruct (parser cmd) as [tree|] eqn:Hp;
    [destruct (try_parse_word_only_commands_sequence tree cmd) as [segs|] eqn:Hs|].
  - set (clean := negb _). destruct (evaluate_decomposed cmd state true tree segs Hp Hs) as [Hex [Hc|(_ & _ & _ & Ham & _)]].
    + destruct Hc as (c & d & Hc & Hd & Hr). unfold evaluate_bash_with_ambient, bash_grant_pre_decision.
      cbn [ev_segments]. rewrite Hr. unfold script_covered.
      split; [by intros [? ?]|]. intros [Hall _]. by destruct (Hall c d).
    + apply gate_script; [done..|]. unfold evaluate_bash_with_ambient. cbn [assessment]. rewrite Ham.
      unfold clean. destruct (existsb runs_git segs && negb (existsb runs_code segs)); [|done]. by rewrite negb_involutive.
  - apply gate_text; unfold evaluate_bash_with_ambient, evaluate_bash; rewrite Hp, Hs; done.
  - apply gate_text; unfold evaluate_bash_with_ambient, evaluate_bash; rewrite Hp; done.
Qed.

(** ** Denials *)

(** What a stored denial covers. *)
Definition denies (state : PermissionState) (tl : str -> str) `{Urls} (access : AccessKind Value) (key : str) : Prop :=
  match access with
  | Bash cmd =>
      match all_commands_from_script parser cmd with
      | Some segs => ∃ c, c ∈ segs ∧ denied_by state c key
      | None => key ∈ disallowed_bash_commands state ∧ matches_command_prefix cmd key = true
      end
  | MCPTool name _ => key = name ∧ name ∈ disallowed_mcp_tools state
  | WebFetch url =>
      key ∈ disallowed_web_fetch_domains state
      ∧ ∃ u h, url_parse url = Some u ∧ host_str u = Some h ∧ domain_is_denied_by (web_fetch_deny_key tl h) key = true
  | _ => False
  end.

Lemma bash_denial cmd state honor tl `{Urls} :
  match ev_segments (evaluate cmd state honor) with
  | SegReject r => ∃ key, denies state tl (Bash cmd) key ∧ r = user_rejected key
  | _ => ∀ key, ¬ denies state tl (Bash cmd) key
  end.
Proof.
  unfold denies, all_commands_from_script. pose proof (raw_deny_spec cmd state) as Hraw.
  assert (Htext : match default SegUnparseable (raw_deny_rejection cmd state) with
     | SegReject r => ∃ key, (key ∈ disallowed_bash_commands state ∧ matches_command_prefix cmd key = true) ∧ r = user_rejected key
     | _ => ∀ key, ¬ (key ∈ disallowed_bash_commands state ∧ matches_command_prefix cmd key = true) end).
  { destruct (raw_deny_rejection cmd state); cbn [default from_option id].
    - destruct Hraw as (d & ? & ? & ->). by exists d.
    - intros key [Hin Hm]. by rewrite Hraw in Hm. }
  destruct (parser cmd) as [tree|] eqn:Hp;
    [destruct (try_parse_word_only_commands_sequence tree cmd) as [segs|] eqn:Hs|].
  - destruct (evaluate_decomposed cmd state honor tree segs Hp Hs) as [_ [(c & d & Hc & Hd & ->)|(Hn & Hseg & _)]].
    + exists d. split; [by exists c|done].
    + assert (Hno : ∀ key, ¬ ∃ c, c ∈ segs ∧ denied_by state c key) by (intros key (c & Hc & Hd); by destruct (Hn c key)).
      by destruct (forallb _ segs), Hseg as [v ->].
  - unfold evaluate_bash. rewrite Hp, Hs. exact Htext.
  - unfold evaluate_bash. rewrite Hp. exact Htext.
Qed.

Lemma gate_rejects cmd e state pin opts :
  match bash_grant_pre_decision cmd e state pin opts with
  | Some (Reject r, reason) => ev_segments e = SegReject r ∧ reason = SESSION_DENY
  | _ => ∀ r, ev_segments e ≠ SegReject r
  end.
Proof.
  unfold bash_grant_pre_decision. generalize (bash_request_floor_requires_prompt (Some e))
    (negb (honor_safe_lists opts) && negb (all_segments_granted e)) (negb (allow_blanket opts))
    (conservative_blanket opts) (contains_finding DangerousCommand (assessment e)) (exact_grant e)
    (persisted_bash_auto_allows state cmd pin).
  intros b1 b2 b3 b4 b5 b6 b7. destruct (ev_segments e) as [v|r|l|]; [|done|..];
    destruct b1, b2, b3, b4, b5, b6, b7; cbn; done.
Qed.

Lemma web_denial state url tl `{Urls} parsed : url_parse url = Some parsed ->
  match web_fetch_deny_pre_decision tl parsed state with
  | Some d => ∃ key, denies state tl (WebFetch url) key ∧ d = Reject (user_rejected key)
  | None => ∀ key, ¬ denies state tl (WebFetch url) key
  end.
Proof.
  intros Hp. unfold web_fetch_deny_pre_decision, denied_web_fetch_domain, denies.
  destruct (host_str parsed) as [h|] eqn:Hh; cbn; [|by intros key (_ & u & h & Hu & Hh' & _); congruence].
  case_bool_decide as He; cbn; [rewrite He; by intros key [?%elem_of_empty _]|].
  destruct (find_of _ _) as [d|] eqn:Ef; cbn.
  - apply find_of_some in Ef as [Hin Hd]. exists d. split; [|done]. split; [done|]. by exists parsed, h.
  - rewrite find_of_none in Ef. intros key (Hin & u & h' & Hu & Hh' & Hd). rewrite Hu in Hp. injection Hp as ->.
    rewrite Hh in Hh'. injection Hh' as <-. by rewrite Ef in Hd.
Qed.

(** C10 A denial wins, and nothing else rejects. Whatever is granted beside it - the blanket, the
    command itself, the server of a tool, the static allowlist, the edits of the session - the
    decision from the stored state rejects a call exactly when a stored denial covers it: a shell script with
    a segment that, peeled of its wrappers as the code peels them, starts with the denied words and is no setup command ([cd],
    [pushd], [popd], [export], [unset], [set], [sleep], [timeout], or nothing: the denial of one of these covers no segment); a
    script that does not decompose and whose text starts with the denied words; a tool denied by its name; a
    fetch from the denied host or below it. The reason names that denial. *)
Theorem denials_win `{GitConfig} tl `{Urls} state access cwd edits matcher pin :
  let e := match access with
           | Bash cmd => Some (evaluate_bash_with_ambient glob_new glob_matches_with parser cmd state cwd)
           | _ => None
           end in
  match session_grant_pre_decision tl access e state edits matcher pin with
  | Some (Reject r, reason) => ∃ key, denies state tl access key ∧ r = user_rejected key ∧ reason = SESSION_DENY
  | _ => ∀ key, ¬ denies state tl access key
  end.
Proof.
  destruct access as [p|p pat|p|cmd|name v|url|q|t|n]; cbn [session_grant_pre_decision]; try (by intros key []).
  - destruct edits; cbn; by intros key [].
  - cbn [mbind option_bind]. pose proof (bash_denial cmd state true tl) as Hd.
    set (e := evaluate_bash_with_ambient _ _ _ _ _ _). pose proof (gate_rejects cmd e state pin PRE_CLASSIFIER) as Hg.
    change (ev_segments (evaluate cmd state true)) with (ev_segments e) in Hd. clearbody e.
    assert (Hno : (∀ r, ev_segments e ≠ SegReject r) -> ∀ key, ¬ denies state tl (Bash cmd) key).
    { intros Hr. destruct (ev_segments e) as [v|r|l|]; [exact Hd| |exact Hd..]. by destruct (Hr r). }
    destruct (bash_grant_pre_decision _ _ _ _ _) as [[[] ?]|]; try by apply Hno.
    destruct Hg as [Hr ->]. rewrite Hr in Hd. destruct Hd as (k & ? & ?). by exists k.
  - unfold mcp_pre_decision. case_bool_decide as Hn; cbn [andb].
    + by exists name.
    + assert (Hno : ∀ key, ¬ (key = name ∧ name ∈ disallowed_mcp_tools state)) by (intros key [_ ?]; done).
      case_bool_decide; cbn; [exact Hno|]. by destruct (mcp_server_prefix_allowed _ _).
  - destruct (url_parse url) as [u|] eqn:Hu; cbn; [|intros key (_ & u & h & Hu' & _); congruence].
    pose proof (web_denial state url tl u Hu) as Hd. destruct (web_fetch_deny_pre_decision tl u state) as [d|].
    + destruct Hd as (key & Hk & ->). by exists key.
    + assert (Hgo : match (h ← host_str u; if bool_decide (normalize_domain tl h ∈ allowed_web_fetch_domains state)
                        then grant_allow SESSION_GRANT else None) with
                   | Some (Reject r, reason) => False | _ => True end)
        by (destruct (host_str u); cbn; [by case_bool_decide|done]).
      destruct matcher as [m|]; [case_bool_decide; [exact Hd|]|];
        destruct (h ← host_str u; _) as [[[] ?]|]; done.
Qed.

(** A merge keeps the denials of both states, and adds none. *)
Theorem merged_denials tl `{Urls} a b access key :
  denies (merge_grants_from a b) tl access key <-> denies a tl access key ∨ denies b tl access key.
Proof.
  assert (Hd : ∀ c, denied_by (merge_grants_from a b) c key <-> denied_by a c key ∨ denied_by b c key).
  { intros c. unfold denied_by, merge_grants_from. cbn [disallowed_bash_commands]. rewrite elem_of_union. tauto. }
  destruct access as [p|p pat|p|cmd|name v|url|q|t|n]; cbn [denies]; try tauto.
  - destruct (all_commands_from_script parser cmd) as [segs|].
    + setoid_rewrite Hd. naive_solver.
    + unfold merge_grants_from. cbn [disallowed_bash_commands]. rewrite elem_of_union. tauto.
  - unfold merge_grants_from. cbn [disallowed_mcp_tools]. rewrite elem_of_union. tauto.
  - unfold merge_grants_from. cbn [disallowed_web_fetch_domains]. rewrite elem_of_union. tauto.
Qed.

(** ** What an answer stores *)

(** The keys an answer may store for a script: its text, the grants of its segments, or the
    words of its primary command down to the narrowest scope the prompt offers. *)
Definition derived_key (cmd k : str) : Prop :=
  k = cmd ∨ k ∈ bash_grant_segments parser cmd
  ∨ ∃ h n, primary_command_from_script parser cmd = Some h
      ∧ minimum_always_allow_scope (highlighted_words h) ≤ n ≤ length (highlighted_words h)
      ∧ words_join_unambiguously parser (take n (highlighted_words h)) = true
      ∧ k = join (lit " ") (take n (highlighted_words h)).

Lemma labeled_words_spec ws prefix :
  labeled_words_verified parser ws prefix = true <->
  ∃ n, minimum_always_allow_scope ws ≤ n ≤ length ws ∧ words_join_unambiguously parser (take n ws) = true
       ∧ prefix = join (lit " ") (take n ws).
Proof.
  unfold labeled_words_verified. rewrite existsb_exists. split.
  - intros (n & [Hl Hu]%in_seq & [Hj <-%str_eqb_eq]%andb_true_iff). exists n. split; [lia|done].
  - intros (n & Hn & Hj & ->). exists n. split; [apply in_seq; lia|]. by rewrite Hj, str_eqb_refl.
Qed.

Lemma persist_cases state cmd prefix :
  persist_bash_always_allow parser state cmd prefix = state
  ∨ ∃ k, derived_key cmd k ∧ (k = prefix ∨ k = cmd) ∧ persist_bash_always_allow parser state cmd prefix = allow_bash {[k]} state.
Proof.
  unfold persist_bash_always_allow, derived_key. destruct (primary_command_from_script parser cmd) as [h|]; [|by left].
  destruct (labeled_words_verified parser (highlighted_words h) prefix) eqn:El.
  - right. exists prefix. split; [|by split; [left|]]. apply labeled_words_spec in El as (n & Hn & Hj & Hp). right. right. by exists h, n.
  - destruct (is_empty (hl_prefix h) && is_empty (hl_suffix h) && _); [|by left].
    right. exists cmd. split; [by left|]. by split; [right|].
Qed.

Definition adds (field : PermissionState -> gset str) (s s' : PermissionState) (new : str -> Prop) : Prop :=
  field s ⊆ field s' ∧ ∀ k, k ∈ field s' -> k ∈ field s ∨ new k.

Lemma adds_same field s s' new : field s' = field s -> adds field s s' new.
Proof. unfold adds. intros ->. split; [done|by left]. Qed.
Lemma adds_key field s s' (x : str) (new : str -> Prop) : field s' = {[x]} ∪ field s -> new x -> adds field s s' new.
Proof. unfold adds. intros -> Hn. split; [set_solver|]. intros k [->%elem_of_singleton|?]%elem_of_union; [by right|by left]. Qed.

Ltac kept := first [apply adds_same; reflexivity | reflexivity | apply union_subseteq_r | idtac].

(** C11 Nothing is granted but what the prompt showed. Whatever the reply claims, the keys an answer
    adds to the grants are derived from the call that was asked about: for a script its text, its segments
    or its primary command cut no shorter than the prompt offers, and patterns that match it
    without matching everything; for a tool its name, or its server by a well-formed name; for a fetch its
    domain. A denial of a tool or a fetch is derived alike. Nothing stored is forgotten, and neither the
    blanket grant nor the policy for edits changes. *)
Theorem recorded_keys_are_derived tl `{Urls} state (access : AccessKind Value) outcome :
  let s' := fst (record_prompt_outcome glob_new glob_matches_with parser tl state access outcome) in
  adds allowed_bash_commands state s' (fun k => ∃ cmd, access = Bash cmd ∧ derived_key cmd k)
  ∧ adds allowed_bash_globs state s' (fun k => ∃ cmd, access = Bash cmd
      ∧ bash_glob_covers_script (Value := Value) glob_new glob_matches_with parser cmd k = true)
  ∧ adds allowed_mcp_tools state s' (fun k => ∃ v, access = MCPTool k v)
  ∧ adds allowed_mcp_servers state s' (fun k => ∃ name v tool, access = MCPTool name v ∧ parse_mcp_qualified_name name = Some (name, k, tool))
  ∧ adds allowed_web_fetch_domains state s' (fun k => ∃ url, access = WebFetch url ∧ domain_from_url tl url = Some k)
  ∧ adds disallowed_mcp_tools state s' (fun k => ∃ v, access = MCPTool k v)
  ∧ adds disallowed_web_fetch_domains state s' (fun k => ∃ url, access = WebFetch url ∧ web_fetch_deny_key_from_url tl url = Some k)
  ∧ disallowed_bash_commands state ⊆ disallowed_bash_commands s'
  ∧ allow_bash_execute s' = allow_bash_execute state ∧ edit_policy s' = edit_policy state.
Proof.
  cbn zeta. destruct access as [p|p pat|p|cmd|name v|url|q|t|n], outcome as [| | |pre|pat'|dom|tn|sv| |pre|tn|dom| |m|m];
    cbn [record_prompt_outcome fst]; try (split_and!; solve [kept]).
  - set (s1 := allow_bash {[cmd]} state). split_and!; kept.
    split; [cbn; set_solver|]. intros k [Hk|[->%elem_of_singleton|?]%elem_of_union]%elem_of_union.
    + right. exists cmd. split; [done|]. right. left. by apply elem_of_list_to_set in Hk.
    + right. exists cmd. split; [done|by left].
    + by left.
  - destruct (persist_cases state cmd pre) as [->|(k & Hk & _ & ->)]; split_and!; kept.
    eapply adds_key; [done|]. by exists cmd.
  - destruct (bash_glob_covers_script _ _ _ _ _) eqn:Ec; cbn [negb fst]; split_and!; kept.
    eapply adds_key; [done|]. by exists cmd.
  - split_and!; kept. eapply adds_key; [done|]. by exists v.
  - split_and!; kept. eapply adds_key; [done|]. by exists v.
  - destruct (parse_mcp_qualified_name name) as [[[id srv] tool]|] eqn:Ep; [destruct (str_eqb srv sv)|]; cbn [fst];
      split_and!; kept; (eapply adds_key; [done|]); try (by exists v).
    exists name, v, tool. split; [done|]. rewrite Ep. by apply parse_mcp_qualified_name_spec in Ep as (-> & _).
  - split_and!; kept. eapply adds_key; [done|]. by exists v.
  - destruct (domain_from_url tl url) as [d|] eqn:Ed; cbn [fst]; split_and!; kept.
    eapply adds_key; [done|]. by exists url.
  - destruct (web_fetch_deny_key_from_url tl url) as [d|] eqn:Ed; cbn [fst]; split_and!; kept.
    eapply adds_key; [done|]. by exists url.
Qed.

(** ** A stored answer replays *)

(** More is granted in [s']. *)
Definition grants_more (s s' : PermissionState) : Prop :=
  allowed_bash_commands s ⊆ allowed_bash_commands s' ∧ allowed_bash_globs s ⊆ allowed_bash_globs s'.

Lemma decide_mono (x : str) (X Y : gset str) : X ⊆ Y -> bool_decide (x ∈ X) = true -> bool_decide (x ∈ Y) = true.
Proof. rewrite !bool_decide_eq_true. set_solver. Qed.

Lemma any_of_mono (f : str -> bool) (X Y : gset str) : X ⊆ Y -> any_of f X = true -> any_of f Y = true.
Proof. rewrite !any_of_spec. set_solver. Qed.

Lemma granted_mono s s' ws : grants_more s s' -> granted s ws = true -> granted s' ws = true.
Proof.
  intros [Hc Hg]. unfold matched_grant. rewrite !orb_true_iff. intros [Hm|Hm]; [left|right; by apply (any_of_mono _ _ _ Hg)].
  destruct (always_allow_scope_pinned ws); [by apply (decide_mono _ _ _ Hc)|by apply (any_of_mono _ _ _ Hc)].
Qed.

Lemma surface_mono s s' ws : grants_more s s' -> special_surface s ws = false -> special_surface s' ws = false.
Proof.
  intros [Hc _]. unfold special_surface. rewrite !andb_false_iff, !negb_false_iff.
  intros [?|?]; [by left|right; by apply (decide_mono _ _ _ Hc)].
Qed.

Lemma passes_mono s s' honor c : grants_more s s' -> passes s honor c = true -> passes s' honor c = true.
Proof.
  intros Hm. unfold passes. destruct (is_setup_command _); [done|]. cbn [orb]. rewrite !andb_true_iff, !orb_true_iff, !negb_true_iff.
  intros [[Hd Hs] Hg]. split; [split; [done|by apply (surface_mono s)]|].
  destruct Hg as [Hg|?]; [left; by apply (granted_mono s)|by right].
Qed.

Lemma whole_mono s s' cmd segs : grants_more s s' ->
  whole_script_grant parser cmd segs s = true -> whole_script_grant parser cmd segs s' = true.
Proof.
  intros [Hc _]. unfold whole_script_grant. rewrite !orb_true_iff. intros [?|Hw]; [left; by apply (decide_mono _ _ _ Hc)|right].
  destruct segs as [|only [|]]; [done| |done]. rewrite !andb_true_iff in *. destruct Hw as [? ?].
  split; [done|]. by apply (decide_mono _ _ _ Hc).
Qed.

Lemma forallb_impl {A} (f g : A -> bool) l : (∀ x, f x = true -> g x = true) -> forallb f l = true -> forallb g l = true.
Proof. intros Hfg. rewrite !forallb_forall. auto. Qed.

Lemma floor_mono s s' tree cmd segs clean clean' : grants_more s s' ->
  (existsb runs_git segs = true -> clean = true -> clean' = true) ->
  floor_free s tree cmd segs clean = true -> floor_free s' tree cmd segs clean' = true.
Proof.
  intros Hm Hcl. unfold floor_free. rewrite !andb_true_iff, !orb_true_iff, !negb_true_iff.
  intros [[Hw Hs] Hg]. split; [split; [exact Hw|]|].
  - revert Hs. apply forallb_impl. intros c. rewrite !andb_true_iff, !negb_true_iff. intros [Hoc Hsp].
    split; [done|]. revert Hsp. unfold special. rewrite !andb_false_iff. intros [?|?]; [by left|].
    right. by apply (surface_mono s).
  - destruct (existsb runs_git segs); [|by left]. destruct Hg as [|Hg]; [done|]. right. by apply Hcl.
Qed.

Lemma covered_mono s s' pin cmd tree segs clean clean' :
  grants_more s s' -> allow_bash_execute s = false ->
  (∀ c d, c ∈ segs -> ¬ denied_by s' c d) -> (existsb runs_git segs = true -> clean = true -> clean' = true) ->
  script_covered s pin cmd tree segs clean -> ∀ pin', script_covered s' pin' cmd tree segs clean'.
Proof.
  intros Hm Hb Hn Hcl (_ & Hf & Hp) pin'. split; [done|]. split.
  - destruct Hf as [Hf|Hf]; [left; by apply (floor_mono s _ _ _ _ clean)|right; by apply (whole_mono s)].
  - destruct Hp as [Hp|Hp]; [left|right].
    + revert Hp. apply forallb_impl. intros c. by apply passes_mono.
    + destruct (existsb dangerous segs); [by apply (whole_mono s)|].
      unfold persisted_bash_auto_allows in *. rewrite Hb in Hp. cbn [andb orb] in Hp. rewrite orb_true_iff. right.
      by apply (decide_mono _ _ _ (proj1 Hm)).
Qed.

(** The label of the row: the primary command cut to the default scope. *)
Definition row_label (cmd : str) : str :=
  match primary_command_from_script parser cmd with
  | Some h => join (lit " ") (take (default_always_allow_scope (highlighted_words h)) (highlighted_words h))
  | None => []
  end.

(** C40 An accepted row holds. When the prompt shows the row that always allows a script, and its default
    label is accepted, then in whatever state the session is, the same script passes from
    then on without a prompt - as long as no denial covers it, and, if it runs [git], the
    configuration it would read runs nothing. *)
Theorem accepted_row_replays `{GitConfig} tl `{Urls} state cmd cwd pin :
  always_allow_row_is_effective glob_new glob_matches_with parser cmd = true ->
  (∀ key, ¬ denies state tl (Bash cmd) key) ->
  (∀ segs, all_commands_from_script parser cmd = Some segs -> existsb runs_git segs = true ->
     ambient_exec_risk_from_plan (ambient_scan_plan_from_segments (map words segs) cwd) = false) ->
  let state' := fst (record_prompt_outcome glob_new glob_matches_with parser tl state (Bash cmd : AccessKind Value)
                       (AllowAlwaysBashCommand (row_label cmd))) in
  allows (bash_grant_pre_decision cmd (evaluate_bash_with_ambient glob_new glob_matches_with parser cmd state' cwd)
            state' pin PRE_CLASSIFIER).
Proof.
  intros Hrow Hden Hamb state'. apply grant_gate_iff. subst state'. cbn [record_prompt_outcome fst].
  unfold always_allow_row_is_effective, row_label in *.
  destruct (primary_command_from_script parser cmd) as [h|] eqn:Hprim; [|done].
  set (label := join (lit " ") (take _ (highlighted_words h))) in *.
  destruct (negb _); [done|]. set (scratch := persist_bash_always_allow parser permission_state_default cmd label) in *.
  set (state' := persist_bash_always_allow parser state cmd label).
  unfold primary_command_from_script, all_commands_from_script in Hprim, Hamb. unfold covered.
  unfold denies, all_commands_from_script in Hden.
  destruct (parser cmd) as [tree|] eqn:Hp; [|done].
  destruct (try_parse_word_only_commands_sequence tree cmd) as [segs|] eqn:Hs; [|done].
  assert (Hgate : allows (bash_grant_pre_decision cmd (evaluate cmd scratch true) scratch None PRE_CLASSIFIER))
    by (destruct (bash_grant_pre_decision _ _ _ _ _) as [[[] r]|]; try done; by exists r).
  apply (gate_script cmd scratch None tree segs true) in Hgate; [|done..|by rewrite andb_false_r].
  assert (Hst : grants_more scratch state' ∧ allow_bash_execute scratch = false
            ∧ disallowed_bash_commands state' = disallowed_bash_commands state).
  { unfold scratch, state', persist_bash_always_allow. unfold primary_command_from_script, all_commands_from_script.
    rewrite Hp, Hs, Hprim. destruct (labeled_words_verified _ _ _); [|destruct (_ && _)]; cbn; (split; [split; cbn; set_solver|done]). }
  destruct Hst as (Hm & Hb & Hdis). eapply covered_mono; [exact Hm|exact Hb| | |exact Hgate].
  - intros c d Hc (Hcount & Hin & Hmatch). apply (Hden d). exists c. split; [done|]. rewrite Hdis in Hin. by split.
  - intros Hg _. by rewrite (Hamb segs).
Qed.

End Spec.

(** ** Concrete runs *)

#[export] Instance elements_order : HashOrder := {|
  hash_iter K eqK countK A m := @map_to_list K A (@gmap K eqK countK A) _ m;
  set_iter K eqK countK s := @elements K (@gset K eqK countK) _ s;
|}.
#[export] Instance elements_order_laws : HashOrderLaws.
Proof. by constructor. Qed.

(** Configurations that run nothing, and one whose file-system monitor is a program. *)
Definition clean_git : GitConfig := {| read_local_git_config_entries _ := Some []; parse_bool _ := None |}.
Definition hostile_git : GitConfig :=
  {| read_local_git_config_entries _ := Some [(lit "core.fsmonitor", lit "/tmp/evil")]; parse_bool _ := None |}.

(** URLs as their host and path, after the scheme. *)
#[export] Instance demo_urls : Urls := {|
  Url := str * str;
  url_parse s := r ← strip_prefix (lit "https://") s;
    Some (match find (lit "/") r with Some i => (take i r, drop i r) | None => (r, []) end);
  host_str u := if is_empty (fst u) then None else Some (fst u);
  url_path u := snd u
|}.

Definition demo_gate_on (git : GitConfig) (state : PermissionState) (cmd : string) : option (Decision * str) :=
  bash_grant_pre_decision (lit cmd)
    (evaluate_bash_with_ambient (H0 := git) no_glob no_match chain_parser (lit cmd) state (lit "/w"))
    state None PRE_CLASSIFIER.
Definition demo_record (state : PermissionState) (cmd : string) (outcome : PromptOutcome) : PermissionState * option str :=
  record_prompt_outcome (Value := unit) no_glob no_match chain_parser id state (Bash (lit cmd)) outcome.
Definition with_blanket (s : PermissionState) : PermissionState :=
  mkPermissionState (edit_policy s) true (allowed_bash_commands s) (disallowed_bash_commands s) (allowed_bash_globs s)
    (allowed_web_fetch_domains s) (allowed_mcp_tools s) (allowed_mcp_servers s) (disallowed_mcp_tools s)
    (disallowed_web_fetch_domains s) (validated_mcp_server_grants_version s).
Definition granted_for (l : list string) : PermissionState := allow_bash (list_to_set (words_of l)) permission_state_default.
Definition blanket : PermissionState := with_blanket permission_state_default.

(** Under the blanket grant a dangerous command asks, and a denied one is rejected; behind [command],
    or behind an option cluster of [timeout] that takes a value, it is neither recognized as dangerous nor
    as denied, and runs. *)
Theorem prefixes_hide_denials :
  let denied := deny_bash (lit "rm") blanket in
  demo_gate_on clean_git blanket "rm -rf x" = None
  ∧ demo_gate_on clean_git denied "rm -rf x" = Some (Reject (user_rejected (lit "rm")), SESSION_DENY)
  ∧ demo_gate_on clean_git denied "command rm -rf x" = Some (Allow, SESSION_GRANT)
  ∧ demo_gate_on clean_git denied "timeout -vk 3 5 rm -rf x" = Some (Allow, SESSION_GRANT).
Proof. vm_compute. by split_and!. Qed.

(** The denial of a setup command covers no segment, only a text that does not decompose. *)
Theorem denied_setup_command_runs :
  let denied := deny_bash (lit "cd") blanket in
  demo_gate_on clean_git denied "cd x && make" = Some (Allow, SESSION_GRANT)
  ∧ fst <$> demo_gate_on clean_git denied "cd" = Some Allow.
Proof. vm_compute. by split. Qed.

(** The floor of the blanket grant stops a write by [tee], but not by [command tee]. *)
Theorem prefixes_hide_writes :
  demo_gate_on clean_git blanket "tee f" = None
  ∧ demo_gate_on clean_git blanket "command tee f" = Some (Allow, SESSION_GRANT).
Proof. vm_compute. by split. Qed.

(** A denial of commands is stored as the reply words it, whatever was asked about. *)
Theorem forged_denial_is_recorded :
  disallowed_bash_commands (fst (demo_record permission_state_default "ls" (RejectAlwaysBashCommand (lit "git")))) = {[lit "git"]}
  ∧ demo_gate_on clean_git (fst (demo_record permission_state_default "ls" (RejectAlwaysBashCommand (lit "git")))) "git status"
    = Some (Reject (user_rejected (lit "git")), SESSION_DENY).
Proof. split; [vm_compute; reflexivity|vm_compute; reflexivity]. Qed.

(** A label that does not fit the script grants nothing, and is reported as recorded all the same. *)
Theorem refused_label_is_reported :
  demo_record permission_state_default "rm -rf x" (AllowAlwaysBashCommand (lit "rm"))
  = (permission_state_default, Some (lit "rm")).
Proof. vm_compute. reflexivity. Qed.

(** The row that always allows a script is shown without a look at git's configuration; where
    that runs a program, the accepted row never keeps its promise. *)
Theorem row_ignores_the_configuration :
  let cmd := "git commit -m x" in
  let accepted := fst (demo_record permission_state_default cmd (AllowAlwaysBashCommand (row_label chain_parser (lit cmd)))) in
  always_allow_row_is_effective no_glob no_match chain_parser (lit cmd) = true
  ∧ demo_gate_on clean_git accepted cmd = Some (Allow, SESSION_GRANT)
  ∧ demo_gate_on hostile_git accepted cmd = None.
Proof. vm_compute. by split_and!. Qed.

(** Any [E] of [ps] is meant to ask; one after an option that takes a value on another system is skipped. *)
Theorem ps_option_swallows_the_letter :
  ps_dumps_environment (words_of ["ps"; "-E"]) = true ∧ ps_dumps_environment (words_of ["ps"; "-C"; "-E"]) = false.
Proof. by vm_compute. Qed.

(** ** Witnesses *)

Lemma grant_gate_iff_witness :
  allows (demo_gate_on clean_git (granted_for ["make"]) "ls && make test").
Proof.
  unfold demo_gate_on. apply (grant_gate_iff (H1 := clean_git) no_glob no_match chain_parser (lit "ls && make test")).
  unfold covered. destruct (chain_parser (lit "ls && make test")) as [tree|] eqn:Hp; [|vm_compute in Hp; discriminate Hp].
  vm_compute in Hp. injection Hp as <-. destruct (try_parse_word_only_commands_sequence _ _) as [segs|] eqn:Hs;
    [|vm_compute in Hs; discriminate Hs].
  vm_compute in Hs. injection Hs as <-. split; [|split].
  - intros c d _ (_ & Hin & _). change (disallowed_bash_commands (granted_for ["make"])) with (∅ : gset str) in Hin. set_solver.
  - left. vm_compute. reflexivity.
  - left. vm_compute. reflexivity.
Defined.

Definition demo_denied_state : PermissionState := deny_bash (lit "rm") (granted_for ["rm -rf x"; "ls && rm -rf x"]).
Definition demo_denied_call : AccessKind unit := Bash (lit "ls && rm -rf x").

Lemma denials_win_witness :
  ∃ key, denies chain_parser demo_denied_state id demo_denied_call key ∧ user_rejected (lit "rm") = user_rejected key.
Proof.
  pose proof (denials_win (H1 := clean_git) no_glob no_match chain_parser id demo_denied_state demo_denied_call (lit "/w") true None None) as Hd.
  lazy zeta in Hd.
  match type of Hd with
  | context [session_grant_pre_decision ?a ?b ?c ?d ?e ?f ?g] =>
      assert (Hr : session_grant_pre_decision a b c d e f g = Some (Reject (user_rejected (lit "rm")), SESSION_DENY))
        by (vm_compute; reflexivity)
  end.
  rewrite Hr in Hd. destruct Hd as (key & Hk & He & _). exists key. exact (conj Hk He).
Defined.

Definition demo_tool_call : AccessKind unit := MCPTool (lit "docs__search") tt.

Lemma recorded_keys_are_derived_witness :
  let s' := fst (record_prompt_outcome no_glob no_match chain_parser id permission_state_default demo_tool_call
                   (AllowAlwaysMcpServer (lit "docs"))) in
  lit "docs" ∈ allowed_mcp_servers s'
  ∧ ∃ name v tool, demo_tool_call = MCPTool name v ∧ parse_mcp_qualified_name name = Some (name, lit "docs", tool).
Proof.
  intros s'. assert (Hin : lit "docs" ∈ allowed_mcp_servers s')
    by (change (lit "docs" ∈ ({[lit "docs"]} ∪ ∅ : gset str)); set_solver).
  split; [exact Hin|].
  destruct (recorded_keys_are_derived no_glob no_match chain_parser id permission_state_default demo_tool_call
              (AllowAlwaysMcpServer (lit "docs"))) as (_ & _ & _ & [_ Hnew] & _).
  destruct (Hnew (lit "docs") Hin) as [Hold|Hk]; [by apply elem_of_empty in Hold|exact Hk].
Defined.

Lemma accepted_row_replays_witness :
  always_allow_row_is_effective no_glob no_match chain_parser (lit "make test") = true
  ∧ allows (demo_gate_on clean_git
      (fst (demo_record permission_state_default "make test" (AllowAlwaysBashCommand (row_label chain_parser (lit "make test")))))
      "make test").
Proof.
  assert (Hrow : always_allow_row_is_effective no_glob no_match chain_parser (lit "make test") = true) by (vm_compute; reflexivity).
  split; [exact Hrow|]. unfold demo_gate_on, demo_record.
  apply (accepted_row_replays (Value := unit) (H1 := clean_git) no_glob no_match chain_parser id permission_state_default
           (lit "make test") (lit "/w") None Hrow).
  - intros key Hd. unfold denies in Hd. destruct (all_commands_from_script _ _) as [segs|].
    + destruct Hd as (c & _ & _ & Hin & _). by apply elem_of_empty in Hin.
    + destruct Hd as [Hin _]. by apply elem_of_empty in Hin.
  - intros segs Hs Hg. vm_compute in Hs. injection Hs as <-. vm_compute in Hg. discriminate Hg.
Defined.
