(* ===== verification/PatchParser.v ===== *)
(** * The patch parser of the apply_patch tool

    crates/codegen/xai-grok-tools/src/implementations/codex/apply_patch/parser.rs:
    the patch text is cut into lines, the boundary lines are checked (a heredoc
    wrapper is tolerated), and the lines between are read hunk by hunk; a hunk
    adds, deletes or updates a file, and an update is a list of chunks. A loop
    over the remaining lines takes one unit of fuel a turn; the number of lines
    is enough, because a turn that does not fail consumes a line
    ([parse_update_file_chunk_consumes], [parse_one_hunk_consumes]), and
    [parse_patch_text_total] says that the parser always answers. *)

From S2P Require Export RustStr.

(** ** Markers *)

(** Source: crates/codegen/xai-grok-tools/src/implementations/codex/apply_patch/parser.rs:38-38, [BEGIN_PATCH_MARKER]. *)
Definition BEGIN_PATCH_MARKER : str := lit "*** Begin Patch".
(** Source: crates/codegen/xai-grok-tools/src/implementations/codex/apply_patch/parser.rs:39-39, [END_PATCH_MARKER]. *)
Definition END_PATCH_MARKER : str := lit "*** End Patch".
(** Source: crates/codegen/xai-grok-tools/src/implementations/codex/apply_patch/parser.rs:40-40, [ADD_FILE_MARKER]. *)
Definition ADD_FILE_MARKER : str := lit "*** Add File: ".
(** Source: crates/codegen/xai-grok-tools/src/implementations/codex/apply_patch/parser.rs:41-41, [DELETE_FILE_MARKER]. *)
Definition DELETE_FILE_MARKER : str := lit "*** Delete File: ".
(** Source: crates/codegen/xai-grok-tools/src/implementations/codex/apply_patch/parser.rs:42-42, [UPDATE_FILE_MARKER]. *)
Definition UPDATE_FILE_MARKER : str := lit "*** Update File: ".
(** Source: crates/codegen/xai-grok-tools/src/implementations/codex/apply_patch/parser.rs:43-43, [MOVE_TO_MARKER]. *)
Definition MOVE_TO_MARKER : str := lit "*** Move to: ".
(** Source: crates/codegen/xai-grok-tools/src/implementations/codex/apply_patch/parser.rs:44-44, [EOF_MARKER]. *)
Definition EOF_MARKER : str := lit "*** End of File".
(** Source: crates/codegen/xai-grok-tools/src/implementations/codex/apply_patch/parser.rs:45-45, [CHANGE_CONTEXT_MARKER]. *)
Definition CHANGE_CONTEXT_MARKER : str := lit "@@ ".
(** Source: crates/codegen/xai-grok-tools/src/implementations/codex/apply_patch/parser.rs:46-46, [EMPTY_CHANGE_CONTEXT_MARKER]. *)
Definition EMPTY_CHANGE_CONTEXT_MARKER : str := lit "@@".
(** Source: crates/codegen/xai-grok-tools/src/implementations/codex/apply_patch/parser.rs:49-49, [PARSE_IN_STRICT_MODE]. *)
Definition PARSE_IN_STRICT_MODE : bool := false.

(** ** Patches *)

(** Source: crates/codegen/xai-grok-tools/src/implementations/codex/apply_patch/parser.rs:81-94, [UpdateFileChunk]. *)
Record UpdateFileChunk := mkChunk {
  change_context : option str;
  old_lines : list str;
  new_lines : list str;
  is_end_of_file : bool;
}.

(** A path is its text. Source: crates/codegen/xai-grok-tools/src/implementations/codex/apply_patch/parser.rs:61-78, [Hunk]. *)
Inductive PatchHunk :=
  | AddFile (path contents : str)
  | DeleteFile (path : str)
  | UpdateFile (path : str) (move_path : option str) (chunks : list UpdateFileChunk).

(** Source: crates/codegen/xai-grok-tools/src/implementations/codex/apply_patch/parser.rs:54-58, [ParsedPatch]. *)
Record ParsedPatch := mkParsed { hunks : list PatchHunk; patch : str }.

(** Source: crates/codegen/xai-grok-tools/src/implementations/codex/apply_patch/errors.rs:8-14, [ParseError]. *)
Inductive ParseError :=
  | InvalidPatchError (message : str)
  | InvalidHunkError (message : str) (line_number : nat).

(** Source: crates/codegen/xai-grok-tools/src/implementations/codex/apply_patch/parser.rs:110-116, [ParseMode]. *)
Inductive ParseMode := Strict | Lenient.

#[export] Instance UpdateFileChunk_eq_dec : EqDecision UpdateFileChunk.
Proof. solve_decision. Defined.
#[export] Instance PatchHunk_eq_dec : EqDecision PatchHunk.
Proof. solve_decision. Defined.
#[export] Instance ParsedPatch_eq_dec : EqDecision ParsedPatch.
Proof. solve_decision. Defined.
#[export] Instance ParseError_eq_dec : EqDecision ParseError.
Proof. solve_decision. Defined.

(** ** Boundaries *)

(** Source: crates/codegen/xai-grok-tools/src/implementations/codex/apply_patch/parser.rs:176-194, [check_start_and_end_lines_strict]. *)
Definition check_start_and_end_lines_strict (first_line last_line : option str) : result unit ParseError :=
  let bad_start := Err (InvalidPatchError (lit "The first line of the patch must be '*** Begin Patch'")) in
  let bad_end := Err (InvalidPatchError (lit "The last line of the patch must be '*** End Patch'")) in
  match trim <$> first_line, trim <$> last_line with
  | Some first, Some last =>
      if str_eqb first BEGIN_PATCH_MARKER && str_eqb last END_PATCH_MARKER then Ok tt
      else if negb (str_eqb first BEGIN_PATCH_MARKER) then bad_start
      else bad_end
  | Some first, None => if negb (str_eqb first BEGIN_PATCH_MARKER) then bad_start else bad_end
  | None, _ => bad_end
  end.

(** Source: crates/codegen/xai-grok-tools/src/implementations/codex/apply_patch/parser.rs:145-152, [check_patch_boundaries_strict]. *)
Definition check_patch_boundaries_strict (ls : list str) : result unit ParseError :=
  check_start_and_end_lines_strict (head ls) (last ls).

Definition heredoc_start (l : str) : bool :=
  str_eqb l (lit "<<EOF") || str_eqb l (lit "<<'EOF'") || str_eqb l (lit "<<" ++ dq ++ lit "EOF" ++ dq).

(** Source: crates/codegen/xai-grok-tools/src/implementations/codex/apply_patch/parser.rs:154-174, [check_patch_boundaries_lenient]. *)
Definition check_patch_boundaries_lenient (original_lines : list str) (original_parse_error : ParseError)
    : result (list str) ParseError :=
  match original_lines with
  | first :: _ :: _ =>
      let inner := removelast (tail original_lines) in
      let last_line := default [] (last original_lines) in
      if heredoc_start first && ends_with (lit "EOF") last_line && (4 <=? length original_lines) then
        match check_patch_boundaries_strict inner with
        | Ok _ => Ok inner
        | Err e => Err e
        end
      else Err original_parse_error
  | _ => Err original_parse_error
  end.

(** ** Chunks *)

Definition push_old (l : str) (c : UpdateFileChunk) : UpdateFileChunk :=
  mkChunk (change_context c) (old_lines c ++ [l]) (new_lines c) (is_end_of_file c).
Definition push_new (l : str) (c : UpdateFileChunk) : UpdateFileChunk :=
  mkChunk (change_context c) (old_lines c) (new_lines c ++ [l]) (is_end_of_file c).
Definition set_end_of_file (c : UpdateFileChunk) : UpdateFileChunk :=
  mkChunk (change_context c) (old_lines c) (new_lines c) true.

(** The change lines of a chunk, from [parsed_lines] on. Source: crates/codegen/xai-grok-tools/src/implementations/codex/apply_patch/parser.rs:343-404, [parse_update_file_chunk]. *)
Fixpoint parse_change_lines (line_number parsed_lines : nat) (chunk : UpdateFileChunk) (ls : list str)
    : result (UpdateFileChunk * nat) ParseError :=
  match ls with
  | [] => Ok (chunk, parsed_lines)
  | line :: rest =>
      if str_eqb line EOF_MARKER then
        if parsed_lines =? 0 then
          Err (InvalidHunkError (lit "Update hunk does not contain any lines") (line_number + 1))
        else Ok (set_end_of_file chunk, parsed_lines + 1)
      else
        match line with
        | [] => parse_change_lines line_number (parsed_lines + 1) (push_new [] (push_old [] chunk)) rest
        | c :: text =>
            if ch_eqb c (byte 32) then
              parse_change_lines line_number (parsed_lines + 1) (push_new text (push_old text chunk)) rest
            else if ch_eqb c (byte 43) then
              parse_change_lines line_number (parsed_lines + 1) (push_new text chunk) rest
            else if ch_eqb c (byte 45) then
              parse_change_lines line_number (parsed_lines + 1) (push_old text chunk) rest
            else if parsed_lines =? 0 then
              Err (InvalidHunkError
                     (lit "Unexpected line found in update hunk: '" ++ line
                      ++ lit "'. Every line should start with ' ' (context line), '+' (added line), or '-' (removed line)")
                     (line_number + 1))
            else Ok (chunk, parsed_lines)
        end
  end.

(** The context marker of a chunk and the number of lines it takes. Source: crates/codegen/xai-grok-tools/src/implementations/codex/apply_patch/parser.rs:320-334, [parse_update_file_chunk]. *)
Definition chunk_start (first : str) (line_number : nat) (allow_missing_context : bool)
    : result (option str * nat) ParseError :=
  if str_eqb first EMPTY_CHANGE_CONTEXT_MARKER then Ok (None, 1)
  else
    match strip_prefix CHANGE_CONTEXT_MARKER first with
    | Some context => Ok (Some context, 1)
    | None =>
        if allow_missing_context then Ok (None, 0)
        else Err (InvalidHunkError
                    (lit "Expected update hunk to start with a @@ context marker, got: '" ++ first ++ lit "'")
                    line_number)
    end.

(** Source: crates/codegen/xai-grok-tools/src/implementations/codex/apply_patch/parser.rs:301-407, [parse_update_file_chunk]. *)
Definition parse_update_file_chunk (ls : list str) (line_number : nat) (allow_missing_context : bool)
    : result (UpdateFileChunk * nat) ParseError :=
  match ls with
  | [] => Err (InvalidHunkError (lit "Update hunk does not contain any lines") line_number)
  | first :: _ =>
      match chunk_start first line_number allow_missing_context with
      | Err e => Err e
      | Ok (context, start_index) =>
          if length ls <=? start_index then
            Err (InvalidHunkError (lit "Update hunk does not contain any lines") (line_number + 1))
          else
            match parse_change_lines line_number 0 (mkChunk context [] [] false) (drop start_index ls) with
            | Err e => Err e
            | Ok (chunk, parsed_lines) => Ok (chunk, parsed_lines + start_index)
            end
      end
  end.

(** ** Hunks *)

(** The added lines of an [Add File] hunk. Source: crates/codegen/xai-grok-tools/src/implementations/codex/apply_patch/parser.rs:208-218, [parse_one_hunk]. *)
Fixpoint parse_add_lines (contents : str) (parsed_lines : nat) (ls : list str) : str * nat :=
  match ls with
  | [] => (contents, parsed_lines)
  | add_line :: rest =>
      match strip_prefix (lit "+") add_line with
      | Some line_to_add => parse_add_lines (contents ++ line_to_add ++ nl) (parsed_lines + 1) rest
      | None => (contents, parsed_lines)
      end
  end.

(** The chunks of an [Update File] hunk; [None] when the fuel is out. Source: crates/codegen/xai-grok-tools/src/implementations/codex/apply_patch/parser.rs:249-273, [parse_one_hunk]. *)
Fixpoint parse_chunks (fuel line_number parsed_lines : nat) (chunks : list UpdateFileChunk) (remaining_lines : list str)
    : option (result (list UpdateFileChunk * nat) ParseError) :=
  match remaining_lines with
  | [] => Some (Ok (chunks, parsed_lines))
  | l :: rest =>
      match fuel with
      | 0 => None
      | S fuel' =>
          if is_empty (trim l) then parse_chunks fuel' line_number (parsed_lines + 1) chunks rest
          else if starts_with (lit "***") l then Some (Ok (chunks, parsed_lines))
          else
            match parse_update_file_chunk remaining_lines (line_number + parsed_lines) (is_empty chunks) with
            | Err e => Some (Err e)
            | Ok (chunk, chunk_lines) =>
                parse_chunks fuel' line_number (parsed_lines + chunk_lines) (chunks ++ [chunk])
                  (drop chunk_lines remaining_lines)
            end
      end
  end.

(** Source: crates/codegen/xai-grok-tools/src/implementations/codex/apply_patch/parser.rs:198-299, [parse_one_hunk]. *)
Definition parse_one_hunk (ls : list str) (line_number : nat) : option (result (PatchHunk * nat) ParseError) :=
  match ls with
  | [] => Some (Err (InvalidHunkError (lit "hunk is empty") line_number))
  | first :: rest =>
      let first_line := trim first in
      match strip_prefix ADD_FILE_MARKER first_line with
      | Some path =>
          let '(contents, parsed_lines) := parse_add_lines [] 1 rest in
          Some (Ok (AddFile path contents, parsed_lines))
      | None =>
      match strip_prefix DELETE_FILE_MARKER first_line with
      | Some path => Some (Ok (DeleteFile path, 1))
      | None =>
      match strip_prefix UPDATE_FILE_MARKER first_line with
      | Some path =>
          let move_path := head rest ≫= strip_prefix MOVE_TO_MARKER in
          let '(remaining_lines, parsed_lines) :=
            match move_path with Some _ => (tail rest, 2) | None => (rest, 1) end in
          match parse_chunks (length remaining_lines) line_number parsed_lines [] remaining_lines with
          | None => None
          | Some (Err e) => Some (Err e)
          | Some (Ok (chunks, parsed_lines)) =>
              if is_empty chunks then
                Some (Err (InvalidHunkError (lit "Update file hunk for path '" ++ path ++ lit "' is empty") line_number))
              else Some (Ok (UpdateFile path move_path chunks, parsed_lines))
          end
      | None =>
          Some (Err (InvalidHunkError
            (lit "'" ++ first_line ++ lit "' is not a valid hunk header. Valid hunk headers: '*** Add File: {path}', '*** Delete File: {path}', '*** Update File: {path}'")
            line_number))
      end end end
  end.

(** The loop of [parse_patch_text]. Source: crates/codegen/xai-grok-tools/src/implementations/codex/apply_patch/parser.rs:132-140, [parse_patch_text]. *)
Fixpoint parse_hunks (fuel line_number : nat) (hunks : list PatchHunk) (remaining_lines : list str)
    : option (result (list PatchHunk) ParseError) :=
  match remaining_lines with
  | [] => Some (Ok hunks)
  | _ :: _ =>
      match fuel with
      | 0 => None
      | S fuel' =>
          match parse_one_hunk remaining_lines line_number with
          | None => None
          | Some (Err e) => Some (Err e)
          | Some (Ok (hunk, hunk_lines)) =>
              parse_hunks fuel' (line_number + hunk_lines) (hunks ++ [hunk]) (drop hunk_lines remaining_lines)
          end
      end
  end.

(** [lines.get(1..lines.len() - 1)]. *)
Definition inner_lines (ls : list str) : list str := removelast (tail ls).

(** Source: crates/codegen/xai-grok-tools/src/implementations/codex/apply_patch/parser.rs:118-143, [parse_patch_text]. *)
Definition parse_patch_text (text : str) (mode : ParseMode) : option (result ParsedPatch ParseError) :=
  let ls := lines (trim text) in
  let bounded :=
    match check_patch_boundaries_strict ls with
    | Ok _ => Ok ls
    | Err e => match mode with Strict => Err e | Lenient => check_patch_boundaries_lenient ls e end
    end in
  match bounded with
  | Err e => Some (Err e)
  | Ok ls =>
      match parse_hunks (length ls) 2 [] (inner_lines ls) with
      | None => None
      | Some (Err e) => Some (Err e)
      | Some (Ok hunks) => Some (Ok (mkParsed hunks (join nl ls)))
      end
  end.

(** Source: crates/codegen/xai-grok-tools/src/implementations/codex/apply_patch/parser.rs:99-106, [parse_patch]. *)
Definition parse_patch (text : str) : option (result ParsedPatch ParseError) :=
  parse_patch_text text (if PARSE_IN_STRICT_MODE then Strict else Lenient).

(** ** The grammar the module documents

    A patch as its author means it: the lines of every chunk in their order.
    [print_patch] writes it in the documented grammar and [patch_hunks] is what
    it means. *)

Inductive ChangeLine := Context (text : str) | Added (text : str) | Removed (text : str).

Record SourceChunk := mkSource {
  header : option str;
  changes : list ChangeLine;
  at_eof : bool;
}.

Inductive FileOp :=
  | OpAdd (path : str) (content : list str)
  | OpDelete (path : str)
  | OpUpdate (path : str) (move_to : option str) (chunks : list SourceChunk).

Definition old_line (c : ChangeLine) : option str :=
  match c with Context t | Removed t => Some t | Added _ => None end.
Definition new_line (c : ChangeLine) : option str :=
  match c with Context t | Added t => Some t | Removed _ => None end.

Definition chunk_meaning (c : SourceChunk) : UpdateFileChunk :=
  mkChunk (header c) (omap old_line (changes c)) (omap new_line (changes c)) (at_eof c).

Definition op_meaning (op : FileOp) : PatchHunk :=
  match op with
  | OpAdd path content => AddFile path (concat (map (fun l => l ++ nl) content))
  | OpDelete path => DeleteFile path
  | OpUpdate path move_to chunks => UpdateFile path move_to (map chunk_meaning chunks)
  end.

Definition print_change (c : ChangeLine) : str :=
  match c with Context t => lit " " ++ t | Added t => lit "+" ++ t | Removed t => lit "-" ++ t end.

Definition print_header (h : option str) : str :=
  match h with Some t => CHANGE_CONTEXT_MARKER ++ t | None => EMPTY_CHANGE_CONTEXT_MARKER end.

Definition print_chunk (c : SourceChunk) : list str :=
  print_header (header c) :: map print_change (changes c) ++ (if at_eof c then [EOF_MARKER] else []).

Definition print_op (op : FileOp) : list str :=
  match op with
  | OpAdd path content => (ADD_FILE_MARKER ++ path) :: map (fun l => lit "+" ++ l) content
  | OpDelete path => [DELETE_FILE_MARKER ++ path]
  | OpUpdate path move_to chunks =>
      (UPDATE_FILE_MARKER ++ path)
        :: match move_to with Some d => [MOVE_TO_MARKER ++ d] | None => [] end
        ++ concat (map print_chunk chunks)
  end.

Definition patch_lines (ops : list FileOp) : list str :=
  BEGIN_PATCH_MARKER :: concat (map print_op ops) ++ [END_PATCH_MARKER].

Definition print_patch (ops : list FileOp) : str := join nl (patch_lines ops).

(** A path is a line that is not empty nor surrounded by white space; text never
    starts inside a character. *)
Definition plain_path (p : str) : Prop := plain_line p ∧ p ≠ [] ∧ trim p = p ∧ head_is_continuation p = false.

Definition change_text (c : ChangeLine) : str := match c with Context t | Added t | Removed t => t end.

Definition plain_chunk (c : SourceChunk) : Prop :=
  changes c ≠ [] ∧ from_option plain_line True (header c) ∧ Forall (fun l => plain_line (change_text l)) (changes c).

Definition plain_op (op : FileOp) : Prop :=
  match op with
  | OpAdd path content => plain_path path ∧ Forall plain_line content
  | OpDelete path => plain_path path
  | OpUpdate path move_to chunks =>
      plain_path path ∧ from_option plain_line True move_to ∧ chunks ≠ [] ∧ Forall plain_chunk chunks
  end.

(** * Every turn consumes a line *)

Lemma parse_change_lines_consumes ln n c ls c' n' :
  parse_change_lines ln n c ls = Ok (c', n') -> n ≤ n' ∧ n' ≤ n + length ls ∧ (n = 0 -> ls ≠ [] -> 0 < n').
Proof.
  revert n c. induction ls as [|l ls IH]; intros n c; cbn [parse_change_lines length].
  - intros [= _ <-]. split_and!; [lia..|done].
  - repeat break_match_goal; intros Hp; simplify_eq/=; try (apply IH in Hp as (? & ? & _)).
    all: nbool; split_and!; intros; lia.
Qed.

Lemma parse_update_file_chunk_consumes ls ln b chunk n :
  parse_update_file_chunk ls ln b = Ok (chunk, n) -> 0 < n ∧ n ≤ length ls.
Proof.
  unfold parse_update_file_chunk. destruct ls as [|first rest]; [done|].
  destruct (chunk_start first ln b) as [[context start]|]; [|done].
  destruct (Nat.leb_spec (length (first :: rest)) start) as [|Hlt]; [done|].
  destruct (parse_change_lines _ _ _ _) as [[c k]|] eqn:Hp; [|done]. intros [= _ <-].
  apply parse_change_lines_consumes in Hp as (_ & Hk & Hpos). rewrite length_drop in Hk.
  assert (0 < k) by (apply Hpos; [done|]; intros Hd%(f_equal length); rewrite length_drop in Hd; cbn in *; lia).
  lia.
Qed.

Lemma parse_add_lines_consumes acc n ls : n ≤ snd (parse_add_lines acc n ls) ≤ n + length ls.
Proof.
  revert acc n. induction ls as [|l ls IH]; intros acc n; cbn [parse_add_lines length]; [cbn; lia|].
  destruct (strip_prefix _ _) as [added|]; [|cbn; lia]. specialize (IH (acc ++ added ++ nl) (n + 1)). lia.
Qed.

Lemma parse_chunks_total fuel ln n cs ls : length ls ≤ fuel -> ∃ r, parse_chunks fuel ln n cs ls = Some r.
Proof.
  revert n cs ls. induction fuel as [|fuel IH]; intros n cs [|l ls] Hf; cbn [parse_chunks length] in *; [eauto|lia|eauto|].
  destruct (is_empty (trim l)); [apply IH; lia|]. destruct (starts_with (lit "***") l); [eauto|].
  destruct (parse_update_file_chunk _ _ _) as [[chunk k]|] eqn:Hp; [|eauto].
  apply parse_update_file_chunk_consumes in Hp as [? ?]. apply IH. rewrite length_drop. cbn in *. lia.
Qed.

Lemma parse_chunks_consumes fuel ln n cs ls cs' n' :
  parse_chunks fuel ln n cs ls = Some (Ok (cs', n')) -> n ≤ n' ≤ n + length ls.
Proof.
  revert n cs ls. induction fuel as [|fuel IH]; intros n cs [|l ls]; cbn [parse_chunks length]; [intros [= _ <-]; lia|done|intros [= _ <-]; lia|].
  destruct (is_empty (trim l)); [intros Hp%IH; lia|].
  destruct (starts_with (lit "***") l); [intros [= _ <-]; lia|].
  destruct (parse_update_file_chunk _ _ _) as [[chunk k]|] eqn:Hc; [|done].
  apply parse_update_file_chunk_consumes in Hc as [? Hk]. intros Hp%IH. rewrite length_drop in Hp. cbn in *. lia.
Qed.

Lemma parse_one_hunk_total ls ln : ∃ r, parse_one_hunk ls ln = Some r.
Proof.
  unfold parse_one_hunk. destruct ls as [|first rest]; [eauto|].
  destruct (strip_prefix ADD_FILE_MARKER _); [destruct (parse_add_lines _ _ _); eauto|].
  destruct (strip_prefix DELETE_FILE_MARKER _); [eauto|].
  destruct (strip_prefix UPDATE_FILE_MARKER _); [|eauto].
  destruct (head rest ≫= strip_prefix MOVE_TO_MARKER).
  - destruct (parse_chunks_total (length (tail rest)) ln 2 [] (tail rest)) as [[[cs n]|] ->]; [done| |eauto].
    destruct (is_empty cs); eauto.
  - destruct (parse_chunks_total (length rest) ln 1 [] rest) as [[[cs n]|] ->]; [done| |eauto].
    destruct (is_empty cs); eauto.
Qed.

Lemma parse_one_hunk_consumes ls ln h n :
  parse_one_hunk ls ln = Some (Ok (h, n)) -> 0 < n ≤ length ls.
Proof.
  unfold parse_one_hunk. destruct ls as [|first rest]; [done|].
  destruct (strip_prefix ADD_FILE_MARKER _).
  { pose proof (parse_add_lines_consumes [] 1 rest). destruct (parse_add_lines _ _ _). intros [= _ <-]. cbn in *. lia. }
  destruct (strip_prefix DELETE_FILE_MARKER _); [intros [= _ <-]; cbn; lia|].
  destruct (strip_prefix UPDATE_FILE_MARKER _); [|done].
  destruct (head rest ≫= strip_prefix MOVE_TO_MARKER) eqn:Hm.
  - destruct rest as [|m rest]; [done|]. cbn [tail].
    destruct (parse_chunks _ _ _ _ _) as [[[cs k]|]|] eqn:Hp; [|done..].
    apply parse_chunks_consumes in Hp. destruct (is_empty cs); [done|]. intros [= _ <-]. cbn in *. lia.
  - destruct (parse_chunks _ _ _ _ _) as [[[cs k]|]|] eqn:Hp; [|done..].
    apply parse_chunks_consumes in Hp. destruct (is_empty cs); [done|]. intros [= _ <-]. cbn in *. lia.
Qed.

Lemma parse_hunks_total fuel ln hs ls : length ls ≤ fuel -> ∃ r, parse_hunks fuel ln hs ls = Some r.
Proof.
  revert ln hs ls. induction fuel as [|fuel IH]; intros ln hs [|l ls] Hf; cbn [parse_hunks length] in *; [eauto|lia|eauto|].
  destruct (parse_one_hunk_total (l :: ls) ln) as [[[h n]|] Hh]; rewrite Hh; [|eauto].
  apply parse_one_hunk_consumes in Hh. apply IH. rewrite length_drop. cbn in *. lia.
Qed.

Lemma inner_lines_length ls : length (inner_lines ls) ≤ length ls.
Proof.
  unfold inner_lines. destruct ls as [|l ls]; [done|]. cbn [tail length].
  rewrite removelast_firstn_len, length_take. lia.
Qed.

(** The parser always answers, on any text and in either mode: a turn of its loops
    that does not fail consumes at least one line, so the number of lines is fuel
    enough. *)
Lemma parse_patch_text_total text mode : ∃ r, parse_patch_text text mode = Some r.
Proof.
  unfold parse_patch_text.
  match goal with |- context [match ?b with Ok _ => _ | Err _ => _ end] => destruct b as [ls|e]; [|eauto] end.
  destruct (parse_hunks_total (length ls) 2 [] (inner_lines ls)) as [[hs|e] ->]; [apply inner_lines_length|eauto..].
Qed.

(** * Printed patches *)

Lemma print_change_not_eof c : str_eqb (print_change c) EOF_MARKER = false.
Proof. by destruct c. Qed.

Definition push_change (chunk : UpdateFileChunk) (c : ChangeLine) : UpdateFileChunk :=
  match c with
  | Context t => push_new t (push_old t chunk)
  | Added t => push_new t chunk
  | Removed t => push_old t chunk
  end.

Lemma push_changes ctx old new eof cs :
  foldl push_change (mkChunk ctx old new eof) cs
  = mkChunk ctx (old ++ omap old_line cs) (new ++ omap new_line cs) eof.
Proof.
  revert old new. induction cs as [|c cs IH]; intros old new; cbn [foldl]; [by rewrite !app_nil_r|].
  destruct c; unfold push_change, push_new, push_old; cbn [change_context old_lines new_lines is_end_of_file];
    rewrite IH; cbn; by rewrite <- ?app_assoc.
Qed.

Lemma parse_printed_changes ln n chunk cs rest :
  parse_change_lines ln n chunk (map print_change cs ++ rest)
  = parse_change_lines ln (n + length cs) (foldl push_change chunk cs) rest.
Proof.
  revert n chunk. induction cs as [|c cs IH]; intros n chunk; cbn [map app length foldl].
  - by rewrite Nat.add_0_r.
  - cbn [parse_change_lines]. rewrite print_change_not_eof.
    replace (n + S (length cs)) with ((n + 1) + length cs) by lia. rewrite <- IH. by destruct c.
Qed.

(** What ends the lines of a chunk: nothing, a context line or a marker of another kind. *)
Definition after_chunk (rest : list str) : Prop :=
  match rest with
  | [] => True
  | l :: _ => str_eqb l EOF_MARKER = false ∧ match l with c :: _ => c = byte 42 ∨ c = byte 64 | [] => False end
  end.

Lemma parse_change_lines_stop ln n chunk rest :
  0 < n -> after_chunk rest -> parse_change_lines ln n chunk rest = Ok (chunk, n).
Proof.
  intros Hn. destruct rest as [|l rest]; [done|]. intros [He Hc]. cbn [parse_change_lines]. rewrite He.
  destruct l as [|c l]; [done|]. destruct n; [lia|]. by destruct Hc as [-> | ->].
Qed.

Lemma parse_printed_chunk ln b c rest :
  plain_chunk c -> (at_eof c = false -> after_chunk rest) ->
  parse_update_file_chunk (print_chunk c ++ rest) ln b = Ok (chunk_meaning c, length (print_chunk c)).
Proof.
  intros (Hne & _) Hrest. unfold print_chunk, parse_update_file_chunk. cbn [app length].
  assert (Hs : chunk_start (print_header (header c)) ln b = Ok (header c, 1)) by (by destruct (header c)).
  rewrite Hs. cbv beta iota. clear Hs. set (ls := (map print_change (changes c) ++ _) ++ rest).
  assert (Hlen : 0 < length ls) by (subst ls; destruct (changes c); [done|cbn; lia]).
  destruct (Nat.leb_spec (S (length ls)) 1) as [|_]; [lia|]. cbn [skipn]. rewrite drop_0. subst ls.
  rewrite <- app_assoc, parse_printed_changes, push_changes. cbn [app].
  assert (Hpos : 0 < 0 + length (changes c)) by (destruct (changes c); [done|cbn; lia]).
  unfold chunk_meaning. destruct (at_eof c) eqn:He.
  - cbn [app parse_change_lines]. rewrite str_eqb_refl.
    destruct (Nat.eqb_spec (0 + length (changes c)) 0) as [|_]; [lia|].
    rewrite length_app, length_map. cbn. do 2 f_equal. lia.
  - rewrite parse_change_lines_stop; [|done|by apply Hrest].
    rewrite app_nil_r, length_map. do 2 f_equal. lia.
Qed.

(** A line whose first byte is that of a character that is not white space is not blank. *)
Lemma trim_not_blank c t : (∀ u, is_whitespace (c :: u) = false) -> is_empty (trim (c :: t)) = false.
Proof.
  intros Hw. pose proof (chars_head (c :: t)) as Hh.
  destruct (chars (c :: t)) as [|ch l] eqn:Hl; [done|]. destruct Hh as (d & u & -> & [= <-]).
  apply is_empty_false. unfold trim. rewrite Hl, drop_while_id by apply Hw. intros Ht.
  destruct (drop_while_end_prefix is_whitespace ((c :: u) :: l)) as [k Hk].
  destruct (drop_while_end is_whitespace ((c :: u) :: l)) as [|x xs] eqn:Hd.
  - unfold drop_while_end in Hd. apply (f_equal (@rev str)) in Hd. rewrite rev_involutive in Hd. apply drop_while_nil in Hd.
    rewrite forallb_rev in Hd. cbn [forallb] in Hd. by rewrite Hw in Hd.
  - by injection Hk as <- _.
Qed.

Lemma star_not_blank t : is_empty (trim (byte 42 :: t)) = false.
Proof. apply trim_not_blank. by intros [|? [|? []]]. Qed.
Lemma at_not_blank t : is_empty (trim (byte 64 :: t)) = false.
Proof. apply trim_not_blank. by intros [|? [|? []]]. Qed.

(** What ends the chunks of an update: nothing, or a marker of another kind. *)
Definition after_chunks (rest : list str) : Prop :=
  match rest with
  | [] => True
  | l :: _ => str_eqb l EOF_MARKER = false ∧ ∃ t, l = lit "***" ++ t
  end.

Lemma after_chunks_chunk rest : after_chunks rest -> after_chunk rest.
Proof. destruct rest as [|l rest]; [done|]. intros [He [t ->]]. split; [done|]. by left. Qed.

Lemma printed_chunks_ahead cs rest : after_chunks rest -> after_chunk (concat (map print_chunk cs) ++ rest).
Proof.
  destruct cs as [|c cs]; [apply after_chunks_chunk|]. intros _. cbn. destruct (header c); split; try done; by right.
Qed.

Lemma parse_printed_chunks fuel ln n acc cs rest :
  Forall plain_chunk cs -> after_chunks rest -> length (concat (map print_chunk cs) ++ rest) ≤ fuel ->
  parse_chunks fuel ln n acc (concat (map print_chunk cs) ++ rest)
  = Some (Ok (acc ++ map chunk_meaning cs, n + length (concat (map print_chunk cs)))).
Proof.
  intros Hcs Hrest. revert fuel n acc. induction Hcs as [|c cs Hc Hcs IH]; intros fuel n acc Hf.
  - cbn [map concat app length] in *. rewrite app_nil_r, Nat.add_0_r.
    destruct rest as [|l rest]; [by destruct fuel|]. destruct fuel as [|fuel]; [cbn in Hf; lia|].
    destruct Hrest as [_ [t ->]]. cbn [parse_chunks]. cbn [lit String.list_ascii_of_string app].
    by rewrite star_not_blank.
  - cbn [map concat] in *. rewrite <- app_assoc in *.
    set (more := concat (map print_chunk cs) ++ rest) in *.
    assert (Hp := parse_printed_chunk (ln + n) (is_empty acc) c more Hc (fun _ => printed_chunks_ahead cs rest Hrest)).
    assert (Hh : ∃ t tl, print_chunk c = (byte 64 :: t) :: tl) by (unfold print_chunk; destruct (header c); cbn; eauto).
    destruct Hh as (t & tl & Hpc). rewrite Hpc in *. destruct fuel as [|fuel]; [cbn in Hf; lia|].
    cbn [app parse_chunks]. rewrite at_not_blank. cbn [starts_with lit String.list_ascii_of_string].
    change (ch_eqb _ (byte 64)) with false. cbn [andb]. cbn [app] in Hp. rewrite Hp.
    change ((byte 64 :: t) :: tl ++ more) with (((byte 64 :: t) :: tl) ++ more).
    rewrite drop_app_length, IH by (rewrite length_app in Hf; cbn [length] in Hf; lia).
    cbn [map length]. rewrite <- app_assoc, length_app. do 3 f_equal. lia.
Qed.

Lemma trim_marker s p : plain_path p -> head_is_continuation s = false ->
  trim (lit "***" ++ s ++ p) = lit "***" ++ s ++ p.
Proof. intros (_ & Hne & Ht & Hc) Hs. by apply trim_ends. Qed.

Lemma parse_printed_adds acc n content rest :
  after_chunks rest ->
  parse_add_lines acc n (map (fun l => lit "+" ++ l) content ++ rest)
  = (acc ++ concat (map (fun l => l ++ nl) content), n + length content).
Proof.
  intros Hrest. revert acc n. induction content as [|l content IH]; intros acc n; cbn [map app concat length].
  - rewrite app_nil_r, Nat.add_0_r. destruct rest as [|l rest]; [done|]. by destruct Hrest as [_ [t ->]].
  - cbn [parse_add_lines]. rewrite strip_prefix_app, IH, <- !app_assoc. f_equal. lia.
Qed.

Lemma parse_printed_update ln path move_to cs rest :
  plain_path path -> from_option plain_line True move_to -> cs ≠ [] -> Forall plain_chunk cs -> after_chunks rest ->
  parse_one_hunk (print_op (OpUpdate path move_to cs) ++ rest) ln
  = Some (Ok (op_meaning (OpUpdate path move_to cs), length (print_op (OpUpdate path move_to cs)))).
Proof.
  intros Hp Hm Hne Hcs Hrest. cbn [print_op app parse_one_hunk].
  change (UPDATE_FILE_MARKER ++ path) with (lit "***" ++ lit " Update File: " ++ path).
  rewrite trim_marker by done.
  change (lit "***" ++ lit " Update File: " ++ path) with (UPDATE_FILE_MARKER ++ path) at 3.
  change (strip_prefix ADD_FILE_MARKER _) with (@None str).
  change (strip_prefix DELETE_FILE_MARKER _) with (@None str). cbv beta iota. rewrite strip_prefix_app.
  assert (Hcm : is_empty (map chunk_meaning cs) = false) by (by destruct cs).
  destruct move_to as [d|]; cbn [app head mbind option_bind].
  - rewrite strip_prefix_app. cbn [tail]. rewrite parse_printed_chunks by done.
    cbn [app]. by rewrite Hcm.
  - replace (head _ ≫= strip_prefix MOVE_TO_MARKER) with (@None str).
    + rewrite parse_printed_chunks by done. cbn [app]. by rewrite Hcm.
    + destruct cs as [|c cs]; [done|]. cbn. by destruct (header c).
Qed.

Lemma parse_printed_op ln op rest :
  plain_op op -> after_chunks rest ->
  parse_one_hunk (print_op op ++ rest) ln = Some (Ok (op_meaning op, length (print_op op))).
Proof.
  destruct op as [path content|path|path move_to cs].
  - intros [Hp _] Hrest. cbn [print_op app parse_one_hunk].
    change (ADD_FILE_MARKER ++ path) with (lit "***" ++ lit " Add File: " ++ path).
    rewrite trim_marker by done.
    change (lit "***" ++ lit " Add File: " ++ path) with (ADD_FILE_MARKER ++ path).
    rewrite strip_prefix_app, parse_printed_adds by done. cbn. by rewrite length_map.
  - intros Hp Hrest. cbn [print_op app parse_one_hunk].
    change (DELETE_FILE_MARKER ++ path) with (lit "***" ++ lit " Delete File: " ++ path).
    rewrite trim_marker by done.
    change (lit "***" ++ lit " Delete File: " ++ path) with (DELETE_FILE_MARKER ++ path) at 2.
    change (strip_prefix ADD_FILE_MARKER _) with (@None str). cbv beta iota. by rewrite strip_prefix_app.
  - intros (Hp & Hm & Hne & Hcs) Hrest. by apply parse_printed_update.
Qed.

Lemma printed_ops_ahead ops : after_chunks (concat (map print_op ops)).
Proof. destruct ops as [|[] ops]; [done|..]; cbn; split; try done; eexists; reflexivity. Qed.

Lemma parse_printed_ops fuel ln acc ops :
  Forall plain_op ops -> length (concat (map print_op ops)) ≤ fuel ->
  parse_hunks fuel ln acc (concat (map print_op ops)) = Some (Ok (acc ++ map op_meaning ops)).
Proof.
  intros Hops. revert fuel ln acc. induction Hops as [|op ops Hop Hops IH]; intros fuel ln acc Hf.
  - destruct fuel; cbn; by rewrite app_nil_r.
  - cbn [map concat] in *. pose proof (parse_printed_op ln op _ Hop (printed_ops_ahead ops)) as Hp.
    assert (Hh : ∃ l tl, print_op op = l :: tl) by (destruct op; cbn; eauto). destruct Hh as (l & tl & Hpo).
    rewrite length_app in Hf. rewrite Hpo in *. destruct fuel as [|fuel]; [cbn in Hf; lia|].
    cbn [app parse_hunks] in *. rewrite Hp.
    change (l :: tl ++ concat (map print_op ops)) with ((l :: tl) ++ concat (map print_op ops)).
    rewrite drop_app_length, IH by (cbn in Hf; lia). by rewrite <- app_assoc.
Qed.

Lemma plain_line_app l m : plain_line l -> plain_line m -> plain_line (l ++ m).
Proof.
  intros [Hl1 Hl2] [Hm1 Hm2]. split; [by rewrite elem_of_app; intros [|]|].
  rewrite last_app. by destruct (last m).
Qed.

Lemma plain_lit s : bool_decide (byte 10 ∉ lit s ∧ last (lit s) ≠ Some (byte 13)) = true -> plain_line (lit s).
Proof. apply bool_decide_eq_true_1. Qed.

Ltac plain := repeat first [apply plain_line_app | apply plain_lit; vm_compute; reflexivity | done].

Lemma plain_chunk_lines c : plain_chunk c -> Forall plain_line (print_chunk c).
Proof.
  intros (_ & Hh & Hc). unfold print_chunk. constructor; [destruct (header c); cbn [from_option print_header] in *; plain|].
  apply Forall_app. split; [|destruct (at_eof c); [constructor; [plain|done]|done]].
  apply Forall_map. eapply Forall_impl; [exact Hc|]. intros [] Hl; cbn [print_change change_text] in *; plain.
Qed.

Lemma plain_op_lines op : plain_op op -> Forall plain_line (print_op op).
Proof.
  destruct op as [path content|path|path move_to cs]; cbn [plain_op print_op].
  - intros [[Hp _] Hc]. constructor; [plain|]. apply Forall_map. eapply Forall_impl; [exact Hc|]. intros l Hl. plain.
  - intros [Hp _]. constructor; [plain|done].
  - intros ([Hp _] & Hm & _ & Hc). constructor; [plain|]. apply Forall_app. split.
    + destruct move_to; [|done]. cbn [from_option] in Hm. constructor; [plain|done].
    + apply Forall_concat, Forall_map. eapply Forall_impl; [exact Hc|]. apply plain_chunk_lines.
Qed.

Lemma patch_lines_plain ops : Forall plain_op ops -> Forall plain_line (BEGIN_PATCH_MARKER :: concat (map print_op ops)).
Proof.
  intros Hops. constructor; [plain|]. apply Forall_concat, Forall_map. eapply Forall_impl; [exact Hops|]. apply plain_op_lines.
Qed.

Lemma printed_patch_lines ops : Forall plain_op ops -> lines (trim (print_patch ops)) = patch_lines ops.
Proof.
  intros Hops. pose proof (patch_lines_plain ops Hops) as Hl.
  assert (Hend : plain_line END_PATCH_MARKER) by plain.
  unfold print_patch, patch_lines. rewrite app_comm_cons, join_snoc. cbn [map concat].
  rewrite <- !app_assoc, (app_assoc nl), trim_ends by done.
  rewrite <- (lines_join _ END_PATCH_MARKER Hl) by (apply Hend || done).
  rewrite join_snoc. cbn [map concat]. by rewrite <- !app_assoc.
Qed.

Lemma patch_lines_bounds ops : check_patch_boundaries_strict (patch_lines ops) = Ok tt.
Proof. unfold check_patch_boundaries_strict, patch_lines. rewrite app_comm_cons, last_snoc. vm_compute. reflexivity. Qed.

Lemma patch_lines_inner ops : inner_lines (patch_lines ops) = concat (map print_op ops).
Proof. unfold inner_lines, patch_lines. cbn [tail]. apply removelast_last. Qed.

Lemma parse_patch_lines ops : Forall plain_op ops ->
  parse_hunks (length (patch_lines ops)) 2 [] (inner_lines (patch_lines ops)) = Some (Ok (map op_meaning ops)).
Proof.
  intros Hops. rewrite patch_lines_inner, parse_printed_ops; [done..|]. unfold patch_lines. cbn. rewrite length_app. lia.
Qed.


(** The lenient mode unwraps a heredoc; the strict one refuses it. *)
Lemma heredoc_is_unwrapped start ops :
  heredoc_start start = true -> Forall plain_op ops ->
  parse_patch (join nl ((start :: patch_lines ops) ++ [lit "EOF"])) = Some (Ok (mkParsed (map op_meaning ops) (print_patch ops))).
Proof.
  intros Hs Hops.
  assert (Hstart : plain_line start ∧ start ≠ [] ∧ trim start = start ∧ str_eqb start BEGIN_PATCH_MARKER = false).
  { unfold heredoc_start in Hs. rewrite !orb_true_iff, !str_eqb_eq in Hs.
    destruct Hs as [[-> | ->] | ->]; split_and!; try done; apply plain_lit || (split; by_decide); by vm_compute. }
  destruct Hstart as (Hpl & Hne & Ht & Hb).
  assert (Hl : Forall plain_line (start :: patch_lines ops)).
  { constructor; [done|]. unfold patch_lines. rewrite app_comm_cons. apply Forall_app.
    split; [by apply patch_lines_plain|]. constructor; [plain|done]. }
  assert (Htext : lines (trim (join nl ((start :: patch_lines ops) ++ [lit "EOF"]))) = (start :: patch_lines ops) ++ [lit "EOF"]).
  { rewrite <- (lines_join _ (lit "EOF") Hl) at 2 by by_decide. f_equal.
    rewrite join_snoc. cbn [map concat]. rewrite <- !app_assoc, (app_assoc nl). by apply trim_ends. }
  unfold parse_patch, parse_patch_text. rewrite Htext.
  assert (Hstrict : ∃ e, check_patch_boundaries_strict ((start :: patch_lines ops) ++ [lit "EOF"]) = Err e).
  { unfold check_patch_boundaries_strict. rewrite last_snoc. cbn [app head]. unfold check_start_and_end_lines_strict.
    cbn [fmap option_fmap option_map]. rewrite Ht, Hb. cbn. eauto. }
  destruct Hstrict as [e ->]. unfold PARSE_IN_STRICT_MODE, check_patch_boundaries_lenient.
  assert (Hlen : 4 <=? length ((start :: patch_lines ops) ++ [lit "EOF"]) = true).
  { apply Nat.leb_le. unfold patch_lines. rewrite length_app. cbn. rewrite length_app. cbn. lia. }
  rewrite Hlen, last_snoc. unfold patch_lines at 1. cbn [app]. rewrite Hs.
  change (ends_with _ _) with true. cbn [andb tail default from_option id app].
  change (BEGIN_PATCH_MARKER :: (concat (map print_op ops) ++ [END_PATCH_MARKER]) ++ [lit "EOF"])
    with (patch_lines ops ++ [lit "EOF"]).
  rewrite removelast_last, patch_lines_bounds, parse_patch_lines by done. reflexivity.
Qed.

(** * Runs *)

Definition text_of (ls : list str) : str := join nl ls.

Definition envelope (body : list str) : str := text_of (BEGIN_PATCH_MARKER :: body ++ [END_PATCH_MARKER]).

(** The patch of the tool's description, with its context header. *)
Definition demo_ops : list FileOp :=
  [OpAdd (lit "hello.txt") [lit "Hello world"];
   OpUpdate (lit "src/app.py") (Some (lit "src/main.py"))
     [mkSource (Some (lit "def greet():")) [Removed (lit "print('Hi')"); Added (lit "print('Hello')")] false];
   OpDelete (lit "obsolete.txt")].

Lemma demo_ops_plain : Forall plain_op demo_ops.
Proof.
  repeat (constructor || (split; [by_decide|]) || (apply plain_lit; by vm_compute) || by_decide || done || split).
Qed.


(** The description offers several context lines for one chunk; the second is refused. *)
Example repeated_context_is_refused :
  parse_patch (envelope [lit "*** Update File: a.py"; lit "@@ class BaseClass"; lit "@@ def method():"; lit "-x"; lit "+y"])
  = Some (Err (InvalidHunkError (lit "Unexpected line found in update hunk: '@@ def method():'. Every line should start with ' ' (context line), '+' (added line), or '-' (removed line)") 4)).
Proof. vm_compute. reflexivity. Qed.

(** The grammar makes the change of an update optional; a rename alone is refused. *)
Example rename_alone_is_refused :
  parse_patch (envelope [lit "*** Update File: a.py"; lit "*** Move to: b.py"])
  = Some (Err (InvalidHunkError (lit "Update file hunk for path 'a.py' is empty") 2)).
Proof. vm_compute. reflexivity. Qed.

(** Without a context marker the line blamed is the one after the faulty line. *)
Example blamed_line_is_the_next :
  parse_patch (envelope [lit "*** Update File: a.py"; lit "bad"])
  = Some (Err (InvalidHunkError (lit "Unexpected line found in update hunk: 'bad'. Every line should start with ' ' (context line), '+' (added line), or '-' (removed line)") 4)).
Proof. vm_compute. reflexivity. Qed.

(** A blank line between two chunks is a context line of the first. *)
Example blank_line_is_context :
  parse_patch (envelope [lit "*** Update File: a.py"; lit "@@"; lit "-x"; []; lit "@@"; lit "-y"])
  = Some (Ok (mkParsed [UpdateFile (lit "a.py") None
       [mkChunk None [lit "x"; []] [[]] false; mkChunk None [lit "y"] [] false]]
     (envelope [lit "*** Update File: a.py"; lit "@@"; lit "-x"; []; lit "@@"; lit "-y"]))).
Proof. vm_compute. reflexivity. Qed.

(** A marker with white space before it is a marker after an added file, and a
    context line after an update. *)
Example indented_marker_is_context :
  parse_patch (envelope [lit "*** Update File: a.py"; lit "@@"; lit "-x"; lit " *** Delete File: b.py"])
  = Some (Ok (mkParsed [UpdateFile (lit "a.py") None
       [mkChunk None [lit "x"; lit "*** Delete File: b.py"] [lit "*** Delete File: b.py"] false]]
     (envelope [lit "*** Update File: a.py"; lit "@@"; lit "-x"; lit " *** Delete File: b.py"]))).
Proof. vm_compute. reflexivity. Qed.
