(* ===== verification/PatchApply.v ===== *)
(** * The patch engine of the apply_patch tool

    crates/codegen/xai-grok-tools/src/implementations/codex/apply_patch,
    seek_sequence.rs and apply.rs: the block a chunk replaces is looked for in
    four passes of decreasing strictness, the replacements of the chunks are
    collected, sorted by their position (stably, as the standard library sorts)
    and applied last first. An insertion past the end of a vector panics, which
    is [None] here; [derive_never_panics] says that it does not happen. *)

From S2P Require Export PatchParser.
From Stdlib Require Import Sorting.Sorted.

(** ** Looking for a block of lines *)

(** The ASCII character a typographic one stands for. Source: crates/codegen/xai-grok-tools/src/implementations/codex/apply_patch/seek_sequence.rs:97-110, [normalise]. *)
Definition normalise_char (ch : str) : str :=
  match map N_of_ascii ch with
  | [226; 128; b] =>
      if N.leb 144 b && N.leb b 149 then lit "-"
      else if N.leb 152 b && N.leb b 155 then lit "'"
      else if N.leb 156 b && N.leb b 159 then dq
      else if (N.leb 130 b && N.leb b 138) || N.eqb b 175 then lit " "
      else ch
  | [226; 136; 146] => lit "-"
  | [226; 129; 159] | [227; 128; 128] => lit " "
  | [194; 160] => lit " "
  | _ => ch
  end%N.

(** Source: crates/codegen/xai-grok-tools/src/implementations/codex/apply_patch/seek_sequence.rs:94-112, [normalise]. *)
Definition normalise (s : str) : str := concat (map normalise_char (chars (trim s))).

(** [lines.get(i..j)]. *)
Definition get_range {A} (l : list A) (i j : nat) : option (list A) :=
  if (i <=? j) && (j <=? length l) then Some (take (j - i) (drop i l)) else None.

(** The test of the first pass. *)
Definition exact_at (ls pattern : list str) (i : nat) : bool :=
  bool_decide (get_range ls i (i + length pattern) = Some pattern).

(** The test of a pass that compares line by line: [p_idx] counts the lines of
    the pattern. *)
Fixpoint lines_at (f : str -> str) (ls pattern : list str) (i : nat) : bool :=
  match pattern with
  | [] => true
  | pat :: pattern' =>
      match ls !! i with
      | None => false
      | Some line => if str_eqb (f line) (f pat) then lines_at f ls pattern' (S i) else false
      end
  end.

(** [for i in start..start + count], with a return at the first [i] that passes. *)
Fixpoint first_index (test : nat -> bool) (start count : nat) : option nat :=
  match count with
  | 0 => None
  | S count' => if test start then Some start else first_index test (S start) count'
  end.

(** Source: crates/codegen/xai-grok-tools/src/implementations/codex/apply_patch/seek_sequence.rs:26-132, [seek_sequence]. *)
Definition seek_sequence (ls pattern : list str) (start : nat) (eof : bool) : option nat :=
  if is_empty pattern then Some start
  else if length ls <? length pattern then None
  else
    let search_start :=
      if eof && (length pattern <=? length ls) then length ls - length pattern else start in
    let count := S (length ls - length pattern) - search_start in
    match first_index (exact_at ls pattern) search_start count with
    | Some i => Some i
    | None =>
    match first_index (lines_at trim_end ls pattern) search_start count with
    | Some i => Some i
    | None =>
    match first_index (lines_at trim ls pattern) search_start count with
    | Some i => Some i
    | None => first_index (lines_at normalise ls pattern) search_start count
    end end end.

(** ** Replacements *)

(** Source: crates/codegen/xai-grok-tools/src/implementations/codex/apply_patch/errors.rs:17-36, [ApplyPatchError]. *)
Inductive ApplyPatchError :=
  | Parse (e : ParseError)
  | ComputeReplacements (message : str)
  | Io (context message : str) (path : option str).

Record Replacement := mkReplacement { rp_start : nat; rp_len : nat; rp_lines : list str }.

#[export] Instance ApplyPatchError_eq_dec : EqDecision ApplyPatchError.
Proof. solve_decision. Defined.
#[export] Instance Replacement_eq_dec : EqDecision Replacement.
Proof. solve_decision. Defined.

Definition last_is_empty (ls : list str) : bool :=
  match last ls with Some l => is_empty l | None => false end.

(** The block a chunk replaces, from [line_index] on, with a retry without the
    final empty line. Source: crates/codegen/xai-grok-tools/src/implementations/codex/apply_patch/apply.rs:86-101, [compute_replacements]. *)
Definition locate_chunk (original_lines : list str) (chunk : UpdateFileChunk) (line_index : nat) : option Replacement :=
  let pattern := old_lines chunk in
  match seek_sequence original_lines pattern line_index (is_end_of_file chunk) with
  | Some i => Some (mkReplacement i (length pattern) (new_lines chunk))
  | None =>
      if last_is_empty pattern then
        let pattern := removelast pattern in
        let new_slice := if last_is_empty (new_lines chunk) then removelast (new_lines chunk) else new_lines chunk in
        match seek_sequence original_lines pattern line_index (is_end_of_file chunk) with
        | Some i => Some (mkReplacement i (length pattern) new_slice)
        | None => None
        end
      else None
  end.

(** Where the search of a chunk starts: after its context line. Source: crates/codegen/xai-grok-tools/src/implementations/codex/apply_patch/apply.rs:54-69, [compute_replacements]. *)
Definition seek_context (original_lines : list str) (path : str) (context : option str) (line_index : nat)
    : result nat ApplyPatchError :=
  match context with
  | None => Ok line_index
  | Some ctx_line =>
      match seek_sequence original_lines [ctx_line] line_index false with
      | Some idx => Ok (idx + 1)
      | None => Err (ComputeReplacements (lit "Failed to find context '" ++ ctx_line ++ lit "' in " ++ path))
      end
  end.

(** Source: crates/codegen/xai-grok-tools/src/implementations/codex/apply_patch/apply.rs:74-78, [compute_replacements]. *)
Definition insertion_idx (original_lines : list str) : nat :=
  if last_is_empty original_lines then length original_lines - 1 else length original_lines.

(** The loop of [compute_replacements]. Source: crates/codegen/xai-grok-tools/src/implementations/codex/apply_patch/apply.rs:48-113, [compute_replacements]. *)
Fixpoint collect_replacements (original_lines : list str) (path : str) (line_index : nat) (chunks : list UpdateFileChunk)
    : result (list Replacement) ApplyPatchError :=
  match chunks with
  | [] => Ok []
  | chunk :: chunks' =>
      match seek_context original_lines path (change_context chunk) line_index with
      | Err e => Err e
      | Ok line_index =>
          let found :=
            if is_empty (old_lines chunk) then
              Some (mkReplacement (insertion_idx original_lines) 0 (new_lines chunk), line_index)
            else
              match locate_chunk original_lines chunk line_index with
              | Some r => Some (r, rp_start r + rp_len r)
              | None => None
              end in
          match found with
          | None =>
              Err (ComputeReplacements
                (lit "Failed to find expected lines in " ++ path ++ lit ":" ++ nl ++ join nl (old_lines chunk)))
          | Some (r, line_index) =>
              match collect_replacements original_lines path line_index chunks' with
              | Err e => Err e
              | Ok rs => Ok (r :: rs)
              end
          end
      end
  end.

(** Source: crates/codegen/xai-grok-tools/src/implementations/codex/apply_patch/apply.rs:43-118, [compute_replacements]. *)
Definition compute_replacements (original_lines : list str) (path : str) (chunks : list UpdateFileChunk)
    : result (list Replacement) ApplyPatchError :=
  match collect_replacements original_lines path 0 chunks with
  | Err e => Err e
  | Ok rs => Ok (sort_asc rp_start rs)
  end.

(** [if start < lines.len() { lines.remove(start) }], [n] times. *)
Fixpoint remove_lines (n start : nat) (ls : list str) : list str :=
  match n with
  | 0 => ls
  | S n' => remove_lines n' start (if start <? length ls then take start ls ++ drop (S start) ls else ls)
  end.

(** [lines.insert(index, line)] for successive lines; it panics past the end. *)
Fixpoint insert_lines (index : nat) (new : list str) (ls : list str) : option (list str) :=
  match new with
  | [] => Some ls
  | l :: new' =>
      if index <=? length ls then insert_lines (S index) new' (take index ls ++ l :: drop index ls) else None
  end.

Definition apply_replacement (r : Replacement) (ls : list str) : option (list str) :=
  insert_lines (rp_start r) (rp_lines r) (remove_lines (rp_len r) (rp_start r) ls).

(** Source: crates/codegen/xai-grok-tools/src/implementations/codex/apply_patch/apply.rs:123-145, [apply_replacements]. *)
Definition apply_replacements (ls : list str) (rs : list Replacement) : option (list str) :=
  foldr (fun r acc => acc ≫= apply_replacement r) (Some ls) rs.

(** Source: crates/codegen/xai-grok-tools/src/implementations/codex/apply_patch/apply.rs:21-27, [derive_new_contents]. *)
Definition content_lines (content : str) : list str :=
  let ls := split nl content in if last_is_empty ls then removelast ls else ls.

(** Source: crates/codegen/xai-grok-tools/src/implementations/codex/apply_patch/apply.rs:32-37, [derive_new_contents]. *)
Definition lines_content (ls : list str) : str :=
  join nl (if last_is_empty ls then ls else ls ++ [[]]).

(** Source: crates/codegen/xai-grok-tools/src/implementations/codex/apply_patch/apply.rs:16-38, [derive_new_contents]. *)
Definition derive_new_contents (original_content : str) (path : str) (chunks : list UpdateFileChunk)
    : option (result str ApplyPatchError) :=
  let original_lines := content_lines original_content in
  match compute_replacements original_lines path chunks with
  | Err e => Some (Err e)
  | Ok rs =>
      match apply_replacements original_lines rs with
      | None => None
      | Some ls => Some (Ok (lines_content ls))
      end
  end.

(** ** What the engine promises *)

(** The passes, by what each compares. *)
Definition seek_tiers : list (str -> str) := [id; trim_end; trim; normalise].

(** The block of the pattern's length at [i] is the pattern, up to [f]. *)
Definition block_matches (f : str -> str) (ls pattern : list str) (i : nat) : Prop :=
  map f (take (length pattern) (drop i ls)) = map f pattern.

Definition search_from (ls pattern : list str) (start : nat) (eof : bool) : nat :=
  if eof then length ls - length pattern else start.

(** A search that starts at [start] answers [answer]: the first block of the
    strictest pass that has one. *)
Definition seek_answer (ls pattern : list str) (start : nat) (answer : option nat) : Prop :=
  match answer with
  | Some i =>
      start ≤ i ∧ i + length pattern ≤ length ls
      ∧ ∃ k f, seek_tiers !! k = Some f ∧ block_matches f ls pattern i
        ∧ (∀ j, start ≤ j < i -> ¬ block_matches f ls pattern j)
        ∧ (∀ k' f' j, k' < k -> seek_tiers !! k' = Some f' -> start ≤ j -> ¬ block_matches f' ls pattern j)
  | None => ∀ f j, f ∈ seek_tiers -> start ≤ j -> ¬ block_matches f ls pattern j
  end.

(** Replacements that follow each other, from [pos] on, in a file of [len] lines. *)
Fixpoint ordered_from (pos len : nat) (rs : list Replacement) : Prop :=
  match rs with
  | [] => pos ≤ len
  | r :: rs' => pos ≤ rp_start r ∧ ordered_from (rp_start r + rp_len r) len rs'
  end.

(** The file with its blocks replaced, first to last. *)
Fixpoint splice_from (pos : nat) (rs : list Replacement) (ls : list str) : list str :=
  match rs with
  | [] => drop pos ls
  | r :: rs' =>
      take (rp_start r - pos) (drop pos ls) ++ rp_lines r ++ splice_from (rp_start r + rp_len r) rs' ls
  end.

(** The search of a chunk goes on after its context line, if it has one. *)
Inductive after_context (ls : list str) (from : nat) : option str -> nat -> Prop :=
  | no_context : after_context ls from None from
  | context_found l i : seek_answer ls [l] from (Some i) -> after_context ls from (Some l) (i + 1).

(** What a chunk asks to replace: its old lines by its new lines or, when its old
    lines are not found and end with an empty line, both without that line. *)
Inductive wanted (ls : list str) (from : nat) (c : UpdateFileChunk) : list str -> list str -> Prop :=
  | wanted_whole : wanted ls from c (old_lines c) (new_lines c)
  | wanted_short :
      seek_answer ls (old_lines c) from None -> last_is_empty (old_lines c) = true ->
      wanted ls from c (removelast (old_lines c))
        (if last_is_empty (new_lines c) then removelast (new_lines c) else new_lines c).

(** [patched ls copied from chunks body tail]: the lines up to [copied] are dealt
    with and the search is at [from]; each chunk with old lines replaces the first
    block of its own after the one before, the lines between are kept, and the
    chunks that only add lines add them, in order, at the end. *)
Inductive patched (ls : list str) : nat -> nat -> list UpdateFileChunk -> list str -> list str -> Prop :=
  | patched_done copied from : patched ls copied from [] (drop copied ls) []
  | patched_append copied from from' c cs body tl :
      after_context ls from (change_context c) from' -> old_lines c = [] ->
      patched ls copied from' cs body tl ->
      patched ls copied from (c :: cs) body (new_lines c ++ tl)
  | patched_block copied from from' i pattern new c cs body tl :
      after_context ls from (change_context c) from' -> old_lines c ≠ [] ->
      wanted ls from' c pattern new -> seek_answer ls pattern from' (Some i) ->
      patched ls (i + length pattern) (i + length pattern) cs body tl ->
      patched ls copied from (c :: cs) (take (i - copied) (drop copied ls) ++ new ++ body) tl.

(** A chunk that is not tied to the end of the file and whose old lines are not
    one empty line. *)
Definition free_chunk (c : UpdateFileChunk) : Prop := is_end_of_file c = false ∧ old_lines c ≠ [[]].

(** * The search *)

Lemma first_index_spec test start count :
  match first_index test start count with
  | Some i => start ≤ i < start + count ∧ test i = true ∧ ∀ j, start ≤ j < i -> test j = false
  | None => ∀ j, start ≤ j < start + count -> test j = false
  end.
Proof.
  revert start. induction count as [|count IH]; intros start; cbn [first_index]; [lia|].
  destruct (test start) eqn:Ht; [split_and!; [lia|lia|done|lia]|].
  specialize (IH (S start)). destruct (first_index test (S start) count) as [i|].
  - destruct IH as (? & ? & Hj). split_and!; [lia|lia|done|]. intros j Hr.
    destruct (decide (j = start)) as [->|]; [done|]. apply Hj. lia.
  - intros j Hr. destruct (decide (j = start)) as [->|]; [done|]. apply IH. lia.
Qed.

Lemma block_matches_bound f ls pattern i : pattern ≠ [] -> block_matches f ls pattern i -> i + length pattern ≤ length ls.
Proof.
  intros Hne Hm. apply (f_equal length) in Hm. rewrite !length_map, length_take, length_drop in Hm.
  destruct pattern; [done|]. cbn [length] in *. lia.
Qed.

Lemma exact_at_spec ls pattern i : exact_at ls pattern i = true <-> i + length pattern ≤ length ls ∧ block_matches id ls pattern i.
Proof.
  unfold exact_at, get_range, block_matches. rewrite bool_decide_eq_true.
  assert (Hid : ∀ l : list str, map id l = l) by (intros l; induction l; cbn; congruence). rewrite !Hid.
  destruct (Nat.leb_spec i (i + length pattern)); [|lia]. cbn [andb].
  replace (i + length pattern - i) with (length pattern) by lia.
  destruct (Nat.leb_spec (i + length pattern) (length ls)); split.
  - by intros [= ->].
  - by intros [_ ->].
  - done.
  - intros [? _]. lia.
Qed.

Lemma lines_at_spec f ls pattern i : lines_at f ls pattern i = true <-> block_matches f ls pattern i.
Proof.
  unfold block_matches. revert i. induction pattern as [|p pattern IH]; intros i; cbn [lines_at length].
  - by rewrite take_0.
  - destruct (ls !! i) as [l|] eqn:Hl.
    + rewrite (drop_lookup_cons _ _ _ Hl). cbn [take map]. destruct (str_eqb (f l) (f p)) eqn:He.
      * apply str_eqb_eq in He as ->. rewrite IH. split; [by intros ->|by intros [= ->]].
      * split; [done|]. intros [= Hfe _]. apply str_eqb_eq in Hfe. congruence.
    + apply lookup_ge_None in Hl. by rewrite drop_ge.
Qed.

(** A pass of the search. *)
Lemma pass_spec test f ls pattern start :
  pattern ≠ [] ->
  (∀ i, i + length pattern ≤ length ls -> test i = true <-> block_matches f ls pattern i) ->
  length pattern ≤ length ls ->
  match first_index test start (S (length ls - length pattern) - start) with
  | Some i => start ≤ i ∧ i + length pattern ≤ length ls ∧ block_matches f ls pattern i
              ∧ (∀ j, start ≤ j < i -> ¬ block_matches f ls pattern j)
  | None => ∀ j, start ≤ j -> ¬ block_matches f ls pattern j
  end.
Proof.
  intros Hne Htest Hlen.
  pose proof (first_index_spec test start (S (length ls - length pattern) - start)) as Hs.
  destruct (first_index _ _ _) as [i|].
  - destruct Hs as (? & Ht & Hj). split_and!; [lia..|apply Htest; [lia|done]|].
    intros j Hr Hm. pose proof (block_matches_bound _ _ _ _ Hne Hm).
    apply Htest in Hm; [|lia]. rewrite Hj in Hm by lia. done.
  - intros j Hr Hm. pose proof (block_matches_bound _ _ _ _ Hne Hm).
    apply Htest in Hm; [|lia]. rewrite Hs in Hm by lia. done.
Qed.

Lemma id_tier l : map (id : str -> str) l = l.
Proof. induction l; cbn; congruence. Qed.

(** The passes before the one that answered found nothing. *)
Ltac strictest :=
  let k := fresh in let f := fresh in let Hk := fresh in let Hf := fresh in
  intros k f ? Hk Hf; destruct k as [|[|[|k]]]; first [lia | cbn in Hf; injection Hf as <-; eauto].

Lemma seek_sequence_answer ls pattern start eof :
  pattern ≠ [] ->
  seek_answer ls pattern (search_from ls pattern start eof) (seek_sequence ls pattern start eof).
Proof.
  intros Hne. unfold seek_sequence, search_from. rewrite (proj2 (is_empty_false _)) by done.
  destruct (Nat.ltb_spec (length ls) (length pattern)) as [Hlt|Hlen].
  { intros f j _ _ Hm. pose proof (block_matches_bound _ _ _ _ Hne Hm). lia. }
  replace (eof && _) with eof by (destruct eof; [symmetry; by apply Nat.leb_le|done]).
  set (s := if eof then _ else _).
  assert (H1 := pass_spec (exact_at ls pattern) id ls pattern s Hne
                 ltac:(intros i Hi; rewrite exact_at_spec; naive_solver) Hlen).
  assert (Hp : ∀ f, _) by (intros f; exact (pass_spec _ f ls pattern s Hne (fun i _ => lines_at_spec f ls pattern i) Hlen)).
  pose proof (Hp trim_end) as H2. pose proof (Hp trim) as H3. pose proof (Hp normalise) as H4. clear Hp.
  destruct (first_index (exact_at _ _) _ _) as [i|].
  { destruct H1 as (? & ? & ? & ?). split_and!; [done..|]. exists 0, id. split_and!; try done. lia. }
  destruct (first_index (lines_at trim_end _ _) _ _) as [i|].
  { destruct H2 as (? & ? & ? & ?). split_and!; [done..|]. exists 1, trim_end. split_and!; try done.
    strictest. }
  destruct (first_index (lines_at trim _ _) _ _) as [i|].
  { destruct H3 as (? & ? & ? & ?). split_and!; [done..|]. exists 2, trim. split_and!; try done.
    strictest. }
  destruct (first_index (lines_at normalise _ _) _ _) as [i|].
  { destruct H4 as (? & ? & ? & ?). split_and!; [done..|]. exists 3, normalise. split_and!; try done.
    strictest. }
  intros f j Hf Hj. unfold seek_tiers in Hf. rewrite !elem_of_cons, elem_of_nil in Hf.
  destruct Hf as [-> |[-> |[-> |[-> |[]]]]]; auto.
Qed.

(** The search finds the first block of the strictest pass that has one,
    exact lines, then trailing white space ignored, then white space on both
    sides, then typographic characters made ASCII; it fails only when no pass has
    a block from the start on. A chunk of the end of the file is searched at the
    end only. *)
Theorem seek_finds_the_first_strictest ls pattern start eof :
  pattern ≠ [] ->
  seek_answer ls pattern (search_from ls pattern start eof) (seek_sequence ls pattern start eof).
Proof. apply seek_sequence_answer. Qed.

Lemma seek_sequence_bound ls pattern start eof i :
  start ≤ length ls -> seek_sequence ls pattern start eof = Some i -> i + length pattern ≤ length ls.
Proof.
  intros Hs Hi. destruct pattern as [|p pattern].
  - injection Hi as <-. cbn. lia.
  - pose proof (seek_sequence_answer ls (p :: pattern) start eof ltac:(done)) as Ha. rewrite Hi in Ha. apply Ha.
Qed.

(** * Replacements in order *)

Lemma remove_lines_spec n s ls : remove_lines n s ls = take s ls ++ drop (s + n) ls.
Proof.
  revert ls. induction n as [|n IH]; intros ls; cbn [remove_lines]; [by rewrite Nat.add_0_r, take_drop|].
  rewrite IH. destruct (Nat.ltb_spec s (length ls)) as [Hs|Hs].
  - rewrite take_app_length' by (rewrite length_take; lia).
    rewrite drop_app_ge by (rewrite length_take; lia).
    rewrite length_take, drop_drop. do 2 f_equal. lia.
  - by rewrite !drop_ge by lia.
Qed.

Lemma insert_lines_spec i new ls : i ≤ length ls -> insert_lines i new ls = Some (take i ls ++ new ++ drop i ls).
Proof.
  revert i ls. induction new as [|l new IH]; intros i ls Hi; cbn [insert_lines app]; [by rewrite take_drop|].
  rewrite (proj2 (Nat.leb_le _ _) Hi). rewrite IH by (rewrite length_app, length_take; cbn; rewrite length_drop; lia).
  rewrite (cons_middle l), (app_assoc (take i ls)). f_equal.
  assert (Hl : length (take i ls ++ [l]) = S i) by (rewrite length_app, length_take; cbn; lia).
  rewrite take_app_length', drop_app_length' by done. by rewrite <- app_assoc.
Qed.

Lemma apply_replacement_spec r ls :
  rp_start r ≤ length ls ->
  apply_replacement r ls = Some (take (rp_start r) ls ++ rp_lines r ++ drop (rp_start r + rp_len r) ls).
Proof.
  intros Hs. unfold apply_replacement. rewrite remove_lines_spec, insert_lines_spec.
  - by rewrite take_app_length', drop_app_length' by (rewrite length_take; lia).
  - rewrite length_app, length_take. lia.
Qed.

Lemma ordered_from_bound pos len rs : ordered_from pos len rs -> pos ≤ len.
Proof. revert pos. induction rs as [|r rs IH]; intros pos; cbn; [done|]. intros [? Ho%IH]. lia. Qed.

Lemma apply_ordered ls rs pos :
  ordered_from pos (length ls) rs -> apply_replacements ls rs = Some (take pos ls ++ splice_from pos rs ls).
Proof.
  revert pos. induction rs as [|r rs IH]; intros pos; cbn [ordered_from splice_from].
  - intros _. cbn. by rewrite take_drop.
  - intros [Hp Ho]. pose proof (ordered_from_bound _ _ _ Ho) as Hb.
    unfold apply_replacements in *. cbn [foldr]. rewrite (IH _ Ho). cbn [mbind option_bind].
    rewrite apply_replacement_spec by (rewrite length_app, length_take; lia).
    rewrite take_app_le by (rewrite length_take; lia). rewrite take_take, Nat.min_l by lia.
    rewrite drop_app_length' by (rewrite length_take; lia).
    f_equal. rewrite (app_assoc (take pos ls)). f_equal.
    rewrite take_take_drop. f_equal. lia.
Qed.

(** Applying the replacements last first, so that none moves the position of
    another, is replacing the blocks first to last, when they follow each other:
    the rest of the file is kept. *)
Theorem backwards_is_forwards ls rs :
  ordered_from 0 (length ls) rs -> apply_replacements ls rs = Some (splice_from 0 rs ls).
Proof. apply apply_ordered. Qed.

(** * Sorted replacements, in bounds *)

Definition in_bounds (len : nat) (r : Replacement) : Prop := rp_start r + rp_len r ≤ len.

Lemma apply_in_bounds ls rs :
  StronglySorted (key_le rp_start) rs -> Forall (in_bounds (length ls)) rs ->
  ∃ ls', apply_replacements ls rs = Some ls' ∧ ∀ k, k ≤ length ls -> Forall (fun r => k ≤ rp_start r) rs -> k ≤ length ls'.
Proof.
  induction 1 as [|r rs Hs IH Hf]; intros Hb; [by exists ls|].
  apply Forall_cons in Hb as [Hr Hb]. destruct (IH Hb) as (ls' & Ha & Hl). unfold apply_replacements in *.
  cbn [foldr]. rewrite Ha. cbn [mbind option_bind].
  assert (Hrl : rp_start r ≤ length ls') by (apply Hl; [unfold in_bounds in Hr; lia|done]).
  rewrite apply_replacement_spec by done. eexists. split; [done|].
  intros k Hk [Hkr _]%Forall_cons. rewrite length_app, length_take. lia.
Qed.

Lemma locate_in_bounds ls c li r : li ≤ length ls -> locate_chunk ls c li = Some r -> in_bounds (length ls) r.
Proof.
  intros Hli. unfold locate_chunk, in_bounds.
  destruct (seek_sequence ls (old_lines c) li (is_end_of_file c)) as [i|] eqn:Hs.
  { intros [= <-]. by eapply seek_sequence_bound. }
  destruct (last_is_empty (old_lines c)); [|done].
  destruct (seek_sequence ls (removelast (old_lines c)) li (is_end_of_file c)) as [i|] eqn:Hs'; [|done].
  intros [= <-]. by eapply seek_sequence_bound.
Qed.

Lemma seek_context_bound ls path ctx li li' : li ≤ length ls -> seek_context ls path ctx li = Ok li' -> li' ≤ length ls.
Proof.
  intros Hli. unfold seek_context. destruct ctx as [l|]; [|by intros [= <-]].
  destruct (seek_sequence ls [l] li false) as [i|] eqn:Hs; [|done]. intros [= <-].
  by apply seek_sequence_bound in Hs.
Qed.

Lemma insertion_idx_bound ls : insertion_idx ls ≤ length ls.
Proof. unfold insertion_idx. destruct (last_is_empty ls); lia. Qed.

Lemma collect_in_bounds ls path li chunks rs :
  li ≤ length ls -> collect_replacements ls path li chunks = Ok rs -> Forall (in_bounds (length ls)) rs.
Proof.
  revert li rs. induction chunks as [|c chunks IH]; intros li rs Hli; cbn [collect_replacements]; [by intros [= <-]|].
  destruct (seek_context _ _ _ _) as [li'|] eqn:Hc; [|done]. apply seek_context_bound in Hc; [|done].
  destruct (is_empty (old_lines c)).
  - destruct (collect_replacements _ _ _ _) as [rs'|] eqn:Hr; [|done]. intros [= <-].
    constructor; [|by eapply IH]. unfold in_bounds. cbn. pose proof (insertion_idx_bound ls). lia.
  - destruct (locate_chunk _ _ _) as [r|] eqn:Hl; [|done]. apply locate_in_bounds in Hl; [|done].
    destruct (collect_replacements _ _ _ _) as [rs'|] eqn:Hr; [|done]. intros [= <-].
    constructor; [done|]. eapply IH; [|done]. done.
Qed.

Lemma apply_computed ls path chunks rs :
  compute_replacements ls path chunks = Ok rs -> ∃ ls', apply_replacements ls rs = Some ls'.
Proof.
  unfold compute_replacements. destruct (collect_replacements ls path 0 chunks) as [rs'|] eqn:Hc; [|done]. intros [= <-].
  destruct (apply_in_bounds ls (sort_asc rp_start rs')) as (ls' & Ha & _); eauto using sort_asc_sorted.
  rewrite sort_asc_perm. eapply collect_in_bounds; [|done]. lia.
Qed.

(** Deriving the new contents of a file answers for any file and any chunks,
    overlapping ones included: no line is inserted past the end of the vector,
    which would panic. *)
Lemma derive_never_panics content path chunks : ∃ r, derive_new_contents content path chunks = Some r.
Proof.
  unfold derive_new_contents. destruct (compute_replacements _ _ _) as [rs|] eqn:Hc; [|eauto].
  destruct (apply_computed _ _ _ _ Hc) as [ls' ->]. eauto.
Qed.

(** * The chunks, applied *)

Definition at_end (len : nat) (r : Replacement) : Prop := rp_start r = len ∧ rp_len r = 0.

Lemma insert_past len r E A :
  Forall (fun e => rp_start e < len) E -> Forall (at_end len) A -> rp_start r = len ->
  insert_asc rp_start r (E ++ A) = E ++ r :: A.
Proof.
  intros HE HA Hr. induction HE as [|e E He HE IH]; cbn [app insert_asc].
  - destruct A as [|a A]; [done|]. apply Forall_cons in HA as [[Ha _] _]. cbn [insert_asc].
    by rewrite (proj2 (Nat.leb_le _ _)) by lia.
  - rewrite (proj2 (Nat.leb_gt _ _)) by lia. by rewrite IH.
Qed.

Lemma insert_first len r E A :
  ordered_from (rp_start r + rp_len r) len E -> Forall (at_end len) A -> rp_start r ≤ len ->
  insert_asc rp_start r (E ++ A) = r :: E ++ A.
Proof.
  intros HE HA Hr. destruct E as [|e E]; cbn [app].
  - destruct A as [|a A]; [done|]. apply Forall_cons in HA as [[Ha _] _]. cbn [insert_asc].
    by rewrite (proj2 (Nat.leb_le _ _)) by lia.
  - destruct HE as [He _]. cbn [insert_asc]. by rewrite (proj2 (Nat.leb_le _ _)) by lia.
Qed.

Lemma splice_at_end pos E A ls :
  Forall (at_end (length ls)) A -> splice_from pos (E ++ A) ls = splice_from pos E ls ++ concat (map rp_lines A).
Proof.
  intros HA. revert pos. induction E as [|e E IH]; intros pos; cbn [app splice_from].
  - revert pos. induction HA as [|a A [Ha Hn] HA IH]; intros pos; cbn [splice_from map concat]; [by rewrite app_nil_r|].
    rewrite IH, Ha, Hn, (drop_ge ls (length ls + 0)) by lia. rewrite take_ge by (rewrite length_drop; lia). done.
  - by rewrite IH, <- !app_assoc.
Qed.

Lemma ordered_at_end pos len E A :
  ordered_from pos len E -> Forall (at_end len) A -> ordered_from pos len (E ++ A).
Proof.
  revert pos. induction E as [|e E IH]; intros pos; cbn [app ordered_from].
  - intros Hp HA. revert pos Hp. induction HA as [|a A [Ha Hn] HA IH]; intros pos Hp; cbn [ordered_from]; [done|].
    split; [lia|]. apply IH. lia.
  - intros [? Ho] HA. auto.
Qed.

Lemma ordered_weaken pos pos' len rs : pos' ≤ pos -> ordered_from pos len rs -> ordered_from pos' len rs.
Proof. destruct rs; cbn; [lia|]. intros ? []. split; [lia|done]. Qed.

Lemma seek_context_after ls path ctx from from' :
  seek_context ls path ctx from = Ok from' -> after_context ls from ctx from' ∧ from ≤ from'.
Proof.
  unfold seek_context. destruct ctx as [l|]; [|intros [= <-]; split; [constructor|done]].
  pose proof (seek_sequence_answer ls [l] from false ltac:(done)) as Ha.
  destruct (seek_sequence ls [l] from false) as [i|]; [|done]. intros [= <-].
  split; [by constructor|]. destruct Ha as [? _]. unfold search_from in *. lia.
Qed.

Lemma removelast_nonempty (l : list str) : last_is_empty l = true -> l ≠ [[]] -> removelast l ≠ [].
Proof.
  unfold last_is_empty. destruct l as [|x [|y l]]; [done| |done].
  cbn. intros Hx%is_empty_spec. by subst.
Qed.

Lemma locate_wanted ls c from r :
  free_chunk c -> old_lines c ≠ [] -> locate_chunk ls c from = Some r ->
  ∃ pattern, wanted ls from c pattern (rp_lines r) ∧ seek_answer ls pattern from (Some (rp_start r))
    ∧ rp_len r = length pattern ∧ 0 < rp_len r.
Proof.
  intros [He Hf] Hne. unfold locate_chunk. rewrite He.
  pose proof (seek_sequence_answer ls (old_lines c) from false Hne) as Ha.
  destruct (seek_sequence ls (old_lines c) from false) as [i|] eqn:Hs.
  { intros [= <-]. exists (old_lines c). cbn [rp_start rp_len rp_lines]. split_and!; [apply wanted_whole|done..|]. destruct (old_lines c); [done|cbn; lia]. }
  destruct (last_is_empty (old_lines c)) eqn:Hl; [|done].
  pose proof (removelast_nonempty _ Hl Hf) as Hne'.
  pose proof (seek_sequence_answer ls (removelast (old_lines c)) from false Hne') as Ha'.
  destruct (seek_sequence ls (removelast (old_lines c)) from false) as [i|]; [|done].
  intros [= <-]. eexists. cbn [rp_start rp_len rp_lines]. split_and!; [by apply wanted_short|done..|].
  destruct (removelast (old_lines c)); [done|cbn; lia].
Qed.

(** The replacements sort into those of the blocks and those at the end. *)
Lemma collect_shape ls path copied from chunks rs :
  last_is_empty ls = false -> Forall free_chunk chunks -> from ≤ length ls ->
  collect_replacements ls path from chunks = Ok rs ->
  ∃ E A, sort_asc rp_start rs = E ++ A ∧ ordered_from from (length ls) E
    ∧ Forall (fun e => rp_start e < length ls) E ∧ Forall (at_end (length ls)) A
    ∧ patched ls copied from chunks (splice_from copied E ls) (concat (map rp_lines A)).
Proof.
  intros Hlast Hfree. revert copied from rs. induction Hfree as [|c chunks Hc Hfree IH]; intros copied from rs Hle; cbn [collect_replacements].
  { intros [= <-]. exists [], []. split_and!; [done..|constructor|constructor|constructor]. }
  destruct (seek_context _ _ _ _) as [from'|] eqn:Hctx; [|done].
  pose proof (seek_context_bound _ _ _ _ _ Hle Hctx) as Hle'. apply seek_context_after in Hctx as [Hctx Hft].
  destruct (is_empty (old_lines c)) eqn:Hold.
  - apply is_empty_spec in Hold. destruct (collect_replacements _ _ _ _) as [rs'|] eqn:Hr; [|done]. intros [= <-].
    destruct (IH copied _ _ Hle' Hr) as (E & A & Hs & Ho & HE & HA & Hp).
    assert (Hins : insertion_idx ls = length ls) by (unfold insertion_idx; by rewrite Hlast).
    exists E, (mkReplacement (insertion_idx ls) 0 (new_lines c) :: A). split_and!.
    + cbn [sort_asc foldr]. fold (sort_asc rp_start rs'). rewrite Hs. by apply (insert_past (length ls)).
    + by eapply ordered_weaken.
    + done.
    + constructor; [done|done].
    + cbn [map concat rp_lines]. by eapply patched_append.
  - apply is_empty_false in Hold. destruct (locate_chunk _ _ _) as [r|] eqn:Hl; [|done].
    pose proof (locate_in_bounds _ _ _ _ Hle' Hl) as Hb. unfold in_bounds in Hb.
    apply locate_wanted in Hl as (pattern & Hw & Ha & Hlen & Hpos); [|done..].
    destruct (collect_replacements _ _ _ _) as [rs'|] eqn:Hr; [|done]. intros [= <-].
    destruct (IH (rp_start r + rp_len r) _ _ Hb Hr) as (E & A & Hs & Ho & HE & HA & Hp).
    exists (r :: E), A. split_and!; [..|done|].
    + cbn [sort_asc foldr]. fold (sort_asc rp_start rs'). rewrite Hs. apply (insert_first (length ls)); [done..|lia].
    + split; [|done]. destruct Ha as [? _]. lia.
    + constructor; [lia|done].
    + cbn [splice_from]. rewrite Hlen in *. by eapply patched_block.
Qed.

Lemma tier_ge ls pattern start i k f i' k' f' :
  start ≤ i -> block_matches f ls pattern i -> seek_tiers !! k = Some f ->
  (∀ k0 f0 j, k0 < k' -> seek_tiers !! k0 = Some f0 -> start ≤ j -> ¬ block_matches f0 ls pattern j) ->
  seek_tiers !! k' = Some f' -> block_matches f' ls pattern i' -> k' ≤ k.
Proof. intros Hi Hm Hk Hno _ _. destruct (le_lt_dec k' k) as [|Hlt]; [done|]. by destruct (Hno k f i Hlt Hk Hi). Qed.

(** The specification of the search has one answer. *)
Lemma seek_answer_unique ls pattern start a b :
  seek_answer ls pattern start a -> seek_answer ls pattern start b -> a = b.
Proof.
  destruct a as [i|], b as [i'|]; [..|done]; cbn [seek_answer].
  - intros (Hi & _ & k & f & Hk & Hm & Hfirst & Hno) (Hi' & _ & k' & f' & Hk' & Hm' & Hfirst' & Hno').
    assert (k' ≤ k) by by eapply (tier_ge ls pattern start i k f i' k' f').
    assert (k ≤ k') by by eapply (tier_ge ls pattern start i' k' f' i k f).
    assert (k = k') as <- by lia. rewrite Hk in Hk'. injection Hk' as <-. f_equal.
    destruct (lt_eq_lt_dec i i') as [[Hlt|He]|Hlt]; [|done|].
    + by destruct (Hfirst' i ltac:(lia)).
    + by destruct (Hfirst i' ltac:(lia)).
  - intros (Hi & _ & k & f & Hk & Hm & _) Hno. apply list_elem_of_lookup_2 in Hk. by destruct (Hno f i Hk Hi).
  - intros Hno (Hi & _ & k & f & Hk & Hm & _). apply list_elem_of_lookup_2 in Hk. by destruct (Hno f i' Hk Hi).
Qed.

Lemma seek_sequence_complete ls pattern from a :
  pattern ≠ [] -> seek_answer ls pattern from a -> seek_sequence ls pattern from false = a.
Proof. intros Hne Ha. eapply seek_answer_unique; [|done]. by apply (seek_sequence_answer ls pattern from false). Qed.

Lemma after_context_seek ls path from ctx from' : after_context ls from ctx from' -> seek_context ls path ctx from = Ok from'.
Proof. destruct 1 as [|l i Ha]; [done|]. cbn [seek_context]. by rewrite (seek_sequence_complete ls [l] from (Some i)). Qed.

Lemma wanted_locate ls from c pattern new i :
  free_chunk c -> old_lines c ≠ [] -> wanted ls from c pattern new -> seek_answer ls pattern from (Some i) ->
  locate_chunk ls c from = Some (mkReplacement i (length pattern) new).
Proof.
  intros [He Hf] Hne Hw Ha. unfold locate_chunk. rewrite He. destruct Hw as [|Hno Hl].
  - by rewrite (seek_sequence_complete _ _ _ _ Hne Ha).
  - rewrite (seek_sequence_complete _ _ _ _ Hne Hno), Hl.
    by rewrite (seek_sequence_complete _ _ _ _ (removelast_nonempty _ Hl Hf) Ha).
Qed.

Lemma patched_collect ls path copied from chunks body tl :
  patched ls copied from chunks body tl -> Forall free_chunk chunks ->
  ∃ rs, collect_replacements ls path from chunks = Ok rs.
Proof.
  induction 1 as [copied from|copied from from' c cs body tl Hctx Hold _ IH
                 |copied from from' i pattern new c cs body tl Hctx Hold Hw Ha _ IH];
    intros Hfree; cbn [collect_replacements]; [eauto|..];
    apply Forall_cons in Hfree as [Hc Hfree]; destruct (IH Hfree) as [rs Hrs]; rewrite (after_context_seek _ path _ _ _ Hctx).
  - rewrite Hold. cbn [is_empty]. rewrite Hrs. eauto.
  - rewrite (proj2 (is_empty_false _)) by done. rewrite (wanted_locate _ _ _ _ _ _ Hc Hold Hw Ha).
    cbn [rp_start rp_len]. rewrite Hrs. eauto.
Qed.

(** C34 Deriving the new contents is the specification of the edit: on a file whose
    last line is not blank, with chunks that are not tied to its end and whose old lines are not just one blank line, the
    result is the file with the first block of each chunk after the one before replaced, the
    lines between kept, the pure additions at the end, in order; and it fails only
    when a context line or a block is not there. *)
Theorem derive_is_the_edit content path chunks :
  last_is_empty (content_lines content) = false -> Forall free_chunk chunks ->
  match derive_new_contents content path chunks with
  | Some (Ok out) => ∃ body tl, patched (content_lines content) 0 0 chunks body tl ∧ out = lines_content (body ++ tl)
  | Some (Err _) => ¬ ∃ body tl, patched (content_lines content) 0 0 chunks body tl
  | None => False
  end.
Proof.
  intros Hlast Hfree. unfold derive_new_contents, compute_replacements.
  destruct (collect_replacements _ path 0 chunks) as [rs|e] eqn:Hc.
  - destruct (collect_shape _ path 0 0 _ _ Hlast Hfree ltac:(lia) Hc) as (E & A & -> & Ho & HE & HA & Hp).
    rewrite (apply_ordered _ _ 0) by by apply ordered_at_end.
    eexists _, _. split; [exact Hp|]. rewrite take_0. cbn [app]. by rewrite splice_at_end.
  - intros (body & tl & Hp). apply (patched_collect _ path) in Hp as [rs Hrs]; [|done]. congruence.
Qed.

(** * Contents and their lines *)

(** A file whose lines do not end with a blank one is kept by its lines. *)
Lemma content_lines_content ls :
  Forall (fun l => byte 10 ∉ l) ls -> last_is_empty ls = false -> content_lines (lines_content ls) = ls.
Proof.
  intros Hls Hl. unfold lines_content, content_lines. unfold nl. rewrite Hl, split_join_byte; [|done|apply not_elem_of_nil].
  unfold last_is_empty. rewrite last_snoc. cbn [is_empty]. by rewrite removelast_last.
Qed.

Lemma block_here f pre old post : block_matches f (pre ++ old ++ post) old (length pre).
Proof. unfold block_matches. by rewrite drop_app_length, take_app_length. Qed.

Definition replace_chunk (old new : list str) : UpdateFileChunk := mkChunk None old new false.

(** The first place where a block stands, line for line. *)
Definition first_place (pre old post : list str) : Prop :=
  old ≠ [] ∧ ∀ j, j < length pre -> ¬ block_matches id (pre ++ old ++ post) old j.

Lemma first_place_answer pre old post : first_place pre old post ->
  seek_answer (pre ++ old ++ post) old 0 (Some (length pre)).
Proof.
  intros [_ Hf]. split_and!; [lia|rewrite !length_app; lia|]. exists 0, id.
  split_and!; [done|apply block_here| |lia]. intros j [_ Hj]. auto.
Qed.

Lemma derive_one_block content path pre old new post :
  content_lines content = pre ++ old ++ post -> first_place pre old post ->
  derive_new_contents content path [replace_chunk old new] = Some (Ok (lines_content (pre ++ new ++ post))).
Proof.
  intros Hc Hf. pose proof (first_place_answer _ _ _ Hf) as Ha. destruct Hf as [Hne _].
  unfold derive_new_contents, compute_replacements, replace_chunk. rewrite Hc. cbn [collect_replacements seek_context change_context old_lines].
  rewrite (proj2 (is_empty_false _)) by done. unfold locate_chunk. cbn [old_lines new_lines is_end_of_file].
  rewrite (seek_sequence_complete _ _ _ _ Hne Ha). cbn [sort_asc foldr insert_asc].
  rewrite (apply_ordered _ _ 0); [|split; cbn; rewrite ?length_app; lia].
  rewrite take_0. cbn [app splice_from rp_start rp_len rp_lines]. rewrite drop_0, Nat.sub_0_r, take_app_length.
  rewrite (app_assoc pre old), drop_app_length' by (rewrite length_app; lia). done.
Qed.

(** A patch that replaces a block is undone by the patch that replaces it
    back, when each block stands first where it is replaced and neither file ends
    with a blank line. *)
Theorem patch_is_undone path pre old new post :
  Forall (fun l => byte 10 ∉ l) (pre ++ old ++ post) -> Forall (fun l => byte 10 ∉ l) (pre ++ new ++ post) ->
  last_is_empty (pre ++ old ++ post) = false -> last_is_empty (pre ++ new ++ post) = false ->
  first_place pre old post -> first_place pre new post ->
  ∃ patched_content,
    derive_new_contents (lines_content (pre ++ old ++ post)) path [replace_chunk old new] = Some (Ok patched_content)
    ∧ derive_new_contents patched_content path [replace_chunk new old] = Some (Ok (lines_content (pre ++ old ++ post))).
Proof.
  intros Ho Hn Hlo Hln Hfo Hfn. eexists. split.
  - apply derive_one_block; [by apply content_lines_content|done].
  - apply derive_one_block; [by apply content_lines_content|done].
Qed.

(** * Runs *)

Definition demo_file : list str := map lit ["def greet():"; "print('Hi')"; "return"]%string.

Definition demo_chunks : list UpdateFileChunk :=
  [mkChunk (Some (lit "def greet():")) [lit "print('Hi')"] [lit "print('Hello')"; lit "log()"] false;
   mkChunk None [] [lit "greet()"] false].

Lemma seek_finds_the_first_strictest_witness :
  [lit "return"] ≠ [] ∧ seek_answer demo_file [lit "return"] 1 (seek_sequence demo_file [lit "return"] 1 false).
Proof. split; [done|]. exact (seek_finds_the_first_strictest demo_file [lit "return"] 1 false ltac:(done)). Defined.

Lemma backwards_is_forwards_witness :
  ordered_from 0 (length demo_file) [mkReplacement 0 1 []; mkReplacement 3 0 [lit "x"]]
  ∧ apply_replacements demo_file [mkReplacement 0 1 []; mkReplacement 3 0 [lit "x"]]
    = Some (splice_from 0 [mkReplacement 0 1 []; mkReplacement 3 0 [lit "x"]] demo_file).
Proof.
  assert (Ho : ordered_from 0 (length demo_file) [mkReplacement 0 1 []; mkReplacement 3 0 [lit "x"]]) by (cbn; lia).
  split; [done|]. exact (backwards_is_forwards demo_file _ Ho).
Defined.

Lemma derive_is_the_edit_witness :
  derive_new_contents (lines_content demo_file) (lit "a.py") demo_chunks
    = Some (Ok (lines_content (map lit ["def greet():"; "print('Hello')"; "log()"; "return"; "greet()"]%string)))
  ∧ match derive_new_contents (lines_content demo_file) (lit "a.py") demo_chunks with
    | Some (Ok out) =>
        ∃ body tl, patched (content_lines (lines_content demo_file)) 0 0 demo_chunks body tl ∧ out = lines_content (body ++ tl)
    | Some (Err _) => ¬ ∃ body tl, patched (content_lines (lines_content demo_file)) 0 0 demo_chunks body tl
    | None => False
    end.
Proof.
  split; [vm_compute; reflexivity|].
  apply derive_is_the_edit; [vm_compute; reflexivity|]. repeat constructor; discriminate.
Defined.

Lemma patch_is_undone_witness :
  first_place [lit "a"] [lit "b"] [lit "c"]
  ∧ ∃ patched_content,
      derive_new_contents (lines_content (map lit ["a"; "b"; "c"]%string)) (lit "p") [replace_chunk [lit "b"] [lit "d"]] = Some (Ok patched_content)
      ∧ derive_new_contents patched_content (lit "p") [replace_chunk [lit "d"] [lit "b"]] = Some (Ok (lines_content (map lit ["a"; "b"; "c"]%string))).
Proof.
  assert (Hb : first_place [lit "a"] [lit "b"] [lit "c"]) by (split; [done|]; intros [|j] Hj; [discriminate|cbn in Hj; lia]).
  assert (Hd : first_place [lit "a"] [lit "d"] [lit "c"]) by (split; [done|]; intros [|j] Hj; [discriminate|cbn in Hj; lia]).
  split; [done|]. apply (patch_is_undone (lit "p") [lit "a"] [lit "b"] [lit "d"] [lit "c"]); try done; by_decide.
Defined.

(** A chunk of the end of the file is searched at the end only, also where a chunk
    before it already replaced the lines: its edit is lost. *)
Example end_chunk_is_swallowed :
  derive_new_contents (lines_content [lit "a"; lit "b"]) (lit "p")
    [mkChunk None [lit "a"; lit "b"] [lit "x"; lit "y"] false; mkChunk None [lit "b"] [lit "z"] true]
  = Some (Ok (lines_content [lit "x"; lit "y"])).
Proof. vm_compute. reflexivity. Qed.

(** It does not fall back to a search from the start. *)
Example end_search_does_not_fall_back :
  seek_sequence [lit "a"; lit "b"] [lit "a"] 0 true = None ∧ seek_sequence [lit "a"; lit "b"] [lit "a"] 0 false = Some 0.
Proof. by vm_compute. Qed.

(** A file that ends with a blank line loses it, even to a patch that changes nothing. *)
Example blank_last_line_is_lost :
  derive_new_contents (lit "a" ++ nl ++ nl) (lit "p") [replace_chunk [lit "a"] [lit "a"]] = Some (Ok (lit "a" ++ nl)).
Proof. vm_compute. reflexivity. Qed.

(** A pure addition goes to the end of the file, wherever its context line is. *)
Example addition_ignores_its_context :
  derive_new_contents (lines_content [lit "class A"; lit "class B"]) (lit "p") [mkChunk (Some (lit "class A")) [] [lit "x"] false]
  = Some (Ok (lines_content [lit "class A"; lit "class B"; lit "x"])).
Proof. vm_compute. reflexivity. Qed.
