(* ===== verification/PatchTool.v ===== *)
(** * The apply_patch tool

    crates/codegen/xai-grok-tools/src/implementations/codex/apply_patch/tool.rs:
    a patch is parsed, all the changes of its hunks are computed from the files
    as they are, the changes inside memory directories are checked, and only then
    are the changes applied, in order, each with its notification. The file
    system ([AsyncFileSystem], types.rs), the directories made beside it and the
    memory policy ([MemoryV2Access], memory_v2.rs) are the class [ToolWorld];
    [ToolWorldLaws] is what the tool relies on, and the in-memory file system of
    mock_fs.rs is an instance of both. *)

From S2P Require Export PatchApply.
From S2P Require Import PermissionPolicy.

(** ** The world of the tool *)

(** Source: crates/codegen/xai-grok-tools/src/types/memory_v2.rs:10-16, [MemoryV2Write]. *)
Inductive MemoryV2Write := Outside | Written (previous_content : option str).

(** The operations of [AsyncFileSystem], [tokio::fs::create_dir_all] and
    [MemoryV2Access], on a world [W]; an error is its displayed text. *)
Class ToolWorld (W : Type) := {
  fs_read : W -> str -> result str str;
  fs_write : W -> str -> str -> result unit str * W;
  fs_delete : W -> str -> result unit str * W;
  create_dir_all : W -> str -> result unit str * W;
  memory_validate_read : W -> str -> result bool str;
  memory_preflight_write : W -> str -> str -> result bool str;
  memory_write : W -> str -> str -> result MemoryV2Write str * W;
}.

(** What a call of the tool is given: the working directory, whether a memory
    policy is installed, and the id of the call. *)
Record ToolContext := mkContext { tc_cwd : str; tc_memory : bool; tc_call_id : str }.

(** Source: crates/codegen/xai-grok-tools/src/notification/types.rs:172-193, [FileWritten]. *)
Record FileWritten := mkWritten {
  fw_tool_call_id : str;
  fw_absolute_path : str;
  fw_content : str;
  fw_previous_content : option str;
  fw_is_new_file : bool;
}.

(** Source: crates/codegen/xai-grok-tools/src/types/output.rs:322-336, [ApplyPatchFileResult]. *)
Record ApplyPatchFileResult := mkFileResult {
  fr_path : str;
  fr_action : str;
  fr_old_text : option str;
  fr_new_text : str;
  fr_move_to : option str;
}.

(** Source: crates/codegen/xai-grok-tools/src/types/output.rs:338-351, [ApplyPatchOutput]. *)
Inductive ApplyPatchOutput :=
  | Success (files : list ApplyPatchFileResult) (tool_output_for_prompt : str)
  | OutputParseError (message : str)
  | ApplicationError (message : str)
  | EmptyPatch (message : str).

(** Source: crates/codegen/xai-grok-tools/src/implementations/codex/apply_patch/tool.rs:116-136, [FileChange]. *)
Inductive FileChange :=
  | ChangeAdd (path content : str)
  | ChangeDelete (path original_content : str)
  | ChangeUpdate (path original_content new_content : str)
  | ChangeMove (source_path dest_path original_content new_content : str).

Section Tool.
Context {W : Type} `{ToolWorld W}.

(** ** Phase 2: the changes *)

(** Source: crates/codegen/xai-grok-tools/src/implementations/codex/apply_patch/tool.rs:296-302, [read_file_as_string]. *)
Definition read_file_as_string (w : W) (path : str) : result str str :=
  match fs_read w path with
  | Err e => Err e
  | Ok bytes => Ok (from_utf8_lossy bytes)
  end.

(** The message of an error of the engine; its other errors do not arise there. *)
Definition apply_error_message (e : ApplyPatchError) : str :=
  match e with
  | ComputeReplacements msg => msg
  | Parse (InvalidPatchError m) => lit "invalid patch: " ++ m
  | Parse (InvalidHunkError m n) => lit "invalid hunk at line " ++ show_nat n ++ lit ", " ++ m
  | Io context message _ => context ++ lit ": " ++ message
  end.

(** One turn of the loop of [compute_all_changes]. Source: crates/codegen/xai-grok-tools/src/implementations/codex/apply_patch/tool.rs:165-216, [compute_all_changes]. *)
Definition compute_change (cwd : str) (w : W) (hunk : PatchHunk) : option (result FileChange str) :=
  match hunk with
  | AddFile path contents => Some (Ok (ChangeAdd (path_push cwd path) contents))
  | DeleteFile path =>
      let resolved := path_push cwd path in
      match read_file_as_string w resolved with
      | Err e => Some (Err (lit "Failed to read file: " ++ resolved ++ lit ", " ++ e))
      | Ok original_content => Some (Ok (ChangeDelete resolved original_content))
      end
  | UpdateFile path move_path chunks =>
      let resolved := path_push cwd path in
      match read_file_as_string w resolved with
      | Err e => Some (Err (lit "Failed to read file to update: " ++ resolved ++ lit ", " ++ e))
      | Ok original_content =>
          match derive_new_contents original_content resolved chunks with
          | None => None
          | Some (Err e) => Some (Err (apply_error_message e))
          | Some (Ok new_content) =>
              match move_path with
              | Some dest => Some (Ok (ChangeMove resolved (path_push cwd dest) original_content new_content))
              | None => Some (Ok (ChangeUpdate resolved original_content new_content))
              end
          end
      end
  end.

(** [None] when the engine panics. Source: crates/codegen/xai-grok-tools/src/implementations/codex/apply_patch/tool.rs:157-219, [compute_all_changes]. *)
Fixpoint compute_all_changes (cwd : str) (w : W) (hunks : list PatchHunk) : option (result (list FileChange) str) :=
  match hunks with
  | [] => Some (Ok [])
  | hunk :: hunks' =>
      match compute_change cwd w hunk with
      | None => None
      | Some (Err e) => Some (Err e)
      | Some (Ok change) =>
          match compute_all_changes cwd w hunks' with
          | Some (Ok changes) => Some (Ok (change :: changes))
          | r => r
          end
      end
  end.

(** ** The memory policy *)

(** Source: crates/codegen/xai-grok-tools/src/types/memory_v2.rs:50-66, [validate_memory_v2_read]. *)
Definition validate_memory_v2_read (ctx : ToolContext) (w : W) (path : str) : result bool str :=
  if tc_memory ctx then memory_validate_read w path else Ok false.

(** Source: crates/codegen/xai-grok-tools/src/types/memory_v2.rs:90-108, [preflight_memory_v2_write]. *)
Definition preflight_memory_v2_write (ctx : ToolContext) (w : W) (path contents : str) : result bool str :=
  if tc_memory ctx then memory_preflight_write w path contents else Ok false.

(** Source: crates/codegen/xai-grok-tools/src/types/memory_v2.rs:111-129, [write_memory_v2_file]. *)
Definition write_memory_v2_file (ctx : ToolContext) (w : W) (path contents : str) : result MemoryV2Write str * W :=
  if tc_memory ctx then memory_write w path contents else (Ok Outside, w).

(** Source: crates/codegen/xai-grok-tools/src/implementations/codex/apply_patch/tool.rs:267-280, [reject_memory_v2_destructive_path]. *)
Definition reject_memory_v2_destructive_path (ctx : ToolContext) (w : W) (path : str) : result unit str :=
  match validate_memory_v2_read ctx w path with
  | Err e => Err e
  | Ok true =>
      Err (path ++ lit " is inside a memory directory; apply_patch cannot delete or move memory files. Use the memory workflow instead: edit topic files in place or manage memories with the memory tools.")
  | Ok false => Ok tt
  end.

(** Source: crates/codegen/xai-grok-tools/src/implementations/codex/apply_patch/tool.rs:232-262, [preflight_memory_v2_changes]. *)
Definition preflight_change (ctx : ToolContext) (w : W) (change : FileChange) : result unit str :=
  let written path content :=
    match preflight_memory_v2_write ctx w path content with Err e => Err e | Ok _ => Ok tt end in
  match change with
  | ChangeAdd path content => written path content
  | ChangeUpdate path _ new_content => written path new_content
  | ChangeDelete path _ => reject_memory_v2_destructive_path ctx w path
  | ChangeMove source_path dest_path _ _ =>
      match reject_memory_v2_destructive_path ctx w source_path with
      | Err e => Err e
      | Ok _ => reject_memory_v2_destructive_path ctx w dest_path
      end
  end.

(** Source: crates/codegen/xai-grok-tools/src/implementations/codex/apply_patch/tool.rs:227-265, [preflight_memory_v2_changes]. *)
Fixpoint preflight_memory_v2_changes (ctx : ToolContext) (w : W) (changes : list FileChange) : result unit str :=
  match changes with
  | [] => Ok tt
  | change :: changes' =>
      match preflight_change ctx w change with
      | Err e => Err e
      | Ok _ => preflight_memory_v2_changes ctx w changes'
      end
  end.

(** ** Phase 3: the writes

    The state is the world and the notifications sent; a run stops early with an
    output or with a tool error. *)

Inductive Stop := StopOutput (output : ApplyPatchOutput) | StopError (message : str).

Abbreviation M := (eff (W * list FileWritten) Stop).

Definition io (op : W -> result unit str * W) : M unit := fun s =>
  let '(r, w) := op (fst s) in
  (match r with Ok _ => Ok tt | Err e => Err (StopError e) end, (w, snd s)).

Definition send_file_written (n : FileWritten) : M unit := eff_modify (fun s => (fst s, snd s ++ [n])).

(** [Path::parent]. *)
Definition text_parent (path : str) : option str :=
  match last (components path) with
  | None | Some RootDir => None
  | Some _ => Some (collect_path (removelast (components path)))
  end.

(** Source: crates/codegen/xai-grok-tools/src/implementations/codex/apply_patch/tool.rs:141-153, [ensure_parent_dirs]. *)
Definition ensure_parent_dirs (path : str) : M unit :=
  match text_parent path with
  | Some parent => if is_empty parent then mret tt else io (fun w => create_dir_all w parent)
  | None => mret tt
  end.

(** Source: crates/codegen/xai-grok-tools/src/implementations/codex/apply_patch/tool.rs:284-293, [write_via_memory_v2]. *)
Definition write_via_memory_v2 (ctx : ToolContext) (path contents : str) : M bool := fun s =>
  let '(r, w) := write_memory_v2_file ctx (fst s) path contents in
  (match r with
   | Ok (Written _) => Ok true
   | Ok Outside => Ok false
   | Err msg => Err (StopOutput (ApplicationError msg))
   end, (w, snd s)).

(** Source: crates/codegen/xai-grok-tools/src/implementations/codex/apply_patch/tool.rs:422-454, [ApplyPatchTool::run]. *)
Definition apply_add (ctx : ToolContext) (path content : str) : M ApplyPatchFileResult :=
  is_memory_write ← write_via_memory_v2 ctx path content;
  _ ← (if is_memory_write : bool then mret tt
       else ensure_parent_dirs path ≫= fun _ => io (fun w => fs_write w path content));
  _ ← send_file_written (mkWritten (tc_call_id ctx) path content None true);
  mret (mkFileResult path (lit "added") None content None).

(** Source: crates/codegen/xai-grok-tools/src/implementations/codex/apply_patch/tool.rs:455-481, [ApplyPatchTool::run]. *)
Definition apply_delete (ctx : ToolContext) (path original_content : str) : M ApplyPatchFileResult :=
  _ ← io (fun w => fs_delete w path);
  _ ← send_file_written (mkWritten (tc_call_id ctx) path [] (Some original_content) false);
  mret (mkFileResult path (lit "deleted") (Some original_content) [] None).

(** Source: crates/codegen/xai-grok-tools/src/implementations/codex/apply_patch/tool.rs:482-518, [ApplyPatchTool::run]. *)
Definition apply_update (ctx : ToolContext) (path original_content new_content : str) : M ApplyPatchFileResult :=
  is_memory_write ← write_via_memory_v2 ctx path new_content;
  _ ← (if is_memory_write : bool then mret tt else io (fun w => fs_write w path new_content));
  _ ← send_file_written (mkWritten (tc_call_id ctx) path new_content (Some original_content) false);
  mret (mkFileResult path (lit "modified") (Some original_content) new_content None).

(** Source: crates/codegen/xai-grok-tools/src/implementations/codex/apply_patch/tool.rs:519-566, [ApplyPatchTool::run]. *)
Definition apply_move (ctx : ToolContext) (source_path dest_path original_content new_content : str)
    : M ApplyPatchFileResult :=
  _ ← ensure_parent_dirs dest_path;
  _ ← io (fun w => fs_write w dest_path new_content);
  _ ← io (fun w => fs_delete w source_path);
  _ ← send_file_written (mkWritten (tc_call_id ctx) dest_path new_content None true);
  _ ← send_file_written (mkWritten (tc_call_id ctx) source_path [] (Some original_content) false);
  mret (mkFileResult source_path (lit "moved") (Some original_content) new_content (Some dest_path)).

Definition apply_change (ctx : ToolContext) (change : FileChange) : M ApplyPatchFileResult :=
  match change with
  | ChangeAdd path content => apply_add ctx path content
  | ChangeDelete path original => apply_delete ctx path original
  | ChangeUpdate path original new => apply_update ctx path original new
  | ChangeMove source dest original new => apply_move ctx source dest original new
  end.

(** The loop of phase 3. Source: crates/codegen/xai-grok-tools/src/implementations/codex/apply_patch/tool.rs:417-421, [ApplyPatchTool::run]. *)
Fixpoint apply_changes (ctx : ToolContext) (changes : list FileChange) : M (list ApplyPatchFileResult) :=
  match changes with
  | [] => mret []
  | change :: changes' =>
      r ← apply_change ctx change;
      rs ← apply_changes ctx changes';
      mret (r :: rs)
  end.

(** Source: crates/codegen/xai-grok-tools/src/implementations/codex/apply_patch/tool.rs:305-317, [build_summary]. *)
Definition build_summary (results : list ApplyPatchFileResult) : str :=
  lit "Success. Updated the following files:" ++ nl
  ++ concat (map (fun r =>
       (if str_eqb (fr_action r) (lit "added") then lit "A"
        else if str_eqb (fr_action r) (lit "deleted") then lit "D"
        else lit "M") ++ lit " " ++ fr_path r ++ nl) results).

(** Source: crates/codegen/xai-grok-tools/src/implementations/codex/apply_patch/tool.rs:387-401, [ApplyPatchTool::run]. *)
Definition parse_error_message (e : ParseError) : str :=
  match e with
  | InvalidPatchError m => lit "Invalid patch: " ++ m
  | InvalidHunkError message line_number =>
      lit "Invalid patch hunk on line " ++ show_nat line_number ++ lit ": " ++ message
  end.

(** A run: its outcome, the world it leaves and the notifications it sent;
    [None] when it panics. Source: crates/codegen/xai-grok-tools/src/implementations/codex/apply_patch/tool.rs:370-578, [ApplyPatchTool::run]. *)
Definition run_patch (ctx : ToolContext) (text : str) (w : W)
    : option (result ApplyPatchOutput str * (W * list FileWritten)) :=
  match parse_patch text with
  | None => None
  | Some (Err e) => Some (Ok (OutputParseError (parse_error_message e)), (w, []))
  | Some (Ok parsed) =>
      if is_empty (hunks parsed) then Some (Ok (EmptyPatch (lit "No files were modified.")), (w, []))
      else
        match compute_all_changes (tc_cwd ctx) w (hunks parsed) with
        | None => None
        | Some (Err msg) => Some (Ok (ApplicationError msg), (w, []))
        | Some (Ok changes) =>
            match preflight_memory_v2_changes ctx w changes with
            | Err msg => Some (Ok (ApplicationError msg), (w, []))
            | Ok _ =>
                match apply_changes ctx changes (w, []) with
                | (Ok file_results, s) => Some (Ok (Success file_results (build_summary file_results)), s)
                | (Err (StopOutput output), s) => Some (Ok output, s)
                | (Err (StopError e), s) => Some (Err e, s)
                end
            end
        end
  end.
End Tool.

Arguments run_patch {W _}.
Arguments compute_all_changes {W _}.

(** ** The in-memory file system

    No directories and no memory policy; a path is the key of its components. *)

Definition component_code (c : Component) : N + str :=
  match c with RootDir => inl 0%N | CurDir => inl 1%N | ParentDir => inl 2%N | Normal s => inr s end.
Definition code_component (n : N + str) : Component :=
  match n with inl 0%N => RootDir | inl 1%N => CurDir | inl _ => ParentDir | inr s => Normal s end.

#[export] Instance Component_countable : Countable Component.
Proof. by apply (inj_countable' component_code code_component); intros []. Defined.

(** Source: crates/codegen/xai-grok-tools/src/computer/local/mock_fs.rs:9-13, [MockFs]. *)
Abbreviation MockFs := (gmap (list Component) str).

(** Source: crates/codegen/xai-grok-tools/src/computer/local/mock_fs.rs:54-61, [read_file]. *)
Definition mock_read (fs : MockFs) (path : str) : result str str :=
  match fs !! components path with
  | Some bytes => Ok bytes
  | None => Err (lit "IO Error: File not found: " ++ path)
  end.

(** Source: crates/codegen/xai-grok-tools/src/computer/local/mock_fs.rs:63-69, [write_file]. *)
Definition mock_write (fs : MockFs) (path data : str) : result unit str * MockFs := (Ok tt, <[components path := data]> fs).

(** Source: crates/codegen/xai-grok-tools/src/computer/local/mock_fs.rs:71-74, [delete_file]. *)
Definition mock_delete (fs : MockFs) (path : str) : result unit str * MockFs := (Ok tt, delete (components path) fs).

#[export] Instance MockWorld : ToolWorld MockFs := {
  fs_read := mock_read;
  fs_write := mock_write;
  fs_delete := mock_delete;
  create_dir_all fs _ := (Ok tt, fs);
  memory_validate_read _ _ := Ok false;
  memory_preflight_write _ _ _ := Ok false;
  memory_write fs _ _ := (Ok Outside, fs);
}.

(** A file system some of whose paths cannot be written. *)
Record GuardedFs := mkGuarded { gf_files : MockFs; gf_read_only : list str }.

#[export] Instance GuardedWorld : ToolWorld GuardedFs := {
  fs_read fs path := mock_read (gf_files fs) path;
  fs_write fs path data :=
    if existsb (str_eqb path) (gf_read_only fs) then (Err (lit "IO Error: Permission denied"), fs)
    else (Ok tt, mkGuarded (snd (mock_write (gf_files fs) path data)) (gf_read_only fs));
  fs_delete fs path := (Ok tt, mkGuarded (snd (mock_delete (gf_files fs) path)) (gf_read_only fs));
  create_dir_all fs _ := (Ok tt, fs);
  memory_validate_read _ _ := Ok false;
  memory_preflight_write _ _ _ := Ok false;
  memory_write fs _ _ := (Ok Outside, fs);
}.

(** ** What the tool relies on and promises *)

(** A file system is the contents of its files by path; a write or a deletion
    that succeeds changes one file, and making a directory none. *)
Class ToolWorldLaws (W : Type) `{ToolWorld W} := {
  contents : W -> list Component -> option str;
  read_contents w p b : fs_read w p = Ok b <-> contents w (components p) = Some b;
  write_contents w p b w' q :
    fs_write w p b = (Ok tt, w') ->
    contents w' q = if decide (q = components p) then Some b else contents w q;
  delete_contents w p w' q :
    fs_delete w p = (Ok tt, w') ->
    contents w' q = if decide (q = components p) then None else contents w q;
  dirs_contents w p r w' q : create_dir_all w p = (r, w') -> contents w' q = contents w q;
}.

(** The files a hunk and a change touch. *)
Definition hunk_paths (cwd : str) (hunk : PatchHunk) : list (list Component) :=
  match hunk with
  | AddFile path _ | DeleteFile path | UpdateFile path None _ => [components (path_push cwd path)]
  | UpdateFile path (Some dest) _ => [components (path_push cwd path); components (path_push cwd dest)]
  end.

Definition change_paths (change : FileChange) : list (list Component) :=
  match change with
  | ChangeAdd p _ | ChangeDelete p _ | ChangeUpdate p _ _ => [components p]
  | ChangeMove p d _ _ => [components p; components d]
  end.

(** The notifications and the entry of the result of a change. *)
Definition change_notes (ctx : ToolContext) (change : FileChange) : list FileWritten :=
  match change with
  | ChangeAdd p c => [mkWritten (tc_call_id ctx) p c None true]
  | ChangeDelete p o => [mkWritten (tc_call_id ctx) p [] (Some o) false]
  | ChangeUpdate p o n => [mkWritten (tc_call_id ctx) p n (Some o) false]
  | ChangeMove p d o n => [mkWritten (tc_call_id ctx) d n None true; mkWritten (tc_call_id ctx) p [] (Some o) false]
  end.

Definition change_result (change : FileChange) : ApplyPatchFileResult :=
  match change with
  | ChangeAdd p c => mkFileResult p (lit "added") None c None
  | ChangeDelete p o => mkFileResult p (lit "deleted") (Some o) [] None
  | ChangeUpdate p o n => mkFileResult p (lit "modified") (Some o) n None
  | ChangeMove p d o n => mkFileResult p (lit "moved") (Some o) n (Some d)
  end.

(** A file after a change, from what it was. *)
Definition change_effect (change : FileChange) (q : list Component) (old : option str) : option str :=
  match change with
  | ChangeAdd p c => if decide (q = components p) then Some c else old
  | ChangeDelete p _ => if decide (q = components p) then None else old
  | ChangeUpdate p _ n => if decide (q = components p) then Some n else old
  | ChangeMove p d _ n =>
      if decide (q = components p) then None else if decide (q = components d) then Some n else old
  end.

(** What a hunk means for the files: [before] and [after] the patch. *)
Definition hunk_done (cwd : str) (before after : list Component -> option str) (hunk : PatchHunk) : Prop :=
  match hunk with
  | AddFile path c => after (components (path_push cwd path)) = Some c
  | DeleteFile path =>
      before (components (path_push cwd path)) ≠ None ∧ after (components (path_push cwd path)) = None
  | UpdateFile path move_path chunks =>
      let p := path_push cwd path in
      ∃ bytes new, before (components p) = Some bytes
        ∧ derive_new_contents (from_utf8_lossy bytes) p chunks = Some (Ok new)
        ∧ match move_path with
          | None => after (components p) = Some new
          | Some dest => after (components p) = None ∧ after (components (path_push cwd dest)) = Some new
          end
  end.

(** * The phases *)

Section Phases.
Context {W : Type} `{TW : ToolWorld W}.

(** C36 Nothing is written before everything is computed and checked: a run that
    leaves a trace, a changed world or a notification, has parsed the patch,
    computed every change from the files as they were and passed the memory
    checks; in particular a hunk that does not apply leaves all files alone. *)
Theorem nothing_is_written_before_all_is_computed ctx text (w : W) r s :
  run_patch ctx text w = Some (r, s) ->
  s = (w, [])
  ∨ ∃ parsed changes, parse_patch text = Some (Ok parsed)
      ∧ compute_all_changes (tc_cwd ctx) w (hunks parsed) = Some (Ok changes)
      ∧ preflight_memory_v2_changes ctx w changes = Ok tt
      ∧ snd (apply_changes ctx changes (w, [])) = s.
Proof.
  unfold run_patch. destruct (parse_patch text) as [[parsed|e]|]; [|intros [= _ <-]; by left|done].
  destruct (is_empty (hunks parsed)); [intros [= _ <-]; by left|].
  destruct (compute_all_changes _ _ _) as [[changes|e]|] eqn:Hc; [|intros [= _ <-]; by left|done].
  destruct (preflight_memory_v2_changes ctx w changes) as [[]|e] eqn:Hp; [|intros [= _ <-]; by left].
  intros Hr. right. exists parsed, changes. split_and!; [done..|].
  destruct (apply_changes ctx changes (w, [])) as [[rs|[o|e]] s']; by injection Hr.
Qed.

(** A run stops early with a tool error or an application error. *)
Definition plain_stop (e : Stop) : Prop :=
  match e with StopError _ | StopOutput (ApplicationError _) => True | StopOutput _ => False end.

(** An operation that sends nothing, and one that ends with its notifications. *)
Definition quiet {A} (m : eff (W * list FileWritten) Stop A) : Prop := ∀ s,
  snd (snd (m s)) = snd s ∧ match fst (m s) with Ok _ => True | Err e => plain_stop e end.
Definition ends {A} (m : eff (W * list FileWritten) Stop A) (r : A) (ns : list FileWritten) : Prop := ∀ s,
  match m s with
  | (Ok r', s') => r' = r ∧ snd s' = snd s ++ ns
  | (Err e, s') => snd s' = snd s ∧ plain_stop e
  end.

Lemma quiet_io (op : W -> result unit str * W) : quiet (io op).
Proof. intros [w ns]. unfold io. cbn [fst snd]. by destruct (op w) as [[] ?]. Qed.

Lemma quiet_bind {A B} (m : eff (W * list FileWritten) Stop A) (k : A -> eff (W * list FileWritten) Stop B) :
  quiet m -> (∀ a, quiet (k a)) -> quiet (m ≫= k).
Proof.
  intros Hm Hk s. specialize (Hm s). unfold mbind, eff_bind. destruct (m s) as [[a|e] s']; [|done].
  cbn [snd fst] in Hm. destruct Hm as [<- _]. apply Hk.
Qed.

Lemma quiet_ret {A} (a : A) : quiet (mret a).
Proof. done. Qed.

Lemma quiet_dirs path : quiet (ensure_parent_dirs (W := W) path).
Proof.
  unfold ensure_parent_dirs. destruct (text_parent path) as [q|]; [destruct (is_empty q)|]; auto using quiet_io, quiet_ret.
Qed.

Lemma quiet_memory ctx path c : quiet (write_via_memory_v2 (W := W) ctx path c).
Proof. intros [w ns]. unfold write_via_memory_v2. cbn [fst]. by destruct (write_memory_v2_file ctx w path c) as [[[]|] ?]. Qed.

Lemma ends_bind {A B} (m : eff (W * list FileWritten) Stop A) (k : A -> eff (W * list FileWritten) Stop B) r ns :
  quiet m -> (∀ a, ends (k a) r ns) -> ends (m ≫= k) r ns.
Proof.
  intros Hm Hk s. specialize (Hm s). unfold mbind, eff_bind. destruct (m s) as [[a|e] s']; [|done].
  cbn [snd fst] in Hm. destruct Hm as [<- _]. apply Hk.
Qed.

#[local] Hint Resolve quiet_io quiet_dirs quiet_memory quiet_ret quiet_bind : core.

(** A change that is applied sends its notifications and yields its entry; one
    that is not sends none. *)
Lemma apply_change_ends ctx change : ends (apply_change (W := W) ctx change) (change_result change) (change_notes ctx change).
Proof.
  destruct change as [p c|p o|p o n|p d o n]; unfold apply_change.
  - apply ends_bind; [auto|]. intros b. apply ends_bind; [destruct b; auto|]. by intros _ [w ns].
  - apply ends_bind; [auto|]. by intros _ [w ns].
  - apply ends_bind; [auto|]. intros b. apply ends_bind; [destruct b; auto|]. by intros _ [w ns].
  - do 3 (apply ends_bind; [auto|intros _]). intros [w ns]. split; [done|]. cbn. by rewrite <- app_assoc.
Qed.

Lemma apply_changes_ok ctx changes (s s' : W * list FileWritten) rs :
  apply_changes ctx changes s = (Ok rs, s') ->
  rs = map change_result changes ∧ snd s' = snd s ++ concat (map (change_notes ctx) changes).
Proof.
  revert s rs. induction changes as [|change changes IH]; intros s rs; cbn [apply_changes].
  - intros [= <- <-]. cbn. by rewrite app_nil_r.
  - unfold mbind at 1, eff_bind at 1. pose proof (apply_change_ends ctx change s) as Hc.
    destruct (apply_change ctx change s) as [[r|e] s1]; [|done]. destruct Hc as [-> Hs1].
    unfold mbind, eff_bind. destruct (apply_changes ctx changes s1) as [[rs'|e] s2] eqn:Hr; [|done].
    intros [= <- <-]. apply IH in Hr as [-> Hs2]. split; [done|]. cbn [map concat]. by rewrite Hs2, Hs1, <- app_assoc.
Qed.

(** Where the changes stop: the change before which all are applied, and which fails. *)
Definition stopped_at (ctx : ToolContext) (changes : list FileChange) (s : W * list FileWritten) (k : nat) (e : Stop)
    (s' : W * list FileWritten) : Prop :=
  ∃ change rs s1, changes !! k = Some change ∧ apply_changes ctx (take k changes) s = (Ok rs, s1)
    ∧ apply_change ctx change s1 = (Err e, s').

Lemma apply_changes_err ctx changes (s s' : W * list FileWritten) e :
  apply_changes ctx changes s = (Err e, s') -> ∃ k, stopped_at ctx changes s k e s'.
Proof.
  revert s. induction changes as [|change changes IH]; intros s; cbn [apply_changes]; [done|].
  unfold mbind at 1, eff_bind at 1. destruct (apply_change ctx change s) as [[r|e'] s1] eqn:Hc.
  - unfold mbind, eff_bind. destruct (apply_changes ctx changes s1) as [[rs|e'] s2] eqn:Hr; [done|].
    intros [= <- <-]. apply IH in Hr as (k & ch & rs & s3 & Hk & Ht & He). exists (S k), ch, (r :: rs), s3.
    split_and!; [done| |done]. cbn [take apply_changes]. unfold mbind, eff_bind. by rewrite Hc, Ht.
  - intros [= <- <-]. by exists 0, change, [], s.
Qed.

Lemma apply_changes_plain ctx changes (s s' : W * list FileWritten) e :
  apply_changes ctx changes s = (Err e, s') -> plain_stop e.
Proof.
  intros (k & change & rs & s1 & _ & _ & He)%apply_changes_err.
  pose proof (apply_change_ends ctx change s1) as Hq. rewrite He in Hq. apply Hq.
Qed.

(** The notifications of a run are those of the first changes of the patch, in
    order: of all of them on success, with an entry for each, and otherwise those
    of the changes before the one that failed, which were all applied. *)
Theorem notifications_are_an_applied_prefix ctx text (w : W) r s :
  run_patch ctx text w = Some (r, s) ->
  snd s = []
  ∨ ∃ parsed changes k, parse_patch text = Some (Ok parsed)
      ∧ compute_all_changes (tc_cwd ctx) w (hunks parsed) = Some (Ok changes)
      ∧ snd s = concat (map (change_notes ctx) (take k changes))
      ∧ match r with
        | Ok (Success files prompt) => k = length changes ∧ files = map change_result changes ∧ prompt = build_summary files
        | Ok output => stopped_at ctx changes (w, []) k (StopOutput output) s
        | Err message => stopped_at ctx changes (w, []) k (StopError message) s
        end.
Proof.
  unfold run_patch. destruct (parse_patch text) as [[parsed|e]|]; [|intros [= _ <-]; by left|done].
  destruct (is_empty (hunks parsed)); [intros [= _ <-]; by left|].
  destruct (compute_all_changes _ _ _) as [[changes|e]|] eqn:Hc; [|intros [= _ <-]; by left|done].
  destruct (preflight_memory_v2_changes ctx w changes) as [[]|e]; [|intros [= _ <-]; by left].
  destruct (apply_changes ctx changes (w, [])) as [[rs|e] s'] eqn:Ha.
  - intros [= <- <-]. right. exists parsed, changes, (length changes). apply apply_changes_ok in Ha as [-> Hs].
    by rewrite take_ge.
  - apply apply_changes_err in Ha as (k & Hk). pose proof Hk as (change & rs & s1 & _ & Ht & He).
    pose proof (apply_change_ends ctx change s1) as Hq. rewrite He in Hq. destruct Hq as [Hq Hplain].
    apply apply_changes_ok in Ht as [_ Hs1].
    assert (Hs : snd s' = concat (map (change_notes ctx) (take k changes))) by (by rewrite Hq, Hs1).
    intros Hr. right. exists parsed, changes, k. destruct e as [o|m]; injection Hr as <- <-; [|done].
    by destruct o.
Qed.
End Phases.

(** * A patch that succeeds *)

Section Laws.
Context {W : Type} `{TL : ToolWorldLaws W}.

Lemma io_contents (op : W -> result unit str * W) (s s' : W * list FileWritten) u :
  io op s = (Ok u, s') -> op (fst s) = (Ok tt, fst s').
Proof. unfold io. destruct (op (fst s)) as [[[]|] w]; [|done]. by intros [= _ <-]. Qed.

Lemma ensure_parent_contents path (s s' : W * list FileWritten) u q :
  ensure_parent_dirs path s = (Ok u, s') -> contents (fst s') q = contents (fst s) q.
Proof.
  unfold ensure_parent_dirs. destruct (text_parent path) as [p|]; [destruct (is_empty p)|];
    [by intros [= _ <-]| |by intros [= _ <-]].
  intros Hd%io_contents. by eapply dirs_contents.
Qed.

Lemma memory_off ctx path c (s s' : W * list FileWritten) b :
  tc_memory ctx = false -> write_via_memory_v2 ctx path c s = (Ok b, s') -> b = false ∧ s' = s.
Proof.
  intros Hm. unfold write_via_memory_v2, write_memory_v2_file. rewrite Hm. intros [= <- <-]. by destruct s.
Qed.

Lemma apply_change_contents ctx change (s s' : W * list FileWritten) r q :
  tc_memory ctx = false -> apply_change ctx change s = (Ok r, s') ->
  contents (fst s') q = change_effect change q (contents (fst s) q).
Proof.
  intros Hmem. destruct change as [p c|p o|p o n|p d o n];
    unfold apply_change, change_effect, apply_add, apply_delete, apply_update, apply_move;
    intros (x1 & s1 & H1 & Ha)%eff_bind_ok.
  - apply memory_off in H1 as [-> ->]; [|done].
    apply eff_bind_ok in Ha as (x2 & s2 & (x3 & s3 & H3 & H2)%eff_bind_ok & [= _ <-]).
    apply io_contents in H2. cbn [fst]. rewrite (write_contents _ _ _ _ q H2). by rewrite (ensure_parent_contents _ _ _ _ q H3).
  - injection Ha as _ <-. apply io_contents in H1. cbn [fst]. by rewrite (delete_contents _ _ _ q H1).
  - apply memory_off in H1 as [-> ->]; [|done]. apply eff_bind_ok in Ha as (x2 & s2 & H2 & [= _ <-]).
    apply io_contents in H2. cbn [fst]. by rewrite (write_contents _ _ _ _ q H2).
  - apply eff_bind_ok in Ha as (x2 & s2 & H2 & (x3 & s3 & H3 & [= _ <-])%eff_bind_ok).
    apply io_contents in H2, H3. cbn [fst]. rewrite (delete_contents _ _ _ q H3), (write_contents _ _ _ _ q H2).
    by rewrite (ensure_parent_contents _ _ _ _ q H1).
Qed.

Lemma apply_changes_contents ctx changes (s s' : W * list FileWritten) rs q :
  tc_memory ctx = false -> apply_changes ctx changes s = (Ok rs, s') ->
  contents (fst s') q = foldl (fun old change => change_effect change q old) (contents (fst s) q) changes.
Proof.
  intros Hmem. revert s rs. induction changes as [|change changes IH]; intros s rs; cbn [apply_changes foldl].
  - by intros [= _ <-].
  - intros (r & s1 & H1 & (rs' & s2 & H2 & [= _ <-])%eff_bind_ok)%eff_bind_ok.
    rewrite (IH _ _ H2). by rewrite (apply_change_contents _ _ _ _ _ q Hmem H1).
Qed.
End Laws.

(** A change leaves the files it does not touch alone, and the order of changes
    of different files does not matter. *)
Lemma change_effect_other change q old : q ∉ change_paths change -> change_effect change q old = old.
Proof.
  destruct change; cbn [change_paths change_effect]; rewrite ?not_elem_of_cons; intros Hq;
    rewrite ?decide_False by tauto; done.
Qed.

Lemma effects_other changes q old :
  q ∉ concat (map change_paths changes) -> foldl (fun old change => change_effect change q old) old changes = old.
Proof.
  revert old. induction changes as [|change changes IH]; intros old; cbn [map concat foldl]; [done|].
  rewrite not_elem_of_app. intros [Hc Hq]. by rewrite change_effect_other, IH.
Qed.

Lemma paths_of_one changes change :
  NoDup (concat (map change_paths changes)) -> change ∈ changes -> NoDup (change_paths change).
Proof.
  intros Hnd (l1 & l2 & ->)%list_elem_of_split. rewrite map_app, concat_app in Hnd. cbn [map concat] in Hnd.
  apply NoDup_app in Hnd as (_ & _ & Hnd). by apply NoDup_app in Hnd as (Hnd & _).
Qed.

Lemma effects_one changes change q old :
  NoDup (concat (map change_paths changes)) -> change ∈ changes -> q ∈ change_paths change ->
  foldl (fun old change => change_effect change q old) old changes = change_effect change q old.
Proof.
  intros Hnd (l1 & l2 & ->)%list_elem_of_split Hq. rewrite map_app, concat_app in Hnd. cbn [map concat] in Hnd.
  apply NoDup_app in Hnd as (_ & Hd1 & Hnd). apply NoDup_app in Hnd as (_ & Hd2 & _).
  rewrite foldl_app. cbn [foldl]. rewrite (effects_other l1), (effects_other l2); [done|by apply Hd2|].
  intros Hin. apply (Hd1 q Hin). apply elem_of_app. by left.
Qed.

Section Success.
Context {W : Type} `{TL : ToolWorldLaws W}.

Lemma compute_changes_each cwd (w : W) hs changes :
  compute_all_changes cwd w hs = Some (Ok changes) ->
  Forall2 (fun h c => compute_change cwd w h = Some (Ok c)) hs changes.
Proof.
  revert changes. induction hs as [|h hs IH]; intros changes; cbn [compute_all_changes]; [by intros [= <-]|].
  destruct (compute_change cwd w h) as [[c|e]|] eqn:Hc; [|done..].
  destruct (compute_all_changes cwd w hs) as [[cs|e]|] eqn:Hcs; [|done..]. intros [= <-]. constructor; auto.
Qed.

Lemma compute_change_paths cwd (w : W) h c : compute_change cwd w h = Some (Ok c) -> change_paths c = hunk_paths cwd h.
Proof.
  destruct h as [p t|p|p m cs]; cbn [compute_change hunk_paths]; [by intros [= <-]|..];
    destruct (read_file_as_string w (path_push cwd p)) as [o|]; try done; [by intros [= <-]|].
  destruct (derive_new_contents o (path_push cwd p) cs) as [[n|]|]; [|done..]. destruct m; by intros [= <-].
Qed.

Lemma read_as_string_contents (w : W) p s :
  read_file_as_string w p = Ok s -> ∃ bytes, contents w (components p) = Some bytes ∧ s = from_utf8_lossy bytes.
Proof.
  unfold read_file_as_string. destruct (fs_read w p) as [b|] eqn:Hr; [|done]. intros [= <-].
  exists b. split; [|done]. by apply read_contents.
Qed.

(** The effect of the change of a hunk is what the hunk means. *)
Lemma change_effect_done cwd (w : W) after h c :
  compute_change cwd w h = Some (Ok c) -> NoDup (change_paths c) ->
  (∀ q, q ∈ change_paths c -> after q = change_effect c q (contents w q)) ->
  hunk_done cwd (contents w) after h.
Proof.
  destruct h as [p t|p|p m cs]; cbn [compute_change hunk_done].
  - intros [= <-] _ Ha. cbn in Ha. rewrite Ha by set_solver. by rewrite decide_True.
  - destruct (read_file_as_string w (path_push cwd p)) as [o|] eqn:Hr; [|done]. intros [= <-] _ Ha.
    apply read_as_string_contents in Hr as (b & -> & _). cbn in Ha. rewrite Ha by set_solver. by rewrite decide_True.
  - destruct (read_file_as_string w (path_push cwd p)) as [o|] eqn:Hr; [|done].
    apply read_as_string_contents in Hr as (b & Hb & ->).
    destruct (derive_new_contents _ (path_push cwd p) cs) as [[n|]|] eqn:Hn; [|done..].
    destruct m as [d|]; intros [= <-] Hnd Ha; exists b, n; split_and!; try done; cbn in Ha, Hnd.
    + rewrite Ha by set_solver. by rewrite decide_True.
    + rewrite Ha by set_solver. apply NoDup_cons in Hnd as [Hne _].
      rewrite decide_False by set_solver. by rewrite decide_True.
    + rewrite Ha by set_solver. by rewrite decide_True.
Qed.

(** C33 A patch that succeeds did what it says: with no memory directory in play
    and no file named twice, every added file has its contents, every deleted file
    existed and is gone, every updated file holds the new contents the engine
    derives from what it held, at its new path if it moves, and every other file
    is as it was; no hunk sees another's effect. *)
Theorem a_successful_patch_is_done ctx text (w : W) parsed files prompt s :
  tc_memory ctx = false -> parse_patch text = Some (Ok parsed) ->
  NoDup (concat (map (hunk_paths (tc_cwd ctx)) (hunks parsed))) ->
  run_patch ctx text w = Some (Ok (Success files prompt), s) ->
  Forall (hunk_done (tc_cwd ctx) (contents w) (contents (fst s))) (hunks parsed)
  ∧ ∀ q, q ∉ concat (map (hunk_paths (tc_cwd ctx)) (hunks parsed)) -> contents (fst s) q = contents w q.
Proof.
  intros Hmem Hparse Hnd. unfold run_patch. rewrite Hparse. destruct (is_empty (hunks parsed)); [done|].
  destruct (compute_all_changes _ _ _) as [[changes|e]|] eqn:Hc; [|done..].
  destruct (preflight_memory_v2_changes ctx w changes); [|done].
  destruct (apply_changes ctx changes (w, [])) as [[rs|[o|e]] s'] eqn:Ha; [|apply apply_changes_plain in Ha; by destruct o|done].
  intros [= _ _ <-]. apply compute_changes_each in Hc.
  assert (Hp : concat (map change_paths changes) = concat (map (hunk_paths (tc_cwd ctx)) (hunks parsed))).
  { clear -Hc. induction Hc as [|h c hs cs Hhc _ IH]; [done|]. cbn [map concat]. by rewrite IH, (compute_change_paths _ _ _ _ Hhc). }
  rewrite <- Hp in Hnd |- *.
  pose proof (fun q => apply_changes_contents ctx changes (w, []) s' rs q Hmem Ha) as Hcont. cbn [fst] in Hcont.
  split; [|intros q Hq; by rewrite Hcont, effects_other].
  apply Forall_forall. intros h Hh. apply list_elem_of_lookup in Hh as [i Hi].
  destruct (Forall2_lookup_l _ _ _ _ _ Hc Hi) as (c & Hci & Hhc). apply list_elem_of_lookup_2 in Hci.
  eapply change_effect_done; [done|by eapply paths_of_one|].
  intros q Hq. by rewrite Hcont, (effects_one changes c).
Qed.
End Success.

(** * The tool answers *)

Lemma compute_all_changes_total {W} `{ToolWorld W} cwd (w : W) hs : ∃ r, compute_all_changes cwd w hs = Some r.
Proof.
  induction hs as [|h hs [r IH]]; cbn [compute_all_changes]; [eauto|].
  assert (Hh : ∃ r, compute_change cwd w h = Some r).
  { destruct h as [p t|p|p m cs]; cbn [compute_change]; [eauto|..]; destruct (read_file_as_string w (path_push cwd p)) as [o|]; eauto.
    destruct (derive_never_panics o (path_push cwd p) cs) as [[n|e] ->]; [destruct m|]; eauto. }
  destruct Hh as [[c|e] ->]; [|eauto]. rewrite IH. destruct r; eauto.
Qed.

(** C37 The tool always answers, on any text, any files and whatever the file
    system and the memory policy reply: the parser's loops end, the engine does
    not insert past the end of a vector, and a failing operation ends the run with
    an output or an error. *)
Theorem the_tool_always_answers {W} `{ToolWorld W} ctx text (w : W) : ∃ outcome, run_patch ctx text w = Some outcome.
Proof.
  unfold run_patch. destruct (parse_patch_text_total text Lenient) as [r Hr].
  unfold parse_patch, PARSE_IN_STRICT_MODE. rewrite Hr. destruct r as [parsed|e]; [|eauto].
  destruct (is_empty (hunks parsed)); [eauto|].
  destruct (compute_all_changes_total (tc_cwd ctx) w (hunks parsed)) as [[changes|e] ->]; [|eauto].
  destruct (preflight_memory_v2_changes ctx w changes); [|eauto].
  destruct (apply_changes ctx changes (w, [])) as [[rs|[o|e]] s]; eauto.
Qed.

(** ** The in-memory file system *)

#[export] Instance MockLaws : ToolWorldLaws MockFs.
Proof.
  refine {| contents := fun (fs : MockFs) q => fs !! q |}.
  - intros w p b. cbn. unfold mock_read. destruct (w !! components p); split; congruence.
  - intros w p b w' q [= <-]. destruct (decide (q = components p)) as [->|Hne];
      [by rewrite lookup_insert_eq|by rewrite lookup_insert_ne].
  - intros w p w' q [= <-]. destruct (decide (q = components p)) as [->|Hne];
      [by rewrite lookup_delete_eq|by rewrite lookup_delete_ne].
  - by intros w p r w' q [= <- <-].
Defined.

Lemma mock_dirs (path : str) (s : MockFs * list FileWritten) : ensure_parent_dirs path s = (Ok tt, s).
Proof.
  unfold ensure_parent_dirs. destruct (text_parent path) as [p|]; [destruct (is_empty p)|]; try done.
  by destruct s.
Qed.

Lemma mock_changes (ctx : ToolContext) (changes : list FileChange) (s : MockFs * list FileWritten) :
  tc_memory ctx = false -> ∃ rs s', apply_changes ctx changes s = (Ok rs, s').
Proof.
  intros Hmem. revert s. induction changes as [|change changes IH]; intros s; cbn [apply_changes]; [eauto|].
  assert (Hc : ∃ r s1, apply_change ctx change s = (Ok r, s1)).
  { destruct s as [fs ns], change as [p c|p o|p o n|p d o n];
      unfold apply_change, apply_add, apply_update, apply_move, write_via_memory_v2, write_memory_v2_file, mbind, eff_bind;
      rewrite ?Hmem; cbn [fst snd]; rewrite ?mock_dirs; eauto. }
  destruct Hc as (r & s1 & Hc), (IH s1) as (rs & s2 & Hcs). unfold mbind, eff_bind. rewrite Hc, Hcs. eauto.
Qed.

(** On the in-memory file system a patch of at least one hunk succeeds exactly
    when every hunk can be computed. *)
Lemma mock_patch_applies (ctx : ToolContext) (text : str) (fs : MockFs) (parsed : ParsedPatch) :
  tc_memory ctx = false -> parse_patch text = Some (Ok parsed) -> hunks parsed ≠ [] ->
  match compute_all_changes (tc_cwd ctx) fs (hunks parsed) with
  | Some (Ok changes) => ∃ files prompt s, run_patch ctx text fs = Some (Ok (Success files prompt), s)
  | Some (Err message) => run_patch ctx text fs = Some (Ok (ApplicationError message), (fs, []))
  | None => False
  end.
Proof.
  intros Hmem Hparse Hne. destruct (compute_all_changes_total (tc_cwd ctx) fs (hunks parsed)) as [[changes|e] Hc]; rewrite Hc;
    unfold run_patch; rewrite Hparse, (proj2 (is_empty_false _)), Hc by done; [|done].
  assert (Hpre : preflight_memory_v2_changes ctx fs changes = Ok tt).
  { clear Hc. induction changes as [|c cs IH]; [done|]. cbn [preflight_memory_v2_changes].
    assert (preflight_change ctx fs c = Ok tt) as ->; [|done].
    destruct c; unfold preflight_change, reject_memory_v2_destructive_path, preflight_memory_v2_write, validate_memory_v2_read;
      by rewrite Hmem. }
  rewrite Hpre. destruct (mock_changes ctx changes (fs, []) Hmem) as (rs & s & Ha). rewrite Ha. eauto.
Qed.

(** * Runs *)

Definition demo_tool : ToolContext := mkContext (lit "/w") false (lit "call").

Definition demo_fs : MockFs :=
  list_to_map [(components (lit "/w/src/app.py"), text_of (map lit ["def greet():"; "print('Hi')"]%string) ++ nl);
               (components (lit "/w/obsolete.txt"), lit "old");
               (components (lit "/w/kept.txt"), lit "kept")].

Definition update_of (path old new : string) : FileOp :=
  OpUpdate (lit path) None [mkSource None [Removed (lit old); Added (lit new)] false].

(** What a run shows: its outcome, the files at some paths and the notifications. *)
Definition observe {W} (look : W -> str -> option str) (ps : list str)
    (o : option (result ApplyPatchOutput str * (W * list FileWritten)))
    : option (result ApplyPatchOutput str * list (option str) * list FileWritten) :=
  match o with
  | Some (r, (w, ns)) => Some (r, map (look w) ps, ns)
  | None => None
  end.

Definition mock_look (fs : MockFs) (p : str) : option str := fs !! components p.

Lemma a_successful_patch_is_done_witness :
  ∃ parsed files prompt s,
    tc_memory demo_tool = false ∧ parse_patch (print_patch demo_ops) = Some (Ok parsed)
    ∧ NoDup (concat (map (hunk_paths (tc_cwd demo_tool)) (hunks parsed)))
    ∧ run_patch demo_tool (print_patch demo_ops) demo_fs = Some (Ok (Success files prompt), s)
    ∧ Forall (hunk_done (tc_cwd demo_tool) (contents demo_fs) (contents (fst s))) (hunks parsed)
    ∧ contents (fst s) (components (lit "/w/kept.txt")) = contents demo_fs (components (lit "/w/kept.txt")).
Proof.
  assert (Hparse : ∃ parsed, parse_patch (print_patch demo_ops) = Some (Ok parsed)
    ∧ NoDup (concat (map (hunk_paths (tc_cwd demo_tool)) (hunks parsed)))
    ∧ components (lit "/w/kept.txt") ∉ concat (map (hunk_paths (tc_cwd demo_tool)) (hunks parsed))).
  { eexists. split; [vm_compute; reflexivity|]. split; by_decide. }
  assert (Hok : match run_patch demo_tool (print_patch demo_ops) demo_fs with Some (Ok (Success _ _), _) => true | _ => false end = true)
    by (vm_compute; reflexivity).
  destruct Hparse as (parsed & Hparse & Hnd & Hkept).
  destruct (run_patch demo_tool (print_patch demo_ops) demo_fs) as [[[[files prompt|m|m|m]|e] s]|] eqn:Hrun; try discriminate Hok.
  exists parsed, files, prompt, s. split; [reflexivity|]. split; [exact Hparse|]. split; [exact Hnd|]. split; [reflexivity|].
  destruct (a_successful_patch_is_done demo_tool _ demo_fs parsed files prompt s eq_refl Hparse Hnd Hrun) as [Hd Hf].
  split; [exact Hd|]. exact (Hf _ Hkept).
Defined.

(** The second hunk does not apply: the file of the first is not touched. *)
Definition half_bad_patch : str := print_patch [OpDelete (lit "obsolete.txt"); update_of "kept.txt" "nothing" "x"].

Lemma nothing_is_written_before_all_is_computed_witness :
  ∃ r s, run_patch demo_tool half_bad_patch demo_fs = Some (r, s)
    ∧ mock_look (fst s) (lit "/w/obsolete.txt") = Some (lit "old")
    ∧ (s = (demo_fs, [])
       ∨ ∃ parsed changes, parse_patch half_bad_patch = Some (Ok parsed)
           ∧ compute_all_changes (tc_cwd demo_tool) demo_fs (hunks parsed) = Some (Ok changes)
           ∧ preflight_memory_v2_changes demo_tool demo_fs changes = Ok tt
           ∧ snd (apply_changes demo_tool changes (demo_fs, [])) = s).
Proof.
  assert (Hlook : match run_patch demo_tool half_bad_patch demo_fs with
                  | Some (Ok (ApplicationError _), s) => mock_look (fst s) (lit "/w/obsolete.txt")
                  | _ => None
                  end = Some (lit "old")) by (vm_compute; reflexivity).
  destruct (run_patch demo_tool half_bad_patch demo_fs) as [[r s]|] eqn:Hrun; [|discriminate Hlook].
  exists r, s. split; [reflexivity|]. split.
  - destruct r as [[]|]; first [exact Hlook | discriminate Hlook].
  - exact (nothing_is_written_before_all_is_computed demo_tool half_bad_patch demo_fs r s Hrun).
Defined.

(** Once the writes begin a failure leaves what was written: the second file is
    read-only, the first is changed and announced. *)
Definition guarded_fs : GuardedFs :=
  mkGuarded (list_to_map [(components (lit "/w/a"), lit "1" ++ nl); (components (lit "/w/b"), lit "1" ++ nl)]) [lit "/w/b"].

Definition two_updates : str := print_patch [update_of "a" "1" "2"; update_of "b" "1" "2"].

Example half_applied :
  observe (fun fs => mock_look (gf_files fs)) [lit "/w/a"; lit "/w/b"] (run_patch demo_tool two_updates guarded_fs)
  = Some (Err (lit "IO Error: Permission denied"), [Some (lit "2" ++ nl); Some (lit "1" ++ nl)],
          [mkWritten (lit "call") (lit "/w/a") (lit "2" ++ nl) (Some (lit "1" ++ nl)) false]).
Proof. vm_compute. reflexivity. Qed.

Lemma notifications_are_an_applied_prefix_witness :
  ∃ r s, run_patch demo_tool two_updates guarded_fs = Some (r, s)
    ∧ (snd s = []
       ∨ ∃ parsed changes k, parse_patch two_updates = Some (Ok parsed)
           ∧ compute_all_changes (tc_cwd demo_tool) guarded_fs (hunks parsed) = Some (Ok changes)
           ∧ snd s = concat (map (change_notes demo_tool) (take k changes))
           ∧ match r with
             | Ok (Success files prompt) => k = length changes ∧ files = map change_result changes ∧ prompt = build_summary files
             | Ok output => stopped_at demo_tool changes (guarded_fs, []) k (StopOutput output) s
             | Err message => stopped_at demo_tool changes (guarded_fs, []) k (StopError message) s
             end).
Proof.
  destruct (run_patch demo_tool two_updates guarded_fs) as [[r s]|] eqn:Hrun.
  - exists r, s. split; [reflexivity|]. exact (notifications_are_an_applied_prefix demo_tool two_updates guarded_fs r s Hrun).
  - pose proof half_applied as Hh. rewrite Hrun in Hh. discriminate Hh.
Defined.

(** Every hunk is computed from the file as it was: of two updates of one file the
    first is lost. *)
Example first_update_is_lost :
  observe mock_look [lit "/w/f"]
    (run_patch demo_tool (print_patch [update_of "f" "a" "x"; update_of "f" "b" "y"])
       {[components (lit "/w/f") := text_of (map lit ["a"; "b"]%string) ++ nl]})
  ≫= (fun o => head (snd (fst o)))
  = Some (Some (text_of (map lit ["a"; "y"]%string) ++ nl)).
Proof. vm_compute. reflexivity. Qed.

(** A file added by the patch cannot be updated by it. *)
Example added_file_is_not_there :
  observe mock_look [lit "/w/f"] (run_patch demo_tool (print_patch [OpAdd (lit "f") [lit "a"]; update_of "f" "a" "x"]) (∅ : MockFs))
  = Some (Ok (ApplicationError (lit "Failed to read file to update: /w/f, IO Error: File not found: /w/f")), [None], []).
Proof. vm_compute. reflexivity. Qed.

(** A move of a file to its own path deletes it. *)
Example move_onto_itself_deletes :
  observe mock_look [lit "/w/f"]
    (run_patch demo_tool
       (print_patch [OpUpdate (lit "f") (Some (lit "f")) [mkSource None [Removed (lit "a"); Added (lit "x")] false]])
       {[components (lit "/w/f") := lit "a" ++ nl]})
  ≫= (fun o => head (snd (fst o)))
  = Some None.
Proof. vm_compute. reflexivity. Qed.

(** An added file that exists is replaced, and announced as new. *)
Example added_file_replaces :
  observe mock_look [lit "/w/f"]
    (run_patch demo_tool (print_patch [OpAdd (lit "f") [lit "new"]]) ({[components (lit "/w/f") := lit "old"]} : MockFs))
  = Some (Ok (Success [mkFileResult (lit "/w/f") (lit "added") None (lit "new" ++ nl) None]
               (lit "Success. Updated the following files:" ++ nl ++ lit "A /w/f" ++ nl)),
          [Some (lit "new" ++ nl)], [mkWritten (lit "call") (lit "/w/f") (lit "new" ++ nl) None true]).
Proof. vm_compute. reflexivity. Qed.
